(* ===== verification/_CoqProject ===== *)
-Q . S2P
Prelude.v
Bitfield.v
Regs.v
CardStatus.v
Command.v
Dma.v
Machine.v
Irq.v
Logic.v
Sim.v
Driver.v
Transfer.v
Init.v
Handler.v
BlockIo.v
Plan.v
Events.v
DmaSafety.v
Safety.v
Lifecycle.v
Termination.v
Races.v
Ipc.v
MsgQueue.v
Msg.v
MsgHistory.v
Shm.v
ShmHistory.v
Locks.v
Io.v
PageCache.v
CacheSpec.v
FileApi.v
CacheHistory.v
Tmpfs.v
TmpfsLinks.v
OpenFiles.v
CacheLimits.v
Cow.v
CowSpec.v
CowOps.v
CowHistory.v
Epoll.v
EpollHistory.v
Pipe.v
PipeSpec.v
Futex.v
FutexSpec.v
FutexLimits.v
Vsock.v
VsockSpec.v
VsockHistory.v
Sched.v
SchedSpec.v
SchedMoves.v
SchedProof.v
SchedThread.v
SchedHistory.v
SchedSafety.v
Timer.v
Tty.v
TtySpec.v
TtyLive.v
Mutex.v
WaitQueue.v
Unix.v
UnixSpec.v
PollIo.v
EventFd.v
FdTable.v
FdSpec.v
Paths.v
Ethernet.v
Router.v
Listen.v
ITimer.v
AddrSpace.v
