(* ===== verification/Prelude.v ===== *)
(** * A verification of the StarryOS kernel sources

    ** The program

    The repository is a Unix-like kernel written in Rust: [kernel/] holds the system calls,
    processes, memory management, files and pseudo file systems; [modules/] the libraries below
    it (tasks, drivers, file systems, network, allocators, platform).  Block storage on its
    hardware target goes through an SD/MMC driver of its own,
    [modules/simple-sdmmc-extended], which drives a DesignWare controller with an internal DMA
    engine (IDMAC) and an interrupt handler, and which the adapter
    [modules/axdriver_block-m/src/sdmmc.rs] presents to the file systems.

    Above the drivers, files are read and written through the page cache of
    [modules/axfs-ng/src/highlevel/file.rs], which also serves tmpfs, the file system in memory of
    [kernel/src/pseudofs/tmp.rs].  Processes share memory and pages after a fork through the
    back ends of [kernel/src/mm/aspace/backend/], and communicate by pipes and wait by epoll
    ([kernel/src/file/]) and futexes ([kernel/src/task/futex.rs]).  Virtual machines reach the host
    through the sockets of [modules/axnet-ng/src/vsock/], processes each other through those of
    [modules/axnet-ng/src/unix/], and other hosts through a third-party TCP/IP stack on top of the
    router and the Ethernet device of [modules/axnet-ng].  A process names files by descriptors
    ([kernel/src/file/mod.rs]) and by paths ([modules/axfs-ng/src/highlevel/fs.rs]), and talks to its
    user through terminals ([kernel/src/pseudofs/dev/tty/]).  Below all of it [modules/axtask]
    schedules the tasks of several CPUs, blocks and wakes them, and keeps their timers, and
    [modules/axsync] gives them mutexes.

    This development models these parts, in definitions that follow the source function by function
    and can be run, and proves what makes them correct.

    ** SD/MMC: data

    - [Bitfield]: packed registers as integers with named fields; the crate [bitfield_struct] is
      the class [BitfieldStruct], its documentation the class [BitfieldDoc].
    - [Regs] ([regs.rs]): every register layout and the register block.
    - [CardStatus] ([utils.rs]): R1 status, CID, CSD and the capacity of the card.
    - [Command] ([cmd.rs]): the commands and the register value, argument and data phase each
      one builds.
    - [Dma] ([dma.rs], and the descriptor loop of [sdmmc.rs]): descriptors, the chain the driver
      writes, and the walk of the engine over it.

    ** SD/MMC: behaviour

    - [Machine]: the state of a run (driver object [SdMmc], static variables, platform, event
      log) and the monad of driver code, whose computations return, are cancelled (a future
      dropped at a suspension point), panic or exhaust fuel.  Controller, card, DMA memory,
      clocks, executor and the arrival of interrupts are the class [Platform] over an arbitrary
      state: what is proved holds for every hardware.
    - [Irq]: the interrupt handler [dma_irq_handler] and the completion snapshot; the handler may
      run before every access of a task.  [Handler] specifies it.
    - [Driver]: polled commands, DMA reset, card clock.  [Transfer]: DMA transfers, synchronous
      and asynchronous, with [WaitQueue::wait_timeout_until_async] of
      [axtask/src/wait_queue.rs].  [Init]: construction, card initialisation, switching DMA on,
      destruction.  [BlockIo]: block ranges, and the adapter.
    - [Sim]: an executable controller and card, the instance all witnesses run on.

    ** SD/MMC: theorems

    - [Logic] is a program logic for the monad: [emits] bounds the events of a computation, and
      the weakest precondition [vwp] tracks the driver object and a monitor, an automaton that
      reads the event log.  [Events] applies it to the polling functions.
    - [DmaSafety] defines the monitor of DMA memory (what is live, what the engine may access,
      whether it runs) and specifies a transfer; [Safety] adds the chunk and block loops;
      [Lifecycle] composes them over all histories of a driver, by rule induction over
      [reachable]: memory safety, no panics, cancellation faults the driver, a faulted driver is
      inert, and nothing leaks as long as the engine answers its resets.
    - [Plan]: the block loops issue exactly the chunks of a closed form, and the adapter accepts
      exactly the valid ranges.
    - [Termination]: with clocks that advance, every block operation ends.
    - [Races]: the completion snapshot isolates transfers, except for two interleavings of
      handler and task in which status bits reach the wrong reader.

    ** System V IPC

    - [Ipc] ([ipc/mod.rs]): the monad of system calls (value, error code or panic), Rust's
      ordered maps, permissions.
    - [MsgQueue], [Msg] ([ipc/msg.rs]): message queues, the manager and the four calls.  [MsgQueue]
      proves a queue to be the sequence of its messages in order of arrival.  [MsgHistory] cuts
      the calls into their atomic sections, interleaves threads, and proves that of every type
      the messages sent are those received and those queued, in order, that the totals are exact,
      the effect of sending and receiving, and what becomes of removed queues.
    - [Shm] ([ipc/shm.rs]): the bidirectional map, segments, the manager, the four calls
      and process exit.  [ShmHistory] proves that the two records of attachments agree after
      histories of orderly calls ([orderly]), and where the code breaks this.
    - [Locks]: the calls as lock traces; the message-queue calls cannot deadlock, the
      shared-memory calls can.

    ** Files

    - [Io]: the monad of the components below, over an arbitrary state: a computation returns,
      fails with an error, panics or diverges; [iwp] is its weakest precondition, [zoom] runs a
      computation on a part of the state.
    - [PageCache] ([highlevel/file.rs]): [CachedFile].  The LRU map ([lru] crate), the node, the page
      allocator, the caller's buffers and the eviction listeners are the classes [LruCache] and
      [CacheEnv]; their documented behaviour is in [LruLaws] and [CacheEnvLaws], with instances.
      [CacheSpec] relates the cache to a sequence of bytes ([repr]) and specifies each step,
      [CacheHistory] each operation and all histories: of the bytes that a history promises
      ([spec]) the cache is invisible and [sync] makes them durable, and no page leaks.
    - [FileApi] ([highlevel/file.rs], [syscall/fs/io.rs]): open options, [FileBackend], [File] with
      its position and access flags, and the system calls on it.  [OpenFiles] proves that an open
      file is a sequence of bytes with a POSIX position, for offsets that are not negative.  [CacheLimits] has the witnesses, the bound on
      offsets that 32-bit page numbers impose, and three ways to lose or leak bytes.
    - [Tmpfs] ([pseudofs/tmp.rs]): inodes, links, nodes and their destruction; the [slab] crate is a
      class.  [TmpfsLinks]: link counts are exact in every history, which operations panic, and how
      [rename] empties a directory.
    - [Paths] ([highlevel/fs.rs], parts of [kernel/src/file/fs.rs] and [syscall/fs/ctl.rs]): [FsContext]
      with path resolution, symbolic links, the operations on names and the directory iterator;
      locations and nodes are the class [Vfs].  Resolution always ends and agrees with
      [posix_walk], which rewrites the path, in a root that has no parent and where dots follow
      directories; a directory is listed completely; the root of a context does not confine, and dots
      pass through files.
    - [FdTable] ([file/mod.rs], [syscall/fs/fd_ops.rs], [pipe.rs], [pidfd.rs], parts of execve and clone):
      descriptors of any number of processes, in tables they may share; the array they are kept in
      is the class [FlattenObjects].  [FdSpec]: every call does what POSIX says ([posix]), but for
      those listed ([deviates]), and which calls never return.

    ** Private memory

    - [Cow] ([aspace/backend/cow.rs], parts of [backend/mod.rs] and [aspace/mod.rs]): frame counters,
      population, unmapping, fork, protection, page faults, and a store by a user program.  Page
      tables ([page_table_multiarch]), the frame allocator and files are the classes [PageTable] and
      [MmEnv].  [CowSpec] has their laws and the counting argument, [CowOps] the specification of each
      operation, [CowHistory] that copy-on-write is copying, and that counters are exact, over all
      histories of any number of address spaces ([mm_in_range]: no counter is full when forking, and no
      protection makes a shared frame writable); then witnesses, and what happens otherwise.
    - [AddrSpace] ([aspace/mod.rs], [syscall/mm/mmap.rs]): an address space as a set of areas, the class
      [MemorySet] with its laws, and a page table: mapping, population, unmapping, protection, access
      to data, page faults, and mmap, munmap, mprotect and mremap.  The access check is exact, mmap
      maps what it returns and nothing else, data access follows the page table; mremap always fails.

    ** Waiting

    - [Epoll] ([file/epoll.rs]): interests, trigger modes, the ready queue, and files as the class
      [Pollables].  [EpollHistory] has the invariant that no event is missed, the theorem for all
      histories, in which files also change during a wait, and three ways in which the code deviates
      from epoll, one of them an event that comes between the look at a file and the registration
      with it.
    - [Pipe] ([file/pipe.rs], [poll_io] of [axtask/src/future/poll.rs]): the steps of readers and
      writers, interleaved at will.  [PipeSpec]: bytes come out in order; a task that waits has to;
      and a race in which a reader waits for ever.
    - [Futex] ([task/futex.rs], [syscall/sync/futex.rs], parts of [task/ops.rs]): wait queues, keys, the
      table of entries and its guards, the commands of the system call, one lock at a time.
      [FutexSpec]: the threads see one queue per word, as long as a guard is dropped in one step.
      [FutexLimits]: witnesses, the race of a guard that loses a waiter, and a wake-up spent on a
      wait that has expired.
    - [PollIo] ([axtask/src/future/poll.rs]): the same [poll_io] for any object, the class [Pollee]: if
      an attempt that blocks changes nothing and every change wakes whom it unblocks ([PolleeLaws]), no
      wake-up is lost.  [EventFd] ([file/event.rs]) is an instance: its counter is what was written less
      what was taken, and its readers and writers wait only with reason.
    - [Mutex] ([axsync/src/mutex.rs]): the owner word, spinning and the event of a mutex, one access at a
      time; the crate [event_listener] is the class [EventOps] with its laws.  Mutual exclusion, and a
      free mutex is taken.  [WaitQueue] ([axtask/src/wait_queue.rs]) uses the same class: no
      notification is missed, and a wait with a deadline ends.

    ** Terminals

    - [Tty] ([pseudofs/dev/tty/]): settings, line discipline, job control and pseudo terminals, as the
      steps of the reader task, a reading thread, the master side and changes of the settings.
      [TtySpec] states what an editor without buffers does and proves that the terminal refines it in
      every interleaving.  [TtyLive]: on a terminal in raw mode from the start no input is left lying
      while a reader waits; and runs in which a long line is, a flush kills the reader task, and the
      master is not woken.

    ** Virtual sockets

    - [Vsock] ([vsock/connection_manager.rs], [vsock/stream.rs], [device/vsock.rs]): connections with
      their buffers, accept queues, ports, the socket calls, and the events of the device, a
      parameter.  [VsockSpec] has the invariant and the specification of every call, [VsockHistory] the
      theorems for all histories of calls taken one at a time: nothing panics, the poll of the device
      runs as long as there are connections, bytes are delivered in order; then witnesses, and
      calls that deadlock, sleep for ever, or report the end of a stream too early.

    ** Other sockets and the network

    - [Unix] ([axnet-ng/src/unix/]): stream and datagram sockets, their channels, addresses and queues
      of connections.  [UnixSpec]: bytes come out as they went in, packets in order and cut to the receiver's
      buffer, and every end of a stream is in one place; a large blocking send never returns, and the end of a stream is not reported.
    - [Ethernet] ([device/ethernet.rs]): neighbours, ARP and pending packets; driver, packet buffer and
      wire formats are classes.  Packets go where their next hop has said to be.  [Router]
      ([router.rs], [device/loopback.rs]): the rule that is found has the longest prefix; dispatch empties
      the queue.  [Listen] ([listen_table.rs]): a connection is accepted once; listening on an
      unbound socket panics; a queue of half-open connections stays full; accept can deadlock with the poll of the interfaces.

    ** Tasks

    - [Sched] ([axtask/src/run_queue.rs], [task.rs], [api.rs], [future/mod.rs], with the features smp,
      preempt and irq): tasks, wakers, CPUs and run queues.  A CPU is at a place of the scheduler's
      code ([pc]) or runs the code of its current task ([code]); a step makes one access to what CPUs
      share.  The scheduler axsched is the class [BaseScheduler], its contract [BaseSchedulerLaws];
      what other code may call are the events of [event].
    - [SchedSpec] states where every task is ([core], by counting) and when a change of one task and
      one CPU keeps it; [SchedMoves] has the moves that change more.  [SchedProof] and
      [SchedThread] prove that the steps of a CPU in the scheduler keep the invariant, which also covers
      guards against preemption, wakers and run queues, and those of tasks too.  [SchedHistory]: a
      migrated task lands on a CPU it may run on; initialisation and all histories.
    - [SchedSafety] shows that CPUs wait only for CPUs that can go on, and has the theorems: tasks are neither lost nor in two places, no assertion fails,
      nothing in use is freed, no wake-up is lost, no deadlock, the search for a queue ends.
      Then witnesses with a first-in-first-out scheduler on two CPUs, and runs in which
      [join] misses an exit or its code, affinity is ignored, and a task's name stops the machine.
    - [Timer] ([axtask/src/future/time.rs]): the timers of every CPU and the futures that use them:
      exact as long as a task stays on its CPU, and not otherwise.
    - [ITimer] ([kernel/src/task/timer.rs], [syscall/time.rs]): the interval timers of threads and the
      alarm task: a timer without an interval that is due has fired, unless its thread had borrowed its
      times when the alarm came; one with an interval fires once.

    ** Bounds and fuel

    Loops that are not structural take fuel, and running out of it is an outcome of its own
    ([Diverged]).  Safety theorems hold for every fuel and cover that outcome.  The fuel of the
    block loops is the length of the buffer plus one and is shown sufficient in [Plan];
    [Termination] shows that fuel times clock step of five seconds, the longest timeout of the
    driver, is enough for all loops of an operation.  The walk over a descriptor
    chain takes as many steps as the chain has descriptors; the simulated engine is given eight,
    twice the largest chain.  Identifiers of IPC objects are assumed not to wrap
    around ([2 ^ 31] creations), and message bytes to fit into memory ([in_memory]).  In the
    page cache [sync] takes one round per page and has the size of the cache as its fuel; a nested
    drop in tmpfs removes an inode each time, and has their number; [poll_events] returns one event
    or shortens the queue in every round.  The search for a free port visits each of the 16384
    ephemeral ports once, a send retries ten times as the code does.  The loop of the line discipline
    handles a character or sends a line in each round ([poll_fuel]); path resolution nests at most as
    deep as 40 symbolic links allow ([path_fuel]); the loops of the router and of ARP take a packet, those
    over areas an area each time.  The theorems on these
    components state that operations return, so that fuel is enough.  The scheduler has no fuel: its
    loops are steps, and [select_run_queue_ends] bounds their number.  Task numbers do not wrap
    around, and the counter of a timer wheel is assumed not to reach [2 ^ 64].

    ** What is not modelled

    Log output (the register reads in its arguments are), formatting, and busy delays without
    effect.  The handler runs atomically on the interrupted CPU: interleavings of its own
    accesses with a task on another CPU are left out.  [shm.rs] is taken one call at a time
    (with its lock traces in [Locks]).  The page cache, tmpfs, private memory, descriptors and virtual
    sockets are taken one operation at a time, and so is epoll, but for the files, which change during
    a wait; other interleavings inside an operation, where the locks allow them, are left out.  Of the
    locks of tmpfs those are modelled that an operation may take twice.  In the scheduler the contents of contexts and stacks are left out: it is proved that
    no two CPUs use those of one task.  Of the terminal's ioctl requests
    those that report a value are left out, of Unix sockets ancillary data and socket options, of the
    descriptor calls [openat] and the file locks, which are stubs.

    Not modelled at all, and why: the adapters of third-party crates (ext4, FAT, the calls of TCP and
    UDP sockets, the allocators, page tables, processes and signals), which map arguments and errors to
    code that is not part of the sources; the binding to the C library lwext4; procfs and devfs, which
    format their contents on demand; the dispatch of system calls; the registry of devices, display and
    input; and the start-up of the platform and its hardware access.

    This file holds the shared vocabulary: results, machine integers, list lemmas, tactics, and sums
    over maps. *)

From stdpp Require Export base list numbers option strings sets gmap.
From Stdlib Require Export ZArith Lia.

#[global] Open Scope Z_scope.

(** ** Results *)

(** Rust's [Result<A, E>]. *)
Inductive result (E A : Type) : Type :=
| Ok (a : A)
| Err (e : E).
Arguments Ok {E A} a.
Arguments Err {E A} e.

#[global] Instance result_eq_dec {E A} `{EqDecision E, EqDecision A} : EqDecision (result E A).
Proof. solve_decision. Defined.

(** The [Result::is_ok] and [Result::is_err] tests. *)
Definition is_ok {E A} (r : result E A) : bool := match r with Ok _ => true | Err _ => false end.
Definition is_err {E A} (r : result E A) : bool := negb (is_ok r).

(** [Option::ok_or]. *)
Definition ok_or {E A} (o : option A) (e : E) : result E A :=
  match o with Some a => Ok a | None => Err e end.

(** ** Machine integers: unsigned values kept in [Z], with the width written out *)

Definition u8_max : Z := 2 ^ 8 - 1.
Definition u16_max : Z := 2 ^ 16 - 1.
Definition u32_max : Z := 2 ^ 32 - 1.
Definition u64_max : Z := 2 ^ 64 - 1.

(** [x as u16], [x as u32], [x as u64]: truncation to the width. *)
Definition as_u8 (z : Z) : Z := z mod 2 ^ 8.
Definition as_u16 (z : Z) : Z := z mod 2 ^ 16.
Definition as_u32 (z : Z) : Z := z mod 2 ^ 32.
Definition as_u64 (z : Z) : Z := z mod 2 ^ 64.

(** [a.checked_add(b)] at the given maximum, and [u32::try_from]. *)
Definition checked_add (max a b : Z) : option Z := if a + b <=? max then Some (a + b) else None.
Definition try_u32 (z : Z) : option Z := if z <=? u32_max then Some z else None.

(** [a.wrapping_add(b)] on [usize] (the target is a 64-bit machine). *)
Definition wrapping_add_usize (a b : Z) : Z := as_u64 (a + b).

Lemma as_u32_range z : 0 <= as_u32 z < 2 ^ 32.
Proof. unfold as_u32. apply Z.mod_pos_bound. lia. Qed.

Lemma as_u32_small z : 0 <= z < 2 ^ 32 -> as_u32 z = z.
Proof. apply Z.mod_small. Qed.

Lemma as_u64_range z : 0 <= as_u64 z < 2 ^ 64.
Proof. unfold as_u64. apply Z.mod_pos_bound. lia. Qed.

Lemma as_u64_small z : 0 <= z < 2 ^ 64 -> as_u64 z = z.
Proof. apply Z.mod_small. Qed.

Lemma as_u16_small z : 0 <= z < 2 ^ 16 -> as_u16 z = z.
Proof. apply Z.mod_small. Qed.

Lemma checked_add_Some max a b c : checked_add max a b = Some c <-> c = a + b /\ a + b <= max.
Proof.
  unfold checked_add. destruct (Z.leb_spec (a + b) max); split; intros;
    simplify_eq/=; lia || (split; [done | lia]) || (f_equal; lia) || (destruct_and?; lia || (f_equal; lia)).
Qed.

Lemma checked_add_None max a b : checked_add max a b = None <-> max < a + b.
Proof.
  unfold checked_add. destruct (Z.leb_spec (a + b) max); split; intros; (done || lia).
Qed.

(** ** Lists *)

(** The bytes [l[lo..lo + n]]. *)
Definition slice {A} (lo n : nat) (l : list A) : list A := take n (drop lo l).

Lemma filter_app_length {A} (P : A -> Prop) `{forall x, Decision (P x)} (l k : list A) :
  length (filter P (l ++ k)) = (length (filter P l) + length (filter P k))%nat.
Proof. by rewrite filter_app, length_app. Qed.

(** ** Automation *)

Create HintDb sd.

(** Turn boolean tests of the source into propositions. *)
Ltac bool_hyps :=
  repeat match goal with
    | H : (_ && _)%bool = true |- _ => apply andb_true_iff in H as [? ?]
    | H : (_ || _)%bool = false |- _ => apply orb_false_iff in H as [? ?]
    | H : negb _ = true |- _ => apply negb_true_iff in H
    | H : negb _ = false |- _ => apply negb_false_iff in H
    | H : (_ <=? _) = true |- _ => apply Z.leb_le in H
    | H : (_ <=? _) = false |- _ => apply Z.leb_gt in H
    | H : (_ <? _) = true |- _ => apply Z.ltb_lt in H
    | H : (_ <? _) = false |- _ => apply Z.ltb_ge in H
    | H : (_ =? _) = true |- _ => apply Z.eqb_eq in H
    | H : (_ =? _) = false |- _ => apply Z.eqb_neq in H
    end.

(** Case analysis on every test of the goal, keeping its equation. *)
Ltac split_tests := repeat (case_match; simplify_eq/=; try done).

(** ** Counting over maps

    Sums over the values of a finite map, for invariants that say in how many places something is:
    what an insertion, a deletion or an update adds and takes away. *)

(** The sum of [f] over the values of a map. *)
Definition msum {A} (f : Z -> A -> nat) (m : gmap Z A) : nat := sum_list ((fun p => f p.1 p.2) <$> map_to_list m).

Section Msum.
Context {A : Type} (f : Z -> A -> nat).

Lemma msum_empty : msum f ∅ = 0%nat.
Proof. unfold msum. by rewrite map_to_list_empty. Qed.

Lemma msum_insert_new i x m : m !! i = None -> msum f (<[i := x]> m) = (f i x + msum f m)%nat.
Proof. intros Hi. unfold msum. by rewrite map_to_list_insert by done. Qed.

Lemma msum_delete i x m : m !! i = Some x -> msum f m = (f i x + msum f (delete i m))%nat.
Proof. intros Hi. rewrite <- (insert_delete_id m i x Hi) at 1. by rewrite msum_insert_new by apply lookup_delete_eq. Qed.

Lemma msum_insert i x y m : m !! i = Some x -> (msum f (<[i := y]> m) + f i x = msum f m + f i y)%nat.
Proof.
  intros Hi. rewrite (msum_delete i x m Hi), (msum_delete i y (<[i := y]> m)) by apply lookup_insert_eq.
  rewrite delete_insert_eq. lia.
Qed.

Lemma msum_le i x m : m !! i = Some x -> (f i x <= msum f m)%nat.
Proof. intros Hi. rewrite (msum_delete i x m Hi). lia. Qed.

Lemma msum_le2 i x j y m : m !! i = Some x -> m !! j = Some y -> i <> j -> (f i x + f j y <= msum f m)%nat.
Proof.
  intros Hi Hj Hij. rewrite (msum_delete i x m Hi).
  assert (delete i m !! j = Some y) as H%msum_le by by rewrite lookup_delete_ne. lia.
Qed.

Lemma msum_alter i g x m : m !! i = Some x -> (msum f (alter g i m) + f i x = msum f m + f i (g x))%nat.
Proof.
  intros Hi. rewrite <- (insert_delete_id m i x Hi) at 1.
  rewrite alter_insert_eq, insert_delete_eq. by apply msum_insert.
Qed.
End Msum.

Lemma msum_zero {A} (f : Z -> A -> nat) m : (forall i x, m !! i = Some x -> f i x = 0%nat) -> msum f m = 0%nat.
Proof.
  induction m as [|i x m Hi IH] using map_ind; [by rewrite msum_empty|]. intros Hf. rewrite msum_insert_new by done.
  rewrite (Hf i x), IH; [done| |by rewrite lookup_insert_eq].
  intros j y Hj. apply Hf. rewrite lookup_insert_ne; [done|]. intros ->. congruence.
Qed.

Lemma msum_pos {A} (f : Z -> A -> nat) m : (1 <= msum f m)%nat -> exists i x, m !! i = Some x /\ (1 <= f i x)%nat.
Proof.
  induction m as [|i x m Hi IH] using map_ind; [rewrite msum_empty; lia|]. rewrite msum_insert_new by done.
  intros Hf. destruct (decide (1 <= f i x)%nat); [exists i, x; by rewrite lookup_insert_eq|].
  destruct IH as (j & y & Hj & ?); [lia|]. exists j, y. rewrite lookup_insert_ne; [done|]. intros ->. congruence.
Qed.
