(* ===== verification/Bitfield.v ===== *)
(** * Bit-field structs

    The driver's registers, DMA descriptor words and card registers are declared with the
    [#[bitfield(u32, order = Msb)]] attribute of the [bitfield-struct] crate: a list of fields
    with their widths, the first field being the most significant one.  This file gives the
    declarations as data ([layout]), computes where each field lies, and states as an interface
    ([BitfieldStruct], with the documented behaviour [BitfieldDoc]) the accessors the attribute
    generates, since the crate itself is outside the repository.  A bit-field value is
    represented by its raw bits ([into_bits]). *)

From S2P Require Import Prelude.

(** ** Declarations *)

(** One field: its name, its [#[bits(n)]] width and its [#[bits(default = v)]] value. *)
Record field_decl : Type := Field {
  fd_name : string;
  fd_bits : Z;
  fd_default : Z;
}.

(** A bit-field struct, its fields in declaration order ([order = Msb]). *)
Abbreviation layout := (list field_decl).

(** Declaration shorthands: a [bool] field, an [n]-bit field, a [bool] field with
    [default = true], and an anonymous padding field [__]. *)
Definition flag (name : string) : field_decl := Field name 1 0.
Definition uint (name : string) (bits : Z) : field_decl := Field name bits 0.
Definition flag_on (name : string) : field_decl := Field name 1 1.
Definition pad (bits : Z) : field_decl := Field "__" bits 0.

(** Where a field lies: its least significant bit and its width. *)
Record bit_range : Type := BitRange {
  br_lo : Z;
  br_width : Z;
}.

Fixpoint layout_width (l : layout) : Z :=
  match l with
  | [] => 0
  | d :: rest => fd_bits d + layout_width rest
  end.

(** With [order = Msb] a field's least significant bit is the total width of the fields that
    are declared after it. *)
Fixpoint lookup_field (l : layout) (name : string) : option bit_range :=
  match l with
  | [] => None
  | d :: rest =>
      if String.eqb (fd_name d) name
      then Some (BitRange (layout_width rest) (fd_bits d))
      else lookup_field rest name
  end.

(** The range of a declared field (the empty range for a name the struct does not declare). *)
Definition field (l : layout) (name : string) : bit_range :=
  default (BitRange 0 0) (lookup_field l name).

(** The bits every field's default value contributes. *)
Fixpoint layout_default (l : layout) : Z :=
  match l with
  | [] => 0
  | d :: rest => Z.lor (Z.shiftl (fd_default d) (layout_width rest)) (layout_default rest)
  end.

(** A layout fits a [w]-bit integer exactly: positive widths that add up to [w], defaults that
    fit their field. *)
Definition layout_ok (w : Z) (l : layout) : bool :=
  (layout_width l =? w) &&
  forallb (fun d => (0 <? fd_bits d) && (0 <=? fd_default d) && (fd_default d <? 2 ^ fd_bits d)) l.

(** ** The generated accessors *)

(** What the attribute generates for each field: [x.f()], [x.with_f(v)], and for the struct
    [T::new()] / [T::default()]. *)
Class BitfieldStruct : Type := {
  bf_get : bit_range -> Z -> Z;
  bf_with : bit_range -> Z -> Z -> Z;
  bf_new : layout -> Z;
}.

(** The crate's documentation: a getter returns the field's bits, a setter replaces them (for a
    value that fits the field) and leaves the others, and [new] yields the declared defaults. *)
Class BitfieldDoc (BF : BitfieldStruct) : Prop := {
  bf_get_doc r x : bf_get r x = Z.land (Z.shiftr x (br_lo r)) (Z.ones (br_width r));
  bf_with_doc r v x : 0 <= v < 2 ^ br_width r ->
    bf_with r v x =
      Z.lor (Z.ldiff x (Z.shiftl (Z.ones (br_width r)) (br_lo r))) (Z.shiftl v (br_lo r));
  bf_new_doc l : bf_new l = layout_default l;
}.

(** The accessors by field name, as the driver calls them: [bit Cmd "start_cmd" x] is
    [x.start_cmd()], [with_bit Cmd "start_cmd" b x] is [x.with_start_cmd(b)]. *)
Definition bits `{BitfieldStruct} (l : layout) (name : string) (x : Z) : Z :=
  bf_get (field l name) x.
Definition bit `{BitfieldStruct} (l : layout) (name : string) (x : Z) : bool :=
  negb (bits l name x =? 0).
Definition with_bits `{BitfieldStruct} (l : layout) (name : string) (v x : Z) : Z :=
  bf_with (field l name) v x.
Definition with_bit `{BitfieldStruct} (l : layout) (name : string) (b : bool) (x : Z) : Z :=
  with_bits l name (Z.b2z b) x.

(** ** An implementation of the interface *)

(** Accessors that do what the documentation says. *)
#[export] Instance arith_bitfields : BitfieldStruct := {|
  bf_get r x := Z.land (Z.shiftr x (br_lo r)) (Z.ones (br_width r));
  bf_with r v x :=
    Z.lor (Z.ldiff x (Z.shiftl (Z.ones (br_width r)) (br_lo r))) (Z.shiftl v (br_lo r));
  bf_new := layout_default;
|}.

#[export] Instance arith_bitfields_doc : BitfieldDoc arith_bitfields.
Proof. by constructor. Qed.

(** ** Reading back what was written *)

Definition one_bit (r : bit_range) : bool := (0 <=? br_lo r) && (br_width r =? 1).

Definition disjoint (r s : bit_range) : bool :=
  (br_lo r + br_width r <=? br_lo s) || (br_lo s + br_width s <=? br_lo r).

Section accessors.
Context {BF : BitfieldStruct} {BD : BitfieldDoc BF}.

Lemma testbit_small v n i : 0 <= v < 2 ^ n -> n <= i -> Z.testbit v i = false.
Proof.
  intros Hv Hi. destruct (Z.eq_dec v 0) as [->|]; [apply Z.testbit_0_l|].
  apply Z.bits_above_log2; [lia|].
  enough (Z.log2 v < n) by lia. apply Z.log2_lt_pow2; lia.
Qed.

Lemma bf_get_testbit r x i :
  0 <= br_lo r -> 0 <= br_width r -> 0 <= i ->
  Z.testbit (bf_get r x) i = (i <? br_width r) && Z.testbit x (i + br_lo r).
Proof.
  intros Hl Hw Hi. rewrite bf_get_doc, Z.land_spec, Z.shiftr_spec by lia.
  destruct (Z.ltb_spec i (br_width r)).
  - rewrite Z.ones_spec_low by lia. simpl. by rewrite andb_true_r.
  - rewrite Z.ones_spec_high by lia. simpl. by rewrite andb_false_r.
Qed.

Lemma bf_with_testbit r v x i :
  0 <= br_lo r -> 0 <= br_width r -> 0 <= v < 2 ^ br_width r -> 0 <= i ->
  Z.testbit (bf_with r v x) i =
    if (br_lo r <=? i) && (i <? br_lo r + br_width r)
    then Z.testbit v (i - br_lo r) else Z.testbit x i.
Proof.
  intros Hl Hw Hv Hi. rewrite bf_with_doc by done.
  rewrite Z.lor_spec, Z.ldiff_spec, !Z.shiftl_spec by lia.
  destruct (Z.leb_spec (br_lo r) i); simpl.
  - destruct (Z.ltb_spec i (br_lo r + br_width r)); simpl.
    + rewrite Z.ones_spec_low by lia. by rewrite andb_false_r.
    + rewrite Z.ones_spec_high, (testbit_small v (br_width r)) by lia.
      by rewrite andb_true_r, orb_false_r.
  - rewrite !(Z.testbit_neg_r _ (i - br_lo r)) by lia.
    by rewrite andb_true_r, orb_false_r.
Qed.

(** A getter reads back what the setter of the same field stored. *)
Lemma bf_get_with r v x :
  0 <= br_lo r -> 0 <= br_width r -> 0 <= v < 2 ^ br_width r ->
  bf_get r (bf_with r v x) = v.
Proof.
  intros Hl Hw Hv. apply Z.bits_inj'. intros i Hi.
  rewrite bf_get_testbit by done. destruct (Z.ltb_spec i (br_width r)); simpl.
  - rewrite bf_with_testbit by (done || lia).
    destruct (Z.leb_spec (br_lo r) (i + br_lo r)); [|lia].
    destruct (Z.ltb_spec (i + br_lo r) (br_lo r + br_width r)); [|lia].
    simpl. f_equal. lia.
  - symmetry. by apply (testbit_small v (br_width r)).
Qed.

(** A setter leaves the other fields alone. *)
Lemma bf_get_with_ne r s v x :
  0 <= br_lo r -> 0 <= br_width r -> 0 <= br_lo s -> 0 <= br_width s ->
  0 <= v < 2 ^ br_width s -> disjoint r s = true ->
  bf_get r (bf_with s v x) = bf_get r x.
Proof.
  intros Hr Hwr Hs Hws Hv Hd. apply Z.bits_inj'. intros i Hi.
  rewrite !bf_get_testbit by done. destruct (Z.ltb_spec i (br_width r)); [|done]. simpl.
  rewrite bf_with_testbit by (done || lia).
  unfold disjoint in Hd. apply orb_true_iff in Hd as [Hd|Hd]; apply Z.leb_le in Hd;
    destruct (Z.leb_spec (br_lo s) (i + br_lo r)),
      (Z.ltb_spec (i + br_lo r) (br_lo s + br_width s)); simpl; (done || lia).
Qed.

Lemma bf_get_range r x : 0 <= br_width r -> 0 <= bf_get r x < 2 ^ br_width r.
Proof.
  intros Hw. rewrite bf_get_doc, Z.land_ones by lia. apply Z.mod_pos_bound. lia.
Qed.

Lemma bf_with_range n r v x :
  0 <= br_lo r -> 0 <= br_width r -> br_lo r + br_width r <= n ->
  0 <= v < 2 ^ br_width r -> 0 <= x < 2 ^ n -> 0 <= bf_with r v x < 2 ^ n.
Proof.
  intros Hl Hw Hn Hv Hx.
  assert (Hnn : 0 <= bf_with r v x).
  { rewrite bf_with_doc by done. apply Z.lor_nonneg. split.
    - apply Z.ldiff_nonneg. left. lia.
    - apply Z.shiftl_nonneg. lia. }
  split; [done|].
  enough (Hm : bf_with r v x = bf_with r v x mod 2 ^ n)
    by (rewrite Hm; apply Z.mod_pos_bound; lia).
  apply Z.bits_inj'. intros i Hi.
  destruct (Z.lt_ge_cases i n).
  - by rewrite Z.mod_pow2_bits_low by lia.
  - rewrite Z.mod_pow2_bits_high by lia. rewrite bf_with_testbit by (done || lia).
    rewrite (testbit_small x n) by lia.
    destruct (Z.ltb_spec i (br_lo r + br_width r)); [lia|]. by rewrite andb_false_r.
Qed.

(** Two implementations of the documented accessors agree. *)
Lemma with_bits_arith l n v x :
  0 <= v < 2 ^ br_width (field l n) -> with_bits l n v x = with_bits (H := arith_bitfields) l n v x.
Proof. intros. unfold with_bits. by rewrite !bf_with_doc. Qed.

Lemma bits_arith l n x : bits l n x = bits (H := arith_bitfields) l n x.
Proof. unfold bits. by rewrite !bf_get_doc. Qed.

Lemma bit_arith l n x : bit l n x = bit (H := arith_bitfields) l n x.
Proof. unfold bit. by rewrite bits_arith. Qed.

(** Flags, by position. *)
Lemma bit_testbit l n x :
  one_bit (field l n) = true -> bit l n x = Z.testbit x (br_lo (field l n)).
Proof.
  unfold one_bit, bit, bits. intros H. bool_hyps.
  rewrite bf_get_doc, Z.land_ones, Z.testbit_odd by lia.
  replace (br_width (field l n)) with 1 by lia. rewrite Z.pow_1_r, Zmod_odd. by destruct (Z.odd _).
Qed.

Lemma with_bit_testbit l n b x i :
  one_bit (field l n) = true -> 0 <= i ->
  Z.testbit (with_bit l n b x) i = if i =? br_lo (field l n) then b else Z.testbit x i.
Proof.
  unfold one_bit, with_bit, with_bits. intros H Hi. bool_hyps.
  assert (Hw : br_width (field l n) = 1) by lia. rewrite bf_with_testbit, Hw by (rewrite ?Hw; destruct b; simpl; lia).
  destruct (Z.eqb_spec i (br_lo (field l n))) as [->|Hne].
  - rewrite Z.leb_refl, Z.sub_diag. replace (br_lo (field l n) <? _) with true by (symmetry; apply Z.ltb_lt; lia).
    by destruct b.
  - by replace ((br_lo (field l n) <=? i) && (i <? br_lo (field l n) + 1)) with false by
      (symmetry; apply andb_false_iff; rewrite Z.leb_gt, Z.ltb_ge; lia).
Qed.

Lemma bit_with l n b x : one_bit (field l n) = true -> bit l n (with_bit l n b x) = b.
Proof.
  unfold one_bit, bit, with_bit, bits, with_bits. intros H. bool_hyps.
  rewrite bf_get_with; [by destruct b|lia..|].
  replace (br_width (field l n)) with 1 by lia. destruct b; simpl; lia.
Qed.

Lemma bit_with_ne l n m b x :
  one_bit (field l n) = true -> one_bit (field l m) = true ->
  disjoint (field l n) (field l m) = true ->
  bit l n (with_bit l m b x) = bit l n x.
Proof.
  unfold one_bit, bit, with_bit, bits, with_bits. intros Hn Hm Hd. bool_hyps.
  rewrite bf_get_with_ne; [done|lia..| |done].
  replace (br_width (field l m)) with 1 by lia. destruct b; simpl; lia.
Qed.

End accessors.

(** Read a flag off a word built with [with_bit]. *)
Ltac bf_bits :=
  repeat first [rewrite bit_with by reflexivity | rewrite bit_with_ne by reflexivity].

(** ** Evaluating accessors *)

(** Compute the field positions of closed layouts. *)
Ltac bf_positions :=
  repeat match goal with
    | |- context [field ?l ?n] =>
        let r := eval vm_compute in (field l n) in
        change (field l n) with r
    end.

(** Turn accessors of the implementation in the context into the arithmetic ones. *)
Ltac bf_arith :=
  unfold with_bit in *;
  match goal with
  | BD : BitfieldDoc ?BF |- _ =>
      rewrite ?(bf_new_doc (BF := BF)), ?(bit_arith (BF := BF)), ?(bits_arith (BF := BF));
      rewrite ?(with_bits_arith (BF := BF)) by (vm_compute; done)
  end.

(** Decide a statement about accessors applied to closed words. *)
Ltac bf_compute := bf_arith; vm_compute; repeat split; congruence.
