(* ===== verification/Regs.v ===== *)
(** * Controller registers

    The register block of the DesignWare mobile-storage host controller, from
    [simple-sdmmc-extended/src/regs.rs]: the registers with their place in the block, the layout
    of each, and [RIntSts::error]. *)

From S2P Require Import Prelude Bitfield.

(** ** The register block *)

(** The fields of [RegisterBlock]. *)
Inductive reg : Type :=
| R_ctrl | R_pwren | R_clkdiv | R_clksrc | R_clkena | R_tmout | R_ctype | R_blksiz | R_bytcnt
| R_intmask | R_cmdarg | R_cmd | R_resp | R_mintsts | R_rintsts | R_status | R_fifoth | R_cdetect
| R_wrtprt | R_gpio | R_tcbcnt | R_tbbcnt | R_debnce | R_usrid | R_verid | R_hcon | R_uhs | R_rst
| R_reserved0 | R_bmod | R_pldmnd | R_dbaddr | R_idsts | R_idinten.

#[export] Instance reg_eq_dec : EqDecision reg.
Proof. solve_decision. Defined.

(** The [#[repr(C)]] struct: its fields in order with their size in bytes.  Every field is a
    32-bit word but the response register, a [[u32; 4]]. *)
Definition RegisterBlock : list (reg * Z) :=
  [(R_ctrl, 4); (R_pwren, 4); (R_clkdiv, 4); (R_clksrc, 4); (R_clkena, 4); (R_tmout, 4);
   (R_ctype, 4); (R_blksiz, 4); (R_bytcnt, 4); (R_intmask, 4); (R_cmdarg, 4); (R_cmd, 4);
   (R_resp, 16); (R_mintsts, 4); (R_rintsts, 4); (R_status, 4); (R_fifoth, 4); (R_cdetect, 4);
   (R_wrtprt, 4); (R_gpio, 4); (R_tcbcnt, 4); (R_tbbcnt, 4); (R_debnce, 4); (R_usrid, 4);
   (R_verid, 4); (R_hcon, 4); (R_uhs, 4); (R_rst, 4); (R_reserved0, 4); (R_bmod, 4);
   (R_pldmnd, 4); (R_dbaddr, 4); (R_idsts, 4); (R_idinten, 4)].

(** Byte offset of a register in a block that starts at [base]. *)
Fixpoint offset_in (block : list (reg * Z)) (base : Z) (r : reg) : option Z :=
  match block with
  | [] => None
  | (q, size) :: rest => if decide (q = r) then Some base else offset_in rest (base + size) r
  end.

Definition reg_offset (r : reg) : option Z := offset_in RegisterBlock 0 r.
Definition register_block_size : Z := foldr (fun q n => snd q + n) 0 RegisterBlock.

(** ** Register layouts *)

(** Control register. *)
Definition Ctrl : layout :=
  [pad 6; flag "use_internal_dmac"; flag "enable_od_pullup"; uint "card_voltage_b" 4;
   uint "card_voltage_a" 4; pad 4; flag "ceata_device_interrupt"; flag "send_auto_stop_ccsd";
   flag "send_ccsd"; flag "abort_read_data"; flag "send_irq_response"; flag "read_wait";
   flag "dma_enable"; flag "int_enable"; pad 1; flag "dma_reset"; flag "fifo_reset";
   flag "controller_reset"].

(** Power enable. *)
Definition PwrEn : layout :=
  [pad 16; uint "power_enable" 16].

(** Clock divider. *)
Definition ClkDiv : layout :=
  [uint "clk_divider3" 8; uint "clk_divider2" 8; uint "clk_divider1" 8; uint "clk_divider0" 8].

(** Clock source. *)
Definition ClkSrc : layout :=
  [uint "card15_clk_source" 2; uint "card14_clk_source" 2; uint "card13_clk_source" 2;
   uint "card12_clk_source" 2; uint "card11_clk_source" 2; uint "card10_clk_source" 2;
   uint "card9_clk_source" 2; uint "card8_clk_source" 2; uint "card7_clk_source" 2;
   uint "card6_clk_source" 2; uint "card5_clk_source" 2; uint "card4_clk_source" 2;
   uint "card3_clk_source" 2; uint "card2_clk_source" 2; uint "card1_clk_source" 2;
   uint "card0_clk_source" 2].

(** Clock enable. *)
Definition ClkEna : layout :=
  [uint "cclk_low_power" 16; uint "cclk_enable" 16].

(** Timeouts. *)
Definition TmOut : layout :=
  [uint "data_timeout" 24; uint "response_timeout" 8].

(** Card type. *)
Definition CType : layout :=
  [uint "width8" 16; uint "width4" 16].

(** Block size. *)
Definition BlkSiz : layout :=
  [pad 16; uint "block_size" 16].

(** Interrupt mask (1 enables the interrupt). *)
Definition IntMask : layout :=
  [uint "sdio" 16; flag "ebe"; flag "acd"; flag "sbe"; flag "hle"; flag "frun"; flag "hto";
   flag "drto"; flag "rto"; flag "dcrc"; flag "rcrc"; flag "rxdr"; flag "txdr"; flag "dto";
   flag "cmd"; flag "re"; flag "cd"].

(** Command register. *)
Definition Cmd : layout :=
  [flag_on "start_cmd"; pad 1; flag "use_hold_reg"; flag "volt_switch"; flag "boot_mode";
   flag "disable_boot"; flag "expect_boot_ack"; flag "enable_boot"; flag "ccs_expected";
   flag "read_ceata_device"; flag "update_clock_registers_only"; uint "card_number" 5;
   flag "send_initialization"; flag "stop_abort_cmd"; flag_on "wait_prvdata_complete";
   flag "send_auto_stop"; flag "transfer_mode"; flag "read_write"; flag "data_expected";
   flag "check_response_crc"; flag "response_length"; flag "response_expect"; uint "cmd_index" 6].

(** Masked interrupt status. *)
Definition MIntSts : layout :=
  [uint "sdio" 16; flag "end_bit_error"; flag "auto_command_done"; flag "start_bit_error";
   flag "hardware_locked_write"; flag "fifo_under_over_run"; flag "host_timeout";
   flag "data_read_timeout"; flag "response_timeout"; flag "data_crc_error";
   flag "response_crc_error"; flag "receive_fifo_data_request";
   flag "transmit_fifo_data_request"; flag "data_transfer_over"; flag "command_done";
   flag "response_error"; flag "card_detect"].

(** Raw interrupt status (write 1 to clear). *)
Definition RIntSts : layout :=
  [uint "sdio" 16; flag "end_bit_error"; flag "auto_command_done"; flag "start_bit_error";
   flag "hardware_locked_write"; flag "fifo_under_over_run"; flag "host_timeout";
   flag "data_read_timeout"; flag "response_timeout"; flag "data_crc_error";
   flag "response_crc_error"; flag "receive_fifo_data_request";
   flag "transmit_fifo_data_request"; flag "data_transfer_over"; flag "command_done";
   flag "response_error"; flag "card_detect"].

(** Controller status. *)
Definition Status : layout :=
  [flag "dma_req"; flag "dma_ack"; uint "fifo_count" 13; uint "response_index" 6;
   flag "data_state_mc_busy"; flag "data_busy"; flag "data_3_status";
   uint "command_fsm_states" 4; flag "fifo_full"; flag "fifo_empty"; flag "fifo_tx_watermark";
   flag "fifo_rx_watermark"].

(** FIFO thresholds. *)
Definition FifoTh : layout :=
  [pad 1; uint "dw_dma_multiple_transaction_size" 3; uint "rx_watermark" 12; pad 4;
   uint "tx_watermark" 12].

(** Card detect. *)
Definition CDetect : layout :=
  [pad 16; uint "card_detect_n" 16].

(** Write protect. *)
Definition WrtPrt : layout :=
  [pad 16; uint "write_protect" 16].

(** General purpose I/O. *)
Definition GPIO : layout :=
  [pad 8; uint "gpo" 16; uint "gpi" 8].

(** Debounce count. *)
Definition Debnce : layout :=
  [pad 8; uint "debounce_count" 24].

(** Hardware configuration. *)
Definition HCon : layout :=
  [pad 4; flag "addr_config"; flag "area_opt"; uint "num_clk_dic" 2; flag "false_path";
   flag "hold_reg"; flag "fifo_ram_ins"; uint "ge_dma_data_width" 3; uint "dma_if" 2;
   uint "h_addr_width" 6; uint "h_data_width" 3; flag "bus_type"; uint "num_card" 5;
   flag "card_type"].

(** UHS-1 register. *)
Definition UHS : layout :=
  [uint "ddr" 16; uint "volt" 16].

(** Hardware reset. *)
Definition Rst : layout :=
  [pad 16; uint "card_reset" 16].

(** Bus mode (IDMAC enable and soft reset). *)
Definition BMod : layout :=
  [pad 21; uint "pbl" 3; flag "de"; uint "dsl" 5; flag "fb"; flag "swr"].

(** IDMAC status (write 1 to clear). *)
Definition IdSts : layout :=
  [pad 15; uint "fsm" 4; uint "ebe" 3; flag "ais"; flag "nis"; pad 2; flag "ces"; flag "du";
   pad 1; flag "fbe"; flag "ri"; flag "ti"].

(** IDMAC interrupt enable. *)
Definition IdIntEn : layout :=
  [pad 22; flag "ai"; flag "ni"; pad 2; flag "ces"; flag "du"; pad 1; flag "fbe"; flag "ri";
   flag "ti"].

(** Every register layout of the file. *)
Definition register_layouts : list layout :=
  [Ctrl; PwrEn; ClkDiv; ClkSrc; ClkEna; TmOut; CType; BlkSiz; IntMask; Cmd; MIntSts; RIntSts;
   Status; FifoTh; CDetect; WrtPrt; GPIO; Debnce; HCon; UHS; Rst; BMod; IdSts; IdIntEn].

(** ** Derived accessors *)

(** [RIntSts::error]: the conditions that make a command or transfer fail. *)
Definition rintsts_error `{BitfieldStruct} (x : Z) : bool :=
  bit RIntSts "response_timeout" x
  || bit RIntSts "data_read_timeout" x
  || bit RIntSts "fifo_under_over_run" x
  || bit RIntSts "host_timeout" x
  || bit RIntSts "start_bit_error" x
  || bit RIntSts "end_bit_error" x
  || bit RIntSts "data_crc_error" x
  || bit RIntSts "response_crc_error" x
  || bit RIntSts "response_error" x
  || bit RIntSts "hardware_locked_write" x.

(** ** Where the registers and their fields lie *)

(** The ranges of all fields, in declaration order. *)
Fixpoint ranges (l : layout) : list bit_range :=
  match l with
  | [] => []
  | d :: rest => BitRange (layout_width rest) (fd_bits d) :: ranges rest
  end.

(** Whether bit [i] belongs to the range. *)
Definition covers (i : Z) (r : bit_range) : bool := (br_lo r <=? i) && (i <? br_lo r + br_width r).

(** The declared names, padding left out. *)
Definition names (l : layout) : list string :=
  filter (fun n => n <> "__"%string) (map fd_name l).

Lemma layout_width_nonneg l : Forall (fun d => 0 < fd_bits d) l -> 0 <= layout_width l.
Proof. induction 1; simpl; lia. Qed.

Lemma ranges_below l i :
  Forall (fun d => 0 < fd_bits d) l -> layout_width l <= i -> filter (fun r => covers i r) (ranges l) = [].
Proof.
  induction l as [|d l IH]; [done|]. intros [Hd Hl]%Forall_cons Hi. simpl in Hi.
  cbn [ranges]. rewrite filter_cons_False.
  - apply IH; [done | lia].
  - intros Hc%Is_true_true. unfold covers in Hc. simpl in Hc. bool_hyps. lia.
Qed.

(** A layout of positive widths tiles its word: every bit belongs to exactly one field. *)
Lemma ranges_tile l i :
  Forall (fun d => 0 < fd_bits d) l -> 0 <= i < layout_width l ->
  length (filter (fun r => covers i r) (ranges l)) = 1%nat.
Proof.
  induction l as [|d l IH]; simpl; [lia|]. intros [Hd Hl]%Forall_cons Hi.
  destruct (Z.lt_ge_cases i (layout_width l)) as [Hlt|Hge].
  - rewrite filter_cons_False; [apply IH; [done|lia]|].
    intros Hc%Is_true_true. unfold covers in Hc. simpl in Hc. bool_hyps. lia.
  - rewrite filter_cons_True.
    + by rewrite ranges_below by (done || lia).
    + apply Is_true_true. unfold covers. simpl. apply andb_true_iff.
      rewrite Z.leb_le, Z.ltb_lt. lia.
Qed.

Lemma layout_ok_widths w l :
  layout_ok w l = true -> layout_width l = w /\ Forall (fun d => 0 < fd_bits d) l.
Proof.
  unfold layout_ok. intros [Hw Hf]%andb_true_iff. split; [by apply Z.eqb_eq|].
  apply Is_true_true_2, forallb_True in Hf. eapply Forall_impl; [exact Hf|].
  intros d Hd%Is_true_true. by bool_hyps.
Qed.

(** every controller register is tiled by its declared fields: the widths add up to 32
    bits, each bit belongs to exactly one field, and field names are not repeated, so an
    accessor can only ever touch its own bits. *)
Theorem register_fields_tile_the_word (l : layout) (i : Z) :
  l ∈ register_layouts -> 0 <= i < 32 ->
  layout_width l = 32 /\ NoDup (names l) /\
  length (filter (fun r => covers i r) (ranges l)) = 1%nat.
Proof.
  intros Hl Hi.
  assert (Hok : layout_ok 32 l = true /\ NoDup (names l)).
  { revert l Hl. apply Forall_forall, (bool_decide_unpack _). by vm_compute. }
  destruct Hok as [[Hw Hpos]%layout_ok_widths Hnd].
  split_and!; [done | done |]. apply ranges_tile; [done | lia].
Qed.

Lemma register_fields_tile_the_word_witness :
  length (filter (fun r => covers 25 r) (ranges Ctrl)) = 1%nat.
Proof.
  apply (register_fields_tile_the_word Ctrl 25); [left | lia].
Defined.
