(* ===== verification/CardStatus.v ===== *)
(** * Card status and card registers

    From [simple-sdmmc-extended/src/utils.rs]: the R1 response ([R1CardStatus]), its decoded
    state, the error names of its [Debug] output, and the CID and CSD registers. *)

From S2P Require Import Prelude Bitfield.

(** ** R1 responses *)

(** [R1CurrentState]. *)
Inductive R1CurrentState : Type :=
| Idle | Ready | Identification | Standby | Transfer | SendingData | ReceiveData | Programming
| Disconnect
| Reserved (v : Z).

#[export] Instance R1CurrentState_eq_dec : EqDecision R1CurrentState.
Proof. solve_decision. Defined.

(** [R1CardStatus], a wrapper of the raw 32-bit response. *)
Record R1CardStatus : Type := from_raw { raw : Z }.

#[export] Instance R1CardStatus_eq_dec : EqDecision R1CardStatus.
Proof. solve_decision. Defined.

(** [R1CardStatus::ERROR_MASK]. *)
Definition ERROR_MASK : Z := 0xfff98088.

Definition error_bits (s : R1CardStatus) : Z := Z.land (raw s) ERROR_MASK.
Definition has_error (s : R1CardStatus) : bool := negb (error_bits s =? 0).

(** [R1CardStatus::bit]. *)
Definition r1_bit (s : R1CardStatus) (n : Z) : bool := negb (Z.land (raw s) (Z.shiftl 1 n) =? 0).

Definition out_of_range s := r1_bit s 31.
Definition address_error s := r1_bit s 30.
Definition block_len_error s := r1_bit s 29.
Definition erase_seq_error s := r1_bit s 28.
Definition erase_param s := r1_bit s 27.
Definition wp_violation s := r1_bit s 26.
Definition card_is_locked s := r1_bit s 25.
Definition lock_unlock_failed s := r1_bit s 24.
Definition com_crc_error s := r1_bit s 23.
Definition illegal_command s := r1_bit s 22.
Definition card_ecc_failed s := r1_bit s 21.
Definition cc_error s := r1_bit s 20.
Definition error s := r1_bit s 19.
Definition cid_csd_overwrite s := r1_bit s 16.
Definition wp_erase_skip s := r1_bit s 15.
Definition card_ecc_disabled s := r1_bit s 14.
Definition erase_reset s := r1_bit s 13.
Definition ready_for_data s := r1_bit s 8.
Definition switch_error s := r1_bit s 7.
Definition exception_event s := r1_bit s 6.
Definition app_cmd s := r1_bit s 5.
Definition ake_seq_error s := r1_bit s 3.

(** [R1CardStatus::current_state]. *)
Definition current_state (s : R1CardStatus) : R1CurrentState :=
  let v := as_u8 (Z.land (Z.shiftr (raw s) 9) 0xf) in
  if v =? 0 then Idle
  else if v =? 1 then Ready
  else if v =? 2 then Identification
  else if v =? 3 then Standby
  else if v =? 4 then Transfer
  else if v =? 5 then SendingData
  else if v =? 6 then ReceiveData
  else if v =? 7 then Programming
  else if v =? 8 then Disconnect
  else Reserved v.

(** The names [R1ErrorNames] prints, in order. *)
Definition R1ErrorNames (s : R1CardStatus) : list string :=
  (if out_of_range s then ["OUT_OF_RANGE"] else []) ++
  (if address_error s then ["ADDRESS_ERROR"] else []) ++
  (if block_len_error s then ["BLOCK_LEN_ERROR"] else []) ++
  (if erase_seq_error s then ["ERASE_SEQ_ERROR"] else []) ++
  (if erase_param s then ["ERASE_PARAM"] else []) ++
  (if wp_violation s then ["WP_VIOLATION"] else []) ++
  (if card_is_locked s then ["CARD_IS_LOCKED"] else []) ++
  (if lock_unlock_failed s then ["LOCK_UNLOCK_FAILED"] else []) ++
  (if com_crc_error s then ["COM_CRC_ERROR"] else []) ++
  (if illegal_command s then ["ILLEGAL_COMMAND"] else []) ++
  (if card_ecc_failed s then ["CARD_ECC_FAILED"] else []) ++
  (if cc_error s then ["CC_ERROR"] else []) ++
  (if error s then ["ERROR"] else []) ++
  (if cid_csd_overwrite s then ["CID_CSD_OVERWRITE"] else []) ++
  (if wp_erase_skip s then ["WP_ERASE_SKIP"] else []) ++
  (if switch_error s then ["SWITCH_ERROR"] else []) ++
  (if ake_seq_error s then ["AKE_SEQ_ERROR"] else []).

(** ** Card registers *)

(** Card identification. *)
Definition Cid : layout :=
  [uint "mid" 8; uint "oid" 16; uint "pnm" 40; uint "prv" 8; uint "psn" 32; uint "mdt" 16;
   uint "crc" 7; pad 1].

Definition ProductRevision : layout :=
  [uint "hwrev" 4; uint "fwrev" 4].

Definition ManufacturingDate : layout :=
  [pad 4; uint "year" 8; uint "month" 4].

(** Card-specific data, version 2. *)
Definition CsdV2 : layout :=
  [uint "csd_structure" 2; pad 6; uint "taac" 8; uint "nsac" 8; uint "tran_speed" 8;
   uint "ccc" 12; uint "read_bl_len" 4; flag "read_blk_partial"; flag "write_blk_misaligned";
   flag "read_blk_misaligned"; flag "dsr_imp"; pad 6; uint "c_size" 22; pad 1;
   flag "erase_blk_en"; uint "sector_size" 7; uint "wp_grp_size" 7; flag "wp_grp_enable"; pad 2;
   uint "r2w_factor" 3; uint "write_bl_len" 4; flag "write_blk_partial"; pad 5;
   flag "file_format_grp"; flag "copy"; flag "perm_write_protect"; flag "tmp_write_protect";
   uint "file_format" 2; pad 2; uint "crc" 7; pad 1].

(** A response of four little-endian words, as [transmute::<[u32; 4], u128>] reads it. *)
Record resp4 : Type := Resp { resp0 : Z; resp1 : Z; resp2 : Z; resp3 : Z }.

#[export] Instance resp4_eq_dec : EqDecision resp4.
Proof. solve_decision. Defined.

Definition transmute_u128 (r : resp4) : Z :=
  resp0 r + 2 ^ 32 * resp1 r + 2 ^ 64 * resp2 r + 2 ^ 96 * resp3 r.

(** [CsdV2::num_blocks], on [u64]. *)
Definition csd_num_blocks `{BitfieldStruct} (csd : Z) : Z :=
  as_u64 ((bits CsdV2 "c_size" csd + 1) * 1024).

(** ** Facts about R1 responses *)

Lemma r1_bit_testbit s n : 0 <= n -> r1_bit s n = Z.testbit (raw s) n.
Proof.
  intros Hn. unfold r1_bit. rewrite Z.shiftl_1_l.
  destruct (Z.testbit (raw s) n) eqn:Ht.
  - apply negb_true_iff, Z.eqb_neq. intros H0.
    assert (Hc : Z.testbit (Z.land (raw s) (2 ^ n)) n = false) by (rewrite H0; apply Z.testbit_0_l).
    rewrite Z.land_spec, Ht, Z.pow2_bits_true in Hc by lia. done.
  - apply negb_false_iff, Z.eqb_eq. apply Z.bits_inj'. intros i Hi.
    rewrite Z.land_spec, Z.testbit_0_l. destruct (Z.eq_dec i n) as [->|Hne].
    + by rewrite Ht.
    + rewrite Z.pow2_bits_false by lia. apply andb_false_r.
Qed.

(** The bits the error mask selects. *)
Definition error_positions : list Z :=
  [31; 30; 29; 28; 27; 26; 25; 24; 23; 22; 21; 20; 19; 16; 15; 7; 3].

Lemma error_mask_testbit i : 0 <= i -> Z.testbit ERROR_MASK i = bool_decide (i ∈ error_positions).
Proof.
  intros Hi. destruct (Z.lt_ge_cases i 32) as [Hlt|Hge].
  - enough (Hall : Forall (fun n => Z.testbit ERROR_MASK (Z.of_nat n)
        = bool_decide (Z.of_nat n ∈ error_positions)) (seq 0 32)).
    { rewrite Forall_forall in Hall. specialize (Hall (Z.to_nat i)).
      rewrite Z2Nat.id in Hall by done. apply Hall, elem_of_seq. lia. }
    by repeat constructor.
  - rewrite Z.bits_above_log2; [|done | vm_compute Z.log2; lia].
    symmetry. apply bool_decide_eq_false. unfold error_positions. set_unfold. lia.
Qed.

(** The mask test is the disjunction of the named error bits. *)
Lemma has_error_named s : has_error s = existsb (r1_bit s) error_positions.
Proof.
  apply Bool.eq_iff_eq_true. unfold has_error, error_bits.
  rewrite negb_true_iff, Z.eqb_neq, existsb_exists. split.
  - intros Hne. destruct (existsb (r1_bit s) error_positions) eqn:Hex.
    { by apply existsb_exists in Hex. }
    destruct Hne. apply Z.bits_inj'. intros i Hi. rewrite Z.land_spec, Z.testbit_0_l.
    rewrite error_mask_testbit by done. case_bool_decide as Hin; [|apply andb_false_r].
    rewrite <- r1_bit_testbit by done. rewrite andb_true_r.
    apply not_true_iff_false. intros Hb. rewrite <- not_true_iff_false in Hex. apply Hex.
    apply existsb_exists. exists i. split; [by apply list_elem_of_In | done].
  - intros (n & Hin & Hb) H0. apply list_elem_of_In in Hin.
    assert (Hn : 0 <= n) by (unfold error_positions in Hin; set_unfold; lia).
    assert (Hc : Z.testbit (Z.land (raw s) ERROR_MASK) n = false) by (rewrite H0; apply Z.testbit_0_l).
    rewrite Z.land_spec, error_mask_testbit, bool_decide_eq_true_2, andb_true_r in Hc by done.
    rewrite r1_bit_testbit, Hc in Hb by done. done.
Qed.

(** the 32-bit error mask selects exactly the error conditions the driver can name: a
    response is rejected by [has_error] if and only if its [Debug] output lists at least one
    error, and the informational fields (state, ready, app-command, ...) never count. *)
Theorem error_mask_is_the_named_errors (s : R1CardStatus) :
  has_error s = true <-> R1ErrorNames s <> [].
Proof.
  rewrite has_error_named. unfold error_positions, R1ErrorNames. cbn [existsb].
  unfold out_of_range, address_error, block_len_error, erase_seq_error, erase_param,
    wp_violation, card_is_locked, lock_unlock_failed, com_crc_error, illegal_command,
    card_ecc_failed, cc_error, error, cid_csd_overwrite, wp_erase_skip, switch_error,
    ake_seq_error.
  repeat match goal with
    | |- context [r1_bit s ?n] => destruct (r1_bit s n); cbn; [by split|]
    end.
  by split.
Qed.

(** The four-bit code of a state. *)
Definition state_code (st : R1CurrentState) : Z :=
  match st with
  | Idle => 0 | Ready => 1 | Identification => 2 | Standby => 3 | Transfer => 4
  | SendingData => 5 | ReceiveData => 6 | Programming => 7 | Disconnect => 8
  | Reserved v => v
  end.

(** decoding the state field loses nothing: the code of the decoded state is the field's
    value, for every response, and the reserved codes are those from 9 to 15. *)
Theorem current_state_roundtrip (s : R1CardStatus) :
  state_code (current_state s) = (raw s / 2 ^ 9) mod 16 /\
  (forall v, current_state s = Reserved v -> 9 <= v <= 15).
Proof.
  unfold current_state. change (Z.land (Z.shiftr (raw s) 9) 0xf)
    with (Z.land (Z.shiftr (raw s) 9) (Z.ones 4)).
  rewrite Z.land_ones, Z.shiftr_div_pow2 by lia.
  pose proof (Z.mod_pos_bound (raw s / 2 ^ 9) (2 ^ 4) ltac:(lia)) as Hb.
  change (2 ^ 4) with 16 in *. set (v := (raw s / 2 ^ 9) mod 16) in *.
  unfold as_u8. rewrite Z.mod_small by lia.
  repeat (case_match; bool_hyps; [split; [simpl; lia | congruence]|]).
  split; [done|]. intros w [= <-]. lia.
Qed.

(** ** Facts about the CSD register *)

Section csd.
Context {BF : BitfieldStruct} {BD : BitfieldDoc BF}.

(** The capacity of a version-2 card is a positive multiple of 1024 blocks and at most
    [2 ^ 32]: the computation does not overflow [u64], and every block of the card can be named
    by the 32-bit argument of a read or write command. *)
Lemma csd_num_blocks_bounds (csd : Z) :
  csd_num_blocks csd = (bits CsdV2 "c_size" csd + 1) * 1024 /\
  1024 <= csd_num_blocks csd <= 2 ^ 32.
Proof.
  assert (Hr : 0 <= bits CsdV2 "c_size" csd < 2 ^ 22).
  { unfold bits. change (field CsdV2 "c_size") with (BitRange 48 22).
    by apply (bf_get_range (BitRange 48 22)). }
  unfold csd_num_blocks, as_u64. rewrite Z.mod_small by lia. lia.
Qed.

End csd.
