(* ===== verification/Command.v ===== *)
(** * SD commands

    From [simple-sdmmc-extended/src/cmd.rs]: the commands the driver issues and how each is
    turned into a value of the controller's command register, an argument, and a data phase. *)

From S2P Require Import Prelude Bitfield Regs.

(** A data buffer is the list of its bytes. *)
Abbreviation buffer := (list Z).

(** [Command]. *)
Inductive Command : Type :=
| GoIdleState
| AllSendCid
| SendRelativeAddr
| SelectCard (arg : Z)
| SendIfCond (arg : Z)
| SendCsd (arg : Z)
| SendStatus (arg : Z)
| ReadSingleBlock (block : Z) (buf : buffer)
| ReadMultipleBlocks (block : Z) (buf : buffer)
| WriteSingleBlock (block : Z) (buf : buffer)
| WriteMultipleBlocks (block : Z) (buf : buffer)
| SdSendOpCond (arg : Z)
| SendScr (buf : buffer)
| AppCmd (arg : Z)
| ResetClock.

(** [DataXfer]: the direction of the data phase, with its buffer. *)
Inductive DataXfer : Type :=
| XferRead (buf : buffer)
| XferWrite (buf : buffer).

Definition xfer_len (x : DataXfer) : Z :=
  match x with
  | XferRead buf => Z.of_nat (length buf)
  | XferWrite buf => Z.of_nat (length buf)
  end.

(** [Command::cmd_index]. *)
Definition cmd_index (c : Command) : Z :=
  match c with
  | GoIdleState => 0
  | AllSendCid => 2
  | SendRelativeAddr => 3
  | SelectCard _ => 7
  | SendIfCond _ => 8
  | SendCsd _ => 9
  | SendStatus _ => 13
  | ReadSingleBlock _ _ => 17
  | ReadMultipleBlocks _ _ => 18
  | WriteSingleBlock _ _ => 24
  | WriteMultipleBlocks _ _ => 25
  | SdSendOpCond _ => 41
  | SendScr _ => 51
  | AppCmd _ => 55
  | ResetClock => 0
  end.

(** [Command::has_r1_response]. *)
Definition has_r1_response (c : Command) : bool :=
  match c with
  | SelectCard _ | SendStatus _ | ReadSingleBlock _ _ | ReadMultipleBlocks _ _
  | WriteSingleBlock _ _ | WriteMultipleBlocks _ _ | SendScr _ | AppCmd _ => true
  | _ => false
  end.

(** [Command::requires_app_cmd_accepted]. *)
Definition requires_app_cmd_accepted (c : Command) : bool :=
  match c with AppCmd _ => true | _ => false end.

(** [Command::build]: the command register, the argument and the data phase. *)
Definition build `{BitfieldStruct} (c : Command) : Z * Z * option DataXfer :=
  let cmd := with_bits Cmd "cmd_index" (cmd_index c)
               (with_bit Cmd "use_hold_reg" true (bf_new Cmd)) in
  let cmd_resp := with_bit Cmd "response_expect" true cmd in
  let cmd_crc := with_bit Cmd "check_response_crc" true cmd_resp in
  match c with
  | GoIdleState => (with_bit Cmd "send_initialization" true cmd, 0, None)
  | SendRelativeAddr => (cmd_crc, 0, None)
  | SelectCard arg => (cmd_crc, arg, None)
  | SendIfCond arg | AppCmd arg => (cmd_crc, arg, None)
  | AllSendCid => (with_bit Cmd "response_length" true cmd_crc, 0, None)
  | SendCsd arg => (with_bit Cmd "response_length" true cmd_crc, arg, None)
  | SendStatus arg => (with_bit Cmd "wait_prvdata_complete" false cmd_crc, arg, None)
  | SdSendOpCond arg => (cmd_resp, arg, None)
  | ReadSingleBlock block buf =>
      (with_bit Cmd "data_expected" true cmd_crc, block, Some (XferRead buf))
  | ReadMultipleBlocks block buf =>
      (with_bit Cmd "send_auto_stop" true (with_bit Cmd "data_expected" true cmd_crc),
       block, Some (XferRead buf))
  | SendScr buf => (with_bit Cmd "data_expected" true cmd_crc, 0, Some (XferRead buf))
  | WriteSingleBlock block buf =>
      (with_bit Cmd "read_write" true (with_bit Cmd "data_expected" true cmd_crc),
       block, Some (XferWrite buf))
  | WriteMultipleBlocks block buf =>
      (with_bit Cmd "send_auto_stop" true
         (with_bit Cmd "read_write" true (with_bit Cmd "data_expected" true cmd_crc)),
       block, Some (XferWrite buf))
  | ResetClock =>
      (with_bit Cmd "response_expect" false
         (with_bit Cmd "update_clock_registers_only" true (bf_new Cmd)), 0, None)
  end.

Definition built_cmd `{BitfieldStruct} (c : Command) : Z := (build c).1.1.
Definition built_arg `{BitfieldStruct} (c : Command) : Z := (build c).1.2.
Definition built_xfer `{BitfieldStruct} (c : Command) : option DataXfer := (build c).2.

(** ** What [build] produces *)

(** The multi-block commands, which the controller ends with an automatic stop command. *)
Definition is_multi_block (c : Command) : bool :=
  match c with ReadMultipleBlocks _ _ | WriteMultipleBlocks _ _ => true | _ => false end.

Definition is_write_xfer (x : option DataXfer) : bool :=
  match x with Some (XferWrite _) => true | _ => false end.

Definition is_reset_clock (c : Command) : bool := match c with ResetClock => true | _ => false end.
Definition is_send_status (c : Command) : bool := match c with SendStatus _ => true | _ => false end.

Section build_facts.
Context {BF : BitfieldStruct} {BD : BitfieldDoc BF}.

(** Any implementation of the accessors builds the same command words. *)
Lemma build_arith c : build c = build (H := arith_bitfields) c.
Proof.
  unfold build. destruct c; bf_arith; reflexivity.
Qed.

Lemma built_cmd_arith c : built_cmd c = built_cmd (H := arith_bitfields) c.
Proof. unfold built_cmd. by rewrite build_arith. Qed.

Lemma built_xfer_arith c : built_xfer c = built_xfer (H := arith_bitfields) c.
Proof. unfold built_xfer. by rewrite build_arith. Qed.

Lemma built_data_expected c :
  bit Cmd "data_expected" (built_cmd c) = bool_decide (is_Some (built_xfer c)).
Proof. rewrite built_cmd_arith, built_xfer_arith. destruct c; bf_compute. Qed.

(** the command register value of every command agrees with the command: the start bit is
    set, the index is the SD command index, a data phase is announced exactly when there is a
    buffer and in its direction, the automatic stop exactly for the multi-block commands, only
    the status query may overtake a data phase, and only the pseudo-command that latches the
    clock asks for a clock update (with no response). *)
Theorem build_agrees_with_command (c : Command) :
  let w := built_cmd c in
  let x := built_xfer c in
  0 <= w < 2 ^ 32 /\
  bit Cmd "start_cmd" w = true /\
  bits Cmd "cmd_index" w = cmd_index c /\
  bit Cmd "data_expected" w = bool_decide (is_Some x) /\
  bit Cmd "read_write" w = is_write_xfer x /\
  bit Cmd "send_auto_stop" w = is_multi_block c /\
  bit Cmd "wait_prvdata_complete" w = negb (is_send_status c) /\
  bit Cmd "update_clock_registers_only" w = is_reset_clock c /\
  (is_reset_clock c = true -> bit Cmd "response_expect" w = false).
Proof.
  cbv zeta. rewrite !built_cmd_arith, !built_xfer_arith. destruct c; bf_compute.
Qed.

(** a command whose R1 response is checked does ask the controller for a short response with
    its CRC checked, so the status word validated afterwards is the card's. *)
Theorem r1_commands_expect_checked_response (c : Command) :
  has_r1_response c = true ->
  let w := built_cmd c in
  bit Cmd "response_expect" w = true /\ bit Cmd "check_response_crc" w = true /\
  bit Cmd "response_length" w = false.
Proof.
  intros Hr. cbv zeta. rewrite !built_cmd_arith. destruct c; try discriminate; bf_compute.
Qed.

End build_facts.

Lemma build_agrees_with_command_witness :
  built_cmd (ReadMultipleBlocks 7 []) = 0xa0003352 /\
  bit Cmd "send_auto_stop" (built_cmd (ReadMultipleBlocks 7 [])) = true.
Proof.
  split; [reflexivity|].
  exact (proj1 (proj2 (proj2 (proj2 (proj2 (proj2
    (build_agrees_with_command (ReadMultipleBlocks 7 [])))))))).
Defined.

Lemma r1_commands_expect_checked_response_witness :
  bit Cmd "response_expect" (built_cmd (AppCmd 0)) = true.
Proof. apply (r1_commands_expect_checked_response (AppCmd 0)). reflexivity. Defined.
