(* ===== verification/Dma.v ===== *)
(** * IDMAC descriptors

    From [simple-sdmmc-extended/src/dma.rs]: the four-word descriptors of the controller's
    internal DMA engine (IDMAC) in chained mode, and from the descriptor loop of
    [SdMmc::prepare_idmac_transfer] ([sdmmc.rs]) the chain the driver publishes.  The theorem
    of the file is that an engine which follows the chain as the databook describes visits
    exactly the bytes of the transfer, in order. *)

From S2P Require Import Prelude Bitfield.

(** ** Descriptors *)

Definition IdmacDes0 : layout :=
  [flag "own"; flag "ces"; uint "_reserved1" 24; flag "er"; flag "ch"; flag "fs"; flag "ld";
   flag "dic"; uint "_reserved0" 1].

Definition IdmacDes1 : layout :=
  [uint "_reserved" 19; uint "bs1" 13].

(** [IdmacDescriptor], four 32-bit words. *)
Record IdmacDescriptor : Type := Descriptor {
  des0 : Z;
  des1 : Z;
  des2 : Z;
  des3 : Z;
}.

(** [size_of::<IdmacDescriptor>()]. *)
Definition DESCRIPTOR_SIZE : Z := 16.

Section descriptors.
Context {BF : BitfieldStruct}.

(** [IdmacDescriptor::new]. *)
Definition descriptor_new : IdmacDescriptor :=
  Descriptor (bf_new IdmacDes0) (bf_new IdmacDes1) 0 0.

Definition set_desc0_control_descriptor (own ces er ch fs ld dic : bool) (d : IdmacDescriptor) :
    IdmacDescriptor :=
  let w := with_bit IdmacDes0 "dic" dic
    (with_bit IdmacDes0 "ld" ld
    (with_bit IdmacDes0 "fs" fs
    (with_bit IdmacDes0 "ch" ch
    (with_bit IdmacDes0 "er" er
    (with_bit IdmacDes0 "ces" ces
    (with_bit IdmacDes0 "own" own (bf_new IdmacDes0))))))) in
  Descriptor w (des1 d) (des2 d) (des3 d).

Definition set_des1_buffer1_size (size : Z) (d : IdmacDescriptor) : IdmacDescriptor :=
  Descriptor (des0 d) (with_bits IdmacDes1 "bs1" size (des1 d)) (des2 d) (des3 d).

Definition set_des2_buffer1_address (addr : Z) (d : IdmacDescriptor) : IdmacDescriptor :=
  Descriptor (des0 d) (des1 d) addr (des3 d).

Definition set_des3_next_descriptor_address (addr : Z) (d : IdmacDescriptor) : IdmacDescriptor :=
  Descriptor (des0 d) (des1 d) (des2 d) addr.

(** ** The chain of a transfer *)

(** [MAX_DMA_BLOCKS], [DMA_BUFFER_SIZE] and [IDMAC_DESCRIPTOR_BUFFER_SIZE]. *)
Definition MAX_DMA_BLOCKS : Z := 32.
Definition DMA_BUFFER_SIZE : Z := MAX_DMA_BLOCKS * 512.
Definition IDMAC_DESCRIPTOR_BUFFER_SIZE : Z := 8 * 512.

(** [buf_len.div_ceil(IDMAC_DESCRIPTOR_BUFFER_SIZE)]. *)
Definition descriptor_count_for (buf_len : Z) : Z :=
  (buf_len + IDMAC_DESCRIPTOR_BUFFER_SIZE - 1) / IDMAC_DESCRIPTOR_BUFFER_SIZE.

(** The body of the descriptor loop: the [index]-th descriptor of a transfer of [buf_len] bytes
    at bus address [dma_bus_addr], the descriptors being at bus address [desc_phy_addr].
    Additions on [u32] wrap. *)
Definition make_descriptor (buf_len dma_bus_addr desc_phy_addr descriptor_count index : Z) :
    IdmacDescriptor :=
  let offset := index * IDMAC_DESCRIPTOR_BUFFER_SIZE in
  let segment_len := Z.min (buf_len - offset) IDMAC_DESCRIPTOR_BUFFER_SIZE in
  let last := index + 1 =? descriptor_count in
  let buffer_addr := as_u32 (dma_bus_addr + as_u32 offset) in
  let next_descriptor_addr :=
    if last then 0 else as_u32 (desc_phy_addr + as_u32 ((index + 1) * DESCRIPTOR_SIZE)) in
  set_des3_next_descriptor_address next_descriptor_addr
    (set_des2_buffer1_address buffer_addr
    (set_des1_buffer1_size (as_u16 segment_len)
    (set_desc0_control_descriptor true false false (negb last) (index =? 0) last (negb last)
       descriptor_new))).

(** The descriptors the loop writes, in order. *)
Definition descriptor_chain (buf_len dma_bus_addr desc_phy_addr : Z) : list IdmacDescriptor :=
  let n := descriptor_count_for buf_len in
  map (make_descriptor buf_len dma_bus_addr desc_phy_addr n) (seqZ 0 n).

(** ** The engine's view

    The databook's chained mode: the engine fetches the descriptor it points at, gives up when
    it does not own it, transfers buffer 1, stops after the last descriptor and otherwise
    follows the next-descriptor address, which must be marked as chained. *)

(** Descriptor memory: [ds] laid out contiguously from [base]. *)
Definition descriptor_memory (base : Z) (ds : list IdmacDescriptor) (addr : Z) :
    option IdmacDescriptor :=
  if (base <=? addr) && ((addr - base) mod DESCRIPTOR_SIZE =? 0)
  then ds !! Z.to_nat ((addr - base) / DESCRIPTOR_SIZE) else None.

Fixpoint walk_chain (fuel : nat) (mem : Z -> option IdmacDescriptor) (addr : Z) :
    option (list (Z * Z)) :=
  match fuel with
  | O => None
  | S fuel =>
      d ← mem addr;
      if negb (bit IdmacDes0 "own" (des0 d)) then None
      else
        let segment := (des2 d, bits IdmacDes1 "bs1" (des1 d)) in
        if bit IdmacDes0 "ld" (des0 d) then Some [segment]
        else if bit IdmacDes0 "ch" (des0 d)
        then (fun rest => segment :: rest) <$> walk_chain fuel mem (des3 d)
        else None
  end.

(** The byte addresses a list of segments covers, in transfer order. *)
Definition segment_bytes (segments : list (Z * Z)) : list Z :=
  segments ≫= (fun s => seqZ s.1 s.2).

End descriptors.

(** ** Facts *)

Lemma descriptor_count_range len :
  0 < len <= DMA_BUFFER_SIZE -> 1 <= descriptor_count_for len <= 4.
Proof.
  unfold descriptor_count_for, IDMAC_DESCRIPTOR_BUFFER_SIZE, DMA_BUFFER_SIZE, MAX_DMA_BLOCKS.
  intros H. split; [apply Z.div_le_lower_bound | apply Z.lt_succ_r, Z.div_lt_upper_bound]; lia.
Qed.

(** Segment [i] starts inside the buffer, and the last one ends it. *)
Lemma descriptor_count_spec len i :
  0 < len -> 0 <= i < descriptor_count_for len ->
  i * 4096 < len /\ (i + 1 = descriptor_count_for len <-> len <= (i + 1) * 4096).
Proof.
  unfold descriptor_count_for, IDMAC_DESCRIPTOR_BUFFER_SIZE. intros Hl Hi.
  pose proof (Z.div_mod (len + 8 * 512 - 1) (8 * 512) ltac:(lia)).
  pose proof (Z.mod_pos_bound (len + 8 * 512 - 1) (8 * 512) ltac:(lia)).
  set (n := (len + 8 * 512 - 1) / (8 * 512)) in *. nia.
Qed.

Section chain_facts.
Context {BF : BitfieldStruct} {BD : BitfieldDoc BF}.

(** The control flags the engine reads back from a descriptor of the chain. *)
Lemma make_descriptor_flags len a p n i :
  let d := make_descriptor len a p n i in
  bit IdmacDes0 "own" (des0 d) = true /\
  bit IdmacDes0 "ces" (des0 d) = false /\
  bit IdmacDes0 "fs" (des0 d) = (i =? 0) /\
  bit IdmacDes0 "ld" (des0 d) = (i + 1 =? n) /\
  bit IdmacDes0 "ch" (des0 d) = negb (i + 1 =? n) /\
  bit IdmacDes0 "dic" (des0 d) = negb (i + 1 =? n).
Proof.
  cbv zeta. unfold make_descriptor, set_desc0_control_descriptor. cbn [des0 des1 des2 des3
    set_des3_next_descriptor_address set_des2_buffer1_address set_des1_buffer1_size].
  destruct (i =? 0), (i + 1 =? n); bf_compute.
Qed.

Lemma make_descriptor_buffer len a p n i :
  let d := make_descriptor len a p n i in
  0 <= len - i * 4096 ->
  bits IdmacDes1 "bs1" (des1 d) = Z.min (len - i * 4096) 4096.
Proof.
  cbv zeta. intros Hl. unfold make_descriptor. cbn [des1 set_des1_buffer1_size
    set_des2_buffer1_address set_des3_next_descriptor_address].
  change IDMAC_DESCRIPTOR_BUFFER_SIZE with 4096.
  unfold bits, with_bits. bf_positions.
  rewrite as_u16_small by lia. apply bf_get_with; simpl; lia.
Qed.

Lemma descriptor_memory_lookup base ds (i : nat) :
  descriptor_memory base ds (base + Z.of_nat i * DESCRIPTOR_SIZE) = ds !! i.
Proof.
  unfold descriptor_memory, DESCRIPTOR_SIZE.
  replace (base + Z.of_nat i * 16 - base) with (Z.of_nat i * 16) by lia.
  rewrite Z.mod_mul, Z.div_mul, Nat2Z.id by lia.
  destruct (Z.leb_spec base (base + Z.of_nat i * 16)); [done | lia].
Qed.

Lemma descriptor_chain_length len a p :
  length (descriptor_chain len a p) = Z.to_nat (descriptor_count_for len).
Proof. unfold descriptor_chain. by rewrite length_fmap, length_seqZ. Qed.

Lemma descriptor_chain_lookup len a p (i : nat) :
  Z.of_nat i < descriptor_count_for len ->
  descriptor_chain len a p !! i =
    Some (make_descriptor len a p (descriptor_count_for len) (Z.of_nat i)).
Proof.
  intros Hi. unfold descriptor_chain. rewrite list_lookup_fmap, lookup_seqZ_lt by lia. done.
Qed.

(** Walking from the [i]-th descriptor visits the rest of the buffer. *)
Lemma walk_chain_from len a p (k i : nat) :
  let n := descriptor_count_for len in
  0 < len <= DMA_BUFFER_SIZE -> 0 <= a -> a + len - 1 <= u32_max ->
  0 <= p -> p + (n - 1) * DESCRIPTOR_SIZE <= u32_max ->
  (Z.of_nat k + Z.of_nat i = n)%Z -> (0 < k)%nat ->
  exists segments,
    walk_chain k (descriptor_memory p (descriptor_chain len a p)) (p + Z.of_nat i * DESCRIPTOR_SIZE)
      = Some segments /\
    length segments = k /\
    segment_bytes segments = seqZ (a + Z.of_nat i * 4096) (len - Z.of_nat i * 4096) /\
    Forall (fun s => 0 < s.2 <= 4096) segments.
Proof.
  intros n Hlen Ha Hal Hp Hpn. revert i.
  induction k as [|k IH]; intros i Hki Hk; [lia|]. cbn [walk_chain].
  rewrite descriptor_memory_lookup, descriptor_chain_lookup by lia. cbn [mbind option_bind].
  fold n. destruct (make_descriptor_flags len a p n (Z.of_nat i)) as (-> & _ & _ & -> & -> & _).
  destruct (descriptor_count_spec len (Z.of_nat i)) as [Hi Hlast]; [lia..|].
  fold n in Hlast. rewrite make_descriptor_buffer by lia. cbn [negb].
  assert (Haddr : des2 (make_descriptor len a p n (Z.of_nat i)) = a + Z.of_nat i * 4096).
  { unfold make_descriptor. cbn [des2 set_des3_next_descriptor_address set_des2_buffer1_address].
    change IDMAC_DESCRIPTOR_BUFFER_SIZE with 4096. unfold DMA_BUFFER_SIZE, MAX_DMA_BLOCKS in *.
    unfold u32_max in *. rewrite (as_u32_small (Z.of_nat i * 4096)), as_u32_small; lia. }
  rewrite Haddr. destruct (Z.eqb_spec (Z.of_nat i + 1) n) as [Heq|Hne]; cbn [negb].
  - eexists. split; [done|]. assert (k = 0)%nat as -> by lia.
    split; [done|]. unfold segment_bytes. cbn. rewrite app_nil_r.
    rewrite Z.min_l by lia. split; [done|]. repeat constructor; simpl; lia.
  - destruct (IH (S i)) as (segs & Hw & Hlen' & Hb & Hf); [lia..|].
    assert (Hnext : des3 (make_descriptor len a p n (Z.of_nat i))
                    = p + Z.of_nat (S i) * DESCRIPTOR_SIZE).
    { unfold make_descriptor. cbn [des3 set_des3_next_descriptor_address].
      destruct (Z.eqb_spec (Z.of_nat i + 1) n); [lia|]. unfold DESCRIPTOR_SIZE, u32_max in *.
      rewrite (as_u32_small ((Z.of_nat i + 1) * 16)), as_u32_small; lia. }
    rewrite Hnext, Hw. eexists. split; [done|]. split; [simpl; by rewrite Hlen'|].
    rewrite Z.min_r by lia. split.
    + unfold segment_bytes in *. cbn. rewrite Hb.
      replace (len - Z.of_nat i * 4096) with (4096 + (len - Z.of_nat (S i) * 4096)) by lia.
      rewrite seqZ_app by lia. do 2 f_equal. lia.
    + constructor; [simpl; lia | done].
Qed.

(** the descriptor chain is correct for the engine: for every transfer length the driver
    accepts and all addresses that fit 32 bits, an engine started at the first descriptor walks
    a chain of one to four owned descriptors, ends at the last one, and its segments (of at most
    4096 bytes) cover exactly the bytes of the DMA buffer, each once and in order. *)
Theorem descriptor_chain_covers_transfer (len a p : Z) :
  0 < len <= DMA_BUFFER_SIZE -> 0 <= a -> a + len - 1 <= u32_max ->
  0 <= p -> p + (descriptor_count_for len - 1) * DESCRIPTOR_SIZE <= u32_max ->
  exists segments,
    walk_chain (Z.to_nat (descriptor_count_for len))
      (descriptor_memory p (descriptor_chain len a p)) p = Some segments /\
    segment_bytes segments = seqZ a len /\
    Forall (fun s => 0 < s.2 <= IDMAC_DESCRIPTOR_BUFFER_SIZE) segments /\
    1 <= Z.of_nat (length segments) <= 4.
Proof.
  intros Hlen Ha Hal Hp Hpn. pose proof (descriptor_count_range len Hlen) as Hn.
  destruct (walk_chain_from len a p (Z.to_nat (descriptor_count_for len)) 0)
    as (segs & Hw & Hl & Hb & Hf); [done..| lia | lia |].
  rewrite !Z.mul_0_l, !Z.add_0_r, Z.sub_0_r in *. exists segs. split_and!; [done..| |]; lia.
Qed.

End chain_facts.

Lemma descriptor_chain_covers_transfer_witness :
  exists segments,
    walk_chain 3 (descriptor_memory 0x1000 (descriptor_chain 10240 0x80000000 0x1000)) 0x1000
      = Some segments /\ segment_bytes segments = seqZ 0x80000000 10240.
Proof.
  destruct (descriptor_chain_covers_transfer 10240 0x80000000 0x1000) as (s & Hw & Hb & _);
    [vm_compute; split; congruence | vm_compute; congruence ..|].
  exists s. split; [exact Hw | exact Hb].
Defined.
