(* ===== verification/Machine.v ===== *)
(** * The machine the driver runs on

    The driver talks to memory-mapped registers, a FIFO window, coherent DMA memory, clocks and
    the scheduler.  None of these is driver code: they are the operations of the class
    [Platform], over an arbitrary state [HW] which evolves at every access, so that every
    theorem about the driver holds for any behaviour of controller, card, memory and clock.

    Driver code is written in the monad [machine]: it reads and updates the driver object
    ([SdMmc]) and the static variables ([Globals]) of [sdmmc.rs], accesses the platform, and
    ends with a value, by being cancelled (a future dropped at a suspension point), by a panic,
    or by exhausting the fuel given to its loops.  Every access is recorded in a log. *)

From S2P Require Import Prelude Bitfield Regs CardStatus Command Dma.

(** ** Memory *)

(** [core::alloc::Layout]. *)
Record Layout : Type := mk_layout { layout_size : Z; layout_align : Z }.

(** [Layout::from_size_align]: the alignment is a power of two and the size, rounded up to it,
    does not exceed [isize::MAX]. *)
Definition layout_from_size_align (size align : Z) : option Layout :=
  if (0 <? align) && (Z.land align (align - 1) =? 0) && (size <=? 2 ^ 63 - align)
  then Some (mk_layout size align) else None.

(** [Layout::array::<IdmacDescriptor>(n)]: descriptors are 16 bytes, 4-byte aligned. *)
Definition layout_array_descriptor (n : Z) : option Layout :=
  layout_from_size_align (n * DESCRIPTOR_SIZE) 4.

(** [DMAInfo] ([axdma]): a coherent region, as the CPU and as the device address it. *)
Record DMAInfo : Type := mk_dma_info {
  cpu_addr : Z;
  bus_addr : Z;
  page_allocated : bool;
}.

(** [DMABuffer]. *)
Record DMABuffer : Type := mk_dma_buffer { dma_addr : DMAInfo; dma_size : Z }.

(** ** Driver state *)

(** [AHBDataWidth]. *)
Inductive AHBDataWidth : Type := Bits16 | Bits32 | Bits64.

Definition align_value (w : AHBDataWidth) : Z :=
  match w with Bits16 => 2 | Bits32 => 4 | Bits64 => 8 end.

(** The driver object [SdMmc], apart from the pointer to the register block. *)
Record SdMmc : Type := mk_sdmmc {
  num_blocks : Z;
  rca : Z;
  ocr_ccs : bool;
  ahb_data_width : AHBDataWidth;
  dma_buffer : option DMABuffer;
  idmac_faulted : bool;
  idmac_reset_failed : bool;
}.

(** [IdmacCompletion]: what the interrupt handler recorded for the current transfer. *)
Record IdmacCompletion : Type := mk_completion {
  generation : Z;
  snapshot_generation : Z;
  rintsts_bits : Z;
  idsts_bits : Z;
}.

(** The static variables of [sdmmc.rs]; [wait_queue_notified] counts the calls to
    [IDMAC_WAIT_QUEUE.notify_one]. *)
Record Globals : Type := mk_globals {
  IDMAC_DONE_FLAG : bool;
  IDMAC_ERROR_FLAG : bool;
  IDMAC_START_LOGGED : bool;
  SDMMC_REGS_BASE : Z;
  IDMAC_COMPLETION : IdmacCompletion;
  ASYNC_WRITE_BUSY_SEQUENCE : Z;
  wait_queue_notified : Z;
}.

(** ** The platform *)

Inductive log_level : Type := LError | LWarn | LInfo | LDebug | LTrace.

(** What the driver relies on but does not implement: volatile access to the registers and to
    DMA memory ([volatile], [core::ptr]), the coherent allocator ([axdma]), clocks in
    nanoseconds ([axhal::time]), the points where the controller's interrupt is delivered, the
    resumption or dropping of a suspended future, and the build and log configuration. *)
Class Platform (HW : Type) : Type := {
  hw_read : reg -> HW -> Z * HW;
  hw_write : reg -> Z -> HW -> HW;
  hw_resp : HW -> resp4 * HW;
  hw_fifo_read : HW -> Z * HW;
  hw_fifo_write : Z -> HW -> HW;
  hw_fence : HW -> HW;
  hw_desc_read : Z -> HW -> Z * HW;
  hw_desc_write : Z -> IdmacDescriptor -> HW -> HW;
  hw_mem_read : Z -> HW -> Z;
  hw_mem_write : Z -> list Z -> HW -> HW;
  hw_alloc : Layout -> HW -> option DMAInfo * HW;
  hw_dealloc : DMAInfo -> Layout -> HW -> HW;
  hw_monotonic_time : HW -> Z * HW;
  hw_wall_time : HW -> Z * HW;
  hw_busy_wait : Z -> HW -> HW;
  hw_irq : HW -> bool * HW;
  hw_await : HW -> bool * HW;
  debug_assertions : bool;
  log_enabled : log_level -> bool;
}.

(** ** Events *)

(** One entry of the log per access. *)
Inductive event : Type :=
| EvRead (r : reg) (v : Z)
| EvWrite (r : reg) (v : Z)
| EvResp (v : resp4)
| EvFifoRead (v : Z)
| EvFifoWrite (v : Z)
| EvFence
| EvDescRead (addr v : Z)
| EvDescWrite (addr : Z) (d : IdmacDescriptor)
| EvMemRead (addr : Z) (n : nat)
| EvMemWrite (addr : Z) (bytes : list Z)
| EvAlloc (l : Layout) (i : option DMAInfo)
| EvFree (i : DMAInfo) (l : Layout)
| EvTime (t : Z)
| EvWallTime (t : Z)
| EvBusyWait (d : Z)
| EvIrq
| EvRegisterIrq (registered : bool)
| EvAwait (resumed : bool)
| EvNotify.

(** ** The monad *)

Inductive outcome (A : Type) : Type :=
| Done (a : A)
| Cancelled
| Panicked
| Diverged.
Arguments Done {A} a.
Arguments Cancelled {A}.
Arguments Panicked {A}.
Arguments Diverged {A}.

(** The state of a run: driver object, statics, platform, and the log, newest entry first. *)
Record world (HW : Type) : Type := World {
  w_dev : SdMmc;
  w_glob : Globals;
  w_hw : HW;
  w_log : list event;
}.
Arguments World {HW} _ _ _ _.
Arguments w_dev {HW} _.
Arguments w_glob {HW} _.
Arguments w_hw {HW} _.
Arguments w_log {HW} _.

Definition machine (HW A : Type) : Type := world HW -> outcome A * world HW.

#[export] Instance machine_ret {HW} : MRet (machine HW) := fun A a w => (Done a, w).
#[export] Instance machine_bind {HW} : MBind (machine HW) := fun A B k m w =>
  match m w with
  | (Done a, w') => k a w'
  | (Cancelled, w') => (Cancelled, w')
  | (Panicked, w') => (Panicked, w')
  | (Diverged, w') => (Diverged, w')
  end.

(** The [?] operator: continue with the value of an [Ok], return an [Err] at once. *)
Definition try_bind {HW E A B} (m : machine HW (result E A)) (k : A -> machine HW (result E B)) :
    machine HW (result E B) :=
  r ← m; match r with Ok a => k a | Err e => mret (Err e) end.
Notation "x ←? m ; k" := (try_bind m (fun x => k))
  (at level 20, m at level 100, k at level 200, only parsing) : stdpp_scope.

(** ** Primitives *)

Section primitives.
Context {HW : Type} {P : Platform HW}.
Local Notation M := (machine HW).

Definition panic {A} : M A := fun w => (Panicked, w).
Definition cancel {A} : M A := fun w => (Cancelled, w).
Definition diverge {A} : M A := fun w => (Diverged, w).
Definition emit (e : event) : M () := fun w =>
  (Done (), World (w_dev w) (w_glob w) (w_hw w) (e :: w_log w)).

(** One access to the platform, recorded by [ev]. *)
Definition access {A} (f : HW -> A * HW) (ev : A -> list event) : M A := fun w =>
  let '(a, h) := f (w_hw w) in
  (Done a, World (w_dev w) (w_glob w) h (ev a ++ w_log w)).

(** The driver object and the statics. *)
Definition get_dev {A} (f : SdMmc -> A) : M A := fun w => (Done (f (w_dev w)), w).
Definition set_dev (f : SdMmc -> SdMmc) : M () := fun w =>
  (Done (), World (f (w_dev w)) (w_glob w) (w_hw w) (w_log w)).
Definition get_glob {A} (f : Globals -> A) : M A := fun w => (Done (f (w_glob w)), w).
Definition set_glob (f : Globals -> Globals) : M () := fun w =>
  (Done (), World (w_dev w) (f (w_glob w)) (w_hw w) (w_log w)).

(** Register access: a register read yields a 32-bit value. *)
Definition raw_read (r : reg) : M Z :=
  access (fun h => let '(v, h') := hw_read r h in (as_u32 v, h')) (fun v => [EvRead r v]).
Definition raw_write (r : reg) (v : Z) : M () :=
  access (fun h => ((), hw_write r v h)) (fun _ => [EvWrite r v]).
Definition raw_fence : M () := access (fun h => ((), hw_fence h)) (fun _ => [EvFence]).

End primitives.
