(* ===== verification/Irq.v ===== *)
(** * Interrupt handler and completion snapshot

    [IdmacCompletion] and [SdMmc::dma_irq_handler] of [sdmmc.rs], and the task-level accesses of
    the driver.  The handler runs to completion on the CPU that took the interrupt; before
    every access of a task to a register, to shared memory, to a clock or to a static variable,
    the platform decides whether the interrupt is delivered there ([poll_irq]), so a run of the
    driver is a run under an arbitrary interleaving with its handler. *)

From S2P Require Import Prelude Bitfield Regs CardStatus Command Dma Machine.

(** ** [IdmacCompletion] *)

Definition completion_new : IdmacCompletion := mk_completion 0 0 0 0.

(** [IdmacCompletion::record_irq], called by the handler. *)
Definition record_irq (rintsts idsts : Z) (c : IdmacCompletion) : IdmacCompletion :=
  if generation c =? 0 then c
  else mk_completion (generation c) (generation c)
         (Z.lor (rintsts_bits c) rintsts) (Z.lor (idsts_bits c) idsts).

(** Updates of single fields. *)
Definition set_completion (f : IdmacCompletion -> IdmacCompletion) (g : Globals) : Globals :=
  mk_globals (IDMAC_DONE_FLAG g) (IDMAC_ERROR_FLAG g) (IDMAC_START_LOGGED g) (SDMMC_REGS_BASE g)
    (f (IDMAC_COMPLETION g)) (ASYNC_WRITE_BUSY_SEQUENCE g) (wait_queue_notified g).
Definition set_done_flag (b : bool) (g : Globals) : Globals :=
  mk_globals b (IDMAC_ERROR_FLAG g) (IDMAC_START_LOGGED g) (SDMMC_REGS_BASE g)
    (IDMAC_COMPLETION g) (ASYNC_WRITE_BUSY_SEQUENCE g) (wait_queue_notified g).
Definition set_error_flag (b : bool) (g : Globals) : Globals :=
  mk_globals (IDMAC_DONE_FLAG g) b (IDMAC_START_LOGGED g) (SDMMC_REGS_BASE g)
    (IDMAC_COMPLETION g) (ASYNC_WRITE_BUSY_SEQUENCE g) (wait_queue_notified g).
Definition set_start_logged (b : bool) (g : Globals) : Globals :=
  mk_globals (IDMAC_DONE_FLAG g) (IDMAC_ERROR_FLAG g) b (SDMMC_REGS_BASE g)
    (IDMAC_COMPLETION g) (ASYNC_WRITE_BUSY_SEQUENCE g) (wait_queue_notified g).
Definition set_regs_base (base : Z) (g : Globals) : Globals :=
  mk_globals (IDMAC_DONE_FLAG g) (IDMAC_ERROR_FLAG g) (IDMAC_START_LOGGED g) base
    (IDMAC_COMPLETION g) (ASYNC_WRITE_BUSY_SEQUENCE g) (wait_queue_notified g).
Definition set_busy_sequence (n : Z) (g : Globals) : Globals :=
  mk_globals (IDMAC_DONE_FLAG g) (IDMAC_ERROR_FLAG g) (IDMAC_START_LOGGED g) (SDMMC_REGS_BASE g)
    (IDMAC_COMPLETION g) n (wait_queue_notified g).
Definition add_notification (g : Globals) : Globals :=
  mk_globals (IDMAC_DONE_FLAG g) (IDMAC_ERROR_FLAG g) (IDMAC_START_LOGGED g) (SDMMC_REGS_BASE g)
    (IDMAC_COMPLETION g) (ASYNC_WRITE_BUSY_SEQUENCE g) (wait_queue_notified g + 1).

(** ** The handler's decisions *)

Section decisions.
Context {BF : BitfieldStruct}.

(** [idsts.ais() || idsts.nis() || ...]: some IDMAC status bit is set. *)
Definition idsts_pending (idsts : Z) : bool :=
  bit IdSts "ais" idsts || bit IdSts "nis" idsts || bit IdSts "ces" idsts
  || bit IdSts "du" idsts || bit IdSts "fbe" idsts || bit IdSts "ri" idsts || bit IdSts "ti" idsts.

Definition irq_idmac_error (rintsts idsts : Z) : bool :=
  bit IdSts "ais" idsts || bit IdSts "ces" idsts || bit IdSts "du" idsts
  || bit IdSts "fbe" idsts || rintsts_error rintsts.

Definition irq_transfer_done (rintsts idsts : Z) : bool :=
  bit IdSts "ri" idsts || bit IdSts "ti" idsts || bit RIntSts "data_transfer_over" rintsts.

Definition irq_transfer_event (rintsts idsts : Z) : bool :=
  irq_transfer_done rintsts idsts || bit RIntSts "auto_command_done" rintsts.

Definition irq_should_notify (rintsts idsts : Z) : bool :=
  irq_transfer_event rintsts idsts || irq_idmac_error rintsts idsts.

(** The condition under which the handler acknowledges RINTSTS bits. *)
Definition irq_clears_rintsts (rintsts idsts : Z) : bool :=
  irq_transfer_event rintsts idsts || irq_idmac_error rintsts idsts
  || bit RIntSts "receive_fifo_data_request" rintsts
  || bit RIntSts "transmit_fifo_data_request" rintsts.

(** Copy one flag of [src] into [dst]. *)
Definition copy_flag (src : Z) (name : string) (dst : Z) : Z :=
  with_bit RIntSts name (bit RIntSts name src) dst.

(** The bits the handler acknowledges, in the order the source sets them. *)
Definition irq_cleared_flags : list string :=
  ["end_bit_error"; "auto_command_done"; "start_bit_error"; "hardware_locked_write";
   "fifo_under_over_run"; "host_timeout"; "data_read_timeout"; "response_timeout";
   "data_crc_error"; "response_crc_error"; "response_error"; "data_transfer_over";
   "receive_fifo_data_request"; "transmit_fifo_data_request"]%string.

Definition irq_clear_rintsts (rintsts : Z) : Z :=
  foldl (fun w name => copy_flag rintsts name w) (bf_new RIntSts) irq_cleared_flags.

End decisions.

(** ** The handler *)

Section handler.
Context {HW : Type} {P : Platform HW} {BF : BitfieldStruct}.
Local Notation M := (machine HW).

(** [SdMmc::dma_irq_handler]. *)
Definition dma_irq_handler : M () :=
  regs_base ← get_glob SDMMC_REGS_BASE;
  should_notify ←
    (if negb (regs_base =? 0) then
       rintsts ← raw_read R_rintsts;
       idsts ← raw_read R_idsts;
       (if irq_idmac_error rintsts idsts then set_glob (set_error_flag true) else mret ());;
       (if idsts_pending idsts then raw_write R_idsts idsts else mret ());;
       (if irq_clears_rintsts rintsts idsts
        then raw_write R_rintsts (irq_clear_rintsts rintsts) else mret ());;
       raw_fence;;
       set_glob (set_completion (record_irq rintsts idsts));;
       mret (irq_should_notify rintsts idsts)
     else mret false);
  if (should_notify : bool) then
    set_glob (set_done_flag true);;
    set_glob add_notification;;
    emit EvNotify
  else mret ().

(** ** Task-level accesses *)

(** The interrupt is delivered here if the platform says so. *)
Definition poll_irq : M () :=
  b ← access hw_irq (fun _ => []);
  if (b : bool) then emit EvIrq;; dma_irq_handler else mret ().

Definition task {A} (m : M A) : M A := poll_irq;; m.

Definition read (r : reg) : M Z := task (raw_read r).
Definition write (r : reg) (v : Z) : M () := task (raw_write r v).

(** [VolatilePtr::update]: read, modify, write. *)
Definition update (r : reg) (f : Z -> Z) : M () := v ← read r; write r (f v).

(** [dma_io_fence]. *)
Definition dma_io_fence : M () := task raw_fence.

Definition read_resp : M resp4 :=
  task (access (fun h => let '(v, h') := hw_resp h in
    (Resp (as_u32 (resp0 v)) (as_u32 (resp1 v)) (as_u32 (resp2 v)) (as_u32 (resp3 v)), h'))
    (fun v => [EvResp v])).
Definition fifo_read : M Z :=
  task (access (fun h => let '(v, h') := hw_fifo_read h in (as_u64 v, h')) (fun v => [EvFifoRead v])).
Definition fifo_write (v : Z) : M () :=
  task (access (fun h => ((), hw_fifo_write v h)) (fun _ => [EvFifoWrite v])).
Definition desc_read (addr : Z) : M Z :=
  task (access (fun h => let '(v, h') := hw_desc_read addr h in (as_u32 v, h'))
    (fun v => [EvDescRead addr v])).
Definition desc_write (addr : Z) (d : IdmacDescriptor) : M () :=
  task (access (fun h => ((), hw_desc_write addr d h)) (fun _ => [EvDescWrite addr d])).
Definition mem_read (addr : Z) (n : nat) : M (list Z) :=
  task (access (fun h => (map (fun i => as_u8 (hw_mem_read (addr + Z.of_nat i) h)) (seq 0 n), h))
    (fun _ => [EvMemRead addr n])).
Definition mem_write (addr : Z) (bytes : list Z) : M () :=
  task (access (fun h => ((), hw_mem_write addr bytes h)) (fun _ => [EvMemWrite addr bytes])).
Definition alloc_coherent (l : Layout) : M (option DMAInfo) :=
  task (access (hw_alloc l) (fun i => [EvAlloc l i])).
Definition dealloc_coherent (i : DMAInfo) (l : Layout) : M () :=
  task (access (fun h => ((), hw_dealloc i l h)) (fun _ => [EvFree i l])).
Definition monotonic_time : M Z := task (access hw_monotonic_time (fun t => [EvTime t])).
Definition wall_time : M Z := task (access hw_wall_time (fun t => [EvWallTime t])).
Definition busy_wait (d : Z) : M () :=
  task (access (fun h => ((), hw_busy_wait d h)) (fun _ => [EvBusyWait d])).

(** Atomic access to a static variable. *)
Definition load {A} (f : Globals -> A) : M A := task (get_glob f).
Definition store (f : Globals -> Globals) : M () := task (set_glob f).

(** A suspension point of a future: the executor resumes it or drops it. *)
Definition await_point : M () :=
  b ← task (access hw_await (fun b => [EvAwait b]));
  if (b : bool) then mret () else cancel.

(** Locals with a [Drop] implementation: [handler] runs when [m] is dropped at a suspension
    point inside it. *)
Definition on_cancel {A} (m : M A) (handler : M ()) : M A := fun w =>
  match m w with
  | (Cancelled, w') => (handler;; cancel) w'
  | r => r
  end.

(** The register reads in the arguments of a log macro happen when its level is enabled. *)
Fixpoint read_all (rs : list reg) : M () :=
  match rs with
  | [] => mret ()
  | r :: rest => read r;; read_all rest
  end.
Definition log_reads (l : log_level) (rs : list reg) : M () :=
  if log_enabled l then read_all rs else mret ().

(** [debug_assert!]. *)
Definition debug_assert (b : bool) : M () :=
  if debug_assertions && negb b then panic else mret ().

(** ** Loops *)

(** [while !cond() { if monotonic_time() >= deadline { return false } } true]: the shape of
    the driver's bounded polling loops. *)
Fixpoint poll_until (fuel : nat) (cond : M bool) (deadline : Z) : M bool :=
  match fuel with
  | O => diverge
  | S fuel =>
      c ← cond;
      if (c : bool) then mret true
      else
        t ← monotonic_time;
        if deadline <=? t then mret false else poll_until fuel cond deadline
  end.

(** [while !cond() {}], and [wait_until]. *)
Fixpoint spin_until (fuel : nat) (cond : M bool) : M () :=
  match fuel with
  | O => diverge
  | S fuel => c ← cond; if (c : bool) then mret () else spin_until fuel cond
  end.

(** [IdmacCompletion::begin_transfer]: three stores, then the generation is advanced. *)
Definition begin_transfer : M Z :=
  store (set_completion (fun c => mk_completion (generation c) 0 (rintsts_bits c) (idsts_bits c)));;
  store (set_completion (fun c => mk_completion (generation c) (snapshot_generation c) 0 (idsts_bits c)));;
  store (set_completion (fun c => mk_completion (generation c) (snapshot_generation c) (rintsts_bits c) 0));;
  poll_irq;;
  g ← get_glob (fun g => generation (IDMAC_COMPLETION g));
  set_glob (set_completion (fun c => mk_completion (wrapping_add_usize (generation c) 1)
    (snapshot_generation c) (rintsts_bits c) (idsts_bits c)));;
  mret (wrapping_add_usize g 1).

(** [IdmacCompletion::snapshot_bits]. *)
Definition snapshot_bits (g : Z) : M (option (Z * Z)) :=
  s ← load (fun gl => snapshot_generation (IDMAC_COMPLETION gl));
  if negb (s =? g) then mret None
  else
    rintsts ← load (fun gl => rintsts_bits (IDMAC_COMPLETION gl));
    idsts ← load (fun gl => idsts_bits (IDMAC_COMPLETION gl));
    s' ← load (fun gl => snapshot_generation (IDMAC_COMPLETION gl));
    if s' =? g then mret (Some (rintsts, idsts)) else mret None.

End handler.

#[global] Arguments read_all {HW P BF} rs : simpl never.
