(* ===== verification/Logic.v ===== *)
(** * Reasoning about the driver

    Two layers of rules for the monad of [Machine].

    - [emits E m]: a run of [m] leaves the driver object alone, does not panic, only adds
      events of the class [E] to the log, and is only cancelled if [E] has that event.
    - [vwp m Q C D d s]: a weakest precondition over an abstract view of the state, namely the
      driver object [d] and the state [s] of a monitor, an automaton that reads the log.  [Q]
      is the postcondition of a run that returns, [C] that of a cancelled run, [D] holds when
      the fuel of a loop runs out; a panic is excluded.

    Interrupts need no rule of their own: the accesses of the handler belong to
    [handler_event], on which a monitor does not move. *)

From S2P Require Import Prelude Bitfield Regs CardStatus Command Dma Machine Irq.

(** The events of an interrupt. *)
Definition handler_event (e : event) : Prop :=
  match e with
  | EvIrq | EvNotify | EvFence => True
  | EvRead r _ | EvWrite r _ => r = R_rintsts \/ r = R_idsts
  | _ => False
  end.

(** ** Event classes *)

Section emits.
Context {HW : Type} {P : Platform HW} {BF : BitfieldStruct}.
Local Notation M := (machine HW).

Definition emits (E : event -> Prop) {A} (m : M A) : Prop :=
  forall w, w_dev (m w).2 = w_dev w /\ (m w).1 <> Panicked /\
    ((m w).1 = Cancelled -> E (EvAwait false)) /\
    exists es, w_log (m w).2 = es ++ w_log w /\ Forall E es.

Context (E : event -> Prop).

Lemma emits_ret {A} (a : A) : emits E (mret a : M A).
Proof. intros w. split_and!; [done..|]. by exists []. Qed.

Lemma emits_bind {A B} (m : M A) (k : A -> M B) :
  emits E m -> (forall a, emits E (k a)) -> emits E (m ≫= k).
Proof.
  intros Hm Hk w. destruct (Hm w) as (Hd & Hp & Hc & es & Hl & Hes).
  unfold mbind, machine_bind. destruct (m w) as [[a| | |] w'] eqn:Em; simpl in *;
    [|split_and!; [done|done|auto|eauto]; done..].
  destruct (Hk a w') as (Hd' & Hp' & Hc' & es' & Hl' & Hes').
  split_and!; [congruence|done|done|]. exists (es' ++ es). rewrite Hl', Hl, app_assoc.
  split; [done|]. by apply Forall_app.
Qed.

Lemma emits_access {A} (f : HW -> A * HW) ev :
  (forall a, Forall E (ev a)) -> emits E (access f ev : M A).
Proof.
  intros Hev w. unfold access. destruct (f (w_hw w)) as [a h]; simpl.
  split_and!; [done..|]. exists (ev a); auto.
Qed.

Lemma emits_emit e : E e -> emits E (emit e : M ()).
Proof. intros He w. split_and!; [done..|]. exists [e]; auto. Qed.

Lemma emits_get_dev {A} (f : SdMmc -> A) : emits E (get_dev f : M A).
Proof. intros w. split_and!; [done..|]. by exists []. Qed.

Lemma emits_get_glob {A} (f : Globals -> A) : emits E (get_glob f : M A).
Proof. intros w. split_and!; [done..|]. by exists []. Qed.

Lemma emits_set_glob f : emits E (set_glob f : M ()).
Proof. intros w. split_and!; [done..|]. by exists []. Qed.

Lemma emits_diverge {A} : emits E (diverge : M A).
Proof. intros w. split_and!; [done..|]. by exists []. Qed.

Lemma emits_cancel {A} : E (EvAwait false) -> emits E (cancel : M A).
Proof. intros He w. split_and!; [done..|]. by exists []. Qed.

Lemma emits_if {A} (b : bool) (m1 m2 : M A) :
  emits E m1 -> emits E m2 -> emits E (if b then m1 else m2).
Proof. by destruct b. Qed.

Lemma emits_try_bind {X A B} (m : M (result X A)) (k : A -> M (result X B)) :
  emits E m -> (forall a, emits E (k a)) -> emits E (try_bind m k).
Proof. intros Hm Hk. apply emits_bind; [done|]. intros [a|e]; [done|apply emits_ret]. Qed.

(** ** Accesses, each preceded by a possible interrupt *)

Context (HE : forall e, handler_event e -> E e).

Lemma emits_handler : emits E dma_irq_handler.
Proof.
  unfold dma_irq_handler, raw_read, raw_write, raw_fence.
  repeat first [apply emits_bind; intros | apply emits_if | apply emits_access; intros
               | apply emits_emit | apply emits_ret | apply emits_get_glob | apply emits_set_glob];
    repeat constructor; apply HE; simpl; auto.
Qed.

Lemma emits_poll_irq : emits E poll_irq.
Proof.
  unfold poll_irq. apply emits_bind; [by apply emits_access|]. intros []; [|apply emits_ret].
  apply emits_bind; [apply emits_emit, HE; done|]. intros _. apply emits_handler.
Qed.

Lemma emits_task {A} (m : M A) : emits E m -> emits E (task m).
Proof. intros Hm. apply emits_bind; [apply emits_poll_irq|done]. Qed.

Lemma emits_read r : (forall v, E (EvRead r v)) -> emits E (read r).
Proof. intros. apply emits_task, emits_access. auto. Qed.
Lemma emits_write r v : E (EvWrite r v) -> emits E (write r v).
Proof. intros. apply emits_task, emits_access. auto. Qed.
Lemma emits_update r f : (forall v, E (EvRead r v)) -> (forall v, E (EvWrite r (f v))) ->
  emits E (update r f).
Proof. intros. apply emits_bind; [by apply emits_read|]. intros. by apply emits_write. Qed.
Lemma emits_fence : emits E dma_io_fence.
Proof. apply emits_task, emits_access. repeat constructor. by apply HE. Qed.
Lemma emits_read_resp : (forall v, E (EvResp v)) -> emits E read_resp.
Proof. intros. apply emits_task, emits_access. auto. Qed.
Lemma emits_fifo_read : (forall v, E (EvFifoRead v)) -> emits E fifo_read.
Proof. intros. apply emits_task, emits_access. auto. Qed.
Lemma emits_fifo_write v : E (EvFifoWrite v) -> emits E (fifo_write v).
Proof. intros. apply emits_task, emits_access. auto. Qed.
Lemma emits_desc_read a : (forall v, E (EvDescRead a v)) -> emits E (desc_read a).
Proof. intros. apply emits_task, emits_access. auto. Qed.
Lemma emits_desc_write a d : E (EvDescWrite a d) -> emits E (desc_write a d).
Proof. intros. apply emits_task, emits_access. auto. Qed.
Lemma emits_mem_read a n : E (EvMemRead a n) -> emits E (mem_read a n).
Proof. intros. apply emits_task, emits_access. auto. Qed.
Lemma emits_mem_write a bs : E (EvMemWrite a bs) -> emits E (mem_write a bs).
Proof. intros. apply emits_task, emits_access. auto. Qed.
Lemma emits_monotonic_time : (forall t, E (EvTime t)) -> emits E monotonic_time.
Proof. intros. apply emits_task, emits_access. auto. Qed.
Lemma emits_wall_time : (forall t, E (EvWallTime t)) -> emits E wall_time.
Proof. intros. apply emits_task, emits_access. auto. Qed.
Lemma emits_busy_wait n : E (EvBusyWait n) -> emits E (busy_wait n).
Proof. intros. apply emits_task, emits_access. auto. Qed.
Lemma emits_load {A} (f : Globals -> A) : emits E (load f).
Proof. apply emits_task, emits_get_glob. Qed.
Lemma emits_store f : emits E (store f).
Proof. apply emits_task, emits_set_glob. Qed.
Lemma emits_await : (forall b, E (EvAwait b)) -> emits E await_point.
Proof.
  intros. apply emits_bind; [apply emits_task, emits_access; auto|].
  intros []; [apply emits_ret|by apply emits_cancel].
Qed.

Lemma emits_read_all rs : (forall r v, E (EvRead r v)) -> emits E (read_all rs).
Proof.
  intros Hr. induction rs as [|r rs IH]; unfold read_all; [apply emits_ret|].
  apply emits_bind; [by apply emits_read|done].
Qed.
Lemma emits_log_reads l rs : (forall r v, E (EvRead r v)) -> emits E (log_reads l rs).
Proof. intros. apply emits_if; [by apply emits_read_all|apply emits_ret]. Qed.
Lemma emits_begin_transfer : emits E begin_transfer.
Proof.
  unfold begin_transfer.
  repeat first [apply emits_store | apply emits_poll_irq | apply emits_get_glob | apply emits_set_glob
               | apply emits_ret | apply emits_bind; intros].
Qed.
Lemma emits_snapshot_bits g : emits E (snapshot_bits g).
Proof.
  unfold snapshot_bits.
  repeat first [apply emits_load | apply emits_ret | apply emits_if | apply emits_bind; intros].
Qed.

Lemma emits_poll_until n cond deadline :
  (forall t, E (EvTime t)) -> emits E cond -> emits E (poll_until n cond deadline).
Proof.
  intros Ht Hc. induction n as [|n IH]; simpl; [apply emits_diverge|].
  apply emits_bind; [done|]. intros c. apply emits_if; [apply emits_ret|].
  apply emits_bind; [by apply emits_monotonic_time|]. intros t. apply emits_if; [apply emits_ret|done].
Qed.
Lemma emits_spin_until n cond : emits E cond -> emits E (spin_until n cond).
Proof.
  intros Hc. induction n as [|n IH]; simpl; [apply emits_diverge|].
  apply emits_bind; [done|]. intros c. apply emits_if; [apply emits_ret|done].
Qed.

End emits.

Create HintDb emits discriminated.

(** ** Monitors *)

(** An automaton over events, run over a log whose newest entry is first. *)
Class Monitor (St : Type) : Type := {
  mon_init : St;
  mon_step : event -> St -> St;
}.
Definition monitor {St} `{Monitor St} (log : list event) : St := foldr mon_step mon_init log.

(** A monitor that does not look at the interrupt handler's accesses. *)
Class IrqBlind St `{Monitor St} : Prop :=
  irq_blind : forall e s, handler_event e -> mon_step e s = s.

Lemma monitor_app {St} `{Monitor St} (es log : list event) :
  monitor (es ++ log) = foldr mon_step (monitor log) es.
Proof. apply foldr_app. Qed.

(** The events on which the monitor does not move from [s]. *)
Definition ignored {St} `{Monitor St} (s : St) (e : event) : Prop := mon_step e s = s.

(** The same, excluding the dropping of a future. *)
Definition quiet {St} `{Monitor St} (s : St) (e : event) : Prop :=
  ignored s e /\ e <> EvAwait false.

Lemma foldr_ignored {St} `{Monitor St} (es : list event) (s : St) :
  Forall (ignored s) es -> foldr mon_step s es = s.
Proof. induction 1 as [|e es He _ IH]; simpl; [done|]. by rewrite IH, He. Qed.

(** ** Weakest preconditions *)

Section vwp.
Context {HW : Type} {P : Platform HW} {BF : BitfieldStruct}.
Context {St : Type} {Mo : Monitor St} {Hblind : IrqBlind St}.
Local Notation M := (machine HW).
Local Notation pred := (SdMmc -> St -> Prop).

Definition vwp {A} (m : M A) (Q : A -> pred) (C D : pred) : pred := fun d s =>
  forall w, w_dev w = d -> monitor (w_log w) = s ->
    match (m w).1 with
    | Done a => Q a (w_dev (m w).2) (monitor (w_log (m w).2))
    | Cancelled => C (w_dev (m w).2) (monitor (w_log (m w).2))
    | Panicked => False
    | Diverged => D (w_dev (m w).2) (monitor (w_log (m w).2))
    end.

Lemma vwp_mono {A} (m : M A) (Q Q' : A -> pred) (C C' D D' : pred) d s :
  vwp m Q C D d s ->
  (forall a d s, Q a d s -> Q' a d s) -> (forall d s, C d s -> C' d s) ->
  (forall d s, D d s -> D' d s) -> vwp m Q' C' D' d s.
Proof. intros Hm HQ HC HD w Hd Hs. specialize (Hm w Hd Hs). destruct (m w).1; auto. Qed.

Lemma vwp_ret {A} (a : A) (Q : A -> pred) (C D : pred) d s : Q a d s -> vwp (mret a) Q C D d s.
Proof. intros HQ w <- <-. done. Qed.

Lemma vwp_bind {A B} (m : M A) (k : A -> M B) Q (C D : pred) d s :
  vwp m (fun a => vwp (k a) Q C D) C D d s -> vwp (m ≫= k) Q C D d s.
Proof.
  intros Hm w Hd Hs. specialize (Hm w Hd Hs). unfold mbind, machine_bind.
  destruct (m w) as [[a| | |] w']; simpl in *; [by apply Hm|done..].
Qed.

Lemma vwp_try_bind {X A B} (m : M (result X A)) (k : A -> M (result X B)) Q (C D : pred) d s :
  vwp m (fun r => match r with
                  | Ok a => vwp (k a) Q C D
                  | Err e => Q (Err e)
                  end) C D d s ->
  vwp (try_bind m k) Q C D d s.
Proof.
  intros Hm. apply vwp_bind. eapply vwp_mono; [done| |done|done].
  intros [a|e] d' s' H; [done|]. by apply vwp_ret.
Qed.

Lemma vwp_emits_with {A} (E : event -> Prop) (m : M A) (Q : A -> pred) (C D : pred) d s :
  emits E m -> (forall e, E e -> ignored s e) -> (forall a, Q a d s) ->
  (E (EvAwait false) -> C d s) -> D d s -> vwp m Q C D d s.
Proof.
  intros Hm HE HQ HC HD w <- <-. destruct (Hm w) as (Hd & Hp & Hc & es & Hl & Hes).
  rewrite Hd, Hl, monitor_app, foldr_ignored by (by eapply Forall_impl).
  destruct (m w).1; auto.
Qed.

(** Code that only emits ignored events, and is never dropped. *)
Lemma vwp_emits {A} (m : M A) (Q : A -> pred) (C D : pred) d s :
  emits (quiet s) m -> (forall a, Q a d s) -> D d s -> vwp m Q C D d s.
Proof. intros Hm HQ HD. eapply vwp_emits_with; [done|by intros e []|done|by intros []|done]. Qed.

(** Code that only emits ignored events, and may be dropped. *)
Lemma vwp_emits_async {A} (m : M A) (Q : A -> pred) (C D : pred) d s :
  emits (ignored s) m -> (forall a, Q a d s) -> C d s -> D d s -> vwp m Q C D d s.
Proof. intros Hm HQ HC HD. by eapply vwp_emits_with. Qed.

Lemma vwp_get_dev {A} (f : SdMmc -> A) (Q : A -> pred) (C D : pred) d s :
  Q (f d) d s -> vwp (get_dev f) Q C D d s.
Proof. by intros HQ w <- <-. Qed.

Lemma vwp_set_dev f (Q : () -> pred) (C D : pred) d s :
  Q () (f d) s -> vwp (set_dev f) Q C D d s.
Proof. by intros HQ w <- <-. Qed.

Lemma vwp_diverge {A} (Q : A -> pred) (C D : pred) d s : D d s -> vwp diverge Q C D d s.
Proof. by intros HQ w <- <-. Qed.

Lemma vwp_cancel {A} (Q : A -> pred) (C D : pred) d s : C d s -> vwp cancel Q C D d s.
Proof. by intros HQ w <- <-. Qed.

Lemma vwp_on_cancel {A} (m : M A) (h : M ()) (Q : A -> pred) (C D : pred) d s :
  vwp m Q (vwp h (fun _ => C) C D) D d s -> vwp (on_cancel m h) Q C D d s.
Proof.
  intros Hm w Hd Hs. specialize (Hm w Hd Hs). unfold on_cancel.
  destruct (m w) as [[a| | |] w']; simpl in *; try done.
  specialize (Hm w' eq_refl eq_refl). unfold mbind, machine_bind, cancel.
  by destruct (h w') as [[[]| | |] w''].
Qed.

(** The handler always returns. *)
Lemma poll_irq_returns (w : world HW) : exists w', poll_irq w = (Done (), w').
Proof.
  unfold poll_irq, dma_irq_handler, mbind, machine_bind, emit, get_glob, set_glob,
    raw_read, raw_write, raw_fence, access, mret, machine_ret; cbn [fst snd].
  repeat (simpl; first [by eexists | case_match; simplify_eq/=]).
Qed.

(** An access with its preceding interrupt. *)
Lemma vwp_task_access {A} (f : HW -> A * HW) ev (Q : A -> pred) (C D : pred) d s :
  (forall h, let a := (f h).1 in Q a d (foldr mon_step s (ev a))) ->
  vwp (task (access f ev)) Q C D d s.
Proof.
  intros HQ w Hd Hs. unfold task, mbind, machine_bind.
  destruct (emits_poll_irq handler_event (fun e H => H) w) as (Hd' & _ & _ & es & Hl & Hes).
  destruct (poll_irq_returns w) as [w' Hw']. rewrite Hw' in *. simpl in *.
  unfold access. specialize (HQ (w_hw w')). destruct (f (w_hw w')) as [a h]; simpl in *.
  rewrite Hd', Hd, monitor_app, Hl, monitor_app, (foldr_ignored es), Hs; [done|].
  eapply Forall_impl; [done|]. intros e He. by apply irq_blind.
Qed.

Lemma vwp_read r (Q : Z -> pred) (C D : pred) d s :
  (forall v, 0 <= v < 2 ^ 32 -> Q v d (mon_step (EvRead r v) s)) -> vwp (read r) Q C D d s.
Proof.
  intros HQ. apply vwp_task_access. intros h. destruct (hw_read r h) as [v h']; simpl.
  apply HQ. apply as_u32_range.
Qed.

Lemma vwp_write r v (Q : () -> pred) (C D : pred) d s :
  Q () d (mon_step (EvWrite r v) s) -> vwp (write r v) Q C D d s.
Proof. intros HQ. by apply vwp_task_access. Qed.

Lemma vwp_update r f (Q : () -> pred) (C D : pred) d s :
  (forall v, 0 <= v < 2 ^ 32 -> Q () d (mon_step (EvWrite r (f v)) (mon_step (EvRead r v) s))) ->
  vwp (update r f) Q C D d s.
Proof. intros HQ. apply vwp_bind, vwp_read. intros v Hv. apply vwp_write. auto. Qed.

Lemma vwp_desc_read a (Q : Z -> pred) (C D : pred) d s :
  (forall v, 0 <= v < 2 ^ 32 -> Q v d (mon_step (EvDescRead a v) s)) -> vwp (desc_read a) Q C D d s.
Proof.
  intros HQ. apply vwp_task_access. intros h. destruct (hw_desc_read a h) as [v h']; simpl.
  apply HQ. apply as_u32_range.
Qed.

Lemma vwp_alloc l (Q : option DMAInfo -> pred) (C D : pred) d s :
  (forall i, Q i d (mon_step (EvAlloc l i) s)) -> vwp (alloc_coherent l) Q C D d s.
Proof. intros HQ. apply vwp_task_access. intros h. apply HQ. Qed.

Lemma vwp_dealloc i l (Q : () -> pred) (C D : pred) d s :
  Q () d (mon_step (EvFree i l) s) -> vwp (dealloc_coherent i l) Q C D d s.
Proof. intros HQ. by apply vwp_task_access. Qed.

(** The polling loop, with an invariant. *)
Lemma vwp_poll_until (I : pred) n (cond : M bool) deadline (Q : bool -> pred) (C D : pred) d s :
  (forall d s, I d s -> D d s) ->
  (forall d s, I d s ->
     vwp cond (fun b d s => if b then Q true d s
                            else forall t, I d (mon_step (EvTime t) s) /\ Q false d (mon_step (EvTime t) s)) C D d s) ->
  I d s -> vwp (poll_until n cond deadline) Q C D d s.
Proof.
  intros HD Hc. revert d s. induction n as [|n IH]; intros d s HI; simpl.
  { apply vwp_diverge. auto. }
  apply vwp_bind. eapply vwp_mono; [by apply Hc| |done|done].
  intros [] d' s' H; [by apply vwp_ret|].
  apply vwp_bind. apply vwp_task_access. intros h. simpl. destruct (H (hw_monotonic_time h).1).
  case_match; [by apply vwp_ret|]. by apply IH.
Qed.

(** What a weakest precondition says of a run. *)
Lemma vwp_run {A} (m : M A) (Q : A -> pred) (C D : pred) w :
  vwp m Q C D (w_dev w) (monitor (w_log w)) ->
  match (m w).1 with
  | Done a => Q a (w_dev (m w).2) (monitor (w_log (m w).2))
  | Cancelled => C (w_dev (m w).2) (monitor (w_log (m w).2))
  | Panicked => False
  | Diverged => D (w_dev (m w).2) (monitor (w_log (m w).2))
  end.
Proof. intros Hm. by apply Hm. Qed.

End vwp.
#[global] Opaque vwp.
