(* ===== verification/Sim.v ===== *)
(** * A simulated controller

    An executable instance of [Platform]: a controller with its internal DMA engine, an SDHC
    card, coherent memory and a clock.  Theorems about the driver hold for every platform; this
    one shows that their hypotheses can be met, and lets the driver be run.

    Registers answer at once: START_CMD and the reset bits read as zero, data is never busy.  A
    command sets the response registers and raises its completion bits; a data command with the
    engine on walks the descriptor chain, moves the blocks and gives the descriptors back.  The
    interrupt is delivered whenever an unmasked status bit is up.  [sim_stall] makes DMA
    transfers hang, [sim_fail] makes CMD13 answer with a response timeout, [sim_drop] makes the
    executor drop a future at its next suspension. *)

From S2P Require Import Prelude Bitfield Regs CardStatus Command Dma Machine.

Record sim : Type := mk_sim {
  sim_time : Z;
  sim_regs : list (reg * Z);              (* last values written *)
  sim_rintsts : Z;
  sim_idsts : Z;
  sim_resp : resp4;
  sim_desc : list (Z * IdmacDescriptor);  (* descriptor memory *)
  sim_mem : Z -> Z;                       (* DMA memory, by byte *)
  sim_card : Z -> Z;                      (* the card, by byte *)
  sim_next : Z;                           (* the next free coherent address *)
  sim_stall : bool;
  sim_fail : bool;
  sim_drop : bool;
}.

Section sim.
#[local] Existing Instance arith_bitfields.

Definition sim_reg (r : reg) (h : sim) : Z :=
  default 0 (snd <$> list_find (fun p => p.1 = r) (sim_regs h) ≫= fun p => Some p.2).

Definition sim_set (r : reg) (v : Z) (h : sim) : sim :=
  mk_sim (sim_time h) ((r, v) :: filter (fun p => p.1 <> r) (sim_regs h)) (sim_rintsts h)
    (sim_idsts h) (sim_resp h) (sim_desc h) (sim_mem h) (sim_card h) (sim_next h)
    (sim_stall h) (sim_fail h) (sim_drop h).

Definition sim_raise (rintsts idsts : Z) (h : sim) : sim :=
  mk_sim (sim_time h) (sim_regs h) (Z.lor (sim_rintsts h) rintsts) (Z.lor (sim_idsts h) idsts)
    (sim_resp h) (sim_desc h) (sim_mem h) (sim_card h) (sim_next h)
    (sim_stall h) (sim_fail h) (sim_drop h).

Definition sim_clear (rintsts idsts : Z) (h : sim) : sim :=
  mk_sim (sim_time h) (sim_regs h) (Z.ldiff (sim_rintsts h) rintsts) (Z.ldiff (sim_idsts h) idsts)
    (sim_resp h) (sim_desc h) (sim_mem h) (sim_card h) (sim_next h)
    (sim_stall h) (sim_fail h) (sim_drop h).

Definition sim_answer (r : resp4) (h : sim) : sim :=
  mk_sim (sim_time h) (sim_regs h) (sim_rintsts h) (sim_idsts h) r (sim_desc h) (sim_mem h)
    (sim_card h) (sim_next h) (sim_stall h) (sim_fail h) (sim_drop h).

Definition sim_tick (h : sim) : Z * sim :=
  (sim_time h, mk_sim (sim_time h + 10000000) (sim_regs h) (sim_rintsts h) (sim_idsts h) (sim_resp h)
    (sim_desc h) (sim_mem h) (sim_card h) (sim_next h) (sim_stall h) (sim_fail h) (sim_drop h)).

Definition sim_lookup_desc (addr : Z) (h : sim) : option IdmacDescriptor :=
  snd <$> (list_find (fun p => p.1 = addr) (sim_desc h) ≫= fun p => Some p.2).

(** The engine: move the segments of the chain and give every descriptor back. *)
Definition patch (dst src : Z -> Z) (from to n : Z) : Z -> Z :=
  fun a => if (to <=? a) && (a <? to + n) then src (from + (a - to)) else dst a.

Definition sim_dma (write : bool) (block : Z) (h : sim) : sim :=
  match walk_chain 8 (fun a => sim_lookup_desc a h) (sim_reg R_dbaddr h) with
  | None => sim_raise 0 (with_bit IdSts "du" true 0) h
  | Some segments =>
      let '(mem, card, _) :=
        foldl (fun '(mem, card, pos) '(addr, n) =>
                 if write then (mem, patch card mem addr pos n, pos + n)
                 else (patch mem card pos addr n, card, pos + n))
          (sim_mem h, sim_card h, block * 512) segments in
      let done := map (fun '(a, d) => (a, Descriptor (with_bit IdmacDes0 "own" false (des0 d))
                                             (des1 d) (des2 d) (des3 d))) (sim_desc h) in
      let h := mk_sim (sim_time h) (sim_regs h) (sim_rintsts h) (sim_idsts h) (sim_resp h) done
                 mem card (sim_next h) (sim_stall h) (sim_fail h) (sim_drop h) in
      sim_raise
        (with_bit RIntSts "data_transfer_over" true (with_bit RIntSts "auto_command_done" true 0))
        (if write then with_bit IdSts "ti" true 0 else with_bit IdSts "ri" true 0) h
  end.

(** The card's answers. *)
Definition sim_response (index : Z) : resp4 :=
  match index with
  | 3 => Resp 0x00010000 0 0 0
  | 8 => Resp 0x1aa 0 0 0
  | 9 => Resp 0 0x00010000 0 0x40000000
  | 13 | 17 | 18 | 24 | 25 => Resp 0x900 0 0 0
  | 41 => Resp 0xc0ff8000 0 0 0
  | 55 => Resp 0x120 0 0 0
  | _ => Resp 0 0 0 0
  end.

Definition sim_command (v : Z) (h : sim) : sim :=
  if bit Cmd "update_clock_registers_only" v then h
  else
    let index := bits Cmd "cmd_index" v in
    if sim_fail h && (index =? 13)
    then sim_raise (with_bit RIntSts "response_timeout" true (with_bit RIntSts "command_done" true 0)) 0 h
    else
      let h := sim_raise (with_bit RIntSts "command_done" true 0) 0
                 (sim_answer (sim_response index) h) in
      if negb (bit Cmd "data_expected" v) then h
      else if bit Ctrl "use_internal_dmac" (sim_reg R_ctrl h)
      then if sim_stall h then h else sim_dma (bit Cmd "read_write" v) (sim_reg R_cmdarg h) h
      else sim_raise (with_bit RIntSts "data_transfer_over" true 0) 0 h.

Definition sim_read (r : reg) (h : sim) : Z * sim :=
  (match r with
   | R_rintsts => sim_rintsts h
   | R_idsts => sim_idsts h
   | R_cmd | R_status => 0
   | R_hcon => with_bits HCon "h_data_width" 1 0
   | R_ctrl => with_bit Ctrl "dma_reset" false (sim_reg R_ctrl h)
   | R_bmod => with_bit BMod "swr" false (sim_reg R_bmod h)
   | _ => sim_reg r h
   end, h).

Definition sim_write (r : reg) (v : Z) (h : sim) : sim :=
  match r with
  | R_rintsts => sim_clear v 0 h
  | R_idsts => sim_clear 0 v h
  | R_cmd => sim_command v h
  | _ => sim_set r v h
  end.

(** An unmasked status bit is up and the controller's interrupt output is enabled. *)
Definition sim_irq (h : sim) : bool :=
  bit Ctrl "int_enable" (sim_reg R_ctrl h)
  && negb ((Z.land (sim_rintsts h) (sim_reg R_intmask h) =? 0)
           && (Z.land (sim_idsts h) (sim_reg R_idinten h) =? 0)).

Definition sim_alloc (l : Layout) (h : sim) : option DMAInfo * sim :=
  (Some (mk_dma_info (sim_next h) (sim_next h) false),
   mk_sim (sim_time h) (sim_regs h) (sim_rintsts h) (sim_idsts h) (sim_resp h) (sim_desc h)
     (sim_mem h) (sim_card h) (sim_next h + 0x10000) (sim_stall h) (sim_fail h) (sim_drop h)).

Definition sim_write_mem (addr : Z) (bytes : list Z) (h : sim) : sim :=
  mk_sim (sim_time h) (sim_regs h) (sim_rintsts h) (sim_idsts h) (sim_resp h) (sim_desc h)
    (patch (sim_mem h) (fun i => default 0 (bytes !! Z.to_nat i)) 0 addr (Z.of_nat (length bytes)))
    (sim_card h) (sim_next h) (sim_stall h) (sim_fail h) (sim_drop h).

Definition sim_write_desc (addr : Z) (d : IdmacDescriptor) (h : sim) : sim :=
  mk_sim (sim_time h) (sim_regs h) (sim_rintsts h) (sim_idsts h) (sim_resp h)
    ((addr, d) :: filter (fun p => p.1 <> addr) (sim_desc h)) (sim_mem h) (sim_card h) (sim_next h)
    (sim_stall h) (sim_fail h) (sim_drop h).

#[export] Instance sim_platform : Platform sim := {
  hw_read := sim_read;
  hw_write := sim_write;
  hw_resp h := (sim_resp h, h);
  hw_fifo_read h := (0, h);
  hw_fifo_write _ h := h;
  hw_fence h := h;
  hw_desc_read a h := (default 0 (des0 <$> sim_lookup_desc a h), h);
  hw_desc_write := sim_write_desc;
  hw_mem_read a h := sim_mem h a;
  hw_mem_write := sim_write_mem;
  hw_alloc := sim_alloc;
  hw_dealloc _ _ h := h;
  hw_monotonic_time := sim_tick;
  hw_wall_time := sim_tick;
  hw_busy_wait _ h := h;
  hw_irq h := (sim_irq h, h);
  hw_await h := (negb (sim_drop h), h);
  debug_assertions := true;
  log_enabled _ := true;
}.

(** A card whose byte at address [a] is [a] modulo 251, before power-up. *)
Definition sim_start (stall fail drop : bool) : world sim :=
  World (mk_sdmmc 0 0 false Bits32 None false false)
    (mk_globals false false false 0 (mk_completion 0 0 0 0) 0 0)
    (mk_sim 0 [] 0 0 (Resp 0 0 0 0) [] (fun _ => 0) (fun a => a mod 251) 0x1000 stall fail drop)
    [].

(** The same after the register base has been stored. *)
Definition sim_start_at (base : Z) : world sim :=
  World (w_dev (sim_start false false false))
    (mk_globals false false false base (mk_completion 1 0 0 0) 0 0)
    (w_hw (sim_start false false false)) [].

End sim.
