(* ===== verification/Driver.v ===== *)
(** * The SD/MMC driver: commands, DMA reset, card clock

    The command path of [SdMmc] in [simple-sdmmc-extended/src/sdmmc.rs]: polling predicates,
    IDMAC reset and roll-back, the polled command routine
    [send_cmd_with_deadline], and the card clock.  One definition per
    function of the source; log output is left out, the register reads in its arguments are
    kept ([log_reads]).  Busy delays ([for _ in 0..n { spin_loop() }]) have no effect and are
    left out.  [fuel] bounds the iterations of each loop. *)

From S2P Require Import Prelude Bitfield Regs CardStatus Command Dma Machine Irq.

(** ** Errors and constants *)

(** [SdMmcError]. *)
Inductive SdMmcError : Type :=
| InitializationFailed
| UnsupportedCard
| CardStatus (s : R1CardStatus)
| AppCommandRejected (s : R1CardStatus)
| InvalidParameter
| OutOfRange
| DmaUnavailable
| DmaAllocation
| DmaAddress
| DriverFaulted
| CommandBusy
| DataBusy
| DescriptorPublication
| CommandStartTimeout
| CommandTimeout
| DataTimeout
| Hardware
| TerminalValidation
| RecoveryFailed
| CardBusyTimeout.

#[export] Instance SdMmcError_eq_dec : EqDecision SdMmcError.
Proof. solve_decision. Defined.

(** [SdMmcResult]. *)
Abbreviation SdMmcResult := (result SdMmcError).

Definition from_secs (n : Z) : Z := n * 1000000000.
Definition from_millis (n : Z) : Z := n * 1000000.
Definition from_micros (n : Z) : Z := n * 1000.

Definition IDENTIFICATION_CLOCK_DIVIDER : Z := 100.
Definition DEFAULT_SPEED_CLOCK_DIVIDER : Z := 1.
Definition MIN_MULTI_BLOCK_READ_BLOCKS : Z := 4.
Definition BLOCK_SIZE : Z := 512.
Definition PRE_SUBMIT_IDLE_SPIN_TIMEOUT : Z := from_micros 100.
Definition START_CMD_SPIN_TIMEOUT : Z := from_millis 1.
Definition IDMAC_COMMAND_TIMEOUT : Z := from_secs 2.
Definition IDMAC_DATA_WATCHDOG_TIMEOUT : Z := from_secs 5.
Definition ASYNC_WRITE_BUSY_TIMEOUT : Z := from_secs 5.

(** ** Updates of the driver object *)

Definition set_faulted (b : bool) (d : SdMmc) : SdMmc :=
  mk_sdmmc (num_blocks d) (rca d) (ocr_ccs d) (ahb_data_width d) (dma_buffer d) b
    (idmac_reset_failed d).
Definition set_reset_failed (b : bool) (d : SdMmc) : SdMmc :=
  mk_sdmmc (num_blocks d) (rca d) (ocr_ccs d) (ahb_data_width d) (dma_buffer d) (idmac_faulted d) b.
Definition set_dma_buffer (o : option DMABuffer) (d : SdMmc) : SdMmc :=
  mk_sdmmc (num_blocks d) (rca d) (ocr_ccs d) (ahb_data_width d) o (idmac_faulted d)
    (idmac_reset_failed d).
Definition set_ahb_data_width (x : AHBDataWidth) (d : SdMmc) : SdMmc :=
  mk_sdmmc (num_blocks d) (rca d) (ocr_ccs d) x (dma_buffer d) (idmac_faulted d)
    (idmac_reset_failed d).
Definition set_num_blocks (n : Z) (d : SdMmc) : SdMmc :=
  mk_sdmmc n (rca d) (ocr_ccs d) (ahb_data_width d) (dma_buffer d) (idmac_faulted d)
    (idmac_reset_failed d).
Definition set_rca (n : Z) (d : SdMmc) : SdMmc :=
  mk_sdmmc (num_blocks d) n (ocr_ccs d) (ahb_data_width d) (dma_buffer d) (idmac_faulted d)
    (idmac_reset_failed d).
Definition set_ocr_ccs (b : bool) (d : SdMmc) : SdMmc :=
  mk_sdmmc (num_blocks d) (rca d) b (ahb_data_width d) (dma_buffer d) (idmac_faulted d)
    (idmac_reset_failed d).

(** [SdMmc::validate_r1_response]. *)
Definition validate_r1_response (word : Z) (require_app_cmd : bool) : SdMmcResult () :=
  let status := from_raw word in
  if has_error status then Err (CardStatus status)
  else if require_app_cmd && negb (app_cmd status) then Err (AppCommandRejected status)
  else Ok ().

(** [u64::to_le_bytes], and [u64::from_le_bytes] on a slice of eight bytes. *)
Definition le_bytes (n : nat) (v : Z) : list Z :=
  map (fun i => (v / 2 ^ (8 * Z.of_nat i)) mod 256) (seq 0 n).
Definition from_le_bytes (bs : list Z) : Z := foldr (fun b acc => b + 256 * acc) 0 bs.

(** [buf[offset..offset + 8].copy_from_slice(bytes)]. *)
Definition write_slice (buf : list Z) (offset : nat) (bytes : list Z) : list Z :=
  take offset buf ++ bytes ++ drop (offset + length bytes) buf.

Section driver.
Context {HW : Type} {P : Platform HW} {BF : BitfieldStruct}.
Context (fuel : nat).
Local Notation M := (machine HW).

(** ** Polling predicates *)

Definition can_send_cmd : M bool :=
  cmd ← read R_cmd; mret (negb (bit Cmd "start_cmd" cmd)).

Definition status_idle (status : Z) : bool :=
  negb (bit Status "data_busy" status) && negb (bit Status "data_state_mc_busy" status).

Definition can_send_data : M bool := status ← read R_status; mret (status_idle status).

Definition command_finished : M bool :=
  rintsts ← read R_rintsts; mret (bit RIntSts "command_done" rintsts || rintsts_error rintsts).

Definition fifo_cnt : M Z := status ← read R_status; mret (bits Status "fifo_count" status).

(** [clear_idsts]: acknowledge the pending IDMAC status bits. *)
Definition clear_idsts : M () :=
  idsts ← read R_idsts;
  if idsts_pending idsts then write R_idsts idsts else mret ().

(** Read a write-1-to-clear register and write the value back. *)
Definition acknowledge (r : reg) : M () := v ← read r; write r v.

(** ** IDMAC interrupt mask *)

(** [SdMmc::idmac_controller_interrupt_mask]. *)
Definition idmac_controller_interrupt_mask : Z :=
  with_bit IntMask "re" true (with_bit IntMask "dto" true (with_bit IntMask "rcrc" true
  (with_bit IntMask "dcrc" true (with_bit IntMask "rto" true (with_bit IntMask "drto" true
  (with_bit IntMask "hto" true (with_bit IntMask "frun" true (with_bit IntMask "hle" true
  (with_bit IntMask "acd" true (with_bit IntMask "ebe" true (bf_new IntMask))))))))))).

(** [SdMmc::idmac_controller_interrupt_mask_matches]. *)
Definition idmac_controller_interrupt_mask_matches (mask : Z) : bool :=
  bit IntMask "ebe" mask && bit IntMask "acd" mask && negb (bit IntMask "sbe" mask)
  && bit IntMask "hle" mask && bit IntMask "frun" mask && bit IntMask "hto" mask
  && bit IntMask "drto" mask && bit IntMask "rto" mask && bit IntMask "dcrc" mask
  && bit IntMask "rcrc" mask && bit IntMask "dto" mask && bit IntMask "re" mask
  && negb (bit IntMask "cmd" mask) && negb (bit IntMask "rxdr" mask)
  && negb (bit IntMask "txdr" mask).

(** ** Stopping the DMA engine *)

(** One poll of the reset handshake: both self-clearing reset bits read as zero. *)
Definition idmac_reset_done : M bool :=
  bmod ← read R_bmod;
  ctrl ← read R_ctrl;
  mret (negb (bit BMod "swr" bmod) && negb (bit Ctrl "dma_reset" ctrl)).

(** [SdMmc::reset_idmac]: request the reset, then poll for its completion for 100 ms. *)
Definition reset_idmac : M bool :=
  update R_bmod (fun r => with_bit BMod "swr" true (with_bit BMod "de" false r));;
  update R_ctrl (fun r => with_bit Ctrl "use_internal_dmac" false (with_bit Ctrl "dma_reset" true r));;
  dma_io_fence;;
  now ← monotonic_time;
  ok ← poll_until fuel idmac_reset_done (now + from_millis 100);
  (if (ok : bool) then mret () else log_reads LWarn [R_idsts]);;
  mret ok.

(** [SdMmc::release_dma_buffer]. *)
Definition release_dma_buffer : M () :=
  o ← get_dev dma_buffer;
  match o with
  | None => mret ()
  | Some buf =>
      set_dev (set_dma_buffer None);;
      width ← get_dev ahb_data_width;
      match layout_from_size_align (dma_size buf) (align_value width) with
      | None => set_dev (set_dma_buffer (Some buf))
      | Some layout => dealloc_coherent (dma_addr buf) layout
      end
  end.

(** [SdMmc::disable_idmac_after_enable_failure]. *)
Definition disable_idmac_after_enable_failure : M () :=
  write R_intmask (bf_new IntMask);;
  write R_idinten (bf_new IdIntEn);;
  update R_ctrl (fun r => with_bit Ctrl "use_internal_dmac" false (with_bit Ctrl "int_enable" false r));;
  dma_io_fence;;
  ok ← reset_idmac;
  if negb ok then
    set_dev (set_faulted true);;
    set_dev (set_reset_failed true)
  else release_dma_buffer.

(** [SdMmc::set_transaction_size]. *)
Definition set_transaction_size (blk_size byte_cnt : Z) : M () :=
  update R_blksiz (fun r => with_bits BlkSiz "block_size" blk_size r);;
  write R_bytcnt byte_cnt.

(** ** The polled command path *)

Definition deadline_passed (o : option Z) : M bool :=
  match o with
  | None => mret false
  | Some d => t ← monotonic_time; mret (d <=? t)
  end.

(** [cmd_max_wait]. *)
Definition cmd_max_wait : Z := 1000000.

(** The two counted waits on [can_send_cmd]. *)
Fixpoint wait_sendable (n : nat) (count : Z) (overall_deadline : option Z) : M () :=
  match n with
  | O => diverge
  | S n =>
      c ← can_send_cmd;
      if (c : bool) then mret ()
      else
        let count := count + 1 in
        if cmd_max_wait <? count then mret ()
        else
          late ← deadline_passed overall_deadline;
          if (late : bool) then mret () else wait_sendable n count overall_deadline
  end.

(** The earlier of the overall deadline and one second from now. *)
Definition phase_deadline (overall_deadline : option Z) : M Z :=
  t ← monotonic_time;
  let command_deadline := t + from_secs 1 in
  mret (match overall_deadline with Some d => Z.min d command_deadline | None => command_deadline end).

(** Draining and filling the FIFO by 64-bit words while the buffer has room. *)
Fixpoint drain_fifo (n : nat) (buf : list Z) (offset : nat) : M (list Z * nat) :=
  match n with
  | O => diverge
  | S n =>
      cnt ← fifo_cnt;
      if (2 <=? cnt) && (offset + 8 <=? length buf)%nat then
        data ← fifo_read;
        drain_fifo n (write_slice buf offset (le_bytes 8 data)) (offset + 8)
      else mret (buf, offset)
  end.

Fixpoint fill_fifo (n : nat) (buf : list Z) (offset : nat) : M nat :=
  match n with
  | O => diverge
  | S n =>
      cnt ← fifo_cnt;
      if (cnt <? 120) && (offset + 8 <=? length buf)%nat then
        fifo_write (from_le_bytes (slice offset 8 buf));;
        fill_fifo n buf (offset + 8)
      else mret offset
  end.

(** The two [wait_until] loops of the data phase. *)
Fixpoint pio_read (n : nat) (buf : list Z) (offset : nat) : M (list Z) :=
  match n with
  | O => diverge
  | S n =>
      rintsts ← read R_rintsts;
      st ← (if bit RIntSts "receive_fifo_data_request" rintsts
            then drain_fifo fuel buf offset else mret (buf, offset));
      let '(buf, offset) := st : list Z * nat in
      if bit RIntSts "data_transfer_over" rintsts || rintsts_error rintsts
      then mret buf else pio_read n buf offset
  end.

Fixpoint pio_write (n : nat) (buf : list Z) (offset : nat) : M () :=
  match n with
  | O => diverge
  | S n =>
      rintsts ← read R_rintsts;
      offset ← (if bit RIntSts "transmit_fifo_data_request" rintsts
                then fill_fifo fuel buf offset else mret offset);
      if bit RIntSts "data_transfer_over" rintsts || rintsts_error rintsts
      then mret () else pio_write n buf offset
  end.

(** The data phase: the buffer as the transfer leaves it. *)
Definition data_phase (xfer : option DataXfer) : M (list Z) :=
  match xfer with
  | None => mret []
  | Some (XferRead buf) => pio_read fuel buf 0
  | Some (XferWrite buf) => pio_write fuel buf 0;; mret buf
  end.

Definition xfer_buffer (xfer : option DataXfer) : list Z :=
  match xfer with None => [] | Some (XferRead buf) | Some (XferWrite buf) => buf end.

Definition is_select_card (c : Command) : bool := match c with SelectCard _ => true | _ => false end.

(** The part of [send_cmd_with_deadline] after the command has been accepted: completion, busy
    and data phases and the verdict.  Returns the buffer as well. *)
Definition finish_cmd (command : Command) (xfer : option DataXfer) (overall_deadline : option Z) :
    M (SdMmcResult resp4 * list Z) :=
  finished ←
    (if is_reset_clock command then mret true
     else
       deadline ← phase_deadline overall_deadline;
       ok ← poll_until fuel command_finished deadline;
       (if (ok : bool) then mret () else log_reads LWarn [R_status; R_rintsts]);;
       mret ok);
  if negb finished then
    acknowledge R_rintsts;;
    mret (Err CommandTimeout, xfer_buffer xfer)
  else
    command_status ← read R_rintsts;
    if rintsts_error command_status then
      read_resp;;
      write R_rintsts command_status;;
      mret (Err Hardware, xfer_buffer xfer)
    else
      not_busy ←
        (if is_select_card command then
           deadline ← phase_deadline overall_deadline;
           poll_until fuel can_send_data deadline
         else mret true);
      buf ← data_phase xfer;
      resp ← read_resp;
      rintsts ← read R_rintsts;
      write R_rintsts rintsts;;
      if negb not_busy then mret (Err CardBusyTimeout, buf)
      else if rintsts_error rintsts then
        mret (Err (if bit RIntSts "data_read_timeout" rintsts then DataTimeout else Hardware), buf)
      else if has_r1_response command then
        match validate_r1_response (resp0 resp) (requires_app_cmd_accepted command) with
        | Ok _ => mret (Ok resp, buf)
        | Err e => mret (Err e, buf)
        end
      else mret (Ok resp, buf).

(** [SdMmc::send_cmd_with_deadline]. *)
Definition send_cmd_with_deadline (command : Command) (overall_deadline : option Z) :
    M (SdMmcResult resp4 * list Z) :=
  let '(cmd, arg, xfer) := build command in
  if negb (Bool.eqb (bit Cmd "data_expected" cmd) (bool_decide (is_Some xfer))) then panic
  else
    wait_sendable fuel 0 overall_deadline;;
    idle ← can_send_cmd;
    if negb idle then
      log_reads LWarn [R_cmd; R_status; R_rintsts];;
      mret (Err CommandBusy, xfer_buffer xfer)
    else
      (if bit Cmd "data_expected" cmd then spin_until fuel can_send_data else mret ());;
      acknowledge R_rintsts;;
      write R_cmdarg arg;;
      write R_cmd cmd;;
      wait_sendable fuel 0 overall_deadline;;
      accepted ← can_send_cmd;
      if negb accepted then
        acknowledge R_rintsts;;
        log_reads LWarn [R_cmd; R_status];;
        mret (Err CommandStartTimeout, xfer_buffer xfer)
      else finish_cmd command xfer overall_deadline.

(** [SdMmc::send_cmd], for commands whose buffer is not looked at afterwards. *)
Definition send_cmd (command : Command) : M (SdMmcResult resp4) :=
  r ← send_cmd_with_deadline command None; mret r.1.

(** ** Card clock *)

(** [SdMmc::program_card_clock_divider]: the divider is changed only while the card clock is
    off, each step being latched by a clock-update command, and read back at the end. *)
Definition program_card_clock_divider (divider : Z) : M bool :=
  write R_clkena (bf_new ClkEna);;
  r ← send_cmd ResetClock;
  if is_err r then mret false
  else
    write R_clkdiv (with_bits ClkDiv "clk_divider0" divider (bf_new ClkDiv));;
    r ← send_cmd ResetClock;
    if is_err r then mret false
    else
      write R_clkena (with_bits ClkEna "cclk_enable" 1 (bf_new ClkEna));;
      r ← send_cmd ResetClock;
      if is_err r then mret false
      else
        clkdiv ← read R_clkdiv;
        clkena ← read R_clkena;
        let actual_divider := bits ClkDiv "clk_divider0" clkdiv in
        let clock_enabled := negb (Z.land (bits ClkEna "cclk_enable" clkena) 1 =? 0) in
        mret ((actual_divider =? divider) && clock_enabled).

(** [!self.can_send_cmd() || !self.can_send_data()], evaluated left to right. *)
Definition transfer_idle : M bool :=
  c ← can_send_cmd; if (c : bool) then can_send_data else mret false.

(** [SdMmc::switch_card_clock_divider], with roll-back to the previous divider. *)
Definition switch_card_clock_divider (divider : Z) : M bool :=
  now ← monotonic_time;
  idle ← poll_until fuel transfer_idle (now + from_secs 1);
  if negb idle then
    log_reads LWarn [R_cmd; R_status];; mret false
  else
    previous ← read R_clkdiv;
    ok ← program_card_clock_divider divider;
    if (ok : bool) then mret true
    else
      program_card_clock_divider (bits ClkDiv "clk_divider0" previous);;
      mret false.

End driver.
