(* ===== verification/Transfer.v ===== *)
(** * DMA transfers

    The IDMAC path of [SdMmc] in [simple-sdmmc-extended/src/sdmmc.rs]: preparing the descriptor
    chain, starting the command, waiting for completion by polling or asynchronously, validating
    the terminal state, and finishing or aborting the transfer; with the guard
    [ActiveIdmacTransfer], whose [Drop] runs when an asynchronous transfer is cancelled.
    [WaitQueue::wait_timeout_until_async] is from [axtask/src/wait_queue.rs]. *)

From S2P Require Import Prelude Bitfield Regs CardStatus Command Dma Machine Irq Driver.

(** [IdmacTransferContext]. *)
Record IdmacTransferContext : Type := mk_context {
  ctx_cmd : Z;
  ctx_arg : Z;
  ctx_expects_r1 : bool;
  ctx_generation : Z;
  ctx_dma_desc_info : DMAInfo;
  ctx_layout : Layout;
  ctx_desc_ptr : Z;
  ctx_descriptor_count : Z;
}.

Definition set_generation (g : Z) (c : IdmacTransferContext) : IdmacTransferContext :=
  mk_context (ctx_cmd c) (ctx_arg c) (ctx_expects_r1 c) g (ctx_dma_desc_info c) (ctx_layout c)
    (ctx_desc_ptr c) (ctx_descriptor_count c).

(** [ActiveIdmacTransfer]: the guard of a submitted transfer, besides its borrow of the driver. *)
Record ActiveIdmacTransfer : Type := mk_active { active_context : option IdmacTransferContext }.

Section transfer.
Context {HW : Type} {P : Platform HW} {BF : BitfieldStruct}.
Context (fuel : nat).
Local Notation M := (machine HW).

(** ** Ending a transfer *)

(** [SdMmc::finish_idmac_transfer]. *)
Definition finish_idmac_transfer (context : IdmacTransferContext) (abort : bool) :
    M (SdMmcResult ()) :=
  (if abort then
     write R_intmask (bf_new IntMask);;
     write R_idinten (bf_new IdIntEn);;
     dma_io_fence
   else mret ());;
  reset_ok ← (if abort then reset_idmac fuel else mret true);
  if negb reset_ok then
    set_dev (set_faulted true);;
    set_dev (set_reset_failed true);;
    rintsts ← read R_rintsts;
    idsts ← read R_idsts;
    write R_rintsts rintsts;;
    write R_idsts idsts;;
    mret (Err RecoveryFailed)
  else
    rintsts ← read R_rintsts;
    idsts ← read R_idsts;
    write R_rintsts rintsts;;
    write R_idsts idsts;;
    dma_io_fence;;
    dealloc_coherent (ctx_dma_desc_info context) (ctx_layout context);;
    (if abort then
       update R_ctrl (fun r => with_bit Ctrl "int_enable" false
                                 (with_bit Ctrl "use_internal_dmac" false r));;
       dma_io_fence
     else mret ());;
    mret (Ok ()).

(** [SdMmc::abort_idmac_transfer]. *)
Definition abort_idmac_transfer (context : IdmacTransferContext) (error : SdMmcError) :
    M SdMmcError :=
  set_dev (set_faulted true);;
  r ← finish_idmac_transfer context true;
  match r with
  | Ok _ => mret error
  | Err recovery_error => mret recovery_error
  end.

(** ** Descriptors in memory *)

(** How many descriptors of the transfer the engine still owns. *)
Fixpoint count_owned (ptr : Z) (n : nat) : M Z :=
  match n with
  | O => mret 0
  | S n =>
      des0 ← desc_read ptr;
      rest ← count_owned (ptr + DESCRIPTOR_SIZE) n;
      mret (Z.b2z (bit IdmacDes0 "own" des0) + rest)
  end.

Definition descriptor_owned_count (context : IdmacTransferContext) : M Z :=
  count_owned (ctx_desc_ptr context) (Z.to_nat (ctx_descriptor_count context)).

Definition descriptor_owned (context : IdmacTransferContext) : M bool :=
  n ← descriptor_owned_count context; mret (negb (n =? 0)).

(** Whether some descriptor reports a card error; stops at the first. *)
Fixpoint any_card_error (ptr : Z) (n : nat) : M bool :=
  match n with
  | O => mret false
  | S n =>
      des0 ← desc_read ptr;
      if bit IdmacDes0 "ces" des0 then mret true else any_card_error (ptr + DESCRIPTOR_SIZE) n
  end.

Definition descriptor_card_error (context : IdmacTransferContext) : M bool :=
  any_card_error (ctx_desc_ptr context) (Z.to_nat (ctx_descriptor_count context)).

(** The descriptor loop: write the chain at [ptr], one descriptor after the other. *)
Fixpoint write_descriptors (ptr : Z) (ds : list IdmacDescriptor) : M () :=
  match ds with
  | [] => mret ()
  | d :: rest => desc_write ptr d;; write_descriptors (ptr + DESCRIPTOR_SIZE) rest
  end.

(** ** Preparing a transfer *)

(** [SdMmc::wait_for_transfer_idle_short]. *)
Fixpoint idle_short_loop (n : nat) (deadline : Z) : M (SdMmcResult ()) :=
  match n with
  | O => diverge
  | S n =>
      command_idle ← can_send_cmd;
      data_idle ← can_send_data;
      if command_idle && data_idle then mret (Ok ())
      else
        t ← monotonic_time;
        if deadline <=? t then
          log_reads LWarn [R_cmd; R_status; R_rintsts; R_idsts];;
          mret (Err (if negb command_idle then CommandBusy else DataBusy))
        else idle_short_loop n deadline
  end.

Definition wait_for_transfer_idle_short : M (SdMmcResult ()) :=
  t ← monotonic_time; idle_short_loop fuel (t + PRE_SUBMIT_IDLE_SPIN_TIMEOUT).

(** Publishing the chain: descriptors, byte count and base address, then reading all back. *)
Definition publish_descriptors (context : IdmacTransferContext) (buf_len dma_bus_addr desc_phy_addr : Z) :
    M (SdMmcResult IdmacTransferContext) :=
  write_descriptors (ctx_desc_ptr context) (descriptor_chain buf_len dma_bus_addr desc_phy_addr);;
  dma_io_fence;;
  write R_bytcnt (as_u32 buf_len);;
  write R_dbaddr desc_phy_addr;;
  dma_io_fence;;
  programmed_dbaddr ← read R_dbaddr;
  programmed_byte_count ← read R_bytcnt;
  owned_descriptors ← descriptor_owned_count context;
  if negb (programmed_dbaddr =? desc_phy_addr)
     || negb (programmed_byte_count =? as_u32 buf_len)
     || negb (owned_descriptors =? ctx_descriptor_count context) then
    e ← abort_idmac_transfer context DescriptorPublication;
    mret (Err e)
  else mret (Ok context).

(** [SdMmc::prepare_idmac_transfer]. *)
Definition prepare_idmac_transfer (command : Command) (dma_bus_addr : Z) :
    M (SdMmcResult IdmacTransferContext) :=
  faulted ← get_dev idmac_faulted;
  if (faulted : bool) then mret (Err DriverFaulted)
  else
    let expects_r1 := has_r1_response command in
    let '(cmd, arg, xfer) := build command in
    if negb (bit Cmd "data_expected" cmd) then mret (Err InvalidParameter)
    else match xfer with
    | None => mret (Err InvalidParameter)
    | Some xfer =>
        _ ←? wait_for_transfer_idle_short;
        acknowledge R_rintsts;;
        stale_idsts ← read R_idsts;
        (if idsts_pending stale_idsts then clear_idsts else mret ());;
        store (set_done_flag false);;
        store (set_error_flag false);;
        let buf_len := xfer_len xfer in
        if (buf_len =? 0) || (DMA_BUFFER_SIZE <? buf_len) then mret (Err InvalidParameter)
        else match checked_add u32_max dma_bus_addr (as_u32 (buf_len - 1)) with
        | None => mret (Err DmaAddress)
        | Some _ =>
            let descriptor_count := descriptor_count_for buf_len in
            match layout_array_descriptor descriptor_count with
            | None => mret (Err DmaAllocation)
            | Some layout =>
                o ← alloc_coherent layout;
                match o with
                | None => mret (Err DmaAllocation)
                | Some dma_desc_info =>
                    match try_u32 (bus_addr dma_desc_info) with
                    | None =>
                        dealloc_coherent dma_desc_info layout;; mret (Err DmaAddress)
                    | Some desc_phy_addr =>
                        let last_descriptor_offset :=
                          as_u32 ((descriptor_count - 1) * DESCRIPTOR_SIZE) in
                        match checked_add u32_max desc_phy_addr last_descriptor_offset with
                        | None =>
                            dealloc_coherent dma_desc_info layout;; mret (Err DmaAddress)
                        | Some _ =>
                            publish_descriptors
                              (mk_context cmd arg expects_r1 0 dma_desc_info layout
                                 (cpu_addr dma_desc_info) descriptor_count)
                              buf_len dma_bus_addr desc_phy_addr
                        end
                    end
                end
            end
        end
    end.

(** ** Starting a transfer *)

(** [while self.regs.cmd().read().start_cmd()]: the wait for the command to be taken. *)
Definition command_taken : M bool := cmd ← read R_cmd; mret (negb (bit Cmd "start_cmd" cmd)).

(** [SdMmc::start_idmac_transfer]. *)
Definition start_idmac_transfer (context0 : IdmacTransferContext) :
    M (SdMmcResult IdmacTransferContext) :=
  g ← begin_transfer;
  let context := set_generation g context0 in
  write R_cmdarg (ctx_arg context);;
  dma_io_fence;;
  write R_cmd (ctx_cmd context);;
  dma_io_fence;;
  now ← monotonic_time;
  taken ← poll_until fuel command_taken (now + START_CMD_SPIN_TIMEOUT);
  if negb taken then
    (if log_enabled LWarn then
       read_all [R_cmd; R_status; R_rintsts; R_idsts; R_bmod; R_ctrl; R_dbaddr];;
       descriptor_owned context;; mret ()
     else mret ());;
    e ← abort_idmac_transfer context CommandStartTimeout;
    mret (Err e)
  else
    before ← read R_idsts;
    (if bit IdSts "du" before then
       clear_idsts;;
       write R_pldmnd 1;;
       dma_io_fence
     else mret ());;
    after ← read R_idsts;
    if bit IdSts "du" after then
      e ← abort_idmac_transfer context Hardware; mret (Err e)
    else if bit IdSts "ais" after || bit IdSts "fbe" after then
      e ← abort_idmac_transfer context Hardware; mret (Err e)
    else
      read R_idsts;;
      descriptor_owned context;;
      read R_dbaddr;;
      store (set_start_logged true);;
      mret (Ok context).

(** ** Completion status *)

(** [SdMmc::idmac_completion_status]: the registers, joined with what the handler recorded. *)
Definition idmac_completion_status (g : Z) : M (Z * Z) :=
  current_rintsts ← read R_rintsts;
  current_idsts ← read R_idsts;
  o ← snapshot_bits g;
  let '(irq_rintsts, irq_idsts) := default (0, 0) o in
  mret (Z.lor current_rintsts irq_rintsts, Z.lor current_idsts irq_idsts).

(** The part of [idmac_status_has_error] that looks at the status words. *)
Definition status_words_error (rintsts idsts : Z) : bool :=
  rintsts_error rintsts || bit IdSts "ais" idsts || bit IdSts "ces" idsts
  || bit IdSts "du" idsts || bit IdSts "fbe" idsts.

(** [SdMmc::idmac_status_has_error]. *)
Definition idmac_status_has_error (rintsts idsts : Z) : M bool :=
  flag ← load IDMAC_ERROR_FLAG; mret ((flag : bool) || status_words_error rintsts idsts).

(** [SdMmc::idmac_command_done_or_error]. *)
Definition idmac_command_done_or_error (context : IdmacTransferContext) : M bool :=
  st ← idmac_completion_status (ctx_generation context);
  let '(rintsts, idsts) := st : Z * Z in
  if bit RIntSts "command_done" rintsts then mret true
  else idmac_status_has_error rintsts idsts.

(** The terminal events of a transfer: command, automatic stop, DMA and data all over. *)
Definition terminal_events (cmd rintsts idsts : Z) : bool :=
  (negb (bit Cmd "response_expect" cmd) || bit RIntSts "command_done" rintsts)
  && (negb (bit Cmd "send_auto_stop" cmd) || bit RIntSts "auto_command_done" rintsts)
  && (if bit Cmd "read_write" cmd then bit IdSts "ti" idsts else bit IdSts "ri" idsts)
  && bit RIntSts "data_transfer_over" rintsts.

(** [SdMmc::idmac_terminal_events_or_error]. *)
Definition idmac_terminal_events_or_error (context : IdmacTransferContext) : M bool :=
  st ← idmac_completion_status (ctx_generation context);
  let '(rintsts, idsts) := st : Z * Z in
  has_error ← idmac_status_has_error rintsts idsts;
  if (has_error : bool) then mret true
  else mret (terminal_events (ctx_cmd context) rintsts idsts).

(** [SdMmc::validate_idmac_terminal]. *)
Definition validate_idmac_terminal (context : IdmacTransferContext) : M bool :=
  st ← idmac_completion_status (ctx_generation context);
  let '(rintsts, idsts) := st : Z * Z in
  has_error ← idmac_status_has_error rintsts idsts;
  dma_io_fence;;
  owned ← descriptor_owned context;
  card_error ← descriptor_card_error context;
  mret (negb has_error && terminal_events (ctx_cmd context) rintsts idsts
        && negb owned && negb card_error).

(** ** Waiting *)

(** The check between and after the two waits. *)
Definition check_status (context : IdmacTransferContext) : M (SdMmcResult ()) :=
  st ← idmac_completion_status (ctx_generation context);
  let '(rintsts, idsts) := st : Z * Z in
  has_error ← idmac_status_has_error rintsts idsts;
  mret (if (has_error : bool) then Err Hardware else Ok ()).

(** [SdMmc::wait_transfer_sync]. *)
Definition wait_transfer_sync (context : IdmacTransferContext) : M (SdMmcResult ()) :=
  responded ←
    (if bit Cmd "response_expect" (ctx_cmd context) then
       now ← monotonic_time;
       poll_until fuel (idmac_command_done_or_error context) (now + IDMAC_COMMAND_TIMEOUT)
     else mret true);
  if negb responded then mret (Err CommandTimeout)
  else
    _ ←? check_status context;
    now ← monotonic_time;
    finished ← poll_until fuel (idmac_terminal_events_or_error context)
                 (now + IDMAC_DATA_WATCHDOG_TIMEOUT);
    if negb finished then mret (Err DataTimeout) else check_status context.

(** [WaitQueue::wait_timeout_until_async]: [true] when the wait timed out. *)
Fixpoint wait_timeout_loop (n : nat) (condition : M bool) (deadline : Z) : M bool :=
  match n with
  | O => diverge
  | S n =>
      c ← condition;
      if (c : bool) then mret false
      else
        t ← wall_time;
        if deadline <=? t then mret true
        else
          c ← condition;
          if (c : bool) then mret false
          else await_point;; wait_timeout_loop n condition deadline
  end.

Definition wait_timeout_until_async (dur : Z) (condition : M bool) : M bool :=
  now ← wall_time; wait_timeout_loop fuel condition (now + dur).

(** [SdMmc::wait_transfer_async]. *)
Definition wait_transfer_async (context : IdmacTransferContext) : M (SdMmcResult ()) :=
  command_timed_out ←
    (if bit Cmd "response_expect" (ctx_cmd context) then
       wait_timeout_until_async IDMAC_COMMAND_TIMEOUT (idmac_command_done_or_error context)
     else mret false);
  if (command_timed_out : bool) then mret (Err CommandTimeout)
  else
    _ ←? check_status context;
    data_timed_out ← wait_timeout_until_async IDMAC_DATA_WATCHDOG_TIMEOUT
                       (idmac_terminal_events_or_error context);
    st ← idmac_completion_status (ctx_generation context);
    let '(rintsts, idsts) := st : Z * Z in
    if (data_timed_out : bool) then mret (Err DataTimeout)
    else
      has_error ← idmac_status_has_error rintsts idsts;
      mret (if (has_error : bool) then Err Hardware else Ok ()).

(** ** The guard *)

(** [ActiveIdmacTransfer::finish] takes the context out of the guard. *)
Definition active_finish (t : ActiveIdmacTransfer) (abort : bool) : M (SdMmcResult ()) :=
  match active_context t with
  | None => panic
  | Some context => finish_idmac_transfer context abort
  end.

(** [ActiveIdmacTransfer::fault]. *)
Definition active_fault : M () := set_dev (set_faulted true).

(** [ActiveIdmacTransfer::drop]. *)
Definition active_drop (t : ActiveIdmacTransfer) : M () :=
  match active_context t with
  | None => mret ()
  | Some context =>
      set_dev (set_faulted true);;
      finish_idmac_transfer context true;; mret ()
  end.

(** [ActiveIdmacTransfer::validated_response]. *)
Definition validated_response (context : IdmacTransferContext) : M (SdMmcResult resp4) :=
  response ← read_resp;
  if ctx_expects_r1 context then
    match validate_r1_response (resp0 response) false with
    | Ok _ => mret (Ok response)
    | Err e => mret (Err e)
    end
  else mret (Ok response).

(** Fault the driver, stop the engine, and return [e] unless stopping fails. *)
Definition fail_transfer (t : ActiveIdmacTransfer) (e : SdMmcError) : M (SdMmcResult resp4) :=
  active_fault;;
  _ ←? active_finish t true;
  mret (Err e).

(** What [send_cmd_idmac] and [send_cmd_idmac_async] do with the outcome of the wait. *)
Definition conclude_transfer (context : IdmacTransferContext) (waited : SdMmcResult ()) :
    M (SdMmcResult resp4) :=
  let t := mk_active (Some context) in
  match waited with
  | Err error =>
      idmac_completion_status (ctx_generation context);;
      fail_transfer t error
  | Ok _ =>
      valid ← validate_idmac_terminal context;
      if negb valid then fail_transfer t TerminalValidation
      else
        r ← validated_response context;
        match r with
        | Err error => fail_transfer t error
        | Ok resp => _ ←? active_finish t false; mret (Ok resp)
        end
  end.

(** [SdMmc::send_cmd_idmac]. *)
Definition send_cmd_idmac (command : Command) (dma_bus_addr : Z) : M (SdMmcResult resp4) :=
  context ←? prepare_idmac_transfer command dma_bus_addr;
  context ←? start_idmac_transfer context;
  waited ← wait_transfer_sync context;
  conclude_transfer context waited.

(** [SdMmc::send_cmd_idmac_async]: the guard is alive while the transfer is awaited. *)
Definition send_cmd_idmac_async (command : Command) (dma_bus_addr : Z) : M (SdMmcResult resp4) :=
  context ←? prepare_idmac_transfer command dma_bus_addr;
  context ←? start_idmac_transfer context;
  waited ← on_cancel (wait_transfer_async context) (active_drop (mk_active (Some context)));
  conclude_transfer context waited.

End transfer.
