(* ===== verification/Init.v ===== *)
(** * Bringing the card and the DMA engine up

    [SdMmc::new], [init], [try_enable_idmac] and the [Drop] implementation of [SdMmc], in
    [simple-sdmmc-extended/src/sdmmc.rs].  The closure [register_irq] of the caller is an
    argument that acts on the platform. *)

From S2P Require Import Prelude Bitfield Regs CardStatus Command Dma Machine Irq Driver.

Section init.
Context {HW : Type} {P : Platform HW} {BF : BitfieldStruct}.
Context (fuel : nat).
Local Notation M := (machine HW).

(** ** Card identification *)

(** The ACMD41 loop: the OCR of the first ready response within two seconds. *)
Fixpoint acmd41_loop (n : nat) (deadline : Z) : M (option Z) :=
  match n with
  | O => diverge
  | S n =>
      t ← monotonic_time;
      if deadline <=? t then mret None
      else
        app ← send_cmd fuel (AppCmd 0);
        ready ←
          (if is_ok app then
             r ← send_cmd fuel (SdSendOpCond 0x40FF8000);
             match r with
             | Ok resp =>
                 let ocr := resp0 resp in
                 mret (if negb (Z.land ocr 0x80000000 =? 0) then Some ocr else None)
             | Err _ => mret None
             end
           else mret None);
        match ready with
        | Some ocr => mret (Some ocr)
        | None => busy_wait (from_millis 10);; acmd41_loop n deadline
        end
  end.

(** From power-up to a card that answered ACMD41 (first part of [init]). *)
Definition init_power_up : M (SdMmcResult ()) :=
  acknowledge R_rintsts;;
  write R_clkena (bf_new ClkEna);;
  _ ←? send_cmd fuel ResetClock;
  write R_clkdiv (with_bits ClkDiv "clk_divider0" IDENTIFICATION_CLOCK_DIVIDER (bf_new ClkDiv));;
  write R_clkena (with_bits ClkEna "cclk_enable" 1 (bf_new ClkEna));;
  _ ←? send_cmd fuel ResetClock;
  write R_pwren 1;;
  write R_ctype 0;;
  update R_bmod (fun r => with_bit BMod "swr" true (with_bit BMod "de" false r));;
  update R_ctrl (fun r => with_bit Ctrl "use_internal_dmac" false (with_bit Ctrl "dma_reset" true r));;
  _ ←? send_cmd fuel GoIdleState;
  r ← send_cmd fuel (SendIfCond 0x1aa);
  match r with
  | Err _ => mret (Err UnsupportedCard)
  | Ok if_cond =>
      if negb (Z.land (resp0 if_cond) 0xfff =? 0x1aa) then mret (Err UnsupportedCard)
      else
        now ← monotonic_time;
        ready_ocr ← acmd41_loop fuel (now + from_secs 2);
        match ready_ocr with
        | None => mret (Err InitializationFailed)
        | Some ocr =>
            let ccs := negb (Z.land ocr 0x40000000 =? 0) in
            set_dev (set_ocr_ccs ccs);;
            mret (if ccs then Ok () else Err UnsupportedCard)
        end
  end.

(** The relative address the card publishes, and the argument it makes. *)
Definition init_address : M (SdMmcResult Z) :=
  _ ←? send_cmd fuel AllSendCid;
  rca_response ←? send_cmd fuel SendRelativeAddr;
  let r6_status := Z.land (resp0 rca_response) 0xffff in
  if negb (Z.land r6_status 0xe000 =? 0) then mret (Err InitializationFailed)
  else
    let card_rca := as_u16 (Z.shiftr (resp0 rca_response) 16) in
    set_dev (set_rca card_rca);;
    if card_rca =? 0 then mret (Err InitializationFailed)
    else mret (Ok (Z.shiftl card_rca 16)).

(** Reading the SCR: its contents are only logged, its failure only warned about. *)
Definition init_read_scr : M () :=
  set_transaction_size 8 8;;
  send_cmd fuel (SendScr (replicate 512 0));;
  mret ().

(** [SdMmc::init]. *)
Definition init : M (SdMmcResult ()) :=
  _ ←? init_power_up;
  rca_arg ←? init_address;
  csd_response ←? send_cmd fuel (SendCsd rca_arg);
  let csd := transmute_u128 csd_response in
  if negb (bits CsdV2 "csd_structure" csd =? 1) then mret (Err UnsupportedCard)
  else
    set_dev (set_num_blocks (csd_num_blocks csd));;
    _ ←? send_cmd fuel (SelectCard rca_arg);
    _ ←? send_cmd fuel (AppCmd rca_arg);
    init_read_scr;;
    acknowledge R_rintsts;;
    ok ← switch_card_clock_divider fuel DEFAULT_SPEED_CLOCK_DIVIDER;
    mret (if (ok : bool) then Ok () else Err InitializationFailed).

(** ** The DMA engine *)

Definition hardware_data_width (hcon : Z) : option AHBDataWidth :=
  match bits HCon "h_data_width" hcon with
  | 0 => Some Bits16
  | 1 => Some Bits32
  | 2 => Some Bits64
  | _ => None
  end.

(** Stale completion and error bits found before interrupts are enabled. *)
Definition clear_stale_status : M () :=
  rintsts ← read R_rintsts;
  idsts ← read R_idsts;
  (if rintsts_error rintsts || bit RIntSts "auto_command_done" rintsts
      || bit RIntSts "data_transfer_over" rintsts
      || bit RIntSts "receive_fifo_data_request" rintsts
      || bit RIntSts "transmit_fifo_data_request" rintsts
   then write R_rintsts rintsts else mret ());;
  (if idsts_pending idsts then clear_idsts else mret ()).

Definition idmac_interrupt_enable : Z :=
  with_bit IdIntEn "ti" true (with_bit IdIntEn "ri" true (with_bit IdIntEn "fbe" true
  (with_bit IdIntEn "du" true (with_bit IdIntEn "ces" true (with_bit IdIntEn "ni" true
  (with_bit IdIntEn "ai" true (bf_new IdIntEn))))))).

(** Switching the engine and its interrupts on, each step read back (the part of
    [try_enable_idmac] after the handler has been registered). *)
Definition switch_idmac_on : M () :=
  clear_stale_status;;
  update R_bmod (fun r => with_bit BMod "fb" true (with_bits BMod "dsl" 0 (with_bit BMod "de" true r)));;
  dma_io_fence;;
  bmod_after ← read R_bmod;
  read R_idsts;;
  if negb (bit BMod "de" bmod_after) || negb (bits BMod "dsl" bmod_after =? 0)
     || negb (bit BMod "fb" bmod_after)
  then disable_idmac_after_enable_failure fuel
  else
    update R_ctrl (fun r => with_bit Ctrl "int_enable" true (with_bit Ctrl "use_internal_dmac" true r));;
    dma_io_fence;;
    ctrl_after ← read R_ctrl;
    idsts_after_ctrl ← read R_idsts;
    if negb (bit Ctrl "use_internal_dmac" ctrl_after) || negb (bit Ctrl "int_enable" ctrl_after)
    then disable_idmac_after_enable_failure fuel
    else if bit IdSts "du" idsts_after_ctrl || bit IdSts "fbe" idsts_after_ctrl
            || bit IdSts "ais" idsts_after_ctrl
    then disable_idmac_after_enable_failure fuel
    else
      write R_idinten idmac_interrupt_enable;;
      write R_intmask idmac_controller_interrupt_mask;;
      read R_idinten;;
      read R_intmask;;
      read R_idsts;;
      mret ().

(** [SdMmc::try_enable_idmac].  Its argument [ahb_data_width] is only compared for a warning. *)
Definition try_enable_idmac (buf_size : Z) (register_irq : HW -> bool * HW) : M () :=
  write R_intmask (bf_new IntMask);;
  write R_idinten (bf_new IdIntEn);;
  update R_ctrl (fun r => with_bit Ctrl "int_enable" false r);;
  dma_io_fence;;
  hcon ← read R_hcon;
  match hardware_data_width hcon with
  | None => mret ()
  | Some width =>
      set_dev (set_ahb_data_width width);;
      ok ← reset_idmac fuel;
      if negb ok then set_dev (set_faulted true)
      else match layout_from_size_align buf_size (align_value width) with
      | None => mret ()
      | Some layout =>
          o ← alloc_coherent layout;
          match o with
          | None => mret ()
          | Some dma_info =>
              set_dev (set_dma_buffer (Some (mk_dma_buffer dma_info buf_size)));;
              registered ← task (access register_irq (fun b => [EvRegisterIrq b]));
              if negb registered then disable_idmac_after_enable_failure fuel
              else switch_idmac_on
          end
      end
  end.

(** ** Construction and destruction *)

(** [Drop for SdMmc]: the buffer is kept when the engine could not be stopped. *)
Definition sdmmc_drop : M () :=
  failed ← get_dev idmac_reset_failed;
  if (failed : bool) then mret () else release_dma_buffer.

(** The driver object [SdMmc::new] starts from. *)
Definition sdmmc_initial : SdMmc := mk_sdmmc 0 0 false Bits32 None false false.

Definition log_register_snapshot : M () :=
  read_all [R_hcon; R_fifoth; R_bmod; R_tmout; R_clksrc; R_uhs; R_ctrl].

(** [SdMmc::new]: the driver object is the one of the state; it is dropped when [init] fails. *)
Definition new (base : Z) (register_irq : HW -> bool * HW) : M (SdMmcResult ()) :=
  set_dev (fun _ => sdmmc_initial);;
  log_register_snapshot;;
  r ← init;
  match r with
  | Err e => sdmmc_drop;; mret (Err e)
  | Ok _ =>
      store (set_regs_base base);;
      try_enable_idmac DMA_BUFFER_SIZE register_irq;;
      mret (Ok ())
  end.

End init.
