(* ===== verification/Handler.v ===== *)
(** * What the interrupt handler does

    [SdMmc::dma_irq_handler] and [IdmacCompletion] of [simple-sdmmc-extended/src/sdmmc.rs]: the
    handler as a function of the two status words it reads, and the interrupt masks. *)

From S2P Require Import Prelude Bitfield Regs CardStatus Command Dma Machine Irq Logic Sim Driver Init.

Section handler_facts.
Context {HW : Type} {P : Platform HW} {BF : BitfieldStruct} {BD : BitfieldDoc BF}.
Local Notation M := (machine HW).

(** ** The acknowledged bits *)

(** The fourteen flags the handler may clear: all but card detection and command completion. *)
Definition irq_clear_mask : Z := 0xfffa.

Lemma copy_flag_testbit r n w i :
  one_bit (field RIntSts n) = true -> 0 <= i ->
  Z.testbit (copy_flag r n w) i =
    if i =? br_lo (field RIntSts n) then Z.testbit r i else Z.testbit w i.
Proof.
  intros Ho Hi. unfold copy_flag. rewrite with_bit_testbit, bit_testbit by done.
  by destruct (Z.eqb_spec i (br_lo (field RIntSts n))) as [->|].
Qed.

Lemma irq_clear_rintsts_mask r : 0 <= r < 2 ^ 32 -> irq_clear_rintsts r = Z.land r irq_clear_mask.
Proof.
  intros Hr. apply Z.bits_inj'. intros i Hi. unfold irq_clear_rintsts, irq_cleared_flags.
  cbn [foldl]. rewrite !copy_flag_testbit by (done || reflexivity). rewrite Z.land_spec.
  bf_positions. cbn [br_lo]. rewrite bf_new_doc. change (layout_default RIntSts) with 0.
  rewrite Z.bits_0. destruct (Z.lt_ge_cases i 16) as [Hlt|Hge].
  - assert (Hcases : i = 0 \/ i = 1 \/ i = 2 \/ i = 3 \/ i = 4 \/ i = 5 \/ i = 6 \/ i = 7 \/
      i = 8 \/ i = 9 \/ i = 10 \/ i = 11 \/ i = 12 \/ i = 13 \/ i = 14 \/ i = 15) by lia.
    generalize (Z.testbit r i). intros b.
    destruct_or! Hcases; subst i; vm_compute; by destruct b.
  - rewrite (testbit_small irq_clear_mask 16 i), andb_false_r by (unfold irq_clear_mask; lia).
    repeat (rewrite (proj2 (Z.eqb_neq i _)) by lia). done.
Qed.

(** ** The whole handler *)

Lemma land_lor_absorb a b : Z.land a (Z.lor b a) = a.
Proof.
  apply Z.bits_inj'. intros i _. rewrite Z.land_spec, Z.lor_spec. by destruct (Z.testbit a i), (Z.testbit b i).
Qed.

(** The log entries of one run that reads [r] and [i], newest first. *)
Definition handler_log (r i : Z) : list event :=
  (if irq_should_notify r i then [EvNotify] else []) ++ [EvFence]
  ++ (if irq_clears_rintsts r i then [EvWrite R_rintsts (Z.land r irq_clear_mask)] else [])
  ++ (if idsts_pending i then [EvWrite R_idsts i] else [])
  ++ [EvRead R_idsts i; EvRead R_rintsts r].

(** the handler, as a function of the status words [r] and [i] it reads.  It returns; it
    acknowledges exactly the bits [r land 0xfffa] of RINTSTS (so never the completion of a
    command, which the polled path waits for) and all of IDSTS, and only if it has something to
    report; once a transfer has begun it records every bit it read, hence every bit it
    acknowledges, under the current generation; it raises the error flag exactly on an error and
    wakes the waiter exactly when a transfer event or an error came up. *)
Theorem handler_records_what_it_acknowledges (w : world HW) :
  SDMMC_REGS_BASE (w_glob w) <> 0 ->
  exists r i w',
    dma_irq_handler w = (Done (), w') /\ w_dev w' = w_dev w /\
    w_log w' = handler_log r i ++ w_log w /\
    IDMAC_COMPLETION (w_glob w') = record_irq r i (IDMAC_COMPLETION (w_glob w)) /\
    (generation (IDMAC_COMPLETION (w_glob w)) <> 0 ->
       snapshot_generation (IDMAC_COMPLETION (w_glob w')) = generation (IDMAC_COMPLETION (w_glob w)) /\
       Z.land r (rintsts_bits (IDMAC_COMPLETION (w_glob w'))) = r /\
       Z.land i (idsts_bits (IDMAC_COMPLETION (w_glob w'))) = i) /\
    IDMAC_ERROR_FLAG (w_glob w') = IDMAC_ERROR_FLAG (w_glob w) || irq_idmac_error r i /\
    wait_queue_notified (w_glob w') =
      wait_queue_notified (w_glob w) + Z.b2z (irq_should_notify r i).
Proof.
  intros Hb. unfold dma_irq_handler, mbind, machine_bind, get_glob, set_glob, raw_read, raw_write,
    raw_fence, access, emit, mret, machine_ret.
  rewrite (proj2 (Z.eqb_neq _ 0)) by done. simpl.
  destruct (hw_read R_rintsts (w_hw w)) as [r0 h1] eqn:Hr.
  destruct (hw_read R_idsts h1) as [i0 h2] eqn:Hi0. simpl. rewrite Hi0. simpl.
  set (r := as_u32 r0) in *. set (i := as_u32 i0) in *.
  assert (Hmask : irq_clear_rintsts r = Z.land r irq_clear_mask)
    by apply irq_clear_rintsts_mask, as_u32_range.
  exists r, i. unfold handler_log.
  destruct (irq_idmac_error r i), (idsts_pending i), (irq_clears_rintsts r i), (irq_should_notify r i);
    simpl; eexists; (split; [reflexivity|]); simpl; rewrite ?Hmask, ?orb_true_r, ?orb_false_r;
    (split_and!; [done|done|done| |done|lia]);
    intros Hg; unfold record_irq; rewrite (proj2 (Z.eqb_neq _ 0)) by done; simpl;
    by rewrite !land_lor_absorb.
Qed.

(** ** Which interrupts are enabled *)

(** The controller interrupts the driver unmasks, as a word. *)
Lemma controller_mask_value : idmac_controller_interrupt_mask = 0xdfca.
Proof. unfold idmac_controller_interrupt_mask. bf_arith. reflexivity. Qed.

(** The flags of a status word, by position. *)
Local Ltac flags_in H :=
  rewrite ?bit_testbit in H by reflexivity;
  repeat match type of H with
    | context [br_lo (field ?l ?n)] =>
        let v := eval vm_compute in (br_lo (field l n)) in change (br_lo (field l n)) with v in H
    end.

Lemma land_testbit_zero r m j : Z.land r m = 0 -> Z.testbit m j = true -> Z.testbit r j = false.
Proof.
  intros H Hm. pose proof (Z.land_spec r m j) as Hs. rewrite H, Z.bits_0, Hm, andb_true_r in Hs. done.
Qed.

Lemma masked_status_silent r i : irq_should_notify r i = false -> Z.land r 0xdfca = 0.
Proof.
  intros H. unfold irq_should_notify, irq_transfer_event, irq_transfer_done, irq_idmac_error,
    rintsts_error in H. flags_in H. bool_hyps.
  apply Z.bits_inj'. intros j Hj. rewrite Z.land_spec, Z.bits_0.
  destruct (Z.lt_ge_cases j 16) as [Hlt|Hge]; [|by rewrite (testbit_small 0xdfca 16 j), andb_false_r by lia].
  assert (Hcases : j = 0 \/ j = 1 \/ j = 2 \/ j = 3 \/ j = 4 \/ j = 5 \/ j = 6 \/ j = 7 \/
    j = 8 \/ j = 9 \/ j = 10 \/ j = 11 \/ j = 12 \/ j = 13 \/ j = 14 \/ j = 15) by lia.
  destruct_or! Hcases; subst j;
    first [apply andb_false_intro2; reflexivity | apply andb_false_intro1; assumption].
Qed.

Lemma error_unmasked r :
  rintsts_error r = true -> bit RIntSts "start_bit_error" r = false -> Z.land r 0xdfca <> 0.
Proof.
  intros He Hs Hz. unfold rintsts_error in He. rewrite Hs in He. flags_in He.
  rewrite !(land_testbit_zero r 0xdfca) in He by (done || reflexivity). done.
Qed.

(** the interrupt set-up agrees with the handler.  The mask [try_enable_idmac] writes passes
    its own read-back test; every status bit it unmasks makes the handler wake the waiter, so no
    interrupt is taken in vain; conversely an error other than the ambiguous start-bit error does
    raise an interrupt, while command completion and the FIFO requests, which only the polled
    path waits for, do not. *)
Theorem interrupt_mask_agrees_with_handler :
  let mask := idmac_controller_interrupt_mask in
  idmac_controller_interrupt_mask_matches mask = true /\
  (forall r i, Z.land r mask <> 0 -> irq_should_notify r i = true) /\
  (forall r, rintsts_error r = true -> bit RIntSts "start_bit_error" r = false -> Z.land r mask <> 0) /\
  (forall n, n ∈ ["command_done"; "receive_fifo_data_request"; "transmit_fifo_data_request"]%string ->
     Z.land (with_bit RIntSts n true 0) mask = 0).
Proof.
  cbv zeta. rewrite controller_mask_value. split_and!.
  - unfold idmac_controller_interrupt_mask_matches. bf_arith. reflexivity.
  - intros r i Hr. destruct (irq_should_notify r i) eqn:H; [done|]. by apply masked_status_silent in H.
  - apply error_unmasked.
  - intros n Hn. rewrite !elem_of_cons, elem_of_nil in Hn.
    destruct Hn as [->|[->|[->|[]]]]; bf_arith; reflexivity.
Qed.

End handler_facts.

Lemma handler_records_what_it_acknowledges_witness :
  exists r i w', dma_irq_handler (sim_start_at 0x1000) = (Done (), w') /\
    w_log w' = handler_log r i.
Proof.
  destruct (handler_records_what_it_acknowledges (sim_start_at 0x1000)) as (r & i & w' & Hrun & _ & Hl & _).
  { discriminate. }
  exists r, i, w'. rewrite Hl, app_nil_r. done.
Defined.

Lemma interrupt_mask_agrees_with_handler_witness :
  irq_should_notify (with_bit RIntSts "data_transfer_over" true 0) 0 = true.
Proof. apply interrupt_mask_agrees_with_handler. vm_compute. discriminate. Defined.
