(* ===== verification/BlockIo.v ===== *)
(** * Block transfers

    [SdMmc::read_blocks], [write_blocks] and their asynchronous forms, with the chunking into
    DMA transfers, in [simple-sdmmc-extended/src/sdmmc.rs].

    A buffer borrowed mutably is passed by value and returned with the result.  The [Command] of
    a DMA chunk borrows the bounce buffer, of which the DMA path only uses the length: it is
    given the caller's chunk, which has the same length.

    The second part is the adapter [SdMmcDriver] of [axdriver_block-m/src/sdmmc.rs]. *)

From S2P Require Import Prelude Bitfield Regs CardStatus Command Dma Machine Irq Driver Transfer Init.

Definition len (buf : list Z) : Z := Z.of_nat (length buf).

(** [SdMmc::validate_block_buffer]. *)
Definition validate_block_buffer (d : SdMmc) (block buf_len : Z) : SdMmcResult Z :=
  if (buf_len =? 0) || negb (buf_len mod BLOCK_SIZE =? 0) then Err InvalidParameter
  else
    let blocks := buf_len / BLOCK_SIZE in
    match checked_add u64_max block blocks with
    | None => Err OutOfRange
    | Some end_ =>
        if (num_blocks d <? end_) || (u32_max + 1 <? end_) then Err OutOfRange else Ok blocks
    end.

(** The size of the next chunk: multi-block reads need at least four blocks. *)
Definition read_chunk_blocks (remaining_blocks : Z) : Z :=
  if MIN_MULTI_BLOCK_READ_BLOCKS <=? remaining_blocks
  then Z.min remaining_blocks MAX_DMA_BLOCKS else 1.

Definition write_chunk_blocks (remaining_blocks : Z) : Z := Z.min remaining_blocks MAX_DMA_BLOCKS.

(** [slice.split_at(n)], which panics if [n] is out of bounds. *)
Definition split_at (n : Z) (buf : list Z) : option (list Z * list Z) :=
  if len buf <? n then None else Some (take (Z.to_nat n) buf, drop (Z.to_nat n) buf).

Section blockio.
Context {HW : Type} {P : Platform HW} {BF : BitfieldStruct}.
Context (fuel : nat).
Local Notation M := (machine HW).

(** ** One DMA chunk *)

Definition check_read_chunk (n : Z) : M () :=
  debug_assert (n <=? DMA_BUFFER_SIZE);;
  debug_assert (n mod BLOCK_SIZE =? 0);;
  debug_assert ((n =? BLOCK_SIZE) || (MIN_MULTI_BLOCK_READ_BLOCKS * BLOCK_SIZE <=? n)).

Definition check_write_chunk (n : Z) : M () :=
  debug_assert (n <=? DMA_BUFFER_SIZE);;
  debug_assert (n mod BLOCK_SIZE =? 0).

Definition read_command (block : Z) (buf : list Z) : Command :=
  if len buf =? BLOCK_SIZE then ReadSingleBlock block buf else ReadMultipleBlocks block buf.

Definition write_command (block : Z) (buf : list Z) : Command :=
  if len buf =? BLOCK_SIZE then WriteSingleBlock block buf else WriteMultipleBlocks block buf.

(** [SdMmc::read_dma_chunk] and [read_dma_chunk_async], which differ in how the transfer is
    awaited ([send]). *)
Definition read_dma_chunk_with (send : Command -> Z -> M (SdMmcResult resp4))
    (block : Z) (buf : list Z) : M (SdMmcResult (list Z)) :=
  check_read_chunk (len buf);;
  set_transaction_size BLOCK_SIZE (as_u32 (len buf));;
  o ← get_dev dma_buffer;
  match o with
  | None => mret (Err DmaUnavailable)
  | Some dma_buf_info =>
      match try_u32 (bus_addr (dma_addr dma_buf_info)) with
      | None => mret (Err DmaAddress)
      | Some dma_bus_addr =>
          _ ←? send (read_command block buf) dma_bus_addr;
          bytes ← mem_read (cpu_addr (dma_addr dma_buf_info)) (length buf);
          mret (Ok bytes)
      end
  end.

Definition read_dma_chunk : Z -> list Z -> M (SdMmcResult (list Z)) :=
  read_dma_chunk_with (send_cmd_idmac fuel).
Definition read_dma_chunk_async : Z -> list Z -> M (SdMmcResult (list Z)) :=
  read_dma_chunk_with (send_cmd_idmac_async fuel).

(** ** Waiting for the card to program a write *)

(** [SdMmc::wait_card_ready_after_write]. *)
Definition wait_card_ready_after_write : M (SdMmcResult ()) :=
  now ← monotonic_time;
  ok ← poll_until fuel can_send_data (now + from_secs 5);
  if negb ok then set_dev (set_faulted true);; mret (Err CardBusyTimeout)
  else mret (Ok ()).

(** [AsyncWriteBusyGuard]: [drop] faults the driver unless the wait was resolved. *)
Definition busy_guard_drop (resolved : bool) : M () :=
  if resolved then mret () else set_dev (set_faulted true).
Definition busy_guard_fault : M () := set_dev (set_faulted true).

(** The readiness test on the card's and on the controller's status. *)
Definition card_ready (card_status : R1CardStatus) (controller_status : Z) : bool :=
  negb (has_error card_status) && ready_for_data card_status
  && bool_decide (current_state card_status = Transfer) && status_idle controller_status.

(** The loop of [wait_card_ready_after_write_async]; [polled] tells whether a card status has
    been received before. *)
Fixpoint busy_loop (n : nat) (deadline rca_arg : Z) (polled : bool) : M (SdMmcResult ()) :=
  match n with
  | O => diverge
  | S n =>
      timed_out ← (if polled then t ← monotonic_time; mret (deadline <=? t) else mret false);
      if (timed_out : bool) then
        monotonic_time;;
        read R_status;;
        busy_guard_fault;;
        mret (Err CardBusyTimeout)
      else
        r ← send_cmd_with_deadline fuel (SendStatus rca_arg) (Some deadline);
        match r.1 with
        | Err error =>
            monotonic_time;;
            read R_status;;
            read_resp;;
            busy_guard_fault;;
            mret (Err error)
        | Ok response =>
            let card_status := from_raw (resp0 response) in
            controller_status ← read R_status;
            monotonic_time;;
            if card_ready card_status controller_status then mret (Ok ())
            else
              t ← monotonic_time;
              (if t <? deadline then await_point else mret ());;
              busy_loop n deadline rca_arg true
        end
  end.

(** [SdMmc::wait_card_ready_after_write_async]. *)
Definition wait_card_ready_after_write_async : M (SdMmcResult ()) :=
  poll_irq;;
  set_glob (fun g => set_busy_sequence (wrapping_add_usize (ASYNC_WRITE_BUSY_SEQUENCE g) 1) g);;
  monotonic_time;;
  now ← monotonic_time;
  card_rca ← get_dev rca;
  on_cancel (busy_loop fuel (now + ASYNC_WRITE_BUSY_TIMEOUT) (Z.shiftl card_rca 16) false)
    (busy_guard_drop false).

(** [SdMmc::write_dma_chunk]. *)
Definition write_dma_chunk (block : Z) (buf : list Z) : M (SdMmcResult ()) :=
  check_write_chunk (len buf);;
  set_transaction_size BLOCK_SIZE (as_u32 (len buf));;
  o ← get_dev dma_buffer;
  match o with
  | None => mret (Err DmaUnavailable)
  | Some dma_buf_info =>
      match try_u32 (bus_addr (dma_addr dma_buf_info)) with
      | None => mret (Err DmaAddress)
      | Some dma_bus_addr =>
          mem_write (cpu_addr (dma_addr dma_buf_info)) buf;;
          _ ←? send_cmd_idmac fuel (write_command block buf) dma_bus_addr;
          wait_card_ready_after_write
      end
  end.

(** [SdMmc::write_dma_chunk_async]: the bounce buffer is filled before its address is checked. *)
Definition write_dma_chunk_async (block : Z) (buf : list Z) : M (SdMmcResult ()) :=
  check_write_chunk (len buf);;
  set_transaction_size BLOCK_SIZE (as_u32 (len buf));;
  o ← get_dev dma_buffer;
  match o with
  | None => mret (Err DmaUnavailable)
  | Some dma_buf_info =>
      mem_write (cpu_addr (dma_addr dma_buf_info)) buf;;
      match try_u32 (bus_addr (dma_addr dma_buf_info)) with
      | None => mret (Err DmaAddress)
      | Some dma_bus_addr =>
          _ ←? send_cmd_idmac_async fuel (write_command block buf) dma_bus_addr;
          wait_card_ready_after_write_async
      end
  end.

(** ** Block ranges *)

(** The read loop: [done] is the part of the caller's buffer already filled. *)
Fixpoint read_loop (chunk_io : Z -> list Z -> M (SdMmcResult (list Z)))
    (n : nat) (block : Z) (done buf : list Z) : M (SdMmcResult () * list Z) :=
  match n with
  | O => diverge
  | S n =>
      if len buf =? 0 then mret (Ok (), done)
      else
        let chunk_blocks := read_chunk_blocks (len buf / BLOCK_SIZE) in
        match split_at (chunk_blocks * BLOCK_SIZE) buf with
        | None => panic
        | Some (chunk, remaining) =>
            r ← chunk_io block chunk;
            match r with
            | Err e => mret (Err e, done ++ buf)
            | Ok bytes =>
                if len remaining =? 0 then read_loop chunk_io n block (done ++ bytes) remaining
                else match checked_add u32_max block (as_u32 chunk_blocks) with
                | None => mret (Err OutOfRange, done ++ bytes ++ remaining)
                | Some block => read_loop chunk_io n block (done ++ bytes) remaining
                end
            end
        end
  end.

Definition read_blocks_with (chunk_io : Z -> list Z -> M (SdMmcResult (list Z)))
    (block : Z) (buf : list Z) : M (SdMmcResult () * list Z) :=
  d ← get_dev id;
  match validate_block_buffer d block (len buf) with
  | Err e => mret (Err e, buf)
  | Ok _ => read_loop chunk_io (S (length buf)) block [] buf
  end.

(** [SdMmc::read_blocks] and [read_blocks_async]: the result, and the buffer as it is left. *)
Definition read_blocks : Z -> list Z -> M (SdMmcResult () * list Z) :=
  read_blocks_with read_dma_chunk.
Definition read_blocks_async : Z -> list Z -> M (SdMmcResult () * list Z) :=
  read_blocks_with read_dma_chunk_async.

(** The write loop. *)
Fixpoint write_loop (chunk_io : Z -> list Z -> M (SdMmcResult ()))
    (n : nat) (block : Z) (buf : list Z) : M (SdMmcResult ()) :=
  match n with
  | O => diverge
  | S n =>
      if len buf =? 0 then mret (Ok ())
      else
        let chunk_blocks := write_chunk_blocks (len buf / BLOCK_SIZE) in
        match split_at (chunk_blocks * BLOCK_SIZE) buf with
        | None => panic
        | Some (chunk, remaining) =>
            _ ←? chunk_io block chunk;
            if len remaining =? 0 then write_loop chunk_io n block remaining
            else match checked_add u32_max block (as_u32 chunk_blocks) with
            | None => mret (Err OutOfRange)
            | Some block => write_loop chunk_io n block remaining
            end
        end
  end.

Definition write_blocks_with (chunk_io : Z -> list Z -> M (SdMmcResult ()))
    (block : Z) (buf : list Z) : M (SdMmcResult ()) :=
  d ← get_dev id;
  _ ←? mret (validate_block_buffer d block (len buf));
  write_loop chunk_io (S (length buf)) block buf.

(** [SdMmc::write_blocks] and [write_blocks_async]. *)
Definition write_blocks : Z -> list Z -> M (SdMmcResult ()) := write_blocks_with write_dma_chunk.
Definition write_blocks_async : Z -> list Z -> M (SdMmcResult ()) :=
  write_blocks_with write_dma_chunk_async.

(** [SdMmc::read_block], [write_block] and their asynchronous forms take a 512-byte array. *)
Definition read_block : Z -> list Z -> M (SdMmcResult () * list Z) := read_blocks.
Definition read_block_async : Z -> list Z -> M (SdMmcResult () * list Z) := read_blocks_async.
Definition write_block : Z -> list Z -> M (SdMmcResult ()) := write_blocks.
Definition write_block_async : Z -> list Z -> M (SdMmcResult ()) := write_blocks_async.

End blockio.

(** ** Chunk arithmetic *)

(** A buffer of whole blocks. *)
Definition whole_blocks (buf : list Z) : Prop := len buf mod BLOCK_SIZE = 0.

Lemma read_chunk_blocks_range n :
  1 <= n -> 1 <= read_chunk_blocks n <= n /\ read_chunk_blocks n <= MAX_DMA_BLOCKS /\
  (read_chunk_blocks n = 1 \/ MIN_MULTI_BLOCK_READ_BLOCKS <= read_chunk_blocks n).
Proof.
  unfold read_chunk_blocks, MIN_MULTI_BLOCK_READ_BLOCKS, MAX_DMA_BLOCKS.
  destruct (Z.leb_spec 4 n); lia.
Qed.

Lemma write_chunk_blocks_range n :
  1 <= n -> 1 <= write_chunk_blocks n <= n /\ write_chunk_blocks n <= MAX_DMA_BLOCKS.
Proof. unfold write_chunk_blocks, MAX_DMA_BLOCKS. lia. Qed.

Lemma whole_blocks_count buf :
  whole_blocks buf -> len buf <> 0 -> 1 <= len buf / BLOCK_SIZE /\
  len buf = len buf / BLOCK_SIZE * BLOCK_SIZE.
Proof.
  unfold whole_blocks, BLOCK_SIZE. intros Hm Hz.
  pose proof (Z.div_mod (len buf) 512 ltac:(lia)). assert (0 <= len buf) by (unfold len; lia). lia.
Qed.

(** Cutting [k] blocks off a buffer. *)
Lemma split_at_blocks buf k :
  whole_blocks buf -> 1 <= k <= len buf / BLOCK_SIZE ->
  exists chunk remaining, split_at (k * BLOCK_SIZE) buf = Some (chunk, remaining) /\
    len chunk = k * BLOCK_SIZE /\ len remaining = len buf - k * BLOCK_SIZE /\
    whole_blocks remaining /\ buf = chunk ++ remaining /\ (length remaining < length buf)%nat.
Proof.
  unfold split_at, whole_blocks, len, BLOCK_SIZE. intros Hm Hk.
  pose proof (Z.div_mod (Z.of_nat (length buf)) 512 ltac:(lia)).
  rewrite (proj2 (Z.ltb_ge _ _)) by lia. eexists _, _. split; [done|].
  rewrite take_drop, !length_take, !length_drop.
  split_and!; try done; try lia.
  replace (Z.of_nat (length buf - Z.to_nat (k * 512))) with (Z.of_nat (length buf) + - k * 512) by lia.
  by rewrite Z.mod_add by lia.
Qed.

(** [validate_block_buffer] accepts exactly the non-empty whole-block ranges inside the card
    that 32-bit block numbers can address. *)
Lemma validate_block_buffer_ok d block n blocks :
  0 <= block -> 0 <= n ->
  validate_block_buffer d block n = Ok blocks <->
  0 < n /\ n mod BLOCK_SIZE = 0 /\ blocks = n / BLOCK_SIZE /\
  block + blocks <= u64_max /\ block + blocks <= num_blocks d /\ block + blocks <= u32_max + 1.
Proof.
  intros Hb Hn. unfold validate_block_buffer.
  destruct (Z.eqb_spec n 0), (Z.eqb_spec (n mod BLOCK_SIZE) 0); simpl;
    [split; [done|lia]..| |split; [done|lia]].
  destruct (checked_add u64_max block (n / BLOCK_SIZE)) as [x|] eqn:Ha.
  - apply checked_add_Some in Ha as [-> Ha].
    destruct (Z.ltb_spec (num_blocks d) (block + n / BLOCK_SIZE)),
      (Z.ltb_spec (u32_max + 1) (block + n / BLOCK_SIZE)); simpl;
      (split; [try done|intros (?&?&->&?&?&?); (done || lia)]).
    intros [= <-]. split_and!; lia.
  - apply checked_add_None in Ha. split; [done|]. intros (?&?&->&?&?&?). lia.
Qed.

(** * The block-device adapter

    [SdMmcDriver] in [axdriver_block-m/src/sdmmc.rs]: the implementation of the block-driver
    interface on top of [SdMmc]. *)

(** The constructors of [axdriver_base::DevError] the adapter uses. *)
Inductive DevError : Type := DevUnsupported | DevInvalidParam | DevNoMemory | DevResourceBusy | DevBadState | DevIo.

#[export] Instance DevError_eq_dec : EqDecision DevError.
Proof. solve_decision. Defined.

(** [SdMmcDriver::map_error]. *)
Definition map_error (error : SdMmcError) : DevError :=
  match error with
  | UnsupportedCard => DevUnsupported
  | InvalidParameter | OutOfRange => DevInvalidParam
  | DmaAllocation => DevNoMemory
  | CommandBusy | DataBusy => DevResourceBusy
  | DmaUnavailable | DmaAddress | DriverFaulted | RecoveryFailed => DevBadState
  | DescriptorPublication | InitializationFailed | CardStatus _ | AppCommandRejected _
  | CommandStartTimeout | CommandTimeout | DataTimeout | Hardware | TerminalValidation
  | CardBusyTimeout => DevIo
  end.

Definition map_err {A} (r : SdMmcResult A) : result DevError A :=
  match r with Ok a => Ok a | Err e => Err (map_error e) end.

(** The checks [read_block] and [write_block] share. *)
Definition accepts (d : SdMmc) (block_id buf_len : Z) : bool :=
  negb ((buf_len =? 0) || negb (buf_len mod BLOCK_SIZE =? 0))
  && match checked_add u64_max block_id (buf_len / BLOCK_SIZE) with
     | None => false
     | Some end_block =>
         negb ((u32_max <? block_id) || (u32_max + 1 <? end_block) || (num_blocks d <? end_block))
     end.

Section adapter.
Context {HW : Type} {P : Platform HW} {BF : BitfieldStruct}.
Context (fuel : nat).
Local Notation M := (machine HW).

(** [SdMmcDriver::new], whose second component is the interrupt number. *)
Definition driver_new (base : Z) (irq_register : HW -> bool * HW) (irq_num : option Z) :
    M (SdMmcResult (option Z)) :=
  _ ←? new fuel base irq_register;
  mret (Ok irq_num).

(** [SdMmcDriver::read_block]. *)
Definition driver_read_block (block_id : Z) (buf : list Z) : M (result DevError () * list Z) :=
  d ← get_dev id;
  if negb (accepts d block_id (len buf)) then mret (Err DevInvalidParam, buf)
  else
    r ← read_blocks fuel (as_u32 block_id) buf;
    mret (map_err r.1, r.2).

(** [SdMmcDriver::write_block]. *)
Definition driver_write_block (block_id : Z) (buf : list Z) : M (result DevError ()) :=
  d ← get_dev id;
  if negb (accepts d block_id (len buf)) then mret (Err DevInvalidParam)
  else
    r ← write_blocks fuel (as_u32 block_id) buf;
    mret (map_err r).

(** [SdMmcDriver::flush]. *)
Definition flush : M (result DevError ()) := mret (Ok ()).

End adapter.
