(* ===== verification/Plan.v ===== *)
(** * How a block range is cut into DMA transfers

    The loops of [read_blocks] and [write_blocks] ([BlockIo]) against a closed form of the chunks
    they issue, and the argument checks of the block-device adapter ([SdMmcDriver]). *)

From S2P Require Import Prelude Bitfield Regs CardStatus Command Dma Machine Irq Logic Sim Driver Transfer Init BlockIo.

(** ** The reference *)

(** The chunk sizes of [r] blocks: as many full chunks of 32 blocks as fit, then the rest in one
    chunk, except that a read needs four blocks for a multi-block command and reads fewer one by
    one. *)
Definition read_sizes (r : Z) : list Z :=
  replicate (Z.to_nat (r / 32)) 32
  ++ (if 4 <=? r mod 32 then [r mod 32] else replicate (Z.to_nat (r mod 32)) 1).

Definition write_sizes (r : Z) : list Z :=
  replicate (Z.to_nat (r / 32)) 32 ++ (if r mod 32 =? 0 then [] else [r mod 32]).

(** Cut a buffer into chunks of the given numbers of blocks, with the block each starts at. *)
Fixpoint cut (block : Z) (sizes : list Z) (buf : list Z) : list (Z * list Z) :=
  match sizes with
  | [] => []
  | k :: sizes =>
      (block, take (Z.to_nat (k * BLOCK_SIZE)) buf)
        :: cut (block + k) sizes (drop (Z.to_nat (k * BLOCK_SIZE)) buf)
  end.

Section runs.
Context {HW : Type}.
Local Notation M := (machine HW).

(** Transfer the chunks one after the other, up to the first error; what has not been read keeps
    its old contents. *)
Fixpoint run_reads (io : Z -> list Z -> M (SdMmcResult (list Z)))
    (plan : list (Z * list Z)) (done : list Z) : M (SdMmcResult () * list Z) :=
  match plan with
  | [] => mret (Ok (), done)
  | (block, chunk) :: rest =>
      r ← io block chunk;
      match r with
      | Err e => mret (Err e, done ++ chunk ++ concat (map snd rest))
      | Ok bytes => run_reads io rest (done ++ bytes)
      end
  end.

Fixpoint run_writes (io : Z -> list Z -> M (SdMmcResult ())) (plan : list (Z * list Z)) :
    M (SdMmcResult ()) :=
  match plan with
  | [] => mret (Ok ())
  | (block, chunk) :: rest => _ ←? io block chunk; run_writes io rest
  end.

End runs.

(** ** The loops follow the reference *)

Lemma read_sizes_0 : read_sizes 0 = [].
Proof. reflexivity. Qed.
Lemma write_sizes_0 : write_sizes 0 = [].
Proof. reflexivity. Qed.

(** One iteration takes the first chunk of the closed form. *)
Lemma sub32_div_mod r : 32 <= r -> (r - 32) / 32 = r / 32 - 1 /\ (r - 32) mod 32 = r mod 32.
Proof.
  intros H. replace (r - 32) with (r + (-1) * 32) by lia. rewrite Z.div_add, Z.mod_add by lia. lia.
Qed.

Lemma replicate_div_32 r :
  32 <= r -> replicate (Z.to_nat (r / 32)) 32 = 32 :: replicate (Z.to_nat ((r - 32) / 32)) 32.
Proof.
  intros H. destruct (sub32_div_mod r H) as [-> _].
  assert (1 <= r / 32) by (apply Z.div_le_lower_bound; lia).
  replace (Z.to_nat (r / 32)) with (S (Z.to_nat (r / 32 - 1))) by lia. done.
Qed.

Lemma read_sizes_step r :
  1 <= r -> read_sizes r = read_chunk_blocks r :: read_sizes (r - read_chunk_blocks r).
Proof.
  intros Hr. unfold read_chunk_blocks, MIN_MULTI_BLOCK_READ_BLOCKS, MAX_DMA_BLOCKS.
  destruct (Z.leb_spec 4 r) as [H4|H4]; cycle 1.
  { assert (Hc : r = 1 \/ r = 2 \/ r = 3) by lia. destruct_or! Hc; subst; reflexivity. }
  destruct (Z.le_gt_cases 32 r) as [H32|H32].
  - rewrite Z.min_r by lia. unfold read_sizes. rewrite replicate_div_32 by done.
    by rewrite (proj2 (sub32_div_mod r H32)).
  - rewrite Z.min_l, Z.sub_diag by lia. unfold read_sizes.
    rewrite Z.div_small, Z.mod_small by lia. by rewrite (proj2 (Z.leb_le 4 r)).
Qed.

Lemma write_sizes_step r :
  1 <= r -> write_sizes r = write_chunk_blocks r :: write_sizes (r - write_chunk_blocks r).
Proof.
  intros Hr. unfold write_chunk_blocks, MAX_DMA_BLOCKS.
  destruct (Z.le_gt_cases 32 r) as [H32|H32].
  - rewrite Z.min_r by lia. unfold write_sizes. rewrite replicate_div_32 by done.
    by rewrite (proj2 (sub32_div_mod r H32)).
  - rewrite Z.min_l, Z.sub_diag by lia. unfold write_sizes.
    rewrite Z.div_small, Z.mod_small by lia. by rewrite (proj2 (Z.eqb_neq r 0)) by lia.
Qed.

(** The sizes add up, and are those the controller can transfer. *)
Definition total (sizes : list Z) : Z := foldr Z.add 0 sizes.

Lemma total_app a b : total (a ++ b) = total a + total b.
Proof. induction a; simpl; lia. Qed.
Lemma total_replicate n k : total (replicate n k) = Z.of_nat n * k.
Proof. induction n; simpl; lia. Qed.

Lemma read_sizes_total r : 0 <= r -> total (read_sizes r) = r.
Proof.
  intros Hr. unfold read_sizes. rewrite total_app, total_replicate.
  pose proof (Z.div_mod r 32 ltac:(lia)). pose proof (Z.mod_pos_bound r 32 ltac:(lia)).
  assert (0 <= r / 32) by (apply Z.div_pos; lia).
  destruct (4 <=? r mod 32); rewrite ?total_replicate; simpl; lia.
Qed.

Lemma write_sizes_total r : 0 <= r -> total (write_sizes r) = r.
Proof.
  intros Hr. unfold write_sizes. rewrite total_app, total_replicate.
  pose proof (Z.div_mod r 32 ltac:(lia)). pose proof (Z.mod_pos_bound r 32 ltac:(lia)).
  assert (0 <= r / 32) by (apply Z.div_pos; lia).
  destruct (Z.eqb_spec (r mod 32) 0); simpl; lia.
Qed.

Lemma concat_cut block sizes buf :
  Forall (fun k => 0 <= k) sizes -> len buf = total sizes * BLOCK_SIZE ->
  concat (map snd (cut block sizes buf)) = buf.
Proof.
  intros Hs. revert block buf. induction Hs as [|k sizes Hk Hs IH]; intros block buf Hl; simpl in *.
  - unfold len in Hl. by destruct buf.
  - rewrite IH, take_drop; [done|]. unfold len in *. rewrite length_drop.
    assert (0 <= total sizes) by (clear -Hs; induction Hs; simpl; lia). unfold BLOCK_SIZE in *. lia.
Qed.

Lemma read_sizes_nonneg r : 0 <= r -> Forall (fun k => 0 <= k) (read_sizes r).
Proof.
  intros Hr. apply Forall_app; split; [by apply Forall_replicate|].
  pose proof (Z.mod_pos_bound r 32 ltac:(lia)). case_match; [by repeat constructor; lia|by apply Forall_replicate].
Qed.

Section follows.
Context {HW : Type}.
Local Notation M := (machine HW).

(** The blocks after a chunk can still be named by a [u32]. *)
Lemma next_block_ok block k r :
  0 <= block -> 1 <= k < r -> block + r <= u32_max + 1 ->
  checked_add u32_max block (as_u32 k) = Some (block + k).
Proof.
  intros Hb Hk Hr. unfold u32_max in *. rewrite as_u32_small by lia.
  unfold checked_add. by rewrite (proj2 (Z.leb_le _ _)) by lia.
Qed.

Lemma len_drop_blocks buf r k :
  len buf = r * BLOCK_SIZE -> 0 <= k <= r ->
  len (drop (Z.to_nat (k * BLOCK_SIZE)) buf) = (r - k) * BLOCK_SIZE.
Proof. unfold len, BLOCK_SIZE. intros Hl Hk. rewrite length_drop. lia. Qed.

Lemma read_loop_plan (io : Z -> list Z -> M (SdMmcResult (list Z))) n block done buf r w :
  0 <= r -> len buf = r * BLOCK_SIZE -> 0 <= block -> block + r <= u32_max + 1 -> (length buf < n)%nat ->
  read_loop io n block done buf w = run_reads io (cut block (read_sizes r) buf) done w.
Proof.
  revert block done buf r w. induction n as [|n IH]; intros block done buf r w Hr Hl Hb Hu Hn; [lia|].
  cbn [read_loop]. destruct (Z.eqb_spec (len buf) 0) as [Hz|Hz].
  { replace r with 0 by (unfold BLOCK_SIZE in *; lia). done. }
  assert (1 <= r) by (unfold BLOCK_SIZE in *; lia).
  replace (len buf / BLOCK_SIZE) with r by (rewrite Hl, Z.div_mul; done).
  destruct (read_chunk_blocks_range r) as (Hk & _); [done|].
  rewrite (read_sizes_step r) by done. set (k := read_chunk_blocks r) in *. cbn [cut run_reads].
  unfold split_at. rewrite (proj2 (Z.ltb_ge (len buf) _)) by (unfold BLOCK_SIZE in *; lia). pose proof (len_drop_blocks buf r k Hl ltac:(lia)) as Hd.
  assert (Hn' : (length (drop (Z.to_nat (k * BLOCK_SIZE)) buf) < n)%nat)
    by (unfold len, BLOCK_SIZE in *; lia).
  unfold mbind, machine_bind. destruct (io _ _ w) as [[[bytes|e]| | |] w']; [| |done..].
  - destruct (Z.eqb_spec (len (drop (Z.to_nat (k * BLOCK_SIZE)) buf)) 0) as [Hz'|Hz'].
    + rewrite (IH _ _ _ (r - k)) by lia || done.
      replace (r - k) with 0 by (unfold BLOCK_SIZE in *; lia). done.
    + rewrite (next_block_ok block k r) by (unfold BLOCK_SIZE in *; lia). apply IH; lia || done.
  - unfold mret, machine_ret. rewrite concat_cut, take_drop; [done| |].
    + apply read_sizes_nonneg. lia.
    + rewrite Hd, read_sizes_total by lia. done.
Qed.

Lemma write_loop_plan (io : Z -> list Z -> M (SdMmcResult ())) n block buf r w :
  0 <= r -> len buf = r * BLOCK_SIZE -> 0 <= block -> block + r <= u32_max + 1 -> (length buf < n)%nat ->
  write_loop io n block buf w = run_writes io (cut block (write_sizes r) buf) w.
Proof.
  revert block buf r w. induction n as [|n IH]; intros block buf r w Hr Hl Hb Hu Hn; [lia|].
  cbn [write_loop]. destruct (Z.eqb_spec (len buf) 0) as [Hz|Hz].
  { replace r with 0 by (unfold BLOCK_SIZE in *; lia). done. }
  assert (1 <= r) by (unfold BLOCK_SIZE in *; lia).
  replace (len buf / BLOCK_SIZE) with r by (rewrite Hl, Z.div_mul; done).
  destruct (write_chunk_blocks_range r) as (Hk & _); [done|].
  rewrite (write_sizes_step r) by done. set (k := write_chunk_blocks r) in *. cbn [cut run_writes].
  unfold split_at. rewrite (proj2 (Z.ltb_ge (len buf) _)) by (unfold BLOCK_SIZE in *; lia). pose proof (len_drop_blocks buf r k Hl ltac:(lia)) as Hd.
  assert (Hn' : (length (drop (Z.to_nat (k * BLOCK_SIZE)) buf) < n)%nat)
    by (unfold len, BLOCK_SIZE in *; lia).
  unfold try_bind, mbind, machine_bind. destruct (io _ _ w) as [[[[]|e]| | |] w']; [|done..].
  destruct (Z.eqb_spec (len (drop (Z.to_nat (k * BLOCK_SIZE)) buf)) 0) as [Hz'|Hz'].
  - rewrite (IH _ _ (r - k)) by lia || done.
    replace (r - k) with 0 by (unfold BLOCK_SIZE in *; lia). done.
  - rewrite (next_block_ok block k r) by (unfold BLOCK_SIZE in *; lia). apply IH; lia || done.
Qed.

(** for every request that passes validation, the read and the write loop issue exactly the
    chunks of the closed form, in order and at the right block numbers, whatever the chunk
    transfers do: they stop at the first error, never run into the overflow check of the block
    counter, and terminate.  The chunks of a read have one block or at least four, those of both
    at most 32, and together they make up the request. *)
Theorem block_loops_follow_plan
    (rd : Z -> list Z -> M (SdMmcResult (list Z))) (wr : Z -> list Z -> M (SdMmcResult ()))
    block buf blocks w :
  0 <= block -> validate_block_buffer (w_dev w) block (len buf) = Ok blocks ->
  read_blocks_with rd block buf w = run_reads rd (cut block (read_sizes blocks) buf) [] w /\
  write_blocks_with wr block buf w = run_writes wr (cut block (write_sizes blocks) buf) w /\
  concat (map snd (cut block (read_sizes blocks) buf)) = buf /\
  concat (map snd (cut block (write_sizes blocks) buf)) = buf /\
  Forall (fun k => k = 1 \/ 4 <= k <= 32) (read_sizes blocks) /\
  Forall (fun k => 1 <= k <= 32) (write_sizes blocks).
Proof.
  intros Hb Hv. pose proof Hv as Hv'.
  apply validate_block_buffer_ok in Hv' as (Hp & Hm & -> & _ & _ & Hu); [|done|unfold len; lia].
  set (r := len buf / BLOCK_SIZE) in *.
  assert (Hl : len buf = r * BLOCK_SIZE)
    by (pose proof (Z.div_mod (len buf) BLOCK_SIZE ltac:(done)); unfold r; lia).
  assert (Hr : 0 <= r) by (apply Z.div_pos; [lia|done]).
  pose proof (Z.mod_pos_bound r 32 ltac:(lia)).
  assert (Hw : Forall (fun k => 1 <= k <= 32) (write_sizes r)).
  { apply Forall_app; split; [apply Forall_replicate; lia|].
    destruct (Z.eqb_spec (r mod 32) 0); repeat constructor; lia. }
  split_and!.
  - unfold read_blocks_with, mbind, machine_bind, get_dev, id. rewrite Hv.
    apply read_loop_plan; lia || done.
  - unfold write_blocks_with, try_bind, mbind, machine_bind, get_dev, mret, machine_ret, id.
    rewrite Hv. apply write_loop_plan; lia || done.
  - apply concat_cut; [by apply read_sizes_nonneg|]. by rewrite read_sizes_total.
  - apply concat_cut; [by eapply Forall_impl; [exact Hw|]; simpl; lia|]. by rewrite write_sizes_total.
  - apply Forall_app; split; [apply Forall_replicate; lia|].
    destruct (Z.leb_spec 4 (r mod 32)); [repeat constructor; lia|apply Forall_replicate; lia].
  - done.
Qed.

End follows.

(** ** The adapter *)

Section adapter.
Context {HW : Type} {P : Platform HW} {BF : BitfieldStruct}.

Lemma accepts_spec d id n :
  0 <= id <= u64_max -> 0 <= n -> num_blocks d <= u64_max ->
  accepts d id n = true <->
  0 < n /\ n mod BLOCK_SIZE = 0 /\ id + n / BLOCK_SIZE <= num_blocks d /\ id + n / BLOCK_SIZE <= 2 ^ 32.
Proof.
  intros Hid Hn Hd. unfold accepts.
  assert (0 < n -> 0 <= n / BLOCK_SIZE) by (intros; apply Z.div_pos; [lia|done]).
  assert (Hq : 0 < n -> n mod BLOCK_SIZE = 0 -> 1 <= n / BLOCK_SIZE).
  { intros ? Hm. pose proof (Z.div_mod n BLOCK_SIZE ltac:(done)). unfold BLOCK_SIZE in *. lia. }
  destruct (Z.eqb_spec n 0), (Z.eqb_spec (n mod BLOCK_SIZE) 0); simpl; try (split; [done|lia]).
  unfold checked_add, u32_max in *. destruct (Z.leb_spec (id + n / BLOCK_SIZE) u64_max); cycle 1.
  { split; [done|]. intros (?&?&?&?). unfold u64_max in *. lia. }
  rewrite negb_true_iff, !orb_false_iff, !Z.ltb_ge. specialize (Hq ltac:(lia) ltac:(done)). lia.
Qed.

(** the adapter accepts a request exactly when it is a non-empty range of whole blocks inside
    the card and within 32-bit block numbers; it then passes the block number on unchanged, and
    the driver's own validation succeeds.  Any other request is refused with [InvalidParam]
    without touching driver, hardware or buffer. *)
Theorem adapter_accepts_exactly_valid_ranges fuel (w : world HW) block_id buf :
  0 <= block_id <= u64_max -> num_blocks (w_dev w) <= u64_max ->
  let n := len buf in
  if bool_decide (0 < n /\ n mod BLOCK_SIZE = 0 /\
       block_id + n / BLOCK_SIZE <= num_blocks (w_dev w) /\ block_id + n / BLOCK_SIZE <= 2 ^ 32)
  then validate_block_buffer (w_dev w) block_id n = Ok (n / BLOCK_SIZE) /\
       driver_read_block fuel block_id buf w = (r ← read_blocks fuel block_id buf; mret (map_err r.1, r.2)) w /\
       driver_write_block fuel block_id buf w = (r ← write_blocks fuel block_id buf; mret (map_err r)) w
  else driver_read_block fuel block_id buf w = (Done (Err DevInvalidParam, buf), w) /\
       driver_write_block fuel block_id buf w = (Done (Err DevInvalidParam), w).
Proof.
  intros Hid Hd n. assert (Hn : 0 <= n) by (unfold n, len; lia).
  pose proof (accepts_spec (w_dev w) block_id n Hid Hn Hd) as Ha.
  unfold driver_read_block, driver_write_block, mbind, machine_bind, get_dev, id. fold n.
  case_bool_decide as Hc; [rewrite (proj2 Ha Hc)|]; cbn [negb].
  - assert (Hq : 1 <= n / BLOCK_SIZE).
    { pose proof (Z.div_mod n BLOCK_SIZE ltac:(done)). unfold BLOCK_SIZE in *. lia. }
    rewrite as_u32_small by lia. split; [|done].
    apply validate_block_buffer_ok; [lia|lia|]. unfold u32_max, u64_max in *. lia.
  - by destruct (accepts (w_dev w) block_id n); [destruct Hc; apply Ha|].
Qed.

End adapter.

Lemma block_loops_follow_plan_witness :
  cut 5 (read_sizes 35) (replicate (Z.to_nat (35 * 512)) 0) =
    [(5, replicate (Z.to_nat (32 * 512)) 0); (37, replicate 512 0); (38, replicate 512 0); (39, replicate 512 0)] /\
  concat (map snd (cut 5 (read_sizes 35) (replicate (Z.to_nat (35 * 512)) 0)))
    = replicate (Z.to_nat (35 * 512)) 0.
Proof.
  split; [vm_compute; reflexivity|].
  refine (proj1 (proj2 (proj2 (block_loops_follow_plan (HW := ()) (fun _ b => mret (Ok b))
    (fun _ _ => mret (Ok ())) 5 (replicate (Z.to_nat (35 * 512)) 0) 35
    (World (mk_sdmmc 2048 1 true Bits32 None false false)
       (mk_globals false false false 0 (mk_completion 0 0 0 0) 0 0) () []) _ _)))).
  - lia.
  - vm_compute. reflexivity.
Defined.

Lemma adapter_accepts_exactly_valid_ranges_witness :
  driver_read_block 100 7 (replicate 100 0) (sim_start false false false)
    = (Done (Err DevInvalidParam, replicate 100 0), sim_start false false false).
Proof.
  refine (proj1 (adapter_accepts_exactly_valid_ranges 100 (sim_start false false false) 7
    (replicate 100 0) _ _)); vm_compute; intuition congruence.
Defined.
