(* ===== verification/Events.v ===== *)
(** * What the polling parts of the driver emit

    The functions of [Driver], [Transfer] and [BlockIo] that only poll, acknowledge status bits
    and issue a command: they leave the driver object alone, do not panic, and add to the log
    only events of a class [E] closed under polling ([PollEvents]).  Stated for any such class, so
    that each monitor instantiates it with the events it ignores. *)

From S2P Require Import Prelude Bitfield Regs CardStatus Command Dma Machine Irq Logic Driver Transfer BlockIo.

(** A class of events that contains the handler's and those of polling. *)
Class PollEvents (E : event -> Prop) : Prop := {
  pe_handler : forall e, handler_event e -> E e;
  pe_read : forall r v, r <> R_bmod -> r <> R_ctrl -> E (EvRead r v);
  pe_cmdarg : forall v, E (EvWrite R_cmdarg v);
  pe_resp : forall v, E (EvResp v);
  pe_fifo_read : forall v, E (EvFifoRead v);
  pe_fifo_write : forall v, E (EvFifoWrite v);
  pe_time : forall t, E (EvTime t);
  pe_wall_time : forall t, E (EvWallTime t);
  pe_busy_wait : forall t, E (EvBusyWait t);
}.

(** The same with suspension points. *)
Class AwaitEvents (E : event -> Prop) : Prop := {
  ae_poll :: PollEvents E;
  ae_await : forall b, E (EvAwait b);
}.

Ltac poll_leaf :=
  match goal with
  | |- forall e, handler_event e -> _ => apply pe_handler
  | |- _ (EvRead _ _) => apply pe_read; discriminate
  | |- _ (EvWrite R_cmdarg _) => apply pe_cmdarg
  | |- _ (EvWrite R_rintsts _) => apply pe_handler; simpl; auto
  | |- _ (EvWrite R_idsts _) => apply pe_handler; simpl; auto
  | |- _ (EvResp _) => apply pe_resp
  | |- _ (EvFifoRead _) => apply pe_fifo_read
  | |- _ (EvFifoWrite _) => apply pe_fifo_write
  | |- _ (EvTime _) => apply pe_time
  | |- _ (EvWallTime _) => apply pe_wall_time
  | |- _ (EvBusyWait _) => apply pe_busy_wait
  | |- _ (EvAwait _) => apply ae_await
  end.

(** As [emits_auto], but for a class in [PollEvents]. *)
Ltac emits_poll_step :=
  match goal with
  | |- emits _ (mret _) => apply emits_ret
  | |- emits _ (_ ≫= _) => apply emits_bind; [|intros]
  | |- emits _ (try_bind _ _) => apply emits_try_bind; [|intros]
  | |- emits _ (read _) => apply emits_read; [poll_leaf|intros; poll_leaf]
  | |- emits _ (write _ _) => apply emits_write; [poll_leaf|try poll_leaf]
  | |- emits _ dma_io_fence => apply emits_fence; poll_leaf
  | |- emits _ read_resp => apply emits_read_resp; [poll_leaf|intros; poll_leaf]
  | |- emits _ fifo_read => apply emits_fifo_read; [poll_leaf|intros; poll_leaf]
  | |- emits _ (fifo_write _) => apply emits_fifo_write; [poll_leaf|poll_leaf]
  | |- emits _ monotonic_time => apply emits_monotonic_time; [poll_leaf|intros; poll_leaf]
  | |- emits _ wall_time => apply emits_wall_time; [poll_leaf|intros; poll_leaf]
  | |- emits _ (busy_wait _) => apply emits_busy_wait; [poll_leaf|poll_leaf]
  | |- emits _ (load _) => apply emits_load; poll_leaf
  | |- emits _ (store _) => apply emits_store; poll_leaf
  | |- emits _ poll_irq => apply emits_poll_irq; poll_leaf
  | |- emits _ (get_dev _) => apply emits_get_dev
  | |- emits _ (get_glob _) => apply emits_get_glob
  | |- emits _ (set_glob _) => apply emits_set_glob
  | |- emits _ await_point => apply emits_await; [poll_leaf|intros; poll_leaf]
  | |- emits _ begin_transfer => apply emits_begin_transfer; poll_leaf
  | |- emits _ (snapshot_bits _) => apply emits_snapshot_bits; poll_leaf
  | |- emits _ (poll_until _ _ _) => apply emits_poll_until; [poll_leaf|intros; poll_leaf|]
  | |- emits _ (spin_until _ _) => apply emits_spin_until
  | |- emits _ diverge => apply emits_diverge
  | |- emits _ cancel => apply emits_cancel
  | |- emits _ (if _ then _ else _) => apply emits_if
  | |- emits _ (let '(_, _) := ?x in _) => destruct x
  | |- emits _ (match ?x with _ => _ end) => destruct x
  end.
Ltac emits_poll := repeat first [solve [eauto with emits] | emits_poll_step].

Section events.
Context {HW : Type} {P : Platform HW} {BF : BitfieldStruct} {BD : BitfieldDoc BF}.
Context (E : event -> Prop) {HE : PollEvents E}.
Context (fuel : nat).
Local Notation M := (machine HW).

Lemma emits_log_poll l rs : R_bmod ∉ rs -> R_ctrl ∉ rs -> emits E (log_reads l rs).
Proof.
  intros Hb Hc. apply emits_if; [|apply emits_ret].
  induction rs as [|r rs IH]; [apply emits_ret|].
  change (read_all (r :: rs)) with (read r;; read_all rs : M ()).
  apply not_elem_of_cons in Hb as [? ?]. apply not_elem_of_cons in Hc as [? ?].
  apply emits_bind; [|auto]. apply emits_read; [apply pe_handler|]. intros v. by apply pe_read.
Qed.
Hint Extern 1 (emits _ (log_reads _ _)) =>
  apply emits_log_poll; apply (bool_decide_unpack _); reflexivity : emits.

(** ** Polling predicates and acknowledgements *)

Lemma emits_can_send_cmd : emits E can_send_cmd.
Proof. unfold can_send_cmd. emits_poll. Qed.
Lemma emits_can_send_data : emits E can_send_data.
Proof. unfold can_send_data. emits_poll. Qed.
Lemma emits_command_finished : emits E command_finished.
Proof. unfold command_finished. emits_poll. Qed.
Lemma emits_fifo_cnt : emits E fifo_cnt.
Proof. unfold fifo_cnt. emits_poll. Qed.
Lemma emits_clear_idsts : emits E clear_idsts.
Proof. unfold clear_idsts. emits_poll. Qed.
Lemma emits_ack_rintsts : emits E (acknowledge R_rintsts).
Proof. unfold acknowledge. emits_poll. Qed.
Lemma emits_deadline_passed o : emits E (deadline_passed o).
Proof. unfold deadline_passed. emits_poll. Qed.
Lemma emits_phase_deadline o : emits E (phase_deadline o).
Proof. unfold phase_deadline. emits_poll. Qed.
Hint Resolve emits_can_send_cmd emits_can_send_data emits_command_finished emits_fifo_cnt
  emits_clear_idsts emits_ack_rintsts emits_deadline_passed emits_phase_deadline : emits.

(** ** The polled command path *)

Lemma emits_wait_sendable n c o : emits E (wait_sendable n c o).
Proof. revert c. induction n as [|n IH]; intros c; simpl; emits_poll. Qed.
Lemma emits_drain_fifo n buf o : emits E (drain_fifo n buf o).
Proof. revert buf o. induction n as [|n IH]; intros; simpl; emits_poll. Qed.
Lemma emits_fill_fifo n buf o : emits E (fill_fifo n buf o).
Proof. revert o. induction n as [|n IH]; intros; simpl; emits_poll. Qed.
Hint Resolve emits_wait_sendable emits_drain_fifo emits_fill_fifo : emits.

Lemma emits_pio_read n buf o : emits E (pio_read fuel n buf o).
Proof. revert buf o. induction n as [|n IH]; intros; simpl; emits_poll. Qed.
Lemma emits_pio_write n buf o : emits E (pio_write fuel n buf o).
Proof. revert o. induction n as [|n IH]; intros; simpl; emits_poll. Qed.
Hint Resolve emits_pio_read emits_pio_write : emits.

Lemma emits_data_phase x : emits E (data_phase fuel x).
Proof. unfold data_phase. emits_poll. Qed.
Hint Resolve emits_data_phase : emits.

Lemma emits_finish_cmd c x o : emits E (finish_cmd fuel c x o).
Proof. unfold finish_cmd. emits_poll. Qed.
Hint Resolve emits_finish_cmd : emits.

Lemma emits_send_cmd_with_deadline c o :
  E (EvWrite R_cmd (built_cmd c)) -> emits E (send_cmd_with_deadline fuel c o).
Proof.
  intros Hc. unfold send_cmd_with_deadline. pose proof (built_data_expected c) as Hd.
  unfold built_cmd, built_xfer in Hc, Hd. destruct (build c) as [[cmd arg] x]; simpl in *.
  rewrite Hd, eqb_reflx. simpl. emits_poll.
Qed.

Lemma emits_send_cmd c : E (EvWrite R_cmd (built_cmd c)) -> emits E (send_cmd fuel c).
Proof. intros. unfold send_cmd. emits_poll. by apply emits_send_cmd_with_deadline. Qed.

(** ** The DMA path *)

Lemma emits_idle_short n dl : emits E (idle_short_loop n dl).
Proof. induction n as [|n IH]; simpl; emits_poll. Qed.
Hint Resolve emits_idle_short : emits.

Lemma emits_wait_for_transfer_idle_short : emits E (wait_for_transfer_idle_short fuel).
Proof. unfold wait_for_transfer_idle_short. emits_poll. Qed.
Lemma emits_idmac_completion_status g : emits E (idmac_completion_status g).
Proof. unfold idmac_completion_status. emits_poll. Qed.
Lemma emits_idmac_status_has_error r i : emits E (idmac_status_has_error r i).
Proof. unfold idmac_status_has_error. emits_poll. Qed.
Lemma emits_command_taken : emits E command_taken.
Proof. unfold command_taken. emits_poll. Qed.
Hint Resolve emits_idmac_completion_status emits_idmac_status_has_error emits_command_taken : emits.

Lemma emits_idmac_command_done_or_error c : emits E (idmac_command_done_or_error c).
Proof. unfold idmac_command_done_or_error. emits_poll. Qed.
Lemma emits_idmac_terminal_events_or_error c : emits E (idmac_terminal_events_or_error c).
Proof. unfold idmac_terminal_events_or_error. emits_poll. Qed.
Lemma emits_check_status c : emits E (check_status c).
Proof. unfold check_status. emits_poll. Qed.
Hint Resolve emits_idmac_command_done_or_error emits_idmac_terminal_events_or_error
  emits_check_status : emits.

Lemma emits_wait_transfer_sync c : emits E (wait_transfer_sync fuel c).
Proof. unfold wait_transfer_sync. emits_poll. Qed.
Lemma emits_validated_response c : emits E (validated_response c).
Proof. unfold validated_response. emits_poll. Qed.
Lemma emits_transfer_idle : emits E transfer_idle.
Proof. unfold transfer_idle. emits_poll. Qed.

(** ** Waiting asynchronously *)

Context {HA : AwaitEvents E}.

Lemma emits_wait_timeout_loop n (m : M bool) dl : emits E m -> emits E (wait_timeout_loop n m dl).
Proof. intros Hm. induction n as [|n IH]; simpl; emits_poll. Qed.
Hint Resolve emits_wait_timeout_loop : emits.

Lemma emits_wait_timeout_until_async t (m : M bool) :
  emits E m -> emits E (wait_timeout_until_async fuel t m).
Proof. intros. unfold wait_timeout_until_async. emits_poll. Qed.
Hint Resolve emits_wait_timeout_until_async : emits.

Lemma emits_wait_transfer_async c : emits E (wait_transfer_async fuel c).
Proof. unfold wait_transfer_async. emits_poll. Qed.

End events.

#[export] Hint Resolve emits_can_send_cmd emits_can_send_data emits_command_finished emits_fifo_cnt
  emits_clear_idsts emits_ack_rintsts emits_deadline_passed emits_phase_deadline
  emits_wait_for_transfer_idle_short emits_idmac_completion_status emits_idmac_status_has_error
  emits_command_taken emits_check_status emits_wait_transfer_sync emits_wait_transfer_async
  emits_validated_response emits_transfer_idle : emits.
#[export] Hint Extern 1 (emits _ (log_reads _ _)) =>
  apply emits_log_poll; [typeclasses eauto|apply (bool_decide_unpack _); reflexivity..] : emits.
#[export] Hint Extern 0 (PollEvents _) => typeclasses eauto : emits.
#[export] Hint Extern 0 (AwaitEvents _) => typeclasses eauto : emits.

(** Every monitor that ignores polling has both classes. *)
Lemma quiet_poll {St} `{Monitor St} (s : St) : PollEvents (ignored s) -> PollEvents (quiet s).
Proof.
  intros []. split; intros; (split; [auto|]); try discriminate.
  by intros ->.
Qed.
