(* ===== verification/DmaSafety.v ===== *)
(** * DMA memory safety

    The engine reads and writes memory on its own once a data command has been issued, until it
    has given every descriptor back or has completed a reset.  A monitor over the log tracks the
    engine and the coherent allocations and checks that the driver

    - submits a data command only while the engine is quiet and the descriptor base register
      holds the address of a live allocation,
    - touches descriptors only inside live allocations, and writes them only while the engine
      is quiet,
    - frees an allocation exactly once, and never one the engine may still access.

    The theorems hold for every behaviour of the controller and every interleaving with the
    interrupt handler. *)

From S2P Require Import Prelude Bitfield Regs CardStatus Command Dma Machine Irq Logic Driver Transfer Init BlockIo Events.

#[export] Instance DMAInfo_eq_dec : EqDecision DMAInfo.
Proof. solve_decision. Defined.
#[export] Instance Layout_eq_dec : EqDecision Layout.
Proof. solve_decision. Defined.

(** ** The monitor *)

(** How far a reset has come: BMOD.SWR written, CTRL.DMA_RESET written as well, BMOD.SWR seen
    clear again. *)
Inductive reset_phase : Type := NoReset | SoftReset | BothReset | SwrClear.

Record dma_state : Type := mk_dma {
  running : bool;                        (* the engine may access memory *)
  phase : reset_phase;
  dma_off : bool;                        (* the internal DMAC was last switched off *)
  base_reg : option Z;                   (* the last value written to DBADDR *)
  released : list Z;                     (* descriptors seen given back since the last command *)
  live : list (DMAInfo * Layout);        (* coherent allocations *)
  submitted : Z;                         (* data commands issued to the engine *)
  safe : bool;                           (* no violation so far *)
}.

(** Every descriptor of the allocation has been given back. *)
Definition all_released (i : DMAInfo) (l : Layout) (s : dma_state) : bool :=
  forallb (fun k => bool_decide (cpu_addr i + k * DESCRIPTOR_SIZE ∈ released s))
    (seqZ 0 (layout_size l / DESCRIPTOR_SIZE)).

(** [addr] is that of a descriptor inside a live allocation. *)
Definition in_live (addr : Z) (s : dma_state) : bool :=
  existsb (fun p => (cpu_addr p.1 <=? addr)
                    && (addr + DESCRIPTOR_SIZE <=? cpu_addr p.1 + layout_size p.2)) (live s).

Definition published (s : dma_state) : bool :=
  match base_reg s with
  | None => false
  | Some a => existsb (fun p => bus_addr p.1 =? a) (live s)
  end.

Fixpoint remove_one (x : DMAInfo * Layout) (l : list (DMAInfo * Layout)) : list (DMAInfo * Layout) :=
  match l with
  | [] => []
  | y :: l => if decide (x = y) then l else y :: remove_one x l
  end.

Lemma remove_one_head x l : remove_one x (x :: l) = l.
Proof. simpl. by rewrite decide_True. Qed.

Section monitor.
Context {BF : BitfieldStruct}.

Definition on_read (r : reg) (v : Z) (s : dma_state) : dma_state :=
  match r, phase s with
  | R_bmod, (BothReset | SwrClear) =>
      mk_dma (running s) (if bit BMod "swr" v then BothReset else SwrClear) (dma_off s) (base_reg s)
        (released s) (live s) (submitted s) (safe s)
  | R_ctrl, SwrClear =>
      if bit Ctrl "dma_reset" v
      then mk_dma (running s) BothReset (dma_off s) (base_reg s) (released s) (live s) (submitted s) (safe s)
      else mk_dma false NoReset (dma_off s) (base_reg s) (released s) (live s) (submitted s) (safe s)
  | _, _ => s
  end.

Definition on_write (r : reg) (v : Z) (s : dma_state) : dma_state :=
  match r with
  | R_bmod =>
      mk_dma (running s) (if bit BMod "swr" v then SoftReset else NoReset) (dma_off s) (base_reg s)
        (released s) (live s) (submitted s) (safe s)
  | R_ctrl =>
      mk_dma (running s)
        (match phase s with
         | NoReset => NoReset
         | _ => if bit Ctrl "dma_reset" v then BothReset else NoReset
         end)
        (negb (bit Ctrl "use_internal_dmac" v)) (base_reg s) (released s) (live s) (submitted s) (safe s)
  | R_dbaddr =>
      mk_dma (running s) (phase s) (dma_off s) (Some v) (released s) (live s) (submitted s) (safe s)
  | R_cmd =>
      if bit Cmd "data_expected" v && negb (dma_off s)
      then mk_dma true NoReset (dma_off s) (base_reg s) [] (live s) (submitted s + 1)
             (safe s && negb (running s) && published s)
      else s
  | _ => s
  end.

Definition dma_step (e : event) (s : dma_state) : dma_state :=
  match e with
  | EvRead r v => on_read r v s
  | EvWrite r v => on_write r v s
  | EvDescRead a v =>
      mk_dma (running s) (phase s) (dma_off s) (base_reg s)
        (if bit IdmacDes0 "own" v then released s else a :: released s)
        (live s) (submitted s) (safe s && in_live a s)
  | EvDescWrite a _ =>
      mk_dma (running s) (phase s) (dma_off s) (base_reg s) (released s) (live s) (submitted s)
        (safe s && in_live a s && negb (running s))
  | EvAlloc l (Some i) =>
      mk_dma (running s) (phase s) (dma_off s) (base_reg s) (released s) ((i, l) :: live s)
        (submitted s) (safe s)
  | EvFree i l =>
      mk_dma (running s && negb (all_released i l s)) (phase s) (dma_off s) (base_reg s) (released s)
        (remove_one (i, l) (live s)) (submitted s)
        (safe s && bool_decide ((i, l) ∈ live s) && (negb (running s) || all_released i l s))
  | _ => s
  end.

(** At the start nothing is known of the engine's set-up: interrupts of the boot firmware aside,
    it holds no memory of the driver. *)
#[export] Instance dma_monitor : Monitor dma_state := {
  mon_init := mk_dma false NoReset false None [] [] 0 true;
  mon_step := dma_step;
}.

#[export] Instance dma_monitor_blind : IrqBlind dma_state.
Proof. intros e s. destruct e as [r ?|r ?| | | | | | | | | |? ?| | | | | | |]; try done; intros [->| ->]; done. Qed.

End monitor.

#[global] Arguments on_read {BF} r v s : simpl never.
#[global] Arguments on_write {BF} r v s : simpl never.

(** The monitor ignores polling. *)
Section polling.
Context {BF : BitfieldStruct}.

#[export] Instance dma_ignored_poll s : PollEvents (ignored s).
Proof.
  split; try done.
  - intros e He. by apply irq_blind.
  - intros r v Hb Hc. unfold ignored, mon_step; simpl. by destruct r.
Qed.
#[export] Instance dma_ignored_await s : AwaitEvents (ignored s).
Proof. by split; [apply _|]. Qed.
#[export] Instance dma_quiet_poll s : PollEvents (quiet s).
Proof. apply quiet_poll, _. Qed.

End polling.

(** ** The transfer protocol *)

(** Part of the monitor's state that only commands, allocation and freeing change. *)
Definition same_memory (s s' : dma_state) : Prop :=
  live s' = live s /\ submitted s' = submitted s /\ safe s' = safe s.

Lemma same_memory_refl s : same_memory s s.
Proof. done. Qed.
Lemma same_memory_trans s1 s2 s3 : same_memory s1 s2 -> same_memory s2 s3 -> same_memory s1 s3.
Proof. unfold same_memory. intros (?&?&?) (?&?&?). split_and!; congruence. Qed.
Lemma same_memory_safe s s' : same_memory s s' -> safe s = true -> safe s' = true.
Proof. unfold same_memory. intros (?&?&?). congruence. Qed.
#[export] Hint Resolve same_memory_refl same_memory_safe : sd.

(** Accesses on which the monitor does not move. *)
Ltac dma_simpl :=
  simpl;
  repeat match goal with
    | |- context [on_write R_intmask ?v ?s] => change (on_write R_intmask v s) with s
    | |- context [on_write R_idinten ?v ?s] => change (on_write R_idinten v s) with s
    | |- context [on_write R_rintsts ?v ?s] => change (on_write R_rintsts v s) with s
    | |- context [on_write R_idsts ?v ?s] => change (on_write R_idsts v s) with s
    | |- context [on_write R_bytcnt ?v ?s] => change (on_write R_bytcnt v s) with s
    | |- context [on_write R_blksiz ?v ?s] => change (on_write R_blksiz v s) with s
    | |- context [on_write R_pldmnd ?v ?s] => change (on_write R_pldmnd v s) with s
    | |- context [on_read R_blksiz ?v ?s] => change (on_read R_blksiz v s) with s
    | |- context [on_read R_dbaddr ?v ?s] => change (on_read R_dbaddr v s) with s
    | |- context [on_read R_bytcnt ?v ?s] => change (on_read R_bytcnt v s) with s
    end.

(** Step over code that the monitor ignores. *)
Ltac still :=
  cbv beta;
  match goal with
  | |- vwp (mret _ ≫= _) _ _ _ _ _ => apply vwp_bind, vwp_ret
  | |- vwp (_ ≫= _) _ _ _ _ _ => apply vwp_bind; still
  | |- vwp (try_bind _ _) _ _ _ _ _ => apply vwp_try_bind; still
  | |- vwp (if _ then _ else _) _ _ _ _ _ => fail 1
  | |- vwp _ _ _ _ _ _ => apply vwp_emits; [solve [emits_poll]| |solve [eauto with sd]]
  end; try match goal with |- () -> _ => intros _ end.

(** One step of symbolic execution. *)
Ltac vstep :=
  cbv beta;
  match goal with
  | |- vwp (mret _) _ _ _ _ _ => apply vwp_ret
  | |- vwp (write _ _ ≫= _) _ _ _ _ _ => apply vwp_bind, vwp_write; dma_simpl
  | |- vwp (write _ _) _ _ _ _ _ => apply vwp_write; dma_simpl
  | |- vwp (set_dev _ ≫= _) _ _ _ _ _ => apply vwp_bind, vwp_set_dev
  | |- vwp (get_dev _ ≫= _) _ _ _ _ _ => apply vwp_bind, vwp_get_dev
  | |- vwp (dealloc_coherent _ _ ≫= _) _ _ _ _ _ => apply vwp_bind, vwp_dealloc
  | |- vwp (update _ _ ≫= _) _ _ _ _ _ => apply vwp_bind, vwp_update; intros ? _; dma_simpl
  | |- vwp ((if _ then _ else _) ≫= _) _ _ _ _ _ => apply vwp_bind
  | |- vwp ((_ ≫= _) ≫= _) _ _ _ _ _ => apply vwp_bind
  | |- _ => still
  end.

(** Reading descriptors only adds to what is known to be given back. *)
Definition seen_more (s s' : dma_state) : Prop :=
  same_memory s s' /\ running s' = running s /\ phase s' = phase s /\ dma_off s' = dma_off s /\
  base_reg s' = base_reg s /\ released s ⊆ released s'.

Lemma seen_more_refl s : seen_more s s.
Proof. repeat split. done. Qed.
Lemma seen_more_trans s1 s2 s3 : seen_more s1 s2 -> seen_more s2 s3 -> seen_more s1 s3.
Proof.
  intros (?&?&?&?&?&?) (?&?&?&?&?&?). split; [by eapply same_memory_trans|].
  split_and!; [congruence..|by etrans].
Qed.
Lemma seen_more_safe s s' : seen_more s s' -> safe s = true -> safe s' = true.
Proof. intros (?&_). by apply same_memory_safe. Qed.
Lemma seen_more_same s s' : seen_more s s' -> same_memory s s'.
Proof. by intros (?&_). Qed.
#[export] Hint Resolve seen_more_safe seen_more_same : sd.

(** The context of a transfer describes its descriptor allocation. *)
Definition desc_of (c : IdmacTransferContext) : DMAInfo * Layout :=
  (ctx_dma_desc_info c, ctx_layout c).

Definition ctx_ok (c : IdmacTransferContext) : Prop :=
  ctx_desc_ptr c = cpu_addr (ctx_dma_desc_info c) /\
  layout_size (ctx_layout c) = ctx_descriptor_count c * DESCRIPTOR_SIZE /\
  0 <= ctx_descriptor_count c.

Section transfer_spec.
Context {HW : Type} {P : Platform HW} {BF : BitfieldStruct} {BD : BitfieldDoc BF}.
Context (fuel : nat).
Local Notation M := (machine HW).
Local Notation pred := (SdMmc -> dma_state -> Prop).
(** When a loop runs out of fuel the run is still free of violations. *)
Context (D : pred) (HD : forall d s, safe s = true -> D d s).

(** Reading any register changes at most the progress of a reset, and may find it complete. *)
Lemma reset_done_spec (Q : bool -> pred) (C : pred) d s :
  (phase s = BothReset \/ phase s = SwrClear) ->
  (forall s', same_memory s s' -> running s' = false -> Q true d s') ->
  (forall s', same_memory s s' -> running s' = running s ->
     (phase s' = BothReset \/ phase s' = SwrClear) -> Q false d s') ->
  vwp idmac_reset_done Q C D d s.
Proof.
  intros Hp Ht Hf. unfold idmac_reset_done. apply vwp_bind, vwp_read. intros bmod _.
  apply vwp_bind, vwp_read. intros ctrl _. apply vwp_ret. simpl.
  assert (Hph : phase (on_read R_bmod bmod s) = if bit BMod "swr" bmod then BothReset else SwrClear)
    by (unfold on_read; destruct Hp as [-> | ->]; done).
  assert (Hs : same_memory s (on_read R_bmod bmod s) /\ running (on_read R_bmod bmod s) = running s)
    by (unfold on_read; destruct Hp as [-> | ->]; done).
  destruct Hs as [Hs Hr]. revert Hph Hs Hr. generalize (on_read R_bmod bmod s). intros s1 Hph Hs Hr.
  unfold on_read. rewrite Hph. destruct (bit BMod "swr" bmod); simpl; [apply Hf; auto|].
  destruct (bit Ctrl "dma_reset" ctrl); simpl.
  - apply Hf; simpl; auto.
  - apply Ht; auto.
Qed.

(** A reset that succeeds has stopped the engine; one that fails has changed no memory. *)
Lemma reset_idmac_spec (Q : bool -> pred) (C : pred) d s :
  safe s = true ->
  (forall s', same_memory s s' -> running s' = false -> Q true d s') ->
  (forall s', same_memory s s' -> running s' = running s -> Q false d s') ->
  vwp (reset_idmac fuel) Q C D d s.
Proof.
  intros Hsafe Ht Hf. unfold reset_idmac.
  apply vwp_bind, vwp_update. intros bmod _. apply vwp_bind, vwp_update. intros ctrl _. simpl.
  match goal with |- vwp _ _ _ _ _ ?x => set (s1 := x) end.
  assert (Hs1 : same_memory s s1 /\ running s1 = running s /\ phase s1 = BothReset).
  { subst s1. unfold on_write. bf_bits. simpl. unfold on_read. simpl.
    by destruct (phase s). }
  destruct Hs1 as (Hm & Hr & Hp). clearbody s1.
  still. still. intros now.
  apply vwp_bind, (vwp_poll_until (fun d' s' => d' = d /\ same_memory s s' /\
    running s' = running s /\ (phase s' = BothReset \/ phase s' = SwrClear))).
  - intros d' s' (-> & ? & _). eauto with sd.
  - clear dependent s1. intros d' s1 (-> & Hm & Hr & Hp). apply reset_done_spec; [done| |].
    + intros s' Hm' Hr'. still. apply vwp_ret. eauto using same_memory_trans.
    + intros s' Hm' Hr' Hp' t. split.
      { split_and!; [done|by eapply same_memory_trans|simpl; congruence|done]. }
      simpl. still. apply vwp_ret. apply Hf; [|congruence]. by eapply same_memory_trans.
  - auto.
Qed.
(** *** Ending a transfer *)

(** The driver object after a transfer whose engine could not be stopped. *)
Definition give_up_dev (d : SdMmc) : SdMmc := set_reset_failed true (set_faulted true d).

(** Memory after the descriptors of a transfer have been freed. *)
Definition ended (rest : list (DMAInfo * Layout)) (s s' : dma_state) : Prop :=
  live s' = rest /\ submitted s' = submitted s /\ safe s' = true /\ running s' = false.

Lemma ended_safe rest s s' : ended rest s s' -> safe s' = true.
Proof. by intros (?&?&?&?). Qed.
Hint Resolve ended_safe : sd.

Lemma switch_off_spec rest f (Q : () -> pred) (C : pred) d s s' :
  ended rest s s' -> (forall s', ended rest s s' -> Q () d s') ->
  vwp (update R_ctrl f) Q C D d s'.
Proof.
  unfold ended. intros (?&?&?&?) HQ. apply vwp_update. intros v _. apply HQ.
  simpl. unfold on_write, on_read. simpl. repeat case_match; simpl; auto.
Qed.

Lemma free_spec c rest (Q : () -> pred) (C : pred) d s s' :
  live s' = desc_of c :: rest -> submitted s' = submitted s -> safe s' = true ->
  running s' = false \/ all_released (ctx_dma_desc_info c) (ctx_layout c) s' = true ->
  (forall s', ended rest s s' -> Q () d s') ->
  vwp (dealloc_coherent (ctx_dma_desc_info c) (ctx_layout c)) Q C D d s'.
Proof.
  intros Hl Hs Hk Hr HQ. apply vwp_dealloc, HQ. unfold ended.
  cbn [mon_step dma_monitor dma_step live submitted safe running].
  rewrite Hl, Hk, remove_one_head, bool_decide_eq_true_2 by by left.
  split_and!; [done|done| |]; destruct Hr as [-> | ->]; simpl; auto using andb_false_r, orb_true_r.
Qed.

Lemma finish_abort_spec c rest (Q : SdMmcResult () -> pred) (C : pred) d s :
  safe s = true -> live s = desc_of c :: rest ->
  (forall s', ended rest s s' -> Q (Ok ()) d s') ->
  (forall s', same_memory s s' -> Q (Err RecoveryFailed) (give_up_dev d) s') ->
  vwp (finish_idmac_transfer fuel c true) Q C D d s.
Proof.
  intros Hk Hl Hok Herr. unfold finish_idmac_transfer. cbv iota.
  vstep. vstep. vstep. still.
  apply vwp_bind, reset_idmac_spec; [done| |]; intros s' Hm Hr; simpl.
  - still. intros r. still. intros i. vstep. vstep. still.
    apply vwp_bind, free_spec with (rest := rest) (s := s).
    1-4: destruct Hm as (?&?&?); (congruence || auto).
    intros s2 Hend. apply vwp_bind, vwp_bind, (switch_off_spec rest _ _ _ _ s); [done|].
    intros s3 Hend'. still. vstep. auto.
  - vstep. vstep. still. intros r. still. intros i. vstep. vstep. vstep. by apply Herr.
Qed.

Lemma finish_success_spec c rest (Q : SdMmcResult () -> pred) (C : pred) d s :
  safe s = true -> live s = desc_of c :: rest ->
  running s = false \/ all_released (ctx_dma_desc_info c) (ctx_layout c) s = true ->
  (forall s', ended rest s s' -> Q (Ok ()) d s') ->
  vwp (finish_idmac_transfer fuel c false) Q C D d s.
Proof.
  intros Hk Hl Hr Hok. unfold finish_idmac_transfer. cbv iota.
  still. still. simpl. still. intros r. still. intros i. vstep. vstep. still.
  apply vwp_bind, free_spec with (rest := rest) (s := s); [done..|].
  intros s2 Hend. still. vstep. auto.
Qed.

Lemma abort_spec c rest error (Q : SdMmcError -> pred) (C : pred) d s :
  safe s = true -> live s = desc_of c :: rest ->
  (forall s', ended rest s s' -> Q error (set_faulted true d) s') ->
  (forall s', same_memory s s' -> Q RecoveryFailed (give_up_dev d) s') ->
  vwp (abort_idmac_transfer fuel c error) Q C D d s.
Proof.
  intros Hk Hl Hok Herr. unfold abort_idmac_transfer. vstep.
  apply vwp_bind, finish_abort_spec with (rest := rest); [done|done| |].
  - intros s' Hs'. vstep. auto.
  - intros s' Hs'. vstep. by apply Herr.
Qed.

(** *** Reading descriptors *)

Lemma desc_read_spec a (Q : Z -> pred) (C : pred) d s :
  in_live a s = true ->
  (forall v s', seen_more s s' -> (bit IdmacDes0 "own" v = false -> a ∈ released s') -> Q v d s') ->
  vwp (desc_read a) Q C D d s.
Proof.
  intros Ha HQ. apply vwp_desc_read. intros v _. apply HQ; simpl.
  - repeat split; simpl; [by rewrite Ha, andb_true_r|]. case_match; [done|set_solver].
  - intros ->. by left.
Qed.

Lemma in_live_same a s s' : same_memory s s' -> in_live a s' = in_live a s.
Proof. intros (Hl&_). unfold in_live. by rewrite Hl. Qed.

(** Every descriptor counted, and all given back when the count is zero. *)
Lemma count_owned_spec ptr n (Q : Z -> pred) (C : pred) d s :
  safe s = true ->
  (forall k, (k < n)%nat -> in_live (ptr + Z.of_nat k * DESCRIPTOR_SIZE) s = true) ->
  (forall v s', seen_more s s' -> 0 <= v ->
     (v = 0 -> forall k, (k < n)%nat -> ptr + Z.of_nat k * DESCRIPTOR_SIZE ∈ released s') -> Q v d s') ->
  vwp (count_owned ptr n) Q C D d s.
Proof.
  revert ptr s Q. induction n as [|n IH]; intros ptr s Q Hk Hin HQ; simpl.
  { apply vwp_ret, HQ; [apply seen_more_refl|done|lia]. }
  apply vwp_bind, desc_read_spec.
  { specialize (Hin 0%nat). rewrite Z.add_0_r in Hin. apply Hin. lia. }
  intros v s1 Hs1 Hown. apply vwp_bind, IH; [by eauto with sd| |].
  { intros k Hlt. rewrite (in_live_same _ s s1) by eauto with sd. specialize (Hin (S k)).
    rewrite Nat2Z.inj_succ in Hin. rewrite <-Hin by lia. f_equal. lia. }
  intros cnt s2 Hs2 Hc Hall. vstep. apply HQ.
  - by eapply seen_more_trans.
  - destruct (bit IdmacDes0 "own" v); simpl; lia.
  - intros Hz k Hlt. destruct (bit IdmacDes0 "own" v); simpl in Hz; [lia|].
    destruct k as [|k].
    + rewrite Z.add_0_r. destruct Hs2 as (?&?&?&?&?&?). set_solver.
    + specialize (Hall ltac:(lia) k ltac:(lia)). rewrite Nat2Z.inj_succ.
      replace (ptr + Z.succ (Z.of_nat k) * DESCRIPTOR_SIZE)
        with (ptr + DESCRIPTOR_SIZE + Z.of_nat k * DESCRIPTOR_SIZE) by lia. done.
Qed.

Lemma any_card_error_spec ptr n (Q : bool -> pred) (C : pred) d s :
  safe s = true ->
  (forall k, (k < n)%nat -> in_live (ptr + Z.of_nat k * DESCRIPTOR_SIZE) s = true) ->
  (forall b s', seen_more s s' -> Q b d s') ->
  vwp (any_card_error ptr n) Q C D d s.
Proof.
  revert ptr s Q. induction n as [|n IH]; intros ptr s Q Hk Hin HQ; simpl.
  { apply vwp_ret, HQ, seen_more_refl. }
  apply vwp_bind, desc_read_spec.
  { specialize (Hin 0%nat). rewrite Z.add_0_r in Hin. apply Hin. lia. }
  intros v s1 Hs1 _. case_match; [by vstep; apply HQ|]. apply IH; [by eauto with sd| |].
  { intros k Hlt. rewrite (in_live_same _ s s1) by eauto with sd. specialize (Hin (S k)).
    rewrite Nat2Z.inj_succ in Hin. rewrite <-Hin by lia. f_equal. lia. }
  intros b s2 Hs2. apply HQ. by eapply seen_more_trans.
Qed.

(** The descriptors of a context lie in its allocation. *)
Lemma ctx_in_live c rest s k :
  ctx_ok c -> live s = desc_of c :: rest -> (k < Z.to_nat (ctx_descriptor_count c))%nat ->
  in_live (ctx_desc_ptr c + Z.of_nat k * DESCRIPTOR_SIZE) s = true.
Proof.
  intros (Hp & Hsz & Hc) Hl Hk. unfold in_live. rewrite Hl. simpl.
  apply orb_true_iff. left. rewrite Hp, Hsz. unfold DESCRIPTOR_SIZE.
  apply andb_true_iff. rewrite !Z.leb_le. lia.
Qed.

Lemma ctx_all_released c s :
  ctx_ok c ->
  (forall k, (k < Z.to_nat (ctx_descriptor_count c))%nat ->
     ctx_desc_ptr c + Z.of_nat k * DESCRIPTOR_SIZE ∈ released s) ->
  all_released (ctx_dma_desc_info c) (ctx_layout c) s = true.
Proof.
  intros (Hp & Hsz & Hc) Hall. unfold all_released. rewrite Hsz, Z.div_mul by done.
  apply forallb_forall. intros k Hk. apply bool_decide_eq_true_2.
  apply list_elem_of_In, elem_of_seqZ in Hk.
  specialize (Hall (Z.to_nat k) ltac:(lia)). by rewrite Z2Nat.id, Hp in Hall by lia.
Qed.

Lemma owned_count_spec c rest (Q : Z -> pred) (C : pred) d s :
  safe s = true -> ctx_ok c -> live s = desc_of c :: rest ->
  (forall v s', seen_more s s' ->
     (v = 0 -> all_released (ctx_dma_desc_info c) (ctx_layout c) s' = true) -> Q v d s') ->
  vwp (descriptor_owned_count c) Q C D d s.
Proof.
  intros Hk Hc Hl HQ. apply count_owned_spec; [done| |].
  - intros k Hlt. by eapply ctx_in_live.
  - intros v s' Hs' _ Hall. apply HQ; [done|]. intros ->. by apply ctx_all_released, Hall.
Qed.

Lemma descriptor_owned_spec c rest (Q : bool -> pred) (C : pred) d s :
  safe s = true -> ctx_ok c -> live s = desc_of c :: rest ->
  (forall b s', seen_more s s' ->
     (b = false -> all_released (ctx_dma_desc_info c) (ctx_layout c) s' = true) -> Q b d s') ->
  vwp (descriptor_owned c) Q C D d s.
Proof.
  intros Hk Hc Hl HQ. unfold descriptor_owned. eapply vwp_bind, owned_count_spec; [done..|].
  intros v s' Hs' Hall. vstep. apply HQ; [done|]. intros Hz. apply Hall. by bool_hyps.
Qed.

(** *** Preparing a transfer *)

(** Writing descriptors into live memory of a quiet engine leaves the monitor where it is. *)
Lemma write_descriptors_spec ptr ds (Q : () -> pred) (C : pred) d s :
  safe s = true -> running s = false ->
  (forall k, (k < length ds)%nat -> in_live (ptr + Z.of_nat k * DESCRIPTOR_SIZE) s = true) ->
  Q () d s -> vwp (write_descriptors ptr ds) Q C D d s.
Proof.
  intros Hk Hr. revert ptr. induction ds as [|x ds IH]; intros ptr Hin HQ; simpl.
  { by apply vwp_ret. }
  apply vwp_bind, vwp_task_access. intros h. simpl.
  pose proof (Hin 0%nat ltac:(simpl; lia)) as H0. rewrite Z.add_0_r in H0.
  rewrite H0, Hr, Hk. simpl. destruct s; simpl in *; subst. apply IH; [|done].
  intros k Hlt. specialize (Hin (S k) ltac:(simpl; lia)). etrans; [|exact Hin]. f_equal. lia.
Qed.

(** How a transfer can fail: refused before anything was submitted; stopped, its descriptors
    freed and the driver faulted; or given up, its descriptors kept because the engine could not
    be stopped. *)
Definition failed (d : SdMmc) (s : dma_state) (e : SdMmcError) (d' : SdMmc) (s' : dma_state) : Prop :=
  (d' = d /\ same_memory s s' /\ running s' = running s) \/
  (d' = set_faulted true d /\ live s' = live s /\ safe s' = true /\ running s' = false) \/
  (d' = give_up_dev d /\ e = RecoveryFailed /\ (exists x, live s' = x :: live s) /\ safe s' = true).

(** A transfer that is ready to be started. *)
Definition prepared (s : dma_state) (c : IdmacTransferContext) (s' : dma_state) : Prop :=
  ctx_ok c /\ bit Cmd "data_expected" (ctx_cmd c) = true /\ live s' = desc_of c :: live s /\
  submitted s' = submitted s /\ safe s' = true /\ running s' = false /\
  base_reg s' = Some (bus_addr (ctx_dma_desc_info c)).

Lemma publish_spec c len bus (Q : SdMmcResult IdmacTransferContext -> pred) (C : pred) d s0 s :
  ctx_ok c -> bit Cmd "data_expected" (ctx_cmd c) = true ->
  ctx_descriptor_count c = descriptor_count_for len ->
  live s = desc_of c :: live s0 -> submitted s = submitted s0 -> safe s = true -> running s = false ->
  (forall e d' s', failed d s0 e d' s' -> Q (Err e) d' s') ->
  (forall s', prepared s0 c s' -> Q (Ok c) d s') ->
  vwp (publish_descriptors fuel c len bus (bus_addr (ctx_dma_desc_info c))) Q C D d s.
Proof.
  intros Hc Hcmd Hn Hl Hsub Hk Hr Herr Hok. unfold publish_descriptors.
  apply vwp_bind, write_descriptors_spec; [done|done| |].
  { rewrite descriptor_chain_length, <-Hn. intros k Hlt. by eapply ctx_in_live. }
  still. vstep. apply vwp_bind, vwp_write. simpl. unfold on_write.
  match goal with |- vwp _ _ _ _ _ ?x => set (s1 := x) end.
  assert (Hs1 : live s1 = live s /\ submitted s1 = submitted s /\ safe s1 = true /\
    running s1 = false /\ base_reg s1 = Some (bus_addr (ctx_dma_desc_info c))) by done.
  clearbody s1. destruct Hs1 as (Hl1 & Hsub1 & Hk1 & Hr1 & Hb1).
  still. still. intros a. still. intros n.
  apply vwp_bind, owned_count_spec with (rest := live s0); [done|done|congruence|].
  intros own s2 ((Hl2 & Hsub2 & Hk2) & Hr2 & _ & _ & Hb2 & _) _. case_match.
  - apply vwp_bind, abort_spec with (rest := live s0); [congruence|congruence| |].
    + intros s3 (?&?&?&?). vstep. apply Herr. right. left. split_and!; congruence.
    + intros s3 (?&?&?). vstep. apply Herr. right. right. split_and!; [done|done| |congruence].
      exists (desc_of c). congruence.
  - vstep. apply Hok. split_and!; [done|done|congruence..].
Qed.

Lemma prepare_spec command bus (Q : SdMmcResult IdmacTransferContext -> pred) (C : pred) d s :
  safe s = true -> (idmac_faulted d = false -> running s = false) ->
  (forall e d' s', failed d s e d' s' -> Q (Err e) d' s') ->
  (forall c s', idmac_faulted d = false -> prepared s c s' -> Q (Ok c) d s') ->
  vwp (prepare_idmac_transfer fuel command bus) Q C D d s.
Proof.
  intros Hk Hr Herr Hok. unfold prepare_idmac_transfer.
  assert (Hrefuse : forall e, Q (Err e) d s) by (intros e; apply Herr; left; auto with sd).
  vstep. destruct (idmac_faulted d) eqn:Hf; [by vstep|]. specialize (Hr eq_refl).
  specialize (fun c s' => Hok c s' eq_refl).
  destruct (build command) as [[cmd arg] xfer]. destruct (bit Cmd _ cmd) eqn:Hde; simpl; [|by vstep].
  destruct xfer as [xfer|]; [|by vstep].
  apply vwp_try_bind, vwp_emits; [by emits_poll| |by eauto with sd]. intros [[]|e]; [|done].
  still. still. intros st. apply vwp_bind, vwp_emits; [by emits_poll| |by eauto with sd]. intros _.
  still. still. case_match eqn:Hlen; [by vstep|]. case_match; [|by vstep].
  case_match eqn:Hlay; [|by vstep]. apply vwp_bind, vwp_alloc. intros [i|]; [|by vstep].
  assert (Hfree : forall e, Q (Err e) d
    (dma_step (EvFree i l) (mk_dma (running s) (phase s) (dma_off s) (base_reg s) (released s)
                              ((i, l) :: live s) (submitted s) (safe s)))).
  { intros e. apply Herr. left. split_and!; [done| |].
    - repeat split; cbn [dma_step live safe running]; [apply remove_one_head|].
      rewrite bool_decide_eq_true_2 by by left. by rewrite Hr, !andb_true_r.
    - cbn [dma_step running]. by rewrite Hr. }
  unfold try_u32. destruct (bus_addr i <=? u32_max); [|by apply vwp_bind, vwp_dealloc; vstep].
  case_match; [|by apply vwp_bind, vwp_dealloc; vstep].
  unfold layout_array_descriptor, layout_from_size_align in Hlay. case_match; simplify_eq/=.
  pose proof (descriptor_count_range (xfer_len xfer)). bool_hyps.
  apply (publish_spec (mk_context cmd arg (has_r1_response command) 0 i
    (mk_layout (descriptor_count_for (xfer_len xfer) * DESCRIPTOR_SIZE) 4) (cpu_addr i)
    (descriptor_count_for (xfer_len xfer))) _ _ _ _ _ s); try done.
  - split_and!; simpl; [done|done|]. assert (0 <= xfer_len xfer) by (destruct xfer; simpl; lia). lia.
  - intros s'. apply Hok.
Qed.

(** *** Starting a transfer *)

Lemma read_all_spec rs (Q : () -> pred) (C : pred) d s :
  (forall s', same_memory s s' -> Q () d s') -> vwp (read_all rs) Q C D d s.
Proof.
  revert s. induction rs as [|r rs IH]; intros s HQ; [apply vwp_ret; auto with sd|].
  change (read_all (r :: rs)) with (read r;; read_all rs : M ()).
  apply vwp_bind, vwp_read. intros v _. apply IH. intros s' Hs'. apply HQ.
  eapply same_memory_trans; [|done]. simpl. unfold on_read. repeat case_match; done.
Qed.

(** A transfer under way. *)
Definition started (s : dma_state) (c : IdmacTransferContext) (s' : dma_state) : Prop :=
  ctx_ok c /\ live s' = desc_of c :: live s /\ safe s' = true.

Lemma started_safe s c s' : started s c s' -> safe s' = true.
Proof. by intros (?&?&?). Qed.
Lemma started_same s c s1 s2 : started s c s1 -> same_memory s1 s2 -> started s c s2.
Proof. intros (?&?&?) (?&?&?). split_and!; [done|congruence..]. Qed.
Hint Resolve started_safe : sd.

Lemma start_abort_spec c e (Q : SdMmcResult IdmacTransferContext -> pred) (C : pred) d s0 s :
  started s0 c s ->
  (forall e d' s', failed d s0 e d' s' -> idmac_faulted d' = true -> Q (Err e) d' s') ->
  vwp (e ← abort_idmac_transfer fuel c e; mret (Err e)) Q C D d s.
Proof.
  intros (Hc & Hl & Hk) Herr. apply vwp_bind, abort_spec with (rest := live s0); [done|done| |].
  - intros s' (?&?&?&?). vstep. apply Herr; [|done]. right. left. done.
  - intros s' (?&?&?). vstep. apply Herr; [|done]. right. right. split_and!; [done|done| |congruence].
    exists (desc_of c). congruence.
Qed.

(** Issuing the command of a prepared transfer is allowed. *)
Lemma start_command_safe c s0 s :
  prepared s0 c s -> started s0 c (on_write R_cmd (ctx_cmd c) s).
Proof.
  intros (Hc & Hde & Hl & Hsub & Hk & Hr & Hb). unfold on_write. rewrite Hde. simpl.
  case_match; [|done]. split_and!; [done|done|]. simpl. rewrite Hk, Hr. simpl.
  unfold published. rewrite Hb, Hl. simpl. by rewrite Z.eqb_refl.
Qed.

Lemma start_spec c0 (Q : SdMmcResult IdmacTransferContext -> pred) (C : pred) d s0 s :
  prepared s0 c0 s ->
  (forall e d' s', failed d s0 e d' s' -> idmac_faulted d' = true -> Q (Err e) d' s') ->
  (forall c s', ctx_cmd c = ctx_cmd c0 -> started s0 c s' -> Q (Ok c) d s') ->
  vwp (start_idmac_transfer fuel c0) Q C D d s.
Proof.
  intros Hp Herr Hok. unfold start_idmac_transfer.
  assert (Hk : safe s = true) by (by destruct Hp as (?&?&?&?&?&?)).
  still. intros g. still. still. apply vwp_bind, vwp_write.
  assert (Hs1 : started s0 (set_generation g c0) (on_write R_cmd (ctx_cmd c0) s))
    by apply (start_command_safe c0), Hp.
  revert Hs1. simpl. generalize (on_write R_cmd (ctx_cmd c0) s). clear s Hp Hk.
  intros s Hs. set (c := set_generation g c0) in *.
  still. still. intros now. still. intros []; simpl.
  2: { apply vwp_bind. case_match; cycle 1.
       { vstep. by eapply start_abort_spec. }
       apply vwp_bind, read_all_spec. intros s1 Hs1. eapply started_same in Hs1; [|done].
       eapply vwp_bind, descriptor_owned_spec; [by apply Hs1..|]. intros b s2 Hs2 _. vstep.
       eapply start_abort_spec; [|done]. by eapply started_same, seen_more_same. }
  still. intros before.
  apply vwp_bind, vwp_emits; [by emits_poll| |by eauto with sd]. intros _. still. intros after.
  case_match; [by eapply start_abort_spec|]. case_match; [by eapply start_abort_spec|].
  still. intros _. eapply vwp_bind, descriptor_owned_spec; [by apply Hs..|]. intros b s2 Hs2 _.
  eapply started_same in Hs; [|by apply seen_more_same]. still. intros _. still. vstep. by apply Hok.
Qed.

(** *** Waiting for and concluding a transfer *)

Lemma validate_spec c rest (Q : bool -> pred) (C : pred) d s :
  safe s = true -> ctx_ok c -> live s = desc_of c :: rest ->
  (forall b s', seen_more s s' ->
     (b = true -> all_released (ctx_dma_desc_info c) (ctx_layout c) s' = true) -> Q b d s') ->
  vwp (validate_idmac_terminal c) Q C D d s.
Proof.
  intros Hk Hc Hl HQ. unfold validate_idmac_terminal. still. intros [r i]. still. intros err. still.
  eapply vwp_bind, descriptor_owned_spec; [done..|]. intros own s1 Hs1 Hall.
  assert (Hl1 : live s1 = desc_of c :: rest) by (destruct Hs1 as ((?&?&?)&_); congruence).
  apply vwp_bind, any_card_error_spec; [by eauto with sd| |].
  { intros k Hlt. by eapply ctx_in_live. }
  intros ces s2 Hs2. vstep. apply HQ; [by eapply seen_more_trans|]. intros Hv. bool_hyps.
  specialize (Hall ltac:(done)). unfold all_released in *. destruct Hs2 as (_&_&_&_&_&Hsub).
  rewrite forallb_forall in *. intros k Hin. specialize (Hall k Hin).
  apply bool_decide_eq_true in Hall. apply bool_decide_eq_true. set_solver.
Qed.

(** How a transfer can end. *)
Definition transfer_post (d : SdMmc) (s : dma_state) (r : SdMmcResult resp4)
    (d' : SdMmc) (s' : dma_state) : Prop :=
  match r with
  | Ok _ => d' = d /\ live s' = live s /\ safe s' = true /\ running s' = false
  | Err e => failed d s e d' s'
  end.

Lemma fail_transfer_spec c e (Q : SdMmcResult resp4 -> pred) (C : pred) d s0 s :
  started s0 c s ->
  (forall r d' s', transfer_post d s0 r d' s' -> Q r d' s') ->
  vwp (fail_transfer fuel (mk_active (Some c)) e) Q C D d s.
Proof.
  intros (Hc & Hl & Hk) HQ. unfold fail_transfer, active_fault. vstep.
  apply vwp_try_bind. simpl. apply finish_abort_spec with (rest := live s0); [done|done| |].
  - intros s' (?&?&?&?). vstep. apply HQ. right. left. done.
  - intros s' (?&?&?). apply HQ. right. right. split_and!; [done|done| |congruence].
    exists (desc_of c). congruence.
Qed.

Lemma conclude_spec c waited (Q : SdMmcResult resp4 -> pred) (C : pred) d s0 s :
  started s0 c s ->
  (forall r d' s', transfer_post d s0 r d' s' -> Q r d' s') ->
  vwp (conclude_transfer fuel c waited) Q C D d s.
Proof.
  intros Hs HQ. unfold conclude_transfer. destruct waited as [[]|e]; cycle 1.
  { still. intros _. by eapply fail_transfer_spec. }
  eapply vwp_bind, validate_spec; [by apply Hs..|]. intros b s1 Hs1 Hall.
  eapply started_same in Hs; [|by apply seen_more_same].
  destruct b; simpl; [|by eapply fail_transfer_spec]. specialize (Hall eq_refl).
  still. intros [resp|e]; [|by eapply fail_transfer_spec].
  destruct Hs as (Hc & Hl & Hk).
  apply vwp_try_bind, finish_success_spec with (rest := live s0); [done|done|auto|].
  intros s2 (?&?&?&?). vstep. by apply HQ.
Qed.

(** A faulted driver refuses a transfer before touching the hardware. *)
Lemma faulted_refuses command bus (Q : SdMmcResult resp4 -> pred) (C : pred) d s :
  idmac_faulted d = true -> Q (Err DriverFaulted) d s ->
  vwp (send_cmd_idmac fuel command bus) Q C D d s.
Proof.
  intros Hf HQ. apply vwp_try_bind. unfold prepare_idmac_transfer. vstep. rewrite Hf. by vstep.
Qed.

Lemma faulted_refuses_async command bus (Q : SdMmcResult resp4 -> pred) (C : pred) d s :
  idmac_faulted d = true -> Q (Err DriverFaulted) d s ->
  vwp (send_cmd_idmac_async fuel command bus) Q C D d s.
Proof.
  intros Hf HQ. apply vwp_try_bind. unfold prepare_idmac_transfer. vstep. rewrite Hf. by vstep.
Qed.

(** The synchronous transfer. *)
Lemma send_cmd_idmac_spec command bus (Q : SdMmcResult resp4 -> pred) (C : pred) d s :
  safe s = true -> (idmac_faulted d = false -> running s = false) ->
  (forall r d' s', transfer_post d s r d' s' -> Q r d' s') ->
  vwp (send_cmd_idmac fuel command bus) Q C D d s.
Proof.
  intros Hk Hr HQ. apply vwp_try_bind, prepare_spec; [done|done| |].
  { intros e d' s' Hf. by apply HQ. }
  intros c s1 _ Hp. eapply vwp_try_bind, start_spec; [done| |].
  { intros e d' s' Hf _. by apply HQ. }
  intros c' s2 _ Hs. still. intros r. by eapply conclude_spec.
Qed.

(** What a dropped transfer leaves behind. *)
Definition dropped (d : SdMmc) (s : dma_state) (d' : SdMmc) (s' : dma_state) : Prop :=
  (d' = set_faulted true d /\ live s' = live s /\ safe s' = true /\ running s' = false) \/
  (d' = give_up_dev d /\ (exists x, live s' = x :: live s) /\ safe s' = true).

Lemma active_drop_spec c (C : pred) d s0 s :
  started s0 c s -> (forall d' s', dropped d s0 d' s' -> C d' s') ->
  vwp (active_drop fuel (mk_active (Some c))) (fun _ => C) C D d s.
Proof.
  intros (Hc & Hl & Hk) HC. unfold active_drop. simpl. vstep.
  apply vwp_bind, finish_abort_spec with (rest := live s0); [done|done| |].
  - intros s' (?&?&?&?). vstep. apply HC. left. done.
  - intros s' (?&?&?). vstep. apply HC. right. split_and!; [done| |congruence].
    exists (desc_of c). congruence.
Qed.

(** The asynchronous transfer, which can also be dropped. *)
Lemma send_cmd_idmac_async_spec command bus (Q : SdMmcResult resp4 -> pred) (C : pred) d s :
  safe s = true -> (idmac_faulted d = false -> running s = false) ->
  (forall r d' s', transfer_post d s r d' s' -> Q r d' s') ->
  (forall d' s', dropped d s d' s' -> C d' s') ->
  vwp (send_cmd_idmac_async fuel command bus) Q C D d s.
Proof.
  intros Hk Hr HQ HC. apply vwp_try_bind, prepare_spec; [done|done| |].
  { intros e d' s' Hf. by apply HQ. }
  intros c s1 _ Hp. eapply vwp_try_bind, start_spec; [done| |].
  { intros e d' s' Hf _. by apply HQ. }
  intros c' s2 _ Hs. apply vwp_bind, vwp_on_cancel, vwp_emits_async.
  - apply emits_wait_transfer_async; apply _.
  - intros r. by eapply conclude_spec.
  - by eapply active_drop_spec.
  - by eauto with sd.
Qed.

End transfer_spec.
