(* ===== verification/Safety.v ===== *)
(** * Safety of the driver's interface

    The specifications of [DmaSafety] lifted to the operations a client calls: [SdMmc::new],
    block reads and writes, synchronous or asynchronous, and [Drop].  [driver_inv] is the invariant
    that relates the driver object to the engine and the coherent allocations. *)

From S2P Require Import Prelude Bitfield Regs CardStatus Command Dma Machine Irq Logic Driver Transfer Init BlockIo Events DmaSafety.

(** ** The invariant *)

(** The allocation the driver object owns. *)
Definition buffer_allocs (d : SdMmc) : list (DMAInfo * Layout) :=
  match dma_buffer d with
  | None => []
  | Some b =>
      match layout_from_size_align (dma_size b) (align_value (ahb_data_width d)) with
      | None => []
      | Some l => [(dma_addr b, l)]
      end
  end.

(** Its buffer has the layout it was allocated with. *)
Definition buffer_ok (d : SdMmc) : Prop :=
  forall b, dma_buffer d = Some b ->
    is_Some (layout_from_size_align (dma_size b) (align_value (ahb_data_width d))).

(** No violation; unless the engine could not be stopped it is quiet and exactly the driver's
    buffer is allocated; otherwise the driver is faulted and its buffer is kept. *)
Definition driver_inv (d : SdMmc) (s : dma_state) : Prop :=
  safe s = true /\ buffer_ok d /\
  if idmac_reset_failed d then idmac_faulted d = true /\ (exists xs, live s = xs ++ buffer_allocs d)
  else running s = false /\ live s = buffer_allocs d.

Lemma driver_inv_safe d s : driver_inv d s -> safe s = true.
Proof. by intros (?&_). Qed.
#[export] Hint Resolve driver_inv_safe : sd.

Lemma driver_inv_running d s : driver_inv d s -> idmac_faulted d = false -> running s = false.
Proof. intros (_&_&H) Hf. destruct (idmac_reset_failed d); destruct H; [congruence|done]. Qed.

(** A finished transfer and a dropped one keep the invariant. *)
Lemma failed_inv d s e d' s' : driver_inv d s -> failed d s e d' s' -> driver_inv d' s'.
Proof.
  intros (Hk & Hb & Hi) [(-> & (Hl & Hsub & Hk') & Hr)|[(-> & Hl & Hk' & Hr)|(-> & _ & [x Hl] & Hk')]].
  - split_and!; [congruence|done|]. by rewrite Hr, Hl.
  - split_and!; [done|done|]. simpl. rewrite Hl. destruct (idmac_reset_failed d), Hi; auto.
  - split_and!; [done|done|]. simpl. split; [done|]. rewrite Hl.
    destruct (idmac_reset_failed d); [|destruct Hi as [_ ->]; by exists [x]].
    destruct Hi as (_ & xs & ->). by exists (x :: xs).
Qed.

Lemma transfer_post_inv d s r d' s' : driver_inv d s -> transfer_post d s r d' s' -> driver_inv d' s'.
Proof.
  destruct r as [resp|e]; simpl; [|by apply failed_inv].
  intros (Hk & Hb & Hi) (-> & Hl & Hk' & Hr). split_and!; [done|done|].
  rewrite Hl. destruct (idmac_reset_failed d), Hi; auto.
Qed.

Lemma dropped_inv d s d' s' : driver_inv d s -> dropped d s d' s' -> driver_inv d' s'.
Proof.
  intros Hi [H|(?&?&?)]; apply (failed_inv d s RecoveryFailed); auto; right; [by left|by right].
Qed.

Lemma set_faulted_inv d s : driver_inv d s -> driver_inv (set_faulted true d) s.
Proof.
  intros (Hk & Hb & Hi). split_and!; [done|done|]. simpl. destruct (idmac_reset_failed d), Hi; auto.
Qed.

(** ** Block transfers *)

Section block_spec.
Context {HW : Type} {P : Platform HW} {BF : BitfieldStruct} {BD : BitfieldDoc BF}.
Context (fuel : nat).
Local Notation M := (machine HW).
Local Notation pred := (SdMmc -> dma_state -> Prop).
Context (D : pred) (HD : forall d s, safe s = true -> D d s).

Lemma debug_assert_spec b (Q : () -> pred) (C : pred) d s :
  b = true -> Q () d s -> vwp (debug_assert b) Q C D d s.
Proof. intros -> HQ. unfold debug_assert. rewrite andb_false_r. by apply vwp_ret. Qed.

Lemma set_transaction_size_spec blk cnt (Q : () -> pred) (C : pred) d s :
  Q () d s -> vwp (set_transaction_size blk cnt) Q C D d s.
Proof. intros HQ. unfold set_transaction_size. vstep. by vstep. Qed.

(** The sizes of chunks. *)
Definition read_chunk_ok (n : Z) : Prop :=
  n <= DMA_BUFFER_SIZE /\ n mod BLOCK_SIZE = 0 /\
  (n = BLOCK_SIZE \/ MIN_MULTI_BLOCK_READ_BLOCKS * BLOCK_SIZE <= n).
Definition write_chunk_ok (n : Z) : Prop := n <= DMA_BUFFER_SIZE /\ n mod BLOCK_SIZE = 0.

Lemma check_read_chunk_spec n (Q : () -> pred) (C : pred) d s :
  read_chunk_ok n -> Q () d s -> vwp (check_read_chunk n) Q C D d s.
Proof.
  intros (H1 & H2 & H3) HQ. unfold check_read_chunk.
  apply vwp_bind, debug_assert_spec; [by apply Z.leb_le|].
  apply vwp_bind, debug_assert_spec; [by apply Z.eqb_eq|].
  apply debug_assert_spec; [|done]. apply orb_true_iff. by rewrite Z.eqb_eq, Z.leb_le.
Qed.

Lemma check_write_chunk_spec n (Q : () -> pred) (C : pred) d s :
  write_chunk_ok n -> Q () d s -> vwp (check_write_chunk n) Q C D d s.
Proof.
  intros (H1 & H2) HQ. unfold check_write_chunk.
  apply vwp_bind, debug_assert_spec; [by apply Z.leb_le|].
  apply debug_assert_spec; [by apply Z.eqb_eq|done].
Qed.

(** Both ways of awaiting a transfer keep the invariant; the driver's card data is unchanged. *)
Definition same_card (d d' : SdMmc) : Prop :=
  num_blocks d' = num_blocks d /\ rca d' = rca d /\ dma_buffer d' = dma_buffer d /\
  (idmac_faulted d = true -> idmac_faulted d' = true).

Lemma same_card_refl d : same_card d d.
Proof. done. Qed.
Lemma same_card_trans d1 d2 d3 : same_card d1 d2 -> same_card d2 d3 -> same_card d1 d3.
Proof. intros (?&?&?&?) (?&?&?&?). split_and!; [congruence..|auto]. Qed.
Lemma transfer_post_card d s r d' s' : transfer_post d s r d' s' -> same_card d d'.
Proof.
  destruct r; simpl; [by intros (-> & _)|].
  by intros [(-> & _)|[(-> & _)|(-> & _)]].
Qed.
Lemma dropped_card d s d' s' : dropped d s d' s' -> same_card d d'.
Proof. by intros [(-> & _)|(-> & _)]. Qed.

(** The postcondition of operations that keep the invariant. *)
Definition keeps_inv (d0 : SdMmc) (s0 : dma_state) : pred := fun d s =>
  driver_inv d s /\ same_card d0 d /\ (idmac_faulted d0 = true -> submitted s = submitted s0).

Lemma keeps_inv_refl d s : driver_inv d s -> keeps_inv d s d s.
Proof. intros. by split_and!. Qed.
Lemma keeps_inv_trans d s d1 s1 d2 s2 :
  keeps_inv d s d1 s1 -> keeps_inv d1 s1 d2 s2 -> keeps_inv d s d2 s2.
Proof.
  intros (_ & Hc & Hs) (Hi & Hc' & Hs'). split_and!; [done|by eapply same_card_trans|].
  intros Hf. rewrite Hs', Hs; [done|done|]. by apply Hc.
Qed.
Lemma keeps_inv_fault d s d1 s1 : keeps_inv d s d1 s1 -> keeps_inv d s (set_faulted true d1) s1.
Proof.
  intros (Hi & (?&?&?&?) & Hs). split_and!; [by apply set_faulted_inv|by split_and!|done].
Qed.

(** A faulted driver reports an error. *)
Definition refused (d : SdMmc) (err : bool) : Prop := idmac_faulted d = true -> err = true.

Lemma refused_true d : refused d true.
Proof. done. Qed.
Hint Resolve refused_true : core.

Definition send_ok (send : Command -> Z -> M (SdMmcResult resp4)) : Prop :=
  forall command bus (Q : SdMmcResult resp4 -> pred) (C : pred) d s,
    driver_inv d s ->
    (forall r d' s', keeps_inv d s d' s' -> refused d (is_err r) -> Q r d' s') ->
    (forall d' s', keeps_inv d s d' s' -> idmac_faulted d' = true -> C d' s') ->
    vwp (send command bus) Q C D d s.

Lemma transfer_post_keeps d s r d' s' :
  driver_inv d s -> idmac_faulted d = false -> transfer_post d s r d' s' -> keeps_inv d s d' s'.
Proof.
  intros Hi Hf Hp. split_and!; [by eapply transfer_post_inv|by eapply transfer_post_card|congruence].
Qed.

Lemma send_sync_ok : send_ok (send_cmd_idmac fuel).
Proof.
  intros command bus Q C d s Hi HQ HC. destruct (idmac_faulted d) eqn:Hf.
  { apply faulted_refuses; [done|]. apply HQ; [by apply keeps_inv_refl|done]. }
  apply send_cmd_idmac_spec; [done|by eauto with sd|by apply driver_inv_running|].
  intros r d' s' Hp. apply HQ; [by eapply transfer_post_keeps|intros ?; congruence].
Qed.

Lemma send_async_ok : send_ok (send_cmd_idmac_async fuel).
Proof.
  intros command bus Q C d s Hi HQ HC. destruct (idmac_faulted d) eqn:Hf.
  { apply faulted_refuses_async; [done|]. apply HQ; [by apply keeps_inv_refl|done]. }
  apply send_cmd_idmac_async_spec; [done|by eauto with sd|by apply driver_inv_running| |].
  - intros r d' s' Hp. apply HQ; [by eapply transfer_post_keeps|intros ?; congruence].
  - intros d' s' Hp. apply HC; [|by destruct Hp as [(-> & _)|(-> & _)]].
    split_and!; [by eapply dropped_inv|by eapply dropped_card|congruence].
Qed.

Lemma read_dma_chunk_spec send block buf (Q : SdMmcResult (list Z) -> pred) (C : pred) d s :
  send_ok send -> driver_inv d s -> read_chunk_ok (len buf) ->
  (forall r d' s', keeps_inv d s d' s' -> refused d (is_err r) ->
     (forall bytes, r = Ok bytes -> length bytes = length buf) -> Q r d' s') ->
  (forall d' s', keeps_inv d s d' s' -> idmac_faulted d' = true -> C d' s') ->
  vwp (read_dma_chunk_with send block buf) Q C D d s.
Proof.
  intros Hsend Hi Hlen HQ HC. unfold read_dma_chunk_with.
  assert (Hk : keeps_inv d s d s) by (by apply keeps_inv_refl).
  apply vwp_bind, check_read_chunk_spec; [done|].
  apply vwp_bind, set_transaction_size_spec. vstep.
  destruct (dma_buffer d) as [b|]; [|by vstep; apply HQ]. case_match; [|by vstep; apply HQ].
  apply vwp_try_bind, Hsend; [done| |done]. intros [resp|e] d' s' Hk' Hrf; [|by apply HQ].
  apply vwp_bind, vwp_task_access. intros h. simpl. vstep. apply HQ; [done|done|].
  intros bytes [= <-]. by rewrite length_map, length_seq.
Qed.

(** *** Waiting for a write to be programmed *)

Lemma wait_ready_spec (Q : SdMmcResult () -> pred) (C : pred) d s :
  driver_inv d s ->
  (forall r d' s', keeps_inv d s d' s' -> (is_err r = true -> idmac_faulted d' = true) -> Q r d' s') ->
  vwp (wait_card_ready_after_write fuel) Q C D d s.
Proof.
  intros Hi HQ. unfold wait_card_ready_after_write. still. intros now. still. intros []; simpl.
  - vstep. apply HQ; [by apply keeps_inv_refl|done].
  - vstep. vstep. apply HQ; [by apply keeps_inv_fault, keeps_inv_refl|done].
Qed.

(** CMD13 moves no data: the monitor ignores it. *)
Lemma send_status_quiet (s : dma_state) arg :
  quiet s (EvWrite R_cmd (built_cmd (SendStatus arg))).
Proof.
  split; [|done]. unfold ignored. simpl. unfold on_write. by rewrite built_data_expected.
Qed.

Lemma busy_loop_spec n deadline arg polled (Q : SdMmcResult () -> pred) (C : pred) d s :
  driver_inv d s ->
  (forall r d' s', keeps_inv d s d' s' -> (is_err r = true -> idmac_faulted d' = true) -> Q r d' s') ->
  C d s ->
  vwp (busy_loop fuel n deadline arg polled) Q C D d s.
Proof.
  intros Hi HQ HC. revert polled. induction n as [|n IH]; intros polled; simpl.
  { apply vwp_diverge. eauto with sd. }
  assert (Hf : forall e, Q (Err e) (set_faulted true d) s).
  { intros e. apply HQ; [by apply keeps_inv_fault, keeps_inv_refl|done]. }
  apply vwp_bind, vwp_emits; [destruct polled; by emits_poll| |by eauto with sd]. intros [].
  { still. intros _. still. intros _. unfold busy_guard_fault. vstep. by vstep. }
  apply vwp_bind, vwp_emits;
    [apply (emits_send_cmd_with_deadline (quiet s)), send_status_quiet| |by eauto with sd].
  intros [[resp|e] buf]; simpl.
  - still. intros st. still. intros _. case_match.
    { vstep. apply HQ; [by apply keeps_inv_refl|done]. }
    still. intros t. apply vwp_bind, vwp_emits_async; [by emits_poll|intros _; apply IH|done|by eauto with sd].
  - still. intros _. still. intros _. still. intros _. unfold busy_guard_fault. vstep. by vstep.
Qed.

Lemma wait_ready_async_spec (Q : SdMmcResult () -> pred) (C : pred) d s :
  driver_inv d s ->
  (forall r d' s', keeps_inv d s d' s' -> (is_err r = true -> idmac_faulted d' = true) -> Q r d' s') ->
  (forall d' s', keeps_inv d s d' s' -> idmac_faulted d' = true -> C d' s') ->
  vwp (wait_card_ready_after_write_async fuel) Q C D d s.
Proof.
  intros Hi HQ HC. unfold wait_card_ready_after_write_async.
  still. still. still. intros _. still. intros now. vstep.
  apply vwp_on_cancel, busy_loop_spec; [done|done|].
  unfold busy_guard_drop. apply vwp_set_dev, HC; [by apply keeps_inv_fault, keeps_inv_refl|done].
Qed.

(** *** Writing one chunk *)

Definition write_ok (io : Z -> list Z -> M (SdMmcResult ())) : Prop :=
  forall block buf (Q : SdMmcResult () -> pred) (C : pred) d s,
    driver_inv d s -> write_chunk_ok (len buf) ->
    (forall r d' s', keeps_inv d s d' s' -> refused d (is_err r) -> Q r d' s') ->
    (forall d' s', keeps_inv d s d' s' -> idmac_faulted d' = true -> C d' s') ->
    vwp (io block buf) Q C D d s.

Lemma write_dma_chunk_ok : write_ok (write_dma_chunk fuel).
Proof.
  intros block buf Q C d s Hi Hlen HQ HC. unfold write_dma_chunk.
  assert (Hk : keeps_inv d s d s) by (by apply keeps_inv_refl).
  apply vwp_bind, check_write_chunk_spec; [done|].
  apply vwp_bind, set_transaction_size_spec. vstep.
  destruct (dma_buffer d) as [b|]; [|by vstep; apply HQ]. case_match; [|by vstep; apply HQ].
  apply vwp_bind, vwp_task_access. intros h. simpl.
  apply vwp_try_bind, send_sync_ok; [done| |done]. intros [resp|e] d' s' Hk' Hrf; [|by apply HQ].
  apply wait_ready_spec; [by apply Hk'|]. intros r d2 s2 Hk2 _.
  apply HQ; [by eapply keeps_inv_trans|]. intros Hf. by specialize (Hrf Hf).
Qed.

Lemma write_dma_chunk_async_ok : write_ok (write_dma_chunk_async fuel).
Proof.
  intros block buf Q C d s Hi Hlen HQ HC. unfold write_dma_chunk_async.
  assert (Hk : keeps_inv d s d s) by (by apply keeps_inv_refl).
  apply vwp_bind, check_write_chunk_spec; [done|].
  apply vwp_bind, set_transaction_size_spec. vstep.
  destruct (dma_buffer d) as [b|]; [|by vstep; apply HQ].
  apply vwp_bind, vwp_task_access. intros h. simpl. case_match; [|by vstep; apply HQ].
  apply vwp_try_bind, send_async_ok; [done| |done]. intros [resp|e] d' s' Hk' Hrf; [|by apply HQ].
  apply wait_ready_async_spec; [by apply Hk'| |].
  - intros r d2 s2 Hk2 _. apply HQ; [by eapply keeps_inv_trans|]. intros Hf. by specialize (Hrf Hf).
  - intros d2 s2 Hk2 Hf. apply HC; [|done]. by eapply keeps_inv_trans.
Qed.

(** *** Ranges of blocks *)

Definition read_ok (io : Z -> list Z -> M (SdMmcResult (list Z))) : Prop :=
  forall block buf (Q : SdMmcResult (list Z) -> pred) (C : pred) d s,
    driver_inv d s -> read_chunk_ok (len buf) ->
    (forall r d' s', keeps_inv d s d' s' -> refused d (is_err r) ->
       (forall bytes, r = Ok bytes -> length bytes = length buf) -> Q r d' s') ->
    (forall d' s', keeps_inv d s d' s' -> idmac_faulted d' = true -> C d' s') ->
    vwp (io block buf) Q C D d s.

Lemma read_chunk_blocks_ok chunk k :
  len chunk = k * BLOCK_SIZE -> k <= MAX_DMA_BLOCKS -> k = 1 \/ MIN_MULTI_BLOCK_READ_BLOCKS <= k ->
  read_chunk_ok (len chunk).
Proof.
  intros -> Hk1 Hk2. unfold read_chunk_ok. rewrite Z.mod_mul by done.
  unfold DMA_BUFFER_SIZE, MAX_DMA_BLOCKS, MIN_MULTI_BLOCK_READ_BLOCKS, BLOCK_SIZE in *. lia.
Qed.

(** A chunk that succeeded shows that the driver was not faulted. *)
Lemma not_refused d0 s0 d s b : keeps_inv d0 s0 d s -> refused d false -> refused d0 b.
Proof. intros (_ & (_ & _ & _ & Hm) & _) Hr Hf. specialize (Hr (Hm Hf)). discriminate. Qed.

Lemma read_loop_spec io n block done buf (Q : SdMmcResult () * list Z -> pred) (C : pred) d0 s0 d s :
  read_ok io -> keeps_inv d0 s0 d s -> whole_blocks buf -> (length buf < n)%nat ->
  (forall r d' s', keeps_inv d0 s0 d' s' -> refused d0 (is_err r.1 || (len buf =? 0)) ->
     length r.2 = (length done + length buf)%nat -> Q r d' s') ->
  (forall d' s', keeps_inv d0 s0 d' s' -> idmac_faulted d' = true -> C d' s') ->
  vwp (read_loop io n block done buf) Q C D d s.
Proof.
  intros Hio. revert block done buf d s.
  induction n as [|n IH]; intros block done buf d s Hk Hw Hn HQ HC; [lia|].
  cbn [read_loop]. destruct (Z.eqb_spec (len buf) 0) as [Hz|Hz].
  { vstep. apply HQ; [done|done|]. unfold len in Hz. simpl. lia. }
  destruct (whole_blocks_count buf Hw Hz) as [Hc _].
  destruct (read_chunk_blocks_range _ Hc) as (Hr & Hmax & Hmin).
  destruct (split_at_blocks buf (read_chunk_blocks (len buf / BLOCK_SIZE)) Hw Hr) as (chunk & remaining & -> & Hlc & Hlr & Hwr & -> & Hlt).
  rewrite length_app in HQ, Hlt, Hn. apply vwp_bind, Hio.
  - apply Hk.
  - by eapply read_chunk_blocks_ok.
  - intros [bytes|e] d' s' Hk' Hrf Hlen; (eapply keeps_inv_trans in Hk'; [|exact Hk]).
    + specialize (Hlen bytes eq_refl).
      assert (Hnf : forall b, refused d0 b) by (intros b; apply (not_refused _ _ _ _ _ Hk Hrf)).
      assert (Hloop : forall b, vwp (read_loop io n b (done ++ bytes) remaining) Q C D d' s').
      { intros b. apply IH; [done|done|lia| |done].
        intros r d2 s2 Hk2 _ Hr2. apply HQ; [done|done|]. rewrite length_app in Hr2. lia. }
      case_match; [done|]. case_match; [done|]. vstep. apply HQ; [done|done|].
      simpl. rewrite !length_app. lia.
    + vstep. apply HQ; [done|done|]. simpl. rewrite !length_app. lia.
  - intros d' s' Hk' Hf. apply HC; [|done]. by eapply keeps_inv_trans.
Qed.

Lemma write_loop_spec io n block buf (Q : SdMmcResult () -> pred) (C : pred) d0 s0 d s :
  write_ok io -> keeps_inv d0 s0 d s -> whole_blocks buf -> (length buf < n)%nat ->
  (forall r d' s', keeps_inv d0 s0 d' s' -> refused d0 (is_err r || (len buf =? 0)) -> Q r d' s') ->
  (forall d' s', keeps_inv d0 s0 d' s' -> idmac_faulted d' = true -> C d' s') ->
  vwp (write_loop io n block buf) Q C D d s.
Proof.
  intros Hio. revert block buf d s.
  induction n as [|n IH]; intros block buf d s Hk Hw Hn HQ HC; [lia|].
  cbn [write_loop]. destruct (Z.eqb_spec (len buf) 0) as [Hz|Hz]; [vstep; by apply HQ|].
  destruct (whole_blocks_count buf Hw Hz) as [Hc _].
  destruct (write_chunk_blocks_range _ Hc) as (Hr & Hmax).
  destruct (split_at_blocks buf (write_chunk_blocks (len buf / BLOCK_SIZE)) Hw Hr) as (chunk & remaining & -> & Hlc & Hlr & Hwr & -> & Hlt).
  apply vwp_try_bind, Hio.
  - apply Hk.
  - rewrite Hlc. split; [|by rewrite Z.mod_mul].
    unfold DMA_BUFFER_SIZE, MAX_DMA_BLOCKS, BLOCK_SIZE in *. lia.
  - intros [[]|e] d' s' Hk' Hrf; (eapply keeps_inv_trans in Hk'; [|exact Hk]); [|by apply HQ].
    assert (Hnf : forall b, refused d0 b) by (intros b; apply (not_refused _ _ _ _ _ Hk Hrf)).
    assert (Hloop : forall b, vwp (write_loop io n b remaining) Q C D d' s').
    { intros b. apply IH; [done|done|lia| |done]. intros r d2 s2 Hk2 _. by apply HQ. }
    case_match; [done|]. case_match; [done|]. vstep. by apply HQ.
  - intros d' s' Hk' Hf. apply HC; [|done]. by eapply keeps_inv_trans.
Qed.

Lemma read_blocks_spec io block buf (Q : SdMmcResult () * list Z -> pred) (C : pred) d s :
  read_ok io -> driver_inv d s -> 0 <= block ->
  (forall r d' s', keeps_inv d s d' s' -> refused d (is_err r.1) -> length r.2 = length buf -> Q r d' s') ->
  (forall d' s', keeps_inv d s d' s' -> idmac_faulted d' = true -> C d' s') ->
  vwp (read_blocks_with io block buf) Q C D d s.
Proof.
  intros Hio Hi Hb HQ HC. unfold read_blocks_with. vstep.
  destruct (validate_block_buffer _ _ _) as [blocks|e] eqn:Hv.
  2: { vstep. apply HQ; [by apply keeps_inv_refl|done|done]. }
  apply validate_block_buffer_ok in Hv as (Hpos&Hm&_); [|done|unfold len; lia].
  eapply read_loop_spec; [done|by apply keeps_inv_refl|done|lia| |done].
  intros r d' s' Hk Hrf Hlen. apply HQ; [done| |done].
  by rewrite (proj2 (Z.eqb_neq (len buf) 0)), orb_false_r in Hrf by lia.
Qed.

Lemma write_blocks_spec io block buf (Q : SdMmcResult () -> pred) (C : pred) d s :
  write_ok io -> driver_inv d s -> 0 <= block ->
  (forall r d' s', keeps_inv d s d' s' -> refused d (is_err r) -> Q r d' s') ->
  (forall d' s', keeps_inv d s d' s' -> idmac_faulted d' = true -> C d' s') ->
  vwp (write_blocks_with io block buf) Q C D d s.
Proof.
  intros Hio Hi Hb HQ HC. unfold write_blocks_with. vstep. apply vwp_try_bind, vwp_ret.
  destruct (validate_block_buffer _ _ _) as [blocks|e] eqn:Hv.
  2: { apply HQ; [by apply keeps_inv_refl|done]. }
  apply validate_block_buffer_ok in Hv as (Hpos&Hm&_); [|done|unfold len; lia].
  eapply write_loop_spec; [done|by apply keeps_inv_refl|done|lia| |done].
  intros r d' s' Hk Hrf. apply HQ; [done|].
  by rewrite (proj2 (Z.eqb_neq (len buf) 0)), orb_false_r in Hrf by lia.
Qed.

Lemma read_sync_ok : read_ok (read_dma_chunk fuel).
Proof. intros block buf Q C d s. apply read_dma_chunk_spec, send_sync_ok. Qed.
Lemma read_async_ok : read_ok (read_dma_chunk_async fuel).
Proof. intros block buf Q C d s. apply read_dma_chunk_spec, send_async_ok. Qed.

End block_spec.
