(* ===== verification/Lifecycle.v ===== *)
(** * From construction to destruction

    The invariant of [Safety] is established by [SdMmc::new], kept by every operation of the
    driver's interface and enough for [Drop]: rule induction over the histories of a driver. *)

From S2P Require Import Prelude Bitfield Regs CardStatus Command Dma Machine Irq Logic Sim Driver Transfer Init BlockIo Events DmaSafety Safety.

(** A quiet engine whose memory has not changed. *)
Definition calm (s s' : dma_state) : Prop := same_memory s s' /\ running s' = false.

Lemma calm_safe s s' : calm s s' -> safe s = true -> safe s' = true.
Proof. intros [? _]. by apply same_memory_safe. Qed.
#[export] Hint Resolve calm_safe : sd.

(** Initialisation only changes what the driver knows of the card. *)
Definition card_only (d d' : SdMmc) : Prop :=
  ahb_data_width d' = ahb_data_width d /\ dma_buffer d' = dma_buffer d /\
  idmac_faulted d' = idmac_faulted d /\ idmac_reset_failed d' = idmac_reset_failed d.

Section init_spec.
Context {HW : Type} {P : Platform HW} {BF : BitfieldStruct} {BD : BitfieldDoc BF}.
Context (fuel : nat).
Local Notation M := (machine HW).
Local Notation pred := (SdMmc -> dma_state -> Prop).
Context (D : pred) (HD : forall d s, safe s = true -> D d s).

(** A command without data, or with the engine switched off, starts no DMA. *)
Lemma polled_cmd_spec c (Q : SdMmcResult resp4 -> pred) (C : pred) d s :
  safe s = true -> built_xfer c = None \/ dma_off s = true ->
  (forall r, Q r d s) -> vwp (send_cmd fuel c) Q C D d s.
Proof.
  intros Hk Hc HQ. apply vwp_emits; [|done|auto]. apply (emits_send_cmd (quiet s)).
  split; [|done]. unfold ignored. simpl. unfold on_write. rewrite built_data_expected.
  destruct Hc as [-> | ->]; [done|]. by rewrite andb_false_r.
Qed.

Lemma update_bmod_spec f (Q : () -> pred) (C : pred) d s s' :
  calm s s' -> (forall s2, calm s s2 -> Q () d s2) -> vwp (update R_bmod f) Q C D d s'.
Proof.
  intros [(?&?&?) Hr] HQ. apply vwp_update. intros v _. apply HQ. simpl. unfold on_write, on_read.
  repeat case_match; (split; [split_and!|]); simpl; auto; congruence.
Qed.

Lemma update_ctrl_spec f (Q : () -> pred) (C : pred) d s s' :
  calm s s' ->
  (forall s2 v, calm s s2 -> dma_off s2 = negb (bit Ctrl "use_internal_dmac" (f v)) -> Q () d s2) ->
  vwp (update R_ctrl f) Q C D d s'.
Proof.
  intros [(?&?&?) Hr] HQ. apply vwp_update. intros v _. apply HQ with v; simpl; unfold on_write, on_read;
    repeat case_match; try (split; [split_and!|]); simpl; auto; congruence.
Qed.

Lemma acmd41_spec n deadline (Q : option Z -> pred) (C : pred) d s :
  safe s = true -> (forall o, Q o d s) -> vwp (acmd41_loop fuel n deadline) Q C D d s.
Proof.
  intros Hk HQ. induction n as [|n IH]; simpl; [by apply vwp_diverge, HD|].
  still. intros t. case_match; [by vstep|].
  apply vwp_bind, polled_cmd_spec; [done|by left|]. intros app. apply vwp_bind.
  assert (Hnext : forall o : option Z, vwp match o with
      | Some ocr => mret (Some ocr)
      | None => busy_wait (from_millis 10);; acmd41_loop fuel n deadline
      end Q C D d s).
  { intros [ocr|]; [by vstep|]. still. apply IH. }
  case_match; [|apply vwp_ret, (Hnext None)]. apply vwp_bind, polled_cmd_spec; [done|by left|].
  intros [resp|e]; apply vwp_ret; [apply Hnext|apply (Hnext None)].
Qed.

Lemma read_all_calm_spec rs (Q : () -> pred) (C : pred) d s :
  running s = false -> (forall s', calm s s' -> Q () d s') -> vwp (read_all rs) Q C D d s.
Proof.
  revert s. induction rs as [|r rs IH]; intros s Hr HQ; [by apply vwp_ret, HQ|].
  change (read_all (r :: rs)) with (read r;; read_all rs : M ()).
  apply vwp_bind, vwp_read. intros v _.
  assert (Hs : calm s (on_read r v s)) by (unfold on_read; repeat case_match; by split).
  apply IH; [by apply Hs|]. intros s' [Hm Hr']. apply HQ. split; [|done].
  eapply same_memory_trans; [by apply Hs|done].
Qed.

(** Step over a polled command, an error of which is returned. *)
Local Ltac polled := apply vwp_try_bind, polled_cmd_spec; [by eauto with sd|auto|intros [?r|?e]; [|by auto]].

Lemma init_power_up_spec (Q : SdMmcResult () -> pred) (C : pred) d s :
  safe s = true -> running s = false ->
  (forall e d' s', card_only d d' -> calm s s' -> Q (Err e) d' s') ->
  (forall d' s', card_only d d' -> ocr_ccs d' = true -> calm s s' -> dma_off s' = true -> Q (Ok ()) d' s') ->
  vwp (init_power_up fuel) Q C D d s.
Proof.
  intros Hk Hr Herr Hok. unfold init_power_up.
  assert (Hcalm : calm s s) by done. assert (Hd : card_only d d) by done.
  still. vstep. polled. vstep. vstep. polled. vstep. vstep.
  eapply vwp_bind, update_bmod_spec; [done|]. intros s1 Hs1.
  eapply vwp_bind, update_ctrl_spec; [done|]. intros s2 v Hs2 Hoff.
  rewrite bit_with in Hoff by reflexivity. simpl in Hoff. polled.
  apply vwp_bind, polled_cmd_spec; [by eauto with sd|auto|]. intros [if_cond|e]; [|vstep; auto].
  case_match; [vstep; auto|]. still. intros now.
  apply vwp_bind, acmd41_spec; [by eauto with sd|]. intros [ocr|]; [|vstep; auto].
  vstep. vstep. case_match; [apply Hok|apply Herr]; done.
Qed.

Lemma init_address_spec (Q : SdMmcResult Z -> pred) (C : pred) d s :
  safe s = true ->
  (forall e d', card_only d d' -> Q (Err e) d' s) ->
  (forall n, 0 < n < 2 ^ 16 -> Q (Ok (Z.shiftl n 16)) (set_rca n d) s) ->
  vwp (init_address fuel) Q C D d s.
Proof.
  intros Hk Herr Hok. unfold init_address. assert (Hd : card_only d d) by done. polled. polled.
  case_match; [vstep; auto|]. vstep. case_match; vstep; [by apply Herr|].
  apply Hok. bool_hyps. unfold as_u16, u16_max in *.
  pose proof (Z.mod_pos_bound (Z.shiftr (resp0 r0) 16) (2 ^ 16) ltac:(lia)). lia.
Qed.

Lemma program_clock_spec n (Q : bool -> pred) (C : pred) d s :
  safe s = true -> (forall b, Q b d s) -> vwp (program_card_clock_divider fuel n) Q C D d s.
Proof.
  intros Hk HQ. unfold program_card_clock_divider.
  vstep. apply vwp_bind, polled_cmd_spec; [done|by left|]. intros r1. case_match; [by vstep|].
  vstep. apply vwp_bind, polled_cmd_spec; [done|by left|]. intros r2. case_match; [by vstep|].
  vstep. apply vwp_bind, polled_cmd_spec; [done|by left|]. intros r3. case_match; [by vstep|].
  still. intros v1. still. intros v2. by vstep.
Qed.

Lemma switch_clock_spec n (Q : bool -> pred) (C : pred) d s :
  safe s = true -> (forall b, Q b d s) -> vwp (switch_card_clock_divider fuel n) Q C D d s.
Proof.
  intros Hk HQ. unfold switch_card_clock_divider. still. intros now. still. intros []; simpl.
  - still. intros prev. apply vwp_bind, program_clock_spec; [done|]. intros []; [by vstep|].
    apply vwp_bind, program_clock_spec; [done|]. intros b. by vstep.
  - still. by vstep.
Qed.

(** What a successful initialisation knows of the card. *)
Definition usable (d : SdMmc) : Prop :=
  ocr_ccs d = true /\ 0 < rca d < 2 ^ 16 /\ 1024 <= num_blocks d <= 2 ^ 32 /\
  num_blocks d mod 1024 = 0.

Lemma card_only_trans d1 d2 d3 : card_only d1 d2 -> card_only d2 d3 -> card_only d1 d3.
Proof. intros (?&?&?&?) (?&?&?&?). split_and!; congruence. Qed.

Lemma init_spec (Q : SdMmcResult () -> pred) (C : pred) d s :
  safe s = true -> running s = false ->
  (forall e d' s', card_only d d' -> calm s s' -> Q (Err e) d' s') ->
  (forall d' s', card_only d d' -> calm s s' -> usable d' -> Q (Ok ()) d' s') ->
  vwp (init fuel) Q C D d s.
Proof.
  intros Hk Hr Herr Hok. unfold init.
  apply vwp_try_bind, init_power_up_spec; [done|done|done|]. intros d1 s1 Hd1 Hccs Hs1 Hoff.
  apply vwp_try_bind, init_address_spec; [by eauto with sd| |].
  { intros e d' Hd'. apply Herr; [by eapply card_only_trans|done]. }
  intros n Hn. polled. case_match; [by vstep; apply Herr|]. vstep. polled. polled.
  unfold init_read_scr. apply vwp_bind, vwp_bind, set_transaction_size_spec.
  apply vwp_bind, polled_cmd_spec; [by eauto with sd|auto|]. intros scr. vstep. still.
  apply vwp_bind, switch_clock_spec; [by eauto with sd|]. intros []; vstep; [|by apply Herr].
  apply Hok; [done|done|]. destruct (csd_num_blocks_bounds (transmute_u128 r)) as [Heq Hb].
  split_and!; simpl; [done|lia..|]. by rewrite Heq, Z.mod_mul.
Qed.

(** ** The DMA engine *)

(** What the driver knows of the card is unchanged. *)
Definition knows (d d' : SdMmc) : Prop :=
  num_blocks d' = num_blocks d /\ rca d' = rca d /\ ocr_ccs d' = ocr_ccs d.

Lemma calm_inv d s s' :
  driver_inv d s -> idmac_reset_failed d = false -> calm s s' -> driver_inv d s'.
Proof.
  intros (Hk & Hb & Hi) Hf [(Hl & _ & Hk') Hr]. rewrite Hf in Hi. destruct Hi as [_ Hi].
  split_and!; [congruence|done|]. rewrite Hf. split; congruence.
Qed.

Lemma inv_calm d s : driver_inv d s -> idmac_reset_failed d = false -> calm s s.
Proof. intros (_ & _ & Hi) Hf. rewrite Hf in Hi. by destruct Hi. Qed.

Lemma release_spec (Q : () -> pred) (C : pred) d s :
  driver_inv d s -> idmac_reset_failed d = false ->
  (forall d' s', driver_inv d' s' -> knows d d' -> live s' = [] -> Q () d' s') ->
  vwp release_dma_buffer Q C D d s.
Proof.
  intros Hi Hf HQ. unfold release_dma_buffer. vstep. destruct (dma_buffer d) as [b|] eqn:Hb; cycle 1.
  { vstep. apply HQ; [done|done|]. destruct Hi as (_&_&Hi). rewrite Hf in Hi.
    unfold buffer_allocs in Hi. rewrite Hb in Hi. by destruct Hi. }
  destruct Hi as (Hk & Hbuf & Hi). rewrite Hf in Hi. destruct Hi as [Hr Hl].
  vstep. vstep. destruct (Hbuf b Hb) as [l Hlay]. simpl. rewrite Hlay.
  unfold buffer_allocs in Hl. rewrite Hb, Hlay in Hl.
  assert (Hfree : live (dma_step (EvFree (dma_addr b) l) s) = [] /\
    safe (dma_step (EvFree (dma_addr b) l) s) = true /\
    running (dma_step (EvFree (dma_addr b) l) s) = false).
  { cbn [dma_step live safe running]. rewrite Hl, Hk, Hr, remove_one_head.
    by rewrite bool_decide_eq_true_2 by by left. }
  destruct Hfree as (Hl' & Hk' & Hr').
  apply vwp_dealloc, HQ; [|done|done]. split_and!; [done|by intros b'|]. simpl. by rewrite Hf.
Qed.

Lemma disable_spec (Q : () -> pred) (C : pred) d s :
  driver_inv d s -> idmac_reset_failed d = false ->
  (forall d' s', driver_inv d' s' -> knows d d' -> Q () d' s') ->
  vwp (disable_idmac_after_enable_failure fuel) Q C D d s.
Proof.
  intros Hi Hf HQ. unfold disable_idmac_after_enable_failure. vstep. vstep.
  eapply vwp_bind, update_ctrl_spec; [by eapply inv_calm|]. intros s1 v Hs1 _.
  eapply calm_inv in Hs1 as Hi1; [|done|done]. still.
  apply vwp_bind, reset_idmac_spec; [done|by eauto with sd| |]; intros s2 Hm Hr; simpl.
  - apply release_spec; [|done|auto]. eapply calm_inv; [done|done|by split].
  - vstep. apply vwp_set_dev, HQ; [|done]. destruct Hi1 as (Hk1 & Hb1 & Hl1). rewrite Hf in Hl1.
    destruct Hl1 as [_ Hl1]. destruct Hm as (Hl2 & _ & Hk2).
    split_and!; [congruence|done|]. simpl. split; [done|]. exists []. by rewrite Hl2, Hl1.
Qed.

Lemma switch_idmac_on_spec (Q : () -> pred) (C : pred) d s :
  driver_inv d s -> idmac_reset_failed d = false ->
  (forall d' s', driver_inv d' s' -> knows d d' -> Q () d' s') ->
  vwp (switch_idmac_on fuel) Q C D d s.
Proof.
  intros Hi Hf HQ. unfold switch_idmac_on.
  apply vwp_bind, vwp_emits; [by unfold clear_stale_status; emits_poll| |by eauto with sd]. intros _.
  eapply vwp_bind, update_bmod_spec; [by eapply inv_calm|]. intros s1 Hs1.
  eapply calm_inv in Hs1 as Hi1; [|done|done]. still.
  apply vwp_bind, vwp_read. intros bmod _.
  assert (Hs2 : calm s1 (on_read R_bmod bmod s1)).
  { apply inv_calm in Hi1 as [_ ?]; [|done]. unfold on_read. by repeat case_match. }
  eapply calm_inv in Hs2 as Hi2; [|done|done]. revert Hi2. simpl.
  generalize (on_read R_bmod bmod s1). intros s2 Hi2. still. intros _.
  case_match; [by apply disable_spec|].
  eapply vwp_bind, update_ctrl_spec; [by eapply inv_calm|]. intros s3 v Hs3 _.
  eapply calm_inv in Hs3 as Hi3; [|done|done]. still.
  apply vwp_bind, vwp_read. intros ctrl _.
  assert (Hs4 : calm s3 (on_read R_ctrl ctrl s3)).
  { apply inv_calm in Hi3 as [_ ?]; [|done]. unfold on_read. by repeat case_match. }
  eapply calm_inv in Hs4 as Hi4; [|done|done]. revert Hi4. simpl.
  generalize (on_read R_ctrl ctrl s3). intros s4 Hi4. still. intros idsts.
  case_match; [by apply disable_spec|]. case_match; [by apply disable_spec|].
  vstep. vstep. still. intros _. still. intros _. still. intros _. vstep. by apply HQ.
Qed.

Lemma try_enable_spec size reg_irq (Q : () -> pred) (C : pred) d s :
  driver_inv d s -> idmac_reset_failed d = false -> dma_buffer d = None ->
  (forall d' s', driver_inv d' s' -> knows d d' -> Q () d' s') ->
  vwp (try_enable_idmac fuel size reg_irq) Q C D d s.
Proof.
  intros Hi Hf Hb HQ. unfold try_enable_idmac. vstep. vstep.
  eapply vwp_bind, update_ctrl_spec; [by eapply inv_calm|]. intros s1 v Hs1 _.
  eapply calm_inv in Hs1 as Hi1; [|done|done]. still. still. intros hcon.
  case_match; [|by vstep; apply HQ]. vstep.
  match goal with |- vwp _ _ _ _ ?x _ => set (d1 := x) end.
  assert (Hnone : forall f s', safe s' = true -> running s' = false -> live s' = [] ->
    driver_inv (set_faulted f d1) s').
  { intros f s' ???. split_and!; [done|intros b'; simpl; by rewrite Hb|]. simpl. rewrite Hf.
    unfold buffer_allocs. simpl. by rewrite Hb. }
  destruct Hi1 as (Hk1 & _ & Hi1). rewrite Hf in Hi1. unfold buffer_allocs in Hi1. rewrite Hb in Hi1.
  destruct Hi1 as [Hr1 Hl1].
  apply vwp_bind, reset_idmac_spec; [done|done| |]; intros s2 (Hl2 & _ & Hk2) Hr2; simpl; cycle 1.
  { apply vwp_set_dev, HQ; [apply Hnone; congruence|done]. }
  assert (Hquit : Q () d1 s2) by (apply HQ; [apply (Hnone (idmac_faulted d)); congruence|done]).
  destruct (layout_from_size_align size (align_value a)) as [l|] eqn:Hlay; [|by vstep].
  apply vwp_bind, vwp_alloc. intros [i|]; [|by vstep]. vstep. simpl.
  match goal with |- vwp _ _ _ _ ?x ?y => set (d2 := x); set (s3 := y) end.
  assert (Hi3 : driver_inv d2 s3).
  { split_and!; [by rewrite <-Hk1, <-Hk2|intros b' [= <-]; by exists l|]. simpl. rewrite Hf.
    unfold buffer_allocs. simpl. rewrite Hlay. by rewrite Hl2, Hl1. }
  clearbody s3. apply vwp_bind, vwp_task_access. intros h. simpl. case_match.
  - by apply disable_spec.
  - by apply switch_idmac_on_spec.
Qed.

Lemma new_spec base reg_irq (Q : SdMmcResult () -> pred) (C : pred) d s :
  safe s = true -> running s = false -> live s = [] ->
  (forall r d' s', driver_inv d' s' -> (r = Ok () -> usable d') -> (is_err r = true -> live s' = []) ->
     Q r d' s') ->
  vwp (new fuel base reg_irq) Q C D d s.
Proof.
  intros Hk Hr Hl HQ. unfold new. vstep. unfold log_register_snapshot.
  assert (Hinv : forall d' s', card_only sdmmc_initial d' -> calm s s' -> driver_inv d' s').
  { intros d' s' (_ & Hb & _ & Hf) [(Hl' & _ & Hk') Hr']. simpl in *.
    split_and!; [congruence|intros b; by rewrite Hb|]. rewrite Hf. unfold buffer_allocs.
    rewrite Hb. by rewrite Hl', Hl. }
  apply vwp_bind, read_all_calm_spec; [done|]. intros s1 Hs1.
  apply vwp_bind, init_spec; [by eauto with sd|by apply Hs1| |].
  - intros e d' s' Hd Hs'. unfold sdmmc_drop. vstep. vstep. rewrite (proj2 (proj2 (proj2 Hd))).
    assert (Hs : calm s s') by (split; [by eapply same_memory_trans; [apply Hs1|apply Hs']|apply Hs']).
    apply release_spec; [by apply Hinv|by apply Hd|]. intros d2 s2 Hi2 _ Hl2.
    vstep. by apply HQ.
  - intros d' s' Hd Hs' Hu. still.
    assert (Hs : calm s s') by (split; [by eapply same_memory_trans; [apply Hs1|apply Hs']|apply Hs']).
    apply vwp_bind, try_enable_spec; [by apply Hinv|by apply Hd|by rewrite (proj1 (proj2 Hd))|].
    intros d2 s2 Hi2 (Hn & Hrca & Hccs). vstep. apply HQ; [done| |done]. intros _.
    unfold usable. by rewrite Hn, Hrca, Hccs.
Qed.

Lemma drop_spec (Q : () -> pred) (C : pred) d s :
  driver_inv d s ->
  (forall d' s', safe s' = true -> (idmac_reset_failed d = false -> live s' = []) ->
     (idmac_reset_failed d = true -> s' = s) -> Q () d' s') ->
  vwp sdmmc_drop Q C D d s.
Proof.
  intros Hi HQ. unfold sdmmc_drop. vstep. destruct (idmac_reset_failed d) eqn:Hf.
  - vstep. apply HQ; [by eauto with sd|done|done].
  - apply release_spec; [done|done|]. intros d' s' Hi' _ Hl. apply HQ; [by eauto with sd|done|done].
Qed.

End init_spec.

(** ** Histories of a driver *)

(** The operations of the driver's interface. *)
Inductive operation : Type :=
| OpReadBlocks (block : Z) (buf : list Z)
| OpReadBlocksAsync (block : Z) (buf : list Z)
| OpWriteBlocks (block : Z) (buf : list Z)
| OpWriteBlocksAsync (block : Z) (buf : list Z)
| OpDriverRead (block_id : Z) (buf : list Z)
| OpDriverWrite (block_id : Z) (buf : list Z).

(** Block numbers are unsigned. *)
Definition op_ok (o : operation) : Prop :=
  match o with
  | OpReadBlocks b _ | OpReadBlocksAsync b _ | OpWriteBlocks b _ | OpWriteBlocksAsync b _
  | OpDriverRead b _ | OpDriverWrite b _ => 0 <= b
  end.

Section histories.
Context {HW : Type} {P : Platform HW} {BF : BitfieldStruct} {BD : BitfieldDoc BF}.
Context (fuel : nat).
Local Notation M := (machine HW).

(** Run an operation; whether it succeeded. *)
Definition run_op (o : operation) : M bool :=
  match o with
  | OpReadBlocks b buf => r ← read_blocks fuel b buf; mret (is_ok r.1)
  | OpReadBlocksAsync b buf => r ← read_blocks_async fuel b buf; mret (is_ok r.1)
  | OpWriteBlocks b buf => r ← write_blocks fuel b buf; mret (is_ok r)
  | OpWriteBlocksAsync b buf => r ← write_blocks_async fuel b buf; mret (is_ok r)
  | OpDriverRead b buf => r ← driver_read_block fuel b buf; mret (is_ok r.1)
  | OpDriverWrite b buf => r ← driver_write_block fuel b buf; mret (is_ok r)
  end.

(** The states a driver can be in: constructed with success on a fresh log, then any operations,
    each of which returned (with success or not) or was dropped at a suspension point. *)
Inductive reachable : world HW -> Prop :=
| reach_new w0 base reg_irq w :
    w_log w0 = [] -> new fuel base reg_irq w0 = (Done (Ok ()), w) -> reachable w
| reach_done w o b w' : reachable w -> op_ok o -> run_op o w = (Done b, w') -> reachable w'
| reach_cancelled w o w' : reachable w -> op_ok o -> run_op o w = (Cancelled, w') -> reachable w'.

Local Notation mon w := (monitor (w_log w) : dma_state).

(** One operation, from a state with the invariant. *)
Definition op_dropped (d : SdMmc) (s : dma_state) (d' : SdMmc) (s' : dma_state) : Prop :=
  keeps_inv d s d' s' /\ idmac_faulted d' = true.

Lemma run_op_spec o d s :
  op_ok o -> driver_inv d s ->
  vwp (run_op o) (fun b d' s' => keeps_inv d s d' s' /\ refused d (negb b)) (op_dropped d s)
    (fun _ s' => safe s' = true) d s.
Proof.
  intros Ho Hi.
  assert (Hread : forall (io : Z -> list Z -> M (SdMmcResult (list Z))) b buf
      (Q : _ -> SdMmc -> dma_state -> Prop), 0 <= b ->
    read_ok (fun _ s' => safe s' = true) io ->
    (forall r d' s', keeps_inv d s d' s' -> refused d (is_err r.1) -> Q r d' s') ->
    vwp (read_blocks_with io b buf) Q (op_dropped d s) (fun _ s' => safe s' = true) d s).
  { intros io b buf Q Hb Hio HQ. apply read_blocks_spec; auto. by split. }
  assert (Hwrite : forall (io : Z -> list Z -> M (SdMmcResult ())) b buf
      (Q : _ -> SdMmc -> dma_state -> Prop), 0 <= b ->
    write_ok (fun _ s' => safe s' = true) io ->
    (forall r d' s', keeps_inv d s d' s' -> refused d (is_err r) -> Q r d' s') ->
    vwp (write_blocks_with io b buf) Q (op_dropped d s) (fun _ s' => safe s' = true) d s).
  { intros io b buf Q Hb Hio HQ. apply write_blocks_spec; auto. by split. }
  assert (Hu : forall b, 0 <= as_u32 b) by (intros b; apply as_u32_range).
  assert (Hmap : forall r : SdMmcResult (), is_ok (map_err r) = is_ok r) by (by intros []).
  destruct o; simpl in *; apply vwp_bind.
  - apply Hread; [done|by apply read_sync_ok|]. intros r d' s' Hk Hrf. by vstep.
  - apply Hread; [done|by apply read_async_ok|]. intros r d' s' Hk Hrf. by vstep.
  - apply Hwrite; [done|by apply write_dma_chunk_ok|]. intros r d' s' Hk Hrf. by vstep.
  - apply Hwrite; [done|by apply write_dma_chunk_async_ok|]. intros r d' s' Hk Hrf. by vstep.
  - unfold driver_read_block. vstep. case_match.
    { vstep. vstep. split; [by apply keeps_inv_refl|done]. }
    apply vwp_bind, Hread; [done|by apply read_sync_ok|]. intros r d' s' Hk Hrf. vstep. vstep.
    simpl. by rewrite Hmap.
  - unfold driver_write_block. vstep. case_match.
    { vstep. vstep. split; [by apply keeps_inv_refl|done]. }
    apply vwp_bind, Hwrite; [done|by apply write_dma_chunk_ok|]. intros r d' s' Hk Hrf. vstep. vstep.
    simpl. by rewrite Hmap.
Qed.

(** The invariant holds in every reachable state. *)
Lemma reachable_inv w : reachable w -> driver_inv (w_dev w) (mon w).
Proof.
  induction 1 as [w0 base reg_irq w Hlog Hnew|w o b w' _ IH Ho Hrun|w o w' _ IH Ho Hrun].
  - pose proof (vwp_run (new fuel base reg_irq)
      (fun r d s => r = Ok () -> driver_inv d s) (fun _ _ => True) (fun _ s => safe s = true) w0) as Hr.
    rewrite Hnew in Hr. apply Hr; [|done]. rewrite Hlog.
    apply new_spec; [done|done|done|done|]. by intros r d' s' Hi _ _.
  - pose proof (vwp_run _ _ _ _ w (run_op_spec o _ _ Ho IH)) as Hr. rewrite Hrun in Hr. apply Hr.
  - pose proof (vwp_run _ _ _ _ w (run_op_spec o _ _ Ho IH)) as Hr. rewrite Hrun in Hr. apply Hr.
Qed.


(** C19: no operation on a reachable driver panics (debug assertions included), and the log is
    free of violations however far the operation gets. *)
Theorem operations_never_panic w o :
  reachable w -> op_ok o ->
  (run_op o w).1 <> Panicked /\ safe (mon (run_op o w).2) = true.
Proof.
  intros Hw Ho. pose proof (vwp_run _ _ _ _ w (run_op_spec o _ _ Ho (reachable_inv w Hw))) as Hr.
  destruct (run_op o w).1; [destruct Hr as [Hr _]|destruct Hr as [Hr _]|done|done];
    (split; [done|apply Hr]).
Qed.

(** dropping the future of an operation at a suspension point faults the driver; the engine
    is stopped and the descriptors are freed, or else kept because it could not be stopped. *)
Theorem dropped_operation_faults w o w' :
  reachable w -> op_ok o -> run_op o w = (Cancelled, w') ->
  idmac_faulted (w_dev w') = true /\ safe (mon w') = true /\
  (idmac_reset_failed (w_dev w') = false ->
     running (mon w') = false /\ live (mon w') = buffer_allocs (w_dev w')).
Proof.
  intros Hw Ho Hrun. pose proof (vwp_run _ _ _ _ w (run_op_spec o _ _ Ho (reachable_inv w Hw))) as Hr.
  rewrite Hrun in Hr. destruct Hr as (((Hk & _ & Hi) & _) & Hf). split_and!; [done..|].
  simpl in *. intros Hrf. by rewrite Hrf in Hi.
Qed.

(** a faulted driver stays faulted, reports an error for every operation and issues no data
    command. *)
Theorem faulted_driver_is_inert w o b w' :
  reachable w -> op_ok o -> idmac_faulted (w_dev w) = true -> run_op o w = (Done b, w') ->
  b = false /\ idmac_faulted (w_dev w') = true /\ submitted (mon w') = submitted (mon w).
Proof.
  intros Hw Ho Hf Hrun. pose proof (vwp_run _ _ _ _ w (run_op_spec o _ _ Ho (reachable_inv w Hw))) as Hr.
  rewrite Hrun in Hr. destruct Hr as ((_ & (_ & _ & _ & Hm) & Hs) & Hrf). simpl in *.
  split_and!; [|by apply Hm|by apply Hs]. specialize (Hrf Hf). by destruct b.
Qed.

(** [Drop] returns, and frees exactly what the driver still holds: afterwards nothing is live,
    unless the engine could not be stopped, in which case its memory is kept. *)
Theorem drop_releases_memory w :
  reachable w ->
  exists w', sdmmc_drop w = (Done (), w') /\ safe (mon w') = true /\
    (idmac_reset_failed (w_dev w) = false -> live (mon w') = []) /\
    (idmac_reset_failed (w_dev w) = true -> live (mon w') = live (mon w)).
Proof.
  intros Hw. assert (Hv : vwp sdmmc_drop
    (fun _ _ s' => safe s' = true /\ (idmac_reset_failed (w_dev w) = false -> live s' = []) /\
       (idmac_reset_failed (w_dev w) = true -> live s' = live (mon w)))
    (fun _ _ => False) (fun _ _ => False) (w_dev w) (mon w)).
  { apply drop_spec; [by apply reachable_inv|]. intros d' s' Hk Hl Hs. split_and!; [done|done|].
    intros Hf. by rewrite (Hs Hf). }
  apply vwp_run in Hv. destruct (sdmmc_drop w) as [[[]| | |] w']; [|done..]. by exists w'.
Qed.

(** construction on a fresh log does not panic.  A successful one leaves a driver that knows
    a high-capacity card with a non-zero 16-bit address and a capacity of a positive multiple of
    1024 blocks, at most [2 ^ 32]; a failed one has released everything it allocated. *)
Theorem new_establishes_card w0 base reg_irq :
  w_log w0 = [] ->
  match new fuel base reg_irq w0 with
  | (Done (Ok _), w) => usable (w_dev w) /\ safe (mon w) = true
  | (Done (Err _), w) => live (mon w) = [] /\ safe (mon w) = true
  | (Diverged, w) => safe (mon w) = true
  | _ => False
  end.
Proof.
  intros Hlog. pose proof (vwp_run (new fuel base reg_irq)
    (fun r d s => safe s = true /\ (r = Ok () -> usable d) /\ (is_err r = true -> live s = []))
    (fun _ _ => False) (fun _ s => safe s = true) w0) as Hr.
  rewrite Hlog in Hr. lapply Hr.
  - destruct (new fuel base reg_irq w0) as [[[[]|e]| | |] w]; simpl; [..|done|done|done];
      intros (?&?&?); auto.
  - apply new_spec; [done|done|done|done|]. intros r d' s' Hi Hu Hl. eauto with sd.
Qed.

(** C37: a DMA transfer on a reachable driver, synchronous or asynchronous.  Success leaves the
    driver as it was and the engine quiet.  An error means that nothing was submitted and the
    driver is as before, or that the driver is now faulted. *)
Theorem failed_transfer_faults w command bus send :
  reachable w -> send = send_cmd_idmac fuel \/ send = send_cmd_idmac_async fuel ->
  match send command bus w with
  | (Done (Ok _), w') => w_dev w' = w_dev w /\ running (mon w') = false
  | (Done (Err _), w') =>
      (w_dev w' = w_dev w /\ submitted (mon w') = submitted (mon w)) \/ idmac_faulted (w_dev w') = true
  | (Cancelled, w') => idmac_faulted (w_dev w') = true
  | (Panicked, _) => False
  | (Diverged, _) => True
  end.
Proof.
  intros Hw Hsend. pose proof (reachable_inv w Hw) as Hi.
  pose proof (vwp_run (send command bus) (transfer_post (w_dev w) (mon w)) (dropped (w_dev w) (mon w))
    (fun _ _ => True) w) as Hr. lapply Hr; clear Hr.
  - destruct (send command bus w) as [[[resp|e]| | |] w']; simpl; [| | |done|done].
    + by intros (?&?&?&?).
    + intros [(?&(?&?&?)&?)|[(->&_)|(->&_)]]; auto.
    + by intros [(->&_)|(->&_)].
  - destruct Hsend as [-> | ->].
    + apply send_cmd_idmac_spec; [done|by eauto with sd|by apply driver_inv_running|done].
    + apply send_cmd_idmac_async_spec; [done|by eauto with sd|by apply driver_inv_running|done|done].
Qed.

End histories.

(** ** A concrete driver *)

(** The driver on the simulated controller of [Sim], freshly constructed. *)
Definition sim_ready (stall fail drop : bool) : world sim :=
  (new 100 0x1000 (fun h => (true, h)) (sim_start stall fail drop)).2.

Lemma run_pair {A} (m : machine sim A) (w : world sim) (o : outcome A) : (m w).1 = o -> m w = (o, (m w).2).
Proof. intros <-. apply surjective_pairing. Qed.

Lemma sim_ready_reachable stall fail drop : reachable 100 (sim_ready stall fail drop).
Proof.
  apply reach_new with (sim_start stall fail drop) 0x1000 (fun h => (true, h)); [done|].
  apply run_pair. destruct stall, fail, drop; vm_compute; reflexivity.
Qed.


Lemma operations_never_panic_witness :
  (run_op 100 (OpReadBlocks 3 (replicate 512 0)) (sim_ready false false false)).1 <> Panicked.
Proof.
  apply (operations_never_panic 100 _ (OpReadBlocks 3 (replicate 512 0))
    (sim_ready_reachable false false false)). simpl. lia.
Defined.

(** A read on a stalled controller, dropped at its first suspension. *)
Definition sim_dropped : world sim :=
  (run_op 100 (OpReadBlocksAsync 3 (replicate 512 0)) (sim_ready true false true)).2.

Lemma sim_dropped_run :
  run_op 100 (OpReadBlocksAsync 3 (replicate 512 0)) (sim_ready true false true)
    = (Cancelled, sim_dropped).
Proof.
  unfold sim_dropped.
  apply (run_pair (run_op 100 (OpReadBlocksAsync 3 (replicate 512 0))) (sim_ready true false true)).
  vm_compute. reflexivity.
Qed.

Lemma sim_dropped_reachable : reachable 100 sim_dropped.
Proof. eapply reach_cancelled, sim_dropped_run; [apply sim_ready_reachable|simpl; lia]. Qed.

Lemma dropped_operation_faults_witness : idmac_faulted (w_dev sim_dropped) = true.
Proof.
  refine (proj1 (dropped_operation_faults 100 _ _ _ (sim_ready_reachable true false true) _
    sim_dropped_run)). simpl. lia.
Defined.

(** The same driver afterwards. *)
Lemma faulted_driver_is_inert_witness :
  let r := run_op 100 (OpWriteBlocks 3 (replicate 512 0)) sim_dropped in
  submitted (monitor (w_log r.2)) = submitted (monitor (w_log sim_dropped)).
Proof.
  assert (Hf : idmac_faulted (w_dev sim_dropped) = true) by (vm_compute; reflexivity).
  assert (Ho : (run_op 100 (OpWriteBlocks 3 (replicate 512 0)) sim_dropped).1 = Done false)
    by (vm_compute; reflexivity).
  refine (proj2 (proj2 (faulted_driver_is_inert 100 _ _ _ _ sim_dropped_reachable _ Hf
    (run_pair _ _ _ Ho)))). simpl. lia.
Defined.

Lemma drop_releases_memory_witness :
  exists w', sdmmc_drop (sim_ready false false false) = (Done (), w') /\
    live (monitor (w_log w')) = [].
Proof.
  destruct (drop_releases_memory 100 _ (sim_ready_reachable false false false)) as (w' & Hd & _ & Hl & _).
  exists w'. split; [exact Hd|]. apply Hl. vm_compute. reflexivity.
Defined.

Lemma new_establishes_card_witness : usable (w_dev (sim_ready false false false)).
Proof.
  pose proof (new_establishes_card 100 (sim_start false false false) 0x1000
    (fun h => (true, h)) eq_refl) as H.
  rewrite (run_pair _ _ (Done (Ok ()))) in H by (vm_compute; reflexivity). exact (proj1 H).
Defined.

Lemma failed_transfer_faults_witness :
  let r := send_cmd_idmac 100 (ReadSingleBlock 3 (replicate 512 0)) 0x1000 (sim_ready false false false) in
  w_dev r.2 = w_dev (sim_ready false false false).
Proof.
  intros r. pose proof (failed_transfer_faults 100 _ (ReadSingleBlock 3 (replicate 512 0)) 0x1000
    _ (sim_ready_reachable false false false) (or_introl eq_refl)) as H.
  rewrite (run_pair _ _ (Done (Ok (Resp 0x900 0 0 0)))) in H by (vm_compute; reflexivity).
  exact (proj1 H).
Defined.
