(* ===== verification/Termination.v ===== *)
(** * Block operations terminate

    Every loop of the block operations is bounded by a deadline on one of the two clocks.  On a
    platform whose clocks advance by at least [tick] nanoseconds per reading, and with fuel for
    the longest timeout (five seconds), no operation runs out of fuel: whatever the controller
    and the card do, the source's loops end. *)

From S2P Require Import Prelude Bitfield Regs CardStatus Command Dma Machine Irq Logic Sim Driver Transfer Init BlockIo Plan Events DmaSafety Safety Lifecycle.

Create HintDb halts discriminated.

(** A platform with clocks that advance: [now] and [wall] are what the monotonic and the wall
    clock show.  No access turns them back, and each reading of a clock advances it. *)
Class TickingClock {HW} (P : Platform HW) (now wall : HW -> Z) (tick : Z) : Prop := {
  tick_pos : 0 < tick;
  tick_read r h : now h <= now (hw_read r h).2 /\ wall h <= wall (hw_read r h).2;
  tick_write r v h : now h <= now (hw_write r v h) /\ wall h <= wall (hw_write r v h);
  tick_resp h : now h <= now (hw_resp h).2 /\ wall h <= wall (hw_resp h).2;
  tick_fence h : now h <= now (hw_fence h) /\ wall h <= wall (hw_fence h);
  tick_desc_read a h : now h <= now (hw_desc_read a h).2 /\ wall h <= wall (hw_desc_read a h).2;
  tick_desc_write a d h : now h <= now (hw_desc_write a d h) /\ wall h <= wall (hw_desc_write a d h);
  tick_mem_write a bs h : now h <= now (hw_mem_write a bs h) /\ wall h <= wall (hw_mem_write a bs h);
  tick_alloc l h : now h <= now (hw_alloc l h).2 /\ wall h <= wall (hw_alloc l h).2;
  tick_dealloc i l h : now h <= now (hw_dealloc i l h) /\ wall h <= wall (hw_dealloc i l h);
  tick_irq h : now h <= now (hw_irq h).2 /\ wall h <= wall (hw_irq h).2;
  tick_await h : now h <= now (hw_await h).2 /\ wall h <= wall (hw_await h).2;
  tick_monotonic h :
    now h <= (hw_monotonic_time h).1 <= now (hw_monotonic_time h).2 /\
    now h + tick <= now (hw_monotonic_time h).2 /\ wall h <= wall (hw_monotonic_time h).2;
  tick_wall h :
    wall h <= (hw_wall_time h).1 <= wall (hw_wall_time h).2 /\
    wall h + tick <= wall (hw_wall_time h).2 /\ now h <= now (hw_wall_time h).2;
}.

Section termination.
Context {HW : Type} {P : Platform HW} {BF : BitfieldStruct} {BD : BitfieldDoc BF}.
Context (now wall : HW -> Z) (tick : Z) {T : TickingClock P now wall tick}.
Context (fuel : nat) (Hfuel : from_secs 5 <= (Z.of_nat fuel - 1) * tick).
Local Notation M := (machine HW).

(** [m] ends from [w], and the clocks have not gone back. *)
Definition ends {A} (m : M A) (w : world HW) : Prop :=
  (m w).1 <> Diverged /\ now (w_hw w) <= now (w_hw (m w).2) /\ wall (w_hw w) <= wall (w_hw (m w).2).

Definition halts {A} (m : M A) : Prop := forall w, ends m w.

(** ** Straight-line code *)

Lemma ends_bind {A B} (m : M A) (k : A -> M B) w :
  ends m w -> (forall a w', m w = (Done a, w') -> ends (k a) w') -> ends (m ≫= k) w.
Proof.
  unfold ends, mbind, machine_bind. intros (Hn & H1 & H2) Hk.
  destruct (m w) as [[a| | |] w'] eqn:Hm; simpl in *; try done.
  destruct (Hk a w' eq_refl) as (?&?&?). split_and!; [done|lia|lia].
Qed.

Lemma halts_bind {A B} (m : M A) (k : A -> M B) : halts m -> (forall a, halts (k a)) -> halts (m ≫= k).
Proof. intros Hm Hk w. apply ends_bind; [apply Hm|]. intros a w' _. apply Hk. Qed.

Lemma halts_ret {A} (a : A) : halts (mret a).
Proof. intros w. split_and!; [done|simpl; lia..]. Qed.
Lemma halts_panic {A} : halts (panic : M A).
Proof. intros w. split_and!; [done|simpl; lia..]. Qed.
Lemma halts_cancel {A} : halts (cancel : M A).
Proof. intros w. split_and!; [done|simpl; lia..]. Qed.
Lemma halts_get_dev {A} (f : SdMmc -> A) : halts (get_dev f : M A).
Proof. intros w. split_and!; [done|simpl; lia..]. Qed.
Lemma halts_set_dev f : halts (set_dev f : M ()).
Proof. intros w. split_and!; [done|simpl; lia..]. Qed.
Lemma halts_get_glob {A} (f : Globals -> A) : halts (get_glob f : M A).
Proof. intros w. split_and!; [done|simpl; lia..]. Qed.
Lemma halts_set_glob f : halts (set_glob f : M ()).
Proof. intros w. split_and!; [done|simpl; lia..]. Qed.
Lemma halts_emit e : halts (emit e : M ()).
Proof. intros w. split_and!; [done|simpl; lia..]. Qed.
Lemma halts_if {A} (b : bool) (m1 m2 : M A) : halts m1 -> halts m2 -> halts (if b then m1 else m2).
Proof. by destruct b. Qed.
Lemma halts_try_bind {X A B} (m : M (result X A)) (k : A -> M (result X B)) :
  halts m -> (forall a, halts (k a)) -> halts (try_bind m k).
Proof. intros Hm Hk. apply halts_bind; [done|]. intros [a|e]; [done|apply halts_ret]. Qed.
Lemma ends_on_cancel {A} (m : M A) (h : M ()) w : ends m w -> halts h -> ends (on_cancel m h) w.
Proof.
  intros (Hn & H1 & H2) Hh. unfold ends, on_cancel.
  destruct (m w) as [[a| | |] w'] eqn:Hw; simpl in *; try done.
  destruct (halts_bind h (fun _ => cancel : M A) Hh (fun _ => halts_cancel) w') as (?&?&?).
  split_and!; [done|lia|lia].
Qed.
Lemma halts_on_cancel {A} (m : M A) (h : M ()) : halts m -> halts h -> halts (on_cancel m h).
Proof. intros Hm Hh w. by apply ends_on_cancel. Qed.

Lemma halts_access {A} (f : HW -> A * HW) ev :
  (forall h, now h <= now (f h).2 /\ wall h <= wall (f h).2) -> halts (access f ev : M A).
Proof.
  intros Hf w. unfold ends, access. specialize (Hf (w_hw w)). destruct (f (w_hw w)); simpl in *. done.
Qed.

(** ** Accesses *)

Lemma halts_raw_read r : halts (raw_read r : M Z).
Proof. apply halts_access. intros h. pose proof (tick_read r h). by destruct (hw_read r h). Qed.
Lemma halts_raw_write r v : halts (raw_write r v : M ()).
Proof. apply halts_access. intros h. apply tick_write. Qed.
Lemma halts_raw_fence : halts (raw_fence : M ()).
Proof. apply halts_access. intros h. apply tick_fence. Qed.

Lemma halts_poll_irq : halts poll_irq.
Proof.
  unfold poll_irq, dma_irq_handler. apply halts_bind; [apply halts_access; intros h; apply tick_irq|].
  intros b. repeat first [apply halts_if | apply halts_ret | apply halts_emit | apply halts_get_glob
    | apply halts_set_glob | apply halts_raw_read | apply halts_raw_write | apply halts_raw_fence
    | apply halts_bind; intros].
Qed.

Lemma halts_task {A} (m : M A) : halts m -> halts (task m).
Proof. intros. by apply halts_bind; [apply halts_poll_irq|]. Qed.

Lemma halts_read r : halts (read r).
Proof. apply halts_task, halts_raw_read. Qed.
Lemma halts_write r v : halts (write r v).
Proof. apply halts_task, halts_raw_write. Qed.
Lemma halts_update r f : halts (update r f).
Proof. apply halts_bind; [apply halts_read|]. intros v. apply halts_write. Qed.
Lemma halts_fence : halts dma_io_fence.
Proof. apply halts_task, halts_raw_fence. Qed.
Lemma halts_read_resp : halts read_resp.
Proof. apply halts_task, halts_access. intros h. pose proof (tick_resp h). by destruct (hw_resp h). Qed.
Lemma halts_desc_read a : halts (desc_read a).
Proof. apply halts_task, halts_access. intros h. pose proof (tick_desc_read a h). by destruct (hw_desc_read a h). Qed.
Lemma halts_desc_write a d : halts (desc_write a d).
Proof. apply halts_task, halts_access. intros h. apply tick_desc_write. Qed.
Lemma halts_mem_read a n : halts (mem_read a n).
Proof. apply halts_task, halts_access. intros h. simpl. lia. Qed.
Lemma halts_mem_write a bs : halts (mem_write a bs).
Proof. apply halts_task, halts_access. intros h. apply tick_mem_write. Qed.
Lemma halts_alloc l : halts (alloc_coherent l).
Proof. apply halts_task, halts_access. intros h. apply tick_alloc. Qed.
Lemma halts_dealloc i l : halts (dealloc_coherent i l).
Proof. apply halts_task, halts_access. intros h. apply tick_dealloc. Qed.
Lemma halts_monotonic_time : halts monotonic_time.
Proof. apply halts_task, halts_access. intros h. pose proof (tick_monotonic h). pose proof tick_pos. lia. Qed.
Lemma halts_wall_time : halts wall_time.
Proof. apply halts_task, halts_access. intros h. pose proof (tick_wall h). pose proof tick_pos. lia. Qed.
Lemma halts_load {A} (f : Globals -> A) : halts (load f).
Proof. apply halts_task, halts_get_glob. Qed.
Lemma halts_store f : halts (store f).
Proof. apply halts_task, halts_set_glob. Qed.
Lemma halts_await : halts await_point.
Proof.
  apply halts_bind; [apply halts_task, halts_access; intros h; apply tick_await|].
  intros []; [apply halts_ret|apply halts_cancel].
Qed.
Lemma halts_read_all rs : halts (read_all rs).
Proof.
  induction rs as [|r rs IH]; [apply halts_ret|].
  change (read_all (r :: rs)) with (read r;; read_all rs : M ()).
  apply halts_bind; [apply halts_read|done].
Qed.
Lemma halts_log_reads l rs : halts (log_reads l rs).
Proof. apply halts_if; [apply halts_read_all|apply halts_ret]. Qed.
Lemma halts_debug_assert b : halts (debug_assert b).
Proof. apply halts_if; [apply halts_panic|apply halts_ret]. Qed.

#[local] Hint Resolve halts_ret halts_panic halts_cancel halts_get_dev halts_set_dev halts_get_glob
  halts_set_glob halts_emit halts_poll_irq halts_read halts_write halts_update halts_fence
  halts_read_resp halts_desc_read halts_desc_write halts_mem_read halts_mem_write halts_alloc
  halts_dealloc halts_monotonic_time halts_wall_time halts_load halts_store halts_await
  halts_read_all halts_log_reads halts_debug_assert : halts.

(** Straight-line code halts when its loops and accesses do. *)
Ltac halt_step :=
  first
    [ solve [eauto 2 with halts]
    | match goal with
      | |- forall _, _ => intro
      | |- halts (try_bind _ _) => apply halts_try_bind
      | |- halts (_ ≫= _) => apply halts_bind
      | |- halts (on_cancel _ _) => apply halts_on_cancel
      | |- halts (if _ then _ else _) => case_match
      | |- halts (match _ with _ => _ end) => case_match
      end ].
Ltac halt := cbv zeta beta; repeat (halt_step; cbv beta zeta).

(** ** Loops with a deadline *)

(** After a reading of the clock, the time read has been reached. *)
Lemma ends_monotonic {B} (k : Z -> M B) w :
  (forall t w', now (w_hw w) <= t -> t <= now (w_hw w') -> now (w_hw w) + tick <= now (w_hw w') ->
     wall (w_hw w) <= wall (w_hw w') -> ends (k t) w') ->
  ends (monotonic_time ≫= k) w.
Proof.
  intros Hk. apply ends_bind; [apply halts_monotonic_time|].
  intros t w' Hr. unfold monotonic_time, task, mbind, machine_bind in Hr.
  destruct (halts_poll_irq w) as (_ & H1 & H2).
  destruct (poll_irq w) as [[[]| | |] w1]; try done. simpl in *.
  unfold access in Hr. pose proof (tick_monotonic (w_hw w1)) as Ht.
  destruct (hw_monotonic_time (w_hw w1)) as [t' h]. injection Hr as <- <-. simpl in *.
  apply Hk; simpl; lia.
Qed.

Lemma ends_wall {B} (k : Z -> M B) w :
  (forall t w', wall (w_hw w) <= t -> t <= wall (w_hw w') -> wall (w_hw w) + tick <= wall (w_hw w') ->
     now (w_hw w) <= now (w_hw w') -> ends (k t) w') ->
  ends (wall_time ≫= k) w.
Proof.
  intros Hk. apply ends_bind; [apply halts_wall_time|].
  intros t w' Hr. unfold wall_time, task, mbind, machine_bind in Hr.
  destruct (halts_poll_irq w) as (_ & H1 & H2).
  destruct (poll_irq w) as [[[]| | |] w1]; try done. simpl in *.
  unfold access in Hr. pose proof (tick_wall (w_hw w1)) as Ht.
  destruct (hw_wall_time (w_hw w1)) as [t' h]. injection Hr as <- <-. simpl in *.
  apply Hk; simpl; lia.
Qed.

Lemma ends_assoc {A B C} (m : M A) (f : A -> M B) (k : B -> M C) w :
  ends (m ≫= fun a => f a ≫= k) w -> ends ((m ≫= f) ≫= k) w.
Proof. unfold ends, mbind, machine_bind. by destruct (m w) as [[] ?]. Qed.

Lemma ends_deadline_passed {B} deadline (k : bool -> M B) w :
  halts (k true) ->
  (forall t w', now (w_hw w) <= t -> t < deadline -> now (w_hw w) + tick <= now (w_hw w') ->
     ends (k false) w') ->
  ends (deadline_passed (Some deadline) ≫= k) w.
Proof.
  intros Ht Hf. apply ends_assoc, ends_monotonic. intros t w' ????.
  unfold mret, machine_ret, mbind, machine_bind, ends. simpl.
  destruct (Z.leb_spec deadline t); [apply Ht|]. by apply (Hf t).
Qed.

(** [n] readings of the clock take it to [deadline]. *)
Definition enough (n : nat) (deadline clock : Z) : Prop :=
  (0 < n)%nat /\ deadline <= clock + (Z.of_nat n - 1) * tick.

(** Another iteration: the clock has not reached the deadline, and has advanced. *)
Lemma enough_step n deadline c t c' :
  enough (S n) deadline c -> c <= t -> t < deadline -> c + tick <= c' -> enough n deadline c'.
Proof. pose proof tick_pos. intros [_ H1] ???. split; [|nia]. destruct n; [|lia]. lia. Qed.

Lemma enough_mono n deadline c c' : enough n deadline c -> c <= c' -> enough n deadline c'.
Proof. intros [? ?] ?. split; [done|lia]. Qed.

Lemma enough_fuel d t c : d <= from_secs 5 -> t <= c -> enough fuel (t + d) c.
Proof. pose proof tick_pos. intros ??. split; [|lia]. unfold from_secs in *. destruct fuel; [nia|lia]. Qed.

Lemma ends_poll_until n cond deadline w :
  halts cond -> enough n deadline (now (w_hw w)) -> ends (poll_until n cond deadline) w.
Proof.
  intros Hc. revert w. induction n as [|n IH]; intros w Hn; [by destruct Hn; lia|].
  cbn [poll_until]. apply ends_bind; [apply Hc|]. intros c w1 H1.
  destruct (Hc w) as (_ & Hm & _). rewrite H1 in Hm. simpl in Hm.
  destruct c; [apply halts_ret|]. apply ends_monotonic. intros t w2 ????.
  destruct (Z.leb_spec deadline t); [apply halts_ret|].
  apply IH. eapply enough_step; [done| |done|]; lia.
Qed.

Lemma halts_deadline_poll {B} cond d (k : bool -> M B) :
  d <= from_secs 5 -> halts cond -> (forall b, halts (k b)) ->
  halts (t ← monotonic_time; poll_until fuel cond (t + d) ≫= k).
Proof.
  intros Hd Hc Hk w. apply ends_monotonic. intros t w1 ????.
  apply ends_bind; [|intros; apply Hk]. apply ends_poll_until; [done|]. by apply enough_fuel.
Qed.

Lemma halts_deadline_poll_ret cond d :
  d <= from_secs 5 -> halts cond -> halts (t ← monotonic_time; poll_until fuel cond (t + d)).
Proof.
  intros Hd Hc w. apply ends_monotonic. intros t w1 ????.
  apply ends_poll_until; [done|]. by apply enough_fuel.
Qed.

Ltac deadline := apply halts_deadline_poll; [unfold START_CMD_SPIN_TIMEOUT, IDMAC_COMMAND_TIMEOUT,
  IDMAC_DATA_WATCHDOG_TIMEOUT, from_secs, from_millis; lia| |intros].

(** ** The driver *)

Lemma halts_can_send_cmd : halts can_send_cmd.
Proof.
  unfold can_send_cmd. halt.
Qed.
Lemma halts_can_send_data : halts can_send_data. Proof. unfold can_send_data. halt. Qed.
Lemma halts_command_finished : halts command_finished. Proof. unfold command_finished. halt. Qed.
Lemma halts_acknowledge r : halts (acknowledge r). Proof. unfold acknowledge. halt. Qed.
Lemma halts_clear_idsts : halts clear_idsts. Proof. unfold clear_idsts. halt. Qed.
Lemma halts_set_transaction_size a b : halts (set_transaction_size a b).
Proof. unfold set_transaction_size. halt. Qed.
#[local] Hint Resolve halts_can_send_cmd halts_can_send_data halts_command_finished halts_acknowledge
  halts_clear_idsts halts_set_transaction_size : halts.

Lemma halts_reset_idmac : halts (reset_idmac fuel).
Proof.
  unfold reset_idmac. do 3 (apply halts_bind; [eauto with halts|intros _]).
  deadline; unfold idmac_reset_done; halt.
Qed.
#[local] Hint Resolve halts_reset_idmac : halts.

Lemma halts_finish context abort : halts (finish_idmac_transfer fuel context abort).
Proof. unfold finish_idmac_transfer. halt. Qed.
#[local] Hint Resolve halts_finish : halts.

Lemma halts_abort context error : halts (abort_idmac_transfer fuel context error).
Proof. unfold abort_idmac_transfer. halt. Qed.
#[local] Hint Resolve halts_abort : halts.

Lemma halts_count_owned ptr n : halts (count_owned ptr n).
Proof. revert ptr. induction n; intros; simpl; halt. Qed.
#[local] Hint Resolve halts_count_owned : halts.
Lemma halts_descriptor_owned_count context : halts (descriptor_owned_count context).
Proof. apply halts_count_owned. Qed.
#[local] Hint Resolve halts_descriptor_owned_count : halts.
Lemma halts_descriptor_owned context : halts (descriptor_owned context).
Proof. unfold descriptor_owned. halt. Qed.
Lemma halts_card_error context : halts (descriptor_card_error context).
Proof.
  unfold descriptor_card_error. generalize (ctx_desc_ptr context). induction (Z.to_nat _); intros; simpl; halt.

Qed.
Lemma halts_write_descriptors ptr ds : halts (write_descriptors ptr ds).
Proof. revert ptr. induction ds; intros; simpl; halt. Qed.
#[local] Hint Resolve halts_descriptor_owned halts_card_error halts_write_descriptors : halts.

Lemma halts_idle_short : halts (wait_for_transfer_idle_short fuel).
Proof.
  intros w. apply ends_monotonic. intros t w1 Ht1 Ht2 _ _.
  assert (Hn : enough fuel (t + PRE_SUBMIT_IDLE_SPIN_TIMEOUT) (now (w_hw w1)))
    by (apply enough_fuel; [by vm_compute|done]).
  clear -T Hn. revert w1 Hn. generalize fuel. intros n. generalize (t + PRE_SUBMIT_IDLE_SPIN_TIMEOUT).
  induction n as [|n IH]; intros dl w1 Hn; [by destruct Hn; lia|]. cbn [idle_short_loop].
  apply ends_bind; [apply halts_can_send_cmd|]. intros c w2 H2.
  apply ends_bind; [apply halts_can_send_data|]. intros e w3 H3.
  destruct (halts_can_send_cmd w1) as (_ & Hm1 & _). rewrite H2 in Hm1.
  destruct (halts_can_send_data w2) as (_ & Hm2 & _). rewrite H3 in Hm2. simpl in *.
  destruct (c && e); [apply halts_ret|]. apply ends_monotonic. intros t' w4 ????.
  destruct (Z.leb_spec dl t').
  - apply halts_bind; [apply halts_log_reads|]. intros. apply halts_ret.
  - apply IH. eapply enough_step; [done| |done|]; lia.
Qed.
#[local] Hint Resolve halts_idle_short : halts.

Lemma halts_prepare command bus : halts (prepare_idmac_transfer fuel command bus).
Proof. unfold prepare_idmac_transfer, publish_descriptors. halt. Qed.

Lemma halts_begin_transfer : halts begin_transfer.
Proof. unfold begin_transfer. halt. Qed.
#[local] Hint Resolve halts_begin_transfer : halts.

Lemma halts_start context : halts (start_idmac_transfer fuel context).
Proof.
  unfold start_idmac_transfer. do 5 (apply halts_bind; [eauto with halts|intros]).
  deadline; unfold command_taken; halt.
Qed.

Lemma halts_snapshot_bits g : halts (snapshot_bits g). Proof. unfold snapshot_bits. halt. Qed.
#[local] Hint Resolve halts_snapshot_bits : halts.
Lemma halts_completion_status g : halts (idmac_completion_status g).
Proof. unfold idmac_completion_status. halt. Qed.
Lemma halts_has_error a b : halts (idmac_status_has_error a b).
Proof. unfold idmac_status_has_error. halt. Qed.
#[local] Hint Resolve halts_prepare halts_start halts_completion_status halts_has_error : halts.
Lemma halts_command_done context : halts (idmac_command_done_or_error context).
Proof. unfold idmac_command_done_or_error. halt. Qed.
Lemma halts_terminal_events context : halts (idmac_terminal_events_or_error context).
Proof. unfold idmac_terminal_events_or_error. halt. Qed.
Lemma halts_validate context : halts (validate_idmac_terminal context).
Proof. unfold validate_idmac_terminal. halt. Qed.
Lemma halts_check_status context : halts (check_status context).
Proof. unfold check_status. halt. Qed.
#[local] Hint Resolve halts_command_done halts_terminal_events halts_validate halts_check_status : halts.

(** ** Waiting for a transfer *)

Lemma halts_wait_sync context : halts (wait_transfer_sync fuel context).
Proof.
  assert (Hend : halts (now ← monotonic_time;
    finished ← poll_until fuel (idmac_terminal_events_or_error context) (now + IDMAC_DATA_WATCHDOG_TIMEOUT);
    if negb finished then mret (Err DataTimeout) else check_status context)) by (deadline; halt).
  assert (Hcmd : halts (now ← monotonic_time;
    poll_until fuel (idmac_command_done_or_error context) (now + IDMAC_COMMAND_TIMEOUT))).
  { apply halts_deadline_poll_ret; [unfold IDMAC_COMMAND_TIMEOUT, from_secs; lia|halt]. }
  unfold wait_transfer_sync. halt.
Qed.

Lemma halts_wait_timeout d condition :
  d <= from_secs 5 -> halts condition -> halts (wait_timeout_until_async fuel d condition).
Proof.
  intros Hd Hc w. apply ends_wall. intros t w1 Ht1 Ht2 _ _.
  assert (Hn : enough fuel (t + d) (wall (w_hw w1))) by by apply enough_fuel.
  clear -T Hn Hc. revert w1 Hn. generalize fuel. intros n. generalize (t + d).
  induction n as [|n IH]; intros dl w1 Hn; [by destruct Hn; lia|]. cbn [wait_timeout_loop].
  apply ends_bind; [apply Hc|]. intros c w2 H2.
  destruct (Hc w1) as (_ & _ & Hm1). rewrite H2 in Hm1. simpl in *.
  destruct c; [apply halts_ret|]. apply ends_wall. intros t' w3 Hu1 Hu2 Hu3 Hu4.
  destruct (Z.leb_spec dl t') as [|Hlt]; [apply halts_ret|].
  apply ends_bind; [apply Hc|]. intros c w4 H4.
  destruct (Hc w3) as (_ & _ & Hm3). rewrite H4 in Hm3. simpl in *.
  destruct c; [apply halts_ret|]. apply ends_bind; [apply halts_await|]. intros [] w5 H5.
  destruct (halts_await w4) as (_ & _ & Hm4). rewrite H5 in Hm4. simpl in *.
  apply IH. eapply enough_step; [done| |done|]; lia.
Qed.

Lemma halts_wait_async context : halts (wait_transfer_async fuel context).
Proof.
  unfold wait_transfer_async. halt;
    (apply halts_wait_timeout; [unfold IDMAC_COMMAND_TIMEOUT, IDMAC_DATA_WATCHDOG_TIMEOUT, from_secs; lia|halt]).
Qed.
#[local] Hint Resolve halts_wait_sync halts_wait_async : halts.

Lemma halts_conclude context waited : halts (conclude_transfer fuel context waited).
Proof. unfold conclude_transfer, fail_transfer, active_fault, active_finish, validated_response. halt. Qed.
Lemma halts_active_drop t : halts (active_drop fuel t).
Proof. unfold active_drop. halt. Qed.
#[local] Hint Resolve halts_conclude halts_active_drop : halts.

Lemma halts_send_cmd_idmac command bus : halts (send_cmd_idmac fuel command bus).
Proof. unfold send_cmd_idmac. halt. Qed.
Lemma halts_send_cmd_idmac_async command bus : halts (send_cmd_idmac_async fuel command bus).
Proof. unfold send_cmd_idmac_async. halt. Qed.
#[local] Hint Resolve halts_send_cmd_idmac halts_send_cmd_idmac_async : halts.

(** ** Commands under an overall deadline *)

(** [m] halts when the fuel is enough for a wait until [deadline]. *)
Definition within {A} (deadline : Z) (m : M A) : Prop :=
  forall w, enough fuel deadline (now (w_hw w)) -> ends m w.

Lemma within_halts {A} deadline (m : M A) : halts m -> within deadline m.
Proof. intros Hm w _. apply Hm. Qed.

Lemma within_bind {A B} deadline (m : M A) (k : A -> M B) :
  within deadline m -> (forall a, within deadline (k a)) -> within deadline (m ≫= k).
Proof.
  intros Hm Hk w Hw. apply ends_bind; [by apply Hm|]. intros a w' Hr. apply Hk.
  destruct (Hm w Hw) as (_ & Hmono & _). rewrite Hr in Hmono. by eapply enough_mono.
Qed.

Lemma within_wait_sendable deadline count :
  within deadline (wait_sendable fuel count (Some deadline)).
Proof.
  unfold within. clear -T. revert count. generalize fuel. intros n.
  induction n as [|n IH]; intros count w Hn; [by destruct Hn; lia|]. cbn [wait_sendable].
  apply ends_bind; [apply halts_can_send_cmd|]. intros c w1 H1.
  destruct (halts_can_send_cmd w) as (_ & Hm & _). rewrite H1 in Hm. simpl in *.
  destruct c; [apply halts_ret|]. case_match; [apply halts_ret|].
  apply ends_deadline_passed; [apply halts_ret|]. intros t w2 ???.
  apply IH. eapply enough_step; [done| |done|]; lia.
Qed.

(** Waiting for a phase of a command takes at most a second. *)
Lemma halts_phase_poll {B} o cond (k : bool -> M B) :
  halts cond -> (forall b, halts (k b)) ->
  halts (deadline ← phase_deadline o; poll_until fuel cond deadline ≫= k).
Proof.
  intros Hc Hk w. apply ends_assoc, ends_monotonic. intros t w' ????.
  unfold mret, machine_ret, mbind, machine_bind, ends at 1. simpl.
  apply (ends_bind (poll_until fuel cond _) k w'); [|intros; apply Hk].
  apply ends_poll_until; [done|].
  assert (Hs : enough fuel (t + from_secs 1) (now (w_hw w')))
    by (apply enough_fuel; [unfold from_secs; lia|done]).
  destruct o; [|done]. destruct Hs. split; [done|lia].
Qed.

(** The status query moves no data. *)
Lemma within_send_status arg deadline :
  within deadline (send_cmd_with_deadline fuel (SendStatus arg) (Some deadline)).
Proof.
  unfold send_cmd_with_deadline. pose proof (built_data_expected (SendStatus arg)) as Hd.
  unfold built_cmd, built_xfer in Hd. simpl in *. rewrite Hd, eqb_reflx. simpl.
  apply within_bind; [apply within_wait_sendable|]. intros [].
  apply within_bind; [apply within_halts; halt|]. intros []; simpl; [|apply within_halts; halt].
  do 4 (apply within_bind; [apply within_halts; halt|intros _]).
  apply within_bind; [apply within_wait_sendable|]. intros [].
  apply within_bind; [apply within_halts; halt|]. intros []; simpl; apply within_halts; [|halt].
  assert (Hph : halts (deadline0 ← phase_deadline (Some deadline);
       ok ← poll_until fuel command_finished deadline0;
       (if (ok : bool) then mret () else log_reads LWarn [R_status; R_rintsts]);; mret ok))
    by (apply halts_phase_poll; halt).
  unfold finish_cmd. simpl. halt.
Qed.

(** ** Waiting for the card *)

Lemma halts_card_ready : halts (wait_card_ready_after_write fuel).
Proof. unfold wait_card_ready_after_write. apply halts_deadline_poll; [done|halt|halt]. Qed.

(** One iteration of the loop, after the test of the deadline. *)
Lemma ends_busy_iteration n deadline arg w :
  enough fuel deadline (now (w_hw w)) ->
  (forall w', now (w_hw w) + tick <= now (w_hw w') -> ends (busy_loop fuel n deadline arg true) w') ->
  ends (r ← send_cmd_with_deadline fuel (SendStatus arg) (Some deadline);
        match r.1 with
        | Err error => monotonic_time;; read R_status;; read_resp;; busy_guard_fault;; mret (Err error)
        | Ok response =>
            controller_status ← read R_status;
            monotonic_time;;
            if card_ready (from_raw (resp0 response)) controller_status then mret (Ok ())
            else
              t ← monotonic_time;
              (if t <? deadline then await_point else mret ());;
              busy_loop fuel n deadline arg true
        end) w.
Proof.
  intros Hn IH. apply ends_bind; [by apply within_send_status|]. intros [[resp|e] buf] w1 H1.
  2: { revert w1 H1. unfold busy_guard_fault. simpl. intros w1 _. revert w1. change (halts
       (monotonic_time;; read R_status;; read_resp;; set_dev (set_faulted true);; mret (Err e) : M (SdMmcResult ()))).
       halt. }
  destruct (within_send_status arg deadline w Hn) as (_ & Hm1 & _). rewrite H1 in Hm1. simpl in *.
  apply ends_bind; [apply halts_read|]. intros st w2 H2.
  destruct (halts_read R_status w1) as (_ & Hm2 & _). rewrite H2 in Hm2. simpl in *.
  apply ends_monotonic. intros t w3 ????. case_match; [apply halts_ret|].
  apply ends_monotonic. intros t' w4 ????.
  assert (Ha : halts (if t' <? deadline then await_point else mret () : M ())) by halt.
  apply ends_bind; [apply Ha|]. intros [] w5 Hr5.
  destruct (Ha w4) as (_ & Hm5 & _). rewrite Hr5 in Hm5. simpl in *. apply IH. pose proof tick_pos. lia.
Qed.

Lemma ends_busy_loop n deadline arg w :
  enough fuel deadline (now (w_hw w)) -> enough n deadline (now (w_hw w)) ->
  ends (busy_loop fuel n deadline arg true) w.
Proof.
  revert w. induction n as [|n IH]; intros w Hf Hn; [by destruct Hn; lia|]. cbn [busy_loop].
  apply (ends_deadline_passed deadline); [unfold busy_guard_fault; halt|]. intros t w1 H1 H2 H3.
  pose proof tick_pos. apply ends_busy_iteration; [eapply enough_mono; [done|lia]|].
  intros w2 H4. apply IH; [eapply enough_mono; [done|lia]|]. eapply enough_step; [done..|lia].
Qed.

(** The first iteration does not test the deadline. *)
Lemma ends_busy_start n deadline arg w :
  (2 <= n)%nat -> enough fuel deadline (now (w_hw w)) -> enough n deadline (now (w_hw w)) ->
  ends (busy_loop fuel n deadline arg false) w.
Proof.
  intros H2 Hf Hn. destruct n as [|n]; [lia|]. cbn [busy_loop]. pose proof tick_pos.
  apply ends_busy_iteration; [done|]. intros w' Hw.
  apply ends_busy_loop; [eapply enough_mono; [done|lia]|]. destruct Hn. split; [lia|nia].
Qed.

Lemma halts_card_ready_async : halts (wait_card_ready_after_write_async fuel).
Proof.
  unfold wait_card_ready_after_write_async. do 3 (apply halts_bind; [eauto with halts|intros _]).
  intros w. apply ends_monotonic. intros t w1 _ Ht _ _.
  apply ends_bind; [apply halts_get_dev|]. intros r w2 [= _ <-].
  apply ends_on_cancel; [|unfold busy_guard_drop; halt].
  apply ends_busy_start; [|by apply enough_fuel..].
  pose proof tick_pos. unfold from_secs in Hfuel. nia.
Qed.
#[local] Hint Resolve halts_card_ready halts_card_ready_async : halts.

(** ** Block operations *)

Lemma halts_run_reads io plan done :
  (forall b buf, halts (io b buf)) -> halts (run_reads io plan done).
Proof. intros Hio. revert done. induction plan as [|[b c] plan IH]; intros done; simpl; halt. Qed.
Lemma halts_run_writes io plan : (forall b buf, halts (io b buf)) -> halts (run_writes io plan).
Proof. intros Hio. induction plan as [|[b c] plan IH]; simpl; halt. Qed.

Lemma halts_read_blocks io block buf :
  0 <= block -> (forall b c, halts (io b c)) -> halts (read_blocks_with io block buf).
Proof.
  intros Hb Hio w. unfold read_blocks_with. apply ends_bind; [apply halts_get_dev|]. intros d w' [= <- <-].
  destruct (validate_block_buffer _ _ _) as [blocks|e] eqn:Hv; [|apply halts_ret].
  apply validate_block_buffer_ok in Hv as (?&?&->&?&?&?); [|unfold id, len in *; lia..].
  unfold ends. rewrite (read_loop_plan _ _ _ _ _ (len buf / BLOCK_SIZE)); [by apply halts_run_reads| | |done|done|lia].
  - apply Z.div_pos; [lia|done].
  - rewrite Z.mul_comm. by apply Z_div_exact_full_2.
Qed.

Lemma halts_write_blocks io block buf :
  0 <= block -> (forall b c, halts (io b c)) -> halts (write_blocks_with io block buf).
Proof.
  intros Hb Hio w. unfold write_blocks_with. apply ends_bind; [apply halts_get_dev|]. intros d w' [= <- <-].
  destruct (validate_block_buffer _ _ _) as [blocks|e] eqn:Hv; [|apply halts_ret].
  change (ends (write_loop io (S (length buf)) block buf) w). unfold ends.
  apply validate_block_buffer_ok in Hv as (?&?&->&?&?&?); [|unfold id, len in *; lia..].
  rewrite (write_loop_plan _ _ _ _ (len buf / BLOCK_SIZE)); [by apply halts_run_writes| | |done|done|lia].
  - apply Z.div_pos; [lia|done].
  - rewrite Z.mul_comm. by apply Z_div_exact_full_2.
Qed.

Lemma halts_read_chunk send block buf :
  (forall c b, halts (send c b)) -> halts (read_dma_chunk_with send block buf).
Proof. intros. unfold read_dma_chunk_with, check_read_chunk. halt. Qed.
Lemma halts_write_chunk block buf : halts (write_dma_chunk fuel block buf).
Proof. unfold write_dma_chunk, check_write_chunk. halt. Qed.
Lemma halts_write_chunk_async block buf : halts (write_dma_chunk_async fuel block buf).
Proof. unfold write_dma_chunk_async, check_write_chunk. halt. Qed.
#[local] Hint Resolve halts_read_chunk halts_write_chunk halts_write_chunk_async : halts.

(** C31: every block operation terminates.  On a platform whose clocks advance by at least
    [tick] nanoseconds per reading, fuel for five seconds is enough for every loop of a read or
    write, synchronous, asynchronous or through the adapter, from any state and whatever
    controller and card do: the operation returns or is dropped at a suspension point. *)
Theorem block_operations_terminate o w : op_ok o -> (run_op fuel o w).1 <> Diverged.
Proof.
  intros Ho. cut (halts (run_op fuel o)); [intros H; apply H|].
  assert (Hu : forall b, 0 <= as_u32 b) by (intros b; apply as_u32_range).
  destruct o; simpl in *; unfold driver_read_block, driver_write_block; halt;
    (apply halts_read_blocks || apply halts_write_blocks); auto; intros; unfold read_dma_chunk, read_dma_chunk_async;
    eauto with halts.
Qed.

End termination.

(** ** A concrete clock *)

(** The simulated clocks advance by ten milliseconds at each reading. *)
Lemma sim_dma_time b n h : sim_time (sim_dma b n h) = sim_time h.
Proof. unfold sim_dma. case_match; [|done]. by destruct (foldl _ _ _) as [[??]?]. Qed.

Lemma sim_write_time r v h : sim_time (sim_write r v h) = sim_time h.
Proof.
  destruct r; try done. unfold sim_write, sim_command.
  repeat case_match; try done. by rewrite sim_dma_time.
Qed.

#[export] Instance sim_ticking : TickingClock sim_platform sim_time sim_time 10000000.
Proof. split; intros; simpl; rewrite ?sim_write_time; lia. Qed.

(** A read from a controller whose DMA transfers hang. *)
Lemma block_operations_terminate_witness :
  (run_op 501 (OpReadBlocksAsync 3 (replicate 512 0)) (sim_ready true false false)).1 <> Diverged.
Proof.
  apply (block_operations_terminate sim_time sim_time 10000000 501); simpl; unfold from_secs; lia.
Defined.
