(* ===== verification/Races.v ===== *)
(** * The interrupt handler against the task

    What the completion snapshot ([IdmacCompletion]) delivers to the transfer that reads it, and
    two interleavings of handler and task in which status bits reach the wrong reader. *)

From S2P Require Import Prelude Bitfield Regs CardStatus Command Dma Machine Irq Logic Sim Driver Transfer Init BlockIo Lifecycle.

(** ** The snapshot of a transfer *)

(** The union of what a sequence of interrupts saw. *)
Definition seen (irqs : list (Z * Z)) : Z * Z :=
  (foldr (fun p acc => Z.lor p.1 acc) 0 irqs, foldr (fun p acc => Z.lor p.2 acc) 0 irqs).

Definition record_all (irqs : list (Z * Z)) (c : IdmacCompletion) : IdmacCompletion :=
  foldl (fun c p => record_irq p.1 p.2 c) c irqs.

Lemma record_all_seen irqs c :
  generation c <> 0 -> irqs <> [] ->
  record_all irqs c = mk_completion (generation c) (generation c)
    (Z.lor (rintsts_bits c) (seen irqs).1) (Z.lor (idsts_bits c) (seen irqs).2).
Proof.
  intros Hg. revert c Hg. induction irqs as [|[r i] irqs IH]; intros c Hg Hn; [done|].
  assert (Hr : record_irq r i c = mk_completion (generation c) (generation c)
    (Z.lor (rintsts_bits c) r) (Z.lor (idsts_bits c) i))
    by (unfold record_irq; by rewrite (proj2 (Z.eqb_neq _ _))).
  unfold record_all in *. simpl. rewrite Hr. destruct irqs as [|p irqs].
  - simpl. by rewrite !Z.lor_0_r.
  - rewrite IH by done. simpl. by rewrite !Z.lor_assoc.
Qed.

Section snapshot.
Context {HW : Type} {P : Platform HW} {BF : BitfieldStruct}.
Context (Hquiet : forall h, (hw_irq h).1 = false).
Local Notation M := (machine HW).

(** Without an interrupt, a task-level access is the access. *)
Lemma poll_irq_quiet w :
  exists h, poll_irq w = (Done (), World (w_dev w) (w_glob w) h (w_log w)).
Proof.
  unfold poll_irq, access, mbind, machine_bind. pose proof (Hquiet (w_hw w)) as Hq.
  destruct (hw_irq (w_hw w)) as [b h]. simpl in Hq. subst b. by eexists.
Qed.

Lemma task_quiet {A} (m : M A) w :
  exists h, task m w = m (World (w_dev w) (w_glob w) h (w_log w)).
Proof.
  destruct (poll_irq_quiet w) as [h Hp]. exists h.
  unfold task, mbind, machine_bind. by rewrite Hp.
Qed.

Ltac quiet :=
  match goal with
  | |- context [task ?m ?w] => destruct (task_quiet m w) as [? ->]
  | |- context [poll_irq ?w] => destruct (poll_irq_quiet w) as [? ->]
  end; simpl.

Lemma begin_transfer_quiet w :
  let g := wrapping_add_usize (generation (IDMAC_COMPLETION (w_glob w))) 1 in
  exists h, begin_transfer w
    = (Done g, World (w_dev w) (set_completion (fun _ => mk_completion g 0 0 0) (w_glob w)) h (w_log w)).
Proof.
  unfold begin_transfer, store, mbind, machine_bind. do 4 quiet. by eexists.
Qed.

Lemma snapshot_bits_quiet g w :
  let c := IDMAC_COMPLETION (w_glob w) in
  (snapshot_bits g w).1
    = Done (if snapshot_generation c =? g then Some (rintsts_bits c, idsts_bits c) else None).
Proof.
  unfold snapshot_bits, load, mbind, machine_bind. quiet.
  destruct (Z.eqb_spec (snapshot_generation (IDMAC_COMPLETION (w_glob w))) g) as [E|E]; simpl; [|done].
  do 3 quiet. by rewrite (proj2 (Z.eqb_eq _ _)).
Qed.

(** a transfer reads from the snapshot exactly what the handler saw during it.  When no
    interrupt falls into [begin_transfer] or [snapshot_bits] themselves, the snapshot for the
    new generation is absent until an interrupt is taken, and then is the union of the status
    words of all interrupts since, whatever was recorded for earlier transfers; no other
    generation can read it.  The exception is the generation 0 after the counter wraps. *)
Theorem snapshot_isolates_transfers w irqs g' :
  let g := wrapping_add_usize (generation (IDMAC_COMPLETION (w_glob w))) 1 in
  g <> 0 -> g' <> 0 ->
  let w1 := (begin_transfer w).2 in
  let w2 := World (w_dev w1) (set_completion (record_all irqs) (w_glob w1)) (w_hw w1) (w_log w1) in
  (begin_transfer w).1 = Done g /\
  (snapshot_bits g' w2).1
    = Done (if bool_decide (irqs <> []) && (g' =? g) then Some (seen irqs) else None).
Proof.
  intros g Hg Hg' w1 w2. destruct (begin_transfer_quiet w) as [h Hb].
  subst w2 w1. rewrite Hb. split; [done|]. rewrite snapshot_bits_quiet. cbn -[Z.eqb]. fold g.
  destruct irqs as [|p irqs].
  - cbn -[Z.eqb]. by rewrite (proj2 (Z.eqb_neq 0 g')).
  - rewrite record_all_seen by done. cbn -[Z.eqb]. by rewrite Z.eqb_sym.
Qed.

End snapshot.

(** ** Interrupts at chosen points *)

(** A platform that takes interrupts where a script says unless they are masked, and whose raw
    interrupt status reads as a list of values, one per reading. *)
Definition scripted : Type := list bool * list Z.

Definition scripted_platform (masked : bool) : Platform scripted := {|
  hw_read r h :=
    match r, h with
    | R_rintsts, (s, v :: vs) => (v, (s, vs))
    | _, _ => (0, h)
    end;
  hw_write _ _ h := h;
  hw_resp h := (Resp 0 0 0 0, h);
  hw_fifo_read h := (0, h);
  hw_fifo_write _ h := h;
  hw_fence h := h;
  hw_desc_read _ h := (0, h);
  hw_desc_write _ _ h := h;
  hw_mem_read _ _ := 0;
  hw_mem_write _ _ h := h;
  hw_alloc _ h := (None, h);
  hw_dealloc _ _ h := h;
  hw_monotonic_time h := (0, h);
  hw_wall_time h := (0, h);
  hw_busy_wait _ h := h;
  hw_irq h := match masked, h with false, (b :: s, vs) => (b, (s, vs)) | _, _ => (false, h) end;
  hw_await h := (true, h);
  debug_assertions := true;
  log_enabled _ := false;
|}.

Definition scripted_world (irqs : list bool) (rintsts : list Z) : world scripted :=
  World (mk_sdmmc 0 0 false Bits32 None false false)
    (mk_globals false false false 0x1000 (mk_completion 1 0 0 0) 0 0) (irqs, rintsts) [].

(** Two interrupts during the second transfer of a driver. *)
Lemma snapshot_isolates_transfers_witness :
  let P := scripted_platform true in
  let w1 := (begin_transfer (scripted_world [] [])).2 in
  (snapshot_bits 2
     (World (w_dev w1) (set_completion (record_all [(4, 0); (8, 1)]) (w_glob w1)) (w_hw w1) (w_log w1))).1
  = Done (Some (12, 1)).
Proof.
  intros P w1. assert (Hq : forall h, (hw_irq (Platform := P) h).1 = false) by (by intros [[|[] ?] ?]).
  apply (snapshot_isolates_transfers Hq (scripted_world [] []) [(4, 0); (8, 1)] 2); vm_compute; lia.
Defined.

(** an interrupt that falls between the stores of [begin_transfer] and its increment of the
    generation is charged to the transfer that is about to begin: its bits (here DATA_OVER, 0x8)
    are recorded after the snapshot was cleared, stay hidden at first, and are read as the new
    transfer's as soon as that transfer has an interrupt of its own (here ACD, 0x4000). *)
Theorem late_interrupt_enters_next_snapshot :
  let P := scripted_platform false in
  let first_look := g ← begin_transfer; snapshot_bits g in
  let second_look := g ← begin_transfer; poll_irq;; snapshot_bits g in
  (first_look (scripted_world [false; false; false; true] [0x8])).1 = Done None /\
  (second_look (scripted_world [false; false; false; false; true] [0x4000])).1 = Done (Some (0x4000, 0)) /\
  (second_look (scripted_world [false; false; false; true; true] [0x8; 0x4000])).1
    = Done (Some (0x4008, 0)).
Proof. split_and!; vm_compute; reflexivity. Qed.

(** ** Errors of polled commands *)

(** The driver on a controller where every CMD13 fails with a response timeout; with the
    controller's interrupt output on, as [try_enable_idmac] leaves it, and off. *)
Definition failing_status : world sim := sim_ready false true false.
Definition failing_status_masked : world sim :=
  World (w_dev failing_status) (w_glob failing_status)
    (sim_set R_ctrl (with_bit Ctrl "int_enable" false (sim_reg R_ctrl (w_hw failing_status)))
       (w_hw failing_status)) (w_log failing_status).

(** the handler takes error bits away from polled commands.  The interrupt of a response
    timeout is delivered before the polling loop reads RINTSTS; the handler acknowledges the
    error bit, which only leaves CMD_DONE for the task.  A status query (CMD13) that fails on
    the wire is then reported as a success, with whatever response the previous command left,
    and an asynchronous write, which relies on it to learn whether the card programmed the
    data, succeeds and leaves the driver unfaulted.  The same query with the interrupt output
    off reports the error. *)
Theorem irq_hides_status_timeout :
  (send_cmd 100 (SendStatus 0x10000) failing_status_masked).1 = Done (Err Hardware) /\
  (send_cmd 100 (SendStatus 0x10000) failing_status).1 = Done (Ok (Resp 0 0 0 0)) /\
  (write_block_async 100 5 (replicate 512 7) failing_status).1 = Done (Ok ()) /\
  idmac_faulted (w_dev (write_block_async 100 5 (replicate 512 7) failing_status).2) = false.
Proof. split_and!; vm_compute; reflexivity. Qed.
