(* ===== verification/Ipc.v ===== *)
(** * System V IPC: shared definitions

    [kernel/src/syscall/ipc/mod.rs]: permission records and checks, identifiers, command
    constants; with what the system calls of [msg.rs] and [shm.rs] run on: a monad of kernel
    state with error returns and panics, and Rust's [BTreeMap] as a finite map that is iterated
    in the order of its keys. *)

From stdpp Require Export sorting.
From S2P Require Import Prelude.

#[local] Open Scope Z_scope.

(** ** System calls *)

(** The errors the system calls return ([axerrno]). *)
Inductive LinuxError : Type :=
| EPERM | ENOENT | E2BIG | EAGAIN | ENOMEM | EACCES | EFAULT | EEXIST | EINVAL | ENOSPC | ENOMSG | EIDRM.

#[export] Instance LinuxError_eq_dec : EqDecision LinuxError.
Proof. solve_decision. Defined.

(** How a system call ends: a value, an error code, or a kernel panic. *)
Inductive sysres (A : Type) : Type :=
| SOk (a : A)
| SErr (e : LinuxError)
| SPanic.
Arguments SOk {A} a.
Arguments SErr {A} e.
Arguments SPanic {A}.

(** A computation on kernel state; an error ends it and keeps the changes made so far. *)
Definition sys (St A : Type) : Type := St -> sysres A * St.

#[export] Instance sys_ret {St} : MRet (sys St) := fun A a s => (SOk a, s).
#[export] Instance sys_bind {St} : MBind (sys St) := fun A B k m s =>
  match m s with
  | (SOk a, s') => k a s'
  | (SErr e, s') => (SErr e, s')
  | (SPanic, s') => (SPanic, s')
  end.

Definition fail {St A} (e : LinuxError) : sys St A := fun s => (SErr e, s).
Definition kpanic {St A} : sys St A := fun s => (SPanic, s).
Definition gets {St A} (f : St -> A) : sys St A := fun s => (SOk (f s), s).
Definition modify {St} (f : St -> St) : sys St () := fun s => (SOk (), f s).

#[global] Arguments fail {St A} e s /.
#[global] Arguments kpanic {St A} s /.
#[global] Arguments gets {St A} f s /.
#[global] Arguments modify {St} f s /.
#[global] Arguments sys_ret {St} A a s /.

(** [o.ok_or(e)?], [o.unwrap()], [assert!(b)]. *)
Definition some_or {St A} (e : LinuxError) (o : option A) : sys St A :=
  match o with Some a => mret a | None => fail e end.
Definition unwrap {St A} (o : option A) : sys St A :=
  match o with Some a => mret a | None => kpanic end.
Definition assert {St} (b : bool) : sys St () := if b then mret () else kpanic.

(** The caller of a system call, and the clock: what [current()], [sys_getuid], [sys_getgid] and
    [monotonic_time_nanos] return. *)
Record caller : Type := mk_caller { c_pid : Z; c_uid : Z; c_gid : Z; c_now : Z }.

(** ** Ordered maps *)

Definition key_le {A} (p q : Z * A) : Prop := p.1 <= q.1.
#[export] Instance key_le_dec {A} (p q : Z * A) : Decision (key_le p q).
Proof. apply Z.le_dec. Defined.

(** The entries of a [BTreeMap] with integer keys, in the order of iteration. *)
Definition bt_entries {A} (m : gmap Z A) : list (Z * A) :=
  merge_sort key_le (map_to_list m).

Lemma elem_of_bt_entries {A} (m : gmap Z A) k a : (k, a) ∈ bt_entries m <-> m !! k = Some a.
Proof. unfold bt_entries. rewrite merge_sort_Permutation. apply elem_of_map_to_list. Qed.

Lemma bt_entries_sorted {A} (m : gmap Z A) : StronglySorted key_le (bt_entries m).
Proof.
  apply Sorted_StronglySorted.
  - intros p q r; unfold key_le; lia.
  - apply Sorted_merge_sort. intros p q; unfold key_le; lia.
Qed.

Lemma bt_entries_empty {A} : bt_entries (∅ : gmap Z A) = [].
Proof. reflexivity. Qed.

Lemma bt_entries_length {A} (m : gmap Z A) : length (bt_entries m) = size m.
Proof. unfold bt_entries. by rewrite merge_sort_Permutation, length_map_to_list. Qed.

(** [for (k, v) in &map { if P(k, v) { return ... } }] finds the entry with the least key. *)
Definition bt_find {A} (P : Z * A -> bool) (m : gmap Z A) : option (Z * A) :=
  List.find P (bt_entries m).

Lemma find_sorted {A} (P : Z * A -> bool) es p :
  StronglySorted key_le es -> List.find P es = Some p ->
  p ∈ es /\ P p = true /\ (forall q, q ∈ es -> P q = true -> key_le p q).
Proof.
  induction 1 as [|q es Hs IH Hq]; simpl; [done|].
  destruct (P q) eqn:HP.
  - intros [= <-]. rewrite list.Forall_forall in Hq. split_and!; [by left|done|].
    intros r [->|Hr]%elem_of_cons _; [unfold key_le; lia|by apply Hq].
  - intros (?&?&Hl)%IH. split_and!; [by right|done|].
    intros r [->|Hr]%elem_of_cons Hr'; [congruence|by apply Hl].
Qed.

Lemma bt_find_Some {A} (m : gmap Z A) P k a :
  bt_find P m = Some (k, a) <->
  m !! k = Some a /\ P (k, a) = true /\
  (forall k' a', m !! k' = Some a' -> P (k', a') = true -> k <= k').
Proof.
  assert (Hfwd : forall k a, bt_find P m = Some (k, a) -> m !! k = Some a /\ P (k, a) = true /\
    (forall k' a', m !! k' = Some a' -> P (k', a') = true -> k <= k')).
  { intros k0 a0 (He & HP & Hl)%(find_sorted P _ _ (bt_entries_sorted m)).
    split_and!; [by apply elem_of_bt_entries|done|].
    intros k' a' Hk'%elem_of_bt_entries HP'. by apply (Hl (k', a')). }
  split; [apply Hfwd|]. intros (Hk & HP & Hl).
  destruct (bt_find P m) as [[k' a']|] eqn:Hf.
  - destruct (Hfwd k' a' eq_refl) as (Hk' & HP' & Hl').
    assert (k = k') as -> by (specialize (Hl k' a' Hk' HP'); specialize (Hl' k a Hk HP); lia).
    congruence.
  - apply elem_of_bt_entries, list_elem_of_In in Hk. by rewrite (find_none _ _ Hf _ Hk) in HP.
Qed.

Lemma bt_find_None {A} (m : gmap Z A) P :
  bt_find P m = None <-> (forall k a, m !! k = Some a -> P (k, a) = false).
Proof.
  split.
  - intros Hf k a Hk%elem_of_bt_entries%list_elem_of_In. apply (find_none _ _ Hf _ Hk).
  - intros Hn. destruct (bt_find P m) as [[k a]|] eqn:Hf; [|done].
    apply bt_find_Some in Hf as (Hk & HP & _). by rewrite (Hn _ _ Hk) in HP.
Qed.

(** ** Identifiers and permissions *)

(** The source writes these in octal. *)
Definition IPC_PRIVATE : Z := 0.
Definition IPC_CREAT : Z := 0x200.
Definition IPC_EXCL : Z := 0x400.
Definition IPC_RMID : Z := 0.
Definition IPC_SET : Z := 1.
Definition IPC_STAT : Z := 2.
Definition IPC_INFO : Z := 3.
Definition MSG_STAT : Z := 11.
Definition MSG_INFO : Z := 12.

Definition USER_READ : Z := 0x100.
Definition USER_WRITE : Z := 0x80.
Definition GROUP_READ : Z := 0x20.
Definition GROUP_WRITE : Z := 0x10.
Definition OTHER_READ : Z := 0x4.
Definition OTHER_WRITE : Z := 0x2.

(** [IpcPerm], without padding and unused fields. *)
Record IpcPerm : Type := mk_perm {
  key : Z;
  uid : Z;
  gid : Z;
  cuid : Z;
  cgid : Z;
  mode : Z;
}.

Definition has_ipc_permission (perm : IpcPerm) (current_uid current_gid : Z) (is_write : bool) : bool :=
  if current_uid =? 0 then true
  else if uid perm =? current_uid then
    negb (Z.land (mode perm) (if is_write then USER_WRITE else USER_READ) =? 0)
  else if gid perm =? current_gid then
    negb (Z.land (mode perm) (if is_write then GROUP_WRITE else GROUP_READ) =? 0)
  else
    negb (Z.land (mode perm) (if is_write then OTHER_WRITE else OTHER_READ) =? 0).

(** The keys of an ordered map. *)
Lemma bt_keys_NoDup {A} (m : gmap Z A) : NoDup (map fst (bt_entries m)).
Proof.
  unfold bt_entries. change (map fst) with (fmap (M := list) (fst (A := Z) (B := A))).
  rewrite merge_sort_Permutation. apply NoDup_fst_map_to_list.
Qed.

Lemma elem_of_bt_keys {A} (m : gmap Z A) k : k ∈ map fst (bt_entries m) <-> is_Some (m !! k).
Proof.
  rewrite list_elem_of_In, in_map_iff. split.
  - intros ([k' a] & <- & Hin%list_elem_of_In%elem_of_bt_entries). by eexists.
  - intros [a Ha%elem_of_bt_entries%list_elem_of_In]. by exists (k, a).
Qed.
