(* ===== verification/MsgQueue.v ===== *)
(** * A message queue

    [MessageQueue] of [kernel/src/syscall/ipc/msg.rs]: messages kept by type, in order of
    arrival within a type, with running totals.  The queue is verified against what System V
    promises: a sequence of messages in order of arrival. *)

From S2P Require Import Prelude Ipc.

#[local] Open Scope Z_scope.

Definition MSGMNI : Z := 32000.
Definition MSGMNB : Z := 16384.
Definition MSGMAX : Z := 8192.

(** [msqid_ds]. *)
Record msqid_ds : Type := mk_msqid_ds {
  msg_perm : IpcPerm;
  msg_stime : Z;
  msg_rtime : Z;
  msg_ctime : Z;
  msg_cbytes : Z;
  msg_qnum : Z;
  msg_qbytes : Z;
  msg_lspid : Z;
  msg_lrpid : Z;
}.

(** [msqid_ds::new]. *)
Definition msqid_ds_new (k m pid u g now : Z) : msqid_ds :=
  mk_msqid_ds (mk_perm k u g u g m) 0 0 now 0 0 MSGMNB pid pid.

(** [Message]. *)
Record Message : Type := mk_message { mtype : Z; data : list Z }.

#[export] Instance Message_eq_dec : EqDecision Message.
Proof. solve_decision. Defined.

(** [MessageQueue]. *)
Record MessageQueue : Type := mk_queue {
  q_msqid_ds : msqid_ds;
  messages : gmap Z (list Message);
  total_bytes : Z;
  mark_removed : bool;
}.

(** [MessageQueue::new]. *)
Definition queue_new (k m pid u g now : Z) : MessageQueue :=
  mk_queue (msqid_ds_new k m pid u g now) ∅ 0 false.

(** The number of bytes of a message; [Vec::len]. *)
Definition size_of (d : list Z) : Z := Z.of_nat (length d).

(** Updates of the counters, wrapping like the machine's. *)
Definition add_stats (bytes n : Z) (ds : msqid_ds) : msqid_ds :=
  mk_msqid_ds (msg_perm ds) (msg_stime ds) (msg_rtime ds) (msg_ctime ds)
    (as_u64 (msg_cbytes ds + bytes)) (as_u64 (msg_qnum ds + n)) (msg_qbytes ds)
    (msg_lspid ds) (msg_lrpid ds).

(** [MessageQueue::enqueue_message]. *)
Definition enqueue_message (t : Z) (d : list Z) : sys MessageQueue () := fun q =>
  let data_len := size_of d in
  if msg_qbytes (q_msqid_ds q) <? as_u64 (total_bytes q + data_len) then (SErr ENOSPC, q)
  else
    (SOk (), mk_queue (add_stats data_len 1 (q_msqid_ds q))
               (<[t := default [] (messages q !! t) ++ [mk_message t d]]> (messages q))
               (as_u64 (total_bytes q + data_len)) (mark_removed q)).

(** A type with a message, and its first message. *)
Definition has_first (p : Z * list Message) : bool := negb (bool_decide (p.2 = [])).
Definition first_of (p : Z * list Message) : option (Z * list Z) :=
  m ← head p.2; Some (p.1, data m).

(** [MessageQueue::find_first_message]. *)
Definition find_first_message (q : MessageQueue) : option (Z * list Z) :=
  bt_find has_first (messages q) ≫= first_of.

(** [MessageQueue::find_message_by_type]. *)
Definition find_message_by_type (msgtyp : Z) (q : MessageQueue) : option (Z * list Z) :=
  msgs ← messages q !! msgtyp; first_of (msgtyp, msgs).

(** [MessageQueue::find_message_not_equal]. *)
Definition find_message_not_equal (msgtyp : Z) (q : MessageQueue) : option (Z * list Z) :=
  bt_find (fun p => negb (p.1 =? msgtyp) && has_first p) (messages q) ≫= first_of.

(** The loop of [find_message_less_equal]: the least type up to [abs_typ] with a message. *)
Definition candidate_step (abs_typ : Z) (candidate : option Z) (p : Z * list Message) : option Z :=
  if (p.1 <=? abs_typ) && has_first p
     && match candidate with None => true | Some c => p.1 <? c end
  then Some p.1 else candidate.

(** [MessageQueue::find_message_less_equal]. *)
Definition find_message_less_equal (abs_typ : Z) (q : MessageQueue) : option (Z * list Z) :=
  t ← foldl (candidate_step abs_typ) None (bt_entries (messages q));
  find_message_by_type t q.

(** [MessageQueue::get_total_message_count] and [get_message_by_index]. *)
Definition get_total_message_count (q : MessageQueue) : Z :=
  foldr (fun p n => Z.of_nat (length p.2) + n) 0 (bt_entries (messages q)).

Fixpoint index_loop (index current_index : Z) (es : list (Z * list Message)) : option Message :=
  match es with
  | [] => None
  | (_, msgs) :: es =>
      if index <? current_index + Z.of_nat (length msgs)
      then msgs !! Z.to_nat (index - current_index)
      else index_loop index (current_index + Z.of_nat (length msgs)) es
  end.

Definition get_message_by_index (index : Z) (q : MessageQueue) : option Message :=
  index_loop index 0 (bt_entries (messages q)).

(** [MessageQueue::remove_message_by_type_and_index]. *)
Definition remove_message_by_type_and_index (t : Z) (index : nat) : sys MessageQueue Message := fun q =>
  match messages q !! t with
  | None => (SErr ENOMSG, q)
  | Some msgs =>
      match msgs !! index with
      | None => (SErr ENOMSG, q)
      | Some removed_msg =>
          let rest := delete index msgs in
          (SOk removed_msg,
           mk_queue (add_stats (- size_of (data removed_msg)) (-1) (q_msqid_ds q))
             (if bool_decide (rest = []) then delete t (messages q) else <[t := rest]> (messages q))
             (as_u64 (total_bytes q - size_of (data removed_msg))) (mark_removed q))
      end
  end.

(** [i64::abs], which wraps at [i64::MIN]. *)
Definition abs_i64 (t : Z) : Z := if t =? - 2 ^ 63 then t else Z.abs t.

(** The choice of a message by [sys_msgrcv] without [MSG_COPY]. *)
Definition match_message (msgtyp : Z) (except : bool) (q : MessageQueue) : option (Z * list Z) :=
  if msgtyp =? 0 then find_first_message q
  else if 0 <? msgtyp then
    if except then find_message_not_equal msgtyp q else find_message_by_type msgtyp q
  else find_message_less_equal (abs_i64 msgtyp) q.

(** ** The queue as a sequence *)

(** The bytes of a sequence of messages. *)
Definition bytes (l : list Message) : Z := foldr (fun m n => size_of (data m) + n) 0 l.

(** [q] holds the messages [l], in order of arrival: by type, and counted. *)
Record holds (q : MessageQueue) (l : list Message) : Prop := {
  holds_messages t : default [] (messages q !! t) = filter (fun m => mtype m = t) l;
  holds_nonempty t : messages q !! t <> Some [];
  holds_bytes : total_bytes q = bytes l;
  holds_cbytes : msg_cbytes (q_msqid_ds q) = total_bytes q;
  holds_qnum : msg_qnum (q_msqid_ds q) = Z.of_nat (length l);
  holds_fits : bytes l < 2 ^ 64 /\ Z.of_nat (length l) < 2 ^ 64;
}.

(** The first message of type [t] is taken out of a sequence. *)
Fixpoint take_first (t : Z) (l : list Message) : option (Message * list Message) :=
  match l with
  | [] => None
  | m :: l =>
      if mtype m =? t then Some (m, l)
      else p ← take_first t l; Some (p.1, m :: p.2)
  end.

(** The least type that [P] accepts among the messages. *)
Definition least_type (P : Z -> bool) (l : list Message) : option Z :=
  foldr (fun m acc =>
    if P (mtype m) then Some (match acc with None => mtype m | Some t => Z.min (mtype m) t end)
    else acc) None l.

(** What POSIX prescribes for a positive or negative [msgtyp]: the first message of that type, or
    the first message of the lowest type up to [- msgtyp]. *)
Definition posix_choice (msgtyp : Z) (l : list Message) : option (Message * list Message) :=
  if 0 <? msgtyp then take_first msgtyp l
  else t ← least_type (fun t => t <=? - msgtyp) l; take_first t l.

(** ** Lemmas on sequences *)

Lemma bytes_app l k : bytes (l ++ k) = bytes l + bytes k.
Proof. unfold bytes. induction l; simpl; lia. Qed.
Lemma bytes_nonneg l : 0 <= bytes l.
Proof. unfold bytes, size_of. induction l; simpl; lia. Qed.

Lemma take_first_Some t l m l' :
  take_first t l = Some (m, l') ->
  mtype m = t /\ filter (fun m => mtype m = t) l = m :: filter (fun m => mtype m = t) l' /\
  (forall t', t' <> t -> filter (fun m => mtype m = t') l = filter (fun m => mtype m = t') l') /\
  bytes l = size_of (data m) + bytes l' /\ length l = S (length l').
Proof.
  revert l'. induction l as [|a l IH]; intros l'; simpl; [done|].
  destruct (Z.eqb_spec (mtype a) t) as [Ht|Ht].
  - intros [= -> ->]. rewrite filter_cons_True by done. split_and!; try done.
    intros t' Ht'. by rewrite filter_cons_False by congruence.
  - destruct (take_first t l) as [[m' l'']|]; simpl; [|done].
    intros [= <- <-]. destruct (IH l'' eq_refl) as (Hm & Hf & Hf' & Hb & Hl). split_and!.
    + done.
    + by rewrite !filter_cons_False by done.
    + intros t' Ht'. rewrite !filter_cons. case_decide; [f_equal|]; by apply Hf'.
    + unfold bytes in *; simpl. lia.
    + simpl. lia.
Qed.

Lemma take_first_None t l : take_first t l = None <-> filter (fun m => mtype m = t) l = [].
Proof.
  induction l as [|a l IH]; simpl; [done|]. destruct (Z.eqb_spec (mtype a) t) as [Ht|Ht].
  - by rewrite filter_cons_True.
  - rewrite filter_cons_False by done. rewrite <- IH. by destruct (take_first t l).
Qed.

Lemma least_type_spec P l :
  match least_type P l with
  | Some t => (exists m, m ∈ l /\ mtype m = t) /\ P t = true /\
      (forall m, m ∈ l -> P (mtype m) = true -> t <= mtype m)
  | None => forall m, m ∈ l -> P (mtype m) = false
  end.
Proof.
  induction l as [|a l IH]; simpl; [by intros m ?%elem_of_nil|].
  destruct (P (mtype a)) eqn:HP, (least_type P l) as [t|].
  - destruct IH as ((m & Hm & <-) & Ht & Hl). split_and!.
    + destruct (Z.min_spec (mtype a) (mtype m)) as [[_ ->]|[_ ->]]; [exists a|exists m]; set_solver.
    + by destruct (Z.min_spec (mtype a) (mtype m)) as [[_ ->]|[_ ->]].
    + intros m' [->|Hm']%elem_of_cons ?; [lia|]. specialize (Hl m' Hm'). lia || (pose proof (Hl ltac:(done)); lia).
  - split_and!; [exists a; set_solver|done|]. intros m' [->|Hm']%elem_of_cons HP'; [lia|].
    rewrite IH in HP'; done.
  - destruct IH as ((m & Hm & Hmt) & Ht & Hl). split_and!; [exists m; set_solver|done|].
    intros m' [->|Hm']%elem_of_cons HP'; [congruence|by apply Hl].
  - intros m' [->|Hm']%elem_of_cons; [done|by apply IH].
Qed.

(** ** Operations on a queue that holds a sequence *)

Lemma queue_new_holds k m pid u g now : holds (queue_new k m pid u g now) [].
Proof. split; simpl; try done. Qed.

Lemma enqueue_holds q l t d :
  holds q l -> bytes l + size_of d < 2 ^ 64 -> Z.of_nat (length l) + 1 < 2 ^ 64 ->
  if msg_qbytes (q_msqid_ds q) <? bytes l + size_of d
  then enqueue_message t d q = (SErr ENOSPC, q)
  else exists q', enqueue_message t d q = (SOk (), q') /\ holds q' (l ++ [mk_message t d]).
Proof.
  intros [Hm Hne Hb Hc Hn Hf] Hlt Hlen. pose proof (bytes_nonneg l).
  assert (0 <= size_of d) by (unfold size_of; lia).
  unfold enqueue_message. rewrite Hb, as_u64_small by lia.
  destruct (_ <? _); [done|]. eexists; split; [done|]. split; simpl.
  - intros t'. rewrite filter_app, filter_cons, filter_nil. simpl. destruct (decide (t = t')) as [<-|Hne'].
    + by rewrite lookup_insert_eq, Hm.
    + by rewrite lookup_insert_ne, Hm, app_nil_r.
  - intros t'. destruct (decide (t = t')) as [<-|Hne'].
    + rewrite lookup_insert_eq. intros [= []%app_nil]. done.
    + by rewrite lookup_insert_ne.
  - rewrite bytes_app. unfold bytes at 3. simpl. lia.
  - rewrite Hc, Hb, as_u64_small by lia. lia.
  - rewrite Hn, length_app, as_u64_small by (simpl; lia). simpl. lia.
  - rewrite bytes_app, length_app. unfold bytes at 2. simpl. lia.
Qed.

Lemma find_by_type_holds q l t :
  holds q l ->
  find_message_by_type t q = (fun p => (t, data p.1)) <$> take_first t l.
Proof.
  intros Hq. unfold find_message_by_type.
  pose proof (holds_messages _ _ Hq t) as Hm. pose proof (holds_nonempty _ _ Hq t) as Hne.
  destruct (take_first t l) as [[m l']|] eqn:Ht.
  - apply take_first_Some in Ht as (? & Hf & _). rewrite Hf in Hm.
    destruct (messages q !! t); simpl in *; [|done]. by subst.
  - apply take_first_None in Ht. rewrite Ht in Hm.
    destruct (messages q !! t); simpl in *; [by subst|done].
Qed.

Lemma remove_holds q l t m l' :
  holds q l -> take_first t l = Some (m, l') ->
  exists q', remove_message_by_type_and_index t 0 q = (SOk m, q') /\ holds q' l'.
Proof.
  intros [Hm Hne Hb Hc Hn Hf] Ht. apply take_first_Some in Ht as (Hmt & Hft & Hft' & Hbt & Hlt).
  pose proof (bytes_nonneg l'). assert (0 <= size_of (data m)) by (unfold size_of; lia).
  unfold remove_message_by_type_and_index. specialize (Hm t) as Hmt'. rewrite Hft in Hmt'.
  destruct (messages q !! t) as [msgs|] eqn:Hq; simpl in Hmt'; [|done]. subst msgs. simpl.
  eexists; split; [done|]. split; simpl.
  - intros t'. case_bool_decide as Hr.
    + destruct (decide (t = t')) as [<-|Hne']; [by rewrite lookup_delete_eq|].
      by rewrite lookup_delete_ne, Hm, Hft'.
    + destruct (decide (t = t')) as [<-|Hne']; [by rewrite lookup_insert_eq|].
      by rewrite lookup_insert_ne, Hm, Hft'.
  - intros t'. case_bool_decide as Hr.
    + destruct (decide (t = t')) as [<-|Hne']; [by rewrite lookup_delete_eq|by rewrite lookup_delete_ne].
    + destruct (decide (t = t')) as [<-|Hne']; [rewrite lookup_insert_eq; congruence|by rewrite lookup_insert_ne].
  - rewrite Hb, Hbt, as_u64_small by lia. lia.
  - rewrite Hc, Hb, Hbt. done.
  - rewrite Hn, Hlt, as_u64_small by lia. lia.
  - lia.
Qed.

(** ** Choosing a message *)

Lemma holds_lookup q l t m : holds q l -> m ∈ l -> mtype m = t -> exists msgs, messages q !! t = Some msgs /\ msgs <> [].
Proof.
  intros Hq Hm Ht. pose proof (holds_messages _ _ Hq t) as Hf.
  assert (m ∈ filter (fun m => mtype m = t) l) as Hin by (by apply list_elem_of_filter).
  destruct (messages q !! t) as [msgs|]; simpl in Hf; [|rewrite <- Hf in Hin; set_solver].
  exists msgs. split; [done|]. intros ->. rewrite <- Hf in Hin. set_solver.
Qed.

Lemma lookup_holds q l t msgs : holds q l -> messages q !! t = Some msgs -> exists m, m ∈ l /\ mtype m = t.
Proof.
  intros Hq Ht. pose proof (holds_messages _ _ Hq t) as Hf. pose proof (holds_nonempty _ _ Hq t) as Hne.
  rewrite Ht in Hf. simpl in Hf. destruct msgs as [|m msgs]; [done|].
  exists m. assert (m ∈ filter (fun m => mtype m = t) l) as [??]%list_elem_of_filter by (rewrite <- Hf; set_solver).
  done.
Qed.

(** A search in the order of types finds the least type. *)
Lemma bt_find_least P q l :
  holds q l ->
  bt_find (fun p => P p.1 && has_first p) (messages q) ≫= first_of
  = (t ← least_type P l; find_message_by_type t q).
Proof.
  intros Hq. pose proof (least_type_spec P l) as Hl. destruct (least_type P l) as [t|]; simpl.
  - destruct Hl as ((m & Hm & Hmt) & HP & Hle).
    destruct (holds_lookup _ _ _ _ Hq Hm Hmt) as (msgs & Hmsgs & Hne).
    assert (bt_find (fun p => P p.1 && has_first p) (messages q) = Some (t, msgs)) as ->.
    { apply bt_find_Some. unfold has_first. simpl. split_and!; [done|by rewrite HP, bool_decide_false|].
      intros t' a' Ha' [HP' _]%andb_true_iff. destruct (lookup_holds _ _ _ _ Hq Ha') as (m' & ? & <-).
      by apply Hle. }
    unfold find_message_by_type. by rewrite Hmsgs.
  - assert (bt_find (fun p => P p.1 && has_first p) (messages q) = None) as ->; [|done].
    apply bt_find_None. intros t a Ha. destruct (lookup_holds _ _ _ _ Hq Ha) as (m' & ? & <-).
    simpl. by rewrite Hl.
Qed.

(** The candidate loop stops changing at the first type it accepts. *)
Lemma candidate_fixed abs_typ c es :
  Forall (fun p => c <= p.1) es -> foldl (candidate_step abs_typ) (Some c) es = Some c.
Proof.
  induction 1 as [|p es Hp _ IH]; simpl; [done|]. unfold candidate_step at 2.
  by rewrite (proj2 (Z.ltb_ge _ _) Hp), andb_false_r.
Qed.

Lemma candidate_loop abs_typ es :
  StronglySorted key_le es ->
  foldl (candidate_step abs_typ) None es
  = fst <$> List.find (fun p => (p.1 <=? abs_typ) && has_first p) es.
Proof.
  induction 1 as [|p es Hs IH Hp]; simpl; [done|]. unfold candidate_step at 2. rewrite andb_true_r.
  destruct (_ && _); [by apply candidate_fixed|done].
Qed.

Lemma find_less_equal_holds q l abs_typ :
  holds q l ->
  find_message_less_equal abs_typ q
  = (t ← least_type (fun t => t <=? abs_typ) l; find_message_by_type t q).
Proof.
  intros Hq. rewrite <- bt_find_least by done. unfold find_message_less_equal.
  rewrite candidate_loop by apply bt_entries_sorted. fold (bt_find (fun p => (p.1 <=? abs_typ) && has_first p) (messages q)).
  destruct (bt_find _ _) as [[t msgs]|] eqn:Hf; simpl; [|done].
  apply bt_find_Some in Hf as (Ht & _). unfold find_message_by_type. by rewrite Ht.
Qed.

Lemma find_first_holds q l :
  holds q l -> find_first_message q = (t ← least_type (fun _ => true) l; find_message_by_type t q).
Proof. intros Hq. by rewrite <- bt_find_least. Qed.

Lemma find_not_equal_holds q l t :
  holds q l ->
  find_message_not_equal t q = (t' ← least_type (fun t' => negb (t' =? t)) l; find_message_by_type t' q).
Proof. intros Hq. by rewrite <- bt_find_least. Qed.

(** Every choice is the first message of its type. *)
Lemma match_message_first q l msgtyp except t d :
  holds q l -> match_message msgtyp except q = Some (t, d) ->
  exists m l', take_first t l = Some (m, l') /\ data m = d.
Proof.
  intros Hq. assert (Hby : forall t', find_message_by_type t' q = Some (t, d) ->
    exists m l', take_first t l = Some (m, l') /\ data m = d).
  { intros t'. rewrite (find_by_type_holds _ l) by done.
    destruct (take_first t' l) as [[m l']|] eqn:Ht'; [|done]. intros [= -> <-]. by exists m, l'. }
  unfold match_message.
  rewrite (find_first_holds _ l), (find_not_equal_holds _ l), (find_less_equal_holds _ l) by done.
  repeat case_match; first [apply Hby | intros (?&_&?)%bind_Some; eauto].
Qed.

(** A choice by type is the POSIX one. *)
Lemma match_message_posix q l msgtyp :
  holds q l -> msgtyp <> 0 -> - 2 ^ 63 < msgtyp ->
  match_message msgtyp false q = (fun p => (mtype p.1, data p.1)) <$> posix_choice msgtyp l.
Proof.
  intros Hq H0 Hmin. assert (Hby : forall t,
    find_message_by_type t q = (fun p => (mtype p.1, data p.1)) <$> take_first t l).
  { intros t. rewrite (find_by_type_holds _ l) by done. destruct (take_first t l) as [[m l']|] eqn:Ht; [|done].
    apply take_first_Some in Ht as (<- & _). done. }
  unfold match_message, posix_choice. rewrite (proj2 (Z.eqb_neq _ _)) by done.
  destruct (Z.ltb_spec 0 msgtyp); [apply Hby|]. rewrite (find_less_equal_holds _ l) by done.
  unfold abs_i64. rewrite (proj2 (Z.eqb_neq _ _)), Z.abs_neq by lia.
  destruct (least_type _ l); simpl; [apply Hby|done].
Qed.

(** A message found by index is one of the queue. *)
Lemma index_loop_elem i j es m :
  index_loop i j es = Some m -> exists t msgs, (t, msgs) ∈ es /\ m ∈ msgs.
Proof.
  revert j. induction es as [|[t msgs] es IH]; intros j; simpl; [done|]. case_match.
  - intros Hm. exists t, msgs. split; [by left|by eapply list_elem_of_lookup_2].
  - intros (t' & msgs' & ? & ?)%IH. exists t', msgs'. split; [by right|done].
Qed.

Lemma by_index_holds q l i m : holds q l -> get_message_by_index i q = Some m -> m ∈ l.
Proof.
  intros Hq (t & msgs & Ht%elem_of_bt_entries & Hm)%index_loop_elem.
  pose proof (holds_messages _ _ Hq t) as Hf. rewrite Ht in Hf. simpl in Hf. subst msgs.
  by apply list_elem_of_filter in Hm as [_ ?].
Qed.

(** a message queue behaves like the sequence of its messages in order of arrival.  Sending
    appends, and is refused exactly when the bytes would exceed the limit; receiving by a positive
    or negative type picks and removes the message POSIX prescribes, the first of that type or
    the first of the lowest type up to the bound; the counters are those of the sequence. *)
Theorem queue_refines_sequence q l :
  holds q l -> bytes l + MSGMAX < 2 ^ 64 -> Z.of_nat (length l) + 1 < 2 ^ 64 ->
  (forall t d, size_of d <= MSGMAX ->
     if msg_qbytes (q_msqid_ds q) <? bytes l + size_of d
     then enqueue_message t d q = (SErr ENOSPC, q)
     else exists q', enqueue_message t d q = (SOk (), q') /\ holds q' (l ++ [mk_message t d])) /\
  (forall msgtyp, msgtyp <> 0 -> - 2 ^ 63 < msgtyp ->
     match posix_choice msgtyp l with
     | None => match_message msgtyp false q = None
     | Some (m, l') =>
         match_message msgtyp false q = Some (mtype m, data m) /\
         exists q', remove_message_by_type_and_index (mtype m) 0 q = (SOk m, q') /\ holds q' l'
     end) /\
  total_bytes q = bytes l /\ msg_cbytes (q_msqid_ds q) = bytes l /\
  msg_qnum (q_msqid_ds q) = Z.of_nat (length l).
Proof.
  intros Hq Hb Hn. split_and!; try (destruct Hq; congruence).
  - intros t d Hd. apply enqueue_holds; [done|lia|done].
  - intros msgtyp H0 Hmin. rewrite (match_message_posix q l) by done.
    destruct (posix_choice msgtyp l) as [[m l']|] eqn:Hc; simpl; [|done]. split; [done|].
    assert (Ht : exists t, take_first t l = Some (m, l')).
    { unfold posix_choice in Hc. case_match; [by exists msgtyp|]. apply bind_Some in Hc as (t & _ & ?). by exists t. }
    destruct Ht as [t Ht]. pose proof (take_first_Some _ _ _ _ Ht) as (<- & _). by apply remove_holds with l.
Qed.

Lemma enqueue_ok q l t d :
  holds q l -> bytes l + size_of d < 2 ^ 64 -> Z.of_nat (length l) + 1 < 2 ^ 64 ->
  (enqueue_message t d q).1 = SOk () -> holds (enqueue_message t d q).2 (l ++ [mk_message t d]).
Proof.
  intros Hq Hb Hn He. pose proof (enqueue_holds q l t d Hq Hb Hn) as H. case_match.
  - by rewrite H in He.
  - destruct H as (q' & -> & Hq'). done.
Qed.

(** Three messages, sent in this order. *)
Definition three_messages : MessageQueue :=
  let send t d q := (enqueue_message t d q).2 in
  send 1 [30] (send 1 [20] (send 2 [10] (queue_new 7 0 1 0 0 0))).

Lemma three_messages_holds :
  holds three_messages [mk_message 2 [10]; mk_message 1 [20]; mk_message 1 [30]].
Proof.
  unfold three_messages.
  apply (enqueue_ok _ [mk_message 2 [10]; mk_message 1 [20]]); [|done..].
  apply (enqueue_ok _ [mk_message 2 [10]]); [|done..].
  apply (enqueue_ok _ []); [apply queue_new_holds|done..].
Qed.

Lemma queue_refines_sequence_witness :
  match_message (-5) false three_messages = Some (1, [20]).
Proof.
  destruct (queue_refines_sequence _ _ three_messages_holds) as (_ & Hrcv & _); [done..|].
  apply (Hrcv (-5)); lia.
Defined.

(** a receive with type 0, which is to take the first message of the queue, takes the first
    message of the lowest type: of three messages the second is delivered, and messages of a
    high type can be overtaken by any number of later ones.  The same holds for [MSG_EXCEPT]. *)
Theorem receive_any_prefers_low_types :
  holds three_messages [mk_message 2 [10]; mk_message 1 [20]; mk_message 1 [30]] /\
  match_message 0 false three_messages = Some (1, [20]) /\
  match_message 3 true three_messages = Some (1, [20]) /\
  (forall q l t d, holds q l -> match_message 0 false q = Some (t, d) ->
     forall m, m ∈ l -> t <= mtype m).
Proof.
  split_and!; [apply three_messages_holds|vm_compute; reflexivity..|].
  intros q l t d Hq. unfold match_message. simpl. rewrite (find_first_holds q l) by done.
  pose proof (least_type_spec (fun _ => true) l) as Hl.
  destruct (least_type _ l) as [t'|]; simpl; [|done]. destruct Hl as (_ & _ & Hl).
  unfold find_message_by_type. intros (msgs & _ & (m' & _ & [= <- _])%bind_Some)%bind_Some m Hm.
  by apply Hl.
Qed.
