(* ===== verification/Msg.v ===== *)
(** * System V message queues

    [MsgManager] and the system calls [msgget], [msgsnd], [msgrcv] and [msgctl] of
    [kernel/src/syscall/ipc/msg.rs].  Queues are shared objects behind [Arc<Mutex<_>>]: the
    manager maps identifiers to references, and a heap maps references to queues, so that a
    queue taken out of the manager can still be used by a task that looked it up before.  User
    memory ([starry_vm]) is a parameter. *)

From S2P Require Import Prelude Ipc MsgQueue.

#[local] Open Scope Z_scope.

(** What the system calls use of user memory. *)
Class UserMemory (U : Type) : Type := {
  vm_read_i64 : Z -> U -> result LinuxError Z;
  vm_load : Z -> Z -> U -> result LinuxError (list Z);
  vm_write_i64 : Z -> Z -> U -> result LinuxError () * U;
  vm_write_slice : Z -> list Z -> U -> result LinuxError () * U;
  vm_read_msqid_ds : Z -> U -> result LinuxError msqid_ds;
  vm_write_msqid_ds : Z -> msqid_ds -> U -> result LinuxError () * U;
  vm_write_msginfo : Z -> list Z -> U -> result LinuxError () * U;
}.

(** [vm_load(ptr, n)] returns [n] elements. *)
Class UserMemoryDoc {U} (M : UserMemory U) : Prop := {
  vm_load_length a n u d : vm_load a n u = Ok d -> size_of d = n;
}.

(** The manager's two maps, the heap of queues, the identifier counter, and user memory. *)
Record msg_state (U : Type) : Type := mk_msg_state {
  key_msqid : gmap Z Z;
  msqid_queues : gmap Z positive;
  queues : gmap positive MessageQueue;
  IPC_ID : Z;
  user : U;
}.
Arguments mk_msg_state {U} _ _ _ _ _.
Arguments key_msqid {U} _.
Arguments msqid_queues {U} _.
Arguments queues {U} _.
Arguments IPC_ID {U} _.
Arguments user {U} _.

(** Wrap-around of [i32]. *)
Definition as_i32 (z : Z) : Z := (z + 2 ^ 31) mod 2 ^ 32 - 2 ^ 31.

Section msg.
Context {U : Type} {UM : UserMemory U}.
Local Notation M := (sys (msg_state U)).

(** ** State access *)

Definition set_keys f : M () := modify (fun s =>
  mk_msg_state (f (key_msqid s)) (msqid_queues s) (queues s) (IPC_ID s) (user s)).
Definition set_ids f : M () := modify (fun s =>
  mk_msg_state (key_msqid s) (f (msqid_queues s)) (queues s) (IPC_ID s) (user s)).
Definition set_queues f : M () := modify (fun s =>
  mk_msg_state (key_msqid s) (msqid_queues s) (f (queues s)) (IPC_ID s) (user s)).

(** Run [m] on the queue behind a reference, under its lock. *)
Definition locked {A} (p : positive) (m : sys MessageQueue A) : M A := fun s =>
  match queues s !! p with
  | None => (SPanic, s)
  | Some q =>
      let '(r, q') := m q in
      (r, mk_msg_state (key_msqid s) (msqid_queues s) (<[p := q']> (queues s)) (IPC_ID s) (user s))
  end.

Definition peek (p : positive) : M MessageQueue := fun s =>
  match queues s !! p with None => (SPanic, s) | Some q => (SOk q, s) end.

(** User memory access: an error is returned to the caller of the system call. *)
Definition from_user {A} (f : U -> result LinuxError A) : M A := fun s =>
  match f (user s) with Ok a => (SOk a, s) | Err e => (SErr e, s) end.
Definition to_user (f : U -> result LinuxError () * U) : M () := fun s =>
  let '(r, u) := f (user s) in
  let s' := mk_msg_state (key_msqid s) (msqid_queues s) (queues s) (IPC_ID s) u in
  match r with Ok _ => (SOk (), s') | Err e => (SErr e, s') end.

(** [next_ipc_id]. *)
Definition next_ipc_id : M Z := fun s =>
  (SOk (IPC_ID s),
   mk_msg_state (key_msqid s) (msqid_queues s) (queues s) (as_i32 (IPC_ID s + 1)) (user s)).

(** [Arc::new(Mutex::new(q))]. *)
Definition new_queue (q : MessageQueue) : M positive := fun s =>
  let p := fresh (dom (queues s)) in
  (SOk p, mk_msg_state (key_msqid s) (msqid_queues s) (<[p := q]> (queues s)) (IPC_ID s) (user s)).

(** ** [MsgManager] *)

Definition get_msqid_by_key (k : Z) : M (option Z) := gets (fun s => key_msqid s !! k).
Definition get_queue_by_msqid (msqid : Z) : M (option positive) := gets (fun s => msqid_queues s !! msqid).
Definition insert_key_msqid (k msqid : Z) : M () := set_keys (insert k msqid).
Definition insert_msqid_queues (msqid : Z) (p : positive) : M () := set_ids (insert msqid p).
Definition queue_count : M Z := gets (fun s => Z.of_nat (size (msqid_queues s))).

(** [MsgManager::remove_msqid]. *)
Definition remove_msqid (msqid : Z) : M () :=
  set_keys (filter (fun kv => kv.2 <> msqid));;
  set_ids (delete msqid).

(** [MsgManager::iter_active_queues]. *)
Definition iter_active_queues : M (list (Z * MessageQueue)) := gets (fun s =>
  omap (fun '(id, p) => q ← queues s !! p; if mark_removed q then None else Some (id, q))
    (bt_entries (msqid_queues s))).

(** [MsgManager::total_bytes]. *)
Definition manager_total_bytes : M Z :=
  qs ← iter_active_queues; mret (as_u64 (foldr (fun p n => total_bytes p.2 + n) 0 qs)).

(** ** [msgget] *)

Definition create_queue (c : caller) (k msgflg : Z) : M positive :=
  new_queue (queue_new k (Z.land msgflg 0x1ff) (c_pid c) (c_uid c) (c_gid c) (c_now c)).

Definition sys_msgget (c : caller) (k msgflg : Z) : M Z :=
  n ← queue_count;
  if MSGMNI <=? n then fail ENOSPC
  else if k =? IPC_PRIVATE then
    msqid ← next_ipc_id;
    p ← create_queue c k msgflg;
    insert_msqid_queues msqid p;;
    mret msqid
  else
    o ← get_msqid_by_key k;
    match o with
    | Some msqid =>
        o ← get_queue_by_msqid msqid;
        p ← some_or ENOENT o;
        q ← peek p;
        if negb (has_ipc_permission (msg_perm (q_msqid_ds q)) (c_uid c) (c_gid c) false) then fail EACCES
        else if mark_removed q then fail EIDRM
        else if negb (Z.land msgflg IPC_EXCL =? 0) && negb (Z.land msgflg IPC_CREAT =? 0) then fail EEXIST
        else mret msqid
    | None =>
        if Z.land msgflg IPC_CREAT =? 0 then fail ENOENT
        else
          msqid ← next_ipc_id;
          p ← create_queue c k msgflg;
          insert_key_msqid k msqid;;
          insert_msqid_queues msqid p;;
          mret msqid
    end.

(** The look-up the other calls start with, under the manager's lock. *)
Definition lookup_queue (msqid : Z) : M positive :=
  o ← get_queue_by_msqid msqid; some_or EINVAL o.

(** ** [msgsnd] *)

(** Stamps of the last send and the last receive. *)
Definition set_sent (pid now : Z) (q : MessageQueue) : MessageQueue :=
  let ds := q_msqid_ds q in
  mk_queue (mk_msqid_ds (msg_perm ds) now (msg_rtime ds) (msg_ctime ds) (msg_cbytes ds) (msg_qnum ds)
    (msg_qbytes ds) pid (msg_lrpid ds)) (messages q) (total_bytes q) (mark_removed q).
Definition set_received (pid now : Z) (q : MessageQueue) : MessageQueue :=
  let ds := q_msqid_ds q in
  mk_queue (mk_msqid_ds (msg_perm ds) (msg_stime ds) now (msg_ctime ds) (msg_cbytes ds) (msg_qnum ds)
    (msg_qbytes ds) (msg_lspid ds) pid) (messages q) (total_bytes q) (mark_removed q).

(** The part under the queue's lock.  Both branches of the full-queue case return [EAGAIN]. *)
Definition msgsnd_locked (c : caller) (p : positive) (msgp msgsz : Z) : M Z :=
  q ← peek p;
  if negb (has_ipc_permission (msg_perm (q_msqid_ds q)) (c_uid c) (c_gid c) true) then fail EACCES
  else
    t ← from_user (vm_read_i64 msgp);
    if t <=? 0 then fail EINVAL
    else
      d ← from_user (vm_load (msgp + 8) msgsz);
      let would_exceed_bytes := msg_qbytes (q_msqid_ds q) <? as_u64 (total_bytes q + size_of d) in
      let would_exceed_messages := msg_qbytes (q_msqid_ds q) <? as_u64 (msg_qnum (q_msqid_ds q) + 1) in
      if would_exceed_bytes || would_exceed_messages then fail EAGAIN
      else
        locked p (enqueue_message t d);;
        locked p (modify (set_sent (c_pid c) (c_now c)));;
        mret 0.

Definition sys_msgsnd (c : caller) (msqid msgp msgsz msgflg : Z) : M Z :=
  if MSGMAX <? msgsz then fail EINVAL
  else
    p ← lookup_queue msqid;
    msgsnd_locked c p msgp msgsz.

(** ** [msgrcv] *)

Definition IPC_NOWAIT : Z := 0x800.
Definition MSG_NOERROR : Z := 0x1000.
Definition MSG_COPY : Z := 0x2000.
Definition MSG_EXCEPT : Z := 0x400.
Definition contains (flags bit : Z) : bool := negb (Z.land flags bit =? 0).

(** The message to deliver, and whether it is to be removed. *)
Definition select_message (msgtyp flags : Z) (q : MessageQueue) : result LinuxError (Z * list Z * bool) :=
  if contains flags MSG_COPY then
    let index := as_u64 msgtyp in
    if get_total_message_count q <=? index then Err ENOMSG
    else match get_message_by_index index q with
         | None => Err ENOMSG
         | Some m => Ok (mtype m, data m, false)
         end
  else match match_message msgtyp (contains flags MSG_EXCEPT) q with
       | None => Err ENOMSG
       | Some (t, d) => Ok (t, d, true)
       end.

Definition of_result {A} (r : result LinuxError A) : M A :=
  match r with Ok a => mret a | Err e => fail e end.

(** The part under the queue's lock. *)
Definition msgrcv_locked (c : caller) (p : positive) (msgp msgsz msgtyp flags : Z) : M Z :=
  q ← peek p;
  if negb (has_ipc_permission (msg_perm (q_msqid_ds q)) (c_uid c) (c_gid c) false) then fail EACCES
  else if mark_removed q then fail EIDRM
  else
    sel ← of_result (select_message msgtyp flags q);
    let '(t, d, should_remove) := sel : Z * list Z * bool in
    if (msgsz <? size_of d) && negb (contains flags MSG_NOERROR) then fail E2BIG
    else
      to_user (vm_write_i64 msgp t);;
      let copy_len := Z.min (size_of d) msgsz in
      to_user (vm_write_slice (msgp + 8) (take (Z.to_nat copy_len) d));;
      (if should_remove then locked p (remove_message_by_type_and_index t 0);; mret () else mret ());;
      locked p (modify (set_received (c_pid c) (c_now c)));;
      mret copy_len.

Definition sys_msgrcv (c : caller) (msqid msgp msgsz msgtyp msgflg : Z) : M Z :=
  if contains msgflg MSG_COPY && negb (contains msgflg IPC_NOWAIT) then fail EINVAL
  else if contains msgflg MSG_COPY && contains msgflg MSG_EXCEPT then fail EINVAL
  else
    p ← lookup_queue msqid;
    msgrcv_locked c p msgp msgsz msgtyp msgflg.

(** ** [msgctl] *)

(** The settings [IPC_SET] takes over: owner and mode, the size limit, the time of change. *)
Definition set_owner (u g m : Z) (q : MessageQueue) : MessageQueue :=
  let ds := q_msqid_ds q in
  let perm := msg_perm ds in
  mk_queue (mk_msqid_ds (mk_perm (key perm) u g (cuid perm) (cgid perm) m) (msg_stime ds) (msg_rtime ds)
    (msg_ctime ds) (msg_cbytes ds) (msg_qnum ds) (msg_qbytes ds) (msg_lspid ds) (msg_lrpid ds))
    (messages q) (total_bytes q) (mark_removed q).
Definition set_qbytes (n : Z) (q : MessageQueue) : MessageQueue :=
  let ds := q_msqid_ds q in
  mk_queue (mk_msqid_ds (msg_perm ds) (msg_stime ds) (msg_rtime ds) (msg_ctime ds) (msg_cbytes ds)
    (msg_qnum ds) n (msg_lspid ds) (msg_lrpid ds)) (messages q) (total_bytes q) (mark_removed q).
Definition set_changed (now : Z) (q : MessageQueue) : MessageQueue :=
  let ds := q_msqid_ds q in
  mk_queue (mk_msqid_ds (msg_perm ds) (msg_stime ds) (msg_rtime ds) now (msg_cbytes ds)
    (msg_qnum ds) (msg_qbytes ds) (msg_lspid ds) (msg_lrpid ds)) (messages q) (total_bytes q) (mark_removed q).
Definition set_removed (q : MessageQueue) : MessageQueue :=
  mk_queue (q_msqid_ds q) (messages q) (total_bytes q) true.

(** [IPC_SET]. *)
Definition msgctl_set (c : caller) (p : positive) (buf : Z) : M () :=
  user_buf ← from_user (vm_read_msqid_ds buf);
  locked p (modify (set_owner (uid (msg_perm user_buf)) (gid (msg_perm user_buf))
                     (Z.land (mode (msg_perm user_buf)) 0x1ff)));;
  q ← peek p;
  (if negb (msg_qbytes user_buf =? msg_qbytes (q_msqid_ds q)) then
     if (MSGMNB <? msg_qbytes user_buf) && negb (c_uid c =? 0) then fail EPERM
     else locked p (modify (set_qbytes (msg_qbytes user_buf)))
   else mret ());;
  locked p (modify (set_changed (c_now c))).

(** The part under the queue's lock: whether the queue is to be removed from the manager. *)
Definition msgctl_locked (c : caller) (p : positive) (cmd buf : Z) : M bool :=
  q ← peek p;
  if mark_removed q then fail EIDRM
  else if cmd =? IPC_STAT then
    if negb (has_ipc_permission (msg_perm (q_msqid_ds q)) (c_uid c) (c_gid c) false) then fail EACCES
    else to_user (vm_write_msqid_ds buf (q_msqid_ds q));; mret false
  else
    let is_owner := c_uid c =? uid (msg_perm (q_msqid_ds q)) in
    let is_creator := c_uid c =? cuid (msg_perm (q_msqid_ds q)) in
    if negb (c_uid c =? 0) && negb is_owner && negb is_creator then fail EPERM
    else if cmd =? IPC_SET then msgctl_set c p buf;; mret false
    else if cmd =? IPC_RMID then
      locked p (modify set_removed);;
      if msg_qnum (q_msqid_ds q) =? 0 then mret true
      else locked p (modify (set_changed (c_now c)));; mret false
    else fail EINVAL.

(** [MSG_INFO] and [MSG_STAT], under the manager's lock. *)
Definition msgctl_info (c : caller) (buf : Z) : M Z :=
  bytes ← manager_total_bytes;
  n ← queue_count;
  to_user (vm_write_msqid_ds buf
    (mk_msqid_ds (mk_perm 0 (c_uid c) (c_gid c) (c_uid c) (c_gid c) 0x180) 0 0 0 bytes n MSGMNB 0 0));;
  queue_count.

Definition msgctl_stat (c : caller) (msqid buf : Z) : M Z :=
  qs ← iter_active_queues;
  sel ← some_or EINVAL (if as_u64 msqid <? Z.of_nat (length qs) then qs !! Z.to_nat (as_u64 msqid) else None);
  let '(actual_msqid, q) := sel : Z * MessageQueue in
  if negb (has_ipc_permission (msg_perm (q_msqid_ds q)) (c_uid c) (c_gid c) false) then fail EACCES
  else to_user (vm_write_msqid_ds buf (q_msqid_ds q));; mret actual_msqid.

Definition sys_msgctl (c : caller) (msqid cmd buf : Z) : M Z :=
  if negb (existsb (Z.eqb cmd) [IPC_STAT; IPC_SET; IPC_RMID; IPC_INFO; MSG_INFO; MSG_STAT]) then fail EINVAL
  else if cmd =? IPC_INFO then
    to_user (vm_write_msginfo buf [0; 0; MSGMAX; MSGMNB; MSGMNI; 0; 0; 0]);; mret 0
  else if cmd =? MSG_INFO then msgctl_info c buf
  else if cmd =? MSG_STAT then msgctl_stat c msqid buf
  else
    p ← lookup_queue msqid;
    removed ← msgctl_locked c p cmd buf;
    (if (removed : bool) then remove_msqid msqid else mret ());;
    mret 0.

(** ** Effect of the sections *)

(** The state with another queue behind [p]. *)
Definition upd (p : positive) (q : MessageQueue) (s : msg_state U) : msg_state U :=
  mk_msg_state (key_msqid s) (msqid_queues s) (<[p := q]> (queues s)) (IPC_ID s) (user s).

Lemma queues_upd p q s : queues (upd p q s) !! p = Some q.
Proof. apply lookup_insert_eq. Qed.
Lemma upd_upd p q1 q2 s : upd p q2 (upd p q1 s) = upd p q2 s.
Proof. unfold upd. simpl. by rewrite insert_insert_eq. Qed.

Lemma locked_eq {A} p (m : sys MessageQueue A) s q :
  queues s !! p = Some q -> locked p m s = ((m q).1, upd p (m q).2 s).
Proof. unfold locked. intros ->. by destruct (m q). Qed.
Lemma peek_eq p s q : queues s !! p = Some q -> peek p s = (SOk q, s).
Proof. unfold peek. by intros ->. Qed.

Lemma bind_eq {A B} (m : M A) (k : A -> M B) s r s' :
  m s = (r, s') ->
  (m ≫= k) s = match r with SOk a => k a s' | SErr e => (SErr e, s') | SPanic => (SPanic, s') end.
Proof. unfold mbind, sys_bind. intros ->. by destruct r. Qed.

(** The fields that sending and receiving leave alone. *)
Definition same_settings (q q' : MessageQueue) : Prop :=
  msg_perm (q_msqid_ds q') = msg_perm (q_msqid_ds q) /\
  msg_qbytes (q_msqid_ds q') = msg_qbytes (q_msqid_ds q) /\ mark_removed q' = mark_removed q.

(** Contents do not depend on the other fields. *)
Lemma holds_ext q q' l :
  messages q' = messages q -> total_bytes q' = total_bytes q ->
  msg_cbytes (q_msqid_ds q') = msg_cbytes (q_msqid_ds q) -> msg_qnum (q_msqid_ds q') = msg_qnum (q_msqid_ds q) ->
  holds q l -> holds q' l.
Proof. intros H1 H2 H3 H4 []. split; rewrite ?H1, ?H2, ?H3, ?H4; auto. Qed.

Lemma msgsnd_locked_spec c p msgp msgsz s q l :
  queues s !! p = Some q -> holds q l ->
  (forall d, vm_load (msgp + 8) msgsz (user s) = Ok d ->
     bytes l + size_of d < 2 ^ 64 /\ Z.of_nat (length l) + 1 < 2 ^ 64) ->
  match msgsnd_locked c p msgp msgsz s with
  | (SOk r, s') =>
      r = 0 /\ has_ipc_permission (msg_perm (q_msqid_ds q)) (c_uid c) (c_gid c) true = true /\
      exists t d q', vm_read_i64 msgp (user s) = Ok t /\ vm_load (msgp + 8) msgsz (user s) = Ok d /\ 0 < t /\
        bytes l + size_of d <= msg_qbytes (q_msqid_ds q) /\
        s' = upd p q' s /\ holds q' (l ++ [mk_message t d]) /\ same_settings q q'
  | (SErr _, s') => s' = s
  | (SPanic, _) => False
  end.
Proof.
  intros Hq Hl Hfit. unfold msgsnd_locked. erewrite bind_eq by (by apply peek_eq). cbv beta iota zeta.
  destruct (has_ipc_permission _ _ _ _) eqn:Hperm; simpl; [|done].
  unfold from_user, mbind, sys_bind.
  destruct (vm_read_i64 msgp (user s)) as [t|e] eqn:Ht; [|done].
  destruct (Z.leb_spec t 0); simpl; [done|].
  destruct (vm_load (msgp + 8) msgsz (user s)) as [d|e] eqn:Hd; [|done].
  destruct (Hfit d eq_refl) as [Hf1 Hf2].
  pose proof (bytes_nonneg l). assert (0 <= size_of d) by (unfold size_of; lia).
  rewrite (holds_bytes _ _ Hl), (holds_qnum _ _ Hl), !as_u64_small by lia.
  destruct (msg_qbytes (q_msqid_ds q) <? bytes l + size_of d) eqn:Hfull; simpl; [done|].
  destruct (_ <? Z.of_nat (length l) + 1); simpl; [done|].
  pose proof (enqueue_holds q l t d Hl Hf1 Hf2) as He. rewrite Hfull in He.
  destruct He as (q' & He & Hl').
  rewrite (locked_eq p _ s q Hq), He. simpl. rewrite (locked_eq _ _ _ q') by apply queues_upd. simpl.
  rewrite upd_upd. split_and!; [done..|].
  exists t, d, (set_sent (c_pid c) (c_now c) q'). split_and!; [done|done|lia|by apply Z.ltb_ge|done|by apply (holds_ext q')|].
  unfold enqueue_message in He. case_match; [done|]. injection He as <-. by split_and!.
Qed.

(** A selected message is the first of its type; with [MSG_COPY] it stays. *)
Lemma select_message_spec msgtyp flags q l t d removed :
  holds q l -> select_message msgtyp flags q = Ok (t, d, removed) ->
  removed = negb (contains flags MSG_COPY) /\
  (removed = true -> exists m l', take_first t l = Some (m, l') /\ data m = d).
Proof.
  intros Hl. unfold select_message. destruct (contains flags MSG_COPY); simpl.
  - case_match; [done|]. case_match; [|done]. intros [= _ _ <-]. done.
  - destruct (match_message _ _ _) as [[t' d']|] eqn:Hm; [|done]. intros [= -> -> <-].
    split; [done|]. intros _. by eapply match_message_first.
Qed.

Lemma remove_settings t i q m q' : remove_message_by_type_and_index t i q = (SOk m, q') -> same_settings q q'.
Proof. unfold remove_message_by_type_and_index. repeat case_match; intros; simplify_eq/=; by split_and!. Qed.

Lemma set_received_holds pid now q l : holds q l -> holds (set_received pid now q) l.
Proof. by apply holds_ext. Qed.

(** The queue after a receive: stamped, and without the message if it was to be removed. *)
Lemma msgrcv_locked_spec c p msgp msgsz msgtyp flags s q l :
  queues s !! p = Some q -> holds q l -> 0 <= msgsz ->
  match msgrcv_locked c p msgp msgsz msgtyp flags s with
  | (SOk n, s') =>
      has_ipc_permission (msg_perm (q_msqid_ds q)) (c_uid c) (c_gid c) false = true /\
      mark_removed q = false /\
      exists t d removed q' l' u1 u2,
        select_message msgtyp flags q = Ok (t, d, removed) /\
        n = Z.min (size_of d) msgsz /\ (n = size_of d \/ contains flags MSG_NOERROR = true) /\
        vm_write_i64 msgp t (user s) = (Ok (), u1) /\
        vm_write_slice (msgp + 8) (take (Z.to_nat n) d) u1 = (Ok (), u2) /\
        s' = mk_msg_state (key_msqid s) (msqid_queues s) (<[p := q']> (queues s)) (IPC_ID s) u2 /\
        (if removed : bool then exists m, take_first t l = Some (m, l') /\ data m = d else l' = l) /\
        holds q' l' /\ same_settings q q'
  | (SErr _, s') => exists u, s' = mk_msg_state (key_msqid s) (msqid_queues s) (queues s) (IPC_ID s) u
  | (SPanic, _) => False
  end.
Proof.
  intros Hq Hl Hsz. unfold msgrcv_locked. erewrite bind_eq by (by apply peek_eq). cbv beta iota zeta.
  assert (Hsame : exists u, s = mk_msg_state (key_msqid s) (msqid_queues s) (queues s) (IPC_ID s) u)
    by (exists (user s); by destruct s).
  destruct (has_ipc_permission _ _ _ _) eqn:Hperm; simpl; [|done].
  destruct (mark_removed q) eqn:Hrm; simpl; [done|].
  unfold mbind, sys_bind.
  destruct (select_message msgtyp flags q) as [[[t d] removed]|e] eqn:Hsel; simpl; [|done].
  destruct ((msgsz <? size_of d) && negb (contains flags MSG_NOERROR)) eqn:Hbig; simpl; [done|].
  unfold to_user.
  destruct (vm_write_i64 msgp t (user s)) as [[[]|e] u1] eqn:Hw1; [|by eexists]. simpl.
  destruct (vm_write_slice (msgp + 8) _ u1) as [[[]|e] u2] eqn:Hw2; [|by eexists]. simpl.
  assert (Hn : Z.min (size_of d) msgsz = size_of d \/ contains flags MSG_NOERROR = true).
  { destruct (contains flags MSG_NOERROR); [by right|left]. rewrite andb_true_r in Hbig.
    apply Z.ltb_ge in Hbig. lia. }
  destruct (select_message_spec _ _ _ _ _ _ _ Hl Hsel) as [Hcopy Hfirst]. destruct removed.
  - destruct (Hfirst eq_refl) as (m & l' & Htf & Hd).
    destruct (remove_holds q l t m l' Hl Htf) as (q' & Hr & Hl').
    rewrite (locked_eq p _ _ q), Hr by done. simpl. rewrite (locked_eq _ _ _ q') by apply queues_upd.
    simpl. rewrite upd_upd. split_and!; [done..|].
    exists t, d, true, (set_received (c_pid c) (c_now c) q'), l', u1, u2.
    split_and!; [done..|by exists m|by apply set_received_holds|by apply remove_settings in Hr].
  - simpl. rewrite (locked_eq p _ _ q) by done. simpl. split_and!; [done..|].
    exists t, d, false, (set_received (c_pid c) (c_now c) q), l, u1, u2.
    split_and!; [done..|by apply set_received_holds|done].
Qed.

(** The same messages, counted the same, under the same key. *)
Definition same_contents (q q' : MessageQueue) : Prop :=
  messages q' = messages q /\ total_bytes q' = total_bytes q /\
  msg_cbytes (q_msqid_ds q') = msg_cbytes (q_msqid_ds q) /\ msg_qnum (q_msqid_ds q') = msg_qnum (q_msqid_ds q) /\
  key (msg_perm (q_msqid_ds q')) = key (msg_perm (q_msqid_ds q)).

Lemma same_contents_holds q q' l : same_contents q q' -> holds q l -> holds q' l.
Proof. intros (?&?&?&?&_). by apply holds_ext. Qed.
Lemma same_contents_trans q1 q2 q3 : same_contents q1 q2 -> same_contents q2 q3 -> same_contents q1 q3.
Proof. intros (?&?&?&?&?) (?&?&?&?&?). split_and!; congruence. Qed.

(** Another queue behind [p], and other user memory. *)
Definition put (p : positive) (q : MessageQueue) (u : U) (s : msg_state U) : msg_state U :=
  mk_msg_state (key_msqid s) (msqid_queues s) (<[p := q]> (queues s)) (IPC_ID s) u.

Lemma put_self p q s : queues s !! p = Some q -> put p q (user s) s = s.
Proof. intros Hq. unfold put. rewrite insert_id by done. by destruct s. Qed.

Lemma msgctl_set_spec c p buf s q :
  queues s !! p = Some q ->
  match msgctl_set c p buf s with
  | (SPanic, _) => False
  | (_, s') => exists q', s' = put p q' (user s) s /\ same_contents q q' /\ mark_removed q' = mark_removed q
  end.
Proof.
  intros Hq. unfold msgctl_set, from_user, mbind, sys_bind.
  assert (Hself : exists q', s = put p q' (user s) s /\ same_contents q q' /\ mark_removed q' = mark_removed q)
    by (exists q; by rewrite put_self).
  destruct (vm_read_msqid_ds buf (user s)) as [b|e]; [|done].
  rewrite (locked_eq p _ s q Hq). simpl. rewrite (peek_eq _ _ _ (queues_upd _ _ _)).
  destruct (negb _); [destruct (_ && _)|]; simpl.
  - eexists; split; [done|]. by split_and!.
  - rewrite (locked_eq p _ _ _ (queues_upd _ _ _)). simpl. rewrite upd_upd.
    rewrite (locked_eq p _ _ _ (queues_upd _ _ _)). simpl. rewrite upd_upd.
    eexists; split; [done|]. by split_and!.
  - rewrite (locked_eq p _ _ _ (queues_upd _ _ _)). simpl. rewrite upd_upd.
    eexists; split; [done|]. by split_and!.
Qed.

Lemma msgctl_locked_spec c p cmd buf s q :
  queues s !! p = Some q ->
  match msgctl_locked c p cmd buf s with
  | (SPanic, _) => False
  | (r, s') =>
      exists q' u, s' = put p q' u s /\ same_contents q q' /\
        (mark_removed q = true -> r = SErr EIDRM /\ q' = q) /\
        (r = SOk true -> msg_qnum (q_msqid_ds q) = 0 /\ mark_removed q' = true) /\
        (mark_removed q' <> mark_removed q -> cmd = IPC_RMID /\ exists b, r = SOk b)
  end.
Proof.
  intros Hq. unfold msgctl_locked. erewrite bind_eq by (by apply peek_eq). cbv beta iota zeta.
  destruct (mark_removed q) eqn:Hrm; simpl.
  { exists q, (user s). by rewrite put_self. }
  destruct (cmd =? IPC_STAT); [destruct (negb _); simpl|].
  { exists q, (user s). by rewrite put_self. }
  { unfold to_user, mbind, sys_bind. destruct (vm_write_msqid_ds _ _ _) as [[[]|e] u];
      exists q, u; (split; [unfold put; by rewrite insert_id|]); by split_and!. }
  destruct (_ && _); simpl.
  { exists q, (user s). by rewrite put_self. }
  destruct (cmd =? IPC_SET).
  { pose proof (msgctl_set_spec c p buf s q Hq) as Hs. unfold mbind, sys_bind.
    destruct (msgctl_set c p buf s) as [[[]|e|] s']; [| |done]; destruct Hs as (q' & -> & Hc & Hr);
      exists q', (user s); split_and!; try done; congruence. }
  destruct (Z.eqb_spec cmd IPC_RMID) as [->|]; simpl.
  2: { exists q, (user s). by rewrite put_self. }
  unfold mbind, sys_bind. rewrite (locked_eq p _ s q Hq). simpl.
  destruct (Z.eqb_spec (msg_qnum (q_msqid_ds q)) 0); simpl.
  - eexists _, (user s). split; [done|]. split; [by split_and!|]. split; [done|]. split; [done|]. eauto.
  - rewrite (locked_eq p _ _ _ (queues_upd _ _ _)). simpl. rewrite upd_upd.
    eexists _, (user s). split; [done|]. split; [by split_and!|]. split; [done|]. split; [done|]. eauto.
Qed.

End msg.
