(* ===== verification/MsgHistory.v ===== *)
(** * Message queues under concurrency

    The system calls of [Msg] as the atomic sections they consist of: [msgget] and the
    informational commands run under the manager's lock; [msgsnd], [msgrcv] and [msgctl] look
    the queue up under that lock, release it, and then work under the lock of the queue;
    [IPC_RMID] takes the manager's lock once more to remove an empty queue.  Threads interleave
    at the section boundaries, and user memory changes at any time. *)

From S2P Require Import Prelude Ipc MsgQueue Msg.

#[local] Open Scope Z_scope.

(** ** Threads *)

Inductive request : Type :=
| RSnd (msgp msgsz : Z)
| RRcv (msgp msgsz msgtyp flags : Z)
| RCtl (cmd buf : Z).

(** Between two sections: outside a call, with a queue looked up, about to remove a queue. *)
Inductive thread : Type :=
| Idle
| Looked (c : caller) (r : request) (msqid : Z) (p : positive)
| Removing (msqid : Z).

Record kernel (U : Type) : Type := mk_kernel { k_msg : msg_state U; k_threads : gmap nat thread }.
Arguments mk_kernel {U} _ _.
Arguments k_msg {U} _.
Arguments k_threads {U} _.

Section history.
Context {U : Type} {UM : UserMemory U} {UD : UserMemoryDoc UM}.
Local Notation M := (sys (msg_state U)).

(** The rest of the system: user memory changes, and shared memory takes identifiers. *)
Definition with_env (u : U) (n : Z) (s : msg_state U) : msg_state U :=
  mk_msg_state (key_msqid s) (msqid_queues s) (queues s) n u.

Definition thread_of (k : kernel U) (i : nat) : thread := default Idle (k_threads k !! i).

(** The part of a call under the queue's lock, and what the thread does next. *)
Definition section_of (c : caller) (r : request) (msqid : Z) (p : positive) (s : msg_state U) :
    msg_state U * thread :=
  match r with
  | RSnd msgp msgsz => ((msgsnd_locked c p msgp msgsz s).2, Idle)
  | RRcv msgp msgsz msgtyp flags => ((msgrcv_locked c p msgp msgsz msgtyp flags s).2, Idle)
  | RCtl cmd buf =>
      let '(o, s') := msgctl_locked c p cmd buf s in
      (s', match o with SOk true => Removing msqid | _ => Idle end)
  end.

(** Sizes are unsigned, and [sys_msgsnd] has refused large messages. *)
Definition request_ok (r : request) : Prop :=
  match r with RSnd _ msgsz => 0 <= msgsz <= MSGMAX | RRcv _ msgsz _ _ => 0 <= msgsz | RCtl _ _ => True end.

(** What fits into memory: the messages of every queue, with the largest message added, have
    fewer than [2 ^ 64] bytes, and fewer than [2 ^ 64] messages exist. *)
Definition in_memory (s : msg_state U) : Prop :=
  forall p q l, queues s !! p = Some q -> holds q l ->
    bytes l + MSGMAX < 2 ^ 64 /\ Z.of_nat (length l) + 1 < 2 ^ 64.

(** What a section did to its queue as its caller sees it: the message a successful send read
    from user memory, or the one a successful receive delivered for good. *)
Inductive traffic : Type :=
| Sent (p : positive) (m : Message)
| Taken (p : positive) (m : Message).

Definition traffic_of (c : caller) (r : request) (p : positive) (s : msg_state U) : list traffic :=
  match r with
  | RSnd msgp msgsz =>
      match (msgsnd_locked c p msgp msgsz s).1, vm_read_i64 msgp (user s), vm_load (msgp + 8) msgsz (user s) with
      | SOk _, Ok t, Ok d => [Sent p (mk_message t d)]
      | _, _, _ => []
      end
  | RRcv msgp msgsz msgtyp flags =>
      match (msgrcv_locked c p msgp msgsz msgtyp flags s).1, select_message msgtyp flags <$> queues s !! p with
      | SOk _, Some (Ok (t, d, true)) => [Taken p (mk_message t d)]
      | _, _ => []
      end
  | RCtl _ _ => []
  end.

(** Identifiers are taken to stay below [i32::MAX]: the counter does not wrap. *)
Inductive step : list traffic -> kernel U -> kernel U -> Prop :=
| step_env k u n :
    IPC_ID (k_msg k) <= n -> step [] k (mk_kernel (with_env u n (k_msg k)) (k_threads k))
| step_get k i c key msgflg :
    thread_of k i = Idle -> IPC_ID (k_msg k) < 2 ^ 31 - 1 ->
    step [] k (mk_kernel (sys_msgget c key msgflg (k_msg k)).2 (k_threads k))
| step_lookup k i c r msqid p :
    thread_of k i = Idle -> msqid_queues (k_msg k) !! msqid = Some p ->
    request_ok r ->
    step [] k (mk_kernel (k_msg k) (<[i := Looked c r msqid p]> (k_threads k)))
| step_section k i c r msqid p s' t' :
    thread_of k i = Looked c r msqid p -> in_memory (k_msg k) ->
    section_of c r msqid p (k_msg k) = (s', t') ->
    step (traffic_of c r p (k_msg k)) k (mk_kernel s' (<[i := t']> (k_threads k)))
| step_remove k i msqid :
    thread_of k i = Removing msqid ->
    step [] k (mk_kernel (remove_msqid msqid (k_msg k)).2 (<[i := Idle]> (k_threads k))).

Definition initial (u : U) : kernel U := mk_kernel (mk_msg_state ∅ ∅ ∅ 0 u) ∅.

(** A history: the traffic so far, in the order in which the sections ran, and the kernel now. *)
Inductive history (u : U) : list traffic -> kernel U -> Prop :=
| history_start : history u [] (initial u)
| history_step log tr k k' : history u log k -> step tr k k' -> history u (log ++ tr) k'.

Definition reachable_kernel (k : kernel U) : Prop := exists u log, history u log k.
Definition moves (k k' : kernel U) : Prop := exists tr, step tr k k'.

(** The messages sent to a queue, and those received from it, in order. *)
Definition sent_to (p : positive) (log : list traffic) : list Message :=
  omap (fun e => match e with Sent p' m => if decide (p' = p) then Some m else None | Taken _ _ => None end) log.
Definition taken_from (p : positive) (log : list traffic) : list Message :=
  omap (fun e => match e with Taken p' m => if decide (p' = p) then Some m else None | Sent _ _ => None end) log.

(** ** The invariant *)

Definition queue_ok (q : MessageQueue) : Prop :=
  exists l, holds q l /\ Forall (fun m => 0 < mtype m) l.

Record kernel_inv (k : kernel U) : Prop := {
  inv_id : 0 <= IPC_ID (k_msg k);
  inv_private : key_msqid (k_msg k) !! IPC_PRIVATE = None;
  inv_queues p q : queues (k_msg k) !! p = Some q -> queue_ok q;
  inv_ids msqid p : msqid_queues (k_msg k) !! msqid = Some p ->
    p ∈ dom (queues (k_msg k)) /\ msqid < IPC_ID (k_msg k);
  inv_keys key msqid : key_msqid (k_msg k) !! key = Some msqid ->
    exists p q, msqid_queues (k_msg k) !! msqid = Some p /\ queues (k_msg k) !! p = Some q /\
      Ipc.key (msg_perm (q_msqid_ds q)) = key;
  inv_inj m1 m2 p : msqid_queues (k_msg k) !! m1 = Some p -> msqid_queues (k_msg k) !! m2 = Some p -> m1 = m2;
  inv_threads i c r msqid p : thread_of k i = Looked c r msqid p ->
    p ∈ dom (queues (k_msg k)) /\ msqid < IPC_ID (k_msg k) /\ request_ok r;
}.

(** ** It is preserved *)

Lemma take_first_Forall P t l m l' : take_first t l = Some (m, l') -> Forall P l -> Forall P l'.
Proof.
  intros Ht Hl. revert l' Ht. induction Hl as [|a l Ha Hl IH]; intros l'; simpl; [done|].
  destruct (_ =? _); [by intros [= _ <-]|]. destruct (take_first t l) as [[m' l'']|]; simpl; [|done].
  intros [= -> <-]. constructor; [done|]. by apply IH.
Qed.

(** A section changes one queue, and keeps it well-formed. *)
Lemma section_effect c r msqid p s q s' t' :
  queues s !! p = Some q -> queue_ok q -> in_memory s -> request_ok r ->
  section_of c r msqid p s = (s', t') ->
  exists q' u, s' = put p q' u s /\ queue_ok q' /\
    key (msg_perm (q_msqid_ds q')) = key (msg_perm (q_msqid_ds q)) /\
    (mark_removed q = true -> mark_removed q' = true /\ t' = Idle) /\
    (t' = Idle \/ t' = Removing msqid /\ mark_removed q' = true).
Proof.
  intros Hq (l & Hl & Hpos) Hmem Hr. destruct (Hmem p q l Hq Hl) as [Hf1 Hf2]. destruct r as [msgp msgsz|msgp msgsz msgtyp flags|cmd buf]; simpl in *.
  - intros [= <- <-]. pose proof (msgsnd_locked_spec c p msgp msgsz s q l Hq Hl) as Hs.
    lapply Hs; [clear Hs; intros Hs|intros d Hd%vm_load_length; lia].
    destruct (msgsnd_locked c p msgp msgsz s) as [[r|e|] s']; simpl; [| |done].
    + destruct Hs as (_ & _ & t & d & q' & _ & _ & Ht & _ & -> & Hl' & Hp & _ & Hm).
      exists q', (user s). rewrite Hp, Hm. split; [done|]. split; [|by auto].
      eexists; split; [done|]. apply Forall_app; split; [done|]. by repeat constructor.
    + subst s'. exists q, (user s). rewrite put_self by done. split; [done|]. split; [by exists l|by auto].
  - intros [= <- <-]. pose proof (msgrcv_locked_spec c p msgp msgsz msgtyp flags s q l Hq Hl Hr) as Hs.
    destruct (msgrcv_locked c p msgp msgsz msgtyp flags s) as [[n|e|] s']; simpl; [| |done].
    + destruct Hs as (_ & Hrm & t & d & rm & q' & l' & u1 & u2 & _ & _ & _ & _ & _ & -> & Hrest & Hl' & Hp & _ & Hm).
      exists q', u2. rewrite Hp, Hm. split; [done|]. split; [|by auto]. exists l'. split; [done|].
      destruct rm; [destruct Hrest as (m & Ht & _); by eapply take_first_Forall|by subst].
    + destruct Hs as [u ->]. exists q, u. split; [unfold put; by rewrite insert_id|]. split; [by exists l|by auto].
  - pose proof (msgctl_locked_spec c p cmd buf s q Hq) as Hs.
    destruct (msgctl_locked c p cmd buf s) as [[b|e|] s1]; [| |done]; intros [= <- <-];
      destruct Hs as (q' & u & -> & Hc & Hrm & Hb & _); exists q', u.
    + split_and!; [done|exists l; split; [by eapply same_contents_holds|done]|by apply Hc| |].
      * intros Hm. by destruct (Hrm Hm).
      * destruct b; [|by left]. right. split; [done|]. by apply Hb.
    + split_and!; [done|exists l; split; [by eapply same_contents_holds|done]|by apply Hc| |by left].
      intros Hm. destruct (Hrm Hm) as [_ ->]. done.
Qed.

(** [msgget] returns an existing queue or creates one with a fresh identifier. *)
Definition created (c : caller) (k msgflg : Z) (s : msg_state U) : msg_state U :=
  let p := fresh (dom (queues s)) in
  mk_msg_state (if k =? IPC_PRIVATE then key_msqid s else <[k := IPC_ID s]> (key_msqid s))
    (<[IPC_ID s := p]> (msqid_queues s))
    (<[p := queue_new k (Z.land msgflg 0x1ff) (c_pid c) (c_uid c) (c_gid c) (c_now c)]> (queues s))
    (as_i32 (IPC_ID s + 1)) (user s).

Lemma msgget_spec c k msgflg s :
  (forall msqid p, msqid_queues s !! msqid = Some p -> p ∈ dom (queues s)) ->
  match sys_msgget c k msgflg s with
  | (SOk id, s') =>
      (s' = s /\ k <> IPC_PRIVATE /\ key_msqid s !! k = Some id) \/
      (s' = created c k msgflg s /\ id = IPC_ID s /\ (k <> IPC_PRIVATE -> key_msqid s !! k = None))
  | (SErr _, s') => s' = s
  | (SPanic, _) => False
  end.
Proof.
  intros Hids. unfold sys_msgget, mbind, sys_bind. simpl.
  destruct (MSGMNI <=? _); simpl; [done|].
  destruct (Z.eqb_spec k IPC_PRIVATE) as [->|Hk]; simpl; [by right|].
  destruct (key_msqid s !! k) as [id|] eqn:Hid; simpl.
  - destruct (msqid_queues s !! id) as [p|] eqn:Hp; simpl; [|done].
    pose proof (Hids _ _ Hp) as [q Hq]%elem_of_dom. unfold peek. rewrite Hq.
    destruct (negb (has_ipc_permission _ _ _ _)); simpl; [done|].
    destruct (mark_removed q); simpl; [done|]. destruct (_ && _); simpl; [done|by left].
  - destruct (_ =? _); simpl; [done|]. right. split; [|done]. unfold created.
    by rewrite (proj2 (Z.eqb_neq _ _)).
Qed.

Lemma as_i32_small z : 0 <= z < 2 ^ 31 -> as_i32 z = z.
Proof. intros. unfold as_i32. rewrite Z.mod_small by lia. lia. Qed.

Lemma thread_of_insert s (ts : gmap nat thread) i t j :
  thread_of (mk_kernel s (<[i := t]> ts)) j = if decide (i = j) then t else default Idle (ts !! j).
Proof. unfold thread_of. simpl. rewrite lookup_insert. by case_decide. Qed.

Lemma inv_created k c key msgflg :
  kernel_inv k -> IPC_ID (k_msg k) < 2 ^ 31 - 1 ->
  (key <> IPC_PRIVATE -> key_msqid (k_msg k) !! key = None) ->
  kernel_inv (mk_kernel (created c key msgflg (k_msg k)) (k_threads k)).
Proof.
  intros [Hid Hpriv Hq Hids Hkeys Hinj Hth] Hlt Hnone. set (s := k_msg k) in *.
  assert (Hnew : as_i32 (IPC_ID s + 1) = IPC_ID s + 1) by (apply as_i32_small; lia).
  assert (Hfree : msqid_queues s !! IPC_ID s = None).
  { destruct (msqid_queues s !! IPC_ID s) eqn:E; [|done]. apply Hids in E. lia. }
  assert (Hfresh : fresh (dom (queues s)) ∉ dom (queues s)) by apply is_fresh.
  assert (Hp : forall m p, msqid_queues s !! m = Some p -> p <> fresh (dom (queues s))).
  { intros m p E ->. apply Hids in E as [? _]. done. }
  split; simpl; rewrite ?Hnew.
  - lia.
  - destruct (Z.eqb_spec key IPC_PRIVATE); [done|]. by rewrite lookup_insert_ne.
  - intros p q. rewrite lookup_insert. case_decide; [|apply Hq]. intros [= <-].
    exists []. split; [apply queue_new_holds|done].
  - intros m p. rewrite lookup_insert, dom_insert. rewrite elem_of_union, elem_of_singleton.
    case_decide; [intros [= <-]; split; [by left|lia]|].
    intros [? ?]%Hids. split; [by right|lia].
  - intros key' m Hkey'.
    assert (Hc : key' = key /\ key <> IPC_PRIVATE /\ m = IPC_ID s \/ key_msqid s !! key' = Some m).
    { destruct (Z.eqb_spec key IPC_PRIVATE); [by right|]. rewrite lookup_insert in Hkey'.
      case_decide; [left|by right]. by simplify_eq. }
    destruct Hc as [(-> & _ & ->)|Hold].
    + eexists _, _. rewrite !lookup_insert_eq. split_and!; done.
    + destruct (Hkeys _ _ Hold) as (p & q & Hm & Hpq & Hkq). exists p, q.
      rewrite lookup_insert_ne by congruence. rewrite lookup_insert_ne by (by apply not_eq_sym, (Hp m)). done.
  - intros m1 m2 p. rewrite !lookup_insert. repeat case_decide; intros; simplify_eq; try done.
    + by edestruct Hp.
    + by edestruct Hp.
    + by eapply Hinj.
  - intros i c' r m p (?&?&?)%Hth. rewrite dom_insert, elem_of_union. split_and!; [by right|lia|done].
Qed.

(** Replacing a queue by a well-formed one with the same key. *)
Lemma inv_put k p q q' u ts :
  kernel_inv k -> queues (k_msg k) !! p = Some q -> queue_ok q' ->
  key (msg_perm (q_msqid_ds q')) = key (msg_perm (q_msqid_ds q)) ->
  (forall j c r msqid p', default Idle (ts !! j) = Looked c r msqid p' -> thread_of k j = Looked c r msqid p') ->
  kernel_inv (mk_kernel (put p q' u (k_msg k)) ts).
Proof.
  intros [Hid Hpriv Hq Hids Hkeys Hinj Hth] Hp Hok Hkey Ht.
  assert (Hdom : dom (<[p := q']> (queues (k_msg k))) = dom (queues (k_msg k))).
  { apply dom_insert_lookup_L. by exists q. }
  split; simpl.
  - done.
  - done.
  - intros p' q0. rewrite lookup_insert. case_decide; [by intros [= <-]|apply Hq].
  - intros m p'. rewrite Hdom. apply Hids.
  - intros key' m (p' & q0 & Hm & Hq0 & <-)%Hkeys. exists p'. rewrite lookup_insert.
    case_decide as Hpp; [subst p'; exists q'; by simplify_eq|by exists q0].
  - done.
  - intros j c r m p' Hj%Ht. rewrite Hdom. by apply (Hth j c).
Qed.

Lemma inv_step tr k k' : kernel_inv k -> step tr k k' -> kernel_inv k'.
Proof.
  intros Hk. destruct 1 as [k u n Hn|k i c key msgflg Hi Hlt|k i c r msqid p Hi Hp Hr
    |k i c r msqid p s' t' Hi Hmem Hsec|k i msqid Hi].
  - destruct Hk as [Hid Hpriv Hq Hids Hkeys Hinj Hth]. split; simpl; auto; [lia| |].
    + intros m p [? ?]%Hids. split; [done|lia].
    + intros j c r m p (? & ? & ?)%Hth. split_and!; [done|lia|done].
  - pose proof (msgget_spec c key msgflg (k_msg k) (fun m p H => proj1 (inv_ids _ Hk m p H))) as Hs.
    assert (Hsame : mk_kernel (k_msg k) (k_threads k) = k) by by destruct k.
    destruct (sys_msgget c key msgflg (k_msg k)) as [[id|e|] s']; simpl; [| |done].
    + destruct Hs as [(-> & _)|(-> & _ & Hnone)]; [by rewrite Hsame|by apply inv_created].
    + subst s'. by rewrite Hsame.
  - destruct Hk as [Hid Hpriv Hq Hids Hkeys Hinj Hth]. split; simpl; auto.
    intros j c' r' m p'. rewrite thread_of_insert. case_decide; [|apply Hth].
    intros [= -> -> -> ->]. destruct (Hids _ _ Hp). done.
  - destruct (inv_threads _ Hk _ _ _ _ _ Hi) as ([q Hq]%elem_of_dom & _ & Hr).
    destruct (section_effect c r msqid p (k_msg k) q s' t') as (q' & u & -> & Hok & Hkey & _ & Ht);
      [done|by eapply inv_queues|done|done|done|].
    eapply inv_put; [done..|]. intros j c' r' m p'. rewrite lookup_insert. case_decide; [|done].
    destruct Ht as [->|[-> _]]; done.
  - destruct Hk as [Hid Hpriv Hq Hids Hkeys Hinj Hth]. split; simpl; auto.
    + apply map_lookup_filter_None. by left.
    + intros m p [_ ?]%lookup_delete_Some. by apply Hids.
    + intros key m [Hkey Hne]%map_lookup_filter_Some. destruct (Hkeys _ _ Hkey) as (p & q & Hm & ?).
      exists p, q. by rewrite lookup_delete_ne by (simpl in Hne; congruence).
    + intros m1 m2 p [_ ?]%lookup_delete_Some [_ ?]%lookup_delete_Some. by eapply Hinj.
    + intros j c r m p. rewrite thread_of_insert. case_decide; [done|apply Hth].
Qed.

Lemma inv_initial u : kernel_inv (initial u).
Proof. split; simpl; try done; intros; by simplify_map_eq. Qed.

Lemma traffic_inv u log k : history u log k -> kernel_inv k.
Proof. induction 1 as [|log tr k k' _ IH Hs]; [apply inv_initial|by eapply inv_step]. Qed.

Lemma reachable_kernel_inv k : reachable_kernel k -> kernel_inv k.
Proof. intros (u & log & H). by eapply traffic_inv. Qed.

(** Which message a receive selects. *)
Lemma select_message_choice msgtyp flags q l t d removed :
  holds q l -> select_message msgtyp flags q = Ok (t, d, removed) ->
  if contains flags MSG_COPY then removed = false /\ mk_message t d ∈ l
  else removed = true /\ exists l', take_first t l = Some (mk_message t d, l') /\
    (msgtyp <> 0 -> - 2 ^ 63 < msgtyp -> contains flags MSG_EXCEPT = false ->
     posix_choice msgtyp l = Some (mk_message t d, l')).
Proof.
  intros Hl Hs. pose proof (select_message_spec _ _ _ _ _ _ _ Hl Hs) as [Hr Hfirst].
  revert Hs. unfold select_message. destruct (contains flags MSG_COPY); simpl in Hr; subst removed.
  - case_match; [done|]. destruct (get_message_by_index _ q) as [m|] eqn:Hm; [|done].
    intros [= <- <-]. split; [done|]. destruct m. by eapply by_index_holds.
  - destruct (Hfirst eq_refl) as (m & l' & Ht & Hd). pose proof (take_first_Some _ _ _ _ Ht) as (Hmt & _).
    assert (m = mk_message t d) as -> by (destruct m; simpl in *; congruence).
    intros Hm. split; [done|]. exists l'. split; [done|]. intros H0 Hmin Hex. rewrite Hex in Hm.
    rewrite (match_message_posix q l) in Hm by done.
    destruct (posix_choice msgtyp l) as [[m' l'']|] eqn:Hc; [|done]. simpl in Hm.
    assert (Ht' : take_first (mtype m') l = Some (m', l'')).
    { unfold posix_choice in Hc. assert (Htk : exists t', take_first t' l = Some (m', l'')).
      { case_match; [by exists msgtyp|]. apply bind_Some in Hc as (t' & _ & ?). by exists t'. }
      destruct Htk as [t' Htk]. by pose proof (take_first_Some _ _ _ _ Htk) as (-> & _). }
    injection Hm as Hm1 Hm2. rewrite Hm1, Ht in Ht'. injection Ht' as <- <-. done.
Qed.

(** ** Traffic *)

(** The messages [l] are those of [sent] without those of [taken], which of every type were the
    earliest. *)
Record in_arrival_order (sent taken l : list Message) : Prop := {
  order_types t : filter (fun m => mtype m = t) sent
    = filter (fun m => mtype m = t) taken ++ filter (fun m => mtype m = t) l;
  order_bytes : bytes sent = bytes taken + bytes l;
  order_count : length sent = (length taken + length l)%nat;
  order_positive : Forall (fun m => 0 < mtype m) sent;
}.

(** What a section does to the sequence of its queue is what its traffic says. *)
Lemma section_traffic c r msqid p s q l s' t' :
  queues s !! p = Some q -> holds q l -> in_memory s -> request_ok r ->
  section_of c r msqid p s = (s', t') ->
  exists q' u l', s' = put p q' u s /\ holds q' l' /\
    (traffic_of c r p s = [] /\ l' = l \/
     (exists m, traffic_of c r p s = [Sent p m] /\ l' = l ++ [m] /\ 0 < mtype m) \/
     (exists m, traffic_of c r p s = [Taken p m] /\ take_first (mtype m) l = Some (m, l'))).
Proof.
  intros Hq Hl Hmem Hr. destruct (Hmem p q l Hq Hl) as [Hf1 Hf2].
  destruct r as [msgp msgsz|msgp msgsz msgtyp flags|cmd buf]; simpl in *.
  - intros [= <- <-]. pose proof (msgsnd_locked_spec c p msgp msgsz s q l Hq Hl) as Hs.
    lapply Hs; [clear Hs; intros Hs|intros d Hd%vm_load_length; lia].
    destruct (msgsnd_locked c p msgp msgsz s) as [[r|e|] s']; simpl; [| |done].
    + destruct Hs as (_ & _ & t & d & q' & -> & -> & Ht & _ & -> & Hl' & _).
      exists q', (user s), (l ++ [mk_message t d]). split_and!; [done|done|]. right; left. eauto.
    + subst s'. exists q, (user s), l. rewrite put_self by done. auto.
  - intros [= <- <-]. pose proof (msgrcv_locked_spec c p msgp msgsz msgtyp flags s q l Hq Hl Hr) as Hs.
    rewrite Hq. simpl.
    destruct (msgrcv_locked c p msgp msgsz msgtyp flags s) as [[n|e|] s']; simpl; [| |done].
    + destruct Hs as (_ & _ & t & d & rm & q' & l' & u1 & u2 & Hsel & _ & _ & _ & _ & -> & Hrest & Hl' & _).
      exists q', u2, l'. split_and!; [done|done|]. rewrite Hsel. destruct rm; [|by left].
      destruct Hrest as (m & Ht & <-). pose proof (take_first_Some _ _ _ _ Ht) as (Hmt & _).
      right; right. exists m. subst t. by destruct m.
    + destruct Hs as [u ->]. exists q, u, l. split; [unfold put; by rewrite insert_id|auto].
  - pose proof (msgctl_locked_spec c p cmd buf s q Hq) as Hs.
    destruct (msgctl_locked c p cmd buf s) as [[b|e|] s1]; [| |done]; intros [= <- <-];
      destruct Hs as (q' & u & -> & Hc & _); exists q', u, l; split_and!; auto; by eapply same_contents_holds.
Qed.

Lemma order_sent sent taken l m :
  in_arrival_order sent taken l -> 0 < mtype m -> in_arrival_order (sent ++ [m]) taken (l ++ [m]).
Proof.
  intros [Ht Hb Hn Hp] Hm. split.
  - intros t. rewrite !filter_app, Ht, <- app_assoc. done.
  - rewrite !bytes_app. lia.
  - rewrite !length_app. lia.
  - apply Forall_app. auto.
Qed.

Lemma order_taken sent taken l m l' :
  in_arrival_order sent taken l -> take_first (mtype m) l = Some (m, l') ->
  in_arrival_order sent (taken ++ [m]) l'.
Proof.
  intros [Ht Hb Hn Hp] (_ & Hf & Hf' & Hbl & Hlen)%take_first_Some. split; [|..|done].
  - intros t. rewrite filter_app, Ht, <- app_assoc, filter_cons, filter_nil. f_equal.
    destruct (decide (mtype m = t)) as [<-|Hne]; [done|]. rewrite Hf' by done. done.
  - rewrite bytes_app. unfold bytes at 3. simpl. lia.
  - rewrite length_app. simpl. lia.
Qed.

(** Every queue holds what its traffic has left in it. *)
Definition tracked (log : list traffic) (s : msg_state U) : Prop :=
  forall p, exists l, in_arrival_order (sent_to p log) (taken_from p log) l /\
    match queues s !! p with Some q => holds q l | None => l = [] end.

Lemma tracked_step log tr k k' :
  kernel_inv k -> tracked log (k_msg k) -> step tr k k' -> tracked (log ++ tr) (k_msg k').
Proof.
  intros Hk Ht. unfold tracked, sent_to, taken_from. setoid_rewrite omap_app.
  destruct 1 as [k u n Hn|k i c key msgflg Hi Hlt|k i c r msqid p Hi Hp Hr
    |k i c r msqid p s' t' Hi Hmem Hsec|k i msqid Hi]; simpl;
    try (setoid_rewrite app_nil_r; exact Ht).
  - setoid_rewrite app_nil_r. intros p. destruct (Ht p) as (l & Ho & Hl).
    pose proof (msgget_spec c key msgflg (k_msg k) (fun m p H => proj1 (inv_ids _ Hk m p H))) as Hs.
    destruct (sys_msgget c key msgflg (k_msg k)) as [[id|e|] s']; simpl; [| |done].
    + destruct Hs as [(-> & _)|(-> & _)]; [by exists l|]. exists l. split; [done|]. simpl.
      rewrite lookup_insert. case_decide as Hp; [|done].
      rewrite (not_elem_of_dom_1 (queues (k_msg k)) p) in Hl by (rewrite <- Hp; apply is_fresh).
      subst l. apply queue_new_holds.
    + subst s'. by exists l.
  - destruct (inv_threads _ Hk _ _ _ _ _ Hi) as ([q Hq]%elem_of_dom & _ & Hr). intros p'.
    destruct (Ht p) as (l & Ho & Hl). rewrite Hq in Hl.
    destruct (section_traffic c r msqid p (k_msg k) q l s' t') as (q' & u & l' & -> & Hl' & Htr); [done..|].
    simpl. destruct (decide (p = p')) as [<-|Hne].
    + exists l'. rewrite lookup_insert_eq. split; [|done].
      destruct Htr as [[-> ->]|[(m & -> & -> & Hm)|(m & -> & Hm)]]; simpl; rewrite ?decide_True, ?app_nil_r by done;
        [done|by apply order_sent|by eapply order_taken].
    + destruct (Ht p') as (l0 & Ho0 & Hl0). exists l0. rewrite lookup_insert_ne by done. split; [|done].
      destruct Htr as [[-> ->]|[(m & -> & -> & Hm)|(m & -> & Hm)]]; simpl; rewrite ?decide_False, ?app_nil_r by done; done.
Qed.

Lemma history_tracked u log k : history u log k -> tracked log (k_msg k).
Proof.
  induction 1 as [|log tr k k' Hh IH Hs].
  - intros p. exists []. simpl. rewrite lookup_empty. by split.
  - eapply tracked_step; [by eapply traffic_inv|done|done].
Qed.

(** ** Theorems *)

(** C7: message queues are first in, first out by type, and counted, under every interleaving of
    the critical sections of the calls.  Take any history and the log of its sends and receives.
    For every queue, in the manager or not, and every type: the messages of that type sent to
    the queue, in order, are those received from it, in order, followed by those it holds, in
    order.  The bytes sent are the bytes received and the queue's byte total, the two byte totals
    agree, and the number sent is the number received and the queue's message count.  Types are
    positive; identifiers are unique and name existing queues; a key names a queue that was
    created with it.  Histories are those in which the counter of identifiers, an [i32], does not
    wrap around and the messages of a queue fit into a 64-bit address space. *)
Theorem message_accounting u log k :
  history u log k ->
  (forall p q, queues (k_msg k) !! p = Some q ->
     (forall t, filter (fun m => mtype m = t) (sent_to p log)
        = filter (fun m => mtype m = t) (taken_from p log) ++ default [] (messages q !! t)) /\
     Forall (fun m => 0 < mtype m) (sent_to p log) /\
     bytes (sent_to p log) = bytes (taken_from p log) + total_bytes q /\
     msg_cbytes (q_msqid_ds q) = total_bytes q /\
     Z.of_nat (length (sent_to p log)) = Z.of_nat (length (taken_from p log)) + msg_qnum (q_msqid_ds q)) /\
  (forall msqid p, msqid_queues (k_msg k) !! msqid = Some p -> is_Some (queues (k_msg k) !! p)) /\
  (forall m1 m2 p, msqid_queues (k_msg k) !! m1 = Some p -> msqid_queues (k_msg k) !! m2 = Some p -> m1 = m2) /\
  (forall key msqid, key_msqid (k_msg k) !! key = Some msqid ->
     exists p q, msqid_queues (k_msg k) !! msqid = Some p /\ queues (k_msg k) !! p = Some q /\
       Ipc.key (msg_perm (q_msqid_ds q)) = key).
Proof.
  intros Hh. pose proof (history_tracked _ _ _ Hh) as Ht.
  destruct (traffic_inv _ _ _ Hh) as [Hid Hpriv Hq Hids Hkeys Hinj Hth]. split_and!; [|..|done|done].
  - intros p q Hp. destruct (Ht p) as (l & [Hty Hb Hn Hpos] & Hl). rewrite Hp in Hl.
    destruct Hl as [Hm Hne Hbl Hc Hnl Hf]. split_and!; [|done|lia|done|lia].
    intros t. by rewrite Hm, Hty.
  - intros m p Hp. apply elem_of_dom. by apply Hids in Hp as [? _].
Qed.

(** [msgsnd].  On success the caller had write permission, and the message it read from user
    memory has been appended to the queue with that identifier, which had room for it; no other
    queue, identifier or key has changed.  On an error nothing has changed. *)
Theorem msgsnd_appends k c msqid msgp msgsz msgflg :
  reachable_kernel k -> in_memory (k_msg k) -> 0 <= msgsz ->
  let s := k_msg k in
  match sys_msgsnd c msqid msgp msgsz msgflg s with
  | (SOk r, s') =>
      r = 0 /\ exists p q q' l t d,
        msqid_queues s !! msqid = Some p /\ queues s !! p = Some q /\ holds q l /\
        has_ipc_permission (msg_perm (q_msqid_ds q)) (c_uid c) (c_gid c) true = true /\
        vm_read_i64 msgp (user s) = Ok t /\ vm_load (msgp + 8) msgsz (user s) = Ok d /\
        0 < t /\ size_of d = msgsz /\ msgsz <= MSGMAX /\ bytes l + size_of d <= msg_qbytes (q_msqid_ds q) /\
        s' = put p q' (user s) s /\ holds q' (l ++ [mk_message t d]) /\ same_settings q q'
  | (SErr _, s') => s' = s
  | (SPanic, _) => False
  end.
Proof.
  intros Hk%reachable_kernel_inv Hmem Hsz s. unfold sys_msgsnd.
  destruct (Z.ltb_spec MSGMAX msgsz) as [Hmax|Hmax]; simpl; [done|].
  unfold lookup_queue, mbind, sys_bind. simpl.
  destruct (msqid_queues s !! msqid) as [p|] eqn:Hp; simpl; [|done].
  pose proof (proj1 (inv_ids _ Hk _ _ Hp)) as [q Hq]%elem_of_dom.
  destruct (inv_queues _ Hk _ _ Hq) as (l & Hl & _). destruct (Hmem p q l Hq Hl) as [Hf1 Hf2].
  pose proof (msgsnd_locked_spec c p msgp msgsz s q l Hq Hl) as Hs.
  lapply Hs; [clear Hs; intros Hs|intros d Hd%vm_load_length; lia].
  destruct (msgsnd_locked c p msgp msgsz s) as [[r|e|] s']; [|done|done].
  destruct Hs as (-> & Hperm & t & d & q' & Ht & Hd & Hpos & Hfull & -> & Hl' & Hset). split; [done|].
  pose proof (vm_load_length _ _ _ _ Hd). by exists p, q, q', l, t, d.
Qed.

(** [msgrcv].  On success the caller had read permission and the queue was not marked for
    removal; the type and the text of a message of the queue, cut to the caller's buffer only
    with [MSG_NOERROR], have been written to user memory; with [MSG_COPY] the queue keeps its
    messages, otherwise it loses exactly the delivered one, the first of its type, which for a
    positive or negative type argument is the one POSIX prescribes.  On an error no queue,
    identifier or key has changed, so no message is lost. *)
Theorem msgrcv_delivers k c msqid msgp msgsz msgtyp msgflg :
  reachable_kernel k -> 0 <= msgsz ->
  let s := k_msg k in
  match sys_msgrcv c msqid msgp msgsz msgtyp msgflg s with
  | (SOk n, s') =>
      exists p q q' l l' t d u1 u2,
        msqid_queues s !! msqid = Some p /\ queues s !! p = Some q /\ holds q l /\
        has_ipc_permission (msg_perm (q_msqid_ds q)) (c_uid c) (c_gid c) false = true /\
        mark_removed q = false /\
        n = Z.min (size_of d) msgsz /\ (n = size_of d \/ contains msgflg MSG_NOERROR = true) /\
        vm_write_i64 msgp t (user s) = (Ok (), u1) /\
        vm_write_slice (msgp + 8) (take (Z.to_nat n) d) u1 = (Ok (), u2) /\
        s' = put p q' u2 s /\ holds q' l' /\ same_settings q q' /\
        (if contains msgflg MSG_COPY then l' = l /\ mk_message t d ∈ l
         else take_first t l = Some (mk_message t d, l') /\
           (msgtyp <> 0 -> - 2 ^ 63 < msgtyp -> contains msgflg MSG_EXCEPT = false ->
            posix_choice msgtyp l = Some (mk_message t d, l')))
  | (SErr _, s') => exists u, s' = with_env u (IPC_ID s) s
  | (SPanic, _) => False
  end.
Proof.
  intros Hk%reachable_kernel_inv Hsz s. unfold sys_msgrcv.
  assert (Hself : exists u, s = with_env u (IPC_ID s) s) by (exists (user s); by destruct s).
  destruct (_ && _); simpl; [done|]. destruct (_ && _); simpl; [done|].
  unfold lookup_queue, mbind, sys_bind. simpl.
  destruct (msqid_queues s !! msqid) as [p|] eqn:Hp; simpl; [|done].
  pose proof (proj1 (inv_ids _ Hk _ _ Hp)) as [q Hq]%elem_of_dom.
  destruct (inv_queues _ Hk _ _ Hq) as (l & Hl & _).
  pose proof (msgrcv_locked_spec c p msgp msgsz msgtyp msgflg s q l Hq Hl Hsz) as Hs.
  destruct (msgrcv_locked c p msgp msgsz msgtyp msgflg s) as [[n|e|] s']; [|done|done].
  destruct Hs as (Hperm & Hrm & t & d & rm & q' & l' & u1 & u2 & Hsel & Hn & Hcut & Hw1 & Hw2 & -> & Hrest & Hl' & Hset).
  exists p, q, q', l, l', t, d, u1, u2. split_and!; try done.
  pose proof (select_message_choice _ _ _ _ _ _ _ Hl Hsel) as Hc. destruct (contains msgflg MSG_COPY).
  - destruct Hc as [-> Hin]. by subst.
  - destruct Hc as (-> & l1 & Ht & Hposix). destruct Hrest as (m & Ht' & _).
    rewrite Ht in Ht'. injection Ht' as <- <-. done.
Qed.

(** ** Queues removed while they hold messages *)

(** A queue that is marked for removal only gains messages. *)
Lemma section_marked c r msqid p s q l s' t' :
  queues s !! p = Some q -> holds q l -> in_memory s -> request_ok r -> mark_removed q = true ->
  section_of c r msqid p s = (s', t') ->
  exists q' u l2, s' = put p q' u s /\ holds q' (l ++ l2) /\ mark_removed q' = true /\ t' = Idle.
Proof.
  intros Hq Hl Hmem Hr Hm. destruct (Hmem p q l Hq Hl) as [Hf1 Hf2].
  destruct r as [msgp msgsz|msgp msgsz msgtyp flags|cmd buf]; simpl in *.
  - intros [= <- <-]. pose proof (msgsnd_locked_spec c p msgp msgsz s q l Hq Hl) as Hs.
    lapply Hs; [clear Hs; intros Hs|intros d Hd%vm_load_length; lia].
    destruct (msgsnd_locked c p msgp msgsz s) as [[r|e|] s']; simpl; [| |done].
    + destruct Hs as (_ & _ & t & d & q' & _ & _ & _ & _ & -> & Hl' & _ & _ & Hmr).
      exists q', (user s), [mk_message t d]. split_and!; [done|done|congruence|done].
    + subst s'. exists q, (user s), []. rewrite put_self, app_nil_r by done. by split_and!.
  - intros [= <- <-]. pose proof (msgrcv_locked_spec c p msgp msgsz msgtyp flags s q l Hq Hl Hr) as Hs.
    destruct (msgrcv_locked c p msgp msgsz msgtyp flags s) as [[n|e|] s']; simpl; [| |done].
    + destruct Hs as (_ & Hrm & _). congruence.
    + destruct Hs as [u ->]. exists q, u, []. rewrite app_nil_r. split_and!; [|done..].
      unfold put. by rewrite insert_id.
  - pose proof (msgctl_locked_spec c p cmd buf s q Hq) as Hs.
    destruct (msgctl_locked c p cmd buf s) as [[b|e|] s1]; [| |done]; intros [= <- <-];
      destruct Hs as (q' & u & -> & Hc & Hrm & _); destruct (Hrm Hm) as [? ->]; [done|].
    exists q, u, []. rewrite app_nil_r. by split_and!.
Qed.

(** The queue behind [msqid] is marked, holds at least [l], and no thread is about to remove it. *)
Record stuck (key msqid : Z) (p : positive) (l : list Message) (k : kernel U) : Prop := {
  stuck_inv : kernel_inv k;
  stuck_key : key_msqid (k_msg k) !! key = Some msqid;
  stuck_id : msqid_queues (k_msg k) !! msqid = Some p;
  stuck_queue : exists q l2, queues (k_msg k) !! p = Some q /\ holds q (l ++ l2) /\ mark_removed q = true;
  stuck_threads i : match thread_of k i with
    | Removing m => m <> msqid | Looked _ _ m p' => m = msqid -> p' = p | Idle => True end;
}.

Lemma stuck_section key msqid p l k i c r m p1 s' t' :
  stuck key msqid p l k -> thread_of k i = Looked c r m p1 -> in_memory (k_msg k) ->
  section_of c r m p1 (k_msg k) = (s', t') ->
  kernel_inv (mk_kernel s' (<[i := t']> (k_threads k))) ->
  stuck key msqid p l (mk_kernel s' (<[i := t']> (k_threads k))).
Proof.
  intros [Hk Hkey Hid (q & l2 & Hq & Hl & Hm) Hth] Hi Hmem Hsec Hk'.
  destruct (inv_threads _ Hk _ _ _ _ _ Hi) as ([q1 Hq1]%elem_of_dom & _ & Hr).
  pose proof (Hth i) as Hthi. rewrite Hi in Hthi.
  assert (Hothers : forall j, j <> i -> thread_of (mk_kernel s' (<[i := t']> (k_threads k))) j = thread_of k j).
  { intros j Hj. rewrite thread_of_insert. by case_decide. }
  destruct (decide (p1 = p)) as [->|Hne].
  - destruct (section_marked c r m p (k_msg k) q (l ++ l2) s' t' Hq Hl Hmem Hr Hm Hsec)
      as (q' & u & l3 & -> & Hl' & Hm' & ->).
    split; simpl; [done..| |].
    + exists q', (l2 ++ l3). rewrite lookup_insert_eq, app_assoc. by split_and!.
    + intros j. destruct (decide (j = i)) as [->|Hj]; [rewrite thread_of_insert; by case_decide|].
      rewrite Hothers by done. apply Hth.
  - destruct (section_effect c r m p1 (k_msg k) q1 s' t') as (q' & u & -> & _ & _ & _ & Ht);
      [done|by apply (inv_queues _ Hk p1)|done|done|done|].
    split; simpl; [done..| |].
    + exists q, l2. rewrite lookup_insert_ne by done. by split_and!.
    + intros j. destruct (decide (j = i)) as [->|Hj]; [|rewrite Hothers by done; apply Hth].
      rewrite thread_of_insert. case_decide; [|done]. destruct Ht as [->|[-> _]]; [done|].
      intros ->. by apply Hne, Hthi.
Qed.

Lemma stuck_step tr key msqid p l k k' : stuck key msqid p l k -> step tr k k' -> stuck key msqid p l k'.
Proof.
  intros Hs Hst. pose proof (inv_step _ _ _ (stuck_inv _ _ _ _ _ Hs) Hst) as Hk'.
  pose proof Hs as [Hk Hkey Hid (q & l2 & Hq & Hl & Hm) Hth].
  destruct Hst as [k u n Hn|k i c key' msgflg Hi Hlt|k i c r m p' Hi Hp Hr
    |k i c r m p1 s' t' Hi Hmem Hsec|k i m Hi].
  - split; simpl; try done. by exists q, l2.
  - pose proof (msgget_spec c key' msgflg (k_msg k) (fun m p H => proj1 (inv_ids _ Hk m p H))) as Hg.
    assert (Hsame : mk_kernel (k_msg k) (k_threads k) = k) by by destruct k.
    destruct (sys_msgget c key' msgflg (k_msg k)) as [[id|e|] s']; simpl in *; [| |done].
    + destruct Hg as [(-> & _)|(-> & _ & Hnone)]; [by rewrite Hsame|].
      assert (Hne : IPC_ID (k_msg k) <> msqid) by (apply (inv_ids _ Hk) in Hid as [_ ?]; lia).
      assert (Hfr : fresh (dom (queues (k_msg k))) <> p).
      { intros <-. apply (is_fresh (dom (queues (k_msg k)))). by apply (elem_of_dom_2 _ _ q). }
      split; simpl; [done| | | |done].
      * destruct (Z.eqb_spec key' IPC_PRIVATE) as [|Hpriv]; [done|].
        rewrite lookup_insert_ne; [done|]. intros ->. by rewrite Hnone in Hkey.
      * by rewrite lookup_insert_ne.
      * exists q, l2. by rewrite lookup_insert_ne.
    + subst s'. by rewrite Hsame.
  - split; simpl; [done..|by exists q, l2|]. intros j. rewrite thread_of_insert. case_decide; [|apply Hth].
    intros ->. congruence.
  - by eapply stuck_section.
  - assert (Hne : m <> msqid) by (pose proof (Hth i) as Ht; by rewrite Hi in Ht).
    split; simpl; [done| | |by exists q, l2|].
    + apply map_lookup_filter_Some. split; [done|]. by apply not_eq_sym.
    + by rewrite lookup_delete_ne.
    + intros j. rewrite thread_of_insert. case_decide; [done|apply Hth].
Qed.

(** Removing a queue that holds messages only marks it. *)
Lemma rmid_marks c msqid p q l buf s r s1 :
  msqid_queues s !! msqid = Some p -> queues s !! p = Some q -> holds q l -> l <> [] ->
  sys_msgctl c msqid IPC_RMID buf s = (SOk r, s1) ->
  exists q' u, s1 = put p q' u s /\ same_contents q q' /\ mark_removed q' = true.
Proof.
  intros Hp Hq Hl Hne. unfold sys_msgctl, lookup_queue, mbind, sys_bind. simpl. rewrite Hp. simpl.
  assert (Hn : msg_qnum (q_msqid_ds q) <> 0) by (rewrite (holds_qnum _ _ Hl); destruct l; [done|simpl; lia]).
  pose proof (msgctl_locked_spec c p IPC_RMID buf s q Hq) as Hs.
  assert (Hmark : forall b s', msgctl_locked c p IPC_RMID buf s = (SOk b, s') ->
    exists q' u, s' = put p q' u s /\ mark_removed q' = true).
  { intros b s'. unfold msgctl_locked. erewrite bind_eq by (by apply peek_eq). cbv beta iota zeta.
    destruct (mark_removed q); simpl; [done|]. destruct (_ && _); simpl; [done|].
    unfold mbind, sys_bind. rewrite (locked_eq p _ s q Hq). simpl.
    rewrite (proj2 (Z.eqb_neq _ _)) by done. rewrite (locked_eq p _ _ _ (queues_upd _ _ _)). simpl.
    rewrite upd_upd. intros [= _ <-]. by eexists _, (user s). }
  destruct (msgctl_locked c p IPC_RMID buf s) as [[b|e|] s'] eqn:E; [|done|done].
  destruct Hs as (q' & u & -> & Hc & _ & Hb & _). destruct (Hmark _ _ eq_refl) as (q2 & u2 & Heq & Hm2).
  assert (Hq2 : q' = q2).
  { pose proof (f_equal (fun st => queues st !! p) Heq) as Hl2. unfold put in Hl2. simpl in Hl2.
    rewrite !lookup_insert_eq in Hl2. by simplify_eq. }
  subst q2. destruct b; [by destruct (Hb eq_refl)|]. simpl. intros [= _ <-]. by exists q', u.
Qed.

(** removing a queue that still holds messages never frees it.  [IPC_RMID] marks the queue
    and leaves the deletion to the receivers that empty it, but every receive from a marked queue
    is refused: whatever calls follow, the queue keeps its identifier and all its messages, and
    [msgget] with its key fails, so neither memory nor key can be used again. *)
Theorem removed_queue_never_freed k key msqid p q l c buf r s1 k' :
  reachable_kernel k -> (forall i, thread_of k i = Idle) ->
  key_msqid (k_msg k) !! key = Some msqid -> msqid_queues (k_msg k) !! msqid = Some p ->
  queues (k_msg k) !! p = Some q -> holds q l -> l <> [] ->
  sys_msgctl c msqid IPC_RMID buf (k_msg k) = (SOk r, s1) ->
  rtc moves (mk_kernel s1 (k_threads k)) k' ->
  msqid_queues (k_msg k') !! msqid = Some p /\
  (exists q' l2, queues (k_msg k') !! p = Some q' /\ holds q' (l ++ l2)) /\
  (forall c msgflg, exists e, (sys_msgget c key msgflg (k_msg k')).1 = SErr e) /\
  (forall c msgp msgsz msgtyp msgflg,
     exists e, (sys_msgrcv c msqid msgp msgsz msgtyp msgflg (k_msg k')).1 = SErr e).
Proof.
  intros Hk%reachable_kernel_inv Hidle Hkey Hp Hq Hl Hne Hctl Hrun.
  destruct (rmid_marks c msqid p q l buf (k_msg k) r s1) as (q' & u & -> & Hc & Hm); [done..|].
  assert (Hst : stuck key msqid p l (mk_kernel (put p q' u (k_msg k)) (k_threads k))).
  { split; simpl; [|done|done| |].
    - destruct (inv_queues _ Hk _ _ Hq) as (l0 & Hl0 & Hpos).
      apply (inv_put k p q q'); [done..| |by apply Hc|done].
      exists l0. split; [by eapply same_contents_holds|done].
    - exists q', []. rewrite lookup_insert_eq, app_nil_r. split_and!; [done|by eapply same_contents_holds|done].
    - intros i. specialize (Hidle i). unfold thread_of in *. simpl. by rewrite Hidle. }
  assert (Hst' : stuck key msqid p l k') by (clear -Hst Hrun UD; induction Hrun as [|? ? ? [tr ?]]; eauto using stuck_step).
  destruct Hst' as [Hk' Hkey' Hid' (q2 & l2 & Hq2 & Hl2 & Hm2) _]. split_and!; [done|by exists q2, l2|..].
  - intros c' msgflg. unfold sys_msgget, mbind, sys_bind. simpl. destruct (MSGMNI <=? _); simpl; [by eexists|].
    destruct (Z.eqb_spec key IPC_PRIVATE) as [->|]; [by rewrite (inv_private _ Hk') in Hkey'|].
    rewrite Hkey'. simpl. rewrite Hid'. simpl. unfold peek. rewrite Hq2.
    destruct (negb _); simpl; [by eexists|]. rewrite Hm2. by eexists.
  - intros c' msgp msgsz msgtyp msgflg. unfold sys_msgrcv.
    destruct (_ && _); simpl; [by eexists|]. destruct (_ && _); simpl; [by eexists|].
    unfold lookup_queue, mbind, sys_bind. simpl. rewrite Hid'. simpl. unfold msgrcv_locked.
    erewrite bind_eq by (by apply peek_eq). cbv beta iota zeta.
    destruct (negb _); simpl; [by eexists|]. rewrite Hm2. by eexists.
Qed.

End history.

(** ** A concrete kernel *)

(** User memory as a single message buffer. *)
Record box : Type := mk_box { box_type : Z; box_text : list Z }.

#[export] Instance box_memory : UserMemory box := {
  vm_read_i64 _ u := Ok (box_type u);
  vm_load _ n u :=
    if (0 <=? n) && (n <=? Z.of_nat (length (box_text u))) then Ok (take (Z.to_nat n) (box_text u)) else Err EFAULT;
  vm_write_i64 _ t u := (Ok (), mk_box t (box_text u));
  vm_write_slice _ d u := (Ok (), mk_box (box_type u) d);
  vm_read_msqid_ds _ _ := Err EFAULT;
  vm_write_msqid_ds _ _ u := (Err EFAULT, u);
  vm_write_msginfo _ _ u := (Err EFAULT, u);
}.

#[export] Instance box_memory_doc : UserMemoryDoc box_memory.
Proof.
  split. intros a n u d. simpl. destruct (Z.leb_spec 0 n), (Z.leb_spec n (Z.of_nat (length (box_text u)))); simpl; try done.
  intros [= <-]. unfold size_of. rewrite length_take. lia.
Qed.

Lemma in_memory_check {U} (s : msg_state U) :
  forallb (fun pq => (total_bytes pq.2 + MSGMAX <? 2 ^ 64) && (msg_qnum (q_msqid_ds pq.2) + 1 <? 2 ^ 64))
    (map_to_list (queues s)) = true -> in_memory s.
Proof.
  intros Hall p q l Hq Hl. rewrite forallb_forall in Hall. specialize (Hall (p, q)).
  rewrite <- list_elem_of_In, elem_of_map_to_list in Hall. specialize (Hall Hq). simpl in Hall. bool_hyps.
  rewrite <- (holds_bytes _ _ Hl), <- (holds_qnum _ _ Hl). done.
Qed.

(** Root creates a queue with key 7 and sends a message of type 2. *)
Definition root : caller := mk_caller 1 0 0 0.
Definition queue_made : kernel box :=
  mk_kernel (sys_msgget root 7 0x380 (k_msg (initial (mk_box 2 [10; 11])))).2 ∅.
Definition sending : kernel box :=
  mk_kernel (k_msg queue_made) {[ 0%nat := Looked root (RSnd 0x1000 2) 0 1 ]}.
Definition queue_filled : kernel box :=
  mk_kernel (msgsnd_locked root 1 0x1000 2 (k_msg sending)).2 {[ 0%nat := Idle ]}.

Lemma queue_made_history : history (mk_box 2 [10; 11]) [] queue_made.
Proof.
  apply (history_step _ [] [] _ _ (history_start _)).
  by apply (step_get (initial (mk_box 2 [10; 11])) 0 root 7 0x380).
Qed.

Lemma queue_filled_history : history (mk_box 2 [10; 11]) [Sent 1 (mk_message 2 [10; 11])] queue_filled.
Proof.
  apply (history_step _ [] [Sent 1 (mk_message 2 [10; 11])] sending).
  - apply (history_step _ [] [] queue_made); [apply queue_made_history|].
    apply (step_lookup queue_made 0 root (RSnd 0x1000 2) 0 1); [done|vm_compute; reflexivity|done].
  - assert (traffic_of root (RSnd 0x1000 2) 1 (k_msg sending) = [Sent 1 (mk_message 2 [10; 11])]) as <-
      by (vm_compute; reflexivity).
    apply (step_section sending 0 root (RSnd 0x1000 2) 0 1); [done|by apply in_memory_check|done].
Qed.

Lemma queue_made_reachable : reachable_kernel queue_made.
Proof. eexists _, _. apply queue_made_history. Qed.
Lemma queue_filled_reachable : reachable_kernel queue_filled.
Proof. eexists _, _. apply queue_filled_history. Qed.

Lemma message_accounting_witness :
  exists q, queues (k_msg queue_filled) !! 1%positive = Some q /\
    default [] (messages q !! 2) = [mk_message 2 [10; 11]] /\ msg_qnum (q_msqid_ds q) = 1.
Proof.
  destruct (message_accounting _ _ _ queue_filled_history) as (Hq & Hid & _).
  destruct (Hid 0 1%positive) as [q Hlk]; [vm_compute; reflexivity|]. exists q. split; [done|].
  destruct (Hq _ _ Hlk) as (Ht & _ & _ & _ & Hn). specialize (Ht 2). simpl in Ht, Hn. split; [done|lia].
Defined.

Lemma msgsnd_appends_witness :
  exists q, queues (sys_msgsnd root 0 0x1000 2 0 (k_msg queue_made)).2 !! 1%positive = Some q /\
    holds q [mk_message 2 [10; 11]].
Proof.
  pose proof (msgsnd_appends queue_made root 0 0x1000 2 0 queue_made_reachable) as H.
  specialize (H ltac:(by apply in_memory_check) ltac:(done)). cbv zeta in H.
  destruct (sys_msgsnd root 0 0x1000 2 0 (k_msg queue_made)) as [[r|e|] s'] eqn:E;
    [|by vm_compute in E|done].
  destruct H as (_ & p & q & q' & l & t & d & Hp & Hq & Hl & _ & Ht & Hd & _ & _ & _ & _ & -> & Hl' & _).
  assert (p = 1%positive) as -> by (vm_compute in Hp; by injection Hp).
  simpl in Ht, Hd. injection Ht as <-. injection Hd as <-.
  exists q'. split; [apply lookup_insert_eq|].
  assert (l = []) as ->; [|done]. apply length_zero_iff_nil.
  pose proof (holds_qnum _ _ Hl) as Hn. revert Hn. vm_compute in Hq. injection Hq as <-. simpl. lia.
Defined.

Lemma msgrcv_delivers_witness :
  exists u, user (sys_msgrcv root 0 0x1000 2 2 0 (k_msg queue_filled)).2 = u /\ box_text u = [10; 11].
Proof.
  pose proof (msgrcv_delivers queue_filled root 0 0x1000 2 2 0 queue_filled_reachable ltac:(done)) as H.
  cbv zeta in H. exists (mk_box 2 [10; 11]). split; [|done].
  destruct (sys_msgrcv root 0 0x1000 2 2 0 (k_msg queue_filled)) as [[r|e|] s'] eqn:E; vm_compute in E; try done.
  by injection E as <- <-.
Defined.

(** The queue with one message is removed. *)
Definition queue_doomed : msg_state box := (sys_msgctl root 0 IPC_RMID 0 (k_msg queue_filled)).2.

Lemma queue_filled_idle i : thread_of queue_filled i = Idle.
Proof. unfold thread_of. simpl. by destruct (decide (i = 0%nat)) as [->|]; simplify_map_eq. Qed.

Definition filled_queue : MessageQueue :=
  default (queue_new 0 0 0 0 0 0) (queues (k_msg queue_filled) !! 1%positive).

Lemma removed_queue_never_freed_witness :
  exists e, (sys_msgget root 7 0x380 queue_doomed).1 = SErr e.
Proof.
  assert (Hq : queues (k_msg queue_filled) !! 1%positive = Some filled_queue) by (vm_compute; reflexivity).
  destruct (inv_queues _ (reachable_kernel_inv _ queue_filled_reachable) _ _ Hq) as (l & Hl & _).
  assert (Hne : l <> []) by (intros ->; apply holds_qnum in Hl; by vm_compute in Hl).
  assert (Hctl : sys_msgctl root 0 IPC_RMID 0 (k_msg queue_filled) = (SOk 0, queue_doomed)) by (vm_compute; reflexivity).
  destruct (removed_queue_never_freed queue_filled 7 0 1%positive filled_queue l root 0 0 queue_doomed
    (mk_kernel queue_doomed (k_threads queue_filled)) queue_filled_reachable queue_filled_idle)
    as (_ & _ & Hget & _);
    [vm_compute; reflexivity|vm_compute; reflexivity|exact Hq|exact Hl|exact Hne|exact Hctl|apply rtc_refl|].
  apply Hget.
Defined.

(** a message sent to a queue that has been removed is accepted and lost.  [msgsnd] does not
    look at the removal mark, although its comment announces the check: after [IPC_RMID] of a
    queue with a message, a further send succeeds and is counted, while every receive is refused;
    and a send that had looked the queue up before an empty queue was removed succeeds on a
    queue no identifier names any more. *)
Theorem send_to_removed_queue_succeeds :
  (sys_msgsnd root 0 0x1000 2 0 queue_doomed).1 = SOk 0 /\
  (sys_msgrcv root 0 0x1000 2 0 0 (sys_msgsnd root 0 0x1000 2 0 queue_doomed).2).1 = SErr EIDRM /\
  let removed := (sys_msgctl root 0 IPC_RMID 0 (k_msg queue_made)).2 in
  msqid_queues removed = ∅ /\ (msgsnd_locked root 1 0x1000 2 removed).1 = SOk 0.
Proof. cbv zeta. split_and!; vm_compute; reflexivity. Qed.
