(* ===== verification/Shm.v ===== *)
(** * Bidirectional maps

    [BiBTreeMap] of [kernel/src/syscall/ipc/shm.rs], a pair of maps kept inverse to each other;
    keys and values are integers (identifiers, addresses).

    The second part is System V shared memory, which uses two of them. *)

From S2P Require Import Prelude Ipc.

#[local] Open Scope Z_scope.

Record BiBTreeMap : Type := mk_bimap { forward : gmap Z Z; reverse : gmap Z Z }.

Definition bimap_new : BiBTreeMap := mk_bimap ∅ ∅.

(** [BiBTreeMap::insert]: each of the two insertions removes what it displaces from the other
    map. *)
Definition bimap_insert (k v : Z) (m : BiBTreeMap) : BiBTreeMap :=
  let fwd1 := match reverse m !! v with Some old_key => delete old_key (forward m) | None => forward m end in
  let rev1 := <[v := k]> (reverse m) in
  let rev2 := match fwd1 !! k with Some old_value => delete old_value rev1 | None => rev1 end in
  mk_bimap (<[k := v]> fwd1) rev2.

Definition get_by_key (k : Z) (m : BiBTreeMap) : option Z := forward m !! k.
Definition get_by_value (v : Z) (m : BiBTreeMap) : option Z := reverse m !! v.

(** [BiBTreeMap::remove_by_key] and [remove_by_value], with the value they return. *)
Definition remove_by_key (k : Z) (m : BiBTreeMap) : option Z * BiBTreeMap :=
  match forward m !! k with
  | Some v => (Some v, mk_bimap (delete k (forward m)) (delete v (reverse m)))
  | None => (None, mk_bimap (delete k (forward m)) (reverse m))
  end.
Definition remove_by_value (v : Z) (m : BiBTreeMap) : option Z * BiBTreeMap :=
  match reverse m !! v with
  | Some k => (Some k, mk_bimap (delete k (forward m)) (delete v (reverse m)))
  | None => (None, mk_bimap (forward m) (delete v (reverse m)))
  end.

(** The two maps are inverse to each other. *)
Definition bijective (m : BiBTreeMap) : Prop :=
  forall k v, forward m !! k = Some v <-> reverse m !! v = Some k.

Lemma bimap_new_bijective : bijective bimap_new.
Proof. intros k v. simpl. by rewrite !lookup_empty. Qed.

(** What the maps hold after an insertion: the new pair, and the old pairs that share neither
    key nor value with it. *)
Lemma bimap_insert_forward k v m k' v' :
  bijective m ->
  forward (bimap_insert k v m) !! k' = Some v' <->
  (k' = k /\ v' = v) \/ (k' <> k /\ v' <> v /\ forward m !! k' = Some v').
Proof.
  intros Hb. simpl. rewrite lookup_insert_Some.
  assert (Hf : forall k0 v0, match reverse m !! v with Some old => delete old (forward m) | None => forward m end
    !! k0 = Some v0 <-> v0 <> v /\ forward m !! k0 = Some v0).
  { intros k0 v0. destruct (reverse m !! v) as [old|] eqn:Hr.
    - apply Hb in Hr. rewrite lookup_delete_Some. split.
      + intros [Hne Hl]. split; [|done]. intros ->. apply Hb in Hl, Hr. congruence.
      + intros [Hne Hl]. split; [|done]. intros ->. congruence.
    - split; [|by intros [_ ?]]. intros Hl. split; [|done]. intros ->. apply Hb in Hl. congruence. }
  rewrite Hf. intuition congruence.
Qed.

Lemma bimap_insert_reverse k v m k' v' :
  bijective m ->
  reverse (bimap_insert k v m) !! v' = Some k' <->
  (k' = k /\ v' = v) \/ (k' <> k /\ v' <> v /\ forward m !! k' = Some v').
Proof.
  intros Hb. simpl. set (fwd1 := match reverse m !! v with Some old => _ | None => _ end).
  assert (Hf : forall v0, fwd1 !! k = Some v0 <-> v0 <> v /\ forward m !! k = Some v0).
  { intros v0. subst fwd1. destruct (reverse m !! v) as [old|] eqn:Hr.
    - apply Hb in Hr. rewrite lookup_delete_Some. split; [|intuition congruence].
      intros [Hne Hl]. split; [|done]. intros ->. apply Hb in Hl, Hr. congruence.
    - split; [|by intros [_ ?]]. intros Hl. split; [|done]. intros ->. apply Hb in Hl. congruence. }
  destruct (fwd1 !! k) as [old|] eqn:Ho.
  - destruct (proj1 (Hf old) eq_refl) as [Hne Hold].
    rewrite lookup_delete_Some, lookup_insert_Some. split.
    + intros [Ho' [[-> ->]|[Hv Hr]]]; [by left|]. right. apply Hb in Hr.
      split_and!; [|congruence|done]. intros ->. congruence.
    + intros [[-> ->]|(Hk & Hv & Hl)]; [by split; [|left]|].
      split; [intros ->; apply Hb in Hl, Hold; congruence|]. right. split; [congruence|by apply Hb].
  - rewrite lookup_insert_Some. split.
    + intros [[-> ->]|[Hv Hr]]; [by left|]. right. apply Hb in Hr. split_and!; [|congruence|done].
      intros ->. by pose proof (proj2 (Hf v') (conj (not_eq_sym Hv) Hr)).
    + intros [[-> ->]|(Hk & Hv & Hl)]; [by left|]. right. split; [congruence|by apply Hb].
Qed.

Lemma bimap_insert_bijective k v m : bijective m -> bijective (bimap_insert k v m).
Proof. intros Hb k' v'. by rewrite bimap_insert_forward, bimap_insert_reverse. Qed.

Lemma remove_by_value_forward v m k' v' :
  bijective m -> forward (remove_by_value v m).2 !! k' = Some v' <-> v' <> v /\ forward m !! k' = Some v'.
Proof.
  intros Hb. unfold remove_by_value. destruct (reverse m !! v) as [k|] eqn:Hr; simpl.
  - apply Hb in Hr. rewrite lookup_delete_Some. split; intros [Hne Hl]; (split; [|done]); intros ->.
    + apply Hb in Hl, Hr. congruence.
    + congruence.
  - split; [|by intros [_ ?]]. intros Hl. split; [|done]. intros ->. apply Hb in Hl. congruence.
Qed.

Lemma remove_by_value_bijective v m : bijective m -> bijective (remove_by_value v m).2.
Proof.
  intros Hb k' v'. rewrite remove_by_value_forward by done. unfold remove_by_value.
  destruct (reverse m !! v); simpl; rewrite lookup_delete_Some, (Hb k' v'); intuition congruence.
Qed.

(** C40: [BiBTreeMap] is a bijection.  Its two maps are inverse to each other in every state the
    operations lead to; an insertion maps the key to the value and forgets exactly the pairs that
    share one of them; a removal by key or by value forgets exactly that pair. *)
Theorem bimap_is_bijection m k v :
  bijective m ->
  bijective (bimap_insert k v m) /\ bijective (remove_by_key k m).2 /\ bijective (remove_by_value v m).2 /\
  (forall k' v', get_by_key k' (bimap_insert k v m) = Some v' <->
     (k' = k /\ v' = v) \/ (k' <> k /\ v' <> v /\ get_by_key k' m = Some v')) /\
  (forall k' v', get_by_key k' (remove_by_key k m).2 = Some v' <-> k' <> k /\ get_by_key k' m = Some v') /\
  (forall k' v', get_by_key k' (remove_by_value v m).2 = Some v' <-> v' <> v /\ get_by_key k' m = Some v') /\
  (remove_by_key k m).1 = get_by_key k m /\ (remove_by_value v m).1 = get_by_value v m.
Proof.
  intros Hb. assert (Hk : forall k' v', forward (remove_by_key k m).2 !! k' = Some v' <->
    k' <> k /\ forward m !! k' = Some v').
  { intros k' v'. unfold remove_by_key. destruct (forward m !! k); simpl; rewrite lookup_delete_Some; intuition congruence. }
  split_and!.
  - by apply bimap_insert_bijective.
  - intros k' v'. rewrite Hk. unfold remove_by_key. destruct (forward m !! k) as [v0|] eqn:Hf; simpl.
    + rewrite lookup_delete_Some, (Hb k' v'). pose proof (proj1 (Hb _ _) Hf) as Hv0.
      split; intros [Hne Hr]; (split; [|done]); [congruence|]. intros ->. apply Hb in Hr. congruence.
    + rewrite (Hb k' v'). split; [by intros [_ ?]|]. intros Hr. split; [|done]. intros ->. apply Hb in Hr. congruence.
  - by apply remove_by_value_bijective.
  - intros k' v'. by apply bimap_insert_forward.
  - apply Hk.
  - intros k' v'. by apply remove_by_value_forward.
  - unfold remove_by_key, get_by_key. by destruct (forward m !! k).
  - unfold remove_by_value, get_by_value. by destruct (reverse m !! v).
Qed.

Lemma bimap_is_bijection_witness :
  get_by_key 1 (bimap_insert 2 20 (bimap_insert 1 10 bimap_new)) = Some 10 /\
  get_by_key 1 (bimap_insert 2 10 (bimap_insert 1 10 bimap_new)) = None.
Proof.
  destruct (bimap_is_bijection bimap_new 1 10 bimap_new_bijective) as (H1 & _).
  destruct (bimap_is_bijection _ 2 20 H1) as (_ & _ & _ & Hget & _).
  split; [|vm_compute; reflexivity]. apply Hget. right. by split_and!.
Defined.

(** * System V shared memory

    [ShmInner], [ShmManager] and the system calls [shmget], [shmat], [shmctl] and [shmdt] of
    [kernel/src/syscall/ipc/shm.rs], and what a process does to them when it exits.  Address
    spaces, page frames and user memory are parameters; segments are shared objects in a heap. *)

#[local] Open Scope Z_scope.

(** [ShmidDs]. *)
Record ShmidDs : Type := mk_shmid_ds {
  shm_perm : IpcPerm;
  shm_segsz : Z;
  shm_atime : Z;
  shm_dtime : Z;
  shm_ctime : Z;
  shm_cpid : Z;
  shm_lpid : Z;
  shm_nattch : Z;
}.

(** [ShmidDs::new]. *)
Definition shmid_ds_new (k size m pid : Z) : ShmidDs :=
  mk_shmid_ds (mk_perm k 0 0 0 0 m) size 0 0 0 pid pid 0.

(** A virtual address range, and the pages behind a segment. *)
Record va_range_t : Type := mk_range { range_start : Z; range_size : Z }.

(** [ShmInner]. *)
Record ShmInner : Type := mk_inner {
  shmid : Z;
  page_num : Z;
  va_range : gmap Z va_range_t;
  phys_pages : option Z;
  rmid : bool;
  mapping_flags : Z;
  shmid_ds : ShmidDs;
}.

Definition PAGE_SIZE_4K : Z := 4096.

(** [align_up_4k] and [align_down_4k] of [memory_addr]. *)
Definition align_up_4k (a : Z) : Z := as_u64 (a + 4095) / PAGE_SIZE_4K * PAGE_SIZE_4K.
Definition align_down_4k (a : Z) : Z := a / PAGE_SIZE_4K * PAGE_SIZE_4K.

(** [ShmInner::new]. *)
Definition inner_new (k id size flags pid : Z) : ShmInner :=
  mk_inner id (align_up_4k size / PAGE_SIZE_4K) ∅ None false flags (shmid_ds_new k size flags pid).

(** Updates of fields. *)
Definition set_ds (ds : ShmidDs) (i : ShmInner) : ShmInner :=
  mk_inner (shmid i) (page_num i) (va_range i) (phys_pages i) (rmid i) (mapping_flags i) ds.
Definition set_lpid (pid : Z) (ds : ShmidDs) : ShmidDs :=
  mk_shmid_ds (shm_perm ds) (shm_segsz ds) (shm_atime ds) (shm_dtime ds) (shm_ctime ds) (shm_cpid ds) pid
    (shm_nattch ds).
Definition set_ctime (now : Z) (ds : ShmidDs) : ShmidDs :=
  mk_shmid_ds (shm_perm ds) (shm_segsz ds) (shm_atime ds) (shm_dtime ds) now (shm_cpid ds) (shm_lpid ds)
    (shm_nattch ds).
Definition set_rmid (i : ShmInner) : ShmInner :=
  mk_inner (shmid i) (page_num i) (va_range i) (phys_pages i) true (mapping_flags i) (shmid_ds i).

(** [ShmInner::try_update]. *)
Definition try_update (size flags pid : Z) : sys ShmInner Z := fun i =>
  if negb (size =? shm_segsz (shmid_ds i)) || negb (flags =? mode (shm_perm (shmid_ds i)))
  then (SErr EINVAL, i)
  else (SOk (shmid i), set_ds (set_lpid pid (shmid_ds i)) i).

(** [ShmInner::map_to_phys]. *)
Definition map_to_phys (pages : Z) (i : ShmInner) : ShmInner :=
  mk_inner (shmid i) (page_num i) (va_range i) (Some pages) (rmid i) (mapping_flags i) (shmid_ds i).

(** [ShmInner::attach_count] and [get_addr_range]. *)
Definition attach_count (i : ShmInner) : Z := Z.of_nat (size (va_range i)).
Definition get_addr_range (pid : Z) (i : ShmInner) : option va_range_t := va_range i !! pid.

(** [ShmInner::attach_process] and [detach_process]; the counter has 16 bits. *)
Definition attach_process (pid : Z) (r : va_range_t) (now : Z) : sys ShmInner () := fun i =>
  if bool_decide (is_Some (get_addr_range pid i)) then (SPanic, i)
  else
    let ds := shmid_ds i in
    (SOk (), mk_inner (shmid i) (page_num i) (<[pid := r]> (va_range i)) (phys_pages i) (rmid i)
               (mapping_flags i)
               (mk_shmid_ds (shm_perm ds) (shm_segsz ds) now (shm_dtime ds) (shm_ctime ds) (shm_cpid ds) pid
                  (as_u16 (shm_nattch ds + 1)))).
Definition detach_process (pid now : Z) : sys ShmInner () := fun i =>
  if negb (bool_decide (is_Some (get_addr_range pid i))) then (SPanic, i)
  else
    let ds := shmid_ds i in
    (SOk (), mk_inner (shmid i) (page_num i) (delete pid (va_range i)) (phys_pages i) (rmid i)
               (mapping_flags i)
               (mk_shmid_ds (shm_perm ds) (shm_segsz ds) (shm_atime ds) now (shm_ctime ds) (shm_cpid ds) pid
                  (as_u16 (shm_nattch ds - 1)))).

(** What the system calls use of memory management ([AddrSpace], [SharedPages]), of the paging
    flags and of user memory.  Every address space is searched as a whole, by pages. *)
Class ShmMemory (MM : Type) : Type := {
  FLAG_READ : Z;
  FLAG_WRITE : Z;
  FLAG_EXECUTE : Z;
  FLAG_USER : Z;
  aspace_base : Z -> MM -> Z;
  find_free_area : Z -> Z -> Z -> MM -> option Z;
  aspace_map : Z -> Z -> Z -> Z -> Z -> MM -> result LinuxError () * MM;
  aspace_unmap : Z -> Z -> Z -> MM -> result LinuxError () * MM;
  new_shared_pages : Z -> MM -> result LinuxError Z * MM;
  read_shmid_ds : Z -> MM -> result LinuxError ShmidDs;
  write_shmid_ds : Z -> ShmidDs -> MM -> result LinuxError () * MM;
}.

(** [ShmManager], the heap of segments, the identifier counter and the parameters' state. *)
Record shm_state (MM : Type) : Type := mk_shm_state {
  key_shmid : BiBTreeMap;
  shmid_inner : gmap Z positive;
  pid_shmid_vaddr : gmap Z BiBTreeMap;
  inners : gmap positive ShmInner;
  SHM_IPC_ID : Z;
  mm : MM;
}.
Arguments mk_shm_state {MM} _ _ _ _ _ _.
Arguments key_shmid {MM} _.
Arguments shmid_inner {MM} _.
Arguments pid_shmid_vaddr {MM} _.
Arguments inners {MM} _.
Arguments SHM_IPC_ID {MM} _.
Arguments mm {MM} _.

Section shm.
Context {MM : Type} {SM : ShmMemory MM}.
Local Notation M := (sys (shm_state MM)).

(** ** State access *)

Definition set_key_shmid f : M () := modify (fun s =>
  mk_shm_state (f (key_shmid s)) (shmid_inner s) (pid_shmid_vaddr s) (inners s) (SHM_IPC_ID s) (mm s)).
Definition set_shmid_inner f : M () := modify (fun s =>
  mk_shm_state (key_shmid s) (f (shmid_inner s)) (pid_shmid_vaddr s) (inners s) (SHM_IPC_ID s) (mm s)).
Definition set_vaddrs f : M () := modify (fun s =>
  mk_shm_state (key_shmid s) (shmid_inner s) (f (pid_shmid_vaddr s)) (inners s) (SHM_IPC_ID s) (mm s)).

Definition with_inner {A} (p : positive) (m : sys ShmInner A) : M A := fun s =>
  match inners s !! p with
  | None => (SPanic, s)
  | Some i =>
      let '(r, i') := m i in
      (r, mk_shm_state (key_shmid s) (shmid_inner s) (pid_shmid_vaddr s) (<[p := i']> (inners s))
            (SHM_IPC_ID s) (mm s))
  end.
Definition peek_inner (p : positive) : M ShmInner := fun s =>
  match inners s !! p with None => (SPanic, s) | Some i => (SOk i, s) end.

(** A fallible operation of memory management. *)
Definition try_mm {A} (f : MM -> result LinuxError A * MM) : M A := fun s =>
  let '(r, m) := f (mm s) in
  let s' := mk_shm_state (key_shmid s) (shmid_inner s) (pid_shmid_vaddr s) (inners s) (SHM_IPC_ID s) m in
  match r with Ok a => (SOk a, s') | Err e => (SErr e, s') end.

Definition shm_next_ipc_id : M Z := fun s =>
  (SOk (SHM_IPC_ID s), mk_shm_state (key_shmid s) (shmid_inner s) (pid_shmid_vaddr s) (inners s)
     ((SHM_IPC_ID s + 1 + 2 ^ 31) mod 2 ^ 32 - 2 ^ 31) (mm s)).

Definition new_inner (i : ShmInner) : M positive := fun s =>
  let p := fresh (dom (inners s)) in
  (SOk p, mk_shm_state (key_shmid s) (shmid_inner s) (pid_shmid_vaddr s) (<[p := i]> (inners s))
     (SHM_IPC_ID s) (mm s)).

(** ** [ShmManager] *)

Definition get_shmid_by_key (k : Z) : M (option Z) := gets (fun s => get_by_key k (key_shmid s)).
Definition get_inner_by_shmid (id : Z) : M (option positive) := gets (fun s => shmid_inner s !! id).
Definition get_shmid_by_vaddr (pid vaddr : Z) : M (option Z) := gets (fun s =>
  m ← pid_shmid_vaddr s !! pid; get_by_value vaddr m).
Definition get_shmids_by_pid (pid : Z) : M (option (list Z)) := gets (fun s =>
  m ← pid_shmid_vaddr s !! pid; Some (map fst (bt_entries (forward m)))).

Definition insert_key_shmid (k id : Z) : M () := set_key_shmid (bimap_insert k id).
Definition insert_shmid_inner (id : Z) (p : positive) : M () := set_shmid_inner (insert id p).
Definition insert_shmid_vaddr (pid id vaddr : Z) : M () :=
  set_vaddrs (fun vs => <[pid := bimap_insert id vaddr (default bimap_new (vs !! pid))]> vs).

(** [ShmManager::remove_shmaddr]: the map of a process is dropped when it becomes empty. *)
Definition remove_shmaddr (pid shmaddr : Z) : M () :=
  set_vaddrs (fun vs =>
    match vs !! pid with
    | None => vs
    | Some m =>
        let m' := (remove_by_value shmaddr m).2 in
        if bool_decide (forward m' = ∅) then delete pid vs else <[pid := m']> vs
    end).

Definition remove_pid (pid : Z) : M () := set_vaddrs (delete pid).

(** [ShmManager::remove_shmid]. *)
Definition remove_shmid (id : Z) : M () :=
  set_key_shmid (fun m => (remove_by_value id m).2);;
  set_shmid_inner (delete id).

(** Detach a process from a segment, and remove the segment if it was to be removed and this
    was the last one. *)
Definition detach_and_collect (pid id now : Z) (p : positive) : M () :=
  with_inner p (detach_process pid now);;
  i ← peek_inner p;
  if rmid i && (attach_count i =? 0) then remove_shmid id else mret ().

(** [ShmManager::clear_proc_shm], when a process exits. *)
Fixpoint clear_loop (pid now : Z) (ids : list Z) : M () :=
  match ids with
  | [] => mret ()
  | id :: ids =>
      o ← get_inner_by_shmid id;
      (match o with Some p => detach_and_collect pid id now p | None => mret () end);;
      clear_loop pid now ids
  end.

Definition clear_proc_shm (pid now : Z) : M () :=
  o ← get_shmids_by_pid pid;
  (match o with Some ids => clear_loop pid now ids | None => mret () end);;
  remove_pid pid.

(** ** The system calls *)

Definition has_bit (flags b : Z) : bool := negb (Z.land flags b =? 0).

(** The paging flags a segment is created with. *)
Definition shm_flags (shmflg : Z) : Z :=
  let f := FLAG_USER in
  let f := if has_bit shmflg 0x100 then Z.lor f FLAG_READ else f in
  let f := if has_bit shmflg 0x80 then Z.lor f FLAG_WRITE else f in
  if has_bit shmflg 0x40 then Z.lor f FLAG_EXECUTE else f.

Definition sys_shmget (c : caller) (k size shmflg : Z) : M Z :=
  if align_up_4k size / PAGE_SIZE_4K =? 0 then fail EINVAL
  else
    o ← (if k =? IPC_PRIVATE then mret None else get_shmid_by_key k);
    match o : option Z with
    | Some id =>
        o ← get_inner_by_shmid id;
        p ← some_or EINVAL o;
        with_inner p (try_update size (shm_flags shmflg) (c_pid c))
    | None =>
        id ← shm_next_ipc_id;
        p ← new_inner (inner_new k id size (shm_flags shmflg) (c_pid c));
        insert_key_shmid k id;;
        insert_shmid_inner id p;;
        mret id
    end.

Definition SHM_RDONLY : Z := 0x1000.

(** Map the pages of the segment, which the first process to attach allocates. *)
Definition map_segment (pid start length flags : Z) (p : positive) (i : ShmInner) : M () :=
  match phys_pages i with
  | Some pages => try_mm (aspace_map pid start length flags pages)
  | None =>
      pages ← try_mm (new_shared_pages length);
      try_mm (aspace_map pid start length flags pages);;
      with_inner p (modify (map_to_phys pages))
  end.

Definition sys_shmat (c : caller) (id addr shmflg : Z) : M Z :=
  o ← get_inner_by_shmid id;
  p ← unwrap o;
  i ← peek_inner p;
  let flags := if has_bit shmflg SHM_RDONLY then Z.ldiff (mapping_flags i) FLAG_WRITE else mapping_flags i in
  let pid := c_pid c in
  let length := page_num i * PAGE_SIZE_4K in
  assert (negb (bool_decide (is_Some (get_addr_range pid i))));;
  area ← gets (fun s =>
    match find_free_area pid (align_down_4k addr) length (mm s) with
    | Some a => Some a
    | None => find_free_area pid (aspace_base pid (mm s)) length (mm s)
    end);
  start ← some_or ENOMEM area;
  insert_shmid_vaddr pid (shmid i) start;;
  map_segment pid start length flags p i;;
  with_inner p (attach_process pid (mk_range start length) (c_now c));;
  mret start.

(** A null [buf] is accepted by [IPC_STAT]. *)
Definition sys_shmctl (c : caller) (id cmd buf : Z) : M Z :=
  o ← get_inner_by_shmid id;
  p ← some_or EINVAL o;
  i ← peek_inner p;
  (if cmd =? IPC_SET then
     ds ← try_mm (fun m => (read_shmid_ds buf m, m));
     with_inner p (modify (set_ds ds))
   else if cmd =? IPC_STAT then
     if buf =? 0 then mret () else try_mm (write_shmid_ds buf (shmid_ds i))
   else if cmd =? IPC_RMID then with_inner p (modify set_rmid)
   else fail EINVAL);;
  with_inner p (modify (fun i => set_ds (set_ctime (c_now c) (shmid_ds i)) i));;
  mret 0.

Definition sys_shmdt (c : caller) (shmaddr : Z) : M Z :=
  let pid := c_pid c in
  o ← get_shmid_by_vaddr pid shmaddr;
  id ← some_or EINVAL o;
  o ← get_inner_by_shmid id;
  p ← some_or EINVAL o;
  i ← peek_inner p;
  range ← some_or EINVAL (get_addr_range pid i);
  try_mm (aspace_unmap pid (range_start range) (range_size range));;
  remove_shmaddr pid shmaddr;;
  detach_and_collect pid id (c_now c) p;;
  mret 0.

End shm.
