(* ===== verification/ShmHistory.v ===== *)
(** * Attachments of shared memory

    The manager records attachments twice, by process in [pid_shmid_vaddr] and by segment in
    [va_range].  Over any history of calls the two agree, so that detaching and exiting find
    what they expect; with the cases in which the code breaks this. *)

From S2P Require Import Prelude Ipc Shm.

#[local] Open Scope Z_scope.

Section history.
Context {MM : Type} {SM : ShmMemory MM}.
Local Notation M := (sys (shm_state MM)).

(** Where a process has a segment attached, according to the manager. *)
Definition attached (s : shm_state MM) (pid id : Z) : option Z :=
  m ← pid_shmid_vaddr s !! pid; forward m !! id.

Definition set_env (m : MM) (n : Z) (s : shm_state MM) : shm_state MM :=
  mk_shm_state (key_shmid s) (shmid_inner s) (pid_shmid_vaddr s) (inners s) n m.

(** A call of a process, an exit, or a change of memory and of the counter of identifiers, which the
    message queues share, by others. *)
Inductive shm_call : Type :=
| CEnv (m : MM) (n : Z)
| CGet (c : caller) (k size shmflg : Z)
| CAt (c : caller) (id addr shmflg : Z)
| CCtl (c : caller) (id cmd buf : Z)
| CDt (c : caller) (shmaddr : Z)
| CExit (pid now : Z).

Definition shm_exec (x : shm_call) (s : shm_state MM) : sysres Z * shm_state MM :=
  match x with
  | CEnv m n => (SOk 0, set_env m n s)
  | CGet c k size shmflg => sys_shmget c k size shmflg s
  | CAt c id addr shmflg => sys_shmat c id addr shmflg s
  | CCtl c id cmd buf => sys_shmctl c id cmd buf s
  | CDt c shmaddr => sys_shmdt c shmaddr s
  | CExit pid now => (clear_proc_shm pid now;; mret 0) s
  end.

(** The calls after which the two records still agree.  Identifiers do not wrap around.  An attach
    that succeeds got an address at which the process has nothing attached: attached segments are only
    unmapped by detaching them.  One that fails has changed nothing: the mapping, which comes after
    the record, does not fail. *)
Definition orderly (x : shm_call) (s : shm_state MM) : Prop :=
  match x with
  | CEnv _ n => SHM_IPC_ID s <= n
  | CGet _ _ _ _ => SHM_IPC_ID s < 2 ^ 31 - 1
  | CAt c _ _ _ =>
      match shm_exec x s with
      | (SOk v, _) => forall id', attached s (c_pid c) id' <> Some v
      | (_, s') => s' = s
      end
  | CCtl _ _ _ _ | CDt _ _ | CExit _ _ => True
  end.

(** [IPC_SET] overwrites the attach count. *)
Definition keeps_count (x : shm_call) : bool :=
  match x with CCtl _ _ cmd _ => negb (cmd =? IPC_SET) | _ => true end.

Definition shm_initial (m : MM) : shm_state MM := mk_shm_state bimap_new ∅ ∅ ∅ 0 m.

(** The states after orderly calls, one after the other, and whether none of them was [IPC_SET]. *)
Inductive shm_history : bool -> shm_state MM -> Prop :=
| sh_new m : shm_history true (shm_initial m)
| sh_call counted x s : shm_history counted s -> orderly x s -> shm_history (counted && keeps_count x) (shm_exec x s).2.

(** ** The invariant *)

(** The records of process [pid] on the segments [todo] have been dropped from the manager but
    not yet from the segments; all others agree. *)
Definition agrees (pid : Z) (todo : list Z) (s : shm_state MM) (id : Z) (i : ShmInner) : Prop :=
  forall pid', if decide (pid' = pid /\ id ∈ todo)
    then attached s pid' id = None /\ is_Some (va_range i !! pid')
    else attached s pid' id = range_start <$> va_range i !! pid'.

Record inv_todo (counted : bool) (pid : Z) (todo : list Z) (s : shm_state MM) : Prop := {
  sinv_ipc : 0 <= SHM_IPC_ID s;
  sinv_keys : bijective (key_shmid s);
  sinv_maps pid m : pid_shmid_vaddr s !! pid = Some m -> bijective m;
  sinv_ids id p : shmid_inner s !! id = Some p ->
    id < SHM_IPC_ID s /\ exists i, inners s !! p = Some i /\ shmid i = id /\
      (counted = true -> shm_nattch (shmid_ds i) = as_u16 (attach_count i)) /\ agrees pid todo s id i;
  sinv_live pid id v : attached s pid id = Some v -> is_Some (shmid_inner s !! id);
}.

(** The invariant between calls; the counters are only right as long as nothing has overwritten them. *)
Definition shm_inv (counted : bool) (s : shm_state MM) : Prop := inv_todo counted 0 [] s.

Lemma agrees_nil pid s id i :
  agrees pid [] s id i <-> (forall pid', attached s pid' id = range_start <$> va_range i !! pid').
Proof.
  unfold agrees. split; intros H pid'; specialize (H pid').
  - rewrite decide_False in H; [done|]. by intros [_ ?%elem_of_nil].
  - rewrite decide_False; [done|]. by intros [_ ?%elem_of_nil].
Qed.

Lemma inv_todo_nil ct pid pid' s : inv_todo ct pid [] s -> inv_todo ct pid' [] s.
Proof.
  intros [H1 H2 H3 H4 H5]. split; auto. intros id p Hp. destruct (H4 id p Hp) as (? & i & ? & ? & ? & Ha).
  split; [done|]. exists i. split_and!; try done. apply agrees_nil. by apply (agrees_nil pid).
Qed.

Lemma inv_uncounted ct s : shm_inv ct s -> shm_inv false s.
Proof.
  intros [H1 H2 H3 H4 H5]. split; auto. intros id p Hp. destruct (H4 id p Hp) as (? & i & ? & ? & _ & Ha).
  split; [done|]. by exists i.
Qed.

Section calls.
Context {ct : bool}.

(** ** Effect of the calls *)

(** The state with other attachments of one process, another segment behind [p], and other
    memory. *)
Definition rewire (vs : gmap Z BiBTreeMap) (p : positive) (i : ShmInner) (m : MM) (s : shm_state MM) :
    shm_state MM :=
  mk_shm_state (key_shmid s) (shmid_inner s) vs (<[p := i]> (inners s)) (SHM_IPC_ID s) m.

Lemma with_inner_eq {A} p (m : sys ShmInner A) s i :
  inners s !! p = Some i -> with_inner p m s = ((m i).1, rewire (pid_shmid_vaddr s) p (m i).2 (mm s) s).
Proof. unfold with_inner. intros ->. by destruct (m i). Qed.

Lemma peek_inner_eq p (s : shm_state MM) i : inners s !! p = Some i -> peek_inner p s = (SOk i, s).
Proof. unfold peek_inner. by intros ->. Qed.

(** What attaching changes in a segment. *)
Definition attach_effect (pid v len : Z) (i i' : ShmInner) : Prop :=
  shmid i' = shmid i /\ page_num i' = page_num i /\ rmid i' = rmid i /\
  va_range i' = <[pid := mk_range v len]> (va_range i) /\
  shm_nattch (shmid_ds i') = as_u16 (shm_nattch (shmid_ds i) + 1).

Lemma shmat_spec c id addr shmflg s v s' :
  sys_shmat c id addr shmflg s = (SOk v, s') ->
  exists p i i' m, shmid_inner s !! id = Some p /\ inners s !! p = Some i /\ va_range i !! c_pid c = None /\
    s' = rewire (<[c_pid c := bimap_insert (shmid i) v (default bimap_new (pid_shmid_vaddr s !! c_pid c))]>
                   (pid_shmid_vaddr s)) p i' m s /\
    attach_effect (c_pid c) v (page_num i * PAGE_SIZE_4K) i i'.
Proof.
  unfold sys_shmat, attach_effect, mbind, sys_bind. simpl.
  destruct (shmid_inner s !! id) as [p|] eqn:Hp; simpl; [|done].
  destruct (inners s !! p) as [i|] eqn:Hi; [rewrite (peek_inner_eq _ _ _ Hi)|unfold peek_inner; by rewrite Hi].
  unfold get_addr_range. destruct (va_range i !! c_pid c) as [r|] eqn:Hva; [done|]. rewrite bool_decide_false by by intros [].
  simpl. destruct (match find_free_area _ _ _ _ with Some a => _ | None => _ end) as [start|]; simpl; [|done].
  unfold map_segment. destruct (phys_pages i) as [pages|]; unfold try_mm, mbind, sys_bind; simpl.
  - destruct (aspace_map _ _ _ _ _ _) as [[[]|e] m]; [|done].
    rewrite (with_inner_eq p _ _ i) by done. unfold attach_process, get_addr_range. rewrite Hva.
    rewrite bool_decide_false by by intros []. simpl. intros [= <- <-].
    eexists p, i, _, m. by split_and!.
  - destruct (new_shared_pages _ _) as [[pages|e] m1]; [|done]. simpl.
    destruct (aspace_map _ _ _ _ _ _) as [[[]|e] m]; [|done]. simpl.
    rewrite (with_inner_eq p _ _ i) by done. simpl.
    rewrite (with_inner_eq p _ _ (map_to_phys pages i)) by apply lookup_insert_eq.
    unfold attach_process, get_addr_range. simpl. rewrite Hva.
    rewrite bool_decide_false by by intros []. simpl. intros [= <- <-].
    eexists p, i, _, m. split_and!; [done..| | | | | |];
      [unfold rewire; simpl; by rewrite insert_insert_eq|done..].
Qed.

(** The state without a segment. *)
Definition dropped (id : Z) (s : shm_state MM) : shm_state MM :=
  mk_shm_state (remove_by_value id (key_shmid s)).2 (delete id (shmid_inner s)) (pid_shmid_vaddr s)
    (inners s) (SHM_IPC_ID s) (mm s).

Lemma detach_eq pid id now p s i :
  inners s !! p = Some i -> is_Some (va_range i !! pid) ->
  exists i', detach_and_collect pid id now p s
    = (SOk (), let s1 := rewire (pid_shmid_vaddr s) p i' (mm s) s in
               if rmid i && bool_decide (va_range i' = ∅) then dropped id s1 else s1) /\
    shmid i' = shmid i /\ rmid i' = rmid i /\ va_range i' = delete pid (va_range i) /\
    shm_nattch (shmid_ds i') = as_u16 (shm_nattch (shmid_ds i) - 1).
Proof.
  intros Hi Hr. exists (detach_process pid now i).2.
  unfold detach_and_collect, mbind, sys_bind. rewrite (with_inner_eq _ _ _ i Hi).
  unfold detach_process, get_addr_range. rewrite bool_decide_true by done. simpl.
  split; [|by split_and!]. erewrite peek_inner_eq by apply lookup_insert_eq. unfold attach_count. simpl.
  assert (Hc : (Z.of_nat (size (delete pid (va_range i))) =? 0) = bool_decide (delete pid (va_range i) = ∅)).
  { apply Bool.eq_iff_eq_true. rewrite Z.eqb_eq, bool_decide_eq_true, <- map_size_empty_iff. lia. }
  rewrite Hc. by destruct (rmid i && _).
Qed.

Lemma nattch_detach n m : 0 <= m -> n = as_u16 (m + 1) -> as_u16 (n - 1) = as_u16 m.
Proof. intros ? ->. unfold as_u16. rewrite Zminus_mod_idemp_l. f_equal. lia. Qed.

(** Detaching one of the segments still to be done. *)
Lemma detach_step pid id todo now p s :
  inv_todo ct pid (id :: todo) s -> id ∉ todo -> shmid_inner s !! id = Some p ->
  exists s', detach_and_collect pid id now p s = (SOk (), s') /\ inv_todo ct pid todo s' /\
    pid_shmid_vaddr s' = pid_shmid_vaddr s.
Proof.
  intros [Hipc Hkeys Hmaps Hids Hlive] Hnin Hp. destruct (Hids id p Hp) as (Hlt & i & Hi & Hid & Hn & Ha).
  assert (Hr : is_Some (va_range i !! pid)).
  { specialize (Ha pid). rewrite decide_True in Ha; [by apply Ha|]. split; [done|by left]. }
  destruct (detach_eq pid id now p s i Hi Hr) as (i' & -> & Hid' & Hrm' & Hva' & Hn').
  assert (Hagree : forall s', pid_shmid_vaddr s' = pid_shmid_vaddr s -> agrees pid todo s' id i').
  { intros s' Hs' pid'. specialize (Ha pid'). unfold attached in *. rewrite Hs', Hva'.
    rewrite decide_False by (by intros [_ ?]). destruct (decide (pid' = pid)) as [->|Hne].
    - rewrite decide_True in Ha by (split; [done|by left]). destruct Ha as [-> _]. by rewrite lookup_delete_eq.
    - rewrite decide_False in Ha by (by intros [? _]). by rewrite lookup_delete_ne. }
  assert (Hnat : ct = true -> shm_nattch (shmid_ds i') = as_u16 (attach_count i')).
  { intros Hct. rewrite Hn'. apply nattch_detach; [unfold attach_count; lia|]. rewrite Hn by done. unfold attach_count.
    rewrite Hva', map_size_delete. destruct Hr as [r Hr]. rewrite Hr.
    assert (size (va_range i) <> 0%nat) by (intros Hz%map_size_empty_iff; by rewrite Hz, lookup_empty in Hr).
    f_equal. lia. }
  assert (Hother : forall s' id0 p0, pid_shmid_vaddr s' = pid_shmid_vaddr s -> id0 <> id -> shmid_inner s !! id0 = Some p0 ->
    id0 < SHM_IPC_ID s /\ exists i0, <[p := i']> (inners s) !! p0 = Some i0 /\ shmid i0 = id0 /\
      (ct = true -> shm_nattch (shmid_ds i0) = as_u16 (attach_count i0)) /\ agrees pid todo s' id0 i0).
  { intros s' id0 p0 Hs' Hne Hp0. destruct (Hids id0 p0 Hp0) as (Hlt0 & i0 & Hi0 & Hid0 & Hn0 & Ha0).
    split; [done|]. exists i0. assert (p0 <> p) by congruence. rewrite lookup_insert_ne by done. split_and!; [done..|].
    intros pid'. specialize (Ha0 pid'). unfold attached in *. rewrite Hs'.
    destruct (decide (pid' = pid /\ id0 ∈ todo)) as [[-> Hin]|Hout].
    - by rewrite decide_True in Ha0 by (split; [done|by right]).
    - rewrite decide_False in Ha0; [done|]. intros [-> [?|?]%elem_of_cons]; [done|by apply Hout]. }
  destruct (rmid i && bool_decide (va_range i' = ∅)) eqn:Hdrop; (eexists; split; [done|]); (split; [|done]).
  - apply andb_true_iff in Hdrop as [_ Hempty%bool_decide_eq_true].
    split; simpl; [done|by apply remove_by_value_bijective|done| |].
    + intros id0 p0 [Hne Hp0]%lookup_delete_Some. by apply Hother.
    + intros pid0 id0 v0 Hatt. rewrite lookup_delete_ne; [by eapply Hlive|]. intros <-.
      specialize (Hagree s eq_refl pid0). rewrite decide_False in Hagree by (by intros [_ ?]).
      unfold attached in *. simpl in Hatt. rewrite Hagree, Hempty, lookup_empty in Hatt. done.
  - split; simpl; [done|done|done| |done].
    intros id0 p0 Hp0. destruct (decide (id0 = id)) as [->|Hne]; [|by apply Hother].
    simplify_eq. split; [done|]. exists i'. rewrite lookup_insert_eq. split_and!; [done|congruence|done|by apply Hagree].
Qed.

(** ** The calls preserve the invariant *)

(** Attaching adds one attachment. *)
Lemma shmat_attached c id addr shmflg s v s' :
  shm_inv ct s -> sys_shmat c id addr shmflg s = (SOk v, s') -> (forall id', attached s (c_pid c) id' <> Some v) ->
  attached s (c_pid c) id = None /\
  forall pid0 id0, attached s' pid0 id0 =
    if decide (pid0 = c_pid c /\ id0 = id) then Some v else attached s pid0 id0.
Proof.
  intros [Hipc Hkeys Hmaps Hids Hlive] Hat Hfree.
  destruct (shmat_spec _ _ _ _ _ _ _ Hat) as (p & i & i' & m & Hp & Hi & Hva & -> & _).
  destruct (Hids id p Hp) as (_ & i0 & Hi0 & Hid & _ & Ha). rewrite Hi in Hi0. injection Hi0 as <-.
  set (pid := c_pid c) in *. set (old := default bimap_new (pid_shmid_vaddr s !! pid)).
  assert (Hold : bijective old).
  { subst old. destruct (pid_shmid_vaddr s !! pid) eqn:E; [by eapply Hmaps|apply bimap_new_bijective]. }
  assert (Hatt_old : forall id0, forward old !! id0 = attached s pid id0).
  { intros id0. subst old. unfold attached. by destruct (pid_shmid_vaddr s !! pid). }
  split; [rewrite agrees_nil in Ha; by rewrite Ha, Hva|].
  intros pid0 id0. unfold attached at 1. simpl. destruct (decide (pid0 = pid)) as [->|Hne].
  - rewrite lookup_insert_eq, Hid. transitivity (forward (bimap_insert id v old) !! id0); [done|].
    apply option_eq. intros v0. rewrite bimap_insert_forward, Hatt_old by done. case_decide as Hc.
    + destruct Hc as [_ ->]. split; [by intros [[_ ->]|(? & _)]|]. intros [= <-]. by left.
    + split; [intros [[-> ->]|(_ & _ & ?)]; [by destruct Hc|done]|]. intros Hv0. right.
      split_and!; [by intros ->; destruct Hc|by intros ->; destruct (Hfree id0)|done].
  - rewrite lookup_insert_ne by done. by rewrite decide_False by (by intros [? _]).
Qed.

Lemma inv_shmat c id addr shmflg s v s' :
  shm_inv ct s -> sys_shmat c id addr shmflg s = (SOk v, s') -> (forall id', attached s (c_pid c) id' <> Some v) ->
  shm_inv ct s'.
Proof.
  intros Hs Hat Hfree. destruct (shmat_attached _ _ _ _ _ _ _ Hs Hat Hfree) as [_ Hatt].
  destruct Hs as [Hipc Hkeys Hmaps Hids Hlive].
  destruct (shmat_spec _ _ _ _ _ _ _ Hat) as (p & i & i' & m & Hp & Hi & Hva & Hs' & Hid' & _ & _ & Hva' & Hn').
  destruct (Hids id p Hp) as (Hlt & i0 & Hi0 & Hid & Hn & Ha). rewrite Hi in Hi0. injection Hi0 as <-.
  rewrite agrees_nil in Ha. subst s'. split; simpl; [done|done| | |].
  - intros pid0 m0. rewrite lookup_insert. case_decide; [|apply Hmaps].
    intros [= <-]. apply bimap_insert_bijective.
    destruct (pid_shmid_vaddr s !! c_pid c) eqn:E; [by eapply Hmaps|apply bimap_new_bijective].
  - intros id0 p0 Hp0. destruct (Hids id0 p0 Hp0) as (Hlt0 & i0 & Hi0 & Hid0 & Hn0 & Ha0). split; [done|].
    rewrite agrees_nil in Ha0. destruct (decide (p0 = p)) as [->|Hne].
    + exists i'. rewrite lookup_insert_eq. simplify_eq. split_and!; [done|done| |].
      * intros Hct. rewrite Hn', Hn by done. unfold attach_count, as_u16. rewrite Hva', map_size_insert_None by done.
        rewrite Zplus_mod_idemp_l. f_equal. lia.
      * apply agrees_nil. intros pid0. rewrite Hatt, Hva'. destruct (decide (pid0 = c_pid c)) as [->|Hne0].
        { by rewrite decide_True, lookup_insert_eq. }
        rewrite decide_False by (by intros [? _]). by rewrite lookup_insert_ne, Ha.
    + exists i0. rewrite lookup_insert_ne by done. split_and!; [done..|]. apply agrees_nil. intros pid0.
      rewrite Hatt, decide_False; [done|]. intros [_ ->]. congruence.
  - intros pid0 id0 v0. rewrite Hatt. case_decide as Hc; [|apply Hlive]. destruct Hc as [_ ->]. by eexists.
Qed.

(** A change of a segment that does not concern its attachments. *)
Definition same_attach (i i' : ShmInner) : Prop :=
  shmid i' = shmid i /\ va_range i' = va_range i /\ (ct = true -> shm_nattch (shmid_ds i') = shm_nattch (shmid_ds i)).

Lemma inv_same_attach s p i i' m :
  shm_inv ct s -> inners s !! p = Some i -> same_attach i i' ->
  shm_inv ct (rewire (pid_shmid_vaddr s) p i' m s).
Proof.
  intros [Hipc Hkeys Hmaps Hids Hlive] Hi (Hid & Hva & Hn). split; simpl; try done.
  intros id0 p0 Hp0. destruct (Hids id0 p0 Hp0) as (Hlt0 & i0 & Hi0 & Hid0 & Hn0 & Ha0). split; [done|].
  destruct (decide (p0 = p)) as [->|Hne].
  - exists i'. rewrite lookup_insert_eq. simplify_eq. split_and!; [done|done| |].
    + intros Hct. unfold attach_count in *. rewrite Hn, Hva by done. auto.
    + apply agrees_nil. rewrite Hva. by apply (agrees_nil 0).
  - exists i0. rewrite lookup_insert_ne by done. by split_and!.
Qed.

Lemma inv_env s m n : shm_inv ct s -> SHM_IPC_ID s <= n -> shm_inv ct (set_env m n s).
Proof.
  intros [Hipc Hkeys Hmaps Hids Hlive] Hn. split; simpl; try done; [lia|].
  intros id p Hp. destruct (Hids id p Hp) as (? & i & ?). split; [lia|]. by exists i.
Qed.

Lemma inv_new_segment c k size flags s :
  shm_inv ct s -> SHM_IPC_ID s < 2 ^ 31 - 1 ->
  shm_inv ct (mk_shm_state (bimap_insert k (SHM_IPC_ID s) (key_shmid s))
    (<[SHM_IPC_ID s := fresh (dom (inners s))]> (shmid_inner s)) (pid_shmid_vaddr s)
    (<[fresh (dom (inners s)) := inner_new k (SHM_IPC_ID s) size flags (c_pid c)]> (inners s))
    ((SHM_IPC_ID s + 1 + 2 ^ 31) mod 2 ^ 32 - 2 ^ 31) (mm s)).
Proof.
  intros [Hipc Hkeys Hmaps Hids Hlive] Hlt.
  rewrite Z.mod_small by lia. replace (SHM_IPC_ID s + 1 + 2 ^ 31 - 2 ^ 31) with (SHM_IPC_ID s + 1) by lia.
  split; simpl; [lia|by apply bimap_insert_bijective|done| |].
  - intros id0 p0. rewrite lookup_insert. case_decide as Hid.
    + intros [= <-]. subst id0. split; [lia|]. eexists. rewrite lookup_insert_eq. split_and!; [done|done|done|].
      apply agrees_nil. intros pid0. simpl. rewrite lookup_empty. unfold attached. simpl.
      destruct (attached s pid0 (SHM_IPC_ID s)) as [v|] eqn:E; [|done].
      destruct (Hlive _ _ _ E) as [p0 Hp0]. apply Hids in Hp0 as [? _]. lia.
    + intros Hp0. destruct (Hids id0 p0 Hp0) as (Hlt0 & i0 & Hi0 & ?). split; [lia|]. exists i0.
      rewrite lookup_insert_ne; [done|]. intros <-. apply (is_fresh (dom (inners s))). by eapply elem_of_dom_2.
  - intros pid0 id0 v0 [p0 Hp0]%Hlive. rewrite lookup_insert_ne; [by eexists|].
    intros <-. apply Hids in Hp0 as [? _]. lia.
Qed.

Lemma inv_shmget c k size shmflg s :
  shm_inv ct s -> SHM_IPC_ID s < 2 ^ 31 - 1 -> shm_inv ct (sys_shmget c k size shmflg s).2.
Proof.
  intros Hs Hlt. unfold sys_shmget. destruct (_ =? 0); [done|].
  assert (Hnew : shm_inv ct ((id ← shm_next_ipc_id;
        p ← new_inner (inner_new k id size (shm_flags shmflg) (c_pid c));
        insert_key_shmid k id;; insert_shmid_inner id p;; mret id) s).2) by by apply (inv_new_segment c k size (shm_flags shmflg) s).
  destruct (k =? IPC_PRIVATE); [done|]. unfold mbind at 1, sys_bind at 1. simpl.
  destruct (get_by_key k (key_shmid s)) as [id|]; [|done].
  unfold mbind, sys_bind. simpl. destruct (shmid_inner s !! id) as [p|] eqn:Hp; simpl; [|done].
  destruct (sinv_ids _ _ _ _ Hs id p Hp) as (_ & i & Hi & _).
  rewrite (with_inner_eq _ _ _ i Hi). simpl. apply (inv_same_attach _ _ i); [done..|].
  unfold try_update. by case_match.
Qed.

Lemma inv_shmctl c id cmd buf s :
  shm_inv ct s -> (cmd = IPC_SET -> ct = false) -> shm_inv ct (sys_shmctl c id cmd buf s).2.
Proof.
  intros Hs Hset. unfold sys_shmctl, mbind, sys_bind. simpl.
  destruct (shmid_inner s !! id) as [p|] eqn:Hp; simpl; [|done].
  destruct (sinv_ids _ _ _ _ Hs id p Hp) as (_ & i & Hi & _). rewrite (peek_inner_eq _ _ _ Hi).
  destruct (Z.eqb_spec cmd IPC_SET) as [Hc|_].
  { specialize (Hset Hc). unfold try_mm. destruct (read_shmid_ds buf (mm s)) as [ds|e]; simpl; [|by destruct s].
    rewrite (with_inner_eq _ _ _ i) by done. simpl. rewrite (with_inner_eq _ _ _ (set_ds ds i)) by apply lookup_insert_eq.
    simpl. unfold rewire. simpl. rewrite insert_insert_eq. apply (inv_same_attach s p i); [done..|]. by split_and!; [| |intros ?; simplify_eq]. }
  assert (Hstamp : forall m, shm_inv ct (with_inner p (modify (fun i => set_ds (set_ctime (c_now c) (shmid_ds i)) i))
    (set_env m (SHM_IPC_ID s) s)).2).
  { intros m. rewrite (with_inner_eq _ _ _ i) by done. simpl.
    apply (inv_same_attach (set_env m (SHM_IPC_ID s) s) p i); [by apply inv_env|done|done]. }
  assert (Hself : set_env (mm s) (SHM_IPC_ID s) s = s) by by destruct s.
  destruct (cmd =? IPC_STAT); [destruct (buf =? 0)|destruct (cmd =? IPC_RMID)]; simpl.
  - specialize (Hstamp (mm s)). rewrite Hself in Hstamp. by destruct (with_inner _ _ s) as [[]].
  - unfold try_mm. destruct (write_shmid_ds _ _ _) as [[[]|e] m]; simpl.
    + specialize (Hstamp m). unfold set_env in Hstamp. by destruct (with_inner _ _ _) as [[]].
    + by apply (inv_env s m (SHM_IPC_ID s)).
  - rewrite (with_inner_eq _ _ _ i Hi). simpl. rewrite (with_inner_eq _ _ _ (set_rmid i)) by apply lookup_insert_eq.
    simpl. unfold rewire. simpl. rewrite insert_insert_eq.
    by apply (inv_same_attach s p i).
  - done.
Qed.

(** The state with other records of attachments by process. *)
Definition setv (vs : gmap Z BiBTreeMap) (s : shm_state MM) : shm_state MM :=
  mk_shm_state (key_shmid s) (shmid_inner s) vs (inners s) (SHM_IPC_ID s) (mm s).

(** Dropping the records of [pid] on the segments [todo] from the manager. *)
Lemma inv_forget pid todo vs m s :
  shm_inv ct s ->
  (forall pid0 m0, vs !! pid0 = Some m0 -> bijective m0) ->
  (forall pid0 id0, (m0 ← vs !! pid0; forward m0 !! id0)
     = if decide (pid0 = pid /\ id0 ∈ todo) then None else attached s pid0 id0) ->
  (forall id, id ∈ todo -> is_Some (attached s pid id)) ->
  inv_todo ct pid todo (setv vs (set_env m (SHM_IPC_ID s) s)).
Proof.
  intros [Hipc Hkeys Hmaps Hids Hlive] Hbij Hvs Htodo. split; simpl; [done..| |].
  - intros id p Hp. destruct (Hids id p Hp) as (Hlt & i & Hi & Hid & Hn & Ha). split; [done|].
    exists i. split_and!; [done..|]. rewrite agrees_nil in Ha.
    intros pid0. unfold attached at 1 2. simpl. rewrite Hvs. case_decide as Hc; [|done]. split; [done|].
    destruct Hc as [-> Hin]. destruct (Htodo id Hin) as [v Hv]. rewrite Ha in Hv.
    by apply fmap_Some in Hv as (r & -> & _).
  - intros pid0 id0 v0. unfold attached. simpl. rewrite Hvs. case_decide; [done|]. apply Hlive.
Qed.

(** The records by process without one attachment. *)
Definition without (pid v : Z) (vs : gmap Z BiBTreeMap) : gmap Z BiBTreeMap :=
  match vs !! pid with
  | None => vs
  | Some m =>
      let m' := (remove_by_value v m).2 in
      if bool_decide (forward m' = ∅) then delete pid vs else <[pid := m']> vs
  end.

Lemma without_bijective pid v s :
  shm_inv ct s -> forall pid0 m0, without pid v (pid_shmid_vaddr s) !! pid0 = Some m0 -> bijective m0.
Proof.
  intros Hs pid0 m0. unfold without. destruct (pid_shmid_vaddr s !! pid) as [m|] eqn:Hm; [|by eapply sinv_maps].
  assert (Hb : bijective m) by by eapply sinv_maps. case_bool_decide.
  - intros [_ ?]%lookup_delete_Some. by eapply sinv_maps.
  - rewrite lookup_insert_Some. intros [[_ <-]|[_ ?]]; [by apply remove_by_value_bijective|by eapply sinv_maps].
Qed.

Lemma without_lookup pid v id s :
  shm_inv ct s -> attached s pid id = Some v ->
  forall pid0 id0, (m0 ← without pid v (pid_shmid_vaddr s) !! pid0; forward m0 !! id0)
    = if decide (pid0 = pid /\ id0 ∈ [id]) then None else attached s pid0 id0.
Proof.
  intros Hs Hatt pid0 id0. unfold without. apply bind_Some in Hatt as (m & Hm & Hid). rewrite Hm.
  assert (Hb : bijective m) by by eapply sinv_maps. set (m' := (remove_by_value v m).2).
  assert (Hm' : forward m' !! id0 = if decide (id0 ∈ [id]) then None else forward m !! id0).
  { apply option_eq. intros v0. subst m'. rewrite remove_by_value_forward by done. case_decide as Hin.
    - apply list_elem_of_singleton in Hin as ->. split; [|done]. intros [? ?]. congruence.
    - split; [by intros [_ ?]|]. intros Hv0. split; [|done]. intros ->. apply Hb in Hv0, Hid.
      apply Hin, list_elem_of_singleton. congruence. }
  destruct (decide (pid0 = pid)) as [->|Hne].
  - transitivity (forward m' !! id0).
    + case_bool_decide as He; [rewrite lookup_delete_eq, He; done|by rewrite lookup_insert_eq].
    + rewrite Hm'. unfold attached. rewrite Hm. simpl. repeat case_decide; intuition.
  - rewrite decide_False by (by intros [? _]). unfold attached.
    case_bool_decide; [by rewrite lookup_delete_ne|by rewrite lookup_insert_ne].
Qed.

(** [shmdt] at an address where a segment is attached. *)
Lemma shmdt_attached c v id s :
  shm_inv ct s -> attached s (c_pid c) id = Some v ->
  exists p i r, shmid_inner s !! id = Some p /\ inners s !! p = Some i /\
    va_range i !! c_pid c = Some r /\ range_start r = v /\
    match aspace_unmap (c_pid c) v (range_size r) (mm s) with
    | (Err e, m1) => sys_shmdt c v s = (SErr e, set_env m1 (SHM_IPC_ID s) s)
    | (Ok _, _) => exists s', sys_shmdt c v s = (SOk 0, s') /\ shm_inv ct s' /\
        forall pid0 id0, attached s' pid0 id0
          = if decide (pid0 = c_pid c /\ id0 = id) then None else attached s pid0 id0
    end.
Proof.
  intros Hs Hatt. set (pid := c_pid c) in *. destruct (sinv_live _ _ _ _ Hs _ _ _ Hatt) as [p Hp].
  destruct (sinv_ids _ _ _ _ Hs id p Hp) as (_ & i & Hi & _ & _ & Ha). rewrite agrees_nil in Ha.
  pose proof (Ha pid) as Hr. rewrite Hatt in Hr. symmetry in Hr. apply fmap_Some in Hr as (r & Hr & Hv).
  exists p, i, r. split_and!; [done..|].
  assert (Hget : get_shmid_by_vaddr pid v s = (SOk (Some id), s)).
  { unfold get_shmid_by_vaddr. simpl. apply bind_Some in Hatt as (m & Hm & Hid). rewrite Hm. simpl.
    apply (sinv_maps _ _ _ _ Hs pid m Hm) in Hid. unfold get_by_value. by rewrite Hid. }
  assert (Hpre : forall k, (o ← get_shmid_by_vaddr pid v; id ← some_or EINVAL o;
      o ← get_inner_by_shmid id; p ← some_or EINVAL o; i ← peek_inner p;
      range ← some_or EINVAL (get_addr_range pid i); k id p range : M Z) s = k id p r s).
  { intros k. unfold mbind, sys_bind. rewrite Hget. simpl. rewrite Hp. simpl. rewrite (peek_inner_eq _ _ _ Hi).
    unfold get_addr_range. by rewrite Hr. }
  unfold sys_shmdt. fold pid.
  rewrite (Hpre (fun id p range => try_mm (aspace_unmap pid (range_start range) (range_size range));;
    remove_shmaddr pid v;; detach_and_collect pid id (c_now c) p;; mret 0)).
  unfold try_mm, mbind, sys_bind. rewrite <- Hv.
  destruct (aspace_unmap pid v (range_size r) (mm s)) as [[[]|e] m1]; [|done]. simpl.
  fold (without pid v (pid_shmid_vaddr s)).
  pose proof (inv_forget pid [id] _ m1 s Hs (without_bijective pid v s Hs) (without_lookup pid v id s Hs Hatt)) as Hf.
  lapply Hf; [clear Hf; intros Hf|by intros id0 ->%list_elem_of_singleton].
  destruct (detach_step pid id [] (c_now c) p _ Hf) as (s' & Hd & Hs' & Hvs); [by intros ?%elem_of_nil|done|].
  unfold setv, set_env in Hd. simpl in Hd. rewrite Hd. exists s'. split_and!; [done|by apply (inv_todo_nil _ pid)|].
  intros pid0 id0. unfold attached at 1. rewrite Hvs. simpl. rewrite (without_lookup pid v id) by done.
  assert (id0 ∈ [id] <-> id0 = id) by apply list_elem_of_singleton. repeat case_decide; intuition.
Qed.

(** [shmdt] at any other address is refused. *)
Lemma shmdt_unattached c v s :
  shm_inv ct s -> (forall id, attached s (c_pid c) id <> Some v) -> sys_shmdt c v s = (SErr EINVAL, s).
Proof.
  intros Hs Hno. unfold sys_shmdt, mbind, sys_bind. simpl.
  destruct (pid_shmid_vaddr s !! c_pid c) as [m|] eqn:Hm; simpl; [|done].
  destruct (get_by_value v m) as [id|] eqn:Hid; simpl; [|done].
  apply (sinv_maps _ _ _ _ Hs _ _ Hm) in Hid. destruct (Hno id). unfold attached. by rewrite Hm.
Qed.

Lemma attached_dec pid v s :
  shm_inv ct s -> (exists id, attached s pid id = Some v) \/ (forall id, attached s pid id <> Some v).
Proof.
  intros Hs. unfold attached. destruct (pid_shmid_vaddr s !! pid) as [m|] eqn:Hm; simpl; [|by right].
  pose proof (sinv_maps _ _ _ _ Hs _ _ Hm) as Hb. destruct (reverse m !! v) as [id|] eqn:Hid.
  - left. exists id. by apply Hb.
  - right. intros id Hf. apply Hb in Hf. congruence.
Qed.

Lemma inv_shmdt c shmaddr s : shm_inv ct s -> shm_inv ct (sys_shmdt c shmaddr s).2.
Proof.
  intros Hs. destruct (attached_dec (c_pid c) shmaddr s Hs) as [[id Hatt]|Hno]; [|by rewrite shmdt_unattached].
  destruct (shmdt_attached c shmaddr id s Hs Hatt) as (p & i & r & _ & _ & _ & _ & Hd).
  destruct (aspace_unmap _ _ _ _) as [[[]|e] m1]; [by destruct Hd as (s' & -> & ? & _)|].
  rewrite Hd. by apply inv_env.
Qed.

(** Detaching does not look at the records by process. *)
Lemma detach_setv pid id now p vs s :
  detach_and_collect pid id now p (setv vs s)
  = ((detach_and_collect pid id now p s).1, setv vs (detach_and_collect pid id now p s).2).
Proof.
  unfold detach_and_collect, mbind, sys_bind, with_inner. simpl.
  destruct (inners s !! p) as [i|]; [|done]. destruct (detach_process pid now i) as [[[]|e|] i']; try done.
  erewrite !peek_inner_eq by apply lookup_insert_eq. by destruct (_ && _).
Qed.

Lemma clear_loop_setv pid now ids vs s :
  clear_loop pid now ids (setv vs s)
  = ((clear_loop pid now ids s).1, setv vs (clear_loop pid now ids s).2).
Proof.
  revert s. induction ids as [|id ids IH]; intros s; [done|]. cbn [clear_loop].
  unfold mbind, sys_bind. simpl. destruct (shmid_inner s !! id) as [p|]; [|apply IH].
  rewrite detach_setv. destruct (detach_and_collect pid id now p s) as [[[]|e|] s']; simpl; [apply IH|done|done].
Qed.

Lemma inv_todo_skip pid id todo s :
  inv_todo ct pid (id :: todo) s -> shmid_inner s !! id = None -> inv_todo ct pid todo s.
Proof.
  intros [H1 H2 H3 H4 H5] Hnone. split; auto. intros id0 p Hp.
  destruct (H4 id0 p Hp) as (? & i & ? & ? & ? & Ha). split; [done|]. exists i. split_and!; [done..|].
  intros pid0. specialize (Ha pid0). assert (id0 <> id) by congruence.
  destruct (decide (pid0 = pid /\ id0 ∈ todo)) as [[-> Hin]|Hout].
  - by rewrite decide_True in Ha by (split; [done|by right]).
  - rewrite decide_False in Ha; [done|]. intros [-> [?|?]%elem_of_cons]; [done|by apply Hout].
Qed.

Lemma clear_loop_ok pid now ids s :
  inv_todo ct pid ids s -> NoDup ids ->
  exists s', clear_loop pid now ids s = (SOk (), s') /\ inv_todo ct pid [] s' /\
    pid_shmid_vaddr s' = pid_shmid_vaddr s.
Proof.
  intros Hs Hnd. revert s Hs. induction Hnd as [|id ids Hid Hnd IH]; intros s Hs; [by exists s|].
  cbn [clear_loop]. unfold mbind, sys_bind. simpl.
  destruct (shmid_inner s !! id) as [p|] eqn:Hp.
  - destruct (detach_step pid id ids now p s Hs Hid Hp) as (s1 & -> & Hs1 & Hv1).
    destruct (IH s1 Hs1) as (s' & Hr & Hs' & Hv'). exists s'. split_and!; [done|done|congruence].
  - simpl. apply IH. by eapply inv_todo_skip.
Qed.

(** A process exits: no panic, and nothing of it is left. *)
Lemma exit_ok pid now s :
  shm_inv ct s ->
  exists s', clear_proc_shm pid now s = (SOk (), s') /\ shm_inv ct s' /\
    pid_shmid_vaddr s' = delete pid (pid_shmid_vaddr s).
Proof.
  intros Hs. unfold clear_proc_shm, mbind, sys_bind. simpl.
  set (vs := delete pid (pid_shmid_vaddr s)).
  assert (Hbij : forall pid0 m0, vs !! pid0 = Some m0 -> bijective m0).
  { intros pid0 m0 [_ ?]%lookup_delete_Some. by eapply sinv_maps. }
  destruct (pid_shmid_vaddr s !! pid) as [m|] eqn:Hm; simpl.
  - set (ids := map fst (bt_entries (forward m))).
    assert (Hkeys : forall id, id ∈ ids <-> is_Some (attached s pid id)).
    { intros id. unfold ids, attached. rewrite elem_of_bt_keys, Hm. done. }
    assert (Hvs : forall pid0 id0, (m0 ← vs !! pid0; forward m0 !! id0)
      = if decide (pid0 = pid /\ id0 ∈ ids) then None else attached s pid0 id0).
    { intros pid0 id0. unfold vs. destruct (decide (pid0 = pid)) as [->|Hne].
      - rewrite lookup_delete_eq. simpl. case_decide as Hc; [done|]. rewrite Hkeys in Hc.
        destruct (attached s pid id0) eqn:E; [|done]. destruct Hc. split; [done|by eexists].
      - rewrite decide_False by (by intros [? _]). by rewrite lookup_delete_ne. }
    pose proof (inv_forget pid ids vs (mm s) s Hs Hbij Hvs (fun id => proj1 (Hkeys id))) as Hf.
    replace (set_env (mm s) (SHM_IPC_ID s) s) with s in Hf by by destruct s.
    destruct (clear_loop_ok pid now ids _ Hf (bt_keys_NoDup _)) as (s' & Hr & Hs' & Hv').
    rewrite clear_loop_setv in Hr. destruct (clear_loop pid now ids s) as [r s1] eqn:Hl. simpl in Hr.
    injection Hr as -> Hr. exists s'. split_and!.
    + f_equal. rewrite <- Hr. unfold setv. f_equal.
      pose proof (clear_loop_setv pid now ids (pid_shmid_vaddr s) s) as Hself.
      replace (setv (pid_shmid_vaddr s) s) with s in Hself by by destruct s.
      rewrite Hl in Hself. injection Hself as Hself. unfold vs. by rewrite Hself.
    + by apply (inv_todo_nil _ pid).
    + done.
  - exists (setv vs s). split_and!; [done| |].
    + assert (Hvs : vs = pid_shmid_vaddr s) by (by apply delete_id). rewrite Hvs. by destruct s.
    + done.
Qed.

End calls.

Lemma shm_exec_inv ct x s : shm_inv ct s -> orderly x s -> shm_inv (ct && keeps_count x) (shm_exec x s).2.
Proof.
  intros Hs Ho. destruct x as [m n|c k size shmflg|c id addr shmflg|c id cmd buf|c shmaddr|pid now];
    simpl; rewrite ?andb_true_r; [by apply inv_env|by apply inv_shmget| | |by apply inv_shmdt|].
  - simpl in Ho. destruct (sys_shmat c id addr shmflg s) as [[v|e|] s'] eqn:He; simpl; [by eapply inv_shmat|by subst..].
  - destruct (Z.eqb_spec cmd IPC_SET) as [->|Hc]; simpl.
    + rewrite andb_false_r. apply inv_shmctl; [by eapply inv_uncounted|done].
    + rewrite andb_true_r. by apply inv_shmctl.
  - destruct (exit_ok pid now s Hs) as (s' & Hx & ? & _). unfold mbind, sys_bind. by rewrite Hx.
Qed.

Lemma shm_history_inv ct s : shm_history ct s -> shm_inv ct s.
Proof.
  induction 1 as [m|ct x s _ IH Ho]; [|by apply shm_exec_inv].
  split; simpl; [done|apply bimap_new_bijective|..]; unfold attached; simpl; intros;
    by rewrite ?lookup_empty in *; simplify_map_eq.
Qed.

Lemma attached_inj ct s pid id1 id2 v :
  shm_inv ct s -> attached s pid id1 = Some v -> attached s pid id2 = Some v -> id1 = id2.
Proof.
  intros Hs (m & Hm & H1)%bind_Some (m' & Hm' & H2)%bind_Some. simplify_eq.
  apply (sinv_maps _ _ _ _ Hs _ _ Hm) in H1, H2. congruence.
Qed.

(** ** Theorems *)

(** C24: the two records of attachments agree.  After any history of orderly calls and exits (the
    identifiers have not wrapped around; an attach that succeeded got an address at which the
    process has nothing attached, and none failed to map the area it had recorded), a process is
    recorded as attached to a segment, at an address, in the manager exactly when it is in the
    segment; attachments are to existing segments, and an address of a process belongs to one
    segment.  Unless [IPC_SET] has overwritten one, the counters of the segments count their
    attachments (modulo the 16 bits of [shm_nattch]). *)
Theorem attachments_agree counted s :
  shm_history counted s ->
  (forall id p, shmid_inner s !! id = Some p ->
     exists i, inners s !! p = Some i /\ shmid i = id /\
       (counted = true -> shm_nattch (shmid_ds i) = as_u16 (attach_count i)) /\
       forall pid, attached s pid id = range_start <$> get_addr_range pid i) /\
  (forall pid id v, attached s pid id = Some v -> is_Some (shmid_inner s !! id)) /\
  (forall pid id1 id2 v, attached s pid id1 = Some v -> attached s pid id2 = Some v -> id1 = id2).
Proof.
  intros Hs%shm_history_inv. split_and!.
  - intros id p Hp. destruct (sinv_ids _ _ _ _ Hs id p Hp) as (_ & i & ? & ? & ? & Ha). exists i.
    rewrite agrees_nil in Ha. by split_and!.
  - apply (sinv_live _ _ _ _ Hs).
  - intros pid id1 id2 v. by eapply attached_inj.
Qed.

(** [shmdt].  At an address where the process has a segment attached it unmaps the recorded
    range and, if that succeeds, forgets this attachment and no other; if unmapping fails, or at
    any other address, nothing but memory changes.  It never panics. *)
Theorem shmdt_detaches counted c v s :
  shm_history counted s ->
  match sys_shmdt c v s with
  | (SOk r, s') =>
      r = 0 /\ exists id, attached s (c_pid c) id = Some v /\
        forall pid0 id0, attached s' pid0 id0
          = if decide (pid0 = c_pid c /\ id0 = id) then None else attached s pid0 id0
  | (SErr _, s') => exists m, s' = set_env m (SHM_IPC_ID s) s
  | (SPanic, _) => False
  end.
Proof.
  intros Hs%shm_history_inv. destruct (attached_dec (c_pid c) v s Hs) as [[id Hatt]|Hno].
  - destruct (shmdt_attached c v id s Hs Hatt) as (p & i & r & _ & _ & _ & _ & Hd).
    destruct (aspace_unmap _ _ _ _) as [[[]|e] m1].
    + destruct Hd as (s' & -> & _ & Hs'). split; [done|]. by exists id.
    + rewrite Hd. by exists m1.
  - rewrite shmdt_unattached by done. exists (mm s). by destruct s.
Qed.

(** C39: attaching and detaching are inverse.  After any history of orderly calls (as above), a
    segment that was attached at an address at which the process had nothing attached can be detached
    at the address [shmat] returned, provided that the range can be unmapped; the attachments of all
    processes are then as before. *)
Theorem shmat_shmdt_roundtrip counted c id addr shmflg s v s1 :
  shm_history counted s -> sys_shmat c id addr shmflg s = (SOk v, s1) ->
  (forall id', attached s (c_pid c) id' <> Some v) ->
  (forall len, exists m, aspace_unmap (c_pid c) v len (mm s1) = (Ok (), m)) ->
  attached s1 (c_pid c) id = Some v /\
  exists s2, sys_shmdt c v s1 = (SOk 0, s2) /\ forall pid0 id0, attached s2 pid0 id0 = attached s pid0 id0.
Proof.
  intros Hs%shm_history_inv Hat Hfree Hunmap.
  destruct (shmat_attached _ _ _ _ _ _ _ Hs Hat Hfree) as [Hnone Hatt].
  assert (Hv : attached s1 (c_pid c) id = Some v) by (by rewrite Hatt, decide_True).
  split; [done|]. pose proof (inv_shmat _ _ _ _ _ _ _ Hs Hat Hfree) as Hs1.
  destruct (shmdt_attached c v id s1 Hs1 Hv) as (p & i & r & _ & _ & _ & _ & Hd).
  destruct (Hunmap (range_size r)) as [m Hm]. rewrite Hm in Hd. destruct Hd as (s2 & Hdt & _ & Hs2).
  exists s2. split; [done|]. intros pid0 id0. rewrite Hs2, Hatt. case_decide as Hc; [|done].
  destruct Hc as [-> ->]. done.
Qed.

(** an exiting process detaches from all its segments.  [clear_proc_shm] does not panic; it
    leaves no attachment of the process, in the manager or in a segment it knows, and those of
    other processes as they were. *)
Theorem exit_detaches_all counted s pid now :
  shm_history counted s ->
  exists s', clear_proc_shm pid now s = (SOk (), s') /\
    (forall id, attached s' pid id = None) /\
    (forall pid' id, pid' <> pid -> attached s' pid' id = attached s pid' id) /\
    (forall id p i, shmid_inner s' !! id = Some p -> inners s' !! p = Some i -> get_addr_range pid i = None).
Proof.
  intros Hs%shm_history_inv. destruct (exit_ok pid now s Hs) as (s' & Hr & Hs' & Hv). exists s'.
  assert (Hno : forall id, attached s' pid id = None) by (intros id; unfold attached; by rewrite Hv, lookup_delete_eq).
  split_and!; [done|done| |].
  - intros pid' id Hne. unfold attached. by rewrite Hv, lookup_delete_ne.
  - intros id p i Hp Hi. destruct (sinv_ids _ _ _ _ Hs' id p Hp) as (_ & i0 & Hi0 & _ & _ & Ha).
    rewrite agrees_nil in Ha. simplify_eq. specialize (Ha pid). rewrite Hno in Ha.
    unfold get_addr_range. by destruct (va_range i !! pid).
Qed.

End history.

(** ** A concrete kernel *)

(** Memory that hands out ever higher addresses, until it is full. *)
Record toy : Type := mk_toy { toy_next : Z; toy_full : bool }.

#[export] Instance toy_memory : ShmMemory toy := {
  FLAG_READ := 1;
  FLAG_WRITE := 2;
  FLAG_EXECUTE := 4;
  FLAG_USER := 8;
  aspace_base _ _ := 0x10000;
  find_free_area _ _ _ m := Some (toy_next m);
  aspace_map _ _ len _ _ m :=
    if toy_full m then (Err ENOMEM, m) else (Ok (), mk_toy (toy_next m + len) false);
  aspace_unmap _ _ _ m := (Ok (), m);
  new_shared_pages _ m := (Ok 1, m);
  read_shmid_ds _ _ := Ok (shmid_ds_new 0 0 0 0);
  write_shmid_ds _ _ m := (Ok (), m);
}.

(** Process 5 creates a segment of two pages with key 7, and attaches it. *)
Definition process5 : caller := mk_caller 5 0 0 0.
Definition segment_made : shm_state toy :=
  (sys_shmget process5 7 5000 0x180 (shm_initial (mk_toy 0x20000 false))).2.
Definition segment_attached : shm_state toy := (sys_shmat process5 0 0 0 segment_made).2.

Lemma segment_made_history : shm_history true segment_made.
Proof. apply (sh_call true (CGet process5 7 5000 0x180)); [apply sh_new|done]. Qed.

Lemma nothing_attached id : attached segment_made 5 id <> Some 0x20000.
Proof. done. Qed.

Lemma segment_attached_eq : sys_shmat process5 0 0 0 segment_made = (SOk 0x20000, segment_attached).
Proof. vm_compute. reflexivity. Qed.

Lemma segment_attached_history : shm_history true segment_attached.
Proof.
  apply (sh_call true (CAt process5 0 0 0)); [apply segment_made_history|].
  simpl. rewrite segment_attached_eq. apply nothing_attached.
Qed.

Lemma attachments_agree_witness :
  exists i, inners segment_attached !! 1%positive = Some i /\ shm_nattch (shmid_ds i) = as_u16 (attach_count i).
Proof.
  destruct (attachments_agree _ _ segment_attached_history) as (H & _).
  destruct (H 0 1%positive) as (i & Hi & _ & Hn & _); [vm_compute; reflexivity|]. exists i. auto.
Defined.

Lemma shmdt_detaches_witness :
  attached (sys_shmdt process5 0x20000 segment_attached).2 5 0 = None.
Proof.
  pose proof (shmdt_detaches true process5 0x20000 _ segment_attached_history) as H.
  destruct (sys_shmdt process5 0x20000 segment_attached) as [[r|e|] s'] eqn:E; [|by vm_compute in E|done].
  destruct H as (_ & id & Hid & Hs'). simpl. rewrite Hs'. case_decide as Hc; [done|].
  destruct Hc. split; [done|].
  apply (attached_inj true segment_attached 5 0 id 0x20000);
    [by apply shm_history_inv, segment_attached_history|vm_compute; reflexivity|done].
Defined.

Lemma shmat_shmdt_roundtrip_witness :
  exists s2, sys_shmdt process5 0x20000 segment_attached = (SOk 0, s2) /\ attached s2 5 0 = attached segment_made 5 0.
Proof.
  destruct (shmat_shmdt_roundtrip true process5 0 0 0 segment_made 0x20000 segment_attached
    segment_made_history segment_attached_eq nothing_attached) as (_ & s2 & Hd & Hs2).
  - intros len. by eexists.
  - exists s2. split; [exact Hd|apply Hs2].
Defined.

Lemma exit_detaches_all_witness :
  exists s', clear_proc_shm 5 9 segment_attached = (SOk (), s') /\ attached s' 5 0 = None.
Proof.
  destruct (exit_detaches_all true segment_attached 5 9 segment_attached_history) as (s' & Hr & Hn & _).
  exists s'. split; [exact Hr|apply Hn].
Defined.

(** ** Where the code breaks the agreement *)

(** user programs can panic the kernel through [shmat].  An unknown identifier and a second
    attachment of the same segment hit an [unwrap] and an [assert]; and an attachment whose
    mapping fails returns an error but stays recorded in the manager, so that the process panics
    the kernel when it exits. *)
Theorem shmat_can_panic :
  (sys_shmat process5 99 0 0 segment_made).1 = SPanic /\
  (sys_shmat process5 0 0 0 segment_attached).1 = SPanic /\
  let full := set_env (mk_toy 0x20000 true) 1 segment_made in
  (sys_shmat process5 0 0 0 full).1 = SErr ENOMEM /\
  attached (sys_shmat process5 0 0 0 full).2 5 0 = Some 0x20000 /\
  (clear_proc_shm 5 9 (sys_shmat process5 0 0 0 full).2).1 = SPanic.
Proof. cbv zeta. split_and!; vm_compute; reflexivity. Qed.

(** a segment that is removed while nobody has it attached stays.  [IPC_RMID] only sets a mark
    that detaching looks at; without an attachment the segment keeps its identifier and its
    key, and [shmget] with the key still finds it. *)
Theorem unattached_segment_is_never_removed :
  let removed := (sys_shmctl process5 0 IPC_RMID 0 segment_made).2 in
  (sys_shmctl process5 0 IPC_RMID 0 segment_made).1 = SOk 0 /\
  is_Some (shmid_inner removed !! 0) /\
  (sys_shmget process5 7 5000 0x180 removed).1 = SOk 0.
Proof. cbv zeta. split_and!; [vm_compute; reflexivity|by eexists|vm_compute; reflexivity]. Qed.

(** [IPC_SET] overwrites the attach count with what the user gives. *)
Theorem ipc_set_overwrites_count :
  let s := (sys_shmctl process5 0 IPC_SET 0x1000 segment_attached).2 in
  exists i, inners s !! 1%positive = Some i /\ shm_nattch (shmid_ds i) = 0 /\ attach_count i = 1.
Proof. cbv zeta. eexists. split; [vm_compute; reflexivity|]. by split. Qed.
