(* ===== verification/Locks.v ===== *)
(** * Lock order of the IPC calls

    Message queues and shared memory are each protected by a mutex on the manager and one per
    object.  Here a call is the sequence of acquisitions and releases it performs; threads
    interleave, an acquisition waits until the lock is free.  A common order of acquisition
    excludes deadlock; the message-queue calls have one, the shared-memory calls do not. *)

From S2P Require Import Prelude.

#[local] Open Scope nat_scope.

(** ** Threads and locks *)

(** The locks: a manager, the objects it manages, address spaces, by number, and a device. *)
Inductive lock : Type := LManager | LObject (n : nat) | LAspace (pid : nat) | LDevice.

#[export] Instance lock_eq_dec : EqDecision lock.
Proof. solve_decision. Defined.

Inductive act : Type := Acq (l : lock) | Rel (l : lock).

Record lthread : Type := mk_lthread { held : list lock; todo : list act }.

Definition held_by_none (l : lock) (ts : list lthread) : Prop := forall t, t ∈ ts -> l ∉ held t.

(** One thread takes its next step. *)
Inductive lstep : list lthread -> list lthread -> Prop :=
| lstep_acq ts i h l rest :
    ts !! i = Some (mk_lthread h (Acq l :: rest)) -> held_by_none l ts ->
    lstep ts (<[i := mk_lthread (l :: h) rest]> ts)
| lstep_rel ts i h l rest :
    ts !! i = Some (mk_lthread h (Rel l :: rest)) ->
    lstep ts (<[i := mk_lthread (filter (fun l' => l' <> l) h) rest]> ts).

Definition start (programs : list (list act)) : list lthread := map (mk_lthread []) programs.

(** Some thread has work left and none can move. *)
Definition deadlocked (ts : list lthread) : Prop :=
  (exists t, t ∈ ts /\ todo t <> []) /\ (forall ts', ~ lstep ts ts').

(** Two threads that wait for each other. *)
Lemma two_stuck h1 l1 r1 h2 l2 r2 :
  l1 ∈ h2 -> l2 ∈ h1 -> deadlocked [mk_lthread h1 (Acq l1 :: r1); mk_lthread h2 (Acq l2 :: r2)].
Proof.
  intros H1 H2. split; [eexists; split; [by left|done]|]. intros ts' Hs.
  inversion Hs as [ts i h l rest Hi Hfree|ts i h l rest Hi]; subst; clear Hs; destruct i as [|[|i]]; simplify_eq/=.
  - by apply (Hfree (mk_lthread h2 (Acq l2 :: r2))); [by right; left|].
  - by apply (Hfree (mk_lthread h1 (Acq l1 :: r1))); [by left|].
Qed.

(** ** Ordered acquisition *)

(** Each acquisition is of a higher rank than all locks held; at the end nothing is held. *)
Fixpoint ordered (rank : lock -> nat) (h : list lock) (p : list act) : Prop :=
  match p with
  | [] => h = []
  | Acq l :: p => Forall (fun l' => rank l' < rank l) h /\ ordered rank (l :: h) p
  | Rel l :: p => ordered rank (filter (fun l' => l' <> l) h) p
  end.

Definition all_ordered (rank : lock -> nat) (ts : list lthread) : Prop :=
  Forall (fun t => ordered rank (held t) (todo t)) ts.

Lemma ordered_step rank ts ts' : all_ordered rank ts -> lstep ts ts' -> all_ordered rank ts'.
Proof.
  intros Hts Hs. destruct Hs as [ts i h l rest Hi _|ts i h l rest Hi];
    (apply Forall_insert; [done|]);
    pose proof (Forall_lookup_1 _ _ _ _ Hts Hi) as Ho; simpl in *; [by destruct Ho|done].
Qed.

(** The rank of the lock a thread waits for. *)
Definition wanted (rank : lock -> nat) (t : lthread) : nat :=
  match todo t with Acq l :: _ => S (rank l) | _ => 0 end.

(** A list has a largest element. *)
Lemma max_wanted rank ts : ts <> [] -> exists t, t ∈ ts /\ forall t', t' ∈ ts -> wanted rank t' <= wanted rank t.
Proof.
  induction ts as [|t ts IH]; [done|]. intros _. destruct ts as [|t1 ts].
  - exists t. split; [by left|]. by intros t' ->%list_elem_of_singleton.
  - destruct IH as (m & Hm & Hmax); [done|]. destruct (decide (wanted rank m <= wanted rank t)).
    + exists t. split; [by left|]. intros t' [->|Ht']%elem_of_cons; [done|]. specialize (Hmax t' Ht'). lia.
    + exists m. split; [by right|]. intros t' [->|Ht']%elem_of_cons; [lia|by apply Hmax].
Qed.

Lemma holder_or_none l ts : held_by_none l ts \/ exists t, t ∈ ts /\ l ∈ held t.
Proof.
  induction ts as [|t ts [IH|(t' & ? & ?)]].
  - left. by intros t ?%elem_of_nil.
  - destruct (decide (l ∈ held t)); [right; exists t; split; [by left|done]|].
    left. by intros t' [->|?]%elem_of_cons; [|apply IH].
  - right. exists t'. split; [by right|done].
Qed.

Lemma ordered_not_deadlocked rank ts : all_ordered rank ts -> ~ deadlocked ts.
Proof.
  intros Hts [(t0 & Ht0 & Hwork) Hstuck]. unfold all_ordered in Hts. rewrite list.Forall_forall in Hts.
  assert (Hrel : forall t l rest, t ∈ ts -> todo t <> Rel l :: rest).
  { intros [h p] l rest [i Hi]%list_elem_of_lookup Hp. simpl in Hp. subst p. by eapply Hstuck, lstep_rel. }
  destruct (max_wanted rank ts) as (m & Hm & Hmax); [by intros ->; apply elem_of_nil in Ht0|].
  destruct (todo m) as [|[l|l] rest] eqn:Em; [| |by destruct (Hrel m l rest)].
  - specialize (Hmax t0 Ht0). unfold wanted in Hmax. rewrite Em in Hmax.
    destruct (todo t0) as [|[l|l] rest] eqn:E0; [done|lia|by destruct (Hrel t0 l rest)].
  - destruct (holder_or_none l ts) as [Hfree|(t & Ht & Hl)].
    + apply list_elem_of_lookup in Hm as [i Hi]. destruct m as [h p]. simpl in Em. subst p.
      by eapply Hstuck, lstep_acq.
    + specialize (Hmax t Ht). specialize (Hts t Ht). unfold wanted in Hmax. rewrite Em in Hmax.
      destruct (todo t) as [|[l'|l'] rest'] eqn:Et; simpl in Hts;
        [rewrite Hts in Hl; by apply elem_of_nil in Hl| |by destruct (Hrel t l' rest')].
      destruct Hts as [Hlow _]. rewrite list.Forall_forall in Hlow. specialize (Hlow l Hl). lia.
Qed.

Lemma ordered_reachable rank programs ts :
  Forall (ordered rank []) programs -> rtc lstep (start programs) ts -> all_ordered rank ts.
Proof.
  intros Hp Hr. assert (Hs : all_ordered rank (start programs)).
  { unfold all_ordered, start. apply Forall_fmap. by eapply Forall_impl. }
  clear Hp. induction Hr; eauto using ordered_step.
Qed.

Lemma ordered_app rank h p1 p2 : ordered rank h p1 -> ordered rank [] p2 -> ordered rank h (p1 ++ p2).
Proof.
  revert h. induction p1 as [|[l|l] p1 IH]; intros h; simpl; [by intros ->| |apply IH].
  intros [? ?] ?. split; [done|]. by apply IH.
Qed.

(** ** Message queues *)

(** The calls of [msg.rs], with the queues they lock: [msgget] of a known key looks into the
    queue; [msgsnd], [msgrcv] and [msgctl] of a known identifier lock the queue after the manager
    has been released, [IPC_RMID] of an empty queue takes the manager again afterwards; [MSG_INFO]
    and [MSG_STAT] visit queues under the manager's lock. *)
Inductive msg_call : Type :=
| MsgGet (found : option nat)
| MsgQueueOp (found : option nat)
| MsgRmidEmpty (q : nat)
| MsgVisit (qs : list nat).

Definition visit (q : nat) : list act := [Acq (LObject q); Rel (LObject q)].

Definition msg_locks (c : msg_call) : list act :=
  match c with
  | MsgGet found =>
      [Acq LManager] ++ match found with Some q => visit q | None => [] end ++ [Rel LManager]
  | MsgQueueOp found =>
      [Acq LManager; Rel LManager] ++ match found with Some q => visit q | None => [] end
  | MsgRmidEmpty q => [Acq LManager; Rel LManager] ++ visit q ++ [Acq LManager; Rel LManager]
  | MsgVisit qs => [Acq LManager] ++ concat (map visit qs) ++ [Rel LManager]
  end.

(** Manager before queues. *)
Definition manager_first (l : lock) : nat :=
  match l with LManager => 0 | LObject _ => 1 | LAspace _ => 2 | LDevice => 3 end.

Lemma ordered_visits qs p :
  ordered manager_first [LManager] p ->
  ordered manager_first [LManager] (concat (map visit qs) ++ p).
Proof.
  intros Hp. induction qs as [|q qs IH]; simpl; [done|].
  split; [by repeat constructor|]. rewrite !filter_cons. repeat case_decide; try done.
Qed.

Lemma msg_locks_ordered c : ordered manager_first [] (msg_locks c).
Proof.
  destruct c as [[q|]|[q|]|q|qs]; cbn -[ordered];
    try (by simpl; rewrite ?filter_cons; repeat (case_decide; try done); repeat split; repeat constructor).
  split; [by constructor|]. by apply ordered_visits.
Qed.

(** message-queue calls never deadlock.  However many threads run whatever sequences of
    message-queue calls, in every reachable state in which some thread has work left some
    thread can proceed: the manager's lock is never requested while a queue is locked (which is
    why [IPC_RMID] releases the queue before it removes it). *)
Theorem message_calls_never_deadlock (calls : list (list msg_call)) ts :
  rtc lstep (start (map (fun cs => concat (map msg_locks cs)) calls)) ts -> ~ deadlocked ts.
Proof.
  intros Hr. apply (ordered_not_deadlocked manager_first). eapply ordered_reachable; [|done].
  apply Forall_fmap, Forall_forall. intros cs _. simpl.
  induction cs as [|c cs IH]; simpl; [done|]. by apply ordered_app; [apply msg_locks_ordered|].
Qed.

(** Two removals of an empty queue and a send to it. *)
Lemma message_calls_never_deadlock_witness :
  ~ deadlocked (start (map (fun cs => concat (map msg_locks cs))
      [[MsgRmidEmpty 0]; [MsgRmidEmpty 0]; [MsgQueueOp (Some 0); MsgVisit [0; 1]]])).
Proof.
  apply (message_calls_never_deadlock
    [[MsgRmidEmpty 0]; [MsgRmidEmpty 0]; [MsgQueueOp (Some 0); MsgVisit [0; 1]]]). apply rtc_refl.
Defined.

(** ** Shared memory *)

(** The calls of [shm.rs] on an existing segment, with the address space of the caller:
    [shmget] of a known key and the exit of a process lock segments under the manager's lock;
    [shmat] and [shmdt] take the manager's lock while they hold segment and address space. *)
Inductive shm_call : Type :=
| ShmGet (found : option nat)
| ShmAt (seg pid : nat)
| ShmCtl (seg : nat)
| ShmDt (seg pid : nat)
| ShmExit (segs : list nat).

Definition shm_locks (c : shm_call) : list act :=
  match c with
  | ShmGet found =>
      [Acq LManager] ++ match found with Some q => visit q | None => [] end ++ [Rel LManager]
  | ShmAt seg pid =>
      [Acq LManager; Rel LManager; Acq (LObject seg); Acq (LAspace pid); Acq LManager;
       Rel LManager; Rel (LAspace pid); Rel (LObject seg)]
  | ShmCtl seg => [Acq LManager; Rel LManager] ++ visit seg
  | ShmDt seg pid =>
      [Acq LManager; Rel LManager; Acq LManager; Rel LManager; Acq (LObject seg); Acq (LAspace pid);
       Acq LManager; Rel LManager; Rel (LAspace pid); Rel (LObject seg)]
  | ShmExit segs => [Acq LManager] ++ concat (map visit segs) ++ [Rel LManager]
  end.

(** The thread attaching holds the segment and the address space and waits for the manager; the
    other one holds the manager and waits for the segment. *)
Definition shm_deadlock : list lthread :=
  [mk_lthread [LAspace 1; LObject 0]
     [Acq LManager; Rel LManager; Rel (LAspace 1); Rel (LObject 0)];
   mk_lthread [LManager] [Acq (LObject 0); Rel (LObject 0); Rel LManager]].

Lemma shm_deadlock_stuck : deadlocked shm_deadlock.
Proof. apply two_stuck; [by left|by right; left]. Qed.

(** Thread [i] acquires or releases. *)
Ltac acquires i :=
  eapply rtc_l; [apply (lstep_acq _ i); [reflexivity|];
    intros t Ht; repeat (apply elem_of_cons in Ht as [->|Ht]; [compute_done|]); by apply elem_of_nil in Ht|];
  simpl.
Ltac releases i := eapply rtc_l; [apply (lstep_rel _ i); reflexivity|]; simpl.

(** shared-memory calls can deadlock.  A process that attaches a segment while another looks
    the same segment up by key, or exits while attached to it, can wait for the manager's lock
    with the segment locked while the other waits for the segment with the manager locked. *)
Theorem shm_calls_can_deadlock :
  rtc lstep (start [shm_locks (ShmAt 0 1); shm_locks (ShmGet (Some 0))]) shm_deadlock /\
  rtc lstep (start [shm_locks (ShmAt 0 1); shm_locks (ShmExit [0])]) shm_deadlock /\
  deadlocked shm_deadlock.
Proof.
  split_and!; [..|apply shm_deadlock_stuck].
  - unfold start, shm_locks. simpl. acquires 0. releases 0. acquires 0. acquires 0. acquires 1. apply rtc_refl.
  - unfold start, shm_locks. simpl. acquires 0. releases 0. acquires 0. acquires 0. acquires 1. apply rtc_refl.
Qed.
