(* ===== verification/Io.v ===== *)
(** * Fallible operations on state

    What the storage components run on: a monad of operations that change a state and end with
    a value, an error, a panic, or by using up the fuel of a loop.  Code that a component calls
    but that is not part of the sources (a file node, an allocator) is an operation on a state of
    its own, embedded by [zoom].  The weakest precondition [iwp] has a postcondition for values
    and one for errors, and excludes panics and lack of fuel. *)

From S2P Require Import Prelude.

(** ** The monad *)

Inductive res (E A : Type) : Type :=
| ROk (a : A)
| RErr (e : E)
| RPanic
| RDiverge.
Arguments ROk {E A} a.
Arguments RErr {E A} e.
Arguments RPanic {E A}.
Arguments RDiverge {E A}.

#[export] Instance res_eq_dec {E A} `{EqDecision E, EqDecision A} : EqDecision (res E A).
Proof. solve_decision. Defined.

Definition io (E W A : Type) : Type := W -> res E A * W.

#[export] Instance io_ret {E W} : MRet (io E W) := fun A a w => (ROk a, w).
#[export] Instance io_bind {E W} : MBind (io E W) := fun A B k m w =>
  match m w with
  | (ROk a, w') => k a w'
  | (RErr e, w') => (RErr e, w')
  | (RPanic, w') => (RPanic, w')
  | (RDiverge, w') => (RDiverge, w')
  end.

Section operations.
Context {E W : Type}.

Definition throw {A} (e : E) : io E W A := fun w => (RErr e, w).
Definition ipanic {A} : io E W A := fun w => (RPanic, w).
Definition idiverge {A} : io E W A := fun w => (RDiverge, w).
Definition iget {A} (f : W -> A) : io E W A := fun w => (ROk (f w), w).
Definition iset (f : W -> W) : io E W () := fun w => (ROk (), f w).
(** An operation that cannot fail. *)
Definition istate {A} (f : W -> A * W) : io E W A := fun w => let '(a, w') := f w in (ROk a, w').

(** [assert!(b)], and [o.unwrap()]. *)
Definition iassert (b : bool) : io E W () := if b then mret () else ipanic.
Definition iunwrap {A} (o : option A) : io E W A :=
  match o with Some a => mret a | None => ipanic end.
(** [r?]. *)
Definition iresult {A} (r : result E A) : io E W A :=
  match r with Ok a => mret a | Err e => throw e end.

(** The values that go out of scope when [m] returns an error are dropped by [h]. *)
Definition on_err {A} (h : io E W ()) (m : io E W A) : io E W A := fun w =>
  match m w with
  | (RErr e, w') => match h w' with
                    | (ROk _, w'') | (RErr _, w'') => (RErr e, w'')
                    | (RPanic, w'') => (RPanic, w'')
                    | (RDiverge, w'') => (RDiverge, w'')
                    end
  | r => r
  end.

(** The result of [m] as a value. *)
Definition attempt {A} (m : io E W A) : io E W (result E A) := fun w =>
  match m w with
  | (ROk a, w') => (ROk (Ok a), w')
  | (RErr e, w') => (ROk (Err e), w')
  | (RPanic, w') => (RPanic, w')
  | (RDiverge, w') => (RDiverge, w')
  end.

(** [m] for each element of a list, in order. *)
Fixpoint iter_list {A} (m : A -> io E W ()) (l : list A) : io E W () :=
  match l with
  | [] => mret ()
  | a :: l => m a ≫= fun _ => iter_list m l
  end.

End operations.

(** An operation on a part of the state. *)
Definition zoom {E S W A} (get : S -> W) (put : W -> S -> S) (m : io E W A) : io E S A := fun s =>
  let '(r, w) := m (get s) in (r, put w s).

(** ** Weakest preconditions *)

Section iwp.
Context {E W : Type}.
Implicit Types (w : W).

Definition iwp {A} (m : io E W A) (Q : A -> W -> Prop) (R : E -> W -> Prop) : W -> Prop := fun w =>
  match m w with
  | (ROk a, w') => Q a w'
  | (RErr e, w') => R e w'
  | (RPanic, _) | (RDiverge, _) => False
  end.

Lemma iwp_mono {A} (m : io E W A) Q Q' R R' w :
  iwp m Q R w -> (forall a w, Q a w -> Q' a w) -> (forall e w, R e w -> R' e w) -> iwp m Q' R' w.
Proof. unfold iwp. destruct (m w) as [[] ?]; auto. Qed.

Lemma iwp_ret {A} (a : A) Q R w : Q a w -> iwp (mret a) Q R w.
Proof. done. Qed.

Lemma iwp_bind {A B} (m : io E W A) (k : A -> io E W B) Q R w :
  iwp m (fun a => iwp (k a) Q R) R w -> iwp (m ≫= k) Q R w.
Proof. unfold iwp, mbind, io_bind. by destruct (m w) as [[] ?]. Qed.

Lemma iwp_throw {A} e (Q : A -> W -> Prop) R w : R e w -> iwp (throw e) Q R w.
Proof. done. Qed.

Lemma iwp_get {A} (f : W -> A) Q R w : Q (f w) w -> iwp (iget f) Q R w.
Proof. done. Qed.

Lemma iwp_set (f : W -> W) (Q : () -> W -> Prop) R w : Q () (f w) -> iwp (iset f) Q R w.
Proof. done. Qed.

Lemma iwp_state {A} (f : W -> A * W) (Q : A -> W -> Prop) R w : Q (f w).1 (f w).2 -> iwp (istate f) Q R w.
Proof. unfold iwp, istate. by destruct (f w). Qed.

Lemma iwp_assert b (Q : () -> W -> Prop) R w : b = true -> Q () w -> iwp (iassert b) Q R w.
Proof. by intros ->. Qed.

Lemma iwp_result {A} (r : result E A) (Q : A -> W -> Prop) R w :
  (forall a, r = Ok a -> Q a w) -> (forall e, r = Err e -> R e w) -> iwp (iresult r) Q R w.
Proof. intros HQ HR. destruct r; [by apply HQ|by apply HR]. Qed.

Lemma iwp_on_err {A} (h : io E W ()) (m : io E W A) Q R w :
  iwp m Q (fun e => iwp h (fun _ => R e) (fun _ => R e)) w -> iwp (on_err h m) Q R w.
Proof.
  unfold iwp, on_err. destruct (m w) as [[a|e| |] w']; try done.
  destruct (h w') as [[] ?]; done.
Qed.

Lemma iwp_attempt {A} (m : io E W A) (Q : result E A -> W -> Prop) R w :
  iwp m (fun a => Q (Ok a)) (fun e => Q (Err e)) w -> iwp (attempt m) Q R w.
Proof. unfold iwp, attempt. by destruct (m w) as [[] ?]. Qed.

Lemma iwp_iter_list {A} (m : A -> io E W ()) (I : list A -> W -> Prop) l Q R w :
  (forall a l w, I (a :: l) w -> iwp (m a) (fun _ => I l) R w) ->
  (forall w, I [] w -> Q () w) -> I l w -> iwp (iter_list m l) Q R w.
Proof.
  intros Hm HQ. revert w. induction l as [|a l IH]; intros w HI; simpl; [by apply HQ|].
  apply iwp_bind. eapply iwp_mono; [by apply Hm|intros ? w'; apply IH|done].
Qed.

(** What a weakest precondition says of a run. *)
Lemma iwp_run {A} (m : io E W A) Q R w :
  iwp m Q R w <->
  (exists a w', m w = (ROk a, w') /\ Q a w') \/ (exists e w', m w = (RErr e, w') /\ R e w').
Proof.
  unfold iwp. destruct (m w) as [[a|e| |] w'].
  - split; [intros; left; eauto|]. intros [(?&?&?&?)|(?&?&?&?)]; by simplify_eq.
  - split; [intros; right; eauto|]. intros [(?&?&?&?)|(?&?&?&?)]; by simplify_eq.
  - split; [done|]. intros [(?&?&?&?)|(?&?&?&?)]; by simplify_eq.
  - split; [done|]. intros [(?&?&?&?)|(?&?&?&?)]; by simplify_eq.
Qed.

Lemma iwp_ok {A} (m : io E W A) Q R w a w' : iwp m Q R w -> m w = (ROk a, w') -> Q a w'.
Proof. unfold iwp. by intros ? Hm; rewrite Hm in *. Qed.
Lemma iwp_err {A} (m : io E W A) Q R w e w' : iwp m Q R w -> m w = (RErr e, w') -> R e w'.
Proof. unfold iwp. by intros ? Hm; rewrite Hm in *. Qed.

End iwp.

Lemma iwp_zoom {E S W A} (get : S -> W) (put : W -> S -> S) (m : io E W A) Q R s :
  iwp m (fun a w => Q a (put w s)) (fun e w => R e (put w s)) (get s) ->
  iwp (zoom get put m) Q R s.
Proof. unfold iwp, zoom. by destruct (m (get s)) as [[] ?]. Qed.

(** ** Slices *)

(** Overwriting the elements of [l] from index [i] on by [new]. *)
Definition splice {A} (i : nat) (new l : list A) : list A :=
  take i l ++ new ++ drop (i + length new) l.

Lemma length_splice {A} i (new l : list A) :
  (i + length new <= length l)%nat -> length (splice i new l) = length l.
Proof. intros. unfold splice. rewrite !length_app, length_take, length_drop. lia. Qed.

Lemma lookup_splice {A} i (new l : list A) j :
  (i + length new <= length l)%nat ->
  splice i new l !! j =
    if decide (i <= j < i + length new)%nat then new !! (j - i)%nat else l !! j.
Proof.
  intros Hi. unfold splice. case_decide as Hj.
  - rewrite lookup_app_r by (rewrite length_take; lia). rewrite length_take, Nat.min_l by lia.
    by rewrite lookup_app_l by lia.
  - destruct (decide (j < i)%nat).
    + rewrite lookup_app_l by (rewrite length_take; lia). by rewrite lookup_take_lt.
    + rewrite lookup_app_r by (rewrite length_take; lia). rewrite length_take, Nat.min_l by lia.
      rewrite lookup_app_r by lia. rewrite lookup_drop. f_equal. lia.
Qed.
