(* ===== verification/PageCache.v ===== *)
(** * The page cache of files

    [CachedFile] of [axfs-ng/src/highlevel/file.rs]: buffered file access through a cache of
    pages with least-recently-used eviction, shared by all handles of a file.

    Outside code is a parameter.  [LruCache] is the [lru] crate.  [CacheEnv] is what surrounds the
    cache: the file node of the VFS, the page allocator, the caller's buffer ([axio]) and the
    eviction listeners.  The documented behaviour the theorems rely on is in [LruLaws] and
    [CacheEnvLaws], the second part of this file. *)

From S2P Require Import Prelude Io.

(** [VfsError] ([axerrno::AxError]): the errors that the file layer itself returns. *)
Inductive VfsError : Type :=
| AddrInUse | AlreadyConnected | AlreadyExists | BadAddress | BadFileDescriptor | BadState | BrokenPipe
| ConnectionRefused | ConnectionReset | CrossesDevices | DirectoryNotEmpty | FilesystemLoop | InProgress | InvalidData
| InvalidInput | IoError | IsADirectory | NameTooLong | NoMemory | NoSuchDevice | NoSuchProcess | NotADirectory | NotASocket | NotATty
| NotConnected | NotFound | OperationNotPermitted | OperationNotSupported | PermissionDenied | ResourceBusy | StorageFull
| TimedOut | TooManyOpenFiles | Unsupported | WouldBlock.

#[export] Instance VfsError_eq_dec : EqDecision VfsError.
Proof. solve_decision. Defined.

Definition PAGE_SIZE : Z := 4096.

(** A page of zeros. *)
Definition zero_page : list Z := replicate (Z.to_nat PAGE_SIZE) 0.

(** A cached page: its address, what the memory there holds, and whether it must be written
    back. *)
Record PageCache : Type := mk_page { addr : Z; data : list Z; dirty : bool }.

(** [mark_dirty]. *)
Definition mark_dirty (p : PageCache) : PageCache := mk_page (addr p) (data p) true.

(** Writing through [data()]. *)
Definition set_data (d : list Z) (p : PageCache) : PageCache := mk_page (addr p) d (dirty p).
Definition set_dirty (b : bool) (p : PageCache) : PageCache := mk_page (addr p) (data p) b.

(** ** Parameters *)

(** [lru::LruCache<u32, V>].  [lru_get_mut] returns the value whose reference the caller gets, and
    [lru_store] is the assignment through that reference. *)
Class LruCache (C V : Type) : Type := {
  lru_new : Z -> C;
  lru_contains : Z -> C -> bool;
  lru_get_mut : Z -> C -> option V * C;
  lru_store : Z -> V -> C -> C;
  lru_put : Z -> V -> C -> option V * C;
  lru_pop : Z -> C -> option V * C;
  lru_pop_lru : C -> option (Z * V) * C;
  lru_iter : C -> list (Z * V);
  lru_len : C -> Z;
  lru_cap : C -> Z;
}.

(** The surroundings of a cached file.  [fn_*] are the methods of its node; [fn_read_at n off]
    yields the bytes read into a buffer of [n] bytes.  [pg_alloc] is
    [global_allocator().alloc_pages(1, ..)] with what the page holds.  [dst_*] and [src_*] are the
    buffers of a read and of a write; a failing [src_read] may have delivered some bytes.
    [call_listener] runs an eviction listener. *)
Class CacheEnv (W : Type) : Type := {
  fn_as_file : io VfsError W ();
  fn_len : io VfsError W Z;
  fn_set_len : Z -> io VfsError W ();
  fn_read_at : Z -> Z -> io VfsError W (list Z);
  fn_write_at : list Z -> Z -> io VfsError W Z;
  fn_sync : bool -> io VfsError W ();
  pg_alloc : io VfsError W (Z * list Z);
  pg_dealloc : Z -> W -> W;
  dst_remaining : W -> Z;
  dst_write : list Z -> io VfsError W Z;
  src_remaining : W -> Z;
  src_read : Z -> W -> (result VfsError Z * list Z) * W;
  call_listener : Z -> Z -> PageCache -> W -> W;
  overflow_checks : bool;
}.

Definition usize_max : Z := 2 ^ 64 - 1.

(** ** Cached files *)

Section cached_file.
Context {C W : Type} {Lru : LruCache C PageCache} {Env : CacheEnv W}.

(** A [CachedFile] with the [CachedFileShared] it points to, and its surroundings. *)
Record CachedFile : Type := mk_cached {
  page_cache : C;
  evict_listeners : list Z;
  in_memory : bool;
  ext : W;
}.

Local Notation M := (io VfsError CachedFile).

Definition set_cache (c : C) (s : CachedFile) : CachedFile :=
  mk_cached c (evict_listeners s) (in_memory s) (ext s).
Definition set_ext (w : W) (s : CachedFile) : CachedFile :=
  mk_cached (page_cache s) (evict_listeners s) (in_memory s) w.

Definition env {A} (m : io VfsError W A) : M A := zoom ext set_ext m.
Definition lru {A} (f : C -> A * C) : M A := zoom page_cache set_cache (istate f).

(** [CachedFileShared::new] and [new_unbounded]: 64 pages, or as many as fit. *)
Definition shared_new (in_memory : bool) : C := lru_new (if in_memory then usize_max else 64).

(** [a + b] on [u64]. *)
Definition add_u64 (a b : Z) : M Z :=
  if overflow_checks && (u64_max <? a + b) then ipanic else mret (as_u64 (a + b)).

(** [PageCache::new] and its [Drop]. *)
Definition page_new : M PageCache :=
  '(a, d) ← env pg_alloc; mret (mk_page a d false).
Definition page_drop (p : PageCache) : M () := env (iset (pg_dealloc (addr p))).

(** The values a caller ignores are dropped. *)
Definition drop_opt (o : option PageCache) : M () :=
  match o with Some p => page_drop p | None => mret () end.
Definition drop_evicted (o : option (Z * PageCache)) : M () := drop_opt (snd <$> o).

(** [add_evict_listener], for a listener boxed at [handle], and [remove_evict_listener]. *)
Definition add_evict_listener (handle : Z) : M Z :=
  iset (fun s => mk_cached (page_cache s) (evict_listeners s ++ [handle]) (in_memory s) (ext s)) ≫=
    fun _ => mret handle.
Definition remove_evict_listener (handle : Z) : M () :=
  iset (fun s => mk_cached (page_cache s) (filter (.≠ handle) (evict_listeners s))
                           (in_memory s) (ext s)).

(** [evict_cache]: notify the listeners and write a dirty page back, up to the end of the file.
    The result is the page after the call. *)
Definition evict_cache (pn : Z) (page : PageCache) : M PageCache :=
  ls ← iget evict_listeners;
  _ ← iter_list (fun h => env (iset (call_listener h pn page))) ls;
  if dirty page then
    let page_start := pn * PAGE_SIZE in
    flen ← env fn_len;
    let len := Z.min (Z.max 0 (flen - page_start)) PAGE_SIZE in
    _ ← (if 0 <? len then
           env (fn_write_at (take (Z.to_nat len) (data page)) page_start) ≫= fun _ => mret ()
         else mret ());
    mret (set_dirty false page)
  else mret page.

(** The first part of [page_or_insert]: a full cache gives up its least recently used page. *)
Definition make_room : M (option (Z * PageCache)) :=
  c ← iget page_cache;
  if lru_len c =? lru_cap c then
    e ← lru lru_pop_lru;
    match e with
    | Some (pn, page) =>
        page' ← on_err (page_drop page) (evict_cache pn page);
        mret (Some (pn, page'))
    | None => mret None
    end
  else mret None.

(** The second part: a new page with the contents of page [pn] of the file. *)
Definition load_page (pn : Z) : M PageCache :=
  page ← page_new;
  on_err (page_drop page) (
    im ← iget in_memory;
    if (im : bool) then mret (set_data zero_page page)
    else
      bs ← env (fn_read_at PAGE_SIZE (pn * PAGE_SIZE));
      mret (set_data (splice 0 bs (data page)) page)).

(** [page_or_insert]: the page [pn], loaded if it is not cached, and the page evicted for it. *)
Definition page_or_insert (pn : Z) : M (PageCache * option (Z * PageCache)) :=
  c ← iget page_cache;
  if lru_contains pn c then
    p ← lru (lru_get_mut pn) ≫= iunwrap;
    mret (p, None)
  else
    evicted ← make_room;
    on_err (drop_evicted evicted) (
      page ← load_page pn;
      old ← lru (lru_put pn page);
      _ ← drop_opt old;
      p ← lru (lru_get_mut pn) ≫= iunwrap;
      mret (p, evicted)).

(** [with_page]: [f] sees the page, if it is cached, and may change it. *)
Definition with_page {R} (pn : Z) (f : option PageCache -> M (R * option PageCache)) : M R :=
  o ← lru (lru_get_mut pn);
  '(r, o') ← f o;
  match o, o' with
  | Some _, Some p' => lru (fun c => ((), lru_store pn p' c)) ≫= fun _ => mret r
  | _, _ => mret r
  end.

(** [with_page_or_insert]: [f] gets the page and owns the evicted one. *)
Definition with_page_or_insert {R} (pn : Z)
    (f : PageCache -> option (Z * PageCache) -> M (result VfsError R * PageCache)) : M R :=
  _ ← env fn_as_file;
  '(p, evicted) ← page_or_insert pn;
  '(r, p') ← f p evicted;
  _ ← lru (fun c => ((), lru_store pn p' c));
  iresult r.

(** One round of the loop of [with_pages]: [each] gets the page and the range inside it. *)
Definition page_step {T} (each : T -> PageCache -> Z -> Z -> M (result VfsError T * PageCache))
    (stop pn page_offset : Z) (acc : T) : M T :=
  let page_start := pn * PAGE_SIZE in
  '(page, evicted) ← page_or_insert pn;
  _ ← drop_evicted evicted;
  '(r, page') ← each acc page page_offset (Z.min (as_u64 (stop - page_start)) PAGE_SIZE);
  _ ← lru (fun c => ((), lru_store pn page' c));
  iresult r.

Fixpoint pages_loop {T} (each : T -> PageCache -> Z -> Z -> M (result VfsError T * PageCache))
    (stop : Z) (pns : list Z) (page_offset : Z) (acc : T) : M T :=
  match pns with
  | [] => mret acc
  | pn :: pns => acc' ← page_step each stop pn page_offset acc; pages_loop each stop pns 0 acc'
  end.

(** The page numbers [start_page..end_page] of a byte range; they are 32 bits wide. *)
Definition page_range (start stop : Z) : list Z :=
  let start_page := as_u32 (start / PAGE_SIZE) in
  let end_page := as_u32 ((stop + PAGE_SIZE - 1) / PAGE_SIZE) in
  seqZ start_page (end_page - start_page).

Definition with_pages {T} (start stop : Z) (page_initial : M T)
    (each : T -> PageCache -> Z -> Z -> M (result VfsError T * PageCache)) : M T :=
  _ ← env fn_as_file;
  initial ← page_initial;
  pages_loop each stop (page_range start stop) (start mod PAGE_SIZE) initial.

(** [&page.data()[a..b]]: out of range panics. *)
Definition page_slice (a b : Z) (page : PageCache) : M (list Z) :=
  if (a <=? b) && (b <=? PAGE_SIZE) then mret (slice (Z.to_nat a) (Z.to_nat (b - a)) (data page))
  else ipanic.

Definition read_each (read : Z) (page : PageCache) (a b : Z) : M (result VfsError Z * PageCache) :=
  bs ← page_slice a b page;
  r ← attempt (env (dst_write bs));
  match r with
  | Ok _ => mret (Ok (read + (b - a)), page)
  | Err e => mret (Err e, page)
  end.

(** [read_at], into the caller's buffer. *)
Definition read_at (offset : Z) : M Z :=
  len ← env fn_len;
  remaining ← iget (fun s => dst_remaining (ext s));
  sum ← add_u64 offset remaining;
  let stop := Z.min sum len in
  if stop <=? offset then mret 0
  else with_pages offset stop (mret 0) read_each.

Definition write_each (written : Z) (page : PageCache) (a b : Z) :
    M (result VfsError Z * PageCache) :=
  _ ← page_slice a b page;
  im ← iget in_memory;
  '(r, bs) ← env (istate (src_read (b - a)));
  let page := set_data (splice (Z.to_nat a) bs (data page)) page in
  match r with
  | Ok _ => mret (Ok (written + (b - a)), if (im : bool) then page else mark_dirty page)
  | Err e => mret (Err e, page)
  end.

(** [write_at_locked], from the caller's buffer. *)
Definition write_at_locked (offset : Z) : M Z :=
  remaining ← iget (fun s => src_remaining (ext s));
  stop ← add_u64 offset remaining;
  with_pages offset stop
    (flen ← env fn_len;
     _ ← (if flen <? stop then env (fn_set_len stop) else mret ());
     mret 0)
    write_each.

(** [write_at]: holds the append lock for reading. *)
Definition write_at (offset : Z) : M Z := write_at_locked offset.

(** [append]: holds the append lock for writing; returns the count and the new end. *)
Definition append : M (Z * Z) :=
  _ ← env fn_as_file;
  len ← env fn_len;
  written ← write_at_locked len;
  stop ← add_u64 len written;
  mret (written, stop).

(** [page.data()[a..b].fill(0)]. *)
Definition page_zero (a b : Z) (page : PageCache) : M PageCache :=
  _ ← page_slice a b page;
  mret (set_data (splice (Z.to_nat a) (replicate (Z.to_nat (b - a)) 0) (data page)) page).

(** A page beyond the new end is discarded. *)
Definition discard_page (pn : Z) : M () :=
  o ← lru (lru_pop pn);
  match o with
  | Some page =>
      im ← iget in_memory;
      if (im : bool) then page_drop page
      else
        let page := set_dirty false page in
        page' ← on_err (page_drop page) (evict_cache pn page);
        page_drop page'
  | None => mret ()
  end.

Definition set_len (len : Z) : M () :=
  _ ← env fn_as_file;
  old_len ← env fn_len;
  _ ← env (fn_set_len len);
  let old_last_page := as_u32 (old_len / PAGE_SIZE) in
  let new_last_page := as_u32 (len / PAGE_SIZE) in
  if old_len <? len then
    o ← lru (lru_get_mut old_last_page);
    match o with
    | Some page =>
        let page_start := old_last_page * PAGE_SIZE in
        page' ← page_zero (old_len - page_start) (Z.min (len - page_start) PAGE_SIZE) page;
        lru (fun c => ((), lru_store old_last_page page' c))
    | None => mret ()
    end
  else if new_last_page <? old_last_page then
    c ← iget page_cache;
    iter_list discard_page (filter (fun pn => new_last_page < pn) (lru_iter c).*1)
  else mret ().

(** The write-back loop of [sync]; every round removes a page. *)
Fixpoint sync_loop (fuel : nat) : M () :=
  match fuel with
  | O => idiverge
  | S fuel =>
      e ← lru lru_pop_lru;
      match e with
      | Some (pn, page) =>
          page' ← on_err (page_drop page) (evict_cache pn page);
          _ ← page_drop page';
          sync_loop fuel
      | None => mret ()
      end
  end.

Definition sync (data_only : bool) : M () :=
  im ← iget in_memory;
  if (im : bool) then mret ()
  else
    _ ← env fn_as_file;
    n ← iget (fun s => lru_len (page_cache s));
    _ ← sync_loop (S (Z.to_nat n));
    env (fn_sync data_only).

End cached_file.

Arguments CachedFile : clear implicits.
Arguments mk_cached {C W} _ _ _ _.

(** * What the page cache relies on

    The documented behaviour of the parameters of [PageCache]: [LruLaws] for the [lru] crate, in
    terms of the finite map a cache holds (which entry is evicted is left open), and
    [CacheEnvLaws] for the surroundings of a cached file, in terms of views of their state: the
    length and bytes of the file node, the pages held from the allocator, the caller's buffers.
    An operation may fail at any time; [failed] then holds of the state it leaves.

    [sim_lru] and [sim_env] are concrete instances, with an allocator that hands out pages filled
    with a fixed byte and a node whose writes can be made to fail. *)

Class LruLaws (C V : Type) {Lru : LruCache C V} : Type := {
  lru_map : C -> gmap Z V;
  lru_new_law n : lru_map (lru_new n) = ∅ /\ lru_cap (lru_new n) = n;
  lru_contains_law k c : lru_contains k c = bool_decide (is_Some (lru_map c !! k));
  lru_get_mut_law k c :
    (lru_get_mut k c).1 = lru_map c !! k /\ lru_map (lru_get_mut k c).2 = lru_map c /\
    lru_cap (lru_get_mut k c).2 = lru_cap c;
  lru_store_law k v c :
    is_Some (lru_map c !! k) ->
    lru_map (lru_store k v c) = <[k := v]> (lru_map c) /\ lru_cap (lru_store k v c) = lru_cap c;
  lru_put_law k v c :
    lru_len c < lru_cap c ->
    (lru_put k v c).1 = lru_map c !! k /\ lru_map (lru_put k v c).2 = <[k := v]> (lru_map c) /\
    lru_cap (lru_put k v c).2 = lru_cap c;
  lru_pop_law k c :
    (lru_pop k c).1 = lru_map c !! k /\ lru_map (lru_pop k c).2 = delete k (lru_map c) /\
    lru_cap (lru_pop k c).2 = lru_cap c;
  lru_pop_lru_law c :
    match (lru_pop_lru c).1 with
    | Some (k, v) => lru_map c !! k = Some v /\ lru_map (lru_pop_lru c).2 = delete k (lru_map c)
    | None => lru_map c = ∅ /\ lru_map (lru_pop_lru c).2 = ∅
    end /\ lru_cap (lru_pop_lru c).2 = lru_cap c;
  lru_iter_law c : lru_iter c ≡ₚ map_to_list (lru_map c);
  lru_len_law c : lru_len c = Z.of_nat (size (lru_map c));
}.

Section env_laws.
Context {W : Type} {Env : CacheEnv W}.

(** The parts of the surroundings that matter to a cached file. *)
Record views : Type := {
  flen : W -> Z;
  fbyte : W -> Z -> Z;
  held : W -> list Z;
  source : W -> list Z;
  sunk : W -> list Z;
  failed : W -> Prop;
}.

Definition same_file (v : views) (w w' : W) : Prop :=
  flen v w' = flen v w /\ forall i, 0 <= i < flen v w -> fbyte v w' i = fbyte v w i.
Definition same_buffers (v : views) (w w' : W) : Prop :=
  source v w' = source v w /\ sunk v w' = sunk v w /\ dst_remaining w' = dst_remaining w.
Definition same_pages (v : views) (w w' : W) : Prop := held v w' = held v w.

(** What a failing operation leaves. *)
Definition fails (v : views) (w : W) (e : VfsError) (w' : W) : Prop :=
  failed v w' /\ same_pages v w w'.

(** [im]: the node is on a file system that keeps no data of its own, only lengths. *)
Class CacheEnvLaws (im : bool) : Type := {
  view : views;
  flen_range w : 0 <= flen view w;
  dst_remaining_range w : 0 <= dst_remaining w;
  fn_as_file_law w :
    iwp fn_as_file (fun _ w' => same_file view w w' /\ same_buffers view w w' /\ same_pages view w w')
      (fails view w) w;
  fn_len_law w :
    iwp fn_len (fun n w' => n = flen view w /\ same_file view w w' /\ same_buffers view w w' /\
                            same_pages view w w') (fails view w) w;
  fn_set_len_law n w :
    0 <= n ->
    iwp (fn_set_len n) (fun _ w' => flen view w' = n /\
      (forall i, 0 <= i < n -> fbyte view w' i = if i <? flen view w then fbyte view w i else 0) /\
      same_buffers view w w' /\ same_pages view w w') (fails view w) w;
  fn_read_at_law n off w :
    im = false -> 0 <= n -> 0 <= off ->
    iwp (fn_read_at n off) (fun bs w' =>
      Z.of_nat (length bs) = Z.min n (Z.max 0 (flen view w - off)) /\
      (forall j, (j < length bs)%nat -> bs !! j = Some (fbyte view w (off + Z.of_nat j))) /\
      same_file view w w' /\ same_buffers view w w' /\ same_pages view w w') (fails view w) w;
  fn_write_at_law bs off w :
    im = false -> 0 <= off -> off + Z.of_nat (length bs) <= flen view w ->
    iwp (fn_write_at bs off) (fun _ w' =>
      flen view w' = flen view w /\
      (forall i, 0 <= i < flen view w ->
         fbyte view w' i = if (off <=? i) && (i <? off + Z.of_nat (length bs))
                           then default 0 (bs !! Z.to_nat (i - off)) else fbyte view w i) /\
      same_buffers view w w' /\ same_pages view w w') (fails view w) w;
  fn_sync_law b w :
    iwp (fn_sync b) (fun _ w' => same_file view w w' /\ same_buffers view w w' /\ same_pages view w w')
      (fails view w) w;
  pg_alloc_law w :
    iwp pg_alloc (fun ad w' => Z.of_nat (length ad.2) = PAGE_SIZE /\ held view w' = ad.1 :: held view w /\
      same_file view w w' /\ same_buffers view w w') (fails view w) w;
  pg_dealloc_law a w :
    a ∈ held view w ->
    held view w ≡ₚ a :: held view (pg_dealloc a w) /\
    same_file view w (pg_dealloc a w) /\ same_buffers view w (pg_dealloc a w) /\
    (failed view w -> failed view (pg_dealloc a w));
  dst_write_law bs w :
    Z.of_nat (length bs) <= dst_remaining w ->
    iwp (dst_write bs) (fun n w' => n = Z.of_nat (length bs) /\ sunk view w' = sunk view w ++ bs /\
      dst_remaining w' = dst_remaining w - n /\ source view w' = source view w /\
      same_file view w w' /\ same_pages view w w') (fails view w) w;
  src_remaining_law w : src_remaining w = Z.of_nat (length (source view w));
  src_read_law n w :
    0 <= n <= src_remaining w ->
    let '((r, bs), w') := src_read n w in
    match r with
    | Ok k => k = n /\ bs = take (Z.to_nat n) (source view w) /\
        source view w' = drop (Z.to_nat n) (source view w) /\ sunk view w' = sunk view w /\
        dst_remaining w' = dst_remaining w /\ same_file view w w' /\ same_pages view w w'
    | Err e => Z.of_nat (length bs) <= n /\ fails view w e w'
    end;
  call_listener_law h pn p w :
    same_file view w (call_listener h pn p w) /\ same_buffers view w (call_listener h pn p w) /\
    same_pages view w (call_listener h pn p w);
  memory_bytes w i : im = true -> fbyte view w i = 0;
}.

End env_laws.
Arguments views : clear implicits.
Arguments CacheEnvLaws W {Env} im.

(** ** A concrete cache *)

(** Entries by key, with the keys in order of use, the most recent first. *)
Record sim_cache (V : Type) : Type := mk_sim_cache {
  sc_map : gmap Z V;
  sc_order : list Z;
  sc_cap : Z;
}.
Arguments mk_sim_cache {V} _ _ _.
Arguments sc_map {V} _.
Arguments sc_order {V} _.
Arguments sc_cap {V} _.

Definition sc_touch {V} (k : Z) (c : sim_cache V) : sim_cache V :=
  mk_sim_cache (sc_map c) (k :: filter (.≠ k) (sc_order c)) (sc_cap c).

(** The least recently used entry; entries that were never used come last. *)
Definition sc_lru {V} (c : sim_cache V) : option (Z * V) :=
  match omap (fun k => pair k <$> sc_map c !! k) (reverse (sc_order c)) with
  | e :: _ => Some e
  | [] => head (map_to_list (sc_map c))
  end.

#[export] Instance sim_lru V : LruCache (sim_cache V) V := {
  lru_new n := mk_sim_cache ∅ [] n;
  lru_contains k c := bool_decide (is_Some (sc_map c !! k));
  lru_get_mut k c := (sc_map c !! k, sc_touch k c);
  lru_store k v c := mk_sim_cache (<[k := v]> (sc_map c)) (sc_order c) (sc_cap c);
  lru_put k v c := (sc_map c !! k, sc_touch k (mk_sim_cache (<[k := v]> (sc_map c)) (sc_order c) (sc_cap c)));
  lru_pop k c := (sc_map c !! k, mk_sim_cache (delete k (sc_map c)) (filter (.≠ k) (sc_order c)) (sc_cap c));
  lru_pop_lru c :=
    match sc_lru c with
    | Some (k, v) => (Some (k, v), mk_sim_cache (delete k (sc_map c)) (filter (.≠ k) (sc_order c)) (sc_cap c))
    | None => (None, c)
    end;
  lru_iter c := map_to_list (sc_map c);
  lru_len c := Z.of_nat (size (sc_map c));
  lru_cap c := sc_cap c;
}.

Lemma sc_lru_spec {V} (c : sim_cache V) :
  match sc_lru c with Some (k, v) => sc_map c !! k = Some v | None => sc_map c = ∅ end.
Proof.
  unfold sc_lru. destruct (omap _ _) as [|[k v] l] eqn:Ho.
  - destruct (map_to_list (sc_map c)) as [|[k v] l] eqn:Hm; simpl.
    + by apply map_to_list_empty_iff.
    + apply elem_of_map_to_list. rewrite Hm. by left.
  - assert (He : (k, v) ∈ omap (fun k => pair k <$> sc_map c !! k) (reverse (sc_order c)))
      by (rewrite Ho; by left).
    apply list_elem_of_omap in He as (k' & _ & He). by apply fmap_Some in He as (? & ? & [= -> ->]).
Qed.

#[export] Instance sim_lru_laws V : LruLaws (sim_cache V) V.
Proof.
  refine {| lru_map := sc_map |}; intros; simpl; try done.
  pose proof (sc_lru_spec c) as H. destruct (sc_lru c) as [[k v]|]; done.
Defined.

(** ** Concrete surroundings *)

Record sim_world : Type := mk_sim {
  sim_file : list Z;
  sim_next : Z;
  sim_held : list Z;
  sim_src : list Z;
  sim_dst : list Z;
  sim_room : Z;
  sim_broken : bool;
}.

Definition sim_file_upd (f : list Z -> list Z) (w : sim_world) : sim_world :=
  mk_sim (f (sim_file w)) (sim_next w) (sim_held w) (sim_src w) (sim_dst w) (sim_room w) (sim_broken w).

(** The list without the first occurrence of [a]. *)
Fixpoint remove_first (a : Z) (l : list Z) : list Z :=
  match l with
  | [] => []
  | b :: l => if a =? b then l else b :: remove_first a l
  end.

Lemma remove_first_perm a l : a ∈ l -> l ≡ₚ a :: remove_first a l.
Proof.
  induction l as [|b l IH]; simpl; [by intros ?%not_elem_of_nil|].
  destruct (Z.eqb_spec a b) as [->|Hne]; [done|].
  intros [->|Hl]%elem_of_cons; [done|]. rewrite (IH Hl) at 1. constructor.
Qed.

(** What a fresh page holds. *)
Definition stale_byte : Z := 170.

#[export] Instance sim_env : CacheEnv sim_world := {
  fn_as_file := mret ();
  fn_len := iget (fun w => Z.of_nat (length (sim_file w)));
  fn_set_len n := iset (sim_file_upd (fun l => take (Z.to_nat n) l ++ replicate (Z.to_nat n - length l) 0));
  fn_read_at n off := iget (fun w => slice (Z.to_nat off) (Z.to_nat n) (sim_file w));
  fn_write_at bs off :=
    broken ← iget sim_broken;
    if (broken : bool) then throw IoError
    else iset (sim_file_upd (splice (Z.to_nat off) bs)) ≫= fun _ => mret (Z.of_nat (length bs));
  fn_sync _ := mret ();
  pg_alloc := istate (fun w =>
    ((sim_next w, replicate (Z.to_nat PAGE_SIZE) stale_byte),
     mk_sim (sim_file w) (sim_next w + 1) (sim_next w :: sim_held w) (sim_src w) (sim_dst w)
            (sim_room w) (sim_broken w)));
  pg_dealloc a w :=
    mk_sim (sim_file w) (sim_next w) (remove_first a (sim_held w)) (sim_src w) (sim_dst w)
           (sim_room w) (sim_broken w);
  dst_remaining w := Z.max 0 (sim_room w);
  dst_write bs := istate (fun w =>
    let n := Nat.min (length bs) (Z.to_nat (sim_room w)) in
    (Z.of_nat n,
     mk_sim (sim_file w) (sim_next w) (sim_held w) (sim_src w) (sim_dst w ++ take n bs)
            (sim_room w - Z.of_nat n) (sim_broken w)));
  src_remaining w := Z.of_nat (length (sim_src w));
  src_read n w :=
    let bs := take (Z.to_nat n) (sim_src w) in
    ((Ok (Z.of_nat (length bs)), bs),
     mk_sim (sim_file w) (sim_next w) (sim_held w) (drop (Z.to_nat n) (sim_src w)) (sim_dst w)
            (sim_room w) (sim_broken w));
  call_listener _ _ _ w := w;
  overflow_checks := false;
}.

Definition sim_views (im : bool) : views sim_world := {|
  flen w := Z.of_nat (length (sim_file w));
  fbyte w i := if im then 0 else default 0 (sim_file w !! Z.to_nat i);
  held := sim_held;
  source := sim_src;
  sunk := sim_dst;
  failed w := sim_broken w = true;
|}.

Lemma lookup_resize_zero (l : list Z) (n i : Z) :
  0 <= i < n ->
  default 0 ((take (Z.to_nat n) l ++ replicate (Z.to_nat n - length l) 0) !! Z.to_nat i) =
    if i <? Z.of_nat (length l) then default 0 (l !! Z.to_nat i) else 0.
Proof.
  intros Hi. destruct (Z.ltb_spec i (Z.of_nat (length l))).
  - rewrite lookup_app_l by (rewrite length_take; lia). by rewrite lookup_take_lt by lia.
  - rewrite lookup_app_r by (rewrite length_take; lia).
    rewrite lookup_replicate_2; [done|]. rewrite length_take. lia.
Qed.

#[export] Instance sim_laws im : CacheEnvLaws sim_world im.
Proof.
  refine {| view := sim_views im |}; intros; unfold fails, same_file, same_buffers, same_pages; simpl in *;
    try done; try lia; unfold iwp; simpl; try done.
  - rewrite length_app, length_take, length_replicate. split_and!; try done; [lia|].
    intros i Hi. destruct im; [by case_match|]. by apply lookup_resize_zero.
  - subst im. unfold slice. rewrite length_take, length_drop. split_and!; try done; [lia|].
    intros j Hj. rewrite lookup_take_lt by lia. rewrite lookup_drop.
    destruct (lookup_lt_is_Some_2 (sim_file w) (Z.to_nat off + j)) as [x Hx]; [lia|].
    rewrite Hx. by replace (Z.to_nat (off + Z.of_nat j)) with (Z.to_nat off + j)%nat by lia; rewrite Hx.
  - subst im. unfold mbind, io_bind, iget, iset, throw; simpl. destruct (sim_broken w) eqn:Hb; simpl; [done|].
    rewrite length_splice by lia. split_and!; try done.
    intros i Hi. rewrite lookup_splice by lia.
    destruct (Z.leb_spec off i), (Z.ltb_spec i (off + Z.of_nat (length bs))); simpl;
      case_decide; try lia; try done. by replace (Z.to_nat (i - off)) with (Z.to_nat i - Z.to_nat off)%nat by lia.
  - split_and!; try done. by apply remove_first_perm.
  - rewrite Nat.min_l by lia. rewrite firstn_all. split_and!; try done. lia.
  - rewrite length_take, Nat.min_l by lia. split_and!; try done. lia.
  - by subst im.
Defined.
