(* ===== verification/CacheSpec.v ===== *)
(** * What a cached file promises

    The specification of a file is [afile]: a length and, for every offset, the byte there, or
    [None] where nothing is promised.  [repr] relates it to a cached file: a byte that is promised
    is in the cached page if there is one, and otherwise in the file node; the bytes of a clean
    page are also in the node, so that it can be dropped.  [wf] is the well-formedness of the cache
    with the ownership of pages: those held from the allocator are the cached ones and those in
    flight.

    The lemmas of this file give every operation of [PageCache] a specification with two
    postconditions, for success and for errors. *)

From S2P Require Import Prelude Io PageCache.

(** ** Abstract files *)

(** [tidy]: no page is cached beyond the page of the end of the file. *)
Record afile : Type := mk_afile { alen : Z; abyte : Z -> option Z; tidy : bool }.

(** The file after the node was extended to [n] behind the cache's back: bytes of the page of the
    old end are not promised. *)
Definition a_grow (n : Z) (a : afile) : afile :=
  mk_afile (Z.max n (alen a))
    (fun i => if i <? alen a then abyte a i
              else if tidy a && negb (i / PAGE_SIZE =? alen a / PAGE_SIZE) then Some 0 else None)
    (tidy a).

Definition a_patch (off : Z) (bs : list Z) (a : afile) : afile :=
  mk_afile (alen a)
    (fun i => if (off <=? i) && (i <? off + Z.of_nat (length bs)) then bs !! Z.to_nat (i - off)
              else abyte a i)
    (tidy a).

(** The specification of the operations. *)
Definition a_write (off : Z) (bs : list Z) (a : afile) : afile :=
  a_patch off bs (a_grow (off + Z.of_nat (length bs)) a).

Definition a_set_len (n : Z) (a : afile) : afile :=
  mk_afile n
    (fun i => if i <? alen a then abyte a i
              else if tidy a || (i / PAGE_SIZE =? alen a / PAGE_SIZE) then Some 0 else None)
    (tidy a).

Definition a_sync (a : afile) : afile := mk_afile (alen a) (abyte a) true.

(** Nothing is known but the length. *)
Definition a_forget (n : Z) : afile := mk_afile n (fun _ => None) false.

(** [bs] is what a read of [n] bytes at [off] delivers. *)
Definition a_reads (a : afile) (off n : Z) (bs : list Z) : Prop :=
  Z.of_nat (length bs) = Z.max 0 (Z.min n (alen a - off)) /\
  forall j x, (j < length bs)%nat -> abyte a (off + Z.of_nat j) = Some x -> bs !! j = Some x.

(** The largest end of a range whose page numbers fit in 32 bits. *)
Definition max_end : Z := (2 ^ 32 - 1) * PAGE_SIZE.

(** ** Representation *)

#[local] Opaque iwp.

Section spec.
Context {C W : Type} {Lru : LruCache C PageCache} {LL : LruLaws C PageCache}.
Context {Env : CacheEnv W} {im : bool} {EL : CacheEnvLaws W im}.
Local Notation state := (CachedFile C W).
Local Notation cmap s := (lru_map (page_cache s)).

Definition page_ok (pn : Z) (p : PageCache) : Prop :=
  0 <= pn < 2 ^ 32 /\ length (data p) = Z.to_nat PAGE_SIZE /\ (im = true -> dirty p = false).

Definition cached_addrs (m : gmap Z PageCache) : list Z := (fun kp => addr kp.2) <$> map_to_list m.

(** [ps]: the pages in flight. *)
Record wf (ps : list Z) (s : state) : Prop := {
  wf_im : in_memory s = im;
  wf_pages : map_Forall page_ok (cmap s);
  wf_size : Z.of_nat (size (cmap s)) <= lru_cap (page_cache s);
  wf_cap : lru_cap (page_cache s) = if im then usize_max else 64;
  wf_held : held view (ext s) ≡ₚ ps ++ cached_addrs (cmap s);
}.

Definition byte_ok (m : gmap Z PageCache) (w : W) (i x : Z) : Prop :=
  match m !! (i / PAGE_SIZE) with
  | Some p => data p !! Z.to_nat (i mod PAGE_SIZE) = Some x /\
              (im = false -> dirty p = false -> fbyte view w i = x)
  | None => fbyte view w i = x
  end.

Record repr (m : gmap Z PageCache) (a : afile) (w : W) : Prop := {
  r_len : alen a = flen view w;
  r_bytes : forall i x, 0 <= i < alen a -> abyte a i = Some x -> byte_ok m w i x;
  r_tidy : tidy a = true -> forall pn, is_Some (m !! pn) -> pn * PAGE_SIZE <= alen a;
}.

(** The invariant of a cached file with contents [a]. *)
Definition inv (ps : list Z) (a : afile) (s : state) : Prop := wf ps s /\ repr (cmap s) a (ext s).

(** The state an operation leaves when something failed. *)
Definition broken (ps : list Z) (s : state) : Prop := wf ps s /\ failed view (ext s).

(** ** Preservation *)

Lemma repr_weaken m a a' w :
  repr m a w -> alen a' = alen a -> (tidy a' = true -> tidy a = true) ->
  (forall i x, 0 <= i < alen a -> abyte a' i = Some x -> abyte a i = Some x) -> repr m a' w.
Proof.
  intros [Hl Hb Ht] Hl' Ht' Hb'. split; rewrite Hl' in *; [done| |].
  - intros i x Hi Hx. by apply Hb, Hb'.
  - auto.
Qed.

Lemma repr_same_file m a w w' : repr m a w -> same_file view w w' -> repr m a w'.
Proof.
  intros [Hl Hb Ht] [Hlen Hbyte]. split; [congruence| |done].
  intros i x Hi Hx. specialize (Hb i x Hi Hx). unfold byte_ok in *.
  rewrite Hbyte by lia. done.
Qed.

Lemma wf_same_pages ps s w' : wf ps s -> same_pages view (ext s) w' -> wf ps (set_ext w' s).
Proof. intros [] Hp. split; simpl; try done. by rewrite Hp. Qed.

Lemma inv_same ps a s w' :
  inv ps a s -> same_file view (ext s) w' -> same_pages view (ext s) w' -> inv ps a (set_ext w' s).
Proof. intros [Hw Hr] ??. split; [by apply wf_same_pages|]. simpl. by eapply repr_same_file. Qed.

Lemma wf_fails ps s e w' : wf ps s -> fails view (ext s) e w' -> broken ps (set_ext w' s).
Proof. intros Hw [Hf Hp]. split; [by apply wf_same_pages|done]. Qed.

Lemma same_file_refl w : same_file view w w.
Proof. done. Qed.
Lemma same_file_trans w1 w2 w3 :
  same_file view w1 w2 -> same_file view w2 w3 -> same_file view w1 w3.
Proof. intros [H1 H1'] [H2 H2']. split; [congruence|]. intros i Hi. rewrite H2', H1'; auto; lia. Qed.
Lemma same_buffers_trans w1 w2 w3 :
  same_buffers view w1 w2 -> same_buffers view w2 w3 -> same_buffers view w1 w3.
Proof. intros (?&?&?) (?&?&?). split_and!; congruence. Qed.

Lemma cached_addrs_insert m k p :
  m !! k = None -> cached_addrs (<[k := p]> m) ≡ₚ addr p :: cached_addrs m.
Proof. intros. unfold cached_addrs. by rewrite map_to_list_insert. Qed.

Lemma cached_addrs_delete m k p :
  m !! k = Some p -> cached_addrs m ≡ₚ addr p :: cached_addrs (delete k m).
Proof. intros H. unfold cached_addrs. by rewrite <-(map_to_list_delete m k p H). Qed.

Lemma cached_addrs_update m k p p' :
  m !! k = Some p -> addr p' = addr p -> cached_addrs (<[k := p']> m) ≡ₚ cached_addrs m.
Proof.
  intros H Ha. rewrite (cached_addrs_delete m k p), <-insert_delete_eq, cached_addrs_insert by
    (done || apply lookup_delete_eq). by rewrite Ha.
Qed.

(** A 32-bit key space never fills an unbounded cache. *)
Lemma size_u32 (m : gmap Z PageCache) : map_Forall page_ok m -> Z.of_nat (size m) <= 2 ^ 32.
Proof.
  intros Hm. rewrite <-size_dom.
  assert (Hsub : dom m ⊆ (list_to_set (seqZ 0 (2 ^ 32)) : gset Z)).
  { intros k [p Hp]%elem_of_dom. apply elem_of_list_to_set, elem_of_seqZ.
    destruct (Hm k p Hp) as [? _]. lia. }
  apply subseteq_size in Hsub. rewrite size_list_to_set in Hsub by apply NoDup_seqZ.
  rewrite length_seqZ in Hsub. lia.
Qed.

(** ** Rules *)

Lemma iwp_env {A} (m : io VfsError W A) (Q : A -> state -> Prop) R s :
  iwp m (fun x w => Q x (set_ext w s)) (fun e w => R e (set_ext w s)) (ext s) -> iwp (env m) Q R s.
Proof. apply iwp_zoom. Qed.

Lemma iwp_lru {A} (f : C -> A * C) (Q : A -> state -> Prop) R s :
  Q (f (page_cache s)).1 (set_cache (f (page_cache s)).2 s) -> iwp (lru f) Q R s.
Proof. intros HQ. apply iwp_zoom, iwp_state, HQ. Qed.

(** Only the surroundings have changed, and nothing in them that matters. *)
Definition still (s s' : state) : Prop :=
  exists w', s' = set_ext w' s /\ same_file view (ext s) w' /\ same_buffers view (ext s) w' /\
             same_pages view (ext s) w'.

Lemma still_refl s : still s s.
Proof. exists (ext s). split_and!; try done. by destruct s. Qed.

Lemma still_trans s1 s2 s3 : still s1 s2 -> still s2 s3 -> still s1 s3.
Proof.
  intros (w2 & -> & ? & ? & Hp) (w3 & -> & ? & ? & Hp'). exists w3. simpl in *. split_and!.
  - by destruct s1.
  - by eapply same_file_trans.
  - by eapply same_buffers_trans.
  - unfold same_pages in *. congruence.
Qed.

Lemma still_inv ps a s s' : inv ps a s -> still s s' -> inv ps a s'.
Proof. intros ? (w' & -> & ? & ? & ?). by apply inv_same. Qed.
Lemma still_wf ps s s' : wf ps s -> still s s' -> wf ps s'.
Proof. intros ? (w' & -> & ? & ? & ?). by apply wf_same_pages. Qed.

(** An operation of the node that reads. *)
Lemma env_still {A} (m : io VfsError W A) (P : A -> W -> Prop) ps s :
  iwp m (fun x w' => P x w' /\ same_file view (ext s) w' /\ same_buffers view (ext s) w' /\
             same_pages view (ext s) w') (fails view (ext s)) (ext s) ->
  wf ps s ->
  iwp (env m) (fun x s' => P x (ext s') /\ still s s') (fun _ s' => broken ps s') s.
Proof.
  intros Hm Hw. apply iwp_env. eapply iwp_mono; [done| |].
  - intros x w' (HP & ? & ? & ?). split; [done|]. exists w'. by split_and!.
  - intros e w' He. by eapply wf_fails.
Qed.

Lemma as_file_spec ps s :
  wf ps s -> iwp (env fn_as_file) (fun _ s' => still s s') (fun _ s' => broken ps s') s.
Proof.
  intros Hw. eapply iwp_mono; [apply (env_still _ (fun _ _ => True)); [|done]|by intros ?? [_ ?]|done].
  eapply iwp_mono; [apply fn_as_file_law|by intros ?? (?&?&?)|done].
Qed.

Lemma len_spec ps s :
  wf ps s ->
  iwp (env fn_len) (fun n s' => n = flen view (ext s) /\ still s s') (fun _ s' => broken ps s') s.
Proof. intros Hw. apply (env_still _ (fun n _ => n = _)); [|done]. apply fn_len_law. Qed.

Lemma page_drop_spec ps p s (Q : () -> state -> Prop) R :
  wf (addr p :: ps) s ->
  (forall w', wf ps (set_ext w' s) -> same_file view (ext s) w' -> same_buffers view (ext s) w' ->
     (failed view (ext s) -> failed view w') -> Q () (set_ext w' s)) ->
  iwp (page_drop p) Q R s.
Proof.
  intros [? ? ? ? Hh] HQ. apply iwp_env, iwp_set.
  destruct (pg_dealloc_law (addr p) (ext s)) as (Hp & ? & ? & ?).
  { rewrite Hh. by left. }
  apply HQ; try done. split; simpl; try done.
  eapply (inj (addr p ::.)). by rewrite <-Hp, Hh.
Qed.

(** Dropping what was in flight when an operation failed. *)
Lemma page_drop_broken ps p s :
  broken (addr p :: ps) s -> iwp (page_drop p) (fun _ => broken ps) (fun _ => broken ps) s.
Proof. intros [Hw Hf]. eapply page_drop_spec; [done|]. intros. split; [done|auto]. Qed.

Definition evicted_addrs (o : option (Z * PageCache)) : list Z :=
  match o with Some (_, p) => [addr p] | None => [] end.

Lemma drop_evicted_spec ps o a s (Q : () -> state -> Prop) R :
  inv (evicted_addrs o ++ ps) a s ->
  (forall w', inv ps a (set_ext w' s) -> same_buffers view (ext s) w' -> Q () (set_ext w' s)) ->
  iwp (drop_evicted o) Q R s.
Proof.
  intros [Hw Hr] HQ. destruct o as [[pn p]|]; simpl in *.
  - eapply page_drop_spec; [done|]. intros w' ????. apply HQ; [|done]. split; [done|].
    by eapply repr_same_file.
  - apply iwp_ret. specialize (HQ (ext s)). destruct s. by apply HQ.
Qed.

Lemma notify_spec pn page ls s (R : VfsError -> state -> Prop) :
  iwp (iter_list (fun h => env (iset (call_listener h pn page))) ls) (fun _ s' => still s s') R s.
Proof.
  apply (iwp_iter_list _ (fun _ s' => still s s')); [|done|apply still_refl].
  intros h _ s' Hs. apply iwp_env, iwp_set. eapply still_trans; [done|].
  destruct (call_listener_law h pn page (ext s')) as (?&?&?). eexists. by split_and!.
Qed.

(** Evicting a page that need not be written back. *)
Lemma evict_clean_spec pn p s (R : VfsError -> state -> Prop) :
  dirty p = false -> iwp (evict_cache pn p) (fun p' s' => p' = p /\ still s s') R s.
Proof.
  intros Hd. unfold evict_cache. apply iwp_bind, iwp_get, iwp_bind.
  eapply iwp_mono; [apply notify_spec| |done]. intros [] s' Hs. rewrite Hd. by apply iwp_ret.
Qed.

(** ** Eviction and loading *)

Lemma page_index i k : i / PAGE_SIZE = k <-> k * PAGE_SIZE <= i < (k + 1) * PAGE_SIZE.
Proof. unfold PAGE_SIZE. split; intros; [subst; pose proof (Z.mul_div_le i 4096); pose proof (Z.mul_succ_div_gt i 4096); lia|]. symmetry. apply Z.div_unique with (i - k * 4096); lia. Qed.

Lemma page_offset_eq i k : i / PAGE_SIZE = k -> i mod PAGE_SIZE = i - k * PAGE_SIZE.
Proof. intros <-. rewrite Z.mod_eq by done. lia. Qed.

(** A page whose bytes are in the node can be removed. *)
Lemma repr_delete m k p a w w' :
  repr m a w -> m !! k = Some p -> flen view w' = flen view w ->
  (forall i, 0 <= i < flen view w -> i / PAGE_SIZE <> k -> fbyte view w' i = fbyte view w i) ->
  (forall i x, 0 <= i < flen view w -> i / PAGE_SIZE = k -> byte_ok m w i x ->
     data p !! Z.to_nat (i mod PAGE_SIZE) = Some x -> fbyte view w' i = x) ->
  repr (delete k m) a w'.
Proof.
  intros [Hl Hb Ht] Hk Hlen Hother Hpage. split; [congruence| |].
  - intros i x Hi Hx. specialize (Hb i x Hi Hx) as Hok. unfold byte_ok.
    destruct (decide (i / PAGE_SIZE = k)) as [Hik|Hik].
    + rewrite Hik, lookup_delete_eq. apply Hpage; [lia|done|done|].
      unfold byte_ok in Hok. rewrite Hik, Hk in Hok. apply Hok.
    + rewrite lookup_delete_ne by done. unfold byte_ok in Hok. rewrite Hother by (done || lia). done.
  - intros Htidy pn [p' Hp']. apply lookup_delete_Some in Hp' as [_ Hp']. eauto.
Qed.

Lemma evict_spec ps k p m a s :
  im = false -> wf (addr p :: ps) s -> cmap s = delete k m -> m !! k = Some p -> page_ok k p ->
  repr m a (ext s) ->
  iwp (evict_cache k p)
    (fun p' s' => addr p' = addr p /\ inv (addr p :: ps) a s' /\ page_cache s' = page_cache s /\
                  same_buffers view (ext s) (ext s'))
    (fun _ s' => broken (addr p :: ps) s') s.
Proof.
  intros Him Hw Hm Hk (Hkr & Hlen & _) Hr. destruct (dirty p) eqn:Hd.
  - unfold evict_cache. rewrite Hd. apply iwp_bind, iwp_get, iwp_bind.
    eapply iwp_mono; [apply (notify_spec _ _ _ _ (fun _ _ => False))| |done]. intros [] s1 Hs1.
    apply iwp_bind. eapply iwp_mono; [apply (len_spec (addr p :: ps)); by eapply still_wf| |done].
    intros n s2 [-> Hs2]. assert (Hs : still s s2) by (by eapply still_trans).
    destruct Hs1 as (w1 & -> & (Hfl & _) & _). simpl in Hfl. simpl. rewrite Hfl. clear Hs2.
    pose proof (still_wf _ _ _ Hw Hs) as Hw2. destruct Hs as (w & -> & Hf & Hbuf & Hp).
    set (len := Z.min (Z.max 0 (flen view (ext s) - k * PAGE_SIZE)) PAGE_SIZE).
    assert (Hr2 : repr m a w) by (by eapply repr_same_file).
    pose proof Hf as [Hfl2 _]. apply iwp_bind. destruct (Z.ltb_spec 0 len).
    + apply iwp_bind, iwp_env. simpl.
      assert (Hbs : Z.of_nat (length (take (Z.to_nat len) (data p))) = len).
      { rewrite length_take. unfold PAGE_SIZE in *. lia. }
      eapply iwp_mono; [apply fn_write_at_law; [done| |rewrite Hbs, Hfl2; unfold PAGE_SIZE in *; lia]| |].
      { unfold PAGE_SIZE. lia. }
      2:{ intros e w' He. by eapply (wf_fails _ (set_ext w s)). }
      intros _ w' (Hfl' & Hbyte & Hbuf' & Hp'). apply iwp_ret, iwp_ret.
      assert (same_buffers view (ext s) w') by (by eapply same_buffers_trans).
      split_and!; try done. split; [by eapply (wf_same_pages _ (set_ext w s))|]. simpl. rewrite Hm.
      eapply (repr_delete _ _ _ _ w); [done..| |].
      * intros i Hi Hik. rewrite Hbyte, Hbs by done. rewrite page_index in Hik.
        unfold PAGE_SIZE in *. destruct (Z.leb_spec (k * 4096) i), (Z.ltb_spec i (k * 4096 + len)); simpl; lia || done.
      * intros i x Hi Hik _ Hx. rewrite Hbyte, Hbs by done.
        rewrite (page_offset_eq _ _ Hik) in Hx. rewrite page_index in Hik.
        rewrite lookup_take_lt by (unfold PAGE_SIZE in *; lia).
        unfold PAGE_SIZE in *.
        destruct (Z.leb_spec (k * 4096) i), (Z.ltb_spec i (k * 4096 + len)); simpl; try lia. by rewrite Hx.
    + apply iwp_ret, iwp_ret. split_and!; try done. split; [done|]. simpl. rewrite Hm.
      eapply (repr_delete _ _ _ _ w); [done..|]. intros i x Hi Hik. rewrite page_index in Hik.
      unfold PAGE_SIZE in *. lia.
  - eapply iwp_mono; [by apply (evict_clean_spec _ _ _ (fun _ _ => False))| |done].
    intros p' s' [-> Hs]. pose proof (still_wf _ _ _ Hw Hs). destruct Hs as (w & -> & Hf & Hbuf & Hp).
    split_and!; try done. split; [done|]. simpl. rewrite Hm.
    assert (Hr2 : repr m a w) by (by eapply repr_same_file). pose proof Hf as [Hfl2 _].
    eapply (repr_delete _ _ _ _ w); [done..|]. intros i x Hi Hik Hok _.
    unfold byte_ok in Hok. rewrite Hik, Hk in Hok. by apply Hok.
Qed.

Lemma wf_set_cache ps ps' s c :
  wf ps s -> lru_cap c = lru_cap (page_cache s) -> map_Forall page_ok (lru_map c) ->
  Z.of_nat (size (lru_map c)) <= lru_cap c ->
  ps ++ cached_addrs (cmap s) ≡ₚ ps' ++ cached_addrs (lru_map c) -> wf ps' (set_cache c s).
Proof. intros [] Hcap Hp Hs Hh. split; simpl; try done; [by rewrite Hcap|]. by rewrite <-Hh. Qed.

(** Taking a page out of the cache. *)
Lemma wf_pop ps s c k p :
  wf ps s -> lru_cap c = lru_cap (page_cache s) -> cmap s !! k = Some p ->
  lru_map c = delete k (cmap s) -> wf (addr p :: ps) (set_cache c s).
Proof.
  intros Hw Hcap Hk Hm. eapply wf_set_cache; [done..| | |]; rewrite Hm.
  - apply map_Forall_delete, Hw.
  - rewrite Hcap. pose proof (wf_size _ _ Hw). rewrite map_size_delete_Some by done. lia.
  - rewrite (cached_addrs_delete _ _ _ Hk). simpl. by rewrite Permutation_middle.
Qed.

Lemma make_room_spec ps pn a s :
  inv ps a s -> cmap s !! pn = None ->
  iwp make_room
    (fun o s' => inv (evicted_addrs o ++ ps) a s' /\ cmap s' !! pn = None /\
       Z.of_nat (size (cmap s')) < lru_cap (page_cache s') /\ same_buffers view (ext s) (ext s'))
    (fun _ s' => broken ps s') s.
Proof.
  intros [Hw Hr] Hpn. unfold make_room. apply iwp_bind, iwp_get. rewrite lru_len_law.
  pose proof (wf_size _ _ Hw). pose proof (wf_cap _ _ Hw) as Hwc.
  destruct (Z.eqb_spec (Z.of_nat (size (cmap s))) (lru_cap (page_cache s))) as [Hfull|];
    [|apply iwp_ret; split_and!; (done || lia)].
  destruct (decide (im = true)) as [Him|Him%not_true_is_false].
  { pose proof (size_u32 _ (wf_pages _ _ Hw)). rewrite Him in Hwc. unfold usize_max in *. lia. }
  rewrite Him in Hwc. apply iwp_bind, iwp_lru. pose proof (lru_pop_lru_law (page_cache s)) as [Hpop Hcap].
  destruct (lru_pop_lru (page_cache s)) as [[[k p]|] c]; simpl in *.
  2:{ destruct Hpop as [Hm _]. rewrite Hm, map_size_empty in *. lia. }
  destruct Hpop as [Hk Hm]. apply iwp_bind, iwp_on_err.
  eapply iwp_mono; [eapply (evict_spec ps k p (cmap s) a)| |]; try done.
  - by eapply wf_pop.
  - by apply (wf_pages _ _ Hw).
  - intros p' s' (Hap & Hinv & Hc & Hbuf). apply iwp_ret. simpl in *. rewrite Hap, Hc, Hm.
    split_and!; try done.
    + by rewrite lookup_delete_None; right.
    + rewrite Hcap, map_size_delete_Some by done. pose proof (map_size_ne_0_lookup_2 (cmap s) k). 
      assert (size (cmap s) <> 0%nat) by eauto. lia.
  - intros e s' Hb. by apply page_drop_broken.
Qed.

Lemma load_page_spec ps pn s :
  wf ps s -> 0 <= pn < 2 ^ 32 ->
  iwp (load_page pn)
    (fun p s' => wf (addr p :: ps) s' /\ page_cache s' = page_cache s /\ page_ok pn p /\
       same_file view (ext s) (ext s') /\ same_buffers view (ext s) (ext s') /\
       (forall i, 0 <= i < flen view (ext s') -> i / PAGE_SIZE = pn ->
          data p !! Z.to_nat (i mod PAGE_SIZE) = Some (fbyte view (ext s') i)))
    (fun _ s' => broken ps s') s.
Proof.
  intros Hw Hpn. unfold load_page, page_new. apply iwp_bind, iwp_bind, iwp_env.
  eapply iwp_mono; [apply pg_alloc_law| |intros e w' He; by eapply wf_fails].
  intros [ad d] w (Hd & Hheld & Hf & Hbuf). simpl in *. apply iwp_ret.
  assert (Hw1 : wf (ad :: ps) (set_ext w s)).
  { destruct Hw as [? ? ? ? Hh]. split; simpl; try done. by rewrite Hheld, Hh. }
  apply iwp_on_err, iwp_bind, iwp_get. simpl. pose proof (wf_im _ _ Hw) as Hm.
  destruct (decide (im = true)) as [Him|Him%not_true_is_false]; rewrite Him in Hm; rewrite Hm.
  - apply iwp_ret. simpl. split_and!; try done.
    intros i Hi Hik. rewrite memory_bytes by done. unfold zero_page. apply lookup_replicate_2.
    pose proof (Z.mod_pos_bound i PAGE_SIZE). unfold PAGE_SIZE in *. lia.
  - apply iwp_bind, iwp_env. simpl.
    eapply iwp_mono; [apply fn_read_at_law; [done|done|unfold PAGE_SIZE; lia]| |].
    2:{ intros e w' He. apply page_drop_broken. by eapply (wf_fails _ (set_ext w s)). }
    intros bs w' (Hlen & Hbs & Hf' & Hbuf' & Hp'). apply iwp_ret. simpl.
    assert (length (splice 0 bs d) = Z.to_nat PAGE_SIZE) as Hsp.
    { rewrite length_splice; unfold PAGE_SIZE in *; lia. }
    split_and!; try done.
    + by apply (wf_same_pages _ (set_ext w s)).
    + by eapply same_file_trans.
    + by eapply same_buffers_trans.
    + intros i Hi Hik. destruct Hf' as [Hfl' Hbyte']. rewrite Hbyte' by lia.
      rewrite (page_offset_eq _ _ Hik). rewrite page_index in Hik. unfold PAGE_SIZE in *.
      rewrite lookup_splice by lia. rewrite decide_True by lia. rewrite Nat.sub_0_r, Hbs by lia.
      do 2 f_equal. lia.
Qed.

Lemma repr_insert m pn p a w :
  repr m a w -> (tidy a = true -> pn * PAGE_SIZE <= alen a) -> m !! pn = None ->
  (forall i, 0 <= i < flen view w -> i / PAGE_SIZE = pn ->
     data p !! Z.to_nat (i mod PAGE_SIZE) = Some (fbyte view w i)) ->
  repr (<[pn := p]> m) a w.
Proof.
  intros [Hl Hb Ht] Hpn Hnone Hdata. split; [done| |].
  - intros i x Hi Hx. specialize (Hb i x Hi Hx). unfold byte_ok in *.
    destruct (decide (i / PAGE_SIZE = pn)) as [Hik|Hik].
    + rewrite Hik, lookup_insert_eq. rewrite Hik, Hnone in Hb. rewrite Hdata by (done || lia).
      by rewrite Hb.
    + by rewrite lookup_insert_ne.
  - intros Htidy k [p' Hk]. destruct (decide (k = pn)) as [->|]; [by apply Hpn|].
    rewrite lookup_insert_ne in Hk by done. eauto.
Qed.

(** The reference to a cached page. *)
Lemma get_page_spec ps pn p (o : option (Z * PageCache)) a s :
  inv ps a s -> cmap s !! pn = Some p ->
  iwp (p ← lru (lru_get_mut pn) ≫= iunwrap; mret (p, o))
    (fun po s' => po = (p, o) /\ inv ps a s' /\ cmap s' !! pn = Some p /\ ext s' = ext s)
    (fun _ _ => False) s.
Proof.
  intros [Hw Hr] Hp. apply iwp_bind, iwp_bind, iwp_lru.
  destruct (lru_get_mut_law pn (page_cache s)) as (-> & Hm & Hcap). rewrite Hp.
  apply (iwp_ret p), iwp_ret. simpl. rewrite Hm. split_and!; try done. split; [|simpl; by rewrite Hm].
  eapply wf_set_cache; [done..| | |]; rewrite ?Hm, ?Hcap; [apply Hw|apply Hw|done].
Qed.

Lemma page_or_insert_spec ps pn a s :
  inv ps a s -> 0 <= pn < 2 ^ 32 -> (tidy a = true -> pn * PAGE_SIZE <= alen a) ->
  iwp (page_or_insert pn)
    (fun po s' => inv (evicted_addrs po.2 ++ ps) a s' /\ cmap s' !! pn = Some po.1 /\
                  same_buffers view (ext s) (ext s'))
    (fun _ s' => broken ps s') s.
Proof.
  intros Hinv Hpn Htidy. unfold page_or_insert. apply iwp_bind, iwp_get. rewrite lru_contains_law.
  case_bool_decide as Hin.
  - destruct Hin as [p Hp]. eapply iwp_mono; [by eapply (get_page_spec ps pn p)| |done].
    intros ? s' (-> & ? & ? & Hext). by rewrite Hext.
  - assert (Hnone : cmap s !! pn = None) by (by apply eq_None_not_Some).
    apply iwp_bind. eapply iwp_mono; [by apply make_room_spec| |done].
    intros o s1 ([Hw1 Hr1] & Hnone1 & Hsize & Hbuf1). apply iwp_on_err, iwp_bind.
    eapply iwp_mono; [by apply (load_page_spec (evicted_addrs o ++ ps))| |].
    2:{ intros e s' Hb. destruct o as [[k p]|]; [by apply page_drop_broken|done]. }
    intros p s2 (Hw2 & Hc & Hok & Hf & Hbuf & Hdata). apply iwp_bind, iwp_lru.
    destruct (lru_put_law pn p (page_cache s2)) as (-> & Hm & Hcap).
    { by rewrite Hc, lru_len_law. }
    rewrite Hc in Hm |- *. rewrite Hnone1. apply iwp_bind, iwp_ret.
    eapply iwp_mono; [eapply (get_page_spec (evicted_addrs o ++ ps) pn p)| |done].
    3:{ intros ? s' (-> & ? & ? & Hext). rewrite Hext. split_and!; try done.
        by eapply same_buffers_trans. }
    + split; simpl.
      * eapply wf_set_cache; [exact Hw2|..]; rewrite ?Hc, ?Hm.
        -- by rewrite <-Hc.
        -- apply map_Forall_insert_2; [done|]. rewrite <-Hc. apply Hw2.
        -- rewrite map_size_insert_None by done. rewrite Hc in Hcap. rewrite Hcap. lia.
        -- rewrite cached_addrs_insert by done. simpl. by rewrite Permutation_middle.
      * rewrite Hm. apply repr_insert; try done. by eapply repr_same_file.
    + simpl. by rewrite Hm, lookup_insert_eq.
Qed.

(** ** Page ranges *)

(** The state after an assignment through the reference to page [pn]. *)
Definition store (pn : Z) (p : PageCache) (s : state) : state :=
  set_cache (lru_store pn p (page_cache s)) s.

Lemma store_wf ps pn p p' s :
  wf ps s -> cmap s !! pn = Some p -> page_ok pn p' -> addr p' = addr p -> wf ps (store pn p' s).
Proof.
  intros Hw Hp Hok Ha. destruct (lru_store_law pn p' (page_cache s)) as [Hm Hcap]; [done|].
  eapply wf_set_cache; [done..| | |]; rewrite ?Hm, ?Hcap.
  - apply map_Forall_insert_2; [done|apply Hw].
  - rewrite map_size_insert_Some by done. apply Hw.
  - by rewrite cached_addrs_update.
Qed.

Lemma store_same ps a pn p s : inv ps a s -> cmap s !! pn = Some p -> inv ps a (store pn p s).
Proof.
  intros [Hw Hr] Hp. destruct (lru_store_law pn p (page_cache s)) as [Hm Hcap]; [done|].
  split; [eapply store_wf; [done|done|by apply (wf_pages _ _ Hw)|done]|]. simpl. by rewrite Hm, insert_id.
Qed.

(** Writing into a cached page, which becomes dirty unless the file lives in memory. *)
Lemma store_patch ps a pn p o bs s :
  inv ps a s -> cmap s !! pn = Some p -> 0 <= o -> o + Z.of_nat (length bs) <= PAGE_SIZE ->
  inv ps (a_patch (pn * PAGE_SIZE + o) bs a)
    (store pn (mk_page (addr p) (splice (Z.to_nat o) bs (data p)) (negb im)) s).
Proof.
  intros [Hw Hr] Hp Ho Hbs. destruct (wf_pages _ _ Hw pn p Hp) as (Hpn & Hlen & Hd).
  set (p' := mk_page _ _ _). destruct (lru_store_law pn p' (page_cache s)) as [Hm Hcap]; [done|].
  assert (Hfit : (Z.to_nat o + length bs <= length (data p))%nat) by (rewrite Hlen; lia).
  split.
  - eapply store_wf; [done..| |done]. split_and!; try lia; simpl; [by rewrite length_splice|by intros Him; rewrite Him].
  - destruct Hr as [Hl Hb Ht]. split; simpl; rewrite ?Hm; [done| |].
    + intros i x Hi Hx. unfold byte_ok. destruct (decide (i / PAGE_SIZE = pn)) as [Hik|Hik].
      * rewrite Hik, lookup_insert_eq. split; [|simpl; intros Him Hn; by rewrite Him in Hn]. simpl. rewrite lookup_splice by done.
        rewrite (page_offset_eq _ _ Hik).
        destruct (Z.leb_spec (pn * PAGE_SIZE + o) i), (Z.ltb_spec i (pn * PAGE_SIZE + o + Z.of_nat (length bs)));
          simpl in Hx; rewrite page_index in Hik; case_decide; try lia.
        1:{ rewrite <-Hx. f_equal. lia. }
        all: specialize (Hb i x Hi Hx); unfold byte_ok in Hb; rewrite <-page_index in Hik;
          rewrite <-(page_offset_eq _ _ Hik); rewrite Hik, Hp in Hb; apply Hb.
      * rewrite lookup_insert_ne by done. apply (Hb i x Hi).
        destruct (Z.leb_spec (pn * PAGE_SIZE + o) i), (Z.ltb_spec i (pn * PAGE_SIZE + o + Z.of_nat (length bs)));
          simpl in Hx; try done. rewrite page_index in Hik. lia.
    + intros Htidy k [q Hk]. apply Ht; [done|]. destruct (decide (k = pn)) as [->|]; [by eexists|].
      rewrite lookup_insert_ne in Hk by done. by eexists.
Qed.

Lemma page_step_spec {T} (each : T -> PageCache -> Z -> Z -> io VfsError state (result VfsError T * PageCache))
    stop pn off acc ps a s Q R :
  inv ps a s -> 0 <= pn < 2 ^ 32 -> (tidy a = true -> pn * PAGE_SIZE <= alen a) ->
  0 <= stop - pn * PAGE_SIZE < 2 ^ 64 ->
  (forall p s', inv ps a s' -> cmap s' !! pn = Some p -> same_buffers view (ext s) (ext s') ->
     iwp (each acc p off (Z.min (stop - pn * PAGE_SIZE) PAGE_SIZE))
       (fun rp s' => match rp.1 with
                     | Ok acc' => Q acc' (store pn rp.2 s')
                     | Err e => R e (store pn rp.2 s')
                     end) R s') ->
  (forall e s', broken ps s' -> R e s') ->
  iwp (page_step each stop pn off acc) Q R s.
Proof.
  intros Hinv Hpn Htidy Hstop Heach HR. unfold page_step. apply iwp_bind.
  eapply iwp_mono; [by apply page_or_insert_spec| |intros e s' Hb; by apply HR].
  intros [p o] s1 (Hinv1 & Hp & Hbuf). apply iwp_bind. eapply drop_evicted_spec; [done|].
  intros w' Hinv2 Hbuf2. unfold as_u64. rewrite Z.mod_small by done. apply iwp_bind.
  eapply iwp_mono; [apply Heach| |done]; [done|done|by eapply same_buffers_trans|].
  intros [r p'] s2 HQ. apply iwp_bind, iwp_lru. simpl in *. destruct r; [by apply iwp_ret|by apply iwp_throw].
Qed.

Definition page_ceil (stop : Z) : Z := (stop + PAGE_SIZE - 1) / PAGE_SIZE.

(** The loop over the pages of a range, with an invariant on the position reached. *)
Lemma pages_loop_from {T} (each : T -> PageCache -> Z -> Z -> io VfsError state (result VfsError T * PageCache))
    (I : Z -> T -> state -> Prop) start stop R n cur acc s :
  0 <= start ->
  (forall cur acc s, start <= cur <= stop -> cur / PAGE_SIZE < page_ceil stop -> I cur acc s ->
     iwp (page_step each stop (cur / PAGE_SIZE) (cur mod PAGE_SIZE) acc)
       (I (Z.min stop ((cur / PAGE_SIZE + 1) * PAGE_SIZE))) R s) ->
  start <= cur <= stop -> page_ceil stop = cur / PAGE_SIZE + Z.of_nat n -> I cur acc s ->
  iwp (pages_loop each stop (seqZ (cur / PAGE_SIZE) (Z.of_nat n)) (cur mod PAGE_SIZE) acc) (I stop) R s.
Proof.
  intros Hs Hstep. revert cur acc s. induction n as [|n IH]; intros cur acc s Hcur Hn HI.
  - apply iwp_ret. assert (cur = stop) as <-; [|done]. unfold page_ceil, PAGE_SIZE in *.
    pose proof (Z.mul_div_le cur 4096). pose proof (Z.mul_succ_div_gt (stop + 4096 - 1) 4096). lia.
  - rewrite seqZ_cons by lia. simpl. apply iwp_bind.
    eapply iwp_mono; [apply Hstep; [done|lia|done]| |done]. intros acc' s' HI'.
    replace (Z.pred (Z.of_nat (S n))) with (Z.of_nat n) by lia. unfold Z.succ.
    destruct (decide ((cur / PAGE_SIZE + 1) * PAGE_SIZE <= stop)) as [Hnext|Hlast].
    + rewrite Z.min_r in HI' by lia. set (cur' := (cur / PAGE_SIZE + 1) * PAGE_SIZE) in *.
      assert (Hdiv : cur' / PAGE_SIZE = cur / PAGE_SIZE + 1) by (by apply Z.div_mul).
      assert (Hmod : cur' mod PAGE_SIZE = 0) by (by apply Z.mod_mul).
      rewrite <-Hdiv, <-Hmod at 1. apply IH; [|lia|done]. unfold PAGE_SIZE in *.
      pose proof (Z.mul_succ_div_gt cur 4096). lia.
    + assert (n = 0%nat) as ->.
      { unfold page_ceil, PAGE_SIZE in *. pose proof (Z.mul_div_le (stop + 4096 - 1) 4096). lia. }
      apply iwp_ret. rewrite Z.min_l in HI' by lia. done.
Qed.

Lemma pages_loop_spec {T} (each : T -> PageCache -> Z -> Z -> io VfsError state (result VfsError T * PageCache))
    (I : Z -> T -> state -> Prop) start stop acc s R :
  0 <= start <= stop -> stop <= max_end ->
  (forall cur acc s, start <= cur <= stop -> cur / PAGE_SIZE < page_ceil stop -> I cur acc s ->
     iwp (page_step each stop (cur / PAGE_SIZE) (cur mod PAGE_SIZE) acc)
       (I (Z.min stop ((cur / PAGE_SIZE + 1) * PAGE_SIZE))) R s) ->
  I start acc s ->
  iwp (pages_loop each stop (page_range start stop) (start mod PAGE_SIZE) acc) (I stop) R s.
Proof.
  intros Hstart Hend Hstep HI. unfold page_range. fold (page_ceil stop).
  assert (Hc : page_ceil stop < 2 ^ 32).
  { unfold page_ceil, max_end, PAGE_SIZE in *. apply Z.div_lt_upper_bound; lia. }
  assert (Hs : 0 <= start / PAGE_SIZE <= page_ceil stop).
  { unfold page_ceil, PAGE_SIZE in *. split; [apply Z.div_pos; lia|]. apply Z.div_le_mono; lia. }
  rewrite !as_u32_small by lia.
  rewrite <-(Z2Nat.id (page_ceil stop - _)) by lia. apply (pages_loop_from _ _ start); (done || lia).
Qed.

End spec.
