(* ===== verification/FileApi.v ===== *)
(** * Open files

    The rest of [axfs-ng/src/highlevel/file.rs]: open options and access flags, the choice
    between cached and direct access, files with a position, seeking; and the positioned and
    size-changing system calls of [kernel/src/syscall/fs/io.rs] on top of them.  The location a
    file is opened at is a parameter ([Location]), as is direct access through [axio]. *)

From S2P Require Import Prelude Io PageCache.

(** ** Flags *)

(** [FileFlags]. *)
Definition READ : Z := 1.
Definition WRITE : Z := 2.
Definition EXECUTE : Z := 4.
Definition APPEND : Z := 8.
Definition PATH : Z := 16.

(** [self.contains(other)]. *)
Definition contains (self other : Z) : bool := Z.land self other =? other.

Inductive NodeType : Type :=
| Unknown | Fifo | CharacterDevice | Directory | BlockDevice | RegularFile | Symlink | Socket.

#[export] Instance NodeType_eq_dec : EqDecision NodeType.
Proof. solve_decision. Defined.

Record OpenOptions : Type := mk_options {
  o_read : bool;
  o_write : bool;
  o_append : bool;
  o_truncate : bool;
  o_create : bool;
  o_create_new : bool;
  o_directory : bool;
  o_no_follow : bool;
  o_direct : bool;
  o_user : option (Z * Z);
  o_path : bool;
  o_node_type : NodeType;
  o_mode : Z;
}.

(** [OpenOptions::new]. *)
Definition options_new : OpenOptions :=
  mk_options false false false false false false false false false None false RegularFile 0x1b6.

Definition to_flags (o : OpenOptions) : result VfsError Z :=
  let path := if o_path o then PATH else 0 in
  match o_read o, o_write o, o_append o with
  | true, false, false => Ok (Z.lor READ path)
  | false, true, false => Ok (Z.lor WRITE path)
  | true, true, false => Ok (Z.lor (Z.lor READ WRITE) path)
  | false, _, true => Ok (Z.lor (Z.lor WRITE APPEND) path)
  | true, _, true => Ok (Z.lor (Z.lor (Z.lor READ WRITE) APPEND) path)
  | false, false, false => Err InvalidInput
  end.

Definition is_valid (o : OpenOptions) : bool :=
  if negb (o_read o) && negb (o_write o) && negb (o_append o) then true
  else match o_write o, o_append o with
       | true, false => true
       | false, false => negb (o_truncate o || o_create o || o_create_new o)
       | _, true => negb (o_truncate o && negb (o_create_new o))
       end.

(** ** Locations *)

(** The parts of [axfs_ng_vfs::Location] that opening uses, and direct access to the node with the
    caller's buffer. *)
Class Location (W : Type) : Type := {
  loc_is_dir : W -> bool;
  loc_check_is_dir : io VfsError W ();
  loc_node_type : io VfsError W NodeType;
  loc_non_cacheable : W -> bool;
  loc_always_cache : W -> bool;
  loc_stream : W -> bool;
  direct_read_at : Z -> io VfsError W Z;
  direct_write_at : Z -> io VfsError W Z;
  direct_append : io VfsError W (Z * Z);
}.

Inductive FileBackend : Type := Cached | Direct.

#[export] Instance FileBackend_eq_dec : EqDecision FileBackend.
Proof. solve_decision. Defined.

Inductive OpenResult : Type := OpenFile (backend : FileBackend) (flags : Z) | OpenDir.

Section open.
Context {W : Type} {Env : CacheEnv W} {Loc : Location W}.
Local Notation M := (io VfsError W).

(** [_open].  Truncation goes to the node, not to the cache. *)
Definition open_loc_unchecked (o : OpenOptions) : M OpenResult :=
  flags ← iresult (to_flags o);
  _ ← (if o_directory o then
         if contains flags WRITE then throw IsADirectory else loc_check_is_dir
       else mret ());
  _ ← (if o_truncate o then fn_as_file ≫= fun _ => fn_set_len 0 else mret ());
  is_dir ← iget loc_is_dir;
  if (is_dir : bool) then mret OpenDir
  else
    ty ← loc_node_type;
    non_cacheable ← iget loc_non_cacheable;
    always_cache ← iget loc_always_cache;
    let direct := bool_decide (ty ∈ [CharacterDevice; Fifo; Socket]) || o_path o || o_direct o ||
                  non_cacheable in
    mret (OpenFile (if negb direct || always_cache then Cached else Direct) flags).

Definition open_loc (o : OpenOptions) : M OpenResult :=
  if negb (is_valid o) then throw InvalidInput else open_loc_unchecked o.

(** [OpenResult::into_file] and [into_dir]. *)
Definition into_file (r : OpenResult) : result VfsError (FileBackend * Z) :=
  match r with OpenFile b f => Ok (b, f) | OpenDir => Err IsADirectory end.
Definition into_dir (r : OpenResult) : result VfsError () :=
  match r with OpenDir => Ok () | OpenFile _ _ => Err NotADirectory end.

End open.

(** ** Files *)

Section file.
Context {C W : Type} {Lru : LruCache C PageCache} {Env : CacheEnv W} {Loc : Location W}.

(** [File]: its position (streams have none) and, with the [times] feature, how it was accessed;
    [cached] is the cached file behind it, or just its surroundings if access is direct. *)
Record File : Type := mk_file {
  inner : FileBackend;
  flags : Z;
  position : option Z;
  access_flags : Z;
  cached : CachedFile C W;
}.

Local Notation M := (io VfsError File).

Definition set_cached (s : CachedFile C W) (f : File) : File :=
  mk_file (inner f) (flags f) (position f) (access_flags f) s.
Definition set_position (p : Z) (f : File) : File :=
  mk_file (inner f) (flags f) (Some p) (access_flags f) (cached f).
Definition set_access_flags (b : Z) (f : File) : File :=
  mk_file (inner f) (flags f) (position f) b (cached f).

Definition on_cached {A} (m : io VfsError (CachedFile C W) A) : M A := zoom cached set_cached m.
Definition on_node {A} (m : io VfsError W A) : M A := on_cached (env m).

(** [File::new]. *)
Definition file_new (b : FileBackend) (fl : Z) (s : CachedFile C W) : File :=
  let '(len, s') :=
    match env fn_len s with
    | (ROk n, s') => (n, s')
    | (_, s') => (0, s')
    end in
  if loc_stream (ext s) then mk_file b fl None 0 s
  else if contains fl APPEND then mk_file b fl (Some len) 0 s'
  else mk_file b fl (Some 0) 0 s.

(** The operations of [FileBackend]. *)
Definition backend_read_at (offset : Z) : M Z :=
  b ← iget inner;
  match b with
  | Cached => on_cached (read_at offset)
  | Direct => on_node (direct_read_at offset)
  end.
Definition backend_write_at (offset : Z) : M Z :=
  b ← iget inner;
  match b with
  | Cached => on_cached (write_at offset)
  | Direct => on_node (direct_write_at offset)
  end.
Definition backend_append : M (Z * Z) :=
  b ← iget inner;
  match b with
  | Cached => on_cached append
  | Direct => on_node direct_append
  end.
Definition backend_sync (data_only : bool) : M () :=
  b ← iget inner;
  match b with
  | Cached => on_cached (sync data_only)
  | Direct => on_node (fn_as_file ≫= fun _ => fn_sync data_only)
  end.
Definition backend_set_len (len : Z) : M () :=
  b ← iget inner;
  match b with
  | Cached => on_cached (set_len len)
  | Direct => on_node (fn_as_file ≫= fun _ => fn_set_len len)
  end.

Definition is_path (f : File) : bool := contains (flags f) PATH.

(** [access]: the flags are checked, path-only handles are refused. *)
Definition access (required : Z) : M () :=
  f ← iget id;
  if contains (flags f) required && negb (is_path f) then mret () else throw BadFileDescriptor.

Definition file_read_at (offset : Z) : M Z := access READ ≫= fun _ => backend_read_at offset.
Definition file_write_at (offset : Z) : M Z := access WRITE ≫= fun _ => backend_write_at offset.
Definition file_sync (data_only : bool) : M () := access 0 ≫= fun _ => backend_sync data_only.
Definition file_flush : M () := access 0.

(** [*pos += n]. *)
Definition advance (pos n : Z) : M () :=
  if overflow_checks && (u64_max <? pos + n) then ipanic else iset (set_position (as_u64 (pos + n))).

Definition file_read : M Z :=
  _ ← iset (fun f => set_access_flags (Z.lor (access_flags f) 1) f);
  p ← iget position;
  match p with
  | Some pos => n ← file_read_at pos; _ ← advance pos n; mret n
  | None => file_read_at 0
  end.

Definition file_write : M Z :=
  _ ← iset (fun f => set_access_flags (Z.lor (access_flags f) 3) f);
  p ← iget position;
  match p with
  | Some pos =>
      appending ← attempt (access APPEND);
      match appending with
      | Ok _ => '(written, new_size) ← backend_append; _ ← iset (set_position new_size); mret written
      | Err _ => n ← file_write_at pos; _ ← advance pos n; mret n
      end
  | None => file_write_at 0
  end.

Inductive SeekFrom : Type := Start (pos : Z) | End_ (off : Z) | Current (off : Z).

(** [u64::checked_add_signed]. *)
Definition checked_add_signed (a off : Z) : option Z :=
  if (0 <=? a + off) && (a + off <=? u64_max) then Some (a + off) else None.

Definition seek (to : SeekFrom) : M Z :=
  _ ← access 0;
  p ← iget position;
  match p with
  | Some pos =>
      new_pos ← match to with
                | Start p => mret p
                | End_ off =>
                    _ ← access 0;
                    size ← on_node fn_len;
                    iresult (ok_or (checked_add_signed size off) InvalidInput)
                | Current off => iresult (ok_or (checked_add_signed pos off) InvalidInput)
                end;
      _ ← iset (set_position new_pos);
      mret new_pos
  | None => mret 0
  end.

(** ** System calls *)

(** The signed arguments are 64 bits wide; [x as u64]. *)
Definition sys_lseek (offset whence : Z) : M Z :=
  to ← match whence with
       | 0 => mret (Start (as_u64 offset))
       | 1 => mret (Current offset)
       | 2 => mret (End_ offset)
       | _ => throw InvalidInput
       end;
  seek to.

Definition sys_ftruncate (length : Z) : M Z :=
  _ ← access WRITE;
  _ ← backend_set_len (as_u64 length);
  mret 0.

Definition sys_fallocate (mode offset len : Z) : M Z :=
  if negb (mode =? 0) then throw InvalidInput
  else
    _ ← access WRITE;
    size ← on_node fn_len;
    let stop := as_u64 offset + as_u64 len in
    if overflow_checks && (u64_max <? stop) then ipanic
    else
      _ ← backend_set_len (Z.max size (as_u64 stop));
      mret 0.

Definition sys_fsync : M Z := file_sync false ≫= fun _ => mret 0.
Definition sys_fdatasync : M Z := file_sync true ≫= fun _ => mret 0.

(** The caller's buffer is the sink or the source of the surroundings. *)
Definition sys_pread64 (offset : Z) : M Z :=
  if offset <? 0 then throw InvalidInput else file_read_at offset.

Definition sys_pwrite64 (len offset : Z) : M Z :=
  if len =? 0 then mret 0 else file_write_at (as_u64 offset).

Definition sys_preadv2 (offset flags : Z) : M Z := file_read_at (as_u64 offset).
Definition sys_preadv (offset : Z) : M Z := sys_preadv2 offset 0.

(** As it is written: the vectored write reads. *)
Definition sys_pwritev2 (offset flags : Z) : M Z := file_read_at (as_u64 offset).
Definition sys_pwritev (offset : Z) : M Z := sys_pwritev2 offset 0.

End file.

Arguments File : clear implicits.
Arguments mk_file {C W} _ _ _ _ _.
