(* ===== verification/CacheHistory.v ===== *)
(** * The operations of a cached file

    Reading, writing, appending, truncating and flushing, against the specification of
    [CacheSpec]: with the laws of the surroundings, each operation does to the file what the
    specification says, or something outside failed.

    The second part takes the operations to histories. *)

From S2P Require Import Prelude Io PageCache CacheSpec.

#[local] Opaque iwp.

(** The page a write leaves: dirty, unless the file lives in memory. *)
Lemma written_page (b : bool) p d :
  (b = true -> dirty p = false) ->
  (if b then set_data d p else mark_dirty (set_data d p)) = mk_page (addr p) d (negb b).
Proof. destruct b; [intros Hd; unfold set_data; by rewrite Hd|done]. Qed.

Section ops.
Context {C W : Type} {Lru : LruCache C PageCache} {LL : LruLaws C PageCache}.
Context {Env : CacheEnv W} {im : bool} {EL : CacheEnvLaws W im}.
Local Notation state := (CachedFile C W).
Local Notation cmap s := (lru_map (page_cache s)).

(** ** Reading *)

Lemma page_slice_spec x y p (Q : list Z -> state -> Prop) R s :
  0 <= x <= y -> y <= PAGE_SIZE ->
  Q (slice (Z.to_nat x) (Z.to_nat (y - x)) (data p)) s -> iwp (page_slice x y p) Q R s.
Proof.
  intros Hx Hy HQ. unfold page_slice. destruct (Z.leb_spec x y), (Z.leb_spec y PAGE_SIZE); try lia.
  by apply iwp_ret.
Qed.

(** The part of a page that lies in a range ending at [stop], seen from [cur]. *)
Lemma page_part cur stop :
  0 <= cur <= stop -> cur / PAGE_SIZE < page_ceil stop -> stop <= max_end ->
  0 <= cur mod PAGE_SIZE <= Z.min (stop - cur / PAGE_SIZE * PAGE_SIZE) PAGE_SIZE /\
  cur = cur / PAGE_SIZE * PAGE_SIZE + cur mod PAGE_SIZE /\
  cur + (Z.min (stop - cur / PAGE_SIZE * PAGE_SIZE) PAGE_SIZE - cur mod PAGE_SIZE) =
    Z.min stop ((cur / PAGE_SIZE + 1) * PAGE_SIZE) /\
  0 <= cur / PAGE_SIZE < 2 ^ 32 /\ 0 <= stop - cur / PAGE_SIZE * PAGE_SIZE < 2 ^ 64.
Proof.
  intros Hcur Hc Hstop. unfold page_ceil, max_end, PAGE_SIZE in *.
  pose proof (Z.div_mod cur 4096). pose proof (Z.mod_pos_bound cur 4096).
  pose proof (Z.div_pos cur 4096). pose proof (Z.mul_div_le (stop + 4096 - 1) 4096). lia.
Qed.

Lemma slice_length {A} lo n (l : list A) : (lo + n <= length l)%nat -> length (slice lo n l) = n.
Proof. intros. unfold slice. rewrite length_take, length_drop. lia. Qed.

Lemma lookup_slice {A} lo n (l : list A) j :
  (j < n)%nat -> slice lo n l !! j = l !! (lo + j)%nat.
Proof. intros. unfold slice. by rewrite lookup_take_lt, lookup_drop. Qed.

(** What has been read when position [cur] is reached. *)
Definition read_upto (a : afile) (off cur : Z) (bs : list Z) : Prop :=
  Z.of_nat (length bs) = cur - off /\
  forall j x, (j < length bs)%nat -> abyte a (off + Z.of_nat j) = Some x -> bs !! j = Some x.

Lemma read_each_spec ps a off cur stop bs p s n R :
  inv ps a s -> cmap s !! (cur / PAGE_SIZE) = Some p -> 0 <= off <= cur -> cur <= stop <= alen a ->
  cur / PAGE_SIZE < page_ceil stop -> stop <= max_end -> read_upto a off cur bs ->
  stop - cur <= dst_remaining (ext s) ->
  (forall e s', broken ps s' -> R e s') ->
  iwp (read_each n p (cur mod PAGE_SIZE) (Z.min (stop - cur / PAGE_SIZE * PAGE_SIZE) PAGE_SIZE))
    (fun rp s' =>
       let cur' := Z.min stop ((cur / PAGE_SIZE + 1) * PAGE_SIZE) in
       match rp.1 with
       | Ok n' => n' = n + (cur' - cur) /\ inv ps a (store (cur / PAGE_SIZE) rp.2 s') /\
           exists bs', read_upto a off cur' (bs ++ bs') /\ sunk view (ext s') = sunk view (ext s) ++ bs' /\
             dst_remaining (ext s') = dst_remaining (ext s) - (cur' - cur)
       | Err e => R e (store (cur / PAGE_SIZE) rp.2 s')
       end) R s.
Proof.
  intros Hinv Hp Hoff Hcur Hpn Hmax [Hlen Hbs] Hroom HR.
  destruct (page_part cur stop) as (Ho & Hsplit & Hnext & _); [lia|done..|].
  pose proof Hinv as [Hw Hr]. destruct (wf_pages _ _ Hw _ _ Hp) as (_ & Hdata & _).
  set (pn := cur / PAGE_SIZE) in *. set (o := cur mod PAGE_SIZE) in *.
  set (e := Z.min (stop - pn * PAGE_SIZE) PAGE_SIZE) in *.
  unfold read_each. apply iwp_bind, page_slice_spec; [lia|lia|].
  assert (Hsl : length (slice (Z.to_nat o) (Z.to_nat (e - o)) (data p)) = Z.to_nat (e - o)).
  { apply slice_length. lia. }
  apply iwp_bind, iwp_attempt, iwp_env.
  eapply iwp_mono; [apply dst_write_law; lia| |].
  - intros k w (Hk & Hsunk & Hrem & Hsrc & Hf & Hpg). apply iwp_ret. simpl. split_and!; [lia| |].
    + apply store_same; [by apply inv_same|done].
    + eexists; split_and!; [|done|lia]. split; [rewrite length_app; lia|].
      intros j x Hj Hx. rewrite length_app in Hj. destruct (decide (j < length bs)%nat).
      { rewrite lookup_app_l by done. by apply Hbs. }
      rewrite lookup_app_r by lia. rewrite lookup_slice by lia.
      assert (Hi : 0 <= off + Z.of_nat j < alen a) by lia. pose proof (r_bytes _ _ _ Hr _ _ Hi Hx) as Hok.
      assert (Hpg' : (off + Z.of_nat j) / PAGE_SIZE = pn) by (apply page_index; lia).
      unfold byte_ok in Hok. rewrite (page_offset_eq _ _ Hpg'), Hpg', Hp in Hok.
      destruct Hok as [<- _]. f_equal. lia.
  - intros e' w He. apply iwp_ret. simpl. apply HR. split.
    + eapply store_wf; [by eapply wf_same_pages, He|done| |done]. by apply (wf_pages _ _ Hw).
    + apply He.
Qed.

Lemma read_at_spec ps a off s :
  inv ps a s -> 0 <= off -> off + dst_remaining (ext s) <= u64_max -> alen a <= max_end ->
  iwp (read_at off)
    (fun n s' => inv ps a s' /\ exists bs, a_reads a off (dst_remaining (ext s)) bs /\
       n = Z.of_nat (length bs) /\ sunk view (ext s') = sunk view (ext s) ++ bs)
    (fun _ s' => broken ps s') s.
Proof.
  intros Hinv Hoff Hover Hmax. pose proof Hinv as [Hw Hr]. pose proof (r_len _ _ _ Hr) as Hlen.
  unfold read_at. apply iwp_bind. eapply iwp_mono; [by apply len_spec| |done].
  intros n s1 [-> Hs1]. pose proof (still_inv _ _ _ _ Hinv Hs1) as Hinv1.
  destruct Hs1 as (w1 & -> & _ & (_ & Hsunk & Hrem) & _). rewrite <-Hlen.
  apply iwp_bind, iwp_get. simpl. rewrite Hrem. set (rem := dst_remaining (ext s)) in *.
  pose proof (dst_remaining_range (ext s) : 0 <= rem). apply iwp_bind. unfold add_u64.
  destruct (Z.ltb_spec u64_max (off + rem)); [lia|]. rewrite andb_false_r. apply iwp_ret.
  unfold as_u64, u64_max in *. rewrite Z.mod_small by lia. set (stop := Z.min (off + rem) (alen a)).
  destruct (Z.leb_spec stop off).
  { apply iwp_ret. split; [done|]. exists []. rewrite app_nil_r. split_and!; try done.
    split; [simpl; lia|]. simpl. lia. }
  unfold with_pages. apply iwp_bind. eapply iwp_mono; [apply (as_file_spec ps); apply Hinv1| |done].
  intros [] s2 Hs2. pose proof (still_inv _ _ _ _ Hinv1 Hs2) as Hinv2.
  destruct Hs2 as (w2 & -> & _ & (_ & Hsunk2 & Hrem2) & _). simpl in *. apply iwp_bind, iwp_ret.
  eapply iwp_mono;
    [apply (pages_loop_spec _ (fun cur n s' => inv ps a s' /\ n = cur - off /\
       exists bs, read_upto a off cur bs /\ sunk view (ext s') = sunk view (ext s) ++ bs /\
         dst_remaining (ext s') = rem - (cur - off)) off stop _ _ (fun _ s' => broken ps s'))| |done].
  - lia.
  - lia.
  - intros cur n s3 Hcur Hpn (Hinv3 & -> & bs & Hbs & Hsk & Hrm).
    destruct (page_part cur stop) as (Ho & Hsplit & Hnext & Hpr & Hst); [lia|lia|lia|].
    eapply page_step_spec; [exact Hinv3|done|lia|done| |done].
    intros p s4 Hinv4 Hp (_ & Hsk4 & Hrm4).
    eapply iwp_mono; [eapply (read_each_spec ps a off cur stop bs p s4 (cur - off) (fun _ s' => broken ps s'))| |done]; try done; try lia.
    intros [[n'|e] p'] s5; simpl; [|done]. intros (-> & Hinv5 & bs' & Hup & Hsk5 & Hrm5).
    split_and!; [done|lia|]. exists (bs ++ bs'). split_and!; [done| |lia].
    by rewrite Hsk5, Hsk4, Hsk, app_assoc.
  - split_and!; [done|lia|]. exists []. rewrite app_nil_r. split_and!; [|simpl; congruence|simpl; lia].
    split; [simpl; lia|]. simpl. lia.
  - intros n s3 (Hinv3 & -> & bs & [Hb1 Hb2] & Hsk & _). split; [done|].
    exists bs. split_and!; [|lia|done]. split; [lia|done].
Qed.

(** ** Writing *)

(** The node is extended without the cache knowing. *)
Lemma repr_grow m a stop w w' :
  repr m a w -> flen view w' = Z.max stop (flen view w) ->
  (forall i, 0 <= i < flen view w' -> fbyte view w' i = if i <? flen view w then fbyte view w i else 0) ->
  repr m (a_grow stop a) w'.
Proof.
  intros [Hl Hb Ht] Hlen Hbyte. split; simpl; [congruence| |].
  - intros i x Hi. unfold byte_ok. rewrite Hbyte by lia. rewrite <-Hl.
    destruct (Z.ltb_spec i (alen a)); [intros Hx; apply Hb; [lia|done]|].
    destruct (tidy a) eqn:Htidy; [|done]. destruct (Z.eqb_spec (i / PAGE_SIZE) (alen a / PAGE_SIZE)); [done|].
    simpl. intros [= <-]. destruct (m !! (i / PAGE_SIZE)) as [p|] eqn:Hp; [|done].
    exfalso. assert (i / PAGE_SIZE * PAGE_SIZE <= alen a) by eauto.
    assert (alen a / PAGE_SIZE <= i / PAGE_SIZE) by (apply Z.div_le_mono; [done|lia]).
    assert (i / PAGE_SIZE <= alen a / PAGE_SIZE); [|lia]. apply Z.div_le_lower_bound; [done|lia].
  - intros Htidy pn Hpn. specialize (Ht Htidy pn Hpn). lia.
Qed.

Lemma set_len_inv ps a n s (Q : () -> state -> Prop) (R : VfsError -> state -> Prop) :
  inv ps a s -> 0 <= n ->
  (forall w', wf ps (set_ext w' s) -> flen view w' = n ->
     (forall i, 0 <= i < n -> fbyte view w' i = if i <? flen view (ext s) then fbyte view (ext s) i else 0) ->
     same_buffers view (ext s) w' -> Q () (set_ext w' s)) ->
  (forall e s', broken ps s' -> R e s') ->
  iwp (env (fn_set_len n)) Q R s.
Proof.
  intros [Hw Hr] Hn HQ HR. apply iwp_env. eapply iwp_mono; [by apply fn_set_len_law| |].
  - intros [] w' (? & ? & ? & ?). apply HQ; try done. by apply wf_same_pages.
  - intros e w' He. by eapply HR, wf_fails.
Qed.

Lemma write_initial_spec ps a stop s :
  inv ps a s -> 0 <= stop ->
  iwp (flen ← env fn_len;
       _ ← (if flen <? stop then env (fn_set_len stop) else mret ());
       mret 0)
    (fun n s' => n = 0 /\ inv ps (a_grow stop a) s' /\ same_buffers view (ext s) (ext s'))
    (fun _ s' => broken ps s') s.
Proof.
  intros Hinv Hstop. pose proof Hinv as [Hw Hr]. apply iwp_bind.
  eapply iwp_mono; [by apply len_spec| |done].
  intros n s1 [-> Hs1]. pose proof (still_inv _ _ _ _ Hinv Hs1) as Hinv1.
  destruct Hs1 as (w1 & -> & [Hfl _] & Hbuf & _). apply iwp_bind. destruct (Z.ltb_spec (flen view (ext s)) stop).
  - eapply set_len_inv; [exact Hinv1|done| |done]. simpl. intros w' Hw' Hlen Hbyte Hbuf'.
    apply iwp_ret. split_and!; [done| |by eapply same_buffers_trans]. split; [done|].
    eapply (repr_grow _ _ _ w1); [apply Hinv1|simpl; lia|]. simpl. rewrite Hlen. done.
  - apply iwp_ret, iwp_ret. split_and!; [done| |done]. destruct Hinv1 as [Hw1 Hr1]. split; [done|].
    eapply (repr_grow _ _ _ w1); [done|simpl; lia|].
    intros i Hi. simpl in *. by destruct (Z.ltb_spec i (flen view w1)); [|lia].
Qed.

Lemma write_each_spec ps a cur stop p s n R :
  inv ps a s -> cmap s !! (cur / PAGE_SIZE) = Some p -> 0 <= cur <= stop ->
  cur / PAGE_SIZE < page_ceil stop -> stop <= max_end ->
  Z.of_nat (length (source view (ext s))) = stop - cur ->
  (forall e s', broken ps s' -> R e s') ->
  iwp (write_each n p (cur mod PAGE_SIZE) (Z.min (stop - cur / PAGE_SIZE * PAGE_SIZE) PAGE_SIZE))
    (fun rp s' =>
       let cur' := Z.min stop ((cur / PAGE_SIZE + 1) * PAGE_SIZE) in
       match rp.1 with
       | Ok n' => n' = n + (cur' - cur) /\
           inv ps (a_patch cur (take (Z.to_nat (cur' - cur)) (source view (ext s))) a)
             (store (cur / PAGE_SIZE) rp.2 s') /\
           source view (ext s') = drop (Z.to_nat (cur' - cur)) (source view (ext s))
       | Err e => R e (store (cur / PAGE_SIZE) rp.2 s')
       end) R s.
Proof.
  intros Hinv Hp Hcur Hpn Hmax Hsrc HR.
  destruct (page_part cur stop) as (Ho & Hsplit & Hnext & _); [lia|done..|].
  pose proof Hinv as [Hw Hr]. destruct (wf_pages _ _ Hw _ _ Hp) as (Hpr & Hdata & Hd).
  set (pn := cur / PAGE_SIZE) in *. set (o := cur mod PAGE_SIZE) in *.
  set (e := Z.min (stop - pn * PAGE_SIZE) PAGE_SIZE) in *.
  cbv zeta. replace (Z.min stop ((pn + 1) * PAGE_SIZE) - cur) with (e - o) by lia.
  unfold write_each. apply iwp_bind, page_slice_spec; [lia|lia|].
  apply iwp_bind, iwp_get, iwp_bind, iwp_env, iwp_state. rewrite (wf_im _ _ Hw).
  pose proof (src_read_law (e - o) (ext s)) as Hread. rewrite src_remaining_law in Hread.
  specialize (Hread ltac:(lia)). destruct (src_read (e - o) (ext s)) as [[[k|er] bs] w]; simpl.
  - destruct Hread as (-> & -> & Hsrc' & _ & _ & Hf & Hpg). apply iwp_ret. simpl. split_and!; [done| |done].
    assert (Hl : Z.of_nat (length (take (Z.to_nat (e - o)) (source view (ext s)))) = e - o)
      by (rewrite length_take; lia).
    pose proof (store_patch ps a pn p o (take (Z.to_nat (e - o)) (source view (ext s))) (set_ext w s)) as Hsp.
    rewrite <-Hsplit in Hsp.
    rewrite written_page by done. apply Hsp; [by apply inv_same|done|lia|lia].
  - destruct Hread as [Hl He]. apply iwp_ret. simpl. apply HR. split; [|apply He].
    eapply store_wf; [by eapply wf_same_pages, He|done| |done].
    split_and!; try lia; simpl; [|done]. rewrite length_splice; [done|]. lia.
Qed.

Lemma patch_app off bs1 bs2 a i x :
  abyte (a_patch off (bs1 ++ bs2) a) i = Some x ->
  abyte (a_patch (off + Z.of_nat (length bs1)) bs2 (a_patch off bs1 a)) i = Some x.
Proof.
  simpl. rewrite length_app, Nat2Z.inj_add.
  destruct (Z.leb_spec off i), (Z.ltb_spec i (off + (Z.of_nat (length bs1) + Z.of_nat (length bs2)))),
    (Z.leb_spec (off + Z.of_nat (length bs1)) i),
    (Z.ltb_spec i (off + Z.of_nat (length bs1) + Z.of_nat (length bs2))),
    (Z.ltb_spec i (off + Z.of_nat (length bs1))); simpl; try lia; try done.
  - rewrite lookup_app_r by lia. intros <-. f_equal. lia.
  - by rewrite lookup_app_l by lia.
Qed.

Lemma write_at_locked_spec ps a off s :
  inv ps a s -> 0 <= off -> off + Z.of_nat (length (source view (ext s))) <= max_end ->
  iwp (write_at_locked off)
    (fun n s' => n = Z.of_nat (length (source view (ext s))) /\
       inv ps (a_write off (source view (ext s)) a) s')
    (fun _ s' => broken ps s') s.
Proof.
  intros Hinv Hoff Hmax. set (src := source view (ext s)) in *. unfold write_at_locked.
  apply iwp_bind, iwp_get. rewrite src_remaining_law. fold src. apply iwp_bind. unfold add_u64.
  set (stop := off + Z.of_nat (length src)) in *.
  destruct (Z.ltb_spec u64_max stop); [unfold u64_max, max_end, PAGE_SIZE in *; lia|].
  rewrite andb_false_r. apply iwp_ret. unfold as_u64.
  rewrite Z.mod_small by (unfold max_end, PAGE_SIZE in *; lia).
  unfold with_pages. apply iwp_bind. eapply iwp_mono; [apply (as_file_spec ps); apply Hinv| |done].
  intros [] s1 Hs1. pose proof (still_inv _ _ _ _ Hinv Hs1) as Hinv1.
  destruct Hs1 as (w1 & -> & _ & (Hsrc1 & _) & _). apply iwp_bind.
  eapply iwp_mono; [by apply write_initial_spec; [exact Hinv1|lia]| |done].
  intros n s2 (-> & Hinv2 & (Hsrc2 & _)). simpl in Hsrc2. set (g := a_grow stop a) in *.
  eapply iwp_mono;
    [apply (pages_loop_spec _ (fun cur n s' => n = cur - off /\
       inv ps (a_patch off (take (Z.to_nat (cur - off)) src) g) s' /\
       source view (ext s') = drop (Z.to_nat (cur - off)) src) off stop _ _ (fun _ s' => broken ps s'))| |done].
  - lia.
  - done.
  - intros cur n s3 Hcur Hpn (-> & Hinv3 & Hsrc3).
    destruct (page_part cur stop) as (Ho & Hsplit & Hnext & Hpr & Hst); [lia|lia|lia|].
    eapply page_step_spec; [exact Hinv3|done|simpl; lia|done| |done].
    intros p s4 Hinv4 Hp (Hsrc4 & _). rewrite Hsrc3 in Hsrc4.
    eapply iwp_mono; [eapply (write_each_spec ps _ cur stop p s4 (cur - off) (fun _ s' => broken ps s'))| |done];
      try done; [lia|rewrite Hsrc4, length_drop; lia|].
    intros [[n'|e] p'] s5; simpl; [|done]. rewrite Hsrc4. intros (-> & Hinv5 & Hsrc5).
    set (cur' := Z.min stop _) in *. split_and!; [lia| |].
    + destruct Hinv5 as [Hw5 Hr5]. split; [done|]. eapply repr_weaken; [done..|].
      intros i x _ Hx. replace (Z.to_nat (cur' - off)) with (Z.to_nat (cur - off) + Z.to_nat (cur' - cur))%nat in Hx by lia.
      rewrite <-take_take_drop in Hx. apply patch_app in Hx.
      rewrite length_take in Hx. by replace (off + _) with cur in Hx by lia.
    + rewrite Hsrc5, drop_drop. f_equal. lia.
  - rewrite Z.sub_diag. split_and!; [done| |by rewrite Hsrc2].
    destruct Hinv2 as [Hw2 Hr2]. split; [done|]. eapply repr_weaken; [done..|].
    intros i x _. simpl. destruct (Z.leb_spec off i), (Z.ltb_spec i (off + Z.of_nat 0)); simpl; (lia || done).
  - intros n s3 (-> & Hinv3 & _). replace (stop - off) with (Z.of_nat (length src)) in * by lia.
    rewrite Nat2Z.id, firstn_all in Hinv3. done.
Qed.

Lemma append_spec ps a s :
  inv ps a s -> alen a + Z.of_nat (length (source view (ext s))) <= max_end ->
  iwp append
    (fun r s' => r = (Z.of_nat (length (source view (ext s))), alen a + Z.of_nat (length (source view (ext s)))) /\
       inv ps (a_write (alen a) (source view (ext s)) a) s')
    (fun _ s' => broken ps s') s.
Proof.
  intros Hinv Hmax. pose proof (r_len _ _ _ (proj2 Hinv)) as Hlen. pose proof (flen_range (ext s)).
  unfold append. apply iwp_bind. eapply iwp_mono; [apply (as_file_spec ps); apply Hinv| |done].
  intros [] s1 Hs1. pose proof (still_inv _ _ _ _ Hinv Hs1) as Hinv1.
  apply iwp_bind. eapply iwp_mono; [apply (len_spec ps); apply Hinv1| |done].
  intros n s2 [-> Hs2]. pose proof (still_inv _ _ _ _ Hinv1 Hs2) as Hinv2.
  pose proof (still_trans _ _ _ Hs1 Hs2) as (w2 & -> & _ & (Hsrc & _) & _).
  destruct Hs1 as (w1 & -> & [Hfl _] & _). simpl in Hfl |- *. rewrite Hfl, <-Hlen.
  apply iwp_bind. eapply iwp_mono; [apply (write_at_locked_spec ps a); [done|lia|]| |done]; simpl; rewrite ?Hsrc; [done|].
  intros n s3 [-> Hinv3]. apply iwp_bind. unfold add_u64.
  destruct (Z.ltb_spec u64_max (alen a + Z.of_nat (length (source view (ext s)))));
    [unfold u64_max, max_end, PAGE_SIZE in *; lia|].
  rewrite andb_false_r. apply iwp_ret, iwp_ret. unfold as_u64.
  rewrite Z.mod_small by (unfold max_end, PAGE_SIZE in *; lia). done.
Qed.

(** ** Truncating and extending *)

(** The last page of a file that is extended, after its end has been filled with zeros. *)
Definition zero_tail (old n : Z) (p : PageCache) : PageCache :=
  let start := old / PAGE_SIZE * PAGE_SIZE in
  let o := old - start in
  set_data (splice (Z.to_nat o) (replicate (Z.to_nat (Z.min (n - start) PAGE_SIZE - o)) 0) (data p)) p.

Lemma zero_tail_lookup old n p i :
  0 <= old < n -> length (data p) = Z.to_nat PAGE_SIZE -> 0 <= i < n -> i / PAGE_SIZE = old / PAGE_SIZE ->
  data (zero_tail old n p) !! Z.to_nat (i mod PAGE_SIZE) =
    if i <? old then data p !! Z.to_nat (i mod PAGE_SIZE) else Some 0.
Proof.
  intros Hold Hlen Hi Hpg. unfold zero_tail. simpl. rewrite (page_offset_eq _ _ Hpg). pose proof Hpg as Hr. rewrite page_index in Hr.
  assert (old / PAGE_SIZE * PAGE_SIZE <= old < (old / PAGE_SIZE + 1) * PAGE_SIZE) by (by apply page_index).
  set (start := old / PAGE_SIZE * PAGE_SIZE) in *. unfold PAGE_SIZE in *.
  rewrite lookup_splice by (rewrite length_replicate; lia). rewrite length_replicate.
  destruct (Z.ltb_spec i old); case_decide; try lia; [done|]. apply lookup_replicate_2. lia.
Qed.

Lemma page_ok_zero_tail pn old n p :
  0 <= old < n -> page_ok (im := im) pn p -> page_ok (im := im) pn (zero_tail old n p).
Proof.
  intros Hold (? & Hlen & ?). split_and!; try lia; [|done]. unfold zero_tail. simpl.
  assert (old / PAGE_SIZE * PAGE_SIZE <= old < (old / PAGE_SIZE + 1) * PAGE_SIZE) by (by apply page_index).
  rewrite length_splice; [done|]. rewrite length_replicate. lia.
Qed.

Lemma repr_extend m m' a n w w' :
  repr m a w -> 0 <= alen a < n -> map_Forall (page_ok (im := im)) m -> flen view w' = n ->
  (forall i, 0 <= i < n -> fbyte view w' i = if i <? flen view w then fbyte view w i else 0) ->
  m' = alter (zero_tail (alen a) n) (alen a / PAGE_SIZE) m ->
  repr m' (a_set_len n a) w'.
Proof.
  intros Hr Hn Hok Hlen Hbyte ->. pose proof Hr as [Hl Hb Ht].
  assert (Hg : repr m (a_grow n a) w') by (apply (repr_grow _ _ _ w); [done|lia|by rewrite Hlen]).
  split; simpl; [done| |].
  - intros i x Hi Hx. destruct (decide (i / PAGE_SIZE = alen a / PAGE_SIZE)) as [Hpg|Hpg].
    + unfold byte_ok. rewrite Hpg, lookup_alter_eq, Hbyte by done. rewrite <-Hl. revert Hx.
      replace (i / PAGE_SIZE =? alen a / PAGE_SIZE) with true by (symmetry; by apply Z.eqb_eq).
      rewrite orb_true_r.
      destruct (m !! (alen a / PAGE_SIZE)) as [p|] eqn:Hp; cbn [fmap option_fmap option_map].
      * destruct (Hok _ _ Hp) as (_ & Hpl & _).
        rewrite zero_tail_lookup by (done || lia). destruct (Z.ltb_spec i (alen a)); [|by intros [= <-]].
        intros Hx. pose proof (Hb i x ltac:(lia) Hx) as Hbi. unfold byte_ok in Hbi. rewrite Hpg, Hp in Hbi. done.
      * destruct (Z.ltb_spec i (alen a)); [|by intros [= <-]].
        intros Hx. pose proof (Hb i x ltac:(lia) Hx) as Hbi. unfold byte_ok in Hbi. rewrite Hpg, Hp in Hbi. done.
    + assert (Hbi : byte_ok m w' i x).
      { apply (r_bytes _ _ _ Hg); simpl; [lia|]. destruct (i <? alen a); [done|].
        destruct (Z.eqb_spec (i / PAGE_SIZE) (alen a / PAGE_SIZE)); [done|]. simpl. rewrite andb_true_r.
        by rewrite orb_false_r in Hx. }
      unfold byte_ok in *. by rewrite lookup_alter_ne by done.
  - intros Htidy pn [q Hpn]. destruct (decide (pn = alen a / PAGE_SIZE)) as [->|].
    + pose proof (Z.mul_div_le (alen a) PAGE_SIZE). unfold PAGE_SIZE in *. lia.
    + rewrite lookup_alter_ne in Hpn by done. specialize (Ht Htidy pn ltac:(by eexists)). lia.
Qed.

Lemma discard_page_spec ps a pn s (R : VfsError -> state -> Prop) :
  inv ps a s -> alen a <= pn * PAGE_SIZE ->
  iwp (discard_page pn) (fun _ s' => inv ps a s' /\ cmap s' = delete pn (cmap s)) R s.
Proof.
  intros [Hw Hr] Hpn. unfold discard_page. apply iwp_bind, iwp_lru.
  destruct (lru_pop_law pn (page_cache s)) as (-> & Hm & Hcap).
  destruct (cmap s !! pn) as [p|] eqn:Hp.
  2:{ apply iwp_ret. rewrite delete_id in Hm by done. split; [|simpl; by rewrite Hm, delete_id].
      split; [|simpl; by rewrite Hm]. eapply wf_set_cache; [done..| | |]; rewrite ?Hm, ?Hcap; (apply Hw || done). }
  pose proof (wf_pop _ _ _ _ _ Hw Hcap Hp Hm) as Hw1.
  assert (Hdrop : forall s1, still (set_cache (lru_pop pn (page_cache s)).2 s) s1 ->
    iwp (page_drop p) (fun _ s' => inv ps a s' /\ cmap s' = delete pn (cmap s)) R s1).
  { intros s1 Hs1. pose proof (still_wf _ _ _ Hw1 Hs1) as Hws1. destruct Hs1 as (w1 & -> & Hf & _ & _).
    eapply page_drop_spec; [exact Hws1|]. simpl. intros w' Hw' Hf' _ _. split; [|done]. split; [done|].
    assert (Hff : same_file view (ext s) w') by (by eapply same_file_trans).
    pose proof (repr_same_file _ _ _ _ Hr Hff) as Hr'. simpl. rewrite Hm.
    eapply (repr_delete _ _ _ _ w'); [done..|]. intros i x Hi Hik. rewrite page_index in Hik.
    rewrite <-(r_len _ _ _ Hr') in Hi. lia. }
  apply iwp_bind, iwp_get. destruct (in_memory _); [apply Hdrop, still_refl|].
  apply iwp_bind, iwp_on_err.
  eapply iwp_mono; [apply (evict_clean_spec _ _ _ (fun _ _ => False)); done| |done].
  intros p' s1 [-> Hs1]. by apply Hdrop.
Qed.

Lemma alter_Some {A} (f : A -> A) k (m : gmap Z A) x : m !! k = Some x -> alter f k m = <[k := f x]> m.
Proof. intros Hx. apply map_eq. intros j. destruct (decide (j = k)) as [->|]; by simplify_map_eq. Qed.
Lemma alter_None {A} (f : A -> A) k (m : gmap Z A) : m !! k = None -> alter f k m = m.
Proof. intros Hx. apply map_eq. intros j. destruct (decide (j = k)) as [->|]; by simplify_map_eq. Qed.

(** What the node's [set_len] leaves the cache with. *)
Definition resized (n : Z) (s : state) (w' : W) : Prop :=
  flen view w' = n /\
  forall i, 0 <= i < n -> fbyte view w' i = if i <? flen view (ext s) then fbyte view (ext s) i else 0.

Lemma set_len_extend ps a n s w' (R : VfsError -> state -> Prop) :
  inv ps a s -> 0 <= alen a < n -> wf ps (set_ext w' s) -> resized n s w' ->
  iwp (o ← lru (lru_get_mut (alen a / PAGE_SIZE));
       match o with
       | Some page =>
           let page_start := alen a / PAGE_SIZE * PAGE_SIZE in
           page' ← page_zero (alen a - page_start) (Z.min (n - page_start) PAGE_SIZE) page;
           lru (fun c => ((), lru_store (alen a / PAGE_SIZE) page' c))
       | None => mret ()
       end) (fun _ s' => inv ps (a_set_len n a) s') R (set_ext w' s).
Proof.
  intros [Hw Hr] Ha Hw' [Hfl Hbyte]. set (k := alen a / PAGE_SIZE).
  apply iwp_bind, iwp_lru. destruct (lru_get_mut_law k (page_cache s)) as (Hget & Hm & Hcap).
  simpl. rewrite Hget. set (c := (lru_get_mut k (page_cache s)).2) in *.
  assert (Hw1 : wf ps (set_cache c (set_ext w' s))).
  { eapply wf_set_cache; [done..| | |]; rewrite ?Hm, ?Hcap; (apply Hw || done). }
  destruct (cmap s !! k) as [p|] eqn:Hp.
  - assert (k * PAGE_SIZE <= alen a < (k + 1) * PAGE_SIZE) by (by apply page_index).
    apply iwp_bind. unfold page_zero. apply iwp_bind, page_slice_spec; [lia|lia|].
    apply iwp_ret, iwp_lru. fold k. simpl. set (p' := set_data _ p).
    assert (Hp' : p' = zero_tail (alen a) n p) by done. pose proof (wf_pages _ _ Hw _ _ Hp) as Hpok. split.
    + eapply (store_wf ps k p p' (set_cache c (set_ext w' s))); [done|simpl; by rewrite Hm| |done].
      rewrite Hp'. by apply page_ok_zero_tail.
    + simpl. destruct (lru_store_law k p' c) as [Hst _]; [by rewrite Hm, Hp|]. rewrite Hst, Hm.
      eapply repr_extend; [done|lia|apply Hw|done|done|]. by rewrite (alter_Some _ _ _ _ Hp), Hp'.
  - apply iwp_ret. split; [done|]. simpl. rewrite Hm.
    eapply repr_extend; [done|lia|apply Hw|done|done|]. by rewrite alter_None.
Qed.

Lemma set_len_truncate ps a n s w' (R : VfsError -> state -> Prop) :
  inv ps a s -> 0 <= n <= alen a -> wf ps (set_ext w' s) -> resized n s w' ->
  iwp (if n / PAGE_SIZE <? alen a / PAGE_SIZE then
         c ← iget page_cache;
         iter_list discard_page (filter (fun pn => n / PAGE_SIZE < pn) (lru_iter c).*1)
       else mret ()) (fun _ s' => inv ps (a_set_len n a) s') R (set_ext w' s).
Proof.
  intros [Hw Hr] Hn Hw' [Hfl Hbyte]. set (a0 := mk_afile n (abyte (a_set_len n a)) false).
  assert (Hinv0 : inv ps a0 (set_ext w' s)).
  { split; [done|]. destruct Hr as [Hl Hb Ht]. split; simpl; [done| |done].
    intros i x Hi. unfold byte_ok. rewrite Hbyte by done. rewrite <-Hl.
    destruct (Z.ltb_spec i (alen a)); [|lia]. intros Hx. apply Hb; [lia|done]. }
  assert (Hfin : forall s', inv ps a0 s' ->
    (tidy a = true -> forall pn, is_Some (cmap s' !! pn) -> pn * PAGE_SIZE <= n) -> inv ps (a_set_len n a) s').
  { intros s' [Hw1 [Hl1 Hb1 _]] Ht1. by split. }
  destruct (Z.ltb_spec (n / PAGE_SIZE) (alen a / PAGE_SIZE)) as [Hlast|Hlast].
  - apply iwp_bind, iwp_get. simpl.
    apply (iwp_iter_list _ (fun l s' => inv ps a0 s' /\ Forall (fun pn => n / PAGE_SIZE < pn) l /\
      forall pn, is_Some (cmap s' !! pn) -> pn <= n / PAGE_SIZE \/ pn ∈ l)).
    + intros pn l s' (Hinv' & [Hpn Hall]%Forall_cons & Hkeys).
      eapply iwp_mono; [apply (discard_page_spec ps a0 _ _ R); [done|]| |done].
      { simpl. pose proof (Z.mul_succ_div_gt n PAGE_SIZE). unfold PAGE_SIZE in *. lia. }
      intros [] s1 [Hinv1 Hm1]. split_and!; [done..|]. rewrite Hm1. intros k [p Hk].
      apply lookup_delete_Some in Hk as [Hne Hk]. destruct (Hkeys k) as [?|[->|?]%elem_of_cons]; eauto. done.
    + intros s' (Hinv' & _ & Hkeys). apply Hfin; [done|]. intros _ pn Hpn. apply Hkeys in Hpn as [Hpn|Hpn%not_elem_of_nil]; [|done].
      pose proof (Z.mul_div_le n PAGE_SIZE). unfold PAGE_SIZE in *. lia.
    + split_and!; [done|apply Forall_forall; intros pn Hpn; by apply list_elem_of_filter in Hpn as [? _]|].
      simpl. intros pn [p Hp]. destruct (decide (n / PAGE_SIZE < pn)); [right|left; lia].
      apply list_elem_of_filter. split; [done|]. rewrite lru_iter_law. apply list_elem_of_fmap.
      exists (pn, p). split; [done|]. by apply elem_of_map_to_list.
  - apply iwp_ret, Hfin; [done|]. simpl. intros Htidy pn Hpn. pose proof (r_tidy _ _ _ Hr Htidy pn Hpn).
    assert (pn <= alen a / PAGE_SIZE) by (apply Z.div_le_lower_bound; [done|lia]).
    pose proof (Z.mul_div_le n PAGE_SIZE). unfold PAGE_SIZE in *. lia.
Qed.

Lemma set_len_spec ps a n s :
  inv ps a s -> 0 <= n < 2 ^ 44 -> alen a < 2 ^ 44 ->
  iwp (set_len n) (fun _ s' => inv ps (a_set_len n a) s') (fun _ s' => broken ps s') s.
Proof.
  intros Hinv Hn Hmax. unfold set_len. apply iwp_bind.
  eapply iwp_mono; [apply (as_file_spec ps); apply Hinv| |done].
  intros [] s1 Hs1. pose proof (still_inv _ _ _ _ Hinv Hs1) as Hinv1.
  apply iwp_bind. eapply iwp_mono; [apply (len_spec ps); apply Hinv1| |done].
  intros old s2 [-> Hs2]. pose proof (still_inv _ _ _ _ Hinv1 Hs2) as Hinv2.
  pose proof (r_len _ _ _ (proj2 Hinv1)) as <-. pose proof (r_len _ _ _ (proj2 Hinv2)) as Hlen.
  pose proof (flen_range (ext s2)) as Hpos. rewrite <-Hlen in Hpos.
  assert (Hu32 : forall z, 0 <= z < 2 ^ 44 -> as_u32 (z / PAGE_SIZE) = z / PAGE_SIZE).
  { intros z Hz. apply as_u32_small. unfold PAGE_SIZE. split; [apply Z.div_pos|apply Z.div_lt_upper_bound]; lia. }
  apply iwp_bind. eapply set_len_inv; [exact Hinv2|lia| |done]. intros w' Hw' Hfl Hbyte _.
  rewrite !Hu32 by lia. destruct (Z.ltb_spec (alen a) n).
  - by apply set_len_extend; [|lia| |].
  - by apply set_len_truncate; [|lia| |].
Qed.

(** ** Flushing *)

Lemma sync_loop_spec ps a fuel s :
  im = false -> inv ps a s -> (size (cmap s) < fuel)%nat ->
  iwp (sync_loop fuel) (fun _ s' => inv ps a s' /\ cmap s' = ∅) (fun _ s' => broken ps s') s.
Proof.
  intros Him. revert s. induction fuel as [|fuel IH]; intros s [Hw Hr] Hfuel; [lia|]. simpl.
  apply iwp_bind, iwp_lru. destruct (lru_pop_lru_law (page_cache s)) as [Hpop Hcap].
  destruct (lru_pop_lru (page_cache s)) as [[[k p]|] c]; simpl in *.
  - destruct Hpop as [Hk Hm]. apply iwp_bind, iwp_on_err.
    eapply iwp_mono; [eapply (evict_spec ps k p (cmap s) a)| |]; try done.
    + by eapply wf_pop.
    + by apply (wf_pages _ _ Hw).
    + intros p' s1 (Hap & [Hw1 Hr1] & Hc & _). apply iwp_bind. rewrite <-Hap in Hw1.
      eapply page_drop_spec; [exact Hw1|]. intros w' Hw' Hf _ _. apply IH.
      * split; [done|]. simpl. by eapply repr_same_file.
      * simpl in *. rewrite Hc, Hm, map_size_delete_Some by done.
        assert (size (cmap s) <> 0%nat) by (eapply map_size_ne_0_lookup_2; by eexists). lia.
    + intros e s1 Hb. by apply page_drop_broken.
  - destruct Hpop as [Hm Hm']. apply iwp_ret. split; [|done].
    split; [|simpl; by rewrite Hm', <-Hm].
    eapply wf_set_cache; [done|done|..]; simpl; rewrite ?Hm', ?Hcap, <-?Hm; (apply Hw || done).
Qed.

Lemma sync_spec ps a b s :
  inv ps a s ->
  iwp (sync b)
    (fun _ s' => (im = true -> s' = s) /\ (im = false -> inv ps (a_sync a) s' /\ cmap s' = ∅))
    (fun _ s' => broken ps s') s.
Proof.
  intros Hinv. pose proof Hinv as [Hw _]. unfold sync. apply iwp_bind, iwp_get. rewrite (wf_im _ _ Hw).
  destruct (decide (im = true)) as [Him|Him%not_true_is_false].
  - assert (Heq : forall (m1 m2 : io VfsError state ()), (if im then m1 else m2) = m1) by (by rewrite Him).
    rewrite Heq. apply iwp_ret. split; [done|congruence].
  - assert (Heq : forall (m1 m2 : io VfsError state ()), (if im then m1 else m2) = m2) by (by rewrite Him).
    rewrite Heq. apply iwp_bind. eapply iwp_mono; [by apply (as_file_spec ps)| |done].
    intros [] s1 Hs1. pose proof (still_inv _ _ _ _ Hinv Hs1) as Hinv1.
    apply iwp_bind, iwp_get, iwp_bind. rewrite lru_len_law, Nat2Z.id.
    eapply iwp_mono; [apply (sync_loop_spec ps a); [done|done|lia]| |done].
    intros [] s2 [Hinv2 Hm2]. apply iwp_env. eapply iwp_mono; [apply fn_sync_law| |].
    + intros [] w (Hf & _ & Hp). split; [congruence|]. intros _. split; [|done].
      destruct (inv_same _ _ _ _ Hinv2 Hf Hp) as [Hw3 [Hl Hb _]]. split; [done|].
      split; simpl; [done|done|]. intros _ pn. rewrite Hm2, lookup_empty. by intros [? ?].
    + intros e w He. eapply wf_fails; [apply Hinv2|done].
Qed.

End ops.

(** * Histories of a cached file

    Any sequence of operations on a cached file, with anything happening outside in between that
    leaves the node and the pages alone, and with failures of the outside at any point.  The
    specification of a file moves along; after a failure only its length is known.  The theorems
    state what every operation does in every such history. *)

(** The operations.  [OTruncate] is the truncation by [open], which does not go through the cache;
    [OLoad] is the loading of a page by a memory mapping. *)
Inductive op : Type :=
| ORead (off : Z) | OWrite (off : Z) | OAppend | OSetLen (n : Z) | OSync (data_only : bool)
| OTruncate | OLoad (pn : Z).

Section history.
Context {C W : Type} {Lru : LruCache C PageCache} {LL : LruLaws C PageCache}.
Context {Env : CacheEnv W} {im : bool} {EL : CacheEnvLaws W im}.
Local Notation state := (CachedFile C W).
Local Notation cmap s := (lru_map (page_cache s)).

Definition exec (o : op) : io VfsError state Z :=
  match o with
  | ORead off => read_at off
  | OWrite off => write_at off
  | OAppend => append ≫= fun r => mret r.1
  | OSetLen n => set_len n ≫= fun _ => mret 0
  | OSync b => sync b ≫= fun _ => mret 0
  | OTruncate => env (fn_as_file ≫= fun _ => fn_set_len 0) ≫= fun _ => mret 0
  | OLoad pn =>
      with_page_or_insert pn (fun p evicted => drop_evicted evicted ≫= fun _ => mret (Ok 0, p))
  end.

(** The file after an operation that succeeds; [src] is what the caller wants written. *)
Definition spec (o : op) (a : afile) (src : list Z) : afile :=
  match o with
  | ORead _ => a
  | OWrite off => a_write off src a
  | OAppend => a_write (alen a) src a
  | OSetLen n => a_set_len n a
  | OSync _ => if im then a else a_sync a
  | OTruncate => a_forget 0
  | OLoad pn => mk_afile (alen a) (abyte a) (tidy a && (pn * PAGE_SIZE <=? alen a))
  end.

(** Offsets are [u64] and page numbers [u32]. *)
Definition in_range (o : op) (a : afile) (w : W) : Prop :=
  match o with
  | ORead off => 0 <= off /\ off + dst_remaining w <= u64_max /\ alen a <= max_end
  | OWrite off => 0 <= off /\ off + Z.of_nat (length (source view w)) <= max_end
  | OAppend => alen a + Z.of_nat (length (source view w)) <= max_end
  | OSetLen n => 0 <= n < 2 ^ 44 /\ alen a < 2 ^ 44
  | OSync _ | OTruncate => True
  | OLoad pn => 0 <= pn < 2 ^ 32
  end.

(** What the caller gets. *)
Definition delivers (o : op) (a : afile) (w : W) (n : Z) (w' : W) : Prop :=
  match o with
  | ORead off => exists bs, a_reads a off (dst_remaining w) bs /\ n = Z.of_nat (length bs) /\
                            sunk view w' = sunk view w ++ bs
  | OWrite _ | OAppend => n = Z.of_nat (length (source view w))
  | _ => n = 0
  end.

(** A file that has just been opened, with nothing cached. *)
Definition opened (a : afile) (s : state) : Prop :=
  in_memory s = im /\ page_cache s = shared_new im /\ held view (ext s) = [] /\
  alen a = flen view (ext s) /\ forall i x, abyte a i = Some x -> x = fbyte view (ext s) i.

Inductive history : afile -> state -> Prop :=
| h_open a s : opened a s -> history a s
| h_outside a s w' :
    history a s -> same_file view (ext s) w' -> same_pages view (ext s) w' -> history a (set_ext w' s)
| h_op a s o n s' :
    history a s -> in_range o a (ext s) -> exec o s = (ROk n, s') ->
    history (spec o a (source view (ext s))) s'
| h_fail a s o e s' :
    history a s -> in_range o a (ext s) -> exec o s = (RErr e, s') ->
    history (a_forget (flen view (ext s'))) s'.

(** ** Every operation preserves the invariant *)

Lemma opened_inv a s : opened a s -> inv [] a s.
Proof.
  intros (Him & Hc & Hh & Hl & Hb). destruct (lru_new_law (if im then usize_max else 64)) as [Hm Hcap].
  split.
  - split; rewrite ?Hc; unfold shared_new; rewrite ?Hm, ?Hcap.
    + done.
    + apply map_Forall_empty.
    + rewrite map_size_empty. by destruct im.
    + done.
    + by rewrite Hh.
  - rewrite Hc. unfold shared_new. rewrite Hm. split; [done| |].
    + intros i x _ Hx. unfold byte_ok. rewrite lookup_empty. by rewrite (Hb i x Hx).
    + intros _ pn [p Hp]. by rewrite lookup_empty in Hp.
Qed.

Lemma broken_forget ps s : broken ps s -> inv ps (a_forget (flen view (ext s))) s.
Proof. intros [Hw _]. by split. Qed.

Lemma truncate_spec ps a s :
  inv ps a s ->
  iwp (env (fn_as_file ≫= fun _ => fn_set_len 0)) (fun _ s' => inv ps (a_forget 0) s')
    (fun _ s' => broken ps s') s.
Proof.
  intros [Hw Hr]. apply iwp_env, iwp_bind. eapply iwp_mono; [apply fn_as_file_law| |].
  - intros [] w (_ & _ & Hp). eapply iwp_mono; [by apply fn_set_len_law| |].
    + intros [] w' (Hl & _ & _ & Hp'). split; [|by split]. apply wf_same_pages; [done|]. by unfold same_pages; rewrite Hp'.
    + intros e w' [Hf Hp']. split; [|done]. apply wf_same_pages; [done|]. by unfold same_pages; rewrite Hp'.
  - intros e w He. by eapply wf_fails.
Qed.

Lemma load_spec ps a pn s :
  inv ps a s -> 0 <= pn < 2 ^ 32 ->
  iwp (exec (OLoad pn)) (fun n s' => n = 0 /\ inv ps (spec (OLoad pn) a []) s') (fun _ s' => broken ps s') s.
Proof.
  intros Hinv Hpn. unfold exec, with_page_or_insert. apply iwp_bind.
  eapply iwp_mono; [apply (as_file_spec ps); apply Hinv| |done].
  intros [] s1 Hs1. pose proof (still_inv _ _ _ _ Hinv Hs1) as [Hw1 Hr1].
  assert (Hinv1 : inv ps (spec (OLoad pn) a []) s1).
  { split; [done|]. eapply repr_weaken; [done..| |done]. by intros [? _]%andb_true_iff. }
  apply iwp_bind. eapply iwp_mono; [apply page_or_insert_spec; [exact Hinv1|done|]| |done].
  { simpl. intros [_ ?%Z.leb_le]%andb_true_iff. done. }
  intros [p o] s2 (Hinv2 & Hp & _). apply iwp_bind, iwp_bind. eapply drop_evicted_spec; [exact Hinv2|].
  intros w' Hinv3 _. apply iwp_ret, iwp_bind, iwp_lru, iwp_ret. split; [done|]. by apply store_same.
Qed.

Lemma exec_spec a o s :
  inv [] a s -> in_range o a (ext s) ->
  iwp (exec o) (fun n s' => inv [] (spec o a (source view (ext s))) s' /\ delivers o a (ext s) n (ext s'))
    (fun _ s' => broken [] s') s.
Proof.
  intros Hinv Hin. destruct o as [off|off| |n|b| |pn]; simpl in Hin; cbn [exec].
  - eapply iwp_mono; [apply (read_at_spec [] a); tauto| |done]. by intros n s' [? ?].
  - eapply iwp_mono; [apply (write_at_locked_spec [] a); tauto| |done]. by intros n s' [-> ?].
  - apply iwp_bind. eapply iwp_mono; [apply (append_spec [] a); tauto| |done].
    intros r s' [-> ?]. by apply iwp_ret.
  - apply iwp_bind. eapply iwp_mono; [apply (set_len_spec [] a); tauto| |done].
    intros [] s' ?. by apply iwp_ret.
  - apply iwp_bind. eapply iwp_mono; [by apply (sync_spec [] a)| |done].
    intros [] s' [Ht Hf]. apply iwp_ret. split; [|done]. simpl.
    destruct (decide (im = true)) as [Him|Him%not_true_is_false].
    + assert (Heq : forall x y : afile, (if im then x else y) = x) by (by rewrite Him). rewrite Heq, Ht; done.
    + assert (Heq : forall x y : afile, (if im then x else y) = y) by (by rewrite Him). rewrite Heq. by apply Hf.
  - apply iwp_bind. eapply iwp_mono; [by eapply truncate_spec| |done]. intros [] s' ?. by apply iwp_ret.
  - eapply iwp_mono; [by apply (load_spec [] a)| |done]. by intros n s' [-> ?].
Qed.

Lemma history_inv a s : history a s -> inv [] a s.
Proof.
  induction 1 as [a s Ho|a s w' _ IH Hf Hp|a s o n s' _ IH Hin Hrun|a s o e s' _ IH Hin Hrun].
  - by apply opened_inv.
  - by apply inv_same.
  - by apply (iwp_ok _ _ _ _ _ _ (exec_spec _ _ _ IH Hin)) in Hrun as [? _].
  - apply (iwp_err _ _ _ _ _ _ (exec_spec _ _ _ IH Hin)) in Hrun. by apply broken_forget.
Qed.

(** ** What a cached file promises *)


(** C21: After a successful flush of a file that does not live in memory (tmpfs keeps its pages),
    the file node has the length of the file, every byte the history promises is in the node, and no
    page is held.  What a history promises is what [spec] says; of the bytes that it leaves open,
    nothing is said. *)
Theorem sync_is_durable a s b s' :
  im = false -> history a s -> sync b s = (ROk (), s') ->
  flen view (ext s') = alen a /\ held view (ext s') = [] /\
  forall i x, 0 <= i < alen a -> abyte a i = Some x -> fbyte view (ext s') i = x.
Proof.
  intros Him Hh Hrun. apply (iwp_ok _ _ _ _ _ _ (sync_spec [] a b s (history_inv _ _ Hh))) in Hrun as [_ Hs].
  destruct (Hs Him) as [[Hw [Hl Hb _]] Hm]. split_and!; [done| |].
  - pose proof (wf_held _ _ Hw) as Hh1. rewrite Hm in Hh1. by apply Permutation_nil_r in Hh1.
  - intros i x Hi Hx. specialize (Hb i x Hi Hx). unfold byte_ok in Hb. by rewrite Hm, lookup_empty in Hb.
Qed.

(** In any history, failed operations included, the pages held from the allocator are exactly
    the cached ones, each once: none leaks and none is freed while cached.  A file that does not
    live in memory holds at most 64, and no page of one that does is ever dirty. *)
Theorem cached_pages_are_owned a s :
  history a s ->
  held view (ext s) ≡ₚ cached_addrs (cmap s) /\
  (im = false -> Z.of_nat (length (held view (ext s))) <= 64) /\
  (im = true -> map_Forall (fun _ p => dirty p = false) (cmap s)).
Proof.
  intros [Hw _]%history_inv. pose proof (wf_held _ _ Hw) as Hh. split_and!; [done| |].
  - intros Him. rewrite Hh. simpl. unfold cached_addrs. rewrite length_fmap, length_map_to_list.
    pose proof (wf_size _ _ Hw) as Hs. rewrite (wf_cap _ _ Hw), Him in Hs. done.
  - intros Him pn p Hp. by apply (wf_pages _ _ Hw _ _ Hp).
Qed.

End history.
