(* ===== verification/Tmpfs.v ===== *)
(** * tmpfs

    [kernel/src/pseudofs/tmp.rs]: a file system in memory.  Inodes live in a slab and are referred
    to by number from directory entries ([InodeRef], which count as links) and by pointer from the
    nodes the VFS holds ([MemoryNode]).  An inode is removed from the slab when its last link goes
    and no node holds it, or when its last node goes and it has no links.

    The reference count of an inode's [Arc] is one for the slab, one for every node, and one for
    each temporary the running code holds; removal is guarded by that count, so that an inode
    number stands for the same inode as long as a node holds it.  File contents are in the page
    cache; the inode only has their length.

    Operations run one at a time.  Of the locks they take, those on the entries of a directory
    matter: two operations lock the entries of a second directory while they hold those of the
    first, and a mutex that its owner locks again panics ([lock_entries]).  The locks on the slab
    and on metadata are released before the next one of their kind is taken.

    The [slab] crate is the parameter [vacant_key]. *)

From S2P Require Import Prelude Io PageCache FileApi.

(** ** Contents of files *)

(** [FileNodeOps] of a file: its data is left to the page cache, except for symbolic links. *)
Definition content_read_at {W} (symlink : option (list Z)) (len offset : Z) : io VfsError W (list Z) :=
  match symlink with
  | Some target => _ ← iassert (offset =? 0); mret (take (Z.to_nat len) target)
  | None => ipanic
  end.
Definition content_write_at {W} (bs : list Z) (offset : Z) : io VfsError W Z := ipanic.
Definition content_append {W} (bs : list Z) : io VfsError W (Z * Z) := ipanic.

(** ** State *)

(** [FileContent] and [DirContent]. *)
Inductive NodeContent : Type :=
| File_ (length : Z) (symlink : option (list Z))
| Dir (entries : gmap string Z).

Record Metadata : Type := mk_metadata {
  nlink : Z;
  mode : Z;
  node_type : NodeType;
  uid : Z;
  gid : Z;
  atime : Z;
  mtime : Z;
}.

Record Inode : Type := mk_inode { metadata : Metadata; content : NodeContent }.

(** [MemoryFs] with the nodes that point into it. *)
Record MemoryFs : Type := mk_fs {
  inodes : gmap Z Inode;
  nodes : gmap positive Z;
}.

Definition set_inodes (f : gmap Z Inode -> gmap Z Inode) (fs : MemoryFs) : MemoryFs :=
  mk_fs (f (inodes fs)) (nodes fs).
Definition set_nodes (f : gmap positive Z -> gmap positive Z) (fs : MemoryFs) : MemoryFs :=
  mk_fs (inodes fs) (f (nodes fs)).

Definition set_nlink (n : Z) (i : Inode) : Inode :=
  let m := metadata i in
  mk_inode (mk_metadata n (mode m) (node_type m) (uid m) (gid m) (atime m) (mtime m)) (content i).
Definition set_content (c : NodeContent) (i : Inode) : Inode := mk_inode (metadata i) c.

(** [slab::Slab::vacant_entry().key()]. *)
Class Slab : Type := {
  vacant_key : gmap Z Inode -> Z;
  vacant_key_free m : m !! vacant_key m = None;
  vacant_key_pos m : 1 <= vacant_key m;
}.

Section tmpfs.
Context {SL : Slab}.
Local Notation M := (io VfsError MemoryFs).

(** [MemoryFs::get]: indexing the slab with a number that is not there panics. *)
Definition get (ino : Z) : M Inode := iget (fun fs => inodes fs !! ino) ≫= iunwrap.
Definition update (ino : Z) (f : Inode -> Inode) : M () := iset (set_inodes (alter f ino)).

(** [Arc::strong_count], with [tmp] temporary references. *)
Definition strong_count (ino tmp : Z) (fs : MemoryFs) : Z :=
  1 + Z.of_nat (size (filter (fun kv => kv.2 = ino) (nodes fs))) + tmp.

(** [release_inode], with whether the inode was removed; the subtraction must not underflow. *)
Definition release_inode (ino links tmp : Z) : M bool :=
  i ← get ino;
  _ ← iassert (links <=? nlink (metadata i));
  _ ← update ino (set_nlink (nlink (metadata i) - links));
  count ← iget (strong_count ino tmp);
  if (nlink (metadata i) - links =? 0) && (count =? 2)
  then _ ← iset (set_inodes (delete ino)); mret true
  else mret false.

(** [InodeRef::new]. *)
Definition inode_ref_new (ino : Z) : M () :=
  i ← get ino; update ino (set_nlink (nlink (metadata i) + 1)).

(** The inodes that the entries of a directory refer to. *)
Definition entry_refs (c : NodeContent) : list Z :=
  match c with Dir es => (map_to_list es).*2 | File_ _ _ => [] end.

(** [Drop for InodeRef].  When the inode is removed, the temporary that [get] returned is its last
    reference, and dropping it drops the entries it still has. *)
Fixpoint ref_drop (fuel : nat) (ino : Z) : M () :=
  match fuel with
  | O => idiverge
  | S fuel =>
      i ← get ino;
      removed ← release_inode ino 1 1;
      if (removed : bool) then iter_list (ref_drop fuel) (entry_refs (content i)) else mret ()
  end.

(** Every nested drop has removed an inode. *)
Definition inode_ref_drop (ino : Z) : M () :=
  n ← iget (fun fs => size (inodes fs)); ref_drop (S n) ino.

Definition as_file (i : Inode) : result VfsError (Z * option (list Z)) :=
  match content i with File_ l s => Ok (l, s) | Dir _ => Err IsADirectory end.
Definition as_dir (i : Inode) : result VfsError (gmap string Z) :=
  match content i with Dir es => Ok es | File_ _ _ => Err NotADirectory end.

(** [entries.insert(name, entry)]: an entry of that name is replaced and dropped. *)
Definition entries_insert (dir : Z) (name : string) (ino : Z) : M () :=
  i ← get dir;
  match content i with
  | Dir es =>
      _ ← update dir (set_content (Dir (<[name := ino]> es)));
      match es !! name with Some old => inode_ref_drop old | None => mret () end
  | File_ _ _ => ipanic
  end.

(** [entries.remove(name)], leaving the entry to the caller. *)
Definition entries_take (dir : Z) (name : string) : M (option Z) :=
  i ← get dir;
  match content i with
  | Dir es => _ ← update dir (set_content (Dir (delete name es))); mret (es !! name)
  | File_ _ _ => ipanic
  end.

(** [Inode::new].  A directory gets its links to itself and to its parent. *)
Definition inode_new (parent : option Z) (ty : NodeType) (permission : Z) : M Z :=
  ino ← iget (fun fs => vacant_key (inodes fs));
  let c := match ty with Directory => Dir ∅ | _ => File_ 0 None end in
  _ ← iset (set_inodes (<[ino := mk_inode (mk_metadata 0 permission ty 0 0 0 0) c]>));
  match ty with
  | Directory =>
      let up := default ino parent in
      _ ← inode_ref_new ino;
      _ ← entries_insert ino "." ino;
      _ ← inode_ref_new up;
      _ ← entries_insert ino ".." up;
      mret ino
  | _ => mret ino
  end.

(** [MemoryNode::new], as [new_entry] uses it: a node for the inode. *)
Definition node_new (ino : Z) : M positive :=
  n ← iget (fun fs => fresh (dom (nodes fs)));
  _ ← iset (set_nodes (<[n := ino]>));
  mret n.

Definition node_inode (n : positive) : M Z := iget (fun fs => nodes fs !! n) ≫= iunwrap.

(** ** Operations of a node *)

(** [lookup]. *)
Definition lookup_entry (n : positive) (name : string) : M positive :=
  ino ← node_inode n;
  i ← get ino;
  es ← iresult (as_dir i);
  child ← iresult (ok_or (es !! name) NotFound);
  _ ← get child;
  node_new child.

Definition create (n : positive) (name : string) (ty : NodeType) (permission : Z) : M positive :=
  ino ← node_inode n;
  i ← get ino;
  es ← iresult (as_dir i);
  if bool_decide (is_Some (es !! name)) then throw AlreadyExists
  else
    child ← inode_new (Some ino) ty permission;
    _ ← inode_ref_new child;
    _ ← entries_insert ino name child;
    node_new child.

(** [entries.lock()] of the directory [ino], with those of [held] locked. *)
Definition lock_entries (held ino : Z) : M () := iassert (negb (ino =? held)).

(** [target.metadata()] asks for the size of a directory. *)
Definition link (n : positive) (name : string) (target : positive) : M positive :=
  ino ← node_inode n;
  i ← get ino;
  es ← iresult (as_dir i);
  tino ← node_inode target;
  if bool_decide (is_Some (es !! name)) then throw AlreadyExists
  else
    t ← get tino;
    _ ← match content t with Dir _ => lock_entries ino tino | File_ _ _ => mret () end;
    _ ← inode_ref_new tino;
    _ ← entries_insert ino name tino;
    node_new tino.

Definition unlink (n : positive) (name : string) : M () :=
  ino ← node_inode n;
  i ← get ino;
  es ← iresult (as_dir i);
  child ← iresult (ok_or (es !! name) NotFound);
  c ← get child;
  full ← match content c with
         | Dir ces => _ ← lock_entries ino child; mret (2 <? Z.of_nat (size ces))
         | File_ _ _ => mret false
         end;
  if (full : bool) then throw DirectoryNotEmpty
  else
    o ← entries_take ino name;
    match o with Some old => inode_ref_drop old | None => mret () end.

(** [Drop for MemoryNode]: the entries of a directory are cleared, in the map's order. *)
Definition node_drop (n : positive) : M () :=
  ino ← node_inode n;
  i ← get ino;
  _ ← match content i with
      | Dir es =>
          _ ← update ino (set_content (Dir ∅));
          iter_list inode_ref_drop (entry_refs (Dir es))
      | File_ _ _ => mret ()
      end;
  _ ← release_inode ino 0 0;
  iset (set_nodes (delete n)).

(** [rename].  [found] is the inode number of the entry that the lookup of [dst_name] by the VFS
    finds, if any.  The lookup of [src_name] is this file system's own: the node it creates is
    dropped at the end of the block. *)
Definition rename (n : positive) (src_name : string) (dst : positive) (dst_name : string)
    (found : option Z) : M () :=
  same ← match found with
         | Some dst_ino =>
             s ← lookup_entry n src_name;
             src_ino ← node_inode s;
             _ ← node_drop s;
             mret (dst_ino =? src_ino)
         | None => mret false
         end;
  if (same : bool) then mret ()
  else
    ino ← node_inode n;
    i ← get ino;
    _ ← iresult (as_dir i);
    o ← entries_take ino src_name;
    entry ← iresult (ok_or o NotFound);
    dino ← node_inode dst;
    d ← get dino;
    _ ← on_err (inode_ref_drop entry) (iresult (as_dir d));
    entries_insert dino dst_name entry.

(** ** Files *)

(** [metadata]: with the size filled in. *)
Definition node_size (n : positive) : M Z :=
  ino ← node_inode n;
  i ← get ino;
  mret match content i with File_ l _ => l | Dir es => Z.of_nat (size es) end.

Record MetadataUpdate : Type := mk_update {
  u_mode : option Z;
  u_owner : option (Z * Z);
  u_atime : option Z;
  u_mtime : option Z;
}.

Definition update_metadata (n : positive) (u : MetadataUpdate) : M () :=
  ino ← node_inode n;
  _ ← get ino;
  update ino (fun i =>
    let m := metadata i in
    let owner := default (uid m, gid m) (u_owner u) in
    mk_inode (mk_metadata (nlink m) (default (mode m) (u_mode u)) (node_type m) owner.1 owner.2
                          (default (atime m) (u_atime u)) (default (mtime m) (u_mtime u)))
             (content i)).

Definition node_read_at (n : positive) (len offset : Z) : M (list Z) :=
  ino ← node_inode n;
  i ← get ino;
  '(_, symlink) ← iresult (as_file i);
  content_read_at symlink len offset.

Definition node_write_at (n : positive) (bs : list Z) (offset : Z) : M Z := content_write_at bs offset.
Definition node_append (n : positive) (bs : list Z) : M (Z * Z) := content_append bs.

Definition node_set_len (n : positive) (len : Z) : M () :=
  ino ← node_inode n;
  i ← get ino;
  '(_, symlink) ← iresult (as_file i);
  update ino (set_content (File_ len symlink)).

Definition node_set_symlink (n : positive) (target : list Z) : M () :=
  ino ← node_inode n;
  i ← get ino;
  _ ← iresult (as_file i);
  update ino (set_content (File_ (Z.of_nat (length target)) (Some target))).

(** [MemoryFs::new]: the root directory and a node for it. *)
Definition fs_new : M positive :=
  root ← inode_new None Directory 0x1ed;
  node_new root.

Definition fs_empty : MemoryFs := mk_fs ∅ ∅.

End tmpfs.

(** A concrete slab. *)
Definition next_ino (m : gmap Z Inode) : Z := 1 + foldr Z.max 0 (map_to_list m).*1.

Lemma foldr_max_le (l : list Z) x : x ∈ l -> x <= foldr Z.max 0 l.
Proof. induction l as [|y l IH]; simpl; [by intros ?%not_elem_of_nil|]. intros [->|?%IH]%elem_of_cons; lia. Qed.

#[export] Instance sim_slab : Slab.
Proof.
  refine {| vacant_key := next_ino |}; intros m; unfold next_ino.
  - apply eq_None_not_Some. intros [i Hi]. assert (Hin : 1 + foldr Z.max 0 (map_to_list m).*1 ∈ (map_to_list m).*1).
    { apply list_elem_of_fmap. eexists (_, i). split; [done|]. by apply elem_of_map_to_list. }
    apply foldr_max_le in Hin. lia.
  - assert (0 <= foldr Z.max 0 (map_to_list m).*1); [|lia]. generalize (map_to_list m).*1.
    intros l. induction l; simpl; lia.
Defined.
