(* ===== verification/TmpfsLinks.v ===== *)
(** * Links of tmpfs

    The invariant of the inodes of [Tmpfs]: the link count of every inode is the number of directory
    entries that refer to it, every entry and every node refers to an inode of the slab.  Every
    operation on live nodes preserves it, and with it panics exactly on the misuses listed.
    [linked X] also counts the references [X] that running code holds. *)

From S2P Require Import Prelude Io PageCache FileApi Tmpfs.

#[local] Opaque iwp.

Definition links (ino : Z) (l : list Z) : Z := Z.of_nat (length (filter (.= ino) l)).

#[export] Instance links_proper ino : Proper ((≡ₚ) ==> (=)) (links ino).
Proof. intros l l' Hl. unfold links. by rewrite Hl. Qed.

Lemma links_app ino l l' : links ino (l ++ l') = links ino l + links ino l'.
Proof. unfold links. rewrite filter_app, length_app. lia. Qed.

Lemma links_cons ino x l : links ino (x :: l) = (if decide (x = ino) then 1 else 0) + links ino l.
Proof. unfold links. rewrite filter_cons. case_decide; simpl; lia. Qed.

Lemma links_pos ino l : ino ∈ l -> 0 < links ino l.
Proof. intros [l1 [l2 ->]]%list_elem_of_split. rewrite links_app, links_cons, decide_True by done. unfold links. lia. Qed.

Lemma links_nonneg ino l : 0 <= links ino l.
Proof. unfold links. lia. Qed.

(** All references from directory entries. *)
Definition all_refs (m : gmap Z Inode) : list Z :=
  map_to_list m ≫= fun kv => entry_refs (content kv.2).

Lemma all_refs_insert m k i :
  m !! k = None -> all_refs (<[k := i]> m) ≡ₚ entry_refs (content i) ++ all_refs m.
Proof. intros Hk. unfold all_refs. by rewrite map_to_list_insert. Qed.

Lemma all_refs_delete m k i :
  m !! k = Some i -> all_refs m ≡ₚ entry_refs (content i) ++ all_refs (delete k m).
Proof. intros Hk. unfold all_refs. by rewrite <-(map_to_list_delete m k i Hk). Qed.

Lemma all_refs_update m k i i' :
  m !! k = Some i ->
  all_refs (<[k := i']> m) ≡ₚ entry_refs (content i') ++ all_refs (delete k m).
Proof. intros Hk. rewrite <-insert_delete_eq. by apply all_refs_insert, lookup_delete_eq. Qed.

Record linked (X : list Z) (fs : MemoryFs) : Prop := {
  lk_count : map_Forall (fun ino i => nlink (metadata i) = links ino (all_refs (inodes fs) ++ X)) (inodes fs);
  lk_refs : Forall (fun ino => is_Some (inodes fs !! ino)) (all_refs (inodes fs) ++ X);
  lk_nodes : map_Forall (fun _ ino => is_Some (inodes fs !! ino)) (nodes fs);
}.

#[export] Instance linked_proper : Proper ((≡ₚ) ==> (=) ==> iff) linked.
Proof.
  intros X X' HX fs ? <-. split; intros [Hc Hr Hn]; split; try done.
  - intros ino i Hi. by rewrite (Hc ino i Hi), HX.
  - by rewrite <-HX.
  - intros ino i Hi. by rewrite (Hc ino i Hi), HX.
  - by rewrite HX.
Qed.

Lemma linked_ref X ino fs : linked (ino :: X) fs -> exists i, inodes fs !! ino = Some i /\ 1 <= nlink (metadata i).
Proof.
  intros [Hc Hr _]. rewrite Forall_forall in Hr. destruct (Hr ino) as [i Hi].
  { apply elem_of_app. right. by left. }
  exists i. split; [done|]. rewrite (Hc _ _ Hi).
  pose proof (links_pos ino (all_refs (inodes fs) ++ ino :: X)). rewrite elem_of_app in H. set_solver by lia.
Qed.

(** Only link counts went down and inodes were removed. *)
Definition shrinks (fs fs' : MemoryFs) : Prop :=
  nodes fs' = nodes fs /\ (size (inodes fs') <= size (inodes fs))%nat /\
  forall k i', inodes fs' !! k = Some i' -> exists i, inodes fs !! k = Some i /\ content i' = content i.

Lemma shrinks_refl fs : shrinks fs fs.
Proof. split_and!; eauto. Qed.

Lemma shrinks_trans fs1 fs2 fs3 : shrinks fs1 fs2 -> shrinks fs2 fs3 -> shrinks fs1 fs3.
Proof.
  intros (Hn & Hs & Hc) (Hn' & Hs' & Hc'). split_and!; [congruence|lia|].
  intros k i3 (i2 & Hi2 & ->)%Hc'. destruct (Hc k i2 Hi2) as (i1 & ? & ?). eauto.
Qed.

Section links.
Context {SL : Slab}.
Local Notation M := (io VfsError MemoryFs).

(** ** Rules *)

Lemma get_spec ino i fs (Q : Inode -> MemoryFs -> Prop) R :
  inodes fs !! ino = Some i -> Q i fs -> iwp (get ino) Q R fs.
Proof. intros Hi HQ. apply iwp_bind, iwp_get. rewrite Hi. by apply (iwp_ret i). Qed.

Lemma update_spec ino f i fs (Q : () -> MemoryFs -> Prop) R :
  inodes fs !! ino = Some i -> Q () (set_inodes (<[ino := f i]>) fs) -> iwp (update ino f) Q R fs.
Proof.
  intros Hi HQ. apply iwp_set. destruct fs as [m ns]. unfold set_inodes in *. simpl in *.
  replace (alter f ino m) with (<[ino := f i]> m); [done|].
  apply map_eq. intros j. destruct (decide (j = ino)) as [->|]; by simplify_map_eq.
Qed.

Lemma node_inode_spec n ino fs (Q : Z -> MemoryFs -> Prop) R :
  nodes fs !! n = Some ino -> Q ino fs -> iwp (node_inode n) Q R fs.
Proof. intros Hi HQ. apply iwp_bind, iwp_get. rewrite Hi. by apply (iwp_ret ino). Qed.

(** Changing one inode: its link count and entries move references between [X] and [X']. *)
Lemma linked_update X X' ino i i' fs :
  linked X fs -> inodes fs !! ino = Some i ->
  (forall k, links k (entry_refs (content i) ++ X) + (if decide (k = ino) then nlink (metadata i') - nlink (metadata i) else 0) =
     links k (entry_refs (content i') ++ X')) ->
  Forall (fun k => is_Some (inodes fs !! k)) (entry_refs (content i') ++ X') ->
  linked X' (set_inodes (<[ino := i']>) fs).
Proof.
  intros [Hc Hr Hn] Hi Hl Hf. pose proof (all_refs_delete _ _ _ Hi) as Hd.
  pose proof (all_refs_update _ _ _ i' Hi) as Hu. split; simpl.
  - intros k j Hj. rewrite Hu, links_app, links_app. specialize (Hl k). rewrite !links_app in Hl.
    destruct (decide (k = ino)) as [->|Hne].
    + rewrite lookup_insert_eq in Hj. simplify_eq. specialize (Hc _ _ Hi). cbv beta in Hc. rewrite Hd, !links_app in Hc. lia.
    + rewrite lookup_insert_ne in Hj by done. specialize (Hc _ _ Hj). cbv beta in Hc. rewrite Hd, !links_app in Hc. lia.
  - assert (Hmono : forall k, is_Some (inodes fs !! k) -> is_Some (<[ino:=i']> (inodes fs) !! k)).
    { intros k Hk. destruct (decide (k = ino)) as [->|]; [by rewrite lookup_insert_eq|by rewrite lookup_insert_ne]. }
    rewrite Hu. rewrite Hd in Hr. apply Forall_app in Hr as [[_ Hr]%Forall_app _]. apply Forall_app in Hf as [Hf1 Hf2].
    repeat (apply Forall_app; split); eapply Forall_impl; try done; simpl; eauto.
  - intros n k Hk. destruct (decide (k = ino)) as [->|]; [by rewrite lookup_insert_eq|rewrite lookup_insert_ne by done]. eauto.
Qed.

(** ** Dropping references *)

Lemma release_inode_spec X ino i fs :
  linked (ino :: X) fs -> inodes fs !! ino = Some i ->
  iwp (release_inode ino 1 1)
    (fun removed fs' => shrinks fs fs' /\
       if removed then linked (entry_refs (content i) ++ X) fs' /\ (size (inodes fs') < size (inodes fs))%nat
       else linked X fs')
    (fun _ _ => False) fs.
Proof.
  intros Hl Hi. destruct (linked_ref _ _ _ Hl) as (i2 & Hi2 & Hpos). simplify_eq.
  unfold release_inode. apply iwp_bind. eapply get_spec; [done|]. apply iwp_bind, iwp_assert; [lia|].
  apply iwp_bind. eapply update_spec; [done|]. apply iwp_bind, iwp_get.
  set (i' := set_nlink (nlink (metadata i) - 1) i).
  assert (Hl1 : linked X (set_inodes (<[ino := i']>) fs)).
  { eapply linked_update; [exact Hl|done| |].
    - intros k. simpl. rewrite !links_app, links_cons. destruct (decide (k = ino)) as [->|];
        [rewrite decide_True by done|rewrite decide_False by done]; lia.
    - pose proof (lk_refs _ _ Hl) as Hr. rewrite (all_refs_delete _ _ _ Hi) in Hr.
      rewrite !Forall_app in Hr. rewrite Forall_app. destruct Hr as [[? _] [_ ?]%Forall_cons]. done. }
  assert (Hs1 : shrinks fs (set_inodes (<[ino := i']>) fs)).
  { split_and!; [done|simpl; by rewrite map_size_insert_Some by done|]. simpl. intros k j Hj.
    destruct (decide (k = ino)) as [->|]; simplify_map_eq; eauto. }
  destruct (Z.eqb_spec (nlink (metadata i) - 1) 0) as [H0|]; [|by apply iwp_ret].
  destruct (Z.eqb_spec (strong_count ino 1 (set_inodes (<[ino:=i']>) fs)) 2) as [Hcount|]; [|by apply iwp_ret].
  apply iwp_bind, iwp_set, iwp_ret. simpl.
  assert (Hlook : <[ino:=i']> (inodes fs) !! ino = Some i') by apply lookup_insert_eq.
  pose proof (lk_count _ _ Hl1 _ _ Hlook) as Hz. simpl in Hz. rewrite H0 in Hz.
  assert (Hnot : ino ∉ all_refs (<[ino:=i']> (inodes fs)) ++ X).
  { intros Hin%links_pos. lia. }
  assert (Hnodes : forall n, nodes fs !! n <> Some ino).
  { intros n Hn. unfold strong_count in Hcount. simpl in Hcount.
    assert (size (filter (fun kv : positive * Z => kv.2 = ino) (nodes fs)) = 0%nat) as He by lia.
    apply map_size_empty_inv in He. eapply (map_filter_empty_not_lookup _ _ n ino) in He; done. }
  pose proof (all_refs_delete _ _ _ Hlook) as Hd. simpl in Hd.
  assert (Hsize : (size (delete ino (<[ino:=i']> (inodes fs))) < size (inodes fs))%nat).
  { rewrite map_size_delete_Some by done. rewrite map_size_insert_Some by done.
    assert (size (inodes fs) <> 0%nat) by (eapply map_size_ne_0_lookup_2; by eexists). lia. }
  split_and!; try done.
  - split_and!; [done|simpl; lia|]. simpl. intros k j [_ Hj]%lookup_delete_Some. by apply Hs1.
  - destruct Hl1 as [Hc Hr Hn]. simpl in *.
    assert (Hperm : all_refs (delete ino (<[ino:=i']> (inodes fs))) ++ entry_refs (content i) ++ X ≡ₚ
      all_refs (<[ino:=i']> (inodes fs)) ++ X) by (rewrite Hd; solve_Permutation).
    split; simpl.
    + intros k j [_ Hj]%lookup_delete_Some. by rewrite Hperm, (Hc _ _ Hj).
    + rewrite Hperm. rewrite Forall_forall in Hr |- *. intros k Hk.
      rewrite lookup_delete_ne by (intros ->; done). by apply Hr.
    + intros n k Hk. rewrite lookup_delete_ne by (intros ->; by eapply Hnodes). by eapply Hn.
Qed.

Lemma ref_drop_spec X fuel ino fs :
  linked (ino :: X) fs -> (size (inodes fs) < fuel)%nat ->
  iwp (ref_drop fuel ino) (fun _ fs' => linked X fs' /\ shrinks fs fs') (fun _ _ => False) fs.
Proof.
  revert X ino fs. induction fuel as [|fuel IH]; intros X ino fs Hl Hfuel; [lia|]. simpl.
  destruct (linked_ref _ _ _ Hl) as (i & Hi & _). apply iwp_bind. eapply get_spec; [done|].
  apply iwp_bind. eapply iwp_mono; [by apply (release_inode_spec X)| |done].
  intros [] fs1 [Hs1 Hl1]; [|by apply iwp_ret]. destruct Hl1 as [Hl1 Hsize].
  apply (iwp_iter_list _ (fun l fs' => linked (l ++ X) fs' /\ shrinks fs1 fs')).
  - intros k l fs2 [Hl2 Hs2]. eapply iwp_mono; [apply (IH (l ++ X)); [done|]| |done].
    { destruct Hs2 as (_ & ? & _). lia. }
    intros [] fs3 [Hl3 Hs3]. split; [done|]. by eapply shrinks_trans.
  - intros fs2 [Hl2 Hs2]. split; [done|]. by eapply shrinks_trans.
  - split; [done|apply shrinks_refl].
Qed.

Lemma inode_ref_drop_spec X ino fs :
  linked (ino :: X) fs ->
  iwp (inode_ref_drop ino) (fun _ fs' => linked X fs' /\ shrinks fs fs') (fun _ _ => False) fs.
Proof. intros Hl. apply iwp_bind, iwp_get. apply ref_drop_spec; [done|lia]. Qed.

(** An inode that a node holds survives, with its contents. *)
Lemma shrinks_held X fs fs' n ino i :
  shrinks fs fs' -> linked X fs' -> nodes fs !! n = Some ino -> inodes fs !! ino = Some i ->
  exists i', inodes fs' !! ino = Some i' /\ content i' = content i.
Proof.
  intros (Hn & _ & Hc) [_ _ Hnodes] Hnode Hi. rewrite <-Hn in Hnode. destruct (Hnodes _ _ Hnode) as [i' Hi'].
  destruct (Hc _ _ Hi') as (i2 & ? & ?). simplify_eq. eauto.
Qed.

(** ** Adding references *)

Lemma inode_ref_new_spec X ino i fs (Q : () -> MemoryFs -> Prop) R :
  linked X fs -> inodes fs !! ino = Some i ->
  (let i' := set_nlink (nlink (metadata i) + 1) i in
   linked (ino :: X) (set_inodes (<[ino := i']>) fs) -> Q () (set_inodes (<[ino := i']>) fs)) ->
  iwp (inode_ref_new ino) Q R fs.
Proof.
  intros Hl Hi HQ. apply iwp_bind. eapply get_spec; [done|]. eapply update_spec; [done|]. apply HQ.
  eapply linked_update; [done..| |].
  - intros k. simpl. rewrite !links_app, links_cons. destruct (decide (k = ino)) as [->|];
      [rewrite decide_True by done|rewrite decide_False by done]; lia.
  - pose proof (lk_refs _ _ Hl) as Hr. rewrite (all_refs_delete _ _ _ Hi) in Hr.
    rewrite !Forall_app in Hr. rewrite Forall_app, Forall_cons. destruct Hr as [[? _] ?]. split_and!; try done.
Qed.

Lemma entry_refs_insert (es : gmap string Z) name x :
  entry_refs (Dir (<[name := x]> es)) ≡ₚ x :: entry_refs (Dir (delete name es)).
Proof. simpl. rewrite <-insert_delete_eq, map_to_list_insert by apply lookup_delete_eq. done. Qed.

Lemma entry_refs_delete (es : gmap string Z) name x :
  es !! name = Some x -> entry_refs (Dir es) ≡ₚ x :: entry_refs (Dir (delete name es)).
Proof. intros Hx. simpl. by rewrite <-(map_to_list_delete es name x Hx). Qed.

(** A reference becomes an entry of a directory; the entry it replaces is dropped. *)
Lemma entries_insert_spec X dir d es name ino fs :
  linked (ino :: X) fs -> inodes fs !! dir = Some d -> content d = Dir es ->
  iwp (entries_insert dir name ino)
    (fun _ fs' => linked X fs' /\ shrinks (set_inodes (<[dir := set_content (Dir (<[name := ino]> es)) d]>) fs) fs')
    (fun _ _ => False) fs.
Proof.
  intros Hl Hd Hes. unfold entries_insert. apply iwp_bind. eapply get_spec; [done|]. rewrite Hes.
  apply iwp_bind. eapply update_spec; [done|].
  set (d' := set_content (Dir (<[name:=ino]> es)) d).
  pose proof (lk_refs _ _ Hl) as Hr. rewrite (all_refs_delete _ _ _ Hd), Hes, !Forall_app, Forall_cons in Hr.
  destruct Hr as [[Hr1 _] [Hr2 Hr3]].
  destruct (es !! name) as [old|] eqn:Hold.
  - rewrite (entry_refs_delete _ _ _ Hold), Forall_cons in Hr1. destruct Hr1 as [Ho Hr1].
    apply inode_ref_drop_spec. eapply linked_update; [exact Hl|done| |]; rewrite ?Hes; simpl content.
    + intros k. rewrite (entry_refs_delete _ _ _ Hold), entry_refs_insert. rewrite !links_app, !links_cons. simpl.
      repeat case_decide; simpl; lia.
    + rewrite entry_refs_insert. by rewrite Forall_app, !Forall_cons.
  - rewrite <-(delete_id es name) in Hr1 by done. apply iwp_ret. split; [|apply shrinks_refl].
    eapply linked_update; [exact Hl|done| |]; rewrite ?Hes; simpl content.
    + intros k. rewrite entry_refs_insert, (delete_id es name) by done. rewrite !links_app, !links_cons. simpl.
      repeat case_decide; simpl; lia.
    + rewrite entry_refs_insert. by rewrite Forall_app, !Forall_cons.
Qed.

Lemma entries_take_spec X dir d es name fs (Q : option Z -> MemoryFs -> Prop) R :
  linked X fs -> inodes fs !! dir = Some d -> content d = Dir es ->
  (let fs' := set_inodes (<[dir := set_content (Dir (delete name es)) d]>) fs in
   linked (match es !! name with Some x => [x] | None => [] end ++ X) fs' -> Q (es !! name) fs') ->
  iwp (entries_take dir name) Q R fs.
Proof.
  intros Hl Hd Hes HQ. unfold entries_take. apply iwp_bind. eapply get_spec; [done|]. rewrite Hes.
  apply iwp_bind. eapply update_spec; [done|]. apply iwp_ret, HQ.
  pose proof (lk_refs _ _ Hl) as Hr. rewrite (all_refs_delete _ _ _ Hd), Hes, !Forall_app in Hr.
  destruct Hr as [[Hr1 _] Hr2]. eapply linked_update; [exact Hl|done| |]; rewrite ?Hes; simpl content.
  - intros k. destruct (es !! name) as [x|] eqn:Hx.
    + rewrite (entry_refs_delete _ _ _ Hx), !links_app, !links_cons. simpl. rewrite ?links_cons. unfold links. simpl. repeat case_decide; simpl; lia.
    + rewrite (delete_id es) by done. simpl. repeat case_decide; simpl; lia.
  - destruct (es !! name) as [x|] eqn:Hx.
    + rewrite (entry_refs_delete _ _ _ Hx), Forall_cons in Hr1. rewrite Forall_app. simpl. rewrite Forall_cons. tauto.
    + rewrite (delete_id es) by done. by rewrite Forall_app.
Qed.

Lemma node_new_spec X ino i fs (Q : positive -> MemoryFs -> Prop) R :
  linked X fs -> inodes fs !! ino = Some i ->
  (forall n, nodes fs !! n = None -> linked X (set_nodes (<[n := ino]>) fs) -> Q n (set_nodes (<[n := ino]>) fs)) ->
  iwp (node_new ino) Q R fs.
Proof.
  intros [Hc Hr Hn] Hi HQ. unfold node_new. apply iwp_bind, iwp_get, iwp_bind, iwp_set, iwp_ret.
  apply HQ.
  - apply not_elem_of_dom. apply is_fresh.
  - split; simpl; try done. apply map_Forall_insert_2; [by eexists|done].
Qed.

(** Nothing was removed and old contents are the same. *)
Definition keeps (fs fs' : MemoryFs) : Prop :=
  nodes fs' = nodes fs /\
  forall k i, inodes fs !! k = Some i -> exists i', inodes fs' !! k = Some i' /\ content i' = content i.

Lemma keeps_links_trans fs1 fs2 fs3 : keeps fs1 fs2 -> keeps fs2 fs3 -> keeps fs1 fs3.
Proof.
  intros [Hn Hc] [Hn' Hc']. split; [congruence|]. intros k i (i2 & Hi2 & <-)%Hc.
  destruct (Hc' k i2 Hi2) as (i3 & ? & ?). eauto.
Qed.

Lemma keeps_insert ino i i' fs :
  inodes fs !! ino = Some i -> content i' = content i -> keeps fs (set_inodes (<[ino := i']>) fs).
Proof.
  intros Hi Hc. split; [done|]. simpl. intros k j Hj. destruct (decide (k = ino)) as [->|].
  - rewrite lookup_insert_eq. simplify_eq. eauto.
  - rewrite lookup_insert_ne by done. eauto.
Qed.

Lemma ref_new_spec X ino i fs :
  linked X fs -> inodes fs !! ino = Some i ->
  iwp (inode_ref_new ino) (fun _ fs' => linked (ino :: X) fs' /\ keeps fs fs') (fun _ _ => False) fs.
Proof.
  intros Hl Hi. eapply inode_ref_new_spec; [done..|]. intros i' Hl'. split; [done|]. by eapply keeps_insert.
Qed.

Lemma entries_insert_new X dir d es name ino fs :
  linked (ino :: X) fs -> inodes fs !! dir = Some d -> content d = Dir es -> es !! name = None ->
  iwp (entries_insert dir name ino)
    (fun _ fs' => linked X fs' /\ fs' = set_inodes (<[dir := set_content (Dir (<[name := ino]> es)) d]>) fs)
    (fun _ _ => False) fs.
Proof.
  intros Hl Hd Hes Hnone.
  assert (Hrun : entries_insert dir name ino fs =
    (ROk (), set_inodes (<[dir := set_content (Dir (<[name := ino]> es)) d]>) fs)).
  { unfold entries_insert, get, update, mbind, io_bind, iget, iset, iunwrap. rewrite Hd. simpl. rewrite Hes, Hnone.
    unfold mret, io_ret. destruct fs as [m ns]. unfold set_inodes. simpl in *. do 2 f_equal.
    apply map_eq. intros j. destruct (decide (j = dir)) as [->|]; by simplify_map_eq. }
  pose proof (entries_insert_spec _ _ _ _ name _ _ Hl Hd Hes) as Hs. pose proof Hs as Hs'.
  apply (iwp_ok _ _ _ _ _ _ Hs') in Hrun as Hl'. apply iwp_run in Hs as [(? & fs' & Hs & _)|(?&?&?&[])].
  apply iwp_run. left. rewrite Hrun. do 2 eexists. split; [done|]. by destruct Hl' as [? _].
Qed.

Lemma linked_alloc X ino i fs :
  linked X fs -> inodes fs !! ino = None -> nlink (metadata i) = 0 -> entry_refs (content i) = [] ->
  linked X (set_inodes (<[ino := i]>) fs).
Proof.
  intros [Hc Hr Hn] Hino Hl He. pose proof (all_refs_insert _ _ i Hino) as Hp. rewrite He in Hp.
  assert (Hmono : forall k, is_Some (inodes fs !! k) -> is_Some (<[ino:=i]> (inodes fs) !! k)).
  { intros k [j Hk]. rewrite lookup_insert_ne; [by eexists|]. intros ->. congruence. }
  assert (Hz : links ino (all_refs (inodes fs) ++ X) = 0).
  { rewrite Forall_forall in Hr. unfold links. destruct (filter _ _) as [|k l] eqn:Hf; [done|].
    assert (Hk : k ∈ filter (.= ino) (all_refs (inodes fs) ++ X)) by (rewrite Hf; by left).
    apply list_elem_of_filter in Hk as [-> Hk]. destruct (Hr _ Hk). congruence. }
  split; simpl.
  - intros k j Hj. rewrite Hp. simpl. destruct (decide (k = ino)) as [->|].
    + rewrite lookup_insert_eq in Hj. simplify_eq. congruence.
    + rewrite lookup_insert_ne in Hj by done. by apply Hc.
  - rewrite Hp. simpl. eapply Forall_impl; [done|]. eauto.
  - intros n k Hk. eauto.
Qed.

Lemma inode_new_spec X parent ty permission fs :
  linked X fs -> (forall p, parent = Some p -> is_Some (inodes fs !! p)) ->
  iwp (inode_new parent ty permission)
    (fun ino fs' => linked X fs' /\ keeps fs fs' /\ is_Some (inodes fs' !! ino)) (fun _ _ => False) fs.
Proof.
  intros Hl Hparent. unfold inode_new. apply iwp_bind, iwp_get, iwp_bind, iwp_set.
  set (ino := vacant_key (inodes fs)). pose proof (vacant_key_free (inodes fs)) as Hfree. fold ino in Hfree.
  set (c := match ty with Directory => Dir ∅ | _ => File_ 0 None end).
  set (i := mk_inode (mk_metadata 0 permission ty 0 0 0 0) c).
  set (fs1 := set_inodes (<[ino := i]>) fs).
  assert (Hl1 : linked X fs1) by (apply linked_alloc; [done|done|done|by destruct ty]).
  assert (Hk1 : keeps fs fs1).
  { split; [done|]. simpl. intros k j Hj. rewrite lookup_insert_ne by (intros ->; congruence). eauto. }
  assert (Hi1 : inodes fs1 !! ino = Some i) by apply lookup_insert_eq.
  destruct (decide (ty = Directory)) as [->|Hty].
  2:{ destruct ty; try done; apply iwp_ret; split_and!; try done; by eexists. }
  apply iwp_bind. eapply iwp_mono; [by eapply ref_new_spec| |done]. intros [] fs2 [Hl2 Hk2].
  destruct (proj2 Hk2 _ _ Hi1) as (i2 & Hi2 & Hc2).
  apply iwp_bind. eapply iwp_mono; [by eapply (entries_insert_new X ino i2 ∅)| |done]. intros [] fs3 [Hl3 ->].
  set (i3 := set_content (Dir (<["." := ino]> ∅)) i2). set (fs3 := set_inodes (<[ino := i3]>) fs2) in *.
  assert (Hkeep3 : keeps fs fs3).
  { split; [change (nodes fs2 = nodes fs); by rewrite (proj1 Hk2)|]. intros k j Hj. destruct (proj2 (keeps_links_trans _ _ _ Hk1 Hk2) k j Hj) as (j' & Hj' & ?).
    simpl. rewrite lookup_insert_ne by (intros <-; congruence). eauto. }
  assert (Hi3 : inodes fs3 !! ino = Some i3) by apply lookup_insert_eq.
  assert (Hup : is_Some (inodes fs3 !! default ino parent)).
  { destruct parent as [p|]; simpl; [|eexists; exact Hi3]. destruct (Hparent p eq_refl) as [j Hj].
    destruct (proj2 Hkeep3 p j Hj) as (j' & Hj' & _). eexists; exact Hj'. }
  destruct Hup as [u Hu]. apply iwp_bind. eapply iwp_mono; [by eapply ref_new_spec| |done]. intros [] fs4 [Hl4 Hk4].
  destruct (proj2 Hk4 _ _ Hi3) as (i4 & Hi4 & Hc4).
  apply iwp_bind. eapply iwp_mono; [by eapply (entries_insert_new X ino i4 (<["." := ino]> ∅))| |done].
  intros [] fs5 [Hl5 ->]. apply iwp_ret. split_and!; [done| |simpl; by rewrite lookup_insert_eq].
  split; [exact (eq_trans (proj1 Hk4) (proj1 Hkeep3))|]. intros k j Hj.
  destruct (proj2 (keeps_links_trans _ _ _ Hkeep3 Hk4) k j Hj) as (j' & Hj' & ?).
  simpl. rewrite lookup_insert_ne by (intros <-; congruence). eauto.
Qed.

(** ** Nodes *)

Lemma release_node_spec X n ino i fs :
  linked X fs -> nodes fs !! n = Some ino -> inodes fs !! ino = Some i -> entry_refs (content i) = [] ->
  iwp (_ ← release_inode ino 0 0; iset (set_nodes (delete n)))
    (fun _ fs' => linked X fs' /\ nodes fs' = delete n (nodes fs)) (fun _ _ => False) fs.
Proof.
  intros Hl Hn Hi He. pose proof (lk_count _ _ Hl _ _ Hi) as Hc. pose proof (links_nonneg ino (all_refs (inodes fs) ++ X)).
  apply iwp_bind. unfold release_inode. apply iwp_bind. eapply get_spec; [done|]. apply iwp_bind, iwp_assert; [simpl in Hc; lia|].
  apply iwp_bind. eapply update_spec; [done|]. apply iwp_bind, iwp_get. rewrite Z.sub_0_r.
  replace (set_nlink (nlink (metadata i)) i) with i by (by destruct i as [[] ?]).
  replace (set_inodes (<[ino:=i]>) fs) with fs by (destruct fs; unfold set_inodes; simpl in *; by rewrite insert_id).
  destruct ((nlink (metadata i) =? 0) && (strong_count ino 0 fs =? 2)) eqn:Htest.
  - apply andb_true_iff in Htest as [H0%Z.eqb_eq Hcount%Z.eqb_eq].
    apply iwp_bind, iwp_set, iwp_ret, iwp_set. split; [|done].
    assert (Honly : forall n' k, nodes fs !! n' = Some k -> n' <> n -> k <> ino).
    { intros n' k Hk Hne ->. unfold strong_count in Hcount.
      assert (Hsub : {[n := ino; n' := ino]} ⊆ filter (fun kv : positive * Z => kv.2 = ino) (nodes fs)).
      { apply insert_subseteq_l; [by apply map_lookup_filter_Some_2|]. apply map_singleton_subseteq_l. by apply map_lookup_filter_Some_2. }
      apply map_subseteq_size in Hsub. rewrite map_size_insert_None, map_size_singleton in Hsub by (by apply lookup_singleton_ne). lia. }
    assert (Hnot : ino ∉ all_refs (inodes fs) ++ X).
    { intros Hin%links_pos. simpl in Hc. lia. }
    pose proof (all_refs_delete _ _ _ Hi) as Hd. rewrite He in Hd. simpl in Hd.
    destruct Hl as [Hc' Hr Hnd]. split; simpl.
    + intros k j [_ Hj]%lookup_delete_Some. rewrite <-Hd. by apply Hc'.
    + rewrite <-Hd. rewrite Forall_forall in Hr |- *. intros k Hk. rewrite lookup_delete_ne by (intros ->; done). by apply Hr.
    + intros n' k [Hne Hk]%lookup_delete_Some. rewrite lookup_delete_ne by (intros <-; by eapply Honly). by eapply Hnd.
  - apply iwp_ret, iwp_set. split; [|done]. destruct Hl as [Hc' Hr Hnd]. split; simpl; try done.
    by apply map_Forall_delete.
Qed.

Lemma node_drop_spec X n ino fs :
  linked X fs -> nodes fs !! n = Some ino ->
  iwp (node_drop n) (fun _ fs' => linked X fs' /\ nodes fs' = delete n (nodes fs)) (fun _ _ => False) fs.
Proof.
  intros Hl Hn. destruct (lk_nodes _ _ Hl _ _ Hn) as [i Hi]. unfold node_drop.
  apply iwp_bind. eapply node_inode_spec; [done|]. apply iwp_bind. eapply get_spec; [done|]. apply iwp_bind.
  destruct (content i) as [l sl|es] eqn:Hc.
  { apply iwp_ret. eapply release_node_spec; try done. by rewrite Hc. }
  apply iwp_bind. eapply update_spec; [done|]. set (i1 := set_content (Dir ∅) i). set (fs1 := set_inodes (<[ino := i1]>) fs).
  assert (Hl1 : linked (entry_refs (Dir es) ++ X) fs1).
  { pose proof (lk_refs _ _ Hl) as Hr. rewrite (all_refs_delete _ _ _ Hi), Hc, !Forall_app in Hr.
    eapply linked_update; [done..| |]; rewrite ?Hc; simpl content.
    - intros k. simpl. rewrite map_to_list_empty. simpl. case_decide; lia.
    - simpl. rewrite map_to_list_empty. simpl. rewrite Forall_app. tauto. }
  eapply iwp_mono; [apply (iwp_iter_list _ (fun l fs' => linked (l ++ X) fs' /\ shrinks fs1 fs')
    _ (fun _ fs' => linked X fs' /\ shrinks fs1 fs') (fun _ _ => False))| |done].
  - intros k l fs2 [Hl2 Hs2]. eapply iwp_mono; [by apply (inode_ref_drop_spec (l ++ X))| |done].
    intros [] fs3 [Hl3 Hs3]. split; [done|]. by eapply shrinks_trans.
  - done.
  - split; [done|apply shrinks_refl].
  - intros [] fs2 [Hl2 Hs2]. destruct (shrinks_held X fs1 fs2 n ino i1) as (i2 & Hi2 & Hc2); try done.
    { apply lookup_insert_eq. }
    pose proof (proj1 Hs2) as Hnodes. simpl in Hnodes. rewrite <-Hnodes in Hn |- *.
    eapply release_node_spec; try done. rewrite Hc2. simpl. by rewrite map_to_list_empty.
Qed.

(** ** Operations *)

(** The operations of the file system, on nodes the VFS holds. *)
Inductive tmp_op : Type :=
| TLookup (n : positive) (name : string)
| TCreate (n : positive) (name : string) (ty : NodeType) (permission : Z)
| TLink (n : positive) (name : string) (target : positive)
| TUnlink (n : positive) (name : string)
| TRename (n : positive) (src_name : string) (dst : positive) (dst_name : string) (found : option Z)
| TDrop (n : positive)
| TRead (n : positive) (len offset : Z)
| TWrite (n : positive) (bs : list Z) (offset : Z)
| TAppend (n : positive) (bs : list Z)
| TSetLen (n : positive) (len : Z)
| TSymlink (n : positive) (target : list Z)
| TUpdate (n : positive) (u : MetadataUpdate).

Definition tmp_exec (o : tmp_op) : M () :=
  match o with
  | TLookup n name => lookup_entry n name ≫= fun _ => mret ()
  | TCreate n name ty p => create n name ty p ≫= fun _ => mret ()
  | TLink n name t => link n name t ≫= fun _ => mret ()
  | TUnlink n name => unlink n name
  | TRename n s d t f => rename n s d t f
  | TDrop n => node_drop n
  | TRead n len off => node_read_at n len off ≫= fun _ => mret ()
  | TWrite n bs off => node_write_at n bs off ≫= fun _ => mret ()
  | TAppend n bs => node_append n bs ≫= fun _ => mret ()
  | TSetLen n l => node_set_len n l
  | TSymlink n t => node_set_symlink n t
  | TUpdate n u => update_metadata n u
  end.

Definition op_nodes (o : tmp_op) : list positive :=
  match o with
  | TLookup n _ | TCreate n _ _ _ | TUnlink n _ | TDrop n | TRead n _ _ | TWrite n _ _ | TAppend n _ | TSetLen n _ | TSymlink n _ | TUpdate n _ => [n]
  | TLink n _ t => [n; t]
  | TRename n _ d _ _ => [n; d]
  end.

(** The nodes an operation uses are alive. *)
Definition live (o : tmp_op) (fs : MemoryFs) : Prop := Forall (fun n => is_Some (nodes fs !! n)) (op_nodes o).

(** The operations that panic: those on data, which are for the page cache, but for reading a
    symbolic link from its start; the removal of an entry of a directory that refers to the
    directory itself, such as ["."]; and a new link in a directory to itself. *)
Definition misuse (o : tmp_op) (fs : MemoryFs) : bool :=
  let inode n := ino ← nodes fs !! n; i ← inodes fs !! ino; Some (ino, content i) in
  match o with
  | TUnlink n name =>
      match inode n with Some (ino, Dir es) => bool_decide (es !! name = Some ino) | _ => false end
  | TLink n name t =>
      match inode n with
      | Some (ino, Dir es) => bool_decide (es !! name = None /\ nodes fs !! t = Some ino)
      | _ => false
      end
  | TRead n _ offset =>
      match inode n with
      | Some (_, File_ _ None) => true
      | Some (_, File_ _ (Some _)) => negb (offset =? 0)
      | _ => false
      end
  | TWrite _ _ _ | TAppend _ _ => true
  | _ => false
  end.

Local Notation sound m := (iwp m (fun _ fs' => linked [] fs') (fun _ fs' => linked [] fs')).

Lemma as_dir_Ok i es : as_dir i = Ok es -> content i = Dir es.
Proof. unfold as_dir. destruct (content i); congruence. Qed.

(** A node, its inode and, if it is a directory, its entries. *)
Lemma with_dir {A} n (k : Z -> gmap string Z -> M A) fs :
  linked [] fs -> is_Some (nodes fs !! n) ->
  (forall ino d es, nodes fs !! n = Some ino -> inodes fs !! ino = Some d -> content d = Dir es -> sound (k ino es) fs) ->
  sound (ino ← node_inode n; i ← get ino; es ← iresult (as_dir i); k ino es) fs.
Proof.
  intros Hl [ino Hn] Hk. destruct (lk_nodes _ _ Hl _ _ Hn) as [d Hd].
  apply iwp_bind. eapply node_inode_spec; [done|]. apply iwp_bind. eapply get_spec; [done|].
  apply iwp_bind, iwp_result; [|done]. intros es Hes. eapply Hk; try done. by apply as_dir_Ok.
Qed.

(** The entry of a directory refers to an inode. *)
Lemma entry_present fs ino d es name child :
  linked [] fs -> inodes fs !! ino = Some d -> content d = Dir es -> es !! name = Some child ->
  is_Some (inodes fs !! child).
Proof.
  intros Hl Hd Hes Hc. pose proof (lk_refs _ _ Hl) as Hr. rewrite (all_refs_delete _ _ _ Hd), Hes in Hr.
  rewrite (entry_refs_delete _ _ _ Hc) in Hr. by apply Forall_app in Hr as [[[? _]%Forall_cons _]%Forall_app _].
Qed.

Lemma lookup_sound n name fs (Q : positive -> MemoryFs -> Prop) :
  linked [] fs -> is_Some (nodes fs !! n) ->
  (forall s child fs', linked [] fs' -> nodes fs !! s = None -> nodes fs' = <[s := child]> (nodes fs) -> Q s fs') ->
  iwp (lookup_entry n name) Q (fun _ fs' => linked [] fs') fs.
Proof.
  intros Hl [ino Hn] HQ. destruct (lk_nodes _ _ Hl _ _ Hn) as [d Hd]. unfold lookup_entry.
  apply iwp_bind. eapply node_inode_spec; [done|]. apply iwp_bind. eapply get_spec; [done|].
  apply iwp_bind, iwp_result; [|done]. intros es Hes%as_dir_Ok. apply iwp_bind, iwp_result; [|done].
  intros child Hc. destruct (es !! name) as [c|] eqn:Hce; simplify_eq/=.
  destruct (entry_present _ _ _ _ _ _ Hl Hd Hes Hce) as [ci Hci].
  apply iwp_bind. eapply get_spec; [done|]. eapply node_new_spec; [done..|]. intros s Hs Hl'. by eapply HQ.
Qed.

Lemma add_entry_sound ino d es name child fs :
  linked [] fs -> inodes fs !! ino = Some d -> content d = Dir es -> es !! name = None ->
  is_Some (inodes fs !! child) ->
  sound (_ ← inode_ref_new child; _ ← entries_insert ino name child; node_new child) fs.
Proof.
  intros Hl Hd Hes Hnone [c Hc]. apply iwp_bind. eapply iwp_mono; [by eapply ref_new_spec| |done].
  intros [] fs1 [Hl1 Hk1]. destruct (proj2 Hk1 _ _ Hd) as (d1 & Hd1 & Hes1). rewrite Hes in Hes1.
  destruct (proj2 Hk1 _ _ Hc) as (c1 & Hc1 & _).
  apply iwp_bind. eapply iwp_mono; [by eapply (entries_insert_new [] ino d1 es)| |done]. intros [] fs2 [Hl2 ->].
  assert (Hin : is_Some (<[ino:=set_content (Dir (<[name:=child]> es)) d1]> (inodes fs1) !! child)).
  { destruct (decide (child = ino)) as [->|]; [by rewrite lookup_insert_eq|rewrite lookup_insert_ne by done; by eexists]. }
  destruct Hin as [c2 Hc2]. by eapply node_new_spec.
Qed.

Lemma create_sound n name ty p fs :
  linked [] fs -> is_Some (nodes fs !! n) -> sound (create n name ty p) fs.
Proof.
  intros Hl Hn. apply (with_dir n); [done..|]. intros ino d es Hnode Hd Hes.
  case_bool_decide as Hname; [by apply iwp_throw|]. apply eq_None_not_Some in Hname.
  apply iwp_bind. eapply iwp_mono; [apply (inode_new_spec []); [done|]| |done].
  { intros q [= <-]. by eexists. }
  intros child fs1 (Hl1 & Hk1 & Hc1). destruct (proj2 Hk1 _ _ Hd) as (d1 & Hd1 & Hes1). rewrite Hes in Hes1.
  by eapply add_entry_sound.
Qed.

Lemma link_sound n name t fs :
  linked [] fs -> is_Some (nodes fs !! n) -> is_Some (nodes fs !! t) -> misuse (TLink n name t) fs = false ->
  sound (link n name t) fs.
Proof.
  intros Hl Hn [tino Ht] Hm. apply (with_dir n); [done..|]. intros ino d es Hnode Hd Hes.
  apply iwp_bind. eapply node_inode_spec; [done|]. case_bool_decide as Hname; [by apply iwp_throw|].
  apply eq_None_not_Some in Hname. destruct (lk_nodes _ _ Hl _ _ Ht) as [ti Hti].
  apply iwp_bind. eapply get_spec; [done|]. apply iwp_bind. unfold misuse in Hm. rewrite Hnode in Hm. simpl in Hm.
  rewrite Hd in Hm. simpl in Hm. rewrite Hes in Hm. apply bool_decide_eq_false in Hm.
  assert (Hne : tino <> ino) by (intros ->; by destruct Hm).
  destruct (content ti); [apply iwp_ret|apply iwp_assert; [apply negb_true_iff; by apply Z.eqb_neq|]]; by eapply add_entry_sound.
Qed.

Lemma unlink_sound n name fs :
  linked [] fs -> is_Some (nodes fs !! n) -> misuse (TUnlink n name) fs = false -> sound (unlink n name) fs.
Proof.
  intros Hl Hn Hm. apply (with_dir n); [done..|]. intros ino d es Hnode Hd Hes.
  apply iwp_bind, iwp_result; [|done]. intros child Hc. destruct (es !! name) as [c|] eqn:Hce; simplify_eq/=.
  destruct (entry_present _ _ _ _ _ _ Hl Hd Hes Hce) as [ci Hci].
  apply iwp_bind. eapply get_spec; [done|]. unfold misuse in Hm. rewrite Hnode in Hm. simpl in Hm.
  rewrite Hd in Hm. simpl in Hm. rewrite Hes in Hm. apply bool_decide_eq_false in Hm.
  apply iwp_bind. eapply (iwp_mono _ (fun _ fs' => fs' = fs) _ (fun _ _ => False)); [| |done].
  { destruct (content ci); [by apply iwp_ret|]. apply iwp_bind, iwp_assert; [|by apply iwp_ret].
    apply negb_true_iff, Z.eqb_neq. congruence. }
  intros full ? ->. destruct full; [by apply iwp_throw|]. apply iwp_bind. eapply entries_take_spec; [done..|]. rewrite Hce. intros fs' Hl'.
  eapply iwp_mono; [by apply (inode_ref_drop_spec [])| |done]. by intros [] fs2 [? _].
Qed.

Lemma move_entry_sound n src dst dname fs :
  linked [] fs -> is_Some (nodes fs !! n) -> is_Some (nodes fs !! dst) ->
  sound (ino ← node_inode n; i ← get ino; _ ← iresult (as_dir i);
         o ← entries_take ino src; entry ← iresult (ok_or o NotFound);
         dino ← node_inode dst; d ← get dino;
         _ ← on_err (inode_ref_drop entry) (iresult (as_dir d));
         entries_insert dino dname entry) fs.
Proof.
  intros Hl Hn [dino Hdst]. apply (with_dir n); [done..|]. intros ino d es Hnode Hd Hes.
  apply iwp_bind. eapply entries_take_spec; [done..|]. intros fs1 Hl1.
  apply iwp_bind, iwp_result; [|intros e He; destruct (es !! src); [done|exact Hl1]].
  intros entry He. destruct (es !! src) as [c|]; simplify_eq/=.
  assert (Hdst1 : nodes fs1 !! dst = Some dino) by done. destruct (lk_nodes _ _ Hl1 _ _ Hdst1) as [di Hdi].
  apply iwp_bind. eapply node_inode_spec; [done|]. apply iwp_bind. eapply get_spec; [exact Hdi|].
  apply iwp_bind, iwp_on_err, iwp_result.
  - intros des Hdes%as_dir_Ok. eapply iwp_mono; [by eapply (entries_insert_spec [] dino di des)| |done].
    by intros [] fs2 [? _].
  - intros e' _. eapply iwp_mono; [by apply (inode_ref_drop_spec [])|by intros [] ? [? _]|done].
Qed.

Lemma rename_sound n src dst dname found fs :
  linked [] fs -> is_Some (nodes fs !! n) -> is_Some (nodes fs !! dst) -> sound (rename n src dst dname found) fs.
Proof.
  intros Hl Hn Hdst. unfold rename. apply iwp_bind. destruct found as [dino|].
  2:{ apply iwp_ret. by apply move_entry_sound. }
  apply iwp_bind. apply lookup_sound; [done..|]. intros s child fs1 Hl1 Hs Hn1.
  assert (Hs1 : nodes fs1 !! s = Some child) by (rewrite Hn1; apply lookup_insert_eq).
  apply iwp_bind. eapply node_inode_spec; [done|]. apply iwp_bind.
  eapply iwp_mono; [by apply (node_drop_spec [] s child)| |done]. intros [] fs2 [Hl2 Hn2].
  rewrite Hn1, delete_insert_id in Hn2 by done. apply iwp_ret.
  destruct (dino =? child); [by apply iwp_ret|]. rewrite <-Hn2 in Hn, Hdst. by apply move_entry_sound.
Qed.

(** Changing an inode without its links. *)
Lemma update_sound ino i f fs :
  linked [] fs -> inodes fs !! ino = Some i -> nlink (metadata (f i)) = nlink (metadata i) ->
  entry_refs (content (f i)) = entry_refs (content i) -> sound (update ino f) fs.
Proof.
  intros Hl Hi Hn Hc. eapply update_spec; [done|]. eapply linked_update; [done..| |].
  - intros k. rewrite Hc, Hn. case_decide; lia.
  - pose proof (lk_refs _ _ Hl) as Hr. rewrite (all_refs_delete _ _ _ Hi), !Forall_app in Hr. rewrite Hc, Forall_app. tauto.
Qed.

Lemma file_update_sound n (f : Z -> option (list Z) -> NodeContent) fs :
  linked [] fs -> is_Some (nodes fs !! n) -> (forall l s, entry_refs (f l s) = []) ->
  sound (ino ← node_inode n; i ← get ino; '(l, s) ← iresult (as_file i); update ino (set_content (f l s))) fs.
Proof.
  intros Hl [ino Hn] Hf. destruct (lk_nodes _ _ Hl _ _ Hn) as [i Hi].
  apply iwp_bind. eapply node_inode_spec; [done|]. apply iwp_bind. eapply get_spec; [done|].
  apply iwp_bind, iwp_result; [|done]. intros [l s] He. unfold as_file in He.
  destruct (content i) eqn:Hc; simplify_eq. eapply update_sound; try done. simpl. by rewrite Hf, Hc.
Qed.

(** A node, its inode and, if it is a file, what it has. *)
Lemma read_sound n len offset fs :
  linked [] fs -> is_Some (nodes fs !! n) -> misuse (TRead n len offset) fs = false -> sound (node_read_at n len offset) fs.
Proof.
  intros Hl [ino Hn] Hm. destruct (lk_nodes _ _ Hl _ _ Hn) as [i Hi]. unfold misuse in Hm. rewrite Hn in Hm. simpl in Hm.
  rewrite Hi in Hm. simpl in Hm. apply iwp_bind. eapply node_inode_spec; [done|]. apply iwp_bind. eapply get_spec; [done|].
  apply iwp_bind, iwp_result; [|done]. intros [l s] He. unfold as_file in He. destruct (content i); simplify_eq.
  destruct s; [|done]. apply negb_false_iff in Hm. unfold content_read_at. apply iwp_bind, iwp_assert; [done|by apply iwp_ret].
Qed.

Lemma tmp_exec_sound o fs : linked [] fs -> live o fs -> misuse o fs = false -> sound (tmp_exec o) fs.
Proof.
  intros Hl Hlive Hm. unfold live in Hlive.
  destruct o as [n s|n s ty p|n s t|n s|n s d t f|n|n len off|n bs off|n bs|n l|n t|n u]; simpl in Hlive |- *; try discriminate Hm;
    repeat (apply Forall_cons in Hlive as [? Hlive]).
  - apply iwp_bind. apply lookup_sound; [done..|]. intros. by apply iwp_ret.
  - apply iwp_bind. eapply iwp_mono; [by apply create_sound| |done]. intros. by apply iwp_ret.
  - apply iwp_bind. eapply iwp_mono; [by apply link_sound| |done]. intros. by apply iwp_ret.
  - by apply unlink_sound.
  - by apply rename_sound.
  - match goal with H : is_Some _ |- _ => destruct H as [ino Hn] end.
    eapply iwp_mono; [by apply (node_drop_spec [] n ino)| |done]. by intros [] fs' [? _].
  - apply iwp_bind. eapply iwp_mono; [by apply read_sound| |done]. intros. by apply iwp_ret.
  - by apply (file_update_sound n (fun _ s => File_ l s)).
  - match goal with H : is_Some _ |- _ => destruct H as [ino Hn] end. destruct (lk_nodes _ _ Hl _ _ Hn) as [i Hi].
    apply iwp_bind. eapply node_inode_spec; [done|]. apply iwp_bind. eapply get_spec; [done|].
    apply iwp_bind, iwp_result; [|done]. intros [l sl] He. unfold as_file in He.
    destruct (content i) eqn:Hc; simplify_eq. eapply update_sound; try done. simpl. by rewrite Hc.
  - match goal with H : is_Some _ |- _ => destruct H as [ino Hn] end. destruct (lk_nodes _ _ Hl _ _ Hn) as [i Hi].
    apply iwp_bind. eapply node_inode_spec; [done|]. apply iwp_bind. eapply get_spec; [done|].
    eapply update_sound; try done. 
Qed.

(** The misuses panic. *)
Ltac run_node :=
  repeat match goal with
  | H : nodes _ !! _ = Some _ |- _ => rewrite H
  | H : inodes _ !! _ = Some _ |- _ => rewrite H
  | H : content _ = _ |- _ => rewrite H
  | |- _ => progress simpl
  end.

Lemma misuse_panics o fs : linked [] fs -> live o fs -> misuse o fs = true -> tmp_exec o fs = (RPanic, fs).
Proof.
  intros Hl Hlive. unfold live in Hlive. destruct o as [n s|n s ty p|n s t|n s|n s d t f|n|n len off|n bs off|n bs|n l|n t|n u];
    try done; simpl in Hlive; apply Forall_cons in Hlive as [[ino Hn] _]; unfold misuse; destruct (lk_nodes _ _ Hl _ _ Hn) as [i Hi];
    rewrite Hn; simpl; rewrite Hi; simpl.
  - destruct (content i) as [|es] eqn:Hc; [done|]. intros [Hs Ht]%bool_decide_eq_true.
    unfold link, node_inode, get, mbind, io_bind, iget, iunwrap, as_dir, lock_entries. run_node.
    rewrite (bool_decide_false (is_Some _)) by (rewrite Hs; by intros []). run_node. by rewrite Z.eqb_refl.
  - destruct (content i) as [|es] eqn:Hc; [done|]. intros Hs%bool_decide_eq_true.
    unfold unlink, node_inode, get, mbind, io_bind, iget, iunwrap, as_dir, lock_entries. run_node.
    rewrite Hs. run_node. by rewrite Z.eqb_refl.
  - unfold node_read_at, node_inode, get, mbind, io_bind, iget, iunwrap, as_file, content_read_at. run_node.
    destruct (content i) as [l [tg|]|es]; try done. simpl. unfold iassert. by destruct (off =? 0).
Qed.

(** A file system after any sequence of operations, successful or not, on live nodes, that are no
    misuse. *)
Inductive reaches : MemoryFs -> Prop :=
| r_new n fs : fs_new fs_empty = (ROk n, fs) -> reaches fs
| r_op fs o r fs' : reaches fs -> live o fs -> misuse o fs = false -> tmp_exec o fs = (r, fs') -> reaches fs'.

Lemma fs_new_linked n fs : fs_new fs_empty = (ROk n, fs) -> linked [] fs.
Proof.
  intros Hrun. assert (He : linked [] fs_empty).
  { split; simpl; try apply map_Forall_empty. unfold all_refs. by rewrite map_to_list_empty. }
  assert (Hw : iwp fs_new (fun _ fs' => linked [] fs') (fun _ _ => False) fs_empty).
  { apply iwp_bind. eapply iwp_mono; [by apply (inode_new_spec [])| |done].
    intros root fs1 (Hl1 & _ & [i Hi]). by eapply node_new_spec. }
  by apply (iwp_ok _ _ _ _ _ _ Hw) in Hrun.
Qed.

Lemma reaches_linked fs : reaches fs -> linked [] fs.
Proof.
  induction 1 as [n fs Hrun|fs o r fs' _ IH Hlive Hm Hrun]; [by eapply fs_new_linked|].
  pose proof (tmp_exec_sound _ _ IH Hlive Hm) as Hs.
  apply iwp_run in Hs as [(? & ? & Hr & ?)|(? & ? & Hr & ?)]; rewrite Hr in Hrun; by simplify_eq.
Qed.

(** C23: After any sequence of tmpfs operations, one at a time, none of them a misuse, the link count
    of every inode is the number of directory entries that refer to it, and every entry and every
    node refers to an existing inode.  An operation on live nodes then returns, without underflow of
    a link count, unless it is a misuse, and those panic: reading, writing and appending data, which
    is left to the page cache, except for reading a symbolic link from its start; removing an entry
    of a directory that refers to the directory itself, such as ["."] or [".."] in the root; and
    linking a directory into itself. *)
Theorem tmpfs_links_are_exact fs :
  reaches fs ->
  map_Forall (fun ino i => nlink (metadata i) = links ino (all_refs (inodes fs))) (inodes fs) /\
  Forall (fun ino => is_Some (inodes fs !! ino)) (all_refs (inodes fs)) /\
  map_Forall (fun _ ino => is_Some (inodes fs !! ino)) (nodes fs) /\
  forall o, live o fs ->
    if misuse o fs then tmp_exec o fs = (RPanic, fs)
    else exists fs', tmp_exec o fs = (ROk (), fs') \/ exists e, tmp_exec o fs = (RErr e, fs').
Proof.
  intros Hl%reaches_linked. pose proof Hl as [Hc Hr Hn]. rewrite app_nil_r in Hr. split_and!; try done.
  - intros ino i Hi. by rewrite (Hc _ _ Hi), app_nil_r.
  - intros o Hlive. destruct (misuse o fs) eqn:Hm; [by apply misuse_panics|].
    pose proof (tmp_exec_sound _ _ Hl Hlive Hm) as Hs.
    apply iwp_run in Hs as [([] & fs' & Hrun & _)|(e & fs' & Hrun & _)]; eauto.
Qed.

End links.

(** ** Examples *)

(** A directory ["a"] with a file ["f"] in it, and a file ["b"] beside it. *)
Definition demo_root : positive := 1.
Definition demo_fs0 : MemoryFs := (fs_new fs_empty).2.
Definition demo_fs1 : MemoryFs := (tmp_exec (TCreate demo_root "a" Directory 0x1ed) demo_fs0).2.
Definition demo_fs2 : MemoryFs := (tmp_exec (TCreate 2 "f" RegularFile 0x1a4) demo_fs1).2.
Definition demo_fs : MemoryFs := (tmp_exec (TCreate demo_root "b" RegularFile 0x1a4) demo_fs2).2.

(** The nodes of an operation are alive, by evaluation. *)
Ltac is_live :=
  unfold live; cbn [op_nodes]; repeat (apply Forall_cons_2; [eexists; by vm_compute|]); apply Forall_nil_2.

Lemma demo_reaches : reaches demo_fs.
Proof.
  apply (r_op demo_fs2 (TCreate demo_root "b" RegularFile 0x1a4) (ROk ()));
    [|is_live|by vm_compute|by vm_compute].
  apply (r_op demo_fs1 (TCreate 2 "f" RegularFile 0x1a4) (ROk ()));
    [|is_live|by vm_compute|by vm_compute].
  apply (r_op demo_fs0 (TCreate demo_root "a" Directory 0x1ed) (ROk ()));
    [|is_live|by vm_compute|by vm_compute].
  by apply (r_new 1).
Qed.

Definition entries_of (ino : Z) (fs : MemoryFs) : option (gmap string Z) :=
  i ← inodes fs !! ino; match content i with Dir es => Some es | File_ _ _ => None end.

Lemma tmpfs_links_are_exact_witness :
  (inodes demo_fs !! 1 ≫= fun i => Some (nlink (metadata i))) = Some 3 /\
  links 1 (all_refs (inodes demo_fs)) = 3 /\
  (exists fs', tmp_exec (TUnlink demo_root "b") demo_fs = (ROk (), fs') \/
              exists e, tmp_exec (TUnlink demo_root "b") demo_fs = (RErr e, fs')) /\
  tmp_exec (TUnlink demo_root ".") demo_fs = (RPanic, demo_fs).
Proof.
  destruct (tmpfs_links_are_exact demo_fs demo_reaches) as (_ & _ & _ & Hop).
  split_and!; [by vm_compute|by vm_compute|..].
  - apply (Hop (TUnlink demo_root "b")). is_live.
  - apply (Hop (TUnlink demo_root ".")). is_live.
Defined.

(** Renaming a directory to a name that exists empties the directory: the node created to
    compare inodes is dropped, and dropping the node of a directory clears its entries.  In a
    file system with a directory ["a"] that holds ["f"], renaming it over the file ["b"], or over
    itself, succeeds and leaves it without any entry. *)
Theorem rename_empties_directory :
  reaches demo_fs /\ (entries_of 2 demo_fs ≫= fun es => es !! "f") = Some 3 /\
  forall target found, (target, found) ∈ [("b", 4); ("a", 2)] -> exists fs',
    tmp_exec (TRename demo_root "a" demo_root target (Some found)) demo_fs = (ROk (), fs') /\
    (entries_of 1 fs' ≫= fun es => es !! target) = Some 2 /\ entries_of 2 fs' = Some ∅.
Proof.
  split_and!; [apply demo_reaches|by vm_compute|].
  intros target found [[= -> ->]|[[= -> ->]|[]%not_elem_of_nil]%elem_of_cons]%elem_of_cons;
    [exists (tmp_exec (TRename demo_root "a" demo_root "b" (Some 4)) demo_fs).2
    |exists (tmp_exec (TRename demo_root "a" demo_root "a" (Some 2)) demo_fs).2]; split_and!; vm_compute; reflexivity.
Qed.
