(* ===== verification/OpenFiles.v ===== *)
(** * Open files with a position

    What the operations of [FileApi] do on a cached file that is open with some flags at some
    position: an abstract open file is a position and the contents of [CacheSpec], each operation
    moves both, and the flags decide whether it may.  The theorems are about any history of the
    cached file below. *)

From S2P Require Import Prelude Io PageCache CacheSpec FileApi CacheHistory.

#[local] Opaque iwp.

Inductive file_op : Type :=
| FRead | FWrite | FLseek (offset whence : Z) | FTruncate (length : Z)
| FPread (offset : Z) | FPwrite (offset : Z) | FSync (data_only : bool).

Section open_files.
Context {C W : Type} {Lru : LruCache C PageCache} {LL : LruLaws C PageCache}.
Context {Env : CacheEnv W} {im : bool} {EL : CacheEnvLaws W im} {Loc : Location W}.
Local Notation file := (File C W).

Definition file_exec (o : file_op) : io VfsError file Z :=
  match o with
  | FRead => file_read
  | FWrite => file_write
  | FLseek offset whence => sys_lseek offset whence
  | FTruncate length => sys_ftruncate length
  | FPread offset => sys_pread64 offset
  | FPwrite offset =>
      len ← iget (fun f => src_remaining (ext (cached f)));
      sys_pwrite64 len offset
  | FSync data_only => file_sync data_only ≫= fun _ => mret 0
  end.

(** An abstract open file: its flags, its position, its contents. *)
Record ofile : Type := mk_ofile { oflags : Z; opos : Z; obytes : afile }.

Definition move (p : Z) (d : ofile) : ofile := mk_ofile (oflags d) p (obytes d).
Definition put (a : afile) (d : ofile) : ofile := mk_ofile (oflags d) (opos d) a.

(** The operation on the cached file that an operation comes down to, if any. *)
Definition below (o : file_op) (d : ofile) (src : list Z) : option op :=
  match o with
  | FRead => Some (ORead (opos d))
  | FWrite => Some (if contains (oflags d) APPEND then OAppend else OWrite (opos d))
  | FLseek _ _ => None
  | FTruncate length => Some (OSetLen length)
  | FPread offset => Some (ORead offset)
  | FPwrite offset => match src with [] => None | _ => Some (OWrite offset) end
  | FSync data_only => Some (OSync data_only)
  end.

(** Where [lseek] is to go: never before the start. *)
Definition target (offset whence : Z) (d : ofile) : option Z :=
  let from p := if p + offset <? 0 then None else Some (p + offset) in
  match whence with
  | 0 => from 0
  | 1 => from (opos d)
  | 2 => from (alen (obytes d))
  | _ => None
  end.

Definition permitted (o : file_op) (fl : Z) (src : list Z) : bool :=
  let may x := contains fl x && negb (contains fl PATH) in
  match o with
  | FRead | FPread _ => may READ
  | FWrite => may APPEND || may WRITE
  | FTruncate _ => may WRITE
  | FPwrite _ => match src with [] => true | _ => may WRITE end
  | FLseek _ whence => may 0 || negb (bool_decide (whence ∈ [0; 1; 2]))
  | FSync _ => may 0
  end.

(** The open file after a successful operation that returned [n]. *)
Definition after (o : file_op) (d : ofile) (src : list Z) (n : Z) : ofile :=
  let d' := match below o d src with
            | Some o' => put (spec (im := im) o' (obytes d) src) d
            | None => d
            end in
  match o with
  | FRead => move (opos d + n) d'
  | FWrite => move (if contains (oflags d) APPEND then alen (obytes d) + n else opos d + n) d'
  | FLseek _ _ => move n d'
  | _ => d'
  end.

Definition returns (o : file_op) (d : ofile) (w : W) (n : Z) (w' : W) : Prop :=
  match below o d (source view w), o with
  | Some o', _ => delivers (im := im) o' (obytes d) w n w'
  | None, FLseek offset whence => target offset whence d = Some n
  | None, _ => n = 0
  end.

(** Offsets, positions and lengths that POSIX has names for: an [lseek] to a position above [i64::MAX]
    is left out, and so are negative offsets of [SEEK_SET], [pread] and [pwrite]. *)
Definition file_in_range (o : file_op) (d : ofile) (w : W) : Prop :=
  match o with
  | FLseek offset whence =>
      - 2 ^ 63 <= offset < 2 ^ 63 /\ (whence = 0 -> 0 <= offset) /\
      (whence = 1 -> opos d + offset < 2 ^ 63) /\ (whence = 2 -> alen (obytes d) + offset < 2 ^ 63)
  | FPread offset | FPwrite offset => 0 <= offset <= u64_max
  | _ => True
  end /\
  match below o d (source view w) with Some o' => in_range (im := im) o' (obytes d) w | None => True end.

(** [f] is a handle on a cached file that behaves as [d]. *)
Definition ready (d : ofile) (f : file) : Prop :=
  inner f = Cached /\ flags f = oflags d /\ position f = Some (opos d) /\ 0 <= opos d <= u64_max /\
  history (im := im) (obytes d) (cached f).

(** ** Lifting the cached file *)

Lemma bind_ret_id {E S A} (m : io E S A) s : (x ← m; mret (id x)) s = m s.
Proof. unfold mbind, io_bind. by destruct (m s) as [[] ?]. Qed.

Lemma iwp_access r (Q : () -> file -> Prop) R f :
  (if contains (flags f) r && negb (contains (flags f) PATH) then Q () f else R BadFileDescriptor f) ->
  iwp (access r) Q R f.
Proof.
  intros H. unfold access. apply iwp_bind, iwp_get. unfold is_path. simpl. case_match; [by apply iwp_ret|by apply iwp_throw].
Qed.

Lemma iwp_cached {A} (m : io VfsError (CachedFile C W) A) (o : op) (g : A -> Z) a (Q : A -> file -> Prop) R f :
  history (im := im) a (cached f) -> in_range (im := im) o a (ext (cached f)) ->
  (forall s, exec o s = (x ← m; mret (g x)) s) ->
  (forall x s', m (cached f) = (ROk x, s') ->
     history (im := im) (spec (im := im) o a (source view (ext (cached f)))) s' ->
     delivers (im := im) o a (ext (cached f)) (g x) (ext s') -> Q x (set_cached s' f)) ->
  (forall e s', failed view (ext s') -> R e (set_cached s' f)) ->
  iwp (on_cached m) Q R f.
Proof.
  intros Hh Hin Heq HQ HR. apply iwp_zoom.
  pose proof (exec_spec _ _ _ (history_inv _ _ Hh) Hin) as Hrun.
  apply iwp_run in Hrun as [(n & s' & Hrun & _ & Hd)|(e & s' & Hrun & _ & Hf)];
    pose proof Hrun as Hm; rewrite Heq in Hm; unfold mbind, io_bind in Hm;
    destruct (m (cached f)) as [[x|e'| |] s1] eqn:Hx; try done; injection Hm as <- <-; apply iwp_run.
  - left. eexists _, _. split; [done|]. apply HQ; [done|by eapply h_op|done].
  - right. eexists _, _. by split; [|apply HR].
Qed.

Lemma append_size a s r s' :
  inv [] a s -> alen a + Z.of_nat (length (source view (ext s))) <= max_end ->
  append s = (ROk r, s') -> r = (r.1, alen a + r.1).
Proof. intros Hinv Hmax Hrun. by apply (iwp_ok _ _ _ _ _ _ (append_spec [] a s Hinv Hmax)) in Hrun as [-> _]. Qed.

Lemma iwp_len d (Q : Z -> file -> Prop) R f :
  ready d f ->
  (forall f', ready d f' -> Q (alen (obytes d)) f') ->
  (forall e f', failed view (ext (cached f')) -> R e f') ->
  iwp (on_node fn_len) Q R f.
Proof.
  intros (Hi & Hfl & Hp & Hr & Hh) HQ HR. unfold on_node. apply iwp_zoom, iwp_env.
  eapply iwp_mono; [apply fn_len_law| |].
  - intros n w' (-> & Hf & _ & Hpg). pose proof (history_inv _ _ Hh) as [_ Hrep].
    rewrite <-(r_len _ _ _ Hrep). apply HQ. split_and!; try done; try apply Hr. by apply h_outside.
  - intros e w' [Hf _]. by apply HR.
Qed.

Lemma iwp_advance pos n (Q : () -> file -> Prop) R f :
  0 <= pos + n <= u64_max -> Q () (set_position (pos + n) f) -> iwp (advance (W := W) pos n) Q R f.
Proof.
  intros Hn HQ. unfold advance. destruct (Z.ltb_spec u64_max (pos + n)); [lia|]. rewrite andb_false_r.
  apply iwp_set. by rewrite as_u64_small by (unfold u64_max in *; lia).
Qed.

Lemma target_range offset whence d p w :
  file_in_range (FLseek offset whence) d w -> target offset whence d = Some p -> 0 <= p <= u64_max.
Proof.
  intros [(Ho & _ & H1 & H2) _]. unfold target, u64_max.
  destruct whence as [|[[]|[]|]|]; intros; repeat case_match; simplify_eq; bool_hyps; try specialize (H1 eq_refl); try specialize (H2 eq_refl); lia.
Qed.

(** The code's additions, where they do not leave the range. *)
Lemma checked_add_from a offset :
  a + offset < 2 ^ 63 -> checked_add_signed a offset = if a + offset <? 0 then None else Some (a + offset).
Proof.
  intros Ha. unfold checked_add_signed, u64_max.
  destruct (Z.ltb_spec (a + offset) 0), (Z.leb_spec 0 (a + offset)), (Z.leb_spec (a + offset) (2 ^ 64 - 1)); try done; lia.
Qed.
(** ** The operations *)

(** Proof goals about one operation. *)
Local Notation ends_well o d f :=
  (iwp (file_exec o)
     (fun n f' => returns o d (ext (cached f)) n (ext (cached f')) /\
                  ready (after o d (source view (ext (cached f))) n) f')
     (fun e f' => failed view (ext (cached f')) \/
                  e = InvalidInput /\ ready d f' /\
                  exists offset whence, o = FLseek offset whence /\ target offset whence d = None) f)
  (only parsing).

Lemma delivers_range o a w n w' :
  delivers (im := im) o a w n w' -> 0 <= n /\ match o with ORead off => n <= dst_remaining w | _ => True end.
Proof.
  pose proof (dst_remaining_range w). destruct o; simpl.
  - intros (bs & [Hl _] & -> & _). lia.
  - intros ->. lia.
  - intros ->. lia.
  - lia.
  - lia.
  - lia.
  - lia.
Qed.

Lemma read_ends_well d f :
  ready d f -> file_in_range FRead d (ext (cached f)) -> permitted FRead (oflags d) [] = true -> ends_well FRead d f.
Proof.
  intros (Hi & Hfl & Hp & Hr & Hh) [_ Hin] Hperm. cbn [file_exec]. unfold file_read.
  apply iwp_bind, iwp_set, iwp_bind, iwp_get. simpl. rewrite Hp. apply iwp_bind. unfold file_read_at.
  apply iwp_bind, iwp_access. simpl. rewrite Hfl. simpl in Hperm. rewrite Hperm.
  unfold backend_read_at. apply iwp_bind, iwp_get. simpl. rewrite Hi.
  eapply (iwp_cached _ (ORead (opos d)) id); [done|done|by intros; rewrite bind_ret_id| |by left].
  intros n s' _ Hh' Hd. pose proof (delivers_range _ _ _ _ _ Hd) as [? ?]. destruct Hin as (? & ? & ?). simpl in *.
  apply iwp_bind, iwp_advance; [lia|]. apply iwp_ret. split; [done|]. split_and!; simpl; done || lia.
Qed.

Lemma write_ends_well d f :
  ready d f -> file_in_range FWrite d (ext (cached f)) -> permitted FWrite (oflags d) [] = true -> ends_well FWrite d f.
Proof.
  intros (Hi & Hfl & Hp & Hr & Hh) [_ Hin] Hperm. cbn [file_exec]. unfold file_write.
  apply iwp_bind, iwp_set, iwp_bind, iwp_get. simpl. rewrite Hp. apply iwp_bind, iwp_attempt, iwp_access. simpl.
  simpl in Hperm. unfold returns, after. simpl in *. rewrite Hfl in *.
  destruct (contains (oflags d) APPEND && negb (contains (oflags d) PATH)) eqn:Happ; simpl in *.
  - apply andb_true_iff in Happ as [Happ _]. rewrite Happ in *. simpl in *.
    apply iwp_bind. unfold backend_append. apply iwp_bind, iwp_get. simpl. rewrite Hi.
    eapply (iwp_cached _ OAppend fst); [done|done|done| |by left].
    intros r s' Hrun Hh' Hd. rewrite (append_size _ _ _ _ (history_inv _ _ Hh) Hin Hrun).
    pose proof (delivers_range _ _ _ _ _ Hd) as [? _]. simpl in *.
    pose proof (r_len _ _ _ (proj2 (history_inv _ _ Hh))). pose proof (flen_range (ext (cached f))).
    apply iwp_bind, iwp_set, iwp_ret. split; [done|].
    split_and!; simpl; try done; unfold max_end, PAGE_SIZE, u64_max in *; lia.
  - assert (Hw : contains (oflags d) WRITE && negb (contains (oflags d) PATH) = true) by done.
    assert (Hno : contains (oflags d) APPEND = false).
    { apply andb_true_iff in Hw as [_ Hw]. by rewrite Hw, andb_true_r in Happ. }
    rewrite Hno in *. apply iwp_bind. unfold file_write_at. apply iwp_bind, iwp_access. simpl. rewrite Hfl, Hw.
    unfold backend_write_at. apply iwp_bind, iwp_get. simpl. rewrite Hi.
    eapply (iwp_cached _ (OWrite (opos d)) id); [done|done|by intros; rewrite bind_ret_id| |by left].
    intros n s' _ Hh' Hd. pose proof (delivers_range _ _ _ _ _ Hd) as [? _]. destruct Hin. simpl in *.
    assert (0 <= opos d + n <= u64_max) by (subst n; unfold id, max_end, PAGE_SIZE, u64_max in *; lia).
    apply iwp_bind, iwp_advance; [done|]. apply iwp_ret. split; [done|]. split_and!; simpl; done || lia.
Qed.
(** An operation that checks the flags and then runs one of the cached file. *)
Definition checked (r : Z) (o : op) : io VfsError file Z := fun f =>
  if contains (flags f) r && negb (is_path f) then on_cached (exec o) f else (RErr BadFileDescriptor, f).

Lemma checked_ends_well o o' d f r :
  ready d f -> in_range (im := im) o' (obytes d) (ext (cached f)) ->
  file_exec o f = checked r o' f ->
  below o d (source view (ext (cached f))) = Some o' ->
  contains (oflags d) r && negb (contains (oflags d) PATH) = true ->
  (forall n, after o d (source view (ext (cached f))) n =
             put (spec (im := im) o' (obytes d) (source view (ext (cached f)))) d) ->
  ends_well o d f.
Proof.
  intros (Hi & Hfl & Hp & Hr & Hh) Hin Heq Hb Hperm Hafter.
  assert (Hrun : iwp (on_cached (exec o'))
     (fun n f' => returns o d (ext (cached f)) n (ext (cached f')) /\
                  ready (after o d (source view (ext (cached f))) n) f')
     (fun _ f' => failed view (ext (cached f'))) f).
  { eapply (iwp_cached _ o' id); [done|done|by intros; rewrite bind_ret_id| |done].
    intros n s' _ Hh' Hd. unfold returns. rewrite Hb, Hafter. split; [done|]. split_and!; simpl; done || lia. }
  unfold checked, is_path in Heq. rewrite Hfl, Hperm in Heq.
  apply iwp_run in Hrun as [(n & f' & Hrun & HQ)|(e & f' & Hrun & HR)]; rewrite <-Heq in Hrun; apply iwp_run; eauto 10.
Qed.

(** A system call on a cached backend as a checked operation. *)
Ltac is_checked Hi :=
  unfold file_exec, file_sync, sys_ftruncate, sys_pread64, sys_pwrite64, file_read_at, file_write_at, backend_sync,
    backend_set_len, backend_read_at, backend_write_at, checked, access, exec, mbind, io_bind, mret, io_ret, iget, id, on_cached, zoom;
  match goal with |- context [if ?c && negb (is_path ?f) then _ else _] => destruct (c && negb (is_path f)) end;
  simpl; rewrite ?Hi; [|done]; repeat case_match; simplify_eq; done.

Lemma positioned_ends_well o d f :
  ready d f -> file_in_range o d (ext (cached f)) -> permitted o (oflags d) (source view (ext (cached f))) = true ->
  match o with FTruncate _ | FPread _ | FPwrite _ | FSync _ => True | _ => False end -> ends_well o d f.
Proof.
  intros Hd [Ho Hin] Hperm Hkind. pose proof Hd as (Hi & _). destruct o as [| | |n|off|off|b]; try done.
  - cbn in Hin. eapply (checked_ends_well _ (OSetLen n) _ _ WRITE); try done.
    cbn [file_exec]. unfold sys_ftruncate. rewrite as_u64_small by lia. is_checked Hi.
  - eapply (checked_ends_well _ (ORead off) _ _ READ); try done.
    cbn [file_exec]. unfold sys_pread64. destruct (Z.ltb_spec off 0); [lia|]. is_checked Hi.
  - simpl in Hin, Hperm. destruct (source view (ext (cached f))) as [|x src] eqn:Hsrc.
    + cbn [file_exec]. apply iwp_bind, iwp_get. rewrite src_remaining_law, Hsrc. apply iwp_ret.
      unfold returns, after. simpl. by rewrite Hsrc.
    + rewrite <-Hsrc. pose proof (src_remaining_law (ext (cached f))) as Hrem. rewrite Hsrc in Hrem.
      assert (Heq : file_exec (FPwrite off) f = checked WRITE (OWrite off) f).
      { trans (sys_pwrite64 (src_remaining (ext (cached f))) off f); [done|]. rewrite Hrem. unfold sys_pwrite64.
        rewrite as_u64_small by (unfold u64_max in *; lia). case_match; [simpl in *; lia|]. is_checked Hi. }
      eapply (checked_ends_well _ (OWrite off) _ _ WRITE); unfold after, below; rewrite ?Hsrc; done.
  - eapply (checked_ends_well _ (OSync b) _ _ 0); try done. is_checked Hi.
Qed.

Lemma seek_to_spec to v d f :
  ready d f -> contains (oflags d) 0 && negb (contains (oflags d) PATH) = true ->
  (match to with
   | Start p => v = Some p
   | End_ off => v = checked_add_signed (alen (obytes d)) off
   | Current off => v = checked_add_signed (opos d) off
   end) -> (forall p, v = Some p -> 0 <= p <= u64_max) ->
  iwp (seek to) (fun n f' => v = Some n /\ ready (move n d) f')
    (fun e f' => failed view (ext (cached f')) \/ e = InvalidInput /\ ready d f' /\ v = None) f.
Proof.
  intros Hd Hperm Hv Hrange. pose proof Hd as (_ & Hfl & Hp & _ & _). unfold seek.
  apply iwp_bind, iwp_access. rewrite Hfl, Hperm. apply iwp_bind, iwp_get. rewrite Hp. apply iwp_bind.
  assert (Hmove : forall p f', ready d f' -> v = Some p ->
            iwp (_ ← iset (set_position p); mret p) (fun n f' => v = Some n /\ ready (move n d) f')
              (fun e f' => failed view (ext (cached f')) \/ e = InvalidInput /\ ready d f' /\ v = None) f').
  { intros p f' (? & ? & ? & ? & ?) Hvp. apply iwp_bind, iwp_set, iwp_ret.
    specialize (Hrange p Hvp). split; [done|]. by split_and!; try apply Hrange. }
  assert (Hcheck : forall a off f', ready d f' -> v = checked_add_signed a off ->
            iwp (iresult (ok_or (checked_add_signed a off) InvalidInput))
              (fun p => iwp (_ ← iset (set_position p); mret p) (fun n f' => v = Some n /\ ready (move n d) f')
                 (fun e f' => failed view (ext (cached f')) \/ e = InvalidInput /\ ready d f' /\ v = None))
              (fun e f' => failed view (ext (cached f')) \/ e = InvalidInput /\ ready d f' /\ v = None) f').
  { intros a off f' Hf' Hva. apply iwp_result; rewrite <-Hva; destruct v; try done.
    - intros p [= <-]. by apply Hmove.
    - intros e [= <-]. by right. }
  destruct to as [p|off|off].
  - apply iwp_ret. by apply Hmove.
  - apply iwp_bind, iwp_access. rewrite Hfl, Hperm. apply iwp_bind. eapply iwp_len; [done| |by left].
    intros f' Hf'. by apply Hcheck.
  - by apply Hcheck.
Qed.
Lemma seek_ends_well offset whence d f :
  ready d f -> file_in_range (FLseek offset whence) d (ext (cached f)) ->
  permitted (FLseek offset whence) (oflags d) (source view (ext (cached f))) = true ->
  ends_well (FLseek offset whence) d f.
Proof.
  intros Hd Hin Hperm. pose proof Hin as [(Ho & H0 & H1 & H2) _]. simpl in Hperm.
  assert (Hgo : forall to, file_exec (FLseek offset whence) f = seek to f ->
            contains (oflags d) 0 && negb (contains (oflags d) PATH) = true ->
            (match to with
             | Start p => target offset whence d = Some p
             | End_ off => target offset whence d = checked_add_signed (alen (obytes d)) off
             | Current off => target offset whence d = checked_add_signed (opos d) off
             end) -> ends_well (FLseek offset whence) d f).
  { intros to Heq Hok Ht.
    pose proof (seek_to_spec to (target offset whence d) d f Hd Hok Ht (fun p => target_range _ _ _ p _ Hin)) as Hs.
    apply iwp_run in Hs as [(n & f' & Hrun & Hn & Hf')|(e & f' & Hrun & HR)]; rewrite <-Heq in Hrun; apply iwp_run.
    - left. by exists n, f'.
    - right. exists e, f'. split; [done|]. destruct HR as [?|(-> & ? & ?)]; [by left|right; split_and!; eauto]. }
  destruct (decide (whence ∈ [0; 1; 2])) as [Hw|Hw].
  - rewrite bool_decide_eq_true_2, orb_false_r in Hperm by done.
    apply list_elem_of_In in Hw as [<-|[<-|[<-|[]]]].
    + apply (Hgo (Start (as_u64 offset))); [done..|]. specialize (H0 eq_refl). simpl.
      rewrite as_u64_small by lia. by rewrite (proj2 (Z.ltb_ge _ _)) by lia.
    + apply (Hgo (Current offset)); [done..|]. by rewrite checked_add_from by auto.
    + apply (Hgo (End_ offset)); [done..|]. by rewrite checked_add_from by auto.
  - assert (Hbad : file_exec (FLseek offset whence) f = (RErr InvalidInput, f) /\ target offset whence d = None).
    { rewrite !elem_of_cons, elem_of_nil in Hw.
      destruct whence as [|[[]|[]|]|]; try done; exfalso; apply Hw; auto. }
    apply iwp_run. right. exists InvalidInput, f. split; [apply Hbad|right; split_and!; try done].
    eexists _, _. by split; [|apply Hbad].
Qed.

Lemma permitted_ends_well o d f :
  ready d f -> file_in_range o d (ext (cached f)) ->
  permitted o (oflags d) (source view (ext (cached f))) = true -> ends_well o d f.
Proof.
  destruct o; intros; first [by apply read_ends_well | by apply write_ends_well | by apply seek_ends_well
    | by apply positioned_ends_well].
Qed.

Lemma denied_spec o d f :
  ready d f -> file_in_range o d (ext (cached f)) ->
  permitted o (oflags d) (source view (ext (cached f))) = false ->
  exists f', file_exec o f = (RErr BadFileDescriptor, f') /\ ready d f' /\ cached f' = cached f.
Proof.
  intros Hd [Ho Hin] Hperm. pose proof Hd as (Hi & Hfl & Hp & Hr & Hh).
  assert (Hno : forall A (r : Z) (k : () -> io VfsError file A) f', flags f' = flags f ->
            contains (oflags d) r && negb (contains (oflags d) PATH) = false ->
            (access r ≫= k) f' = (RErr BadFileDescriptor, f')).
  { intros A r k f' Hf' Hr'. unfold access, mbind, io_bind, iget, id, is_path. by rewrite Hf', Hfl, Hr'. }
  destruct o as [| |off wh|n|off|off|b]; simpl in Ho, Hperm; cbn [file_exec].
  - unfold file_read, file_read_at. unfold mbind at 1, io_bind at 1, iset at 1. unfold mbind at 1, io_bind at 1, iget at 1.
    simpl. rewrite Hp. unfold mbind at 1, io_bind at 1. rewrite Hno by done. eexists. by split_and!.
  - apply orb_false_iff in Hperm as [Ha Hw]. unfold file_write.
    unfold mbind at 1, io_bind at 1, iset at 1. unfold mbind at 1, io_bind at 1, iget at 1. simpl. rewrite Hp.
    unfold mbind at 1, io_bind at 1, attempt, access at 1, mbind at 1, io_bind at 1, iget at 1. unfold id, is_path at 1. simpl.
    rewrite Hfl, Ha. simpl. unfold mbind at 1, io_bind at 1, file_write_at. rewrite Hno by done. eexists. by split_and!.
  - apply orb_false_iff in Hperm as [Ha Hw%negb_false_iff%bool_decide_eq_true].
    exists f. split_and!; try done. apply list_elem_of_In in Hw as [<-|[<-|[<-|[]]]]; unfold sys_lseek, seek;
      unfold mbind at 1, io_bind at 1; simpl; by apply Hno.
  - exists f. split_and!; try done. by apply Hno.
  - exists f. split_and!; try done. unfold sys_pread64. destruct (Z.ltb_spec off 0); [lia|]. by apply Hno.
  - exists f. split_and!; try done. unfold mbind, io_bind, iget. rewrite src_remaining_law.
    destruct (source view (ext (cached f))) as [|x src]; [done|]. unfold sys_pwrite64.
    destruct (Z.eqb_spec (Z.of_nat (length (x :: src))) 0); [simpl in *; lia|]. by apply Hno.
  - exists f. split_and!; try done. unfold file_sync. unfold mbind at 1, io_bind at 1. by rewrite Hno.
Qed.
(** A file that has just been opened stands at its start, or at its end if it is for appending. *)
Lemma file_new_ready fl a s :
  history (im := im) a s -> loc_stream (ext s) = false -> alen a <= u64_max ->
  (exists f', file_new Cached fl s = f' /\
     ready (mk_ofile fl (if contains fl APPEND then alen a else 0) a) f') \/
  (exists e w', fn_len (ext s) = (RErr e, w') /\ failed view w').
Proof.
  intros Hh Hs Hmax. pose proof (r_len _ _ _ (proj2 (history_inv _ _ Hh))) as Hlen. pose proof (flen_range (ext s)).
  pose proof (fn_len_law (ext s)) as [(n & w' & Hrun & -> & Hf & _ & Hpg)|(e & w' & Hrun & Hf & _)]%iwp_run; [left|right; eauto].
  eexists. split; [done|]. unfold file_new, env, zoom. rewrite Hrun, Hs, <-Hlen. destruct (contains fl APPEND).
  - split_and!; simpl; try done; [lia| ]. by apply h_outside.
  - split_and!; simpl; done || (unfold u64_max; lia).
Qed.

(** C20: What an open cached file does, in any history of the file.  An operation its flags do not
    permit returns [BadFileDescriptor] and changes nothing.  One they permit returns, without
    panic: reads and writes at the position move it by the bytes transferred, an append writes at
    the end of the file and moves there, positioned reads and writes and truncation leave it, and
    [lseek] goes to the position POSIX prescribes or, before the start or with an unknown [whence],
    returns [InvalidInput] and changes nothing.  The contents follow [spec], and any other error
    comes from outside.  [spec] says which bytes a read returns where they are known, which those in
    the gap of a write beyond the end are not; and a file is said to have positions only within
    [file_in_range], which leaves out negative offsets of [SEEK_SET], [pwrite] and [ftruncate],
    which the code takes for large positive ones, those of [pread], which it refuses, an [lseek]
    beyond [i64::MAX], and files of more than [2 ^ 32] pages. *)
Theorem open_file_has_posix_position d f o :
  ready d f -> file_in_range o d (ext (cached f)) ->
  if permitted o (oflags d) (source view (ext (cached f))) then
    (exists n f', file_exec o f = (ROk n, f') /\ returns o d (ext (cached f)) n (ext (cached f')) /\
       ready (after o d (source view (ext (cached f))) n) f') \/
    (exists e f', file_exec o f = (RErr e, f') /\
       (failed view (ext (cached f')) \/
        e = InvalidInput /\ ready d f' /\
        exists offset whence, o = FLseek offset whence /\ target offset whence d = None))
  else exists f', file_exec o f = (RErr BadFileDescriptor, f') /\ ready d f' /\ cached f' = cached f.
Proof.
  intros Hd Hin. destruct (permitted o _ _) eqn:Hperm; [|by apply denied_spec].
  apply iwp_run. by apply permitted_ends_well.
Qed.

(** The vectored positioned write transfers data the wrong way: on a handle open for reading
    and writing, [pwritev2] leaves every byte of the file as it was and stores bytes of the file
    into the caller's buffers, and on a handle open only for writing it fails. *)
Theorem pwritev_reads_instead_of_writing d f offset fl2 :
  ready d f -> 0 <= offset <= u64_max -> in_range (im := im) (ORead offset) (obytes d) (ext (cached f)) ->
  negb (contains (oflags d) PATH) = true ->
  if contains (oflags d) READ then
    iwp (sys_pwritev2 offset fl2)
      (fun n f' => ready d f' /\ exists bs, a_reads (obytes d) offset (dst_remaining (ext (cached f))) bs /\
                   n = Z.of_nat (length bs) /\ sunk view (ext (cached f')) = sunk view (ext (cached f)) ++ bs)
      (fun e f' => failed view (ext (cached f'))) f
  else sys_pwritev2 offset fl2 f = (RErr BadFileDescriptor, f).
Proof.
  intros (Hi & Hfl & Hp & Hr & Hh) Ho Hin Hpath. unfold sys_pwritev2.
  rewrite as_u64_small by (unfold u64_max in *; lia). destruct (contains (oflags d) READ) eqn:Hread.
  - unfold file_read_at. apply iwp_bind, iwp_access. rewrite Hfl, Hread, Hpath.
    unfold backend_read_at. apply iwp_bind, iwp_get. rewrite Hi.
    eapply (iwp_cached _ (ORead offset) id); [done|done|by intros; rewrite bind_ret_id| |done].
    intros n s' _ Hh' Hd. split; [|done]. split_and!; simpl; done || lia.
  - unfold file_read_at, access, mbind, io_bind, iget, id, is_path. by rewrite Hfl, Hread.
Qed.

End open_files.
