(* ===== verification/CacheLimits.v ===== *)
(** * Cached files at their limits

    The file nodes of tmpfs as surroundings of a cached file ([tmpfs_env]): their reading and
    writing methods panic, and the laws of a file that lives in memory hold nevertheless, so that
    the cache never calls them.  Then concrete runs that show where cached files leave the
    specification of POSIX: bytes between the old end and a write beyond it, writes lost by a
    failing flush, truncation by [open], and offsets whose page number does not fit 32 bits. *)

From S2P Require Import Prelude Io PageCache CacheSpec FileApi CacheHistory Tmpfs OpenFiles.

(** ** tmpfs under the page cache *)

Section tmpfs_env.
Context {W : Type} {Env : CacheEnv W}.

Definition on_rest {A} (m : io VfsError W A) : io VfsError (N * W) A := zoom snd (fun w s => (s.1, w)) m.

(** A regular file of tmpfs: its length, beside the rest of the surroundings. *)
#[export] Instance tmpfs_env : CacheEnv (N * W) := {
  fn_as_file := mret ();
  fn_len := iget (fun w => Z.of_N w.1);
  fn_set_len n := iset (fun w => (Z.to_N n, w.2));
  fn_read_at n off := content_read_at None n off;
  fn_write_at bs off := content_write_at bs off;
  fn_sync _ := mret ();
  pg_alloc := on_rest pg_alloc;
  pg_dealloc a w := (w.1, pg_dealloc a w.2);
  dst_remaining w := dst_remaining w.2;
  dst_write bs := on_rest (dst_write bs);
  src_remaining w := src_remaining w.2;
  src_read n w := let '(r, w') := src_read n w.2 in (r, (w.1, w'));
  call_listener h pn p w := (w.1, call_listener h pn p w.2);
  overflow_checks := overflow_checks;
}.

Context {im : bool} {EL : CacheEnvLaws W im}.

Definition tmpfs_views : views (N * W) := {|
  flen w := Z.of_N w.1;
  fbyte _ _ := 0;
  held w := held view w.2;
  source w := source view w.2;
  sunk w := sunk view w.2;
  failed w := failed view w.2;
|}.

#[export] Instance tmpfs_laws : CacheEnvLaws (N * W) true.
Proof.
  refine {| view := tmpfs_views |}; try done; intros;
    unfold fails, same_file, same_buffers, same_pages; simpl.
  - lia.
  - apply dst_remaining_range.
  - apply iwp_set. simpl. split_and!; try done; [lia|]. intros i Hi. by case_match.
  - apply iwp_zoom. eapply iwp_mono; [apply pg_alloc_law| |].
    + intros [a d] w' (? & ? & _ & ? & ? & ?). by split_and!.
    + intros e w' [? ?]. by split_and!.
  - destruct (pg_dealloc_law a w.2) as (? & _ & (? & ? & ?) & ?); [done|]. by split_and!.
  - apply iwp_zoom. eapply iwp_mono; [by apply dst_write_law| |].
    + intros n w' (? & ? & ? & ? & _ & ?). by split_and!.
    + intros e w' [? ?]. by split_and!.
  - apply src_remaining_law.
  - pose proof (src_read_law n w.2 H) as Hr. destruct (src_read n w.2) as [[[k|e] bs] w']; simpl.
    + destruct Hr as (? & ? & ? & ? & ? & _ & ?). by split_and!.
    + destruct Hr as (? & ? & ?). by split_and!.
  - destruct (call_listener_law h pn p w.2) as (_ & (? & ? & ?) & ?). by split_and!.
Defined.

End tmpfs_env.

(** ** Concrete files *)

(** Running an operation for its result and its state. *)
Definition result_of {S A} (r : res VfsError A * S) : res VfsError A := r.1.
Definition state_of {S A} (r : res VfsError A * S) : S := r.2.

Local Notation disk := (CachedFile (sim_cache PageCache) sim_world).
Local Notation mem := (CachedFile (sim_cache PageCache) (N * sim_world)).

Definition disk_file (bytes : list Z) : disk :=
  mk_cached (shared_new false) [] false (mk_sim bytes 1 [] [] [] 0 false).
Definition mem_file (len : N) : mem :=
  mk_cached (shared_new true) [] true (len, mk_sim [] 1 [] [] [] 0 false).

(** The buffers of a caller: bytes to write, room for bytes to read. *)
Definition sim_buffers (src : list Z) (room : Z) (w : sim_world) : sim_world :=
  mk_sim (sim_file w) (sim_next w) (sim_held w) src [] room (sim_broken w).
Definition with_buffers (src : list Z) (room : Z) (s : disk) : disk :=
  set_ext (sim_buffers src room (ext s)) s.
Definition with_buffers_mem (src : list Z) (room : Z) (s : mem) : mem :=
  set_ext ((ext s).1, sim_buffers src room (ext s).2) s.

(** The node's writes fail from now on, or work again. *)
Definition set_broken (b : bool) (s : disk) : disk :=
  let w := ext s in
  set_ext (mk_sim (sim_file w) (sim_next w) (sim_held w) (sim_src w) (sim_dst w) (sim_room w) b) s.

Definition contents_of (bytes : list Z) : afile :=
  mk_afile (Z.of_nat (length bytes)) (fun i => if i <? 0 then None else bytes !! Z.to_nat i) true.

Lemma disk_file_history bytes src room :
  history (im := false) (contents_of bytes) (with_buffers src room (disk_file bytes)).
Proof.
  apply (h_outside (im := false) _ (disk_file bytes)); [|done|done].
  apply h_open. split_and!; try done. intros i x. simpl. destruct (i <? 0); [done|]. by intros ->.
Qed.


Definition flushed : disk := state_of (exec (OWrite 2) (with_buffers [7; 8] 0 (disk_file [1; 2; 3]))).

Lemma flushed_history : history (im := false) (a_write 2 [7; 8] (contents_of [1; 2; 3])) flushed.
Proof.
  assert (Hrun : exec (OWrite 2) (with_buffers [7; 8] 0 (disk_file [1; 2; 3])) = (ROk 2, flushed)) by (by vm_compute).
  refine (h_op (im := false) _ _ _ _ _ (disk_file_history [1; 2; 3] [7; 8] 0) _ Hrun).
  split; vm_compute; discriminate.
Qed.

Lemma sync_is_durable_witness :
  exists s', sync false flushed = (ROk (), s') /\ fbyte (sim_views false) (ext s') 3 = 8 /\
             held (sim_views false) (ext s') = [].
Proof.
  assert (Hrun : sync false flushed = (ROk (), state_of (sync false flushed))) by (by vm_compute).
  exists (state_of (sync false flushed)). revert Hrun. generalize (state_of (sync false flushed)). intros s' Hrun.
  destruct (sync_is_durable (im := false) _ _ _ _ eq_refl flushed_history Hrun) as (_ & Hheld & Hb).
  split_and!; [exact Hrun| |exact Hheld]. refine (Hb 3 8 _ _); [by vm_compute|reflexivity].
Defined.

Lemma cached_pages_are_owned_witness :
  held (sim_views false) (ext flushed) ≡ₚ cached_addrs (lru_map (page_cache flushed)) /\
  held (sim_views false) (ext flushed) = [1].
Proof.
  split; [|by vm_compute]. apply (cached_pages_are_owned (im := false) _ _ flushed_history).
Defined.

(** ** Page numbers *)

(** C38: The pages that a read or write of a range of bytes touches.  Up to [max_end], 4096 bytes
    short of 16 TiB, they are exactly the pages that overlap the range.  From 16 TiB on the 32-bit
    page numbers have wrapped around, and every page touched lies entirely before the range. *)
Theorem page_numbers_are_exact_up_to_16_TiB start stop pn :
  0 <= start < stop -> stop <= u64_max ->
  (stop <= max_end ->
     pn ∈ page_range start stop <-> pn * PAGE_SIZE < stop /\ start < (pn + 1) * PAGE_SIZE) /\
  (2 ^ 44 <= start -> pn ∈ page_range start stop -> (pn + 1) * PAGE_SIZE <= start).
Proof.
  intros Hstart Hstop. unfold page_range. rewrite elem_of_seqZ. split.
  - intros Hmax. unfold max_end, PAGE_SIZE in *.
    pose proof (Z.mul_div_le start 4096). pose proof (Z.mul_succ_div_gt start 4096).
    pose proof (Z.mul_div_le (stop + 4096 - 1) 4096). pose proof (Z.mul_succ_div_gt (stop + 4096 - 1) 4096).
    pose proof (Z.div_pos start 4096). rewrite !as_u32_small by lia. lia.
  - intros Hbig. pose proof (as_u32_range ((stop + PAGE_SIZE - 1) / PAGE_SIZE)). unfold PAGE_SIZE in *. lia.
Qed.

Lemma page_numbers_are_exact_up_to_16_TiB_witness :
  (1 ∈ page_range 4000 5000 <-> 1 * PAGE_SIZE < 5000 /\ 4000 < (1 + 1) * PAGE_SIZE) /\
  0 ∈ page_range (2 ^ 44) (2 ^ 44 + 1) /\ (0 + 1) * PAGE_SIZE <= 2 ^ 44.
Proof.
  split_and!.
  - apply (page_numbers_are_exact_up_to_16_TiB 4000 5000 1); vm_compute; (split; done) || done.
  - apply elem_of_seqZ. by vm_compute.
  - apply (page_numbers_are_exact_up_to_16_TiB (2 ^ 44) (2 ^ 44 + 1) 0); try (vm_compute; done).
    apply elem_of_seqZ. by vm_compute.
Defined.

(** Consequences on tmpfs, where a file of any length can be made.  A file holds one byte, 5.
    Writing the one byte 7 at offset 16 TiB reports 4096 bytes written and overwrites the 5.  If
    the file is instead extended to 16 TiB, extending it by one more byte panics the kernel, and
    a read of 100 bytes beyond 16 TiB reports 3996 bytes although the buffer holds 100. *)
Theorem offsets_beyond_16_TiB_corrupt_and_panic :
  let s := state_of (exec (OWrite 0) (with_buffers_mem [5] 0 (mem_file 0))) in
  let write := exec (OWrite (2 ^ 44)) (with_buffers_mem [7] 0 s) in
  let back := exec (ORead 0) (with_buffers_mem [] 1 (state_of write)) in
  let long := state_of (exec (OSetLen (2 ^ 44 + 200)) s) in
  let read := exec (ORead (2 ^ 44 + 100)) (with_buffers_mem [] 100 long) in
  result_of write = ROk 4096 /\ sim_dst (ext (state_of back)).2 = [7] /\
  result_of (exec (OSetLen (2 ^ 44 + 1)) (state_of (exec (OSetLen (2 ^ 44)) s))) = RPanic /\
  result_of read = ROk 3996 /\ length (sim_dst (ext (state_of read)).2) = 100%nat.
Proof. vm_compute. split_and!; reflexivity. Qed.

(** ** Holes, failures, truncation *)

(** A file of three bytes is read, so that its page is cached, and one byte is written at
    offset 10.  Reading the file then shows in the hole what the memory of the page held when it
    was allocated, where POSIX has zeros, and a flush writes it to the file. *)
Theorem write_beyond_end_exposes_memory :
  let read := exec (ORead 0) (with_buffers [] 3 (disk_file [1; 2; 3])) in
  let write := exec (OWrite 10) (with_buffers [9] 0 (state_of read)) in
  let back := exec (ORead 0) (with_buffers [] 20 (state_of write)) in
  let flush := exec (OSync false) (state_of write) in
  sim_dst (ext (state_of read)) = [1; 2; 3] /\ result_of write = ROk 1 /\
  sim_dst (ext (state_of back)) = [1; 2; 3] ++ replicate 7 stale_byte ++ [9] /\
  result_of flush = ROk 0 /\ sim_file (ext (state_of flush)) = [1; 2; 3] ++ replicate 7 stale_byte ++ [9].
Proof. vm_compute. split_and!; reflexivity. Qed.

(** A write that succeeded is lost when a flush fails.  After the write a read shows it; the
    node fails to write and [sync] returns the error; then, with the node working again, a read
    shows the old contents and a second [sync] succeeds without writing anything. *)
Theorem failed_flush_loses_writes :
  let write := exec (OWrite 0) (with_buffers [9] 0 (disk_file [1; 2; 3])) in
  let before := exec (ORead 0) (with_buffers [] 3 (state_of write)) in
  let flush := exec (OSync false) (set_broken true (state_of write)) in
  let again := exec (OSync false) (set_broken false (state_of flush)) in
  let after := exec (ORead 0) (with_buffers [] 3 (state_of again)) in
  result_of write = ROk 1 /\ sim_dst (ext (state_of before)) = [9; 2; 3] /\
  result_of flush = RErr IoError /\ result_of again = ROk 0 /\
  sim_dst (ext (state_of after)) = [1; 2; 3] /\ sim_file (ext (state_of again)) = [1; 2; 3].
Proof. vm_compute. split_and!; reflexivity. Qed.

(** A location with a regular file. *)
#[export] Instance sim_location : Location sim_world := {
  loc_is_dir _ := false;
  loc_check_is_dir := throw NotADirectory;
  loc_node_type := mret RegularFile;
  loc_non_cacheable _ := false;
  loc_always_cache _ := false;
  loc_stream _ := false;
  direct_read_at _ := throw PermissionDenied;
  direct_write_at _ := throw PermissionDenied;
  direct_append := throw PermissionDenied;
}.

Definition truncating : OpenOptions :=
  mk_options false true false true false false false false false None false RegularFile 0.

(** Opening a file with [O_TRUNC] while another handle has its page cached brings the old bytes
    back: a write at offset 2 leaves 1 and 2 before it. *)
Lemma open_truncate_keeps_cached_bytes :
  let read := exec (ORead 0) (with_buffers [] 3 (disk_file [1; 2; 3])) in
  let opened := env (open_loc truncating) (state_of read) in
  let write := exec (OWrite 2) (with_buffers [9] 0 (state_of opened)) in
  let back := exec (ORead 0) (with_buffers [] 9 (state_of write)) in
  result_of opened = ROk (OpenFile Cached WRITE) /\ sim_file (ext (state_of opened)) = [] /\
  sim_dst (ext (state_of back)) = [1; 2; 9].
Proof. vm_compute. split_and!; reflexivity. Qed.

(** ** Open files *)

Definition open_disk_file (fl : Z) (src : list Z) (room : Z) : File (sim_cache PageCache) sim_world :=
  file_new Cached fl (with_buffers src room (disk_file [1; 2; 3])).

Lemma open_disk_file_ready fl src room :
  ready (im := false) (mk_ofile fl (if contains fl APPEND then 3 else 0) (contents_of [1; 2; 3])) (open_disk_file fl src room).
Proof.
  destruct (file_new_ready (im := false) fl (contents_of [1; 2; 3]) (with_buffers src room (disk_file [1; 2; 3])))
    as [(f & <- & Hf)|(e & w' & Hrun & _)]; try done.
  by apply disk_file_history.
Qed.

Lemma open_file_has_posix_position_witness :
  let f := open_disk_file (Z.lor WRITE APPEND) [7; 8] 0 in
  let d := mk_ofile (Z.lor WRITE APPEND) 3 (contents_of [1; 2; 3]) in
  file_in_range (im := false) FWrite d (ext (cached f)) /\
  exists f', file_exec FWrite f = (ROk 2, f') /\
    ready (im := false) (mk_ofile (Z.lor WRITE APPEND) 5 (a_write 3 [7; 8] (contents_of [1; 2; 3]))) f'.
Proof.
  intros f d. assert (Hin : file_in_range (im := false) FWrite d (ext (cached f))) by done. split; [done|].
  destruct (open_file_has_posix_position (im := false) d f FWrite (open_disk_file_ready _ _ _) Hin)
    as [(n & f' & Hrun & Hn & Hf')|(e & f' & Hrun & _)].
  - exists f'. cbv [returns below delivers] in Hn. simpl in Hn. subst n. split; [exact Hrun|exact Hf'].
  - exfalso. revert Hrun. vm_compute. discriminate.
Defined.

Lemma pwritev_reads_instead_of_writing_witness :
  let f := open_disk_file (Z.lor READ WRITE) [7; 8] 2 in
  let d := mk_ofile (Z.lor READ WRITE) 0 (contents_of [1; 2; 3]) in
  exists f', sys_pwritev2 1 0 f = (ROk 2, f') /\ ready (im := false) d f' /\ sim_dst (ext (cached f')) = [2; 3].
Proof.
  intros f d.
  pose proof (pwritev_reads_instead_of_writing (im := false) d f 1 0 (open_disk_file_ready _ _ _)) as Hw.
  assert (Hrun : (sys_pwritev2 1 0 f).1 = ROk 2 /\ sim_dst (ext (cached (sys_pwritev2 1 0 f).2)) = [2; 3])
    by (by vm_compute).
  apply iwp_run in Hw as [(n & f' & Hrun' & Hf' & _)|(e & f' & Hrun' & _)]; try done; rewrite Hrun' in Hrun; simpl in Hrun.
  - destruct Hrun as [[= ->] Hdst]. by exists f'.
Defined.
