(* ===== verification/Cow.v ===== *)
(** * Private memory

    The copy-on-write backend of user address spaces, [kernel/src/mm/aspace/backend/cow.rs], with
    the frame functions of [backend/mod.rs] and the page faults of [aspace/mod.rs].  Frames are
    shared between page tables after a fork and counted in [FRAME_TABLE]; a write to a shared
    frame copies it first.

    The page tables of [page_table_multiarch] ([PageTable]) and the frame allocator and files
    ([MmEnv]) are parameters.  A frame is named by its physical address. *)

From S2P Require Import Prelude Io PageCache.

(** ** Page tables *)

Inductive PagingError : Type := PgNoMemory | NotAligned | NotMapped | AlreadyMapped | MappedToHugePage.

(** [MappingFlags]. *)
Definition MF_READ : Z := 1.
Definition MF_WRITE : Z := 2.
Definition MF_EXECUTE : Z := 4.
Definition MF_USER : Z := 8.

Definition has_flags (flags f : Z) : bool := Z.land flags f =? f.
Definition remove_flags (flags f : Z) : Z := Z.ldiff flags f.

(** [PageTableCursor]: entries have a physical address, flags and a page size. *)
Class PageTable (P : Type) : Type := {
  pt_new : P;
  pt_query : Z -> P -> result PagingError (Z * Z * Z);
  pt_map : Z -> Z -> Z -> Z -> P -> result PagingError () * P;
  pt_unmap : Z -> P -> result PagingError (Z * Z * Z) * P;
  pt_protect : Z -> Z -> P -> result PagingError Z * P;
  pt_remap : Z -> Z -> Z -> P -> result PagingError Z * P;
  pt_protect_region : Z -> Z -> Z -> P -> result PagingError () * P;
  paging_error : PagingError -> VfsError;
}.

(** The frame allocator (number of 4K pages, alignment), and reading from a file into a buffer of
    some length. *)
Class MmEnv (F W : Type) : Type := {
  alloc_pages : Z -> Z -> io VfsError W Z;
  dealloc_pages : Z -> Z -> W -> W;
  file_read_into : F -> Z -> Z -> io VfsError W (list Z);
  mm_overflow_checks : bool;
}.

Section cow.
Context {P F W : Type} {PT : PageTable P} {Env : MmEnv F W}.

(** [FRAME_TABLE] with the counters it refers to, the contents of frames, the page tables of the
    address spaces, and the surroundings. *)
Record Mm : Type := mk_mm {
  frame_table : gmap Z Z;
  memory : gmap Z (list Z);
  tables : gmap Z P;
  outside : W;
}.

Local Notation M := (io VfsError Mm).

Definition set_frame_table (t : gmap Z Z) (s : Mm) : Mm := mk_mm t (memory s) (tables s) (outside s).
Definition set_memory (m : gmap Z (list Z)) (s : Mm) : Mm := mk_mm (frame_table s) m (tables s) (outside s).
Definition set_tables (t : gmap Z P) (s : Mm) : Mm := mk_mm (frame_table s) (memory s) t (outside s).
Definition set_outside (w : W) (s : Mm) : Mm := mk_mm (frame_table s) (memory s) (tables s) w.

Definition on_outside {A} (m : io VfsError W A) : M A := zoom outside set_outside m.

Definition frame_bytes (s : Mm) (paddr : Z) : list Z := default [] (memory s !! paddr).
Definition write_frame (paddr : Z) (bs : list Z) : M () := iset (fun s => set_memory (<[paddr := bs]> (memory s)) s).

(** An operation of the page table of an address space. *)
Definition on_table {A} (asid : Z) (f : P -> result PagingError A * P) : M (result PagingError A) := fun s =>
  match tables s !! asid with
  | Some p => let '(r, p') := f p in (ROk r, set_tables (<[asid := p']> (tables s)) s)
  | None => (RPanic, s)
  end.

Definition paging {A} (r : result PagingError A) : M A :=
  match r with Ok a => mret a | Err e => throw (paging_error e) end.

(** ** Frames *)

(** [PageSize]. *)
Definition Size4K : Z := 0x1000.
Definition Size2M : Z := 0x200000.
Definition Size1G : Z := 0x40000000.

Definition alloc_frame (zeroed : bool) (page_size : Z) : M Z :=
  paddr ← on_outside (alloc_pages (page_size / Size4K) page_size);
  _ ← (if zeroed then write_frame paddr (replicate (Z.to_nat page_size) 0) else mret ());
  mret paddr.

Definition dealloc_frame (frame page_size : Z) : M () :=
  iset (fun s => set_outside (dealloc_pages frame (page_size / Size4K) (outside s)) s).

(** [DynPageIter::new]: the pages of a range, if it is aligned. *)
Definition pages_in (start stop align : Z) : M (list Z) :=
  if (start mod align =? 0) && (stop mod align =? 0) then
    mret ((fun i => start + i * align) <$> seqZ 0 ((stop - start) / align))
  else throw InvalidInput.

Definition get_frame_ref (paddr : Z) : M (option Z) := iget (fun s => frame_table s !! paddr).

Definition set_count (paddr n : Z) : M () := iset (fun s => set_frame_table (<[paddr := n]> (frame_table s)) s).

Definition init_frame (paddr : Z) : M () :=
  o ← get_frame_ref paddr;
  _ ← iassert (bool_decide (o = None));
  set_count paddr 1.

Definition remove_frame (paddr : Z) : M () :=
  o ← get_frame_ref paddr;
  _ ← iassert (bool_decide (o ≠ None));
  iset (fun s => set_frame_table (delete paddr (frame_table s)) s).

(** [FrameRefCnt::drop_frame], on the counter of [paddr]. *)
Definition drop_frame (paddr page_size : Z) : M () :=
  o ← get_frame_ref paddr;
  let count := default 0 o in
  _ ← iassert (0 <? count);
  _ ← set_count paddr (count - 1);
  if count - 1 =? 0 then
    _ ← remove_frame paddr;
    dealloc_frame paddr page_size
  else mret ().

(** ** The backend *)

(** [CowBackend]: the start of the mapping, its page size, and the file it shows with the offsets
    where the part shown starts and ends. *)
Record CowBackend : Type := mk_cow { cow_start : Z; cow_size : Z; cow_file : option (F * Z * option Z) }.

Definition alloc_new_frame (b : CowBackend) (zeroed : bool) : M Z :=
  frame ← alloc_frame zeroed (cow_size b);
  _ ← init_frame frame;
  mret frame.

(** The part of a page that comes from the file: where it starts in the page and in the file, and
    how long it is. *)
Definition file_part (b : CowBackend) (vaddr file_start : Z) (file_end : option Z) : Z * Z * Z :=
  let page_start := Z.max 0 (cow_start b - vaddr) in
  let file_start := file_start + Z.max 0 (vaddr - cow_start b) in
  let max_read := Z.min (match file_end with None => u64_max | Some e => Z.max 0 (e - file_start) end)
                        (cow_size b - page_start) in
  (page_start, file_start, max_read).

Definition alloc_new_at (asid : Z) (b : CowBackend) (vaddr flags : Z) : M () :=
  frame ← alloc_new_frame b true;
  _ ← match cow_file b with
      | Some (f, file_start, file_end) =>
          let '(page_start, file_start', max_read) := file_part b vaddr file_start file_end in
          _ ← iassert (page_start <? cow_size b);
          if mm_overflow_checks && (u64_max <? file_start') then ipanic
          else
            bs ← on_outside (file_read_into f max_read (as_u64 file_start'));
            s ← iget id;
            write_frame frame (splice (Z.to_nat page_start) bs (frame_bytes s frame))
      | None => mret ()
      end;
  r ← on_table asid (pt_map vaddr frame (cow_size b) flags);
  paging r.

Definition handle_cow_fault (asid : Z) (b : CowBackend) (vaddr paddr flags : Z) : M () :=
  o ← get_frame_ref paddr;
  count ← iresult (ok_or o BadAddress);
  _ ← iassert (0 <? count);
  if count =? 1 then
    r ← on_table asid (pt_protect vaddr flags);
    _ ← paging r;
    mret ()
  else
    new_frame ← alloc_new_frame b false;
    s ← iget id;
    _ ← write_frame new_frame (frame_bytes s paddr);
    r ← on_table asid (pt_remap vaddr new_frame flags);
    _ ← paging r;
    drop_frame paddr (cow_size b).

Definition cow_map (range : Z * Z) (flags : Z) : M () := mret ().

Definition unmap_page (asid : Z) (b : CowBackend) (addr : Z) : M () :=
  r ← on_table asid (pt_unmap addr);
  match r with
  | Ok (frame, _, page_size) =>
      _ ← iassert (page_size =? cow_size b);
      o ← get_frame_ref frame;
      _ ← iresult (ok_or o BadAddress);
      drop_frame frame (cow_size b)
  | Err _ => mret ()
  end.

Definition cow_unmap (asid : Z) (b : CowBackend) (range : Z * Z) : M () :=
  addrs ← pages_in range.1 range.2 (cow_size b);
  iter_list (unmap_page asid b) addrs.

(** One page of [populate]: whether it now satisfies the access. *)
Definition populate_page (asid : Z) (b : CowBackend) (flags access_flags addr : Z) : M bool :=
  q ← on_table asid (fun p => (pt_query addr p, p));
  match q with
  | Ok (paddr, page_flags, page_size) =>
      _ ← iassert (cow_size b =? page_size);
      if has_flags access_flags MF_WRITE && negb (has_flags page_flags MF_WRITE) then
        _ ← handle_cow_fault asid b addr paddr flags;
        mret true
      else mret (has_flags page_flags access_flags)
  | Err NotMapped =>
      _ ← alloc_new_at asid b addr flags;
      mret true
  | Err _ => throw BadAddress
  end.

Fixpoint populate_loop (asid : Z) (b : CowBackend) (flags access_flags : Z) (addrs : list Z) (pages : Z) : M Z :=
  match addrs with
  | [] => mret pages
  | addr :: addrs =>
      done ← populate_page asid b flags access_flags addr;
      populate_loop asid b flags access_flags addrs (if done : bool then pages + 1 else pages)
  end.

Definition populate (asid : Z) (b : CowBackend) (range : Z * Z) (flags access_flags : Z) : M Z :=
  addrs ← pages_in range.1 range.2 (cow_size b);
  populate_loop asid b flags access_flags addrs 0.

(** One page of [clone_map]. *)
Definition clone_page (asid new_asid : Z) (b : CowBackend) (flags vaddr : Z) : M () :=
  let cow_flags := remove_flags flags MF_WRITE in
  q ← on_table asid (fun p => (pt_query vaddr p, p));
  match q with
  | Ok (paddr, _, page_size) =>
      _ ← iassert (page_size =? cow_size b);
      o ← get_frame_ref paddr;
      count ← iresult (ok_or o BadAddress);
      _ ← iassert (0 <? count);
      if mm_overflow_checks && (255 <? count + 1) then ipanic
      else
        let count' := as_u8 (count + 1) in
        _ ← set_count paddr count';
        if count' =? 255 then throw BadAddress
        else
          r ← on_table asid (pt_protect vaddr cow_flags);
          _ ← paging r;
          r ← on_table new_asid (pt_map vaddr paddr (cow_size b) cow_flags);
          paging r
  | Err NotMapped => mret ()
  | Err _ => throw BadAddress
  end.

Definition clone_map (asid new_asid : Z) (b : CowBackend) (range : Z * Z) (flags : Z) : M () :=
  addrs ← pages_in range.1 range.2 (cow_size b);
  iter_list (clone_page asid new_asid b flags) addrs.

(** [Backend::protect] on a private area; [on_protect] does nothing. *)
Definition backend_protect (asid start size new_flags : Z) : M bool :=
  r ← on_table asid (pt_protect_region start size new_flags);
  mret (match r with Ok _ => true | Err _ => false end).

(** [Backend::map] and [Backend::unmap]: errors are logged. *)
Definition backend_map (start size flags : Z) : M bool :=
  r ← attempt (cow_map (start, start + size) flags);
  mret (match r with Ok _ => true | Err _ => false end).
Definition backend_unmap (asid : Z) (b : CowBackend) (start size : Z) : M bool :=
  r ← attempt (cow_unmap asid b (start, start + size));
  mret (match r with Ok _ => true | Err _ => false end).

(** [AddrSpace::handle_page_fault]; [area] is the private area found at the address, with its
    flags, in an address space from [base] to [stop]. *)
Definition handle_page_fault (asid base stop : Z) (area : option (Z * CowBackend)) (vaddr access_flags : Z) : M bool :=
  if negb ((base <=? vaddr) && (vaddr <? stop)) then mret false
  else
    match area with
    | Some (flags, b) =>
        if has_flags flags access_flags then
          let page := vaddr / cow_size b * cow_size b in
          r ← attempt (populate asid b (page, page + cow_size b) flags access_flags);
          mret (match r with Ok n => negb (n =? 0) | Err _ => false end)
        else mret false
    | None => mret false
    end.

(** [Backend::new_cow] and [new_alloc]. *)
Definition new_cow (start size : Z) (f : F) (file_start : Z) (file_end : option Z) : CowBackend :=
  mk_cow start size (Some (f, file_start, file_end)).
Definition new_alloc (start size : Z) : CowBackend := mk_cow start size None.

(** [AddrSpace::new_empty]: a new page table. *)
Definition new_empty (asid : Z) : M () :=
  iset (fun s => set_tables (<[asid := pt_new]> (tables s)) s).

(** A store by a user program to one byte of a page: through the page table if it may, else after
    a page fault; [false] if the fault is not handled. *)
Definition try_store (asid page i x : Z) : M bool :=
  q ← on_table asid (fun p => (pt_query page p, p));
  match q with
  | Ok (paddr, page_flags, _) =>
      if has_flags page_flags MF_WRITE then
        s ← iget id;
        _ ← write_frame paddr (<[Z.to_nat i := x]> (frame_bytes s paddr));
        mret true
      else mret false
  | Err _ => mret false
  end.

Definition user_store (asid base stop : Z) (area : option (Z * CowBackend)) (page i x : Z) : M bool :=
  stored ← try_store asid page i x;
  if (stored : bool) then mret true
  else
    handled ← handle_page_fault asid base stop area (page + i) MF_WRITE;
    if (handled : bool) then try_store asid page i x else mret false.

End cow.

Arguments Mm : clear implicits.
Arguments mk_mm {P W} _ _ _ _.
Arguments CowBackend : clear implicits.
Arguments mk_cow {F} _ _ _.
