(* ===== verification/CowSpec.v ===== *)
(** * Private memory: the invariant

    [PageTableLaws] and [MmEnvLaws] are the documented behaviour of page tables, allocator and
    files.  The page tables of all address spaces together are one map [entries] from address
    space and page to frame and flags.  [sound ps] is the invariant: every counter is the number
    of entries that refer to its frame, plus the references in [ps] that no entry holds; the
    frames held from the allocator are those counted, beside the ones of other backends; and the
    frame of a writable entry has no other entry. *)

From S2P Require Import Prelude Io PageCache Cow.

Class PageTableLaws (P : Type) {PT : PageTable P} (psize : Z) : Type := {
  psize_pos : 0 < psize;
  pt_view : P -> gmap Z (Z * Z);
  pt_new_law : pt_view pt_new = ∅;
  pt_query_law v p :
    v mod psize = 0 ->
    pt_query v p = match pt_view p !! v with Some (pa, fl) => Ok (pa, fl, psize) | None => Err NotMapped end;
  pt_map_law v pa fl p :
    v mod psize = 0 -> pt_view p !! v = None ->
    match pt_map v pa psize fl p with
    | (Ok _, p') => pt_view p' = <[v := (pa, fl)]> (pt_view p)
    | (Err _, p') => pt_view p' = pt_view p
    end;
  pt_unmap_law v p :
    v mod psize = 0 ->
    match pt_view p !! v with
    | Some (pa, fl) => exists p', pt_unmap v p = (Ok (pa, fl, psize), p') /\ pt_view p' = delete v (pt_view p)
    | None => exists e p', pt_unmap v p = (Err e, p') /\ pt_view p' = pt_view p
    end;
  pt_protect_law v fl pa fl0 p :
    v mod psize = 0 -> pt_view p !! v = Some (pa, fl0) ->
    exists r p', pt_protect v fl p = (Ok r, p') /\ pt_view p' = <[v := (pa, fl)]> (pt_view p);
  pt_remap_law v pa' fl e p :
    v mod psize = 0 -> pt_view p !! v = Some e ->
    exists r p', pt_remap v pa' fl p = (Ok r, p') /\ pt_view p' = <[v := (pa', fl)]> (pt_view p);
  pt_protect_region_law start len fl p :
    start mod psize = 0 -> len mod psize = 0 ->
    exists p', pt_protect_region start len fl p = (Ok (), p') /\
      forall v, pt_view p' !! v =
        if (start <=? v) && (v <? start + len) then (fun e => (e.1, fl)) <$> pt_view p !! v else pt_view p !! v;
}.

Class MmEnvLaws (F W : Type) {Env : MmEnv F W} : Type := {
  frames_of : W -> gset Z;
  fb_len : F -> W -> Z;
  fb_byte : F -> W -> Z -> Z;
  same_files (w w' : W) := forall f, fb_len f w' = fb_len f w /\ forall i, fb_byte f w' i = fb_byte f w i;
  alloc_pages_law n align w :
    iwp (alloc_pages n align)
      (fun p w' => p ∉ frames_of w /\ frames_of w' = {[p]} ∪ frames_of w /\ same_files w w')
      (fun _ w' => frames_of w' = frames_of w /\ same_files w w') w;
  dealloc_pages_law p n w :
    p ∈ frames_of w ->
    frames_of (dealloc_pages p n w) = frames_of w ∖ {[p]} /\ same_files w (dealloc_pages p n w);
  file_read_into_law f len off w :
    0 <= len -> 0 <= off ->
    iwp (file_read_into f len off)
      (fun bs w' => Z.of_nat (length bs) = Z.min len (Z.max 0 (fb_len f w - off)) /\
         (forall j, (j < length bs)%nat -> bs !! j = Some (fb_byte f w (off + Z.of_nat j))) /\
         frames_of w' = frames_of w /\ same_files w w')
      (fun _ w' => frames_of w' = frames_of w /\ same_files w w') w;
}.

(** ** References *)

(** A frame and flags. *)
Notation entry := (Z * Z)%type (only parsing).

Definition writable (e : entry) : Prop := has_flags e.2 MF_WRITE = true.

(** The number of entries of a frame, and of references in a list. *)
Definition refs (pa : Z) (V : gmap (Z * Z) entry) : Z := Z.of_nat (size (filter (fun ke => ke.2.1 = pa) V)).
Definition occ (pa : Z) (ps : list Z) : Z := Z.of_nat (length (filter (fun p => p = pa) ps)).

Lemma refs_nonneg pa V : 0 <= refs pa V.
Proof. unfold refs. lia. Qed.
Lemma occ_nonneg pa ps : 0 <= occ pa ps.
Proof. unfold occ. lia. Qed.

Lemma occ_cons pa p ps : occ pa (p :: ps) = occ pa ps + if decide (p = pa) then 1 else 0.
Proof. unfold occ. rewrite filter_cons. case_decide; simpl; lia. Qed.

Lemma occ_pos pa ps : pa ∈ ps <-> 0 < occ pa ps.
Proof.
  induction ps as [|p ps IH]; [split; [by intros ?%not_elem_of_nil|done]|].
  rewrite elem_of_cons, occ_cons, IH. pose proof (occ_nonneg pa ps). case_decide as Hp.
  - split; [lia|by left].
  - split; [intros [->|?]; [done|lia]|right; lia].
Qed.

Lemma refs_insert pa V k e :
  V !! k = None -> refs pa (<[k := e]> V) = refs pa V + if decide (e.1 = pa) then 1 else 0.
Proof.
  intros Hk. unfold refs. case_decide as He.
  - rewrite map_filter_insert_True by done. rewrite map_size_insert_None; [lia|].
    apply map_lookup_filter_None. by left.
  - rewrite map_filter_insert_False by done. rewrite delete_id by done. lia.
Qed.

Lemma refs_delete pa V k e :
  V !! k = Some e -> refs pa (delete k V) = refs pa V - if decide (e.1 = pa) then 1 else 0.
Proof.
  intros Hk. rewrite <-(insert_delete_id V k e Hk) at 2. rewrite refs_insert by (by apply lookup_delete_eq). lia.
Qed.

Lemma refs_replace pa V k e e' :
  V !! k = Some e ->
  refs pa (<[k := e']> V) = refs pa V - (if decide (e.1 = pa) then 1 else 0) + if decide (e'.1 = pa) then 1 else 0.
Proof.
  intros Hk. rewrite <-insert_delete_eq, refs_insert by (by apply lookup_delete_eq).
  by rewrite (refs_delete _ _ _ e).
Qed.

(** A frame with an entry has a reference; one with a single reference has a single entry. *)
Lemma refs_pos pa V k fl : V !! k = Some (pa, fl) -> 0 < refs pa V.
Proof.
  intros Hk. pose proof (refs_delete pa V k _ Hk) as Hd. simpl in Hd. rewrite decide_True in Hd by done.
  pose proof (refs_nonneg pa (delete k V)). lia.
Qed.

Lemma refs_one pa V k k' fl fl' :
  refs pa V <= 1 -> V !! k = Some (pa, fl) -> V !! k' = Some (pa, fl') -> k' = k.
Proof.
  intros H1 Hk Hk'. destruct (decide (k' = k)) as [|Hne]; [done|exfalso].
  pose proof (refs_delete pa V k _ Hk) as Hd. simpl in Hd. rewrite decide_True in Hd by done.
  assert (0 < refs pa (delete k V)); [|lia]. apply (refs_pos _ _ k' fl'). by rewrite lookup_delete_ne.
Qed.

(** ** The invariant *)

Record sound_parts (other : gset Z) (ps : list Z) (ft : gmap Z Z) (V : gmap (Z * Z) entry) (fr : gset Z) : Prop := {
  s_count pa c : ft !! pa = Some c -> c = refs pa V + occ pa ps /\ 1 <= c <= 255;
  s_mapped k pa fl : V !! k = Some (pa, fl) -> is_Some (ft !! pa);
  s_pending pa : pa ∈ ps -> is_Some (ft !! pa);
  s_owned : fr = dom ft ∪ other;
  s_other : dom ft ## other;
  s_write k k' pa fl fl' :
    V !! k = Some (pa, fl) -> writable (pa, fl) -> V !! k' = Some (pa, fl') -> k' = k;
}.

Section transitions.
Context (other : gset Z).
Implicit Types (ps : list Z) (ft : gmap Z Z) (V : gmap (Z * Z) entry) (fr : gset Z).
Local Notation sound_parts := (sound_parts other).

(** A frame that is not counted has no references. *)
Lemma uncounted ps ft V fr pa :
  sound_parts ps ft V fr -> ft !! pa = None -> refs pa V = 0 /\ occ pa ps = 0.
Proof.
  intros Hs Hn. split.
  - unfold refs. assert (Hf : filter (fun ke => ke.2.1 = pa) V = ∅); [|by rewrite Hf, map_size_empty].
    apply map_empty. intros k. apply map_lookup_filter_None. right. intros [pa' fl] Hk. simpl. intros ->. destruct (s_mapped _ _ _ _ _ Hs _ _ _ Hk) as [c Hc]. congruence.
  - destruct (decide (pa ∈ ps)) as [Hp|Hp].
    + destruct (s_pending _ _ _ _ _ Hs _ Hp) as [c Hc]. congruence.
    + pose proof (occ_nonneg pa ps). rewrite occ_pos in Hp. lia.
Qed.

Lemma not_owned ps ft V fr p : sound_parts ps ft V fr -> p ∉ fr -> ft !! p = None.
Proof. intros Hs Hp. rewrite (s_owned _ _ _ _ _ Hs) in Hp. apply not_elem_of_dom. set_solver. Qed.

Lemma sound_alloc ps ft V fr p :
  sound_parts ps ft V fr -> p ∉ fr -> sound_parts (p :: ps) (<[p := 1]> ft) V ({[p]} ∪ fr).
Proof.
  intros Hs Hp. pose proof (not_owned _ _ _ _ _ Hs Hp) as Hn. destruct (uncounted _ _ _ _ _ Hs Hn) as [Hr Ho].
  split.
  - intros pa c. rewrite occ_cons, lookup_insert. case_decide as Hpa.
    + intros [= <-]. subst pa. lia.
    + intros Hc. pose proof (s_count _ _ _ _ _ Hs _ _ Hc). lia.
  - intros k pa fl Hk. rewrite lookup_insert_is_Some. destruct (decide (p = pa)); [by left|right].
    split; [done|]. by eapply s_mapped.
  - intros pa [->|Hpa]%elem_of_cons; rewrite lookup_insert_is_Some; [by left|].
    destruct (decide (p = pa)); [by left|right]. split; [done|]. by eapply s_pending.
  - rewrite (s_owned _ _ _ _ _ Hs), dom_insert_L. set_solver.
  - rewrite dom_insert_L. pose proof (s_other _ _ _ _ _ Hs). rewrite (s_owned _ _ _ _ _ Hs) in Hp. set_solver.
  - apply (s_write _ _ _ _ _ Hs).
Qed.

(** A pending reference becomes an entry. *)
Lemma sound_map ps ft V fr k p fl :
  sound_parts (p :: ps) ft V fr -> V !! k = None ->
  (forall k' fl', V !! k' = Some (p, fl') -> ~ writable (p, fl) /\ ~ writable (p, fl')) ->
  sound_parts ps ft (<[k := (p, fl)]> V) fr.
Proof.
  intros Hs Hk Hw. split.
  - intros pa c Hc. pose proof (s_count _ _ _ _ _ Hs _ _ Hc) as Hcount. rewrite occ_cons in Hcount.
    rewrite refs_insert by done. simpl. lia.
  - intros k' pa fl'. rewrite lookup_insert. case_decide as Heq.
    + intros [= <- <-]. apply (s_pending _ _ _ _ _ Hs). by apply list_elem_of_here.
    + apply (s_mapped _ _ _ _ _ Hs).
  - intros pa Hpa. apply (s_pending _ _ _ _ _ Hs). by apply list_elem_of_further.
  - apply (s_owned _ _ _ _ _ Hs).
  - apply (s_other _ _ _ _ _ Hs).
  - intros k1 k2 pa fl1 fl2. rewrite !lookup_insert. case_decide as H1; case_decide as H2; try congruence.
    + intros [= <- <-] Hwr Hk2. by destruct (Hw _ _ Hk2) as [Hno _].
    + intros Hk1 Hwr [= <- <-]. by destruct (Hw _ _ Hk1) as [_ Hno].
    + apply (s_write _ _ _ _ _ Hs).
Qed.

(** An entry becomes a pending reference. *)
Lemma sound_unmap ps ft V fr k p fl :
  sound_parts ps ft V fr -> V !! k = Some (p, fl) -> sound_parts (p :: ps) ft (delete k V) fr.
Proof.
  intros Hs Hk. split.
  - intros pa c Hc. pose proof (s_count _ _ _ _ _ Hs _ _ Hc). rewrite (refs_delete _ _ _ _ Hk), occ_cons. simpl. lia.
  - intros k' pa fl' [_ Hk']%lookup_delete_Some. by eapply s_mapped.
  - intros pa [->|Hpa]%elem_of_cons; [by eapply s_mapped|by eapply s_pending].
  - apply (s_owned _ _ _ _ _ Hs).
  - apply (s_other _ _ _ _ _ Hs).
  - intros k1 k2 pa fl1 fl2 [_ H1]%lookup_delete_Some Hwr [_ H2]%lookup_delete_Some. by eapply s_write.
Qed.

Lemma sound_protect ps ft V fr k p fl fl' :
  sound_parts ps ft V fr -> V !! k = Some (p, fl) ->
  (writable (p, fl') -> refs p V <= 1) -> sound_parts ps ft (<[k := (p, fl')]> V) fr.
Proof.
  intros Hs Hk Hw. split.
  - intros pa c Hc. pose proof (s_count _ _ _ _ _ Hs _ _ Hc). rewrite (refs_replace _ _ _ _ _ Hk). simpl. lia.
  - intros k' pa f. rewrite lookup_insert. case_decide; [intros [= <- <-]|]; by eapply s_mapped.
  - apply (s_pending _ _ _ _ _ Hs).
  - apply (s_owned _ _ _ _ _ Hs).
  - apply (s_other _ _ _ _ _ Hs).
  - intros k1 k2 pa f1 f2. rewrite !lookup_insert. case_decide as H1; case_decide as H2; try congruence.
    + intros [= <- <-] Hwr Hk2. rewrite <-H1. by eapply refs_one; [apply Hw| |].
    + intros Hk1 Hwr [= <- <-]. rewrite <-H2. by eapply s_write.
    + apply (s_write _ _ _ _ _ Hs).
Qed.

Lemma sound_incr ps ft V fr p c :
  sound_parts ps ft V fr -> ft !! p = Some c -> c < 255 -> sound_parts (p :: ps) (<[p := c + 1]> ft) V fr.
Proof.
  intros Hs Hc Hlt. assert (Hdom : dom (<[p := c + 1]> ft) = dom ft).
  { rewrite dom_insert_L. apply elem_of_dom_2 in Hc. set_solver. }
  split.
  - intros pa c'. rewrite occ_cons, lookup_insert. case_decide as Hpa.
    + intros [= <-]. subst pa. pose proof (s_count _ _ _ _ _ Hs _ _ Hc). lia.
    + intros Hc'. pose proof (s_count _ _ _ _ _ Hs _ _ Hc'). lia.
  - intros k pa fl Hk. apply elem_of_dom. rewrite Hdom. apply elem_of_dom. by eapply s_mapped.
  - intros pa [->|Hpa]%elem_of_cons; apply elem_of_dom; rewrite Hdom; apply elem_of_dom; [done|by eapply s_pending].
  - rewrite Hdom. apply (s_owned _ _ _ _ _ Hs).
  - rewrite Hdom. apply (s_other _ _ _ _ _ Hs).
  - apply (s_write _ _ _ _ _ Hs).
Qed.

(** A pending reference is given up. *)
Lemma sound_decr ps ft V fr p c :
  sound_parts (p :: ps) ft V fr -> ft !! p = Some c -> c <> 1 -> sound_parts ps (<[p := c - 1]> ft) V fr.
Proof.
  intros Hs Hc Hne. assert (Hdom : dom (<[p := c - 1]> ft) = dom ft).
  { rewrite dom_insert_L. apply elem_of_dom_2 in Hc. set_solver. }
  split.
  - intros pa c'. rewrite lookup_insert. case_decide as Hpa.
    + intros [= <-]. subst pa. pose proof (s_count _ _ _ _ _ Hs _ _ Hc) as H. rewrite occ_cons, decide_True in H by done. lia.
    + intros Hc'. pose proof (s_count _ _ _ _ _ Hs _ _ Hc') as H. rewrite occ_cons, decide_False in H by done. lia.
  - intros k pa fl Hk. apply elem_of_dom. rewrite Hdom. apply elem_of_dom. by eapply s_mapped.
  - intros pa Hpa. apply elem_of_dom. rewrite Hdom. apply elem_of_dom, (s_pending _ _ _ _ _ Hs), list_elem_of_further, Hpa.
  - rewrite Hdom. apply (s_owned _ _ _ _ _ Hs).
  - rewrite Hdom. apply (s_other _ _ _ _ _ Hs).
  - apply (s_write _ _ _ _ _ Hs).
Qed.

Lemma sound_free ps ft V fr p :
  sound_parts (p :: ps) ft V fr -> ft !! p = Some 1 ->
  sound_parts ps (delete p ft) V (fr ∖ {[p]}) /\ refs p V = 0 /\ p ∈ fr.
Proof.
  intros Hs Hc. pose proof (s_count _ _ _ _ _ Hs _ _ Hc) as [H1 _]. rewrite occ_cons, decide_True in H1 by done.
  pose proof (refs_nonneg p V). pose proof (occ_nonneg p ps).
  assert (Hin : p ∈ dom ft) by (by eapply elem_of_dom_2).
  split_and!; [|lia|rewrite (s_owned _ _ _ _ _ Hs); set_solver]. split.
  - intros pa c [Hne Hc']%lookup_delete_Some. pose proof (s_count _ _ _ _ _ Hs _ _ Hc') as H2.
    rewrite occ_cons, decide_False in H2 by done. lia.
  - intros k pa fl Hk. assert (pa <> p) by (intros ->; apply refs_pos in Hk; lia).
    rewrite lookup_delete_ne by done. by eapply s_mapped.
  - intros pa Hpa. assert (pa <> p) by (intros ->; apply occ_pos in Hpa; lia).
    rewrite lookup_delete_ne by done. apply (s_pending _ _ _ _ _ Hs), list_elem_of_further, Hpa.
  - rewrite (s_owned _ _ _ _ _ Hs), dom_delete_L. pose proof (s_other _ _ _ _ _ Hs). set_solver.
  - rewrite dom_delete_L. pose proof (s_other _ _ _ _ _ Hs). set_solver.
  - apply (s_write _ _ _ _ _ Hs).
Qed.
Lemma sound_swap ps ft V fr p q : sound_parts (p :: q :: ps) ft V fr -> sound_parts (q :: p :: ps) ft V fr.
Proof.
  intros Hs. split; try apply Hs.
  - intros pa c Hc. pose proof (s_count _ _ _ _ _ Hs _ _ Hc) as H. rewrite !occ_cons in *. lia.
  - intros pa Hpa. apply (s_pending _ _ _ _ _ Hs). rewrite !elem_of_cons in *. tauto.
Qed.
Lemma refs_frames pa V : refs pa V = Z.of_nat (size (filter (fun kp => kp.2 = pa) (fst <$> V))).
Proof. unfold refs. by rewrite map_filter_fmap, map_size_fmap. Qed.

(** The flags of entries change. *)
Lemma sound_reflag ps ft V V' fr :
  sound_parts ps ft V fr -> fst <$> V' = fst <$> V ->
  (forall k k' pa fl fl', V' !! k = Some (pa, fl) -> writable (pa, fl) -> V' !! k' = Some (pa, fl') -> k' = k) ->
  sound_parts ps ft V' fr.
Proof.
  intros Hs Hf Hw. split; try apply Hs.
  - intros pa c Hc. rewrite refs_frames, Hf, <-refs_frames. by apply (s_count _ _ _ _ _ Hs).
  - intros k pa fl Hk. assert (Hfst : (fst <$> V) !! k = Some pa) by (by rewrite <-Hf, lookup_fmap, Hk).
    rewrite lookup_fmap in Hfst. apply fmap_Some in Hfst as ([pa' fl'] & Hk' & ->). by eapply s_mapped.
  - done.
Qed.

End transitions.
