(* ===== verification/CowOps.v ===== *)
(** * Private memory: the operations

    What each operation of [Cow] does to the invariant of [CowSpec] and to the [contents] of the
    address spaces, the bytes each of them sees in each page.  Sharing frames is not visible in
    the contents. *)

From S2P Require Import Prelude Io PageCache Cow CowSpec.

#[local] Opaque iwp.

Section ops.
Context {P F W : Type} {PT : PageTable P} {Env : MmEnv F W}.
Context {psize : Z} {PL : PageTableLaws P psize} {EL : MmEnvLaws F W} (other : gset Z).
Local Notation mm := (Mm P W).
Implicit Types (s : mm) (ps : list Z).

Definition entries (s : mm) : gmap (Z * Z) (Z * Z) := 
  map_uncurry (M1 := gmap Z) (M2 := gmap Z) (M12 := gmap (Z * Z)) (pt_view <$> tables s).
Definition contents (s : mm) : gmap (Z * Z) (list Z) := (fun e => frame_bytes s e.1) <$> entries s.
Definition sound (ps : list Z) (s : mm) : Prop :=
  sound_parts other ps (frame_table s) (entries s) (frames_of (outside s)).

(** No counter is at its limit. *)
Definition roomy (s : mm) : Prop := map_Forall (fun _ c => c < 255) (frame_table s).

(** What operations leave alone. *)
Definition stays (s s' : mm) : Prop := dom (tables s') = dom (tables s) /\ same_files (outside s) (outside s').
Definition keeps (s s' : mm) : Prop := stays s s' /\ (roomy s -> roomy s').

(** What a failing operation leaves: the invariant, with references that may be lost, and every
    page that was there. *)
Definition loses (s : mm) (e : VfsError) (s' : mm) : Prop :=
  exists ps', sound ps' s' /\ contents s ⊆ contents s' /\ stays s s'.

Lemma same_files_refl w : same_files w w.
Proof. done. Qed.
Lemma same_files_trans w1 w2 w3 : same_files w1 w2 -> same_files w2 w3 -> same_files w1 w3.
Proof. intros H1 H2 f. destruct (H1 f) as [? Hb1], (H2 f) as [? Hb2]. split; [congruence|]. intros i. by rewrite Hb2. Qed.

Lemma keeps_refl s : keeps s s.
Proof. done. Qed.
Lemma keeps_trans s1 s2 s3 : keeps s1 s2 -> keeps s2 s3 -> keeps s1 s3.
Proof. intros [[? ?] ?] [[? ?] ?]. split; [split; [congruence|by eapply same_files_trans]|auto]. Qed.

Lemma keeps_table s s' a : keeps s s' -> is_Some (tables s !! a) -> is_Some (tables s' !! a).
Proof. intros [[Hd _] _]. by rewrite <-!elem_of_dom, Hd. Qed.

(** ** Entries *)

Lemma lookup_entries s a v : entries s !! (a, v) = p ← tables s !! a; pt_view p !! v.
Proof. unfold entries. rewrite lookup_map_uncurry, lookup_fmap. by destruct (tables s !! a). Qed.

Lemma entries_eq s s' : tables s' = tables s -> entries s' = entries s.
Proof. unfold entries. by intros ->. Qed.

Lemma entries_insert s a p p' v e :
  tables s !! a = Some p -> pt_view p' = <[v := e]> (pt_view p) ->
  entries (set_tables (<[a := p']> (tables s)) s) = <[(a, v) := e]> (entries s).
Proof.
  intros Hp Hv. apply map_eq. intros [a' v']. rewrite lookup_entries. simpl. rewrite lookup_insert.
  case_decide as Ha.
  - subst a'. simpl. rewrite Hv, !lookup_insert, lookup_entries, Hp. simpl.
    destruct (decide (v = v')) as [->|]; [by rewrite decide_True|by rewrite decide_False by congruence].
  - rewrite lookup_insert, decide_False by congruence. by rewrite lookup_entries.
Qed.

Lemma entries_delete s a p p' v :
  tables s !! a = Some p -> pt_view p' = delete v (pt_view p) ->
  entries (set_tables (<[a := p']> (tables s)) s) = delete (a, v) (entries s).
Proof.
  intros Hp Hv. apply map_eq. intros [a' v']. rewrite lookup_entries. simpl. rewrite lookup_insert, lookup_delete.
  case_decide as Ha.
  - subst a'. simpl. rewrite Hv, lookup_delete, lookup_entries, Hp. simpl.
    destruct (decide (v = v')) as [->|]; [by rewrite decide_True|by rewrite decide_False by congruence].
  - rewrite decide_False by congruence. by rewrite lookup_entries.
Qed.

Lemma entries_same s a p p' :
  tables s !! a = Some p -> pt_view p' = pt_view p ->
  entries (set_tables (<[a := p']> (tables s)) s) = entries s.
Proof.
  intros Hp Hv. apply map_eq. intros [a' v']. rewrite !lookup_entries. simpl. rewrite lookup_insert.
  case_decide as Ha; [|done]. subst a'. simpl. by rewrite Hv, Hp.
Qed.

(** Only the page tables differ. *)
Definition only_tables (s s' : mm) : Prop :=
  frame_table s' = frame_table s /\ memory s' = memory s /\ outside s' = outside s /\
  dom (tables s') = dom (tables s).

Lemma only_tables_set s a p p' : tables s !! a = Some p -> only_tables s (set_tables (<[a := p']> (tables s)) s).
Proof. intros Hp. split_and!; try done. simpl. rewrite dom_insert_L. apply elem_of_dom_2 in Hp. set_solver. Qed.

Lemma only_tables_keeps s s' : only_tables s s' -> keeps s s'.
Proof. intros (Hf & _ & Ho & Hd). split; [split; [done|by rewrite Ho]|]. unfold roomy. by rewrite Hf. Qed.

Lemma contents_tables s s' : only_tables s s' -> contents s' = (fun e => frame_bytes s e.1) <$> entries s'.
Proof. intros (_ & Hm & _). unfold contents, frame_bytes. by rewrite Hm. Qed.

Lemma sound_tables ps s s' :
  only_tables s s' -> sound_parts other ps (frame_table s) (entries s') (frames_of (outside s)) -> sound ps s'.
Proof. intros (Hf & _ & Ho & _). unfold sound. by rewrite Hf, Ho. Qed.

(** ** The page table as a map *)

Lemma iwp_on_table {A} a (f : P -> result PagingError A * P) p Q (R : VfsError -> mm -> Prop) s :
  tables s !! a = Some p -> Q (f p).1 (set_tables (<[a := (f p).2]> (tables s)) s) -> iwp (on_table a f) Q R s.
Proof.
  intros Hp HQ. apply iwp_run. left. unfold on_table. rewrite Hp. destruct (f p) as [r p']. by eexists _, _.
Qed.

Lemma iwp_query a v Q (R : VfsError -> mm -> Prop) s :
  is_Some (tables s !! a) -> v mod psize = 0 ->
  Q (match entries s !! (a, v) with Some (pa, fl) => Ok (pa, fl, psize) | None => Err NotMapped end) s ->
  iwp (on_table a (fun p => (pt_query v p, p))) Q R s.
Proof.
  intros [p Hp] Hv HQ. eapply iwp_on_table; [done|]. simpl. rewrite pt_query_law by done.
  rewrite lookup_entries, Hp in HQ. simpl in HQ. rewrite insert_id by done. by destruct s.
Qed.

Lemma iwp_pt_map a v pa fl Q (R : VfsError -> mm -> Prop) s :
  is_Some (tables s !! a) -> v mod psize = 0 -> entries s !! (a, v) = None ->
  (forall s', only_tables s s' -> entries s' = <[(a, v) := (pa, fl)]> (entries s) -> Q (Ok ()) s') ->
  (forall e s', only_tables s s' -> entries s' = entries s -> Q (Err e) s') ->
  iwp (on_table a (pt_map v pa psize fl)) Q R s.
Proof.
  intros [p Hp] Hv Hn HO HE. eapply iwp_on_table; [done|]. rewrite lookup_entries, Hp in Hn.
  pose proof (pt_map_law v pa fl p Hv Hn) as Hm. pose proof (only_tables_set s a p (pt_map v pa psize fl p).2 Hp).
  destruct (pt_map v pa psize fl p) as [[[]|e] p']; [apply HO|apply HE]; try done.
  - by apply entries_insert with p.
  - by apply entries_same with p.
Qed.

Lemma iwp_pt_protect a v fl pa fl0 Q (R : VfsError -> mm -> Prop) s :
  is_Some (tables s !! a) -> v mod psize = 0 -> entries s !! (a, v) = Some (pa, fl0) ->
  (forall r s', only_tables s s' -> entries s' = <[(a, v) := (pa, fl)]> (entries s) -> Q (Ok r) s') ->
  iwp (on_table a (pt_protect v fl)) Q R s.
Proof.
  intros [p Hp] Hv Hn HO. eapply iwp_on_table; [done|]. rewrite lookup_entries, Hp in Hn.
  destruct (pt_protect_law v fl pa fl0 p Hv Hn) as (r & p' & -> & Hview). apply HO.
  - by eapply only_tables_set.
  - by apply entries_insert with p.
Qed.

Lemma iwp_pt_remap a v pa fl e Q (R : VfsError -> mm -> Prop) s :
  is_Some (tables s !! a) -> v mod psize = 0 -> entries s !! (a, v) = Some e ->
  (forall r s', only_tables s s' -> entries s' = <[(a, v) := (pa, fl)]> (entries s) -> Q (Ok r) s') ->
  iwp (on_table a (pt_remap v pa fl)) Q R s.
Proof.
  intros [p Hp] Hv Hn HO. eapply iwp_on_table; [done|]. rewrite lookup_entries, Hp in Hn.
  destruct (pt_remap_law v pa fl e p Hv Hn) as (r & p' & -> & Hview). apply HO.
  - by eapply only_tables_set.
  - by apply entries_insert with p.
Qed.

Lemma iwp_pt_unmap a v Q (R : VfsError -> mm -> Prop) s :
  is_Some (tables s !! a) -> v mod psize = 0 ->
  (forall pa fl s', entries s !! (a, v) = Some (pa, fl) -> only_tables s s' ->
     entries s' = delete (a, v) (entries s) -> Q (Ok (pa, fl, psize)) s') ->
  (forall e s', entries s !! (a, v) = None -> only_tables s s' -> entries s' = entries s -> Q (Err e) s') ->
  iwp (on_table a (pt_unmap v)) Q R s.
Proof.
  intros [p Hp] Hv HO HE. eapply iwp_on_table; [done|]. pose proof (pt_unmap_law v p Hv) as Hu.
  rewrite lookup_entries, Hp in HO, HE. simpl in HO, HE. destruct (pt_view p !! v) as [[pa fl]|].
  - destruct Hu as (p' & -> & Hview). apply HO; [done|by eapply only_tables_set|by apply entries_delete with p].
  - destruct Hu as (e & p' & -> & Hview). apply HE; [done|by eapply only_tables_set|by apply entries_same with p].
Qed.
(** ** Frames *)

Lemma contents_write s pa bs :
  refs pa (entries s) = 0 -> contents (set_memory (<[pa := bs]> (memory s)) s) = contents s.
Proof.
  intros Hr. unfold contents. change (entries (set_memory _ s)) with (entries s). apply map_fmap_ext. intros k [pa' fl] Hk.
  unfold frame_bytes. simpl. rewrite lookup_insert_ne; [done|]. intros ->. apply refs_pos in Hk. lia.
Qed.

Lemma frame_bytes_write s pa bs : frame_bytes (set_memory (<[pa := bs]> (memory s)) s) pa = bs.
Proof. unfold frame_bytes. simpl. by rewrite lookup_insert_eq. Qed.

Lemma iwp_write_frame pa bs (Q : () -> mm -> Prop) (R : VfsError -> mm -> Prop) ps s :
  sound ps s -> refs pa (entries s) = 0 ->
  (forall s', sound ps s' -> entries s' = entries s -> contents s' = contents s -> keeps s s' ->
     frame_bytes s' pa = bs -> frame_table s' = frame_table s -> outside s' = outside s -> Q () s') ->
  iwp (write_frame pa bs) Q R s.
Proof.
  intros Hs Hr HQ. apply iwp_set, HQ; try done; [by apply contents_write|apply frame_bytes_write].
Qed.

(** A frame that is counted but has no entry. *)
Definition fresh (pa : Z) (ps : list Z) (s s' : mm) : Prop :=
  sound (pa :: ps) s' /\ refs pa (entries s') = 0 /\ entries s' = entries s /\ contents s' = contents s /\
  keeps s s'.

Lemma alloc_new_frame_spec zeroed b ps s :
  sound ps s -> cow_size b = psize ->
  iwp (alloc_new_frame b zeroed)
    (fun pa s' => fresh pa ps s s' /\
       (zeroed = true -> frame_bytes s' pa = replicate (Z.to_nat psize) 0))
    (fun _ s' => sound ps s' /\ contents s' = contents s /\ keeps s s') s.
Proof.
  intros Hs Hb. unfold alloc_new_frame, alloc_frame. apply iwp_bind, iwp_bind.
  apply iwp_zoom. eapply iwp_mono; [apply alloc_pages_law| |].
  2:{ intros e w' [Hf Hsf]. split_and!; [|done|done]. unfold sound in *. simpl. by rewrite Hf. }
  intros pa w' (Hp & Hf & Hsf). pose proof (not_owned _ _ _ _ _ _ Hs Hp) as Hn.
  destruct (uncounted _ _ _ _ _ _ Hs Hn) as [Hr _].
  pose proof (sound_alloc _ _ _ _ _ _ Hs Hp) as Hs'. rewrite <-Hf in Hs'.
  set (s1 := set_outside w' s).
  assert (Hend : forall s2, entries s2 = entries s -> frame_table s2 = frame_table s -> outside s2 = w' ->
    contents s2 = contents s -> dom (tables s2) = dom (tables s) ->
    (zeroed = true -> frame_bytes s2 pa = replicate (Z.to_nat psize) 0) ->
    iwp (_ ← init_frame pa; mret pa)
      (fun pa s' => fresh pa ps s s' /\ (zeroed = true -> frame_bytes s' pa = replicate (Z.to_nat psize) 0))
      (fun _ s' => sound ps s' /\ contents s' = contents s /\ keeps s s') s2).
  { intros s2 He Hft Ho Hc Hd Hz. unfold init_frame, get_frame_ref, set_count.
    apply iwp_bind, iwp_bind, iwp_get, iwp_bind, iwp_assert; [rewrite Hft; by apply bool_decide_eq_true|].
    apply iwp_set, iwp_ret. split; [|done]. split_and!; try done.
    - unfold sound. change (entries (set_frame_table _ s2)) with (entries s2). simpl. by rewrite Hft, Ho, He.
    - change (entries (set_frame_table _ s2)) with (entries s2). by rewrite He.
    - split; [split; simpl; [done|by rewrite Ho]|]. intros Hroom. unfold roomy. simpl. rewrite Hft.
      by apply map_Forall_insert_2. }
  destruct zeroed; apply iwp_bind.
  - apply iwp_set, iwp_ret, Hend; try done.
    + by apply (contents_write s1).
    + intros _. rewrite Hb. apply frame_bytes_write.
  - by apply iwp_ret, iwp_ret, Hend.
Qed.

Lemma drop_frame_spec pa ps s (R : VfsError -> mm -> Prop) :
  sound (pa :: ps) s ->
  iwp (drop_frame pa psize)
    (fun _ s' => sound ps s' /\ entries s' = entries s /\ contents s' = contents s /\ keeps s s') R s.
Proof.
  intros Hs. destruct (s_pending _ _ _ _ _ Hs pa) as [c Hc]; [by apply list_elem_of_here|].
  pose proof (s_count _ _ _ _ _ Hs _ _ Hc) as [_ Hrange].
  unfold drop_frame, get_frame_ref, set_count. apply iwp_bind, iwp_get. rewrite Hc. simpl.
  apply iwp_bind, iwp_assert; [lia|]. apply iwp_bind, iwp_set. destruct (Z.eqb_spec (c - 1) 0) as [H1|H1].
  - assert (c = 1) as -> by lia. destruct (sound_free _ _ _ _ _ _ Hs Hc) as (Hs' & _ & Hin).
    destruct (dealloc_pages_law pa (psize / Size4K) (outside s) Hin) as [Hf Hsf].
    unfold remove_frame, get_frame_ref, dealloc_frame. apply iwp_bind, iwp_bind, iwp_get, iwp_bind, iwp_assert.
    { apply bool_decide_eq_true. simpl. by rewrite lookup_insert_eq. }
    apply iwp_set, iwp_set. split; [|split; [done|split; [done|split; [done|]]]].
    + unfold sound. simpl. rewrite Hf, delete_insert_eq. exact Hs'.
    + intros Hroom. unfold roomy. simpl. rewrite delete_insert_eq. by apply map_Forall_delete.
  - apply iwp_ret. split; [|split; [done|split; [done|split; [done|]]]].
    + unfold sound. simpl. apply sound_decr; [exact Hs|exact Hc|lia].
    + intros Hroom. apply map_Forall_insert_2; [lia|done].
Qed.
(** ** New pages *)

(** What a page of a mapping shows at first: the bytes of the part of the file that is mapped, each
    at its place, and zeros around it. *)
Definition initial_byte (b : CowBackend F) (w : W) (addr : Z) : Z :=
  match cow_file b with
  | None => 0
  | Some (f, file_start, file_end) =>
      let off := file_start + (addr - cow_start b) in
      if (cow_start b <=? addr) && (off <? fb_len f w) && match file_end with Some e => off <? e | None => true end
      then fb_byte f w off else 0
  end.
Definition initial (b : CowBackend F) (w : W) (v : Z) : list Z :=
  (fun j => initial_byte b w (v + j)) <$> seqZ 0 psize.

(** The mapping has pages of the size of the tables, and offsets of the file in [u64]. *)
Definition fits (b : CowBackend F) (v : Z) : Prop :=
  v mod psize = 0 /\ cow_size b = psize /\
  match cow_file b with
  | None => True
  | Some (f, file_start, file_end) =>
      0 <= file_start /\ cow_start b - v < psize /\ file_start + Z.max 0 (v - cow_start b) + psize <= u64_max
  end.

Lemma lookup_initial b w v j :
  (j < Z.to_nat psize)%nat -> initial b w v !! j = Some (initial_byte b w (v + Z.of_nat j)).
Proof.
  intros Hj. unfold initial. rewrite list_lookup_fmap, lookup_seqZ_lt by lia. simpl. do 2 f_equal.
Qed.

Lemma initial_zero b w v : cow_file b = None -> initial b w v = replicate (Z.to_nat psize) 0.
Proof.
  intros Hb. apply list_eq_same_length with (Z.to_nat psize).
  - by rewrite length_replicate.
  - unfold initial. by rewrite length_fmap, length_seqZ.
  - intros j x y Hj. rewrite lookup_initial, lookup_replicate_2 by done. unfold initial_byte. rewrite Hb. congruence.
Qed.

Lemma splice_initial b w v f file_start file_end pst fof len bs :
  fits b v -> cow_file b = Some (f, file_start, file_end) ->
  file_part b v file_start file_end = (pst, fof, len) ->
  Z.of_nat (length bs) = Z.min len (Z.max 0 (fb_len f w - fof)) ->
  (forall j, (j < length bs)%nat -> bs !! j = Some (fb_byte f w (fof + Z.of_nat j))) ->
  splice (Z.to_nat pst) bs (replicate (Z.to_nat psize) 0) = initial b w v.
Proof.
  intros (_ & Hsz & Hfit) Hb Hpart Hlen Hbs. rewrite Hb in Hfit. destruct Hfit as (H0 & Hst & Hmax).
  unfold file_part in Hpart. rewrite Hsz in Hpart. injection Hpart as <- <- <-. pose proof psize_pos.
  remember (match file_end with None => _ | Some e => _ end) as lim eqn:Hlim in Hlen.
  assert (0 <= lim) by (subst lim; destruct file_end; unfold u64_max; lia).
  assert (Hin : (Z.to_nat (Z.max 0 (cow_start b - v)) + length bs <= Z.to_nat psize)%nat) by lia.
  apply list_eq_same_length with (Z.to_nat psize).
  - unfold initial. by rewrite length_fmap, length_seqZ.
  - by rewrite length_splice; rewrite length_replicate.
  - intros j x y Hj. rewrite lookup_splice, lookup_initial by (rewrite ?length_replicate; lia).
    unfold initial_byte. rewrite Hb. case_decide as Hj'.
    + rewrite Hbs by lia. intros [= <-] [= <-].
      replace (file_start + (v + Z.of_nat j - cow_start b)) with
        (file_start + Z.max 0 (v - cow_start b) + Z.of_nat (j - Z.to_nat (Z.max 0 (cow_start b - v)))) by lia.
      remember (file_start + _ + Z.of_nat (j - _)) as off eqn:Hoff. destruct (Z.leb_spec (cow_start b) (v + Z.of_nat j)); [|lia].
      destruct (Z.ltb_spec off (fb_len f w)); [|lia]. destruct file_end as [e|]; [|done].
      destruct (Z.ltb_spec off e); [done|lia].
    + rewrite lookup_replicate_2 by lia. intros [= <-] [= <-].
      remember (file_start + (v + Z.of_nat j - cow_start b)) as off eqn:Hoff. destruct (Z.leb_spec (cow_start b) (v + Z.of_nat j)); [|done].
      destruct (Z.ltb_spec off (fb_len f w)); [|done]. unfold u64_max in *. destruct file_end as [e|]; [|lia].
      destruct (Z.ltb_spec off e); [lia|done].
Qed.

Lemma loses_sound ps s e s' : sound ps s' -> contents s' = contents s -> keeps s s' -> loses s e s'.
Proof. intros Hs Hc [Hk _]. exists ps. by rewrite Hc. Qed.

Lemma fresh_trans pa ps s1 s2 s3 : fresh pa ps s1 s2 -> fresh pa ps s2 s3 -> fresh pa ps s1 s3.
Proof.
  intros (_ & _ & He1 & Hc1 & Hk1) (Hs & Hr & He2 & Hc2 & Hk2).
  split_and!; [done|done|congruence|congruence|by eapply keeps_trans].
Qed.

(** The new page gets an entry. *)
Lemma map_fresh a v pa fl ps s s1 :
  is_Some (tables s !! a) -> v mod psize = 0 -> entries s !! (a, v) = None -> fresh pa ps s s1 ->
  iwp (r ← on_table a (pt_map v pa psize fl); paging r)
    (fun _ s' => sound ps s' /\ keeps s s' /\ contents s' = <[(a, v) := frame_bytes s1 pa]> (contents s) /\
                 entries s' = <[(a, v) := (pa, fl)]> (entries s))
    (loses s) s1.
Proof.
  intros Ha Hv Hn (Hs & Hr & He & Hc & Hk). apply iwp_bind, iwp_pt_map; [by eapply keeps_table|done|by rewrite He| |].
  - intros s' Ho He'. apply iwp_ret. rewrite He in He'. split_and!; [| | |done].
    + eapply sound_tables; [done|]. rewrite He'. apply sound_map; [by rewrite <-He|done|].
      intros k' fl' Hk'. rewrite <-He in Hk'. apply refs_pos in Hk'. lia.
    + eapply keeps_trans; [done|]. by apply only_tables_keeps.
    + rewrite (contents_tables _ _ Ho), He', fmap_insert. simpl. by rewrite <-Hc, <-He.
  - intros e s' Ho He'. apply iwp_throw. apply loses_sound with (pa :: ps).
    + eapply sound_tables; [done|]. by rewrite He'.
    + by rewrite (contents_tables _ _ Ho), He', <-Hc.
    + eapply keeps_trans; [done|]. by apply only_tables_keeps.
Qed.
Lemma alloc_new_at_spec a b v fl ps s :
  sound ps s -> is_Some (tables s !! a) -> fits b v -> entries s !! (a, v) = None ->
  iwp (alloc_new_at a b v fl)
    (fun _ s' => sound ps s' /\ keeps s s' /\
       contents s' = <[(a, v) := initial b (outside s) v]> (contents s) /\
       exists pa, entries s' = <[(a, v) := (pa, fl)]> (entries s))
    (loses s) s.
Proof.
  intros Hs Ha Hfit Hn. pose proof Hfit as (Hv & Hsz & Hfile). unfold alloc_new_at. apply iwp_bind.
  eapply iwp_mono; [by apply (alloc_new_frame_spec true)| |].
  2:{ intros e s' (? & ? & ?). by eapply loses_sound. }
  intros pa s1 [Hfresh Hz]. specialize (Hz eq_refl). rewrite Hsz.
  assert (Hend : forall s2, fresh pa ps s s2 -> frame_bytes s2 pa = initial b (outside s) v ->
    iwp (r ← on_table a (pt_map v pa psize fl); paging r)
      (fun _ s' => sound ps s' /\ keeps s s' /\
         contents s' = <[(a, v) := initial b (outside s) v]> (contents s) /\
         exists pa, entries s' = <[(a, v) := (pa, fl)]> (entries s)) (loses s) s2).
  { intros s2 Hf2 Hb2. eapply iwp_mono; [by apply (map_fresh a v pa fl ps s)| |done].
    intros _ s' (? & ? & Hc & ?). rewrite Hb2 in Hc. by eauto 10. }
  apply iwp_bind. destruct (cow_file b) as [[[f file_start] file_end]|] eqn:Hb.
  2:{ apply iwp_ret, Hend; [done|]. by rewrite initial_zero. }
  destruct Hfile as (H0 & Hst & Hmax). pose proof psize_pos.
  destruct (file_part b v file_start file_end) as [[pst fof] len] eqn:Hpart.
  pose proof Hpart as Hpart'. unfold file_part in Hpart'. rewrite Hsz in Hpart'. injection Hpart' as Hpst Hfof Hlen.
  assert (0 <= len) by (destruct file_end; unfold u64_max in *; lia).
  apply iwp_bind, iwp_assert; [lia|]. destruct (Z.ltb_spec u64_max fof); [pose proof psize_pos; lia|]. rewrite andb_false_r.
  rewrite as_u64_small by (unfold u64_max in *; lia). apply iwp_bind, iwp_zoom.
  destruct Hfresh as (Hs1 & Hr1 & He1 & Hc1 & Hk1).
  eapply iwp_mono; [apply file_read_into_law; lia| |].
  - intros bs w' (Hbs & Hbytes & Hfr & Hsf). apply iwp_bind, iwp_get.
    assert (Hs2 : sound (pa :: ps) (set_outside w' s1)) by (unfold sound in *; simpl; by rewrite Hfr).
    eapply iwp_write_frame; [exact Hs2|exact Hr1|]. intros s3 Hs3 He3 Hc3 Hk3 Hb3 _ _. apply Hend.
    + split_and!; [done|by rewrite He3|by rewrite He3|by rewrite Hc3|].
      eapply keeps_trans; [done|]. eapply keeps_trans; [|done]. by split.
    + rewrite Hb3. unfold frame_bytes. simpl. change (default [] (memory s1 !! pa)) with (frame_bytes s1 pa). rewrite Hz.
      destruct Hk1 as [[_ Hk1] _]. destruct (Hk1 f) as [Hl1 Hb1]. rewrite Hl1 in Hbs.
      eapply splice_initial; [done..|]. intros j Hj. rewrite Hbytes by done. by rewrite Hb1.
  - intros e w' [Hfr Hsf]. apply loses_sound with (pa :: ps); [|done|].
    + unfold sound in *. simpl. by rewrite Hfr.
    + eapply keeps_trans; [done|]. by split.
Qed.

Lemma handle_cow_fault_spec a b v pa fl0 fl ps s :
  sound ps s -> is_Some (tables s !! a) -> fits b v -> entries s !! (a, v) = Some (pa, fl0) ->
  iwp (handle_cow_fault a b v pa fl)
    (fun _ s' => sound ps s' /\ keeps s s' /\ contents s' = contents s /\
       exists pa', entries s' = <[(a, v) := (pa', fl)]> (entries s))
    (loses s) s.
Proof.
  intros Hs Ha Hfit He. pose proof Hfit as (Hv & Hsz & _). destruct (s_mapped _ _ _ _ _ Hs _ _ _ He) as [c Hc].
  pose proof (s_count _ _ _ _ _ Hs _ _ Hc) as [Hcount Hrange]. pose proof (refs_pos _ _ _ _ He). pose proof (occ_nonneg pa ps).
  unfold handle_cow_fault, get_frame_ref. apply iwp_bind, iwp_get. rewrite Hc. apply iwp_bind, iwp_ret, iwp_bind, iwp_assert; [lia|].
  assert (Hsame : forall bs, contents s !! (a, v) = Some bs -> <[(a, v) := bs]> (contents s) = contents s) by (intros; by apply insert_id).
  assert (Hcv : contents s !! (a, v) = Some (frame_bytes s pa)) by (unfold contents; by rewrite lookup_fmap, He).
  destruct (Z.eqb_spec c 1) as [->|Hne].
  - apply iwp_bind. eapply iwp_pt_protect; [done..|]. intros r s' Ho He'. apply iwp_bind, iwp_ret, iwp_ret. split_and!.
    + eapply sound_tables; [done|]. rewrite He'. eapply sound_protect; [done..|]. lia.
    + by apply only_tables_keeps.
    + rewrite (contents_tables _ _ Ho), He', fmap_insert. by apply Hsame.
    + by eexists.
  - apply iwp_bind. eapply iwp_mono; [by apply (alloc_new_frame_spec false)| |].
    2:{ intros e s' (? & ? & ?). by eapply loses_sound. }
    intros pn s1 [(Hs1 & Hr1 & He1 & Hc1 & Hk1) _]. apply iwp_bind, iwp_get, iwp_bind.
    eapply iwp_write_frame; [exact Hs1|exact Hr1|]. intros s2 Hs2 He2 Hc2 Hk2 Hb2 _ _. apply iwp_bind.
    assert (Hk12 : keeps s s2) by (by eapply keeps_trans).
    eapply iwp_pt_remap; [by eapply keeps_table|done|by rewrite He2, He1|]. intros r s3 Ho He3.
    apply iwp_bind, iwp_ret. rewrite Hsz. rewrite He2, He1 in He3.
    assert (Hb1 : frame_bytes s1 pa = frame_bytes s pa).
    { rewrite <-Hc1 in Hcv. unfold contents in Hcv. rewrite lookup_fmap, He1, He in Hcv. by injection Hcv. }
    assert (Hs3 : sound (pa :: ps) s3).
    { eapply sound_tables; [done|]. rewrite He3, <-insert_delete_eq. apply sound_map.
      - apply sound_swap. eapply sound_unmap; [|exact He]. by rewrite <-He1, <-He2.
      - apply lookup_delete_eq.
      - intros k' fl' [_ Hk']%lookup_delete_Some. rewrite <-He1 in Hk'. apply refs_pos in Hk'. lia. }
    eapply iwp_mono; [by apply (drop_frame_spec pa ps)| |by intros].
    intros _ s4 (Hs4 & He4 & Hc4 & Hk4). split_and!.
    + done.
    + eapply keeps_trans; [exact Hk12|]. eapply keeps_trans; [by apply only_tables_keeps|done].
    + rewrite Hc4, (contents_tables _ _ Ho), He3, fmap_insert. simpl. rewrite Hb2. unfold id. rewrite Hb1.
      rewrite <-He1, <-He2. change ((fun e : Z * Z => frame_bytes s2 e.1) <$> entries s2) with (contents s2).
      rewrite Hc2, Hc1. by apply Hsame.
    + exists pn. by rewrite He4.
Qed.
(** ** Pages *)

Lemma union_present (X : gmap (Z * Z) (list Z)) k c c' : X !! k = Some c -> X ∪ {[k := c']} = X.
Proof.
  intros Hk. apply map_eq. intros k'. destruct (decide (k' = k)) as [->|].
  - rewrite Hk. by apply lookup_union_Some_l.
  - rewrite lookup_union_l; [done|]. by rewrite lookup_singleton_ne.
Qed.

Lemma contents_lookup s k : contents s !! k = (fun e => frame_bytes s e.1) <$> entries s !! k.
Proof. apply lookup_fmap. Qed.

Lemma contents_None s k : contents s !! k = None <-> entries s !! k = None.
Proof. rewrite contents_lookup. apply fmap_None. Qed.

Lemma has_flags_refl f : has_flags f f = true.
Proof. unfold has_flags. rewrite Z.land_diag. apply Z.eqb_refl. Qed.

(** After a page was populated for an access that its area permits, it permits the access. *)
Definition accessible (s : mm) (a v access : Z) : Prop :=
  exists pa fl, entries s !! (a, v) = Some (pa, fl) /\ has_flags fl access = true.

Lemma populate_page_spec a b fl access v ps s :
  sound ps s -> is_Some (tables s !! a) -> fits b v -> has_flags fl access = true ->
  iwp (populate_page a b fl access v)
    (fun ok s' => sound ps s' /\ keeps s s' /\ contents s' = contents s ∪ {[(a, v) := initial b (outside s) v]} /\
       (ok = true -> accessible s' a v access) /\ (access = MF_WRITE -> ok = true))
    (loses s) s.
Proof.
  intros Hs Ha Hfit Hacc. pose proof Hfit as (Hv & Hsz & _). unfold populate_page.
  apply iwp_bind, iwp_query; [done..|]. destruct (entries s !! (a, v)) as [[pa pfl]|] eqn:He.
  - assert (Hpres : contents s ∪ {[(a, v) := initial b (outside s) v]} = contents s).
    { eapply union_present. by rewrite contents_lookup, He. }
    rewrite Hpres. apply iwp_bind, iwp_assert; [lia|]. destruct (has_flags access MF_WRITE && negb (has_flags pfl MF_WRITE)) eqn:Hcow.
    + apply iwp_bind. eapply iwp_mono; [by apply (handle_cow_fault_spec a b v pa pfl fl ps)| |done].
      intros _ s' (? & ? & ? & pa' & He'). apply iwp_ret. split_and!; try done.
      intros _. exists pa', fl. by rewrite He', lookup_insert_eq.
    + apply iwp_ret. split_and!; [done|apply keeps_refl|done| |].
      * intros Hok. by exists pa, pfl.
      * intros ->. rewrite has_flags_refl in Hcow. by apply negb_false_iff in Hcow.
  - apply iwp_bind. eapply iwp_mono; [by apply (alloc_new_at_spec a b v fl ps)| |done].
    intros _ s' (? & ? & Hc & pa' & He'). apply iwp_ret. split_and!; try done.
    + rewrite Hc. apply insert_union_singleton_r. by apply contents_None.
    + intros _. exists pa', fl. by rewrite He', lookup_insert_eq.
Qed.

Lemma unmap_page_spec a b v ps s (R : VfsError -> mm -> Prop) :
  sound ps s -> is_Some (tables s !! a) -> v mod psize = 0 -> cow_size b = psize ->
  iwp (unmap_page a b v) (fun _ s' => sound ps s' /\ keeps s s' /\ contents s' = delete (a, v) (contents s)) R s.
Proof.
  intros Hs Ha Hv Hsz. unfold unmap_page. apply iwp_bind, iwp_pt_unmap; [done..| |].
  - intros pa fl s1 He Ho He1. apply iwp_bind, iwp_assert; [lia|]. unfold get_frame_ref. apply iwp_bind, iwp_get.
    assert (Hs1 : sound (pa :: ps) s1). { eapply sound_tables; [done|]. rewrite He1. by eapply sound_unmap. }
    destruct (s_pending _ _ _ _ _ Hs1 pa) as [c Hc]; [by apply list_elem_of_here|]. rewrite Hc. apply iwp_bind, iwp_ret.
    rewrite Hsz. eapply iwp_mono; [by apply (drop_frame_spec pa ps)| |by intros e s2 H; exact H].
    intros _ s2 (? & He2 & Hc2 & Hk2). split_and!; [done| |].
    + eapply keeps_trans; [by apply only_tables_keeps|done].
    + by rewrite Hc2, (contents_tables _ _ Ho), He1, fmap_delete.
  - intros e s1 He Ho He1. apply iwp_ret. split_and!.
    + eapply sound_tables; [done|]. by rewrite He1.
    + by apply only_tables_keeps.
    + rewrite (contents_tables _ _ Ho), He1, delete_id; [done|]. by apply contents_None.
Qed.

(** Removing the permission to write. *)
Lemma remove_write fl pa : ~ writable (pa, remove_flags fl MF_WRITE).
Proof.
  unfold writable, has_flags, remove_flags, MF_WRITE. simpl. rewrite Z.eqb_eq. intros H.
  assert (Hb : Z.testbit (Z.land (Z.ldiff fl 2) 2) 1 = true) by (by rewrite H).
  rewrite Z.land_spec, Z.ldiff_spec in Hb. simpl in Hb. by rewrite andb_false_r in Hb.
Qed.

Lemma clone_page_spec a a' b fl v ps s :
  sound ps s -> is_Some (tables s !! a) -> is_Some (tables s !! a') -> a <> a' ->
  v mod psize = 0 -> cow_size b = psize -> roomy s -> entries s !! (a', v) = None ->
  iwp (clone_page a a' b fl v)
    (fun _ s' => sound ps s' /\ keeps s s' /\
       contents s' = match contents s !! (a, v) with Some c => <[(a', v) := c]> (contents s) | None => contents s end)
    (loses s) s.
Proof.
  intros Hs Ha Ha' Hne Hv Hsz Hroom Hn. unfold clone_page. apply iwp_bind, iwp_query; [done..|].
  rewrite contents_lookup. destruct (entries s !! (a, v)) as [[pa fl0]|] eqn:He.
  2:{ apply iwp_ret. split_and!; [done|apply keeps_refl|done]. }
  destruct (s_mapped _ _ _ _ _ Hs _ _ _ He) as [c Hc]. pose proof (s_count _ _ _ _ _ Hs _ _ Hc) as [_ Hrange].
  pose proof (Hroom _ _ Hc) as Hlt. simpl in Hlt.
  apply iwp_bind, iwp_assert; [lia|]. unfold get_frame_ref. apply iwp_bind, iwp_get. rewrite Hc.
  apply iwp_bind, iwp_ret, iwp_bind, iwp_assert; [lia|]. destruct (Z.ltb_spec 255 (c + 1)); [lia|]. rewrite andb_false_r.
  replace (as_u8 (c + 1)) with (c + 1) by (unfold as_u8; rewrite Z.mod_small; lia).
  unfold set_count. apply iwp_bind, iwp_set. set (s1 := set_frame_table _ s).
  assert (Hs1 : sound (pa :: ps) s1) by (by apply sound_incr).
  destruct (Z.eqb_spec (c + 1) 255) as [H255|H255].
  { apply iwp_throw. exists (pa :: ps). by split_and!. }
  assert (Hk1 : keeps s s1).
  { split; [done|]. intros _. apply map_Forall_insert_2; [lia|done]. }
  apply iwp_bind. eapply iwp_pt_protect; [done|done|exact He|]. intros r s2 Ho2 He2. apply iwp_bind, iwp_ret.
  change (entries s1) with (entries s) in He2. rewrite Hsz.
  assert (Hs2 : sound (pa :: ps) s2).
  { eapply sound_tables; [done|]. rewrite He2. eapply sound_protect; [exact Hs1|exact He|]. by intros ?%remove_write. }
  assert (Hc2 : contents s2 = contents s).
  { rewrite (contents_tables _ _ Ho2), He2, fmap_insert. apply insert_id. by rewrite contents_lookup, He. }
  assert (Hk2 : keeps s s2) by (eapply keeps_trans; [done|by apply only_tables_keeps]).
  apply iwp_bind, iwp_pt_map.
  { by eapply keeps_table. } { done. } { rewrite He2, lookup_insert_ne by congruence. done. }
  - intros s3 Ho3 He3. apply iwp_ret. split_and!.
    + eapply sound_tables; [done|]. rewrite He3. apply sound_map; [done|rewrite He2, lookup_insert_ne by congruence; done|].
      intros k' fl' Hk'. split; [by apply remove_write|]. rewrite He2, lookup_insert in Hk'. case_decide as Heq.
      * injection Hk' as <-. apply remove_write.
      * intros Hwr. apply Heq. by eapply (s_write _ _ _ _ _ Hs k' (a, v)).
    + eapply keeps_trans; [done|]. by apply only_tables_keeps.
    + rewrite (contents_tables _ _ Ho3), He3, fmap_insert. simpl.
      change ((fun e : Z * Z => frame_bytes s2 e.1) <$> entries s2) with (contents s2). rewrite Hc2. f_equal.
      destruct Ho2 as (_ & Hm2 & _). unfold frame_bytes. by rewrite Hm2.
  - intros e s3 Ho3 He3. apply iwp_throw. eapply loses_sound with (pa :: ps).
    + eapply sound_tables; [done|]. by rewrite He3.
    + rewrite (contents_tables _ _ Ho3), He3. exact Hc2.
    + eapply keeps_trans; [done|]. by apply only_tables_keeps.
Qed.

End ops.
