(* ===== verification/CowHistory.v ===== *)
(** * Histories of private memory

    Any sequence of operations on private memory by any number of address spaces: new address
    spaces, page faults, population, unmapping, forks, changes of protection, and stores by user
    programs.  The specification has no frames: every address space has bytes of its own in each
    page, and a fork copies them.

    The second part has concrete surroundings, witnesses and limits. *)

From S2P Require Import Prelude Io PageCache Cow CowSpec CowOps.

#[local] Opaque iwp.

(** The abstract operations on the bytes that address spaces see. *)
Section abstract.
Local Notation pages := (gmap (Z * Z) (list Z)).
Implicit Types X : pages.

Definition a_populate (a : Z) (init : Z -> list Z) (vs : list Z) X : pages :=
  X ∪ list_to_map ((fun v => ((a, v), init v)) <$> vs).
Definition a_unmap (a : Z) (vs : list Z) X : pages := filter (fun kc => kc.1 ∉ pair a <$> vs) X.
Definition a_copy (a a' : Z) (vs : list Z) X : pages :=
  list_to_map (omap (fun v => (fun c => ((a', v), c)) <$> X !! (a, v)) vs) ∪ X.
Definition a_store (a page i x : Z) X : pages := alter (fun c => <[Z.to_nat i := x]> c) (a, page) X.

Lemma a_populate_cons a init v vs X :
  a_populate a init (v :: vs) X = a_populate a init vs (X ∪ {[(a, v) := init v]}).
Proof. unfold a_populate. simpl. rewrite insert_union_singleton_l. by rewrite (assoc_L (∪)). Qed.

Lemma a_unmap_cons a v vs X : a_unmap a (v :: vs) X = a_unmap a vs (delete (a, v) X).
Proof.
  unfold a_unmap. apply map_eq. intros k. apply option_eq. intros c.
  rewrite !map_lookup_filter_Some, lookup_delete_Some. simpl. rewrite elem_of_cons.
  split; [intros [? Hn]|intros [[Hne ?] Hn]]; split_and!; try tauto; [intros <-; tauto|intros [?|?]; [congruence|tauto]].
Qed.

Lemma a_copy_cons a a' v vs X :
  a <> a' -> v ∉ vs ->
  a_copy a a' (v :: vs) X =
    a_copy a a' vs (match X !! (a, v) with Some c => <[(a', v) := c]> X | None => X end).
Proof.
  intros Hne Hv. unfold a_copy. simpl. destruct (X !! (a, v)) as [c|] eqn:Hc; [|done].
  assert (Heq : omap (fun w => (fun c => ((a', w), c)) <$> <[(a', v) := c]> X !! (a, w)) vs =
                omap (fun w => (fun c => ((a', w), c)) <$> X !! (a, w)) vs).
  { apply list_omap_ext, Forall_Forall2_diag, Forall_forall. intros w _. by rewrite lookup_insert_ne by congruence. }
  cbn [fmap option_fmap option_map]. rewrite Heq. simpl. rewrite <-insert_union_l. apply insert_union_r.
  apply not_elem_of_list_to_map_1. intros ((k & c') & Hk & Hin)%list_elem_of_fmap. simpl in Hk. subst k.
  apply list_elem_of_omap in Hin as (w & Hw & Hw'). apply fmap_Some in Hw' as (? & _ & [= -> ->]). done.
Qed.

End abstract.

Inductive mm_op (F : Type) : Type :=
| MNew (a : Z)
| MPopulate (a : Z) (b : CowBackend F) (range : Z * Z) (flags access : Z)
| MUnmap (a : Z) (b : CowBackend F) (range : Z * Z)
| MClone (a a' : Z) (b : CowBackend F) (range : Z * Z) (flags : Z)
| MProtect (a start len flags : Z)
| MFault (a base stop : Z) (area : option (Z * CowBackend F)) (vaddr access : Z)
| MStore (a base stop : Z) (area : option (Z * CowBackend F)) (page i x : Z).
Arguments MNew {F} _.
Arguments MPopulate {F} _ _ _ _ _.
Arguments MUnmap {F} _ _ _.
Arguments MClone {F} _ _ _ _ _.
Arguments MProtect {F} _ _ _ _.
Arguments MFault {F} _ _ _ _ _ _.
Arguments MStore {F} _ _ _ _ _ _ _.

Section history.
Context {P F W : Type} {PT : PageTable P} {Env : MmEnv F W}.
Context {psize : Z} {PL : PageTableLaws P psize} {EL : MmEnvLaws F W} (other : gset Z).
Local Notation mm := (Mm P W).
Local Notation sound := (sound other).
Local Notation loses := (loses other).
Local Notation fits := (fits (psize := psize)).
Local Notation initial := (initial (psize := psize)).

Definition range_pages (range : Z * Z) : list Z :=
  (fun i => range.1 + i * psize) <$> seqZ 0 ((range.2 - range.1) / psize).

(** A range of whole pages that the mapping can show. *)
Definition range_ok (b : CowBackend F) (range : Z * Z) : Prop :=
  range.1 mod psize = 0 /\ range.2 mod psize = 0 /\ range.1 <= range.2 /\ cow_size b = psize /\
  Forall (fits b) (range_pages range).

Lemma pages_in_spec b range (Q : list Z -> mm -> Prop) (R : VfsError -> mm -> Prop) s :
  range_ok b range -> Q (range_pages range) s -> iwp (pages_in range.1 range.2 (cow_size b)) Q R s.
Proof.
  intros (H1 & H2 & _ & Hsz & _) HQ. unfold pages_in. rewrite Hsz, H1, H2. simpl. by apply iwp_ret.
Qed.

Lemma range_aligned b range : range_ok b range -> Forall (fun v => v mod psize = 0) (range_pages range).
Proof. intros (_ & _ & _ & _ & Hf). eapply Forall_impl; [done|]. by intros v [? _]. Qed.

Lemma range_nodup range : NoDup (range_pages range).
Proof.
  unfold range_pages. apply NoDup_fmap_2_strong; [|apply NoDup_seqZ]. pose proof psize_pos. intros x y _ _ Heq. nia.
Qed.

Lemma one_page v : v mod psize = 0 -> range_pages (v, v + psize) = [v].
Proof.
  intros Hv. pose proof psize_pos. unfold range_pages. simpl. replace (v + psize - v) with psize by lia.
  rewrite Z.div_same by lia. simpl. by rewrite Z.add_0_r.
Qed.

(** ** Ranges *)

Lemma loses_trans s1 s2 e s3 : contents s1 ⊆ contents s2 -> stays s1 s2 -> loses s2 e s3 -> loses s1 e s3.
Proof.
  intros Hc [Hd Hf] (ps & Hs & Hc' & [Hd' Hf']). exists ps. split_and!; [done|by etrans|].
  split; [congruence|by eapply same_files_trans].
Qed.

Lemma initial_same b (w w' : W) v : same_files w w' -> initial b w' v = initial b w v.
Proof.
  intros Hf. unfold initial. apply list_fmap_ext. intros j x _. unfold initial_byte.
  destruct (cow_file b) as [[[f fs] fe]|]; [|done]. destruct (Hf f) as [-> Hb]. by rewrite Hb.
Qed.

Lemma populate_loop_spec a b fl access vs n ps s :
  sound ps s -> is_Some (tables s !! a) -> Forall (fits b) vs -> has_flags fl access = true ->
  iwp (populate_loop a b fl access vs n)
    (fun m s' => sound ps s' /\ keeps s s' /\
       contents s' = a_populate a (initial b (outside s)) vs (contents s) /\
       n <= m <= n + Z.of_nat (length vs))
    (loses s) s.
Proof.
  intros Hs Ha Hfit Hacc. revert n s Hs Ha. induction Hfit as [|v vs Hv _ IH]; intros n s Hs Ha; simpl.
  - apply iwp_ret. split_and!; [done|apply keeps_refl| |lia|lia]. unfold a_populate. simpl. by rewrite (right_id_L ∅ (∪)).
  - apply iwp_bind. eapply iwp_mono; [by apply (populate_page_spec other a b fl access v ps)| |done].
    intros ok s1 (Hs1 & Hk1 & Hc1 & _). eapply iwp_mono; [apply IH; [done|by eapply keeps_table]| |].
    + intros m s2 (Hs2 & Hk2 & Hc2 & Hm). split_and!; [done|by eapply keeps_trans| |destruct ok; lia|destruct ok; lia].
      rewrite Hc2, Hc1, a_populate_cons. unfold a_populate. do 2 f_equal. apply list_fmap_ext. intros j w _. f_equal.
      apply initial_same. apply Hk1.
    + intros e s2. apply loses_trans; [|apply Hk1]. rewrite Hc1. apply map_union_subseteq_l.
Qed.

Lemma unmap_loop_spec a b vs ps s (R : VfsError -> mm -> Prop) :
  sound ps s -> is_Some (tables s !! a) -> Forall (fun v => v mod psize = 0) vs -> cow_size b = psize ->
  iwp (iter_list (unmap_page a b) vs)
    (fun _ s' => sound ps s' /\ keeps s s' /\ contents s' = a_unmap a vs (contents s)) R s.
Proof.
  intros Hs Ha Hal Hsz. revert s Hs Ha. induction Hal as [|v vs Hv _ IH]; intros s Hs Ha; simpl.
  - apply iwp_ret. split_and!; [done|apply keeps_refl|]. unfold a_unmap. symmetry. apply map_filter_id.
    intros k c _. apply not_elem_of_nil.
  - apply iwp_bind. eapply iwp_mono; [by apply (unmap_page_spec other a b v ps)| |by intros e s' Hx; exact Hx].
    intros _ s1 (Hs1 & Hk1 & Hc1). eapply iwp_mono; [apply IH; [done|by eapply keeps_table]| |done].
    intros _ s2 (Hs2 & Hk2 & Hc2). split_and!; [done|by eapply keeps_trans|]. by rewrite Hc2, Hc1, a_unmap_cons.
Qed.

Lemma clone_loop_spec a a' b fl vs ps s :
  sound ps s -> is_Some (tables s !! a) -> is_Some (tables s !! a') -> a <> a' -> roomy s ->
  Forall (fun v => v mod psize = 0) vs -> NoDup vs -> cow_size b = psize ->
  Forall (fun v => contents s !! (a', v) = None) vs ->
  iwp (iter_list (clone_page a a' b fl) vs)
    (fun _ s' => sound ps s' /\ keeps s s' /\ contents s' = a_copy a a' vs (contents s)) (loses s) s.
Proof.
  intros Hs Ha Ha' Hne Hroom Hal Hnd Hsz. revert s Hs Ha Ha' Hroom.
  induction Hnd as [|v vs Hv _ IH]; intros s Hs Ha Ha' Hroom Hnone; simpl.
  - apply iwp_ret. split_and!; [done|apply keeps_refl|]. unfold a_copy. simpl. by rewrite (left_id_L ∅ (∪)).
  - apply Forall_cons in Hal as [Hv0 Hal']. apply Forall_cons in Hnone as [Hn0 Hn].
    apply iwp_bind. eapply iwp_mono; [apply (clone_page_spec other a a' b fl v ps); try done; by apply contents_None| |done].
    intros _ s1 (Hs1 & Hk1 & Hc1). eapply iwp_mono; [apply IH; try done; try (by eapply keeps_table); [by apply Hk1|]| |].
    + eapply Forall_impl; [apply Forall_and; split; [exact Hn|apply Forall_forall; intros w Hw; exact Hw]|].
      intros w [Hw Hin]. rewrite Hc1. destruct (contents s !! (a, v)); [|done].
      rewrite lookup_insert_ne; [done|]. intros [= <-]. done.
    + intros _ s2 (Hs2 & Hk2 & Hc2). split_and!; [done|by eapply keeps_trans|]. by rewrite Hc2, Hc1, a_copy_cons.
    + intros e s2. apply loses_trans; [|apply Hk1]. rewrite Hc1. destruct (contents s !! (a, v)); [|done].
      by apply insert_subseteq.
Qed.
(** ** Faults and stores *)

Lemma loses_refl ps s e : sound ps s -> loses s e s.
Proof. intros Hs. exists ps. by split_and!. Qed.

Lemma div_aligned v : v / psize * psize mod psize = 0.
Proof. apply Z.mod_mul. pose proof psize_pos. lia. Qed.

Definition area_ok (area : option (Z * CowBackend F)) (vaddr : Z) : Prop :=
  match area with Some (_, b) => fits b (vaddr / psize * psize) | None => True end.

Definition a_fault (area : option (Z * CowBackend F)) (a : Z) (w : W) (page : Z) (X : gmap (Z * Z) (list Z)) :=
  match area with Some (_, b) => X ∪ {[(a, page) := initial b w page]} | None => X end.

Lemma handle_page_fault_spec a base stop area vaddr access ps s (R : VfsError -> mm -> Prop) :
  sound ps s -> is_Some (tables s !! a) -> area_ok area vaddr ->
  iwp (handle_page_fault a base stop area vaddr access)
    (fun ok s' =>
       if (ok : bool) then
         sound ps s' /\ keeps s s' /\ contents s' = a_fault area a (outside s) (vaddr / psize * psize) (contents s) /\
         accessible s' a (vaddr / psize * psize) access
       else loses s IoError s') R s.
Proof.
  intros Hs Ha Hok. unfold handle_page_fault. case_match; [by eapply iwp_ret, loses_refl|].
  destruct area as [[fl b]|]; [|by eapply iwp_ret, loses_refl]. simpl in Hok. pose proof Hok as (Hv & Hsz & _).
  destruct (has_flags fl access) eqn:Hacc; [|by eapply iwp_ret, loses_refl]. rewrite Hsz.
  set (page := vaddr / psize * psize) in *. apply iwp_bind, iwp_attempt. unfold populate. apply iwp_bind.
  assert (Hrange : range_ok b (page, page + psize)).
  { pose proof psize_pos. split_and!; simpl; [done| |lia|done|].
    - rewrite <-Zplus_mod_idemp_l, Hv. simpl. apply Z.mod_same. lia.
    - rewrite one_page by done. by constructor. }
  eapply pages_in_spec; [exact Hrange|]. rewrite one_page by done. cbn [populate_loop]. apply iwp_bind.
  eapply iwp_mono; [by apply (populate_page_spec other a b fl access page ps)| |].
  - intros ok s1 (Hs1 & Hk1 & Hc1 & Hacc1 & _). apply iwp_ret, iwp_ret. destruct ok; simpl.
    + split_and!; [done|done|done|by apply Hacc1].
    + exists ps. split_and!; [done| |apply Hk1]. rewrite Hc1. apply map_union_subseteq_l.
  - intros e s1 Hl. by apply iwp_ret.
Qed.

Lemma try_store_spec a page i x ps s (R : VfsError -> mm -> Prop) :
  sound ps s -> is_Some (tables s !! a) -> page mod psize = 0 ->
  iwp (try_store a page i x)
    (fun ok s' =>
       if (ok : bool) then sound ps s' /\ keeps s s' /\ contents s' = a_store a page i x (contents s) /\
                            is_Some (contents s !! (a, page))
       else s' = s /\ ~ accessible s a page MF_WRITE) R s.
Proof.
  intros Hs Ha Hp. unfold try_store. apply iwp_bind, iwp_query; [done..|].
  destruct (entries s !! (a, page)) as [[pa fl]|] eqn:He.
  2:{ apply iwp_ret. split; [done|]. intros (pa & fl & He' & _). congruence. }
  destruct (has_flags fl MF_WRITE) eqn:Hw.
  2:{ apply iwp_ret. split; [done|]. intros (pa' & fl' & He' & Hw'). congruence. }
  apply iwp_bind, iwp_get, iwp_bind, iwp_set, iwp_ret. split_and!; [exact Hs|done| |by rewrite contents_lookup, He].
  apply map_eq. intros k. unfold a_store. rewrite contents_lookup.
  change (entries (set_memory _ s)) with (entries s). destruct (decide (k = (a, page))) as [->|Hk].
  - rewrite lookup_alter_eq, contents_lookup, He. simpl. f_equal. unfold frame_bytes at 1. simpl. by rewrite lookup_insert_eq.
  - rewrite lookup_alter_ne, contents_lookup by done. destruct (entries s !! k) as [[pa' fl']|] eqn:Hk'; [|done]. simpl. f_equal.
    unfold frame_bytes. simpl. rewrite lookup_insert_ne; [done|]. intros ->. apply Hk. by eapply (s_write _ _ _ _ _ Hs (a, page)).
Qed.

(** A store reaches the page of its address space, and no other. *)
Lemma user_store_spec a base stop area page i x ps s (R : VfsError -> mm -> Prop) :
  sound ps s -> is_Some (tables s !! a) -> page mod psize = 0 -> 0 <= i < psize -> area_ok area page ->
  iwp (user_store a base stop area page i x)
    (fun ok s' =>
       if (ok : bool) then
         sound ps s' /\ keeps s s' /\ contents s' = a_store a page i x (a_fault area a (outside s) page (contents s))
       else loses s IoError s') R s.
Proof.
  intros Hs Ha Hp Hi Hok.
  assert (Hpage' : page / psize * psize = page) by (apply Z.div_exact in Hp; [lia|pose proof psize_pos; lia]).
  assert (Hpage : (page + i) / psize * psize = page).
  { rewrite <-Hpage' at 2. f_equal. symmetry. apply (Z.div_unique _ _ _ i); lia. }
  unfold user_store. apply iwp_bind. eapply iwp_mono; [by apply (try_store_spec a page i x ps)| |by intros e s' Hx; exact Hx].
  intros [] s1.
  - intros (Hs1 & Hk1 & Hc1 & [c Hc]). apply iwp_ret. split_and!; [done|done|]. rewrite Hc1. f_equal.
    destruct area as [[fl b]|]; [|done]. simpl. symmetry. by eapply union_present.
  - intros [-> Hno]. apply iwp_bind.
    eapply iwp_mono; [apply (handle_page_fault_spec a base stop area (page + i) MF_WRITE ps s); try done| |by intros e s' Hx; exact Hx].
    { destruct area as [[fl b]|]; [|done]. simpl in *. by rewrite Hpage, <-Hpage'. }
    intros [] s2; rewrite ?Hpage.
    + intros (Hs2 & Hk2 & Hc2 & Hacc2). eapply iwp_mono; [apply (try_store_spec a page i x ps s2); try done; by eapply keeps_table| |by intros e s' Hx; exact Hx].
      intros [] s3; [|by intros [_ ?]]. intros (Hs3 & Hk3 & Hc3 & _). split_and!; [done| |by rewrite Hc3, Hc2].
      by eapply keeps_trans.
    + intros Hl. by apply iwp_ret.
Qed.
(** ** Protection *)

(** Protection adds no way to write a shared frame. *)
Definition protects (s : mm) (a start len fl : Z) : Prop :=
  has_flags fl MF_WRITE = true ->
  forall v pa fl0, start <= v < start + len -> entries s !! (a, v) = Some (pa, fl0) -> refs pa (entries s) = 1.

Lemma protect_spec a start len fl ps s (R : VfsError -> mm -> Prop) :
  sound ps s -> is_Some (tables s !! a) -> start mod psize = 0 -> len mod psize = 0 -> protects s a start len fl ->
  iwp (backend_protect a start len fl)
    (fun ok s' => ok = true /\ sound ps s' /\ keeps s s' /\ contents s' = contents s) R s.
Proof.
  intros Hs [p Hp] Hst Hlen Hpr. unfold backend_protect. apply iwp_bind. eapply iwp_on_table; [exact Hp|].
  destruct (pt_protect_region_law start len fl p Hst Hlen) as (p' & Hrun & Hview). rewrite Hrun. apply iwp_ret.
  set (s' := set_tables _ s). pose proof (only_tables_set s a p p' Hp : only_tables s s') as Ho.
  assert (Hlook : forall b v, entries s' !! (b, v) =
    if bool_decide (b = a) && (start <=? v) && (v <? start + len) then (fun e => (e.1, fl)) <$> entries s !! (b, v)
    else entries s !! (b, v)).
  { intros b v. rewrite !lookup_entries. simpl. rewrite lookup_insert. case_decide as Hb.
    - subst b. rewrite bool_decide_eq_true_2 by done. simpl. rewrite Hview, Hp. simpl. by case_match.
    - by rewrite bool_decide_eq_false_2 by done. }
  assert (Hfst : fst <$> entries s' = fst <$> entries s).
  { apply map_eq. intros [b v]. rewrite !lookup_fmap, Hlook. case_match; [|done]. by destruct (entries s !! (b, v)). }
  split_and!; [done| |by apply only_tables_keeps|].
  - eapply sound_tables; [done|]. eapply sound_reflag; [done..|]. intros [b v] [b' v'] pa f f' Hk Hw Hk'.
    assert (Hold' : exists f0, entries s !! (b', v') = Some (pa, f0)).
    { rewrite Hlook in Hk'. case_match; [|by eexists].
      apply fmap_Some in Hk' as ([pa0 f0] & Hk0 & [= -> ->]). by eexists. }
    destruct Hold' as [f0' Hold']. rewrite Hlook in Hk. case_match eqn:Hin.
    + apply fmap_Some in Hk as ([pa0 f0] & Hk0 & [= -> ->]). unfold writable in Hw. simpl in *.
      rewrite !andb_true_iff, bool_decide_eq_true in Hin. destruct Hin as [[-> ?%Z.leb_le] ?%Z.ltb_lt].
      eapply refs_one; [|exact Hk0|exact Hold']. rewrite (Hpr Hw v pa0 f0); [done|lia|done].
    + by eapply s_write.
  - assert (Hbytes : forall V : gmap (Z * Z) (Z * Z), (fun e : Z * Z => frame_bytes s e.1) <$> V = frame_bytes s <$> (fst <$> V)).
    { intros V. by rewrite <-map_fmap_compose. }
    rewrite (contents_tables _ _ Ho), Hbytes, Hfst, <-Hbytes. done.
Qed.
(** ** Histories *)

(** The operations; [false] is a fault that was not handled. *)
Definition mm_exec (o : mm_op F) : io VfsError mm bool :=
  match o with
  | MNew a => new_empty a ≫= fun _ => mret true
  | MPopulate a b range fl access => populate a b range fl access ≫= fun _ => mret true
  | MUnmap a b range => cow_unmap a b range ≫= fun _ => mret true
  | MClone a a' b range fl => clone_map a a' b range fl ≫= fun _ => mret true
  | MProtect a start len fl => backend_protect a start len fl
  | MFault a base stop area vaddr access => handle_page_fault a base stop area vaddr access
  | MStore a base stop area page i x => user_store a base stop area page i x
  end.

(** The bytes of the address spaces after an operation; [w] has the contents of files. *)
Definition mm_spec (o : mm_op F) (w : W) (X : gmap (Z * Z) (list Z)) : gmap (Z * Z) (list Z) :=
  match o with
  | MNew _ | MProtect _ _ _ _ => X
  | MPopulate a b range _ _ => a_populate a (initial b w) (range_pages range) X
  | MUnmap a _ range => a_unmap a (range_pages range) X
  | MClone a a' _ range _ => a_copy a a' (range_pages range) X
  | MFault a _ _ area vaddr _ => a_fault area a w (vaddr / psize * psize) X
  | MStore a _ _ area page i x => a_store a page i x (a_fault area a w page X)
  end.

Definition mm_in_range (o : mm_op F) (s : mm) : Prop :=
  match o with
  | MNew a => tables s !! a = None
  | MPopulate a b range fl access => is_Some (tables s !! a) /\ range_ok b range /\ has_flags fl access = true
  | MUnmap a b range => is_Some (tables s !! a) /\ range_ok b range
  | MClone a a' b range fl =>
      is_Some (tables s !! a) /\ is_Some (tables s !! a') /\ a <> a' /\ range_ok b range /\ roomy s /\
      Forall (fun v => contents s !! (a', v) = None) (range_pages range)
  | MProtect a start len fl =>
      is_Some (tables s !! a) /\ start mod psize = 0 /\ len mod psize = 0 /\ protects s a start len fl
  | MFault a _ _ area vaddr _ => is_Some (tables s !! a) /\ area_ok area vaddr
  | MStore a _ _ area page i _ =>
      is_Some (tables s !! a) /\ page mod psize = 0 /\ 0 <= i < psize /\ area_ok area page
  end.

(** [clean]: no operation has failed. *)
Inductive mm_history : bool -> mm -> Prop :=
| mh_start s : frame_table s = ∅ -> tables s = ∅ -> frames_of (outside s) = other -> mm_history true s
| mh_files clean s w' : mm_history clean s -> frames_of w' = frames_of (outside s) -> mm_history clean (set_outside w' s)
| mh_op clean s o ok s' :
    mm_history clean s -> mm_in_range o s -> mm_exec o s = (ROk ok, s') -> mm_history (clean && ok) s'
| mh_fail clean s o e s' :
    mm_history clean s -> mm_in_range o s -> mm_exec o s = (RErr e, s') -> mm_history false s'.

(** What an operation achieves. *)
Local Notation achieves o ps s :=
  (iwp (mm_exec o)
     (fun ok s' => if (ok : bool) then
                     sound ps s' /\ contents s' = mm_spec o (outside s) (contents s) /\ (roomy s -> roomy s')
                   else loses s IoError s')
     (loses s) s) (only parsing).

Lemma new_empty_spec a ps s (R : VfsError -> mm -> Prop) :
  sound ps s -> tables s !! a = None ->
  iwp (new_empty a) (fun _ s' => sound ps s' /\ contents s' = contents s /\ (roomy s -> roomy s')) R s.
Proof.
  intros Hs Hn. unfold new_empty. apply iwp_set. set (s' := set_tables _ s).
  assert (He : entries s' = entries s).
  { apply map_eq. intros [b v]. rewrite !lookup_entries. simpl. rewrite lookup_insert. case_decide as Hb; [|done].
    subst b. rewrite Hn. simpl. by rewrite pt_new_law, lookup_empty. }
  split_and!; [unfold CowOps.sound; by rewrite He|unfold contents; by rewrite He|done].
Qed.

Lemma mm_exec_spec o ps s : sound ps s -> mm_in_range o s -> achieves o ps s.
Proof.
  intros Hs Hin. destruct o as [a|a b r fl acc|a b r|a a' b r fl|a st len fl|a ba sto ar v acc|a ba sto ar pg i x]; cbn [mm_exec].
  - apply iwp_bind. eapply iwp_mono; [by apply (new_empty_spec a ps)| |by intros e s' Hx; exact Hx].
    intros _ s' (? & ? & ?). by apply iwp_ret.
  - destruct Hin as (Ha & Hr & Hacc). apply iwp_bind. unfold populate. apply iwp_bind. eapply pages_in_spec; [done|].
    eapply iwp_mono; [apply (populate_loop_spec a b fl acc (range_pages r) 0 ps); try done; apply Hr| |done].
    intros n s' (? & Hk & ? & _). apply iwp_ret. by split_and!; try apply Hk.
  - destruct Hin as (Ha & Hr). apply iwp_bind. unfold cow_unmap. apply iwp_bind. eapply pages_in_spec; [done|].
    eapply iwp_mono; [apply (unmap_loop_spec a b (range_pages r) ps); try done; [by eapply range_aligned|apply Hr]| |by intros e s' Hx; exact Hx].
    intros _ s' (? & Hk & ?). apply iwp_ret. by split_and!; try apply Hk.
  - destruct Hin as (Ha & Ha' & Hne & Hr & Hroom & Hnone). apply iwp_bind. unfold clone_map. apply iwp_bind. eapply pages_in_spec; [done|].
    eapply iwp_mono; [apply (clone_loop_spec a a' b fl (range_pages r) ps); try done; [by eapply range_aligned|apply range_nodup|apply Hr]| |done].
    intros _ s' (? & Hk & ?). apply iwp_ret. by split_and!; try apply Hk.
  - destruct Hin as (Ha & ? & ? & ?). eapply iwp_mono; [by apply (protect_spec a st len fl ps)| |by intros e s' Hx; exact Hx].
    intros ok s' (-> & ? & Hk & ?). by split_and!; try apply Hk.
  - destruct Hin as (Ha & Har). eapply iwp_mono; [by apply (handle_page_fault_spec a ba sto ar v acc ps)| |by intros e s' Hx; exact Hx].
    intros [] s'; [intros (? & Hk & ? & _); by split_and!; try apply Hk|done].
  - destruct Hin as (Ha & ? & ? & ?). eapply iwp_mono; [by apply (user_store_spec a ba sto ar pg i x ps)| |by intros e s' Hx; exact Hx].
    intros [] s'; [intros (? & Hk & ?); by split_and!; try apply Hk|done].
Qed.

Lemma sound_start s : frame_table s = ∅ -> tables s = ∅ -> frames_of (outside s) = other -> sound [] s.
Proof.
  intros Hf Ht Ho. assert (He : entries s = ∅).
  { apply map_eq. intros [a v]. by rewrite lookup_entries, Ht, !lookup_empty. }
  unfold CowOps.sound. rewrite Hf, He, Ho. split; try done.
  - set_solver.
  - set_solver.
Qed.

Lemma mm_history_sound clean s : mm_history clean s -> exists ps, sound ps s /\ (clean = true -> ps = [] /\ roomy s).
Proof.
  induction 1 as [s Hf Ht Ho|clean s w' _ IH Hfr|clean s o ok s' _ IH Hin Hrun|clean s o e s' _ IH Hin Hrun].
  - exists []. split; [by apply sound_start|]. intros _. split; [done|]. unfold roomy. rewrite Hf. apply map_Forall_empty.
  - destruct IH as (ps & Hs & Hc). exists ps. split; [|done]. unfold CowOps.sound in *. simpl. by rewrite Hfr.
  - destruct IH as (ps & Hs & Hc). apply (iwp_ok _ _ _ _ _ _ (mm_exec_spec o ps s Hs Hin)) in Hrun. destruct ok.
    + destruct Hrun as (Hs' & _ & Hroom). exists ps. split; [done|]. rewrite andb_true_r. intros Hcl. destruct (Hc Hcl). auto.
    + rewrite andb_false_r. destruct Hrun as (ps' & Hs' & _). by exists ps'.
  - destruct IH as (ps & Hs & Hc). apply (iwp_err _ _ _ _ _ _ (mm_exec_spec o ps s Hs Hin)) in Hrun.
    destruct Hrun as (ps' & Hs' & _). by exists ps'.
Qed.

(** ** What private memory promises *)

(** C3: Copy-on-write is invisible.  In any history of page faults, population, unmapping, forks,
    changes of protection and stores, by any number of address spaces, an operation ends without
    panic.  If it succeeds, the bytes every address space sees in every page are those of [mm_spec],
    in which there are no shared frames and a fork copies: a store changes one byte of one page of
    one address space, a new page shows its part of the file and zeros around it.  If it fails, no
    page that was there has changed.  The history leaves out two things: a fork while the counter
    of some frame stands at its maximum, 255, where the code panics, and an [mprotect] that makes a
    page writable whose frame another page shares, where the code shares what was private.  Both
    are shown below.  A fork is into an address space that has nothing mapped there. *)
Theorem copy_on_write_is_copying clean s o :
  mm_history clean s -> mm_in_range o s ->
  (exists s', mm_exec o s = (ROk true, s') /\ contents s' = mm_spec o (outside s) (contents s)) \/
  (exists s', (mm_exec o s = (ROk false, s') \/ exists e, mm_exec o s = (RErr e, s')) /\
              contents s ⊆ contents s').
Proof.
  intros (ps & Hs & _)%mm_history_sound Hin.
  pose proof (mm_exec_spec o ps s Hs Hin) as [([] & s' & Hrun & Hok)|(e & s' & Hrun & Hl)]%iwp_run.
  - left. exists s'. by split; [|apply Hok].
  - right. exists s'. split; [by left|]. by destruct Hok as (? & _ & ? & _).
  - right. exists s'. split; [right; by exists e|]. by destruct Hl as (? & _ & ? & _).
Qed.

(** C22: In any history the frame of a writable page table entry has no other entry in any address
    space; every frame with an entry is counted and held from the allocator, so that none is in use
    after it was freed; and as long as no operation has failed, each counter is exactly the number
    of entries of its frame and every frame held is counted, so that none leaks.  The histories are
    those of [mm_in_range]: no [mprotect] makes a page writable whose frame another page shares,
    which in the code breaks the first claim, and no fork takes place while the counter of a frame
    stands at its maximum, 255. *)
Theorem frames_are_counted clean s :
  mm_history clean s ->
  (forall k k' pa fl fl', entries s !! k = Some (pa, fl) -> has_flags fl MF_WRITE = true ->
     entries s !! k' = Some (pa, fl') -> k' = k) /\
  (forall k pa fl, entries s !! k = Some (pa, fl) ->
     pa ∈ frames_of (outside s) /\ pa ∉ other /\ exists c, frame_table s !! pa = Some c /\ refs pa (entries s) <= c) /\
  (clean = true -> frames_of (outside s) = dom (frame_table s) ∪ other /\
     forall pa c, frame_table s !! pa = Some c -> c = refs pa (entries s) /\ 1 <= c < 255).
Proof.
  intros (ps & Hs & Hclean)%mm_history_sound. split_and!.
  - intros k k' pa fl fl' Hk Hw. by apply (s_write _ _ _ _ _ Hs k k' pa fl fl').
  - intros k pa fl Hk. destruct (s_mapped _ _ _ _ _ Hs _ _ _ Hk) as [c Hc].
    pose proof (elem_of_dom_2 _ _ _ Hc) as Hdom. pose proof (s_other _ _ _ _ _ Hs) as Hdisj.
    split_and!; [rewrite (s_owned _ _ _ _ _ Hs); by apply elem_of_union_l|intros Ho; by apply (Hdisj pa)|].
    exists c. split; [done|]. pose proof (s_count _ _ _ _ _ Hs _ _ Hc). pose proof (occ_nonneg pa ps). lia.
  - intros Hc. destruct (Hclean Hc) as [-> Hroom]. split; [by apply (s_owned _ _ _ _ _ Hs)|].
    intros pa c Hpa. pose proof (s_count _ _ _ _ _ Hs _ _ Hpa) as [Hcount ?]. pose proof (Hroom _ _ Hpa). simpl in *.
    unfold occ in Hcount. simpl in Hcount. lia.
Qed.

End history.

(** * Private memory at its limits

    Page tables as finite maps and files as lists of bytes satisfy the laws of [CowSpec]
    ([sim_tables], [sim_mm]).  With them, concrete runs that show where private memory is not
    private: a change of protection after a fork, and the limit of the 8-bit frame counters. *)

(** ** Concrete surroundings *)

Notation sim_table := (gmap Z (Z * Z)) (only parsing).

#[export] Instance sim_tables : PageTable sim_table := {
  pt_new := ∅;
  pt_query v p := match p !! v with Some (pa, fl) => Ok (pa, fl, Size4K) | None => Err NotMapped end;
  pt_map v pa _ fl p := match p !! v with Some _ => (Err AlreadyMapped, p) | None => (Ok (), <[v := (pa, fl)]> p) end;
  pt_unmap v p := match p !! v with Some (pa, fl) => (Ok (pa, fl, Size4K), delete v p) | None => (Err NotMapped, p) end;
  pt_protect v fl p := match p !! v with Some (pa, _) => (Ok Size4K, <[v := (pa, fl)]> p) | None => (Err NotMapped, p) end;
  pt_remap v pa fl p := match p !! v with Some _ => (Ok Size4K, <[v := (pa, fl)]> p) | None => (Err NotMapped, p) end;
  pt_protect_region start len fl p :=
    (Ok (), map_imap (fun v e => Some (if (start <=? v) && (v <? start + len) then (e.1, fl) else e)) p);
  paging_error e := match e with PgNoMemory => NoMemory | _ => BadAddress end;
}.

#[export] Instance sim_table_laws : PageTableLaws sim_table Size4K.
Proof.
  refine {| pt_view := id |}; simpl; unfold id; try done.
  - intros v pa fl p _ ->. done.
  - intros v p _. destruct (p !! v) as [[pa fl]|]; eauto.
  - intros v fl pa fl0 p _ ->. eauto.
  - intros v pa' fl e p _ ->. eauto.
  - intros start len fl p _ _. eexists. split; [done|]. intros v. rewrite map_lookup_imap.
    destruct (p !! v) as [e|]; simpl; by case_match.
Defined.

(** The frames held, and whether arithmetic overflow is checked. *)
Definition next_frame (held : gset Z) : Z := 1 + foldr Z.max 0 (elements held).

Lemma next_frame_fresh held : next_frame held ∉ held.
Proof.
  assert (Hmax : forall l x, x ∈ l -> x <= foldr Z.max 0 l).
  { intros l x. induction l as [|y l IH]; [by intros ?%not_elem_of_nil|].
    intros [->|Hx]%elem_of_cons; simpl; [lia|]. specialize (IH Hx). lia. }
  intros Hin. apply elem_of_elements, Hmax in Hin. unfold next_frame in Hin. lia.
Qed.

(** A file is its bytes. *)
Definition sim_mm (checks : bool) : MmEnv (list Z) (gset Z) := {|
  alloc_pages _ _ := istate (fun held => (next_frame held, {[next_frame held]} ∪ held));
  dealloc_pages p _ held := held ∖ {[p]};
  file_read_into f len off := mret (take (Z.to_nat len) (drop (Z.to_nat off) f));
  mm_overflow_checks := checks;
|}.

Definition sim_mm_laws (checks : bool) : MmEnvLaws (list Z) (gset Z) (Env := sim_mm checks).
Proof.
  refine {| frames_of := id; fb_len f _ := Z.of_nat (length f); fb_byte f _ i := default 0 (f !! Z.to_nat i) |};
    simpl; unfold id; try done.
  - intros _ _ w. apply iwp_state. simpl. by split_and!; [apply next_frame_fresh|done|].
  - intros f len off w Hlen Hoff. apply iwp_ret. rewrite length_take, length_drop. split_and!; try done; [lia|].
    intros j Hj. rewrite lookup_take_lt, lookup_drop by lia. replace (Z.to_nat (off + Z.of_nat j)) with (Z.to_nat off + j)%nat by lia.
    destruct (lookup_lt_is_Some_2 f (Z.to_nat off + j)) as [x ->]; [lia|done].
Defined.

Local Notation state := (Mm sim_table (gset Z)).

Definition empty_mm : state := mk_mm ∅ ∅ ∅ ∅.

Definition mm_result {A} (r : res VfsError A * state) : res VfsError A := r.1.
Definition mm_state {A} (r : res VfsError A * state) : state := r.2.

(** An anonymous private mapping of the page at [0x1000], readable and writable. *)
Definition page : Z := 0x1000.
Definition area : CowBackend (list Z) := new_alloc page Size4K.
Definition RW : Z := 11.

Section runs.
Context (checks : bool).

(** A process with address space 1 that stored a 7, and its fork with address space 2. *)
Definition parent : state :=
  mm_state (mm_exec (Env := sim_mm checks) (MStore 1 0 0x10000 (Some (RW, area)) page 0 7)
    (mm_state (mm_exec (Env := sim_mm checks) (MNew 1) empty_mm))).
Definition fork (child : Z) (s : state) : res VfsError bool * state :=
  mm_exec (Env := sim_mm checks) (MClone 1 child area (page, page + Size4K) RW)
    (mm_state (mm_exec (Env := sim_mm checks) (MNew child) s)).
Definition store (a x : Z) (s : state) : res VfsError bool * state :=
  mm_exec (Env := sim_mm checks) (MStore a 0 0x10000 (Some (RW, area)) page 0 x) s.
Definition mprotect (a : Z) (s : state) : res VfsError bool * state :=
  mm_exec (Env := sim_mm checks) (MProtect a page Size4K RW) s.

(** The byte an address space sees at the start of the page. *)
Definition sees (a : Z) (s : state) : option Z := contents s !! (a, page) ≫= fun c => c !! 0%nat.

End runs.

(** ** Where private memory is not private *)

(** After a fork, a store by the child is seen by the child only.  But if the child first
    calls [mprotect] on the page, even with the protection it has, the page table entry of the
    shared frame becomes writable, and the child's store is seen by the parent. *)
Theorem mprotect_shares_private_memory checks :
  let forked := fork checks 2 (parent checks) in
  let stored := store checks 2 9 (mm_state forked) in
  let protected := mprotect checks 2 (mm_state forked) in
  let leaked := store checks 2 9 (mm_state protected) in
  mm_result forked = ROk true /\
  (sees 1 (mm_state stored), sees 2 (mm_state stored)) = (Some 7, Some 9) /\
  mm_result protected = ROk true /\ mm_result leaked = ROk true /\
  (sees 1 (mm_state leaked), sees 2 (mm_state leaked)) = (Some 9, Some 9).
Proof. destruct checks; vm_compute; split_and!; reflexivity. Qed.

(** The parent after [n] forks. *)
Definition forks (checks : bool) (n : nat) : Mm sim_table (gset Z) :=
  foldl (fun s i => mm_state (fork checks (Z.of_nat i) s)) (parent checks) (seq 2 n).

(** Frame counters are 8 bits wide.  With a page shared by 254 processes a fork fails, but the
    counter stays at 255.  The next fork panics where overflow is checked; where it is not, it
    succeeds with a counter of 0 for a frame in use, and the fork after it panics. *)
Theorem fork_of_widely_shared_page_panics :
  (forall checks, mm_result (fork checks 1000 (forks checks 252)) = ROk true /\
     let limit := fork checks 1001 (forks checks 253) in
     mm_result limit = RErr BadAddress /\
     if checks then mm_result (fork checks 1002 (mm_state limit)) = RPanic
     else let wrapped := fork checks 1002 (mm_state limit) in
          mm_result wrapped = ROk true /\ map_to_list (frame_table (mm_state wrapped)) = [(1, 0)] /\
          mm_result (fork checks 1003 (mm_state wrapped)) = RPanic).
Proof. intros []; vm_compute; split_and!; reflexivity. Qed.

(** ** Witnesses *)

#[local] Instance unchecked_mm : MmEnv (list Z) (gset Z) := sim_mm false.
#[local] Instance unchecked_mm_laws : MmEnvLaws (list Z) (gset Z) := sim_mm_laws false.

Lemma started :
  mm_history (psize := Size4K) ∅ true (mm_state (mm_exec (F := list Z) (MNew 1) empty_mm)).
Proof. eapply (mh_op _ true empty_mm (MNew 1) true); [by apply mh_start|done|done]. Qed.

Lemma copy_on_write_is_copying_witness :
  let s := mm_state (mm_exec (F := list Z) (MNew 1) empty_mm) in
  let b := new_cow page Size4K [5; 6; 7] 1 (Some 2) in
  let o := MStore 1 0 0x10000 (Some (RW, b)) page 2 9 in
  mm_in_range (psize := Size4K) o s /\
  exists s', mm_exec o s = (ROk true, s') /\
    take 3 <$> contents s' !! (1, page) = Some [6; 0; 9].
Proof.
  intros s b o. assert (Hin : mm_in_range (psize := Size4K) o s).
  { split; [by eexists|]. split; [done|]. split; [by vm_compute|]. vm_compute. split_and!; done || discriminate. }
  split; [done|].
  destruct (copy_on_write_is_copying (psize := Size4K) ∅ true s o started Hin)
    as [(s' & Hrun & Hc)|(s' & [Hrun|[e Hrun]] & _)].
  - exists s'. split; [done|]. rewrite Hc. vm_compute. reflexivity.
  - exfalso. revert Hrun. vm_compute. discriminate.
  - exfalso. revert Hrun. vm_compute. discriminate.
Defined.

Lemma parent_history :
  mm_history (psize := Size4K) ∅ true (parent false).
Proof.
  eapply (mh_op _ true _ (MStore 1 0 0x10000 (Some (RW, area)) page 0 7) true); [exact started| |by vm_compute].
  split; [by eexists|]. split; [done|]. split; [by vm_compute|]. vm_compute. split_and!; done || discriminate.
Qed.

Lemma frames_are_counted_witness :
  let s := parent false in
  mm_history (psize := Size4K) ∅ true s /\ map_to_list (frame_table s) = [(1, 1)] /\
  frames_of (outside s) = dom (frame_table s) ∪ ∅.
Proof.
  intros s. split_and!; [exact parent_history|by vm_compute|].
  destruct (frames_are_counted (psize := Size4K) ∅ true s parent_history) as (_ & _ & Hclean).
  by apply Hclean.
Defined.
