(* ===== verification/Epoll.v ===== *)
(** * Event polling

    [kernel/src/file/epoll.rs]: the interests of an [epoll] instance, its queue of interests that
    may be ready, the wakers that files call, and the collection of events.  Interests live on a
    heap, because the queue and the wakers hold weak references to them; one is alive as long as
    the table of interests refers to it.

    The files are a parameter ([Pollables]): which file a descriptor names, whether a file is
    still open, its events, and the registration of wakers. *)

From S2P Require Import Prelude Io PageCache.

(** ** Trigger modes *)

Definition EDGE_TRIGGER : Z := 2 ^ 31.
Definition ONESHOT : Z := 2 ^ 30.

Inductive TriggerMode : Type := Level | Edge | OneShot (fired : bool).

#[export] Instance TriggerMode_eq_dec : EqDecision TriggerMode.
Proof. solve_decision. Defined.

(** [flags.contains(bit)]. *)
Definition flag_set (flags bit : Z) : bool := Z.land flags bit =? bit.

Definition from_flags (flags : Z) : TriggerMode :=
  if flag_set flags ONESHOT then OneShot false
  else if flag_set flags EDGE_TRIGGER then Edge
  else Level.

Definition should_notify (mode : TriggerMode) : bool * TriggerMode :=
  match mode with
  | Level => (true, Level)
  | Edge => (true, Edge)
  | OneShot fired => if fired then (false, mode) else (true, OneShot true)
  end.

Definition mode_is_enabled (mode : TriggerMode) : bool :=
  match mode with OneShot fired => negb fired | _ => true end.

(** ** Interests *)

Record EpollEvent : Type := mk_event { events : Z; user_data : Z }.

Inductive ConsumeResult : Type := EventAndKeep (e : EpollEvent) | EventAndRemove (e : EpollEvent) | NoEvent.

(** [EntryKey]: a descriptor and the identity of its file. *)
Notation EntryKey := (Z * Z)%type.

Record EpollInterest : Type := mk_interest {
  key : EntryKey;
  event : EpollEvent;
  mode : TriggerMode;
  in_ready_queue : bool;
}.

Definition interest_new (k : EntryKey) (e : EpollEvent) (flags : Z) : EpollInterest :=
  mk_interest k e (from_flags flags) false.
Definition set_mode (m : TriggerMode) (i : EpollInterest) : EpollInterest :=
  mk_interest (key i) (event i) m (in_ready_queue i).
Definition set_in_queue (b : bool) (i : EpollInterest) : EpollInterest :=
  mk_interest (key i) (event i) (mode i) b.

Definition is_enabled (i : EpollInterest) : bool := mode_is_enabled (mode i).

Class Pollables (W : Type) : Type := {
  get_file_like : Z -> W -> option Z;
  file_open : Z -> W -> bool;
  file_poll : Z -> W -> Z;
  (** [file.register] of the waker of an interest, for some events *)
  file_register : Z -> Z -> Z -> W -> W;
  (** [poll_ready.wake] *)
  wake_poller : W -> W;
}.

Section epoll.
Context {W : Type} {PO : Pollables W}.

(** [EpollInner], with the heap of interests. *)
Record Epoll : Type := mk_epoll {
  heap : gmap Z EpollInterest;
  interests : gmap EntryKey Z;
  ready_queue : list Z;
  files : W;
}.

Local Notation M := (io VfsError Epoll).

Definition set_heap (h : gmap Z EpollInterest) (s : Epoll) : Epoll := mk_epoll h (interests s) (ready_queue s) (files s).
Definition set_interests (m : gmap EntryKey Z) (s : Epoll) : Epoll := mk_epoll (heap s) m (ready_queue s) (files s).
Definition set_ready_queue (q : list Z) (s : Epoll) : Epoll := mk_epoll (heap s) (interests s) q (files s).
Definition set_files (w : W) (s : Epoll) : Epoll := mk_epoll (heap s) (interests s) (ready_queue s) w.

Definition epoll_new (w : W) : Epoll := mk_epoll ∅ ∅ [] w.

(** [Arc::new], and a change to the fields behind an [Arc]. *)
Definition next_id (h : gmap Z EpollInterest) : Z := 1 + foldr Z.max 0 (elements (dom h)).
Definition arc_new (i : EpollInterest) : M Z := fun s =>
  (ROk (next_id (heap s)), set_heap (<[next_id (heap s) := i]> (heap s)) s).
Definition update_interest (id : Z) (f : EpollInterest -> EpollInterest) : M () :=
  iset (fun s => set_heap (alter f id (heap s)) s).
Definition update_files (f : W -> W) : M () := iset (fun s => set_files (f (files s)) s).

(** [weak.upgrade()]. *)
Definition alive (s : Epoll) (id : Z) : bool := bool_decide (id ∈ (map_to_list (interests s)).*2).
Definition upgrade (id : Z) : M (option EpollInterest) :=
  iget (fun s => if alive s id then heap s !! id else None).

Definition try_mark_in_queue (id : Z) : M bool :=
  o ← iget (fun s => heap s !! id);
  match o with
  | Some i =>
      if in_ready_queue i then mret false
      else update_interest id (set_in_queue true) ≫= fun _ => mret true
  | None => mret false
  end.

Definition mark_not_in_queue (id : Z) : M () := update_interest id (set_in_queue false).

(** [EpollInterest::consume]. *)
Definition consume (id : Z) (i : EpollInterest) : M ConsumeResult :=
  current_events ← iget (fun s => file_poll (key i).2 (files s));
  let matched := Z.land current_events (events (event i)) in
  if matched =? 0 then mret NoEvent
  else
    let '(notify, new_mode) := should_notify (mode i) in
    _ ← update_interest id (set_mode new_mode);
    if negb notify then mret NoEvent
    else
      let e := mk_event matched (user_data (event i)) in
      mret (match new_mode with Level => EventAndKeep e | Edge | OneShot _ => EventAndRemove e end).

(** [InterestWaker::wake_by_ref]. *)
Definition wake_by_ref (id : Z) : M () :=
  o ← upgrade id;
  match o with
  | None => mret ()
  | Some _ =>
      marked ← try_mark_in_queue id;
      if (marked : bool) then
        _ ← iset (fun s => set_ready_queue (ready_queue s ++ [id]) s);
        update_files wake_poller
      else mret ()
  end.

(** [key.get_file()]: the file if it is still open. *)
Definition get_file (k : EntryKey) : M (option Z) :=
  iget (fun s => if file_open k.2 (files s) then Some k.2 else None).

Definition register_waker_only (id : Z) (i : EpollInterest) : M () :=
  o ← get_file (key i);
  match o with
  | None => mret ()
  | Some file =>
      if negb (is_enabled i) then mret ()
      else update_files (file_register file id (events (event i)))
  end.

Definition check_and_register_waker (id : Z) (i : EpollInterest) : M () :=
  o ← get_file (key i);
  match o with
  | None => mret ()
  | Some file =>
      if negb (is_enabled i) then mret ()
      else
        current ← iget (fun s => Z.land (file_poll file (files s)) (events (event i)));
        if negb (current =? 0) then wake_by_ref id
        else
          _ ← update_files (file_register file id (events (event i)));
          current ← iget (fun s => Z.land (file_poll file (files s)) (events (event i)));
          if negb (current =? 0) then wake_by_ref id else mret ()
  end.

(** ** Operations: [add], [modify], [delete], [poll_events] *)

(** [EntryKey::new]. *)
Definition key_new (fd : Z) : M EntryKey :=
  o ← iget (fun s => get_file_like fd (files s));
  file ← iresult (ok_or o BadFileDescriptor);
  mret (fd, file).

Definition epoll_add (fd : Z) (e : EpollEvent) (flags : Z) : M () :=
  k ← key_new fd;
  let interest := interest_new k e flags in
  present ← iget (fun s => interests s !! k);
  match present with
  | Some _ => throw AlreadyExists
  | None =>
      id ← arc_new interest;
      _ ← iset (fun s => set_interests (<[k := id]> (interests s)) s);
      check_and_register_waker id interest
  end.

Definition epoll_modify (fd : Z) (e : EpollEvent) (flags : Z) : M () :=
  k ← key_new fd;
  let interest := interest_new k e flags in
  present ← iget (fun s => interests s !! k);
  old ← iresult (ok_or present NotFound);
  o ← iget (fun s => heap s !! old);
  let interest := set_in_queue (match o with Some i => in_ready_queue i | None => false end) interest in
  id ← arc_new interest;
  _ ← iset (fun s => set_interests (<[k := id]> (interests s)) s);
  check_and_register_waker id interest.

Definition epoll_delete (fd : Z) : M () :=
  k ← key_new fd;
  present ← iget (fun s => interests s !! k);
  _ ← iresult (ok_or present NotFound);
  iset (fun s => set_interests (delete k (interests s)) s).

Definition push (id : Z) : M () := iset (fun s => set_ready_queue (ready_queue s ++ [id]) s).

Definition pop_front : M (option Z) := istate (fun s =>
  match ready_queue s with
  | [] => (None, s)
  | id :: q => (Some id, set_ready_queue q s)
  end).

(** What [poll_events] does with an interest from the queue, in two parts: it looks at the file,
    and acts on what it found.  The file may change in between. *)
Inductive looked : Type := Gone | Found (interest : EpollInterest) (r : ConsumeResult).

Definition poll_look (id : Z) : M looked :=
  o ← upgrade id;
  match o with
  | None => mret Gone
  | Some interest =>
      file ← get_file (key interest);
      match file with
      | None =>
          _ ← iset (fun s => set_interests (delete (key interest) (interests s)) s);
          _ ← mark_not_in_queue id;
          mret Gone
      | Some _ =>
          r ← consume id interest;
          mret (Found interest r)
      end
  end.

Definition poll_finish (id : Z) (l : looked) : M (option EpollEvent) :=
  match l with
  | Gone => mret None
  | Found interest r =>
      i' ← iget (fun s => default interest (heap s !! id));
      match r with
      | EventAndKeep e =>
          _ ← push id;
          mret (Some e)
      | EventAndRemove e =>
          _ ← mark_not_in_queue id;
          _ ← register_waker_only id i';
          mret (Some e)
      | NoEvent =>
          _ ← mark_not_in_queue id;
          _ ← register_waker_only id i';
          mret None
      end
  end.

Definition poll_one (id : Z) : M (option EpollEvent) := l ← poll_look id; poll_finish id l.

(** The loop of [poll_events], into room for [room] events, with fuel. *)
Fixpoint poll_loop (fuel : nat) (room : nat) (out : list EpollEvent) : M (list EpollEvent) :=
  match fuel with
  | O => idiverge
  | S fuel =>
      o ← pop_front;
      match o with
      | None => mret out
      | Some id =>
          if (room <=? length out)%nat then
            _ ← iset (fun s => set_ready_queue (id :: ready_queue s) s);
            mret out
          else
            e ← poll_one id;
            poll_loop fuel room (match e with Some e => out ++ [e] | None => out end)
      end
  end.

Definition poll_events (room : nat) : M (list EpollEvent) :=
  n ← iget (fun s => length (ready_queue s));
  out ← poll_loop (S (n + room)) room [];
  match out with [] => throw WouldBlock | _ => mret out end.

(** [Pollable::poll] of the instance itself: [IoEvents::IN]. *)
Definition epoll_poll (s : Epoll) : Z := match ready_queue s with [] => 0 | _ => 1 end.

(** The wakers that a file calls. *)
Definition wake_all (ids : list Z) : M () := iter_list wake_by_ref ids.

End epoll.

Arguments Epoll : clear implicits.
Arguments mk_epoll {W} _ _ _ _.
