(* ===== verification/EpollHistory.v ===== *)
(** * Event polling: no event is missed

    [PollableLaws] states what polling relies on: registering a waker makes the file call it when
    one of the events it is registered for appears.  [good] is the invariant of an [epoll]
    instance: an open, enabled interest is in the ready queue, or its waker is registered with the
    file and, unless it is edge-triggered, none of its events is there.  Then a wait that finds
    nothing has missed nothing.

    The second part takes this to histories. *)

From S2P Require Import Prelude Io PageCache Epoll.

#[local] Opaque iwp.

Section laws.
Context {W : Type} {PO : Pollables W}.

(** The events of a file that an interest asks for. *)
Definition matching (w : W) (file mask : Z) : Z := Z.land (file_poll file w) mask.

Definition same_polls (w w' : W) : Prop :=
  (forall f, file_poll f w' = file_poll f w) /\ (forall f, file_open f w' = file_open f w).

Class PollableLaws : Type := {
  (** file, waker and events of a registration *)
  registered : W -> Z -> Z -> Z -> Prop;
  file_register_law file id mask w :
    same_polls w (file_register file id mask w) /\ registered (file_register file id mask w) file id mask /\
    forall f i m, registered w f i m -> registered (file_register file id mask w) f i m;
  wake_poller_law w :
    same_polls w (wake_poller w) /\ forall f i m, registered w f i m -> registered (wake_poller w) f i m;
}.

Context {PL : PollableLaws}.

(** What happens outside, with the wakers that are called: a waker that is not stays registered,
    and none of its events appears.  A closed file stays closed. *)
Definition outside_step (w : W) (woken : list Z) (w' : W) : Prop :=
  (forall f, file_open f w = false -> file_open f w' = false) /\
  forall f i m, registered w f i m -> i ∈ woken \/ (registered w' f i m /\ (matching w f m = 0 -> matching w' f m = 0)).

(** ** The invariant *)

Local Notation epoll := (Epoll W).

Definition covered (s : epoll) (id : Z) (i : EpollInterest) : Prop :=
  file_open (key i).2 (files s) = true -> is_enabled i = true ->
  id ∈ ready_queue s \/
  (registered (files s) (key i).2 id (events (event i)) /\
   (mode i <> Edge -> matching (files s) (key i).2 (events (event i)) = 0)).

(** [x] is an interest that was taken out of the queue and is being looked at; [u] are interests
    whose wakers are about to be called. *)
Record good (x : option Z) (u : list Z) (s : epoll) : Prop := {
  g_nodup : NoDup (ready_queue s);
  g_out id : x = Some id -> id ∉ ready_queue s;
  g_looked id : x = Some id -> exists i, heap s !! id = Some i /\ in_ready_queue i = true;
  g_heap k id : interests s !! k = Some id -> exists i, heap s !! id = Some i /\ key i = k;
  g_queued id : id ∈ ready_queue s -> exists i, heap s !! id = Some i /\ in_ready_queue i = true;
  g_marked k id i :
    interests s !! k = Some id -> heap s !! id = Some i -> in_ready_queue i = true ->
    id ∈ ready_queue s \/ x = Some id;
  g_covered k id i :
    interests s !! k = Some id -> heap s !! id = Some i -> x <> Some id -> id ∉ u -> covered s id i;
}.

Lemma alive_iff (s : epoll) id : alive s id = true <-> exists k, interests s !! k = Some id.
Proof.
  unfold alive. rewrite bool_decide_eq_true, list_elem_of_fmap. split.
  - intros ([k id'] & -> & Hk). exists k. by apply elem_of_map_to_list in Hk.
  - intros [k Hk]. exists (k, id). split; [done|]. by apply elem_of_map_to_list.
Qed.

Lemma same_matching w w' f m : same_polls w w' -> matching w' f m = matching w f m.
Proof. intros [Hp _]. unfold matching. by rewrite Hp. Qed.

Lemma covered_files (s : epoll) w' id i :
  same_polls (files s) w' -> (forall f j m, registered (files s) f j m -> registered w' f j m) ->
  covered s id i -> covered (set_files w' s) id i.
Proof.
  intros Hp Hr Hc Ho He. destruct Hp as [Hp1 Hp2]. simpl in *. rewrite Hp2 in Ho. destruct (Hc Ho He) as [?|[? Hm]]; [by left|right].
  split; [by apply Hr|]. intros Hmode. unfold matching in *. rewrite Hp1. by apply Hm.
Qed.

Lemma good_files x u (s : epoll) w' :
  good x u s -> same_polls (files s) w' -> (forall f j m, registered (files s) f j m -> registered w' f j m) ->
  good x u (set_files w' s).
Proof.
  intros Hg Hp Hr. split; try apply Hg. intros k id i Hk Hi Hx Hu. apply covered_files; try done. by eapply g_covered.
Qed.

(** One interest per key, so that two keys have two. *)
Lemma good_inj x u (s : epoll) k k' id : good x u s -> interests s !! k = Some id -> interests s !! k' = Some id -> k = k'.
Proof.
  intros Hg Hk Hk'. destruct (g_heap _ _ _ Hg _ _ Hk) as (i & Hi & <-). destruct (g_heap _ _ _ Hg _ _ Hk') as (i' & Hi' & <-). congruence.
Qed.

(** ** Waking *)

Lemma wake_by_ref_spec x u u' (s : epoll) id (R : VfsError -> epoll -> Prop) :
  good x u s -> (forall j, j ∈ u -> j = id \/ j ∈ u') ->
  iwp (wake_by_ref id)
    (fun _ s' => good x u' s' /\ same_polls (files s) (files s') /\ interests s' = interests s /\
       dom (heap s') = dom (heap s) /\ (forall j, j ∈ ready_queue s -> j ∈ ready_queue s') /\
       (forall j i, heap s !! j = Some i -> in_ready_queue i = true -> heap s' !! j = Some i) /\
       (forall f j m, registered (files s) f j m -> registered (files s') f j m)) R s.
Proof.
  intros Hg Hu. unfold wake_by_ref, upgrade. apply iwp_bind, iwp_get.
  assert (Hsame : (alive s id = true -> id ∈ ready_queue s \/ x = Some id) -> good x u' s).
  { intros Hq. split; try apply Hg. intros k' id' i' Hk' Hi' Hx' Hu'. destruct (decide (id' ∈ u)) as [Hin|Hin].
    - destruct (Hu _ Hin) as [->|?]; [|done]. intros _ _. left. destruct Hq; [|done|done]. apply alive_iff. by exists k'.
    - by eapply g_covered. }
  destruct (alive s id) eqn:Hal; [|apply iwp_ret; split_and!; try done; by apply Hsame].
  apply alive_iff in Hal as [k Hk]. destruct (g_heap _ _ _ Hg _ _ Hk) as (i & Hi & Hki). rewrite Hi.
  unfold try_mark_in_queue. apply iwp_bind, iwp_bind, iwp_get. rewrite Hi. destruct (in_ready_queue i) eqn:Hq.
  { apply iwp_ret, iwp_ret. split_and!; try done. apply Hsame. intros _. by apply (g_marked _ _ _ Hg k id i). }
  assert (Hnot : id ∉ ready_queue s).
  { intros Hin. destruct (g_queued _ _ _ Hg _ Hin) as (i' & Hi' & Hq'). congruence. }
  apply iwp_bind, iwp_set, iwp_ret, iwp_bind, iwp_set, iwp_set. simpl.
  destruct (wake_poller_law (files s)) as [Hp Hr]. split_and!; try done.
  - set (s1 := set_ready_queue _ _). apply (good_files x u' s1); [|done|done]. split; simpl.
    + apply NoDup_app. split_and!; [apply Hg| |apply NoDup_singleton]. by intros j Hj ->%list_elem_of_singleton.
    + intros j Hj. rewrite elem_of_app, list_elem_of_singleton. intros [?| ->]; [by eapply g_out|].
      destruct (g_looked _ _ _ Hg _ Hj) as (i' & Hi' & Hq'). congruence.
    + intros j Hj. destruct (g_looked _ _ _ Hg _ Hj) as (i' & Hi' & Hq'). exists i'. split; [|done].
      rewrite lookup_alter_ne; [done|congruence].
    + intros k' id' Hk'. destruct (g_heap _ _ _ Hg _ _ Hk') as (i' & Hi' & Hki'). rewrite lookup_alter. case_decide.
      * subst. rewrite Hi'. simpl. by eexists.
      * by exists i'.
    + intros j. rewrite elem_of_app, list_elem_of_singleton, lookup_alter. case_decide as Hj.
      * subst j. rewrite Hi. simpl. by eexists.
      * intros [Hin| ->]; [by apply (g_queued _ _ _ Hg)|done].
    + intros k' id' i' Hk'. rewrite elem_of_app, list_elem_of_singleton, lookup_alter. case_decide as Hj; [by auto|].
      intros Hi' Hq'. destruct (g_marked _ _ _ Hg _ _ _ Hk' Hi' Hq'); auto.
    + intros k' id' i' Hk' Hi' Hx' Hu' Ho He. destruct (decide (id = id')) as [<-|Hne].
      { left. simpl. apply elem_of_app. right. by apply list_elem_of_singleton. }
      rewrite lookup_alter_ne in Hi' by done. assert (Hu0 : id' ∉ u) by (intros Hin; by destruct (Hu _ Hin)).
      destruct (g_covered _ _ _ Hg _ _ _ Hk' Hi' Hx' Hu0 Ho He) as [?|?]; [left|by right].
      simpl. apply elem_of_app. by left.
  - apply dom_alter_L.
  - intros j Hj. apply elem_of_app. by left.
  - intros j i' Hj Hq'. rewrite lookup_alter_ne; [done|congruence].
Qed.
Lemma wake_all_spec x u (s : epoll) (R : VfsError -> epoll -> Prop) :
  good x u s ->
  iwp (wake_all u) (fun _ s' => good x [] s' /\ same_polls (files s) (files s') /\ interests s' = interests s /\
    (forall j i, heap s !! j = Some i -> in_ready_queue i = true -> heap s' !! j = Some i)) R s.
Proof.
  revert s. induction u as [|id u IH]; intros s Hg; unfold wake_all; simpl; [by apply iwp_ret|].
  apply iwp_bind. eapply iwp_mono; [apply (wake_by_ref_spec x (id :: u) u); [done|by intros j ?%elem_of_cons]| |by intros e s' Hx; exact Hx].
  intros _ s1 (Hg1 & [Hp1 Ho1] & Hi1 & _ & _ & Hh1 & _). eapply iwp_mono; [by apply IH| |by intros e s' Hx; exact Hx].
  intros _ s2 (? & [Hp2 Ho2] & Hi2 & Hh2). split_and!; [done| |congruence|by auto].
  split; intros f; [by rewrite Hp2, Hp1|by rewrite Ho2, Ho1].
Qed.

(** After something happened outside, the wakers that are called restore the invariant. *)
Lemma outside_good x (s : epoll) woken w' : good x [] s -> outside_step (files s) woken w' -> good x woken (set_files w' s).
Proof.
  intros Hg [Hclosed Hstep]. split; try apply Hg. intros k id i Hk Hi Hx Hu Ho He. simpl in *.
  assert (Ho' : file_open (key i).2 (files s) = true).
  { destruct (file_open (key i).2 (files s)) eqn:Hf; [done|]. apply Hclosed in Hf. congruence. }
  destruct (g_covered _ _ _ Hg _ _ _ Hk Hi Hx (not_elem_of_nil _) Ho' He) as [?|[Hr Hm]]; [by left|].
  destruct (Hstep _ _ _ Hr) as [?|[Hr' Hm']]; [done|right]. split; [done|]. intros Hmode. by apply Hm', Hm.
Qed.

(** ** Registration *)

Lemma covered_registered (s : epoll) id i w' :
  registered w' (key i).2 id (events (event i)) ->
  (mode i <> Edge -> matching w' (key i).2 (events (event i)) = 0) -> covered (set_files w' s) id i.
Proof. intros Hr Hm _ _. by right. Qed.

Lemma good_covered x id u (s : epoll) :
  good x (id :: u) s -> (forall i, heap s !! id = Some i -> covered s id i) -> good x u s.
Proof.
  intros Hg Hc. split; try apply Hg. intros k j i Hk Hi Hx Hu. destruct (decide (j = id)) as [->|Hne]; [by apply Hc|].
  eapply g_covered; [done..|]. by rewrite not_elem_of_cons.
Qed.

Lemma check_and_register_waker_spec u (s : epoll) id i (R : VfsError -> epoll -> Prop) :
  good None (id :: u) s -> heap s !! id = Some i -> alive s id = true ->
  iwp (check_and_register_waker id i)
    (fun _ s' => good None u s' /\ same_polls (files s) (files s') /\ interests s' = interests s) R s.
Proof.
  intros Hg Hi Hal. unfold check_and_register_waker, get_file. apply iwp_bind, iwp_get.
  destruct (file_open (key i).2 (files s)) eqn:Hopen.
  2:{ apply iwp_ret. split; [|done]. eapply good_covered; [done|]. intros i' Hi' Ho. congruence. }
  destruct (is_enabled i) eqn:Hen; simpl.
  2:{ apply iwp_ret. split; [|done]. eapply good_covered; [done|]. intros i' Hi' Ho He. congruence. }
  assert (Hwake : forall s1, good None (id :: u) s1 -> same_polls (files s) (files s1) -> interests s1 = interests s ->
    iwp (wake_by_ref id)
      (fun _ s' => good None u s' /\ same_polls (files s) (files s') /\ interests s' = interests s) R s1).
  { intros s1 Hg1 [Hp1 Ho1] Hi1. eapply iwp_mono; [apply (wake_by_ref_spec None (id :: u) u); [done|by intros j ?%elem_of_cons]| |by intros e s' Hx; exact Hx].
    intros _ s' (? & [Hp2 Ho2] & Hi2 & _). split_and!; [done| |congruence]. split; intros f; [by rewrite Hp2|by rewrite Ho2]. }
  apply iwp_bind, iwp_get. destruct (Z.eqb_spec (Z.land (file_poll (key i).2 (files s)) (events (event i))) 0) as [H0|H0]; simpl.
  2:{ by apply Hwake. }
  apply iwp_bind, iwp_set, iwp_bind, iwp_get.
  destruct (file_register_law (key i).2 id (events (event i)) (files s)) as ([Hp Ho] & Hreg & Hmono).
  simpl. rewrite Hp, H0. simpl. apply iwp_ret. split_and!; [|by split|done].
  eapply good_covered; [apply (good_files None (id :: u) s); [done|by split|done]|].
  intros i' Hi'. assert (i' = i) as -> by (simpl in Hi'; congruence).
  apply covered_registered; [done|]. intros _. unfold matching. by rewrite Hp.
Qed.

(** ** Adding and removing *)

Lemma next_id_fresh h : h !! next_id h = None.
Proof.
  apply not_elem_of_dom. assert (Hmax : forall l x, x ∈ l -> x <= foldr Z.max 0 l).
  { intros l x. induction l as [|y l IH]; [by intros ?%not_elem_of_nil|].
    intros [->|Hx]%elem_of_cons; simpl; [lia|]. specialize (IH Hx). lia. }
  intros Hin. apply elem_of_elements, Hmax in Hin. unfold next_id in Hin. lia.
Qed.

(** A new interest that is not in the queue takes the place of [k]. *)
Lemma good_new (s : epoll) k i :
  good None [] s -> key i = k -> in_ready_queue i = false ->
  let id := next_id (heap s) in
  let s' := set_interests (<[k := id]> (interests s)) (set_heap (<[id := i]> (heap s)) s) in
  good None [id] s' /\ heap s' !! id = Some i /\ alive s' id = true.
Proof.
  intros Hg Hki Hq id s'. pose proof (next_id_fresh (heap s)) as Hfresh. fold id in Hfresh.
  assert (Hother : forall j i', heap s !! j = Some i' -> j <> id) by (intros j i' Hj ->; congruence).
  assert (Hlive : forall k' j, interests s !! k' = Some j -> j <> id).
  { intros k' j Hk'. destruct (g_heap _ _ _ Hg _ _ Hk') as (i' & Hi' & _). by eapply Hother. }
  split_and!; [|simpl; by rewrite lookup_insert_eq|apply alive_iff; exists k; simpl; by rewrite lookup_insert_eq].
  split; simpl; try apply Hg; try done; [| | |].
  - intros k' j. rewrite lookup_insert. case_decide as Hk.
    + intros [= <-]. exists i. rewrite lookup_insert_eq. by subst.
    + intros Hk'. destruct (g_heap _ _ _ Hg _ _ Hk') as (i' & Hi' & ?). exists i'.
      rewrite lookup_insert_ne; [done|]. intros <-. by eapply Hlive.
  - intros j Hj. destruct (g_queued _ _ _ Hg _ Hj) as (i' & Hi' & ?). exists i'. rewrite lookup_insert_ne; [done|].
    intros <-. by eapply Hother.
  - intros k' j i'. rewrite !lookup_insert. case_decide as Hk.
    + intros [= <-]. rewrite decide_True by done. intros [= <-]. congruence.
    + intros Hk'. rewrite decide_False by (intros <-; by eapply Hlive). apply (g_marked _ _ _ Hg _ _ _ Hk').
  - intros k' j i'. rewrite !lookup_insert. case_decide as Hk.
    + intros [= <-] _ _ Hu. exfalso. apply Hu. by apply list_elem_of_singleton.
    + intros Hk'. rewrite decide_False by (intros <-; by eapply Hlive). intros Hi' _ _.
      apply (g_covered _ _ _ Hg _ _ _ Hk' Hi'); [done|apply not_elem_of_nil].
Qed.
Lemma good_delete x u (s : epoll) k : good x u s -> good x u (set_interests (delete k (interests s)) s).
Proof.
  intros Hg. split; simpl; try apply Hg.
  - intros k' id [_ Hk]%lookup_delete_Some. by eapply g_heap.
  - intros k' id i [_ Hk]%lookup_delete_Some. by eapply g_marked.
  - intros k' id i [_ Hk]%lookup_delete_Some. by apply (g_covered _ _ _ Hg k').
Qed.

(** ** Collecting events *)

Lemma good_pop (s : epoll) id q :
  good None [] s -> ready_queue s = id :: q ->
  good (Some id) [] (set_ready_queue q s) /\ exists i, heap s !! id = Some i /\ in_ready_queue i = true.
Proof.
  intros Hg Hq. pose proof (g_nodup _ _ _ Hg) as Hnd. rewrite Hq in Hnd. apply NoDup_cons in Hnd as [Hid Hnd].
  assert (Hsub : forall j, j ∈ q -> j ∈ ready_queue s) by (intros; rewrite Hq; by right).
  split; [|apply (g_queued _ _ _ Hg); rewrite Hq; by left]. split; simpl.
  - done.
  - by intros j [= <-].
  - intros j [= <-]. apply (g_queued _ _ _ Hg). rewrite Hq. by left.
  - apply (g_heap _ _ _ Hg).
  - intros j Hj. apply (g_queued _ _ _ Hg). by apply Hsub.
  - intros k j i Hk Hi Hm. destruct (g_marked _ _ _ Hg _ _ _ Hk Hi Hm) as [Hin|?]; [|done].
    rewrite Hq in Hin. apply elem_of_cons in Hin as [->|?]; auto.
  - intros k j i Hk Hi Hx Hu Ho He. destruct (g_covered _ _ _ Hg _ _ _ Hk Hi ltac:(done) Hu Ho He) as [Hin|?]; [|by right].
    rewrite Hq in Hin. apply elem_of_cons in Hin as [->|?]; [done|by left].
Qed.

(** Putting it back in front. *)
Lemma good_unpop (s : epoll) id q : good None [] s -> ready_queue s = id :: q -> set_ready_queue (id :: q) (set_ready_queue q s) = s.
Proof. intros _ Hq. destruct s. simpl in *. by rewrite Hq. Qed.

Lemma good_dead (s : epoll) id : good (Some id) [] s -> (forall k, interests s !! k <> Some id) -> good None [] s.
Proof.
  intros Hg Hdead. split; try apply Hg.
  - done.
  - done.
  - intros k j i Hk Hi Hm. destruct (g_marked _ _ _ Hg _ _ _ Hk Hi Hm) as [?|[= ->]]; [by left|]. by destruct (Hdead k).
  - intros k j i Hk Hi _ Hu. apply (g_covered _ _ _ Hg _ _ _ Hk Hi); [|done]. intros [= ->]. by destruct (Hdead k).
Qed.

(** The interest stays out of the queue. *)
Lemma good_settle (s : epoll) id i f w' :
  good (Some id) [] s -> heap s !! id = Some i -> key (f i) = key i -> in_ready_queue (f i) = false ->
  same_polls (files s) w' -> (forall g j m, registered (files s) g j m -> registered w' g j m) ->
  covered (set_files w' s) id (f i) ->
  good None [] (set_files w' (set_heap (alter f id (heap s)) s)).
Proof.
  intros Hg Hi Hkey Hq Hp Hr Hc. pose proof (g_out _ _ _ Hg id eq_refl) as Hout.
  split; simpl; try apply Hg.
  - done.
  - done.
  - intros k j Hk. destruct (g_heap _ _ _ Hg _ _ Hk) as (i' & Hi' & Hki). rewrite lookup_alter. case_decide as Hj.
    + subst j. rewrite Hi'. exists (f i'). split; [done|]. assert (i' = i) as -> by congruence. by rewrite Hkey.
    + by exists i'.
  - intros j Hj. destruct (g_queued _ _ _ Hg _ Hj) as (i' & Hi' & Hm). exists i'. rewrite lookup_alter_ne; [done|].
    intros ->. done.
  - intros k j i'. rewrite lookup_alter. intros Hk. case_decide as Hj.
    + subst j. rewrite Hi. intros [= <-]. congruence.
    + intros Hi' Hm. destruct (g_marked _ _ _ Hg _ _ _ Hk Hi' Hm) as [?|[= ->]]; [by left|done].
  - intros k j i'. rewrite lookup_alter. intros Hk. case_decide as Hj.
    + subst j. rewrite Hi. intros [= <-] _ _. exact Hc.
    + intros Hi' _ Hu. apply (covered_files s w'); [done|done|].
      apply (g_covered _ _ _ Hg _ _ _ Hk Hi'); [congruence|done].
Qed.

(** The interest changes its mode while it is being looked at. *)
Lemma good_mode (s : epoll) id i f :
  good (Some id) [] s -> heap s !! id = Some i -> key (f i) = key i -> in_ready_queue (f i) = true ->
  good (Some id) [] (set_heap (alter f id (heap s)) s).
Proof.
  intros Hg Hi Hkey Hq. pose proof (g_out _ _ _ Hg id eq_refl) as Hout. split; simpl; try apply Hg.
  - intros j [= <-]. rewrite lookup_alter_eq, Hi. by exists (f i).
  - intros k j Hk. destruct (g_heap _ _ _ Hg _ _ Hk) as (i' & Hi' & Hki). rewrite lookup_alter. case_decide as Hj.
    + subst j. rewrite Hi'. exists (f i'). split; [done|]. assert (i' = i) as -> by congruence. by rewrite Hkey.
    + by exists i'.
  - intros j Hj. rewrite lookup_alter_ne by congruence. by apply (g_queued _ _ _ Hg).
  - intros k j i'. rewrite lookup_alter. intros Hk. case_decide as Hj; [subst; by right|]. by apply (g_marked _ _ _ Hg k).
  - intros k j i'. intros Hk Hi' Hx. rewrite lookup_alter_ne in Hi' by congruence. by apply (g_covered _ _ _ Hg k).
Qed.

(** The interest goes back to the end of the queue. *)
Lemma good_requeue (s : epoll) id :
  good (Some id) [] s -> good None [] (set_ready_queue (ready_queue s ++ [id]) s).
Proof.
  intros Hg. pose proof (g_out _ _ _ Hg id eq_refl) as Hout. split; simpl; try apply Hg; try done.
  - apply NoDup_app. split_and!; [apply Hg| |apply NoDup_singleton]. by intros j Hj ->%list_elem_of_singleton.
  - intros j. rewrite elem_of_app, list_elem_of_singleton.
    intros [Hin| ->]; [by apply (g_queued _ _ _ Hg)|by apply (g_looked _ _ _ Hg)].
  - intros k j i' Hk Hi' Hm. rewrite elem_of_app, list_elem_of_singleton.
    destruct (g_marked _ _ _ Hg _ _ _ Hk Hi' Hm) as [?|[= ->]]; auto.
  - intros k j i' Hk Hi' _ Hu Ho He. simpl. rewrite elem_of_app, list_elem_of_singleton.
    destruct (decide (j = id)) as [->|Hj]; [auto|].
    destruct (g_covered _ _ _ Hg _ _ _ Hk Hi' ltac:(congruence) Hu Ho He) as [?|?]; auto.
Qed.
(** The state keeps its interests, but for those removed, and what they ask for. *)
Definition stable (s s' : epoll) : Prop :=
  same_polls (files s) (files s') /\
  (forall k id, interests s' !! k = Some id -> interests s !! k = Some id) /\
  (forall k id, interests s !! k = Some id -> file_open k.2 (files s) = true -> interests s' !! k = Some id) /\
  (forall id i', heap s' !! id = Some i' -> exists i, heap s !! id = Some i /\ event i' = event i /\ key i' = key i).

Lemma stable_refl s : stable s s.
Proof. split_and!; [done|done|done|]. intros id i Hi. by exists i. Qed.

Lemma stable_trans s1 s2 s3 : stable s1 s2 -> stable s2 s3 -> stable s1 s3.
Proof.
  intros ([Hp1 Ho1] & Hi1 & Hl1 & Hh1) ([Hp2 Ho2] & Hi2 & Hl2 & Hh2). split_and!.
  - split; intros f; [by rewrite Hp2|by rewrite Ho2].
  - intros k id Hk. by apply Hi1, Hi2.
  - intros k id Hk Ho. apply Hl2; [by apply Hl1|by rewrite Ho1].
  - intros id i' Hi'. destruct (Hh2 _ _ Hi') as (i & Hi & He & Hk). destruct (Hh1 _ _ Hi) as (i0 & ? & ? & ?).
    exists i0. split_and!; congruence.
Qed.

Lemma stable_alter s id f w' m :
  same_polls (files s) w' -> (forall i, event (f i) = event i /\ key (f i) = key i) ->
  (forall k j, m !! k = Some j -> interests s !! k = Some j) ->
  (forall k j, interests s !! k = Some j -> file_open k.2 (files s) = true -> m !! k = Some j) ->
  forall q, stable s (mk_epoll (alter f id (heap s)) m q w').
Proof.
  intros Hp Hf Hm Hl q. split_and!; [done|done|done|]. intros j i'. simpl. rewrite lookup_alter. case_decide as Hj.
  - subst j. destruct (heap s !! id) as [i|]; [|done]. intros [= <-]. exists i. split_and!; [done|by apply Hf..].
  - intros Hi. by exists i'.
Qed.

(** No interest has changed its mode. *)
Definition same_modes (s s' : epoll) : Prop :=
  forall id i, heap s !! id = Some i -> exists i', heap s' !! id = Some i' /\ mode i' = mode i /\ event i' = event i.

Lemma same_modes_alter s id f m q w' :
  (forall i, heap s !! id = Some i -> mode (f i) = mode i /\ event (f i) = event i) ->
  same_modes s (mk_epoll (alter f id (heap s)) m q w').
Proof.
  intros Hf j i Hj. simpl. rewrite lookup_alter. case_decide as Hid.
  - subst j. rewrite Hj. exists (f i). by split; [|apply Hf].
  - by exists i.
Qed.

(** An event that is there, of an interest in an open file. *)
Definition genuine (s : epoll) (e : EpollEvent) : Prop :=
  exists k id i, interests s !! k = Some id /\ heap s !! id = Some i /\ file_open k.2 (files s) = true /\
    events e = matching (files s) k.2 (events (event i)) /\ events e <> 0 /\ user_data e = user_data (event i).

Lemma genuine_stable s s' e : stable s s' -> genuine s' e -> genuine s e.
Proof.
  intros ([Hp Ho] & Hi & _ & Hh) (k & id & i & Hk & Hid & Hopen & He & Hne & Hu).
  destruct (Hh _ _ Hid) as (i0 & Hi0 & Hev & _). exists k, id, i0. rewrite Ho in Hopen.
  unfold matching in *. rewrite Hp, Hev in He. rewrite Hev in Hu. split_and!; auto.
Qed.

Lemma same_modes_trans s1 s2 s3 : same_modes s1 s2 -> same_modes s2 s3 -> same_modes s1 s3.
Proof.
  intros H1 H2 id i Hi. destruct (H1 _ _ Hi) as (i' & Hi' & Hm & He). destruct (H2 _ _ Hi') as (i2 & ? & ? & ?).
  exists i2. split_and!; congruence.
Qed.

(** Taking an interest off and waiting for its next event. *)
Lemma settle_spec (s : epoll) id i out (R : VfsError -> epoll -> Prop) :
  good (Some id) [] s -> heap s !! id = Some i ->
  (is_enabled i = true -> mode i <> Edge -> matching (files s) (key i).2 (events (event i)) = 0) ->
  iwp (_ ← mark_not_in_queue id; _ ← register_waker_only id i; mret (out : option EpollEvent))
    (fun out' s' => out' = out /\ good None [] s' /\ stable s s' /\ ready_queue s' = ready_queue s /\ same_modes s s') R s.
Proof.
  intros Hg Hi Hm. unfold mark_not_in_queue, register_waker_only, get_file. apply iwp_bind, iwp_set, iwp_bind, iwp_bind, iwp_get.
  set (f := set_in_queue false). simpl.
  assert (Hend : forall w', same_polls (files s) w' -> (forall h j m, registered (files s) h j m -> registered w' h j m) ->
    covered (set_files w' s) id (f i) ->
    let s' := mk_epoll (alter f id (heap s)) (interests s) (ready_queue s) w' in
    out = out /\ good None [] s' /\ stable s s' /\ ready_queue s' = ready_queue s /\ same_modes s s').
  { intros w' Hp Hr Hc s'. split_and!; [done|by apply (good_settle s id i f w')|by apply stable_alter|done|].
    apply same_modes_alter. by intros i0 Hi0. }
  destruct (file_open (key i).2 (files s)) eqn:Hopen.
  2:{ apply iwp_ret, iwp_ret, Hend; try done. intros Ho. simpl in Ho. congruence. }
  destruct (is_enabled i) eqn:Hen; simpl.
  2:{ apply iwp_ret, iwp_ret, Hend; try done. intros _ He'. change (is_enabled (f i)) with (is_enabled i) in He'. congruence. }
  apply iwp_set, iwp_ret. destruct (file_register_law (key i).2 id (events (event i)) (files s)) as ([Hp Ho] & Hreg & Hmono).
  apply Hend; [by split|done|]. apply covered_registered; simpl; [done|].
  intros Hmode. unfold matching. rewrite Hp. by apply Hm.
Qed.

(** The event of a look, and whether the interest goes back into the queue. *)
Definition found_event (l : looked) : option EpollEvent :=
  match l with Found _ (EventAndKeep e) | Found _ (EventAndRemove e) => Some e | _ => None end.
Definition found_keep (l : looked) : bool := match l with Found _ (EventAndKeep _) => true | _ => false end.

(** No event that a level-triggered or armed one-shot interest asks for is in the file. *)
Definition nothing_there (s : epoll) (i : EpollInterest) : Prop :=
  is_enabled i = true -> mode i <> Edge -> matching (files s) (key i).2 (events (event i)) = 0.

(** The interest that is being looked at is still in the heap as the look has left it. *)
Definition looking (id : Z) (l : looked) (s : epoll) : Prop :=
  match l with
  | Gone => good None [] s
  | Found i r => good (Some id) [] s /\ exists i', heap s !! id = Some i' /\ key i' = key i /\ event i' = event i /\
      match r with
      | EventAndKeep _ => True
      | EventAndRemove _ => is_enabled i' = true -> mode i' = Edge
      | NoEvent => mode i' = mode i
      end
  end.

(** What a look at the first interest of [s] finds. *)
Definition look_ok (s : epoll) (id : Z) (q : list Z) (l : looked) (s' : epoll) : Prop :=
  looking id l s' /\ stable s s' /\ ready_queue s' = q /\
  match l with Found i NoEvent => nothing_there s' i | _ => True end /\
  match found_event l with Some e => genuine s e | None => same_modes s s' end.

(** After a change of mode. *)
Lemma look_ok_mode (s : epoll) id q i m r :
  let s1 := set_ready_queue q s in
  good (Some id) [] s1 -> heap s !! id = Some i -> in_ready_queue i = true ->
  match r with
  | EventAndKeep e => genuine s e
  | EventAndRemove e => genuine s e /\ (mode_is_enabled m = true -> m = Edge)
  | NoEvent => m = mode i /\ mode_is_enabled m = false
  end ->
  look_ok s id q (Found i r) (set_heap (alter (set_mode m) id (heap s1)) s1).
Proof.
  intros s1 Hg Hi Hflag Hr. split_and!; [|by apply (stable_alter s id (set_mode m) (files s))|done|..].
  - split; [by apply (good_mode _ _ i)|]. exists (set_mode m i). simpl. rewrite lookup_alter_eq, Hi.
    destruct r; naive_solver.
  - destruct r; try done. destruct Hr as [-> Hr]. intros He. unfold is_enabled in He. congruence.
  - destruct r; simpl; [done|by destruct Hr|]. destruct Hr as [-> _].
    refine (same_modes_alter s id (set_mode (mode i)) (interests s) q (files s) _).
    intros i0 Hi0. assert (i0 = i) as -> by congruence. done.
Qed.

Lemma poll_look_spec (s : epoll) id q (R : VfsError -> epoll -> Prop) :
  good None [] s -> ready_queue s = id :: q -> iwp (poll_look id) (look_ok s id q) R (set_ready_queue q s).
Proof.
  intros Hg Hq. destruct (good_pop _ _ _ Hg Hq) as [Hg1 (i & Hi & Hflag)]. set (s1 := set_ready_queue q s) in *.
  assert (Hst1 : stable s s1) by (split_and!; try done; intros j i' Hj; by exists i').
  assert (Hsm1 : same_modes s s1) by (intros j i' Hj; by exists i').
  unfold poll_look, upgrade. apply iwp_bind, iwp_get. destruct (alive s1 id) eqn:Hal.
  2:{ apply iwp_ret. split_and!; try done. apply (good_dead _ id); [done|]. intros k Hk.
      assert (alive s1 id = true) by (apply alive_iff; by exists k). congruence. }
  simpl. rewrite Hi. apply alive_iff in Hal as [k Hk]. destruct (g_heap _ _ _ Hg1 _ _ Hk) as (i0 & Hi0 & Hki).
  assert (i0 = i) as -> by (simpl in Hi0; congruence). unfold get_file. apply iwp_bind, iwp_get.
  destruct (file_open (key i).2 (files s1)) eqn:Hopen.
  2:{ apply iwp_bind, iwp_set, iwp_bind, iwp_set, iwp_ret. simpl. split_and!; try done; [| |by apply same_modes_alter].
      - pose proof (good_delete _ _ _ (key i) Hg1) as Hg2.
        refine (good_settle (set_interests (delete (key i) (interests s1)) s1) id i (set_in_queue false) (files s1)
                  Hg2 Hi eq_refl eq_refl _ _ _); try done.
        intros Ho. simpl in *. congruence.
      - apply (stable_alter s id (set_in_queue false) (files s)); [done|done| |].
        + intros k' j Hk'. simpl in Hk'. by apply lookup_delete_Some in Hk' as [_ ?].
        + intros k' j Hk' Ho. simpl. rewrite lookup_delete_ne; [done|]. intros <-. simpl in Hopen. congruence. }
  assert (Hgen : matching (files s1) (key i).2 (events (event i)) <> 0 ->
            genuine s (mk_event (matching (files s1) (key i).2 (events (event i))) (user_data (event i)))).
  { intros Hne. exists (key i), id, i. rewrite Hki at 1. by split_and!. }
  unfold consume. apply iwp_bind, iwp_bind, iwp_get. fold (matching (files s1) (key i).2 (events (event i))).
  destruct (Z.eqb_spec (matching (files s1) (key i).2 (events (event i))) 0) as [H0|H0].
  { apply iwp_ret, iwp_ret. split_and!; try done; [|by intros _ _].
    simpl. split; [done|]. by exists i. }
  destruct (should_notify (mode i)) as [notify m'] eqn:Hn. apply iwp_bind, iwp_set.
  destruct notify; simpl; apply iwp_ret, iwp_ret; destruct (mode i) as [| |[]] eqn:Hmi; simpl in Hn; simplify_eq;
    apply look_ok_mode; try done; rewrite ?Hmi; try done; try split; try done; by apply Hgen.
Qed.

Lemma poll_finish_spec (s : epoll) id l (R : VfsError -> epoll -> Prop) :
  looking id l s -> match l with Found i NoEvent => nothing_there s i | _ => True end ->
  iwp (poll_finish id l)
    (fun e s' => good None [] s' /\ stable s s' /\ e = found_event l /\ same_modes s s' /\
       ready_queue s' = ready_queue s ++ (if found_keep l then [id] else [])) R s.
Proof.
  assert (Hid : same_modes s s) by (intros j i Hj; by exists i).
  destruct l as [|i r]; simpl; intros Hl Hn.
  { apply iwp_ret. rewrite app_nil_r. split_and!; [done|apply stable_refl|done..]. }
  destruct Hl as (Hg & i' & Hi' & Hk & He & Hr). apply iwp_bind, iwp_get. rewrite Hi'. simpl.
  assert (Hout : forall e, nothing_there s i' ->
    iwp (_ ← mark_not_in_queue id; _ ← register_waker_only id i'; mret (e : option EpollEvent))
      (fun e' s' => good None [] s' /\ stable s s' /\ e' = e /\ same_modes s s' /\ ready_queue s' = ready_queue s ++ []) R s).
  { intros e Hnt. eapply iwp_mono; [by apply settle_spec| |by intros e0 s' Hx; exact Hx].
    intros e' s' (-> & ? & ? & Hq & ?). rewrite app_nil_r. done. }
  destruct r as [e|e|]; simpl.
  - apply iwp_bind, iwp_set, iwp_ret. split_and!; [by apply good_requeue| |done|by intros j i0 Hj; exists i0|done].
    split_and!; try done. intros j i0 Hj. by exists i0.
  - apply Hout. intros Hen Hmode. by destruct Hmode; apply Hr.
  - apply Hout. unfold nothing_there, is_enabled. rewrite Hr, Hk, He. exact Hn.
Qed.

Lemma poll_one_spec (s : epoll) id q (R : VfsError -> epoll -> Prop) :
  good None [] s -> ready_queue s = id :: q ->
  iwp (poll_one id)
    (fun e s' => good None [] s' /\ stable s s' /\
       match e with
       | Some e => genuine s e /\ (length (ready_queue s') <= S (length q))%nat
       | None => ready_queue s' = q /\ same_modes s s'
       end) R (set_ready_queue q s).
Proof.
  intros Hg Hq. unfold poll_one. apply iwp_bind.
  eapply iwp_mono; [by apply (poll_look_spec s id q)| |by intros e s' Hx; exact Hx].
  intros l s1 (Hl & Hst & Hq1 & Hn & He).
  eapply iwp_mono; [by apply poll_finish_spec| |by intros e s' Hx; exact Hx].
  intros e s2 (Hg2 & Hst2 & -> & Hm2 & Hq2). split_and!; [done|exact (stable_trans _ _ _ Hst Hst2)|]. rewrite Hq1 in Hq2.
  destruct (found_event l) eqn:Hf; rewrite Hq2.
  - split; [done|]. rewrite length_app. destruct (found_keep l); simpl; lia.
  - split; [|by eapply same_modes_trans]. destruct l as [|i []]; try done; by rewrite app_nil_r.
Qed.

Lemma poll_loop_spec fuel room out (s : epoll) (R : VfsError -> epoll -> Prop) :
  good None [] s -> (length (ready_queue s) + (room - length out) < fuel)%nat -> (length out <= room)%nat ->
  iwp (poll_loop fuel room out)
    (fun out' s' => good None [] s' /\ stable s s' /\
       exists new, out' = out ++ new /\ Forall (genuine s) new /\ (length out' <= room)%nat /\
         ((length out' < room)%nat -> ready_queue s' = []) /\ (new = [] -> same_modes s s')) R s.
Proof.
  revert out s. induction fuel as [|fuel IH]; intros out s Hg Hfuel Hout; [lia|]. cbn [poll_loop].
  assert (Hid : same_modes s s) by (intros j i Hj; by exists i).
  apply iwp_bind. unfold pop_front. apply iwp_state. destruct (ready_queue s) as [|id q] eqn:Hq; simpl.
  { apply iwp_ret. split_and!; [done|apply stable_refl|]. exists []. rewrite app_nil_r. by split_and!. }
  destruct (Nat.leb_spec room (length out)) as [Hfull|Hroom].
  { apply iwp_bind, iwp_set, iwp_ret. simpl. rewrite (good_unpop s id q Hg Hq).
    split_and!; [done|apply stable_refl|]. exists []. rewrite app_nil_r. split_and!; [done..|lia|lia|done]. }
  apply iwp_bind. eapply iwp_mono; [by apply (poll_one_spec s id q)| |by intros e s' Hx; exact Hx].
  intros e s1 (Hg1 & Hst1 & He). simpl in Hfuel.
  eapply iwp_mono; [apply IH; [done| |]| |by intros e' s' Hx; exact Hx].
  - destruct e; [destruct He as [_ He]; rewrite length_app; simpl; lia|destruct He as [-> _]; lia].
  - destruct e; [rewrite length_app; simpl; lia|lia].
  - intros out' s2 (Hg2 & Hst2 & new & -> & Hnew & Hlen & Hempty & Hmodes).
    assert (Hnew' : Forall (genuine s) new) by (eapply Forall_impl; [done|intros e'; by apply genuine_stable]).
    split_and!; [done|exact (stable_trans _ _ _ Hst1 Hst2)|]. destruct e as [e|].
    + destruct He as [He _]. exists (e :: new). rewrite <-app_assoc in *. simpl in *. by split_and!; [|constructor| | |].
    + destruct He as [_ Hm]. exists new. split_and!; try done. intros Hn. by eapply same_modes_trans; [|apply Hmodes].
Qed.

(** The interests that a wait looks for. *)
Definition wants (s : epoll) (k : EntryKey) (i : EpollInterest) : Prop :=
  exists id, interests s !! k = Some id /\ heap s !! id = Some i /\ file_open k.2 (files s) = true /\
             is_enabled i = true /\ mode i <> Edge.

Lemma poll_events_spec room (s : epoll) :
  good None [] s -> (0 < room)%nat ->
  iwp (poll_events room)
    (fun out s' => good None [] s' /\ (0 < length out <= room)%nat /\ Forall (genuine s) out)
    (fun e s' => good None [] s' /\ e = WouldBlock /\
       forall k i, wants s k i -> matching (files s) k.2 (events (event i)) = 0) s.
Proof.
  intros Hg Hroom. unfold poll_events. apply iwp_bind, iwp_get, iwp_bind.
  eapply iwp_mono; [apply (poll_loop_spec _ room [] s); [done|simpl; lia|simpl; lia]| |by intros e s' Hx; exact Hx].
  intros out s' (Hg' & Hst & new & -> & Hnew & Hlen & Hempty & Hmodes). simpl in *. destruct new as [|e new].
  - apply iwp_throw. split_and!; [done|done|]. intros k i (id & Hk & Hi & Ho & Hen & Hmode).
    destruct Hst as ([Hp Hopen] & _ & Hl & _). specialize (Hl _ _ Hk Ho).
    destruct (Hmodes eq_refl _ _ Hi) as (i' & Hi' & Hm & He). destruct (g_heap _ _ _ Hg' _ _ Hl) as (i2 & Hi2 & Hkey).
    assert (i2 = i') as -> by congruence.
    destruct (g_covered _ _ _ Hg' _ _ _ Hl Hi' ltac:(done) (not_elem_of_nil _)) as [Hin|[_ Hz]].
    + by rewrite Hopen, Hkey.
    + unfold is_enabled. by rewrite Hm.
    + rewrite Hempty in Hin by (simpl; lia). by apply not_elem_of_nil in Hin.
    + unfold matching in *. rewrite Hp, Hkey, He in Hz. apply Hz. congruence.
  - apply iwp_ret. split_and!; [done|simpl; lia|done|done].
Qed.

End laws.

(** * Histories of an event poll

    Any sequence of additions, modifications, removals and waits on an [epoll] instance, with
    anything happening to the files in between, between the iterations of a wait, and, within an
    iteration, between its look at a file and its reaction.  A wait misses no event, provided no
    interest is modified while it is in the ready queue, and no event comes in that last gap to an
    interest that was found without one; concrete runs show what happens then, and that a
    level-triggered interest is reported more than once. *)

#[local] Opaque iwp.

Section history.
Context {W : Type} {PO : Pollables W} {PL : PollableLaws (W := W)}.
Local Notation epoll := (Epoll W).

(** The interest of a descriptor is not in the queue. *)
Definition not_queued (fd : Z) (s : epoll) : Prop :=
  forall file id i, get_file_like fd (files s) = Some file -> interests s !! (fd, file) = Some id ->
    heap s !! id = Some i -> in_ready_queue i = false.

(** Things happen outside, one after the other, and the files call their wakers. *)
Inductive outside_run : epoll -> epoll -> Prop :=
| or_refl s : outside_run s s
| or_step s w' woken s1 s2 :
    outside_step (files s) woken w' -> wake_all woken (set_files w' s) = (ROk (), s1) ->
    outside_run s1 s2 -> outside_run s s2.

(** An interest that was looked at in vain, and is about to be registered again, has no event. *)
Definition no_race (l : looked) (s : epoll) : Prop :=
  match l with Found i NoEvent => nothing_there s i | _ => True end.

Inductive ep_history : epoll -> Prop :=
| eh_new w : ep_history (epoll_new w)
| eh_outside s w' woken s' :
    ep_history s -> outside_step (files s) woken w' -> wake_all woken (set_files w' s) = (ROk (), s') -> ep_history s'
| eh_add s fd e flags r s' : ep_history s -> epoll_add fd e flags s = (r, s') -> ep_history s'
| eh_modify s fd e flags r s' :
    ep_history s -> not_queued fd s -> epoll_modify fd e flags s = (r, s') -> ep_history s'
| eh_delete s fd r s' : ep_history s -> epoll_delete fd s = (r, s') -> ep_history s'
| eh_wait s room r s' : ep_history s -> (0 < room)%nat -> poll_events room s = (r, s') -> ep_history s'
| eh_iteration s id q l s1 s2 r s' :
    ep_history s -> ready_queue s = id :: q -> poll_look id (set_ready_queue q s) = (ROk l, s1) ->
    outside_run s1 s2 -> no_race l s2 -> poll_finish id l s2 = (r, s') -> ep_history s'.

Lemma key_new_spec fd (s : epoll) Q R :
  (forall file, get_file_like fd (files s) = Some file -> Q (fd, file) s) -> R BadFileDescriptor s ->
  iwp (key_new fd) Q R s.
Proof.
  intros HQ HR. unfold key_new. apply iwp_bind, iwp_get, iwp_bind, iwp_result.
  - intros file Hf. apply iwp_ret, HQ. by destruct (get_file_like fd (files s)); simplify_eq/=.
  - intros e He. destruct (get_file_like fd (files s)); by simplify_eq/=.
Qed.

Lemma epoll_add_spec fd e flags (s : epoll) :
  good None [] s -> iwp (epoll_add fd e flags) (fun _ s' => good None [] s') (fun _ s' => good None [] s') s.
Proof.
  intros Hg. unfold epoll_add. apply iwp_bind, key_new_spec; [|done]. intros file Hf. apply iwp_bind, iwp_get.
  destruct (interests s !! (fd, file)); [by apply iwp_throw|].
  destruct (good_new s (fd, file) (interest_new (fd, file) e flags) Hg eq_refl eq_refl) as (Hg' & Hi & Hal).
  apply iwp_bind. apply iwp_run. left. eexists _, _. split; [done|]. apply iwp_bind, iwp_set.
  eapply iwp_mono; [by apply (check_and_register_waker_spec [])| |by intros e' s' Hx; exact Hx]. by intros _ s' [? _].
Qed.

Lemma epoll_modify_spec fd e flags (s : epoll) :
  good None [] s -> not_queued fd s ->
  iwp (epoll_modify fd e flags) (fun _ s' => good None [] s') (fun _ s' => good None [] s') s.
Proof.
  intros Hg Hnq. unfold epoll_modify. apply iwp_bind, key_new_spec; [|done]. intros file Hf. apply iwp_bind, iwp_get.
  destruct (interests s !! (fd, file)) as [old|] eqn:Hold; [|by apply iwp_bind, iwp_throw].
  apply iwp_bind, iwp_ret, iwp_bind, iwp_get. destruct (g_heap _ _ _ Hg _ _ Hold) as (i & Hi & _). rewrite Hi.
  rewrite (Hnq _ _ _ Hf Hold Hi). change (set_in_queue false _) with (interest_new (fd, file) e flags).
  destruct (good_new s (fd, file) (interest_new (fd, file) e flags) Hg eq_refl eq_refl) as (Hg' & Hi' & Hal).
  apply iwp_bind. apply iwp_run. left. eexists _, _. split; [done|]. apply iwp_bind, iwp_set.
  eapply iwp_mono; [by apply (check_and_register_waker_spec [])| |by intros e' s' Hx; exact Hx]. by intros _ s' [? _].
Qed.

Lemma epoll_delete_spec fd (s : epoll) :
  good None [] s -> iwp (epoll_delete fd) (fun _ s' => good None [] s') (fun _ s' => good None [] s') s.
Proof.
  intros Hg. unfold epoll_delete. apply iwp_bind, key_new_spec; [|done]. intros file Hf. apply iwp_bind, iwp_get.
  destruct (interests s !! (fd, file)); [|by apply iwp_bind, iwp_throw]. apply iwp_bind, iwp_ret, iwp_set. by apply good_delete.
Qed.

Lemma good_empty w : good None [] (epoll_new w : epoll).
Proof.
  split; simpl; try done.
  - apply NoDup_nil_2.
  - by intros id ?%not_elem_of_nil.
Qed.

(** A run of an operation that keeps the invariant either way. *)
Lemma run_good {A} (m : io VfsError epoll A) s r s' :
  iwp m (fun _ s' => good None [] s') (fun _ s' => good None [] s') s -> m s = (r, s') -> good None [] s'.
Proof. intros [(a & s1 & Hm & Hg)|(e & s1 & Hm & Hg)]%iwp_run Hrun; rewrite Hm in Hrun; by injection Hrun as _ <-. Qed.

(** What happens outside leaves an interest that is being looked at alone. *)
Lemma outside_run_looking id l s s' : outside_run s s' -> looking id l s -> looking id l s'.
Proof.
  induction 1 as [s|s w' woken s1 s2 Hstep Hrun _ IH]; [done|]. intros Hl. apply IH. clear IH.
  assert (Hwake : forall x, good x [] s -> good x [] s1 /\
    forall j i, heap s !! j = Some i -> in_ready_queue i = true -> heap s1 !! j = Some i).
  { intros x Hg. pose proof (wake_all_spec x woken (set_files w' s) (fun _ _ => False) (outside_good _ _ _ _ Hg Hstep))
      as [([] & s3 & Hr & ? & _ & _ & ?)|(e & s3 & _ & [])]%iwp_run. rewrite Hr in Hrun. by injection Hrun as <-. }
  destruct l as [|i r]; [by apply Hwake|]. destruct Hl as (Hg & i' & Hi' & Hrest). destruct (Hwake _ Hg) as [Hg1 Hheap].
  split; [done|]. exists i'. split; [|done]. apply Hheap; [done|].
  destruct (g_looked _ _ _ Hg id eq_refl) as (i0 & Hi0 & ?). congruence.
Qed.

Lemma ep_history_good s : ep_history s -> good None [] s.
Proof.
  induction 1 as [w|s w' woken s' _ IH Hstep Hrun|s fd e fl r s' _ IH Hrun|s fd e fl r s' _ IH Hnq Hrun
    |s fd r s' _ IH Hrun|s room r s' _ IH Hroom Hrun|s id q l s1 s2 r s' _ IH Hq Hlook Hout Hrace Hrun].
  - apply good_empty.
  - eapply run_good; [|exact Hrun]. eapply iwp_mono; [apply wake_all_spec; by apply outside_good| |by intros e s1 Hx; exact Hx].
    by intros _ s1 [? _].
  - eapply run_good; [by apply epoll_add_spec|done].
  - eapply run_good; [by apply epoll_modify_spec|done].
  - eapply run_good; [by apply epoll_delete_spec|done].
  - eapply run_good; [|exact Hrun]. eapply iwp_mono; [by apply poll_events_spec| |].
    + by intros out s1 [? _].
    + by intros e s1 [? _].
  - pose proof (poll_look_spec s id q (fun _ _ => False) IH Hq) as [(l' & s3 & Hr & Hl & _)|(e & s3 & _ & [])]%iwp_run.
    rewrite Hr in Hlook. injection Hlook as -> ->. apply (outside_run_looking id l _ s2) in Hl; [|done].
    eapply run_good; [|exact Hrun]. eapply iwp_mono; [by apply poll_finish_spec| |by intros e s4 Hx; exact Hx].
    by intros e s4 [? _].
Qed.

(** C8: In the histories described next, whenever an enabled interest in an open file, not an
    edge-triggered one, asks for an event that is there, the instance shows itself ready to those
    who poll it, because its queue is not empty.  A wait from such a state, undisturbed, ends, and
    returns at least one event or [WouldBlock]; every event returned is there, nonempty, and asked
    for by an interest in an open file; and after [WouldBlock] there is no event that an enabled
    interest in an open file asks for, edge-triggered ones excepted.  The histories are sequences
    of additions, modifications, removals, whole waits and single iterations of waits; files change
    and call their wakers between them, and within an iteration between the look at the file and
    the reaction to it.  Two things are excluded: the modification of an interest that is in the
    queue, and an event that comes in the last-named gap to an interest found without one, which
    the code registers again without looking. *)
Theorem wait_misses_no_event s room :
  ep_history s -> (0 < room)%nat ->
  (forall k i, wants s k i -> matching (files s) k.2 (events (event i)) <> 0 -> epoll_poll s = 1) /\
  ((exists out s', poll_events room s = (ROk out, s') /\ (0 < length out <= room)%nat /\ Forall (genuine s) out) \/
   (exists s', poll_events room s = (RErr WouldBlock, s') /\
      forall k i, wants s k i -> matching (files s) k.2 (events (event i)) = 0)).
Proof.
  intros Hg%ep_history_good Hroom. split.
  - intros k i (id & Hk & Hi & Ho & He & Hm) Hne. destruct (g_heap _ _ _ Hg _ _ Hk) as (i' & Hi' & Hkey).
    assert (i' = i) as -> by congruence. rewrite <-Hkey in Ho.
    destruct (g_covered _ _ _ Hg _ _ _ Hk Hi ltac:(done) (not_elem_of_nil _) Ho He) as [Hin|[_ Hz]].
    + unfold epoll_poll. destruct (ready_queue s); [by apply not_elem_of_nil in Hin|done].
    + rewrite Hkey in Hz. by destruct Hne; apply Hz.
  - pose proof (poll_events_spec room s Hg Hroom) as [(out & s' & Hrun & _ & Hl & Hgen)|(e & s' & Hrun & _ & -> & Hno)]%iwp_run.
    + left. by exists out, s'.
    + right. by exists s'.
Qed.

End history.

(** ** Concrete files *)

(** A descriptor is its file; files have events, and wakers registered with them. *)
Record sim_files : Type := mk_files { sim_events : gmap Z Z; sim_regs : list (Z * Z * Z); sim_wakes : Z }.

#[export] Instance sim_pollables : Pollables sim_files := {
  get_file_like fd w := if bool_decide (is_Some (sim_events w !! fd)) then Some fd else None;
  file_open f w := bool_decide (is_Some (sim_events w !! f));
  file_poll f w := default 0 (sim_events w !! f);
  file_register f id mask w := mk_files (sim_events w) ((f, id, mask) :: sim_regs w) (sim_wakes w);
  wake_poller w := mk_files (sim_events w) (sim_regs w) (sim_wakes w + 1);
}.

#[export] Instance sim_pollable_laws : PollableLaws (W := sim_files).
Proof.
  refine {| registered w f id m := (f, id, m) ∈ sim_regs w |}; [|done].
  intros f id m w. split_and!; [done|by left|]. intros f' i' m' Hr. by right.
Defined.

(** The events of a file change, and the file calls its wakers. *)
Definition sim_event (f mask : Z) (s : Epoll sim_files) : Epoll sim_files :=
  let w := files s in
  let mine := fun r : Z * Z * Z => bool_decide (r.1.1 = f) in
  let w' := mk_files (<[f := mask]> (sim_events w)) (filter (fun r => negb (mine r)) (sim_regs w)) (sim_wakes w) in
  (wake_all ((fun r => r.1.2) <$> filter (fun r => mine r) (sim_regs w)) (set_files w' s)).2.

Definition ep_result {A} (r : res VfsError A * Epoll sim_files) : res VfsError A := r.1.
Definition ep_state {A} (r : res VfsError A * Epoll sim_files) : Epoll sim_files := r.2.

(** File 3 is open and readable; events 1 ([POLLIN]) of it are asked for with data 42. *)
Definition readable : Epoll sim_files := epoll_new (mk_files {[3 := 1]} [] 0).
Definition ask : EpollEvent := mk_event 1 42.

(** ** What goes wrong *)

(** A file that is readable is added, level-triggered, and a wait returns its event, after
    which the interest is still queued.  If it is now modified, even to what it was, no wait
    returns an event of the file any more, neither the one that is there nor later ones: the
    table has a new interest that counts as queued and is not. *)
Theorem modify_of_queued_interest_loses_events :
  let added := ep_state (epoll_add 3 ask 0 readable) in
  let waited := poll_events 1 added in
  let modified := epoll_modify 3 ask 0 (ep_state waited) in
  let again := poll_events 1 (ep_state modified) in
  let later := sim_event 3 1 (sim_event 3 0 (ep_state again)) in
  ep_result waited = ROk [ask] /\ ep_result modified = ROk () /\
  ep_result again = RErr WouldBlock /\ file_poll 3 (files (ep_state again)) = 1 /\
  epoll_poll later = 0 /\ ep_result (poll_events 1 later) = RErr WouldBlock /\ file_poll 3 (files later) = 1.
Proof. vm_compute. split_and!; reflexivity. Qed.

(** A wait with room for four events returns the one event of a level-triggered interest four
    times, where [epoll_wait] should return it once. *)
Theorem level_triggered_event_fills_the_buffer :
  ep_result (poll_events 4 (ep_state (epoll_add 3 ask 0 readable))) = ROk [ask; ask; ask; ask].
Proof. vm_compute. reflexivity. Qed.

(** An event that comes while a wait is between its look at the file and the registration of the
    waker is missed.  File 3 becomes readable, which queues its interest, and is read empty by
    someone; a wait looks at it and finds nothing; now data arrive, which wakes no one, as the
    waker has been used up; the wait registers it again, without looking.  The file is readable,
    the instance does not show it, and no wait reports it. *)
Theorem event_during_wait_is_missed :
  let added := ep_state (epoll_add 3 ask 0 (epoll_new (mk_files {[3 := 0]} [] 0))) in
  let drained := sim_event 3 0 (sim_event 3 1 added) in
  let l := poll_look 1 (set_ready_queue [] drained) in
  let arrived := sim_event 3 1 (ep_state l) in
  let s := ep_state (poll_finish 1 (match ep_result l with ROk l => l | _ => Gone end) arrived) in
  ready_queue drained = [1] /\ file_poll 3 (files s) = 1 /\ epoll_poll s = 0 /\
  ep_result (poll_events 1 s) = RErr WouldBlock.
Proof. vm_compute. split_and!; reflexivity. Qed.

Lemma wait_misses_no_event_witness :
  let s := ep_state (epoll_add 3 ask 0 readable) in
  ep_history s /\ exists out s', poll_events 2 s = (ROk out, s') /\ Forall (genuine s) out.
Proof.
  intros s. assert (Hh : ep_history s).
  { eapply (eh_add readable 3 ask 0 (ROk ())); [apply eh_new|]. by vm_compute. }
  split; [done|]. destruct (wait_misses_no_event s 2 Hh ltac:(lia)) as [_ [(out & s' & Hrun & _ & Hgen)|(s' & Hrun & _)]].
  - by exists out, s'.
  - exfalso. revert Hrun. vm_compute. discriminate.
Defined.
