(* ===== verification/Pipe.v ===== *)
(** * Pipes

    [kernel/src/file/pipe.rs]: the buffer that two ends share, the closures that [read] and
    [write] retry, and the tasks that run them through [poll_io] of
    [axtask/src/future/poll.rs], which polls, registers for a wake-up, polls again and then waits.
    A task takes these steps one by one, interleaved with those of other tasks, so that wake-ups
    can come at any point.

    The ring buffer ([ringbuf]) is a sequence with a capacity, and a poll set ([axpoll]) the set of
    tasks registered with it, emptied when it wakes them. *)

From S2P Require Import Prelude Io PageCache.

Definition RING_BUFFER_INIT_SIZE : Z := 65536.
Definition PAGE_SIZE_4K : Z := 4096.

(** [Shared], with the number of [Arc]s that refer to it: one per end. *)
Record Shared : Type := mk_shared {
  buffer : list Z;
  capacity : Z;
  poll_rx : gset Z;
  poll_tx : gset Z;
  poll_close : gset Z;
  strong_count : Z;
}.

(** [Pipe]: an end. *)
Record Pipe : Type := mk_pipe { read_side : bool; non_blocking : bool }.

(** [Pipe::new]. *)
Definition pipe_new : Shared * Pipe * Pipe :=
  (mk_shared [] RING_BUFFER_INIT_SIZE ∅ ∅ ∅ 2, mk_pipe true false, mk_pipe false false).

Definition closed (sh : Shared) : bool := strong_count sh =? 1.

Definition occupied (sh : Shared) : Z := Z.of_nat (length (buffer sh)).
Definition vacant (sh : Shared) : Z := capacity sh - occupied sh.

Definition set_buffer (b : list Z) (sh : Shared) : Shared :=
  mk_shared b (capacity sh) (poll_rx sh) (poll_tx sh) (poll_close sh) (strong_count sh).
Definition set_capacity (c : Z) (sh : Shared) : Shared :=
  mk_shared (buffer sh) c (poll_rx sh) (poll_tx sh) (poll_close sh) (strong_count sh).
Definition set_polls (rx tx cl : gset Z) (sh : Shared) : Shared :=
  mk_shared (buffer sh) (capacity sh) rx tx cl (strong_count sh).
Definition set_count (n : Z) (sh : Shared) : Shared :=
  mk_shared (buffer sh) (capacity sh) (poll_rx sh) (poll_tx sh) (poll_close sh) n.

(** [Pipe::resize]. *)
Definition resize (new_size : Z) (sh : Shared) : result VfsError () * Shared :=
  let new_size := Z.max ((new_size + PAGE_SIZE_4K - 1) / PAGE_SIZE_4K) 1 * PAGE_SIZE_4K in
  if new_size =? capacity sh then (Ok (), sh)
  else if new_size <? occupied sh then (Err ResourceBusy, sh)
  else (Ok (), set_capacity new_size sh).

(** ** Tasks *)

(** A call in progress: the room of a reader; what a writer has left, has written, and was given. *)
Inductive call : Type := Reading (room : Z) | Writing (src : list Z) (total size : Z).

(** Where [poll_io] is: before the first attempt, before registration, before the second attempt
    (woken in the meantime or not), or waiting. *)
Inductive phase : Type := Polling | Registering | Retrying (woken : bool) | Waiting.

Record task : Type := mk_task { t_pipe : Pipe; t_call : call; t_phase : phase }.

(** How a call ends: the bytes read, the number written, an error, or a signal. *)
Inductive outcome : Type := Read_ (bs : list Z) | Written (n : Z) | Failed (e : VfsError) | Interrupted.

(** The ends that are open ([true] for the read end), the tasks in calls, the calls that ended, and
    the tasks that raised [SIGPIPE]. *)
Record world : Type := mk_world {
  shared : Shared;
  ends : gset bool;
  tasks : gmap Z task;
  ended : gmap Z outcome;
  sigpipes : list Z;
}.

Definition set_shared (sh : Shared) (w : world) : world := mk_world sh (ends w) (tasks w) (ended w) (sigpipes w).
Definition set_tasks (m : gmap Z task) (w : world) : world := mk_world (shared w) (ends w) m (ended w) (sigpipes w).

Definition set_phase (p : phase) (t : task) : task := mk_task (t_pipe t) (t_call t) p.
Definition set_call (c : call) (t : task) : task := mk_task (t_pipe t) c (t_phase t).

Definition end_call (id : Z) (o : outcome) (w : world) : world :=
  mk_world (shared w) (ends w) (delete id (tasks w)) (<[id := o]> (ended w)) (sigpipes w).

(** A waker: a waiting task polls again, one between its attempts will. *)
Definition wake_phase (p : phase) : phase :=
  match p with Waiting => Polling | Retrying _ => Retrying true | p => p end.
Definition wake (ids : gset Z) (w : world) : world :=
  set_tasks (map_imap (fun id t => Some (if bool_decide (id ∈ ids) then set_phase (wake_phase (t_phase t)) t else t))
               (tasks w)) w.

(** [PollSet::wake]. *)
Definition wake_rx (w : world) : world :=
  wake (poll_rx (shared w)) (set_shared (set_polls ∅ (poll_tx (shared w)) (poll_close (shared w)) (shared w)) w).
Definition wake_tx (w : world) : world :=
  wake (poll_tx (shared w)) (set_shared (set_polls (poll_rx (shared w)) ∅ (poll_close (shared w)) (shared w)) w).
Definition wake_close (w : world) : world :=
  wake (poll_close (shared w)) (set_shared (set_polls (poll_rx (shared w)) (poll_tx (shared w)) ∅ (shared w)) w).

(** The closure of [read]: what it returns, [None] for [WouldBlock]. *)
Definition try_read (room : Z) (w : world) : option outcome * world :=
  let sh := shared w in
  let n := Z.to_nat (Z.min room (occupied sh)) in
  if (0 <? n)%nat then (Some (Read_ (take n (buffer sh))), wake_tx (set_shared (set_buffer (drop n (buffer sh)) sh) w))
  else if closed sh then (Some (Read_ []), w)
  else (None, w).

(** The closure of [write], with the new state of the call. *)
Definition try_write (id : Z) (p : Pipe) (src : list Z) (total size : Z) (w : world) : option outcome * call * world :=
  let sh := shared w in
  if closed sh then
    (Some (Failed BrokenPipe), Writing src total size, mk_world sh (ends w) (tasks w) (ended w) (sigpipes w ++ [id]))
  else
    let n := Z.to_nat (Z.min (vacant sh) (Z.of_nat (length src))) in
    let src' := drop n src in
    let total' := total + Z.of_nat n in
    let w' := if (0 <? n)%nat then wake_rx (set_shared (set_buffer (buffer sh ++ take n src) sh) w) else w in
    let done := (0 <? n)%nat && ((total' =? size) || non_blocking p) in
    (if done then Some (Written total') else None, Writing src' total' size, w').

(** One attempt of a task: the task is kept with its new call if it would block. *)
Definition attempt_call (id : Z) (t : task) (w : world) : option outcome * call * world :=
  match t_call t with
  | Reading room => let '(o, w') := try_read room w in (o, t_call t, w')
  | Writing src total size => try_write id (t_pipe t) src total size w
  end.

(** ** Steps *)

Inductive event : Type :=
| EStart (id : Z) (p : Pipe) (c : call)
| EPoll (id : Z)
| ERegister (id : Z)
| ERetry (id : Z)
| EInterrupt (id : Z)
| EDropWake (side : bool)
| EDropCount (side : bool)
| EResize (new_size : Z).

(** [read] and [write] up to [poll_io]. *)
Definition start (id : Z) (p : Pipe) (c : call) (w : world) : world :=
  let refuse o := mk_world (shared w) (ends w) (tasks w) (<[id := o]> (ended w)) (sigpipes w) in
  match c with
  | Reading room =>
      if negb (read_side p) then refuse (Failed BadFileDescriptor)
      else if room =? 0 then refuse (Read_ [])
      else set_tasks (<[id := mk_task p c Polling]> (tasks w)) w
  | Writing src _ _ =>
      if read_side p then refuse (Failed BadFileDescriptor)
      else if (length src =? 0)%nat then refuse (Written 0)
      else set_tasks (<[id := mk_task p (Writing src 0 (Z.of_nat (length src))) Polling]> (tasks w)) w
  end.

(** The first attempt; a non-blocking call ends with [WouldBlock]. *)
Definition poll_task (id : Z) (t : task) (w : world) : world :=
  match attempt_call id t w with
  | (Some o, _, w') => end_call id o w'
  | (None, c, w') =>
      if non_blocking (t_pipe t) then end_call id (Failed WouldBlock) w'
      else set_tasks (<[id := mk_task (t_pipe t) c Registering]> (tasks w')) w'
  end.

(** [Pipe::register]. *)
Definition register (id : Z) (t : task) (w : world) : world :=
  let sh := shared w in
  let reading := match t_call t with Reading _ => true | Writing _ _ _ => false end in
  let sh' := set_polls (if reading then {[id]} ∪ poll_rx sh else poll_rx sh)
               (if reading then poll_tx sh else {[id]} ∪ poll_tx sh) ({[id]} ∪ poll_close sh) sh in
  set_tasks (<[id := set_phase (Retrying false) t]> (tasks w)) (set_shared sh' w).

(** The second attempt. *)
Definition retry_task (id : Z) (t : task) (w : world) : world :=
  match attempt_call id t w with
  | (Some o, _, w') => end_call id o w'
  | (None, c, w') =>
      let p := match t_phase (default t (tasks w' !! id)) with Retrying true => Polling | _ => Waiting end in
      set_tasks (<[id := mk_task (t_pipe t) c p]> (tasks w')) w'
  end.

(** Dropping an end: [Drop::drop] wakes, and then the [Arc] in the field goes. *)
Definition drop_wake (w : world) : world := wake_close w.
Definition drop_count (side : bool) (w : world) : world :=
  mk_world (set_count (strong_count (shared w) - 1) (shared w)) (ends w ∖ {[side]}) (tasks w) (ended w) (sigpipes w).

(** An end can be dropped once, and not while there are calls on it. *)
Definition can_drop (side : bool) (w : world) : bool :=
  bool_decide (side ∈ ends w) && bool_decide (map_Forall (fun _ t => read_side (t_pipe t) <> side) (tasks w)).

Definition pipe_step (e : event) (w : world) : option world :=
  match e with
  | EStart id p c => 
      if bool_decide (tasks w !! id = None) && bool_decide (read_side p ∈ ends w) then Some (start id p c w) else None
  | EPoll id =>
      match tasks w !! id with
      | Some t => match t_phase t with Polling => Some (poll_task id t w) | _ => None end
      | None => None
      end
  | ERegister id =>
      match tasks w !! id with
      | Some t => match t_phase t with Registering => Some (register id t w) | _ => None end
      | None => None
      end
  | ERetry id =>
      match tasks w !! id with
      | Some t => match t_phase t with Retrying _ => Some (retry_task id t w) | _ => None end
      | None => None
      end
  | EInterrupt id =>
      match tasks w !! id with
      | Some t => match t_phase t with Polling => Some (end_call id Interrupted w) | _ => None end
      | None => None
      end
  | EDropWake side => if can_drop side w then Some (drop_wake w) else None
  | EDropCount side => if can_drop side w then Some (drop_count side w) else None
  | EResize n => Some (set_shared (resize n (shared w)).2 w)
  end.

Fixpoint pipe_run (es : list event) (w : world) : option world :=
  match es with
  | [] => Some w
  | e :: es => w' ← pipe_step e w; pipe_run es w'
  end.

Definition new_world : world := mk_world pipe_new.1.1 {[true; false]} ∅ ∅ [].
