(* ===== verification/PipeSpec.v ===== *)
(** * Pipes: order and wake-ups

    Over all interleavings of the steps of reading and writing tasks: bytes come out in the order
    they went in, none lost or duplicated, and the buffer stays within its capacity.  If ends are
    dropped in one step and the buffer is not enlarged, a task waits only while it has to.  Two
    runs show what happens otherwise. *)

From S2P Require Import Prelude Io PageCache Pipe.

(** ** Order *)

(** What an attempt of a call takes from the caller and gives to the caller. *)
Definition call_flow (id : Z) (t : task) (w : world) : list Z * list Z :=
  let '(o, c, _) := attempt_call id t w in
  (match t_call t, c with Writing src _ _, Writing src' _ _ => take (length src - length src') src | _, _ => [] end,
   match o with Some (Read_ bs) => bs | _ => [] end).

Definition flow (e : event) (w : world) : list Z * list Z :=
  match e with
  | EPoll id | ERetry id => match tasks w !! id with Some t => call_flow id t w | None => ([], []) end
  | _ => ([], [])
  end.

Fixpoint flows (es : list event) (w : world) : list Z * list Z :=
  match es with
  | [] => ([], [])
  | e :: es =>
      match pipe_step e w with
      | Some w' => ((flow e w).1 ++ (flows es w').1, (flow e w).2 ++ (flows es w').2)
      | None => ([], [])
      end
  end.

Definition bounded (w : world) : Prop := occupied (shared w) <= capacity (shared w).

Lemma shared_wake ids w : shared (wake ids w) = shared w.
Proof. done. Qed.

(** What an attempt does to the buffer. *)
Lemma attempt_buffer id t w o c w' :
  bounded w -> attempt_call id t w = (o, c, w') ->
  (call_flow id t w).2 ++ buffer (shared w') = buffer (shared w) ++ (call_flow id t w).1 /\
  capacity (shared w') = capacity (shared w) /\ bounded w'.
Proof.
  intros Hb Ha. unfold call_flow. rewrite Ha. unfold attempt_call in Ha. unfold bounded, occupied in *.
  destruct (t_call t) as [room|src total size].
  - unfold try_read in Ha. destruct (Nat.ltb_spec 0 (Z.to_nat (Z.min room (occupied (shared w))))) as [Hn|Hn].
    + injection Ha as <- <- <-. simpl. rewrite app_nil_r, take_drop. split_and!; [done|done|]. rewrite length_drop. lia.
    + destruct (closed (shared w)); injection Ha as <- <- <-; simpl; rewrite app_nil_r; done.
  - unfold try_write in Ha. destruct (closed (shared w)).
    { injection Ha as <- <- <-. simpl. rewrite Nat.sub_diag. simpl. by rewrite app_nil_r. }
    set (n := Z.to_nat (Z.min (vacant (shared w)) (Z.of_nat (length src)))) in *.
    assert (Hlen : (n <= length src)%nat) by lia.
    assert (Htake : take (length src - length (drop n src)) src = take n src).
    { rewrite length_drop. f_equal. lia. }
    injection Ha as <- <- <-. rewrite Htake.
    assert (Hout : match (if (0 <? n)%nat && ((total + Z.of_nat n =? size) || non_blocking (t_pipe t))
                          then Some (Written (total + Z.of_nat n)) else None) with
                   | Some (Read_ bs) => bs | _ => [] end = []) by (by destruct ((0 <? n)%nat && _)).
    rewrite Hout. destruct (Nat.ltb_spec 0 n) as [Hn|Hn]; simpl.
    + split_and!; [done|done|]. rewrite length_app, length_take. unfold vacant, occupied in *. lia.
    + assert (n = 0%nat) as -> by lia. by rewrite take_0, app_nil_r.
Qed.

Lemma step_buffer e w w' :
  bounded w -> pipe_step e w = Some w' ->
  (flow e w).2 ++ buffer (shared w') = buffer (shared w) ++ (flow e w).1 /\ bounded w'.
Proof.
  intros Hb Hstep. destruct e as [id p c|id|id|id|id|side|side|n]; simpl in *.
  - case_match; [|done]. injection Hstep as <-. rewrite app_nil_r. unfold start. destruct c; repeat case_match; done.
  - destruct (tasks w !! id) as [t|]; [|done]. destruct (t_phase t); try done. injection Hstep as <-.
    unfold poll_task. destruct (attempt_call id t w) as [[o c] w1] eqn:Ha.
    destruct (attempt_buffer _ _ _ _ _ _ Hb Ha) as (? & _ & ?). destruct o; [done|]. by case_match.
  - destruct (tasks w !! id) as [t|]; [|done]. destruct (t_phase t); try done. injection Hstep as <-.
    by rewrite app_nil_r.
  - destruct (tasks w !! id) as [t|]; [|done]. destruct (t_phase t); try done. injection Hstep as <-.
    unfold retry_task. destruct (attempt_call id t w) as [[o c] w1] eqn:Ha.
    destruct (attempt_buffer _ _ _ _ _ _ Hb Ha) as (? & _ & ?). by destruct o.
  - destruct (tasks w !! id) as [t|]; [|done]. destruct (t_phase t); try done. injection Hstep as <-.
    by rewrite app_nil_r.
  - case_match; [|done]. injection Hstep as <-. by rewrite app_nil_r.
  - case_match; [|done]. injection Hstep as <-. by rewrite app_nil_r.
  - injection Hstep as <-. rewrite app_nil_r. unfold resize. repeat case_match; simpl; try done.
    split; [done|]. unfold bounded, occupied. simpl. apply Z.ltb_ge. done.
Qed.

(** C9: Over any interleaving of the steps of any tasks, with ends dropped and the buffer resized
    at any time: the bytes that reads have returned, followed by those in the buffer, are the bytes
    that writes have taken, in order; and the buffer never holds more than its capacity. *)
Theorem pipe_is_fifo es w :
  pipe_run es new_world = Some w ->
  (flows es new_world).2 ++ buffer (shared w) = (flows es new_world).1 /\
  occupied (shared w) <= capacity (shared w).
Proof.
  assert (Hgen : forall es w0 w, bounded w0 -> pipe_run es w0 = Some w ->
    (flows es w0).2 ++ buffer (shared w) = buffer (shared w0) ++ (flows es w0).1 /\ bounded w).
  { clear. intros es. induction es as [|e es IH]; intros w0 w Hb Hrun; simpl in *.
    - injection Hrun as <-. by rewrite app_nil_r.
    - destruct (pipe_step e w0) as [w1|] eqn:Hstep; [|done]. simpl in Hrun.
      destruct (step_buffer _ _ _ Hb Hstep) as [Hf Hb1]. destruct (IH _ _ Hb1 Hrun) as [Hfs ?]. split; [|done]. simpl.
      rewrite <-app_assoc, Hfs, app_assoc, Hf. by rewrite app_assoc. }
  intros Hrun. by destruct (Hgen es new_world w) as [? ?].
Qed.

(** ** Wake-ups *)

(** What a waiting call waits for has not happened. *)
Definition stuck (w : world) (t : task) : Prop :=
  closed (shared w) = false /\
  match t_call t with Reading _ => buffer (shared w) = [] | Writing _ _ _ => vacant (shared w) = 0 end.

Definition listening (w : world) (id : Z) (t : task) : Prop :=
  id ∈ poll_close (shared w) /\
  match t_call t with Reading _ => id ∈ poll_rx (shared w) | Writing _ _ _ => id ∈ poll_tx (shared w) end.

Definition phase_ok (w : world) (id : Z) (t : task) : Prop :=
  (t_phase t <> Polling -> non_blocking (t_pipe t) = false) /\
  match t_phase t with
  | Retrying false => listening w id t
  | Waiting => listening w id t /\ stuck w t
  | _ => True
  end.

Definition call_ok (p : Pipe) (c : call) : Prop :=
  match c with
  | Reading room => read_side p = true /\ 0 < room
  | Writing src total size => read_side p = false /\ src <> [] /\ total + Z.of_nat (length src) = size
  end.

Record settled (w : world) : Prop := {
  st_bounded : bounded w;
  st_count : strong_count (shared w) = Z.of_nat (size (ends w));
  st_open id t : tasks w !! id = Some t -> read_side (t_pipe t) ∈ ends w;
  st_call id t : tasks w !! id = Some t -> call_ok (t_pipe t) (t_call t);
  st_phase id t : tasks w !! id = Some t -> phase_ok w id t;
}.

Lemma lookup_wake ids w id :
  tasks (wake ids w) !! id =
    (fun t => if bool_decide (id ∈ ids) then set_phase (wake_phase (t_phase t)) t else t) <$> tasks w !! id.
Proof. simpl. rewrite map_lookup_imap. by destruct (tasks w !! id). Qed.

(** A task that was woken is fine whatever happened; one that was not has to be. *)
Lemma woken_phase_ok w w' id t : phase_ok w' id t -> phase_ok w id (set_phase (wake_phase (t_phase t)) t).
Proof. unfold phase_ok. simpl. intros [Hnb _]. destruct (t_phase t) as [| |[]|]; split; try done; intros _; by apply Hnb. Qed.

Lemma wake_settled ids w :
  bounded w -> strong_count (shared w) = Z.of_nat (size (ends w)) ->
  (forall id t, tasks w !! id = Some t -> read_side (t_pipe t) ∈ ends w) ->
  (forall id t, tasks w !! id = Some t -> call_ok (t_pipe t) (t_call t)) ->
  (forall id t, tasks w !! id = Some t -> exists w0, phase_ok w0 id t) ->
  (forall id t, tasks w !! id = Some t -> id ∉ ids -> phase_ok w id t) ->
  settled (wake ids w).
Proof.
  intros Hb Hc Ho Hcall Hwas Hp. split; [exact Hb|exact Hc| | |]; intros id t; rewrite lookup_wake; intros (t0 & Ht & ->)%fmap_Some.
  - case_bool_decide; by apply (Ho id t0).
  - case_bool_decide; by apply (Hcall id t0).
  - case_bool_decide; [|by apply Hp]. destruct (Hwas _ _ Ht) as [w0 Hw0]. by eapply woken_phase_ok.
Qed.

(** What an attempt leaves: the invariant, and if the call goes on, the reason. *)
Lemma attempt_settled id t w o c w' :
  settled w -> tasks w !! id = Some t -> attempt_call id t w = (o, c, w') ->
  settled w' /\ (exists t', tasks w' !! id = Some t' /\ t_pipe t' = t_pipe t /\ t_call t' = t_call t /\
     (t_phase t' = t_phase t \/ t_phase t' = wake_phase (t_phase t))) /\
  (o = None -> call_ok (t_pipe t) c /\
     (non_blocking (t_pipe t) = false -> forall p, stuck w' (mk_task (t_pipe t) c p))).
Proof.
  intros Hs Ht Ha. pose proof (st_bounded _ Hs) as Hb. pose proof (attempt_buffer _ _ _ _ _ _ Hb Ha) as (_ & _ & Hb').
  pose proof (st_call _ Hs _ _ Ht) as Hok.
  unfold attempt_call in Ha. destruct (t_call t) as [room|src total sz] eqn:Hcall.
  - unfold try_read in Ha. destruct (Nat.ltb_spec 0 (Z.to_nat (Z.min room (occupied (shared w))))) as [Hn|Hn].
    + injection Ha as <- <- <-. split_and!; [| |done].
      * apply wake_settled; [done|apply Hs|apply Hs|apply Hs|by intros j t0 Hj; exists w; apply (st_phase _ Hs)|].
        intros j t0 Hj Hin. simpl in *.
        pose proof (st_phase _ Hs _ _ Hj) as Hph. destruct Hph as [Hnb Hph]. split; [done|]. unfold listening, stuck in *. simpl.
        assert (Hne : buffer (shared w) <> []) by (intros He; unfold occupied in Hn; rewrite He in Hn; simpl in Hn; lia).
        destruct (t_phase t0) as [| |[]|]; try done; destruct (t_call t0); tauto.
      * unfold wake_tx, wake_rx. rewrite lookup_wake. simpl. rewrite Ht. eexists. split; [done|]. case_bool_decide; split_and!; auto.
    + destruct (closed (shared w)) eqn:Hcl; injection Ha as <- <- <-; [split_and!; [done|by exists t; auto|done]|]. split_and!; [done|by exists t; auto|]. intros _.
      split; [done|]. intros _ p. split; [done|]. simpl. destruct Hok as [_ Hroom].
      destruct (buffer (shared w)) eqn:Hbuf; [done|]. unfold occupied in Hn. rewrite Hbuf in Hn. simpl in Hn. lia.
  - destruct Hok as (Hside & Hsrc & Hsize). unfold try_write in Ha. destruct (closed (shared w)) eqn:Hcl.
    { injection Ha as <- <- <-. split_and!; [|by exists t; auto|done]. split; apply Hs. }
    set (n := Z.to_nat (Z.min (vacant (shared w)) (Z.of_nat (length src)))) in *. injection Ha as <- <- <-.
    assert (Hlen : (0 < length src)%nat) by (destruct src; [done|simpl; lia]).
    destruct (Nat.ltb_spec 0 n) as [Hn|Hn].
    + split_and!.
      * apply wake_settled; [done|apply Hs|apply Hs|apply Hs|by intros j t0 Hj; exists w; apply (st_phase _ Hs)|].
        intros j t0 Hj Hin. simpl in *.
        pose proof (st_phase _ Hs _ _ Hj) as Hph. destruct Hph as [Hnb Hph]. split; [done|]. unfold listening, stuck, vacant in *. simpl.
        destruct (t_phase t0) as [| |[]|]; try done; destruct (t_call t0); try tauto; destruct Hph as [_ [_ Hz]]; lia.
      * unfold wake_tx, wake_rx. rewrite lookup_wake. simpl. rewrite Ht. eexists. split; [done|]. case_bool_decide; split_and!; auto.
      * simpl. destruct (Z.eqb_spec (total + Z.of_nat n) sz) as [|Hneq]; [done|]. destruct (non_blocking (t_pipe t)); [done|].
        intros _. rewrite length_drop. split_and!; [done| |lia|].
        { intros Hd. apply (f_equal length) in Hd. rewrite length_drop in Hd. simpl in Hd. lia. }
        intros _ p. split; [done|]. unfold vacant, occupied in *. simpl. rewrite length_app, length_take. lia.
    + assert (n = 0%nat) as Hn0 by lia. rewrite Hn0. split_and!; [done|by exists t; auto|]. simpl. intros _. rewrite drop_0.
      split_and!; [done|done|lia|]. intros _ p. split; [done|]. simpl. unfold bounded in Hb. unfold vacant in *. lia.
Qed.

Lemma put_settled id t w :
  settled w -> read_side (t_pipe t) ∈ ends w -> call_ok (t_pipe t) (t_call t) -> phase_ok w id t ->
  settled (set_tasks (<[id := t]> (tasks w)) w).
Proof.
  intros Hs Ho Hc Hp. split; [apply Hs|apply Hs| | |]; intros j t'; simpl; rewrite lookup_insert; case_decide as Hj.
  - by intros [= <-].
  - apply (st_open _ Hs).
  - by intros [= <-].
  - apply (st_call _ Hs).
  - intros [= <-]. by subst j.
  - apply (st_phase _ Hs).
Qed.

Lemma end_settled id o w : settled w -> settled (end_call id o w).
Proof.
  intros Hs. split; [apply Hs|apply Hs| | |]; intros j t; simpl; intros [_ Hj]%lookup_delete_Some;
    [by eapply st_open|by eapply st_call|by apply (st_phase _ Hs)].
Qed.

Lemma register_settled id t w :
  settled w -> tasks w !! id = Some t -> t_phase t = Registering -> settled (register id t w).
Proof.
  intros Hs Ht Hreg. unfold register. set (sh' := set_polls _ _ _ _).
  assert (Hmono : forall j t', phase_ok w j t' -> phase_ok (set_shared sh' w) j t').
  { intros j t' [Hnb Hph]. split; [done|]. unfold listening, stuck in *. simpl. destruct (t_phase t') as [| |[]|]; try done;
      destruct (t_call t), (t_call t'); set_solver. }
  apply (put_settled id (set_phase (Retrying false) t) (set_shared sh' w)).
  - split; [apply Hs|apply Hs|apply Hs|apply Hs|]. intros j t' Hj. apply Hmono. by apply (st_phase _ Hs).
  - exact (st_open _ Hs id t Ht).
  - exact (st_call _ Hs id t Ht).
  - destruct (st_phase _ Hs _ _ Ht) as [Hnb _]. split; [intros _; apply Hnb; by rewrite Hreg|].
    unfold listening. simpl. destruct (t_call t); set_solver.
Qed.

Lemma poll_settled id t w : settled w -> tasks w !! id = Some t -> settled (poll_task id t w).
Proof.
  intros Hs Ht. unfold poll_task. destruct (attempt_call id t w) as [[o c] w'] eqn:Ha.
  destruct (attempt_settled _ _ _ _ _ _ Hs Ht Ha) as (Hs' & (t' & Ht' & Hpipe & _) & Hnone).
  destruct o; [by apply end_settled|]. destruct (Hnone eq_refl) as [Hok _].
  destruct (non_blocking (t_pipe t)) eqn:Hnb; [by apply end_settled|].
  apply put_settled; try done. simpl. rewrite <-Hpipe. by apply (st_open _ Hs' id).
Qed.

Lemma retry_settled id t w b :
  settled w -> tasks w !! id = Some t -> t_phase t = Retrying b -> settled (retry_task id t w).
Proof.
  intros Hs Ht Hph. destruct (st_phase _ Hs _ _ Ht) as [Hnb _]. specialize (Hnb ltac:(by rewrite Hph)).
  unfold retry_task. destruct (attempt_call id t w) as [[o c] w'] eqn:Ha.
  destruct (attempt_settled _ _ _ _ _ _ Hs Ht Ha) as (Hs' & (t' & Ht' & Hpipe & Hcall & Hph') & Hnone).
  destruct o; [by apply end_settled|]. destruct (Hnone eq_refl) as [Hok Hstuck]. rewrite Ht'. simpl.
  apply put_settled; [done|simpl; rewrite <-Hpipe; by apply (st_open _ Hs' id)|done|].
  destruct (st_phase _ Hs' _ _ Ht') as [_ Hp']. pose proof (st_call _ Hs' _ _ Ht') as Hok'. rewrite Hpipe in Hok'.
  rewrite Hph in Hph'. simpl in Hph'.
  destruct (t_phase t') as [| |[]|]; try (by destruct Hph'); (split; [done|]); try done. simpl. split; [|by apply Hstuck].
  unfold listening in *. simpl. destruct (t_call t'), c; simpl in *; tauto || (destruct Hok', Hok; congruence).
Qed.

(** Runs in which ends are dropped in one step and the buffer is not enlarged. *)
Definition calm_event (e : event) (w : world) : Prop :=
  match e with
  | EStart _ _ (Reading room) => 0 <= room
  | EDropWake _ | EDropCount _ => False
  | EResize n => capacity (resize n (shared w)).2 <= capacity (shared w)
  | _ => True
  end.

Inductive calm : world -> Prop :=
| calm_new : calm new_world
| calm_step w e w' : calm w -> calm_event e w -> pipe_step e w = Some w' -> calm w'
| calm_drop w side w1 w2 :
    calm w -> pipe_step (EDropWake side) w = Some w1 -> pipe_step (EDropCount side) w1 = Some w2 -> calm w2.

Lemma start_settled id p c w :
  settled w -> read_side p ∈ ends w -> calm_event (EStart id p c) w -> settled (start id p c w).
Proof.
  intros Hs Hopen Hc. assert (Hsame : forall o, settled (mk_world (shared w) (ends w) (tasks w) (<[id := o]> (ended w)) (sigpipes w))).
  { intros o. split; apply Hs. }
  unfold start. destruct c as [room|src total sz]; simpl in Hc.
  - destruct (read_side p) eqn:Hside; simpl; [|apply Hsame]. destruct (Z.eqb_spec room 0); [apply Hsame|].
    apply put_settled; [done|simpl; by rewrite ?Hside in *|simpl; split; [done|lia]|done].
  - destruct (read_side p) eqn:Hside; simpl; [apply Hsame|]. destruct (Nat.eqb_spec (length src) 0); [apply Hsame|].
    apply put_settled; [done|simpl; by rewrite ?Hside in *|simpl|done]. split_and!; [done| |lia]. by intros ->.
Qed.

Lemma drop_settled w side w1 w2 :
  settled w -> pipe_step (EDropWake side) w = Some w1 -> pipe_step (EDropCount side) w1 = Some w2 -> settled w2.
Proof.
  intros Hs H1 H2. simpl in *. destruct (can_drop side w) eqn:Hd1; [|done]. injection H1 as <-.
  destruct (can_drop side (drop_wake w)) eqn:Hd2; [|done]. injection H2 as <-.
  apply andb_true_iff in Hd2 as [Hin%bool_decide_eq_true Hother%bool_decide_eq_true].
  assert (Hw : settled (drop_wake w)).
  { apply wake_settled; [apply Hs|apply Hs|apply Hs|apply Hs|by intros j t Hj; exists w; apply (st_phase _ Hs)|].
    intros j t Hj Hnot. simpl in *. destruct (st_phase _ Hs _ _ Hj) as [Hnb Hp]. split; [done|].
    unfold listening in *. destruct (t_phase t) as [| |[]|]; tauto. }
  split; simpl; [apply Hw| | |apply (st_call _ Hw)|].
  - pose proof (st_count _ Hw) as Hcnt. simpl in *. rewrite Hcnt. rewrite size_difference by set_solver. rewrite size_singleton.
    assert (size (ends w) <> 0%nat) by (intros ?%size_empty_inv; set_solver). lia.
  - intros j t Hj. pose proof (st_open _ Hw _ _ Hj) as Ho. pose proof (Hother _ _ Hj) as Hne. simpl in *. set_solver.
  - intros j t Hj. change (tasks (drop_wake w) !! j = Some t) in Hj. unfold drop_wake, wake_close in Hj. rewrite lookup_wake in Hj. apply fmap_Some in Hj as (t0 & Ht0 & ->). simpl in *.
    destruct (st_phase _ Hs _ _ Ht0) as [Hnb Hp]. case_bool_decide as Hin'.
    + apply (woken_phase_ok _ w). by apply (st_phase _ Hs).
    + split; [done|]. unfold listening in *. destruct (t_phase t0) as [| |[]|]; tauto.
Qed.

Lemma calm_settled w : calm w -> settled w.
Proof.
  induction 1 as [|w e w' _ IH Hc Hstep|w side w1 w2 _ IH H1 H2].
  - split; simpl; try done.
  - pose proof (proj2 (step_buffer _ _ _ (st_bounded _ IH) Hstep)) as Hb'.
    destruct e as [id p c|id|id|id|id|side|side|n]; simpl in *; try done.
    + destruct (bool_decide (tasks w !! id = None)); [|done]. simpl in Hstep.
      destruct (bool_decide_reflect (read_side p ∈ ends w)); [|done]. injection Hstep as <-. by apply start_settled.
    + destruct (tasks w !! id) as [t|] eqn:Ht; [|done]. destruct (t_phase t); try done. injection Hstep as <-. by apply poll_settled.
    + destruct (tasks w !! id) as [t|] eqn:Ht; [|done]. destruct (t_phase t) eqn:Hp; try done. injection Hstep as <-. by apply register_settled.
    + destruct (tasks w !! id) as [t|] eqn:Ht; [|done]. destruct (t_phase t) eqn:Hp; try done. injection Hstep as <-. by eapply retry_settled.
    + destruct (tasks w !! id) as [t|] eqn:Ht; [|done]. destruct (t_phase t); try done. injection Hstep as <-. by apply end_settled.
    + injection Hstep as <-. split; [done| |apply IH|apply IH|].
      * unfold resize. simpl. repeat case_match; apply IH.
      * intros id t Ht. destruct (st_phase _ IH _ _ Ht) as [Hnb Hp]. split; [done|].
        pose proof (st_bounded _ IH) as Hb. unfold bounded, listening, stuck, vacant, occupied, closed in *. unfold resize in *. simpl in *.
        repeat case_match; simpl in *; tauto || (destruct Hp as [? [? ?]]; split_and!; try done; lia).
  - by eapply drop_settled.
Qed.

(** In any interleaving in which ends are dropped in one step and the buffer is not enlarged,
    no wake-up is lost: a reader that waits finds the buffer empty and the write end open, and a
    writer that waits finds the buffer full and the read end open. *)
Theorem waiting_task_has_to_wait w id t :
  calm w -> tasks w !! id = Some t -> t_phase t = Waiting ->
  closed (shared w) = false /\
  match t_call t with
  | Reading _ => buffer (shared w) = []
  | Writing _ _ _ => occupied (shared w) = capacity (shared w)
  end.
Proof.
  intros Hs%calm_settled Ht Hph. destruct (st_phase _ Hs _ _ Ht) as [_ Hp]. rewrite Hph in Hp.
  destruct Hp as [_ [Hcl Hst]]. split; [done|]. destruct (t_call t); [done|]. unfold vacant in Hst. lia.
Qed.

(** ** Lost wake-ups *)

Definition read_end : Pipe := mk_pipe true false.
Definition write_end : Pipe := mk_pipe false false.

(** The steps of [poll_io] until a task waits. *)
Definition until_waiting (id : Z) : list event := [EPoll id; ERegister id; ERetry id].

(** A reader waits; the write end is dropped, and between the two steps of that the reader, woken,
    looks again. *)
Definition close_race : list event :=
  [EStart 1 read_end (Reading 4)] ++ until_waiting 1 ++ [EDropWake false] ++ until_waiting 1 ++ [EDropCount false].

Definition waiting_reader : task := mk_task read_end (Reading 4) Waiting.

(** Only readers, all at the end of the file, and one of them waits. *)
Definition hung (w : world) : Prop :=
  ends w = {[true]} /\ tasks w !! 1 = Some waiting_reader /\ closed (shared w) = true /\ buffer (shared w) = [] /\
  forall id t, tasks w !! id = Some t -> exists room, t_call t = Reading room.

Lemma hung_attempt w id t :
  hung w -> tasks w !! id = Some t -> attempt_call id t w = (Some (Read_ []), t_call t, w).
Proof.
  intros (_ & _ & Hc & Hb & Hr) Ht. destruct (Hr _ _ Ht) as [room Hroom]. unfold attempt_call, try_read, occupied.
  rewrite Hroom, Hb, Hc. replace (Z.to_nat (Z.min room (Z.of_nat (length [])))) with 0%nat by (simpl; lia). done.
Qed.

Lemma hung_end w id o : hung w -> id <> 1 -> hung (end_call id o w).
Proof.
  intros (He & H1 & Hc & Hb & Hr) Hne. split_and!; [exact He| |exact Hc|exact Hb|]; simpl; [by rewrite lookup_delete_ne|].
  intros j t [_ Hj]%lookup_delete_Some. by eapply Hr.
Qed.

Lemma hung_step e w w' : hung w -> pipe_step e w = Some w' -> hung w'.
Proof.
  intros Hh Hstep. pose proof Hh as (He & H1 & Hc & Hb & Hr).
  assert (Hnot1 : forall id t, tasks w !! id = Some t -> t_phase t <> Waiting -> id <> 1) by (intros id t Ht Hp ->; rewrite H1 in Ht; by injection Ht as <-).
  destruct e as [id p c|id|id|id|id|side|side|n]; simpl in Hstep.
  - destruct (bool_decide_reflect (tasks w !! id = None)) as [Hn|]; [|done]. simpl in Hstep.
    destruct (bool_decide_reflect (read_side p ∈ ends w)) as [Hin|]; [|done]. injection Hstep as <-.
    rewrite He in Hin. apply elem_of_singleton in Hin. unfold start. rewrite Hin. simpl. destruct c as [room|]; [|done].
    case_match; [done|]. split_and!; [exact He| |exact Hc|exact Hb|]; simpl; [rewrite lookup_insert_ne; [done|congruence]|].
    intros j t. rewrite lookup_insert. case_decide; [intros [= <-]; by eexists|apply Hr].
  - destruct (tasks w !! id) as [t|] eqn:Ht; [|done]. destruct (t_phase t) eqn:Hp; try done. injection Hstep as <-.
    unfold poll_task. rewrite (hung_attempt w id t) by done. apply hung_end; [done|]. eapply Hnot1; [done|]. by rewrite Hp.
  - destruct (tasks w !! id) as [t|] eqn:Ht; [|done]. destruct (t_phase t) eqn:Hp; try done. injection Hstep as <-.
    assert (id <> 1) by (eapply Hnot1; [done|by rewrite Hp]). split_and!; [exact He| |exact Hc|exact Hb|]; simpl; [by rewrite lookup_insert_ne|].
    intros j t'. rewrite lookup_insert. case_decide; [intros [= <-]; exact (Hr id t Ht)|apply Hr].
  - destruct (tasks w !! id) as [t|] eqn:Ht; [|done]. destruct (t_phase t) eqn:Hp; try done. injection Hstep as <-.
    unfold retry_task. rewrite (hung_attempt w id t) by done. apply hung_end; [done|]. eapply Hnot1; [done|]. by rewrite Hp.
  - destruct (tasks w !! id) as [t|] eqn:Ht; [|done]. destruct (t_phase t) eqn:Hp; try done. injection Hstep as <-.
    apply hung_end; [done|]. eapply Hnot1; [done|]. by rewrite Hp.
  - unfold can_drop in Hstep. destruct (bool_decide_reflect (side ∈ ends w)) as [Hin|]; [|done].
    destruct (bool_decide_reflect (map_Forall (fun _ t => read_side (t_pipe t) <> side) (tasks w))) as [Hall|]; [|done].
    rewrite He in Hin. apply elem_of_singleton in Hin. subst side. by destruct (Hall _ _ H1).
  - unfold can_drop in Hstep. destruct (bool_decide_reflect (side ∈ ends w)) as [Hin|]; [|done].
    destruct (bool_decide_reflect (map_Forall (fun _ t => read_side (t_pipe t) <> side) (tasks w))) as [Hall|]; [|done].
    rewrite He in Hin. apply elem_of_singleton in Hin. subst side. by destruct (Hall _ _ H1).
  - injection Hstep as <-. unfold resize. repeat case_match; by split_and!.
Qed.

(** A reader can wait for ever at the end of the file.  The end that is dropped wakes the
    waiting tasks before it gives up its reference; a reader that looks in between still counts two
    references and waits again.  Then the pipe is closed, and no step of any task wakes the
    reader. *)
Theorem reader_can_wait_forever_at_eof :
  exists w, pipe_run close_race new_world = Some w /\ closed (shared w) = true /\ buffer (shared w) = [] /\
    forall es w', pipe_run es w = Some w' -> tasks w' !! 1 = Some waiting_reader.
Proof.
  destruct (pipe_run close_race new_world) as [w|] eqn:Hrun; [|by vm_compute in Hrun]. exists w.
  assert (Hh : hung w).
  { vm_compute in Hrun. injection Hrun as <-. split_and!; [by vm_compute..|]. intros id t Ht.
    destruct (decide (id = 1)) as [->|Hne].
    - vm_compute in Ht. injection Ht as <-. by eexists.
    - exfalso. change (({[1 := waiting_reader]} : gmap Z task) !! id = Some t) in Ht.
      by rewrite lookup_singleton_ne in Ht. }
  split_and!; [done|apply Hh..|]. intros es. clear Hrun. revert w Hh. induction es as [|e es IH]; intros w Hh w' Hes; simpl in Hes.
  - injection Hes as <-. apply Hh.
  - destruct (pipe_step e w) as [w1|] eqn:Hstep; [|done]. simpl in Hes. apply (IH w1); [by eapply hung_step|done].
Qed.

(** Enlarging a pipe does not wake a writer that waits for room.  With a capacity of 4 KiB a
    writer of one byte more waits; after the capacity has become 8 KiB it still waits, though there
    is room for 4 KiB. *)
Theorem enlarging_does_not_wake_writer :
  let fill := [EResize 4096; EStart 1 write_end (Writing (replicate 4097 7) 0 0)] ++ until_waiting 1 in
  match pipe_run (fill ++ [EResize 8192]) new_world with
  | Some w => t_phase <$> tasks w !! 1 = Some Waiting /\ closed (shared w) = false /\
              occupied (shared w) = 4096 /\ vacant (shared w) = 4096
  | None => False
  end.
Proof. vm_compute. split_and!; reflexivity. Qed.

(** ** Witnesses *)

Definition handover : list event :=
  [EStart 1 write_end (Writing [1; 2; 3] 0 0); EPoll 1; EStart 2 read_end (Reading 2); EPoll 2].

Lemma pipe_is_fifo_witness :
  exists w, pipe_run handover new_world = Some w /\ flows handover new_world = ([1; 2; 3], [1; 2]) /\
    [1; 2] ++ buffer (shared w) = [1; 2; 3].
Proof.
  destruct (pipe_run handover new_world) as [w|] eqn:Hrun; [|by vm_compute in Hrun]. exists w.
  split_and!; [done|by vm_compute|]. exact (proj1 (pipe_is_fifo handover w Hrun)).
Defined.

Lemma calm_run es w w' :
  Forall (fun e => forall v, calm_event e v) es -> calm w -> pipe_run es w = Some w' -> calm w'.
Proof.
  revert w. induction es as [|e es IH]; intros w Hes Hw Hrun; simpl in Hrun; [by injection Hrun as <-|].
  apply Forall_cons in Hes as [He Hes]. destruct (pipe_step e w) as [w1|] eqn:Hstep; [|done]. simpl in Hrun.
  apply (IH w1); [done| |done]. by apply (calm_step w e).
Qed.

Lemma waiting_task_has_to_wait_witness :
  exists w, calm w /\ tasks w !! 1 = Some waiting_reader /\ buffer (shared w) = [].
Proof.
  destruct (pipe_run ([EStart 1 read_end (Reading 4)] ++ until_waiting 1) new_world) as [w|] eqn:Hrun; [|by vm_compute in Hrun].
  assert (Hcalm : calm w).
  { eapply calm_run; [|apply calm_new|exact Hrun]. by repeat constructor. }
  exists w. assert (Ht : tasks w !! 1 = Some waiting_reader) by (vm_compute in Hrun; injection Hrun as <-; by vm_compute).
  split_and!; [done|done|]. exact (proj2 (waiting_task_has_to_wait w 1 waiting_reader Hcalm Ht eq_refl)).
Defined.
