(* ===== verification/Futex.v ===== *)
(** * Futexes

    [kernel/src/task/futex.rs], [sys_futex] of [kernel/src/syscall/sync/futex.rs] and
    [handle_futex_death] of [kernel/src/task/ops.rs]: a table of wait queues that are made when a
    futex is first used and collected when the last guard of one that nobody waits on goes.

    The calls of threads are taken apart at their locks and atomic accesses; the steps of threads,
    stores of user programs, timers and interrupts interleave at will.  [block_on],
    [interruptible] and [timeout] ([axtask/src/future]) poll the future of [wait_if] when the
    thread is woken: interrupts are looked at first, then the future, which is ready whenever it is
    polled a second time, and the timer last.

    The model is about one table, that of a process or of a shared region, with [words] mapping the
    keys of the table to the values of the words they stand for. *)

From S2P Require Import Prelude Io PageCache.

(** ** Wait queues *)

(** [WaitQueue]: wakers, by thread, with their bit sets. *)
Notation WaitQueue := (list (Z * Z)).

(** [WaitQueue::wake]: the threads woken, and the queue that is left. *)
Fixpoint wake (count mask : Z) (woke : Z) (q : WaitQueue) : list Z * WaitQueue :=
  match q with
  | [] => ([], [])
  | (tid, bitset) :: q =>
      if (count <=? woke) || (Z.land bitset mask =? 0) then
        let '(ids, rest) := wake count mask woke q in (ids, (tid, bitset) :: rest)
      else
        let '(ids, rest) := wake count mask (woke + 1) q in (tid :: ids, rest)
  end.

(** The first part of [WaitQueue::requeue]: what is taken from the queue. *)
Definition drain (count : Z) (q : WaitQueue) : WaitQueue * WaitQueue :=
  let count := Z.to_nat (Z.min count (Z.of_nat (length q))) in (take count q, drop count q).

(** ** Keys *)

(** The back ends of memory areas, with the identity of the shared pages or of the futex handle. *)
Inductive AreaBackend : Type := SharedPages (region : Z) | FileMapping (handle : Z) | OtherBackend.

(** [FutexKey]. *)
Inductive FutexKey : Type := Private (address : Z) | Shared (offset : Z) (region : Z + Z).

(** [FutexKey::new]; [find_area] is that of the address space, with the start of the area. *)
Definition key_new (find_area : Z -> option (Z * AreaBackend)) (address : Z) : FutexKey :=
  match find_area address with
  | Some (start, SharedPages region) => Shared (address - start) (inl region)
  | Some (start, FileMapping handle) => Shared (address - start) (inr handle)
  | _ => Private address
  end.

Definition key_as_usize (key : FutexKey) : Z :=
  match key with Private address => address | Shared offset _ => offset end.

(** ** State *)

Record FutexEntry : Type := mk_entry { wq : WaitQueue; owner_dead : bool }.

Definition entry_new : FutexEntry := mk_entry [] false.

(** The operations of [sys_futex], and the death of the owner of a robust futex. *)
Inductive call : Type :=
| FutexWait (key value bitset : Z) (timed : bool)
| FutexWake (key value bitset : Z)
| FutexRequeue (key value value2 key2 : Z) (value3 : option Z)
| FutexDeath (key : Z).

Inductive futex_error : Type := EWouldBlock | EInterrupted | ETimedOut | EOwnerDead | EInvalid | EFault.

Inductive outcome : Type := Count (n : Z) | Error (e : futex_error).

(** Where a call is: before its checks; before it gets its guards; before the first poll; suspended
    (woken or not); before the [swap] of [owner_dead]; before that is set; before the wake-up; before
    the two parts of a requeue; dropping its guards; before a removal from the table. *)
Inductive pc : Type :=
| Start | Fetch | Fetch2 | FirstPoll | Parked (woken : bool) | Finish | Mark | Act
| Drain (woken : Z) | Extend (woken : Z) (moved : WaitQueue)
| Dropping (o : outcome) | Removing (o : outcome).

(** A thread in a call; [t_guards] are its [FutexGuard]s, in the order they are dropped. *)
Record thread : Type := mk_thread {
  t_call : call;
  t_guards : list (Z * Z);
  t_pc : pc;
  t_interrupt : bool;
}.

(** [FutexTable] with the entries it has made, the user's words, and the threads. *)
Record state : Type := mk_state {
  words : gmap Z Z;
  table : gmap Z Z;
  entries : gmap Z FutexEntry;
  next : Z;
  threads : gmap Z thread;
  ended : gmap Z outcome;
}.

Definition set_words (m : gmap Z Z) (s : state) : state :=
  mk_state m (table s) (entries s) (next s) (threads s) (ended s).
Definition set_table (m : gmap Z Z) (s : state) : state :=
  mk_state (words s) m (entries s) (next s) (threads s) (ended s).
Definition set_entries (m : gmap Z FutexEntry) (s : state) : state :=
  mk_state (words s) (table s) m (next s) (threads s) (ended s).
Definition set_threads (m : gmap Z thread) (s : state) : state :=
  mk_state (words s) (table s) (entries s) (next s) m (ended s).

Definition put (tid : Z) (t : thread) (s : state) : state := set_threads (<[tid := t]> (threads s)) s.
Definition at_pc (p : pc) (t : thread) : thread := mk_thread (t_call t) (t_guards t) p (t_interrupt t).
Definition set_guards (gs : list (Z * Z)) (t : thread) : thread := mk_thread (t_call t) gs (t_pc t) (t_interrupt t).

Definition queue (e : Z) (s : state) : WaitQueue := wq (default entry_new (entries s !! e)).
Definition set_queue (e : Z) (q : WaitQueue) (s : state) : state :=
  set_entries (alter (fun ent => mk_entry q (owner_dead ent)) e (entries s)) s.
Definition set_dead (e : Z) (b : bool) (s : state) : state :=
  set_entries (alter (fun ent => mk_entry (wq ent) b) e (entries s)) s.

(** Wakers of threads that are not suspended do nothing. *)
Definition wake_threads (ids : list Z) (s : state) : state :=
  set_threads (map_imap (fun id t =>
    Some match t_pc t with
         | Parked _ => if bool_decide (id ∈ ids) then at_pc (Parked true) t else t
         | _ => t
         end) (threads s)) s.

(** ** The table *)

(** [FutexTable::get_or_insert], as the entry; [get] is the look-up. *)
Definition get_or_insert (key : Z) (s : state) : Z * state :=
  match table s !! key with
  | Some e => (e, s)
  | None =>
      let e := next s in
      (e, mk_state (words s) (<[key := e]> (table s)) (<[e := entry_new]> (entries s)) (e + 1) (threads s) (ended s))
  end.

Definition all_guards (m : gmap Z thread) : list (Z * Z) := concat ((fun p => t_guards p.2) <$> map_to_list m).

(** [Arc::strong_count] of an entry: the table's reference and those of guards. *)
Definition strong_count (e : Z) (s : state) : Z :=
  Z.of_nat (length (filter (fun p => p.2 = e) (map_to_list (table s)))) +
  Z.of_nat (length (filter (fun g => g.2 = e) (all_guards (threads s)))).

(** [Drop for FutexGuard], up to the removal from the table; the two tests are taken together. *)
Definition unused (e : Z) (s : state) : bool := (strong_count e s <=? 2) && bool_decide (queue e s = []).

(** ** Steps *)

Definition assert_unsigned (value : Z) : bool := value <? 2 ^ 31.

Definition end_call (tid : Z) (o : outcome) (s : state) : state :=
  mk_state (words s) (table s) (entries s) (next s) (delete tid (threads s)) (<[tid := o]> (ended s)).

(** The checks before anything is fetched: the fast path of a wait, and those of a requeue. *)
Definition step_start (tid : Z) (t : thread) (s : state) : state :=
  match t_call t with
  | FutexWait key value _ _ =>
      match words s !! key with
      | None => end_call tid (Error EFault) s
      | Some v => if v =? value then put tid (at_pc Fetch t) s else end_call tid (Error EWouldBlock) s
      end
  | FutexRequeue key value value2 _ value3 =>
      if negb (assert_unsigned value) then end_call tid (Error EInvalid) s
      else
        match value3, words s !! key with
        | Some v3, None => end_call tid (Error EFault) s
        | Some v3, Some v =>
            if negb (v =? v3) then end_call tid (Error EWouldBlock) s
            else if negb (assert_unsigned value2) then end_call tid (Error EInvalid) s
            else put tid (at_pc Fetch t) s
        | None, _ =>
            if negb (assert_unsigned value2) then end_call tid (Error EInvalid) s else put tid (at_pc Fetch t) s
        end
  | FutexWake _ _ _ | FutexDeath _ => put tid (at_pc Fetch t) s
  end.

(** The guard of the futex: a wait makes the entry, the others only look it up. *)
Definition step_fetch (tid : Z) (t : thread) (s : state) : state :=
  match t_call t with
  | FutexWait key _ _ _ =>
      let '(e, s') := get_or_insert key s in put tid (at_pc FirstPoll (set_guards [(key, e)] t)) s'
  | FutexWake key _ _ =>
      match table s !! key with
      | Some e => put tid (at_pc Act (set_guards [(key, e)] t)) s
      | None => end_call tid (Count 0) s
      end
  | FutexRequeue key _ _ _ _ =>
      match table s !! key with
      | Some e => put tid (at_pc Fetch2 (set_guards [(key, e)] t)) s
      | None => put tid (at_pc Fetch2 t) s
      end
  | FutexDeath key =>
      match table s !! key with
      | Some e => put tid (at_pc Mark (set_guards [(key, e)] t)) s
      | None => end_call tid (Count 0) s
      end
  end.

(** The second guard of a requeue. *)
Definition step_fetch2 (tid : Z) (t : thread) (s : state) : state :=
  match t_call t with
  | FutexRequeue _ _ _ key2 _ =>
      let '(e, s') := get_or_insert key2 s in put tid (at_pc Act (set_guards (t_guards t ++ [(key2, e)]) t)) s'
  | _ => s
  end.

(** The first poll of a wait: under the lock of the queue, the word is compared and the thread
    queued; then the timer is polled, which may have [expired]. *)
Definition step_first_poll (tid : Z) (t : thread) (expired : bool) (s : state) : state :=
  match t_call t, t_guards t with
  | FutexWait key value bitset timed, (_, e) :: _ =>
      if t_interrupt t then put tid (at_pc (Dropping (Error EInterrupted)) t) s
      else if bool_decide (words s !! key = Some value) then
        let s' := set_queue e (queue e s ++ [(tid, bitset)]) s in
        put tid (at_pc (if timed && expired then Dropping (Error ETimedOut) else Parked false) t) s'
      else put tid (at_pc (Dropping (Error EWouldBlock)) t) s
  | _, _ => s
  end.

(** The second poll, and the end of a wait. *)
Definition step_second_poll (tid : Z) (t : thread) (s : state) : state :=
  if t_interrupt t then put tid (at_pc (Dropping (Error EInterrupted)) t) s else put tid (at_pc Finish t) s.

Definition step_finish (tid : Z) (t : thread) (s : state) : state :=
  match t_guards t with
  | (_, e) :: _ =>
      let dead := owner_dead (default entry_new (entries s !! e)) in
      put tid (at_pc (Dropping (if dead then Error EOwnerDead else Count 0)) t) (set_dead e false s)
  | [] => s
  end.

(** Waking up threads of an entry; the number of threads woken. *)
Definition wake_entry (e count mask : Z) (s : state) : Z * state :=
  let '(ids, rest) := wake count mask 0 (queue e s) in
  (Z.of_nat (length ids), wake_threads ids (set_queue e rest s)).

Definition step_act (tid : Z) (t : thread) (s : state) : state :=
  match t_call t, t_guards t with
  | FutexWake _ value bitset, (_, e) :: _ =>
      let '(n, s') := wake_entry e value bitset s in put tid (at_pc (Dropping (Count n)) t) s'
  | FutexDeath _, (_, e) :: _ =>
      let '(_, s') := wake_entry e 1 u32_max s in put tid (at_pc (Dropping (Count 0)) t) s'
  | FutexRequeue _ value _ _ _, (_, e) :: _ :: _ =>
      let '(n, s') := wake_entry e value u32_max s in
      put tid (at_pc (if n =? value then Drain n else Dropping (Count n)) t) s'
  | FutexRequeue _ _ _ _ _, _ => put tid (at_pc (Dropping (Count 0)) t) s
  | _, _ => s
  end.

(** [WaitQueue::requeue]: the lock of one queue is released before that of the other is taken. *)
Definition step_drain (tid : Z) (t : thread) (n : Z) (s : state) : state :=
  match t_call t, t_guards t with
  | FutexRequeue _ _ value2 _ _, (_, e) :: _ :: _ =>
      let '(moved, rest) := drain value2 (queue e s) in
      put tid (at_pc (match moved with [] => Dropping (Count n) | _ => Extend n moved end) t) (set_queue e rest s)
  | _, _ => s
  end.

Definition step_extend (tid : Z) (t : thread) (n : Z) (moved : WaitQueue) (s : state) : state :=
  match t_guards t with
  | _ :: (_, e2) :: _ =>
      put tid (at_pc (Dropping (Count (n + Z.of_nat (length moved)))) t) (set_queue e2 (queue e2 s ++ moved) s)
  | _ => s
  end.

(** Dropping the next guard, or the end of the call. *)
Definition step_dropping (tid : Z) (t : thread) (o : outcome) (s : state) : state :=
  match t_guards t with
  | [] => end_call tid o s
  | (_, e) :: gs => if unused e s then put tid (at_pc (Removing o) t) s else put tid (set_guards gs t) s
  end.

Definition step_removing (tid : Z) (t : thread) (o : outcome) (s : state) : state :=
  match t_guards t with
  | [] => s
  | (key, _) :: gs => put tid (at_pc (Dropping o) (set_guards gs t)) (set_table (delete key (table s)) s)
  end.

Definition step_thread (tid : Z) (t : thread) (expired : bool) (s : state) : option state :=
  match t_pc t with
  | Start => Some (step_start tid t s)
  | Fetch => Some (step_fetch tid t s)
  | Fetch2 => Some (step_fetch2 tid t s)
  | FirstPoll => Some (step_first_poll tid t expired s)
  | Parked true => Some (step_second_poll tid t s)
  | Parked false => None
  | Finish => Some (step_finish tid t s)
  | Mark => match t_guards t with
            | (_, e) :: _ => Some (put tid (at_pc Act t) (set_dead e true s))
            | [] => None
            end
  | Act => Some (step_act tid t s)
  | Drain n => Some (step_drain tid t n s)
  | Extend n moved => Some (step_extend tid t n moved s)
  | Dropping o => Some (step_dropping tid t o s)
  | Removing o => Some (step_removing tid t o s)
  end.

Inductive event : Type :=
| ECall (tid : Z) (c : call)
| EStep (tid : Z) (expired : bool)
| ETimer (tid : Z)
| EInterrupt (tid : Z)
| EStore (key v : Z).

Definition timed_call (c : call) : bool := match c with FutexWait _ _ _ timed => timed | _ => false end.

Definition futex_step (e : event) (s : state) : option state :=
  match e with
  | ECall tid c => if bool_decide (threads s !! tid = None) then Some (put tid (mk_thread c [] Start false) s) else None
  | EStep tid expired => t ← threads s !! tid; step_thread tid t expired s
  | ETimer tid =>
      t ← threads s !! tid;
      match t_pc t with
      | Parked _ => if timed_call (t_call t) then Some (put tid (at_pc (Parked true) t) s) else None
      | _ => None
      end
  | EInterrupt tid =>
      t ← threads s !! tid;
      let t := mk_thread (t_call t) (t_guards t) (t_pc t) true in
      Some (put tid (match t_pc t with Parked _ => at_pc (Parked true) t | _ => t end) s)
  | EStore key v => Some (set_words (<[key := v]> (words s)) s)
  end.

Fixpoint futex_run (es : list event) (s : state) : option state :=
  match es with
  | [] => Some s
  | e :: es => s' ← futex_step e s; futex_run es s'
  end.

(** [FutexTable::new], with some words. *)
Definition new_state (m : gmap Z Z) : state := mk_state m ∅ ∅ 0 ∅ ∅.
