(* ===== verification/FutexSpec.v ===== *)
(** * Futexes: correctness

    The table of entries is invisible: when guards are dropped in one step, the queues behave as
    if they belonged to the words themselves, and a thread that waits can be reached
    ([futexes_are_queues_of_words]).  When they are not, and when waits end other than by a
    wake-up, wake-ups are lost. *)

From S2P Require Import Prelude Io PageCache Futex.

(** ** Waking up *)

Definition asks (mask : Z) (x : Z * Z) : Prop := Z.land x.2 mask <> 0.
#[export] Instance asks_dec mask x : Decision (asks mask x) := _.

Lemma wake_woken count mask woke q :
  0 <= woke -> (wake count mask woke q).1 = (take (Z.to_nat (count - woke)) (filter (asks mask) q)).*1.
Proof.
  revert woke. induction q as [|[tid b] q IH]; intros woke Hw; [by rewrite filter_nil, take_nil|]; simpl.
  rewrite filter_cons. unfold asks at 1. simpl.
  destruct (Z.leb_spec count woke) as [Hle|Hlt]; simpl.
  - destruct (wake count mask woke q) as [ids rest] eqn:Hq. simpl. specialize (IH woke Hw). rewrite Hq in IH. simpl in IH.
    rewrite IH. replace (Z.to_nat (count - woke)) with 0%nat by lia. by rewrite !take_0.
  - destruct (Z.eqb_spec (Z.land b mask) 0) as [Hz|Hz]; simpl.
    + destruct (wake count mask woke q) as [ids rest] eqn:Hq. simpl. specialize (IH woke Hw). rewrite Hq in IH.
      by rewrite decide_False by (intros []; done).
    + destruct (wake count mask (woke + 1) q) as [ids rest] eqn:Hq. simpl. specialize (IH (woke + 1) ltac:(lia)). rewrite Hq in IH.
      rewrite decide_True by done. replace (Z.to_nat (count - woke)) with (S (Z.to_nat (count - (woke + 1)))) by lia.
      simpl in *. by rewrite IH.
Qed.

Lemma wake_left count mask woke q :
  0 <= woke ->
  filter (asks mask) (wake count mask woke q).2 = drop (Z.to_nat (count - woke)) (filter (asks mask) q) /\
  filter (fun x => ~ asks mask x) (wake count mask woke q).2 = filter (fun x => ~ asks mask x) q /\
  sublist (wake count mask woke q).2 q.
Proof.
  revert woke. induction q as [|[tid b] q IH]; intros woke Hw; [rewrite filter_nil, drop_nil; by split_and!; [..|constructor]|].
  simpl. destruct (Z.leb_spec count woke) as [Hle|Hlt]; simpl.
  - destruct (IH woke Hw) as (H1 & H2 & H3). destruct (wake count mask woke q) as [ids rest]. simpl in *.
    replace (Z.to_nat (count - woke)) with 0%nat in * by lia. rewrite drop_0 in *.
    rewrite !filter_cons, H1, H2. split_and!; [done|done|by constructor].
  - destruct (Z.eqb_spec (Z.land b mask) 0) as [Hz|Hz]; simpl.
    + destruct (IH woke Hw) as (H1 & H2 & H3). destruct (wake count mask woke q) as [ids rest]. simpl in *.
      assert (~ asks mask (tid, b)) by (intros []; done).
      rewrite !filter_cons. rewrite !(decide_False (P := asks mask (tid, b))) by done. rewrite !(decide_True (P := ~ asks mask (tid, b))) by done.
      rewrite H1, H2. split_and!; [done|done|by constructor].
    + destruct (IH (woke + 1) ltac:(lia)) as (H1 & H2 & H3). destruct (wake count mask (woke + 1) q) as [ids rest]. simpl in *.
      assert (asks mask (tid, b)) by done.
      rewrite !filter_cons, decide_True by done. rewrite decide_False by (intros Hn; by apply Hn).
      replace (Z.to_nat (count - woke)) with (S (Z.to_nat (count - (woke + 1)))) by lia.
      simpl. split_and!; [done|done|by constructor].
Qed.

Lemma wake_kept count mask woke q x :
  x ∈ q -> x.1 ∈ (wake count mask woke q).1 \/ x ∈ (wake count mask woke q).2.
Proof.
  revert woke. induction q as [|[tid b] q IH]; intros woke; [by intros ?%not_elem_of_nil|].
  simpl. intros [->|Hx]%elem_of_cons.
  - destruct (_ || _); [destruct (wake count mask woke q)|destruct (wake count mask (woke + 1) q)]; simpl; rewrite elem_of_cons; tauto.
  - destruct (_ || _).
    + destruct (IH woke Hx); destruct (wake count mask woke q); simpl in *; rewrite ?elem_of_cons; tauto.
    + destruct (IH (woke + 1) Hx); destruct (wake count mask (woke + 1) q); simpl in *; rewrite ?elem_of_cons; tauto.
Qed.

(** ** Queues of words *)

(** The queue of the word that a key stands for. *)
Definition aqueue (k : Z) (s : state) : WaitQueue :=
  match table s !! k with Some e => queue e s | None => [] end.

Definition upd (Q : Z -> WaitQueue) (k : Z) (q : WaitQueue) (k' : Z) : WaitQueue := if decide (k' = k) then q else Q k'.

(** What a step of a thread does to the queues: a wait appends if the word has the value given, the
    other calls take from the queue of their word, a requeue appends to the queue of the second.  A
    requeue that found no futex at the first word leaves it alone. *)
Definition a_thread (tid : Z) (t : thread) (s : state) (Q : Z -> WaitQueue) : Z -> WaitQueue :=
  match t_pc t, t_call t with
  | FirstPoll, FutexWait key value bitset _ =>
      if negb (t_interrupt t) && bool_decide (words s !! key = Some value) then upd Q key (Q key ++ [(tid, bitset)]) else Q
  | Act, FutexWake key value bitset => upd Q key (wake value bitset 0 (Q key)).2
  | Act, FutexDeath key => upd Q key (wake 1 u32_max 0 (Q key)).2
  | Act, FutexRequeue key value _ _ _ =>
      if (2 <=? length (t_guards t))%nat then upd Q key (wake value u32_max 0 (Q key)).2 else Q
  | Drain _, FutexRequeue key _ value2 _ _ => upd Q key (drain value2 (Q key)).2
  | Extend _ moved, FutexRequeue _ _ _ key2 _ => upd Q key2 (Q key2 ++ moved)
  | _, _ => Q
  end.

Definition a_step (e : event) (s : state) (Q : Z -> WaitQueue) : Z -> WaitQueue :=
  match e with
  | EStep tid _ => match threads s !! tid with Some t => a_thread tid t s Q | None => Q end
  | _ => Q
  end.

(** A waker is in a queue, or on its way from one to another. *)
Definition queued (x : Z * Z) (s : state) : Prop :=
  (exists k, x ∈ aqueue k s) \/
  exists id u n moved, threads s !! id = Some u /\ t_pc u = Extend n moved /\ x ∈ moved.

(** ** The invariant *)

Definition shape (t : thread) : Prop :=
  match t_pc t, t_call t with
  | Start, _ | Fetch, _ => t_guards t = []
  | Fetch2, FutexRequeue k _ _ _ _ => t_guards t = [] \/ exists e, t_guards t = [(k, e)]
  | FirstPoll, FutexWait k _ _ _ | Parked _, FutexWait k _ _ _ | Finish, FutexWait k _ _ _
  | Mark, FutexDeath k | Act, FutexDeath k | Act, FutexWake k _ _ => exists e, t_guards t = [(k, e)]
  | Act, FutexRequeue k _ _ k2 _ => (exists e2, t_guards t = [(k2, e2)]) \/ exists e e2, t_guards t = [(k, e); (k2, e2)]
  | Drain _, FutexRequeue k _ _ k2 _ | Extend _ _, FutexRequeue k _ _ k2 _ => exists e e2, t_guards t = [(k, e); (k2, e2)]
  | Dropping _, _ => True
  | _, _ => False
  end.

Definition guarded (t : thread) (s : state) : Prop := Forall (fun g => table s !! g.1 = Some g.2) (t_guards t).

Definition waiter (tid : Z) (t : thread) (s : state) : Prop :=
  match t_pc t, t_call t with Parked false, FutexWait _ _ bitset _ => queued (tid, bitset) s | _, _ => True end.

Record base (s : state) : Prop := {
  b_table : forall k e, table s !! k = Some e -> is_Some (entries s !! e);
  b_inj : forall k k' e, table s !! k = Some e -> table s !! k' = Some e -> k = k';
  b_queue : forall e, queue e s <> [] -> exists k, table s !! k = Some e;
  b_next : forall e, is_Some (entries s !! e) -> e < next s;
}.

Record sound (s : state) : Prop := {
  s_base : base s;
  s_guarded : map_Forall (fun _ t => guarded t s) (threads s);
  s_shape : map_Forall (fun _ t => shape t) (threads s);
  s_waiter : map_Forall (fun tid t => waiter tid t s) (threads s);
}.

(** ** Preservation *)

(** The threads of [s1] are those of [s] with [ids] woken. *)
Definition woke (ids : list Z) (id : Z) (t : thread) : thread :=
  match t_pc t with Parked _ => if bool_decide (id ∈ ids) then at_pc (Parked true) t else t | _ => t end.

Lemma lookup_wake_threads ids s id : threads (wake_threads ids s) !! id = woke ids id <$> threads s !! id.
Proof. unfold wake_threads. simpl. rewrite map_lookup_imap. by destruct (threads s !! id). Qed.

Lemma woke_nil id t : woke [] id t = t.
Proof. unfold woke. by destruct (t_pc t). Qed.

Lemma woke_call ids id t : t_call (woke ids id t) = t_call t /\ t_guards (woke ids id t) = t_guards t.
Proof. unfold woke. destruct (t_pc t); try done. by case_bool_decide. Qed.

Lemma woke_pc ids id t p : (forall b, p <> Parked b) -> t_pc (woke ids id t) = p <-> t_pc t = p.
Proof. intros Hp. unfold woke. destruct (t_pc t) as [| | | |b| | | | | | |] eqn:Ht; rewrite ?Ht; try done. case_bool_decide; simpl; rewrite ?Ht; split; intros <-; by edestruct Hp. Qed.

Lemma woke_unwoken ids id t : t_pc (woke ids id t) = Parked false -> woke ids id t = t /\ id ∉ ids.
Proof.
  unfold woke. destruct (t_pc t) eqn:Ht; rewrite ?Ht; try done. case_bool_decide; simpl; rewrite ?Ht; by try done.
Qed.

Lemma woke_shape ids id t : shape t -> shape (woke ids id t).
Proof.
  unfold woke. destruct (t_pc t) eqn:Ht; try done. case_bool_decide; [|done]. unfold shape. rewrite Ht. by simpl.
Qed.

(** A thread takes a step: the table only grows, and wakers taken from queues are woken or kept by
    the thread itself. *)
Record moves (ids : list Z) (t t' : thread) (s s1 : state) : Prop := {
  m_base : base s1;
  m_table : forall k e, table s !! k = Some e -> table s1 !! k = Some e;
  m_threads : forall id, threads s1 !! id = woke ids id <$> threads s !! id;
  m_queued : forall k x, x ∈ aqueue k s ->
    (exists k', x ∈ aqueue k' s1) \/ x.1 ∈ ids \/ exists n moved, t_pc t' = Extend n moved /\ x ∈ moved;
  m_moved : forall n moved x, t_pc t = Extend n moved -> x ∈ moved ->
    (exists k, x ∈ aqueue k s1) \/ exists n' moved', t_pc t' = Extend n' moved' /\ x ∈ moved';
}.

Lemma aqueue_put tid t k s : aqueue k (put tid t s) = aqueue k s.
Proof. done. Qed.

Lemma put_sound ids tid t t' s s1 :
  sound s -> threads s !! tid = Some t -> moves ids t t' s s1 ->
  shape t' -> guarded t' s1 -> waiter tid t' (put tid t' s1) ->
  sound (put tid t' s1).
Proof.
  intros [Hb Hg Hsh Hw] Ht [Hb1 Hmono Hth Hq Hm] Hsh' Hg' Hw'.
  assert (Hother : forall id u1, id <> tid -> threads (put tid t' s1) !! id = Some u1 ->
    exists u, threads s !! id = Some u /\ u1 = woke ids id u).
  { intros id u1 Hne Hu. unfold put in Hu. simpl in Hu. rewrite lookup_insert_ne, Hth in Hu by done.
    destruct (threads s !! id) as [u|]; [|done]. injection Hu as <-. by exists u. }
  assert (Hself : forall u1, threads (put tid t' s1) !! tid = Some u1 -> u1 = t').
  { intros u1. unfold put. simpl. rewrite lookup_insert_eq. by intros [= <-]. }
  split; [by destruct Hb1; split|..]; intros id u1 Hu; destruct (decide (id = tid)) as [->|Hne];
    try (apply Hself in Hu as ->; done); destruct (Hother _ _ Hne Hu) as (u & Hid & ->).
  - unfold guarded. rewrite (proj2 (woke_call _ _ _)). eapply Forall_impl; [apply (Hg _ _ Hid)|]. intros g. apply Hmono.
  - apply woke_shape. by apply (Hsh _ _ Hid).
  - unfold waiter. destruct (t_pc (woke ids id u)) as [| | | |[]| | | | | | |] eqn:Hp; try done.
    apply woke_unwoken in Hp as Hp'. destruct Hp' as [Heq Hnot]. rewrite Heq in *. destruct (t_call u) as [k v b tm| | |] eqn:Hc; try done.
    specialize (Hw _ _ Hid). unfold waiter in Hw. simpl in Hw. rewrite Hp, Hc in Hw. destruct Hw as [[k' Hk]|(id' & u' & n & moved & Hid' & Hp' & Hin)].
    + destruct (Hq _ _ Hk) as [[k2 ?]|[?|(n & moved & Hp' & Hin)]]; [left; by exists k2|done|].
      right. exists tid, t', n, moved. split_and!; try done. unfold put. simpl. by rewrite lookup_insert_eq.
    + destruct (decide (id' = tid)) as [->|Hne']; [rewrite Hid' in Ht; injection Ht as ->|].
      { destruct (Hm _ _ _ Hp' Hin) as [?|(n' & moved' & ? & ?)]; [by left|right]. exists tid, t', n', moved'. unfold put. simpl. by rewrite lookup_insert_eq. }
      right. exists id', (woke ids id' u'), n, moved. unfold put. simpl. rewrite lookup_insert_ne, Hth, Hid' by done.
      split_and!; [done|by apply woke_pc|done].
Qed.

Lemma end_sound tid t o s :
  sound s -> threads s !! tid = Some t -> (forall n moved, t_pc t <> Extend n moved) -> sound (end_call tid o s).
Proof.
  intros [Hb Hg Hsh Hw] Ht Hne. split; [by destruct Hb; split|..]; intros id u; simpl; rewrite lookup_delete_Some; intros [Hid Hu].
  - by apply (Hg _ _ Hu).
  - by apply (Hsh _ _ Hu).
  - specialize (Hw _ _ Hu). unfold waiter in *. simpl in Hw. destruct (t_pc u) as [| | | |[]| | | | | | |]; try done. destruct (t_call u); try done.
    destruct Hw as [?|(id' & u' & n & moved & Hid' & Hp' & Hin)]; [by left|right]. exists id', u', n, moved. simpl.
    rewrite lookup_delete_ne by (intros ->; rewrite Ht in Hid'; injection Hid' as ->; by eapply Hne). done.
Qed.

(** ** Parts of steps *)

Lemma queue_set_queue e e' q s :
  is_Some (entries s !! e) -> queue e' (set_queue e q s) = if decide (e' = e) then q else queue e' s.
Proof.
  intros [ent Hent]. unfold queue, set_queue. simpl. case_decide as He.
  - subst e'. by rewrite lookup_alter_eq, Hent.
  - by rewrite lookup_alter_ne.
Qed.

Lemma set_queue_ok k e q s :
  base s -> table s !! k = Some e ->
  base (set_queue e q s) /\ forall k', aqueue k' (set_queue e q s) = upd (fun k => aqueue k s) k q k'.
Proof.
  intros [Ht Hi Hq Hn] Hk. pose proof (Ht _ _ Hk) as He. split.
  - split; simpl.
    + intros k' e' Hk'. apply lookup_alter_is_Some. by eapply Ht.
    + done.
    + intros e'. rewrite queue_set_queue by done. case_decide as Hee; [subst e'; intros _; by exists k|apply Hq].
    + intros e' He'. apply Hn. by apply lookup_alter_is_Some in He'.
  - intros k'. unfold aqueue, upd. change (table (set_queue e q s)) with (table s). case_decide as Hkk.
    + subst k'. rewrite Hk. rewrite queue_set_queue by done. by rewrite decide_True.
    + destruct (table s !! k') as [e'|] eqn:Hk'; [|done]. rewrite queue_set_queue by done.
      rewrite decide_False; [done|]. intros ->. by destruct (Hkk (Hi _ _ _ Hk' Hk)).
Qed.

Lemma set_dead_ok e b s : base s -> base (set_dead e b s) /\ forall k, aqueue k (set_dead e b s) = aqueue k s.
Proof.
  intros [Ht Hi Hq Hn]. assert (Hsame : forall e', queue e' (set_dead e b s) = queue e' s).
  { intros e'. unfold queue, set_dead. simpl. destruct (decide (e' = e)) as [->|Hne]; [|by rewrite lookup_alter_ne].
    rewrite lookup_alter_eq. by destruct (entries s !! e). }
  split; [split; simpl|].
  - intros k e' Hk. apply lookup_alter_is_Some. by eapply Ht.
  - done.
  - intros e'. rewrite Hsame. apply Hq.
  - intros e' He'. apply Hn. by apply lookup_alter_is_Some in He'.
  - intros k. unfold aqueue. change (table (set_dead e b s)) with (table s). destruct (table s !! k); [apply Hsame|done].
Qed.

Lemma get_or_insert_ok k s e s' :
  base s -> get_or_insert k s = (e, s') ->
  base s' /\ table s' !! k = Some e /\ (forall k' e', table s !! k' = Some e' -> table s' !! k' = Some e') /\
  (forall k', aqueue k' s' = aqueue k' s) /\ threads s' = threads s.
Proof.
  intros Hb. pose proof Hb as [Ht Hi Hq Hn]. unfold get_or_insert. destruct (table s !! k) as [e0|] eqn:Hk.
  { by intros [= <- <-]. }
  intros [= <- <-]. assert (Hfresh : entries s !! next s = None).
  { destruct (entries s !! next s) eqn:He; [|done]. pose proof (Hn (next s) ltac:(by eexists)). lia. }
  assert (Hsame : forall e', queue e' (mk_state (words s) (<[k:=next s]> (table s)) (<[next s:=entry_new]> (entries s)) (next s + 1) (threads s) (ended s)) = queue e' s).
  { intros e'. unfold queue. simpl. destruct (decide (e' = next s)) as [->|Hne]; [by rewrite lookup_insert_eq, Hfresh|by rewrite lookup_insert_ne]. }
  assert (Hold : forall k' e', table s !! k' = Some e' -> e' <> next s).
  { intros k' e' Hk' ->. destruct (Ht _ _ Hk') as [? ?]. congruence. }
  split_and!; simpl; [split; simpl|by rewrite lookup_insert_eq|..].
  - intros k' e'. rewrite lookup_insert. case_decide.
    + intros [= <-]. rewrite lookup_insert_eq. by eexists.
    + intros Hk'. rewrite lookup_insert_ne by (intros Heq; by eapply Hold). by eapply Ht.
  - intros k1 k2 e'. rewrite !lookup_insert. destruct (decide (k = k1)), (decide (k = k2)).
    + congruence.
    + intros [= <-] Hk2. by destruct (Hold _ _ Hk2).
    + intros Hk1 [= <-]. by destruct (Hold _ _ Hk1).
    + apply Hi.
  - intros e'. rewrite Hsame. intros Hne. destruct (Hq _ Hne) as [k' Hk']. exists k'. rewrite lookup_insert_ne; [done|]. congruence.
  - intros e'. rewrite lookup_insert. case_decide; [intros; lia|]. intros ?%Hn. lia.
  - intros k' e' Hk'. rewrite lookup_insert_ne; [done|]. congruence.
  - intros k'. unfold aqueue at 1. simpl. rewrite lookup_insert. case_decide as Hkk.
    + subst k'. rewrite Hsame. unfold aqueue. rewrite Hk. unfold queue. by rewrite Hfresh.
    + unfold aqueue. destruct (table s !! k'); [apply Hsame|done].
  - done.
Qed.

Lemma wake_entry_ok k e count mask s n s' :
  base s -> table s !! k = Some e -> wake_entry e count mask s = (n, s') ->
  base s' /\ table s' = table s /\
  (forall k', aqueue k' s' = upd (fun k => aqueue k s) k (wake count mask 0 (aqueue k s)).2 k') /\
  (forall id, threads s' !! id = woke (wake count mask 0 (aqueue k s)).1 id <$> threads s !! id).
Proof.
  intros Hb Hk. unfold wake_entry. assert (Hq : queue e s = aqueue k s) by (unfold aqueue; by rewrite Hk).
  rewrite Hq. destruct (wake count mask 0 (aqueue k s)) as [ids rest]. intros [= <- <-].
  destruct (set_queue_ok k e rest s Hb Hk) as [Hb' Ha]. split_and!; [by destruct Hb'; split|done| |].
  - intros k'. by rewrite <-Ha.
  - intros id. by rewrite lookup_wake_threads.
Qed.

(** A step that leaves the queues alone. *)
Lemma quiet_put tid t t' s s1 :
  sound s -> threads s !! tid = Some t -> (forall n moved, t_pc t <> Extend n moved) ->
  base s1 -> (forall k e, table s !! k = Some e -> table s1 !! k = Some e) ->
  (forall k, aqueue k s1 = aqueue k s) -> threads s1 = threads s ->
  shape t' -> guarded t' s1 -> t_pc t' <> Parked false ->
  sound (put tid t' s1) /\ forall k, aqueue k (put tid t' s1) = aqueue k s.
Proof.
  intros Hs Ht Hne Hb Hmono Ha Hth Hsh Hg Hp. split; [|exact Ha].
  apply (put_sound [] tid t t' s); try done.
  - split; [done|done| |..].
    + intros id. rewrite Hth. destruct (threads s !! id); [|done]. simpl. by rewrite woke_nil.
    + intros k x Hx. left. exists k. by rewrite Ha.
    + intros n moved x Hx. by destruct (Hne n moved).
  - unfold waiter. destruct (t_pc t') as [| | | |[]| | | | | | |]; done.
Qed.

Lemma guarded_at p t s : guarded t s -> guarded (at_pc p t) s.
Proof. done. Qed.

Lemma step_start_ok tid t s :
  sound s -> threads s !! tid = Some t -> t_pc t = Start ->
  sound (step_start tid t s) /\ forall k, aqueue k (step_start tid t s) = aqueue k s.
Proof.
  intros Hs Ht Hp. pose proof (s_shape _ Hs _ _ Ht) as Hsh. pose proof (s_guarded _ Hs _ _ Ht) as Hg.
  unfold shape in Hsh. simpl in Hsh. rewrite Hp in Hsh.
  assert (Hend : forall o, sound (end_call tid o s) /\ forall k, aqueue k (end_call tid o s) = aqueue k s).
  { intros o. split; [|done]. eapply end_sound; [done..|]. by rewrite Hp. }
  assert (Hnext : sound (put tid (at_pc Fetch t) s) /\ forall k, aqueue k (put tid (at_pc Fetch t) s) = aqueue k s).
  { apply (quiet_put tid t); try done; [by rewrite Hp|apply Hs]. }
  unfold step_start. destruct (t_call t); repeat case_match; done.
Qed.

Lemma step_fetch_ok tid t s :
  sound s -> threads s !! tid = Some t -> t_pc t = Fetch ->
  sound (step_fetch tid t s) /\ forall k, aqueue k (step_fetch tid t s) = aqueue k s.
Proof.
  intros Hs Ht Hp. pose proof (s_shape _ Hs _ _ Ht) as Hsh. unfold shape in Hsh. simpl in Hsh. rewrite Hp in Hsh.
  assert (Hend : forall o, sound (end_call tid o s) /\ forall k, aqueue k (end_call tid o s) = aqueue k s).
  { intros o. split; [|done]. eapply end_sound; [done..|]. by rewrite Hp. }
  assert (Hput : forall t', shape t' -> guarded t' s -> t_pc t' <> Parked false ->
    sound (put tid t' s) /\ forall k, aqueue k (put tid t' s) = aqueue k s).
  { intros t' ? ? ?. apply (quiet_put tid t); try done; [by rewrite Hp|apply Hs]. }
  unfold step_fetch. destruct (t_call t) as [k v b tm|k v b|k v v2 k2 v3|k] eqn:Hc.
  - destruct (get_or_insert k s) as [e s'] eqn:Hgi. destruct (get_or_insert_ok _ _ _ _ (s_base _ Hs) Hgi) as (Hb & Hk & Hm & Ha & Hth).
    apply (quiet_put tid t); try done; [by rewrite Hp| |].
    + unfold shape. simpl. rewrite Hc. by exists e.
    + by repeat constructor.
  - destruct (table s !! k) as [e|] eqn:Hk; [|done]. apply Hput; [|by repeat constructor|done].
    unfold shape. simpl. rewrite Hc. by exists e.
  - destruct (table s !! k) as [e|] eqn:Hk; (apply Hput; [| |done]).
    + unfold shape. simpl. rewrite Hc. right. by exists e.
    + by repeat constructor.
    + unfold shape. simpl. rewrite Hc. by left.
    + apply (s_guarded _ Hs _ _ Ht).
  - destruct (table s !! k) as [e|] eqn:Hk; [|done]. apply Hput; [|by repeat constructor|done].
    unfold shape. simpl. rewrite Hc. by exists e.
Qed.

Lemma step_fetch2_ok tid t s :
  sound s -> threads s !! tid = Some t -> t_pc t = Fetch2 ->
  sound (step_fetch2 tid t s) /\ forall k, aqueue k (step_fetch2 tid t s) = aqueue k s.
Proof.
  intros Hs Ht Hp. pose proof (s_shape _ Hs _ _ Ht) as Hsh. pose proof (s_guarded _ Hs _ _ Ht) as Hg.
  unfold shape in Hsh. simpl in Hsh. rewrite Hp in Hsh. unfold step_fetch2. destruct (t_call t) as [| |k v v2 k2 v3|] eqn:Hc; try done.
  destruct (get_or_insert k2 s) as [e2 s'] eqn:Hgi. destruct (get_or_insert_ok _ _ _ _ (s_base _ Hs) Hgi) as (Hb & Hk & Hm & Ha & Hth).
  apply (quiet_put tid t); try done; [by rewrite Hp| |].
  - unfold shape. simpl. rewrite Hc. destruct Hsh as [->|[e ->]]; [left; by exists e2|right; by exists e, e2].
  - unfold guarded in *. simpl in *. apply Forall_app. split; [|by repeat constructor].
    eapply Forall_impl; [exact Hg|]. intros g. apply Hm.
Qed.

Local Notation Q s := (fun k => aqueue k s).

Lemma upd_eq f k q : upd f k q k = q.
Proof. unfold upd. by rewrite decide_True. Qed.

(** A thread at a guarded entry. *)
Ltac at_thread Hs Ht Hp :=
  let Hsh := fresh "Hsh" in let Hg := fresh "Hg" in
  pose proof (s_shape _ Hs _ _ Ht) as Hsh; pose proof (s_guarded _ Hs _ _ Ht) as Hg;
  unfold shape in Hsh; unfold guarded in Hg; simpl in Hsh, Hg; rewrite Hp in Hsh.

Lemma step_first_poll_ok tid t expired s :
  sound s -> threads s !! tid = Some t -> t_pc t = FirstPoll ->
  sound (step_first_poll tid t expired s) /\
  forall k, aqueue k (step_first_poll tid t expired s) = a_thread tid t s (Q s) k.
Proof.
  intros Hs Ht Hp. at_thread Hs Ht Hp. unfold step_first_poll, a_thread. rewrite Hp.
  destruct (t_call t) as [key v b tm| | |] eqn:Hc; try done. destruct Hsh as [e Hge]. rewrite Hge in *.
  apply Forall_cons in Hg as [Hke _]. simpl in Hke.
  assert (Hquiet : forall o, sound (put tid (at_pc (Dropping o) t) s) /\ forall k, aqueue k (put tid (at_pc (Dropping o) t) s) = aqueue k s).
  { intros o. apply (quiet_put tid t); try done; [by rewrite Hp|apply Hs|]. apply (s_guarded _ Hs _ _ Ht). }
  destruct (t_interrupt t); [apply Hquiet|]. simpl. case_bool_decide; [|apply Hquiet].
  assert (Hq : queue e s = aqueue key s) by (unfold aqueue; by rewrite Hke). rewrite Hq.
  destruct (set_queue_ok key e (aqueue key s ++ [(tid, b)]) s (s_base _ Hs) Hke) as [Hb Ha]. split; [|exact Ha].
  apply (put_sound [] tid t _ s); [done|done| | |apply (s_guarded _ Hs _ _ Ht)|].
  - split; [done|done| | |by rewrite Hp].
    + intros id. simpl. destruct (threads s !! id); [|done]. simpl. by rewrite woke_nil.
    + intros k x Hx. left. exists k. rewrite Ha. unfold upd. case_decide; [subst k|done]. apply elem_of_app. by left.
  - unfold shape. simpl. rewrite Hc. destruct (tm && expired); [done|]. by exists e.
  - unfold waiter. simpl. rewrite Hc. destruct (tm && expired); [done|]. left. exists key. rewrite aqueue_put, Ha, upd_eq.
    apply elem_of_app. right. by apply list_elem_of_singleton.
Qed.

Lemma step_second_poll_ok tid t s :
  sound s -> threads s !! tid = Some t -> t_pc t = Parked true ->
  sound (step_second_poll tid t s) /\ forall k, aqueue k (step_second_poll tid t s) = aqueue k s.
Proof.
  intros Hs Ht Hp. at_thread Hs Ht Hp. unfold step_second_poll.
  destruct (t_interrupt t); apply (quiet_put tid t); try done; try (by rewrite Hp); try apply Hs; try apply (s_guarded _ Hs _ _ Ht).
Qed.

Lemma step_finish_ok tid t s :
  sound s -> threads s !! tid = Some t -> t_pc t = Finish ->
  sound (step_finish tid t s) /\ forall k, aqueue k (step_finish tid t s) = aqueue k s.
Proof.
  intros Hs Ht Hp. at_thread Hs Ht Hp. unfold step_finish. destruct (t_guards t) as [|[k e] gs] eqn:Hge.
  { by destruct (t_call t) as [? ? ? ?| | |]; try done; destruct Hsh. }
  destruct (set_dead_ok e false s (s_base _ Hs)) as [Hb Ha].
  apply (quiet_put tid t); try done; [by rewrite Hp|..|exact (s_guarded _ Hs _ _ Ht)].
Qed.

Lemma mark_ok tid t e gs s k0 :
  sound s -> threads s !! tid = Some t -> t_pc t = Mark -> t_guards t = (k0, e) :: gs ->
  sound (put tid (at_pc Act t) (set_dead e true s)) /\ forall k, aqueue k (put tid (at_pc Act t) (set_dead e true s)) = aqueue k s.
Proof.
  intros Hs Ht Hp Hge. at_thread Hs Ht Hp. destruct (set_dead_ok e true s (s_base _ Hs)) as [Hb Ha].
  apply (quiet_put tid t); try done; [by rewrite Hp|].
  unfold shape. simpl. by destruct (t_call t).
Qed.

(** A wake-up on behalf of a thread that then goes on at [t']. *)
Lemma wake_put tid t t' key e count mask s n s' :
  sound s -> threads s !! tid = Some t -> t_pc t = Act -> table s !! key = Some e ->
  wake_entry e count mask s = (n, s') -> shape t' -> t_guards t' = t_guards t -> t_pc t' <> Parked false ->
  sound (put tid t' s') /\ forall k, aqueue k (put tid t' s') = upd (Q s) key (wake count mask 0 (aqueue key s)).2 k.
Proof.
  intros Hs Ht Hp Hk Hw Hsh Hg Hne. destruct (wake_entry_ok _ _ _ _ _ _ _ (s_base _ Hs) Hk Hw) as (Hb & Htab & Ha & Hth).
  split; [|exact Ha]. apply (put_sound (wake count mask 0 (aqueue key s)).1 tid t t' s); try done.
  - split; [done|by rewrite Htab|done| |by rewrite Hp]. intros k x Hx. destruct (decide (k = key)) as [->|Hkk].
    + destruct (wake_kept count mask 0 _ _ Hx) as [?|Hr]; [by right; left|left]. exists key. by rewrite Ha, upd_eq.
    + left. exists k. rewrite Ha. unfold upd. by rewrite decide_False.
  - unfold guarded. rewrite Hg, Htab. apply (s_guarded _ Hs _ _ Ht).
  - unfold waiter. destruct (t_pc t') as [| | | |[]| | | | | | |]; done.
Qed.

Lemma step_act_ok tid t s :
  sound s -> threads s !! tid = Some t -> t_pc t = Act ->
  sound (step_act tid t s) /\ forall k, aqueue k (step_act tid t s) = a_thread tid t s (Q s) k.
Proof.
  intros Hs Ht Hp. at_thread Hs Ht Hp. unfold step_act, a_thread. rewrite Hp.
  destruct (t_call t) as [|key v b|key v v2 key2 v3|key] eqn:Hc; try done.
  - destruct Hsh as [e Hge]. rewrite Hge in *. apply Forall_cons in Hg as [Hke _].
    destruct (wake_entry e v b s) as [n s'] eqn:Hw. by eapply wake_put.
  - destruct Hsh as [[e2 Hge]|(e & e2 & Hge)]; rewrite Hge in *.
    + simpl. apply (quiet_put tid t); try done; [by rewrite Hp|apply Hs|apply (s_guarded _ Hs _ _ Ht)].
    + apply Forall_cons in Hg as [Hke _]. destruct (wake_entry e v u32_max s) as [n s'] eqn:Hw. simpl.
      eapply wake_put; try done; [|by destruct (n =? v)]. unfold shape. simpl. rewrite Hc. destruct (n =? v); [|done]. by exists e, e2.
  - destruct Hsh as [e Hge]. rewrite Hge in *. apply Forall_cons in Hg as [Hke _].
    destruct (wake_entry e 1 u32_max s) as [n s'] eqn:Hw. by eapply wake_put.
Qed.

Lemma step_drain_ok tid t n s :
  sound s -> threads s !! tid = Some t -> t_pc t = Drain n ->
  sound (step_drain tid t n s) /\ forall k, aqueue k (step_drain tid t n s) = a_thread tid t s (Q s) k.
Proof.
  intros Hs Ht Hp. at_thread Hs Ht Hp. unfold step_drain, a_thread. rewrite Hp.
  destruct (t_call t) as [| |key v v2 key2 v3|] eqn:Hc; try done. destruct Hsh as (e & e2 & Hge). rewrite Hge in *.
  apply Forall_cons in Hg as [Hke Hg]. simpl in Hke.
  assert (Hq : queue e s = aqueue key s) by (unfold aqueue; by rewrite Hke). rewrite Hq.
  assert (Hd : (drain v2 (aqueue key s)).1 ++ (drain v2 (aqueue key s)).2 = aqueue key s) by (unfold drain; apply take_drop).
  destruct (drain v2 (aqueue key s)) as [moved rest]. simpl in Hd |- *.
  destruct (set_queue_ok key e rest s (s_base _ Hs) Hke) as [Hb Ha]. split; [|exact Ha].
  apply (put_sound [] tid t _ s); [done|done| | |apply (s_guarded _ Hs _ _ Ht)|].
  - split; [done|done| | |by rewrite Hp].
    + intros id. simpl. destruct (threads s !! id); [|done]. simpl. by rewrite woke_nil.
    + intros k x Hx. destruct (decide (k = key)) as [->|Hkk].
      * rewrite <-Hd in Hx. apply elem_of_app in Hx as [Hx|Hx]; [right; right|left; exists key; by rewrite Ha, upd_eq].
        destruct moved; [by apply not_elem_of_nil in Hx|]. by eexists _, _.
      * left. exists k. rewrite Ha. unfold upd. by rewrite decide_False.
  - unfold shape. simpl. rewrite Hc. destruct moved; [done|]. by exists e, e2.
  - unfold waiter. simpl. by destruct moved.
Qed.

Lemma step_extend_ok tid t n moved s :
  sound s -> threads s !! tid = Some t -> t_pc t = Extend n moved ->
  sound (step_extend tid t n moved s) /\ forall k, aqueue k (step_extend tid t n moved s) = a_thread tid t s (Q s) k.
Proof.
  intros Hs Ht Hp. at_thread Hs Ht Hp. unfold step_extend, a_thread. rewrite Hp.
  destruct (t_call t) as [| |key v v2 key2 v3|] eqn:Hc; try done. destruct Hsh as (e & e2 & Hge). rewrite Hge in *.
  apply Forall_cons in Hg as [_ Hg]. apply Forall_cons in Hg as [Hk2 _]. simpl in Hk2.
  assert (Hq : queue e2 s = aqueue key2 s) by (unfold aqueue; by rewrite Hk2). rewrite Hq.
  destruct (set_queue_ok key2 e2 (aqueue key2 s ++ moved) s (s_base _ Hs) Hk2) as [Hb Ha]. split; [|exact Ha].
  apply (put_sound [] tid t _ s); [done|done| |done|apply (s_guarded _ Hs _ _ Ht)|done].
  split; [done|done| | |].
  - intros id. simpl. destruct (threads s !! id); [|done]. simpl. by rewrite woke_nil.
  - intros k x Hx. left. exists k. rewrite Ha. unfold upd. case_decide; [subst k|done]. apply elem_of_app. by left.
  - intros n' moved' x Hp' Hx. rewrite Hp in Hp'. injection Hp' as _ <-. left. exists key2. rewrite Ha, upd_eq. apply elem_of_app. by right.
Qed.

(** ** Collecting entries *)

Lemma all_guards_delete m tid t :
  m !! tid = Some t -> all_guards m ≡ₚ t_guards t ++ all_guards (delete tid m).
Proof.
  intros Ht. unfold all_guards. rewrite <-(insert_delete_id _ _ _ Ht) at 1.
  by rewrite map_to_list_insert by apply lookup_delete_eq.
Qed.

Lemma all_guards_in m tid t g : m !! tid = Some t -> g ∈ t_guards t -> g ∈ all_guards m.
Proof. intros Ht Hg. rewrite (all_guards_delete _ _ _ Ht). apply elem_of_app. by left. Qed.

(** A guard that is the only one of its entry. *)
Lemma unused_sole k e gs tid t s :
  sound s -> threads s !! tid = Some t -> t_guards t = (k, e) :: gs -> unused e s = true ->
  queue e s = [] /\ Forall (fun g => g.2 <> e) gs /\
  forall id u, id <> tid -> threads s !! id = Some u -> Forall (fun g => g.2 <> e) (t_guards u).
Proof.
  intros Hs Ht Hg Hun. unfold unused in Hun. apply andb_true_iff in Hun as [Hc Hq%bool_decide_eq_true]. split; [done|].
  pose proof (s_guarded _ Hs _ _ Ht) as Hgd. unfold guarded in Hgd. simpl in Hgd. rewrite Hg in Hgd. apply Forall_cons in Hgd as [Hk _].
  unfold strong_count in Hc. assert (Htab : (1 <= length (filter (fun p : Z * Z => p.2 = e) (map_to_list (table s))))%nat).
  { assert (Hin : (k, e) ∈ filter (fun p : Z * Z => p.2 = e) (map_to_list (table s))).
    { apply list_elem_of_filter. split; [done|]. by apply elem_of_map_to_list. }
    destruct (filter _ _); [by apply not_elem_of_nil in Hin|simpl; lia]. }
  assert (Hlen : length (filter (fun g : Z * Z => g.2 = e) (all_guards (threads s))) =
    S (length (filter (fun g : Z * Z => g.2 = e) gs) + length (filter (fun g : Z * Z => g.2 = e) (all_guards (delete tid (threads s)))))).
  { rewrite (all_guards_delete _ _ _ Ht), Hg, filter_app, length_app, filter_cons. simpl. by rewrite decide_True. }
  assert (Hnone : forall l : list (Z * Z), length (filter (fun g => g.2 = e) l) = 0%nat -> Forall (fun g => g.2 <> e) l).
  { intros l Hl%nil_length_inv. apply Forall_forall. intros g Hin Heq.
    assert (g ∈ filter (fun g : Z * Z => g.2 = e) l) as Hbad by (by apply list_elem_of_filter). rewrite Hl in Hbad. by apply not_elem_of_nil in Hbad. }
  split; [apply Hnone; lia|]. intros id u Hne Hu. assert (Hrest : Forall (fun g => g.2 <> e) (all_guards (delete tid (threads s)))) by (apply Hnone; lia).
  rewrite Forall_forall in *. intros g Hin. apply Hrest. eapply all_guards_in; [|done]. by rewrite lookup_delete_ne.
Qed.

(** Removing the entry of a sole guard. *)
Lemma step_removing_ok tid t o k e gs s :
  sound s -> threads s !! tid = Some t -> t_pc t = Dropping o -> t_guards t = (k, e) :: gs -> unused e s = true ->
  let s' := put tid (at_pc (Dropping o) (set_guards gs t)) (set_table (delete k (table s)) s) in
  sound s' /\ forall k', aqueue k' s' = aqueue k' s.
Proof.
  intros Hs Ht Hp Hg Hun s'. destruct (unused_sole _ _ _ _ _ _ Hs Ht Hg Hun) as (Hq & Hgs & Hother).
  pose proof Hs as [[Hbt Hbi Hbq Hbn] Hgd Hsh Hw]. pose proof (Hgd _ _ Ht) as Hgt. unfold guarded in Hgt. simpl in Hgt. rewrite Hg in Hgt.
  apply Forall_cons in Hgt as [Hk Hgt]. simpl in Hk.
  assert (Ha : forall k', aqueue k' s' = aqueue k' s).
  { intros k'. unfold aqueue at 1. unfold s'. simpl. destruct (decide (k' = k)) as [->|Hne].
    - rewrite lookup_delete_eq. unfold aqueue. by rewrite Hk, Hq.
    - by rewrite lookup_delete_ne. }
  assert (Hkeep : forall g : Z * Z, g.2 <> e -> table s !! g.1 = Some g.2 -> table s' !! g.1 = Some g.2).
  { intros g Hge Htg. unfold s'. simpl. rewrite lookup_delete_ne; [done|]. intros ->. congruence. }
  assert (Hthreads : forall id u, threads s' !! id = Some u ->
    (id = tid /\ u = at_pc (Dropping o) (set_guards gs t)) \/ (id <> tid /\ threads s !! id = Some u)).
  { intros id u. unfold s'. simpl. rewrite lookup_insert. case_decide; [intros [= <-]; by left|by right]. }
  split; [|done]. split.
  - split; unfold s'; simpl.
    + intros k' e' [_ Hk']%lookup_delete_Some. by eapply Hbt.
    + intros k1 k2 e' [_ H1]%lookup_delete_Some [_ H2]%lookup_delete_Some. by eapply Hbi.
    + intros e' Hne. destruct (Hbq e' Hne) as [k' Hk']. exists k'. rewrite lookup_delete_ne; [done|]. intros <-.
      assert (e' = e) as -> by congruence. done.
    + done.
  - intros id u [[-> ->]|[Hne Hu]]%Hthreads; unfold guarded; simpl; apply Forall_forall; intros g Hin; apply Hkeep.
    + by apply (proj1 (Forall_forall _ _) Hgs).
    + by apply (proj1 (Forall_forall _ _) Hgt).
    + by apply (proj1 (Forall_forall _ _) (Hother _ _ Hne Hu)).
    + by apply (proj1 (Forall_forall _ _) (Hgd _ _ Hu)).
  - intros id u [[-> ->]|[Hne Hu]]%Hthreads; [done|by apply (Hsh _ _ Hu)].
  - intros id u [[-> ->]|[Hne Hu]]%Hthreads; [done|]. specialize (Hw _ _ Hu). unfold waiter in *. simpl in Hw.
    destruct (t_pc u) as [| | | |[]| | | | | | |]; try done. destruct (t_call u); try done.
    destruct Hw as [[k' ?]|(id' & u' & n & moved & Hid' & Hp' & Hin)]; [left; exists k'; by rewrite Ha|right].
    exists id', u', n, moved. unfold s'. simpl. rewrite lookup_insert_ne; [done|]. intros ->. congruence.
Qed.

Lemma step_dropping_ok tid t o s :
  sound s -> threads s !! tid = Some t -> t_pc t = Dropping o ->
  (forall e gs k, t_guards t = (k, e) :: gs -> unused e s = false) ->
  sound (step_dropping tid t o s) /\ forall k, aqueue k (step_dropping tid t o s) = aqueue k s.
Proof.
  intros Hs Ht Hp Hun. at_thread Hs Ht Hp. unfold step_dropping. destruct (t_guards t) as [|[k e] gs] eqn:Hge.
  - split; [|done]. eapply end_sound; [done..|]. by rewrite Hp.
  - rewrite (Hun e gs k) by done. apply Forall_cons in Hg as [_ Hg].
    apply (quiet_put tid t); try done; [by rewrite Hp|apply Hs| |]; unfold shape; simpl; by rewrite Hp.
Qed.

(** ** Histories *)

(** A step in which a guard is dropped at once. *)
Definition atomic_step (e : event) (s : state) : option state :=
  s1 ← futex_step e s;
  match e with
  | EStep tid _ =>
      match t_pc <$> threads s1 !! tid with Some (Removing _) => futex_step e s1 | _ => Some s1 end
  | _ => Some s1
  end.

Inductive calm : state -> Prop :=
| calm_new m : calm (new_state m)
| calm_step s e s' : calm s -> atomic_step e s = Some s' -> calm s'.

(** A step of a thread that is about to drop a guard that is not the last one. *)
Definition keeps_entry (t : thread) (s : state) : Prop :=
  match t_pc t with Dropping _ => forall e gs k, t_guards t = (k, e) :: gs -> unused e s = false | _ => True end.

Lemma step_thread_ok tid t expired s s' :
  sound s -> threads s !! tid = Some t -> keeps_entry t s -> step_thread tid t expired s = Some s' ->
  sound s' /\ forall k, aqueue k s' = a_thread tid t s (Q s) k.
Proof.
  intros Hs Ht Hkeep. unfold step_thread, keeps_entry in *.
  assert (Hquiet : forall s1, (match t_pc t with FirstPoll | Act | Drain _ | Extend _ _ => False | _ => True end) ->
    (sound s1 /\ forall k, aqueue k s1 = aqueue k s) -> sound s1 /\ forall k, aqueue k s1 = a_thread tid t s (Q s) k).
  { intros s1 Hp [? Ha]. split; [done|]. intros k. rewrite Ha. unfold a_thread. by destruct (t_pc t). }
  destruct (t_pc t) as [| | | |[]| | | |n|n moved|o|o] eqn:Hp; try (intros [= <-]).
  - by apply Hquiet, step_start_ok.
  - by apply Hquiet, step_fetch_ok.
  - by apply Hquiet, step_fetch2_ok.
  - by apply step_first_poll_ok.
  - by apply Hquiet, step_second_poll_ok.
  - by apply Hquiet, step_finish_ok.
  - destruct (t_guards t) as [|[k e] gs] eqn:Hg; [done|]. intros [= <-]. apply Hquiet; [done|]. by eapply mark_ok.
  - by apply step_act_ok.
  - by apply step_drain_ok.
  - by apply step_extend_ok.
  - by apply Hquiet, step_dropping_ok.
  - pose proof (s_shape _ Hs _ _ Ht) as Hsh. unfold shape in Hsh. simpl in Hsh. by rewrite Hp in Hsh.
Qed.

(** Changes from outside: timers, interrupts and new calls. *)
Lemma outside_put tid t t' s :
  sound s -> threads s !! tid = Some t -> t_call t' = t_call t -> t_guards t' = t_guards t ->
  (t_pc t' = t_pc t \/ exists b, t_pc t = Parked b /\ t_pc t' = Parked true) ->
  sound (put tid t' s).
Proof.
  intros Hs Ht Hc Hg Hp. apply (put_sound [] tid t t' s); try done.
  - split; [apply Hs|done| | |].
    + intros id. destruct (threads s !! id); [|done]. simpl. by rewrite woke_nil.
    + intros k x Hx. left. by exists k.
    + intros n moved x Hx Hin. right. exists n, moved. split; [|done]. destruct Hp as [Hp|(b & Hb & _)]; congruence.
  - pose proof (s_shape _ Hs _ _ Ht) as Hsh. unfold shape in *. simpl in Hsh. rewrite Hc, Hg.
    destruct Hp as [->|(b & Hb & ->)]; [done|]. by rewrite Hb in Hsh.
  - unfold guarded. rewrite Hg. apply (s_guarded _ Hs _ _ Ht).
  - pose proof (s_waiter _ Hs _ _ Ht) as Hw. unfold waiter in *. simpl in Hw. rewrite Hc.
    destruct Hp as [->|(b & Hb & ->)]; [|done]. destruct (t_pc t) as [| | | |[]| | | | | | |] eqn:Hpt; try done. destruct (t_call t); try done.
    destruct Hw as [?|(id' & u' & n & moved & Hid' & Hp' & Hin)]; [by left|right]. exists id', u', n, moved. unfold put. simpl.
    rewrite lookup_insert_ne; [done|]. intros ->. congruence.
Qed.

Lemma new_call_sound tid c s :
  sound s -> threads s !! tid = None -> sound (put tid (mk_thread c [] Start false) s).
Proof.
  intros [[Hbt Hbi Hbq Hbn] Hg Hsh Hw] Hn. split; [by split|..].
  - intros id t. simpl. rewrite lookup_insert. case_decide; [intros [= <-]; constructor|apply Hg].
  - intros id t. simpl. rewrite lookup_insert. case_decide; [by intros [= <-]|apply Hsh].
  - intros id t. simpl. rewrite lookup_insert. case_decide; [by intros [= <-]|]. intros Ht. specialize (Hw _ _ Ht). unfold waiter in *. simpl in Hw.
    destruct (t_pc t) as [| | | |[]| | | | | | |]; try done. destruct (t_call t); try done.
    destruct Hw as [?|(id' & u' & n & moved & Hid' & Hp' & Hin)]; [by left|right]. exists id', u', n, moved. simpl.
    rewrite lookup_insert_ne; [done|]. intros ->. congruence.
Qed.

Lemma keeps_entry_or t s :
  keeps_entry t s \/
  exists o k e gs, t_pc t = Dropping o /\ t_guards t = (k, e) :: gs /\ unused e s = true.
Proof.
  unfold keeps_entry. destruct (t_pc t) as [| | | | | | | | | |o|]; try by left.
  destruct (t_guards t) as [|[k e] gs]; [by left|]. destruct (unused e s) eqn:Hun.
  - right. by exists o, k, e, gs.
  - left. by intros e' gs' k' [= -> -> ->].
Qed.

Lemma atomic_step_ok e s s' :
  sound s -> atomic_step e s = Some s' -> sound s' /\ forall k, aqueue k s' = a_step e s (Q s) k.
Proof.
  intros Hs. unfold atomic_step. destruct (futex_step e s) as [s1|] eqn:Hstep; [|done]. cbn [mbind option_bind].
  destruct e as [tid c|tid expired|tid|tid|k v]; simpl in Hstep |- *.
  - intros [= <-]. case_bool_decide; [|done]. injection Hstep as <-. split; [by apply new_call_sound|done].
  - destruct (threads s !! tid) as [t|] eqn:Ht; [|done]. simpl in Hstep.
    destruct (keeps_entry_or t s) as [Hkeep|(o & k & e & gs & Hp & Hg & Hun)].
    + destruct (step_thread_ok _ _ _ _ _ Hs Ht Hkeep Hstep) as [Hs1 Ha].
      destruct (threads s1 !! tid) as [t1|] eqn:Ht1; simpl; [|by intros [= <-]].
      pose proof (s_shape _ Hs1 _ _ Ht1) as Hsh. unfold shape in Hsh. simpl in Hsh.
      destruct (t_pc t1); try done; by intros [= <-].
    + unfold step_thread, step_dropping in Hstep. rewrite Hp, Hg, Hun in Hstep. injection Hstep as <-. simpl.
      rewrite lookup_insert_eq. simpl. unfold step_thread, step_removing. simpl. rewrite Hg. intros [= <-].
      destruct (step_removing_ok tid t o k e gs s Hs Ht Hp Hg Hun) as [Hs1 Ha].
      assert (Heq : forall t1 t2 s0, put tid t1 (set_table (delete k (table s0)) (put tid t2 s0)) = put tid t1 (set_table (delete k (table s0)) s0)).
      { intros t1 t2 s0. unfold put, set_table, set_threads. simpl. by rewrite insert_insert_eq. }
      rewrite Heq. split; [exact Hs1|]. intros k'. unfold a_thread. rewrite Hp. apply Ha.
  - intros [= <-]. destruct (threads s !! tid) as [t|] eqn:Ht; [|done]. simpl in Hstep.
    destruct (t_pc t) eqn:Hp; try done. destruct (timed_call _); [|done]. injection Hstep as <-. split; [|done].
    apply (outside_put tid t); try done. right. by eexists.
  - intros [= <-]. destruct (threads s !! tid) as [t|] eqn:Ht; [|done]. simpl in Hstep. injection Hstep as <-. split; [|done].
    apply (outside_put tid t); try done; destruct (t_pc t) eqn:Hp; try done; try (by left). right. by eexists.
  - intros [= <-]. injection Hstep as <-. split; [|done]. destruct Hs as [[] Hg Hsh Hw]. by split.
Qed.

Lemma calm_sound s : calm s -> sound s.
Proof.
  induction 1 as [m|s e s' _ IH Hstep]; [|by eapply atomic_step_ok].
  split; [|apply map_Forall_empty..]. split; simpl.
  - by intros k e ?%lookup_empty_Some.
  - by intros k k' e ?%lookup_empty_Some.
  - intros e. unfold queue. simpl. by rewrite lookup_empty.
  - intros e. rewrite lookup_empty. by intros [? ?].
Qed.

(** ** What futexes promise *)

(** A wake-up takes the first threads that ask for one of its events, in the order in which
    they came, as many as it is told; the others stay, in their order. *)
Theorem wake_takes_the_first count mask q :
  let '(ids, rest) := wake count mask 0 q in
  ids = (take (Z.to_nat count) (filter (asks mask) q)).*1 /\
  filter (asks mask) rest = drop (Z.to_nat count) (filter (asks mask) q) /\
  filter (fun x => ~ asks mask x) rest = filter (fun x => ~ asks mask x) q /\ sublist rest q.
Proof.
  pose proof (wake_woken count mask 0 q ltac:(lia)) as H1. pose proof (wake_left count mask 0 q ltac:(lia)) as H2.
  rewrite Z.sub_0_r in *. by destruct (wake count mask 0 q).
Qed.

(** C6: The table of entries is invisible.  In any interleaving in which guards are dropped in one
    step, each step changes the queues as if every word had one: a wait joins that of its word if
    the word has the value given, a wake-up takes from it, a requeue moves from one to the other,
    and making and collecting entries does nothing.  And a thread that waits is in the queue of
    some word, or on its way there: there is a wake-up that reaches it. *)
Theorem futexes_are_queues_of_words s e s' :
  calm s -> atomic_step e s = Some s' ->
  (forall k, aqueue k s' = a_step e s (fun k => aqueue k s) k) /\
  forall tid t key value bitset timed, threads s' !! tid = Some t -> t_call t = FutexWait key value bitset timed ->
    t_pc t = Parked false -> queued (tid, bitset) s'.
Proof.
  intros Hs%calm_sound Hstep. destruct (atomic_step_ok _ _ _ Hs Hstep) as [Hs' Ha]. split; [done|].
  intros tid t key v b tm Ht Hc Hp. pose proof (s_waiter _ Hs' _ _ Ht) as Hw. unfold waiter in Hw. simpl in Hw. by rewrite Hp, Hc in Hw.
Qed.
