(* ===== verification/FutexLimits.v ===== *)
(** * Futexes: lost wake-ups

    Where the promise of [FutexSpec] fails: a wait that ends by a timer leaves its waker in the
    queue, where it takes the wake-up of another thread; and a guard that is dropped while another
    thread takes one of the same entry removes the entry from the table, with the thread in it. *)

From S2P Require Import Prelude Io PageCache Futex FutexSpec.

Definition steps (tid : Z) (n : nat) : list event := replicate n (EStep tid false).
Definition wait_forever (tid value : Z) : list event := ECall tid (FutexWait 1 value u32_max false) :: steps tid 3.
Definition zero : gmap Z Z := {[1 := 0]}.

(** A wait with a timeout that runs out returns 0, as if it had been woken, and its waker stays
    in the queue.  A thread that then waits at the same word is not woken by the next wake-up of one
    thread, which reports that it has woken one. *)
Theorem expired_wait_takes_a_wake_up :
  let expire := ECall 1 (FutexWait 1 0 u32_max true) :: steps 1 3 ++ [ETimer 1] ++ steps 1 4 in
  let wake_one := ECall 3 (FutexWake 1 1 u32_max) :: steps 3 5 in
  match futex_run (expire ++ wait_forever 2 0 ++ wake_one) (new_state zero) with
  | Some s => ended s !! 1 = Some (Count 0) /\ ended s !! 3 = Some (Count 1) /\
              t_pc <$> threads s !! 2 = Some (Parked false)
  | None => False
  end.
Proof. vm_compute. split_and!; reflexivity. Qed.

(** ** A race of guards *)

(** The first thread finds that the word has changed and drops its guard, the only one of the entry;
    before it removes the entry, the second gets a guard and waits. *)
Definition guard_race : list event :=
  ECall 1 (FutexWait 1 0 u32_max false) :: steps 1 2 ++ [EStore 1 1] ++ steps 1 2 ++
  [EStore 1 0] ++ wait_forever 2 0 ++ steps 1 2.

Definition lost_waiter : thread := mk_thread (FutexWait 1 0 u32_max false) [(1, 0)] (Parked false) false.

(** A thread that cannot reach the waiter. *)
Definition clear (t : thread) : Prop :=
  Forall (fun g => g.2 <> 0) (t_guards t) /\ forall n moved, t_pc t = Extend n moved -> 2 ∉ moved.*1.

Record lost (s : state) : Prop := {
  l_waiter : threads s !! 2 = Some lost_waiter;
  l_table : forall k, table s !! k <> Some 0;
  l_next : 0 < next s;
  l_clear : forall id t, id <> 2 -> threads s !! id = Some t -> clear t;
  l_queue : forall e, e <> 0 -> 2 ∉ (queue e s).*1;
}.

Lemma lost_put id t s : lost s -> id <> 2 -> clear t -> lost (put id t s).
Proof.
  intros [Hw Ht Hn Hc Hq] Hid Hcl. split; simpl; try done; [by rewrite lookup_insert_ne|].
  intros id' t' Hid'. rewrite lookup_insert. case_decide; [by intros [= <-]|by apply Hc].
Qed.

Lemma lost_end id o s : lost s -> id <> 2 -> lost (end_call id o s).
Proof.
  intros [Hw Ht Hn Hc Hq] Hid. split; simpl; try done; [by rewrite lookup_delete_ne|].
  intros id' t' Hid' [_ Ht']%lookup_delete_Some. by eapply Hc.
Qed.

Lemma lost_set_queue e q s : lost s -> e <> 0 -> 2 ∉ q.*1 -> lost (set_queue e q s).
Proof.
  intros [Hw Ht Hn Hc Hq] He Hnot. split; simpl; try done. intros e' He'. unfold queue, set_queue. simpl.
  destruct (decide (e' = e)) as [->|Hne]; [|rewrite lookup_alter_ne by done; by apply Hq].
  rewrite lookup_alter_eq. destruct (entries s !! e); simpl; [done|]. apply not_elem_of_nil.
Qed.

Lemma lost_set_dead e b s : lost s -> lost (set_dead e b s).
Proof.
  intros [Hw Ht Hn Hc Hq]. split; simpl; try done. intros e' He'. specialize (Hq e' He'). unfold queue, set_dead in *. simpl.
  destruct (decide (e' = e)) as [->|Hne]; [|by rewrite lookup_alter_ne]. rewrite lookup_alter_eq. by destruct (entries s !! e).
Qed.

Lemma lost_wake ids s : lost s -> 2 ∉ ids -> lost (wake_threads ids s).
Proof.
  intros [Hw Ht Hn Hc Hq] Hnot. split; try done.
  - rewrite lookup_wake_threads, Hw. simpl. unfold woke. simpl. by rewrite bool_decide_eq_false_2.
  - intros id t Hid. rewrite lookup_wake_threads. destruct (threads s !! id) as [u|] eqn:Hu; [|done]. intros [= <-].
    destruct (Hc _ _ Hid Hu) as [Hg Hm]. split; [by rewrite (proj2 (woke_call _ _ _))|]. intros n moved Hp. apply (Hm n). by apply woke_pc in Hp.
Qed.

Lemma lost_get_or_insert k s e s' : lost s -> get_or_insert k s = (e, s') -> lost s' /\ e <> 0.
Proof.
  intros [Hw Ht Hn Hc Hq]. unfold get_or_insert. destruct (table s !! k) as [e0|] eqn:Hk; intros [= <- <-].
  { split; [by split|]. intros ->. by apply (Ht k). }
  split; [|lia]. split; simpl; try done; [|lia|].
  - intros k'. rewrite lookup_insert. case_decide; [intros [=]; lia|apply Ht].
  - intros e He. specialize (Hq e He). unfold queue in *. simpl. rewrite lookup_insert. case_decide; [apply not_elem_of_nil|done].
Qed.

Lemma lost_remove k s : lost s -> lost (set_table (delete k (table s)) s).
Proof. intros [Hw Ht Hn Hc Hq]. split; simpl; try done. intros k' [_ ?]%lookup_delete_Some. by eapply Ht. Qed.

Lemma lost_wake_entry e count mask s n s' : lost s -> e <> 0 -> wake_entry e count mask s = (n, s') -> lost s'.
Proof.
  intros Hl He. unfold wake_entry. pose proof (l_queue _ Hl _ He) as Hq.
  pose proof (wake_woken count mask 0 (queue e s) ltac:(lia)) as Hids. pose proof (wake_left count mask 0 (queue e s) ltac:(lia)) as (_ & _ & Hsub).
  destruct (wake count mask 0 (queue e s)) as [ids rest]. simpl in *. intros [= <- <-]. apply lost_wake; [apply lost_set_queue; try done|].
  - intros Hin. apply Hq. apply list_elem_of_fmap in Hin as (x & -> & Hx). apply list_elem_of_fmap. exists x. split; [done|]. by eapply elem_of_sublist.
  - rewrite Hids. intros Hin. apply Hq. apply list_elem_of_fmap in Hin as (x & -> & Hx). apply list_elem_of_fmap. exists x. split; [done|].
    apply elem_of_take in Hx as (i & Hi & _). apply list_elem_of_lookup_2 in Hi. by apply list_elem_of_filter in Hi as [_ ?].
Qed.

Lemma clear_at p t : clear t -> (forall n moved, p <> Extend n moved) -> clear (at_pc p t).
Proof. intros [Hg _] Hp. split; [done|]. simpl. intros n moved Heq. by destruct (Hp n moved). Qed.

Lemma lost_thread tid t expired s s' :
  lost s -> tid <> 2 -> threads s !! tid = Some t -> step_thread tid t expired s = Some s' -> lost s'.
Proof.
  intros Hl Hid Ht. pose proof (l_clear _ Hl _ _ Hid Ht) as Hcl. pose proof Hcl as [Hg Hm].
  assert (Hend : forall o, lost (end_call tid o s)) by (intros o; by apply lost_end).
  assert (Hat : forall p s1, lost s1 -> (forall n moved, p <> Extend n moved) -> lost (put tid (at_pc p t) s1)).
  { intros p s1 ? ?. apply lost_put; [done..|]. by apply clear_at. }
  assert (Hgs : forall p gs s1, lost s1 -> Forall (fun g => g.2 <> 0) gs -> (forall n moved, p <> Extend n moved) ->
    lost (put tid (at_pc p (set_guards gs t)) s1)).
  { intros p gs s1 ? ? ?. apply lost_put; [done..|]. apply clear_at; [|done]. split; [done|]. exact Hm. }
  assert (Hone : forall k e, table s !! k = Some e -> Forall (fun g => g.2 <> 0) [(k, e)]).
  { intros k e Hk. repeat constructor. simpl. intros ->. by apply (l_table _ Hl k). }
  unfold step_thread. destruct (t_pc t) as [| | | |[]| | | |n|n moved|o|o] eqn:Hp; try (intros [= <-]).
  - unfold step_start. destruct (t_call t); repeat case_match; try apply Hend; by apply Hat.
  - unfold step_fetch. destruct (t_call t) as [k v b tm|k v b|k v v2 k2 v3|k].
    + destruct (get_or_insert k s) as [e s1] eqn:Hgi. destruct (lost_get_or_insert _ _ _ _ Hl Hgi) as [? ?]. apply Hgs; [done|by repeat constructor|done].
    + destruct (table s !! k) as [e|] eqn:Hk; [|apply Hend]. apply Hgs; [done|by apply Hone|done].
    + destruct (table s !! k) as [e|] eqn:Hk; [|by apply Hat]. apply Hgs; [done|by apply Hone|done].
    + destruct (table s !! k) as [e|] eqn:Hk; [|apply Hend]. apply Hgs; [done|by apply Hone|done].
  - unfold step_fetch2. destruct (t_call t) as [| |k v v2 k2 v3|]; try done.
    destruct (get_or_insert k2 s) as [e s1] eqn:Hgi. destruct (lost_get_or_insert _ _ _ _ Hl Hgi) as [? ?].
    apply Hgs; [done| |done]. apply Forall_app. split; [done|by repeat constructor].
  - unfold step_first_poll. destruct (t_call t) as [k v b tm| | |]; try done. destruct (t_guards t) as [|[k' e] gs]; [done|].
    apply Forall_cons in Hg as [He _]. simpl in He. destruct (t_interrupt t); [by apply Hat|]. case_bool_decide; [|by apply Hat].
    apply Hat; [|by destruct (tm && expired)]. apply lost_set_queue; try done. rewrite fmap_app, elem_of_app. simpl.
    rewrite list_elem_of_singleton. intros [Hin|Hin]; [by apply (l_queue _ Hl _ He)|done].
  - unfold step_second_poll. destruct (t_interrupt t); by apply Hat.
  - unfold step_finish. destruct (t_guards t) as [|[k e] gs]; [done|]. apply Hat; [by apply lost_set_dead|done].
  - destruct (t_guards t) as [|[k e] gs]; [done|]. intros [= <-]. apply Hat; [by apply lost_set_dead|done].
  - unfold step_act. destruct (t_call t) as [|k v b|k v v2 k2 v3|k]; try done; destruct (t_guards t) as [|[k' e] gs]; try (by apply Hat); try done;
      apply Forall_cons in Hg as [He _]; simpl in He.
    + destruct (wake_entry e v b s) as [n s1] eqn:Hw. apply Hat; [by eapply lost_wake_entry|done].
    + destruct gs; [by apply Hat|]. destruct (wake_entry e v u32_max s) as [n s1] eqn:Hw.
      apply Hat; [by eapply lost_wake_entry|by destruct (n =? v)].
    + destruct (wake_entry e 1 u32_max s) as [n s1] eqn:Hw. apply Hat; [by eapply lost_wake_entry|done].
  - unfold step_drain. destruct (t_call t) as [| |k v v2 k2 v3|]; try done. destruct (t_guards t) as [|[k' e] [|g gs]] eqn:Hge; try done.
    apply Forall_cons in Hg as [He _]. simpl in He. pose proof (l_queue _ Hl _ He) as Hq.
    assert (Hd : (drain v2 (queue e s)).1 ++ (drain v2 (queue e s)).2 = queue e s) by (unfold drain; apply take_drop).
    destruct (drain v2 (queue e s)) as [moved rest]. simpl in Hd. rewrite <-Hd, fmap_app, not_elem_of_app in Hq. destruct Hq as [Hq1 Hq2].
    apply lost_put; [by apply lost_set_queue|done|]. split; [apply Hcl|]. simpl. intros n' moved'. destruct moved; [done|]. by intros [= <- <-].
  - unfold step_extend. destruct (t_guards t) as [|g [|[k2 e2] gs]]; try done. apply Hat; [|done].
    apply Forall_cons in Hg as [_ Hg]. apply Forall_cons in Hg as [He2 _]. simpl in He2.
    apply lost_set_queue; try done. rewrite fmap_app, elem_of_app. intros [Hin|Hin]; [by apply (l_queue _ Hl _ He2)|by apply (Hm n moved)].
  - unfold step_dropping. destruct (t_guards t) as [|[k e] gs]; [apply Hend|]. apply Forall_cons in Hg as [_ Hg].
    destruct (unused e s); [by apply Hat|]. apply lost_put; [done..|]. split; [done|]. simpl. by rewrite Hp.
  - unfold step_removing. destruct (t_guards t) as [|[k e] gs]; [done|]. apply Forall_cons in Hg as [_ Hg].
    apply Hgs; [by apply lost_remove|done|done].
Qed.

Lemma lost_step e s s' : lost s -> e <> EInterrupt 2 -> futex_step e s = Some s' -> lost s'.
Proof.
  intros Hl Hne. pose proof (l_waiter _ Hl) as Hw. destruct e as [tid c|tid expired|tid|tid|k v]; simpl.
  - case_bool_decide as Hn; [|done]. intros [= <-]. apply lost_put; [done| |by split; [constructor|]]. intros ->. congruence.
  - destruct (threads s !! tid) as [t|] eqn:Ht; [|done]. simpl. destruct (decide (tid = 2)) as [->|Hid].
    + rewrite Hw in Ht. by injection Ht as <-.
    + by apply lost_thread.
  - destruct (threads s !! tid) as [t|] eqn:Ht; [|done]. simpl. destruct (decide (tid = 2)) as [->|Hid].
    + rewrite Hw in Ht. by injection Ht as <-.
    + destruct (t_pc t); try done. destruct (timed_call (t_call t)); [|done]. intros [= <-].
      apply lost_put; [done..|]. apply clear_at; [|done]. by apply (l_clear _ Hl tid).
  - destruct (threads s !! tid) as [t|] eqn:Ht; [|done]. simpl. intros [= <-]. assert (Hid : tid <> 2) by (by intros ->).
    destruct (l_clear _ Hl _ _ Hid Ht) as [Hg Hm]. apply lost_put; [done..|].
    destruct (t_pc t) eqn:Hp; (split; [done|]); simpl; rewrite ?Hp; done.
  - intros [= <-]. by destruct Hl.
Qed.

(** The state after the race. *)
Definition orphaned : state :=
  mk_state zero ∅ {[0 := mk_entry [(2, u32_max)] false]} 1 {[2 := lost_waiter]} {[1 := Error EWouldBlock]}.

Lemma orphaned_lost : lost orphaned.
Proof.
  split; simpl; [done|..].
  - intros k. by rewrite lookup_empty.
  - lia.
  - intros id t Hid. by rewrite lookup_singleton_ne.
  - intros e He. unfold queue. simpl. rewrite lookup_singleton_ne by done. apply not_elem_of_nil.
Qed.

(** A guard is dropped in two steps, and a thread that waits in between is lost: the table no
    longer has the entry it waits in, a wake-up finds nobody, and whatever threads do after that, it
    waits until it is interrupted. *)
Theorem guard_race_loses_waiter :
  exists s, futex_run guard_race (new_state zero) = Some s /\ threads s !! 2 = Some lost_waiter /\
    forall es s', Forall (fun e => e <> EInterrupt 2) es -> futex_run es s = Some s' ->
      threads s' !! 2 = Some lost_waiter.
Proof.
  exists orphaned. split_and!; [by vm_compute|done|]. intros es. generalize orphaned_lost. generalize orphaned.
  induction es as [|e es IH]; intros s Hl s' Hes Hrun; simpl in Hrun.
  - injection Hrun as <-. apply Hl.
  - apply Forall_cons in Hes as [He Hes]. destruct (futex_step e s) as [s1|] eqn:Hstep; [|done]. simpl in Hrun.
    apply (IH s1); [by eapply lost_step|done|done].
Qed.

(** ** Witness *)

(** A thread is about to join the queue of its word. *)
Lemma futexes_are_queues_of_words_witness :
  exists s s', calm s /\ atomic_step (EStep 1 false) s = Some s' /\ aqueue 1 s = [] /\ aqueue 1 s' = [(1, u32_max)].
Proof.
  assert (Hstep : forall e s, calm s -> is_Some (atomic_step e s) -> calm (default s (atomic_step e s))).
  { intros e s Hc [s' Hs]. rewrite Hs. by apply (calm_step s e). }
  set (s1 := default (new_state zero) (atomic_step (ECall 1 (FutexWait 1 0 u32_max false)) (new_state zero))).
  set (s2 := default s1 (atomic_step (EStep 1 false) s1)).
  set (s3 := default s2 (atomic_step (EStep 1 false) s2)).
  assert (Hc : calm s3).
  { do 3 (apply Hstep; [|by vm_compute; eexists]). apply calm_new. }
  destruct (atomic_step (EStep 1 false) s3) as [s4|] eqn:H4; [|by vm_compute in H4].
  exists s3, s4. split_and!; [done|done|by vm_compute|].
  rewrite (proj1 (futexes_are_queues_of_words s3 (EStep 1 false) s4 Hc H4) 1). by vm_compute.
Defined.
