(* ===== verification/Vsock.v ===== *)
(** * Vsock

    [axnet-ng/src/vsock/connection_manager.rs], [vsock/stream.rs] and [device/vsock.rs]: stream
    sockets to the host.  A global manager has the connections by their identifier and the queues
    of listening ports; the events of the device change them; sockets hold references to their
    connections.  While there are connections, a task polls the device.

    Each call and each event is taken as a whole, and a call that would block returns [WouldBlock], as
    the closures that [recv_poller] and [send_poller] retry do.  The device ([axdriver]) and the
    identifier that stands for a listening port are the class [VsockDevice]; wakers are the
    numbers of tasks, and [woken] is the list of those woken. *)

From S2P Require Import Prelude Io PageCache.

(** ** Addresses, states, events *)

(** [VsockAddr] (context and port) and [VsockConnId] (peer and local port). *)
Notation VsockAddr := (Z * Z)%type.
Notation VsockConnId := (Z * Z * Z)%type.

Definition VSOCK_RX_BUFFER_SIZE : Z := 64 * 1024.
Definition VSOCK_ACCEPT_QUEUE_SIZE : Z := 128.
Definition VSOCK_RX_TMPBUF_SIZE : Z := 0x1000.
Definition EPHEMERAL_PORT_START : Z := 0xc000.
Definition EPHEMERAL_PORT_END : Z := 0xffff.

Inductive ConnectionState : Type := Idle | Listening | Connecting | Connected | Closed.

#[export] Instance ConnectionState_eq_dec : EqDecision ConnectionState.
Proof. solve_decision. Defined.

Inductive VsockDriverEvent : Type :=
| ConnectionRequest (id : VsockConnId)
| Received (id : VsockConnId) (len : Z)
| Disconnected_ (id : VsockConnId)
| Connected_ (id : VsockConnId)
| CreditUpdate (id : VsockConnId)
| Unknown.

(** [Connection]: the receive buffer is the sequence of its bytes. *)
Record Connection : Type := mk_conn {
  c_state : ConnectionState;
  local_addr : VsockAddr;
  peer_addr : option VsockAddr;
  rx : list Z;
  rx_wakers : list Z;
  connect_wakers : list Z;
  rx_closed : bool;
  tx_closed : bool;
  rx_bytes : Z;
  tx_bytes : Z;
  dropped_bytes : Z;
}.

Definition conn_new (local : VsockAddr) (peer : option VsockAddr) (st : ConnectionState) : Connection :=
  mk_conn st local peer [] [] [] false false 0 0 0.

Definition with_state (st : ConnectionState) (c : Connection) : Connection :=
  mk_conn st (local_addr c) (peer_addr c) (rx c) (rx_wakers c) (connect_wakers c) (rx_closed c) (tx_closed c)
    (rx_bytes c) (tx_bytes c) (dropped_bytes c).
Definition with_rx (bs : list Z) (got dropped : Z) (c : Connection) : Connection :=
  mk_conn (c_state c) (local_addr c) (peer_addr c) bs (rx_wakers c) (connect_wakers c) (rx_closed c) (tx_closed c)
    (rx_bytes c + got) (tx_bytes c) (dropped_bytes c + dropped).
Definition with_wakers (rxw cw : list Z) (c : Connection) : Connection :=
  mk_conn (c_state c) (local_addr c) (peer_addr c) (rx c) rxw cw (rx_closed c) (tx_closed c)
    (rx_bytes c) (tx_bytes c) (dropped_bytes c).
Definition with_closed (r t : bool) (c : Connection) : Connection :=
  mk_conn (c_state c) (local_addr c) (peer_addr c) (rx c) (rx_wakers c) (connect_wakers c) r t
    (rx_bytes c) (tx_bytes c) (dropped_bytes c).
Definition with_tx (sent : Z) (c : Connection) : Connection :=
  mk_conn (c_state c) (local_addr c) (peer_addr c) (rx c) (rx_wakers c) (connect_wakers c) (rx_closed c) (tx_closed c)
    (rx_bytes c) (tx_bytes c + sent) (dropped_bytes c).

Definition rx_buffer_used (c : Connection) : Z := Z.of_nat (length (rx c)).
Definition rx_buffer_free (c : Connection) : Z := VSOCK_RX_BUFFER_SIZE - rx_buffer_used c.

(** [push_rx_data], with the number of bytes taken. *)
Definition push_rx_data (bs : list Z) (c : Connection) : Z * Connection :=
  let len := Z.of_nat (length bs) in
  let to_write := Z.min len (rx_buffer_free c) in
  if 0 <? to_write then
    (to_write, with_rx (rx c ++ take (Z.to_nat to_write) bs) to_write (len - to_write) c)
  else (0, with_rx (rx c) 0 len c).

(** [ListenQueue]. *)
Record ListenQueue : Type := mk_queue { accept_queue : list VsockConnId; q_wakers : list Z; q_addr : VsockAddr }.

(** [State] of a socket ([state.rs]); [Busy] is only held inside a call. *)
Inductive State : Type := SIdle | SConnecting | SConnected | SListening.

#[export] Instance State_eq_dec : EqDecision State.
Proof. solve_decision. Defined.

(** [VsockStreamTransport]. *)
Record Transport : Type := mk_transport {
  conn_id : option VsockConnId;
  connection : option Z;
  t_state : State;
}.

(** The device. *)
Inductive DevError : Type := DevAlreadyExists | DevAgain | DevInvalidParam | DevIo | DevOther.

Class VsockDevice (D : Type) : Type := {
  dev_listen : Z -> D -> D;
  dev_connect : VsockConnId -> D -> result DevError () * D;
  dev_send : VsockConnId -> list Z -> D -> result DevError Z * D;
  dev_recv : VsockConnId -> Z -> D -> result DevError (list Z) * D;
  dev_disconnect : VsockConnId -> D -> result DevError () * D;
  dev_guest_cid : D -> Z;
  listening : Z -> VsockConnId;
}.

Definition map_dev_err (e : DevError) : VfsError :=
  match e with
  | DevAlreadyExists => AlreadyExists
  | DevAgain => WouldBlock
  | DevInvalidParam => InvalidInput
  | DevIo => IoError
  | DevOther => BadState
  end.

(** ** State *)

Section vsock.
Context {D : Type} {Dev : VsockDevice D}.

(** [VSOCK_CONN_MANAGER] with the connections that [Arc]s refer to, the static variables of
    [device/vsock.rs], and the sockets. *)
Record Vsock : Type := mk_vsock {
  heap : gmap Z Connection;
  next_conn : Z;
  connections : gmap VsockConnId Z;
  listen_queues : gmap Z ListenQueue;
  next_ephemeral_port : Z;
  poll_ref_count : Z;
  pending_events : list VsockDriverEvent;
  device : option D;
  sockets : gmap Z Transport;
  woken : list Z;
}.

Definition set_heap (m : gmap Z Connection) (s : Vsock) : Vsock :=
  mk_vsock m (next_conn s) (connections s) (listen_queues s) (next_ephemeral_port s) (poll_ref_count s) (pending_events s)
    (device s) (sockets s) (woken s).
Definition set_connections (m : gmap VsockConnId Z) (s : Vsock) : Vsock :=
  mk_vsock (heap s) (next_conn s) m (listen_queues s) (next_ephemeral_port s) (poll_ref_count s) (pending_events s)
    (device s) (sockets s) (woken s).
Definition set_queues (m : gmap Z ListenQueue) (s : Vsock) : Vsock :=
  mk_vsock (heap s) (next_conn s) (connections s) m (next_ephemeral_port s) (poll_ref_count s) (pending_events s)
    (device s) (sockets s) (woken s).
Definition set_port (p : Z) (s : Vsock) : Vsock :=
  mk_vsock (heap s) (next_conn s) (connections s) (listen_queues s) p (poll_ref_count s) (pending_events s)
    (device s) (sockets s) (woken s).
Definition set_ref_count (n : Z) (s : Vsock) : Vsock :=
  mk_vsock (heap s) (next_conn s) (connections s) (listen_queues s) (next_ephemeral_port s) n (pending_events s)
    (device s) (sockets s) (woken s).
Definition set_pending (l : list VsockDriverEvent) (s : Vsock) : Vsock :=
  mk_vsock (heap s) (next_conn s) (connections s) (listen_queues s) (next_ephemeral_port s) (poll_ref_count s) l
    (device s) (sockets s) (woken s).
Definition set_device (d : option D) (s : Vsock) : Vsock :=
  mk_vsock (heap s) (next_conn s) (connections s) (listen_queues s) (next_ephemeral_port s) (poll_ref_count s) (pending_events s)
    d (sockets s) (woken s).
Definition set_sockets (m : gmap Z Transport) (s : Vsock) : Vsock :=
  mk_vsock (heap s) (next_conn s) (connections s) (listen_queues s) (next_ephemeral_port s) (poll_ref_count s) (pending_events s)
    (device s) m (woken s).
Definition add_woken (l : list Z) (s : Vsock) : Vsock :=
  mk_vsock (heap s) (next_conn s) (connections s) (listen_queues s) (next_ephemeral_port s) (poll_ref_count s) (pending_events s)
    (device s) (sockets s) (woken s ++ l).

Local Notation M := (io VfsError Vsock).

Definition update_conn (h : Z) (f : Connection -> Connection) : M () := iset (fun s => set_heap (alter f h (heap s)) s).
Definition get_conn (h : Z) : M Connection := iget (fun s => heap s !! h) ≫= iunwrap.

(** [Arc::new(Mutex::new(..))]. *)
Definition arc_conn (c : Connection) : M Z := fun s =>
  let h := next_conn s in
  (ROk h, mk_vsock (<[h := c]> (heap s)) (h + 1) (connections s) (listen_queues s) (next_ephemeral_port s) (poll_ref_count s)
            (pending_events s) (device s) (sockets s) (woken s)).

(** A call of the device: [NotFound] if there is none. *)
Definition on_device {A} (f : D -> A * D) : M A := fun s =>
  match device s with
  | Some d => let '(a, d') := f d in (ROk a, set_device (Some d') s)
  | None => (RErr NotFound, s)
  end.
Definition dev_result {A} (r : result DevError A) : M A :=
  match r with Ok a => mret a | Err e => throw (map_dev_err e) end.

(** Wakers are taken and woken. *)
Definition wake_rx (h : Z) : M () :=
  c ← get_conn h;
  _ ← update_conn h (with_wakers [] (connect_wakers c));
  iset (add_woken (rx_wakers c)).
Definition wake_connect (h : Z) : M () :=
  c ← get_conn h;
  _ ← update_conn h (with_wakers (rx_wakers c) []);
  iset (add_woken (connect_wakers c)).

(** ** The polling task *)

Definition start_vsock_poll : M () := iset (fun s => set_ref_count (poll_ref_count s + 1) s).
Definition stop_vsock_poll : M () :=
  iset (fun s => if poll_ref_count s =? 0 then s else set_ref_count (poll_ref_count s - 1) s).

(** ** The manager *)

Definition port_free (port : Z) (s : Vsock) : bool :=
  bool_decide (listen_queues s !! port = None) &&
  forallb (fun id : VsockConnId => negb (id.2 =? port)) (map_to_list (connections s)).*1.

Definition next_port (port : Z) : Z := if EPHEMERAL_PORT_END <=? port then EPHEMERAL_PORT_START else port + 1.

Fixpoint allocate_loop (fuel : nat) (start : Z) : M Z :=
  match fuel with
  | O => idiverge
  | S fuel =>
      port ← iget next_ephemeral_port;
      _ ← iset (set_port (next_port port));
      free ← iget (port_free port);
      if (free : bool) then mret port
      else if next_port port =? start then throw AddrInUse
      else allocate_loop fuel start
  end.

(** [allocate_port]; the loop visits each port once. *)
Definition allocate_port : M Z :=
  start ← iget next_ephemeral_port;
  allocate_loop (Z.to_nat (EPHEMERAL_PORT_END - EPHEMERAL_PORT_START + 1)) start.

Definition listen (addr : VsockAddr) : M () :=
  o ← iget (fun s => listen_queues s !! addr.2);
  match o with
  | Some _ => throw AddrInUse
  | None => iset (fun s => set_queues (<[addr.2 := mk_queue [] [] addr]> (listen_queues s)) s)
  end.

Definition unlisten (port : Z) : M () := iset (fun s => set_queues (delete port (listen_queues s)) s).

Definition can_accept (port : Z) (s : Vsock) : bool :=
  match listen_queues s !! port with Some q => negb (bool_decide (accept_queue q = [])) | None => false end.

Definition accept (port : Z) : M (VsockConnId * VsockAddr) :=
  q ← iget (fun s => listen_queues s !! port) ≫= fun o => iresult (ok_or o InvalidInput);
  match accept_queue q with
  | [] => throw WouldBlock
  | id :: rest =>
      _ ← iset (fun s => set_queues (<[port := mk_queue rest (q_wakers q) (q_addr q)]> (listen_queues s)) s);
      h ← iget (fun s => connections s !! id) ≫= fun o => iresult (ok_or o NotFound);
      c ← get_conn h;
      peer ← iresult (ok_or (peer_addr c) NotFound);
      mret (id, peer)
  end.

Definition create_connection (id : VsockConnId) (local : VsockAddr) (peer : option VsockAddr) (st : ConnectionState) : M Z :=
  h ← arc_conn (conn_new local peer st);
  o ← iget (fun s => connections s !! id);
  _ ← match o with Some _ => mret () | None => start_vsock_poll end;
  _ ← iset (fun s => set_connections (<[id := h]> (connections s)) s);
  mret h.

Definition get_connection (id : VsockConnId) : M (option Z) := iget (fun s => connections s !! id).

Definition remove_connection (id : VsockConnId) : M () :=
  o ← get_connection id;
  match o with
  | Some _ => _ ← iset (fun s => set_connections (delete id (connections s)) s); stop_vsock_poll
  | None => mret ()
  end.

(** ** Events *)

Definition on_connection_request (id : VsockConnId) : M () :=
  q ← iget (fun s => listen_queues s !! id.2) ≫= fun o => iresult (ok_or o NotFound);
  o ← get_connection id;
  match o with
  | Some _ => mret ()
  | None =>
      _ ← create_connection id (q_addr q) (Some id.1) Connected;
      if VSOCK_ACCEPT_QUEUE_SIZE <=? Z.of_nat (length (accept_queue q)) then
        _ ← remove_connection id;
        throw ResourceBusy
      else
        _ ← iset (fun s => set_queues (<[id.2 := mk_queue (accept_queue q ++ [id]) [] (q_addr q)]> (listen_queues s)) s);
        iset (add_woken (q_wakers q))
  end.

Definition on_data_received (id : VsockConnId) (bs : list Z) : M () :=
  h ← get_connection id ≫= fun o => iresult (ok_or o NotFound);
  c ← get_conn h;
  let '(written, c') := push_rx_data bs c in
  _ ← update_conn h (fun _ => c');
  if 0 <? written then wake_rx h else mret ().

Definition on_disconnected (id : VsockConnId) : M () :=
  o ← get_connection id;
  match o with
  | Some h => _ ← update_conn h (fun c => with_closed true true (with_state Closed c)); wake_rx h
  | None => mret ()
  end.

Definition on_connected (id : VsockConnId) : M () :=
  o ← get_connection id;
  match o with
  | Some h => _ ← update_conn h (with_state Connected); wake_connect h
  | None => mret ()
  end.

(** Only wakes senders, which do not wait for it. *)
Definition on_credit_update (id : VsockConnId) : M () := mret ().

(** Errors are logged. *)
Definition log_error (m : M ()) : M () := attempt m ≫= fun _ => mret ().

Definition handle_vsock_event (e : VsockDriverEvent) : M () :=
  match e with
  | ConnectionRequest id => log_error (on_connection_request id)
  | Received id len =>
      o ← get_connection id;
      match o with
      | None => mret ()
      | Some h =>
          c ← get_conn h;
          if rx_buffer_free c =? 0 then iset (fun s => set_pending (pending_events s ++ [Received id len]) s)
          else
            r ← on_device (dev_recv id (Z.min (rx_buffer_free c) VSOCK_RX_TMPBUF_SIZE));
            match r with
            | Ok bs => log_error (on_data_received id bs)
            | Err _ => mret ()
            end
      end
  | Disconnected_ id => log_error (on_disconnected id)
  | Connected_ id => log_error (on_connected id)
  | CreditUpdate id => log_error (on_credit_update id)
  | Unknown => mret ()
  end.

(** [poll_vsock_interfaces]: the events that had to wait, then [evs], those the device has. *)
Definition poll_vsock_interfaces (evs : list VsockDriverEvent) : M bool :=
  d ← iget device;
  _ ← iresult (ok_or d NotFound);
  pending ← iget pending_events;
  _ ← iset (set_pending []);
  _ ← iter_list handle_vsock_event pending;
  _ ← iter_list handle_vsock_event evs;
  mret (0 <? Z.of_nat (length evs)).

(** ** Sockets *)

Definition get_socket (sid : Z) : M Transport := iget (fun s => sockets s !! sid) ≫= iunwrap.
Definition set_socket (sid : Z) (t : Transport) : M () := iset (fun s => set_sockets (<[sid := t]> (sockets s)) s).

(** [VsockStreamTransport::get_connection]. *)
Definition socket_conn (t : Transport) : M Z := iresult (ok_or (connection t) NotConnected).

(** [VsockStreamTransport::new]. *)
Definition socket_new (sid : Z) : M () := set_socket sid (mk_transport None None SIdle).

Definition socket_bind (sid : Z) (addr : VsockAddr) : M () :=
  t ← get_socket sid;
  if negb (bool_decide (t_state t = SIdle)) then throw InvalidInput
  else
    port ← (if addr.2 =? 0 then allocate_port else mret addr.2);
    let id := listening port in
    h ← create_connection id (addr.1, port) None Idle;
    set_socket sid (mk_transport (Some id) (Some h) SIdle).

Definition socket_listen (sid : Z) : M () :=
  t ← get_socket sid;
  if negb (bool_decide (t_state t = SIdle)) then throw InvalidInput
  else
    h ← socket_conn t;
    c ← get_conn h;
    _ ← listen (local_addr c);
    _ ← on_device (fun d => ((), dev_listen (local_addr c).2 d));
    _ ← update_conn h (with_state Listening);
    set_socket sid (mk_transport (conn_id t) (connection t) SListening).

(** [accept], giving the new socket the number [new_sid]. *)
Definition socket_accept (sid new_sid : Z) : M VsockAddr :=
  t ← get_socket sid;
  if negb (bool_decide (t_state t = SListening)) then throw InvalidInput
  else
    h ← socket_conn t;
    c ← get_conn h;
    let local_port := (local_addr c).2 in
    ready ← iget (can_accept local_port);
    if negb ready then throw WouldBlock
    else
      '(id, peer) ← accept local_port;
      h' ← get_connection id ≫= fun o => iresult (ok_or o NotFound);
      _ ← set_socket new_sid (mk_transport (Some id) (Some h') SConnected);
      mret peer.

(** [connect] up to the wait. *)
Definition socket_connect (sid : Z) (peer : VsockAddr) : M () :=
  t ← get_socket sid;
  match t_state t with
  | SListening => throw InvalidInput
  | SConnecting => throw InProgress
  | SConnected => throw AlreadyConnected
  | SIdle =>
      local_port ← match connection t with
                   | Some h =>
                       c ← get_conn h;
                       match c_state c with Idle => mret (local_addr c).2 | _ => throw InvalidInput end
                   | None => allocate_port
                   end;
      cid ← on_device (fun d => (dev_guest_cid d, d));
      let id := (peer, local_port) in
      h ← create_connection id (cid, local_port) (Some peer) Connecting;
      _ ← set_socket sid (mk_transport (Some id) (Some h) SIdle);
      r ← on_device (dev_connect id);
      _ ← dev_result r;
      set_socket sid (mk_transport (Some id) (Some h) SConnecting)
  end.

(** The closure that [connect] retries while it waits. *)
Definition connect_poll (sid : Z) : M () :=
  t ← get_socket sid;
  h ← socket_conn t;
  c ← get_conn h;
  match c_state c with
  | Connected => mret ()
  | Connecting => throw WouldBlock
  | _ => throw ConnectionRefused
  end.

(** [vsock_send], with the retries that are left. *)
Fixpoint vsock_send (retries : nat) (id : VsockConnId) (bs : list Z) : M Z :=
  match retries with
  | O => throw (map_dev_err DevAgain)
  | S retries =>
      r ← on_device (dev_send id bs);
      match r with
      | Ok len => mret len
      | Err DevAgain => vsock_send retries id bs
      | Err e => throw (map_dev_err e)
      end
  end.

Definition socket_send (sid : Z) (bs : list Z) : M Z :=
  t ← get_socket sid;
  h ← socket_conn t;
  c ← get_conn h;
  if negb (bool_decide (c_state c = Connected)) || tx_closed c then throw NotConnected
  else
    id ← iresult (ok_or (conn_id t) NotConnected);
    r ← attempt (vsock_send 10 id bs);
    _ ← update_conn h (with_tx (match r with Ok n => n | Err _ => 0 end));
    iresult r.

(** The closure of [recv], into room for [room] bytes. *)
Definition socket_recv (sid room : Z) (peek : bool) : M (list Z) :=
  t ← get_socket sid;
  h ← socket_conn t;
  c ← get_conn h;
  if rx_closed c && (rx_buffer_used c =? 0) then mret []
  else if negb (bool_decide (c_state c = Connected)) && negb (bool_decide (c_state c = Closed)) then throw NotConnected
  else if rx_buffer_used c =? 0 then throw WouldBlock
  else
    let count := Z.to_nat (Z.min room (rx_buffer_used c)) in
    _ ← (if peek then mret () else update_conn h (with_rx (drop count (rx c)) 0 0));
    if (0 <? count)%nat then mret (take count (rx c)) else throw WouldBlock.

Definition socket_shutdown (sid : Z) (read write : bool) : M () :=
  t ← get_socket sid;
  h ← socket_conn t;
  c ← get_conn h;
  _ ← update_conn h (with_closed (rx_closed c || read) (tx_closed c || write));
  _ ← match conn_id t with
      | Some id =>
          match c_state c with
          | Connected => r ← on_device (dev_disconnect id); dev_result r
          | Listening => unlisten id.2
          | _ => mret ()
          end
      | None => mret ()
      end;
  update_conn h (with_state Closed).

(** [Drop]. *)
Definition socket_drop (sid : Z) : M () :=
  t ← get_socket sid;
  _ ← attempt (socket_shutdown sid true true);
  _ ← match conn_id t with Some id => remove_connection id | None => mret () end;
  iset (fun s => set_sockets (delete sid (sockets s)) s).

(** [Pollable::register], for a task that waits for input or output. *)
Definition socket_register (sid task : Z) (inp out : bool) : M () :=
  t ← get_socket sid;
  match connection t with
  | None => mret ()
  | Some h =>
      c ← get_conn h;
      match c_state c with
      | Listening =>
          if inp then
            q ← iget (fun s => listen_queues s !! (local_addr c).2) ≫= iunwrap;
            iset (fun s => set_queues (<[(local_addr c).2 := mk_queue (accept_queue q) (q_wakers q ++ [task]) (q_addr q)]> (listen_queues s)) s)
          else mret ()
      | Connected => if inp then update_conn h (with_wakers (rx_wakers c ++ [task]) (connect_wakers c)) else mret ()
      | Connecting => if out then update_conn h (with_wakers (rx_wakers c) (connect_wakers c ++ [task])) else mret ()
      | _ => mret ()
      end
  end.

(** The manager and the device when nothing has happened. *)
Definition vsock_new (d : D) : Vsock := mk_vsock ∅ 0 ∅ ∅ EPHEMERAL_PORT_START 0 [] (Some d) ∅ [].

End vsock.

Arguments Vsock : clear implicits.
Arguments mk_vsock {D} _ _ _ _ _ _ _ _ _ _.
