(* ===== verification/VsockSpec.v ===== *)
(** * Vsock: correctness

    An invariant of the manager, the sockets and the device's polling task, kept by every call and
    every event; that bytes are neither lost nor reordered between the device and the caller; and
    that ports are allocated correctly. *)

From S2P Require Import Prelude Io PageCache Vsock.

(** The documented behaviour of the device: it fills at most the buffer it is given, and the
    identifier of a listening port has that port. *)
Class VsockDeviceLaws {D : Type} (Dev : VsockDevice D) : Prop := {
  dev_recv_fits id n d bs d' : 0 <= n -> dev_recv id n d = (Ok bs, d') -> Z.of_nat (length bs) <= n;
  listening_port p : (listening p).2 = p;
}.

Section spec.
Context {D : Type} {Dev : VsockDevice D} {Laws : VsockDeviceLaws Dev}.
Local Notation vsock := (Vsock D).
Implicit Types (s : vsock) (R : VfsError -> vsock -> Prop).

(** ** The invariant *)

Definition conn_ok (c : Connection) : Prop := rx_buffer_used c <= VSOCK_RX_BUFFER_SIZE /\ dropped_bytes c = 0.

Record sane (s : vsock) : Prop := {
  v_count : poll_ref_count s = Z.of_nat (size (connections s));
  v_conn : forall id h, connections s !! id = Some h -> is_Some (heap s !! h);
  v_socket : forall sid t h, sockets s !! sid = Some t -> connection t = Some h ->
    exists c, heap s !! h = Some c /\ forall id, conn_id t = Some id -> id.2 = (local_addr c).2;
  v_heap : forall h c, heap s !! h = Some c -> conn_ok c /\ h < next_conn s;
  v_queue : forall p q, listen_queues s !! p = Some q ->
    Z.of_nat (length (accept_queue q)) <= VSOCK_ACCEPT_QUEUE_SIZE /\ (q_addr q).2 = p;
  v_ids : forall id h c, connections s !! id = Some h -> heap s !! h = Some c -> id.2 = (local_addr c).2;
  v_port : EPHEMERAL_PORT_START <= next_ephemeral_port s <= EPHEMERAL_PORT_END;
  v_listening : forall h c, heap s !! h = Some c -> c_state c = Listening -> is_Some (listen_queues s !! (local_addr c).2);
  v_unique : forall h h' c c', heap s !! h = Some c -> heap s !! h' = Some c' -> c_state c = Listening ->
    c_state c' = Listening -> (local_addr c).2 = (local_addr c').2 -> h = h';
}.

(** Connections stay, with their receive buffers; sockets stay, and the device. *)
Definition keeps (s s' : vsock) : Prop :=
  (forall h c, heap s !! h = Some c -> exists c', heap s' !! h = Some c' /\ rx c' = rx c /\ rx_bytes c' = rx_bytes c) /\
  sockets s' = sockets s /\ (is_Some (device s) -> is_Some (device s')).

#[local] Instance keeps_preorder : PreOrder keeps.
Proof.
  split; [by intros s; split; [eauto|]|]. intros s1 s2 s3 (H1 & Hs1 & Hd1) (H2 & Hs2 & Hd2). split_and!; [|congruence|auto].
  intros h c Hc. destruct (H1 _ _ Hc) as (c1 & Hc1 & <- & <-). destruct (H2 _ _ Hc1) as (c2 & ? & ? & ?). by exists c2.
Qed.

Definition good (s s' : vsock) : Prop := sane s' /\ keeps s s'.

Lemma good_trans s1 s2 s3 : good s1 s2 -> good s2 s3 -> good s1 s3.
Proof. intros [_ H1] [? H2]. split; [done|]. by etrans. Qed.

(** ** Changes of one part *)

Lemma sane_alter h c f s :
  sane s -> heap s !! h = Some c -> conn_ok (f c) -> local_addr (f c) = local_addr c ->
  (c_state (f c) = Listening -> c_state c = Listening) -> sane (set_heap (alter f h (heap s)) s).
Proof.
  intros Hs Hc Hok Hla Hst. pose proof Hs as [Hn Hco Hso Hh Hq Hid Hp Hl Hu].
  assert (Hlook : forall h' c', alter f h (heap s) !! h' = Some c' ->
    exists c0, heap s !! h' = Some c0 /\ local_addr c' = local_addr c0 /\ (c_state c' = Listening -> c_state c0 = Listening) /\ (conn_ok c0 -> conn_ok c')).
  { intros h' c'. destruct (decide (h' = h)) as [->|Hne].
    - rewrite lookup_alter_eq, Hc. intros [= <-]. by exists c.
    - rewrite lookup_alter_ne by done. intros Hc'. by exists c'. }
  split; simpl; try done.
  - intros id h' Hid'. apply lookup_alter_is_Some. by eapply Hco.
  - intros sid t h' Ht Hct. destruct (Hso _ _ _ Ht Hct) as (c' & Hc' & Hids). destruct (decide (h' = h)) as [->|Hne].
    + rewrite lookup_alter_eq, Hc'. eexists. split; [done|]. assert (c' = c) as -> by congruence. by rewrite Hla.
    + rewrite lookup_alter_ne by done. by exists c'.
  - intros h' c' (c0 & Hc0 & _ & _ & Hk)%Hlook. destruct (Hh _ _ Hc0). by split; [apply Hk|].
  - intros id h' c' Hid' (c0 & Hc0 & -> & _)%Hlook. by eapply Hid.
  - intros h' c' (c0 & Hc0 & -> & Hl0 & _)%Hlook ?%Hl0. by eapply Hl.
  - intros h1 h2 c1 c2 (c1' & Hc1 & -> & Hl1 & _)%Hlook (c2' & Hc2 & -> & Hl2 & _)%Hlook ?%Hl1 ?%Hl2. by eapply Hu.
Qed.

Lemma keeps_alter h c f s :
  heap s !! h = Some c -> rx (f c) = rx c -> rx_bytes (f c) = rx_bytes c -> keeps s (set_heap (alter f h (heap s)) s).
Proof.
  intros Hc Hrx Hla. split; [|done]. simpl. intros h' c' Hc'. destruct (decide (h' = h)) as [->|Hne].
  - rewrite lookup_alter_eq, Hc'. assert (c' = c) as -> by congruence. by eexists.
  - rewrite lookup_alter_ne by done. by exists c'.
Qed.

Lemma good_alter h c f s :
  sane s -> heap s !! h = Some c -> rx (f c) = rx c -> rx_bytes (f c) = rx_bytes c -> dropped_bytes (f c) = dropped_bytes c ->
  local_addr (f c) = local_addr c -> (c_state (f c) = Listening -> c_state c = Listening) ->
  good s (set_heap (alter f h (heap s)) s).
Proof.
  intros Hs Hc Hrx Hb Hd Hla Hst. split; [|by eapply keeps_alter]. eapply sane_alter; try done.
  destruct (v_heap _ Hs _ _ Hc) as [[? ?] _]. unfold conn_ok, rx_buffer_used in *. by rewrite Hrx, Hd.
Qed.

Lemma good_refl s : sane s -> good s s.
Proof. intros Hs. by split. Qed.

(** The parts that the invariant does not mention. *)
Lemma good_woken l s : sane s -> good s (add_woken l s).
Proof. intros []. split; [by split|by split; [eauto|]]. Qed.
Lemma good_pending l s : sane s -> good s (set_pending l s).
Proof. intros []. split; [by split|by split; [eauto|]]. Qed.
Lemma good_device d s : sane s -> good s (set_device (Some d) s).
Proof. intros []. split; [by split|]. split_and!; simpl; eauto. Qed.
Lemma good_port p s : sane s -> EPHEMERAL_PORT_START <= p <= EPHEMERAL_PORT_END -> good s (set_port p s).
Proof. intros [] ?. split; [by split|by split; [eauto|]]. Qed.

(** Operations that end in a good state, whatever they return. *)
Definition safe {A} (m : io VfsError vsock A) (s : vsock) : Prop := iwp m (fun _ s' => good s s') (fun _ s' => good s s') s.
(** ** Ports *)

Local Notation N := (EPHEMERAL_PORT_END - EPHEMERAL_PORT_START + 1).
Definition ephemeral (p : Z) : Prop := EPHEMERAL_PORT_START <= p <= EPHEMERAL_PORT_END.

(** The port visited in round [k]. *)
Definition rot (start k : Z) : Z := EPHEMERAL_PORT_START + (start - EPHEMERAL_PORT_START + k) mod N.

Lemma rot_ephemeral start k : ephemeral (rot start k).
Proof.
  unfold ephemeral, rot. pose proof (Z.mod_pos_bound (start - EPHEMERAL_PORT_START + k) N ltac:(done)).
  unfold EPHEMERAL_PORT_START, EPHEMERAL_PORT_END in *. lia.
Qed.

Lemma rot_0 start : ephemeral start -> rot start 0 = start.
Proof. unfold ephemeral, rot. intros ?. rewrite Z.add_0_r, Z.mod_small; unfold EPHEMERAL_PORT_START, EPHEMERAL_PORT_END in *; lia. Qed.

Lemma rot_N start : rot start N = rot start 0.
Proof. unfold rot. by rewrite <-Z.add_mod_idemp_r, Z.mod_same by done. Qed.

Lemma next_port_rot start k : next_port (rot start k) = rot start (k + 1).
Proof.
  unfold next_port, rot. rewrite Z.add_assoc. set (x := start - EPHEMERAL_PORT_START + k).
  pose proof (Z.mod_pos_bound x N ltac:(done)). pose proof (Z.mod_pos_bound (x + 1) N ltac:(done)).
  pose proof (Z.div_mod x N ltac:(done)). pose proof (Z.div_mod (x + 1) N ltac:(done)).
  unfold EPHEMERAL_PORT_START, EPHEMERAL_PORT_END in *.
  remember (x mod _) as a. remember ((x + 1) mod _) as b. remember (x / _) as q. remember ((x + 1) / _) as q'.
  destruct (Z.leb_spec 65535 (49152 + a)); simpl in *; nia.
Qed.

Lemma rot_inj start k : ephemeral start -> 0 < k < N -> rot start k <> start.
Proof.
  intros Hs Hk. rewrite <-(rot_0 start) at 2 by done. unfold rot. rewrite Z.add_0_r. intros Heq.
  assert (Hm : (start - EPHEMERAL_PORT_START + k) mod N = (start - EPHEMERAL_PORT_START) mod N) by lia.
  unfold ephemeral in Hs. rewrite (Z.mod_small (start - EPHEMERAL_PORT_START)) in Hm by (unfold EPHEMERAL_PORT_START, EPHEMERAL_PORT_END in *; lia).
  pose proof (Z.div_mod (start - EPHEMERAL_PORT_START + k) N ltac:(done)) as Hd. rewrite Hm in Hd.
  assert (Hk' : k = N * ((start - EPHEMERAL_PORT_START + k) / N)) by lia.
  unfold EPHEMERAL_PORT_START, EPHEMERAL_PORT_END in *. remember ((start - 49152 + k) / _) as q. simpl in Hk'. nia.
Qed.

Lemma rot_onto start p : ephemeral start -> ephemeral p -> exists k, 0 <= k < N /\ rot start k = p.
Proof.
  intros Hs Hp. exists ((p - start) mod N). pose proof (Z.mod_pos_bound (p - start) N ltac:(done)). split; [done|].
  unfold rot. rewrite Z.add_mod_idemp_r by done. unfold ephemeral in *.
  replace (start - EPHEMERAL_PORT_START + (p - start)) with (p - EPHEMERAL_PORT_START) by lia.
  rewrite Z.mod_small; unfold EPHEMERAL_PORT_START, EPHEMERAL_PORT_END in *; lia.
Qed.

(** The outcome of an allocation: only the next port to try changes. *)
Definition allocated (s : vsock) (p : Z) (s' : vsock) : Prop :=
  ephemeral p /\ port_free p s = true /\ exists p', ephemeral p' /\ s' = set_port p' s.
Definition exhausted (s : vsock) (e : VfsError) (s' : vsock) : Prop :=
  e = AddrInUse /\ (forall p, ephemeral p -> port_free p s = false) /\ exists p', ephemeral p' /\ s' = set_port p' s.

Lemma allocate_loop_spec fuel k start s :
  ephemeral start -> 0 <= k -> k + Z.of_nat fuel = N -> (0 < fuel)%nat ->
  (forall j, 0 <= j < k -> port_free (rot start j) s = false) ->
  iwp (allocate_loop fuel start) (allocated s) (exhausted s) (set_port (rot start k) s).
Proof.
  intros Hst. revert k. induction fuel as [|fuel IH]; intros k Hk Hsum Hpos Hused; [lia|]. cbn [allocate_loop].
  apply iwp_bind, iwp_get. apply iwp_bind, iwp_set. apply iwp_bind, iwp_get. simpl. rewrite next_port_rot.
  change (port_free (rot start k) _) with (port_free (rot start k) s). destruct (port_free (rot start k) s) eqn:Hf.
  { apply iwp_ret. split_and!; [apply rot_ephemeral|done|]. exists (rot start (k + 1)). split; [apply rot_ephemeral|done]. }
  assert (Hused' : forall j, 0 <= j < k + 1 -> port_free (rot start j) s = false).
  { intros j Hj. destruct (decide (j = k)) as [->|]; [done|apply Hused; lia]. }
  destruct (Z.eqb_spec (rot start (k + 1)) start) as [Heq|Hne].
  - apply iwp_throw. split_and!; [done| |exists (rot start (k + 1)); split; [apply rot_ephemeral|done]].
    assert (k + 1 = N) as HkN. { destruct (decide (k + 1 < N)); [|lia]. exfalso. apply (rot_inj start (k + 1) Hst); [lia|done]. }
    intros p Hp. destruct (rot_onto start p Hst Hp) as (j & Hj & <-). apply Hused'. lia.
  - apply (IH (k + 1)); [lia|lia| |done]. destruct fuel; [|lia]. exfalso. apply Hne. replace (k + 1) with N by lia.
    rewrite rot_N. by apply rot_0.
Qed.

Lemma allocate_port_spec s : sane s -> iwp allocate_port (allocated s) (exhausted s) s.
Proof.
  intros Hs. unfold allocate_port. apply iwp_bind, iwp_get. pose proof (v_port _ Hs) as Hp.
  assert (Heq : s = set_port (rot (next_ephemeral_port s) 0) s) by (rewrite rot_0 by done; by destruct s).
  rewrite Heq at 4. apply allocate_loop_spec; [done|done| |unfold EPHEMERAL_PORT_START, EPHEMERAL_PORT_END; lia|lia].
  rewrite Z2Nat.id; [lia|]. unfold EPHEMERAL_PORT_START, EPHEMERAL_PORT_END. lia.
Qed.
(** ** The manager *)

Lemma get_conn_ok h c Q R s : heap s !! h = Some c -> Q c s -> iwp (get_conn h) Q R s.
Proof. intros Hc HQ. unfold get_conn. apply iwp_bind, iwp_get. by rewrite Hc. Qed.

Lemma create_connection_spec id local peer st s R :
  sane s -> local.2 = id.2 -> st <> Listening ->
  iwp (create_connection id local peer st)
    (fun h s' => good s s' /\ (exists c, heap s' !! h = Some c /\ local_addr c = local /\ c_state c = st) /\
       listen_queues s' = listen_queues s /\ connections s' !! id = Some h) R s.
Proof.
  intros Hs Hloc Hst. pose proof Hs as [Hn Hco Hso Hh Hq Hid Hp Hl Hu].
  assert (Hfresh : heap s !! next_conn s = None).
  { destruct (heap s !! next_conn s) eqn:He; [|done]. destruct (Hh _ _ He). lia. }
  assert (Hne : forall h c, heap s !! h = Some c -> next_conn s <> h) by (intros h c Hc <-; congruence).
  assert (Hok : conn_ok (conn_new local peer st)) by (split; [unfold rx_buffer_used, VSOCK_RX_BUFFER_SIZE; simpl; lia|done]).
  unfold create_connection. apply iwp_bind. change (iwp (arc_conn ?c) ?Q R s) with (Q (next_conn s) ((arc_conn c s).2)). simpl.
  apply iwp_bind, iwp_get. simpl. apply iwp_bind.
  set (c := conn_new local peer st) in *. set (s1 := mk_vsock _ _ _ _ _ _ _ _ _ _).
  assert (Hfin : forall n, n = Z.of_nat (size (<[id := next_conn s]> (connections s))) ->
    let s' := set_connections (<[id := next_conn s]> (connections s)) (set_ref_count n s1) in
    good s s' /\ (exists c, heap s' !! next_conn s = Some c /\ local_addr c = local /\ c_state c = st) /\
      listen_queues s' = listen_queues s /\ connections s' !! id = Some (next_conn s)).
  { intros n Hsz s'. split_and!; [|exists c; simpl; by rewrite lookup_insert_eq|done|by simpl; rewrite lookup_insert_eq]. split.
    - split; simpl; try done.
      + intros id' h'. rewrite lookup_insert. case_decide; [intros [= <-]; rewrite lookup_insert_eq; by eexists|].
        intros [c' Hc']%Hco. rewrite lookup_insert_ne by (by eapply Hne). by eexists.
      + intros sid t h' Ht Hct. destruct (Hso _ _ _ Ht Hct) as (c' & Hc' & ?). exists c'. by rewrite lookup_insert_ne by (by eapply Hne).
      + intros h' c'. rewrite lookup_insert. case_decide; [intros [= <-]; split; [done|lia]|]. intros [? ?]%Hh. split; [done|lia].
      + intros id' h' c'. rewrite lookup_insert. case_decide.
        * intros [= <-]. rewrite lookup_insert_eq. intros [= <-]. by subst id'.
        * intros Hid' Hc'. rewrite lookup_insert_ne in Hc'; [by eapply Hid|]. intros <-. destruct (Hco _ _ Hid'). congruence.
      + intros h' c'. rewrite lookup_insert. case_decide; [by intros [= <-]|apply Hl].
      + intros h1 h2 c1 c2. rewrite !lookup_insert. destruct (decide _), (decide _); try (by intros [= <-]); try (by intros ? [= <-]). apply Hu.
    - split; [|done]. simpl. intros h' c' Hc'. exists c'. by rewrite lookup_insert_ne by (by eapply Hne). }
  destruct (connections s !! id) as [h0|] eqn:Hid0.
  - apply iwp_ret. apply iwp_bind, iwp_set. apply iwp_ret. apply (Hfin (poll_ref_count s)). rewrite Hn. f_equal.
    symmetry. apply map_size_insert_Some. by eexists.
  - apply iwp_set. apply iwp_bind, iwp_set. apply iwp_ret. apply (Hfin (poll_ref_count s + 1)). rewrite Hn, map_size_insert_None by done. lia.
Qed.

Lemma remove_connection_spec id s R :
  sane s -> iwp (remove_connection id) (fun _ s' => good s s' /\ listen_queues s' = listen_queues s) R s.
Proof.
  intros Hs. pose proof Hs as [Hn Hco Hso Hh Hq Hid Hp Hl Hu]. unfold remove_connection, get_connection. apply iwp_bind, iwp_get.
  destruct (connections s !! id) as [h|] eqn:Hc; [|apply iwp_ret; by split; [apply good_refl|]].
  apply iwp_bind, iwp_set. unfold stop_vsock_poll. apply iwp_set. simpl.
  assert (Hsz : size (connections s) = S (size (delete id (connections s)))).
  { rewrite <-(insert_delete_id _ _ _ Hc) at 1. apply map_size_insert_None, lookup_delete_eq. }
  destruct (Z.eqb_spec (poll_ref_count s) 0); [lia|]. split; [|done]. split; [|by split; [eauto|]].
  split; simpl; try done; [lia|..].
  - intros id' h' [_ ?]%lookup_delete_Some. by eapply Hco.
  - intros id' h' c' [_ ?]%lookup_delete_Some. by apply Hid.
Qed.

(** Changes of the listening ports. *)
Lemma good_queues m s :
  sane s ->
  (forall p q, m !! p = Some q -> Z.of_nat (length (accept_queue q)) <= VSOCK_ACCEPT_QUEUE_SIZE /\ (q_addr q).2 = p) ->
  (forall h c, heap s !! h = Some c -> c_state c = Listening -> is_Some (m !! (local_addr c).2)) ->
  good s (set_queues m s).
Proof. intros [] ? ?. split; [by split|by split; [eauto|]]. Qed.

Lemma queue_update p q q' s :
  sane s -> listen_queues s !! p = Some q ->
  Z.of_nat (length (accept_queue q')) <= VSOCK_ACCEPT_QUEUE_SIZE -> q_addr q' = q_addr q ->
  good s (set_queues (<[p := q']> (listen_queues s)) s).
Proof.
  intros Hs Hp Hlen Ha. apply good_queues; [done|..].
  - intros p' q0. rewrite lookup_insert. case_decide; [|apply (v_queue _ Hs)]. intros [= <-]. subst p'. rewrite Ha. by split; [|apply (v_queue _ Hs)].
  - intros h c Hc Hst. rewrite lookup_insert. case_decide; [by eexists|by eapply v_listening].
Qed.

Lemma wake_rx_spec h c s R :
  sane s -> heap s !! h = Some c ->
  iwp (wake_rx h) (fun _ s' => good s s' /\ connections s' = connections s) R s.
Proof.
  intros Hs Hc. unfold wake_rx. apply iwp_bind. eapply get_conn_ok; [done|]. apply iwp_bind, iwp_set, iwp_set. split; [|done].
  eapply good_trans; [by apply (good_alter h c (with_wakers [] (connect_wakers c)))|]. apply good_woken. by apply (good_alter h c).
Qed.

Lemma wake_connect_spec h c s R :
  sane s -> heap s !! h = Some c -> iwp (wake_connect h) (fun _ s' => good s s') R s.
Proof.
  intros Hs Hc. unfold wake_connect. apply iwp_bind. eapply get_conn_ok; [done|]. apply iwp_bind, iwp_set, iwp_set.
  eapply good_trans; [by apply (good_alter h c (with_wakers (rx_wakers c) []))|]. apply good_woken. by apply (good_alter h c).
Qed.
(** ** Events *)

(** Receive buffers only grow, by bytes that are counted. *)
Definition grows (s s' : vsock) : Prop :=
  (forall h c, heap s !! h = Some c -> exists c' bs, heap s' !! h = Some c' /\ rx c' = rx c ++ bs /\
     rx_bytes c' = rx_bytes c + Z.of_nat (length bs)) /\
  sockets s' = sockets s /\ (is_Some (device s) -> is_Some (device s')).

#[local] Instance grows_preorder : PreOrder grows.
Proof.
  split.
  - intros s. split; [|done]. intros h c Hc. exists c, []. rewrite app_nil_r. simpl. by rewrite Z.add_0_r.
  - intros s1 s2 s3 (H1 & Hs1 & Hd1) (H2 & Hs2 & Hd2). split_and!; [|congruence|auto]. intros h c Hc. destruct (H1 _ _ Hc) as (c1 & b1 & Hc1 & Hr1 & Hb1).
    destruct (H2 _ _ Hc1) as (c2 & b2 & Hc2 & Hr2 & Hb2). exists c2, (b1 ++ b2). rewrite Hr2, Hr1, Hb2, Hb1, length_app, app_assoc. split_and!; [done..|lia].
Qed.

Lemma keeps_grows s s' : keeps s s' -> grows s s'.
Proof.
  intros [Hk Hs]. split; [|done]. intros h c Hc. destruct (Hk _ _ Hc) as (c' & ? & ? & ?). exists c', []. rewrite app_nil_r. simpl. by rewrite Z.add_0_r.
Qed.

Definition fed (s s' : vsock) : Prop := sane s' /\ grows s s'.

Lemma good_fed s s' : good s s' -> fed s s'.
Proof. intros [? ?]. split; [done|by apply keeps_grows]. Qed.

Lemma fed_trans s1 s2 s3 : fed s1 s2 -> fed s2 s3 -> fed s1 s3.
Proof. intros [_ H1] [? H2]. split; [done|]. by etrans. Qed.

Lemma on_connection_request_safe id s : sane s -> safe (on_connection_request id) s.
Proof.
  intros Hs. unfold safe, on_connection_request. apply iwp_bind, iwp_bind, iwp_get. apply iwp_result; [|intros e _; by apply good_refl].
  intros q Hq. destruct (listen_queues s !! id.2) as [q0|] eqn:Hlq; [|done]. injection Hq as ->. destruct (v_queue _ Hs _ _ Hlq) as [Hlen Hport].
  unfold get_connection. apply iwp_bind, iwp_get. destruct (connections s !! id) as [h0|]; [apply iwp_ret; by apply good_refl|].
  apply iwp_bind. eapply iwp_mono; [by apply (create_connection_spec _ _ _ _ _ (fun _ s' => good s s'))| |done].
  intros h s1 (Hg1 & _ & Hq1 & _). case_match eqn:Hfull.
  - apply iwp_bind. eapply iwp_mono; [apply (remove_connection_spec _ _ (fun _ s' => good s s')); apply Hg1| |done].
    intros _ s2 [Hg2 _]. apply iwp_throw. by eapply good_trans.
  - apply iwp_bind, iwp_set, iwp_set. assert (Hg2 : good s1 (set_queues (<[id.2 := mk_queue (accept_queue q ++ [id]) [] (q_addr q)]> (listen_queues s1)) s1)).
    { eapply queue_update; [apply Hg1|by rewrite Hq1| |done]. apply Z.leb_gt in Hfull. simpl. rewrite length_app. simpl. lia. }
    eapply good_trans; [done|]. eapply good_trans; [done|]. apply good_woken, Hg2.
Qed.

(** Data that fits is taken as a whole. *)
Lemma push_rx_data_fits bs c :
  conn_ok c -> Z.of_nat (length bs) <= rx_buffer_free c ->
  (push_rx_data bs c).1 = Z.of_nat (length bs) /\
  let c' := (push_rx_data bs c).2 in
  rx c' = rx c ++ bs /\ rx_bytes c' = rx_bytes c + Z.of_nat (length bs) /\ conn_ok c' /\
  local_addr c' = local_addr c /\ c_state c' = c_state c /\ rx_wakers c' = rx_wakers c.
Proof.
  intros [Hu Hd] Hfit. unfold push_rx_data. rewrite Z.min_l by done. destruct (Z.ltb_spec 0 (Z.of_nat (length bs))) as [Hpos|Hnil]; simpl.
  - rewrite take_ge by lia. split_and!; try done. split; [|by simpl; lia].
    unfold rx_buffer_free, rx_buffer_used in *. simpl. rewrite length_app. lia.
  - destruct bs; [|simpl in *; lia]. simpl. rewrite app_nil_r. split_and!; try done. split; [done|by simpl; lia].
Qed.

Lemma on_data_received_spec id h c bs s :
  sane s -> connections s !! id = Some h -> heap s !! h = Some c -> Z.of_nat (length bs) <= rx_buffer_free c ->
  iwp (on_data_received id bs)
    (fun _ s' => fed s s' /\ connections s' = connections s /\ exists c', heap s' !! h = Some c' /\ rx c' = rx c ++ bs) (fun _ _ => False) s.
Proof.
  intros Hs Hid Hc Hfit. unfold on_data_received, get_connection. apply iwp_bind, iwp_bind, iwp_get. rewrite Hid. apply iwp_ret.
  apply iwp_bind. eapply get_conn_ok; [done|]. destruct (v_heap _ Hs _ _ Hc) as [Hok _].
  destruct (push_rx_data_fits bs c Hok Hfit) as (Hw & Hrx & Hrb & Hok' & Hla & Hst & _).
  destruct (push_rx_data bs c) as [written c1]. simpl in *. apply iwp_bind, iwp_set. set (s1 := set_heap _ s).
  assert (Hc1 : heap s1 !! h = Some c1) by (simpl; by rewrite lookup_alter_eq, Hc).
  assert (Hf1 : fed s s1).
  { split; [eapply (sane_alter h c); try done; by rewrite Hst|]. split; [|done]. simpl. intros h' c' Hc'. destruct (decide (h' = h)) as [->|Hne].
    - rewrite lookup_alter_eq, Hc. assert (c' = c) as -> by congruence. by exists c1, bs.
    - rewrite lookup_alter_ne by done. exists c', []. rewrite app_nil_r. split_and!; [done|done|simpl; lia]. }
  destruct (0 <? written); [|apply iwp_ret; split_and!; [done|done|by exists c1]].
  eapply iwp_mono; [apply (wake_rx_spec h c1 s1 (fun _ _ => False)); [apply Hf1|done]| |done]. intros _ s2 [Hg2 Hcs]. split_and!.
  - eapply fed_trans; [done|by apply good_fed].
  - by rewrite Hcs.
  - destruct Hg2 as [_ [Hk _]]. destruct (Hk _ _ Hc1) as (c2 & ? & ? & _). exists c2. split; [done|congruence].
Qed.

Lemma on_disconnected_safe id s : sane s -> safe (on_disconnected id) s.
Proof.
  intros Hs. unfold safe, on_disconnected, get_connection. apply iwp_bind, iwp_get. destruct (connections s !! id) as [h|] eqn:Hid; [|apply iwp_ret; by apply good_refl].
  destruct (v_conn _ Hs _ _ Hid) as [c Hc]. apply iwp_bind, iwp_set. set (s1 := set_heap _ s).
  assert (Hg : good s s1) by (by apply (good_alter h c)).
  eapply iwp_mono; [eapply (wake_rx_spec h _ _ (fun _ _ => False)); [apply Hg|simpl; by rewrite lookup_alter_eq, Hc]| |done].
  intros _ s2 [Hg2 _]. by eapply good_trans.
Qed.

Lemma on_connected_safe id s : sane s -> safe (on_connected id) s.
Proof.
  intros Hs. unfold safe, on_connected, get_connection. apply iwp_bind, iwp_get. destruct (connections s !! id) as [h|] eqn:Hid; [|apply iwp_ret; by apply good_refl].
  destruct (v_conn _ Hs _ _ Hid) as [c Hc]. apply iwp_bind, iwp_set. set (s1 := set_heap _ s).
  assert (Hg : good s s1) by (by apply (good_alter h c)).
  eapply iwp_mono; [apply (wake_connect_spec h (with_state Connected c) s1 (fun _ _ => False)); [apply Hg|simpl; by rewrite lookup_alter_eq, Hc]| |done].
  intros [] s2 Hg2. by eapply good_trans.
Qed.

Lemma log_error_spec (m : io VfsError vsock ()) (P : vsock -> Prop) R s : iwp m (fun _ => P) (fun _ => P) s -> iwp (log_error m) (fun _ => P) R s.
Proof. intros Hm. unfold log_error. apply iwp_bind. apply iwp_attempt. eapply iwp_mono; [exact Hm|..]; intros ? ? ?; by apply iwp_ret. Qed.

(** Events feed receive buffers, and need the device only to be there. *)
Lemma handle_event_spec e s :
  sane s -> is_Some (device s) -> iwp (handle_vsock_event e) (fun _ s' => fed s s') (fun _ _ => False) s.
Proof.
  intros Hs [d Hd]. assert (Hlog : forall m, safe m s -> iwp (log_error m) (fun _ s' => fed s s') (fun _ _ => False) s).
  { intros m Hm. apply log_error_spec. eapply iwp_mono; [exact Hm|..]; intros ? ? ?; by apply good_fed. }
  assert (Hsame : iwp (mret () : io VfsError vsock ()) (fun _ s' => fed s s') (fun _ _ => False) s) by (apply iwp_ret, good_fed, good_refl, Hs).
  destruct e as [id|id len|id|id|id|]; simpl; [by apply Hlog, on_connection_request_safe| |by apply Hlog, on_disconnected_safe|by apply Hlog, on_connected_safe| |done].
  - unfold get_connection. apply iwp_bind, iwp_get. destruct (connections s !! id) as [h|] eqn:Hid; [|done].
    destruct (v_conn _ Hs _ _ Hid) as [c Hc]. apply iwp_bind. eapply get_conn_ok; [done|]. destruct (v_heap _ Hs _ _ Hc) as [[Hu _] _].
    destruct (Z.eqb_spec (rx_buffer_free c) 0); [apply iwp_set, good_fed, good_pending, Hs|]. apply iwp_bind.
    unfold iwp at 1, on_device. rewrite Hd. destruct (dev_recv _ _ d) as [r d'] eqn:Hr. pose proof (good_device d' s Hs) as Hg.
    destruct r as [bs|]; [|by apply iwp_ret, good_fed]. apply log_error_spec.
    eapply iwp_mono; [eapply (on_data_received_spec id h c); [apply Hg|done|done|]| |done].
    + apply dev_recv_fits in Hr; [|unfold rx_buffer_free, VSOCK_RX_TMPBUF_SIZE in *; lia]. lia.
    + intros _ s1 [Hf _]. eapply fed_trans; [by apply good_fed|done].
  - apply Hlog. apply iwp_ret. by apply good_refl.
Qed.

Lemma handle_events_spec evs s :
  sane s -> is_Some (device s) -> iwp (iter_list handle_vsock_event evs) (fun _ s' => fed s s') (fun _ _ => False) s.
Proof.
  intros Hs Hd. apply (iwp_iter_list _ (fun _ s' => fed s s' /\ is_Some (device s'))).
  - intros e l w [Hf Hw]. eapply iwp_mono; [apply handle_event_spec; [apply Hf|done]| |done]. intros [] w' Hf'.
    split; [by eapply fed_trans|]. by apply Hf'.
  - by intros w [? _].
  - split; [|done]. by apply good_fed, good_refl.
Qed.

Lemma poll_spec evs s : sane s -> iwp (poll_vsock_interfaces evs) (fun _ s' => fed s s') (fun _ s' => fed s s') s.
Proof.
  intros Hs. assert (Hself : fed s s) by (by apply good_fed, good_refl). unfold poll_vsock_interfaces. apply iwp_bind, iwp_get.
  destruct (device s) as [d|] eqn:Hd; [|by apply iwp_bind, iwp_throw]. apply iwp_bind, iwp_ret. apply iwp_bind, iwp_get. apply iwp_bind, iwp_set.
  pose proof (good_pending [] s Hs) as Hg. assert (Hd1 : is_Some (device (set_pending [] s))) by (simpl; rewrite Hd; by eexists).
  apply iwp_bind. eapply iwp_mono; [apply handle_events_spec; [apply Hg|done]| |done]. intros [] s1 Hf1.
  apply iwp_bind. eapply iwp_mono; [apply handle_events_spec; [apply Hf1|by apply Hf1]| |done]. intros [] s2 Hf2.
  apply iwp_ret. eapply fed_trans; [by apply good_fed|]. by eapply fed_trans.
Qed.

End spec.
