(* ===== verification/VsockHistory.v ===== *)
(** * Vsock: sockets and histories

    The calls of sockets keep the invariant of [VsockSpec]; the theorems for all histories of calls
    and events; and what goes wrong.

    The second part has a simulated device, witnesses and limits. *)

From S2P Require Import Prelude Locks Io PageCache Vsock VsockSpec.

Section sockets.
Context {D : Type} {Dev : VsockDevice D} {Laws : VsockDeviceLaws Dev}.
Local Notation vsock := (Vsock D).
Implicit Types (s : vsock).

(** Receive buffers stay. *)
Definition steady (s s' : vsock) : Prop :=
  sane s' /\ forall h c, heap s !! h = Some c -> exists c', heap s' !! h = Some c' /\ rx c' = rx c /\ rx_bytes c' = rx_bytes c.

Lemma steady_refl s : sane s -> steady s s.
Proof. intros Hs. split; [done|]. eauto. Qed.

Lemma steady_trans s1 s2 s3 : steady s1 s2 -> steady s2 s3 -> steady s1 s3.
Proof.
  intros [_ H1] [? H2]. split; [done|]. intros h c Hc. destruct (H1 _ _ Hc) as (c1 & Hc1 & <- & <-). by apply H2.
Qed.

Lemma good_steady s s' : good s s' -> steady s s'.
Proof. intros [? [? _]]. by split. Qed.

Lemma good_then s1 s2 s3 : good s1 s2 -> steady s2 s3 -> steady s1 s3.
Proof. intros ?%good_steady. by apply steady_trans. Qed.

Definition calm {A} (m : io VfsError vsock A) (s : vsock) : Prop := iwp m (fun _ s' => steady s s') (fun _ s' => steady s s') s.

(** A socket whose connection exists, at the port of its identifier. *)
Definition socket_ok (t : Transport) (s : vsock) : Prop :=
  forall h, connection t = Some h -> exists c, heap s !! h = Some c /\ forall id, conn_id t = Some id -> id.2 = (local_addr c).2.

Lemma steady_socket sid t s : sane s -> socket_ok t s -> steady s (set_sockets (<[sid := t]> (sockets s)) s).
Proof.
  intros [] Ht. split; [|eauto]. split; simpl; try done. intros sid' t' h'. rewrite lookup_insert. case_decide; [|by eauto].
  intros [= <-]. apply Ht.
Qed.

Lemma get_socket_ok sid t Q R s : sockets s !! sid = Some t -> Q t s -> iwp (get_socket sid) Q R s.
Proof. intros Ht HQ. unfold get_socket. apply iwp_bind, iwp_get. by rewrite Ht. Qed.

(** The connection of a socket, if there is one. *)
Lemma socket_conn_ok sid t Q (R : VfsError -> vsock -> Prop) s :
  sane s -> sockets s !! sid = Some t -> R NotConnected s ->
  (forall h c, connection t = Some h -> heap s !! h = Some c -> (forall id, conn_id t = Some id -> id.2 = (local_addr c).2) -> Q h s) ->
  iwp (socket_conn t) Q R s.
Proof.
  intros Hs Ht HR HQ. unfold socket_conn. destruct (connection t) as [h|] eqn:Hc; [|by apply iwp_throw].
  apply iwp_ret. destruct (v_socket _ Hs _ _ _ Ht Hc) as (c & Hh & Hid). by eapply HQ.
Qed.

Lemma on_device_ok {A} (f : D -> A * D) (Q : A -> vsock -> Prop) R s :
  (forall a d, Q a (set_device (Some d) s)) -> R NotFound s -> iwp (on_device f) Q R s.
Proof. intros HQ HR. unfold iwp, on_device. destruct (device s) as [d|]; [|done]. by destruct (f d) as [a d']. Qed.

Lemma socket_new_calm sid s : sane s -> calm (socket_new sid) s.
Proof. intros Hs. apply iwp_set. apply steady_socket; [done|]. by intros h. Qed.

(** The port of a new connection. *)
Lemma allocate_ok (Q : Z -> vsock -> Prop) R s :
  sane s -> (forall p s', good s s' -> heap s' = heap s -> sockets s' = sockets s -> Q p s') -> (forall s', good s s' -> R AddrInUse s') ->
  iwp allocate_port Q R s.
Proof.
  intros Hs HQ HR. eapply iwp_mono; [by apply allocate_port_spec|..].
  - intros p s' (_ & _ & p' & Hp' & ->). by apply HQ; [apply good_port|..].
  - intros e s' (-> & _ & p' & Hp' & ->). by apply HR, good_port.
Qed.

Lemma socket_bind_calm sid addr t s : sane s -> sockets s !! sid = Some t -> calm (socket_bind sid addr) s.
Proof.
  intros Hs Ht. unfold calm, socket_bind. apply iwp_bind. eapply get_socket_ok; [done|].
  case_bool_decide; simpl; [|apply iwp_throw; by apply steady_refl].
  assert (Hrest : forall port s1, good s s1 ->
    iwp (let id := listening port in h ← create_connection id (addr.1, port) None Idle; set_socket sid (mk_transport (Some id) (Some h) SIdle))
      (fun _ s' => steady s s') (fun _ s' => steady s s') s1).
  { intros port s1 Hg. simpl. apply iwp_bind.
    eapply iwp_mono; [apply (create_connection_spec _ _ _ _ _ (fun _ _ => False)); [apply Hg|by rewrite listening_port|done]| |done].
    intros h s2 (Hg2 & (c & Hc & Hl & _) & _ & _). apply iwp_set. eapply good_then; [done|]. eapply good_then; [done|].
    apply steady_socket; [apply Hg2|]. intros h' [= <-]. exists c. split; [done|]. intros id [= <-]. by rewrite listening_port, Hl. }
  apply iwp_bind. destruct (addr.2 =? 0).
  - apply allocate_ok; [done| |by intros s' ?%good_steady]. intros p s1 Hg _ _. by apply Hrest.
  - apply iwp_ret. apply Hrest. by apply good_refl.
Qed.

(** Listening at a port that nobody listens at. *)
Lemma steady_listen h c q s :
  sane s -> heap s !! h = Some c -> listen_queues s !! (local_addr c).2 = None -> accept_queue q = [] -> q_addr q = local_addr c ->
  let s1 := set_queues (<[(local_addr c).2 := q]> (listen_queues s)) s in
  good s s1 /\ sane (set_heap (alter (with_state Listening) h (heap s1)) s1).
Proof.
  intros Hs Hc Hn Hq Ha s1. assert (Hg : good s s1).
  { apply good_queues; [done|..].
    - intros p q'. rewrite lookup_insert. case_decide; [|apply (v_queue _ Hs)]. intros [= <-]. subst p. rewrite Hq, Ha. simpl. unfold VSOCK_ACCEPT_QUEUE_SIZE. split; [lia|done].
    - intros h' c' Hc' Hst. rewrite lookup_insert. case_decide; [by eexists|by eapply v_listening]. }
  split; [done|]. pose proof (proj1 Hg) as [Hn' Hco Hso Hh Hqs Hid Hp Hl Hu].
  assert (Hnone : forall h' c', heap s !! h' = Some c' -> c_state c' = Listening -> (local_addr c').2 <> (local_addr c).2).
  { intros h' c' Hc' Hst Heq. destruct (v_listening _ Hs _ _ Hc' Hst) as [q' Hq']. congruence. }
  assert (Hlook : forall h' c', alter (with_state Listening) h (heap s) !! h' = Some c' ->
    (h' = h /\ c' = with_state Listening c) \/ (h' <> h /\ heap s !! h' = Some c')).
  { intros h' c'. destruct (decide (h' = h)) as [->|Hne]; [rewrite lookup_alter_eq, Hc; intros [= <-]; by left|].
    rewrite lookup_alter_ne by done. by right. }
  split; simpl; try done.
  - intros id h' Hid'. apply lookup_alter_is_Some. by eapply Hco.
  - intros sid t h' Ht Hct. destruct (Hso _ _ _ Ht Hct) as (c' & Hc' & Hids). simpl in Hc'. destruct (decide (h' = h)) as [->|Hne].
    + rewrite lookup_alter_eq, Hc'. by eexists.
    + rewrite lookup_alter_ne by done. by exists c'.
  - intros h' c' [[-> ->]|[_ Hc']]%Hlook; [by apply (Hh h c)|by apply Hh].
  - intros id h' c' Hid' [[-> ->]|[_ Hc']]%Hlook; [by apply (Hid id h c)|by eapply Hid].
  - intros h' c' [[-> ->]|[_ Hc']]%Hlook Hst; [simpl; rewrite lookup_insert_eq; by eexists|by apply (Hl h' c')].
  - intros h1 h2 c1 c2 [[-> ->]|[_ H1]]%Hlook [[-> ->]|[_ H2]]%Hlook Hs1 Hs2 Heq; simpl in *; [done|..].
    + by destruct (Hnone _ _ H2 Hs2).
    + by destruct (Hnone _ _ H1 Hs1).
    + by apply (Hu h1 h2 c1 c2).
Qed.
Lemma steady_device d s s' : steady s s' -> steady s (set_device d s').
Proof. intros [[] ?]. split; [by split|done]. Qed.

Lemma socket_listen_calm sid t s : sane s -> sockets s !! sid = Some t -> calm (socket_listen sid) s.
Proof.
  intros Hs Ht. pose proof (steady_refl s Hs) as Hself. unfold calm, socket_listen. apply iwp_bind. eapply get_socket_ok; [done|].
  case_bool_decide; simpl; [|by apply iwp_throw]. apply iwp_bind. eapply socket_conn_ok; [done..|].
  intros h c Hh Hc Hid. apply iwp_bind. eapply get_conn_ok; [done|]. apply iwp_bind. unfold listen. apply iwp_bind, iwp_get.
  destruct (listen_queues s !! (local_addr c).2) eqn:Hq; [by apply iwp_throw|]. apply iwp_set.
  destruct (steady_listen h c (mk_queue [] [] (local_addr c)) s) as [Hg Hs1]; try done. set (s1 := set_queues _ s) in *.
  apply iwp_bind. apply on_device_ok; [|by apply good_steady].
  intros _ d. apply iwp_bind, iwp_set, iwp_set. set (s2 := set_heap (alter (with_state Listening) h (heap s1)) s1) in *.
  eapply good_then; [done|]. assert (H2 : steady s1 (set_device (Some d) s2)).
  { apply steady_device. split; [done|]. by apply (keeps_alter h c). }
  eapply steady_trans; [exact H2|]. apply steady_socket; [apply H2|]. intros h' Hh'. by apply (v_socket _ (proj1 H2) sid t h').
Qed.

Lemma socket_accept_calm sid new_sid t s : sane s -> sockets s !! sid = Some t -> calm (socket_accept sid new_sid) s.
Proof.
  intros Hs Ht. pose proof (steady_refl s Hs) as Hself. unfold calm, socket_accept. apply iwp_bind. eapply get_socket_ok; [done|].
  case_bool_decide; simpl; [|by apply iwp_throw]. apply iwp_bind. eapply socket_conn_ok; [done..|].
  intros h c _ Hc _. apply iwp_bind. eapply get_conn_ok; [done|]. apply iwp_bind, iwp_get. destruct (can_accept _ s); simpl; [|by apply iwp_throw].
  apply iwp_bind. unfold accept. apply iwp_bind, iwp_bind, iwp_get. destruct (listen_queues s !! (local_addr c).2) as [q|] eqn:Hq; [|by apply iwp_throw].
  apply iwp_ret. destruct (v_queue _ Hs _ _ Hq) as [Hlen _]. destruct (accept_queue q) as [|id rest] eqn:Haq; [by apply iwp_throw|].
  apply iwp_bind, iwp_set. set (s1 := set_queues _ s). assert (Hg : good s s1).
  { eapply queue_update; [done|done| |done]. simpl in *. lia. }
  pose proof (good_steady _ _ Hg) as H1. apply iwp_bind, iwp_bind, iwp_get. destruct (connections s1 !! id) as [h'|] eqn:Hid; [|by apply iwp_throw].
  apply iwp_ret. destruct (v_conn _ (proj1 Hg) _ _ Hid) as [c' Hc']. apply iwp_bind. eapply get_conn_ok; [done|].
  destruct (peer_addr c') as [peer|]; [|by apply iwp_throw]. apply iwp_bind, iwp_ret, iwp_ret. unfold get_connection. apply iwp_bind, iwp_bind, iwp_get.
  rewrite Hid. apply iwp_ret. apply iwp_bind, iwp_set, iwp_ret. eapply steady_trans; [exact H1|]. apply steady_socket; [apply Hg|].
  intros h0 [= <-]. exists c'. split; [done|]. intros id' [= <-]. by apply (v_ids _ (proj1 Hg) _ _ _ Hid).
Qed.

Lemma socket_connect_calm sid peer t s : sane s -> sockets s !! sid = Some t -> calm (socket_connect sid peer) s.
Proof.
  intros Hs Ht. pose proof (steady_refl s Hs) as Hself. unfold calm, socket_connect. apply iwp_bind. eapply get_socket_ok; [done|].
  destruct (t_state t); try (by apply iwp_throw).
  assert (Hrest : forall port s1, good s s1 ->
    iwp (cid ← on_device (fun d => (dev_guest_cid d, d));
         let id := (peer, port) in
         h ← create_connection id (cid, port) (Some peer) Connecting;
         _ ← set_socket sid (mk_transport (Some id) (Some h) SIdle);
         r ← on_device (dev_connect id);
         _ ← dev_result r;
         set_socket sid (mk_transport (Some id) (Some h) SConnecting))
      (fun _ s' => steady s s') (fun _ s' => steady s s') s1).
  { intros port s1 Hg. apply iwp_bind. apply on_device_ok; [|by apply good_steady]. intros cid d. simpl. apply iwp_bind.
    pose proof (good_device d s1 (proj1 Hg)) as Hg1.
    eapply iwp_mono; [apply (create_connection_spec _ _ _ _ _ (fun _ _ => False)); [apply Hg1|done|done]| |done].
    intros h s2 (Hg2 & (c & Hc & Hl & _) & _ & _). apply iwp_bind, iwp_set.
    assert (Hok : forall st, socket_ok (mk_transport (Some (peer, port)) (Some h) st) s2).
    { intros st h' [= <-]. exists c. split; [done|]. intros id [= <-]. by rewrite Hl. }
    pose proof (steady_socket sid _ s2 (proj1 Hg2) (Hok SIdle)) as H3. set (s3 := set_sockets _ s2) in *.
    assert (H03 : steady s s3) by (eapply good_then; [exact Hg|]; eapply good_then; [exact Hg1|]; by eapply good_then).
    apply iwp_bind. apply on_device_ok; [|done]. intros r d2. pose proof (steady_device (Some d2) _ _ H03) as H4.
    apply iwp_bind. unfold dev_result. destruct r; [apply iwp_ret|by apply iwp_throw]. apply iwp_set.
    eapply steady_trans; [exact H4|]. apply steady_socket; [apply H4|]. apply (Hok SConnecting). }
  apply iwp_bind. destruct (connection t) as [h|] eqn:Hh.
  - destruct (v_socket _ Hs _ _ _ Ht Hh) as (c & Hc & _). apply iwp_bind. eapply get_conn_ok; [done|].
    destruct (c_state c); try (by apply iwp_throw). apply iwp_ret. apply Hrest. by apply good_refl.
  - apply allocate_ok; [done| |by intros s' ?%good_steady]. intros p s1 Hg _ _. by apply Hrest.
Qed.
Lemma connect_poll_calm sid t s : sane s -> sockets s !! sid = Some t -> calm (connect_poll sid) s.
Proof.
  intros Hs Ht. pose proof (steady_refl s Hs) as Hself. unfold calm, connect_poll. apply iwp_bind. eapply get_socket_ok; [done|].
  apply iwp_bind. eapply socket_conn_ok; [done..|]. intros h c _ Hc _. apply iwp_bind. eapply get_conn_ok; [done|].
  destruct (c_state c); first [by apply iwp_ret|by apply iwp_throw].
Qed.

Lemma vsock_send_calm n id bs s :
  sane s -> iwp (vsock_send n id bs) (fun _ s' => good s s' /\ heap s' = heap s) (fun _ s' => good s s' /\ heap s' = heap s) s.
Proof.
  intros Hs. assert (Hgen : forall s1, good s s1 -> heap s1 = heap s ->
    iwp (vsock_send n id bs) (fun _ s' => good s s' /\ heap s' = heap s) (fun _ s' => good s s' /\ heap s' = heap s) s1);
    [|by apply Hgen; [apply good_refl|]].
  induction n as [|n IH]; intros s1 Hg Hh; simpl; [by apply iwp_throw|].
  apply iwp_bind. apply on_device_ok; [|done]. intros r d. pose proof (good_device d s1 (proj1 Hg)) as Hg1.
  assert (H2 : good s (set_device (Some d) s1)) by (by eapply good_trans).
  destruct r as [len|[]]; [by apply iwp_ret|by apply iwp_throw|by apply IH|by apply iwp_throw..].
Qed.

Lemma socket_send_calm sid bs t s : sane s -> sockets s !! sid = Some t -> calm (socket_send sid bs) s.
Proof.
  intros Hs Ht. pose proof (steady_refl s Hs) as Hself. unfold calm, socket_send. apply iwp_bind. eapply get_socket_ok; [done|].
  apply iwp_bind. eapply socket_conn_ok; [done..|]. intros h c _ Hc _. apply iwp_bind. eapply get_conn_ok; [done|].
  destruct (_ || _); [by apply iwp_throw|]. apply iwp_bind. destruct (conn_id t) as [id|]; [apply iwp_ret|by apply iwp_throw].
  apply iwp_bind. apply iwp_attempt.
  assert (Hrest : forall r s1, good s s1 -> heap s1 = heap s ->
    iwp (_ ← update_conn h (with_tx (match r with Ok n => n | Err _ => 0 end)); iresult r : io VfsError vsock Z) (fun _ s' => steady s s') (fun _ s' => steady s s') s1).
  { intros r s1 Hg Hh. apply iwp_bind, iwp_set. rewrite Hh.
    assert (H2 : steady s (set_heap (alter (with_tx (match r with Ok n => n | Err _ => 0 end)) h (heap s)) s1)).
    { eapply good_then; [exact Hg|]. rewrite <-Hh. apply good_steady, (good_alter h c); try done; [apply Hg|by rewrite Hh]. }
    by apply iwp_result. }
  eapply iwp_mono; [by apply (vsock_send_calm 10 id bs s)|..]; intros ? s1 [Hg Hh]; by apply Hrest.
Qed.

(** A receive takes the first bytes of the buffer. *)
Definition receives (sid : Z) (peek : bool) (s : vsock) (out : list Z) (s' : vsock) : Prop :=
  sane s' /\ forall h c, heap s !! h = Some c -> exists c', heap s' !! h = Some c' /\ rx_bytes c' = rx_bytes c /\
    rx c = (if negb peek && bool_decide ((sockets s !! sid ≫= connection) = Some h) then out ++ rx c' else rx c').

(** Taking [n] bytes from a buffer. *)
Lemma receives_take sid peek n t h c s :
  sane s -> sockets s !! sid = Some t -> connection t = Some h -> heap s !! h = Some c ->
  receives sid peek s (take n (rx c)) (if peek then s else set_heap (alter (with_rx (drop n (rx c)) 0 0) h (heap s)) s).
Proof.
  intros Hs Ht Hh Hc. unfold receives. rewrite Ht. simpl. rewrite Hh. destruct peek; simpl; [by split; eauto|]. split.
  - apply (sane_alter h c); try done. destruct (v_heap _ Hs _ _ Hc) as [[Hu Hd] _].
    split; [unfold rx_buffer_used in *; simpl; rewrite length_drop; lia|simpl; lia].
  - intros h' c' Hc'. destruct (decide (h = h')) as [<-|Hne].
    + rewrite lookup_alter_eq, Hc. eexists. split; [done|]. simpl. rewrite bool_decide_eq_true_2 by done. assert (c' = c) as -> by congruence.
      split; [lia|]. by rewrite take_drop.
    + rewrite lookup_alter_ne by done. exists c'. rewrite bool_decide_eq_false_2 by congruence. done.
Qed.

Lemma receives_nothing sid peek s s' : receives sid peek s [] s' -> steady s s'.
Proof.
  intros [Hs Hr]. split; [done|]. intros h c Hc. destruct (Hr _ _ Hc) as (c' & ? & ? & Hrx). exists c'. split_and!; [done| |done].
  by destruct (_ && _).
Qed.

Lemma socket_recv_spec sid room peek t s :
  sane s -> sockets s !! sid = Some t -> 0 <= room ->
  iwp (socket_recv sid room peek)
    (fun out s' => receives sid peek s out s' /\
       exists h c, connection t = Some h /\ heap s !! h = Some c /\ out = take (Z.to_nat room) (rx c) /\ (out = [] -> rx c = [] /\ rx_closed c = true))
    (fun _ s' => steady s s') s.
Proof.
  intros Hs Ht Hroom. pose proof (steady_refl s Hs) as Hself. unfold socket_recv. apply iwp_bind. eapply get_socket_ok; [done|].
  apply iwp_bind. eapply socket_conn_ok; [done..|]. intros h c Hh Hc _. apply iwp_bind. eapply get_conn_ok; [done|].
  destruct (rx_closed c && (rx_buffer_used c =? 0)) eqn:Heof.
  { apply andb_true_iff in Heof as [Hcl Hu%Z.eqb_eq]. unfold rx_buffer_used in Hu. destruct (rx c) eqn:Hrx; [|simpl in Hu; lia]. apply iwp_ret. split.
    - split; [done|]. intros h' c' Hc'. exists c'. split_and!; [done..|]. by destruct (_ && _).
    - exists h, c. rewrite Hrx, take_nil. by split_and!. }
  destruct (negb _ && negb _); [by apply iwp_throw|]. destruct (Z.eqb_spec (rx_buffer_used c) 0) as [Hz|Hz]; [by apply iwp_throw|].
  set (n := Z.to_nat (Z.min room (rx_buffer_used c))). pose proof (receives_take sid peek n t h c s Hs Ht Hh Hc) as Htake.
  set (s1 := if peek then s else _) in Htake. apply iwp_bind.
  assert (Hrest : iwp (if (0 <? n)%nat then mret (take n (rx c)) else throw WouldBlock : io VfsError vsock (list Z))
    (fun out s' => receives sid peek s out s' /\
       exists h c, connection t = Some h /\ heap s !! h = Some c /\ out = take (Z.to_nat room) (rx c) /\ (out = [] -> rx c = [] /\ rx_closed c = true))
    (fun _ s' => steady s s') s1).
  { destruct (Nat.ltb_spec 0 n) as [Hn|Hn].
    - apply iwp_ret. split; [done|]. exists h, c. unfold n, rx_buffer_used in *. split_and!; [done..| |].
      + destruct (decide (room <= Z.of_nat (length (rx c)))); [by rewrite Z.min_l|]. by rewrite Z.min_r, !take_ge by lia.
      + intros Hnil%(f_equal length). rewrite length_take in Hnil. simpl in Hnil. lia.
    - apply iwp_throw. assert (n = 0%nat) as Hn0 by lia. rewrite Hn0, take_0 in Htake. by eapply receives_nothing. }
  unfold s1 in Hrest. destruct peek; [by apply iwp_ret|by apply iwp_set].
Qed.

Lemma socket_shutdown_calm sid r w t s :
  sane s -> sockets s !! sid = Some t ->
  iwp (socket_shutdown sid r w) (fun _ s' => good s s') (fun _ s' => good s s') s.
Proof.
  intros Hs Ht. pose proof (good_refl s Hs) as Hself. unfold socket_shutdown. apply iwp_bind. eapply get_socket_ok; [done|].
  apply iwp_bind. eapply socket_conn_ok; [done..|]. intros h c Hh Hc Hid. apply iwp_bind. eapply get_conn_ok; [done|].
  apply iwp_bind, iwp_set. set (f := with_closed _ _). set (s1 := set_heap _ s). assert (Hg : good s s1) by (by apply (good_alter h c)).
  assert (Hc1 : heap s1 !! h = Some (f c)) by (simpl; by rewrite lookup_alter_eq, Hc).
  assert (Hclose : good s1 (set_heap (alter (with_state Closed) h (heap s1)) s1)) by (by apply (good_alter h (f c)); [apply Hg|..]).
  assert (Hend : good s (set_heap (alter (with_state Closed) h (heap s1)) s1)) by (by eapply good_trans).
  apply iwp_bind. destruct (conn_id t) as [id|] eqn:Hcid; [|by apply iwp_ret, iwp_set]. destruct (c_state c) eqn:Hst; try (by apply iwp_ret, iwp_set).
  - apply iwp_set, iwp_set. simpl. set (m := alter (with_state Closed) h _).
    change (good s (set_queues (delete id.2 (listen_queues s)) (set_heap m s1))). eapply good_trans; [exact Hend|].
    apply good_queues; [apply Hend|by intros p q [_ ?]%lookup_delete_Some; apply (v_queue _ Hs)|]. simpl. intros h' c' Hc' Hst'.
    destruct (decide (h' = h)) as [->|Hne]; [unfold m in Hc'; rewrite !lookup_alter_eq, Hc in Hc'; by injection Hc' as <-|].
    unfold m in Hc'. rewrite !lookup_alter_ne in Hc' by done. rewrite lookup_delete_ne; [by eapply v_listening|].
    rewrite (Hid id) by done. intros Heq. by destruct (Hne (v_unique _ Hs _ _ _ _ Hc' Hc Hst' Hst (eq_sym Heq))).
  - apply iwp_bind. apply on_device_ok; [|done]. intros res d. pose proof (good_device d s1 (proj1 Hg)) as Hgd.
    unfold dev_result. destruct res; [apply iwp_ret, iwp_set|apply iwp_throw; exact (good_trans _ _ _ Hg Hgd)].
    change (good s (set_device (Some d) (set_heap (alter (with_state Closed) h (heap s1)) s1))). eapply good_trans; [exact Hend|]. apply good_device, Hend.
Qed.

Lemma socket_drop_calm sid t s : sane s -> sockets s !! sid = Some t -> calm (socket_drop sid) s.
Proof.
  intros Hs Ht. unfold calm, socket_drop. apply iwp_bind. eapply get_socket_ok; [done|]. apply iwp_bind, iwp_attempt.
  assert (Hrest : forall s1, good s s1 ->
    iwp (_ ← match conn_id t with Some id => remove_connection id | None => mret () end;
         iset (fun s => set_sockets (delete sid (sockets s)) s)) (fun _ s' => steady s s') (fun _ s' => steady s s') s1).
  { intros s1 Hg. assert (Hdel : forall s2, good s s2 -> steady s (set_sockets (delete sid (sockets s2)) s2)).
    { intros s2 Hg2. eapply good_then; [exact Hg2|]. destruct Hg2 as [[] _]. split; [|eauto]. split; simpl; try done.
      intros sid' t' h' [_ ?]%lookup_delete_Some. by eauto. }
    apply iwp_bind. destruct (conn_id t); [|by apply iwp_ret, iwp_set, Hdel].
    eapply iwp_mono; [apply (remove_connection_spec _ _ (fun _ _ => False)); apply Hg| |done]. intros [] s2 [Hg2 _]. apply iwp_set, Hdel. by eapply good_trans. }
  eapply iwp_mono; [by eapply socket_shutdown_calm|..]; intros ? s1 Hg; by apply Hrest.
Qed.

Lemma socket_register_calm sid task inp out t s : sane s -> sockets s !! sid = Some t -> calm (socket_register sid task inp out) s.
Proof.
  intros Hs Ht. pose proof (steady_refl s Hs) as Hself. unfold calm, socket_register. apply iwp_bind. eapply get_socket_ok; [done|].
  destruct (connection t) as [h|] eqn:Hh; [|by apply iwp_ret]. destruct (v_socket _ Hs _ _ _ Ht Hh) as (c & Hc & _).
  apply iwp_bind. eapply get_conn_ok; [done|]. destruct (c_state c) eqn:Hst; try (by apply iwp_ret).
  - destruct inp; [|by apply iwp_ret]. destruct (v_listening _ Hs _ _ Hc Hst) as [q Hq]. apply iwp_bind, iwp_bind, iwp_get. rewrite Hq. apply iwp_ret, iwp_set.
    apply good_steady. eapply queue_update; [done|done| |done]. apply (v_queue _ Hs _ _ Hq).
  - destruct out; [|by apply iwp_ret]. apply iwp_set, good_steady. by apply (good_alter h c).
  - destruct inp; [|by apply iwp_ret]. apply iwp_set, good_steady. by apply (good_alter h c).
Qed.
(** ** Histories *)

#[local] Opaque iwp.

Inductive vs_op : Type :=
| VSocket (sid : Z)
| VBind (sid : Z) (addr : VsockAddr)
| VListen (sid : Z)
| VAccept (sid new_sid : Z)
| VConnect (sid : Z) (peer : VsockAddr)
| VConnectPoll (sid : Z)
| VSend (sid : Z) (bs : list Z)
| VRecv (sid room : Z) (peek : bool)
| VShutdown (sid : Z) (read write : bool)
| VDrop (sid : Z)
| VRegister (sid task : Z) (inp out : bool)
| VPoll (evs : list VsockDriverEvent).

Definition silent {A} (m : io VfsError vsock A) : io VfsError vsock (list Z) := m ≫= fun _ => mret [].

(** The bytes that a call returns. *)
Definition vs_exec (o : vs_op) : io VfsError vsock (list Z) :=
  match o with
  | VSocket sid => silent (socket_new sid)
  | VBind sid addr => silent (socket_bind sid addr)
  | VListen sid => silent (socket_listen sid)
  | VAccept sid new_sid => silent (socket_accept sid new_sid)
  | VConnect sid peer => silent (socket_connect sid peer)
  | VConnectPoll sid => silent (connect_poll sid)
  | VSend sid bs => silent (socket_send sid bs)
  | VRecv sid room peek => socket_recv sid room peek
  | VShutdown sid read write => silent (socket_shutdown sid read write)
  | VDrop sid => silent (socket_drop sid)
  | VRegister sid task inp out => silent (socket_register sid task inp out)
  | VPoll evs => silent (poll_vsock_interfaces evs)
  end.

(** Calls are made on sockets that exist. *)
Definition vs_live (o : vs_op) (s : vsock) : Prop :=
  match o with
  | VSocket _ | VPoll _ => True
  | VRecv sid room _ => 0 <= room /\ is_Some (sockets s !! sid)
  | VBind sid _ | VListen sid | VAccept sid _ | VConnect sid _ | VConnectPoll sid | VSend sid _
  | VShutdown sid _ _ | VDrop sid | VRegister sid _ _ _ => is_Some (sockets s !! sid)
  end.

Inductive vs_history : vsock -> Prop :=
| vh_new d : vs_history (vsock_new d)
| vh_op s o r s' : vs_history s -> vs_live o s -> vs_exec o s = (r, s') -> vs_history s'.

(** What becomes of the receive buffers: a receive takes the first bytes of its connection's and
    returns them, unless it only looks; events add bytes, which are counted; everything else leaves
    them. *)
Definition vs_data (o : vs_op) (s : vsock) (out : list Z) (s' : vsock) : Prop :=
  forall h c, heap s !! h = Some c -> exists c', heap s' !! h = Some c' /\
    match o with
    | VRecv sid _ peek =>
        rx c = (if negb peek && bool_decide ((sockets s !! sid ≫= connection) = Some h) then out ++ rx c' else rx c') /\
        rx_bytes c' = rx_bytes c
    | VPoll _ => exists bs, rx c' = rx c ++ bs /\ rx_bytes c' = rx_bytes c + Z.of_nat (length bs)
    | _ => rx c' = rx c /\ rx_bytes c' = rx_bytes c
    end.

Lemma silent_spec {A} (m : io VfsError vsock A) (P : vsock -> Prop) s :
  iwp m (fun _ => P) (fun _ => P) s -> iwp (silent m) (fun out s' => out = [] /\ P s') (fun _ => P) s.
Proof. intros Hm. unfold silent. apply iwp_bind. eapply iwp_mono; [exact Hm|intros ? ? ?; by apply iwp_ret|done]. Qed.

Lemma vs_exec_spec o s :
  sane s -> vs_live o s ->
  iwp (vs_exec o) (fun out s' => sane s' /\ vs_data o s out s') (fun _ s' => sane s' /\ vs_data o s [] s') s.
Proof.
  intros Hs Hl.
  assert (Hcalm : forall A (m : io VfsError vsock A),
    (match o with VRecv _ _ _ | VPoll _ => False | _ => True end) -> calm m s ->
    iwp (silent m) (fun out s' => sane s' /\ vs_data o s out s') (fun _ s' => sane s' /\ vs_data o s [] s') s).
  { intros A m Ho Hm. eapply iwp_mono; [apply silent_spec; exact Hm|..].
    - intros out s' [-> [? Hst]]. split; [done|]. intros h c Hc. destruct (Hst _ _ Hc) as (c' & ? & ? & ?). exists c'. by destruct o.
    - intros e s' [? Hst]. split; [done|]. intros h c Hc. destruct (Hst _ _ Hc) as (c' & ? & ? & ?). exists c'. by destruct o. }
  destruct o as [sid|sid addr|sid|sid new|sid peer|sid|sid bs|sid room peek|sid r w|sid|sid task i u|evs]; simpl in Hl; cbn [vs_exec];
    try (apply Hcalm; [done|]).
  - by apply socket_new_calm.
  - destruct Hl. by eapply socket_bind_calm.
  - destruct Hl. by eapply socket_listen_calm.
  - destruct Hl. by eapply socket_accept_calm.
  - destruct Hl. by eapply socket_connect_calm.
  - destruct Hl. by eapply connect_poll_calm.
  - destruct Hl. by eapply socket_send_calm.
  - destruct Hl as [Hroom [t Ht]]. eapply iwp_mono; [by apply (socket_recv_spec sid room peek t)|..].
    + intros out s' [[? Hr] _]. split; [done|]. intros h c Hc. destruct (Hr _ _ Hc) as (c' & ? & ? & ?). by exists c'.
    + intros e s' [? Hst]. split; [done|]. intros h c Hc. destruct (Hst _ _ Hc) as (c' & ? & ? & ?). exists c'. split; [done|]. by destruct (_ && _).
  - destruct Hl. eapply iwp_mono; [by eapply socket_shutdown_calm|..]; by intros ? s' ?%good_steady.
  - destruct Hl. by eapply socket_drop_calm.
  - destruct Hl. by eapply socket_register_calm.
  - assert (Hfed : forall out s', fed s s' -> sane s' /\ vs_data (VPoll evs) s out s').
    { intros out s' [? [Hg _]]. split; [done|]. intros h c Hc. destruct (Hg _ _ Hc) as (c' & bs & ? & ? & ?). exists c'. split; [done|]. by exists bs. }
    eapply iwp_mono; [apply silent_spec; by apply poll_spec|..]; [intros out s' [_ ?]|intros e s' ?]; by apply Hfed.
Qed.

Lemma vs_history_sane s : vs_history s -> sane s.
Proof.
  induction 1 as [d|s o r s' _ IH Hl Hrun].
  - split; simpl; try done; unfold EPHEMERAL_PORT_START, EPHEMERAL_PORT_END; try lia; try (by intros; rewrite lookup_empty in * ); intros; by rewrite lookup_empty in *.
  - pose proof (vs_exec_spec o s IH Hl) as Hspec. apply iwp_run in Hspec as [(a & s1 & Hr & ? & _)|(e & s1 & Hr & ? & _)]; rewrite Hr in Hrun; by simplify_eq.
Qed.

(** C25: In any history of calls on existing sockets and of events of the device, taken one at a time
    and each as a whole, no call panics, and each returns, with a result, an error, or that it would
    have to wait; the polling task is told of exactly the connections there are; every receive
    buffer is within its 64 KiB and has dropped nothing; and no accept queue exceeds 128
    connections.  The locks that calls take are not part of this, nor is the waiting: two calls at
    the same time can lock each other out, and a connecting call whose peer refuses is not woken, as
    shown below. *)
Theorem vsock_stays_sane s o :
  vs_history s -> vs_live o s ->
  (exists s', vs_history s' /\ ((exists out, vs_exec o s = (ROk out, s')) \/ exists e, vs_exec o s = (RErr e, s'))) /\
  poll_ref_count s = Z.of_nat (size (connections s)) /\
  map_Forall (fun _ c => rx_buffer_used c <= VSOCK_RX_BUFFER_SIZE /\ dropped_bytes c = 0) (heap s) /\
  map_Forall (fun _ q => Z.of_nat (length (accept_queue q)) <= VSOCK_ACCEPT_QUEUE_SIZE) (listen_queues s).
Proof.
  intros Hh Hl. pose proof (vs_history_sane _ Hh) as Hs. split_and!.
  - pose proof (vs_exec_spec o s Hs Hl) as [(out & s1 & Hr & _)|(e & s1 & Hr & _)]%iwp_run; exists s1; (split; [by eapply vh_op|]); [left|right]; by eexists.
  - apply Hs.
  - intros h c Hc. by destruct (v_heap _ Hs _ _ Hc).
  - intros p q Hq. by destruct (v_queue _ Hs _ _ Hq).
Qed.

(** Bytes pass through a connection in order, once.  In any history an event of the device that
    announces data appends to the connection's buffer exactly what the device hands out, or waits if
    the buffer is full; a receive returns the first bytes of the buffer and removes them, unless it
    only looks; and no other call changes a buffer. *)
Theorem vsock_stream_is_fifo s :
  vs_history s ->
  (forall o out s', vs_live o s -> vs_exec o s = (ROk out, s') -> vs_data o s out s') /\
  forall id h c len d, connections s !! id = Some h -> heap s !! h = Some c -> device s = Some d -> 0 < rx_buffer_free c ->
    forall bs d', dev_recv id (Z.min (rx_buffer_free c) VSOCK_RX_TMPBUF_SIZE) d = (Ok bs, d') ->
    exists s' c', handle_vsock_event (Received id len) s = (ROk (), s') /\ heap s' !! h = Some c' /\ rx c' = rx c ++ bs.
Proof.
  intros Hs%vs_history_sane. split.
  - intros o out s' Hl Hr. by apply (iwp_ok _ _ _ _ _ _ (vs_exec_spec o s Hs Hl)) in Hr as [_ ?].
  - intros id h c len d Hid Hc Hd Hfree bs d' Hr. simpl. unfold get_connection, get_conn, mbind, io_bind, iget. rewrite Hid. unfold iunwrap. rewrite Hc. simpl.
    rewrite (proj2 (Z.eqb_neq _ _)) by lia. unfold on_device. rewrite Hd, Hr. simpl.
    pose proof (good_device d' s Hs) as Hg. apply dev_recv_fits in Hr; [|unfold VSOCK_RX_TMPBUF_SIZE; lia].
    pose proof (on_data_received_spec id h c bs _ (proj1 Hg) Hid Hc ltac:(lia)) as [(a & s1 & Hrun & _ & _ & c' & Hc' & Hrx)|(e & s1 & _ & [])]%iwp_run.
    exists s1, c'. unfold log_error, attempt, mbind, io_bind. by rewrite Hrun.
Qed.
(** The search for an ephemeral port ends.  In any history it returns a port of the range that
    neither a listening socket nor a connection uses, or reports that there is none; nothing but the
    place where the next search starts has changed. *)
Theorem allocate_port_finds_free_port s :
  vs_history s ->
  exists p', ephemeral p' /\
    ((exists p, allocate_port s = (ROk p, set_port p' s) /\ ephemeral p /\ listen_queues s !! p = None /\
        map_Forall (fun (id : VsockConnId) _ => id.2 <> p) (connections s)) \/
     (allocate_port s = (RErr AddrInUse, set_port p' s) /\
        forall p, ephemeral p -> is_Some (listen_queues s !! p) \/ exists (id : VsockConnId) h, connections s !! id = Some h /\ id.2 = p)).
Proof.
  intros Hs%vs_history_sane. assert (Hfree : forall p, port_free p s = true <-> listen_queues s !! p = None /\
    map_Forall (fun (id : VsockConnId) _ => id.2 <> p) (connections s)).
  { intros p. unfold port_free. rewrite andb_true_iff, bool_decide_eq_true, forallb_forall. split; intros [Hq Hc]; (split; [done|]).
    - intros id h Hid. assert (Hin : In id (map_to_list (connections s)).*1).
      { apply list_elem_of_In, list_elem_of_fmap. exists (id, h). split; [done|]. by apply elem_of_map_to_list. }
      apply Hc, negb_true_iff, Z.eqb_neq in Hin. done.
    - intros id ([id' h] & -> & Hid)%list_elem_of_In%list_elem_of_fmap. apply elem_of_map_to_list in Hid. apply Hc in Hid. by apply negb_true_iff, Z.eqb_neq. }
  pose proof (allocate_port_spec s Hs) as [(p & s' & Hr & Hp & Hf & p' & Hp' & ->)|(e & s' & Hr & -> & Hall & p' & Hp' & ->)]%iwp_run; exists p'; (split; [done|]).
  - left. exists p. apply Hfree in Hf as [? ?]. by split_and!.
  - right. split; [done|]. intros p Hp. destruct (listen_queues s !! p) as [q|] eqn:Hq; [left; by eexists|right].
    destruct (decide (map_Forall (fun (id : VsockConnId) _ => id.2 <> p) (connections s))) as [Hn|Hn].
    + assert (port_free p s = true) by (by apply Hfree). rewrite Hall in *; done.
    + apply map_not_Forall in Hn as (id & h & Hid & Heq); [|apply _]. exists id, h. split; [done|]. by apply dec_stable in Heq.
Qed.

End sockets.

(** * Vsock: limits

    A simulated device, the witnesses of the theorems of [VsockHistory], and where the code goes
    wrong: locks taken in two orders, an end of file before the end of the data, a connection
    attempt that nobody wakes, and connections that are never removed. *)

(** ** A device: the bytes it has received *)

#[export] Instance sim_device : VsockDevice (list Z) := {|
  dev_listen p d := d;
  dev_connect id d := (Ok (), d);
  dev_send id bs d := (Ok (Z.of_nat (length bs)), d);
  dev_recv id n d := (Ok (take (Z.to_nat n) d), drop (Z.to_nat n) d);
  dev_disconnect id d := (Ok (), d);
  dev_guest_cid d := 3;
  listening p := (0, 0, p);
|}.

#[export] Instance sim_device_laws : VsockDeviceLaws sim_device.
Proof.
  split; [|done]. intros id n d bs d' Hn [= <- _]. rewrite length_take. lia.
Qed.

Local Notation sim := (Vsock (list Z)).

Fixpoint vs_run (os : list vs_op) (s : sim) : sim :=
  match os with [] => s | o :: os => vs_run os (vs_exec o s).2 end.

Definition vs_result (o : vs_op) (s : sim) : res VfsError (list Z) := (vs_exec o s).1.

Definition peer : VsockAddr := (2, 9).
Definition first_id : VsockConnId := (peer, EPHEMERAL_PORT_START).
Definition dial : list vs_op := [VSocket 1; VConnect 1 peer].

(** ** What goes wrong *)

(** A receive can return the end of the file before the data is at its end.  The peer sends one
    byte more than the buffer holds and closes the connection.  The event for the last byte has to
    wait for room, the one for the end does not: once the buffer is read, a receive returns 0, and
    one after the next poll the byte. *)
Theorem end_of_file_overtakes_data :
  let s0 := vs_run (dial ++ [VPoll [Connected_ first_id]]) (vsock_new (replicate (Z.to_nat (VSOCK_RX_BUFFER_SIZE + 1)) 7)) in
  let s1 := vs_run [VPoll (replicate 17 (Received first_id 4096) ++ [Disconnected_ first_id])] s0 in
  let s2 := vs_run [VRecv 1 VSOCK_RX_BUFFER_SIZE false] s1 in
  let s3 := vs_run [VPoll []] s2 in
  match vs_result (VRecv 1 VSOCK_RX_BUFFER_SIZE false) s1 with ROk bs => length bs =? Z.to_nat VSOCK_RX_BUFFER_SIZE | _ => false end%nat = true /\
  vs_result (VRecv 1 1 false) s2 = ROk [] /\ vs_result (VRecv 1 1 false) s3 = ROk [7].
Proof. vm_compute. split_and!; reflexivity. Qed.

(** A task that waits for its connection to be established is not woken when the peer refuses it,
    although the attempt would return at once. *)
Lemma refused_connect_is_not_woken :
  let s := vs_run (dial ++ [VRegister 1 5 false true; VPoll [Disconnected_ first_id]]) (vsock_new []) in
  woken s = [] /\ vs_result (VConnectPoll 1) s = RErr ConnectionRefused.
Proof. by vm_compute. Qed.

(** A socket that is bound and then connected leaves the connection it was bound to when it is
    dropped: its port stays in use, and the polling task runs for ever. *)
Lemma bound_connection_is_never_removed :
  let s := vs_run ([VSocket 1; VBind 1 (3, 5); VConnect 1 peer; VDrop 1]) (vsock_new []) in
  sockets s = ∅ /\ size (connections s) = 1%nat /\ poll_ref_count s = 1 /\ port_free 5 s = false.
Proof. vm_compute. split_and!; reflexivity. Qed.

(** ** Locks *)

(** The locks that calls hold together: the polling task handles the events of connection [conn]
    with the device locked; [connect] asks the device for its address with the manager locked;
    [shutdown] disconnects with the connection locked. *)
Inductive vsock_call : Type := PollEvent (conn : nat) | Connect | Shutdown (conn : nat).

Definition vsock_locks (c : vsock_call) : list act :=
  match c with
  | PollEvent conn => [Acq LDevice; Acq LManager; Acq (LObject conn); Rel (LObject conn); Rel LManager; Rel LDevice]
  | Connect => [Acq LManager; Acq LDevice; Rel LDevice; Rel LManager; Acq LDevice; Rel LDevice]
  | Shutdown conn => [Acq (LObject conn); Acq LDevice; Rel LDevice; Rel (LObject conn)]
  end.

Definition stuck_connect : list lthread :=
  [mk_lthread [LManager] [Acq LDevice; Rel LDevice; Rel LManager; Acq LDevice; Rel LDevice];
   mk_lthread [LDevice] [Acq LManager; Acq (LObject 0); Rel (LObject 0); Rel LManager; Rel LDevice]].

Definition stuck_shutdown : list lthread :=
  [mk_lthread [LObject 0] [Acq LDevice; Rel LDevice; Rel (LObject 0)];
   mk_lthread [LManager; LDevice] [Acq (LObject 0); Rel (LObject 0); Rel LManager; Rel LDevice]].

(** The polling task can deadlock with a socket.  It locks the device, then the manager, then a
    connection; [connect] locks the manager, then the device, and [shutdown] a connection, then
    the device. *)
Theorem vsock_calls_can_deadlock :
  rtc lstep (start [vsock_locks Connect; vsock_locks (PollEvent 0)]) stuck_connect /\ deadlocked stuck_connect /\
  rtc lstep (start [vsock_locks (Shutdown 0); vsock_locks (PollEvent 0)]) stuck_shutdown /\ deadlocked stuck_shutdown.
Proof.
  split_and!.
  - unfold start, vsock_locks. simpl. acquires 0%nat. acquires 1%nat. apply rtc_refl.
  - apply two_stuck; by left.
  - unfold start, vsock_locks. simpl. acquires 0%nat. acquires 1%nat. acquires 1%nat. apply rtc_refl.
  - apply two_stuck; [by right; left|by left].
Qed.

(** ** Witnesses *)

Lemma vs_run_history os s :
  vs_history s -> (fix ok os s := match os with [] => True | o :: os => vs_live o s /\ ok os (vs_exec o s).2 end) os s ->
  vs_history (vs_run os s).
Proof.
  revert s. induction os as [|o os IH]; intros s Hh; simpl; [done|]. intros [Hl Hok]. apply IH; [|done].
  destruct (vs_exec o s) as [r s'] eqn:Hr. by eapply vh_op.
Qed.

(** A connection with data. *)
Definition connected : sim := vs_run (dial ++ [VPoll [Connected_ first_id; Received first_id 3]]) (vsock_new [1; 2; 3; 4]).

Lemma connected_history : vs_history connected.
Proof. apply vs_run_history; [apply vh_new|]. vm_compute. split_and!; try done; by eexists. Qed.

Lemma vsock_stays_sane_witness :
  vs_history connected /\ vs_live (VRecv 1 2 false) connected /\ poll_ref_count connected = 1.
Proof.
  assert (Hl : vs_live (VRecv 1 2 false) connected) by (split; [lia|vm_compute; by eexists]).
  split_and!; [apply connected_history|done|].
  by rewrite (proj1 (proj2 (vsock_stays_sane connected (VRecv 1 2 false) connected_history Hl))).
Defined.

Lemma vsock_stream_is_fifo_witness :
  vs_history connected /\ vs_data (VRecv 1 2 false) connected [1; 2] (vs_exec (VRecv 1 2 false) connected).2.
Proof.
  split; [apply connected_history|]. apply (proj1 (vsock_stream_is_fifo connected connected_history)).
  - split; [lia|vm_compute; by eexists].
  - by vm_compute.
Defined.

Lemma allocate_port_finds_free_port_witness :
  vs_history connected /\ exists p', ephemeral p' /\ (allocate_port connected).2 = set_port p' connected.
Proof.
  split; [apply connected_history|].
  destruct (allocate_port_finds_free_port connected connected_history) as (p' & Hp & [(p & Hr & _)|[Hr _]]); exists p'; (split; [exact Hp|rewrite Hr; reflexivity]).
Defined.
