(* ===== verification/Sched.v ===== *)
(** * Tasks, run queues and wakers

    Model of [run_queue.rs], [task.rs] and [api.rs] of axtask, and of [block_on] and its waker in
    [future/mod.rs], built with the features smp, preempt and irq.  CPUs run at the same time: a
    state machine whose steps are single accesses to memory that CPUs share.  A CPU is either in
    the code of its current task, where interrupts may come, or at a place in the scheduler, where
    they are disabled.  The scheduling policy is the axsched crate, a parameter; the rest of a
    task's code decides which events happen next. *)

From S2P Require Import Prelude.

(** ** The data of task.rs and run_queue.rs *)

Inductive TaskState : Type := Running | Ready | Blocked | Exited.

#[export] Instance TaskState_eq_dec : EqDecision TaskState.
Proof. solve_decision. Defined.

(** [axsched::BaseScheduler]; [owned] lists the references to tasks a scheduler holds. *)
Class BaseScheduler (Q : Type) : Type := {
  sched_new : Q;
  sched_add_task : Z -> Q -> Q;
  pick_next_task : Q -> option Z * Q;
  put_prev_task : Z -> bool -> Q -> Q;
  task_tick : Z -> Q -> bool * Q;
  set_priority : Z -> Z -> Q -> bool * Q;
  owned : Q -> list Z;
}.

(** [cpumask::CpuMask]: a bitmap of CPUs. *)
Definition mask_get (mask i : Z) : bool := Z.testbit mask i.
Definition mask_is_empty (mask : Z) : bool := mask =? 0.
Definition one_shot (i : Z) : Z := Z.shiftl 1 i.

(** The future a task blocks on: that of [join], that of the gc task, or any other. *)
Inductive future : Type := FAny | FJoin (t : Z) | FGc.

(** Where [block_on] and the future it polls are: at the head of the loop, before [poll]; in [join]
    before the exit code is loaded or the waker registered; in [poll_gc] with [n] rounds of its
    loop to go, perhaps with a task taken from the list, before the waker is registered, before the
    list is tested again; and after [Poll::Pending]. *)
Inductive phase : Type :=
| BLoop | BPoll | BRead | BRegister
| BGc (n : nat) | BGcHold (t : Z) (n : nat) | BGcTest
| BCheck.

(** What the code of a task does: [run_idle], the entries of the migration task and of the gc task,
    [set_current_affinity] after the migration, [block_on] with its waker, or anything. *)
Inductive code : Type :=
| CIdle | CMigrate (t : Z) | CGc | CMigrated (mask : Z) | CBlock (w : Z) (f : future) (p : phase) | CTask.

(** [TaskInner]; [t_frames] counts the run-queue guards its scheduling calls hold, [t_handles] the
    references to the task held outside this module. *)
Record TaskInner : Type := mk_task {
  is_idle : bool;
  is_init : bool;
  state : TaskState;
  cpumask : Z;
  cpu_id : Z;
  on_cpu : bool;
  need_resched : bool;
  preempt_disable_count : nat;
  exit_code : Z;
  wait_for_exit : option Z;
  t_code : code;
  t_frames : nat;
  t_handles : nat;
}.

Definition set_state (x : TaskState) (t : TaskInner) : TaskInner :=
  mk_task (is_idle t) (is_init t) x (cpumask t) (cpu_id t) (on_cpu t) (need_resched t) (preempt_disable_count t) (exit_code t) (wait_for_exit t) (t_code t) (t_frames t) (t_handles t).
Definition set_cpumask (x : Z) (t : TaskInner) : TaskInner :=
  mk_task (is_idle t) (is_init t) (state t) x (cpu_id t) (on_cpu t) (need_resched t) (preempt_disable_count t) (exit_code t) (wait_for_exit t) (t_code t) (t_frames t) (t_handles t).
Definition set_cpu_id (x : Z) (t : TaskInner) : TaskInner :=
  mk_task (is_idle t) (is_init t) (state t) (cpumask t) x (on_cpu t) (need_resched t) (preempt_disable_count t) (exit_code t) (wait_for_exit t) (t_code t) (t_frames t) (t_handles t).
Definition set_on_cpu (x : bool) (t : TaskInner) : TaskInner :=
  mk_task (is_idle t) (is_init t) (state t) (cpumask t) (cpu_id t) x (need_resched t) (preempt_disable_count t) (exit_code t) (wait_for_exit t) (t_code t) (t_frames t) (t_handles t).
Definition set_preempt_pending (x : bool) (t : TaskInner) : TaskInner :=
  mk_task (is_idle t) (is_init t) (state t) (cpumask t) (cpu_id t) (on_cpu t) x (preempt_disable_count t) (exit_code t) (wait_for_exit t) (t_code t) (t_frames t) (t_handles t).
Definition set_count (x : nat) (t : TaskInner) : TaskInner :=
  mk_task (is_idle t) (is_init t) (state t) (cpumask t) (cpu_id t) (on_cpu t) (need_resched t) x (exit_code t) (wait_for_exit t) (t_code t) (t_frames t) (t_handles t).
Definition set_exit_code (x : Z) (t : TaskInner) : TaskInner :=
  mk_task (is_idle t) (is_init t) (state t) (cpumask t) (cpu_id t) (on_cpu t) (need_resched t) (preempt_disable_count t) x (wait_for_exit t) (t_code t) (t_frames t) (t_handles t).
Definition set_wait_for_exit (x : option Z) (t : TaskInner) : TaskInner :=
  mk_task (is_idle t) (is_init t) (state t) (cpumask t) (cpu_id t) (on_cpu t) (need_resched t) (preempt_disable_count t) (exit_code t) x (t_code t) (t_frames t) (t_handles t).
Definition set_code (x : code) (t : TaskInner) : TaskInner :=
  mk_task (is_idle t) (is_init t) (state t) (cpumask t) (cpu_id t) (on_cpu t) (need_resched t) (preempt_disable_count t) (exit_code t) (wait_for_exit t) x (t_frames t) (t_handles t).
Definition set_frames (x : nat) (t : TaskInner) : TaskInner :=
  mk_task (is_idle t) (is_init t) (state t) (cpumask t) (cpu_id t) (on_cpu t) (need_resched t) (preempt_disable_count t) (exit_code t) (wait_for_exit t) (t_code t) x (t_handles t).
Definition set_handles (x : nat) (t : TaskInner) : TaskInner :=
  mk_task (is_idle t) (is_init t) (state t) (cpumask t) (cpu_id t) (on_cpu t) (need_resched t) (preempt_disable_count t) (exit_code t) (wait_for_exit t) (t_code t) (t_frames t) x.

(** [TaskInner::new_common]. *)
Definition new_common (idle init : bool) (mask : Z) (c : code) : TaskInner :=
  mk_task idle init Ready mask 0 init false 0 0 None c 0 0.

Definition is_running (t : TaskInner) : bool := bool_decide (state t = Running).
Definition is_ready (t : TaskInner) : bool := bool_decide (state t = Ready).

(** [can_preempt] and [disable_preempt]. *)
Definition can_preempt (n : nat) (t : TaskInner) : bool := (preempt_disable_count t =? n)%nat.
Definition disable_preempt (t : TaskInner) : TaskInner := set_count (S (preempt_disable_count t)) t.

(** The guard of a run queue ([NoPreemptIrqSave::acquire]). *)
Definition acquire (t : TaskInner) : TaskInner := set_frames (S (t_frames t)) (disable_preempt t).

(** [AxWaker]: the task, the flag and its spin lock. *)
Record AxWaker : Type := mk_waker { w_task : Z; woke : bool; w_locked : bool }.

(** What happens after a wake-up: the caller goes on, the exiting task is put on the list, or the
    next task is chosen. *)
Inductive after_wake : Type := KRelease | KPush | KResched.

(** Why a run queue is selected: a new task, a migrated one, or a waker. *)
Inductive selecting : Type := SAdd (t : Z) | SMigrate (t : Z) | SWake (w t : Z) (k : after_wake).

(** Where a CPU is in the scheduler.  [PThread]: it is not.  Then, in the order of the code:
    [select_run_queue_index]; [add_task]; [migrate_entry]; [wake_by_ref] and [unblock_task];
    [put_task_with_state] for the current task; [blocked_resched]; [exit_current];
    [migrate_current]; [resched], [switch_to] and [clear_prev_task_on_cpu]; the release of a guard. *)
Inductive pc : Type :=
| PThread
| PSelect (mask : Z) (k : selecting)
| PAdd (q t : Z)
| PMigrate (q t : Z)
| PWoke (q w t : Z) (k : after_wake)
| PUnblock (q t : Z) (k : after_wake)
| PSpin (q t : Z) (k : after_wake)
| PPut (q t : Z) (k : after_wake)
| PWoken (k : after_wake)
| PPutCas (preempt : bool)
| PPutEnq (preempt : bool)
| PBlock (w : Z)
| PBlockDrop (w : Z)
| PExitState (code : Z)
| PExitCode (code : Z)
| PExitWake
| PExitPush
| PExitGc
| PMigrating (m : Z)
| PResched
| PPicked (next : Z)
| PSwitch (next : Z)
| PClaim (next : Z)
| PSave (next : Z)
| PRestored
| PRelease.

(** Interrupts and the code of tasks run here. *)
Definition in_thread (p : pc) : bool := match p with PThread => true | _ => false end.

(** Why a CPU stops for good: an assertion, memory that was never initialised, or [system_off]. *)
Inductive halt : Type := Panic | Undefined | Off.

(** The per-CPU variables: current task, [EXITED_TASKS], [WAIT_FOR_EXIT], [IDLE_TASK], [PREV_TASK]. *)
Record cpu : Type := mk_cpu {
  current : Z;
  exited_tasks : list Z;
  wait_gc : option Z;
  idle_task : Z;
  prev_task : option Z;
  doing : pc;
}.

Definition set_exited (x : list Z) (p : cpu) : cpu :=
  mk_cpu (current p) x (wait_gc p) (idle_task p) (prev_task p) (doing p).
Definition set_wait_gc (x : option Z) (p : cpu) : cpu :=
  mk_cpu (current p) (exited_tasks p) x (idle_task p) (prev_task p) (doing p).
Definition set_current (next : Z) (p : cpu) : cpu :=
  mk_cpu next (exited_tasks p) (wait_gc p) (idle_task p) (Some (current p)) (doing p).
Definition set_doing (x : pc) (p : cpu) : cpu :=
  mk_cpu (current p) (exited_tasks p) (wait_gc p) (idle_task p) (prev_task p) x.

Section Machine.
Context {Q : Type} `{BaseScheduler Q}.

(** The tasks, the wakers, the CPUs, [RUN_QUEUES], [RUN_QUEUE_INDEX]; [joined] logs what [join]
    returned: who, whom, which code. *)
Record machine : Type := mk_machine {
  tasks : gmap Z TaskInner;
  wakers : gmap Z AxWaker;
  cpus : gmap Z cpu;
  run_queues : gmap Z Q;
  rq_index : Z;
  next_id : Z;
  halted : option halt;
  joined : list (Z * Z * Z);
}.

Definition set_tasks (x : gmap Z TaskInner) (s : machine) : machine :=
  mk_machine x (wakers s) (cpus s) (run_queues s) (rq_index s) (next_id s) (halted s) (joined s).
Definition set_wakers (x : gmap Z AxWaker) (s : machine) : machine :=
  mk_machine (tasks s) x (cpus s) (run_queues s) (rq_index s) (next_id s) (halted s) (joined s).
Definition set_cpus (x : gmap Z cpu) (s : machine) : machine :=
  mk_machine (tasks s) (wakers s) x (run_queues s) (rq_index s) (next_id s) (halted s) (joined s).
Definition set_index (x : Z) (s : machine) : machine :=
  mk_machine (tasks s) (wakers s) (cpus s) (run_queues s) x (next_id s) (halted s) (joined s).
Definition stop (x : halt) (s : machine) : machine :=
  mk_machine (tasks s) (wakers s) (cpus s) (run_queues s) (rq_index s) (next_id s) (Some x) (joined s).
Definition log_join (x : Z * Z * Z) (s : machine) : machine :=
  mk_machine (tasks s) (wakers s) (cpus s) (run_queues s) (rq_index s) (next_id s) (halted s) (joined s ++ [x]).
Definition set_queues (x : gmap Z Q) (s : machine) : machine :=
  mk_machine (tasks s) (wakers s) (cpus s) x (rq_index s) (next_id s) (halted s) (joined s).
Definition upd_rq (q : Z) (f : Q -> Q) (s : machine) : machine := set_queues (alter f q (run_queues s)) s.
Definition upd_task (t : Z) (f : TaskInner -> TaskInner) (s : machine) : machine := set_tasks (alter f t (tasks s)) s.
Definition upd_cpu (c : Z) (f : cpu -> cpu) (s : machine) : machine := set_cpus (alter f c (cpus s)) s.
Definition goto (c : Z) (p : pc) (s : machine) : machine := upd_cpu c (set_doing p) s.

(** A new object: tasks and wakers get the next number. *)
Definition fresh_task (t : TaskInner) (s : machine) : machine :=
  mk_machine (<[next_id s := t]> (tasks s)) (wakers s) (cpus s) (run_queues s) (rq_index s) (next_id s + 1) (halted s) (joined s).
Definition fresh_waker (w : AxWaker) (s : machine) : machine :=
  mk_machine (tasks s) (<[next_id s := w]> (wakers s)) (cpus s) (run_queues s) (rq_index s) (next_id s + 1) (halted s) (joined s).

(** ** References *)

(** The tasks a place of the scheduler holds references to, besides the current one. *)
Definition pc_refs (cur : Z) (p : pc) : list Z :=
  match p with
  | PSelect _ (SAdd t) | PSelect _ (SMigrate t) | PSelect _ (SWake _ t _) => [t]
  | PAdd _ t | PMigrate _ t | PWoke _ _ t _ | PUnblock _ t _ | PSpin _ t _ | PPut _ t _ => [t]
  | PPutCas _ | PPutEnq _ => [cur]
  | PMigrating t | PPicked t | PSwitch t | PClaim t | PSave t => [t]
  | _ => []
  end.

Definition cpu_refs (p : cpu) : list Z :=
  current p :: idle_task p :: exited_tasks p ++ pc_refs (current p) (doing p).

(** Those the code of a task holds: the migration task the one it migrates, a joiner the one it
    waits for, [block_on] its own, the gc task the one it looks at. *)
Definition code_refs (self : Z) (c : code) : list Z :=
  match c with
  | CMigrate t => [t]
  | CBlock _ f p =>
    self :: (match f with FJoin t => [t] | _ => [] end) ++ match p with BGcHold t _ => [t] | _ => [] end
  | _ => []
  end.

Definition occ (x : Z) (l : list Z) : nat := length (filter (fun y => y = x) l).

(** [Arc::strong_count]. *)
Definition strong_count (t : Z) (s : machine) : nat :=
  (msum (fun _ q => occ t (owned q)) (run_queues s) + msum (fun _ p => occ t (cpu_refs p)) (cpus s) +
    msum (fun i k => occ t (code_refs i (t_code k))) (tasks s) +
   match tasks s !! t with Some k => t_handles k | None => 0 end)%nat.

(** ** The scheduler *)

Context (MAX_CPU_NUM cpu_num : Z).

(** [cpu_mask_full]. *)
Definition cpu_mask_full : Z := Z.ones cpu_num.

(** [enable_preempt] and [current_check_preempt_pending]: the CPU goes to [next], or preempts the
    current task. *)
Definition enable_preempt (c : Z) (cur : Z) (next : pc) (s : machine) : machine :=
  match tasks s !! cur with
  | None => s
  | Some k =>
    let n := preempt_disable_count k in
    let s := upd_task cur (set_count (pred n)) s in
    if (n =? 1)%nat && need_resched k then
      if is_running k then goto c (PPutCas true) (upd_task cur acquire s) else stop Panic s
    else goto c next s
  end.

(** Dropping the guard of a run queue. *)
Definition release (c cur : Z) (next : pc) (s : machine) : machine :=
  enable_preempt c cur next (upd_task cur (fun k => set_frames (pred (t_frames k)) k) s).

(** The start of [wake_by_ref]: [upgrade] and [select_run_queue]. *)
Definition wake_by_ref (c cur w : Z) (k : after_wake) (next : pc) (s : machine) : machine :=
  match wakers s !! w with
  | None => goto c next s
  | Some wk =>
    match tasks s !! w_task wk with
    | None => goto c next s
    | Some t => goto c (PSelect (cpumask t) (SWake w (w_task wk) k)) (upd_task cur acquire s)
    end
  end.

(** The end of [unblock_task]: the guard of the run queue is dropped. *)
Definition end_wake (c : Z) (k : after_wake) (s : machine) : machine :=
  goto c (match k with KRelease => PRelease | _ => PWoken k end) s.
Definition after_pc (k : after_wake) : pc := match k with KRelease => PRelease | KPush => PExitPush | KResched => PResched end.

(** One round of the loop of [select_run_queue_index]; [get_run_queue] of a CPU that has not been
    initialised is undefined. *)
Definition step_select (c mask : Z) (k : selecting) (s : machine) : machine :=
  if mask_is_empty mask then stop Panic s
  else
    let index := rq_index s mod MAX_CPU_NUM in
    let s := set_index (as_u64 (rq_index s + 1)) s in
    if mask_get mask index then
      match run_queues s !! index with
      | None => stop Undefined s
      | Some _ =>
        goto c (match k with
                | SAdd t => PAdd index t
                | SMigrate t => PMigrate index t
                | SWake w t k => PWoke index w t k
                end) s
      end
    else s.

(** [put_task_with_state(task, Blocked, _)] up to the loop that waits for the other CPU. *)
Definition step_unblock (c q t : Z) (k : after_wake) (s : machine) : option machine :=
  tk ← tasks s !! t;
  Some (if bool_decide (state tk = Blocked) then
          let s := upd_task t (set_state Ready) s in
          if is_idle tk then end_wake c k s else goto c (PSpin q t k) s
        else end_wake c k s).

Definition step_put (c q t : Z) (k : after_wake) (s : machine) : machine :=
  end_wake c k (upd_rq q (put_prev_task t false) (upd_task t (set_cpu_id q) s)).

(** [put_task_with_state(curr, Running, preempt)], called by [yield_current] and [preempt_resched]. *)
Definition step_put_cas (c cur : Z) (preempt : bool) (s : machine) : option machine :=
  tk ← tasks s !! cur;
  Some (if bool_decide (state tk = Running) then
          goto c (if is_idle tk then PResched else PPutEnq preempt) (upd_task cur (set_state Ready) s)
        else goto c PResched s).

Definition step_put_enq (c cur : Z) (preempt : bool) (s : machine) : machine :=
  goto c PResched (upd_rq c (put_prev_task cur preempt) (upd_task cur (set_cpu_id c) s)).

(** [resched]: the next task, or the idle one. *)
Definition step_resched (c : Z) (p : cpu) (s : machine) : option machine :=
  q ← run_queues s !! c;
  let '(next, q') := pick_next_task q in
  Some (goto c (PPicked (default (idle_task p) next)) (set_queues (<[c := q']> (run_queues s)) s)).

(** [switch_to] up to the test whether there is anything to switch. *)
Definition step_switch (c cur next : Z) (s : machine) : machine :=
  let s := upd_task next (fun k => set_state Running (set_preempt_pending false k)) s in
  goto c (if bool_decide (next = cur) then PRelease else PClaim next) s.

(** The rest of [switch_to] before the contexts are exchanged. *)
Definition step_save (c cur next : Z) (s : machine) : machine :=
  if (1 <? strong_count cur s)%nat && (1 <=? strong_count next s)%nat
  then goto c PRestored (upd_cpu c (set_current next) s) else stop Panic s.

(** [clear_prev_task_on_cpu]. *)
Definition step_restored (c : Z) (p : cpu) (s : machine) : machine :=
  match prev_task p ≫= fun t => tasks s !! t with
  | None => stop Panic s
  | Some _ => goto c PRelease (upd_task (default 0 (prev_task p)) (set_on_cpu false) s)
  end.

(** One step of a CPU in the scheduler; [None] if it waits for another one. *)
Definition step_cpu (c : Z) (p : cpu) (s : machine) : option machine :=
  let cur := current p in
  match doing p with
  | PThread => None
  | PSelect mask k => Some (step_select c mask k s)
  | PAdd q t =>
    tk ← tasks s !! t;
    Some (if is_ready tk then goto c PRelease (upd_rq q (sched_add_task t) s) else stop Panic s)
  | PMigrate q t => Some (goto c PRelease (upd_rq q (put_prev_task t false) s))
  | PWoke q w t k =>
    wk ← wakers s !! w;
    if w_locked wk then None
    else Some (goto c (PUnblock q t k) (set_wakers (<[w := mk_waker (w_task wk) true false]> (wakers s)) s))
  | PUnblock q t k => step_unblock c q t k s
  | PSpin q t k => tk ← tasks s !! t; if on_cpu tk then None else Some (goto c (PPut q t k) s)
  | PPut q t k => Some (step_put c q t k s)
  | PWoken k => Some (release c cur (after_pc k) s)
  | PPutCas preempt => step_put_cas c cur preempt s
  | PPutEnq preempt => Some (step_put_enq c cur preempt s)
  | PBlock w => Some (goto c (PBlockDrop w) (upd_task cur (set_state Blocked) s))
  | PBlockDrop w =>
    wk ← wakers s !! w;
    Some (enable_preempt c cur PResched (set_wakers (<[w := mk_waker (w_task wk) false false]> (wakers s)) s))
  | PExitState code => Some (goto c (PExitCode code) (upd_task cur (set_state Exited) s))
  | PExitCode code => Some (goto c PExitWake (upd_task cur (set_exit_code code) s))
  | PExitWake =>
    tk ← tasks s !! cur;
    let s := upd_task cur (set_wait_for_exit None) s in
    Some (match wait_for_exit tk with None => goto c PExitPush s | Some w => wake_by_ref c cur w KPush PExitPush s end)
  | PExitPush => Some (goto c PExitGc (upd_cpu c (set_exited (exited_tasks p ++ [cur])) s))
  | PExitGc =>
    let s := upd_cpu c (set_wait_gc None) s in
    Some (match wait_gc p with None => goto c PResched s | Some w => wake_by_ref c cur w KResched PResched s end)
  | PMigrating m => Some (goto c (PSwitch m) (upd_task cur (set_state Ready) s))
  | PResched => step_resched c p s
  | PPicked next =>
    tk ← tasks s !! next;
    Some (if is_ready tk then goto c (PSwitch next) s else stop Panic s)
  | PSwitch next => Some (step_switch c cur next s)
  | PClaim next => Some (goto c (PSave next) (upd_task next (set_on_cpu true) s))
  | PSave next => Some (step_save c cur next s)
  | PRestored => Some (step_restored c p s)
  | PRelease =>
    tk ← tasks s !! cur;
    Some (match t_frames tk with O => goto c PThread s | S _ => release c cur PRelease s end)
  end.

(** ** The code of tasks *)

(** [yield_now]. *)
Definition yield_now (c cur : Z) (s : machine) : option machine :=
  tk ← tasks s !! cur;
  Some (if is_running tk then goto c (PPutCas false) (upd_task cur acquire s) else stop Panic s).

(** [AxWaker::new] and the entry into the loop of [block_on]. *)
Definition block_on (cur : Z) (f : future) (s : machine) : machine :=
  upd_task cur (set_code (CBlock (next_id s) f BLoop)) (fresh_waker (mk_waker cur false false) s).

(** After [Poll::Pending]: the lock of the flag is taken, and the task blocks, or yields if it has
    been woken ([blocked_resched] up to the change of state). *)
Definition step_check (c cur w : Z) (f : future) (s : machine) : option machine :=
  wk ← wakers s !! w;
  if w_locked wk then None
  else
    let s := upd_task cur (fun k => acquire (set_code (CBlock w f BLoop) k)) s in
    if woke wk then yield_now c cur s
    else
      tk ← tasks s !! cur;
      Some (if is_running tk && negb (is_idle tk) && can_preempt 2 (disable_preempt tk) then
              goto c (PBlock w) (upd_task cur disable_preempt (set_wakers (<[w := mk_waker (w_task wk) false true]> (wakers s)) s))
            else stop Panic s).

(** One step of [poll_gc]. *)
Definition step_gc (c cur w : Z) (p : cpu) (ph : phase) (s : machine) : option machine :=
  let to ph := upd_task cur (set_code (CBlock w FGc ph)) in
  match ph with
  | BPoll => Some (to (BGc (length (exited_tasks p))) s)
  | BGc (S n) =>
    match exited_tasks p with
    | [] => Some (to (BGc n) s)
    | t :: rest => Some (to (BGcHold t n) (upd_cpu c (set_exited rest) s))
    end
  | BGcHold t n =>
    let s' := to (BGc n) s in
    Some (if (strong_count t s =? 1)%nat then set_tasks (delete t (tasks s')) s'
          else upd_cpu c (set_exited (exited_tasks p ++ [t])) s')
  | BGc O => Some (to BGcTest (upd_cpu c (set_wait_gc (Some w)) s))
  | BGcTest =>
    match exited_tasks p with
    | [] => Some (to BCheck s)
    | _ => yield_now c cur (to BPoll s)
    end
  | _ => None
  end.

(** One step of [join]. *)
Definition step_join (cur w t : Z) (ph : phase) (s : machine) : option machine :=
  tk ← tasks s !! t;
  let to ph := upd_task cur (set_code (CBlock w (FJoin t) ph)) in
  match ph with
  | BPoll => Some (to (if bool_decide (state tk = Exited) then BRead else BRegister) s)
  | BRead => Some (log_join (cur, t, exit_code tk) (upd_task cur (set_code CTask) s))
  | BRegister => Some (to BCheck (upd_task t (set_wait_for_exit (Some w)) s))
  | _ => None
  end.

(** One step of the code of the current task, where this module determines it. *)
Definition step_code (c : Z) (p : cpu) (s : machine) : option machine :=
  let cur := current p in
  k ← tasks s !! cur;
  match t_code k with
  | CIdle => yield_now c cur s
  | CGc => Some (block_on cur FGc s)
  | CMigrate t =>
    tk ← tasks s !! t;
    Some (goto c (PSelect (cpumask tk) (SMigrate t)) (upd_task cur (fun k => acquire (set_code CTask k)) s))
  | CMigrated mask => Some (if mask_get mask c then upd_task cur (set_code CTask) s else stop Panic s)
  | CBlock w f BLoop =>
    wk ← wakers s !! w;
    if w_locked wk then None
    else Some (upd_task cur (set_code (CBlock w f BPoll)) (set_wakers (<[w := mk_waker (w_task wk) false false]> (wakers s)) s))
  | CBlock w f BCheck => step_check c cur w f s
  | CBlock w FGc ph => step_gc c cur w p ph s
  | CBlock w (FJoin t) ph => step_join cur w t ph s
  | CBlock _ FAny _ | CTask => None
  end.

(** ** Events *)

(** What a CPU does next: a step in the scheduler, or of code known here; a timer interrupt; a
    wake-up by the task or an interrupt handler; and what other code may call: take and drop
    guards against preemption, yield, start a task (with the name [idle] or another), wait for a
    future, poll it, join a task, exit, set the affinity or the priority, copy and drop references. *)
Inductive event : Type :=
| EStep (c : Z)
| ECode (c : Z)
| ETick (c : Z)
| EWake (c w : Z)
| EGuard (c : Z)
| EUnguard (c : Z)
| EYield (c : Z)
| ESpawn (c : Z) (named_idle : bool)
| EBlockOn (c : Z)
| EPoll (c : Z) (ready : bool)
| EJoin (c t : Z)
| EExit (c code : Z)
| ESetAffinity (c mask : Z)
| ESetPriority (c prio : Z)
| EClone (c t : Z)
| EDrop (c t : Z).

(** Whether other code runs: the task is not in this module, or polls a future of its own. *)
Definition free_code (k : code) : bool := match k with CTask | CBlock _ FAny BPoll => true | _ => false end.

(** [spawn_task]. *)
Definition spawn_task (c cur : Z) (named_idle : bool) (s : machine) : machine :=
  goto c (PSelect cpu_mask_full (SAdd (next_id s)))
    (fresh_task (set_handles 1 (new_common named_idle false cpu_mask_full CTask)) (upd_task cur acquire s)).

(** [exit] and [exit_current] up to [notify_exit]. *)
Definition exit_current (c cur code : Z) (k : TaskInner) (s : machine) : machine :=
  if is_running k && negb (is_idle k) then
    if is_init k then stop Off (upd_cpu c (set_exited []) s)
    else goto c (PExitState code) (upd_task cur acquire s)
  else stop Panic s.

(** [set_current_affinity] up to the migration. *)
Definition set_current_affinity (c cur mask : Z) (k : TaskInner) (s : machine) : machine :=
  if mask_is_empty mask then s
  else
    let s := upd_task cur (set_cpumask mask) s in
    if mask_get mask c then s
    else if is_running k then
      goto c (PMigrating (next_id s))
        (fresh_task (new_common false false cpu_mask_full (CMigrate cur))
          (upd_task cur (fun k => acquire (set_code (CMigrated mask) k)) s))
    else stop Panic s.

(** [scheduler_timer_tick], in an interrupt handler, which holds a guard against preemption. *)
Definition timer_tick (c : Z) (p : cpu) (k : TaskInner) (s : machine) : option machine :=
  let cur := current p in
  q ← run_queues s !! c;
  let '(fired, q') := if is_idle k then (false, q) else task_tick cur q in
  Some (goto c PRelease (upd_task cur (fun k => acquire (if (fired : bool) then set_preempt_pending true k else k))
          (set_queues (<[c := q']> (run_queues s)) s))).

Definition step_thread (c : Z) (p : cpu) (k : TaskInner) (e : event) (s : machine) : option machine :=
  let cur := current p in
  match e with
  | ETick _ => timer_tick c p k s
  | EWake _ w => if bool_decide (is_Some (wakers s !! w)) then Some (wake_by_ref c cur w KRelease PThread s) else None
  | EGuard _ => Some (upd_task cur disable_preempt s)
  | EUnguard _ => if (preempt_disable_count k <=? t_frames k)%nat then None else Some (enable_preempt c cur PThread s)
  | EYield _ => if free_code (t_code k) then yield_now c cur s else None
  | ESpawn _ named_idle => if free_code (t_code k) then Some (spawn_task c cur named_idle s) else None
  | EPoll _ ready =>
    match t_code k with
    | CBlock w FAny BPoll => Some (upd_task cur (set_code (if ready : bool then CTask else CBlock w FAny BCheck)) s)
    | _ => None
    end
  | EBlockOn _ => match t_code k with CTask => Some (block_on cur FAny s) | _ => None end
  | EJoin _ t =>
    match t_code k, tasks s !! t with CTask, Some _ => Some (block_on cur (FJoin t) s) | _, _ => None end
  | EExit _ code => match t_code k with CTask => Some (exit_current c cur code k s) | _ => None end
  | ESetAffinity _ mask => match t_code k with CTask => Some (set_current_affinity c cur mask k s) | _ => None end
  | ESetPriority _ prio =>
    if free_code (t_code k) then
      q ← run_queues s !! c;
      Some (goto c PRelease (upd_task cur acquire (set_queues (<[c := (set_priority cur prio q).2]> (run_queues s)) s)))
    else None
  | EClone _ t =>
    tk ← tasks s !! t;
    if (0 <? t_handles tk)%nat then Some (upd_task t (set_handles (S (t_handles tk))) s) else None
  | EDrop _ t =>
    tk ← tasks s !! t;
    if (0 <? t_handles tk)%nat then Some (upd_task t (set_handles (pred (t_handles tk))) s) else None
  | EStep _ | ECode _ => None
  end.

Definition cpu_of (e : event) : Z :=
  match e with
  | EStep c | ECode c | ETick c | EWake c _ | EGuard c | EUnguard c | EYield c | ESpawn c _ | EBlockOn c
  | EPoll c _ | EJoin c _ | EExit c _ | ESetAffinity c _ | ESetPriority c _ | EClone c _ | EDrop c _ => c
  end.

Definition step (e : event) (s : machine) : option machine :=
  let c := cpu_of e in
  match halted s with
  | Some _ => None
  | None =>
    p ← cpus s !! c;
    match e with
    | EStep _ => step_cpu c p s
    | ECode _ => if in_thread (doing p) then step_code c p s else None
    | _ => if in_thread (doing p) then k ← tasks s !! current p; step_thread c p k e s else None
    end
  end.

Fixpoint run (es : list event) (s : machine) : option machine :=
  match es with [] => Some s | e :: es => s' ← step e s; run es s' end.

(** ** Initialisation *)

(** [AxRunQueue::new]: the gc task is the first in the queue. *)
Definition new_run_queue (c cur idle : Z) (s : machine) : machine :=
  let gc := next_id s in
  let s := fresh_task (new_common false false (one_shot c) CGc) s in
  set_queues (<[c := sched_add_task gc sched_new]> (run_queues s))
    (set_cpus (<[c := mk_cpu cur [] None idle None PThread]> (cpus s)) s).

(** [init], on the first CPU. *)
Definition init (c : Z) (s : machine) : machine :=
  let idle := next_id s in
  let s := fresh_task (new_common true false (one_shot c) CIdle) s in
  let main := next_id s in
  let s := fresh_task (set_state Running (new_common false true cpu_mask_full CTask)) s in
  new_run_queue c main idle s.

(** [init_secondary]. *)
Definition init_secondary (c : Z) (s : machine) : machine :=
  let idle := next_id s in
  let s := fresh_task (set_state Running (new_common true true cpu_mask_full CIdle)) s in
  new_run_queue c idle idle s.

(** All CPUs have been initialised: the runtime waits for that before it calls [main]. *)
Definition booted : machine :=
  foldl (fun s n => init_secondary (Z.of_nat n) s) (init 0 (mk_machine ∅ ∅ ∅ ∅ 0 1 None []))
    (seq 1 (Z.to_nat cpu_num - 1)).

End Machine.
