(* ===== verification/SchedSpec.v ===== *)
(** * What the scheduler keeps

    The invariant of [Sched], in four parts that the steps preserve one by one: where every task is,
    the guards against preemption, the wakers, and the run queues CPUs refer to. *)

From S2P Require Import Prelude Sched.

(** ** The contract of axsched *)

Class BaseSchedulerLaws (Q : Type) `{BaseScheduler Q} : Prop := {
  owned_new : owned sched_new = [];
  owned_add t q : owned (sched_add_task t q) ≡ₚ t :: owned q;
  owned_put t b q : owned (put_prev_task t b q) ≡ₚ t :: owned q;
  owned_pick q : match pick_next_task q with
                 | (Some t, q') => owned q ≡ₚ t :: owned q'
                 | (None, q') => owned q = [] /\ owned q' = []
                 end;
  owned_tick t q : owned (task_tick t q).2 ≡ₚ owned q;
  owned_priority t n q : owned (set_priority t n q).2 ≡ₚ owned q;
}.

(** ** Counting *)

Lemma occ_nil t : occ t [] = 0%nat.
Proof. done. Qed.

Lemma occ_of_cons t x l : occ t (x :: l) = ((if decide (x = t) then 1 else 0) + occ t l)%nat.
Proof. unfold occ. rewrite filter_cons. by destruct (decide (x = t)). Qed.

Lemma occ_app t l k : occ t (l ++ k) = (occ t l + occ t k)%nat.
Proof. unfold occ. by rewrite filter_app, length_app. Qed.

#[export] Instance occ_proper t : Proper ((≡ₚ) ==> eq) (occ t).
Proof. intros l k Hp. unfold occ. by rewrite Hp. Qed.

Lemma occ_elem t l : t ∈ l -> (1 <= occ t l)%nat.
Proof.
  induction l as [|x l IH]; [by intros ?%not_elem_of_nil|]. rewrite occ_of_cons.
  intros [->|?%IH]%elem_of_cons; [rewrite decide_True by done|]; lia.
Qed.

Lemma occ_not_elem t l : t ∉ l -> occ t l = 0%nat.
Proof. induction l as [|x l IH]; [done|]. intros [? ?]%not_elem_of_cons. rewrite occ_of_cons, decide_False, IH by done. done. Qed.

(** ** Where tasks are *)

(** The tasks a CPU holds that are ready to run and in no queue. *)
Definition pc_toks (idle cur : Z) (p : pc) : list Z :=
  match p with
  | PSelect _ (SAdd t) | PSelect _ (SMigrate t) => [t]
  | PAdd _ t | PMigrate _ t | PSpin _ t _ | PPut _ t _ | PMigrating t => [t]
  | PPutEnq _ => [cur]
  | PPicked t | PSwitch t => if decide (t = idle) then [] else [t]
  | _ => []
  end.
Definition cpu_toks (p : cpu) : list Z := pc_toks (idle_task p) (current p) (doing p).

(** A task that hands itself to the migration task while it still runs. *)
Definition cpu_debts (p : cpu) : list Z := match doing p with PMigrating _ => [current p] | _ => [] end.

(** Whether the current task is running, or has it left that state; whether it is exiting and not yet
    on the list of exited tasks. *)
Definition after_runs (k : after_wake) : bool := match k with KRelease => true | _ => false end.
Definition after_dies (k : after_wake) : bool := match k with KPush => true | _ => false end.
Definition pc_runs (p : pc) : bool :=
  match p with
  | PSelect _ (SWake _ _ k) | PWoke _ _ _ k | PUnblock _ _ k | PSpin _ _ k | PPut _ _ k | PWoken k => after_runs k
  | PPutEnq _ | PBlockDrop _ | PExitCode _ | PExitWake | PExitPush | PExitGc
  | PResched | PPicked _ | PSwitch _ | PClaim _ | PSave _ => false
  | _ => true
  end.
Definition pc_dies (p : pc) : bool :=
  match p with
  | PSelect _ (SWake _ _ k) | PWoke _ _ _ k | PUnblock _ _ k | PSpin _ _ k | PPut _ _ k | PWoken k => after_dies k
  | PExitCode _ | PExitWake | PExitPush => true
  | _ => false
  end.

(** The tasks a CPU runs, those whose stacks it uses, those whose [on_cpu] it has set, and those
    exited. *)
Definition cpu_runs (p : cpu) : list Z :=
  (if pc_runs (doing p) then [current p] else []) ++ match doing p with PClaim t | PSave t => [t] | _ => [] end.
Definition cpu_seats (p : cpu) : list Z :=
  current p :: match doing p with PClaim t | PSave t => [t] | PRestored => option_list (prev_task p) | _ => [] end.
Definition cpu_ons (p : cpu) : list Z :=
  current p :: match doing p with PSave t => [t] | PRestored => option_list (prev_task p) | _ => [] end.
Definition cpu_deads (p : cpu) : list Z := exited_tasks p ++ (if pc_dies (doing p) then [current p] else []).
Definition code_toks (c : code) : list Z := match c with CMigrate t => [t] | _ => [] end.
Definition code_deads (c : code) : list Z := match c with CBlock _ _ (BGcHold t _) => [t] | _ => [] end.

(** The fields of [core] as hypotheses. *)
Ltac core_fields H :=
  destruct H as [c_uniq0 c_nodup0 c_alive0 c_alive_q0 c_alive_k0 c_tok0 c_run0 c_on0 c_dead0 c_dead_seat0 c_held_seat0
    c_blocked0 c_exited0 c_queue0 c_hand0 c_migr0 c_idle0 c_idles0 c_idle_seat0 c_named0 c_rq0].

Section Core.
Context {Q : Type} `{BaseSchedulerLaws Q}.
Implicit Types (T : gmap Z TaskInner) (C : gmap Z cpu) (R : gmap Z Q).

(** The number of times a task is ready somewhere: in a queue, held by a CPU, held by a migration
    task. *)
Definition tok (t : Z) T C R : nat :=
  (msum (fun _ q => occ t (owned q)) R + msum (fun _ p => occ t (cpu_toks p)) C +
   msum (fun _ k => occ t (code_toks (t_code k))) T)%nat.
Definition debt (t : Z) C : nat := msum (fun _ p => occ t (cpu_debts p)) C.

Definition ready_tok (o : option TaskInner) : nat :=
  match o with Some k => if negb (is_idle k) && is_ready k then 1 else 0 | None => 0 end.

(** No CPU but [c] uses the stack of [t]; none does. *)
Definition only_at (c t : Z) C : Prop := forall c' p', C !! c' = Some p' -> t ∈ cpu_seats p' -> c' = c.
Definition unseated (t : Z) C : Prop := forall c' p', C !! c' = Some p' -> t ∉ cpu_seats p'.

(** A CPU that switches from [t] to its migration task [m]. *)
Definition hands_over (m t : Z) (p : cpu) : Prop :=
  (current p = t /\ (doing p = PMigrating m \/ doing p = PSwitch m \/ doing p = PClaim m \/ doing p = PSave m)) \/
  (current p = m /\ doing p = PRestored /\ prev_task p = Some t).

Definition code_at (t : Z) (P : code -> Prop) T : Prop := exists k, T !! t = Some k /\ P (t_code k).

Definition hand_ok (c : Z) (p : cpu) T C : Prop :=
  match doing p with
  | PSelect _ (SAdd t) | PSelect _ (SMigrate t) | PAdd _ t | PMigrate _ t | PPut _ t _ => unseated t C
  | PMigrating t => unseated t C /\ code_at t (fun c => c = CMigrate (current p)) T /\
                    code_at (current p) (fun c => exists mask, c = CMigrated mask) T
  | PPicked t | PSwitch t => only_at c t C
  | PBlock w | PBlockDrop w => code_at (current p) (fun c => exists f, c = CBlock w f BLoop) T
  | PExitState _ => code_at (current p) (fun c => c = CTask) T
  | PRestored => is_Some (prev_task p)
  | _ => True
  end.

Definition idle_ok (c : Z) (p : cpu) T C : Prop :=
  (exists k, T !! idle_task p = Some k /\ is_idle k = true /\ (state k = Running \/ state k = Ready)) /\
  only_at c (idle_task p) C.

Record core T C R : Prop := {
  c_uniq : forall t c1 p1 c2 p2, C !! c1 = Some p1 -> C !! c2 = Some p2 -> t ∈ cpu_seats p1 -> t ∈ cpu_seats p2 -> c1 = c2;
  c_nodup : forall c p, C !! c = Some p -> NoDup (cpu_seats p);
  c_alive : forall c p t, C !! c = Some p -> t ∈ cpu_seats p ++ cpu_refs p -> is_Some (T !! t);
  c_alive_q : forall c q t, R !! c = Some q -> t ∈ owned q -> is_Some (T !! t);
  c_alive_k : forall i k t, T !! i = Some k -> t ∈ code_refs i (t_code k) -> is_Some (T !! t);
  c_tok : forall t, tok t T C R = (ready_tok (T !! t) + debt t C)%nat;
  c_run : forall t k, T !! t = Some k -> state k = Running <-> exists c p, C !! c = Some p /\ t ∈ cpu_runs p;
  c_on : forall t k, T !! t = Some k -> on_cpu k = true <-> exists c p, C !! c = Some p /\ t ∈ cpu_ons p;
  c_dead : forall t k, T !! t = Some k -> state k = Exited <->
    (exists c p, C !! c = Some p /\ t ∈ cpu_deads p) \/ exists i ki, T !! i = Some ki /\ t ∈ code_deads (t_code ki);
  c_dead_seat : forall c p t, C !! c = Some p -> t ∈ cpu_deads p -> only_at c t C;
  c_held_seat : forall i k t, T !! i = Some k -> t ∈ code_deads (t_code k) -> unseated t C;
  c_blocked : forall t k, T !! t = Some k -> state k = Blocked -> exists w f, t_code k = CBlock w f BLoop;
  c_exited : forall t k, T !! t = Some k -> state k = Exited -> t_code k = CTask;
  c_queue : forall c q t, R !! c = Some q -> t ∈ owned q -> only_at c t C;
  c_hand : forall c p, C !! c = Some p -> hand_ok c p T C;
  c_migr : forall m k t c p, T !! m = Some k -> t_code k = CMigrate t -> C !! c = Some p -> t ∈ cpu_seats p -> hands_over m t p;
  c_idle : forall c p, C !! c = Some p -> idle_ok c p T C;
  c_idles : forall c1 p1 c2 p2, C !! c1 = Some p1 -> C !! c2 = Some p2 -> idle_task p1 = idle_task p2 -> c1 = c2;
  c_idle_seat : forall c p t k, C !! c = Some p -> t ∈ cpu_seats p -> T !! t = Some k -> is_idle k = true -> t = idle_task p;
  c_named : forall t k, T !! t = Some k -> is_idle k = true <-> t_code k = CIdle;
  c_rq : forall c, is_Some (C !! c) <-> is_Some (R !! c);
}.

Lemma only_at_mono c t C c0 p p' :
  C !! c0 = Some p -> (t ∈ cpu_seats p' -> t ∈ cpu_seats p) -> only_at c t C -> only_at c t (<[c0 := p']> C).
Proof.
  intros Hp Hs Ho c' q [[<- <-]|[? ?]]%lookup_insert_Some Hin; [|by eapply Ho]. eapply Ho; [done|by apply Hs].
Qed.

Lemma unseated_mono t C c0 p p' :
  C !! c0 = Some p -> (t ∈ cpu_seats p' -> t ∈ cpu_seats p) -> unseated t C -> unseated t (<[c0 := p']> C).
Proof.
  intros Hp Hs Ho c' q [[<- <-]|[? ?]]%lookup_insert_Some Hin; [|by eapply Ho]. eapply Ho; [done|by apply Hs].
Qed.

Lemma hand_mono c x T C c0 p p' :
  C !! c0 = Some p -> (forall t, t ∈ cpu_seats p' -> t ∈ cpu_seats p) -> hand_ok c x T C -> hand_ok c x T (<[c0 := p']> C).
Proof.
  intros Hp Hs. unfold hand_ok. pose proof (fun t => unseated_mono t C c0 p p' Hp (Hs t)) as Hu.
  pose proof (fun t => only_at_mono c t C c0 p p' Hp (Hs t)) as Ho. repeat case_match; naive_solver.
Qed.

Lemma elem_at (f : cpu -> list Z) t C c p p' :
  C !! c = Some p -> (t ∈ f p' <-> t ∈ f p) ->
  (exists c0 q, <[c := p']> C !! c0 = Some q /\ t ∈ f q) <-> (exists c0 q, C !! c0 = Some q /\ t ∈ f q).
Proof.
  intros Hp Hf. split; intros (c0 & q & Hq & Hin).
  - apply lookup_insert_Some in Hq as [[<- <-]|[? ?]]; [exists c, p; by rewrite <- Hf|by exists c0, q].
  - destruct (decide (c0 = c)) as [->|]; [exists c, p'; rewrite lookup_insert_eq, Hf; by simplify_eq|].
    exists c0, q. by rewrite lookup_insert_ne.
Qed.

Lemma runs_seats t p : t ∈ cpu_runs p -> t ∈ cpu_seats p.
Proof. unfold cpu_runs, cpu_seats. destruct (pc_runs (doing p)), (doing p); set_solver. Qed.

Lemma ons_seats t p : t ∈ cpu_ons p -> t ∈ cpu_seats p.
Proof. unfold cpu_ons, cpu_seats. destruct (doing p); set_solver. Qed.

(** A task and a CPU change; [t0] may change its state, no other task its place. *)
Record update T C R (c : Z) (p p' : cpu) (t0 : Z) (k0 k' : TaskInner) : Prop := {
  u_code : t_code k' = t_code k0;
  u_idle : is_idle k' = is_idle k0;
  u_idles : idle_task p' = idle_task p;
  u_seats : forall t, t ∈ cpu_seats p' -> t ∈ cpu_seats p;
  u_nodup : NoDup (cpu_seats p');
  u_refs : forall t, t ∈ cpu_refs p' -> t ∈ cpu_refs p \/ is_Some (T !! t);
  u_tok : forall t, (occ t (cpu_toks p') + occ t (cpu_debts p) + (if decide (t = t0) then ready_tok (Some k0) else 0) =
                     occ t (cpu_toks p) + occ t (cpu_debts p') + (if decide (t = t0) then ready_tok (Some k') else 0))%nat;
  u_runs : forall t, t <> t0 -> t ∈ cpu_runs p' <-> t ∈ cpu_runs p;
  u_ons : forall t, t <> t0 -> t ∈ cpu_ons p' <-> t ∈ cpu_ons p;
  u_deads : forall t, t ∈ cpu_deads p' <-> t ∈ cpu_deads p \/ (t = t0 /\ state k' = Exited /\ state k0 <> Exited);
  u_run : state k' = Running <-> t0 ∈ cpu_runs p' \/ (state k0 = Running /\ t0 ∉ cpu_runs p);
  u_on : on_cpu k' = true <-> t0 ∈ cpu_ons p' \/ (on_cpu k0 = true /\ t0 ∉ cpu_ons p);
  u_dead : state k0 = Exited -> state k' = Exited;
  u_new_dead : state k' = Exited -> state k0 <> Exited -> only_at c t0 C;
  u_blocked : state k' = Blocked -> state k0 = Blocked \/ exists w f, t_code k' = CBlock w f BLoop;
  u_exited : state k' = Exited -> state k0 = Exited \/ t_code k' = CTask;
  u_idle_state : is_idle k0 = true -> state k' = state k0 \/ state k' = Running \/ state k' = Ready;
  u_hand : hand_ok c p' T C;
  u_migr : forall m t, code_at m (fun c => c = CMigrate t) T -> hands_over m t p -> t ∈ cpu_seats p' -> hands_over m t p';
}.

Lemma code_at_insert t P T t0 k0 k' :
  T !! t0 = Some k0 -> t_code k' = t_code k0 -> code_at t P T -> code_at t P (<[t0 := k']> T).
Proof.
  intros Hk Hc (k & Ht & HP). destruct (decide (t = t0)) as [->|].
  - exists k'. rewrite lookup_insert_eq. simplify_eq. by rewrite Hc.
  - exists k. by rewrite lookup_insert_ne.
Qed.

Lemma hand_code c p T C t0 k0 k' :
  T !! t0 = Some k0 -> t_code k' = t_code k0 -> hand_ok c p T C -> hand_ok c p (<[t0 := k']> T) C.
Proof.
  intros Hk Hc. unfold hand_ok. pose proof (fun t P => code_at_insert t P T t0 k0 k' Hk Hc) as Hca.
  repeat case_match; try done; first [apply Hca|intros (? & ?%Hca & ?%Hca); eauto].
Qed.

Lemma core_update T C R c p p' t0 k0 k' :
  core T C R -> C !! c = Some p -> T !! t0 = Some k0 -> update T C R c p p' t0 k0 k' ->
  core (<[t0 := k']> T) (<[c := p']> C) R.
Proof.
  intros [] Hp Hk0 [].
  assert (Htask : forall t k, <[t0 := k']> T !! t = Some k -> exists k1, T !! t = Some k1 /\ t_code k = t_code k1 /\ is_idle k = is_idle k1 /\ (t <> t0 -> k1 = k)).
  { intros t k [[<- <-]|[? ?]]%lookup_insert_Some; [by exists k0|by exists k]. }
  assert (Hsome : forall t, is_Some (T !! t) -> is_Some (<[t0 := k']> T !! t)).
  { intros t [k Hk]. destruct (decide (t = t0)) as [->|]; [rewrite lookup_insert_eq|rewrite lookup_insert_ne by done]; by eexists. }
  assert (Helse : forall (f : cpu -> list Z), (forall t q, t ∈ f q -> t ∈ cpu_seats q) ->
    (exists c0 q, <[c := p']> C !! c0 = Some q /\ t0 ∈ f q) <-> t0 ∈ f p' \/ ((exists c0 q, C !! c0 = Some q /\ t0 ∈ f q) /\ t0 ∉ f p)).
  { intros f Hf. split.
    - intros (c0 & q & [[<- <-]|[Hc Hq]]%lookup_insert_Some & Hin); [by left|right]. split; [by eauto|].
      intros Hin'. apply Hc. symmetry. eapply c_uniq0; [exact Hq|exact Hp|by apply Hf..].
    - intros [Hin|[(c0 & q & Hq & Hin) Hn]]; [exists c, p'; by rewrite lookup_insert_eq|].
      exists c0, q. rewrite lookup_insert_ne; [done|]. intros ->. by simplify_eq. }
  split.
  - intros t c1 p1 c2 p2 H1 H2 Hi1 Hi2.
    apply lookup_insert_Some in H1 as [[<- <-]|[? ?]], H2 as [[<- <-]|[? ?]]; try done; eauto.
  - intros c0 q [[<- <-]|[? ?]]%lookup_insert_Some; eauto.
  - intros c0 q t Hq Hin. apply Hsome. apply lookup_insert_Some in Hq as [[<- <-]|[? ?]]; [|by eauto].
    apply elem_of_app in Hin as [Hin|[Hin|?]%u_refs0]; [..|done]; eapply c_alive0; [exact Hp| |exact Hp|]; apply elem_of_app; eauto.
  - eauto.
  - intros i k t (k1 & Hk1 & Hc & _)%Htask Hin. rewrite Hc in Hin. eauto.
  - intros t. pose proof (c_tok0 t) as Ht. specialize (u_tok0 t). unfold tok, debt in *.
    pose proof (msum_insert (fun _ p => occ t (cpu_toks p)) c p p' C Hp). pose proof (msum_insert (fun _ p => occ t (cpu_debts p)) c p p' C Hp).
    pose proof (msum_insert (fun _ k => occ t (code_toks (t_code k))) t0 k0 k' T Hk0) as Hc. simpl in *. rewrite u_code0 in Hc.
    destruct (decide (t = t0)) as [->|]; [rewrite lookup_insert_eq; rewrite Hk0 in Ht|rewrite lookup_insert_ne by done]; simpl in *; lia.
  - intros t k [[<- <-]|[? Hk]]%lookup_insert_Some; [|rewrite (elem_at cpu_runs t C c p p') by auto; by apply c_run0].
    rewrite u_run0, (Helse cpu_runs) by apply runs_seats. by rewrite (c_run0 _ _ Hk0).
  - intros t k [[<- <-]|[? Hk]]%lookup_insert_Some; [|rewrite (elem_at cpu_ons t C c p p') by auto; by apply c_on0].
    rewrite u_on0, (Helse cpu_ons) by apply ons_seats. by rewrite (c_on0 _ _ Hk0).
  - assert (Hheld : forall t, (exists i ki, <[t0 := k']> T !! i = Some ki /\ t ∈ code_deads (t_code ki)) <-> exists i ki, T !! i = Some ki /\ t ∈ code_deads (t_code ki)).
    { intros t. split; intros (i & ki & Hi & Hin).
      - apply Htask in Hi as (k1 & Hk1 & Hc & _). exists i, k1. by rewrite <- Hc.
      - destruct (decide (i = t0)) as [->|]; [exists t0, k'; rewrite lookup_insert_eq, u_code0; by simplify_eq|exists i, ki; by rewrite lookup_insert_ne]. }
    intros t k Hk. rewrite Hheld. apply lookup_insert_Some in Hk as [[<- <-]|[? Hk]].
    + split.
      * intros He. destruct (decide (state k0 = Exited)) as [He0|].
        -- apply (c_dead0 _ _ Hk0) in He0 as [(c0 & q & Hq & Hin)|?]; [left|by right].
           destruct (decide (c0 = c)) as [->|]; [|exists c0, q; by rewrite lookup_insert_ne].
           exists c, p'. rewrite lookup_insert_eq, u_deads0. simplify_eq. auto.
        -- left. exists c, p'. rewrite lookup_insert_eq, u_deads0. auto.
      * intros [(c0 & q & [[<- <-]|[? ?]]%lookup_insert_Some & Hin)|?]; [apply u_deads0 in Hin as [?|[_ [? _]]]; [|done]|..];
          apply u_dead0, (c_dead0 _ _ Hk0); eauto.
    + rewrite (elem_at cpu_deads t C c p p'); [by apply c_dead0|done|]. rewrite u_deads0. naive_solver.
  - intros c0 q t Hq Hin. eapply only_at_mono; [done|by apply u_seats0|].
    apply lookup_insert_Some in Hq as [[<- <-]|[? ?]]; [apply u_deads0 in Hin as [?|(-> & ? & ?)]|]; eauto.
  - intros i k t (k1 & Hk1 & Hc & _)%Htask Hin. rewrite Hc in Hin. eapply unseated_mono; [done|by apply u_seats0|]. eauto.
  - intros t k [[<- <-]|[? Hk]]%lookup_insert_Some Hb; [|by eauto]. rewrite u_code0 in *. destruct (u_blocked0 Hb); eauto.
  - intros t k [[<- <-]|[? Hk]]%lookup_insert_Some Hb; [|by eauto]. rewrite u_code0 in *. destruct (u_exited0 Hb); eauto.
  - intros c0 q t Hq Hin. eapply only_at_mono; [done|by apply u_seats0|]. eauto.
  - intros c0 q Hq. eapply hand_mono; [done..|]. eapply hand_code; [done..|]. apply lookup_insert_Some in Hq as [[<- <-]|[? ?]]; eauto.
  - intros m k t c0 q (k1 & Hm & Hc & _)%Htask Hc' Hq Hin. rewrite Hc in Hc'. apply lookup_insert_Some in Hq as [[<- <-]|[? ?]]; [|by eauto].
    apply u_migr0; [by exists k1| |done]. eauto.
  - intros c0 q Hq. assert (exists q0, C !! c0 = Some q0 /\ idle_task q0 = idle_task q) as (q0 & Hq0 & Hi).
    { apply lookup_insert_Some in Hq as [[<- <-]|[? ?]]; eauto. }
    destruct (c_idle0 _ _ Hq0) as [(k & Hk & ? & ?) Ho]. rewrite Hi in *. split; [|eapply only_at_mono; [done|by apply u_seats0|done]].
    destruct (decide (idle_task q = t0)) as [<-|]; [exists k'; rewrite lookup_insert_eq|exists k; by rewrite lookup_insert_ne].
    simplify_eq. rewrite u_idle0. split_and!; [done..|]. destruct u_idle_state0 as [->|]; auto.
  - intros c1 p1 c2 p2 H1 H2 Heq.
    apply lookup_insert_Some in H1 as [[<- <-]|[? ?]], H2 as [[<- <-]|[? ?]]; [done|..]; eapply c_idles0; eauto; congruence.
  - intros c0 q t k Hq Hin (k1 & Hk1 & _ & -> & _)%Htask Hi. apply lookup_insert_Some in Hq as [[<- <-]|[? ?]]; [rewrite u_idles0; apply u_seats0 in Hin|]; eauto.
  - intros t k (k1 & Hk1 & -> & -> & _)%Htask. eauto.
  - intros c0. rewrite <- c_rq0. destruct (decide (c0 = c)) as [->|]; [rewrite lookup_insert_eq, Hp; split; by eexists|by rewrite lookup_insert_ne].
Qed.
(** Only a CPU changes, and no task its place. *)
Lemma core_cpu T C R c p p' :
  core T C R -> C !! c = Some p ->
  idle_task p' = idle_task p -> cpu_seats p' = cpu_seats p -> (forall t, t ∈ cpu_refs p' -> t ∈ cpu_refs p \/ is_Some (T !! t)) ->
  (forall t, occ t (cpu_toks p') + occ t (cpu_debts p) = occ t (cpu_toks p) + occ t (cpu_debts p'))%nat ->
  cpu_runs p' = cpu_runs p -> cpu_ons p' = cpu_ons p -> (forall t, t ∈ cpu_deads p' <-> t ∈ cpu_deads p) ->
  hand_ok c p' T C -> (forall m t, hands_over m t p -> hands_over m t p') ->
  core T (<[c := p']> C) R.
Proof.
  intros Hcore Hp Hi Hs Hr Ht Hru Hon Hde Hh Hm. assert (is_Some (T !! current p)) as [k Hk].
  { eapply c_alive; [done..|]. apply elem_of_app. left. unfold cpu_seats. by left. }
  rewrite <- (insert_id T (current p) k Hk). eapply core_update; [done..|].
  core_fields Hcore. split; rewrite ?Hs, ?Hru, ?Hon; try done; eauto.
  - intros t. rewrite Hde. naive_solver.
  - rewrite (c_run0 _ _ Hk). destruct (decide (current p ∈ cpu_runs p)); [|tauto]. split; [by left|]. eauto.
  - rewrite (c_on0 _ _ Hk). destruct (decide (current p ∈ cpu_ons p)); [|tauto]. split; [by left|]. eauto.
Qed.
(** Only a task changes, in ways that do not matter here. *)
Definition similar (k k' : TaskInner) : Prop :=
  t_code k' = t_code k /\ is_idle k' = is_idle k /\ state k' = state k /\ on_cpu k' = on_cpu k.

Lemma core_task T C R t k k' : core T C R -> T !! t = Some k -> similar k k' -> core (<[t := k']> T) C R.
Proof.
  intros Hcore Hk (Hc & Hi & Hst & Hon).
  assert (Htask : forall i x, <[t := k']> T !! i = Some x -> exists y, T !! i = Some y /\ similar y x).
  { intros i x [[<- <-]|[? ?]]%lookup_insert_Some; eexists; (split; [done|]); by split_and!. }
  assert (Hsome : forall i, is_Some (T !! i) -> is_Some (<[t := k']> T !! i)).
  { intros i [x Hx]. destruct (decide (i = t)) as [->|]; [rewrite lookup_insert_eq|rewrite lookup_insert_ne by done]; by eexists. }
  core_fields Hcore. split; try done.
  - eauto.
  - eauto.
  - intros i x u (y & Hy & -> & _)%Htask ?. eauto.
  - intros u. pose proof (c_tok0 u) as Hu.
    pose proof (msum_insert (fun _ k => occ u (code_toks (t_code k))) t k k' T Hk) as Hm. simpl in Hm. rewrite Hc in Hm.
    unfold tok in *. destruct (decide (u = t)) as [->|]; [rewrite lookup_insert_eq|rewrite lookup_insert_ne by done; lia].
    rewrite Hk in Hu. unfold ready_tok, is_ready in *. rewrite Hi, Hst. lia.
  - intros i x (y & Hy & _ & _ & -> & _)%Htask. eauto.
  - intros i x (y & Hy & _ & _ & _ & ->)%Htask. eauto.
  - intros i x (y & Hy & _ & _ & -> & _)%Htask. rewrite (c_dead0 _ _ Hy). apply or_iff_compat_l. split.
    + intros (j & z & Hz & Hin). destruct (decide (j = t)) as [->|]; [exists t, k'; rewrite lookup_insert_eq, Hc; by simplify_eq|].
      exists j, z. by rewrite lookup_insert_ne.
    + intros (j & z & (w & Hw & Hc' & _)%Htask & Hin). rewrite Hc' in Hin. eauto.
  - intros i x u (y & Hy & -> & _)%Htask. eauto.
  - intros i x (y & Hy & -> & _ & -> & _)%Htask. eauto.
  - intros i x (y & Hy & -> & _ & -> & _)%Htask. eauto.
  - intros c p Hp. by eapply hand_code; [..|apply c_hand0].
  - intros m x u c p (y & Hy & -> & _)%Htask. eauto.
  - intros c p Hp. destruct (c_idle0 c p Hp) as [(x & Hx & ? & ?) Ho]. split; [|done].
    destruct (decide (idle_task p = t)) as [<-|]; [exists k'; rewrite lookup_insert_eq|exists x; by rewrite lookup_insert_ne].
    simplify_eq. by rewrite Hi, Hst.
  - intros c p u x Hp Hin (y & Hy & _ & -> & _)%Htask. eauto.
  - intros i x (y & Hy & -> & -> & _)%Htask. eauto.
Qed.

(** A CPU moves a task between its hands and a run queue. *)
Lemma core_queue T C R c p p' q b b' :
  core T C R -> C !! c = Some p -> R !! q = Some b ->
  idle_task p' = idle_task p -> cpu_seats p' = cpu_seats p -> (forall t, t ∈ cpu_refs p' -> t ∈ cpu_refs p \/ is_Some (T !! t)) ->
  (forall t, occ t (owned b') + occ t (cpu_toks p') + occ t (cpu_debts p) = occ t (owned b) + occ t (cpu_toks p) + occ t (cpu_debts p'))%nat ->
  cpu_runs p' = cpu_runs p -> cpu_ons p' = cpu_ons p -> cpu_deads p' = cpu_deads p ->
  hand_ok c p' T C -> (forall m t, hands_over m t p -> hands_over m t p') ->
  (forall t, t ∈ owned b' -> t ∈ owned b \/ (is_Some (T !! t) /\ only_at q t C)) ->
  core T (<[c := p']> C) (<[q := b']> R).
Proof.
  intros [] Hp Hb Hi Hs Hr Ht Hru Hon Hde Hh Hm Ho.
  assert (Hcpu : forall c0 x, <[c := p']> C !! c0 = Some x -> exists y, C !! c0 = Some y /\ idle_task x = idle_task y /\
    cpu_seats x = cpu_seats y /\ cpu_runs x = cpu_runs y /\ cpu_ons x = cpu_ons y /\ cpu_deads x = cpu_deads y).
  { intros c0 x [[<- <-]|[? ?]]%lookup_insert_Some; eexists; (split; [done|]); by split_and!. }
  assert (Hset : forall c0 t, only_at c0 t C -> only_at c0 t (<[c := p']> C)).
  { intros c0 t Ho'. eapply only_at_mono; [done| |done]. by rewrite Hs. }
  split; try done.
  - intros t c1 p1 c2 p2 (? & ? & _ & -> & _)%Hcpu (? & ? & _ & -> & _)%Hcpu. eauto.
  - intros c0 x (? & ? & _ & -> & _)%Hcpu. eauto.
  - intros c0 x t [[<- <-]|[? ?]]%lookup_insert_Some Hin; [|by eauto].
    rewrite elem_of_app, Hs in Hin. destruct Hin as [Hin|[Hin|?]%Hr]; [..|done]; eapply c_alive0; [exact Hp| |exact Hp|]; apply elem_of_app; eauto.
  - intros c0 x t [[<- <-]|[? ?]]%lookup_insert_Some Hin; [|by eauto]. apply Ho in Hin as [?|[? _]]; eauto.
  - intros t. pose proof (c_tok0 t) as Hu. specialize (Ht t). unfold tok, debt in *.
    pose proof (msum_insert (fun _ p => occ t (cpu_toks p)) c p p' C Hp). pose proof (msum_insert (fun _ p => occ t (cpu_debts p)) c p p' C Hp).
    pose proof (msum_insert (fun _ q => occ t (owned q)) q b b' R Hb). simpl in *. lia.
  - intros t k Hk. rewrite (elem_at cpu_runs t C c p p'); [by apply c_run0|done|by rewrite Hru].
  - intros t k Hk. rewrite (elem_at cpu_ons t C c p p'); [by apply c_on0|done|by rewrite Hon].
  - intros t k Hk. rewrite (elem_at cpu_deads t C c p p'); [by apply c_dead0|done|by rewrite Hde].
  - intros c0 x t (? & ? & _ & _ & _ & _ & ->)%Hcpu Hin. eauto.
  - intros i k t Hk Hin. eapply unseated_mono; [done|by rewrite Hs|]. eauto.
  - intros c0 x t [[<- <-]|[? ?]]%lookup_insert_Some Hin; [|by eauto]. apply Ho in Hin as [?|[_ ?]]; eauto.
  - intros c0 x Hx. eapply hand_mono; [done|by intros ?; rewrite Hs|]. apply lookup_insert_Some in Hx as [[<- <-]|[? ?]]; eauto.
  - intros m k t c0 x Hk Hc Hx Hin. apply lookup_insert_Some in Hx as [[<- <-]|[? ?]]; [|by eauto]. rewrite Hs in Hin. eauto.
  - intros c0 x (y & Hy & Hid & _)%Hcpu. destruct (c_idle0 _ _ Hy) as [? ?]. rewrite <- Hid in *. split; eauto.
  - intros c1 p1 c2 p2 (? & ? & -> & _)%Hcpu (? & ? & -> & _)%Hcpu. eauto.
  - intros c0 x t k (y & Hy & -> & -> & _)%Hcpu. eauto.
  - intros c0. rewrite (lookup_insert_is_Some C), (lookup_insert_is_Some R), c_rq0. split.
    + intros Hc. destruct (decide (q = c0)); [by left|right; split; [done|]]. destruct Hc as [<-|[_ ?]]; [|done]. apply c_rq0. by rewrite Hp.
    + intros Hc. destruct (decide (c = c0)); [by left|right; split; [done|]]. destruct Hc as [<-|[_ ?]]; [|done]. by rewrite Hb.
Qed.
(** ** Tokens *)

Lemma occ_of_pos t l : (1 <= occ t l)%nat -> t ∈ l.
Proof. intros Ho. destruct (decide (t ∈ l)) as [|Hn]; [done|]. rewrite occ_not_elem in Ho by done. lia. Qed.

Lemma current_seat p : current p ∈ cpu_seats p.
Proof. unfold cpu_seats. by left. Qed.

Lemma debt_alone T C R t c p :
  core T C R -> C !! c = Some p -> t ∈ cpu_debts p ->
  debt t C = 1%nat /\ (1 <= msum (fun _ k => occ t (code_toks (t_code k))) T)%nat /\ ready_tok (T !! t) = 0%nat.
Proof.
  intros Hc Hp Hin. unfold cpu_debts in Hin. destruct (doing p) eqn:Hd; try by apply not_elem_of_nil in Hin.
  apply list_elem_of_singleton in Hin as ->. split_and!.
  - unfold debt. rewrite (msum_delete _ c p) by done. rewrite msum_zero.
    + unfold cpu_debts. by rewrite Hd, occ_of_cons, decide_True.
    + intros c' p' [Hne Hp']%lookup_delete_Some. apply occ_not_elem. unfold cpu_debts. destruct (doing p'); try apply not_elem_of_nil.
      intros He%list_elem_of_singleton. apply Hne. eapply (c_uniq _ _ _ Hc (current p)); [exact Hp|exact Hp'|apply current_seat|]. rewrite He. apply current_seat.
  - pose proof (c_hand _ _ _ Hc _ _ Hp) as Hh. unfold hand_ok in Hh. rewrite Hd in Hh. destruct Hh as (_ & (k & Hk & Hcode) & _).
    pose proof (msum_le (fun _ k => occ (current p) (code_toks (t_code k))) _ _ _ Hk) as Hle. simpl in Hle. rewrite Hcode in Hle. simpl in Hle.
    rewrite occ_of_cons, decide_True in Hle by done. lia.
  - destruct (T !! current p) as [k|] eqn:Hk; [|done]. simpl. unfold is_ready. rewrite (bool_decide_false (state k = Ready)); [by rewrite andb_false_r|].
    assert (state k = Running) as ->; [|done]. apply (c_run _ _ _ Hc _ _ Hk). exists c, p. split; [done|]. unfold cpu_runs. rewrite Hd. by left.
Qed.

(** A task in a queue or in the hands of a CPU is ready, is there once and nowhere else. *)
Lemma token_ready T C R t :
  core T C R -> (1 <= msum (fun _ q => occ t (owned q)) R + msum (fun _ p => occ t (cpu_toks p)) C)%nat ->
  tok t T C R = 1%nat /\ exists k, T !! t = Some k /\ is_idle k = false /\ state k = Ready.
Proof.
  intros Hc Hle. pose proof (c_tok _ _ _ Hc t) as Ht. destruct (decide (1 <= debt t C)%nat) as [Hd|].
  - apply msum_pos in Hd as (c & p & Hp & Hin%occ_of_pos). destruct (debt_alone _ _ _ _ _ _ Hc Hp Hin) as (Hd1 & Hk & Hr).
    unfold tok in Ht. lia.
  - assert (ready_tok (T !! t) = 1%nat) as Hr.
    { unfold tok in Ht. unfold ready_tok in *. repeat case_match; lia. }
    split; [lia|]. unfold ready_tok in Hr. destruct (T !! t) as [k|]; [|done]. exists k. unfold is_ready in Hr. destruct (is_idle k); [done|]. simpl in Hr. by case_bool_decide.
Qed.

Lemma token_hand T C R t c p :
  core T C R -> C !! c = Some p -> t ∈ cpu_toks p ->
  (exists k, T !! t = Some k /\ is_idle k = false /\ state k = Ready) /\
  (forall q b, R !! q = Some b -> t ∉ owned b) /\ (forall m k, T !! m = Some k -> t_code k <> CMigrate t) /\
  forall c' p', C !! c' = Some p' -> t ∈ cpu_toks p' -> c' = c.
Proof.
  intros Hc Hp Hin%occ_elem. pose proof (msum_le (fun _ p => occ t (cpu_toks p)) _ _ _ Hp) as H1. simpl in H1.
  destruct (token_ready T C R t Hc ltac:(lia)) as [Ht Hk]. split; [done|]. unfold tok in Ht. split_and!.
  - intros q b Hb Ho%occ_elem. pose proof (msum_le (fun _ q => occ t (owned q)) _ _ _ Hb). simpl in *. lia.
  - intros m k Hm Hcode. pose proof (msum_le (fun _ k => occ t (code_toks (t_code k))) _ _ _ Hm) as H2. simpl in H2.
    rewrite Hcode in H2. simpl in H2. rewrite occ_of_cons, decide_True in H2 by done. lia.
  - intros c' p' Hp' Ho%occ_elem. destruct (decide (c' = c)) as [|Hne]; [done|].
    pose proof (msum_le2 (fun _ p => occ t (cpu_toks p)) _ _ _ _ _ Hp' Hp Hne). simpl in *. lia.
Qed.

Lemma token_queue T C R t q b : core T C R -> R !! q = Some b -> t ∈ owned b ->
  exists k, T !! t = Some k /\ is_idle k = false /\ state k = Ready.
Proof.
  intros Hc Hb Hin%occ_elem. pose proof (msum_le (fun _ q => occ t (owned q)) _ _ _ Hb) as H1. simpl in H1.
  by destruct (token_ready T C R t Hc ltac:(lia)) as [_ Hk].
Qed.

(** The idle task is ready unless its CPU runs it. *)
Lemma idle_ready T C R c p : core T C R -> C !! c = Some p -> idle_task p ∉ cpu_runs p ->
  exists k, T !! idle_task p = Some k /\ is_idle k = true /\ state k = Ready.
Proof.
  intros Hc Hp Hn. destruct (c_idle _ _ _ Hc _ _ Hp) as [(k & Hk & Hi & [Hr|Hr]) Ho]; [|by eauto].
  apply (c_run _ _ _ Hc _ _ Hk) in Hr as (c' & p' & Hp' & Hin). pose proof (Ho _ _ Hp' (runs_seats _ _ Hin)) as ->. by simplify_eq.
Qed.
End Core.
