(* ===== verification/SchedMoves.v ===== *)
(** * Moves of tasks between CPUs and queues

    The moves of [Sched] that change more than one place at a time keep [core]: a CPU takes the
    stack of the task it picked, the code of a task advances, a task is created, one is freed, and a
    CPU is started. *)

From S2P Require Import Prelude Sched SchedSpec.

Section Moves.
Context {Q : Type} `{BaseSchedulerLaws Q}.
Implicit Types (T : gmap Z TaskInner) (C : gmap Z cpu) (R : gmap Z Q).

(** ** The other moves *)

Lemma switch_ready T C R c p n :
  core T C R -> C !! c = Some p -> doing p = PPicked n \/ doing p = PSwitch n ->
  exists k, T !! n = Some k /\ state k = Ready /\ (is_idle k = true <-> n = idle_task p).
Proof.
  intros Hc Hp Hd. destruct (decide (n = idle_task p)) as [->|Hn].
  - destruct (idle_ready _ _ _ _ _ Hc Hp) as (k & ? & ? & ?); [|by exists k]. unfold cpu_runs. destruct Hd as [-> | ->]; apply not_elem_of_nil.
  - destruct (token_hand _ _ _ n _ _ Hc Hp) as [(k & ? & Hi & ?) _].
    { unfold cpu_toks, pc_toks. destruct Hd as [-> | ->]; rewrite decide_False by done; by left. }
    exists k. split_and!; [done..|]. rewrite Hi. naive_solver.
Qed.

(** The next task is nowhere but in the hands of the CPU that picked it. *)
Record alone T C R (c n : Z) : Prop := {
  n_seat : unseated n C;
  n_held : forall i x, T !! i = Some x -> n ∉ code_deads (t_code x);
  n_dead : forall c0 q, C !! c0 = Some q -> n ∉ cpu_deads q;
  n_queue : forall q b, R !! q = Some b -> n ∉ owned b;
  n_migr : forall m x, T !! m = Some x -> t_code x <> CMigrate n;
  n_hand : forall c0 q, C !! c0 = Some q -> c0 <> c -> n ∉ cpu_toks q /\ n <> idle_task q;
}.

Lemma next_alone T C R c p n :
  core T C R -> C !! c = Some p -> doing p = PSwitch n -> n <> current p -> alone T C R c n.
Proof.
  intros Hc Hp Hd Hne. destruct (switch_ready _ _ _ _ _ n Hc Hp) as (k & Hk & Hr & Hi); [by right|].
  assert (Hh : only_at c n C). { pose proof (c_hand _ _ _ Hc _ _ Hp) as Hh. unfold hand_ok in Hh. by rewrite Hd in Hh. }
  assert (Hu : unseated n C).
  { intros c' p' Hp' Hin. pose proof (Hh _ _ Hp' Hin) as ->. simplify_eq. unfold cpu_seats in Hin. rewrite Hd in Hin. set_solver. }
  assert (Hpick : n = idle_task p \/ n ∈ cpu_toks p).
  { destruct (decide (n = idle_task p)); [by left|right]. unfold cpu_toks. rewrite Hd. simpl. rewrite decide_False by done. by left. }
  split; [exact Hu|..].
  - intros i x Hx Hin. assert (state k = Exited); [|congruence]. apply (c_dead _ _ _ Hc _ _ Hk). right. eauto.
  - intros c0 q Hq Hin. assert (state k = Exited); [|congruence]. apply (c_dead _ _ _ Hc _ _ Hk). left. eauto.
  - intros q b Hb Hin. destruct (token_queue _ _ _ _ _ _ Hc Hb Hin) as (? & ? & Hx & _). simplify_eq.
    destruct Hpick as [Heq|Hin']; [apply Hi in Heq; congruence|]. eapply (proj1 (proj2 (token_hand _ _ _ _ _ _ Hc Hp Hin'))); eauto.
  - intros m x Hx Hm. destruct Hpick as [Heq|Hin']; [|by eapply (proj1 (proj2 (proj2 (token_hand _ _ _ _ _ _ Hc Hp Hin'))))].
    pose proof (c_tok _ _ _ Hc n) as Ht. rewrite Hk in Ht. apply Hi in Heq as Hik. unfold ready_tok in Ht. rewrite Hik in Ht. simpl in Ht.
    pose proof (msum_le (fun _ k => occ n (code_toks (t_code k))) _ _ _ Hx) as Hle. simpl in Hle. rewrite Hm in Hle. simpl in Hle. rewrite occ_of_cons, decide_True in Hle by done.
    destruct (msum_pos (fun _ p => occ n (cpu_debts p)) C) as (c0 & q & Hq & Hin%occ_of_pos); [unfold tok, debt in *; lia|].
    unfold cpu_debts in Hin. destruct (doing q); try by apply not_elem_of_nil in Hin. apply list_elem_of_singleton in Hin. eapply Hu; [exact Hq|]. rewrite Hin. apply current_seat.
  - intros c0 q Hq Hcne. split.
    + intros Hin. destruct (token_hand _ _ _ _ _ _ Hc Hq Hin) as [(? & ? & ? & _) [_ [_ Huq]]]. simplify_eq.
      destruct Hpick as [Heq|Hin']; [apply Hi in Heq; congruence|]. apply Hcne. symmetry. by eapply Huq.
    + intros Heq. destruct (c_idle _ _ _ Hc _ _ Hq) as [(x & Hx & Hix & _) _]. rewrite <- Heq in Hx.
      assert (x = k) as -> by congruence. apply Hi in Hix. apply Hcne. eapply (c_idles _ _ _ Hc); [done..|congruence].
Qed.

Lemma seats_claim p n t : t ∈ cpu_seats (set_doing (PClaim n) p) -> t = n \/ t = current p.
Proof. unfold cpu_seats. simpl. set_solver. Qed.

Lemma refs_claim p n t :
  doing p = PSwitch n -> t ∈ cpu_seats (set_doing (PClaim n) p) ++ cpu_refs (set_doing (PClaim n) p) -> t ∈ cpu_seats p ++ cpu_refs p.
Proof. intros Hd. unfold cpu_seats, cpu_refs. rewrite Hd. simpl. set_solver. Qed.

(** The CPU takes the stack of the next task. *)
Lemma core_switch T C R c p n k k' :
  core T C R -> C !! c = Some p -> doing p = PSwitch n -> n <> current p -> T !! n = Some k ->
  t_code k' = t_code k -> is_idle k' = is_idle k -> on_cpu k' = on_cpu k -> state k' = Running ->
  core (<[n := k']> T) (<[c := set_doing (PClaim n) p]> C) R.
Proof.
  intros Hc Hp Hd Hne Hk Hcode Hidle Hon Hst. destruct (switch_ready _ _ _ _ _ n Hc Hp) as (k1 & Hk1 & Hr & Hi); [by right|]. simplify_eq.
  pose proof (next_alone _ _ _ _ _ _ Hc Hp Hd Hne) as [Hu Hna Hnd Hnq Hnm Hnh].
  set (p' := set_doing (PClaim n) p).
  assert (Hs : forall t c0 q, <[c := p']> C !! c0 = Some q -> t ∈ cpu_seats q -> (t = n /\ c0 = c) \/ (t <> n /\ exists q0, C !! c0 = Some q0 /\ t ∈ cpu_seats q0)).
  { intros t c0 q [[<- <-]|[? Hq]]%lookup_insert_Some Hin.
    - apply seats_claim in Hin as [->| ->]; [by left|right]. split; [done|]. exists p. split; [done|apply current_seat].
    - right. split; [|by eauto]. intros ->. by eapply Hu. }
  assert (Hoa : forall c0 t, only_at c0 t C -> t <> n -> only_at c0 t (<[c := p']> C)).
  { intros c0 t Ho Htn c1 q Hq Hin. destruct (Hs _ _ _ Hq Hin) as [[? _]|(_ & q0 & ? & ?)]; [done|]. by eapply Ho. }
  core_fields Hc. split.
  - intros t c1 p1 c2 p2 H1 H2 Hi1 Hi2. destruct (Hs _ _ _ H1 Hi1) as [[-> ->]|(? & q1 & ? & ?)], (Hs _ _ _ H2 Hi2) as [[? ->]|(? & q2 & ? & ?)]; try done. eauto.
  - intros c0 q [[<- <-]|[? ?]]%lookup_insert_Some; [|by eauto]. unfold cpu_seats. simpl. apply NoDup_cons. split; [set_solver|apply NoDup_singleton].
  - intros c0 q t Hq Hin. assert (is_Some (T !! t)) as [x Hx].
    { apply lookup_insert_Some in Hq as [[<- <-]|[? ?]]; [|by eauto]. apply (c_alive0 _ _ _ Hp). by eapply refs_claim. }
    rewrite lookup_insert_is_Some. destruct (decide (n = t)); [by left|right; by eauto].
  - intros c0 b t Hb Hin. rewrite lookup_insert_is_Some. destruct (decide (n = t)); [by left|right; by eauto].
  - intros i x t Hx Hin. rewrite lookup_insert_is_Some. destruct (decide (n = t)); [by left|right; split; [done|]].
    apply lookup_insert_Some in Hx as [[<- <-]|[? ?]]; [rewrite Hcode in Hin|]; eauto.
  - intros t. pose proof (c_tok0 t) as Ht. unfold tok, debt in *.
    pose proof (msum_insert (fun _ p => occ t (cpu_toks p)) c p p' C Hp) as H1. pose proof (msum_insert (fun _ p => occ t (cpu_debts p)) c p p' C Hp) as H2.
    pose proof (msum_insert (fun _ k => occ t (code_toks (t_code k))) n k k' T Hk) as H3. simpl in *. rewrite Hcode in H3.
    unfold cpu_toks at 2 4 in H1. unfold cpu_debts at 2 4 in H2. rewrite Hd in H1, H2. simpl in H1, H2.
    assert (ready_tok (Some k') = 0%nat) as Hz. { unfold ready_tok, is_ready. rewrite Hst. by rewrite andb_false_r. }
    destruct (decide (t = n)) as [->|]; [rewrite lookup_insert_eq, Hz; rewrite Hk in Ht|rewrite lookup_insert_ne by done; destruct (decide (n = idle_task p)); rewrite ?occ_of_cons, ?decide_False in H1 by done; simpl in *; lia].
    unfold ready_tok, is_ready in Ht. rewrite Hr in Ht. simpl in Ht. destruct (decide (n = idle_task p)) as [E|E].
    + apply Hi in E. rewrite E in Ht. simpl in *. lia.
    + destruct (is_idle k); [exfalso; naive_solver|]. simpl in *. rewrite occ_of_cons, decide_True in H1 by done. simpl in *. lia.
  - intros t x [[<- <-]|[? Hx]]%lookup_insert_Some.
    + split; [intros _|done]. exists c, p'. rewrite lookup_insert_eq. split; [done|]. unfold cpu_runs. simpl. by left.
    + rewrite (elem_at cpu_runs t C c p p'); [by apply c_run0|done|]. unfold cpu_runs. rewrite Hd. simpl. set_solver.
  - intros t x Hx. assert (exists y, T !! t = Some y /\ on_cpu x = on_cpu y) as (y & Hy & ->).
    { apply lookup_insert_Some in Hx as [[<- <-]|[? ?]]; eauto. }
    rewrite (elem_at cpu_ons t C c p p'); [by apply c_on0|done|]. unfold cpu_ons. by rewrite Hd.
  - intros t x Hx. rewrite (elem_at cpu_deads t C c p p'); [|done|by unfold cpu_deads; rewrite Hd].
    assert ((exists i ki, <[n := k']> T !! i = Some ki /\ t ∈ code_deads (t_code ki)) <-> exists i ki, T !! i = Some ki /\ t ∈ code_deads (t_code ki)) as ->.
    { split; intros (i & ki & Hi' & Hin).
      - apply lookup_insert_Some in Hi' as [[<- <-]|[? ?]]; [rewrite Hcode in Hin|]; eauto.
      - destruct (decide (i = n)) as [->|]; [exists n, k'; rewrite lookup_insert_eq, Hcode; by simplify_eq|exists i, ki; by rewrite lookup_insert_ne]. }
    apply lookup_insert_Some in Hx as [[<- <-]|[? ?]]; [|by apply c_dead0]. rewrite <- (c_dead0 _ _ Hk). rewrite Hst, Hr. done.
  - intros c0 q t Hq Hin. assert (exists q0, C !! c0 = Some q0 /\ cpu_deads q = cpu_deads q0) as (q0 & Hq0 & He).
    { apply lookup_insert_Some in Hq as [[<- <-]|[? ?]]; [|by eauto]. exists p. split; [done|]. unfold cpu_deads. by rewrite Hd. }
    rewrite He in Hin. apply Hoa; [by eauto|]. intros ->. by eapply Hnd.
  - intros i x t Hx Hin. assert (exists y, T !! i = Some y /\ t_code x = t_code y) as (y & Hy & He).
    { apply lookup_insert_Some in Hx as [[<- <-]|[? ?]]; eauto. }
    rewrite He in Hin. intros c0 q Hq Hseat. destruct (Hs _ _ _ Hq Hseat) as [[-> _]|(_ & q0 & ? & ?)]; [by eapply Hna|by eapply c_held_seat0].
  - intros t x [[<- <-]|[? ?]]%lookup_insert_Some Hb; [congruence|eauto].
  - intros t x [[<- <-]|[? ?]]%lookup_insert_Some Hb; [congruence|eauto].
  - intros c0 b t Hb Hin. apply Hoa; [by eauto|]. intros ->. by eapply Hnq.
  - intros c0 q Hq. eapply hand_code; [done..|]. apply lookup_insert_Some in Hq as [[<- <-]|[Hcne Hq]]; [done|].
    destruct (Hnh _ _ Hq (not_eq_sym Hcne)) as [Hnt Hnid]. pose proof (c_hand0 _ _ Hq) as Hho. unfold hand_ok, cpu_toks in *.
    assert (Hun : forall t, unseated t C -> t <> n -> unseated t (<[c := p']> C)).
    { intros t Hut Htn c1 q1 Hq1 Hin1. destruct (Hs _ _ _ Hq1 Hin1) as [[? _]|(_ & q2 & ? & ?)]; [done|]. by eapply Hut. }
    assert (Hl : forall t, n ∉ [t] -> t <> n) by (by intros ? ?%not_elem_of_cons; naive_solver).
    assert (Hl2 : forall t, n ∉ (if decide (t = idle_task q) then [] else [t]) -> t <> n) by (intros t; case_decide; [congruence|apply Hl]).
    repeat case_match; try done; simpl in Hnt; first [by apply Hun, Hl|by apply Hoa, Hl2|idtac].
    destruct Hho as (? & ? & ?). split_and!; [by apply Hun, Hl|done..].
  - intros m x t c0 q Hx Hcm Hq Hin. assert (exists y, T !! m = Some y /\ t_code y = CMigrate t) as (y & Hy & He).
    { apply lookup_insert_Some in Hx as [[<- <-]|[? ?]]; [rewrite Hcode in Hcm|]; eauto. }
    apply lookup_insert_Some in Hq as [[<- <-]|[? Hq]]; [|by eauto]. destruct (decide (t = n)) as [->|Htn]; [by eapply Hnm in Hy|].
    assert (t ∈ cpu_seats p) as Hin'. { apply seats_claim in Hin as [->| ->]; [done|apply current_seat]. }
    pose proof (c_migr0 _ _ _ _ _ Hy He Hp Hin') as Hho. unfold hands_over in *. rewrite Hd in Hho. simpl. naive_solver.
  - intros c0 q Hq. assert (exists q0, C !! c0 = Some q0 /\ idle_task q = idle_task q0) as (q0 & Hq0 & He).
    { apply lookup_insert_Some in Hq as [[<- <-]|[? ?]]; eauto. }
    destruct (c_idle0 _ _ Hq0) as [(x & Hx & Hix & ?) Ho]. rewrite <- He in *. split.
    + destruct (decide (idle_task q = n)) as [<-|]; [exists k'; rewrite lookup_insert_eq|exists x; by rewrite lookup_insert_ne]. simplify_eq. rewrite Hidle. auto.
    + destruct (decide (idle_task q = n)) as [E|]; [|by apply Hoa]. intros c1 q1 Hq1 Hin1. destruct (Hs _ _ _ Hq1 Hin1) as [[_ ->]|[? _]]; [|done].
      destruct (decide (c0 = c)) as [->|Hcne]; [done|]. destruct (Hnh _ _ Hq0 Hcne) as [_ ?]. congruence.
  - intros c1 p1 c2 p2 H1 H2 Heq. apply lookup_insert_Some in H1 as [[<- <-]|[? ?]], H2 as [[<- <-]|[? ?]]; [done|..]; eauto.
  - intros c0 q t x Hq Hin Hx Hix. assert (exists y, T !! t = Some y /\ is_idle y = true) as (y & Hy & Hiy).
    { apply lookup_insert_Some in Hx as [[<- <-]|[? ?]]; [rewrite Hidle in Hix|]; eauto. }
    destruct (Hs _ _ _ Hq Hin) as [[-> ->]|(_ & q0 & Hq0 & Hin0)].
    + rewrite lookup_insert_eq in Hq. simplify_eq. simpl. by apply Hi.
    + rewrite (c_idle_seat0 _ _ _ _ Hq0 Hin0 Hy Hiy). apply lookup_insert_Some in Hq as [[<- <-]|[? ?]]; by simplify_eq.
  - intros t x [[<- <-]|[? ?]]%lookup_insert_Some; [rewrite Hcode, Hidle|]; eauto.
  - intros c0. rewrite <- c_rq0, lookup_insert_is_Some. split; [intros [<-|[_ ?]]; [by rewrite Hp|done]|]. intros ?. destruct (decide (c = c0)); [by left|by right].
Qed.
(** The code of the running task advances; it may take a task from the list of exited tasks, put it
    back, or hand over the one it migrates. *)
Record advance T C (c : Z) (p p' : cpu) (k k' : TaskInner) : Prop := {
  a_same : is_idle k' = is_idle k /\ state k' = state k /\ on_cpu k' = on_cpu k;
  a_idle : t_code k <> CIdle /\ t_code k' <> CIdle;
  a_migr : forall t, t_code k' <> CMigrate t;
  a_idles : idle_task p' = idle_task p;
  a_seats : cpu_seats p' = cpu_seats p;
  a_runs : cpu_runs p' = cpu_runs p;
  a_ons : cpu_ons p' = cpu_ons p;
  a_debts : cpu_debts p = [] /\ cpu_debts p' = [];
  a_refs : forall t, t ∈ cpu_refs p' ++ code_refs (current p) (t_code k') -> is_Some (T !! t);
  a_toks : forall t, (occ t (cpu_toks p') = occ t (cpu_toks p) + occ t (code_toks (t_code k)))%nat;
  a_deads : forall t, t ∈ cpu_deads p' \/ t ∈ code_deads (t_code k') <-> t ∈ cpu_deads p \/ t ∈ code_deads (t_code k);
  a_dead_seat : forall t, t ∈ cpu_deads p' -> only_at c t C;
  a_held_seat : forall t, t ∈ code_deads (t_code k') -> unseated t C;
  a_hand : hand_ok c p' (<[current p := k']> T) C;
}.

Lemma core_advance T C R c p p' k k' :
  core T C R -> C !! c = Some p -> doing p = PThread -> T !! current p = Some k -> advance T C c p p' k k' ->
  core (<[current p := k']> T) (<[c := p']> C) R.
Proof.
  intros Hc Hp Hd Hk [(Hi & Hst & Hon) (Hni & Hni') Hnm Hid Hs Hru Hons (Hde & Hde') Hrefs Htok Hdead Hds Hhs Hh].
  assert (Hcur : state k = Running).
  { apply (c_run _ _ _ Hc _ _ Hk). exists c, p. split; [done|]. unfold cpu_runs. rewrite Hd. by left. }
  assert (Hcpu : forall c0 x, <[c := p']> C !! c0 = Some x -> exists y, C !! c0 = Some y /\ idle_task x = idle_task y /\
    cpu_seats x = cpu_seats y /\ cpu_runs x = cpu_runs y /\ cpu_ons x = cpu_ons y).
  { intros c0 x [[<- <-]|[? ?]]%lookup_insert_Some; eexists; (split; [done|]); by split_and!. }
  assert (Hsome : forall i, is_Some (T !! i) -> is_Some (<[current p := k']> T !! i)).
  { intros i Hx. rewrite lookup_insert_is_Some. destruct (decide (current p = i)); [by left|by right]. }
  assert (Hon' : forall c0 t, only_at c0 t C -> only_at c0 t (<[c := p']> C)).
  { intros c0 t Ho. eapply only_at_mono; [done| |done]. by rewrite Hs. }
  assert (Hun' : forall t, unseated t C -> unseated t (<[c := p']> C)).
  { intros t Ho. eapply unseated_mono; [done| |done]. by rewrite Hs. }
  assert (Hother : forall c0 q, C !! c0 = Some q -> c0 <> c -> current q <> current p).
  { intros c0 q Hq Hne He. apply Hne. eapply (c_uniq _ _ _ Hc (current p)); [exact Hq|exact Hp| |]; [rewrite <- He|]; apply current_seat. }
  assert (Hhand : forall c0 q, C !! c0 = Some q -> c0 <> c -> hand_ok c0 q (<[current p := k']> T) C).
  { intros c0 q Hq Hne. pose proof (c_hand _ _ _ Hc _ _ Hq) as Ho. unfold hand_ok in *. pose proof (Hother _ _ Hq Hne) as Hoc.
    assert (Hca : forall P, code_at (current q) P T -> code_at (current q) P (<[current p := k']> T)).
    { intros P (x & Hx & ?). exists x. by rewrite lookup_insert_ne. }
    assert (Hm : forall m P, doing q = PMigrating m -> code_at m P T -> code_at m P (<[current p := k']> T)).
    { intros m P Hdq (x & Hx & ?). exists x. rewrite lookup_insert_ne; [done|]. intros <-.
      destruct (token_hand _ _ _ (current p) _ _ Hc Hq) as [(? & ? & _ & ?) _]; [|congruence]. unfold cpu_toks. rewrite Hdq. by left. }
    repeat case_match; try done; eauto; destruct Ho as (? & ? & ?); split_and!; eauto. }
  core_fields Hc. split.
  - intros t c1 p1 c2 p2 (? & ? & _ & -> & _)%Hcpu (? & ? & _ & -> & _)%Hcpu. eauto.
  - intros c0 x (? & ? & _ & -> & _)%Hcpu. eauto.
  - intros c0 x t Hx Hin. apply Hsome. apply lookup_insert_Some in Hx as [[<- <-]|[? ?]]; [|by eauto].
    rewrite elem_of_app, Hs in Hin. destruct Hin as [Hin|Hin]; [eapply c_alive0; [exact Hp|]|apply Hrefs]; apply elem_of_app; by left.
  - eauto.
  - intros i x t [[<- <-]|[? ?]]%lookup_insert_Some Hin; apply Hsome; [apply Hrefs, elem_of_app; by right|eauto].
  - intros t. pose proof (c_tok0 t) as Ht. specialize (Htok t). unfold tok, debt in *.
    pose proof (msum_insert (fun _ p => occ t (cpu_toks p)) c p p' C Hp) as H1. pose proof (msum_insert (fun _ p => occ t (cpu_debts p)) c p p' C Hp) as H2.
    pose proof (msum_insert (fun _ k => occ t (code_toks (t_code k))) _ k k' T Hk) as H3. simpl in *. rewrite Hde, Hde' in H2.
    assert (occ t (code_toks (t_code k')) = 0%nat) as Hz. { unfold code_toks. destruct (t_code k'); try done. by destruct (Hnm t0). }
    assert (ready_tok (<[current p := k']> T !! t) = ready_tok (T !! t)) as ->; [|simpl in *; lia].
    destruct (decide (t = current p)) as [->|]; [|by rewrite lookup_insert_ne]. rewrite lookup_insert_eq, Hk. simpl. unfold is_ready. by rewrite Hi, Hst.
  - intros t x Hx. rewrite (elem_at cpu_runs t C c p p'); [|done|by rewrite Hru].
    apply lookup_insert_Some in Hx as [[<- <-]|[? ?]]; [rewrite Hst|]; eauto.
  - intros t x Hx. rewrite (elem_at cpu_ons t C c p p'); [|done|by rewrite Hons].
    apply lookup_insert_Some in Hx as [[<- <-]|[? ?]]; [rewrite Hon|]; eauto.
  - intros t x Hx. assert (exists y, T !! t = Some y /\ state x = state y) as (y & Hy & ->).
    { apply lookup_insert_Some in Hx as [[<- <-]|[? ?]]; eauto. }
    rewrite (c_dead0 _ _ Hy). specialize (Hdead t). split.
    + intros [(c0 & q & Hq & Hin)|(i & ki & Hki & Hin)].
      * destruct (decide (c0 = c)) as [->|]; [|left; exists c0, q; by rewrite lookup_insert_ne]. simplify_eq.
        destruct (proj2 Hdead (or_introl Hin)); [left; exists c, p'|right; exists (current p), k']; by rewrite lookup_insert_eq.
      * destruct (decide (i = current p)) as [->|]; [|right; exists i, ki; by rewrite lookup_insert_ne]. simplify_eq.
        destruct (proj2 Hdead (or_intror Hin)); [left; exists c, p'|right; exists (current p), k']; by rewrite lookup_insert_eq.
    + intros [(c0 & q & [[<- <-]|[? ?]]%lookup_insert_Some & Hin)|(i & ki & [[<- <-]|[? ?]]%lookup_insert_Some & Hin)]; [|by eauto| |by eauto].
      * destruct (proj1 Hdead (or_introl Hin)); eauto.
      * destruct (proj1 Hdead (or_intror Hin)); eauto.
  - intros c0 x t [[<- <-]|[? ?]]%lookup_insert_Some Hin; eauto.
  - intros i x t [[<- <-]|[? ?]]%lookup_insert_Some Hin; eauto.
  - intros t x [[<- <-]|[? ?]]%lookup_insert_Some Hb; [congruence|eauto].
  - intros t x [[<- <-]|[? ?]]%lookup_insert_Some Hb; [congruence|eauto].
  - intros c0 b t Hb Hin. eauto.
  - intros c0 q [[<- <-]|[? ?]]%lookup_insert_Some; (eapply hand_mono; [done|by intros ?; rewrite Hs|]); eauto.
  - intros m x t c0 q [[<- <-]|[? Hx]]%lookup_insert_Some Hxc Hq Hin; [by destruct (Hnm t)|].
    apply lookup_insert_Some in Hq as [[<- <-]|[? Hq]]; [|by eauto]. rewrite Hs in Hin. pose proof (c_migr0 _ _ _ _ _ Hx Hxc Hp Hin) as Hho.
    unfold hands_over in Hho. rewrite Hd in Hho. naive_solver.
  - intros c0 q (q0 & Hq0 & He & _)%Hcpu. destruct (c_idle0 _ _ Hq0) as [(x & Hx & ? & ?) Ho]. rewrite <- He in *. split; [|by apply Hon'].
    destruct (decide (idle_task q = current p)) as [E|]; [exists k'; rewrite E, lookup_insert_eq|exists x; by rewrite lookup_insert_ne].
    rewrite E in Hx. simplify_eq. by rewrite Hi, Hst.
  - intros c1 p1 c2 p2 (? & ? & -> & _)%Hcpu (? & ? & -> & _)%Hcpu. eauto.
  - intros c0 x t y (z & Hz & -> & -> & _)%Hcpu Hin [[<- <-]|[? ?]]%lookup_insert_Some; [rewrite Hi|]; eauto.
  - intros t x [[<- <-]|[? ?]]%lookup_insert_Some; [|by eauto]. rewrite Hi, (c_named0 _ _ Hk). naive_solver.
  - intros c0. rewrite <- c_rq0, lookup_insert_is_Some. split; [intros [<-|[_ ?]]; [by rewrite Hp|done]|]. intros ?. destruct (decide (c = c0)); [by left|by right].
Qed.
Lemma held_refs i t x : t ∈ code_deads x -> t ∈ code_refs i x.
Proof. destruct x as [| | | |w f ph|]; try by intros ?%not_elem_of_nil. destruct ph; simpl; try by intros ?%not_elem_of_nil. set_solver. Qed.

Lemma dead_alive T C R t :
  core T C R -> (exists c p, C !! c = Some p /\ t ∈ cpu_deads p) \/ (exists i k, T !! i = Some k /\ t ∈ code_deads (t_code k)) -> is_Some (T !! t).
Proof.
  intros Hc [(c & p & Hp & [Hin|Hin]%elem_of_app)|(i & k & Hk & Hin)].
  - eapply (c_alive _ _ _ Hc); [exact Hp|]. apply elem_of_app. right. unfold cpu_refs. do 2 right. apply elem_of_app. by left.
  - destruct (pc_dies (doing p)); [|by apply not_elem_of_nil in Hin]. apply list_elem_of_singleton in Hin as ->.
    eapply (c_alive _ _ _ Hc); [exact Hp|]. apply elem_of_app. left. apply current_seat.
  - eapply (c_alive_k _ _ _ Hc); [exact Hk|]. by apply held_refs.
Qed.

Lemma not_over m t p : doing p = PThread -> ~ hands_over m t p.
Proof. intros Hd. unfold hands_over. rewrite Hd. naive_solver. Qed.

(** A new task, in the hands of the CPU that creates it. *)
Lemma core_fresh T C R c p p' n k :
  core T C R -> C !! c = Some p -> doing p = PThread -> T !! n = None ->
  is_idle k = false -> state k = Ready -> on_cpu k = false -> t_code k = CTask \/ (t_code k = CMigrate (current p) /\ doing p' = PMigrating n) ->
  idle_task p' = idle_task p -> cpu_seats p' = cpu_seats p -> cpu_runs p' = cpu_runs p -> cpu_ons p' = cpu_ons p -> cpu_deads p' = cpu_deads p ->
  current p' = current p -> cpu_toks p' = [n] -> cpu_debts p' = code_toks (t_code k) ->
  (forall t, t ∈ cpu_refs p' -> t = n \/ t ∈ cpu_refs p) -> (unseated n C -> hand_ok c p' (<[n := k]> T) C) ->
  core (<[n := k]> T) (<[c := p']> C) R.
Proof.
  intros Hc Hp Hd Hn Hi Hst Hon Hcode Hid Hs Hru Hons Hde Hcur Htok Hdebt Hrefs Hh.
  assert (Hun : unseated n C).
  { intros c0 q Hq Hin. destruct (c_alive _ _ _ Hc _ _ n Hq) as [? ?]; [apply elem_of_app; by left|congruence]. }
  assert (Hcpu : forall c0 x, <[c := p']> C !! c0 = Some x -> exists y, C !! c0 = Some y /\ idle_task x = idle_task y /\
    cpu_seats x = cpu_seats y /\ cpu_runs x = cpu_runs y /\ cpu_ons x = cpu_ons y /\ cpu_deads x = cpu_deads y).
  { intros c0 x [[<- <-]|[? ?]]%lookup_insert_Some; eexists; (split; [done|]); by split_and!. }
  assert (Hsome : forall i, is_Some (T !! i) -> is_Some (<[n := k]> T !! i)).
  { intros i Hx. rewrite lookup_insert_is_Some. destruct (decide (n = i)); [by left|by right]. }
  assert (Hold : forall i P, code_at i P T -> code_at i P (<[n := k]> T)).
  { intros i P (x & Hx & ?). exists x. rewrite lookup_insert_ne; [done|congruence]. }
  assert (Hhand : forall c0 q, C !! c0 = Some q -> hand_ok c0 q (<[n := k]> T) C).
  { intros c0 q Hq. pose proof (c_hand _ _ _ Hc _ _ Hq) as Ho. unfold hand_ok in *. repeat case_match; try done; eauto; destruct Ho as (? & ? & ?); split_and!; eauto. }
  assert (Hnd : code_deads (t_code k) = []) by (by destruct Hcode as [->|[-> _]]).
  assert (Hcref : forall t, t ∈ code_refs n (t_code k) -> is_Some (T !! t)).
  { intros t. destruct Hcode as [->|[-> _]]; simpl; [by intros ?%not_elem_of_nil|]. intros ->%list_elem_of_singleton.
    eapply (c_alive _ _ _ Hc _ _ _ Hp). apply elem_of_app. left. apply current_seat. }
  pose proof (fun t => dead_alive _ _ _ t Hc) as Hda. core_fields Hc. split.
  - intros t c1 p1 c2 p2 (? & ? & _ & -> & _)%Hcpu (? & ? & _ & -> & _)%Hcpu. eauto.
  - intros c0 x (? & ? & _ & -> & _)%Hcpu. eauto.
  - intros c0 x t Hx Hin. apply lookup_insert_Some in Hx as [[<- <-]|[? ?]]; [|by eauto].
    rewrite elem_of_app, Hs in Hin. destruct Hin as [Hin|[->|Hin]%Hrefs]; [|rewrite lookup_insert_eq; by eexists|];
      apply Hsome; (eapply c_alive0; [exact Hp|]); apply elem_of_app; eauto.
  - eauto.
  - intros i x t [[<- <-]|[? ?]]%lookup_insert_Some Hin; eauto.
  - intros t. pose proof (c_tok0 t) as Ht. unfold tok, debt in *.
    pose proof (msum_insert (fun _ p => occ t (cpu_toks p)) c p p' C Hp) as H1. pose proof (msum_insert (fun _ p => occ t (cpu_debts p)) c p p' C Hp) as H2.
    pose proof (msum_insert_new (fun _ k => occ t (code_toks (t_code k))) n k T Hn) as H3. simpl in *. rewrite Htok in H1. rewrite Hdebt in H2.
    assert (cpu_toks p = [] /\ cpu_debts p = []) as [E1 E2] by (unfold cpu_toks, cpu_debts; by rewrite Hd). rewrite E1 in H1. rewrite E2 in H2. rewrite occ_of_cons in H1. rewrite occ_nil in *.
    destruct (decide (n = t)) as [<-|]; [rewrite lookup_insert_eq; rewrite Hn in Ht|rewrite lookup_insert_ne by done]; simpl in *; [|lia].
    unfold is_ready. rewrite Hi, Hst. simpl. lia.
  - intros t x Hx. rewrite (elem_at cpu_runs t C c p p'); [|done|by rewrite Hru].
    apply lookup_insert_Some in Hx as [[<- <-]|[? ?]]; [|by eauto]. rewrite Hst. split; [done|]. intros (c0 & q & Hq & Hin%runs_seats). by destruct (Hun _ _ Hq).
  - intros t x Hx. rewrite (elem_at cpu_ons t C c p p'); [|done|by rewrite Hons].
    apply lookup_insert_Some in Hx as [[<- <-]|[? ?]]; [|by eauto]. rewrite Hon. split; [done|]. intros (c0 & q & Hq & Hin%ons_seats). by destruct (Hun _ _ Hq).
  - intros t x Hx. rewrite (elem_at cpu_deads t C c p p'); [|done|by rewrite Hde].
    assert ((exists i ki, <[n := k]> T !! i = Some ki /\ t ∈ code_deads (t_code ki)) <-> exists i ki, T !! i = Some ki /\ t ∈ code_deads (t_code ki)) as ->.
    { split; intros (i & ki & Hi' & Hin).
      - apply lookup_insert_Some in Hi' as [[<- <-]|[? ?]]; [rewrite Hnd in Hin; by apply not_elem_of_nil in Hin|eauto].
      - exists i, ki. rewrite lookup_insert_ne; [done|congruence]. }
    apply lookup_insert_Some in Hx as [[<- <-]|[? ?]]; [|by eauto]. rewrite Hst. split; [done|]. intros [? ?]%Hda. congruence.
  - intros c0 x t Hx Hin. eapply only_at_mono; [done|by rewrite Hs|]. apply Hcpu in Hx as (y & Hy & _ & _ & _ & _ & He). rewrite He in Hin. eauto.
  - intros i x t [[<- <-]|[? ?]]%lookup_insert_Some Hin; [rewrite Hnd in Hin; by apply not_elem_of_nil in Hin|]. eapply unseated_mono; [done|by rewrite Hs|eauto].
  - intros t x [[<- <-]|[? ?]]%lookup_insert_Some Hb; [congruence|eauto].
  - intros t x [[<- <-]|[? ?]]%lookup_insert_Some Hb; [congruence|eauto].
  - intros c0 b t Hb Hin. eapply only_at_mono; [done|by rewrite Hs|eauto].
  - intros c0 q [[<- <-]|[? ?]]%lookup_insert_Some; (eapply hand_mono; [done|by intros ?; rewrite Hs|]); eauto.
  - intros m x t c0 q Hx Hxc Hq Hin. apply lookup_insert_Some in Hx as [[<- <-]|[? Hx]].
    + destruct Hcode as [?|[Hcode Hdp']]; [congruence|]. assert (t = current p) as -> by congruence.
      assert (c0 = c) as ->. { apply Hcpu in Hq as (y & Hy & _ & He & _). rewrite He in Hin. eapply c_uniq0; [exact Hy|exact Hp|exact Hin|apply current_seat]. }
      rewrite lookup_insert_eq in Hq. injection Hq as <-. left. split; [done|]. by left.
    + assert (hands_over m t q \/ q = p') as [|]; [|done|].
      { apply lookup_insert_Some in Hq as [[<- <-]|[? Hq]]; [by right|left; eauto]. }
      subst q. rewrite Hs in Hin. apply lookup_insert_Some in Hq as [[<- _]|[Hne Hq]].
      * by destruct (not_over m t p Hd (c_migr0 _ _ _ _ _ Hx Hxc Hp Hin)).
      * rewrite <- Hs in Hin. eauto.
  - intros c0 q (q0 & Hq0 & He & _)%Hcpu. destruct (c_idle0 _ _ Hq0) as [(x & Hx & ? & ?) Ho]. rewrite <- He in *. split; [|eapply only_at_mono; [done|by rewrite Hs|done]].
    exists x. rewrite lookup_insert_ne; [done|congruence].
  - intros c1 p1 c2 p2 (? & ? & -> & _)%Hcpu (? & ? & -> & _)%Hcpu. eauto.
  - intros c0 x t y (z & Hz & -> & -> & _)%Hcpu Hin [[<- <-]|[? ?]]%lookup_insert_Some; [congruence|]; eauto.
  - intros t x [[<- <-]|[? ?]]%lookup_insert_Some; [|by eauto]. rewrite Hi. by destruct Hcode as [->|[-> _]].
  - intros c0. rewrite <- c_rq0, lookup_insert_is_Some. split; [intros [<-|[_ ?]]; [by rewrite Hp|done]|]. intros ?. destruct (decide (c = c0)); [by left|by right].
Qed.
(** The gc task frees an exited task to which it holds the only reference. *)
Lemma core_drop T C R c p k k' t :
  core T C R -> C !! c = Some p -> doing p = PThread -> T !! current p = Some k ->
  code_deads (t_code k) = [t] -> code_toks (t_code k) = [] -> t_code k <> CIdle ->
  code_toks (t_code k') = [] -> code_deads (t_code k') = [] -> t_code k' <> CIdle ->
  is_idle k' = is_idle k -> state k' = state k -> on_cpu k' = on_cpu k ->
  (forall u, u ∈ code_refs (current p) (t_code k') -> u <> t /\ is_Some (T !! u)) ->
  (forall c0 q, C !! c0 = Some q -> t ∉ cpu_refs q) -> (forall q b, R !! q = Some b -> t ∉ owned b) ->
  (forall i x, T !! i = Some x -> i <> current p -> t ∉ code_refs i (t_code x)) ->
  core (delete t (<[current p := k']> T)) C R.
Proof.
  intros Hc Hp Hd Hk Hdk Htk Hik Htk' Hdk' Hik' Hid Hst Hon Href Hcr Hqr Hkr.
  assert (Hcur : state k = Running).
  { apply (c_run _ _ _ Hc _ _ Hk). exists c, p. split; [done|]. unfold cpu_runs. rewrite Hd. by left. }
  assert (Hun : unseated t C) by (apply (c_held_seat _ _ _ Hc _ _ t Hk); rewrite Hdk; by left).
  assert (Ht : forall kt, T !! t = Some kt -> state kt = Exited).
  { intros kt Hkt. apply (c_dead _ _ _ Hc _ _ Hkt). right. exists (current p), k. rewrite Hdk. split; [done|by left]. }
  assert (Hne : current p <> t) by (intros He; rewrite He in Hk; apply Ht in Hk; congruence).
  set (T' := delete t (<[current p := k']> T)).
  assert (Hold : forall i x, T' !! i = Some x -> i <> t /\ exists y, T !! i = Some y /\ is_idle x = is_idle y /\ state x = state y /\ on_cpu x = on_cpu y /\ (i <> current p -> y = x)).
  { intros i x [Hi [[<- <-]|[? ?]]%lookup_insert_Some]%lookup_delete_Some; (split; [done|]); eexists; (split; [done|]); by split_and!. }
  assert (Hsome : forall i, is_Some (T !! i) -> i <> t -> is_Some (T' !! i)).
  { intros i Hx Hi. unfold T'. rewrite lookup_delete_ne, lookup_insert_is_Some by done. destruct (decide (current p = i)); [by left|by right]. }
  assert (Hcode : forall i x, T' !! i = Some x -> (i = current p /\ x = k') \/ (i <> current p /\ T !! i = Some x)).
  { intros i x [_ [[<- <-]|[? ?]]%lookup_insert_Some]%lookup_delete_Some; eauto. }
  assert (Hcat : forall i P, code_at i P T -> i <> current p -> i <> t -> code_at i P T').
  { intros i P (x & Hx & ?) Hi1 Hi2. exists x. unfold T'. by rewrite lookup_delete_ne, lookup_insert_ne. }
  assert (Hhand : forall c0 q, C !! c0 = Some q -> hand_ok c0 q T' C).
  { intros c0 q Hq. destruct (decide (c0 = c)) as [->|Hcne].
    { simplify_eq. pose proof (c_hand _ _ _ Hc _ _ Hp) as Ho. unfold hand_ok in *. by rewrite Hd in *. }
    assert (Hcq : current q <> current p /\ current q <> t).
    { split; [|intros <-; by eapply Hun, current_seat]. intros He. apply Hcne. eapply (c_uniq _ _ _ Hc (current p)); [exact Hq|exact Hp| |]; [rewrite <- He|]; apply current_seat. }
    destruct Hcq. pose proof (c_hand _ _ _ Hc _ _ Hq) as Ho. unfold hand_ok in *.
    assert (Hm : forall m P, doing q = PMigrating m -> code_at m P T -> code_at m P T').
    { intros m P Hdq Hca. assert (m ∈ cpu_toks q) as Hin by (unfold cpu_toks; rewrite Hdq; by left).
      destruct (token_hand _ _ _ _ _ _ Hc Hq Hin) as [(km & Hkm & _ & Hr) _].
      apply Hcat; [done|intros ->; congruence|intros ->; apply Ht in Hkm; congruence]. }
    repeat case_match; try done; eauto; destruct Ho as (? & ? & ?); split_and!; eauto. }
  core_fields Hc. split; try done.
  - intros c0 q u Hq [Hin|Hin]%elem_of_app; apply Hsome; try (eapply c_alive0; [exact Hq|]; apply elem_of_app; eauto).
    + intros ->. by eapply Hun.
    + intros ->. by eapply Hcr.
  - intros c0 q u Hq Hin. apply Hsome; [eauto|]. intros ->. by eapply Hqr.
  - intros i x u [[-> ->]|[Hi Hx]]%Hcode Hin; [apply Href in Hin as [? ?]; auto|]. apply Hsome; [eauto|]. intros ->. by eapply Hkr.
  - intros u. pose proof (c_tok0 u) as Hu. unfold tok in *.
    pose proof (msum_insert (fun _ k => occ u (code_toks (t_code k))) _ k k' T Hk) as H3. simpl in H3. rewrite Htk, Htk' in H3.
    assert (exists kt, T !! t = Some kt) as [kt Hkt]. { apply (c_alive_k0 _ _ t Hk). apply held_refs. rewrite Hdk. by left. }
    assert (<[current p := k']> T !! t = Some kt) as Hkt' by by rewrite lookup_insert_ne.
    pose proof (msum_delete (fun _ k => occ u (code_toks (t_code k))) _ _ _ Hkt') as H4. fold T' in H4. simpl in *.
    assert (occ u (code_toks (t_code kt)) <= msum (fun _ k => occ u (code_toks (t_code k))) T)%nat as H5 by (by apply (msum_le (fun _ k => occ u (code_toks (t_code k))) t)).
    assert (ready_tok (T' !! u) = ready_tok (T !! u)) as ->.
    { unfold T'. destruct (decide (u = t)) as [->|]; [rewrite lookup_delete_eq, Hkt; simpl; unfold is_ready; rewrite (Ht _ Hkt); by rewrite andb_false_r|].
      rewrite lookup_delete_ne by done. destruct (decide (u = current p)) as [->|]; [|by rewrite lookup_insert_ne]. rewrite lookup_insert_eq, Hk. simpl. unfold is_ready. by rewrite Hid, Hst. }
    assert (occ u (code_toks (t_code kt)) = 0%nat); [|simpl in *; lia].
    by rewrite (c_exited0 _ _ Hkt (Ht _ Hkt)).
  - intros u x (Hu & y & Hy & _ & -> & _)%Hold. eauto.
  - intros u x (Hu & y & Hy & _ & _ & -> & _)%Hold. eauto.
  - intros u x (Hu & y & Hy & _ & -> & _ & _)%Hold. rewrite (c_dead0 _ _ Hy). apply or_iff_compat_l. split; intros (i & z & Hz & Hin).
    + exists i, z. unfold T'. destruct (decide (i = current p)) as [->|]; [simplify_eq; rewrite Hdk in Hin; by apply list_elem_of_singleton in Hin|].
      assert (i <> t) by (intros ->; rewrite (c_exited0 _ _ Hz (Ht _ Hz)) in Hin; by apply not_elem_of_nil in Hin).
      by rewrite lookup_delete_ne, lookup_insert_ne.
    + apply Hcode in Hz as [[-> ->]|[? ?]]; [rewrite Hdk' in Hin; by apply not_elem_of_nil in Hin|eauto].
  - intros i x u [[-> ->]|[? ?]]%Hcode Hin; [rewrite Hdk' in Hin; by apply not_elem_of_nil in Hin|eauto].
  - intros u x Hx Hb. destruct (Hcode _ _ Hx) as [[-> ->]|[? ?]]; [congruence|eauto].
  - intros u x Hx Hb. destruct (Hcode _ _ Hx) as [[-> ->]|[? ?]]; [congruence|eauto].
  - intros m x u c0 q [[-> ->]|[? ?]]%Hcode Hxc Hq Hin; [rewrite Hxc in Htk'; done|eauto].
  - intros c0 q Hq. destruct (c_idle0 _ _ Hq) as [(x & Hx & ? & ?) Ho]. split; [|done].
    destruct (Hsome (idle_task q)) as [y Hy]; [by rewrite Hx|intros He; eapply Hcr; [exact Hq|]; unfold cpu_refs; rewrite He; right; by left|].
    exists y. destruct (Hold _ _ Hy) as (_ & z & Hz & -> & -> & _). simplify_eq. eauto.
  - intros c0 q u x Hq Hin (_ & y & Hy & -> & _)%Hold. eauto.
  - intros i x Hx. destruct (Hcode _ _ Hx) as [[-> ->]|[? ?]]; [|by eauto]. rewrite Hid, (c_named0 _ _ Hk). naive_solver.
Qed.
(** ** Initialisation *)

Lemma core_empty : core (Q := Q) ∅ ∅ ∅.
Proof.
  assert (Hn : forall (P : Prop) A (i : Z) (x : A), (∅ : gmap Z A) !! i = Some x -> P) by (by intros P A i x ?%lookup_empty_Some).
  split; intros; try (by eapply Hn).
  - unfold tok, debt. by rewrite !msum_empty, lookup_empty.
  - by rewrite !lookup_empty.
Qed.

(** The idle task of the first CPU is made before it has a CPU. *)
Lemma core_add_idle T C R i k :
  core T C R -> T !! i = None -> is_idle k = true -> state k = Ready -> on_cpu k = false -> t_code k = CIdle -> core (<[i := k]> T) C R.
Proof.
  intros Hc Hi Hidle Hst Hon Hcode.
  assert (Hold : forall P t, code_at t P T -> code_at t P (<[i := k]> T)).
  { intros P t (x & Hx & ?). exists x. rewrite lookup_insert_ne; [done|congruence]. }
  assert (Hsome : forall t, is_Some (T !! t) -> is_Some (<[i := k]> T !! t)).
  { intros t Hx. rewrite lookup_insert_is_Some. destruct (decide (i = t)); [by left|by right]. }
  assert (Hun : unseated i C).
  { intros c0 q Hq Hin. destruct (c_alive _ _ _ Hc _ _ i Hq) as [? ?]; [apply elem_of_app; by left|congruence]. }
  pose proof (fun t => dead_alive _ _ _ t Hc) as Hda. core_fields Hc. split; try done; eauto.
  - intros j x t [[<- <-]|[? ?]]%lookup_insert_Some; [rewrite Hcode; by intros ?%not_elem_of_nil|eauto].
  - intros t. pose proof (c_tok0 t) as Ht. unfold tok in *. pose proof (msum_insert_new (fun _ k => occ t (code_toks (t_code k))) i k T Hi) as Hm.
    simpl in Hm. rewrite Hcode in Hm. simpl in Hm.
    destruct (decide (t = i)) as [->|]; [rewrite lookup_insert_eq; simpl; rewrite Hidle; rewrite Hi in Ht; simpl in *; lia|rewrite lookup_insert_ne by done; lia].
  - intros t x [[<- <-]|[? ?]]%lookup_insert_Some; [|by eauto]. rewrite Hst. split; [done|]. intros (c0 & q & Hq & Hin%runs_seats). by destruct (Hun _ _ Hq).
  - intros t x [[<- <-]|[? ?]]%lookup_insert_Some; [|by eauto]. rewrite Hon. split; [done|]. intros (c0 & q & Hq & Hin%ons_seats). by destruct (Hun _ _ Hq).
  - intros t x Hx. assert ((exists j ki, <[i := k]> T !! j = Some ki /\ t ∈ code_deads (t_code ki)) <-> exists j ki, T !! j = Some ki /\ t ∈ code_deads (t_code ki)) as ->.
    { split; intros (j & ki & Hj & Hin).
      - apply lookup_insert_Some in Hj as [[<- <-]|[? ?]]; [rewrite Hcode in Hin; by apply not_elem_of_nil in Hin|eauto].
      - exists j, ki. rewrite lookup_insert_ne; [done|congruence]. }
    apply lookup_insert_Some in Hx as [[<- <-]|[? ?]]; [|by eauto]. rewrite Hst. split; [done|]. intros [? ?]%Hda. congruence.
  - intros j x t [[<- <-]|[? ?]]%lookup_insert_Some; [rewrite Hcode; by intros ?%not_elem_of_nil|eauto].
  - intros t x [[<- <-]|[? ?]]%lookup_insert_Some Hb; [congruence|eauto].
  - intros t x [[<- <-]|[? ?]]%lookup_insert_Some Hb; [congruence|eauto].
  - intros c0 q Hq. pose proof (c_hand0 _ _ Hq) as Ho. unfold hand_ok in *. repeat case_match; try done; eauto; destruct Ho as (? & ? & ?); split_and!; eauto.
  - intros m x t c0 q [[<- <-]|[? ?]]%lookup_insert_Some; [congruence|eauto].
  - intros c0 q Hq. destruct (c_idle0 _ _ Hq) as [(x & Hx & ? & ?) Ho]. split; [|done]. exists x. rewrite lookup_insert_ne; [done|congruence].
  - intros c0 q t x Hq Hin [[<- <-]|[? ?]]%lookup_insert_Some; [by destruct (Hun _ _ Hq)|]. eauto.
  - intros t x [[<- <-]|[? ?]]%lookup_insert_Some; [|by eauto]. by rewrite Hidle, Hcode.
Qed.
(** A CPU starts with a running task [m], its idle task [i] (perhaps the same) and the gc task in
    its queue. *)
Lemma core_boot T C R c m i g km kg b :
  core T C R -> C !! c = None -> T !! m = None -> T !! g = None -> m <> g ->
  state km = Running -> on_cpu km = true -> (is_idle km = true <-> t_code km = CIdle) -> t_code km = CIdle \/ t_code km = CTask ->
  is_idle kg = false -> state kg = Ready -> on_cpu kg = false -> t_code kg = CGc -> owned b ≡ₚ [g] ->
  (i = m /\ is_idle km = true) \/ (i <> m /\ is_idle km = false /\ (exists ki, T !! i = Some ki /\ is_idle ki = true /\ state ki = Ready) /\ unseated i C /\
     forall c0 q, C !! c0 = Some q -> idle_task q <> i) ->
  core (<[g := kg]> (<[m := km]> T)) (<[c := mk_cpu m [] None i None PThread]> C) (<[c := b]> R).
Proof.
  intros Hc HC Hm Hg Hmg Hms Hmo Hmi Hmc Hgi Hgs Hgo Hgc Hb Hi. set (p := mk_cpu m [] None i None PThread). set (T' := <[g := kg]> (<[m := km]> T)).
  assert (HR : R !! c = None).
  { destruct (R !! c) eqn:E; [|done]. destruct (proj2 (c_rq _ _ _ Hc c)) as [? ?]; [by eexists|congruence]. }
  assert (Hnew : forall t x, T' !! t = Some x -> (t = g /\ x = kg) \/ (t = m /\ x = km) \/ (t <> g /\ t <> m /\ T !! t = Some x)).
  { intros t x [[<- <-]|[? [[<- <-]|[? ?]]%lookup_insert_Some]]%lookup_insert_Some; eauto 6. }
  assert (Hkeep : forall t x, T !! t = Some x -> T' !! t = Some x).
  { intros t x Hx. unfold T'. rewrite !lookup_insert_ne; congruence. }
  assert (Hlive : forall c0 q t, C !! c0 = Some q -> t ∈ cpu_seats q -> T !! t <> None).
  { intros c0 q t Hq Hin He. destruct (c_alive _ _ _ Hc _ _ t Hq) as [? ?]; [apply elem_of_app; by left|congruence]. }
  assert (Hcpu : forall c0 q t, <[c := p]> C !! c0 = Some q -> t ∈ cpu_seats q -> (c0 = c /\ t = m) \/ (t <> m /\ t <> g /\ C !! c0 = Some q)).
  { intros c0 q t [[<- <-]|[? Hq]]%lookup_insert_Some Hin; [left; split; [done|]; by apply list_elem_of_singleton in Hin|right].
    pose proof (Hlive _ _ _ Hq Hin). split_and!; congruence. }
  assert (Hon : forall c0 t, only_at c0 t C -> t <> m -> only_at c0 t (<[c := p]> C)).
  { intros c0 t Ho Htm c1 q Hq Hin. destruct (Hcpu _ _ _ Hq Hin) as [[_ ?]|(_ & _ & ?)]; [done|eauto]. }
  assert (Hun : forall t, unseated t C -> t <> m -> unseated t (<[c := p]> C)).
  { intros t Ho Htm c1 q Hq Hin. destruct (Hcpu _ _ _ Hq Hin) as [[_ ?]|(_ & _ & ?)]; [done|by eapply Ho]. }
  assert (Hex : forall (f : cpu -> list Z) t, (forall q, t ∈ f q -> t ∈ cpu_seats q) -> f p = [m] ->
    (exists c0 q, <[c := p]> C !! c0 = Some q /\ t ∈ f q) <-> t = m \/ exists c0 q, C !! c0 = Some q /\ t ∈ f q).
  { intros f t Hf Hfp. split.
    - intros (c0 & q & [[<- <-]|[? ?]]%lookup_insert_Some & Hin); [rewrite Hfp in Hin; left; by apply list_elem_of_singleton in Hin|right; eauto].
    - intros [->|(c0 & q & Hq & Hin)]; [exists c, p; rewrite lookup_insert_eq, Hfp; split; [done|by left]|exists c0, q; rewrite lookup_insert_ne; [done|congruence]]. }
  assert (Hda : forall t, T !! t = None -> ~ ((exists c p, C !! c = Some p /\ t ∈ cpu_deads p) \/ (exists i k, T !! i = Some k /\ t ∈ code_deads (t_code k)))).
  { intros t Ht Hor. apply (dead_alive _ _ _ t Hc) in Hor as [? ?]. congruence. }
  assert (Hdm : code_deads (t_code km) = [] /\ code_toks (t_code km) = [] /\ (forall i, code_refs i (t_code km) = [])) by (by destruct Hmc as [-> | ->]).
  destruct Hdm as (Hdm & Htm & Hrm).
  assert (Hseat0 : forall t, T !! t = None -> (exists c0 q, C !! c0 = Some q /\ t ∈ cpu_seats q) -> False) by (intros t Ht (? & ? & Hq & Hin); by eapply Hlive).
  core_fields Hc. split.
  - intros t c1 p1 c2 p2 H1 H2 Hi1 Hi2. destruct (Hcpu _ _ _ H1 Hi1) as [[-> ->]|(? & _ & ?)], (Hcpu _ _ _ H2 Hi2) as [[-> ?]|(? & _ & ?)]; try done. eauto.
  - intros c0 q [[<- <-]|[? ?]]%lookup_insert_Some; [apply NoDup_singleton|eauto].
  - intros c0 q t [[<- <-]|[? Hq]]%lookup_insert_Some Hin; [|destruct (c_alive0 _ _ _ Hq Hin); eauto].
    assert (t = m \/ t = i) as [->| ->] by (unfold cpu_seats, cpu_refs in Hin; simpl in Hin; set_solver); [unfold T'; rewrite lookup_insert_ne, lookup_insert_eq by done; by eexists|].
    destruct Hi as [[-> _]|(_ & _ & (ki & ? & _) & _)]; [unfold T'; rewrite lookup_insert_ne, lookup_insert_eq by done; by eexists|eauto].
  - intros c0 q t [[<- <-]|[? Hq]]%lookup_insert_Some Hin; [|destruct (c_alive_q0 _ _ _ Hq Hin); eauto].
    rewrite Hb in Hin. apply list_elem_of_singleton in Hin as ->. unfold T'. rewrite lookup_insert_eq. by eexists.
  - intros j x t [[-> ->]|[[-> ->]|(? & ? & Hx)]]%Hnew Hin; [rewrite Hgc in Hin; by apply not_elem_of_nil in Hin|rewrite Hrm in Hin; by apply not_elem_of_nil in Hin|].
    destruct (c_alive_k0 _ _ _ Hx Hin); eauto.
  - intros t. pose proof (c_tok0 t) as Ht. unfold tok, debt in *. unfold T'.
    rewrite (msum_insert_new _ c p C HC), (msum_insert_new _ c p C HC), (msum_insert_new _ c b R HR), msum_insert_new, msum_insert_new by (done || by rewrite lookup_insert_ne).
    rewrite Hb, Htm, Hgc, occ_of_cons. simpl. rewrite !occ_nil.
    destruct (decide (g = t)) as [<-|]; [rewrite lookup_insert_eq; rewrite Hg in Ht; simpl in *; unfold is_ready; rewrite Hgi, Hgs; simpl; lia|]. rewrite lookup_insert_ne by done.
    destruct (decide (m = t)) as [<-|]; [rewrite lookup_insert_eq; rewrite Hm in Ht; simpl in *; unfold is_ready; rewrite Hms, andb_false_r; simpl; lia|]. rewrite lookup_insert_ne by done. simpl. lia.
  - intros t x Hx. rewrite (Hex cpu_runs) by (done || by intros; apply runs_seats). destruct (Hnew _ _ Hx) as [[-> ->]|[[-> ->]|(? & ? & Hx')]].
    + rewrite Hgs. split; [done|]. intros [?|(c0 & q & Hq & Hin%runs_seats)]; [done|exfalso; eauto].
    + rewrite Hms. split; [by left|done].
    + rewrite (c_run0 _ _ Hx'). split; [by right|]. by intros [?|?].
  - intros t x Hx. rewrite (Hex cpu_ons) by (done || by intros; apply ons_seats). destruct (Hnew _ _ Hx) as [[-> ->]|[[-> ->]|(? & ? & Hx')]].
    + rewrite Hgo. split; [done|]. intros [?|(c0 & q & Hq & Hin%ons_seats)]; [done|exfalso; eauto].
    + rewrite Hmo. split; [by left|done].
    + rewrite (c_on0 _ _ Hx'). split; [by right|]. by intros [?|?].
  - intros t x Hx. assert ((exists j ki, T' !! j = Some ki /\ t ∈ code_deads (t_code ki)) <-> exists j ki, T !! j = Some ki /\ t ∈ code_deads (t_code ki)) as ->.
    { split; intros (j & ki & Hj & Hin); [|eauto]. apply Hnew in Hj as [[-> ->]|[[-> ->]|(_ & _ & ?)]]; [rewrite Hgc in Hin|rewrite Hdm in Hin|eauto]; by apply not_elem_of_nil in Hin. }
    assert ((exists c0 q, <[c := p]> C !! c0 = Some q /\ t ∈ cpu_deads q) <-> exists c0 q, C !! c0 = Some q /\ t ∈ cpu_deads q) as ->.
    { split; intros (c0 & q & Hq & Hin); [|exists c0, q; rewrite lookup_insert_ne; [done|congruence]]. apply lookup_insert_Some in Hq as [[<- <-]|[? ?]]; [by apply not_elem_of_nil in Hin|eauto]. }
    destruct (Hnew _ _ Hx) as [[-> ->]|[[-> ->]|(? & ? & Hx')]]; [rewrite Hgs|rewrite Hms|by apply c_dead0]; (split; [done|]); intros Hor; by eapply Hda in Hor.
  - intros c0 q t [[<- <-]|[? Hq]]%lookup_insert_Some Hin; [by apply not_elem_of_nil in Hin|]. apply Hon; [eauto|]. intros ->. eapply (Hda m Hm). left. eauto.
  - intros j x t [[-> ->]|[[-> ->]|(_ & _ & Hx)]]%Hnew Hin; [rewrite Hgc in Hin; by apply not_elem_of_nil in Hin|rewrite Hdm in Hin; by apply not_elem_of_nil in Hin|].
    apply Hun; [eauto|]. intros ->. eapply (Hda m Hm). right. eauto.
  - intros t x [[-> ->]|[[-> ->]|(_ & _ & Hx)]]%Hnew Hs; [congruence..|eauto].
  - intros t x [[-> ->]|[[-> ->]|(_ & _ & Hx)]]%Hnew Hs; [congruence..|eauto].
  - intros c0 q t [[<- <-]|[? Hq]]%lookup_insert_Some Hin.
    + rewrite Hb in Hin. apply list_elem_of_singleton in Hin as ->. intros c1 q1 Hq1 Hin1. destruct (Hcpu _ _ _ Hq1 Hin1) as [[_ ?]|(_ & ? & _)]; congruence.
    + apply Hon; [eauto|]. intros ->. destruct (c_alive_q0 _ _ _ Hq Hin). congruence.
  - intros c0 q [[<- <-]|[? Hq]]%lookup_insert_Some; [done|]. pose proof (c_hand0 _ _ Hq) as Ho. unfold hand_ok in *.
    assert (Hca : forall t P, code_at t P T -> code_at t P T') by (intros t P (x & ? & ?); exists x; eauto).
    assert (Ha : forall t, t ∈ cpu_refs q -> t <> m). { intros t Hin ->. destruct (c_alive0 _ _ m Hq); [apply elem_of_app; by right|congruence]. }
    assert (Hpr : forall t, t ∈ pc_refs (current q) (doing q) -> t <> m) by (intros t Hin; apply Ha; unfold cpu_refs; do 2 right; apply elem_of_app; by right).
    repeat case_match; try done; eauto; simpl in Hpr; first [apply Hun; [done|]; apply Hpr; by left|apply Hon; [done|]; apply Hpr; by left|idtac].
    all: destruct Ho as (? & ? & ?); split_and!; [apply Hun; [done|]; apply Hpr; by left|eauto..].
  - intros j x t c0 q [[-> ->]|[[-> ->]|(_ & _ & Hx)]]%Hnew Hxc Hq Hin; [congruence|rewrite Hxc in Htm; done|].
    destruct (Hcpu _ _ _ Hq Hin) as [[-> ->]|(_ & _ & Hq')]; [|eauto]. destruct (c_alive_k0 _ _ m Hx); [rewrite Hxc; by left|congruence].
  - intros c0 q [[<- <-]|[? Hq]]%lookup_insert_Some.
    + destruct Hi as [[-> Him]|(Him & _ & (ki & Hki & ? & ?) & Hui & _)]; split.
      * exists km. unfold T'. rewrite lookup_insert_ne, lookup_insert_eq by done. auto.
      * intros c1 q1 Hq1 Hin1. destruct (Hcpu _ _ _ Hq1 Hin1) as [[? _]|(? & _)]; done.
      * exists ki. split; [by apply Hkeep|auto].
      * intros c1 q1 Hq1 Hin1. by destruct (Hun i Hui Him _ _ Hq1).
    + destruct (c_idle0 _ _ Hq) as [(x & ? & ? & ?) Ho]. split; [exists x; eauto|]. apply Hon; [done|congruence].
  - assert (Hne : forall c0 q, C !! c0 = Some q -> idle_task q <> i).
    { intros c0 q Hq. destruct Hi as [[-> _]|(_ & _ & _ & _ & Hi)]; [|by eapply Hi]. destruct (c_idle0 _ _ Hq) as [(x & ? & _) _]. congruence. }
    intros c1 p1 c2 p2 H1 H2 Heq. apply lookup_insert_Some in H1 as [[<- <-]|[? H1]], H2 as [[<- <-]|[? H2]]; [done|..|eauto]; simpl in Heq; exfalso; by eapply Hne.
  - intros c0 q t x Hq Hin Hx Hix. destruct (Hcpu _ _ _ Hq Hin) as [[-> ->]|(Htm' & Htg & Hq')].
    + rewrite lookup_insert_eq in Hq. injection Hq as <-. destruct (Hnew _ _ Hx) as [[? _]|[[_ ->]|(_ & ? & _)]]; [done| |done]. simpl. destruct Hi as [[? _]|(_ & ? & _)]; congruence.
    + destruct (Hnew _ _ Hx) as [[? _]|[[? _]|(_ & _ & Hx')]]; [done..|]. eauto.
  - intros t x [[-> ->]|[[-> ->]|(_ & _ & Hx)]]%Hnew; [by rewrite Hgi, Hgc|done|eauto].
  - intros c0. by rewrite !lookup_insert_is_Some, c_rq0.
Qed.
End Moves.
