(* ===== verification/SchedProof.v ===== *)
(** * The steps of the scheduler keep its invariant

    The other parts of the invariant of [Sched], and lemmas that say when a change of one task and
    one CPU keeps each part.

    The second part has a lemma per place of the scheduler and per event. *)

From S2P Require Import Prelude Sched SchedSpec SchedMoves.

(** The guards a place of the scheduler relies on, and that of the waker's lock. *)
Definition after_needs (k : after_wake) : nat := match k with KRelease => 1 | _ => 2 end.
Definition pc_needs (p : pc) : nat :=
  match p with
  | PThread | PRestored | PRelease => 0
  | PSelect _ (SWake _ _ k) | PWoke _ _ _ k | PUnblock _ _ k | PSpin _ _ k | PPut _ _ k | PWoken k => after_needs k
  | _ => 1
  end.
Definition pc_blocks (p : pc) : option Z := match p with PBlock w | PBlockDrop w => Some w | _ => None end.
Definition pc_guards (p : pc) : nat := match pc_blocks p with Some _ => 1 | None => 0 end.

(** The task a CPU is about to unblock, and the waker it works for. *)
Definition pc_unblocks (p : pc) : option Z := match p with PUnblock _ t _ => Some t | _ => None end.
Definition pc_waker (p : pc) : option (Z * Z) :=
  match p with PSelect _ (SWake w t _) | PWoke _ w t _ => Some (w, t) | _ => None end.

(** Places that are not part of a change of tasks. *)
Definition plain (p : pc) : bool :=
  match p with PMigrating _ | PPicked _ | PSwitch _ | PClaim _ | PSave _ | PRestored => false | _ => true end.

Section Steps.
Context {Q : Type} `{BaseSchedulerLaws Q} (MAX_CPU_NUM cpu_num : Z).
Implicit Types (T : gmap Z TaskInner) (C : gmap Z cpu) (R : gmap Z Q) (W : gmap Z AxWaker).

Record counts T C : Prop := {
  n_task : forall t k, T !! t = Some k -> (t_frames k <= preempt_disable_count k)%nat;
  n_cpu : forall c p k, C !! c = Some p -> T !! current p = Some k ->
    (pc_needs (doing p) <= t_frames k)%nat /\ (pc_guards (doing p) + t_frames k <= preempt_disable_count k)%nat;
}.

Record waking T W C : Prop := {
  w_own : forall t k w f ph, T !! t = Some k -> t_code k = CBlock w f ph -> exists wk, W !! w = Some wk /\ w_task wk = t;
  w_block : forall c p w, C !! c = Some p -> pc_blocks (doing p) = Some w ->
    exists wk, W !! w = Some wk /\ woke wk = false /\ w_locked wk = true;
  w_lock : forall w wk, W !! w = Some wk -> w_locked wk = true -> exists c p, C !! c = Some p /\ pc_blocks (doing p) = Some w;
  w_sel : forall c p w t, C !! c = Some p -> pc_waker (doing p) = Some (w, t) -> exists wk, W !! w = Some wk /\ w_task wk = t;
  w_woken : forall t k w f wk, T !! t = Some k -> state k = Blocked -> t_code k = CBlock w f BLoop -> W !! w = Some wk ->
    woke wk = true -> exists c p, C !! c = Some p /\ pc_unblocks (doing p) = Some t;
}.

Definition mask_ok (mask : Z) : Prop := 0 < mask < 2 ^ cpu_num.

Definition pc_ok (p : pc) R : Prop :=
  match p with
  | PSelect mask _ => mask_ok mask
  | PAdd q _ | PMigrate q _ | PWoke q _ _ _ | PUnblock q _ _ | PSpin q _ _ | PPut q _ _ => is_Some (R !! q)
  | _ => True
  end.

Record places T C R : Prop := {
  p_mask : forall t k, T !! t = Some k -> mask_ok (cpumask k);
  p_pc : forall c p, C !! c = Some p -> pc_ok (doing p) R;
  p_all : forall i, 0 <= i < cpu_num -> is_Some (R !! i);
}.

Record numbered T W (n : Z) : Prop := {
  f_task : forall t k, T !! t = Some k -> t < n;
  f_waker : forall w wk, W !! w = Some wk -> w < n;
}.

Record ok T W C R (n : Z) : Prop := {
  o_core : core T C R;
  o_counts : counts T C;
  o_waking : waking T W C;
  o_places : places T C R;
  o_fresh : numbered T W n;
}.

(** ** When a change keeps a part *)

Lemma counts_cur T C c p p' k k' :
  counts T C -> (forall c0 q, C !! c0 = Some q -> c0 <> c -> current q <> current p) ->
  C !! c = Some p -> T !! current p = Some k -> current p' = current p ->
  (t_frames k' <= preempt_disable_count k')%nat -> (pc_needs (doing p') <= t_frames k')%nat ->
  (pc_guards (doing p') + t_frames k' <= preempt_disable_count k')%nat ->
  counts (<[current p := k']> T) (<[c := p']> C).
Proof.
  intros [Ht Hc] Hu Hp Hk Hcur H1 H2 H3. split.
  - intros t x [[<- <-]|[? ?]]%lookup_insert_Some; eauto.
  - intros c0 q x Hq Hx. apply lookup_insert_Some in Hq as [[<- <-]|[Hne Hq]].
    + rewrite Hcur, lookup_insert_eq in Hx. by simplify_eq.
    + rewrite lookup_insert_ne in Hx by (intros He; by eapply Hu). eauto.
Qed.

Lemma counts_task T C t k k' :
  counts T C -> T !! t = Some k -> t_frames k' = t_frames k -> preempt_disable_count k' = preempt_disable_count k ->
  counts (<[t := k']> T) C.
Proof.
  intros [Ht Hc] Hk H1 H2. split.
  - intros u x [[<- <-]|[? ?]]%lookup_insert_Some; [rewrite H1, H2|]; eauto.
  - intros c0 q x Hq [[He <-]|[? Hx]]%lookup_insert_Some; [rewrite H1, H2; eapply Hc; [done|by rewrite <- He]|eauto].
Qed.

Lemma counts_cpu T C c p p' :
  counts T C -> C !! c = Some p -> current p' = current p -> (pc_needs (doing p') <= pc_needs (doing p))%nat -> (pc_guards (doing p') <= pc_guards (doing p))%nat ->
  counts T (<[c := p']> C).
Proof.
  intros [Ht Hc] Hp Hcur H1 H2. split; [done|]. intros c0 q x [[<- <-]|[? ?]]%lookup_insert_Some Hx; [|by eauto].
  rewrite Hcur in Hx. destruct (Hc _ _ _ Hp Hx). lia.
Qed.

Lemma exists_pc {A} (f : pc -> option A) (a : A) C c p p' :
  C !! c = Some p -> (f (doing p) = Some a -> f (doing p') = Some a) ->
  (exists c0 q, C !! c0 = Some q /\ f (doing q) = Some a) -> exists c0 q, <[c := p']> C !! c0 = Some q /\ f (doing q) = Some a.
Proof.
  intros Hp Hf (c0 & q & Hq & Ha). destruct (decide (c0 = c)) as [->|]; [exists c, p'; rewrite lookup_insert_eq; simplify_eq; auto|].
  exists c0, q. by rewrite lookup_insert_ne.
Qed.

Lemma waking_upd T W C c p p' t k k' :
  waking T W C -> C !! c = Some p -> T !! t = Some k -> t_code k' = t_code k ->
  pc_blocks (doing p') = pc_blocks (doing p) ->
  (forall w u, pc_waker (doing p') = Some (w, u) -> exists wk, W !! w = Some wk /\ w_task wk = u) ->
  (state k' = Blocked -> state k = Blocked) ->
  (forall u, pc_unblocks (doing p) = Some u -> pc_unblocks (doing p') = Some u \/ (forall ku, <[t := k']> T !! u = Some ku -> state ku <> Blocked)) ->
  waking (<[t := k']> T) W (<[c := p']> C).
Proof.
  intros [] Hp Hk Hcode Hb Hsel Hst Hub. split.
  - intros u x w f ph [[<- <-]|[? ?]]%lookup_insert_Some; [rewrite Hcode|]; eauto.
  - intros c0 q w [[<- <-]|[? ?]]%lookup_insert_Some; [rewrite Hb|]; eauto.
  - intros w wk Hw Hl. eapply exists_pc; [done|by rewrite Hb|eauto].
  - intros c0 q w u [[<- <-]|[? ?]]%lookup_insert_Some; eauto.
  - intros u x w f wk Hx Hxs Hxc Hw Hwk.
    assert (exists c0 q, C !! c0 = Some q /\ pc_unblocks (doing q) = Some u) as (c0 & q & Hq & Hu).
    { apply lookup_insert_Some in Hx as [[<- <-]|[? ?]]; [rewrite Hcode in Hxc|]; eauto. }
    destruct (decide (c0 = c)) as [->|]; [|exists c0, q; by rewrite lookup_insert_ne]. simplify_eq.
    destruct (Hub _ Hu) as [?|Hn]; [exists c, p'; by rewrite lookup_insert_eq|]. by destruct (Hn _ Hx).
Qed.

Lemma places_upd T C R c p p' t k k' :
  places T C R -> C !! c = Some p -> T !! t = Some k -> cpumask k' = cpumask k -> pc_ok (doing p') R ->
  places (<[t := k']> T) (<[c := p']> C) R.
Proof.
  intros [] Hp Hk Hm Ho. split; [..|done].
  - intros u x [[<- <-]|[? ?]]%lookup_insert_Some; [rewrite Hm|]; eauto.
  - intros c0 q [[<- <-]|[? ?]]%lookup_insert_Some; eauto.
Qed.

Lemma places_queue T C R q b : places T C R -> places T C (<[q := b]> R).
Proof.
  intros []. assert (Hs : forall i, is_Some (R !! i) -> is_Some (<[q := b]> R !! i)).
  { intros i Hi. rewrite lookup_insert_is_Some. destruct (decide (q = i)); [by left|by right]. }
  split; [done|..|eauto]. intros c p Hp. pose proof (p_pc0 _ _ Hp) as Ho. unfold pc_ok in *. destruct (doing p); eauto.
Qed.

Lemma numbered_upd T W n t k k' : numbered T W n -> T !! t = Some k -> numbered (<[t := k']> T) W n.
Proof. intros [] Hk. split; [|done]. intros u x [[<- <-]|[? ?]]%lookup_insert_Some; eauto. Qed.

(** ** Changes that no other CPU notices *)

Lemma plain_quiet x p : plain (doing p) = true -> plain x = true ->
  cpu_seats (set_doing x p) = cpu_seats p /\ cpu_ons (set_doing x p) = cpu_ons p /\ cpu_debts (set_doing x p) = cpu_debts p /\
  forall m t, ~ hands_over m t p.
Proof.
  intros Hp Hx. unfold cpu_seats, cpu_ons, cpu_debts, hands_over. simpl.
  destruct (doing p), x; try done; (split_and!; [done..|]); naive_solver.
Qed.

Lemma core_goto T C R c p x :
  core T C R -> C !! c = Some p -> plain (doing p) = true -> plain x = true ->
  pc_runs x = pc_runs (doing p) -> pc_dies x = pc_dies (doing p) ->
  pc_toks (idle_task p) (current p) x = pc_toks (idle_task p) (current p) (doing p) ->
  (forall t, t ∈ pc_refs (current p) x -> t ∈ pc_refs (current p) (doing p) \/ is_Some (T !! t)) ->
  hand_ok c (set_doing x p) T C -> core T (<[c := set_doing x p]> C) R.
Proof.
  intros Hc Hp Hpl Hx Hr Hd Ht Href Hh. destruct (plain_quiet x p Hpl Hx) as (Hs & Ho & Hde & Hov).
  apply (core_cpu T C R c p); try done.
  - intros t. unfold cpu_refs. simpl. rewrite !elem_of_cons, !elem_of_app. intros [?|[?|[?|Hin%Href]]]; [tauto..|]. tauto.
  - intros t. unfold cpu_toks. simpl. rewrite Ht, Hde. lia.
  - unfold cpu_runs. simpl. rewrite Hr. by destruct (doing p), x.
  - intros t. unfold cpu_deads. simpl. by rewrite Hd.
  - intros m t Hm. by destruct (Hov m t).
Qed.

Lemma uniq_cur T C R c p c0 q : core T C R -> C !! c = Some p -> C !! c0 = Some q -> c0 <> c -> current q <> current p.
Proof.
  intros Hc Hp Hq Hne He. apply Hne. eapply (c_uniq _ _ _ Hc (current p)); [exact Hq|exact Hp| |]; [rewrite <- He|]; apply current_seat.
Qed.

(** The counters of the current task change, and the CPU goes on to another place of the same kind. *)
Lemma ok_goto T W C R n c p x k k' :
  ok T W C R n -> C !! c = Some p -> T !! current p = Some k ->
  similar k k' -> cpumask k' = cpumask k ->
  plain (doing p) = true -> plain x = true -> pc_runs x = pc_runs (doing p) -> pc_dies x = pc_dies (doing p) ->
  pc_toks (idle_task p) (current p) x = pc_toks (idle_task p) (current p) (doing p) ->
  (forall t, t ∈ pc_refs (current p) x -> t ∈ pc_refs (current p) (doing p) \/ is_Some (T !! t)) ->
  hand_ok c (set_doing x p) T C ->
  (t_frames k' <= preempt_disable_count k')%nat -> (pc_needs x <= t_frames k')%nat -> (pc_guards x + t_frames k' <= preempt_disable_count k')%nat ->
  pc_blocks x = pc_blocks (doing p) ->
  (forall w u, pc_waker x = Some (w, u) -> exists wk, W !! w = Some wk /\ w_task wk = u) ->
  (forall u, pc_unblocks (doing p) = Some u -> forall ku, T !! u = Some ku -> state ku <> Blocked) ->
  pc_ok x R ->
  ok (<[current p := k']> T) W (<[c := set_doing x p]> C) R n.
Proof.
  intros [Hco Hcn Hw Hpl Hf] Hp Hk Hsim Hm H1 H2 H3 H4 H5 H6 H7 H8 H9 H10 H11 H12 H13 H14. split.
  - eapply core_task; [|exact Hk|exact Hsim]. by apply core_goto.
  - eapply counts_cur; try done. intros. by eapply uniq_cur.
  - destruct Hsim as (? & ? & Hst & ?). eapply waking_upd; try done; [by rewrite Hst|]. intros u Hu. right.
    intros ku [[<- <-]|[? ?]]%lookup_insert_Some; [rewrite Hst; by eapply H13|by eapply H13].
  - by eapply places_upd.
  - by eapply numbered_upd.
Qed.
(** ** Steps *)

Definition okm (s : machine (Q := Q)) : Prop := ok (tasks s) (wakers s) (cpus s) (run_queues s) (next_id s).

(** The machine is switched off, or goes on as it should. *)
Definition good (s : machine (Q := Q)) : Prop := halted s = Some Off \/ (halted s = None /\ okm s).

Lemma alter_is {A} (f : A -> A) (i : Z) (m : gmap Z A) x : m !! i = Some x -> alter f i m = <[i := f x]> m.
Proof.
  intros Hx. apply map_eq. intros j. destruct (decide (i = j)) as [<-|]; [by rewrite lookup_alter_eq, lookup_insert_eq, Hx|by rewrite lookup_alter_ne, lookup_insert_ne].
Qed.

Lemma cur_alive T C R c p : core T C R -> C !! c = Some p -> is_Some (T !! current p).
Proof. intros Hc Hp. eapply (c_alive _ _ _ Hc); [exact Hp|]. apply elem_of_app. left. apply current_seat. Qed.

Lemma cur_running T C R c p k : core T C R -> C !! c = Some p -> pc_runs (doing p) = true -> T !! current p = Some k -> state k = Running.
Proof. intros Hc Hp Hr Hk. apply (c_run _ _ _ Hc _ _ Hk). exists c, p. split; [done|]. unfold cpu_runs. rewrite Hr. by left. Qed.

Lemma runs_alive x : pc_runs x = true -> pc_dies x = false.
Proof. unfold pc_runs, pc_dies, after_runs, after_dies. by repeat case_match. Qed.

Lemma enable_preempt_good s c p next k k0 T :
  halted s = None -> tasks s = <[current p := k0]> T -> ok T (wakers s) (cpus s) (run_queues s) (next_id s) ->
  cpus s !! c = Some p -> T !! current p = Some k ->
  similar k k0 -> cpumask k0 = cpumask k -> (t_frames k0 <= t_frames k)%nat -> (t_frames k0 < preempt_disable_count k0)%nat ->
  plain (doing p) = true -> pc_blocks (doing p) = None -> pc_unblocks (doing p) = None \/ (forall u ku, pc_unblocks (doing p) = Some u -> T !! u = Some ku -> state ku <> Blocked) ->
  pc_toks (idle_task p) (current p) (doing p) = [] -> hand_ok c (set_doing next p) T (cpus s) ->
  (pc_runs (doing p) = true \/ 1 < preempt_disable_count k0)%nat ->
  plain next = true -> pc_blocks next = None -> pc_waker next = None -> pc_toks (idle_task p) (current p) next = [] -> pc_refs (current p) next = [] ->
  pc_runs next = pc_runs (doing p) -> pc_dies next = pc_dies (doing p) -> (pc_needs next <= t_frames k0)%nat -> pc_ok next (run_queues s) ->
  good (enable_preempt c (current p) next s).
Proof.
  intros Hh HT Hok Hp Hk Hsim Hm Hf Hlt Hpl Hbl Hub Htk Hhand Hrun Hn1 Hn2 Hn3 Hn4 Hn5 Hn6 Hn7 Hn8 Hn9. right. unfold enable_preempt. rewrite HT, lookup_insert_eq.
  assert (Hk0 : <[current p := k0]> T !! current p = Some k0) by apply lookup_insert_eq.
  assert (Hub' : forall u, pc_unblocks (doing p) = Some u -> forall ku, T !! u = Some ku -> state ku <> Blocked) by naive_solver.
  destruct (((preempt_disable_count k0 =? 1)%nat && need_resched k0)%bool) eqn:Hpre; bool_hyps.
  - apply Nat.eqb_eq in H1. assert (state k = Running) as Hst by (eapply cur_running; [apply Hok|done| |done]; destruct Hrun; [done|lia]).
    destruct Hsim as (S1 & S2 & S3 & S4). unfold is_running. rewrite S3, Hst. rewrite bool_decide_true by done. split; [done|]. unfold okm. simpl. rewrite HT.
    rewrite (alter_is _ _ _ _ Hk0), insert_insert_eq. erewrite (alter_is acquire), insert_insert_eq by apply lookup_insert_eq. rewrite (alter_is _ _ _ _ Hp).
    eapply ok_goto; try done; simpl; try lia; try (by rewrite ?Htk, ?Hbl); try (by split_and!).
    + destruct Hrun as [-> |?]; [done|lia].
    + destruct Hrun as [Hr|?]; [by rewrite (runs_alive _ Hr)|lia].
    + intros t ->%list_elem_of_singleton. right. by rewrite Hk.
  - split; [done|]. unfold okm. simpl. rewrite HT, (alter_is _ _ _ _ Hk0), insert_insert_eq, (alter_is _ _ _ _ Hp).
    eapply ok_goto; try done; simpl; try lia; try (by rewrite ?Htk, ?Hbl).
    + rewrite Hn5. by intros t ?%not_elem_of_nil.
    + unfold pc_guards. rewrite Hn2. lia.
    + rewrite Hn3. done.
Qed.
Lemma release_good s c p next k :
  halted s = None -> okm s -> cpus s !! c = Some p -> tasks s !! current p = Some k -> (1 <= t_frames k)%nat ->
  plain (doing p) = true -> pc_blocks (doing p) = None -> (forall u ku, pc_unblocks (doing p) = Some u -> tasks s !! u = Some ku -> state ku <> Blocked) ->
  pc_toks (idle_task p) (current p) (doing p) = [] -> hand_ok c (set_doing next p) (tasks s) (cpus s) ->
  (pc_runs (doing p) = true \/ 1 < t_frames k)%nat ->
  plain next = true -> pc_blocks next = None -> pc_waker next = None -> pc_toks (idle_task p) (current p) next = [] -> pc_refs (current p) next = [] ->
  pc_runs next = pc_runs (doing p) -> pc_dies next = pc_dies (doing p) -> (pc_needs next < t_frames k)%nat -> pc_ok next (run_queues s) ->
  good (release c (current p) next s).
Proof.
  intros Hh Hok Hp Hk Hf Hpl Hb Hu Ht Hhand Hr. intros. pose proof (n_task _ _ (o_counts _ _ _ _ _ Hok) _ _ Hk).
  unfold release. eapply (enable_preempt_good _ _ _ _ k (set_frames (pred (t_frames k)) k) (tasks s)); try done; simpl; try lia; auto.
  - by rewrite (alter_is _ _ _ _ Hk).
  - destruct Hr; [by left|right; lia].
Qed.

(** A CPU whose current task is known. *)
Lemma ok_cur s c p : okm s -> cpus s !! c = Some p ->
  exists k, tasks s !! current p = Some k /\ (t_frames k <= preempt_disable_count k)%nat /\ (pc_needs (doing p) <= t_frames k)%nat /\
    (pc_guards (doing p) + t_frames k <= preempt_disable_count k)%nat /\ mask_ok (cpumask k) /\ (pc_runs (doing p) = true -> state k = Running).
Proof.
  intros Hok Hp. destruct (cur_alive _ _ _ _ _ (o_core _ _ _ _ _ Hok) Hp) as [k Hk]. exists k.
  destruct (n_cpu _ _ (o_counts _ _ _ _ _ Hok) _ _ _ Hp Hk) as [H1 H2]. pose proof (n_task _ _ (o_counts _ _ _ _ _ Hok) _ _ Hk) as H3.
  pose proof (p_mask _ _ _ (o_places _ _ _ _ _ Hok) _ _ Hk) as H4.
  assert (pc_runs (doing p) = true -> state k = Running) as H5 by (intros; eapply cur_running; [apply Hok|done..]). auto 10.
Qed.

(** A step that only moves the CPU on. *)
Lemma goto_good s c p x :
  halted s = None -> okm s -> cpus s !! c = Some p ->
  plain (doing p) = true -> plain x = true -> pc_runs x = pc_runs (doing p) -> pc_dies x = pc_dies (doing p) ->
  pc_toks (idle_task p) (current p) x = pc_toks (idle_task p) (current p) (doing p) ->
  (forall t, t ∈ pc_refs (current p) x -> t ∈ pc_refs (current p) (doing p) \/ is_Some (tasks s !! t)) ->
  hand_ok c (set_doing x p) (tasks s) (cpus s) ->
  (pc_needs x <= pc_needs (doing p))%nat -> pc_blocks x = None -> pc_blocks (doing p) = None ->
  (forall w u, pc_waker x = Some (w, u) -> exists wk, wakers s !! w = Some wk /\ w_task wk = u) ->
  (forall u, pc_unblocks (doing p) = Some u -> forall ku, tasks s !! u = Some ku -> state ku <> Blocked) ->
  pc_ok x (run_queues s) ->
  good (goto c x s).
Proof.
  intros Hh Hok Hp. intros. destruct (ok_cur _ _ _ Hok Hp) as (k & Hk & ? & ? & ? & ? & ?). right. split; [done|].
  unfold okm, goto. simpl. rewrite (alter_is _ _ _ _ Hp), <- (insert_id _ _ _ Hk).
  eapply ok_goto; try done; try congruence; try lia; unfold pc_guards in *; repeat case_match; try congruence; try lia; done.
Qed.

Lemma mask_get_small mask i : mask_ok mask -> 0 <= i -> mask_get mask i = true -> i < cpu_num.
Proof.
  intros [H1 H2] Hi Hg. destruct (Z.lt_ge_cases i cpu_num) as [|Hle]; [done|]. exfalso. unfold mask_get in Hg.
  rewrite (Z.bits_above_log2 mask i) in Hg; [done|lia|]. apply Z.log2_lt_pow2; [lia|]. eapply Z.lt_le_trans; [exact H2|].
  apply Z.pow_le_mono_r; lia.
Qed.

Lemma step_select_good s c p mask k :
  0 < MAX_CPU_NUM -> halted s = None -> okm s -> cpus s !! c = Some p -> doing p = PSelect mask k ->
  good (step_select MAX_CPU_NUM c mask k s).
Proof.
  intros HM Hh Hok Hp Hd. pose proof (p_pc _ _ _ (o_places _ _ _ _ _ Hok) _ _ Hp) as Hm. rewrite Hd in Hm. simpl in Hm.
  unfold step_select, mask_is_empty. destruct (Z.eqb_spec mask 0) as [->|]; [destruct Hm; lia|].
  set (i := rq_index s mod MAX_CPU_NUM). set (s1 := set_index (as_u64 (rq_index s + 1)) s). assert (Hok1 : okm s1) by done.
  destruct (mask_get mask i) eqn:Hg; [|by right]. assert (0 <= i < cpu_num) as Hi.
  { assert (0 <= i) by (apply Z.mod_pos_bound; lia). split; [done|]. by eapply mask_get_small. }
  destruct (p_all _ _ _ (o_places _ _ _ _ _ Hok1) i Hi) as [q Hq]. rewrite Hq.
  pose proof (c_hand _ _ _ (o_core _ _ _ _ _ Hok) _ _ Hp) as Hho. unfold hand_ok in Hho. rewrite Hd in Hho.
  destruct k as [t|t|w t k]; (eapply (goto_good s1); try done; rewrite ?Hd; simpl; try done; try (by eexists); try by intros; left).
  intros w0 u [= <- <-]. eapply (w_sel _ _ _ (o_waking _ _ _ _ _ Hok)); [exact Hp|]. by rewrite Hd.
Qed.
End Steps.

(** * Every step of the scheduler keeps its invariant

    One lemma per place of the scheduler and per event, and the theorem that puts them together. *)

Section Proof.
Context {Q : Type} `{BaseSchedulerLaws Q} (MAX_CPU_NUM cpu_num : Z).
Implicit Types (T : gmap Z TaskInner) (C : gmap Z cpu) (R : gmap Z Q) (W : gmap Z AxWaker).
#[local] Notation ok := (ok cpu_num).
#[local] Notation okm := (okm cpu_num).
#[local] Notation good := (good cpu_num).

(** ** Queues *)

Lemma ok_enqueue T W C R n c p x q b b' t kt kt' :
  ok T W C R n -> C !! c = Some p -> R !! q = Some b -> T !! t = Some kt ->
  similar kt kt' -> cpumask kt' = cpumask kt -> t_frames kt' = t_frames kt -> preempt_disable_count kt' = preempt_disable_count kt ->
  plain (doing p) = true -> plain x = true -> pc_runs x = pc_runs (doing p) -> pc_dies x = pc_dies (doing p) ->
  pc_toks (idle_task p) (current p) (doing p) = [t] -> pc_toks (idle_task p) (current p) x = [] -> pc_refs (current p) x = [] ->
  owned b' ≡ₚ t :: owned b -> only_at q t C -> hand_ok c (set_doing x p) T C ->
  (pc_needs x <= pc_needs (doing p))%nat -> pc_blocks x = None -> pc_blocks (doing p) = None -> pc_waker x = None -> pc_unblocks (doing p) = None ->
  pc_ok cpu_num x R ->
  ok (<[t := kt']> T) W (<[c := set_doing x p]> C) (<[q := b']> R) n.
Proof.
  intros [Hco Hcn Hw Hpl Hf] Hp Hb Ht Hsim Hm Hf1 Hf2 P1 P2 Hru Hdi Htk Htk' Href Hown Hon Hh Hne B1 B2 B3 B4 Hpc.
  destruct (plain_quiet x p P1 P2) as (Hs & Ho & Hde & Hov). split.
  - eapply core_task; [|exact Ht|exact Hsim]. apply (core_queue T C R c p _ q b b'); try done.
    + intros u. unfold cpu_refs. simpl. rewrite !elem_of_cons, !elem_of_app, Href. intros [?|[?|[?|?%not_elem_of_nil]]]; tauto.
    + intros u. unfold cpu_toks. simpl. rewrite Htk, Htk', Hde, Hown, occ_of_cons, !occ_of_cons, !occ_nil. lia.
    + unfold cpu_runs. simpl. rewrite Hru. by destruct (doing p), x.
    + unfold cpu_deads. simpl. by rewrite Hdi.
    + intros m u Hmu. by destruct (Hov m u).
    + intros u. rewrite Hown. intros [->|?]%elem_of_cons; [right|by left]. split; [by rewrite Ht|done].
  - eapply counts_task; try done. eapply counts_cpu; try done. unfold pc_guards. simpl. by rewrite B1, B2.
  - destruct Hsim as (? & ? & Hst & ?). eapply waking_upd; try done; simpl; [by rewrite B1, B2|by rewrite B3|by rewrite Hst|by rewrite B4].
  - eapply places_queue. by eapply places_upd.
  - by eapply numbered_upd.
Qed.

Lemma unseated_only q t C : unseated t C -> only_at q t C.
Proof. intros Hu c p Hp Hin. by destruct (Hu c p Hp). Qed.

(** The hands of a CPU, as [core] describes them. *)
Lemma ok_hand s c p : okm s -> cpus s !! c = Some p -> hand_ok c p (tasks s) (cpus s).
Proof. intros Hok. by apply (c_hand _ _ _ (o_core _ _ _ _ _ _ Hok)). Qed.

Lemma ok_ref s c p t : okm s -> cpus s !! c = Some p -> t ∈ pc_refs (current p) (doing p) -> is_Some (tasks s !! t).
Proof.
  intros Hok Hp Hin. eapply (c_alive _ _ _ (o_core _ _ _ _ _ _ Hok)); [exact Hp|]. apply elem_of_app. right.
  unfold cpu_refs. do 2 right. apply elem_of_app. by right.
Qed.

Lemma ok_pc s c p : okm s -> cpus s !! c = Some p -> pc_ok cpu_num (doing p) (run_queues s).
Proof. intros Hok. by apply (p_pc _ _ _ _ (o_places _ _ _ _ _ _ Hok)). Qed.

Lemma add_good s c p q t tk :
  halted s = None -> okm s -> cpus s !! c = Some p -> doing p = PAdd q t -> tasks s !! t = Some tk ->
  is_ready tk = true /\ good (goto c PRelease (upd_rq q (sched_add_task t) s)).
Proof.
  intros Hh Hok Hp Hd Ht. pose proof (ok_hand _ _ _ Hok Hp) as Hho. pose proof (ok_pc _ _ _ Hok Hp) as Hpc. unfold hand_ok in Hho. rewrite Hd in Hho, Hpc.
  destruct Hpc as [b Hb]. split.
  - destruct (token_hand _ _ _ t _ _ (o_core _ _ _ _ _ _ Hok) Hp) as [(k & Hk & _ & Hst) _]; [unfold cpu_toks; rewrite Hd; by left|].
    simplify_eq. unfold is_ready. by rewrite Hst.
  - right. split; [done|]. unfold SchedProof.okm. simpl. rewrite (alter_is _ _ _ _ Hp), (alter_is _ _ _ _ Hb), <- (insert_id _ _ _ Ht).
    eapply ok_enqueue; try done; rewrite ?Hd; try done; [apply owned_add|by apply unseated_only|simpl; lia].
Qed.

Lemma migrate_good s c p q t :
  halted s = None -> okm s -> cpus s !! c = Some p -> doing p = PMigrate q t ->
  good (goto c PRelease (upd_rq q (put_prev_task t false) s)).
Proof.
  intros Hh Hok Hp Hd. pose proof (ok_hand _ _ _ Hok Hp) as Hho. pose proof (ok_pc _ _ _ Hok Hp) as Hpc. unfold hand_ok in Hho. rewrite Hd in Hho, Hpc.
  destruct Hpc as [b Hb]. destruct (ok_ref s c p t Hok Hp) as [tk Ht]; [rewrite Hd; by left|].
  right. split; [done|]. unfold SchedProof.okm. simpl. rewrite (alter_is _ _ _ _ Hp), (alter_is _ _ _ _ Hb), <- (insert_id _ _ _ Ht).
  eapply ok_enqueue; try done; rewrite ?Hd; try done; [apply owned_put|by apply unseated_only|simpl; lia].
Qed.

Lemma put_good s c p q t k :
  halted s = None -> okm s -> cpus s !! c = Some p -> doing p = PPut q t k -> good (step_put c q t k s).
Proof.
  intros Hh Hok Hp Hd. pose proof (ok_hand _ _ _ Hok Hp) as Hho. pose proof (ok_pc _ _ _ Hok Hp) as Hpc. unfold hand_ok in Hho. rewrite Hd in Hho, Hpc.
  destruct Hpc as [b Hb]. destruct (ok_ref s c p t Hok Hp) as [tk Ht]; [rewrite Hd; by left|].
  right. split; [done|]. unfold SchedProof.okm, step_put. simpl. rewrite (alter_is _ _ _ _ Hp), (alter_is _ _ _ _ Hb), (alter_is _ _ _ _ Ht).
  eapply ok_enqueue; try done; rewrite ?Hd; try done; try apply owned_put; try (by apply unseated_only); destruct k; simpl; done || lia.
Qed.

Lemma put_enq_good s c p b :
  halted s = None -> okm s -> cpus s !! c = Some p -> doing p = PPutEnq b -> good (step_put_enq c (current p) b s).
Proof.
  intros Hh Hok Hp Hd. pose proof (o_core _ _ _ _ _ _ Hok) as Hc. destruct (proj1 (c_rq _ _ _ Hc c)) as [q Hq]; [by rewrite Hp|].
  destruct (cur_alive _ _ _ _ _ Hc Hp) as [tk Ht].
  right. split; [done|]. unfold SchedProof.okm, step_put_enq. simpl. rewrite (alter_is _ _ _ _ Hp), (alter_is _ _ _ _ Hq), (alter_is _ _ _ _ Ht).
  eapply ok_enqueue; try done; rewrite ?Hd; try done; [apply owned_put|].
  intros c' p' Hp' Hin. eapply (c_uniq _ _ _ Hc); [exact Hp'|exact Hp|exact Hin|apply current_seat].
Qed.
(** ** Waking *)

Lemma waking_set T W C c p p' w wk wk' :
  waking T W C -> C !! c = Some p -> W !! w = Some wk -> w_task wk' = w_task wk ->
  (forall c0 q, C !! c0 = Some q -> c0 <> c -> pc_blocks (doing q) <> Some w) ->
  (forall w0, w0 <> w -> pc_blocks (doing p') = Some w0 <-> pc_blocks (doing p) = Some w0) ->
  (pc_blocks (doing p') = Some w <-> w_locked wk' = true) -> (w_locked wk' = true -> woke wk' = false) ->
  pc_waker (doing p') = None -> pc_unblocks (doing p) = None ->
  (woke wk' = true -> pc_unblocks (doing p') = Some (w_task wk)) ->
  waking T (<[w := wk']> W) (<[c := p']> C).
Proof.
  intros [Hown Hblk Hlk Hsl Hwkn] Hp Hw Ht Hoth Hb Hbw Hl Hsel Hub Hwoke.
  assert (Hs : forall w0 u, (exists x, W !! w0 = Some x /\ w_task x = u) -> exists x, <[w := wk']> W !! w0 = Some x /\ w_task x = u).
  { intros w0 u (x & Hx & <-). destruct (decide (w0 = w)) as [->|]; [exists wk'; rewrite lookup_insert_eq; by simplify_eq|exists x; by rewrite lookup_insert_ne]. }
  split.
  - eauto.
  - intros c0 q w0 Hq Hq0. destruct (decide (w0 = w)) as [->|Hne].
    + exists wk'. rewrite lookup_insert_eq. apply lookup_insert_Some in Hq as [[<- <-]|[? ?]]; [apply Hbw in Hq0; auto|]. by destruct (Hoth c0 q).
    + rewrite lookup_insert_ne by done. apply lookup_insert_Some in Hq as [[<- <-]|[? ?]]; [apply Hb in Hq0; [|done]|]; eauto.
  - intros w0 x [[<- <-]|[? Hx]]%lookup_insert_Some Hxl; [exists c, p'; rewrite lookup_insert_eq; by rewrite Hbw|].
    eapply exists_pc; [done|by apply Hb|eauto].
  - intros c0 q w0 u [[<- <-]|[? ?]]%lookup_insert_Some; [by rewrite Hsel|eauto].
  - intros u x w0 f y Hx Hxs Hxc [[<- <-]|[? Hy]]%lookup_insert_Some Hyw.
    + exists c, p'. rewrite lookup_insert_eq. split; [done|]. rewrite (Hwoke Hyw). f_equal. destruct (Hown _ _ _ _ _ Hx Hxc) as (z & Hz & <-). by simplify_eq.
    + eapply exists_pc; [done|by rewrite Hub|eauto].
Qed.

(** Only the CPU of the task that owns a waker locks it. *)
Lemma blocks_owner T W C R c p w wk :
  core T C R -> waking T W C -> C !! c = Some p -> pc_blocks (doing p) = Some w -> W !! w = Some wk -> w_task wk = current p.
Proof.
  intros Hc Hw Hp Hb Hwk. pose proof (c_hand _ _ _ Hc _ _ Hp) as Hh. unfold hand_ok in Hh.
  assert (code_at (current p) (fun c => exists f, c = CBlock w f BLoop) T) as (k & Hk & f & Hcode) by (destruct (doing p); simplify_eq/=; done).
  destruct (w_own _ _ _ Hw _ _ _ _ _ Hk Hcode) as (x & Hx & <-). by simplify_eq.
Qed.

Lemma woke_good s c p q w t k wk :
  halted s = None -> okm s -> cpus s !! c = Some p -> doing p = PWoke q w t k -> wakers s !! w = Some wk -> w_locked wk = false ->
  good (goto c (PUnblock q t k) (set_wakers (<[w := mk_waker (w_task wk) true false]> (wakers s)) s)).
Proof.
  intros Hh Hok Hp Hd Hw Hl. pose proof (ok_pc _ _ _ Hok Hp) as Hpc. rewrite Hd in Hpc. destruct Hok as [Hco Hcn Hwk Hpl Hf].
  right. split; [done|]. unfold SchedProof.okm. simpl. rewrite (alter_is _ _ _ _ Hp). destruct (cur_alive _ _ _ _ _ Hco Hp) as [kc Hkc]. split.
  - apply core_goto; try done; rewrite ?Hd; try done. intros u Hu. by left.
  - eapply counts_cpu; try done; by rewrite Hd.
  - eapply waking_set; try done; rewrite ?Hd; try done.
    + intros c0 p0 Hq Hne Hb. destruct (w_block _ _ _ Hwk _ _ _ Hq Hb) as (x & Hx & _ & ?). simplify_eq. congruence.
    + intros _. simpl. destruct (w_sel _ _ _ Hwk c p w t Hp) as (x & Hx & <-); [by rewrite Hd|]. by simplify_eq.
  - rewrite <- (insert_id _ _ _ Hkc). by eapply places_upd.
  - destruct Hf. split; [done|]. intros w0 x [[<- <-]|[? ?]]%lookup_insert_Some; eauto.
Qed.

Lemma same_run T C R t k c p : core T C R -> C !! c = Some p -> T !! t = Some k ->
  state k = Running <-> t ∈ cpu_runs p \/ (state k = Running /\ t ∉ cpu_runs p).
Proof. intros Hc Hp Hk. rewrite (c_run _ _ _ Hc _ _ Hk). destruct (decide (t ∈ cpu_runs p)); [|tauto]. split; [by left|eauto]. Qed.

Lemma same_on T C R t k c p : core T C R -> C !! c = Some p -> T !! t = Some k ->
  on_cpu k = true <-> t ∈ cpu_ons p \/ (on_cpu k = true /\ t ∉ cpu_ons p).
Proof. intros Hc Hp Hk. rewrite (c_on _ _ _ Hc _ _ Hk). destruct (decide (t ∈ cpu_ons p)); [|tauto]. split; [by left|eauto]. Qed.

Lemma unblock_good s c p q t k tk :
  halted s = None -> okm s -> cpus s !! c = Some p -> doing p = PUnblock q t k -> tasks s !! t = Some tk ->
  good (if bool_decide (state tk = Blocked) then
          let s := upd_task t (set_state Ready) s in if is_idle tk then end_wake c k s else goto c (PSpin q t k) s
        else end_wake c k s).
Proof.
  intros Hh Hok Hp Hd Ht. pose proof (ok_pc _ _ _ Hok Hp) as Hpc. rewrite Hd in Hpc. case_bool_decide as Hst.
  - pose proof (o_core _ _ _ _ _ _ Hok) as Hc. destruct (c_blocked _ _ _ Hc _ _ Ht Hst) as (w & f & Hcode).
    assert (is_idle tk = false) as Hi.
    { destruct (is_idle tk) eqn:E; [|done]. apply (c_named _ _ _ Hc _ _ Ht) in E. congruence. }
    rewrite Hi. right. split; [done|]. destruct Hok as [_ Hcn Hwk Hpl Hf]. unfold SchedProof.okm. simpl. rewrite (alter_is _ _ _ _ Hp), (alter_is _ _ _ _ Ht).
    assert (Hnr : t ∉ cpu_runs p). { intros Hin. assert (state tk = Running); [|congruence]. apply (c_run _ _ _ Hc _ _ Ht). eauto. }
    split.
    + eapply core_update; try done. destruct (plain_quiet (PSpin q t k) p) as (Hs & Ho & Hde & Hov); [by rewrite Hd|done|].
      assert (cpu_runs (set_doing (PSpin q t k) p) = cpu_runs p) as Hru by (unfold cpu_runs; by rewrite Hd).
      assert (cpu_deads (set_doing (PSpin q t k) p) = cpu_deads p) as Hdd by (unfold cpu_deads; by rewrite Hd).
      split; rewrite ?Hs, ?Ho, ?Hde, ?Hru, ?Hdd; try done.
      * by apply (c_nodup _ _ _ Hc c).
      * intros u. unfold cpu_refs. rewrite Hd. simpl. tauto.
      * intros u. unfold cpu_toks. rewrite Hd. simpl. rewrite occ_of_cons, !occ_nil. unfold is_ready. rewrite Hi, Hst. simpl.
        destruct (decide (u = t)) as [->|]; [rewrite decide_True by done|rewrite decide_False by done]; lia.
      * intros u. simpl. naive_solver.
      * simpl. split; [done|]. intros [?|[? _]]; congruence.
      * by apply (same_on _ _ _ _ _ _ _ Hc Hp Ht).
      * congruence.
      * intros. simpl. by right; right.
      * intros m u _ ?. by destruct (Hov m u).
    + eapply counts_task; try done. eapply counts_cpu; try done; by rewrite Hd.
    + eapply waking_upd; try done; rewrite ?Hd; try done. intros u [= <-]. right. intros ku. rewrite lookup_insert_eq. by intros [= <-].
    + by eapply places_upd.
    + by eapply numbered_upd.
  - unfold end_wake. eapply goto_good; try done; rewrite ?Hd; try done; destruct k; simpl; try done; try lia; try (by intros ? ?%not_elem_of_nil); intros u [= <-] ku Hku; by simplify_eq.
Qed.

Lemma seats_split t p : t ∈ cpu_seats p -> t ∈ cpu_ons p \/ t ∈ cpu_runs p.
Proof. unfold cpu_seats, cpu_ons, cpu_runs. destruct (doing p); set_solver. Qed.

Lemma spin_good s c p q t k tk :
  halted s = None -> okm s -> cpus s !! c = Some p -> doing p = PSpin q t k -> tasks s !! t = Some tk -> on_cpu tk = false ->
  good (goto c (PPut q t k) s).
Proof.
  intros Hh Hok Hp Hd Ht Hon. pose proof (ok_pc _ _ _ Hok Hp) as Hpc. rewrite Hd in Hpc. pose proof (o_core _ _ _ _ _ _ Hok) as Hc.
  destruct (token_hand _ _ _ t _ _ Hc Hp) as [(k0 & Hk0 & _ & Hst) _]; [unfold cpu_toks; rewrite Hd; by left|]. simplify_eq.
  eapply goto_good; try done; rewrite ?Hd; try done; [by intros; left|]. unfold hand_ok. simpl. intros c' p' Hp' Hin.
  assert (t ∈ cpu_ons p' \/ t ∈ cpu_runs p') as [Hin'|Hin'].
  - by apply seats_split.
  - assert (on_cpu tk = true); [|congruence]. apply (c_on _ _ _ Hc _ _ Ht). eauto.
  - assert (state tk = Running); [|congruence]. apply (c_run _ _ _ Hc _ _ Ht). eauto.
Qed.

Lemma woken_good s c p k :
  halted s = None -> okm s -> cpus s !! c = Some p -> doing p = PWoken k -> good (release c (current p) (after_pc k) s).
Proof.
  intros Hh Hok Hp Hd. destruct (ok_cur _ _ _ _ Hok Hp) as (kc & Hk & ? & Hn & ? & ? & ?). rewrite Hd in Hn.
  eapply release_good; try done; rewrite ?Hd; try done; destruct k; simpl in *; try done; try lia; try (by left); by right; lia.
Qed.
(** ** The running task leaves its state *)

Lemma core_leave T C R c p x k y :
  core T C R -> C !! c = Some p -> T !! current p = Some k -> pc_runs (doing p) = true -> pc_runs x = false -> y <> Running ->
  cpu_seats (set_doing x p) = cpu_seats p -> cpu_ons (set_doing x p) = cpu_ons p ->
  (doing p <> PRestored) -> (match x with PClaim _ | PSave _ => false | _ => true end) = true ->
  (forall t, t ∈ pc_refs (current p) x -> t ∈ cpu_refs p) -> pc_dies x = bool_decide (y = Exited) ->
  (forall t, occ t (pc_toks (idle_task p) (current p) x) + occ t (cpu_debts p) =
             occ t (cpu_toks p) + occ t (cpu_debts (set_doing x p)) + (if decide (t = current p) then ready_tok (Some (set_state y k)) else 0))%nat ->
  (y = Blocked -> exists w f, t_code k = CBlock w f BLoop) -> (y = Exited -> t_code k = CTask) -> (is_idle k = true -> y = Ready) ->
  hand_ok c (set_doing x p) T C -> (forall m t, hands_over m t p -> hands_over m t (set_doing x p)) ->
  core (<[current p := set_state y k]> T) (<[c := set_doing x p]> C) R.
Proof.
  intros Hc Hp Hk Hr Hx Hy Hs Ho Hnr Hnx Href Hd Ht Hb He Hi Hh Hm. pose proof (cur_running _ _ _ _ _ _ Hc Hp Hr Hk) as Hst.
  assert (Hrun : cpu_runs p = [current p]) by (unfold cpu_runs; rewrite Hr; destruct (doing p); done).
  assert (Hrun' : cpu_runs (set_doing x p) = []) by (unfold cpu_runs; simpl; rewrite Hx; destruct x; done).
  eapply core_update; try done. split; rewrite ?Hs, ?Ho, ?Hrun, ?Hrun'; try done.
  - by apply (c_nodup _ _ _ Hc c).
  - intros t. unfold cpu_refs at 1. simpl. rewrite !elem_of_cons, !elem_of_app. intros Hin. left. destruct Hin as [->|[->|[Hin|Hin]]]; [..|by apply Href];
      unfold cpu_refs; rewrite !elem_of_cons, !elem_of_app; tauto.
  - intros t. specialize (Ht t). simpl in *. unfold is_ready in *. rewrite Hst. simpl. rewrite andb_false_r. unfold cpu_toks in *. simpl in *.
    destruct (decide (t = current p)); lia.
  - intros t Hne. set_solver.
  - intros t. unfold cpu_deads. simpl. rewrite Hd, (runs_alive _ Hr), Hst. case_bool_decide; set_solver.
  - simpl. split; [done|]. intros [?%not_elem_of_nil|[_ Hn]]; [done|]. set_solver.
  - apply (same_on _ _ _ _ _ _ _ Hc Hp Hk).
  - congruence.
  - intros _ _ c' p' Hp' Hin. eapply (c_uniq _ _ _ Hc); [exact Hp'|exact Hp|exact Hin|apply current_seat].
  - simpl. auto.
  - simpl. auto.
  - simpl. auto.
  - auto.
Qed.

Lemma put_cas_good s c p b k :
  halted s = None -> okm s -> cpus s !! c = Some p -> doing p = PPutCas b -> tasks s !! current p = Some k ->
  state k = Running /\ good (goto c (if is_idle k then PResched else PPutEnq b) (upd_task (current p) (set_state Ready) s)).
Proof.
  intros Hh Hok Hp Hd Hk. destruct Hok as [Hco Hcn Hwk Hpl Hf]. assert (state k = Running) as Hst by (eapply cur_running; [done..| |done]; by rewrite Hd).
  split; [done|]. right. split; [done|]. unfold SchedProof.okm. simpl. rewrite (alter_is _ _ _ _ Hp), (alter_is _ _ _ _ Hk). set (x := if is_idle k then PResched else PPutEnq b).
  assert (Hx : pc_runs x = false /\ plain x = true /\ pc_blocks x = None /\ pc_waker x = None /\ pc_dies x = false /\ pc_needs x = 1%nat) by (unfold x; by destruct (is_idle k)).
  destruct Hx as (X1 & X2 & X3 & X4 & X5 & X6). destruct (plain_quiet x p) as (Hs & Ho & Hde & Hov); [by rewrite Hd|done|]. split.
  - eapply core_leave; try done; rewrite ?Hd; try done.
    + unfold x. by destruct (is_idle k).
    + unfold x. intros t Hin. unfold cpu_refs. rewrite Hd. destruct (is_idle k); simpl in *; set_solver.
    + intros t. rewrite Hde. unfold cpu_toks. rewrite Hd. unfold x. simpl. unfold is_ready. simpl. destruct (is_idle k); simpl; rewrite ?occ_of_cons, ?occ_nil; destruct (decide (t = current p)) as [->|]; rewrite ?decide_True, ?decide_False by done; lia.
    + unfold hand_ok, x. by destruct (is_idle k).
    + intros m t ?. by destruct (Hov m t).
  - eapply counts_task; [|done..]. eapply counts_cpu; try done; simpl; rewrite ?X6, ?Hd; unfold pc_guards; rewrite ?X3; done || lia.
  - eapply waking_upd; try done; simpl; rewrite ?Hd; try done. by rewrite X4.
  - eapply places_upd; try done. unfold x. simpl. by destruct (is_idle k).
  - by eapply numbered_upd.
Qed.

Lemma block_good s c p w :
  halted s = None -> okm s -> cpus s !! c = Some p -> doing p = PBlock w ->
  good (goto c (PBlockDrop w) (upd_task (current p) (set_state Blocked) s)).
Proof.
  intros Hh Hok Hp Hd. pose proof (ok_hand _ _ _ Hok Hp) as Hho. unfold hand_ok in Hho. rewrite Hd in Hho. destruct Hho as (k & Hk & f & Hcode).
  destruct Hok as [Hco Hcn Hwk Hpl Hf]. right. split; [done|]. unfold SchedProof.okm. simpl. rewrite (alter_is _ _ _ _ Hp), (alter_is _ _ _ _ Hk).
  destruct (plain_quiet (PBlockDrop w) p) as (Hs & Ho & Hde & Hov); [by rewrite Hd|done|]. split.
  - eapply core_leave; try done; rewrite ?Hd; try done.
    + by intros t ?%not_elem_of_nil.
    + intros t. rewrite Hde. unfold cpu_toks. rewrite Hd. simpl. unfold is_ready. simpl. rewrite andb_false_r. case_decide; lia.
    + eauto.
    + intros Hi. apply (c_named _ _ _ Hco _ _ Hk) in Hi. congruence.
    + exists k. eauto.
    + intros m t ?. by destruct (Hov m t).
  - eapply counts_task; [|done..]. eapply counts_cpu; try done; by rewrite Hd.
  - destruct (w_block _ _ _ Hwk c p w Hp) as (wk & Hwk1 & Hwk2 & Hwk3); [by rewrite Hd|]. destruct Hwk as [W1 W2 W3 W4 W5]. split.
    + intros u x w0 f0 ph [[<- <-]|[? ?]]%lookup_insert_Some; eauto.
    + intros c0 q w0 [[<- <-]|[? ?]]%lookup_insert_Some; [intros [= <-]|]; eauto.
    + intros w0 x Hx Hxl. eapply exists_pc; [done|by rewrite Hd|eauto].
    + intros c0 q w0 u [[<- <-]|[? ?]]%lookup_insert_Some; [done|eauto].
    + intros u x w0 f0 y [[<- <-]|[? Hx]]%lookup_insert_Some Hxs Hxc Hy Hyw; [simpl in Hxc; congruence|].
      eapply exists_pc; [done|by rewrite Hd|eauto].
  - by eapply places_upd.
  - by eapply numbered_upd.
Qed.

Lemma exit_state_good s c p code :
  halted s = None -> okm s -> cpus s !! c = Some p -> doing p = PExitState code ->
  good (goto c (PExitCode code) (upd_task (current p) (set_state Exited) s)).
Proof.
  intros Hh Hok Hp Hd. pose proof (ok_hand _ _ _ Hok Hp) as Hho. unfold hand_ok in Hho. rewrite Hd in Hho. destruct Hho as (k & Hk & Hcode).
  destruct Hok as [Hco Hcn Hwk Hpl Hf]. right. split; [done|]. unfold SchedProof.okm. simpl. rewrite (alter_is _ _ _ _ Hp), (alter_is _ _ _ _ Hk).
  destruct (plain_quiet (PExitCode code) p) as (Hs & Ho & Hde & Hov); [by rewrite Hd|done|]. split.
  - eapply core_leave; try done; rewrite ?Hd; try done.
    + by intros t ?%not_elem_of_nil.
    + intros t. rewrite Hde. unfold cpu_toks. rewrite Hd. simpl. unfold is_ready. simpl. rewrite andb_false_r. case_decide; lia.
    + intros Hi. apply (c_named _ _ _ Hco _ _ Hk) in Hi. congruence.
    + intros m t ?. by destruct (Hov m t).
  - eapply counts_task; [|done..]. eapply counts_cpu; try done; by rewrite Hd.
  - eapply waking_upd; try done; rewrite ?Hd; try done.
  - by eapply places_upd.
  - by eapply numbered_upd.
Qed.

Lemma migrating_good s c p m :
  halted s = None -> okm s -> cpus s !! c = Some p -> doing p = PMigrating m ->
  good (goto c (PSwitch m) (upd_task (current p) (set_state Ready) s)).
Proof.
  intros Hh Hok Hp Hd. pose proof (ok_hand _ _ _ Hok Hp) as Hho. unfold hand_ok in Hho. rewrite Hd in Hho. destruct Hho as (Hun & (km & Hkm & Hcm) & k & Hk & mask & Hcode).
  destruct Hok as [Hco Hcn Hwk Hpl Hf]. right. split; [done|]. unfold SchedProof.okm. simpl. rewrite (alter_is _ _ _ _ Hp), (alter_is _ _ _ _ Hk).
  assert (Hmi : m <> idle_task p).
  { intros ->. destruct (c_idle _ _ _ Hco _ _ Hp) as [(x & Hx & Hi & _) _]. simplify_eq. apply (c_named _ _ _ Hco _ _ Hkm) in Hi. congruence. }
  assert (Hki : is_idle k = false). { destruct (is_idle k) eqn:E; [|done]. apply (c_named _ _ _ Hco _ _ Hk) in E. congruence. }
  split.
  - eapply core_leave; try done; rewrite ?Hd; try done; unfold cpu_seats, cpu_ons, cpu_debts, cpu_toks; rewrite ?Hd; try done.
    + intros t Hin. unfold cpu_refs. rewrite Hd. simpl in *. set_solver.
    + intros t. simpl. rewrite decide_False by done. unfold is_ready. rewrite Hki. simpl. rewrite !occ_of_cons, !occ_nil.
      repeat case_decide; congruence || lia.
    + unfold hand_ok. simpl. by apply unseated_only.
    + intros m0 t [[? [?|[?|[?|?]]]]|(? & ? & ?)]; try congruence. left. split; [done|]. right. left. simpl. congruence.
  - eapply counts_task; [|done..]. eapply counts_cpu; try done; by rewrite Hd.
  - eapply waking_upd; try done; rewrite ?Hd; try done.
  - by eapply places_upd.
  - by eapply numbered_upd.
Qed.
Lemma block_drop_good s c p w wk :
  halted s = None -> okm s -> cpus s !! c = Some p -> doing p = PBlockDrop w -> wakers s !! w = Some wk ->
  good (enable_preempt c (current p) PResched (set_wakers (<[w := mk_waker (w_task wk) false false]> (wakers s)) s)).
Proof.
  intros Hh Hok Hp Hd Hw. destruct (ok_cur _ _ _ _ Hok Hp) as (k & Hk & ? & Hn & Hg & ? & ?). rewrite Hd in Hn, Hg. simpl in Hn, Hg. destruct Hok as [Hco Hcn Hwk Hpl Hf].
  unfold enable_preempt. simpl. rewrite Hk. destruct (Nat.eqb_spec (preempt_disable_count k) 1); [lia|]. simpl. right. split; [done|]. unfold SchedProof.okm. simpl.
  rewrite (alter_is _ _ _ _ Hp), (alter_is _ _ _ _ Hk). split.
  - eapply core_task; [|done..]. apply core_goto; try done; rewrite ?Hd; try done. by intros t ?%not_elem_of_nil.
  - eapply counts_cur; try done; simpl; try lia. intros. by eapply uniq_cur.
  - assert (waking (tasks s) (<[w := mk_waker (w_task wk) false false]> (wakers s)) (<[c := set_doing PResched p]> (cpus s))) as Hw'.
    { eapply waking_set; try done; rewrite ?Hd; simpl; try done; [|naive_solver]. intros c0 q Hq Hne Hb. apply Hne.
      eapply (c_uniq _ _ _ Hco (w_task wk)); [exact Hq|exact Hp|rewrite (blocks_owner _ _ _ _ _ _ _ _ Hco Hwk Hq Hb Hw); apply current_seat|].
      rewrite (blocks_owner _ _ _ _ _ _ w _ Hco Hwk Hp ltac:(by rewrite Hd) Hw). apply current_seat. }
    rewrite <- (insert_insert_eq (cpus s) c (set_doing PResched p) (set_doing PResched p)).
    eapply waking_upd; try done. by rewrite lookup_insert_eq.
  - by eapply places_upd.
  - destruct Hf. split; [|intros w0 x [[<- <-]|[? ?]]%lookup_insert_Some; eauto]. intros t x [[<- <-]|[? ?]]%lookup_insert_Some; eauto.
Qed.

(** ** Leaving for good *)

Lemma exit_code_good s c p code :
  halted s = None -> okm s -> cpus s !! c = Some p -> doing p = PExitCode code ->
  good (goto c PExitWake (upd_task (current p) (set_exit_code code) s)).
Proof.
  intros Hh Hok Hp Hd. destruct (ok_cur _ _ _ _ Hok Hp) as (k & Hk & ? & Hn & Hg & ? & ?). rewrite Hd in Hn, Hg. simpl in Hn, Hg.
  right. split; [done|]. unfold SchedProof.okm. simpl. rewrite (alter_is _ _ _ _ Hp), (alter_is _ _ _ _ Hk).
  eapply ok_goto; try done; rewrite ?Hd; try done. by intros t ?%not_elem_of_nil.
Qed.

(** Starting a wake-up, from a place of the same kind. *)
Lemma wake_good s c p w k next k0 kc T :
  halted s = None -> tasks s = <[current p := k0]> T -> ok T (wakers s) (cpus s) (run_queues s) (next_id s) ->
  cpus s !! c = Some p -> T !! current p = Some kc ->
  similar kc k0 -> cpumask k0 = cpumask kc -> t_frames k0 = t_frames kc -> preempt_disable_count k0 = preempt_disable_count kc ->
  plain (doing p) = true -> pc_blocks (doing p) = None -> pc_unblocks (doing p) = None -> pc_toks (idle_task p) (current p) (doing p) = [] ->
  pc_runs (doing p) = after_runs k -> pc_dies (doing p) = after_dies k -> (after_needs k <= S (pc_needs (doing p)))%nat ->
  plain next = true -> pc_runs next = after_runs k -> pc_dies next = after_dies k -> pc_toks (idle_task p) (current p) next = [] -> pc_refs (current p) next = [] ->
  hand_ok c (set_doing next p) T (cpus s) -> (pc_needs next <= pc_needs (doing p))%nat -> pc_blocks next = None -> pc_waker next = None -> pc_ok cpu_num next (run_queues s) ->
  good (wake_by_ref c (current p) w k next s).
Proof.
  intros Hh HT Hok Hp Hk Hsim Hm Hf1 Hf2 P1 P2 P3 P4 P5 P6 P7 N1 N2 N3 N4 N5 N6 N7 N8 N9 N10.
  destruct (n_cpu _ _ (o_counts _ _ _ _ _ _ Hok) _ _ _ Hp Hk) as [C1 C2]. pose proof (n_task _ _ (o_counts _ _ _ _ _ _ Hok) _ _ Hk) as C3.
  assert (Hk0 : <[current p := k0]> T !! current p = Some k0) by apply lookup_insert_eq.
  assert (Hnext : good (goto c next s)).
  { right. split; [done|]. unfold SchedProof.okm. simpl. rewrite HT, (alter_is _ _ _ _ Hp).
    eapply ok_goto; try done; try lia; try congruence; [rewrite N5; by intros t ?%not_elem_of_nil|unfold pc_guards; rewrite N8; lia]. }
  unfold wake_by_ref. destruct (wakers s !! w) as [wk|] eqn:Hw; [|done]. destruct (tasks s !! w_task wk) as [t|] eqn:Ht; [|done].
  right. split; [done|]. unfold SchedProof.okm. simpl. rewrite HT in *. rewrite (alter_is _ _ _ _ Hk0), insert_insert_eq, (alter_is _ _ _ _ Hp).
  assert (is_Some (T !! w_task wk) /\ mask_ok cpu_num (cpumask t)) as [Hal Hmt].
  { pose proof (p_mask _ _ _ _ (o_places _ _ _ _ _ _ Hok)) as Hpm. apply lookup_insert_Some in Ht as [[<- <-]|[? Ht]].
    - split; [by rewrite Hk|]. rewrite Hm. by eapply Hpm.
    - split; [by rewrite Ht|]. by eapply Hpm. }
  eapply ok_goto; try done; simpl; try lia; try (by rewrite ?P5, ?P6); try congruence.
  - intros u ->%list_elem_of_singleton. by right.
  - intros w0 u [= <- <-]. eauto.
Qed.

Lemma exit_wake_good s c p kc :
  halted s = None -> okm s -> cpus s !! c = Some p -> doing p = PExitWake -> tasks s !! current p = Some kc ->
  good (let s := upd_task (current p) (set_wait_for_exit None) s in
        match wait_for_exit kc with None => goto c PExitPush s | Some w => wake_by_ref c (current p) w KPush PExitPush s end).
Proof.
  intros Hh Hok Hp Hd Hk. destruct (ok_cur _ _ _ _ Hok Hp) as (k & Hk' & ? & Hn & Hg & ? & ?). rewrite Hd in Hn, Hg. simpl in Hn, Hg. assert (k = kc) as -> by congruence.
  simpl. destruct (wait_for_exit kc) as [w|].
  - eapply (wake_good _ _ _ _ _ _ (set_wait_for_exit None kc) kc (tasks s)); try done; simpl; rewrite ?(alter_is _ _ _ _ Hk), ?Hd; try done.
  - right. split; [done|]. unfold SchedProof.okm. simpl. rewrite (alter_is _ _ _ _ Hp), (alter_is _ _ _ _ Hk).
    eapply ok_goto; try done; rewrite ?Hd; try done. by intros t ?%not_elem_of_nil.
Qed.

(** A change of a CPU of which only [core] takes notice. *)
Lemma ok_cpu T W C R n c p p' :
  ok T W C R n -> C !! c = Some p -> current p' = current p ->
  (pc_needs (doing p') <= pc_needs (doing p))%nat -> pc_blocks (doing p') = None -> pc_blocks (doing p) = None -> pc_waker (doing p') = None ->
  pc_unblocks (doing p) = None -> pc_ok cpu_num (doing p') R -> core T (<[c := p']> C) R -> ok T W (<[c := p']> C) R n.
Proof.
  intros [Hco Hcn Hw Hpl Hf] Hp Hcur Hn B1 B2 B3 B4 Hpc Hcore. destruct (cur_alive _ _ _ _ _ Hco Hp) as [k Hk]. split; try done.
  - eapply counts_cpu; try done. unfold pc_guards. by rewrite B1, B2.
  - rewrite <- (insert_id _ _ _ Hk). eapply waking_upd; try done; [by rewrite B1, B2|by rewrite B3|by rewrite B4].
  - rewrite <- (insert_id _ _ _ Hk). by eapply places_upd.
Qed.

Lemma exit_push_good s c p :
  halted s = None -> okm s -> cpus s !! c = Some p -> doing p = PExitPush ->
  good (goto c PExitGc (upd_cpu c (set_exited (exited_tasks p ++ [current p])) s)).
Proof.
  intros Hh Hok Hp Hd. right. split; [done|]. unfold SchedProof.okm. simpl. rewrite (alter_is _ _ _ _ Hp). erewrite alter_is, insert_insert_eq by apply lookup_insert_eq.
  eapply ok_cpu; try done; rewrite ?Hd; try done. destruct Hok as [Hco _ _ _ _]. apply (core_cpu _ _ _ c p); try done; unfold cpu_seats, cpu_runs, cpu_ons, cpu_deads, cpu_toks, cpu_debts, cpu_refs; rewrite ?Hd; try done.
  - simpl. intros t. set_solver.
  - simpl. intros t. set_solver.
  - intros m t. unfold hands_over. rewrite Hd. naive_solver.
Qed.

Lemma wait_gc_ok T W C R n c p x : ok T W C R n -> C !! c = Some p -> ok T W (<[c := set_wait_gc x p]> C) R n.
Proof.
  intros [Hco Hcn Hw Hpl Hf] Hp. destruct (cur_alive _ _ _ _ _ Hco Hp) as [k Hk]. split; try done.
  - apply (core_cpu _ _ _ c p); try done; [by left|]. by apply (c_hand _ _ _ Hco c p Hp).
  - by eapply counts_cpu.
  - rewrite <- (insert_id _ _ _ Hk). eapply waking_upd; try done; [|by left]. intros w u Hsel. by eapply (w_sel _ _ _ Hw c p).
  - rewrite <- (insert_id _ _ _ Hk). eapply places_upd; try done. by apply (p_pc _ _ _ _ Hpl c p).
Qed.

Lemma exit_gc_good s c p :
  halted s = None -> okm s -> cpus s !! c = Some p -> doing p = PExitGc ->
  good (let s := upd_cpu c (set_wait_gc None) s in
        match wait_gc p with None => goto c PResched s | Some w => wake_by_ref c (current p) w KResched PResched s end).
Proof.
  intros Hh Hok Hp Hd. destruct (ok_cur _ _ _ _ Hok Hp) as (k & Hk & ? & Hn & Hg & ? & ?). rewrite Hd in Hn, Hg. simpl in Hn, Hg.
  set (p1 := set_wait_gc None p). set (s1 := upd_cpu c (set_wait_gc None) s). assert (Hp1 : cpus s1 !! c = Some p1) by (unfold s1; simpl; by rewrite lookup_alter_eq, Hp).
  assert (Hok1 : okm s1) by (unfold s1, SchedProof.okm; simpl; rewrite (alter_is _ _ _ _ Hp); by apply wait_gc_ok).
  simpl. fold s1. destruct (wait_gc p) as [w|].
  - eapply (wake_good s1 c p1 w KResched PResched k k (tasks s1)); try done; simpl; rewrite ?Hd; try done. by rewrite insert_id.
  - eapply (goto_good _ s1 c p1); try done; simpl; rewrite ?Hd; try done. by intros t ?%not_elem_of_nil.
Qed.
End Proof.
