(* ===== verification/SchedThread.v ===== *)
(** * A change of tasks keeps the invariant

    The steps of [resched], [switch_to] and [clear_prev_task_on_cpu].

    The other parts do the same for the code of tasks and for the scheduler's own tasks. *)

From S2P Require Import Prelude Sched SchedSpec SchedMoves SchedProof.

Section Turns.
Context {Q : Type} `{BaseSchedulerLaws Q} (MAX_CPU_NUM cpu_num : Z).
Implicit Types (T : gmap Z TaskInner) (C : gmap Z cpu) (R : gmap Z Q) (W : gmap Z AxWaker).
#[local] Notation ok := (ok cpu_num).
#[local] Notation okm := (okm cpu_num).
#[local] Notation good := (good cpu_num).

Lemma resched_good s c p q :
  halted s = None -> okm s -> cpus s !! c = Some p -> doing p = PResched -> run_queues s !! c = Some q ->
  good (let '(next, q') := pick_next_task q in
        goto c (PPicked (default (idle_task p) next)) (set_queues (<[c := q']> (run_queues s)) s)).
Proof.
  intros Hh Hok Hp Hd Hq. pose proof (owned_pick q) as Hpick. destruct (pick_next_task q) as [next q']. set (n := default (idle_task p) next).
  destruct Hok as [Hco Hcn Hwk Hpl Hf]. destruct (cur_alive _ _ _ _ _ Hco Hp) as [k Hk]. right. split; [done|]. unfold SchedProof.okm. simpl. rewrite (alter_is _ _ _ _ Hp).
  assert (Hn : is_Some (tasks s !! n) /\ only_at c n (cpus s) /\
    forall t, (occ t (owned q') + occ t (if decide (n = idle_task p) then [] else [n]) = occ t (owned q))%nat).
  { unfold n. destruct next as [t|]; simpl.
    - assert (t ∈ owned q) as Hin by (rewrite Hpick; by left). destruct (token_queue _ _ _ _ _ _ Hco Hq Hin) as (kt & Hkt & Hi & _).
      split_and!; [by rewrite Hkt|by eapply (c_queue _ _ _ Hco)|]. intros u. rewrite Hpick, decide_False, !occ_of_cons, occ_nil; [lia|].
      intros ->. destruct (c_idle _ _ _ Hco _ _ Hp) as [(x & ? & ? & _) _]. simplify_eq. congruence.
    - destruct (c_idle _ _ _ Hco _ _ Hp) as [(x & Hx & _) Ho]. destruct Hpick as [-> ->]. split_and!; [by rewrite Hx|done|]. intros u. by rewrite decide_True. }
  destruct Hn as (Ha & Ho & Ht). split.
  - apply (core_queue _ _ _ c p _ c q q'); try done; unfold cpu_seats, cpu_runs, cpu_ons, cpu_deads, cpu_toks, cpu_debts; rewrite ?Hd; try done.
    + intros t. unfold cpu_refs. rewrite Hd. simpl. rewrite !elem_of_cons, !elem_of_app. intros [?|[?|[?| ->%list_elem_of_singleton]]]; tauto.
    + intros t. simpl. rewrite !occ_nil. specialize (Ht t). lia.
    + intros m t. unfold hands_over. rewrite Hd. naive_solver.
    + intros t Hin. left. apply occ_of_pos. apply occ_elem in Hin. specialize (Ht t). lia.
  - eapply counts_cpu; try done; by rewrite Hd.
  - rewrite <- (insert_id _ _ _ Hk). eapply waking_upd; try done; by rewrite Hd.
  - apply places_queue. rewrite <- (insert_id _ _ _ Hk). by eapply places_upd.
  - done.
Qed.

Lemma picked_good s c p n k :
  halted s = None -> okm s -> cpus s !! c = Some p -> doing p = PPicked n -> tasks s !! n = Some k ->
  is_ready k = true /\ good (goto c (PSwitch n) s).
Proof.
  intros Hh Hok Hp Hd Hk. pose proof (o_core _ _ _ _ _ _ Hok) as Hco. destruct (switch_ready _ _ _ _ _ n Hco Hp) as (k' & Hk' & Hst & _); [by left|]. simplify_eq.
  split; [unfold is_ready; by rewrite Hst|]. right. split; [done|]. pose proof (ok_hand _ _ _ _ Hok Hp) as Hho. unfold hand_ok in Hho. rewrite Hd in Hho.
  unfold SchedProof.okm. simpl. rewrite (alter_is _ _ _ _ Hp). eapply ok_cpu; try done; rewrite ?Hd; try done.
  apply (core_cpu _ _ _ c p); try done; unfold cpu_seats, cpu_runs, cpu_ons, cpu_deads, cpu_toks, cpu_debts, cpu_refs; rewrite ?Hd; try done; [by left|].
  intros m t. unfold hands_over. rewrite Hd. naive_solver.
Qed.

Lemma switch_good s c p n :
  halted s = None -> okm s -> cpus s !! c = Some p -> doing p = PSwitch n -> good (step_switch c (current p) n s).
Proof.
  intros Hh Hok Hp Hd. pose proof (o_core _ _ _ _ _ _ Hok) as Hco. destruct (switch_ready _ _ _ _ _ n Hco Hp) as (k & Hk & Hst & Hi); [by right|].
  destruct Hok as [_ Hcn Hwk Hpl Hf]. right. split; [done|]. unfold SchedProof.okm, step_switch. simpl. rewrite (alter_is _ _ _ _ Hp), (alter_is _ _ _ _ Hk).
  set (k' := set_state Running (set_preempt_pending false k)). set (x := if bool_decide (n = current p) then PRelease else PClaim n).
  assert (Hx : (pc_needs x <= 1)%nat /\ pc_blocks x = None /\ pc_waker x = None /\ pc_ok cpu_num x (run_queues s)) by (unfold x; case_bool_decide; simpl; split_and!; done || lia).
  destruct Hx as (X1 & X2 & X3 & X4). split.
  - unfold x. case_bool_decide as He; [|by eapply core_switch]. subst n. eapply core_update; try done.
    assert (cpu_seats (set_doing PRelease p) = cpu_seats p /\ cpu_ons (set_doing PRelease p) = cpu_ons p /\ cpu_ons p = [current p] /\
      cpu_runs (set_doing PRelease p) = [current p] /\ cpu_runs p = [] /\ cpu_debts (set_doing PRelease p) = cpu_debts p /\ cpu_deads (set_doing PRelease p) = cpu_deads p)
      as (E1 & E2 & E3 & E4 & E5 & E6 & E7) by (unfold cpu_seats, cpu_ons, cpu_runs, cpu_debts, cpu_deads; rewrite Hd; done).
    split; rewrite ?E1, ?E2, ?E4, ?E5, ?E6, ?E7; try done.
    + by apply (c_nodup _ _ _ Hco c).
    + intros t. unfold cpu_refs. rewrite Hd. simpl. rewrite !elem_of_cons, !elem_of_app. intros [?|[?|[?|?%not_elem_of_nil]]]; tauto.
    + intros t. unfold cpu_toks. rewrite Hd. simpl. unfold is_ready. rewrite Hst. simpl. rewrite andb_false_r, andb_true_r.
      destruct (is_idle k) eqn:Ei; [rewrite (decide_True (P := current p = idle_task p)) by (by apply Hi)|rewrite (decide_False (P := current p = idle_task p)) by (intros ?%Hi; congruence)];
        simpl; rewrite ?occ_of_cons, ?occ_nil; repeat case_decide; congruence || lia.
    + intros t Hne. set_solver.
    + intros t. simpl. naive_solver.
    + simpl. split; [intros _; left; by left|done].
    + apply (same_on _ _ _ _ _ _ _ Hco Hp Hk).
    + congruence.
    + simpl. auto.
    + intros m t (km & Hkm & Hcm) Hho _. exfalso. unfold hands_over in Hho. rewrite Hd in Hho. destruct Hho as [[<- [?|[[= <-]|[?|?]]]]|(_ & ? & _)]; try done.
      rewrite Hk in Hkm. injection Hkm as <-. destruct (decide (current p = idle_task p)) as [E|E].
      * apply Hi, (c_named _ _ _ Hco _ _ Hk) in E. congruence.
      * destruct (token_hand _ _ _ (current p) _ _ Hco Hp) as (_ & _ & Hm & _); [unfold cpu_toks; rewrite Hd; simpl; rewrite decide_False by done; by left|]. by eapply Hm.
  - eapply counts_task; [|done..]. eapply counts_cpu; try done; simpl; [by rewrite Hd|]. unfold pc_guards. rewrite X2. lia.
  - eapply waking_upd; try done; simpl; rewrite ?Hd; try done. by rewrite X3.
  - by eapply places_upd.
  - by eapply numbered_upd.
Qed.

Lemma claim_good s c p n :
  halted s = None -> okm s -> cpus s !! c = Some p -> doing p = PClaim n -> good (goto c (PSave n) (upd_task n (set_on_cpu true) s)).
Proof.
  intros Hh Hok Hp Hd. destruct (ok_ref _ s c p n Hok Hp) as [k Hk]; [rewrite Hd; by left|]. destruct Hok as [Hco Hcn Hwk Hpl Hf].
  right. split; [done|]. unfold SchedProof.okm. simpl. rewrite (alter_is _ _ _ _ Hp), (alter_is _ _ _ _ Hk).
  assert (cpu_seats (set_doing (PSave n) p) = cpu_seats p /\ cpu_runs (set_doing (PSave n) p) = cpu_runs p /\ cpu_ons (set_doing (PSave n) p) = [current p; n] /\ cpu_ons p = [current p] /\
    cpu_debts (set_doing (PSave n) p) = cpu_debts p /\ cpu_deads (set_doing (PSave n) p) = cpu_deads p /\ cpu_toks (set_doing (PSave n) p) = cpu_toks p)
    as (E1 & E2 & E3 & E4 & E5 & E6 & E7) by (unfold cpu_seats, cpu_ons, cpu_runs, cpu_debts, cpu_deads, cpu_toks; rewrite Hd; done).
  split.
  - eapply core_update; try done. split; rewrite ?E1, ?E2, ?E3, ?E4, ?E5, ?E6, ?E7; try done.
    + by apply (c_nodup _ _ _ Hco c).
    + intros t. unfold cpu_refs. rewrite Hd. simpl. tauto.
    + intros t Hne. set_solver.
    + intros t. simpl. naive_solver.
    + apply (same_run _ _ _ _ _ _ _ Hco Hp Hk).
    + split; [intros _; left; set_solver|done].
    + simpl. auto.
    + simpl. auto.
    + simpl. auto.
    + intros m t _ Hho _. unfold hands_over in *. rewrite Hd in Hho. simpl. naive_solver.
  - eapply counts_task; [|done..]. eapply counts_cpu; try done; by rewrite Hd.
  - eapply waking_upd; try done; by rewrite Hd.
  - by eapply places_upd.
  - by eapply numbered_upd.
Qed.

(** The references that keep the task that leaves. *)
Lemma left_is_kept s c p n :
  okm s -> cpus s !! c = Some p -> doing p = PSave n -> (1 < strong_count (current p) s)%nat /\ (1 <= strong_count n s)%nat.
Proof.
  intros Hok Hp Hd. pose proof (o_core _ _ _ _ _ _ Hok) as Hco. destruct (cur_alive _ _ _ _ _ Hco Hp) as [k Hk]. set (t := current p).
  pose proof (c_nodup _ _ _ Hco _ _ Hp) as Hnd. unfold cpu_seats in Hnd. rewrite Hd in Hnd. apply NoDup_cons in Hnd as [Hne%not_elem_of_cons _]. destruct Hne as [Hne _].
  pose proof (msum_le (fun _ p => occ t (cpu_refs p)) _ _ _ Hp) as H1. simpl in H1. replace (cpu_refs p) with (t :: idle_task p :: exited_tasks p ++ pc_refs t (doing p)) in H1 by done. rewrite occ_of_cons, decide_True in H1 by done.
  pose proof (msum_le (fun _ p => occ n (cpu_refs p)) _ _ _ Hp) as H2. simpl in H2. assert (1 <= occ n (cpu_refs p))%nat as H3.
  { apply occ_elem. unfold cpu_refs. rewrite Hd. simpl. set_solver. }
  unfold strong_count. split; [|lia].
  assert (Hcode : forall i x, tasks s !! i = Some x -> t ∈ code_refs i (t_code x) -> (1 <= msum (fun i k => occ t (code_refs i (t_code k))) (tasks s))%nat).
  { intros i x Hx Hin%occ_elem. pose proof (msum_le (fun i k => occ t (code_refs i (t_code k))) _ _ _ Hx). simpl in *. lia. }
  assert (Hcpu : forall c0 q, cpus s !! c0 = Some q -> t ∈ cpu_refs q -> c0 <> c -> (2 <= msum (fun _ p => occ t (cpu_refs p)) (cpus s))%nat).
  { intros c0 q Hq Hin%occ_elem Hcne. pose proof (msum_le2 (fun _ p => occ t (cpu_refs p)) _ _ _ _ _ Hq Hp Hcne) as Hle. simpl in Hle.
    assert (1 <= occ t (cpu_refs p))%nat; [|lia]. apply occ_elem. unfold cpu_refs. by left. }
  destruct (state k) eqn:Hst.
  - apply (c_run _ _ _ Hco _ _ Hk) in Hst as (c0 & q & Hq & Hin). assert (c0 = c) as -> by (eapply (c_uniq _ _ _ Hco t); [exact Hq|exact Hp|by apply runs_seats|apply current_seat]).
    simplify_eq. unfold cpu_runs in Hin. rewrite Hd in Hin. apply list_elem_of_singleton in Hin. by destruct Hne.
  - destruct (is_idle k) eqn:Hi.
    + pose proof (c_idle_seat _ _ _ Hco _ _ _ _ Hp (current_seat p) Hk Hi) as He. fold t in He. rewrite occ_of_cons, decide_True in H1 by done. lia.
    + pose proof (c_tok _ _ _ Hco t) as Ht. unfold t in Ht at 2. rewrite Hk in Ht. simpl in Ht. unfold is_ready in Ht. rewrite Hi, Hst in Ht. simpl in Ht. unfold tok in Ht.
      destruct (decide (1 <= msum (fun _ p => occ t (cpu_toks p)) (cpus s))%nat) as [(c0 & q & Hq & Hin%occ_of_pos)%msum_pos|].
      * assert (c0 <> c). { intros ->. simplify_eq. unfold cpu_toks in Hin. rewrite Hd in Hin. by apply not_elem_of_nil in Hin. }
        assert (t ∈ cpu_refs q); [|pose proof (Hcpu _ _ Hq); naive_solver lia]. unfold cpu_refs, cpu_toks in *. do 2 right. apply elem_of_app. right. unfold pc_toks, pc_refs in *. repeat case_match; try done; by apply not_elem_of_nil in Hin.
      * destruct (decide (1 <= msum (fun _ k => occ t (code_toks (t_code k))) (tasks s))%nat) as [(i & x & Hx & Hin%occ_of_pos)%msum_pos|]; [|lia].
        pose proof (Hcode i x Hx) as Hle. enough (t ∈ code_refs i (t_code x)) as Hr by (apply Hle in Hr; lia). unfold code_toks, code_refs in *. case_match; try done; by apply not_elem_of_nil in Hin.
  - destruct (c_blocked _ _ _ Hco _ _ Hk Hst) as (w & f & Hc). pose proof (Hcode _ _ Hk) as Hle. rewrite Hc in Hle. specialize (Hle ltac:(by left)). lia.
  - apply (c_dead _ _ _ Hco _ _ Hk) in Hst as [(c0 & q & Hq & Hin)|(i & x & Hx & Hin)].
    + destruct (decide (c0 = c)) as [->|Hcne].
      * simplify_eq. unfold cpu_deads in Hin. rewrite Hd in Hin. simpl in Hin. rewrite app_nil_r in Hin. apply occ_elem in Hin. rewrite occ_of_cons, occ_app in H1. fold t in Hin. lia.
      * assert (t ∈ cpu_refs q); [|pose proof (Hcpu _ _ Hq); naive_solver lia]. unfold cpu_deads, cpu_refs in *. apply elem_of_app in Hin as [Hin|Hin]; [do 2 right; apply elem_of_app; by left|].
        destruct (pc_dies (doing q)); [|by apply not_elem_of_nil in Hin]. apply elem_of_cons. left. by apply list_elem_of_singleton in Hin.
    + pose proof (Hcode _ _ Hx (held_refs _ _ _ Hin)). lia.
Qed.
Lemma save_good s c p n :
  halted s = None -> okm s -> cpus s !! c = Some p -> doing p = PSave n -> good (step_save c (current p) n s).
Proof.
  intros Hh Hok Hp Hd. destruct (left_is_kept _ _ _ _ Hok Hp Hd) as [H1 H2]. unfold step_save. apply Nat.ltb_lt in H1. apply Nat.leb_le in H2. rewrite H1, H2. simpl.
  destruct (ok_ref _ s c p n Hok Hp) as [k Hk]; [rewrite Hd; by left|]. destruct Hok as [Hco Hcn Hwk Hpl Hf].
  right. split; [done|]. unfold SchedProof.okm. simpl. rewrite (alter_is _ _ _ _ Hp). rewrite (alter_is _ _ _ (set_current n p)) by apply lookup_insert_eq. rewrite insert_insert_eq.
  set (p' := set_doing PRestored (set_current n p)).
  assert (cpu_seats p' = [n; current p] /\ cpu_seats p = [current p; n] /\ cpu_runs p' = cpu_runs p /\ cpu_ons p' = [n; current p] /\ cpu_ons p = [current p; n] /\
    cpu_debts p' = cpu_debts p /\ cpu_deads p' = cpu_deads p /\ cpu_toks p' = cpu_toks p)
    as (E1 & E2 & E3 & E4 & E5 & E6 & E7 & E8) by (unfold cpu_seats, cpu_ons, cpu_runs, cpu_debts, cpu_deads, cpu_toks; rewrite Hd; done).
  rewrite <- (insert_id _ _ _ Hk). split.
  - eapply core_update; try done. split; rewrite ?E1, ?E2, ?E3, ?E4, ?E5, ?E6, ?E7, ?E8; try done.
    + intros t. set_solver.
    + pose proof (c_nodup _ _ _ Hco _ _ Hp) as Hnd. rewrite E2 in Hnd. by rewrite Permutation_swap.
    + intros t. unfold cpu_refs. rewrite Hd. simpl. rewrite app_nil_r. set_solver.
    + intros t Hne. set_solver.
    + intros t. simpl. naive_solver.
    + apply (same_run _ _ _ _ _ _ _ Hco Hp Hk).
    + rewrite (same_on _ _ _ _ _ _ _ Hco Hp Hk), E5. set_solver.
    + auto.
    + auto.
    + auto.
    + by exists (current p).
    + intros m t _ Hho _. unfold hands_over in *. rewrite Hd in Hho. simpl. naive_solver.
  - rewrite (insert_id _ _ _ Hk). destruct Hcn as [Ht Hc]. split; [done|]. intros c0 q x [[<- <-]|[? ?]]%lookup_insert_Some Hx; [|by eauto]. simpl. split; [lia|by eapply Ht].
  - eapply waking_upd; try done; by rewrite Hd.
  - by eapply places_upd.
  - by eapply numbered_upd.
Qed.

Lemma restored_good s c p :
  halted s = None -> okm s -> cpus s !! c = Some p -> doing p = PRestored -> good (step_restored c p s).
Proof.
  intros Hh Hok Hp Hd. pose proof (ok_hand _ _ _ _ Hok Hp) as Hho. unfold hand_ok in Hho. rewrite Hd in Hho. destruct Hho as [t Ht].
  assert (cpu_seats p = [current p; t] /\ cpu_ons p = [current p; t]) as [E2 E5] by (unfold cpu_seats, cpu_ons; rewrite Hd, Ht; done).
  pose proof (c_nodup _ _ _ (o_core _ _ _ _ _ _ Hok) _ _ Hp) as Hnd. rewrite E2 in Hnd. apply NoDup_cons in Hnd as [Hne%not_elem_of_cons _]. destruct Hne as [Hne _].
  assert (is_Some (tasks s !! t)) as [k Hk]. { eapply (c_alive _ _ _ (o_core _ _ _ _ _ _ Hok) _ _ _ Hp). rewrite E2. set_solver. }
  unfold step_restored. rewrite Ht. simpl. rewrite Hk. destruct Hok as [Hco Hcn Hwk Hpl Hf].
  right. split; [done|]. unfold SchedProof.okm. simpl. rewrite (alter_is _ _ _ _ Hp), (alter_is _ _ _ _ Hk).
  set (p' := set_doing PRelease p).
  assert (cpu_seats p' = [current p] /\ cpu_runs p' = cpu_runs p /\ cpu_ons p' = [current p] /\
    cpu_debts p' = cpu_debts p /\ cpu_deads p' = cpu_deads p /\ cpu_toks p' = cpu_toks p)
    as (E1 & E3 & E4 & E6 & E7 & E8) by (unfold cpu_seats, cpu_ons, cpu_runs, cpu_debts, cpu_deads, cpu_toks; rewrite Hd; done).
  split.
  - eapply core_update; try done. split; rewrite ?E1, ?E2, ?E3, ?E4, ?E5, ?E6, ?E7, ?E8; try done.
    + intros u. set_solver.
    + apply NoDup_singleton.
    + intros u. unfold cpu_refs. rewrite Hd. simpl. auto.
    + intros u Hu. set_solver.
    + intros u. simpl. naive_solver.
    + apply (same_run _ _ _ _ _ _ _ Hco Hp Hk).
    + simpl. split; [done|]. intros [->%list_elem_of_singleton|[_ Hn]]; [done|]. set_solver.
    + auto.
    + auto.
    + auto.
    + intros m u _ Hho Hin. exfalso. apply list_elem_of_singleton in Hin as ->. unfold hands_over in *. rewrite Hd in Hho. naive_solver.
  - eapply counts_task; [|done..]. eapply counts_cpu; try done; by rewrite Hd.
  - eapply waking_upd; try done; by rewrite Hd.
  - by eapply places_upd.
  - by eapply numbered_upd.
Qed.

Lemma released_good s c p k :
  halted s = None -> okm s -> cpus s !! c = Some p -> doing p = PRelease -> tasks s !! current p = Some k ->
  good (match t_frames k with O => goto c PThread s | S _ => release c (current p) PRelease s end).
Proof.
  intros Hh Hok Hp Hd Hk. destruct (t_frames k) eqn:Hf.
  - eapply goto_good; try done; rewrite ?Hd; try done; [simpl; by intros ? ?%not_elem_of_nil].
  - eapply release_good; try done; rewrite ?Hd, ?Hf; try done; simpl; try lia; by left.
Qed.

(** One step of a CPU in the scheduler. *)
Lemma step_cpu_good s s' c p :
  0 < MAX_CPU_NUM -> halted s = None -> okm s -> cpus s !! c = Some p -> step_cpu MAX_CPU_NUM c p s = Some s' -> good s'.
Proof.
  intros HM Hh Hok Hp Hs. destruct (cur_alive _ _ _ _ _ (o_core _ _ _ _ _ _ Hok) Hp) as [kc Hkc]. unfold step_cpu in Hs. destruct (doing p) eqn:Hd; simplify_option_eq.
  - by eapply step_select_good.
  - destruct (add_good _ _ _ _ _ _ _ Hh Hok Hp Hd Heqo) as [-> ?]. done.
  - by eapply migrate_good.
  - destruct (w_locked _) eqn:?; [done|]. simplify_eq. by eapply woke_good.
  - apply bind_Some in Hs as (tk & Htk & [= <-]). by eapply unblock_good.
  - destruct (on_cpu _) eqn:?; [done|]. simplify_eq. by eapply spin_good.
  - by eapply put_good.
  - by eapply woken_good.
  - apply bind_Some in Hs as (tk & Htk & [= <-]). rewrite Hkc in Htk. injection Htk as <-. destruct (put_cas_good _ _ _ _ _ _ Hh Hok Hp Hd Hkc) as [-> ?]. by rewrite bool_decide_true.
  - by eapply put_enq_good.
  - by eapply block_good.
  - by eapply block_drop_good.
  - by eapply exit_state_good.
  - by eapply exit_code_good.
  - by eapply exit_wake_good.
  - by eapply exit_push_good.
  - by eapply exit_gc_good.
  - by eapply migrating_good.
  - unfold step_resched in Hs. simplify_option_eq. pose proof (resched_good _ _ _ _ Hh Hok Hp Hd Heqo) as Hg. destruct (pick_next_task _). by simplify_eq.
  - destruct (picked_good _ _ _ _ _ Hh Hok Hp Hd Heqo) as [-> ?]. done.
  - by eapply switch_good.
  - by eapply claim_good.
  - by eapply save_good.
  - by eapply restored_good.
  - by eapply released_good.
Qed.
End Turns.

(** * The code of tasks keeps the invariant

    What a task does between two visits to the scheduler: [block_on] and the futures of [join] and
    of the gc task, the migration task, and the calls of other code ([spawn_task], [exit],
    [set_current_affinity], wake-ups, guards against preemption). *)

Section Threads.
Context {Q : Type} `{BaseSchedulerLaws Q} (MAX_CPU_NUM cpu_num : Z).
Implicit Types (T : gmap Z TaskInner) (C : gmap Z cpu) (R : gmap Z Q) (W : gmap Z AxWaker).
#[local] Notation ok := (ok cpu_num).
#[local] Notation okm := (okm cpu_num).
#[local] Notation good := (good cpu_num).

(** ** Changes of the running task *)

(** Its code advances, and its CPU may go on to the scheduler. *)
Lemma ok_advance T W C R n c p p' k k' :
  ok T W C R n -> C !! c = Some p -> doing p = PThread -> T !! current p = Some k -> advance T C c p p' k k' ->
  current p' = current p -> mask_ok cpu_num (cpumask k') ->
  (t_frames k' <= preempt_disable_count k')%nat -> (pc_needs (doing p') <= t_frames k')%nat ->
  pc_blocks (doing p') = None -> pc_waker (doing p') = None -> pc_ok cpu_num (doing p') R ->
  (forall w f ph, t_code k' = CBlock w f ph -> exists wk, W !! w = Some wk /\ w_task wk = current p) ->
  ok (<[current p := k']> T) W (<[c := p']> C) R n.
Proof.
  intros Hok Hp Hd Hk Ha Hcur Hm Hfr Hne Hb Hw Hpc Hown. pose proof (o_core _ _ _ _ _ _ Hok) as Hco.
  assert (state k' <> Blocked) as Hnb. { rewrite (proj1 (proj2 (a_same _ _ _ _ _ _ _ Ha))), (cur_running _ _ _ _ _ _ Hco Hp) by (rewrite ?Hd; done). done. }
  destruct Hok as [_ Hcn [] [] [Hf1 Hf2]]. split.
  - by eapply core_advance.
  - eapply counts_cur; try done; [intros; by eapply uniq_cur|]. unfold pc_guards. by rewrite Hb.
  - split.
    + intros u x w f ph [[<- <-]|[? ?]]%lookup_insert_Some; eauto.
    + intros c0 q w [[<- <-]|[? ?]]%lookup_insert_Some; [by rewrite Hb|eauto].
    + intros w wk Hwk Hl. eapply exists_pc; [done|by rewrite Hd|eauto].
    + intros c0 q w u [[<- <-]|[? ?]]%lookup_insert_Some; [by rewrite Hw|eauto].
    + intros u x w f wk [[<- <-]|[? ?]]%lookup_insert_Some Hst; [done|]. intros. eapply exists_pc; [done|by rewrite Hd|eauto].
  - split; [..|done].
    + intros u x [[<- <-]|[? ?]]%lookup_insert_Some; eauto.
    + intros c0 q [[<- <-]|[? ?]]%lookup_insert_Some; eauto.
  - split; [|done]. intros u x [[<- <-]|[? ?]]%lookup_insert_Some; eauto.
Qed.

(** The usual case: the CPU stays where it is, the task holds no other one. *)
Lemma ok_code T W C R n c p k k' :
  ok T W C R n -> C !! c = Some p -> doing p = PThread -> T !! current p = Some k ->
  is_idle k' = is_idle k -> state k' = state k -> on_cpu k' = on_cpu k -> cpumask k' = cpumask k ->
  (t_frames k' <= preempt_disable_count k')%nat ->
  t_code k <> CIdle -> t_code k' <> CIdle -> (forall t, t_code k' <> CMigrate t) -> code_toks (t_code k) = [] ->
  code_deads (t_code k) = [] -> code_deads (t_code k') = [] ->
  (forall t, t ∈ code_refs (current p) (t_code k') -> t = current p \/ t ∈ code_refs (current p) (t_code k) \/ is_Some (T !! t)) ->
  (forall w f ph, t_code k' = CBlock w f ph -> exists wk, W !! w = Some wk /\ w_task wk = current p) ->
  ok (<[current p := k']> T) W C R n.
Proof.
  intros Hok Hp Hd Hk H1 H2 H3 H4 H5 H6 H7 H8 H9 H10 H11 Hrefs Hown. pose proof (o_core _ _ _ _ _ _ Hok) as Hco. rewrite <- (insert_id _ _ _ Hp).
  eapply ok_advance; try done; rewrite ?Hd; try done; try (simpl; lia).
  - split; try done.
    + unfold cpu_debts. by rewrite Hd.
    + intros t [Hin|[->|[Hin|?]]%Hrefs]%elem_of_app; [..|done].
      * eapply (c_alive _ _ _ Hco _ _ _ Hp). apply elem_of_app. by right.
      * by rewrite Hk.
      * by eapply (c_alive_k _ _ _ Hco).
    + intros t. rewrite H9, occ_nil. lia.
    + intros t. by rewrite H10, H11.
    + intros t. by apply (c_dead_seat _ _ _ Hco).
    + intros t. rewrite H11. by intros ?%not_elem_of_nil.
    + unfold hand_ok. by rewrite Hd.
  - rewrite H4. by eapply (p_mask _ _ _ _ (o_places _ _ _ _ _ _ Hok)).
Qed.

Lemma ok_fresh_waker T W C R n t : ok T W C R n -> ok T (<[n := mk_waker t false false]> W) C R (n + 1).
Proof.
  intros [Hco Hcn [] Hpl [Hf1 Hf2]]. assert (Hnew : forall w wk, W !! w = Some wk -> <[n := mk_waker t false false]> W !! w = Some wk).
  { intros w wk Hw. rewrite lookup_insert_ne; [done|]. apply Hf2 in Hw. lia. }
  split; try done.
  - split.
    + intros u k w f ph Hu Hc. destruct (w_own _ _ _ _ _ Hu Hc) as (wk & ? & ?). eauto.
    + intros c p w Hp Hw. destruct (w_block _ _ _ Hp Hw) as (wk & ? & ?). eauto.
    + intros w wk [[<- <-]|[? ?]]%lookup_insert_Some; [done|eauto].
    + intros c p w u Hp Hw. destruct (w_sel _ _ _ _ Hp Hw) as (wk & ? & ?). eauto.
    + intros u k w f wk Hu Hst Hc [[<- <-]|[? ?]]%lookup_insert_Some; [done|eauto].
  - split; [intros u k ?%Hf1; lia|]. intros w wk [[<- <-]|[? ?%Hf2]]%lookup_insert_Some; lia.
Qed.

Lemma block_on_good s c p k f :
  halted s = None -> okm s -> cpus s !! c = Some p -> doing p = PThread -> tasks s !! current p = Some k ->
  t_code k = CTask \/ t_code k = CGc -> (forall t, f = FJoin t -> is_Some (tasks s !! t)) ->
  good (block_on (current p) f s).
Proof.
  intros Hh Hok Hp Hd Hk Hcode Hf. right. split; [done|]. unfold SchedProof.okm. simpl. rewrite (alter_is _ _ _ _ Hk).
  pose proof (n_task _ _ (o_counts _ _ _ _ _ _ Hok) _ _ Hk). eapply ok_code; try done; simpl; try (by destruct Hcode as [->| ->]).
  - by apply ok_fresh_waker.
  - intros t. destruct f; simpl; rewrite ?app_nil_r; set_solver.
  - intros w f0 ph [= <- <- <-]. rewrite lookup_insert_eq. by eexists.
Qed.

(** [yield_now], called by the current task. *)
Lemma yield_good s s' c p :
  halted s = None -> okm s -> cpus s !! c = Some p -> doing p = PThread -> yield_now c (current p) s = Some s' -> good s'.
Proof.
  intros Hh Hok Hp Hd Hs. destruct (ok_cur _ _ _ _ Hok Hp) as (k & Hk & ? & ? & ? & ? & Hrun). unfold yield_now in Hs. rewrite Hk in Hs. simpl in Hs.
  unfold is_running in Hs. rewrite Hrun in Hs by (by rewrite Hd). simplify_eq/=. right. split; [done|]. unfold SchedProof.okm. simpl. rewrite (alter_is _ _ _ _ Hp), (alter_is _ _ _ _ Hk).
  eapply ok_goto; try done; rewrite ?Hd; try done; simpl; try lia. set_solver.
Qed.
(** A new task, for the scheduler to place or to switch to. *)
Lemma ok_fresh T W C R n c p x k kn :
  ok T W C R n -> C !! c = Some p -> doing p = PThread -> T !! current p = Some k -> (1 <= t_frames k)%nat ->
  is_idle kn = false -> state kn = Ready -> on_cpu kn = false -> t_frames kn = 0%nat -> mask_ok cpu_num (cpumask kn) ->
  (t_code kn = CTask /\ exists mask, x = PSelect mask (SAdd n) /\ mask_ok cpu_num mask) \/
  (t_code kn = CMigrate (current p) /\ x = PMigrating n /\ code_at (current p) (fun c => exists mask, c = CMigrated mask) T) ->
  ok (<[n := kn]> T) W (<[c := set_doing x p]> C) R (n + 1).
Proof.
  intros Hok Hp Hd Hk Hfr Hi Hst Hon Hf0 Hm Hx. destruct Hok as [Hco [Hn1 Hn2] Hwk [Hp1 Hp2 Hp3] [Hf1 Hf2]].
  assert (T !! n = None) as Hn. { destruct (T !! n) as [y|] eqn:E; [|done]. apply Hf1 in E. lia. }
  assert (Hold : forall i y, i <> n -> <[n := kn]> T !! i = Some y -> T !! i = Some y) by (intros i y Hne; by rewrite lookup_insert_ne).
  assert (Hcur : current p <> n) by congruence.
  assert (pc_blocks x = None /\ pc_waker x = None /\ pc_unblocks x = None /\ pc_needs x = 1%nat) as (X1 & X2 & X3 & X4) by (by destruct Hx as [(_ & ? & -> & _)|(_ & -> & _)]).
  split.
  - eapply core_fresh; try done; unfold cpu_seats, cpu_runs, cpu_ons, cpu_deads, cpu_toks, cpu_debts, cpu_refs; rewrite ?Hd;
      try (by destruct Hx as [(? & ? & -> & _)|(? & -> & _)]).
    + destruct Hx as [[? _]|(? & -> & _)]; [by left|by right].
    + destruct Hx as [(-> & ? & -> & _)|(-> & -> & _)]; done.
    + intros t. assert (pc_refs (current p) x = [n]) as E by (by destruct Hx as [(? & ? & -> & _)|(? & -> & _)]). simpl. rewrite E, app_nil_r. set_solver.
    + intros Hun. unfold hand_ok. simpl. destruct Hx as [(_ & mask & -> & _)|(Hc & -> & y & Hy & Hmk)]; [done|]. split_and!; [done|exists kn; by rewrite lookup_insert_eq|].
      exists y. by rewrite lookup_insert_ne.
  - split.
    + intros t y [[<- <-]|[? ?]]%lookup_insert_Some; [rewrite Hf0; lia|eauto].
    + intros c0 q y Hq Hy. apply lookup_insert_Some in Hq as [[<- <-]|[? Hq]].
      * simpl in *. rewrite lookup_insert_ne in Hy by done. simplify_eq. unfold pc_guards. rewrite X1, X4. split; [done|]. by eapply Hn1.
      * apply Hold in Hy; [eauto|]. destruct (cur_alive _ _ _ _ _ Hco Hq). congruence.
  - destruct Hwk. split.
    + intros t y w f ph [[<- <-]|[? ?]]%lookup_insert_Some Hc; [|eauto]. destruct Hx as [[? _]|(? & _)]; congruence.
    + intros c0 q w [[<- <-]|[? ?]]%lookup_insert_Some; [simpl; by rewrite X1|eauto].
    + intros w wk Hwk Hl. eapply exists_pc; [done|by rewrite Hd|eauto].
    + intros c0 q w u [[<- <-]|[? ?]]%lookup_insert_Some; [simpl; by rewrite X2|eauto].
    + intros t y w f wk [[<- <-]|[? ?]]%lookup_insert_Some Hs; [congruence|]. intros. eapply exists_pc; [done|by rewrite Hd|eauto].
  - split; [..|done].
    + intros t y [[<- <-]|[? ?]]%lookup_insert_Some; eauto.
    + intros c0 q [[<- <-]|[? ?]]%lookup_insert_Some; [|eauto]. by destruct Hx as [(? & ? & -> & ?)|(? & -> & _)].
  - split; [|intros w wk ?%Hf2; lia]. intros t y [[<- <-]|[? ?%Hf1]]%lookup_insert_Some; lia.
Qed.

(** A task changes in ways that do not concern the scheduler; the order of a queue changes. *)
Lemma ok_task T W C R n t k k' c p :
  ok T W C R n -> C !! c = Some p -> T !! t = Some k -> similar k k' -> cpumask k' = cpumask k -> t_frames k' = t_frames k -> preempt_disable_count k' = preempt_disable_count k ->
  ok (<[t := k']> T) W C R n.
Proof.
  intros [Hco Hcn Hwk Hpl Hf] Hp Hk Hsim Hm H1 H2. split.
  - by eapply core_task.
  - by eapply counts_task.
  - destruct Hsim as (? & ? & Hst & ?). rewrite <- (insert_id _ _ _ Hp). eapply waking_upd; try done; [|by rewrite Hst|by left]. intros w u Hw. by eapply (w_sel _ _ _ Hwk).
  - rewrite <- (insert_id _ _ _ Hp). eapply places_upd; try done. by eapply (p_pc _ _ _ _ Hpl).
  - by eapply numbered_upd.
Qed.

Lemma ok_perm T W C R n q b b' : ok T W C R n -> R !! q = Some b -> owned b' ≡ₚ owned b -> ok T W C (<[q := b']> R) n.
Proof.
  intros [Hco Hcn Hwk Hpl Hf] Hb Hperm. assert (is_Some (C !! q)) as [p Hp] by (apply (c_rq _ _ _ Hco); by rewrite Hb). split; try done; [|by apply places_queue].
  rewrite <- (insert_id _ _ _ Hp). eapply core_queue; try done; [by left|intros t; by rewrite Hperm|by apply (c_hand _ _ _ Hco)|]. intros t. rewrite Hperm. by left.
Qed.

(** The guards of the running task. *)
Lemma ok_counts T W C R n c p k k' :
  ok T W C R n -> C !! c = Some p -> T !! current p = Some k -> similar k k' -> cpumask k' = cpumask k ->
  (t_frames k <= t_frames k')%nat -> (pc_guards (doing p) + t_frames k' <= preempt_disable_count k')%nat ->
  ok (<[current p := k']> T) W C R n.
Proof.
  intros [Hco Hcn Hwk Hpl Hf] Hp Hk Hsim Hm H1 H2. split.
  - by eapply core_task.
  - rewrite <- (insert_id _ _ _ Hp). destruct (n_cpu _ _ Hcn _ _ _ Hp Hk). eapply counts_cur; try done; try lia. intros. by eapply uniq_cur.
  - destruct Hsim as (? & ? & Hst & ?). rewrite <- (insert_id _ _ _ Hp). eapply waking_upd; try done; [|by rewrite Hst|by left]. intros w u Hw. by eapply (w_sel _ _ _ Hwk).
  - rewrite <- (insert_id _ _ _ Hp). eapply places_upd; try done. by eapply (p_pc _ _ _ _ Hpl).
  - by eapply numbered_upd.
Qed.

(** A call that takes the guard of the run queue of the CPU, reorders it and drops the guard. *)
Lemma requeue_good s c p k k' q q' :
  halted s = None -> okm s -> cpus s !! c = Some p -> doing p = PThread -> tasks s !! current p = Some k ->
  run_queues s !! c = Some q -> owned q' ≡ₚ owned q -> similar k k' -> cpumask k' = cpumask k ->
  t_frames k' = S (t_frames k) -> preempt_disable_count k' = S (preempt_disable_count k) ->
  ok (<[current p := k']> (tasks s)) (wakers s) (<[c := set_doing PRelease p]> (cpus s)) (<[c := q']> (run_queues s)) (next_id s).
Proof.
  intros Hh Hok Hp Hd Hk Hq Hperm Hsim Hm H1 H2. pose proof (n_task _ _ (o_counts _ _ _ _ _ _ Hok) _ _ Hk). eapply ok_perm; try done.
  eapply ok_goto; try done; rewrite ?Hd; try done; simpl; try lia. by intros ? ?%not_elem_of_nil.
Qed.
(** ** The calls of other code *)

Lemma full_ok : 0 < cpu_num -> mask_ok cpu_num (cpu_mask_full cpu_num).
Proof. intros Hn. unfold mask_ok, cpu_mask_full. rewrite Z.ones_equiv. pose proof (proj1 (Z.pow_gt_1 2 cpu_num ltac:(lia)) Hn). lia. Qed.

Lemma tick_good s s' c p k :
  halted s = None -> okm s -> cpus s !! c = Some p -> doing p = PThread -> tasks s !! current p = Some k -> timer_tick c p k s = Some s' -> good s'.
Proof.
  intros Hh Hok Hp Hd Hk Hs. unfold timer_tick in Hs. apply bind_Some in Hs as (q & Hq & Hs).
  assert (exists fired q', (if is_idle k then (false, q) else task_tick (current p) q) = (fired, q') /\ owned q' ≡ₚ owned q) as (fired & q' & E & Hperm).
  { destruct (is_idle k); [by exists false, q|]. pose proof (owned_tick (current p) q). destruct (task_tick (current p) q) as [fired q']. by exists fired, q'. }
  rewrite E in Hs. simplify_eq. right. split; [done|]. unfold SchedProof.okm. simpl. rewrite (alter_is _ _ _ _ Hp), (alter_is _ _ _ _ Hk).
  eapply requeue_good; try done; by destruct fired.
Qed.

Lemma spawn_good s c p k :
  0 < cpu_num -> halted s = None -> okm s -> cpus s !! c = Some p -> doing p = PThread -> tasks s !! current p = Some k ->
  good (spawn_task cpu_num c (current p) false s).
Proof.
  intros Hn Hh Hok Hp Hd Hk. right. split; [done|]. unfold SchedProof.okm. simpl. rewrite (alter_is _ _ _ _ Hp), (alter_is _ _ _ _ Hk).
  pose proof (n_task _ _ (o_counts _ _ _ _ _ _ Hok) _ _ Hk). eapply (ok_fresh _ _ _ _ _ _ _ _ (acquire k)); try done; simpl; try lia.
  - eapply ok_counts; try done; simpl; rewrite ?Hd; simpl; lia.
  - apply lookup_insert_eq.
  - by apply full_ok.
  - left. split; [done|]. eexists. split; [done|]. by apply full_ok.
Qed.

Lemma exit_good s c p k code :
  halted s = None -> okm s -> cpus s !! c = Some p -> doing p = PThread -> tasks s !! current p = Some k -> t_code k = CTask ->
  good (exit_current c (current p) code k s).
Proof.
  intros Hh Hok Hp Hd Hk Hc. destruct (ok_cur _ _ _ _ Hok Hp) as (k' & Hk' & ? & ? & ? & ? & Hrun). rewrite Hk in Hk'. injection Hk' as <-. unfold exit_current, is_running. rewrite Hrun by (by rewrite Hd).
  assert (is_idle k = false) as ->. { destruct (is_idle k) eqn:E; [|done]. apply (c_named _ _ _ (o_core _ _ _ _ _ _ Hok) _ _ Hk) in E. congruence. }
  simpl. destruct (is_init k); [by left|]. right. split; [done|]. unfold SchedProof.okm. simpl. rewrite (alter_is _ _ _ _ Hp), (alter_is _ _ _ _ Hk).
  eapply ok_goto; try done; rewrite ?Hd; try done; simpl; try lia; [by intros ? ?%not_elem_of_nil|]. exists k. by split.
Qed.

Lemma affinity_good s c p k mask :
  0 < cpu_num -> halted s = None -> okm s -> cpus s !! c = Some p -> doing p = PThread -> tasks s !! current p = Some k -> t_code k = CTask ->
  mask = 0 \/ mask_ok cpu_num mask -> good (set_current_affinity cpu_num c (current p) mask k s).
Proof.
  intros Hn Hh Hok Hp Hd Hk Hc Hm. destruct (ok_cur _ _ _ _ Hok Hp) as (k' & Hk' & Hfr & _ & _ & _ & Hrun). rewrite Hk in Hk'. injection Hk' as <-.
  unfold set_current_affinity, mask_is_empty. destruct (Z.eqb_spec mask 0) as [|Hne]; [by right|]. destruct Hm as [|Hm]; [done|].
  pose proof (o_core _ _ _ _ _ _ Hok) as Hco.
  assert (Hadv : forall k', is_idle k' = is_idle k -> state k' = state k -> on_cpu k' = on_cpu k -> (t_frames k' <= preempt_disable_count k')%nat -> cpumask k' = mask ->
    t_code k' = CTask \/ t_code k' = CMigrated mask -> ok (<[current p := k']> (tasks s)) (wakers s) (cpus s) (run_queues s) (next_id s)).
  { intros k' H1 H2 H3 H4 H5 H6. rewrite <- (insert_id _ _ _ Hp). eapply ok_advance; try done; rewrite ?Hd; try done; [|by rewrite H5|simpl; lia|by intros w f ph Hw; destruct H6; congruence].
    split; try done; rewrite ?Hc; try (by destruct H6 as [->| ->]).
    - unfold cpu_debts. by rewrite Hd.
    - intros t. assert (code_refs (current p) (t_code k') = []) as -> by (by destruct H6 as [->| ->]). rewrite app_nil_r. intros Hin. apply (c_alive _ _ _ Hco _ _ _ Hp), elem_of_app. by right.
    - intros t. simpl. rewrite occ_nil. lia.
    - intros t. by apply (c_dead_seat _ _ _ Hco).
    - intros t. assert (code_deads (t_code k') = []) as -> by (by destruct H6 as [->| ->]). by intros ?%not_elem_of_nil.
    - unfold hand_ok. by rewrite Hd. }
  destruct (mask_get mask c).
  - right. split; [done|]. unfold SchedProof.okm. simpl. rewrite (alter_is _ _ _ _ Hk). apply Hadv; simpl; auto.
  - unfold is_running. rewrite Hrun by (by rewrite Hd). simpl. right. split; [done|]. unfold SchedProof.okm. simpl. rewrite (alter_is _ _ _ _ Hp), (alter_is _ _ _ _ Hk).
    erewrite alter_is by apply lookup_insert_eq. rewrite insert_insert_eq. eapply ok_fresh; try done.
    + apply Hadv; simpl; auto. lia.
    + apply lookup_insert_eq.
    + simpl. lia.
    + by apply full_ok.
    + right. split_and!; [done..|]. eexists. rewrite lookup_insert_eq. split; [done|]. by exists mask.
Qed.

Lemma thread_good s s' c p k e :
  0 < cpu_num -> halted s = None -> okm s -> cpus s !! c = Some p -> doing p = PThread -> tasks s !! current p = Some k ->
  (forall c b, e = ESpawn c b -> b = false) -> (forall c mask, e = ESetAffinity c mask -> mask = 0 \/ mask_ok cpu_num mask) ->
  step_thread cpu_num c p k e s = Some s' -> good s'.
Proof.
  intros Hn Hh Hok Hp Hd Hk Hspawn Hmask Hs. pose proof (n_task _ _ (o_counts _ _ _ _ _ _ Hok) _ _ Hk) as Hfr. destruct e; simpl in Hs; try done.
  - by eapply tick_good.
  - case_bool_decide; [|done]. injection Hs as <-. eapply (wake_good _ s c p w KRelease PThread k k (tasks s)); try done; rewrite ?Hd; try done. by rewrite insert_id.
  - injection Hs as <-. right. split; [done|]. unfold SchedProof.okm. simpl. rewrite (alter_is _ _ _ _ Hk). eapply ok_counts; try done; rewrite ?Hd; simpl; lia.
  - destruct (Nat.leb_spec (preempt_disable_count k) (t_frames k)); [done|]. injection Hs as <-.
    eapply (enable_preempt_good _ s c p PThread k k (tasks s)); try done; rewrite ?Hd; try done; first [by rewrite insert_id|by left|simpl; lia].
  - destruct (free_code (t_code k)); [|done]. by eapply yield_good.
  - destruct (free_code (t_code k)); [|done]. injection Hs as <-. rewrite (Hspawn _ _ eq_refl). by eapply spawn_good.
  - destruct (t_code k) eqn:Hc; try done. injection Hs as <-. eapply block_on_good; try done; auto.
  - destruct (t_code k) as [| | | |w [] []|] eqn:Hc; try done. injection Hs as <-. right. split; [done|]. unfold SchedProof.okm. simpl. rewrite (alter_is _ _ _ _ Hk).
    eapply ok_code; try done; rewrite ?Hc; try done; destruct ready; simpl; try done.
    + by intros t ?%not_elem_of_nil.
    + intros t ->%list_elem_of_singleton. by left.
    + intros w0 f ph [= <- <- <-]. by eapply (w_own _ _ _ (o_waking _ _ _ _ _ _ Hok)).
  - destruct (t_code k) eqn:Hc; try done. destruct (tasks s !! t) eqn:Ht; [|done]. injection Hs as <-. eapply block_on_good; try done; [by left|]. intros ? [= <-]. by rewrite Ht.
  - destruct (t_code k) eqn:Hc; try done. injection Hs as <-. by apply exit_good.
  - destruct (t_code k) eqn:Hc; try done. injection Hs as <-. apply affinity_good; try done. by eapply Hmask.
  - destruct (free_code (t_code k)); [|done]. apply bind_Some in Hs as (q & Hq & [= <-]). right. split; [done|]. unfold SchedProof.okm. simpl. rewrite (alter_is _ _ _ _ Hp), (alter_is _ _ _ _ Hk).
    eapply requeue_good; try done. apply owned_priority.
  - apply bind_Some in Hs as (kt & Hkt & Hs). case_match; [|done]. injection Hs as <-. right. split; [done|]. unfold SchedProof.okm. simpl. rewrite (alter_is _ _ _ _ Hkt). by eapply ok_task.
  - apply bind_Some in Hs as (kt & Hkt & Hs). case_match; [|done]. injection Hs as <-. right. split; [done|]. unfold SchedProof.okm. simpl. rewrite (alter_is _ _ _ _ Hkt). by eapply ok_task.
Qed.
End Threads.

(** * The scheduler's own tasks keep the invariant

    The steps of [block_on], of the futures of [join] and of the gc task, and of the migration
    task; then every step of the machine. *)

Section Codes.
Context {Q : Type} `{BaseSchedulerLaws Q} (MAX_CPU_NUM cpu_num : Z).
Implicit Types (T : gmap Z TaskInner) (C : gmap Z cpu) (R : gmap Z Q) (W : gmap Z AxWaker).
#[local] Notation ok := (ok cpu_num).
#[local] Notation okm := (okm cpu_num).
#[local] Notation good := (good cpu_num).

(** ** The loop of [block_on] *)

(** A step inside the loop that changes nothing but the place in it. *)
Lemma ok_phase T W C R n c p k w f ph ph' :
  ok T W C R n -> C !! c = Some p -> doing p = PThread -> T !! current p = Some k -> t_code k = CBlock w f ph ->
  code_deads (CBlock w f ph) = [] -> code_deads (CBlock w f ph') = [] -> ok (<[current p := set_code (CBlock w f ph') k]> T) W C R n.
Proof.
  intros Hok Hp Hd Hk Hc H1 H2. pose proof (n_task _ _ (o_counts _ _ _ _ _ _ Hok) _ _ Hk). eapply ok_code; try done; rewrite ?Hc; try done.
  - intros t Hin. assert (t ∈ code_refs (current p) (CBlock w f ph)); [|by auto]. destruct ph, ph'; done.
  - intros w0 f0 ph0 [= <- <- <-]. by eapply (w_own _ _ _ (o_waking _ _ _ _ _ _ Hok)).
Qed.

Lemma ok_leave T W C R n c p k w f ph :
  ok T W C R n -> C !! c = Some p -> doing p = PThread -> T !! current p = Some k -> t_code k = CBlock w f ph ->
  code_deads (CBlock w f ph) = [] -> ok (<[current p := set_code CTask k]> T) W C R n.
Proof.
  intros Hok Hp Hd Hk Hc H1. pose proof (n_task _ _ (o_counts _ _ _ _ _ _ Hok) _ _ Hk). eapply ok_code; try done; rewrite ?Hc; try done.
  by intros t ?%not_elem_of_nil.
Qed.

(** The flag is cleared at the start of a round. *)
Lemma ok_reset T W C R n c p w wk :
  ok T W C R n -> C !! c = Some p -> doing p = PThread -> W !! w = Some wk -> w_locked wk = false ->
  ok T (<[w := mk_waker (w_task wk) false false]> W) C R n.
Proof.
  intros [Hco Hcn Hwk Hpl Hf] Hp Hd Hw Hl. split; try done.
  - rewrite <- (insert_id _ _ _ Hp). eapply waking_set; try done; rewrite ?Hd; try done. intros c0 q Hq _ Hb. destruct (w_block _ _ _ Hwk _ _ _ Hq Hb) as (x & Hx & _ & ?). congruence.
  - destruct Hf. split; [done|]. intros w0 x [[<- <-]|[? ?]]%lookup_insert_Some; eauto.
Qed.

(** The current task takes the lock of its flag to block. *)
Lemma ok_lock T W C R n c p k w f wk :
  ok T W C R n -> C !! c = Some p -> doing p = PThread -> T !! current p = Some k -> t_code k = CBlock w f BLoop ->
  W !! w = Some wk -> w_locked wk = false -> (1 <= t_frames k)%nat ->
  ok (<[current p := disable_preempt k]> T) (<[w := mk_waker (w_task wk) false true]> W) (<[c := set_doing (PBlock w) p]> C) R n.
Proof.
  intros Hok Hp Hd Hk Hc Hw Hl Hf1. pose proof (n_task _ _ (o_counts _ _ _ _ _ _ Hok) _ _ Hk) as Hfr.
  destruct Hok as [Hco Hcn Hwk Hpl Hf]. split.
  - eapply core_task; [|exact Hk|done]. eapply core_goto; try done; rewrite ?Hd; try done; [by intros t ?%not_elem_of_nil|]. exists k. split; [done|]. by exists f.
  - eapply counts_cur; try done; simpl; try lia. intros. by eapply uniq_cur.
  - assert (waking (<[current p := disable_preempt k]> T) W C) as Hwk'.
    { rewrite <- (insert_id _ _ _ Hp). eapply waking_upd; try done; by rewrite Hd. }
    eapply waking_set; try done; simpl; rewrite ?Hd; try done; [|naive_solver].
    intros c0 q Hq _ Hb. destruct (w_block _ _ _ Hwk _ _ _ Hq Hb) as (x & Hx & _ & ?). congruence.
  - by eapply places_upd.
  - destruct Hf as [F1 F2]. split.
    + intros u x [[<- <-]|[? ?]]%lookup_insert_Some; eauto.
    + intros w0 x [[<- <-]|[? ?]]%lookup_insert_Some; eauto.
Qed.

Lemma check_good s s' c p k w f :
  halted s = None -> okm s -> cpus s !! c = Some p -> doing p = PThread -> tasks s !! current p = Some k -> t_code k = CBlock w f BCheck ->
  preempt_disable_count k = 0%nat -> step_check c (current p) w f s = Some s' -> good s'.
Proof.
  intros Hh Hok Hp Hd Hk Hc Hz Hs. pose proof (n_task _ _ (o_counts _ _ _ _ _ _ Hok) _ _ Hk) as Hfr. destruct (ok_cur _ _ _ _ Hok Hp) as (k' & Hk' & _ & _ & _ & _ & Hrun).
  rewrite Hk in Hk'. injection Hk' as <-. unfold step_check in Hs. apply bind_Some in Hs as (wk & Hw & Hs). destruct (w_locked wk) eqn:Hl; [done|].
  assert (ok (<[current p := acquire (set_code (CBlock w f BLoop) k)]> (tasks s)) (wakers s) (cpus s) (run_queues s) (next_id s)) as Hok1.
  { pose proof (ok_phase _ _ _ _ _ _ _ _ _ _ _ BLoop Hok Hp Hd Hk Hc eq_refl eq_refl) as H1.
    rewrite <- (insert_insert_eq _ (current p) _ (set_code (CBlock w f BLoop) k)). eapply (ok_counts _ _ _ _ _ _ _ p (set_code (CBlock w f BLoop) k)); try done; [apply lookup_insert_eq|simpl; lia|rewrite Hd; simpl; lia]. }
  destruct (woke wk).
  - eapply (yield_good _ (upd_task (current p) (fun k => acquire (set_code (CBlock w f BLoop) k)) s)); try done. unfold SchedProof.okm. simpl. by rewrite (alter_is _ _ _ _ Hk).
  - apply bind_Some in Hs as (k1 & Hk1 & Hs). simpl in Hk1. rewrite (alter_is _ _ _ _ Hk), lookup_insert_eq in Hk1. injection Hk1 as <-. simpl in Hs.
    unfold is_running, can_preempt in Hs. simpl in Hs. rewrite Hrun, Hz in Hs by (by rewrite Hd). simpl in Hs.
    assert (is_idle k = false) as E. { destruct (is_idle k) eqn:E; [|done]. apply (c_named _ _ _ (o_core _ _ _ _ _ _ Hok) _ _ Hk) in E. congruence. }
    rewrite E in Hs. simpl in Hs. injection Hs as <-. right. split; [done|]. unfold SchedProof.okm. simpl. rewrite (alter_is _ _ _ _ Hp), (alter_is _ _ _ _ Hk).
    erewrite alter_is by apply lookup_insert_eq. eapply (ok_lock _ _ _ _ _ _ _ (acquire (set_code (CBlock w f BLoop) k))); try done; [apply lookup_insert_eq|simpl; lia].
Qed.

(** ** [join] *)

Lemma join_good s s' c p k w t ph :
  halted s = None -> okm s -> cpus s !! c = Some p -> doing p = PThread -> tasks s !! current p = Some k -> t_code k = CBlock w (FJoin t) ph ->
  step_join (current p) w t ph s = Some s' -> good s'.
Proof.
  intros Hh Hok Hp Hd Hk Hc Hs. unfold step_join in Hs. apply bind_Some in Hs as (kt & Hkt & Hs). destruct ph; try done; injection Hs as <-; right; (split; [done|]); unfold SchedProof.okm; simpl.
  - rewrite (alter_is _ _ _ _ Hk). eapply ok_phase; try done. by case_bool_decide.
  - rewrite (alter_is _ _ _ _ Hk). by eapply ok_leave.
  - rewrite (alter_is _ _ _ _ Hkt). set (T1 := <[t := set_wait_for_exit (Some w) kt]> (tasks s)).
    assert (ok T1 (wakers s) (cpus s) (run_queues s) (next_id s)) as Hok1 by (by eapply ok_task).
    assert (exists k1, T1 !! current p = Some k1 /\ t_code k1 = CBlock w (FJoin t) BRegister) as (k1 & Hk1 & Hc1).
    { unfold T1. destruct (decide (t = current p)) as [->|]; [rewrite lookup_insert_eq|rewrite lookup_insert_ne by done]; simplify_eq; eexists; by split. }
    rewrite (alter_is _ _ _ _ Hk1). by eapply ok_phase.
Qed.
(** ** The gc task *)

(** It takes an exited task from the list of its CPU, or puts one back. *)
Lemma ok_gc T W C R n c p k w ph ph' l :
  ok T W C R n -> C !! c = Some p -> doing p = PThread -> T !! current p = Some k -> t_code k = CBlock w FGc ph ->
  (forall t, t ∈ l \/ t ∈ code_deads (CBlock w FGc ph') <-> t ∈ exited_tasks p \/ t ∈ code_deads (CBlock w FGc ph)) ->
  ok (<[current p := set_code (CBlock w FGc ph') k]> T) W (<[c := set_exited l p]> C) R n.
Proof.
  intros Hok Hp Hd Hk Hc Hl. pose proof (n_task _ _ (o_counts _ _ _ _ _ _ Hok) _ _ Hk) as Hfr. pose proof (o_core _ _ _ _ _ _ Hok) as Hco.
  assert (Hrun : state k = Running) by (eapply cur_running; [exact Hco|exact Hp|by rewrite Hd|done]).
  assert (Hdead : forall t, t ∈ exited_tasks p \/ t ∈ code_deads (t_code k) -> unseated t C /\ is_Some (T !! t)).
  { intros t Ht. split.
    - destruct Ht as [Ht|Ht]; [|by eapply (c_held_seat _ _ _ Hco)]. assert (t ∈ cpu_deads p) as Hin by (apply elem_of_app; by left).
      intros c0 q Hq Hs. pose proof (c_dead_seat _ _ _ Hco _ _ _ Hp Hin _ _ Hq Hs) as ->. simplify_eq. unfold cpu_seats in Hs. rewrite Hd in Hs. apply list_elem_of_singleton in Hs as ->.
      assert (state k = Exited); [|congruence]. apply (c_dead _ _ _ Hco _ _ Hk). left. eauto.
    - apply (dead_alive _ _ _ _ Hco). destruct Ht as [Ht|Ht]; [left; exists c, p; split; [done|apply elem_of_app; by left]|right; eauto]. }
  rewrite Hc in Hdead. eapply ok_advance; try done; simpl; rewrite ?Hd; try done; simpl; try lia.
  - split; rewrite ?Hc; try done.
    + unfold cpu_debts. simpl. by rewrite Hd.
    + intros t. unfold cpu_refs. simpl. rewrite Hd. simpl. rewrite app_nil_r. intros [->|[->|[Hin|[->|Hin]%elem_of_cons]%elem_of_app]%elem_of_cons]%elem_of_cons.
      * by rewrite Hk.
      * destruct (c_idle _ _ _ Hco _ _ Hp) as [(x & Hx & _) _]. by rewrite Hx.
      * apply Hdead, Hl. by left.
      * by rewrite Hk.
      * apply Hdead, Hl. right. destruct ph'; try by apply not_elem_of_nil in Hin. done.
    + intros t. specialize (Hl t). unfold cpu_deads. simpl. rewrite Hd. simpl. rewrite !app_nil_r. exact Hl.
    + intros t. unfold cpu_deads. simpl. rewrite Hd. simpl. rewrite app_nil_r. intros Hin. apply unseated_only, Hdead, Hl. by left.
    + intros t Hin. apply Hdead, Hl. by right.
    + unfold hand_ok. simpl. by rewrite Hd.
  - by eapply (p_mask _ _ _ _ (o_places _ _ _ _ _ _ Hok)).
  - intros w0 f ph0 [= <- <- <-]. by eapply (w_own _ _ _ (o_waking _ _ _ _ _ _ Hok)).
Qed.

(** The only reference to an exited task is that of the gc task. *)
Lemma held_alone s p k t w n :
  tasks s !! current p = Some k -> t_code k = CBlock w FGc (BGcHold t n) -> strong_count t s = 1%nat ->
  current p <> t /\ (forall c0 q, cpus s !! c0 = Some q -> t ∉ cpu_refs q) /\ (forall q b, run_queues s !! q = Some b -> t ∉ owned b) /\
  (forall i x, tasks s !! i = Some x -> i <> current p -> t ∉ code_refs i (t_code x)).
Proof.
  intros Hk Hc Hn. unfold strong_count in Hn. pose proof (msum_le (fun i k => occ t (code_refs i (t_code k))) _ _ _ Hk) as Hle. simpl in Hle. rewrite Hc in Hle. simpl in Hle.
  rewrite !occ_of_cons, (decide_True (P := t = t)) in Hle by done. split_and!.
  - intros He. rewrite decide_True in Hle by done. lia.
  - intros c0 q Hq Hin%occ_elem. pose proof (msum_le (fun _ p => occ t (cpu_refs p)) _ _ _ Hq). simpl in *. lia.
  - intros q b Hq Hin%occ_elem. pose proof (msum_le (fun _ q => occ t (owned q)) _ _ _ Hq). simpl in *. lia.
  - intros i x Hx Hne Hin%occ_elem. pose proof (msum_le2 (fun i k => occ t (code_refs i (t_code k))) _ _ _ _ _ Hx Hk Hne) as H1. simpl in *. rewrite Hc in H1. simpl in H1.
    rewrite !occ_of_cons, (decide_True (P := t = t)) in H1 by done. lia.
Qed.

Lemma ok_free T W C R n c p k k' t :
  ok T W C R n -> core (delete t (<[current p := k']> T)) C R -> C !! c = Some p -> T !! current p = Some k ->
  cpumask k' = cpumask k -> t_frames k' = t_frames k -> preempt_disable_count k' = preempt_disable_count k -> state k' <> Blocked ->
  (forall w f ph, t_code k' = CBlock w f ph -> exists f0 ph0, t_code k = CBlock w f0 ph0) ->
  ok (delete t (<[current p := k']> T)) W C R n.
Proof.
  intros [_ Hcn [] [] [Hf1 Hf2]] Hco Hp Hk Hm H1 H2 Hst Hcode.
  assert (Hsub : forall i x, delete t (<[current p := k']> T) !! i = Some x -> (i = current p /\ x = k') \/ T !! i = Some x).
  { intros i x [_ [[<- <-]|[? ?]]%lookup_insert_Some]%lookup_delete_Some; auto. }
  split; [done|..].
  - pose proof (counts_task _ _ _ _ _ Hcn Hk H1 H2) as [N1 N2]. split; [intros u x [_ Hx]%lookup_delete_Some; eauto|].
    intros c0 q x Hq [_ Hx]%lookup_delete_Some. eauto.
  - split; try done.
    + intros u x w f ph [[-> ->]|Hx]%Hsub Hc; [destruct (Hcode _ _ _ Hc) as (? & ? & ?)|]; eauto.
    + intros u x w f wk [[-> ->]|Hx]%Hsub Hb; [done|]. eauto.
  - split; try done. intros u x [[-> ->]|Hx]%Hsub; [rewrite Hm|]; eauto.
  - split; [|done]. intros u x [[-> ->]|Hx]%Hsub; eauto.
Qed.

Lemma gc_good s s' c p k w ph :
  halted s = None -> okm s -> cpus s !! c = Some p -> doing p = PThread -> tasks s !! current p = Some k -> t_code k = CBlock w FGc ph ->
  step_gc c (current p) w p ph s = Some s' -> good s'.
Proof.
  intros Hh Hok Hp Hd Hk Hc Hs. assert (Hrun : state k = Running) by (eapply cur_running; [apply Hok|exact Hp|by rewrite Hd|done]).
  destruct ph as [| | | |[|m]|t m| |]; try done; simpl in Hs.
  - injection Hs as <-. right. split; [done|]. unfold SchedProof.okm. simpl. rewrite (alter_is _ _ _ _ Hk). by eapply ok_phase.
  - injection Hs as <-. right. split; [done|]. unfold SchedProof.okm. simpl. rewrite (alter_is _ _ _ _ Hk), (alter_is _ _ _ _ Hp).
    eapply (ok_phase _ _ _ _ _ c (set_wait_gc (Some w) p)); try done; [by apply wait_gc_ok|apply lookup_insert_eq].
  - destruct (exited_tasks p) as [|t l] eqn:Hl; injection Hs as <-; right; (split; [done|]); unfold SchedProof.okm; simpl; rewrite (alter_is _ _ _ _ Hk); [by eapply ok_phase|].
    rewrite (alter_is _ _ _ _ Hp). eapply ok_gc; try done. intros u. simpl. rewrite Hl. set_solver.
  - destruct (Nat.eqb_spec (strong_count t s) 1) as [He|He]; injection Hs as <-; right; (split; [done|]); unfold SchedProof.okm; simpl; rewrite (alter_is _ _ _ _ Hk).
    + destruct (held_alone _ _ _ _ _ _ Hk Hc He) as (A1 & A2 & A3 & A4). eapply ok_free; try done; [|simpl; congruence|intros w0 f ph [= <- <- <-]; eauto].
      eapply core_drop; try done; try apply Hok; try (by rewrite Hc). simpl. intros u ->%list_elem_of_singleton. split; [done|]. by rewrite Hk.
    + rewrite (alter_is _ _ _ _ Hp). eapply ok_gc; try done. intros u. simpl. set_solver.
  - assert (Hok1 : forall ph', code_deads (CBlock w FGc ph') = [] -> okm (upd_task (current p) (set_code (CBlock w FGc ph')) s)).
    { intros ph' Hph. unfold SchedProof.okm. simpl. rewrite (alter_is _ _ _ _ Hk). by eapply ok_phase. }
    destruct (exited_tasks p) as [|t l] eqn:Hl; [injection Hs as <-; right; split; [done|by apply Hok1]|].
    eapply (yield_good _ (upd_task (current p) (set_code (CBlock w FGc BPoll)) s)); try done. by apply Hok1.
Qed.
(** ** Every step of the code of a task *)

(** When the migration task runs, the task it migrates has left its CPU. *)
Lemma migrating_unseated T C R c p k t :
  core T C R -> C !! c = Some p -> doing p = PThread -> T !! current p = Some k -> t_code k = CMigrate t -> unseated t C.
Proof.
  intros Hco Hp Hd Hk Hc c0 q Hq Hin. pose proof (c_migr _ _ _ Hco _ _ _ _ _ Hk Hc Hq Hin) as Hho. pose proof (c_hand _ _ _ Hco _ _ Hq) as Hh. unfold hand_ok in Hh.
  assert (c0 <> c) as Hne. { intros ->. simplify_eq. by eapply not_over. }
  assert (current p ∉ cpu_seats q) as Hns. { intros Hs. apply Hne. eapply (c_uniq _ _ _ Hco); [exact Hq|exact Hp|done|apply current_seat]. }
  destruct Hho as [[_ [Hdq|[Hdq|[Hdq|Hdq]]]]|(Hcq & _)].
  - rewrite Hdq in Hh. destruct Hh as [Hh _]. eapply Hh; [exact Hp|apply current_seat].
  - rewrite Hdq in Hh. apply Hne. symmetry. eapply Hh; [exact Hp|apply current_seat].
  - apply Hns. unfold cpu_seats. rewrite Hdq. set_solver.
  - apply Hns. unfold cpu_seats. rewrite Hdq. set_solver.
  - apply Hns. rewrite <- Hcq. apply current_seat.
Qed.

Lemma step_block (s : machine (Q := Q)) c p k w f ph :
  tasks s !! current p = Some k -> t_code k = CBlock w f ph ->
  step_code c p s = match ph with
                    | BLoop =>
                      wk ← wakers s !! w;
                      if w_locked wk then None
                      else Some (upd_task (current p) (set_code (CBlock w f BPoll)) (set_wakers (<[w := mk_waker (w_task wk) false false]> (wakers s)) s))
                    | BCheck => step_check c (current p) w f s
                    | _ => match f with FGc => step_gc c (current p) w p ph s | FJoin t => step_join (current p) w t ph s | FAny => None end
                    end.
Proof. intros Hk Hc. unfold step_code. rewrite Hk. simpl. rewrite Hc. by destruct f, ph. Qed.

Lemma code_good s s' c p k :
  halted s = None -> okm s -> cpus s !! c = Some p -> doing p = PThread -> tasks s !! current p = Some k ->
  (forall w f, t_code k = CBlock w f BCheck -> preempt_disable_count k = 0%nat) -> (forall mask, t_code k = CMigrated mask -> mask_get mask c = true) ->
  step_code c p s = Some s' -> good s'.
Proof.
  intros Hh Hok Hp Hd Hk Hcheck Hmask Hs. pose proof (n_task _ _ (o_counts _ _ _ _ _ _ Hok) _ _ Hk) as Hfr. pose proof (o_core _ _ _ _ _ _ Hok) as Hco.
  destruct (t_code k) as [|t| |mask|w f ph|] eqn:Hc; [..|rewrite (step_block _ _ _ _ _ _ _ Hk Hc) in Hs|]; try (unfold step_code in Hs; rewrite Hk in Hs; simpl in Hs; rewrite Hc in Hs); try done.
  - by eapply yield_good.
  - apply bind_Some in Hs as (kt & Hkt & [= <-]). right. split; [done|]. unfold SchedProof.okm. simpl. rewrite (alter_is _ _ _ _ Hp), (alter_is _ _ _ _ Hk).
    eapply ok_advance; try done; simpl; try lia; [|by eapply (p_mask _ _ _ _ (o_places _ _ _ _ _ _ Hok))..].
    assert (Hun : unseated t (cpus s)) by (by eapply migrating_unseated).
    split; rewrite ?Hc; unfold cpu_seats, cpu_runs, cpu_ons, cpu_debts, cpu_refs, cpu_toks, cpu_deads; simpl; rewrite ?Hd; try done.
    + intros u. rewrite app_nil_r. intros [->|[->|[Hin| ->%list_elem_of_singleton]%elem_of_app]%elem_of_cons]%elem_of_cons.
      * by rewrite Hk.
      * destruct (c_idle _ _ _ Hco _ _ Hp) as [(x & Hx & _) _]. by rewrite Hx.
      * apply (dead_alive _ _ _ _ Hco). left. exists c, p. split; [done|]. apply elem_of_app. by left.
      * by rewrite Hkt.
    + intros u Hin. eapply (c_dead_seat _ _ _ Hco); [done|]. unfold cpu_deads. by rewrite Hd.
    + by intros u ?%not_elem_of_nil.
  - injection Hs as <-. eapply block_on_good; try done; auto.
  - rewrite Hmask in Hs by done. injection Hs as <-. right. split; [done|]. unfold SchedProof.okm. simpl. rewrite (alter_is _ _ _ _ Hk).
    eapply ok_code; try done; rewrite ?Hc; try done. by intros ? ?%not_elem_of_nil.
  - destruct ph; try (destruct f; [done|by eapply join_good|by eapply gc_good]).
    + apply bind_Some in Hs as (wk & Hw & Hs). destruct (w_locked wk) eqn:Hl; [done|]. injection Hs as <-. right. split; [done|]. unfold SchedProof.okm. simpl. rewrite (alter_is _ _ _ _ Hk).
      eapply ok_phase; try done. by eapply ok_reset.
    + eapply check_good; try done. eauto.
Qed.
End Codes.
