(* ===== verification/SchedHistory.v ===== *)
(** * A migrated task runs where it may

    [set_current_affinity] hands the current task to a migration task and asserts, when it runs
    again, that its CPU is in the new mask.  That assertion holds: until the task runs again it is
    handed over, in the hands of a CPU that looks for a queue of the mask, or in such a queue.

    The second part puts the steps together: initialisation and all histories. *)

From S2P Require Import Prelude Sched SchedSpec SchedMoves SchedProof SchedThread.

(** Where CPU [c] may have a task that migrates to [mask]: in its hands, or on its stack. *)
Definition hand_lands (mask t c : Z) (p : pc) : Prop :=
  match p with
  | PSelect m (SMigrate u) => u = t -> m = mask
  | PMigrate q u => u = t -> mask_get mask q = true
  | PSelect _ (SAdd u) | PAdd _ u | PSpin _ u _ | PPut _ u _ => u <> t
  | PPicked u | PSwitch u => u = t -> mask_get mask c = true
  | _ => True
  end.
Definition lands (mask t c : Z) (p : cpu) : Prop :=
  (t ∈ cpu_seats p -> mask_get mask c = true \/ exists m, hands_over m t p) /\ hand_lands mask t c (doing p).

(** Places in which a CPU holds no task but its own. *)
Definition quiet (p : pc) : bool :=
  match p with
  | PSelect _ (SAdd _) | PSelect _ (SMigrate _) | PAdd _ _ | PMigrate _ _ | PSpin _ _ _ | PPut _ _ _
  | PMigrating _ | PPicked _ | PSwitch _ | PClaim _ | PSave _ | PRestored => false
  | _ => true
  end.

Section Migrate.
Context {Q : Type} `{BaseSchedulerLaws Q} (MAX_CPU_NUM cpu_num : Z).
Implicit Types (T : gmap Z TaskInner) (C : gmap Z cpu) (R : gmap Z Q) (W : gmap Z AxWaker).
#[local] Notation okm := (okm cpu_num).

Record moved T C R : Prop := {
  m_mask : forall t k mask, T !! t = Some k -> t_code k = CMigrated mask -> cpumask k = mask;
  m_cpu : forall t k mask c p, T !! t = Some k -> t_code k = CMigrated mask -> C !! c = Some p -> lands mask t c p;
  m_queue : forall t k mask q b, T !! t = Some k -> t_code k = CMigrated mask -> R !! q = Some b -> t ∈ owned b -> mask_get mask q = true;
}.
Definition movedm (s : machine (Q := Q)) : Prop := moved (tasks s) (cpus s) (run_queues s).

(** No task starts to migrate. *)
Definition keeps T T' : Prop := forall t k' mask, T' !! t = Some k' -> t_code k' = CMigrated mask ->
  exists k, T !! t = Some k /\ t_code k = CMigrated mask /\ cpumask k = cpumask k'.

Lemma migr_refl T : keeps T T.
Proof. intros t k mask. eauto. Qed.

Lemma migr_trans T1 T2 T3 : keeps T1 T2 -> keeps T2 T3 -> keeps T1 T3.
Proof. intros H1 H2 t k mask Hk Hc. destruct (H2 _ _ _ Hk Hc) as (k2 & Hk2 & Hc2 & <-). by apply H1. Qed.

Lemma migr_alter T i f :
  (forall k mask, t_code (f k) = CMigrated mask -> t_code k = CMigrated mask /\ cpumask (f k) = cpumask k) -> keeps T (alter f i T).
Proof.
  intros Hf t k mask Hk Hc. destruct (decide (i = t)) as [<-|]; [|rewrite lookup_alter_ne in Hk by done; by eauto].
  rewrite lookup_alter_eq in Hk. apply fmap_Some in Hk as (x & Hx & ->). destruct (Hf _ _ Hc). eauto.
Qed.

Lemma migr_insert T i x : (forall mask, t_code x <> CMigrated mask) -> keeps T (<[i := x]> T).
Proof. intros Hx t k mask [[<- <-]|[? ?]]%lookup_insert_Some Hc; [by destruct (Hx mask)|eauto]. Qed.

Lemma keeps_delete T i : keeps T (delete i T).
Proof. intros t k mask [_ ?]%lookup_delete_Some Hc. eauto. Qed.

(** A step of one CPU. *)
Lemma moved_step T T' C R R' c p p' :
  moved T C R -> C !! c = Some p -> keeps T T' ->
  (forall t k mask, T !! t = Some k -> t_code k = CMigrated mask -> cpumask k = mask -> lands mask t c p ->
     (forall q b, R !! q = Some b -> t ∈ owned b -> mask_get mask q = true) ->
     lands mask t c p' /\ forall q b, R' !! q = Some b -> t ∈ owned b -> mask_get mask q = true) ->
  moved T' (<[c := p']> C) R'.
Proof.
  intros [Hm Hc Hq] Hp Hk Hs. split.
  - intros t k mask Ht Hcode. destruct (Hk _ _ _ Ht Hcode) as (k0 & ? & ? & <-). eauto.
  - intros t k mask c0 q Ht Hcode Hq0. destruct (Hk _ _ _ Ht Hcode) as (k0 & ? & ? & _).
    apply lookup_insert_Some in Hq0 as [[<- <-]|[? ?]]; [eapply Hs|]; eauto.
  - intros t k mask q b Ht Hcode. destruct (Hk _ _ _ Ht Hcode) as (k0 & ? & ? & _). eapply Hs; eauto.
Qed.

Lemma lands_plain mask t c p p' :
  plain (doing p) = true -> plain (doing p') = true -> current p' = current p -> hand_lands mask t c (doing p') -> lands mask t c p -> lands mask t c p'.
Proof.
  intros Hp Hp' Hc Hh [Hl _]. split; [|done]. intros Hin. destruct Hl as [?|[m Hho]]; [|by left|].
  - unfold cpu_seats in *. rewrite Hc in Hin. by destruct (doing p), (doing p').
  - unfold hands_over in Hho. destruct (doing p); naive_solver.
Qed.

Lemma quiet_plain p : quiet p = true -> plain p = true.
Proof. by destruct p as [|? []| | | | | | | | | | | | | | | | | | | | | | | |]. Qed.

Lemma quiet_lands mask t c p : quiet p = true -> hand_lands mask t c p.
Proof. by destruct p as [|? []| | | | | | | | | | | | | | | | | | | | | | | |]. Qed.

Lemma lands_quiet mask t c p p' :
  plain (doing p) = true -> quiet (doing p') = true -> current p' = current p -> lands mask t c p -> lands mask t c p'.
Proof. intros Hp Hp' Hc. apply lands_plain; auto using quiet_plain, quiet_lands. Qed.

(** ** Steps that take no task anywhere *)

(** Nothing has changed but what no migration depends on. *)
Definition near (c : Z) (p : cpu) (s s' : machine (Q := Q)) : Prop :=
  keeps (tasks s) (tasks s') /\ (forall q b, run_queues s' !! q = Some b -> exists b0, run_queues s !! q = Some b0 /\ owned b ≡ₚ owned b0) /\
  exists p', cpus s' = <[c := p']> (cpus s) /\ current p' = current p.
Definition calm (c : Z) (p : cpu) (s s' : machine (Q := Q)) : Prop :=
  near c p s s' /\ match cpus s' !! c with Some p' => quiet (doing p') = true | None => False end.

Lemma moved_calm s s' c p : movedm s -> cpus s !! c = Some p -> plain (doing p) = true -> calm c p s s' -> movedm s'.
Proof.
  intros Hm Hp Hpl ((Hk & Hr & p' & Hc & Hcur) & Hq). rewrite Hc, lookup_insert_eq in Hq. unfold movedm. rewrite Hc. eapply moved_step; [exact Hm|done..|].
  intros t k mask Ht Hcode _ Hl Hqs. split; [by eapply lands_quiet|]. intros q b Hb Hin. destruct (Hr _ _ Hb) as (b0 & Hb0 & Hp0). rewrite Hp0 in Hin. eauto.
Qed.

Lemma near_refl s c p : cpus s !! c = Some p -> near c p s s.
Proof. intros Hp. split_and!; [apply migr_refl|by eauto|]. exists p. by rewrite insert_id. Qed.

Lemma near_task s s1 c p i f :
  near c p s s1 -> (forall k mask, t_code (f k) = CMigrated mask -> t_code k = CMigrated mask /\ cpumask (f k) = cpumask k) -> near c p s (upd_task i f s1).
Proof. intros (Hk & Hr & Hc) Hf. split_and!; [|done..]. eapply migr_trans; [exact Hk|]. by apply migr_alter. Qed.

Lemma near_cpu s s1 c p f : near c p s s1 -> (forall q, current (f q) = current q) -> near c p s (upd_cpu c f s1).
Proof.
  intros (Hk & Hr & p' & Hc & Hcur) Hf. split_and!; [done..|]. exists (f p'). simpl. rewrite Hc. split; [|by rewrite Hf].
  rewrite (alter_is _ _ _ p') by apply lookup_insert_eq. apply insert_insert_eq.
Qed.

Lemma near_wakers s s1 c p W : near c p s s1 -> near c p s (set_wakers W s1).
Proof. done. Qed.

Lemma near_index s s1 c p x : near c p s s1 -> near c p s (set_index x s1).
Proof. done. Qed.

Lemma near_queue s s1 c p q b b' : near c p s s1 -> run_queues s1 !! q = Some b -> owned b' ≡ₚ owned b -> near c p s (set_queues (<[q := b']> (run_queues s1)) s1).
Proof.
  intros (Hk & Hr & Hc) Hq Hp. split_and!; [done| |done]. simpl. intros q0 b0 [[<- <-]|[? ?]]%lookup_insert_Some; [|by eauto]. destruct (Hr _ _ Hq) as (b1 & ? & Hb1). exists b1. by rewrite Hp, Hb1.
Qed.

Lemma calm_goto s s1 c p x : near c p s s1 -> quiet x = true -> calm c p s (goto c x s1).
Proof.
  intros Hn Hx. split; [by apply near_cpu|]. destruct Hn as (_ & _ & p' & Hc & _). simpl. by rewrite lookup_alter_eq, Hc, lookup_insert_eq.
Qed.

Lemma calm_stay s s1 c p : near c p s s1 -> (forall p', cpus s1 !! c = Some p' -> quiet (doing p') = true) -> calm c p s s1.
Proof. intros Hn Hq. split; [done|]. destruct Hn as (_ & _ & p' & Hc & _). specialize (Hq p'). rewrite Hc, lookup_insert_eq in *. auto. Qed.

Create HintDb near.
#[local] Hint Resolve near_refl near_wakers near_index : near.
#[local] Hint Extern 2 (near _ _ _ (upd_task _ _ _)) => (apply near_task; [|by intros ? ? ?]) : near.
#[local] Hint Extern 2 (near _ _ _ (upd_cpu _ _ _)) => (apply near_cpu; [|done]) : near.
#[local] Hint Extern 2 (calm _ _ _ (goto _ _ _)) => (apply calm_goto; [|done]) : near.

Lemma calm_enable s s1 c p cur next :
  near c p s s1 -> quiet next = true -> is_Some (tasks s1 !! cur) -> halted (enable_preempt c cur next s1) = None -> calm c p s (enable_preempt c cur next s1).
Proof.
  intros Hn Hq [k Hk]. unfold enable_preempt. rewrite Hk. repeat case_match; try done; intros _; auto with near.
Qed.

Lemma calm_release s s1 c p cur next :
  near c p s s1 -> quiet next = true -> is_Some (tasks s1 !! cur) -> halted (release c cur next s1) = None -> calm c p s (release c cur next s1).
Proof.
  intros Hn Hq [k Hk]. unfold release. apply calm_enable; [auto with near|done|]. simpl. rewrite lookup_alter_eq, Hk. by eexists.
Qed.

Lemma calm_end_wake s s1 c p k : near c p s s1 -> calm c p s (end_wake c k s1).
Proof. intros Hn. unfold end_wake. destruct k; auto with near. Qed.

Lemma calm_wake s s1 c p cur w k next : near c p s s1 -> quiet next = true -> calm c p s (wake_by_ref c cur w k next s1).
Proof. intros Hn Hq. unfold wake_by_ref. repeat case_match; auto with near. Qed.

(** ** Steps that take a task somewhere *)

(** The CPU goes on to [x], a place of the same kind. *)
Lemma moved_goto s s1 c p x :
  movedm s -> cpus s !! c = Some p -> plain (doing p) = true -> plain x = true -> keeps (tasks s) (tasks s1) -> cpus s1 = cpus s -> run_queues s1 = run_queues s ->
  (forall t k mask, tasks s !! t = Some k -> t_code k = CMigrated mask -> cpumask k = mask -> lands mask t c p -> hand_lands mask t c x) -> movedm (goto c x s1).
Proof.
  intros Hm Hp Hpl Hx Hk Hc Hr Hl. unfold movedm. simpl. rewrite Hc, Hr, (alter_is _ _ _ _ Hp). eapply moved_step; [exact Hm|done..|].
  intros t k mask Ht Hcode Hmask Hland Hq. split; [|done]. eapply lands_plain; [| | | |exact Hland]; try done. simpl. eauto.
Qed.

(** It puts [t] in queue [q]. *)
Lemma moved_enqueue s s1 c p x q t f :
  movedm s -> cpus s !! c = Some p -> plain (doing p) = true -> quiet x = true -> keeps (tasks s) (tasks s1) -> cpus s1 = cpus s -> run_queues s1 = alter f q (run_queues s) ->
  (forall b, owned (f b) ≡ₚ t :: owned b) ->
  (forall k mask, tasks s !! t = Some k -> t_code k = CMigrated mask -> lands mask t c p -> mask_get mask q = true) -> movedm (goto c x s1).
Proof.
  intros Hm Hp Hpl Hx Hk Hc Hr Hf Hl. unfold movedm. simpl. rewrite Hc, Hr, (alter_is _ _ _ _ Hp). eapply moved_step; [exact Hm|done..|].
  intros u k mask Hu Hcode Hmask Hland Hq. split; [by eapply lands_quiet|]. intros q0 b Hb Hin. destruct (decide (q = q0)) as [<-|]; [|rewrite lookup_alter_ne in Hb by done; by eauto].
  rewrite lookup_alter_eq in Hb. apply fmap_Some in Hb as (b0 & Hb0 & ->). rewrite Hf in Hin. apply elem_of_cons in Hin as [->|?]; eauto.
Qed.
Lemma moved_select s c p mask k : movedm s -> cpus s !! c = Some p -> doing p = PSelect mask k -> halted (step_select MAX_CPU_NUM c mask k s) = None -> movedm (step_select MAX_CPU_NUM c mask k s).
Proof.
  intros Hm Hp Hd. unfold step_select. destruct (mask_is_empty mask); [done|]. set (s1 := set_index _ s). destruct (mask_get mask _) eqn:Hg; [|done].
  destruct (run_queues s1 !! _); [|done]. intros _. eapply moved_goto; [exact Hm|done|by rewrite Hd|by destruct k|apply migr_refl|done..|].
  intros t kt mt _ _ _ [_ Hl]. rewrite Hd in Hl. destruct k; simpl in *; [done| |done]. by intros ->%Hl.
Qed.

Lemma moved_unblock s c p q t k tk :
  okm s -> movedm s -> cpus s !! c = Some p -> doing p = PUnblock q t k -> tasks s !! t = Some tk ->
  movedm (if bool_decide (state tk = Blocked) then
            let s := upd_task t (set_state Ready) s in if is_idle tk then end_wake c k s else goto c (PSpin q t k) s
          else end_wake c k s).
Proof.
  intros Hok Hm Hp Hd Ht. case_bool_decide as Hb; simpl; [destruct (is_idle tk)|].
  - eapply moved_calm; [exact Hm|done|by rewrite Hd|]. apply calm_end_wake. auto with near.
  - eapply moved_goto; [exact Hm|done|by rewrite Hd|done|by apply migr_alter|done..|]. intros u ku mask Hu Hc _ _ <-. simplify_eq.
    destruct (c_blocked _ _ _ (o_core _ _ _ _ _ _ Hok) _ _ Ht Hb) as (w & f & ?). congruence.
  - eapply moved_calm; [exact Hm|done|by rewrite Hd|]. apply calm_end_wake. auto with near.
Qed.

Lemma moved_resched s c p q :
  okm s -> movedm s -> cpus s !! c = Some p -> doing p = PResched -> run_queues s !! c = Some q ->
  movedm (let '(next, q') := pick_next_task q in goto c (PPicked (default (idle_task p) next)) (set_queues (<[c := q']> (run_queues s)) s)).
Proof.
  intros Hok Hm Hp Hd Hq. pose proof (owned_pick q) as Hpick. destruct (pick_next_task q) as [next q']. unfold movedm. simpl. rewrite (alter_is _ _ _ _ Hp).
  eapply moved_step; [exact Hm|done|apply migr_refl|]. intros t k mask Ht Hc Hmask Hl Hqs. split.
  - destruct Hl as [Hl _]. split; [|destruct next as [n|]; simpl].
    + intros Hin. left. destruct Hl as [?|[m Hho]]; [unfold cpu_seats in *; by rewrite Hd|done|]. unfold hands_over in Hho. rewrite Hd in Hho. naive_solver.
    + intros ->. eapply Hqs; [done|]. rewrite Hpick. by left.
    + intros <-. destruct (c_idle _ _ _ (o_core _ _ _ _ _ _ Hok) _ _ Hp) as [(x & Hx & Hi & _) _]. simplify_eq. apply (c_named _ _ _ (o_core _ _ _ _ _ _ Hok) _ _ Ht) in Hi. congruence.
  - intros q0 b [[<- <-]|[? ?]]%lookup_insert_Some Hin; [|by eauto]. apply (Hqs _ _ Hq). destruct next; [rewrite Hpick; by right|]. destruct Hpick as [_ E]. rewrite E in Hin. by apply not_elem_of_nil in Hin.
Qed.

(** The steps of [switch_to]. *)
Lemma moved_turn s s1 c p p' :
  movedm s -> cpus s !! c = Some p -> keeps (tasks s) (tasks s1) -> cpus s1 = <[c := p']> (cpus s) -> run_queues s1 = run_queues s ->
  (forall t k mask, tasks s !! t = Some k -> t_code k = CMigrated mask -> lands mask t c p -> lands mask t c p') -> movedm s1.
Proof. intros Hm Hp Hk Hc Hr Hl. unfold movedm. rewrite Hc, Hr. eapply moved_step; [exact Hm|done..|]. intros. split; eauto. Qed.

Lemma lands_switch mask t c p m : lands mask t c p -> doing p = PSwitch m -> lands mask t c (set_doing (if bool_decide (m = current p) then PRelease else PClaim m) p).
Proof.
  intros [Hl Hh] Hd. unfold lands, cpu_seats, hands_over, hand_lands in *. rewrite Hd in *. simpl. case_bool_decide as E; (split; [|done]); simpl.
  - subst m. intros ->%list_elem_of_singleton. left. auto.
  - intros [->| ->%list_elem_of_singleton]%elem_of_cons; [|by left; auto]. destruct Hl as [?|(m' & Hho)]; [by left|by left|]. naive_solver.
Qed.

Lemma lands_restored mask t c p m : lands mask t c p -> doing p = PSave m -> NoDup (cpu_seats p) -> lands mask t c (set_doing PRestored (set_current m p)).
Proof.
  intros [Hl Hh] Hd Hnd. unfold lands, cpu_seats, hands_over, hand_lands in *. rewrite Hd in *. simpl. split; [|done].
  apply NoDup_cons in Hnd as [Hne%not_elem_of_cons _]. intros Hin. destruct Hl as [?|(m' & Hho)]; [set_solver|by left|naive_solver].
Qed.

Lemma lands_release mask t c p : lands mask t c p -> doing p = PRestored -> NoDup (cpu_seats p) -> lands mask t c (set_doing PRelease p).
Proof.
  intros [Hl Hh] Hd Hnd. unfold lands, cpu_seats, hands_over, hand_lands in *. rewrite Hd in *. simpl. split; [|done]. intros ->%list_elem_of_singleton.
  apply NoDup_cons in Hnd as [Hne _]. destruct Hl as [?|(m' & [[_ ?]|(? & _ & Hpr)])]; [by left|by left|naive_solver|]. rewrite Hpr in Hne. set_solver.
Qed.

Lemma moved_cpu s s' c p :
  okm s -> movedm s -> cpus s !! c = Some p -> step_cpu MAX_CPU_NUM c p s = Some s' -> halted s' = None -> movedm s'.
Proof.
  intros Hok Hm Hp Hs Hh. pose proof (o_core _ _ _ _ _ _ Hok) as Hco. pose proof (cur_alive _ _ _ _ _ Hco Hp) as Hcur. pose proof (c_nodup _ _ _ Hco _ _ Hp) as Hnd. unfold step_cpu in Hs.
  destruct (doing p) eqn:Hd; try (apply bind_Some in Hs as (x & Hx & Hs)); try done; try (injection Hs as <-).
  - by eapply moved_select.
  - destruct (is_ready x); [|done]. eapply moved_enqueue; [exact Hm|done|by rewrite Hd|done|apply migr_refl|done..|apply owned_add|].
    intros k mask _ _ [_ Hl]. by rewrite Hd in Hl.
  - eapply moved_enqueue; [exact Hm|done|by rewrite Hd|done|apply migr_refl|done..|apply owned_put|]. intros k mask _ _ [_ Hl]. rewrite Hd in Hl. by apply Hl.
  - destruct (w_locked x); [done|]. injection Hs as <-. eapply moved_calm; [exact Hm|done|by rewrite Hd|]. auto with near.
  - by eapply moved_unblock.
  - destruct (on_cpu x); [done|]. injection Hs as <-. eapply moved_goto; [exact Hm|done|by rewrite Hd|done|apply migr_refl|done..|]. intros t0 k0 mask _ _ _ [_ Hl]. by rewrite Hd in Hl.
  - eapply (moved_enqueue _ (upd_rq q (put_prev_task t false) (upd_task t (set_cpu_id q) s))); [exact Hm|done|by rewrite Hd|by destruct k|by apply migr_alter|done..|apply owned_put|].
    intros k0 mask _ _ [_ Hl]. by rewrite Hd in Hl.
  - eapply moved_calm; [exact Hm|done|by rewrite Hd|]. apply calm_release; [auto with near|by destruct k|done..].
  - case_bool_decide; simplify_eq; (eapply moved_calm; [exact Hm|done|by rewrite Hd|]); [|auto with near]. destruct (is_idle x); auto with near.
  - eapply (moved_enqueue _ (upd_rq c (put_prev_task (current p) preempt) (upd_task (current p) (set_cpu_id c) s))); [exact Hm|done|by rewrite Hd|done|by apply migr_alter|done..|apply owned_put|].
    intros k0 mask _ _ [Hl _]. destruct (Hl (current_seat p)) as [?|[m Hho]]; [done|]. unfold hands_over in Hho. rewrite Hd in Hho. naive_solver.
  - eapply moved_calm; [exact Hm|done|by rewrite Hd|]. auto with near.
  - eapply moved_calm; [exact Hm|done|by rewrite Hd|]. apply calm_enable; auto with near.
  - eapply moved_calm; [exact Hm|done|by rewrite Hd|]. auto with near.
  - eapply moved_calm; [exact Hm|done|by rewrite Hd|]. auto with near.
  - eapply moved_calm; [exact Hm|done|by rewrite Hd|]. destruct (wait_for_exit x); [apply calm_wake|]; auto with near.
  - eapply moved_calm; [exact Hm|done|by rewrite Hd|]. auto with near.
  - eapply moved_calm; [exact Hm|done|by rewrite Hd|]. destruct (wait_gc p); [apply calm_wake|]; auto with near.
  - pose proof (ok_hand _ _ _ _ Hok Hp) as Hho. unfold hand_ok in Hho. rewrite Hd in Hho. destruct Hho as (_ & (km & Hkm & Hcm) & _).
    eapply moved_turn; [exact Hm|done|by apply migr_alter|simpl; by rewrite (alter_is _ _ _ _ Hp)|done|].
    intros t k mask Ht Hc [Hl _]. split; [|intros ->; congruence]. intros Hin. destruct Hl as [?|(m' & Hho)]; [unfold cpu_seats in *; by rewrite Hd|by left|right].
    exists m'. unfold hands_over in *. rewrite Hd in Hho. simpl. naive_solver.
  - by apply (moved_resched _ _ _ _ Hok Hm Hp Hd) in Hx; destruct (pick_next_task x); simplify_eq.
  - destruct (is_ready x); [|done]. eapply moved_turn; [exact Hm|done|apply migr_refl|simpl; by rewrite (alter_is _ _ _ _ Hp)|done|].
    intros t k mask Ht Hc [Hl Hh']. rewrite Hd in Hh'. split; [|done]. unfold cpu_seats, hands_over in *. rewrite Hd in *. naive_solver.
  - eapply moved_turn; [exact Hm|done|by apply migr_alter|simpl; by rewrite (alter_is _ _ _ _ Hp)|done|]. intros. by apply lands_switch.
  - eapply moved_turn; [exact Hm|done|by apply migr_alter|simpl; by rewrite (alter_is _ _ _ _ Hp)|done|].
    intros t k mask Ht Hc [Hl _]. split; [|done]. unfold cpu_seats, hands_over in *. rewrite Hd in *. naive_solver.
  - unfold step_save in *. destruct (_ && _); [|done]. eapply moved_turn; [exact Hm|done|apply migr_refl| |done|intros; by apply lands_restored].
    simpl. rewrite (alter_is _ _ _ _ Hp). erewrite alter_is by apply lookup_insert_eq. apply insert_insert_eq.
  - unfold step_restored in *. destruct (_ ≫= _); [|done]. eapply moved_turn; [exact Hm|done|by apply migr_alter|simpl; by rewrite (alter_is _ _ _ _ Hp)|done|]. intros. by apply lands_release.
  - eapply moved_calm; [exact Hm|done|by rewrite Hd|]. destruct (t_frames x); [|apply calm_release; auto with near]. auto with near.
Qed.
End Migrate.

(** * Every history of the scheduler

    The invariant holds when all CPUs have been initialised and every step keeps it, so no
    assertion of the scheduler fails. *)

Section History.
Context {Q : Type} `{BaseSchedulerLaws Q} (MAX_CPU_NUM cpu_num : Z).
Implicit Types (T : gmap Z TaskInner) (C : gmap Z cpu) (R : gmap Z Q) (W : gmap Z AxWaker).
#[local] Notation ok := (ok cpu_num).
#[local] Notation okm := (okm cpu_num).
#[local] Notation good := (good cpu_num).

(** ** The code of tasks and migration *)

Lemma near_put s s1 c p i f k :
  near c p s s1 -> tasks s1 !! i = Some k -> (forall mask, t_code (f k) <> CMigrated mask) -> near c p s (upd_task (Q := Q) i f s1).
Proof. intros (Hk & Hr & Hc) Hi Hf. split_and!; [|done..]. eapply migr_trans; [exact Hk|]. simpl. rewrite (alter_is _ _ _ _ Hi). by apply migr_insert. Qed.

Lemma near_drop s s1 c p i : near c p s s1 -> near c p s (set_tasks (Q := Q) (delete i (tasks s1)) s1).
Proof. intros (Hk & Hr & Hc). split_and!; [|done..]. eapply migr_trans; [exact Hk|]. apply keeps_delete. Qed.

Lemma near_waker s s1 c p w : near c p s s1 -> near c p s (fresh_waker (Q := Q) w s1).
Proof. done. Qed.

Lemma near_log s s1 c p x : near c p s s1 -> near c p s (log_join (Q := Q) x s1).
Proof. done. Qed.

Lemma calm_task s s1 c p i f :
  calm c p s s1 -> (forall k mask, t_code (f k) = CMigrated mask -> t_code k = CMigrated mask /\ cpumask (f k) = cpumask k) -> calm c p s (upd_task (Q := Q) i f s1).
Proof. intros [Hn Hq] Hf. split; [by apply near_task|done]. Qed.

#[local] Hint Resolve near_refl near_wakers near_index near_drop near_waker near_log : near.
#[local] Hint Extern 2 (near _ _ _ (upd_task _ _ _)) => (apply near_task; [|by intros ? ? ?]) : near.
#[local] Hint Extern 2 (near _ _ _ (upd_cpu _ _ _)) => (apply near_cpu; [|done]) : near.
#[local] Hint Extern 2 (calm _ _ _ (goto _ _ _)) => (apply calm_goto; [|done]) : near.

Lemma calm_yield s s1 s' c p cur : near c p s s1 -> yield_now (Q := Q) c cur s1 = Some s' -> halted s' = None -> calm c p s s'.
Proof. intros Hn Hy Hh. unfold yield_now in Hy. apply bind_Some in Hy as (k & Hk & Hy). destruct (is_running k); simplify_eq; auto 10 with near. Qed.

(** A step at the end of which the CPU is still in the code of its task. *)
Lemma moved_stay s s' c p : movedm s -> cpus s !! c = Some p -> doing p = PThread -> near c p s s' -> (forall p', cpus s' !! c = Some p' -> doing p' = PThread) -> movedm (Q := Q) s'.
Proof. intros Hm Hp Hd Hn Hq. eapply moved_calm; [exact Hm|done|by rewrite Hd|]. apply calm_stay; [done|]. intros p' Hp'. by rewrite (Hq _ Hp'). Qed.

Lemma moved_affinity s c p k mask :
  okm s -> movedm s -> cpus s !! c = Some p -> doing p = PThread -> tasks s !! current p = Some k -> t_code k = CTask ->
  halted (set_current_affinity cpu_num c (current p) mask k s) = None -> movedm (set_current_affinity cpu_num c (current p) mask k s).
Proof.
  intros Hok Hm Hp Hd Hk Hc. unfold set_current_affinity. destruct (mask_is_empty mask); [done|]. destruct (mask_get mask c).
  { intros _. eapply moved_stay; [exact Hm|done..| |by simpl; intros; simplify_eq]. eapply near_put; [auto 10 with near|done|]. simpl. by rewrite Hc. }
  destruct (is_running k); [|done]. intros _. pose proof (o_core _ _ _ _ _ _ Hok) as Hco. pose proof (cur_running _ _ _ _ _ _ Hco Hp ltac:(by rewrite Hd) Hk) as Hrun.
  unfold movedm. simpl. rewrite (alter_is _ _ _ _ Hp), (alter_is _ _ _ _ Hk). erewrite alter_is by apply lookup_insert_eq. rewrite insert_insert_eq. set (p' := set_doing _ p).
  assert (Hold : forall t x m, <[next_id s := new_common false false (cpu_mask_full cpu_num) (CMigrate (current p))]> (<[current p := acquire (set_code (CMigrated mask) (set_cpumask mask k))]> (tasks s)) !! t = Some x ->
    t_code x = CMigrated m -> (t = current p /\ m = mask /\ cpumask x = m) \/ (t <> current p /\ tasks s !! t = Some x)).
  { intros t x m [[<- <-]|[? [[<- <-]|[? ?]]%lookup_insert_Some]]%lookup_insert_Some Hx; simplify_eq/=; auto. }
  assert (Hno : forall t, t = current p -> (forall q b, run_queues s !! q = Some b -> t ∉ owned b) /\ forall c0 q, cpus s !! c0 = Some q -> t ∉ cpu_toks q /\ t <> idle_task q).
  { intros t ->. split.
    - intros q b Hb Hin. destruct (token_queue _ _ _ _ _ _ Hco Hb Hin) as (x & Hx & _ & ?). congruence.
    - intros c0 q Hq. split; [intros Hin; destruct (token_hand _ _ _ _ _ _ Hco Hq Hin) as [(x & Hx & _ & ?) _]; congruence|].
      intros He. destruct (c_idle _ _ _ Hco _ _ Hq) as [(x & Hx & Hi & _) _]. rewrite <- He in Hx. simplify_eq. apply (c_named _ _ _ Hco _ _ Hk) in Hi. congruence. }
  split.
  - intros t x m Hx Hxc. destruct (Hold _ _ _ Hx Hxc) as [(_ & _ & ?)|[_ Ht]]; [done|]. by eapply (m_mask _ _ _ Hm).
  - intros t x m c0 q Hx Hxc Hq. destruct (Hold _ _ _ Hx Hxc) as [(-> & -> & _)|[Hne Ht]].
    + apply lookup_insert_Some in Hq as [[<- <-]|[Hcne Hq]].
      * split; [|done]. intros _. right. exists (next_id s). left. split; [done|by left].
      * split; [intros Hin; destruct Hcne; eapply (c_uniq _ _ _ Hco); [exact Hp|exact Hq|apply current_seat|done]|].
        destruct (proj2 (Hno _ eq_refl) _ _ Hq) as [Htk Hid]. unfold cpu_toks in Htk. unfold hand_lands. destruct (doing q) as [|? []| | | | | | | | | | | | | | | | | | | | | | | |]; simpl in *; try done;
          try case_decide; try (intros ->); try congruence; destruct Htk; by left.
    + apply lookup_insert_Some in Hq as [[<- <-]|[Hcne Hq]]; [|by eapply (m_cpu _ _ _ Hm)]. split; [|done]. by intros ->%list_elem_of_singleton.
  - intros t x m q b Hx Hxc Hb Hin. destruct (Hold _ _ _ Hx Hxc) as [(-> & -> & _)|[Hne Ht]]; [by destruct (proj1 (Hno _ eq_refl) _ _ Hb)|]. by eapply (m_queue _ _ _ Hm).
Qed.

Lemma moved_thread s s' c p k e :
  okm s -> movedm s -> cpus s !! c = Some p -> doing p = PThread -> tasks s !! current p = Some k -> step_thread cpu_num c p k e s = Some s' -> halted s' = None -> movedm s'.
Proof.
  intros Hok Hm Hp Hd Hk Hs Hh. assert (Hstay : forall s1, near c p s s1 -> cpus s1 = cpus s -> movedm s1).
  { intros s1 Hn Hc. eapply moved_stay; [exact Hm|done..|]. rewrite Hc. by intros; simplify_eq. }
  assert (Hcalm : calm c p s s' -> movedm s') by (intros ?; eapply moved_calm; [exact Hm|done|by rewrite Hd|done]).
  destruct e; simpl in Hs; try done.
  - apply Hcalm. unfold timer_tick in Hs. apply bind_Some in Hs as (q & Hq & Hs). pose proof (owned_tick (current p) q) as Ht.
    destruct (is_idle k), (task_tick (current p) q) as [[] q']; simplify_eq/=; apply calm_goto; try done; (apply near_task; [eapply near_queue; [by apply near_refl|done|done]|by intros ? ? ?]).
  - case_bool_decide; simplify_eq. apply Hcalm, calm_wake; auto 10 with near.
  - simplify_eq. apply Hstay; auto 10 with near.
  - case_match; simplify_eq. apply Hcalm, calm_enable; auto 10 with near.
  - case_match; [|done]. apply Hcalm. eapply calm_yield; [|eassumption|done]; auto 10 with near.
  - case_match; simplify_eq. eapply moved_goto; [exact Hm|done|by rewrite Hd|done| |done..|].
    + simpl. eapply migr_trans; [|by apply migr_insert]. by apply migr_alter.
    + intros t x mask Ht _ _ _. simpl. apply (f_task _ _ _ (o_fresh _ _ _ _ _ _ Hok)) in Ht. lia.
  - case_match; simplify_eq. apply Hstay; [|done]. unfold block_on. auto 10 with near.
  - repeat case_match; simplify_eq; (apply Hstay; [|done]); auto 10 with near.
  - repeat case_match; simplify_eq. apply Hstay; [|done]. unfold block_on. auto 10 with near.
  - case_match; simplify_eq. apply Hcalm. unfold exit_current in *. repeat case_match; try done. auto 10 with near.
  - case_match; simplify_eq. by apply moved_affinity.
  - case_match; [|done]. apply bind_Some in Hs as (q & Hq & [= <-]). apply Hcalm, calm_goto; [|done]. apply near_task; [|by intros ? ? ?]. eapply near_queue; [auto 10 with near|done|apply owned_priority].
  - apply bind_Some in Hs as (kt & Hkt & Hs). case_match; simplify_eq. apply Hstay; auto 10 with near.
  - apply bind_Some in Hs as (kt & Hkt & Hs). case_match; simplify_eq. apply Hstay; auto 10 with near.
Qed.

Lemma phase_cases ph : ph = BLoop \/ ph = BCheck \/ (ph <> BLoop /\ ph <> BCheck).
Proof. destruct ph; auto. Qed.

Lemma moved_code s s' c p :
  okm s -> movedm s -> cpus s !! c = Some p -> doing p = PThread -> step_code c p s = Some s' -> halted s' = None -> movedm s'.
Proof.
  intros Hok Hm Hp Hd Hs Hh. assert (Hstay : forall s1, near c p s s1 -> (forall p', cpus s1 !! c = Some p' -> doing p' = PThread) -> movedm s1) by (by intros; eapply moved_stay).
  assert (Hcalm : calm c p s s' -> movedm s') by (intros ?; eapply moved_calm; [exact Hm|done|by rewrite Hd|done]).
  assert (Hsame : forall p', cpus s !! c = Some p' -> doing p' = PThread) by (intros; by simplify_eq).
  assert (Halt : forall f, (forall q, doing (f q) = doing q) -> forall p', alter f c (cpus s) !! c = Some p' -> doing p' = PThread).
  { intros f Hf p'. rewrite lookup_alter_eq, Hp. simpl. intros [= <-]. by rewrite Hf. }
  assert (exists k, tasks s !! current p = Some k) as [k Hk] by (unfold step_code in Hs; apply bind_Some in Hs as (k & ? & _); eauto).
  destruct (t_code k) as [|t| |mask|w f ph|] eqn:Hc; [..|rewrite (step_block _ _ _ _ _ _ _ Hk Hc) in Hs|]; try (unfold step_code in Hs; rewrite Hk in Hs; simpl in Hs; rewrite Hc in Hs); try done.
  - apply Hcalm. eapply calm_yield; [|eassumption|done]; auto 10 with near.
  - apply bind_Some in Hs as (kt & Hkt & [= <-]). eapply moved_goto; [exact Hm|done|by rewrite Hd|done|by apply migr_alter|done..|].
    intros u ku mask Hu _ <- _ <-. by simplify_eq.
  - injection Hs as <-. apply Hstay; [|done]. unfold block_on. auto 10 with near.
  - destruct (mask_get mask c); simplify_eq; try done. apply Hstay; [|done]. auto 10 with near.
  - destruct (phase_cases ph) as [->|[->|[Hp1 Hp2]]]; [..|destruct f as [|t|]].
    + apply bind_Some in Hs as (wk & Hw & Hs). case_match; simplify_eq. apply Hstay; [|done]. auto 10 with near.
    + unfold step_check in Hs. apply bind_Some in Hs as (wk & Hw & Hs). case_match; [done|]. case_match.
      * apply Hcalm. eapply calm_yield; [|eassumption|done]; auto 10 with near.
      * apply bind_Some in Hs as (k1 & Hk1 & Hs). case_match; simplify_eq; try done. apply Hcalm. auto 10 with near.
    + by destruct ph.
    + assert (step_join (current p) w t ph s = Some s') as Hj by (by destruct ph). unfold step_join in Hj. apply bind_Some in Hj as (kt & Hkt & Hj).
      destruct ph; try done; injection Hj as <-; (apply Hstay; [|done]); auto 10 with near.
    + assert (step_gc c (current p) w p ph s = Some s') as Hg by (by destruct ph). unfold step_gc in Hg.
      destruct ph as [| | | |[|]| | |]; simplify_eq/=; try done; repeat (case_match; simplify_eq/=); try (apply Hstay; [|first [exact Hsame|by apply Halt]]; auto 10 with near).
      { apply (near_drop _ (upd_task (current p) (set_code (CBlock w FGc (BGc n))) s)). auto 10 with near. }
      apply Hcalm. eapply calm_yield; [|eassumption|done]; auto 10 with near.
Qed.
(** ** Every step *)

(** What the callers owe: no task but an idle one is named [idle], a mask of affinity has no CPU
    that does not exist, and a task that holds a guard against preemption does not block. *)
Definition legal (e : event) (s : machine (Q := Q)) : bool :=
  match e with
  | ESpawn _ named_idle => negb named_idle
  | ESetAffinity _ mask => (0 <=? mask) && (mask <? 2 ^ cpu_num)
  | ECode c =>
    match cpus s !! c ≫= fun p => tasks s !! current p with
    | Some k => match t_code k with CBlock _ _ BCheck => (preempt_disable_count k =? 0)%nat | _ => true end
    | None => true
    end
  | _ => true
  end.

Definition inv (s : machine (Q := Q)) : Prop := halted s = Some Off \/ (halted s = None /\ okm s /\ movedm s).

Lemma step_good s s' e :
  0 < MAX_CPU_NUM -> 0 < cpu_num -> okm s -> movedm s -> legal e s = true -> step MAX_CPU_NUM cpu_num e s = Some s' -> good s'.
Proof.
  intros HM Hn Hok Hm Hl Hs. unfold step in Hs. destruct (halted s) eqn:Hh; [done|]. apply bind_Some in Hs as (p & Hp & Hs).
  assert (Hth : in_thread (doing p) = true -> doing p = PThread) by (by destruct (doing p)).
  destruct e; simpl in Hp; try by eapply (step_cpu_good MAX_CPU_NUM).
  all: destruct (in_thread (doing p)); [|done]; specialize (Hth eq_refl).
  all: try (apply bind_Some in Hs as (k & Hk & Hs); eapply thread_good; try done; intros ? ? [= -> ->]; simpl in Hl; unfold mask_ok; try (by apply negb_true_iff in Hl); bool_hyps; lia).
  assert (exists k, tasks s !! current p = Some k) as [k Hk] by (unfold step_code in Hs; apply bind_Some in Hs as (k & ? & _); eauto).
  eapply code_good; try done.
  - intros w f Hc. simpl in Hl. rewrite Hp in Hl. simpl in Hl. rewrite Hk, Hc in Hl. by apply Nat.eqb_eq.
  - intros mask Hc. destruct (m_cpu _ _ _ Hm _ _ _ _ _ Hk Hc Hp) as [Hland _]. destruct (Hland (current_seat p)) as [?|[m Hho]]; [done|]. by destruct (not_over _ _ _ Hth Hho).
Qed.

Lemma step_moved s s' e :
  okm s -> movedm s -> step MAX_CPU_NUM cpu_num e s = Some s' -> halted s' = None -> movedm s'.
Proof.
  intros Hok Hm Hs Hh'. unfold step in Hs. destruct (halted s) eqn:Hh; [done|]. apply bind_Some in Hs as (p & Hp & Hs).
  assert (Hth : in_thread (doing p) = true -> doing p = PThread) by (by destruct (doing p)).
  destruct e; simpl in Hp; try by eapply (moved_cpu MAX_CPU_NUM).
  all: destruct (in_thread (doing p)); [|done]; specialize (Hth eq_refl).
  all: try (apply bind_Some in Hs as (k & Hk & Hs); by eapply moved_thread). by eapply moved_code.
Qed.

Lemma step_inv s s' e :
  0 < MAX_CPU_NUM -> 0 < cpu_num -> inv s -> legal e s = true -> step MAX_CPU_NUM cpu_num e s = Some s' -> inv s'.
Proof.
  intros HM Hn [Hh|(Hh & Hok & Hm)] Hl Hs; [unfold step in Hs; by rewrite Hh in Hs|].
  destruct (step_good _ _ _ HM Hn Hok Hm Hl Hs) as [?|[Hh' Hok']]; [by left|]. right. split_and!; [done..|]. by eapply (step_moved s).
Qed.

(** A sequence of events the callers may cause. *)
Inductive steps : machine (Q := Q) -> machine (Q := Q) -> Prop :=
| steps_refl s : steps s s
| steps_step s s1 s' e : steps s s1 -> legal e s1 = true -> step MAX_CPU_NUM cpu_num e s1 = Some s' -> steps s s'.

Lemma steps_inv s s' : 0 < MAX_CPU_NUM -> 0 < cpu_num -> inv s -> steps s s' -> inv s'.
Proof. intros HM Hn Hi Hs. revert Hi. induction Hs; [done|]. intros Hi. eapply (step_inv s1); eauto. Qed.
(** ** Initialisation *)

Record booting (n : Z) (s : machine (Q := Q)) : Prop := {
  b_core : core (tasks s) (cpus s) (run_queues s);
  b_tasks : forall t k, tasks s !! t = Some k -> mask_ok cpu_num (cpumask k) /\ t_frames k = 0%nat /\ (t_code k = CIdle \/ t_code k = CGc \/ t_code k = CTask) /\ t < next_id s;
  b_cpus : forall c p, cpus s !! c = Some p -> doing p = PThread /\ c < n;
  b_all : forall i, 0 <= i < n -> is_Some (run_queues s !! i);
  b_halted : halted s = None /\ wakers s = ∅;
}.

Lemma one_shot_ok c : 0 <= c < cpu_num -> mask_ok cpu_num (one_shot c).
Proof.
  intros Hc. unfold mask_ok, one_shot. rewrite Z.shiftl_1_l. split; [apply Z.pow_pos_nonneg; lia|]. apply Z.pow_lt_mono_r; lia.
Qed.

Lemma boot_cpu n s i km :
  booting n s -> 0 <= n < cpu_num -> state km = Running -> on_cpu km = true -> (is_idle km = true <-> t_code km = CIdle) -> t_code km = CIdle \/ t_code km = CTask ->
  mask_ok cpu_num (cpumask km) -> t_frames km = 0%nat ->
  (i = next_id s /\ is_idle km = true) \/ (i < next_id s /\ is_idle km = false /\ (exists ki, tasks s !! i = Some ki /\ is_idle ki = true /\ state ki = Ready) /\ unseated i (cpus s) /\
     forall c0 q, cpus s !! c0 = Some q -> idle_task q <> i) ->
  booting (n + 1) (new_run_queue n (next_id s) i (fresh_task km s)).
Proof.
  intros [Hco Ht Hc Ha [Hh Hw]] Hn H1 H2 H3 H4 H5 H6 Hi.
  assert (Hfree : forall j, next_id s <= j -> tasks s !! j = None) by (intros j Hj; destruct (tasks s !! j) eqn:E; [apply Ht in E; lia|done]).
  split; simpl; [..|done].
  - apply core_boot; try done; [|apply Hfree; lia|apply Hfree; lia|lia|rewrite owned_add; by rewrite owned_new|destruct Hi as [?|(? & ?)]; [by left|right; split; [lia|done]]].
    destruct (cpus s !! n) eqn:E; [|done]. apply Hc in E. lia.
  - intros t k [[<- <-]|[_ [[<- <-]|[_ Hk]]%lookup_insert_Some]]%lookup_insert_Some; simpl.
    + split_and!; [apply one_shot_ok; lia|done|auto|lia].
    + split_and!; [done..| |lia]. destruct H4; auto.
    + destruct (Ht _ _ Hk) as (? & ? & ? & ?). split_and!; [done..|lia].
  - intros c p [[<- <-]|[_ Hp]]%lookup_insert_Some; [split; [done|lia]|]. destruct (Hc _ _ Hp). split; [done|lia].
  - intros j Hj. rewrite lookup_insert_is_Some. destruct (decide (n = j)); [by left|right; split; [done|]]. apply Ha. lia.
Qed.

Lemma init_boots : 0 < cpu_num -> booting 1 (init (Q := Q) cpu_num 0 (mk_machine ∅ ∅ ∅ ∅ 0 1 None [])).
Proof.
  intros Hn. apply (boot_cpu 0 (fresh_task (new_common true false (one_shot 0) CIdle) (mk_machine ∅ ∅ ∅ ∅ 0 1 None []))); try done; [|by right|by apply full_ok|].
  - split; simpl; [|..|done].
    + apply core_add_idle; try done. apply core_empty.
    + intros t k [[<- <-]|[_ ?%lookup_empty_Some]]%lookup_insert_Some; [|done]. split_and!; [apply one_shot_ok; lia|done|auto|done].
    + by intros c p ?%lookup_empty_Some.
    + intros i Hi. lia.
  - right. simpl. split_and!; [done..| | |]; [eexists; split; [apply lookup_insert_eq|done]|by intros c p ?%lookup_empty_Some|by intros c p ?%lookup_empty_Some].
Qed.

Lemma secondaries_boot s k n : booting (Z.of_nat k) s -> (1 <= k)%nat -> Z.of_nat (k + n) <= cpu_num ->
  booting (Z.of_nat (k + n)) (foldl (fun s n => init_secondary cpu_num (Z.of_nat n) s) s (seq k n)).
Proof.
  revert s k. induction n as [|n IH]; intros s k Hb Hk Hn; simpl; [by rewrite Nat.add_0_r|]. replace (k + S n)%nat with (S k + n)%nat by lia.
  apply IH; [|lia|lia]. replace (Z.of_nat (S k)) with (Z.of_nat k + 1) by lia. apply boot_cpu; try done; [lia|by left|apply full_ok; lia|by left].
Qed.

Lemma booted_inv : 0 < cpu_num -> inv (booted cpu_num).
Proof.
  intros Hn. pose proof (secondaries_boot _ 1 (Z.to_nat cpu_num - 1) (init_boots Hn) ltac:(lia) ltac:(lia)) as Hb. fold (booted (Q := Q) cpu_num) in Hb.
  destruct Hb as [Hco Ht Hc Ha [Hh Hw]]. right. split_and!; [done|split|].
  - done.
  - split; [intros t k Hk; destruct (Ht _ _ Hk) as (_ & -> & _); lia|]. intros c p k Hp Hk. destruct (Hc _ _ Hp) as [-> _]. destruct (Ht _ _ Hk) as (_ & -> & _). simpl. lia.
  - rewrite Hw. split.
    + intros t k w f ph Hk Hcode. destruct (Ht _ _ Hk) as (_ & _ & ? & _). naive_solver congruence.
    + intros c p w Hp. destruct (Hc _ _ Hp) as [-> _]. done.
    + by intros w wk ?%lookup_empty_Some.
    + intros c p w t Hp. destruct (Hc _ _ Hp) as [-> _]. done.
    + by intros t k w f wk _ _ _ ?%lookup_empty_Some.
  - split; [intros t k Hk; by apply (Ht _ _ Hk)|intros c p Hp; by destruct (Hc _ _ Hp) as [-> _]|]. intros i Hi. apply Ha. lia.
  - rewrite Hw. split; [intros t k Hk; by apply (Ht _ _ Hk)|by intros w wk ?%lookup_empty_Some].
  - assert (forall t k mask, tasks (booted (Q := Q) cpu_num) !! t = Some k -> t_code k <> CMigrated mask) as Hno.
    { intros t k mask Hk Hcode. destruct (Ht _ _ Hk) as (_ & _ & ? & _). naive_solver congruence. }
    split; intros; exfalso; by eapply Hno.
Qed.
End History.
