(* ===== verification/SchedSafety.v ===== *)
(** * No CPU waits in vain

    A CPU waits in the scheduler for another one in two places: for the lock of a waker's flag, and
    for the stack of the task it wakes up.  The other CPU is then on its way out of the task that
    blocks, and no step of that way waits.

    The second part has the theorems about the scheduler, the third runs that show that they apply
    and what is not promised. *)

From S2P Require Import Prelude Sched SchedSpec SchedMoves SchedProof SchedThread SchedHistory.

(** Places after an exiting task has been put on the list. *)
Definition after_gone (k : after_wake) : bool := match k with KResched => true | _ => false end.
Definition pc_gone (p : pc) : bool :=
  match p with
  | PSelect _ (SWake _ _ k) | PWoke _ _ _ k | PUnblock _ _ k | PSpin _ _ k | PPut _ _ k | PWoken k => after_gone k
  | PExitGc => true
  | _ => false
  end.

Section Live.
Context {Q : Type} `{BaseSchedulerLaws Q} (MAX_CPU_NUM cpu_num : Z).
Implicit Types (T : gmap Z TaskInner) (C : gmap Z cpu) (R : gmap Z Q) (W : gmap Z AxWaker).
#[local] Notation okm := (okm cpu_num).

Definition gone C : Prop := forall c p, C !! c = Some p -> pc_gone (doing p) = true -> current p ∈ exited_tasks p.

(** Only the CPU that steps changes, and it keeps what [gone] says. *)
Definition leads (c : Z) (p : cpu) C' C : Prop :=
  exists p', C' = <[c := p']> C /\ (pc_gone (doing p') = true -> current p' ∈ exited_tasks p').

Lemma gone_step C C' c p : gone C -> C !! c = Some p -> leads c p C' C -> gone C'.
Proof. intros Hg Hp (p' & -> & Hl) c0 q [[<- <-]|[? Hq]]%lookup_insert_Some; [done|]. exact (Hg _ _ Hq). Qed.

Lemma leads_goto (s s1 : machine (Q := Q)) c p x :
  cpus s !! c = Some p -> cpus s1 = cpus s -> (pc_gone x = true -> current p ∈ exited_tasks p) -> leads c p (cpus (goto c x s1)) (cpus s).
Proof. intros Hp Hc Hx. exists (set_doing x p). simpl. rewrite Hc. by rewrite (alter_is _ _ _ _ Hp). Qed.

Lemma leads_same (s s1 : machine (Q := Q)) c p :
  cpus s !! c = Some p -> cpus s1 = cpus s -> (pc_gone (doing p) = true -> current p ∈ exited_tasks p) -> leads c p (cpus s1) (cpus s).
Proof. intros Hp Hc Hx. exists p. by rewrite insert_id, Hc. Qed.

Lemma leads_enable (s s1 : machine (Q := Q)) c p cur next :
  cpus s !! c = Some p -> cpus s1 = cpus s -> (pc_gone next = true -> current p ∈ exited_tasks p) -> is_Some (tasks s1 !! cur) -> halted (enable_preempt c cur next s1) = None ->
  leads c p (cpus (enable_preempt c cur next s1)) (cpus s).
Proof.
  intros Hp Hc Hx [k Hk]. unfold enable_preempt. rewrite Hk. repeat case_match; try done; intros _; by eapply leads_goto.
Qed.

Lemma leads_release (s s1 : machine (Q := Q)) c p cur next :
  cpus s !! c = Some p -> cpus s1 = cpus s -> (pc_gone next = true -> current p ∈ exited_tasks p) -> is_Some (tasks s1 !! cur) -> halted (release c cur next s1) = None ->
  leads c p (cpus (release c cur next s1)) (cpus s).
Proof. intros Hp Hc Hx [k Hk]. apply leads_enable; try done. simpl. rewrite lookup_alter_eq, Hk. by eexists. Qed.

Lemma leads_wake (s s1 : machine (Q := Q)) c p cur w k next :
  cpus s !! c = Some p -> cpus s1 = cpus s -> (pc_gone next = true \/ after_gone k = true -> current p ∈ exited_tasks p) -> leads c p (cpus (wake_by_ref c cur w k next s1)) (cpus s).
Proof. intros Hp Hc Hx. unfold wake_by_ref. repeat case_match; eapply leads_goto; try done; simpl; auto. Qed.

Lemma leads_wake_gc (s s1 : machine (Q := Q)) c p p1 cur w k next :
  cpus s !! c = Some p -> cpus s1 = <[c := p1]> (cpus s) -> current p1 ∈ exited_tasks p1 -> leads c p (cpus (wake_by_ref c cur w k next s1)) (cpus s).
Proof.
  intros Hp Hc Hx. unfold wake_by_ref. repeat case_match; eexists; simpl; rewrite Hc; (erewrite alter_is by apply lookup_insert_eq); rewrite insert_insert_eq; by split.
Qed.

Lemma gone_cpu s s' c p : okm s -> gone (cpus s) -> cpus s !! c = Some p -> step_cpu MAX_CPU_NUM c p s = Some s' -> halted s' = None -> gone (cpus s').
Proof.
  intros Hok Hg Hp Hs Hh. pose proof (cur_alive _ _ _ _ _ (o_core _ _ _ _ _ _ Hok) Hp) as Hcur. pose proof (Hg _ _ Hp) as Hgp. eapply gone_step; [done..|]. unfold step_cpu in Hs.
  destruct (doing p) eqn:Hd; try (apply bind_Some in Hs as (x & Hx & Hs)); try done; try (injection Hs as <-).
  - unfold step_select in *. repeat case_match; try done; try (by eapply leads_goto); eapply leads_same; by rewrite ?Hd.
  - destruct (is_ready x); [|done]. by eapply leads_goto.
  - by eapply leads_goto.
  - destruct (w_locked x); [done|]. injection Hs as <-. by eapply leads_goto.
  - unfold end_wake. repeat case_match; by eapply leads_goto.
  - destruct (on_cpu x); [done|]. injection Hs as <-. by eapply leads_goto.
  - unfold step_put, end_wake. destruct k; by eapply leads_goto.
  - apply leads_release; try done. by destruct k.
  - repeat case_match; simplify_eq; by eapply leads_goto.
  - by eapply leads_goto.
  - by eapply leads_goto.
  - by apply leads_enable.
  - by eapply leads_goto.
  - by eapply leads_goto.
  - destruct (wait_for_exit x); [by apply leads_wake; [..|intros []]|by eapply leads_goto].
  - eexists. simpl. rewrite (alter_is _ _ _ _ Hp). erewrite alter_is by apply lookup_insert_eq. rewrite insert_insert_eq. split; [done|]. intros _. simpl. set_solver.
  - destruct (wait_gc p); [eapply leads_wake_gc; [done|simpl; by rewrite (alter_is _ _ _ _ Hp)|by apply Hgp]|].
    eexists. simpl. rewrite (alter_is _ _ _ _ Hp). erewrite alter_is by apply lookup_insert_eq. by rewrite insert_insert_eq.
  - by eapply leads_goto.
  - destruct (pick_next_task x). injection Hs as <-. by eapply leads_goto.
  - destruct (is_ready x); [|done]. by eapply leads_goto.
  - eapply leads_goto; try done. by case_bool_decide.
  - by eapply leads_goto.
  - unfold step_save in *. destruct (_ && _); [|done]. eexists. simpl. rewrite (alter_is _ _ _ _ Hp). erewrite alter_is by apply lookup_insert_eq. by rewrite insert_insert_eq.
  - unfold step_restored in *. destruct (_ ≫= _); [|done]. by eapply leads_goto.
  - destruct (t_frames x); [by eapply leads_goto|by apply leads_release].
Qed.
Lemma leads_cpu (s s1 : machine (Q := Q)) c p f :
  cpus s !! c = Some p -> cpus s1 = alter f c (cpus s) -> pc_gone (doing (f p)) = false -> leads c p (cpus s1) (cpus s).
Proof. intros Hp Hc Hx. exists (f p). rewrite Hc, (alter_is _ _ _ _ Hp), Hx. done. Qed.

Lemma leads_yield (s s1 s' : machine (Q := Q)) c p cur :
  cpus s !! c = Some p -> cpus s1 = cpus s -> yield_now c cur s1 = Some s' -> halted s' = None -> leads c p (cpus s') (cpus s).
Proof. intros Hp Hc Hs Hh. unfold yield_now in Hs. apply bind_Some in Hs as (k & _ & Hs). case_match; simplify_eq. by eapply leads_goto. Qed.

Lemma gone_thread (s s' : machine (Q := Q)) c p k e :
  gone (cpus s) -> cpus s !! c = Some p -> doing p = PThread -> tasks s !! current p = Some k -> step_thread cpu_num c p k e s = Some s' -> halted s' = None -> gone (cpus s').
Proof.
  intros Hg Hp Hd Hk Hs Hh. eapply gone_step; [done..|].
  assert (Hsame : forall s1 : machine (Q := Q), cpus s1 = cpus s -> leads c p (cpus s1) (cpus s)) by (intros; eapply leads_same; by rewrite ?Hd).
  destruct e; simpl in Hs; try done.
  - unfold timer_tick in Hs. apply bind_Some in Hs as (q & Hq & Hs). destruct (if is_idle k then _ else _). simplify_eq. by eapply leads_goto.
  - case_match; simplify_eq. apply leads_wake; [done..|]. by intros [].
  - simplify_eq. by apply Hsame.
  - case_match; simplify_eq. by apply leads_enable.
  - case_match; [|done]. by eapply leads_yield.
  - case_match; simplify_eq. by eapply leads_goto.
  - repeat case_match; simplify_eq; by apply Hsame.
  - repeat case_match; simplify_eq; by apply Hsame.
  - repeat case_match; simplify_eq; by apply Hsame.
  - case_match; simplify_eq. unfold exit_current in *. repeat case_match; try done. by eapply leads_goto.
  - case_match; simplify_eq. unfold set_current_affinity in *. repeat case_match; try done; first [by apply Hsame|by eapply leads_goto].
  - case_match; [|done]. apply bind_Some in Hs as (q & Hq & [= <-]). by eapply leads_goto.
  - apply bind_Some in Hs as (kt & Hkt & Hs). case_match; simplify_eq. by apply Hsame.
  - apply bind_Some in Hs as (kt & Hkt & Hs). case_match; simplify_eq. by apply Hsame.
Qed.

Lemma gone_code (s s' : machine (Q := Q)) c p :
  gone (cpus s) -> cpus s !! c = Some p -> doing p = PThread -> step_code c p s = Some s' -> halted s' = None -> gone (cpus s').
Proof.
  intros Hg Hp Hd Hs Hh. eapply gone_step; [done..|].
  assert (Hsame : forall s1 : machine (Q := Q), cpus s1 = cpus s -> leads c p (cpus s1) (cpus s)) by (intros; eapply leads_same; by rewrite ?Hd).
  assert (Hcpu : forall f, doing (f p) = doing p -> leads c p (alter f c (cpus s)) (cpus s)) by (intros f E; eapply (leads_cpu s (upd_cpu c f s)); [done..|by rewrite E, Hd]).
  assert (exists k, tasks s !! current p = Some k) as [k Hk] by (unfold step_code in Hs; apply bind_Some in Hs as (k & ? & _); eauto).
  destruct (t_code k) as [|t| |mask|w f ph|] eqn:Hc; [..|rewrite (step_block _ _ _ _ _ _ _ Hk Hc) in Hs|]; try (unfold step_code in Hs; rewrite Hk in Hs; simpl in Hs; rewrite Hc in Hs); try done.
  - by eapply leads_yield.
  - apply bind_Some in Hs as (kt & Hkt & [= <-]). by eapply leads_goto.
  - simplify_eq. by apply Hsame.
  - case_match; simplify_eq. by apply Hsame.
  - destruct (phase_cases ph) as [->|[->|[Hp1 Hp2]]]; [..|destruct f as [|t|]].
    + apply bind_Some in Hs as (wk & Hw & Hs). case_match; simplify_eq. by apply Hsame.
    + unfold step_check in Hs. apply bind_Some in Hs as (wk & Hw & Hs). case_match; [done|]. case_match.
      * eapply leads_yield; [done| |eassumption|done]. done.
      * apply bind_Some in Hs as (k1 & Hk1 & Hs). case_match; simplify_eq. by eapply leads_goto.
    + by destruct ph.
    + assert (step_join (current p) w t ph s = Some s') as Hj by (by destruct ph). unfold step_join in Hj. apply bind_Some in Hj as (kt & Hkt & Hj).
      destruct ph; simplify_eq; by apply Hsame.
    + assert (step_gc c (current p) w p ph s = Some s') as Hgc by (by destruct ph). unfold step_gc in Hgc.
      destruct ph as [| | | |[|]| | |]; simplify_eq/=; repeat (case_match; simplify_eq/=); try (by apply Hsame); try (by apply Hcpu).
      eapply leads_yield; [done| |eassumption|done]. done.
Qed.

Lemma step_gone s s' e : okm s -> gone (cpus s) -> step MAX_CPU_NUM cpu_num e s = Some s' -> halted s' = None -> gone (cpus s').
Proof.
  intros Hok Hg Hs Hh'. unfold step in Hs. destruct (halted s) eqn:Hh; [done|]. apply bind_Some in Hs as (p & Hp & Hs).
  assert (Hth : in_thread (doing p) = true -> doing p = PThread) by (by destruct (doing p)).
  destruct e; simpl in Hp; try by eapply gone_cpu.
  all: destruct (in_thread (doing p)); [|done]; specialize (Hth eq_refl).
  all: try (apply bind_Some in Hs as (k & Hk & Hs); by eapply gone_thread). by eapply gone_code.
Qed.

Lemma booted_gone : 0 < cpu_num -> gone (cpus (booted (Q := Q) cpu_num)).
Proof.
  intros Hn c p Hp. pose proof (secondaries_boot cpu_num _ 1 (Z.to_nat cpu_num - 1) (init_boots cpu_num Hn) ltac:(lia) ltac:(lia)) as Hb. fold (booted (Q := Q) cpu_num) in Hb.
  by rewrite (proj1 (b_cpus _ _ _ Hb _ _ Hp)).
Qed.

Lemma reachable_good s :
  0 < MAX_CPU_NUM -> 0 < cpu_num -> steps MAX_CPU_NUM cpu_num (booted cpu_num) s -> halted s = Some Off \/ (halted s = None /\ okm s /\ movedm s /\ gone (cpus s)).
Proof.
  intros HM Hn Hs. remember (booted cpu_num) as s0 eqn:E. revert E. induction Hs as [|s s1 s' e Hs IH Hl Hst]; intros ->.
  - destruct (booted_inv cpu_num Hn) as [?|(? & ? & ?)]; [by left|right; auto using booted_gone].
  - destruct (IH eq_refl) as [Hoff|(Hh & Hok & Hm & Hg)]; [unfold step in Hst; by rewrite Hoff in Hst|].
    assert (inv cpu_num s') as [?|(? & ? & ?)]; [|by left|right; split_and!; [done..|by eapply (step_gone s1)]].
    eapply (step_inv MAX_CPU_NUM cpu_num s1); try done. right. auto.
Qed.
End Live.

(** * What the scheduler promises

    The theorems about the scheduler, for every sequence of events that callers may cause after all
    CPUs have been initialised, and every scheduler that keeps the contract of axsched. *)

Section Safety.
Context {Q : Type} `{BaseSchedulerLaws Q} (MAX_CPU_NUM cpu_num : Z) (HM : 0 < MAX_CPU_NUM) (Hn : 0 < cpu_num).
#[local] Notation okm := (okm cpu_num).

(** A state of the running machine. *)
Definition reachable (s : machine (Q := Q)) : Prop := steps MAX_CPU_NUM cpu_num (booted cpu_num) s /\ halted s = None.

Lemma reachable_ok s : reachable s -> okm s /\ movedm s /\ gone (cpus s).
Proof. intros [Hs Hh]. destruct (reachable_good _ _ s HM Hn Hs) as [?|(_ & ?)]; [congruence|done]. Qed.

(** C5: No assertion of the scheduler fails and no run queue is used before it is initialised: the
    machine runs until [exit] of the first task switches it off. *)
Theorem scheduler_never_panics s : steps MAX_CPU_NUM cpu_num (booted cpu_num) s -> halted s = None \/ halted s = Some Off.
Proof. intros Hs. destruct (reachable_good _ _ s HM Hn Hs) as [?|[? _]]; auto. Qed.

Lemma no_debt s t k : okm s -> tasks s !! t = Some k -> state k <> Running -> debt t (cpus s) = 0%nat.
Proof.
  intros Hok Hk Hst. destruct (decide (debt t (cpus s) = 0%nat)) as [|Hd]; [done|]. destruct (msum_pos (fun _ p => occ t (cpu_debts p)) (cpus s)) as (c & p & Hp & Hin%occ_of_pos); [unfold debt in Hd; lia|].
  exfalso. apply Hst, (c_run _ _ _ (o_core _ _ _ _ _ _ Hok) _ _ Hk). exists c, p. split; [done|]. unfold cpu_debts in Hin. destruct (doing p) eqn:Hdp; try by apply not_elem_of_nil in Hin.
  apply list_elem_of_singleton in Hin as ->. unfold cpu_runs. rewrite Hdp. by left.
Qed.

(** C4: No task is lost and none is in two places.  No two CPUs use the stack of one task.  A ready
    task is held exactly once: in a run queue, in the hands of a CPU or of a migration task.  A task
    that blocks or has exited is in no queue.  A running task runs on a CPU. *)
Theorem every_task_in_one_place s :
  reachable s ->
  (forall t c1 p1 c2 p2, cpus s !! c1 = Some p1 -> cpus s !! c2 = Some p2 -> t ∈ cpu_seats p1 -> t ∈ cpu_seats p2 -> c1 = c2) /\
  (forall c p, cpus s !! c = Some p -> NoDup (cpu_seats p)) /\
  forall t k, tasks s !! t = Some k -> is_idle k = false ->
    match state k with
    | Ready => tok t (tasks s) (cpus s) (run_queues s) = 1%nat
    | Running => exists c p, cpus s !! c = Some p /\ t ∈ cpu_runs p
    | Blocked | Exited => tok t (tasks s) (cpus s) (run_queues s) = 0%nat
    end.
Proof.
  intros Hr. destruct (reachable_ok _ Hr) as (Hok & _ & _). pose proof (o_core _ _ _ _ _ _ Hok) as Hco. split_and!; [apply Hco..|]. intros t k Hk Hi.
  pose proof (c_tok _ _ _ Hco t) as Ht. rewrite Hk in Ht. unfold ready_tok, is_ready in Ht. rewrite Hi in Ht. simpl in Ht.
  pose proof (no_debt _ _ _ Hok Hk) as Hd. destruct (state k) eqn:Hst; try (rewrite Ht, Hd by done; done). by apply (c_run _ _ _ Hco _ _ Hk).
Qed.

(** C18: The gc task frees no task in use: whatever a CPU runs, stands on, holds or has to switch
    off, whatever is in a run queue, and whatever the code of a task refers to, is there. *)
Theorem no_task_in_use_is_freed s :
  reachable s ->
  (forall c p t, cpus s !! c = Some p -> t ∈ cpu_seats p ++ cpu_refs p -> is_Some (tasks s !! t)) /\
  (forall q b t, run_queues s !! q = Some b -> t ∈ owned b -> is_Some (tasks s !! t)) /\
  (forall i k t, tasks s !! i = Some k -> t ∈ code_refs i (t_code k) -> is_Some (tasks s !! t)).
Proof. intros Hr. destruct (reachable_ok _ Hr) as (Hok & _ & _). pose proof (o_core _ _ _ _ _ _ Hok) as Hco. split_and!; apply Hco. Qed.

(** C10: A task that blocks in [block_on] is not woken in vain: if its flag says that it has been
    woken, some CPU is about to unblock it, and its next step makes the task ready. *)
Theorem wake_ups_are_not_lost s t k :
  reachable s -> tasks s !! t = Some k -> state k = Blocked ->
  exists w f wk, t_code k = CBlock w f BLoop /\ wakers s !! w = Some wk /\ w_task wk = t /\
    (woke wk = true -> exists c p q a s' k', cpus s !! c = Some p /\ doing p = PUnblock q t a /\
       step MAX_CPU_NUM cpu_num (EStep c) s = Some s' /\ tasks s' !! t = Some k' /\ state k' = Ready).
Proof.
  intros Hr Hk Hst. destruct (reachable_ok _ Hr) as (Hok & _ & _). pose proof (o_core _ _ _ _ _ _ Hok) as Hco. pose proof (o_waking _ _ _ _ _ _ Hok) as Hwk.
  destruct (c_blocked _ _ _ Hco _ _ Hk Hst) as (w & f & Hc). destruct (w_own _ _ _ Hwk _ _ _ _ _ Hk Hc) as (wk & Hw & Ht). exists w, f, wk. split_and!; [done..|]. intros Hwoke.
  destruct (w_woken _ _ _ Hwk _ _ _ _ _ Hk Hst Hc Hw Hwoke) as (c & p & Hp & Hd). destruct (doing p) as [| | | | |q u a| | | | | | | | | | | | | | | | | | | |] eqn:Hdp; try done. injection Hd as ->.
  assert (step MAX_CPU_NUM cpu_num (EStep c) s = step_unblock c q t a s) as Hstep.
  { unfold step. rewrite (proj2 Hr). simpl. rewrite Hp. simpl. unfold step_cpu. by rewrite Hdp. }
  unfold step_unblock in Hstep. rewrite Hk in Hstep. simpl in Hstep. rewrite bool_decide_true in Hstep by done.
  eexists c, p, q, a, _, (set_state Ready k). split_and!; [done|done|exact Hstep| |done]. destruct (is_idle k); simpl; by rewrite lookup_alter_eq, Hk.
Qed.
(** ** Progress *)

Lemma step_on s c p : reachable s -> cpus s !! c = Some p -> step MAX_CPU_NUM cpu_num (EStep c) s = step_cpu MAX_CPU_NUM c p s.
Proof. intros [_ Hh] Hp. unfold step. rewrite Hh. simpl. by rewrite Hp. Qed.

(** The places on the way out of a task that blocks. *)
Definition leaving (p : pc) : bool :=
  match p with
  | PBlock _ | PBlockDrop _ | PResched | PPicked _ | PSwitch _ | PClaim _ | PSave _ | PRestored => true
  | _ => false
  end.

Lemma leaving_steps s c p : reachable s -> cpus s !! c = Some p -> leaving (doing p) = true -> is_Some (step_cpu MAX_CPU_NUM c p s).
Proof.
  intros Hr Hp Hl. destruct (reachable_ok _ Hr) as (Hok & _ & _). unfold step_cpu. destruct (doing p) eqn:Hd; try done.
  - destruct (w_block _ _ _ (o_waking _ _ _ _ _ _ Hok) _ _ w Hp) as (wk & Hw & _); [by rewrite Hd|]. by rewrite Hw.
  - destruct (proj1 (c_rq _ _ _ (o_core _ _ _ _ _ _ Hok) c) (mk_is_Some _ _ Hp)) as [q Hq]. unfold step_resched. rewrite Hq. simpl. by destruct (pick_next_task q).
  - destruct (ok_ref _ _ _ _ next Hok Hp) as [k Hk]; [rewrite Hd; by left|]. by rewrite Hk.
Qed.

(** A CPU that uses the stack of a task that another one has made ready is about to leave it. *)
Lemma on_cpu_leaves s c p t c' q' :
  okm s -> gone (cpus s) -> cpus s !! c = Some p -> t ∈ cpu_toks p -> (forall b, doing p <> PPutEnq b) -> cpus s !! c' = Some q' -> t ∈ cpu_ons q' -> leaving (doing q') = true.
Proof.
  intros Hok Hg Hp Hin Hne Hq' Hon. pose proof (o_core _ _ _ _ _ _ Hok) as Hco. destruct (token_hand _ _ _ _ _ _ Hco Hp Hin) as [(k & Hk & _ & Hst) (_ & _ & Huniq)].
  assert (Hnr : t ∉ cpu_runs q'). { intros Hru. assert (state k = Running); [|congruence]. apply (c_run _ _ _ Hco _ _ Hk). eauto. }
  assert (Hnd : t ∉ cpu_deads q'). { intros Hde. assert (state k = Exited); [|congruence]. apply (c_dead _ _ _ Hco _ _ Hk). left. eauto. }
  assert (Hng : t = current q' -> pc_gone (doing q') = false). { intros ->. destruct (pc_gone (doing q')) eqn:E; [|done]. destruct Hnd. apply elem_of_app. left. by apply (Hg _ _ Hq'). }
  destruct (leaving (doing q')) eqn:Hl; [done|exfalso].
  assert (t = current q') as ->. { unfold cpu_ons in Hon. destruct (doing q'); try done; set_solver. }
  specialize (Hng eq_refl). unfold cpu_runs in Hnr. unfold cpu_deads in Hnd.
  assert (pc_runs (doing q') = false) as E1 by (destruct (pc_runs (doing q')); [set_solver|done]). assert (pc_dies (doing q') = false) as E2 by (destruct (pc_dies (doing q')); [set_solver|done]).
  destruct (doing q') as [|? [| |? ? []]| | |? ? ? []|? ? []|? ? []|? ? []|[]| | | | | | | | | | | | | | | | |] eqn:Hd; try done.
  assert (c' = c) as -> by (apply (Huniq _ _ Hq'); unfold cpu_toks; rewrite Hd; by left). simplify_eq. by eapply Hne.
Qed.

(** C17: The scheduler cannot deadlock.  A CPU in the scheduler can go on, or it waits for another
    one, which holds the lock of a flag or uses the stack of the task to wake up; that CPU is about to
    leave the task it runs, and can go on. *)
Theorem scheduler_does_not_deadlock s c p :
  reachable s -> cpus s !! c = Some p -> doing p <> PThread ->
  is_Some (step MAX_CPU_NUM cpu_num (EStep c) s) \/
  exists c' p', cpus s !! c' = Some p' /\ leaving (doing p') = true /\ is_Some (step MAX_CPU_NUM cpu_num (EStep c') s) /\
    ((exists q w t k, doing p = PWoke q w t k /\ pc_blocks (doing p') = Some w) \/ exists q t k, doing p = PSpin q t k /\ t ∈ cpu_ons p').
Proof.
  intros Hr Hp Hth. destruct (reachable_ok _ Hr) as (Hok & _ & Hg). pose proof (o_core _ _ _ _ _ _ Hok) as Hco. pose proof (cur_alive _ _ _ _ _ Hco Hp) as [kc Hkc].
  assert (Hal : forall t, t ∈ pc_refs (current p) (doing p) -> is_Some (tasks s !! t)) by (intros t; by apply (ok_ref _ _ _ _ t Hok Hp)).
  rewrite (step_on _ _ _ Hr Hp). destruct (leaving (doing p)) eqn:Hl; [left; by eapply leaving_steps|].
  assert (Hwait : forall c' p', cpus s !! c' = Some p' -> leaving (doing p') = true -> leaving (doing p') = true /\ is_Some (step MAX_CPU_NUM cpu_num (EStep c') s)).
  { intros c' p' Hp' Hl'. split; [done|]. rewrite (step_on _ _ _ Hr Hp'). by eapply leaving_steps. }
  unfold step_cpu. destruct (doing p) eqn:Hd; try done; try (by left; simpl); try (destruct (Hal t) as [k0 Hk0]; [by left|]).
  - left. by rewrite Hk0.
  - destruct (w_sel _ _ _ (o_waking _ _ _ _ _ _ Hok) _ _ w t Hp) as (wk & Hw & _); [by rewrite Hd|]. rewrite Hw. simpl. destruct (w_locked wk) eqn:Hlk; [|by left]. right.
    destruct (w_lock _ _ _ (o_waking _ _ _ _ _ _ Hok) _ _ Hw Hlk) as (c' & p' & Hp' & Hb). exists c', p'. split; [done|]. apply and_assoc. split; [apply Hwait; [done|]; by destruct (doing p')|]. left. by eexists _, _, _, _.
  - left. unfold step_unblock. by rewrite Hk0.
  - rewrite Hk0. simpl. destruct (on_cpu k0) eqn:Hon; [|by left]. right. apply (c_on _ _ _ Hco _ _ Hk0) in Hon as (c' & p' & Hp' & Hin). exists c', p'. split; [done|]. apply and_assoc. split; [apply Hwait; [done|]|right; by eexists _, _, _].
    eapply (on_cpu_leaves s c p t); try done; [unfold cpu_toks; rewrite Hd; by left|by rewrite Hd].
  - left. unfold step_put_cas. by rewrite Hkc.
  - left. by rewrite Hkc.
  - left. by rewrite Hkc.
Qed.

(** ** The choice of a run queue *)

Definition target (k : selecting) (q : Z) : pc :=
  match k with SAdd t => PAdd q t | SMigrate t => PMigrate q t | SWake w t a => PWoke q w t a end.

(** Counting on from [r] comes to every CPU. *)
Lemma counter_hits r i : 0 <= r < 2 ^ 64 -> 0 <= i < MAX_CPU_NUM -> MAX_CPU_NUM <= 2 ^ 64 -> exists n : nat, Z.of_nat n < 2 * MAX_CPU_NUM /\ as_u64 (r + Z.of_nat n) mod MAX_CPU_NUM = i.
Proof.
  intros Hr Hi HM64. destruct (Z.le_gt_cases (r + MAX_CPU_NUM) (2 ^ 64)).
  - exists (Z.to_nat ((i - r) mod MAX_CPU_NUM)). pose proof (Z.mod_pos_bound (i - r) MAX_CPU_NUM HM). rewrite Z2Nat.id by lia. split; [lia|].
    rewrite as_u64_small by lia. rewrite Z.add_mod_idemp_r by lia. replace (r + (i - r)) with i by lia. by apply Z.mod_small.
  - exists (Z.to_nat (2 ^ 64 - r + i)). rewrite Z2Nat.id by lia. split; [lia|]. replace (r + (2 ^ 64 - r + i)) with (i + 1 * 2 ^ 64) by lia.
    unfold as_u64. rewrite Z.mod_add by lia. rewrite (Z.mod_small i (2 ^ 64)) by lia. by apply Z.mod_small.
Qed.

(** [select_run_queue_index] has chosen a queue after at most [n] rounds. *)
Definition selects (c mask : Z) (k : selecting) (n : nat) (s : machine (Q := Q)) : Prop :=
  exists m s' p' q, (m <= n)%nat /\ run MAX_CPU_NUM cpu_num (repeat (EStep c) m) s = Some s' /\
    cpus s' !! c = Some p' /\ doing p' = target k q /\ mask_get mask q = true /\ is_Some (run_queues s' !! q).

Section Select.
Context (s : machine (Q := Q)) (c : Z) (p : cpu) (mask : Z) (k : selecting) (Hr : reachable s) (Hp : cpus s !! c = Some p) (Hd : doing p = PSelect mask k).

Lemma select_step : mask_ok cpu_num mask /\ mask_is_empty mask = false /\ step MAX_CPU_NUM cpu_num (EStep c) s = Some (step_select MAX_CPU_NUM c mask k s).
Proof.
  destruct (reachable_ok _ Hr) as (Hok & _ & _). pose proof (p_pc _ _ _ _ (o_places _ _ _ _ _ _ Hok) _ _ Hp) as Hmk. rewrite Hd in Hmk. split_and!; [done| |].
  - unfold mask_is_empty. apply Z.eqb_neq. destruct Hmk. lia.
  - rewrite (step_on _ _ _ Hr Hp). unfold step_cpu. by rewrite Hd.
Qed.

Lemma select_hit : mask_get mask (rq_index s mod MAX_CPU_NUM) = true -> selects c mask k 1 s.
Proof.
  intros Hg. destruct select_step as (Hmk & Hne & Hstep). destruct (reachable_ok _ Hr) as (Hok & _ & _). set (i := rq_index s mod MAX_CPU_NUM) in *.
  assert (0 <= i) by (apply Z.mod_pos_bound; lia). destruct (p_all _ _ _ _ (o_places _ _ _ _ _ _ Hok) i) as [b Hb]; [split; [done|by eapply mask_get_small]|].
  exists 1%nat, (step_select MAX_CPU_NUM c mask k s), (set_doing (target k i) p), i. simpl. rewrite Hstep. simpl. unfold step_select. rewrite Hne. fold i. rewrite Hg. simpl. rewrite Hb.
  simpl. rewrite lookup_alter_eq, Hp, Hb. split_and!; try done; by destruct k.
Qed.

Lemma select_miss n : let s1 := set_index (as_u64 (rq_index s + 1)) s in
  mask_get mask (rq_index s mod MAX_CPU_NUM) = false -> reachable s1 /\ (selects c mask k n s1 -> selects c mask k (S n) s).
Proof.
  intros s1 Hg. destruct select_step as (Hmk & Hne & Hstep). assert (step_select MAX_CPU_NUM c mask k s = s1) as Hs1 by (unfold step_select; by rewrite Hne, Hg).
  rewrite Hs1 in Hstep. split; [split; [by eapply steps_step; [apply Hr| |exact Hstep]|by apply Hr]|].
  intros (m & s' & p' & q & Hm & Hrun & Hrest). exists (S m), s', p', q. simpl. rewrite Hstep. simpl. split; [lia|done].
Qed.
End Select.

Lemma select_in c p mask k n : forall s,
  reachable s -> cpus s !! c = Some p -> doing p = PSelect mask k -> 0 <= rq_index s < 2 ^ 64 -> mask_get mask (as_u64 (rq_index s + Z.of_nat n) mod MAX_CPU_NUM) = true ->
  selects c mask k (S n) s.
Proof.
  induction n as [|n IH]; intros s Hr Hp Hd Hri Hg.
  - eapply select_hit; try done. by rewrite Z.add_0_r, as_u64_small in Hg.
  - destruct (mask_get mask (rq_index s mod MAX_CPU_NUM)) eqn:Hgi.
    + destruct (select_hit s c p mask k Hr Hp Hd Hgi) as (m & s' & p' & q & ? & ?). exists m, s', p', q. split; [lia|done].
    + destruct (select_miss s c p mask k Hr Hp Hd (S n) Hgi) as [Hr1 Hs]. apply Hs, IH; try done; [apply as_u64_range|]. simpl. rewrite <- Hg. f_equal.
      unfold as_u64. rewrite Z.add_mod_idemp_l by lia. do 2 f_equal. lia.
Qed.

Lemma mask_has_bit mask : mask_ok cpu_num mask -> exists i, 0 <= i < cpu_num /\ mask_get mask i = true.
Proof.
  intros [H1 H2]. exists (Z.log2 mask). split; [split; [apply Z.log2_nonneg|by apply Z.log2_lt_pow2]|]. unfold mask_get. apply Z.bit_log2. lia.
Qed.

(** The loop of [select_run_queue_index] ends: undisturbed, a CPU that looks for a run queue has
    found one of the mask, initialised, after at most 2 * MAX_CPU_NUM + 1 rounds, wherever the shared
    counter is and also when it wraps around. *)
Theorem select_run_queue_ends s c p mask k :
  reachable s -> cpus s !! c = Some p -> doing p = PSelect mask k -> cpu_num <= MAX_CPU_NUM <= 2 ^ 64 -> selects c mask k (Z.to_nat (2 * MAX_CPU_NUM + 1)) s.
Proof.
  intros Hr Hp Hd HM64. destruct (select_step s c p mask k Hr Hp Hd) as (Hmk & _ & _).
  assert (Hle : forall n m, (n <= m)%nat -> selects c mask k n s -> selects c mask k m s) by (intros n m Hnm (x & s' & p' & q & ? & ?); exists x, s', p', q; split; [lia|done]).
  destruct (mask_get mask (rq_index s mod MAX_CPU_NUM)) eqn:Hg; [eapply (Hle 1%nat); [lia|by eapply select_hit]|].
  destruct (mask_has_bit mask Hmk) as (i & Hi & Hbit). set (r := as_u64 (rq_index s + 1)). assert (0 <= r < 2 ^ 64) as Hrr by apply as_u64_range.
  destruct (counter_hits r i) as (n & Hn2 & Hn3); [done|lia|lia|]. destruct (select_miss s c p mask k Hr Hp Hd (S n) Hg) as [Hr1 Hs].
  eapply (Hle (S (S n))); [lia|]. apply Hs. eapply (select_in c p mask k n); try done. simpl. fold r. by rewrite Hn3.
Qed.
(** ** What user space may ask for *)

(** The mask [sys_sched_setaffinity] builds from the bytes of user space, [load] those it reads. *)
Definition sched_setaffinity_mask (cpusetsize : Z) (load : Z -> option (list Z)) : option Z :=
  let size := Z.min cpusetsize ((cpu_num + 7) / 8) in
  user_mask ← load size;
  Some (foldl (fun mask i => if Z.testbit (nth (Z.to_nat (i / 8)) user_mask 0) (i mod 8) then Z.setbit mask i else mask) 0
    (seqZ 0 (Z.min (size * 8) cpu_num))).

Lemma setbits_small (f : Z -> bool) l mask n : 0 <= n -> 0 <= mask < 2 ^ n -> Forall (fun i => 0 <= i < n) l ->
  0 <= foldl (fun mask i => if f i then Z.setbit mask i else mask) mask l < 2 ^ n.
Proof.
  intros Hpos. revert mask. induction l as [|i l IH]; intros mask Hm Hl; [done|]. apply Forall_cons in Hl as [Hi Hl]. simpl. apply IH; [|done]. destruct (f i); [|done].
  assert (0 <= Z.setbit mask i) by (rewrite Z.setbit_spec'; apply Z.lor_nonneg; split; [lia|apply Z.pow_nonneg; lia]). split; [done|].
  destruct (Z.eq_dec (Z.setbit mask i) 0) as [->|]; [apply Z.pow_pos_nonneg; lia|]. apply Z.log2_lt_pow2; [lia|]. rewrite Z.setbit_spec', Z.log2_lor, Z.log2_pow2 by (try apply Z.pow_nonneg; lia).
  destruct (Z.eq_dec mask 0) as [->|]; [simpl; lia|]. apply Z.max_lub_lt; [apply Z.log2_lt_pow2; lia|lia].
Qed.

(** No mask of user space breaks the scheduler. *)
Lemma setaffinity_is_legal c size load mask (s : machine (Q := Q)) : sched_setaffinity_mask size load = Some mask -> legal cpu_num (ESetAffinity c mask) s = true.
Proof.
  intros Hm. apply bind_Some in Hm as (l & _ & [= <-]). simpl. apply andb_true_iff. rewrite Z.leb_le, Z.ltb_lt.
  apply (setbits_small (fun i => Z.testbit (nth (Z.to_nat (i / 8)) l 0) (i mod 8))); [lia|split; [lia|apply Z.pow_pos_nonneg; lia]|].
  apply Forall_forall. intros i Hi%elem_of_seqZ. lia.
Qed.
End Safety.

(** * Runs of the scheduler

    A first-in-first-out scheduler keeps the contract, so the theorems of [SchedSafety] apply to
    it; runs on two CPUs that show so, and runs that show what the scheduler does not promise: a
    [join] may sleep for ever or return a code that was never set, a wake-up may place a task
    outside its affinity, and a task that is named like the idle one stops the machine. *)

#[export] Instance fifo_scheduler : BaseScheduler (list Z) := {|
  sched_new := [];
  sched_add_task t q := q ++ [t];
  pick_next_task q := match q with [] => (None, []) | t :: q => (Some t, q) end;
  put_prev_task t _ q := q ++ [t];
  task_tick _ q := (false, q);
  set_priority _ _ q := (false, q);
  owned q := q;
|}.

#[export] Instance fifo_laws : BaseSchedulerLaws (list Z).
Proof.
  split; simpl; try done.
  - intros t q. by rewrite Permutation_app_comm.
  - intros t b q. by rewrite Permutation_app_comm.
  - by intros [|t q].
Qed.

(** ** Legal runs *)

Definition two_cpus : machine (Q := list Z) := booted 2.

Fixpoint legal_run (es : list event) (s : machine (Q := list Z)) : option (machine (Q := list Z)) :=
  match es with
  | [] => Some s
  | e :: es => if legal 2 e s then s' ← step 2 2 e s; legal_run es s' else None
  end.
Definition after (es : list event) : machine := default two_cpus (legal_run es two_cpus).

Lemma legal_run_steps es : forall s0 s s', steps 2 2 s0 s -> legal_run es s = Some s' -> steps 2 2 s0 s'.
Proof.
  induction es as [|e es IH]; intros s0 s s' Hs Hr; [by simplify_eq/=|]. simpl in Hr. destruct (legal 2 e s) eqn:Hl; [|done]. apply bind_Some in Hr as (s1 & H1 & H2).
  eapply IH; [|exact H2]. by eapply steps_step.
Qed.

Lemma after_steps es : is_Some (legal_run es two_cpus) -> steps 2 2 (booted 2) (after es).
Proof. intros [s Hs]. unfold after. rewrite Hs. eapply legal_run_steps; [apply steps_refl|exact Hs]. Qed.

Lemma after_reachable es : is_Some (legal_run es two_cpus) -> halted (after es) = None -> reachable 2 2 (after es).
Proof. intros Hs Hh. split; [by apply after_steps|done]. Qed.

(** [n] steps of CPU [c] in the scheduler. *)
Definition turn (c : Z) (n : nat) : list event := replicate n (EStep c).

(** The first task starts tasks 6 and 7 on CPUs 0 and 1; CPU 1 leaves its idle task for its gc task,
    which blocks, and then runs task 7. *)
Definition start : list event :=
  [ESpawn 0 false] ++ turn 0 4 ++ [ESpawn 0 false] ++ turn 0 4 ++ [ECode 1] ++ turn 1 8 ++ replicate 6 (ECode 1) ++ turn 1 9.

(** Task 7 blocks on a future while the first task wakes it up: CPU 0 waits for the flag, sets it,
    and waits for the stack of the task. *)
Definition flag_held : list event := start ++ [EBlockOn 1; ECode 1; EPoll 1 false; ECode 1; EWake 0 9; EStep 0].
Definition flag_set : list event := flag_held ++ [EStep 1; EStep 1; EStep 0].
Definition stack_held : list event := flag_set ++ [EStep 0].

Lemma scheduler_never_panics_witness : halted (after start) = None \/ halted (after start) = Some Off.
Proof. apply (scheduler_never_panics 2 2 ltac:(lia) ltac:(lia)). apply after_steps. vm_compute. by eexists. Defined.

Lemma every_task_in_one_place_witness :
  tok 6 (tasks (after start)) (cpus (after start)) (run_queues (after start)) = 1%nat /\ tok 5 (tasks (after start)) (cpus (after start)) (run_queues (after start)) = 0%nat.
Proof.
  destruct (every_task_in_one_place 2 2 ltac:(lia) ltac:(lia) (after start)) as (_ & _ & Ht); [apply after_reachable; [vm_compute; by eexists|vm_compute; reflexivity]|].
  split; [specialize (Ht 6)|specialize (Ht 5)]; (destruct (tasks (after start) !! _) as [k|] eqn:Hk; [|vm_compute in Hk; discriminate]); specialize (Ht k eq_refl); vm_compute in Hk; injection Hk as <-; exact (Ht eq_refl).
Defined.

Lemma no_task_in_use_is_freed_witness : is_Some (tasks (after start) !! 6).
Proof.
  destruct (no_task_in_use_is_freed 2 2 ltac:(lia) ltac:(lia) (after start)) as (_ & Hq & _); [apply after_reachable; [vm_compute; by eexists|vm_compute; reflexivity]|].
  apply (Hq 0 [3; 6] 6); [vm_compute; reflexivity|]. right. left.
Defined.

Lemma wake_ups_are_not_lost_witness :
  exists c s', step 2 2 (EStep c) (after flag_set) = Some s' /\ (state <$> tasks (after flag_set) !! 7) = Some Blocked /\ (state <$> tasks s' !! 7) = Some Ready.
Proof.
  destruct (tasks (after flag_set) !! 7) as [k|] eqn:Hk; [|vm_compute in Hk; discriminate]. assert (state k = Blocked) as Hb by (vm_compute in Hk; injection Hk as <-; reflexivity).
  destruct (wake_ups_are_not_lost 2 2 ltac:(lia) ltac:(lia) (after flag_set) 7 k) as (w & f & wk & Hc & Hw & Ht & Hwake); [apply after_reachable; [vm_compute; by eexists|vm_compute; reflexivity]|exact Hk|exact Hb|].
  assert (w = 9) as -> by (vm_compute in Hk; injection Hk as <-; by injection Hc). assert (woke wk = true) as Hwoke by (vm_compute in Hw; injection Hw as <-; reflexivity).
  destruct (Hwake Hwoke) as (c & p & q & a & s' & k' & Hp & Hd & Hs & Hk' & Hst).
  exists c, s'. split; [exact Hs|]. rewrite Hk'. simpl. rewrite Hb, Hst. split; reflexivity.
Defined.

Lemma scheduler_does_not_deadlock_witness :
  step 2 2 (EStep 0) (after stack_held) = None /\ exists c p, c <> 0 /\ cpus (after stack_held) !! c = Some p /\ 7 ∈ cpu_ons p /\ is_Some (step 2 2 (EStep c) (after stack_held)).
Proof.
  assert (step 2 2 (EStep 0) (after stack_held) = None) as Hn by (vm_compute; reflexivity). split; [exact Hn|]. destruct (cpus (after stack_held) !! 0) as [p|] eqn:Hp; [|vm_compute in Hp; discriminate].
  assert (doing p = PSpin 0 7 KRelease) as Hd by (vm_compute in Hp; injection Hp as <-; reflexivity).
  destruct (scheduler_does_not_deadlock 2 2 ltac:(lia) ltac:(lia) (after stack_held) 0 p) as [[s' Hs]|(c & p' & Hp' & _ & Hs & Hw)];
    [apply after_reachable; [vm_compute; by eexists|vm_compute; reflexivity]|exact Hp|rewrite Hd; discriminate|congruence|].
  exists c, p'. split_and!; [|exact Hp'| |exact Hs].
  - intros ->. destruct Hs as [s' Hs]. congruence.
  - rewrite Hd in Hw. destruct Hw as [(q & w & t & k & Hw & _)|(q & t & k & Hw & Hin)]; [discriminate|]. by injection Hw as <- <- <-.
Defined.

Lemma select_run_queue_ends_witness : selects 2 2 0 3 (SAdd 6) 5 (after [ESpawn 0 false]).
Proof.
  destruct (cpus (after [ESpawn 0 false]) !! 0) as [p|] eqn:Hp; [|vm_compute in Hp; discriminate].
  apply (select_run_queue_ends 2 2 ltac:(lia) ltac:(lia) (after [ESpawn 0 false]) 0 p 3 (SAdd 6));
    [apply after_reachable; [vm_compute; by eexists|vm_compute; reflexivity]|exact Hp|vm_compute in Hp; injection Hp as <-; reflexivity|lia].
Defined.

(** ** What it does not promise *)

(** A [join] can sleep for ever: if the task exits between the test of its state and the
    registration of the waker, the exit wakes nobody up, and the waker is registered with a task that
    has been put on the list of exited ones. *)
Theorem join_can_miss_the_exit :
  exists s k kt p1, reachable 2 2 s /\ tasks s !! 2 = Some k /\ state k = Blocked /\ tasks s !! 7 = Some kt /\ state kt = Exited /\
    (exists w, t_code k = CBlock w (FJoin 7) BLoop /\ wait_for_exit kt = Some w) /\ cpus s !! 1 = Some p1 /\ 7 ∈ exited_tasks p1 /\
    map_Forall (fun _ p => pc_waker (doing p) = None /\ pc_unblocks (doing p) = None) (cpus s).
Proof.
  eexists (after (start ++ [EJoin 0 7; ECode 0; ECode 0; EExit 1 9] ++ turn 1 20 ++ [ECode 0; ECode 0] ++ turn 0 9)), _, _, _.
  split_and!; [apply after_reachable; [vm_compute; by eexists|vm_compute; reflexivity]|vm_compute; reflexivity|reflexivity|vm_compute; reflexivity|reflexivity|eexists; split; reflexivity|vm_compute; reflexivity|left|].
  apply map_Forall_to_list. vm_compute. repeat constructor.
Qed.

(** A [join] can return a code the task has not exited with: [notify_exit] sets the state before
    it stores the code. *)
Theorem join_can_return_too_early : exists s kt, reachable 2 2 s /\ joined s = [(2, 7, 0)] /\ tasks s !! 7 = Some kt /\ exit_code kt = 9.
Proof.
  eexists (after (start ++ [EJoin 0 7; ECode 0; EExit 1 9; EStep 1; ECode 0; ECode 0] ++ turn 1 19)), _.
  split_and!; [apply after_reachable; [vm_compute; by eexists|vm_compute; reflexivity]|vm_compute; reflexivity|vm_compute; reflexivity|reflexivity].
Qed.

(** A wake-up can put a task in the queue of a CPU outside its affinity: the mask is read when
    the wake-up starts, and the task may set another one before it blocks again. *)
Theorem late_wake_up_ignores_affinity :
  exists s k b, reachable 2 2 s /\ tasks s !! 7 = Some k /\ run_queues s !! 0 = Some b /\ 7 ∈ owned b /\ mask_get (cpumask k) 0 = false.
Proof.
  eexists (after (start ++ [EBlockOn 1; ECode 1; EWake 0 9; EStep 0; EPoll 1 true; ESetAffinity 1 2; EBlockOn 1; ECode 1; EPoll 1 false; ECode 1] ++ turn 1 10 ++ turn 0 6)), _, _.
  split_and!; [apply after_reachable; [vm_compute; by eexists|vm_compute; reflexivity]|vm_compute; reflexivity|vm_compute; reflexivity|do 2 right; left|reflexivity].
Qed.

(** A task with the name of the idle task stops the machine when it exits: [exit_current] takes
    it for an idle task and its assertion fails. *)
Theorem task_named_idle_panics :
  exists s, run 2 2 ([ESpawn 0 false] ++ turn 0 4 ++ [ESpawn 0 true] ++ turn 0 4 ++ [ECode 1] ++ turn 1 8 ++ replicate 6 (ECode 1) ++ turn 1 9 ++ [EExit 1 0]) two_cpus = Some s /\
    halted s = Some Panic.
Proof. eexists. split; vm_compute; reflexivity. Qed.
