(* ===== verification/Timer.v ===== *)
(** * Timers of sleeping tasks

    [future/time.rs] of axtask: a wheel of timers per CPU, the future of [sleep_until] and the
    biased choice of [timeout_at].  A future works on the wheel of the CPU that polls or drops it.
    On one CPU timers fire neither early nor never; on two they do. *)

From stdpp Require Import sorting.
From S2P Require Import Prelude.

(** ** The wheel *)

(** Deadline and number, ordered as the derived [Ord] does. *)
Definition TimerKey : Type := Z * Z.
Definition key_le (a b : TimerKey * Z) : Prop := a.1.1 < b.1.1 \/ (a.1.1 = b.1.1 /\ a.1.2 <= b.1.2).
#[export] Instance timer_key_le_dec : RelDecision key_le.
Proof. intros a b. unfold key_le. apply _. Defined.

Record TimerRuntime : Type := mk_runtime { rt_key : Z; wheel : gmap TimerKey Z }.
Definition runtime_new : TimerRuntime := mk_runtime 0 ∅.

(** [Waker::noop]. *)
Definition noop : Z := 0.

Definition rt_add (now deadline : Z) (r : TimerRuntime) : option TimerKey * TimerRuntime :=
  if deadline <=? now then (None, r)
  else let key := (deadline, rt_key r) in (Some key, mk_runtime (as_u64 (rt_key r + 1)) (<[key := noop]> (wheel r))).

(** [true] is [Poll::Ready]. *)
Definition rt_poll (key : TimerKey) (w : Z) (r : TimerRuntime) : bool * TimerRuntime :=
  match wheel r !! key with
  | Some _ => (false, mk_runtime (rt_key r) (<[key := w]> (wheel r)))
  | None => (true, r)
  end.

Definition rt_cancel (key : TimerKey) (r : TimerRuntime) : TimerRuntime := mk_runtime (rt_key r) (delete key (wheel r)).

(** [split_off] at the last key of the present. *)
Definition expired_at (now : Z) (key : TimerKey) : bool := (key.1 <? now) || ((key.1 =? now) && (key.2 <? 2 ^ 64 - 1)).
Definition rt_wake (now : Z) (r : TimerRuntime) : list Z * TimerRuntime :=
  let expired := filter (fun e => expired_at now e.1 = true) (wheel r) in
  ((merge_sort key_le (map_to_list expired)).*2, mk_runtime (rt_key r) (filter (fun e => expired_at now e.1 = false) (wheel r))).

(** ** The futures *)

(** [sleep_until] before its first poll, waiting for its key, and ended. *)
Inductive sleep_state : Type := SNew | SWait (key : TimerKey) | SDone.

(** A future with its deadline; [home] and [waker] record the CPU of its first poll and the waker of
    its last one. *)
Record Sleep : Type := mk_sleep { s_deadline : Z; s_state : sleep_state; home : Z; waker : Z }.

(** The clock, the wheels of the CPUs, the futures and the wakers that have been woken. *)
Record timers : Type := mk_timers { clock : Z; runtimes : gmap Z TimerRuntime; sleeps : gmap Z Sleep; woken : list Z }.

Definition runtime (c : Z) (s : timers) : TimerRuntime := default runtime_new (runtimes s !! c).
Definition set_runtime (c : Z) (r : TimerRuntime) (s : timers) : timers := mk_timers (clock s) (<[c := r]> (runtimes s)) (sleeps s) (woken s).
Definition set_sleep (f : Z) (x : Sleep) (s : timers) : timers := mk_timers (clock s) (runtimes s) (<[f := x]> (sleeps s)) (woken s).

(** Polling on CPU [c]: [TimerFuture::poll], and [sleep_until] up to there. *)
Definition timer_poll (c f w : Z) (x : Sleep) (key : TimerKey) (h : Z) (s : timers) : bool * timers :=
  let '(ready, r) := rt_poll key w (runtime c s) in
  (ready, set_sleep f (mk_sleep (s_deadline x) (if ready : bool then SDone else SWait key) h w) (set_runtime c r s)).

Definition sleep_poll (c f w : Z) (x : Sleep) (s : timers) : bool * timers :=
  match s_state x with
  | SNew =>
    match rt_add (clock s) (s_deadline x) (runtime c s) with
    | (None, _) => (true, set_sleep f (mk_sleep (s_deadline x) SDone c w) s)
    | (Some key, r) => timer_poll c f w x key c (set_runtime c r s)
    end
  | SWait key => timer_poll c f w x key (home x) s
  | SDone => (true, s)
  end.

(** Dropping it on CPU [c]. *)
Definition sleep_drop (c f : Z) (x : Sleep) (s : timers) : timers :=
  let s' := mk_timers (clock s) (runtimes s) (delete f (sleeps s)) (woken s) in
  match s_state x with SWait key => set_runtime c (rt_cancel key (runtime c s)) s' | _ => s' end.

(** [timeout_at] with a deadline: the other future first; [out] is what it returns now. *)
Definition timeout_poll {A} (c f w : Z) (x : Sleep) (out : option A) (s : timers) : option (A + unit) * timers :=
  match out with
  | Some a => (Some (inl a), s)
  | None => let '(ready, s') := sleep_poll c f w x s in (if ready : bool then Some (inr ()) else None, s')
  end.

(** [check_timer_events]. *)
Definition check_timer_events (c : Z) (s : timers) : timers :=
  let '(ws, r) := rt_wake (clock s) (runtime c s) in mk_timers (clock s) (<[c := r]> (runtimes s)) (sleeps s) (woken s ++ ws).

(** ** Histories *)

Inductive timer_event : Type :=
| TNew (f deadline : Z)
| TPoll (c f w : Z)
| TDrop (c f : Z)
| TTick (c : Z)
| TTime (n : Z).

Definition timer_step (e : timer_event) (s : timers) : option timers :=
  match e with
  | TNew f deadline => match sleeps s !! f with None => Some (set_sleep f (mk_sleep deadline SNew 0 noop) s) | Some _ => None end
  | TPoll c f w => x ← sleeps s !! f; Some (sleep_poll c f w x s).2
  | TDrop c f => x ← sleeps s !! f; Some (sleep_drop c f x s)
  | TTick c => Some (check_timer_events c s)
  | TTime n => if 0 <=? n then Some (mk_timers (clock s + n) (runtimes s) (sleeps s) (woken s)) else None
  end.

Fixpoint timer_run (es : list timer_event) (s : timers) : option timers :=
  match es with [] => Some s | e :: es => s' ← timer_step e s; timer_run es s' end.

Definition timers_new (now : Z) : timers := mk_timers now ∅ ∅ [].

(** A future is polled and dropped where it was first polled, and the counter has not run out. *)
Definition pinned (e : timer_event) (s : timers) : bool :=
  match e with
  | TPoll c f _ => (rt_key (runtime c s) <? 2 ^ 64 - 1) &&
    match sleeps s !! f with Some (mk_sleep _ (SWait _) h _) => h =? c | _ => true end
  | TDrop c f => match sleeps s !! f with Some (mk_sleep _ (SWait _) h _) => h =? c | _ => true end
  | _ => true
  end.

Inductive pinned_run : timers -> timers -> Prop :=
| pinned_refl s : pinned_run s s
| pinned_step s s1 s' e : pinned_run s s1 -> pinned e s1 = true -> timer_step e s1 = Some s' -> pinned_run s s'.

Record timers_ok (s : timers) : Prop := {
  t_done : forall f x, sleeps s !! f = Some x -> s_state x = SDone -> s_deadline x <= clock s;
  t_wait : forall f x key, sleeps s !! f = Some x -> s_state x = SWait key -> key.1 = s_deadline x /\ key.2 < rt_key (runtime (home x) s) /\
    (wheel (runtime (home x) s) !! key = Some (waker x) \/ (wheel (runtime (home x) s) !! key = None /\ s_deadline x <= clock s /\ waker x ∈ woken s));
  t_uniq : forall f1 f2 x1 x2 key, sleeps s !! f1 = Some x1 -> sleeps s !! f2 = Some x2 -> s_state x1 = SWait key -> s_state x2 = SWait key -> home x1 = home x2 -> f1 = f2;
  t_owned : forall c key w, wheel (runtime c s) !! key = Some w -> exists f x, sleeps s !! f = Some x /\ s_state x = SWait key /\ home x = c;
  t_key : forall c, 0 <= rt_key (runtime c s) < 2 ^ 64;
}.

(** ** Lemmas *)

Lemma runtime_set c c' r s : runtime c (set_runtime c' r s) = if decide (c = c') then r else runtime c s.
Proof. unfold runtime, set_runtime. simpl. case_decide as E; [subst; by rewrite lookup_insert_eq|by rewrite lookup_insert_ne]. Qed.

Lemma expired_past now key : expired_at now key = true -> key.1 <= now.
Proof. unfold expired_at. intros [?|[? _]%andb_true_iff]%orb_true_iff; lia. Qed.

Lemma wake_hits now r key w : wheel r !! key = Some w -> expired_at now key = true -> w ∈ (rt_wake now r).1 /\ wheel (rt_wake now r).2 !! key = None.
Proof.
  intros Hk He. unfold rt_wake. simpl. split.
  - apply list_elem_of_fmap. exists (key, w). split; [done|]. rewrite merge_sort_Permutation. apply elem_of_map_to_list. by apply map_lookup_filter_Some.
  - apply map_lookup_filter_None. right. intros x _. simpl. congruence.
Qed.

Lemma wake_keeps now r key : expired_at now key = false -> wheel (rt_wake now r).2 !! key = wheel r !! key.
Proof.
  intros He. unfold rt_wake. simpl. destruct (wheel r !! key) as [w|] eqn:Hk; [by apply map_lookup_filter_Some|]. apply map_lookup_filter_None. by left.
Qed.

Lemma wake_sub now r key w : wheel (rt_wake now r).2 !! key = Some w -> wheel r !! key = Some w /\ expired_at now key = false.
Proof. unfold rt_wake. simpl. by intros [? ?]%map_lookup_filter_Some. Qed.

(** ** Every step of a pinned history *)

Lemma new_ok f d s : timers_ok s -> sleeps s !! f = None -> timers_ok (set_sleep f (mk_sleep d SNew 0 noop) s).
Proof.
  intros [] Hf. split; unfold set_sleep; simpl; change (runtime ?c (mk_timers (clock s) (runtimes s) _ (woken s))) with (runtime c s).
  - intros g x [[<- <-]|[? ?]]%lookup_insert_Some; [done|eauto].
  - intros g x key [[<- <-]|[? ?]]%lookup_insert_Some; [done|]. intros Hx. by apply (t_wait0 g).
  - intros f1 f2 x1 x2 key [[<- <-]|[? ?]]%lookup_insert_Some [[<- <-]|[? ?]]%lookup_insert_Some; try done. eauto.
  - intros c key w Hw. destruct (t_owned0 _ _ _ Hw) as (g & x & Hg & ?). exists g, x. rewrite lookup_insert_ne; [done|congruence].
  - done.
Qed.

(** The future [f] waits for the key [key] of its CPU [c], with the waker [w]. *)
Lemma armed_ok c f w x key r s :
  timers_ok s -> sleeps s !! f = Some x -> key.1 = s_deadline x -> key.2 < rt_key r -> rt_key (runtime c s) <= rt_key r < 2 ^ 64 ->
  (s_state x = SWait key /\ home x = c) \/ (s_state x = SNew /\ key.2 = rt_key (runtime c s)) ->
  (forall k, k <> key -> wheel r !! k = wheel (runtime c s) !! k) -> wheel r !! key = Some w ->
  timers_ok (set_sleep f (mk_sleep (s_deadline x) (SWait key) c w) (set_runtime c r s)).
Proof.
  intros [] Hf Hd Hlt Hle Hold Hr Hw.
  assert (Hother : forall g y k, sleeps s !! g = Some y -> s_state y = SWait k -> home y = c -> g <> f -> k <> key).
  { intros g y k Hg Hy Hh Hne ->. destruct Hold as [[Hx Hhx]|[Hx Hk]]; [apply Hne; eapply (t_uniq0 g f y x key); congruence|]. destruct (t_wait0 _ _ _ Hg Hy) as (_ & Hl & _). rewrite Hh in Hl. lia. }
  assert (Hrt : forall c', runtime c' (set_sleep f (mk_sleep (s_deadline x) (SWait key) c w) (set_runtime c r s)) = if decide (c' = c) then r else runtime c' s) by (intros c'; apply (runtime_set c' c r s)).
  split; try setoid_rewrite Hrt; simpl.
  - intros g y [[<- <-]|[? ?]]%lookup_insert_Some; [done|eauto].
  - intros g y k [[<- <-]|[Hne Hg]]%lookup_insert_Some Hy; simpl in *; [injection Hy as <-; rewrite decide_True by done; auto|].
    destruct (t_wait0 _ _ _ Hg Hy) as (H1 & H2 & H3). case_decide as E; [|done]. rewrite E in *. rewrite Hr by (by eapply (Hother g)). split_and!; [done|lia|done].
  - intros f1 f2 x1 x2 k [[<- <-]|[? ?]]%lookup_insert_Some [[<- <-]|[? ?]]%lookup_insert_Some; simpl; [done|..|eauto].
    + intros [= <-] Hx2 Hh. destruct (Hother f2 x2 key); auto.
    + intros Hx1 [= <-] Hh. destruct (Hother f1 x1 key); auto.
  - intros c' k v. case_decide as E; [subst c'|].
    + intros Hk. destruct (decide (k = key)) as [->|]; [exists f; eexists; by rewrite lookup_insert_eq|]. rewrite Hr in Hk by done. destruct (t_owned0 _ _ _ Hk) as (g & y & Hg & Hy & Hh).
      exists g, y. rewrite lookup_insert_ne; [done|]. intros <-. simplify_eq. destruct Hold as [[? _]|[? _]]; congruence.
    + intros Hk. destruct (t_owned0 _ _ _ Hk) as (g & y & Hg & Hy & Hh). exists g, y. rewrite lookup_insert_ne; [done|]. intros <-. simplify_eq. destruct Hold as [[? ?]|[? _]]; congruence.
  - intros c'. case_decide; [|done]. pose proof (t_key0 c). lia.
Qed.

(** The future ends after its deadline, or is dropped; its key is not in the wheel of its CPU. *)
Lemma ended_ok f x m r c s :
  timers_ok s -> sleeps s !! f = Some x -> (forall g, g <> f -> m !! g = sleeps s !! g) -> (forall y, m !! f = Some y -> s_state y = SDone /\ s_deadline y <= clock s) ->
  rt_key r = rt_key (runtime c s) -> (forall key, s_state x = SWait key -> home x = c /\ wheel r = delete key (wheel (runtime c s))) -> ((forall key, s_state x <> SWait key) -> wheel r = wheel (runtime c s)) ->
  timers_ok (mk_timers (clock s) (<[c := r]> (runtimes s)) m (woken s)).
Proof.
  intros [] Hf Hm Hmf Hk Hw Hnw.
  assert (Hrt : forall c', runtime c' (mk_timers (clock s) (<[c := r]> (runtimes s)) m (woken s)) = if decide (c' = c) then r else runtime c' s) by (intros c'; apply (runtime_set c' c r s)).
  assert (Hold : forall g y k, m !! g = Some y -> s_state y = SWait k -> g <> f /\ sleeps s !! g = Some y).
  { intros g y k Hg Hy. assert (g <> f) as Hne by (intros ->; apply Hmf in Hg as [? _]; congruence). split; [done|]. by rewrite <- Hm. }
  assert (Hsame : forall g y k, g <> f -> sleeps s !! g = Some y -> s_state y = SWait k -> home y = c -> wheel r !! k = wheel (runtime c s) !! k).
  { intros g y k Hne Hg Hy Hh. destruct (s_state x) as [|k'|] eqn:Hx; try (rewrite Hnw; done). destruct (Hw k' eq_refl) as [Hhx E]. rewrite E, lookup_delete_ne; [done|]. intros ->. apply Hne. eapply (t_uniq0 g f); eauto. congruence. }
  split; try setoid_rewrite Hrt; simpl.
  - intros g y Hg. destruct (decide (g = f)) as [->|]; [by apply Hmf in Hg as [_ ?]|rewrite Hm in Hg by done; eauto].
  - intros g y k Hg Hy. destruct (Hold _ _ _ Hg Hy) as [Hne Hg']. destruct (t_wait0 _ _ _ Hg' Hy) as (H1 & H2 & H3). case_decide as E; [|done]. rewrite E in *. rewrite Hk, (Hsame g y k) by done. done.
  - intros f1 f2 x1 x2 k H1 H2 Hx1 Hx2. destruct (Hold _ _ _ H1 Hx1), (Hold _ _ _ H2 Hx2). eauto.
  - intros c' k v Hv. assert (wheel (runtime c' s) !! k = Some v /\ (c' = c -> s_state x <> SWait k)) as [Hv' Hnx].
    { case_decide as E; [subst c'|split; done]. destruct (s_state x) as [|k'|] eqn:Hx; try (rewrite Hnw in Hv by done; split; [done|congruence]).
      destruct (Hw k' eq_refl) as [_ E]. rewrite E in Hv. apply lookup_delete_Some in Hv as [? ?]. split; [done|congruence]. }
    destruct (t_owned0 _ _ _ Hv') as (g & y & Hg & Hy & Hh). exists g, y. rewrite Hm; [done|]. intros ->. simplify_eq. destruct (Hw k Hy) as [<- _]. by apply Hnx.
  - intros c'. case_decide; [rewrite Hk|]; done.
Qed.

Lemma poll_ok c f w x s : timers_ok s -> sleeps s !! f = Some x -> pinned (TPoll c f w) s = true -> timers_ok (sleep_poll c f w x s).2.
Proof.
  intros Hok Hf Hpin. simpl in Hpin. rewrite Hf in Hpin. apply andb_true_iff in Hpin as [Hlt Hh]. apply Z.ltb_lt in Hlt. pose proof (t_key _ Hok c) as Hk.
  unfold sleep_poll. destruct (s_state x) as [|key|] eqn:Hx; [|..|done].
  - unfold rt_add. destruct (Z.leb_spec (s_deadline x) (clock s)) as [Hd|Hd].
    + simpl. assert (set_sleep f (mk_sleep (s_deadline x) SDone c w) s = mk_timers (clock s) (runtimes s) (<[f := mk_sleep (s_deadline x) SDone c w]> (sleeps s)) (woken s)) as -> by done.
      destruct Hok as [H1 H2 H3 H4 H5]. split; simpl.
      * intros g y [[<- <-]|[? ?]]%lookup_insert_Some; [done|eauto].
      * intros g y key [[<- <-]|[? Hg]]%lookup_insert_Some Hy; [done|]. exact (H2 _ _ _ Hg Hy).
      * intros f1 f2 x1 x2 key [[<- <-]|[? ?]]%lookup_insert_Some [[<- <-]|[? ?]]%lookup_insert_Some; try done. eauto.
      * intros c' key v Hv. destruct (H4 _ _ _ Hv) as (g & y & Hg & Hy & ?). exists g, y. rewrite lookup_insert_ne; [done|congruence].
      * exact H5.
    + unfold timer_poll, rt_poll. rewrite runtime_set, decide_True by done. simpl. rewrite lookup_insert_eq. simpl.
      pose proof (armed_ok c f w x (s_deadline x, rt_key (runtime c s)) (mk_runtime (as_u64 (rt_key (runtime c s) + 1)) (<[(s_deadline x, rt_key (runtime c s)) := w]> (wheel (runtime c s)))) s) as Ha.
      unfold set_sleep, set_runtime in *. simpl in *. rewrite insert_insert_eq, insert_insert_eq. apply Ha; try done; rewrite ?as_u64_small by lia; try lia; auto; [|apply lookup_insert_eq].
      intros k Hne. by rewrite lookup_insert_ne.
  - assert (home x = c) as Hhc by (destruct x; simpl in *; subst; by apply Z.eqb_eq). destruct (t_wait _ Hok _ _ _ Hf Hx) as (H1 & H2 & H3). rewrite Hhc in *.
    unfold timer_poll, rt_poll. destruct H3 as [H3|(H3 & H4 & _)]; rewrite H3; simpl.
    + eapply armed_ok; try done; simpl; [lia|by left| |apply lookup_insert_eq]. intros k Hne. by rewrite lookup_insert_ne.
    + apply (ended_ok f x _ (runtime c s) c s); try done; simpl.
      * intros g Hne. by rewrite lookup_insert_ne.
      * intros y. rewrite lookup_insert_eq. by intros [= <-].
      * intros k E. split; [done|]. rewrite delete_id; [done|congruence].
Qed.

Lemma drop_ok c f x s : timers_ok s -> sleeps s !! f = Some x -> pinned (TDrop c f) s = true -> timers_ok (sleep_drop c f x s).
Proof.
  intros Hok Hf Hpin. simpl in Hpin. rewrite Hf in Hpin. unfold sleep_drop.
  assert (Hsub : forall g : Z, g <> f -> delete f (sleeps s) !! g = sleeps s !! g) by (intros; by rewrite lookup_delete_ne).
  assert (Hnone : forall y, delete f (sleeps s) !! f = Some y -> s_state y = SDone /\ s_deadline y <= clock s) by (intros y; by rewrite lookup_delete_eq).
  assert (Hplain : (forall key, s_state x <> SWait key) -> timers_ok (mk_timers (clock s) (runtimes s) (delete f (sleeps s)) (woken s))).
  { intros Hn. destruct Hok as [H1 H2 H3 H4 H5]. split; simpl.
    - intros g y [_ ?]%lookup_delete_Some. eauto.
    - intros g y key [_ Hg]%lookup_delete_Some Hy. exact (H2 _ _ _ Hg Hy).
    - intros f1 f2 x1 x2 key [_ ?]%lookup_delete_Some [_ ?]%lookup_delete_Some. eauto.
    - intros c' key v Hv. destruct (H4 _ _ _ Hv) as (g & y & Hg & Hy & ?). exists g, y. rewrite Hsub; [done|]. intros ->. simplify_eq. by eapply Hn.
    - exact H5. }
  destruct (s_state x) as [|key|] eqn:Hx; try (by apply Hplain). assert (home x = c) as Hhc by (destruct x; simpl in *; subst; by apply Z.eqb_eq).
  apply (ended_ok f x _ (rt_cancel key (runtime c s)) c s); try done; simpl; [|congruence]. intros k E. split; [done|]. congruence.
Qed.

Lemma tick_ok c s : timers_ok s -> timers_ok (check_timer_events c s).
Proof.
  intros [H1 H2 H3 H4 H5]. unfold check_timer_events. destruct (rt_wake (clock s) (runtime c s)) as [ws r] eqn:Hw.
  assert (ws = (rt_wake (clock s) (runtime c s)).1 /\ r = (rt_wake (clock s) (runtime c s)).2) as [E1 E2] by (by rewrite Hw). clear Hw.
  assert (rt_key r = rt_key (runtime c s)) as Hk by (by rewrite E2).
  assert (Hrt : forall c', runtime c' (mk_timers (clock s) (<[c := r]> (runtimes s)) (sleeps s) (woken s ++ ws)) = if decide (c' = c) then r else runtime c' s) by (intros c'; apply (runtime_set c' c r s)).
  split; try setoid_rewrite Hrt; simpl; [done|..|done| |].
  - intros f x key Hf Hx. destruct (H2 _ _ _ Hf Hx) as (A & B & D). assert (Hin : waker x ∈ woken s -> waker x ∈ woken s ++ ws) by (intros; apply elem_of_app; by left).
    case_decide as E; [rewrite E in *|naive_solver]. rewrite Hk. split_and!; [done..|]. destruct (expired_at (clock s) key) eqn:He.
    + destruct D as [D|(D & ? & ?)]; right.
      * destruct (wake_hits _ _ _ _ D He) as [P1 P2]. rewrite <- E1 in P1. rewrite <- E2 in P2. split_and!; [done|rewrite <- A; by apply expired_past|apply elem_of_app; by right].
      * split_and!; [|done|by auto]. destruct (wheel r !! key) as [v|] eqn:Hv; [|done]. rewrite E2 in Hv. apply wake_sub in Hv as [? _]. congruence.
    + rewrite E2, wake_keeps by done. naive_solver.
  - intros c' key v. case_decide as E; [subst c' r|by apply H4]. intros [Hv _]%wake_sub. by eapply H4.
  - intros c'. case_decide; [rewrite Hk|]; apply H5.
Qed.

Lemma timer_step_ok e s s' : timers_ok s -> pinned e s = true -> timer_step e s = Some s' -> timers_ok s'.
Proof.
  intros Hok Hp Hs. destruct e as [f d|c f w|c f|c|n]; simpl in Hs.
  - destruct (sleeps s !! f) eqn:Hf; [done|]. injection Hs as <-. by apply new_ok.
  - apply bind_Some in Hs as (x & Hf & [= <-]). by apply poll_ok.
  - apply bind_Some in Hs as (x & Hf & [= <-]). by apply drop_ok.
  - injection Hs as <-. by apply tick_ok.
  - destruct (Z.leb_spec 0 n); [|done]. injection Hs as <-. destruct Hok as [H1 H2 H3 H4 H5]. split; simpl; [| |done|done|done].
    + intros f x Hf Hx. specialize (H1 _ _ Hf Hx). lia.
    + intros f x key Hf Hx. destruct (H2 _ _ _ Hf Hx) as (A & B & [D|(D & F & G)]); split_and!; try done; [by left|right; split_and!; [done|lia|done]].
Qed.

Lemma timers_new_ok now : timers_ok (timers_new now).
Proof.
  assert (Hr : forall c, runtime c (timers_new now) = runtime_new) by (intros c; unfold runtime; simpl; by rewrite lookup_empty).
  split; try setoid_rewrite Hr; simpl; try (intros *; by rewrite lookup_empty). intros _. lia.
Qed.

Lemma pinned_run_ok s s' : timers_ok s -> pinned_run s s' -> timers_ok s'.
Proof. intros Hok Hr. revert Hok. induction Hr; [done|]. intros Hok. eapply (timer_step_ok e s1); auto. Qed.

(** ** What sleeping tasks may rely on *)

(** C32: As long as every future is polled and dropped on one CPU, no sleep ends before its deadline;
    one that waits is armed in the wheel of its CPU with the waker of its last poll, or its deadline
    has passed and that waker has been woken; and a wheel holds nothing but what is waited for. *)
Theorem pinned_timers_are_exact now s :
  pinned_run (timers_new now) s ->
  (forall f x, sleeps s !! f = Some x -> s_state x = SDone -> s_deadline x <= clock s) /\
  (forall f x key, sleeps s !! f = Some x -> s_state x = SWait key ->
     wheel (runtime (home x) s) !! key = Some (waker x) \/ (s_deadline x <= clock s /\ waker x ∈ woken s)) /\
  (forall c key w, wheel (runtime c s) !! key = Some w -> exists f x, sleeps s !! f = Some x /\ s_state x = SWait key /\ home x = c).
Proof.
  intros Hr. destruct (pinned_run_ok _ _ (timers_new_ok now) Hr) as [H1 H2 H3 H4 H5]. split_and!; [done| |done].
  intros f x key Hf Hx. destruct (H2 _ _ _ Hf Hx) as (_ & _ & [?|(_ & ?)]); auto.
Qed.

(** A timer interrupt of its CPU at or after the deadline wakes a waiting task up. *)
Theorem tick_wakes_the_expired now s f x key :
  pinned_run (timers_new now) s -> sleeps s !! f = Some x -> s_state x = SWait key -> s_deadline x <= clock s -> waker x ∈ woken (check_timer_events (home x) s).
Proof.
  intros Hr Hf Hx Hd. destruct (pinned_run_ok _ _ (timers_new_ok now) Hr) as [H1 H2 H3 H4 H5]. destruct (H2 _ _ _ Hf Hx) as (A & B & [D|(_ & _ & D)]).
  - assert (expired_at (clock s) key = true) as He.
    { unfold expired_at. pose proof (H5 (home x)). destruct (Z.ltb_spec key.1 (clock s)); [done|]. apply orb_true_iff. right. apply andb_true_iff. split; [apply Z.eqb_eq; lia|apply Z.ltb_lt; lia]. }
    destruct (wake_hits _ _ _ _ D He) as [P _]. unfold check_timer_events. destruct (rt_wake (clock s) (runtime (home x) s)). simpl in *. apply elem_of_app. by right.
  - unfold check_timer_events. destruct (rt_wake (clock s) (runtime (home x) s)). simpl. apply elem_of_app. by left.
Qed.

(** On two CPUs a sleep ends at once: polled again on another CPU before its deadline, because
    something else woke the task, the future does not find its key there and takes it for expired.
    Its entry stays behind in the first wheel. *)
Theorem migrated_sleep_ends_early :
  exists s x, timer_run [TNew 1 100; TPoll 0 1 7; TTime 1; TPoll 1 1 7] (timers_new 0) = Some s /\
    sleeps s !! 1 = Some x /\ s_state x = SDone /\ s_deadline x = 100 /\ clock s = 1 /\ wheel (runtime 0 s) !! (100, 0) = Some 7.
Proof. eexists _, _. split; [vm_compute; reflexivity|]. split; [vm_compute; reflexivity|]. split_and!; vm_compute; reflexivity. Qed.

(** ** Witnesses *)

Fixpoint pinned_all (es : list timer_event) (s : timers) : option timers :=
  match es with [] => Some s | e :: es => if pinned e s then s' ← timer_step e s; pinned_all es s' else None end.

Lemma pinned_all_run es : forall s0 s s', pinned_run s0 s -> pinned_all es s = Some s' -> pinned_run s0 s'.
Proof.
  induction es as [|e es IH]; intros s0 s s' Hr Hs; [by simplify_eq/=|]. simpl in Hs. destruct (pinned e s) eqn:Hp; [|done]. apply bind_Some in Hs as (s1 & H1 & H2).
  eapply IH; [|exact H2]. by eapply pinned_step.
Qed.

(** Two sleeps on CPU 0; the first has expired and its task has not been polled again. *)
Definition two_sleeps : list timer_event := [TNew 1 5; TNew 2 9; TPoll 0 1 11; TPoll 0 2 12; TTime 6; TTick 0].

Lemma two_sleeps_run : exists s, pinned_all two_sleeps (timers_new 0) = Some s /\ pinned_run (timers_new 0) s.
Proof.
  destruct (pinned_all two_sleeps (timers_new 0)) as [s|] eqn:Hs; [|vm_compute in Hs; discriminate]. exists s. split; [done|]. eapply pinned_all_run; [apply pinned_refl|exact Hs].
Qed.

Lemma pinned_timers_are_exact_witness : exists s x, pinned_all two_sleeps (timers_new 0) = Some s /\ sleeps s !! 1 = Some x /\ s_deadline x <= clock s /\ waker x ∈ woken s.
Proof.
  destruct two_sleeps_run as (s & Hs & Hr). destruct (pinned_timers_are_exact 0 s Hr) as (_ & Hw & _). destruct (sleeps s !! 1) as [x|] eqn:Hx; [|vm_compute in Hs; injection Hs as <-; vm_compute in Hx; discriminate].
  exists s, x. split; [exact Hs|]. split; [exact Hx|]. specialize (Hw 1 x (5, 0) Hx).
  vm_compute in Hs. injection Hs as <-. vm_compute in Hx. injection Hx as <-. destruct (Hw eq_refl) as [Hk|?]; [vm_compute in Hk; discriminate|done].
Defined.

Lemma tick_wakes_the_expired_witness : exists s, pinned_all (take 5 two_sleeps) (timers_new 0) = Some s /\ 11 ∈ woken (check_timer_events 0 s).
Proof.
  destruct (pinned_all (take 5 two_sleeps) (timers_new 0)) as [s|] eqn:Hs; [|vm_compute in Hs; discriminate]. exists s. split; [reflexivity|].
  assert (pinned_run (timers_new 0) s) as Hr by (eapply pinned_all_run; [apply pinned_refl|exact Hs]).
  apply (tick_wakes_the_expired 0 s 1 (mk_sleep 5 (SWait (5, 0)) 0 11) (5, 0) Hr); [|reflexivity|]; vm_compute in Hs; injection Hs as <-; [vm_compute; reflexivity|simpl; lia].
Defined.
