(* ===== verification/Tty.v ===== *)
(** * Terminals

    [kernel/src/pseudofs/dev/tty/]: terminal attributes ([terminal/termios.rs]), job control
    ([terminal/job.rs]), the line discipline ([terminal/ldisc.rs]) and pseudo terminals ([pty.rs],
    [mod.rs]).

    The input of a terminal is edited by a task of its own, [tty-reader], which fetches bytes from
    the device, echoes them, turns them into lines and puts these into a ring buffer, from which
    [read] takes them.  The task, the readers and the master side of the pseudo terminal run
    concurrently: the steps of the task are those of its loop, and a [read] goes through the phases
    of [poll_io].  A ring buffer ([ringbuf]) is a sequence with a capacity; a poll set ([axpoll]) is
    represented by whether the task in question is registered with it. *)

From S2P Require Import Prelude Io PageCache.

(** ** Attributes: [termios.rs] *)

(** Flags and indices of control characters, from the kernel's interface. *)
Definition IGNCR : Z := 0x80.
Definition ICRNL : Z := 0x100.
Definition IXON : Z := 0x400.
Definition OPOST : Z := 0x1.
Definition ONLCR : Z := 0x4.
Definition B38400 : Z := 0xf.
Definition CS8 : Z := 0x30.
Definition CREAD : Z := 0x80.
Definition ISIG : Z := 0x1.
Definition ICANON : Z := 0x2.
Definition ECHO : Z := 0x8.
Definition ECHOE : Z := 0x10.
Definition ECHOK : Z := 0x20.
Definition ECHOCTL : Z := 0x200.
Definition ECHOKE : Z := 0x800.
Definition IEXTEN : Z := 0x8000.

Definition VINTR : nat := 0.
Definition VQUIT : nat := 1.
Definition VERASE : nat := 2.
Definition VKILL : nat := 3.
Definition VEOF : nat := 4.
Definition VTIME : nat := 5.
Definition VMIN : nat := 6.
Definition VEOL : nat := 11.
Definition VREPRINT : nat := 12.
Definition VDISCARD : nat := 13.
Definition VWERASE : nat := 14.
Definition VLNEXT : nat := 15.
Definition VEOL2 : nat := 16.

Definition SIGINT : Z := 2.
Definition SIGQUIT : Z := 3.

(** Characters of the source: newline, carriage return, backspace, space and the caret. *)
Definition LF : Z := 10.
Definition CR : Z := 13.
Definition BS : Z := 8.
Definition SP : Z := 32.
Definition CARET : Z := 94.

Record Termios : Type := mk_termios {
  c_iflag : Z;
  c_oflag : Z;
  c_cflag : Z;
  c_lflag : Z;
  c_line : Z;
  c_cc : list Z;
}.

Record Termios2 : Type := mk_termios2 { termios : Termios; c_ispeed : Z; c_ospeed : Z }.

Definition ctl (ch : Z) : Z := ch - 0x40.

(** [Termios::default]. *)
Definition default_cc : list (nat * Z) :=
  [(VINTR, ctl 67); (VQUIT, ctl 92); (VERASE, 127); (VKILL, ctl 85); (VEOF, ctl 68); (VEOL, 0);
   (VREPRINT, ctl 82); (VDISCARD, ctl 79); (VWERASE, ctl 87); (VLNEXT, ctl 86); (VEOL2, 0)].
Definition termios_default : Termios :=
  mk_termios (Z.lor ICRNL IXON) (Z.lor OPOST ONLCR) (Z.lor B38400 (Z.lor CS8 CREAD))
    (foldr Z.lor 0 [ICANON; ECHO; ISIG; ECHOE; ECHOK; ECHOCTL; ECHOKE; IEXTEN]) 0
    (foldl (fun cc '(i, ch) => <[i := ch]> cc) (replicate 19 0) default_cc).

(** [Termios2::new] and its default. *)
Definition termios2_new (t : Termios) : Termios2 := mk_termios2 t B38400 B38400.
Definition termios2_default : Termios2 := termios2_new termios_default.

(** The methods, which [Termios2] has by dereferencing.  All indices are below 19. *)
Definition special_char (i : nat) (t : Termios2) : Z := nth i (c_cc (termios t)) 0.
Definition has_iflag (f : Z) (t : Termios2) : bool := negb (Z.land (c_iflag (termios t)) f =? 0).
Definition has_lflag (f : Z) (t : Termios2) : bool := negb (Z.land (c_lflag (termios t)) f =? 0).
Definition echo (t : Termios2) : bool := has_lflag ECHO t.
Definition canonical (t : Termios2) : bool := has_lflag ICANON t.
Definition contains_iexten (t : Termios2) : bool := has_lflag IEXTEN t.

Definition is_eol (ch : Z) (t : Termios2) : bool :=
  if (ch =? LF) || (ch =? special_char VEOL t) then true
  else if contains_iexten t && (ch =? special_char VEOL2 t) then true
  else false.

Definition signo_for (ch : Z) (t : Termios2) : option Z :=
  if ch =? special_char VINTR t then Some SIGINT
  else if ch =? special_char VQUIT t then Some SIGQUIT
  else None.

(** [u8::is_ascii_graphic] and [u8::is_ascii_control]. *)
Definition is_ascii_graphic (ch : Z) : bool := (33 <=? ch) && (ch <=? 126).
Definition is_ascii_control (ch : Z) : bool := (ch <=? 31) || (ch =? 127).

(** ** Job control: [job.rs] *)

(** Process groups and sessions ([starry_process]): which are alive, and the session of a group. *)
Class Processes (P : Type) := {
  group_alive : Z -> P -> bool;
  session_alive : Z -> P -> bool;
  group_session : Z -> P -> Z;
  process_group : Z -> P -> Z;
  session_has_terminal : Z -> P -> bool;
  set_session_terminal : Z -> P -> P;
}.

Record JobControl : Type := mk_job { jc_foreground : option Z; jc_session : option Z }.

Definition job_new : JobControl := mk_job None None.

Section job_control.
Context {P : Type} `{Processes P}.

(** [Weak::upgrade]. *)
Definition upgrade_group (g : option Z) (p : P) : option Z :=
  match g with Some g => if group_alive g p then Some g else None | None => None end.
Definition upgrade_session (s : option Z) (p : P) : option Z :=
  match s with Some s => if session_alive s p then Some s else None | None => None end.

Definition foreground (j : JobControl) (p : P) : option Z := upgrade_group (jc_foreground j) p.

Definition current_in_foreground (curr : Z) (j : JobControl) (p : P) : bool :=
  match foreground j p with Some g => curr =? g | None => true end.

(** [set_foreground]: the result, the new state, and whether the waiting tasks are woken. *)
Definition set_foreground (pg : Z) (j : JobControl) (p : P) : result VfsError () * JobControl * bool :=
  if bool_decide (jc_foreground j = Some pg) then (Ok (), j, false)
  else match upgrade_session (jc_session j) p with
       | None => (Err OperationNotPermitted, j, false)
       | Some s => if group_session pg p =? s then (Ok (), mk_job (Some pg) (jc_session j), true)
                   else (Err OperationNotPermitted, j, false)
       end.

(** [set_session]: [None] if the assertion fails. *)
Definition set_session (s : Z) (j : JobControl) (p : P) : option JobControl :=
  match upgrade_session (jc_session j) p with
  | None => Some (mk_job (jc_foreground j) (Some s))
  | Some _ => None
  end.

(** [Tty::bind_to] for the process [pid], whose number is that of its session if it leads it: [None]
    if an assertion fails.  [Session::set_terminal_with] calls its argument, which does
    [set_session], only if the session has no terminal. *)
Definition bind_to (pid : Z) (j : JobControl) (p : P) : option (result VfsError () * JobControl * P) :=
  let pg := process_group pid p in
  let s := group_session pg p in
  if negb (s =? pid) then Some (Err OperationNotPermitted, j, p)
  else if session_has_terminal s p then None
  else match set_session s j p with
       | None => None
       | Some j =>
           let p := set_session_terminal s p in
           match set_foreground pg j p with
           | (Ok _, j, _) => Some (Ok (), j, p)
           | (Err _, _, _) => None
           end
       end.

(** A session leader that has no terminal, of a terminal without a session, gets it and is in the
    foreground; a second attempt does not return. *)
Lemma bind_to_once pid j p :
  group_session (process_group pid p) p = pid -> session_has_terminal pid p = false ->
  upgrade_session (jc_session j) p = None ->
  (forall q, q = set_session_terminal pid p -> session_has_terminal pid q = true /\ session_alive pid q = true /\
     process_group pid q = process_group pid p /\ group_session (process_group pid p) q = pid) ->
  exists j' p', bind_to pid j p = Some (Ok tt, j', p') /\ jc_foreground j' = Some (process_group pid p) /\
    bind_to pid j' p' = None.
Proof.
  intros Hs Ht Hn Hq. destruct (Hq _ eq_refl) as (Hq1 & Hq2 & Hq3 & Hq4). unfold bind_to, set_session. rewrite Hs, Z.eqb_refl, Ht, Hn. simpl.
  unfold set_foreground. simpl. case_bool_decide as Hf.
  - do 2 eexists. split_and!; [done|done|]. by rewrite Hq3, Hq4, Z.eqb_refl, Hq1.
  - rewrite Hq2, Hq4, Z.eqb_refl. do 2 eexists. split_and!; [done|done|]. by rewrite Hq3, Hq4, Z.eqb_refl, Hq1.
Qed.
End job_control.

(** ** The line discipline: [ldisc.rs] *)

Definition BUF_SIZE : nat := 80.

(** [push_slice] and [pop_slice] of a ring buffer with [cap] places: the new contents, with the
    number of bytes taken, or the bytes given. *)
Definition push_slice (cap : nat) (bs q : list Z) : nat * list Z :=
  let n := Nat.min (cap - length q) (length bs) in (n, q ++ take n bs).
Definition pop_slice (n : nat) (q : list Z) : list Z * list Z := (take n q, drop n q).

(** The traits [TtyRead] and [TtyWrite] of the two ends of a device. *)
Class TtyDevice (D : Type) := {
  tty_read : nat -> D -> list Z * D;
  tty_write : list Z -> D -> D;
}.

(** [InputReader] with the ring buffer it shares with its [LineDiscipline] and their flag.  Of
    [read_buf] only the bytes in [read_range] matter: [read_pending]. *)
Record Ldisc : Type := mk_ldisc {
  rx : list Z;
  read_pending : list Z;
  line_buf : list Z;
  line_read : option nat;
  clear_line_buf : bool;
}.

Definition ldisc_new : Ldisc := mk_ldisc [] [] [] None false.

Definition set_rx (q : list Z) (l : Ldisc) : Ldisc :=
  mk_ldisc q (read_pending l) (line_buf l) (line_read l) (clear_line_buf l).
Definition set_pending (bs : list Z) (l : Ldisc) : Ldisc :=
  mk_ldisc (rx l) bs (line_buf l) (line_read l) (clear_line_buf l).
Definition set_line (bs : list Z) (l : Ldisc) : Ldisc :=
  mk_ldisc (rx l) (read_pending l) bs (line_read l) (clear_line_buf l).
Definition set_line_read (o : option nat) (l : Ldisc) : Ldisc :=
  mk_ldisc (rx l) (read_pending l) (line_buf l) o (clear_line_buf l).
Definition set_clear (b : bool) (l : Ldisc) : Ldisc :=
  mk_ldisc (rx l) (read_pending l) (line_buf l) (line_read l) b.

(** What the input of a character touches: the line discipline, the device, and the signals sent,
    each with the process group it goes to. *)
Record input (D : Type) : Type := mk_input { i_ld : Ldisc; i_dev : D; i_signals : list (Z * Z) }.
Arguments mk_input {D} i_ld i_dev i_signals.
Arguments i_ld {D} i.
Arguments i_dev {D} i.
Arguments i_signals {D} i.

Section input_reader.
Context {D : Type} `{TtyDevice D}.

Definition on_ld (f : Ldisc -> Ldisc) (i : input D) : input D := mk_input (f (i_ld i)) (i_dev i) (i_signals i).

Definition check_send_signal (fg : option Z) (term : Termios2) (ch : Z) (i : input D) : input D :=
  if negb (canonical term) || negb (has_lflag ISIG term) then i
  else match signo_for ch term, fg with
       | Some signo, Some pg => mk_input (i_ld i) (i_dev i) (i_signals i ++ [(pg, signo)])
       | _, _ => i
       end.

(** What [output_char] writes. *)
Definition echo_of (term : Termios2) (ch : Z) : option (list Z) :=
  if ch =? LF then Some [LF]
  else if ch =? CR then Some [CR; LF]
  else if ch =? special_char VERASE term then Some [BS; SP; BS]
  else if (ch =? SP) || is_ascii_graphic ch then Some [ch]
  else if is_ascii_control ch && has_lflag ECHOCTL term then Some [CARET; as_u8 (ch + 0x40)]
  else None.
Definition output_char (term : Termios2) (ch : Z) (i : input D) : input D :=
  match echo_of term ch with Some bs => mk_input (i_ld i) (tty_write bs (i_dev i)) (i_signals i) | None => i end.

(** The part of the loop of [InputReader::poll] that deals with a character in canonical mode. *)
Definition canonical_char (term : Termios2) (ch : Z) (l : Ldisc) : Ldisc :=
  if has_lflag ECHOK term && (ch =? special_char VKILL term) then set_line [] l
  else if ch =? special_char VERASE term then set_line (removelast (line_buf l)) l
  else if is_eol ch term || (ch =? special_char VEOF term) then
    let l := if ch =? special_char VEOF term then l else set_line (line_buf l ++ [ch]) l in
    if (0 <? length (line_buf l))%nat then set_line_read (Some 0%nat) l else l
  else if is_ascii_graphic ch then set_line (line_buf l ++ [ch]) l
  else l.

(** One round of that loop: it ends the loop, or goes on with the number of bytes sent, or fails:
    the slice out of range, or no room for a byte. *)
Inductive turn : Type := Break | Continue (sent : nat) | Crash.

(** The part that deals with a character, after carriage returns. *)
Definition process_char (fg : option Z) (term : Termios2) (ch : Z) (sent : nat) (i : input D) : turn * input D :=
  let i := check_send_signal fg term ch i in
  let i := if echo term then output_char term ch i else i in
  if negb (canonical term) then
    if (BUF_SIZE <=? length (rx (i_ld i)))%nat then (Crash, i)
    else (Continue (sent + 1), on_ld (fun l => set_rx (rx l ++ [ch]) l) i)
  else (Continue sent, on_ld (canonical_char term ch) i).

Definition loop_turn (fg : option Z) (term : Termios2) (sent : nat) (i : input D) : turn * input D :=
  let l := i_ld i in
  match line_read l with
  | Some offset =>
      if (length (line_buf l) <? offset)%nat then (Crash, i)
      else
        let '(n, q) := push_slice BUF_SIZE (drop offset (line_buf l)) (rx l) in
        if (n =? 0)%nat then (Break, i)
        else
          let l := set_rx q l in
          let l := if (offset + n =? length (line_buf l))%nat then set_line [] (set_line_read None l)
                   else set_line_read (Some (offset + n)%nat) l in
          (Continue (sent + n), on_ld (fun _ => l) i)
  | None =>
      match read_pending l with
      | [] => (Break, i)
      | ch :: rest =>
          if (BUF_SIZE <=? length (rx l))%nat then (Break, i)
          else
            let i := on_ld (set_pending rest) i in
            if (ch =? CR) && has_iflag IGNCR term then (Continue sent, i)
            else
              process_char fg term (if (ch =? CR) && has_iflag ICRNL term then LF else ch) sent i
      end
  end.

(** The parts of [InputReader::poll] before the loop. *)
Definition poll_swap (l : Ldisc) : Ldisc :=
  if clear_line_buf l then set_line [] (set_clear false l) else l.
Definition poll_fetch (i : input D) : input D :=
  match read_pending (i_ld i) with
  | [] => let '(bs, d) := tty_read BUF_SIZE (i_dev i) in mk_input (set_pending bs (i_ld i)) d (i_signals i)
  | _ :: _ => i
  end.

(** The loop and [InputReader::poll] as a whole, for a reader that nobody interrupts (the mode
    [Manual]): [None] if it fails. *)
Fixpoint poll_loop (fuel : nat) (fg : option Z) (term : Termios2) (sent : nat) (i : input D) : option (nat * input D) :=
  match fuel with
  | O => None
  | S fuel =>
      match loop_turn fg term sent i with
      | (Break, i) => Some (sent, i)
      | (Continue sent, i) => poll_loop fuel fg term sent i
      | (Crash, _) => None
      end
  end.

Definition poll_fuel (l : Ldisc) : nat := 3 * (length (read_pending l) + 1) + 2.
Definition input_poll (fg : option Z) (term : Termios2) (i : input D) : option (bool * input D) :=
  let i := poll_fetch (on_ld poll_swap i) in
  match poll_loop (poll_fuel (i_ld i)) fg term 0 i with
  | Some (sent, i) => Some (0 <? sent, i)%nat
  | None => None
  end.

(** [SimpleReader::poll], with the ring buffer of the master side. *)
Definition simple_push (q : list Z) (ch : Z) : list Z :=
  let q := if ch =? LF then (push_slice BUF_SIZE [CR] q).2 else q in (push_slice BUF_SIZE [ch] q).2.
Definition simple_poll (q : list Z) (d : D) : list Z * D :=
  let '(bs, d) := tty_read BUF_SIZE d in (foldl simple_push q bs, d).
End input_reader.

(** [LineDiscipline::drain_input]: the two accesses. *)
Definition drain_rx (l : Ldisc) : Ldisc := set_rx [] l.
Definition drain_flag (l : Ldisc) : Ldisc := set_clear true l.
Definition drain_input (l : Ldisc) : Ldisc := drain_flag (drain_rx l).

(** [LineDiscipline::read] up to the waiting: an immediate result, a panic ([todo!]), or the number
    of bytes to wait for. *)
Inductive read_begin : Type := ReadDone (r : result VfsError nat) | ReadPanic | ReadWait (vmin : nat).
Definition ldisc_read_begin (len : nat) (term : Termios2) : read_begin :=
  if (len =? 0)%nat then ReadDone (Ok 0%nat)
  else
    let wait vmin := if (len <? vmin)%nat then ReadDone (Err WouldBlock) else ReadWait vmin in
    if canonical term then wait 1%nat
    else if 0 <? special_char VTIME term then ReadPanic
    else wait (Z.to_nat (special_char VMIN term)).

(** ** Pseudo terminals: [pty.rs] *)

Definition PTY_BUF_SIZE : nat := 4096.

(** The two buffers of [create_pty_pair]. *)
Record Link : Type := mk_link { master_to_slave : list Z; slave_to_master : list Z }.

(** [PtyReader] and [PtyWriter] as the slave and the master have them; what does not fit is
    discarded. *)
#[export] Instance slave_device : TtyDevice Link := {|
  tty_read n k := let '(bs, q) := pop_slice n (master_to_slave k) in (bs, mk_link q (slave_to_master k));
  tty_write bs k := mk_link (master_to_slave k) (push_slice PTY_BUF_SIZE bs (slave_to_master k)).2;
|}.
Definition master_device : TtyDevice Link := {|
  tty_read n k := let '(bs, q) := pop_slice n (slave_to_master k) in (bs, mk_link (master_to_slave k) q);
  tty_write bs k := mk_link (push_slice PTY_BUF_SIZE bs (master_to_slave k)).2 (slave_to_master k);
|}.

(** ** The pair in operation *)

(** Where the task [tty-reader] is: in [poll], for the first or the second time of a round; in
    between, at the registrations; asleep; or dead after a panic. *)
Inductive stage : Type := Swap | Fetch | LoadTermios | Loop (term : Termios2) (sent : nat) | Notify.
Inductive task_pc : Type := Run (second : bool) (s : stage) | RegisterTx | RegisterSource | Asleep | Dead.

(** Where [poll_io] is, as in pipes. *)
Inductive phase : Type := Polling | Registering | Retrying | Waiting.

(** A [read] of the slave, which holds the lock of its line discipline: the room of the caller, the
    bytes to wait for, and those it has. *)
Record reader : Type := mk_reader { r_len : nat; r_vmin : nat; r_got : list Z; r_phase : phase }.

(** A [read] of the master, which waits for a change of the foreground group. *)
Record master_read : Type := mk_mread { m_len : nat; m_phase : phase; m_woken : bool }.

(** The pair: the device, the slave's line discipline and the signals of its input; the attributes;
    job control's foreground group; the task with its waker ([true]: woken since the round began) and
    where that is registered; the slave's reader with its waker and whether that is registered with
    [poll_rx]; the master's ring buffer and reader. *)
Record pty : Type := mk_pty {
  p_in : input Link;
  p_termios : Termios2;
  p_fg : option Z;
  p_task : task_pc;
  p_woken : bool;
  p_on_tx : bool;
  p_on_source : bool;
  p_reader : option reader;
  p_rwoken : bool;
  p_on_rx : bool;
  p_mrx : list Z;
  p_mreader : option master_read;
}.

(** [create_pty_pair]. *)
Definition create_pty_pair : pty :=
  mk_pty (mk_input ldisc_new (mk_link [] []) []) termios2_default None (Run false Swap) false false false None false false
    [] None.

Notation p_ld p := (i_ld (p_in p)).

Definition set_in (i : input Link) (p : pty) : pty :=
  mk_pty i (p_termios p) (p_fg p) (p_task p) (p_woken p) (p_on_tx p) (p_on_source p) (p_reader p) (p_rwoken p) (p_on_rx p)
    (p_mrx p) (p_mreader p).
Definition set_termios (t : Termios2) (p : pty) : pty :=
  mk_pty (p_in p) t (p_fg p) (p_task p) (p_woken p) (p_on_tx p) (p_on_source p) (p_reader p) (p_rwoken p) (p_on_rx p)
    (p_mrx p) (p_mreader p).
Definition set_fg (g : option Z) (p : pty) : pty :=
  mk_pty (p_in p) (p_termios p) g (p_task p) (p_woken p) (p_on_tx p) (p_on_source p) (p_reader p) (p_rwoken p) (p_on_rx p)
    (p_mrx p) (p_mreader p).
Definition set_task (t : task_pc) (woken : bool) (p : pty) : pty :=
  mk_pty (p_in p) (p_termios p) (p_fg p) t woken (p_on_tx p) (p_on_source p) (p_reader p) (p_rwoken p) (p_on_rx p)
    (p_mrx p) (p_mreader p).
Definition set_on (tx source : bool) (p : pty) : pty :=
  mk_pty (p_in p) (p_termios p) (p_fg p) (p_task p) (p_woken p) tx source (p_reader p) (p_rwoken p) (p_on_rx p)
    (p_mrx p) (p_mreader p).
Definition set_reader (r : option reader) (woken on : bool) (p : pty) : pty :=
  mk_pty (p_in p) (p_termios p) (p_fg p) (p_task p) (p_woken p) (p_on_tx p) (p_on_source p) r woken on
    (p_mrx p) (p_mreader p).
Definition set_master (q : list Z) (r : option master_read) (p : pty) : pty :=
  mk_pty (p_in p) (p_termios p) (p_fg p) (p_task p) (p_woken p) (p_on_tx p) (p_on_source p) (p_reader p) (p_rwoken p) (p_on_rx p)
    q r.

(** Wakers ([block_on]): a sleeping task starts a round, another notices at the end of its round. *)
Definition wake_task (p : pty) : pty :=
  match p_task p with Asleep => set_task (Run false Swap) false p | t => set_task t true p end.
Definition wake_tx (p : pty) : pty := if p_on_tx p then wake_task (set_on false (p_on_source p) p) else p.
Definition wake_source (p : pty) : pty := if p_on_source p then wake_task (set_on (p_on_tx p) false p) else p.
Definition wake_rx (p : pty) : pty :=
  if p_on_rx p then
    match p_reader p with
    | Some r => match r_phase r with
                | Waiting => set_reader (Some (mk_reader (r_len r) (r_vmin r) (r_got r) Polling)) false false p
                | _ => set_reader (Some r) true false p
                end
    | None => set_reader None false false p
    end
  else p.

(** A step of the task: the future of [LineDiscipline::new] in the mode [External]. *)
Definition task_step (p : pty) : option pty :=
  match p_task p with
  | Run b Swap => Some (set_task (Run b Fetch) (p_woken p) (set_in (on_ld poll_swap (p_in p)) p))
  | Run b Fetch => Some (set_task (Run b LoadTermios) (p_woken p) (set_in (poll_fetch (p_in p)) p))
  | Run b LoadTermios => Some (set_task (Run b (Loop (p_termios p) 0)) (p_woken p) p)
  | Run b (Loop term sent) =>
      match loop_turn (p_fg p) term sent (p_in p) with
      | (Continue sent, i) => Some (set_task (Run b (Loop term sent)) (p_woken p) (set_in i p))
      | (Crash, i) => Some (set_task Dead (p_woken p) (set_in i p))
      | (Break, _) =>
          Some (if (0 <? sent)%nat then set_task (Run b Notify) (p_woken p) p
                else if b then (if p_woken p then set_task (Run false Swap) false p else set_task Asleep false p)
                else set_task RegisterTx (p_woken p) p)
      end
  | Run b Notify => Some (wake_rx (set_task (Run b Swap) (p_woken p) p))
  | RegisterTx => Some (set_task RegisterSource (p_woken p) (set_on true (p_on_source p) p))
  | RegisterSource => Some (set_task (Run true Swap) (p_woken p) (set_on (p_on_tx p) true p))
  | Asleep | Dead => None
  end.

(** The closure that a [read] retries: the bytes it takes, and whether it is done. *)
Definition read_take (r : reader) (p : pty) : list Z := take (r_len r - length (r_got r)) (rx (p_ld p)).
Definition read_attempt (r : reader) (p : pty) : reader * bool * pty :=
  let '(bs, q) := pop_slice (r_len r - length (r_got r)) (rx (p_ld p)) in
  let r := mk_reader (r_len r) (r_vmin r) (r_got r ++ bs) (r_phase r) in
  (r, (r_vmin r <=? length (r_got r))%nat, wake_tx (set_in (on_ld (set_rx q) (p_in p)) p)).

Definition at_phase (ph : phase) (r : reader) : reader := mk_reader (r_len r) (r_vmin r) (r_got r) ph.

Inductive event : Type :=
| ETask
| EStart (curr : Z) (len : nat)
| EPoll
| ERegister
| ERetry
| EInterrupt
| EMasterWrite (bs : list Z)
| ESlaveWrite (bs : list Z)
| EMasterPoll
| EMasterStart (len : nat)
| EMasterTry
| ESetForeground (pg : Z)
| EForegroundGone
| ESetTermios (t : Termios2)
| EDrainRx
| EDrainFlag.

(** The steps of a [read] of the slave ([Tty::read_at] in the foreground, then the line discipline).
    A call with an immediate result changes nothing; one that panics is not a step. *)
Definition reader_step (e : event) (p : pty) : option pty :=
  match e, p_reader p with
  | EStart curr len, None =>
      if match p_fg p with Some g => curr =? g | None => true end then
        match ldisc_read_begin len (p_termios p) with
        | ReadDone _ => Some p
        | ReadPanic => None
        | ReadWait vmin => Some (set_reader (Some (mk_reader len vmin [] Polling)) false false p)
        end
      else None
  | EPoll, Some r =>
      match r_phase r with
      | Polling =>
          let '(r, fin, p) := read_attempt r p in
          Some (set_reader (if fin then None else Some (at_phase Registering r)) false (p_on_rx p) p)
      | _ => None
      end
  | ERegister, Some r =>
      match r_phase r with Registering => Some (set_reader (Some (at_phase Retrying r)) (p_rwoken p) true p) | _ => None end
  | ERetry, Some r =>
      match r_phase r with
      | Retrying =>
          let '(r, fin, p) := read_attempt r p in
          Some (set_reader (if fin then None else Some (at_phase (if p_rwoken p then Polling else Waiting) r)) (p_rwoken p)
                  (p_on_rx p) p)
      | _ => None
      end
  | EInterrupt, Some r => match r_phase r with Polling => Some (set_reader None false (p_on_rx p) p) | _ => None end
  | _, _ => None
  end.

(** The steps of a [read] of the master: [Tty::read_at] with [LineDiscipline::read] in the mode
    [None], retried by [poll_io], which registers with [poll_fg] of job control. *)
Definition master_try (r : master_read) (p : pty) : pty :=
  let '(bs, q) := pop_slice (m_len r) (p_mrx p) in
  match bs with
  | _ :: _ => set_master q None p
  | [] =>
      let r := match m_phase r with
               | Polling => mk_mread (m_len r) Registering false
               | _ => if m_woken r then mk_mread (m_len r) Polling false else mk_mread (m_len r) Waiting false
               end in
      set_master q (Some r) p
  end.
Definition wake_foreground (p : pty) : pty :=
  match p_mreader p with
  | Some r => match m_phase r with
              | Retrying => set_master (p_mrx p) (Some (mk_mread (m_len r) Retrying true)) p
              | Waiting => set_master (p_mrx p) (Some (mk_mread (m_len r) Polling false)) p
              | _ => p
              end
  | None => p
  end.
Definition master_step (e : event) (p : pty) : option pty :=
  match e, p_mreader p with
  | EMasterStart len, None => if (len =? 0)%nat then Some p else Some (set_master (p_mrx p) (Some (mk_mread len Polling false)) p)
  | EMasterTry, Some r =>
      match m_phase r with
      | Registering => Some (set_master (p_mrx p) (Some (mk_mread (m_len r) Retrying false)) p)
      | Waiting => None
      | _ => Some (master_try r p)
      end
  | _, _ => None
  end.

Definition pty_step (e : event) (p : pty) : option pty :=
  match e with
  | ETask => task_step p
  | EStart _ _ | EPoll | ERegister | ERetry | EInterrupt => reader_step e p
  | EMasterStart _ | EMasterTry => master_step e p
  | EMasterWrite bs =>
      let i := p_in p in
      Some (wake_source (set_in (mk_input (i_ld i) (@tty_write _ master_device bs (i_dev i)) (i_signals i)) p))
  | ESlaveWrite bs =>
      let i := p_in p in Some (set_in (mk_input (i_ld i) (tty_write bs (i_dev i)) (i_signals i)) p)
  | EMasterPoll =>
      let i := p_in p in
      let '(q, d) := @simple_poll _ master_device (p_mrx p) (i_dev i) in
      Some (set_master q (p_mreader p) (set_in (mk_input (i_ld i) d (i_signals i)) p))
  | ESetForeground pg => Some (if bool_decide (p_fg p = Some pg) then p else wake_foreground (set_fg (Some pg) p))
  | EForegroundGone => Some (set_fg None p)
  | ESetTermios t => Some (set_termios t p)
  | EDrainRx => match p_reader p with None => Some (set_in (on_ld drain_rx (p_in p)) p) | Some _ => None end
  | EDrainFlag => match p_reader p with None => Some (set_in (on_ld drain_flag (p_in p)) p) | Some _ => None end
  end.

Fixpoint pty_run (es : list event) (p : pty) : option pty :=
  match es with
  | [] => Some p
  | e :: es => p' ← pty_step e p; pty_run es p'
  end.
