(* ===== verification/TtySpec.v ===== *)
(** * Terminals: input is edited and delivered in order

    An editor without buffers is the specification of the line discipline: it turns one character
    at a time, under the attributes in force, into a change of the line being typed or into output.
    Over all interleavings of the reader task, the readers and the master side, what [read] returns
    is what the editor puts out, as long as the input is not flushed. *)

From S2P Require Import Prelude Io PageCache Tty.

(** ** The editor *)

(** The line being typed, and what has been put out. *)
Record editor : Type := mk_editor { e_line : list Z; e_out : list Z }.

(** What becomes of a carriage return. *)
Definition map_input (t : Termios2) (ch : Z) : option Z :=
  if ch =? CR then (if has_iflag IGNCR t then None else Some (if has_iflag ICRNL t then LF else CR)) else Some ch.

(** What a character means in canonical mode. *)
Inductive key : Type := Kill | Erase | EndOfLine | EndOfFile | Text | Ignored.
Definition key_of (t : Termios2) (ch : Z) : key :=
  if has_lflag ECHOK t && (ch =? special_char VKILL t) then Kill
  else if ch =? special_char VERASE t then Erase
  else if ch =? special_char VEOF t then EndOfFile
  else if is_eol ch t then EndOfLine
  else if is_ascii_graphic ch then Text
  else Ignored.

Definition edit_key (k : key) (ch : Z) (e : editor) : editor :=
  match k with
  | Kill => mk_editor [] (e_out e)
  | Erase => mk_editor (removelast (e_line e)) (e_out e)
  | EndOfLine => mk_editor [] (e_out e ++ e_line e ++ [ch])
  | EndOfFile => mk_editor [] (e_out e ++ e_line e)
  | Text => mk_editor (e_line e ++ [ch]) (e_out e)
  | Ignored => e
  end.

Definition edit_char (e : editor) (x : Termios2 * Z) : editor :=
  match map_input x.1 x.2 with
  | None => e
  | Some ch => if canonical x.1 then edit_key (key_of x.1 ch) ch e else mk_editor (e_line e) (e_out e ++ [ch])
  end.

Definition edit (xs : list (Termios2 * Z)) : editor := foldl edit_char (mk_editor [] []) xs.

(** ** One round of the loop *)

(** What is still to be sent of a finished line. *)
Definition unsent (l : Ldisc) : list Z := match line_read l with Some o => drop o (line_buf l) | None => [] end.

(** The line discipline [l], from which [outs] has been taken, is where the editor is. *)
Record agrees (outs : list Z) (e : editor) (l : Ldisc) : Prop := {
  ag_room : (length (rx l) <= BUF_SIZE)%nat;
  ag_clear : clear_line_buf l = false;
  ag_out : outs ++ rx l ++ unsent l = e_out e;
  ag_line : match line_read l with Some o => (o < length (line_buf l))%nat /\ e_line e = [] | None => e_line e = line_buf l end;
}.

(** The character that a round processes. *)
Definition turn_input (term : Termios2) (l : Ldisc) : list (Termios2 * Z) :=
  match line_read l, read_pending l with
  | None, ch :: _ => if (BUF_SIZE <=? length (rx l))%nat then [] else [(term, ch)]
  | _, _ => []
  end.

Lemma canonical_char_agrees term ch outs e l :
  agrees outs e l -> line_read l = None ->
  agrees outs (edit_key (key_of term ch) ch e) (canonical_char term ch l) /\
  read_pending (canonical_char term ch l) = read_pending l.
Proof.
  intros [Hr Hc Ho Hl] Hn. unfold unsent in Ho. rewrite Hn in Ho, Hl. rewrite app_nil_r in Ho.
  unfold canonical_char, key_of.
  destruct (has_lflag ECHOK term && _); [by split; [split; simpl; unfold unsent; simpl; rewrite ?Hn, ?app_nil_r|]|].
  destruct (ch =? special_char VERASE term); [by split; [split; simpl; unfold unsent; simpl; rewrite ?Hn, ?app_nil_r, ?Hl|]|].
  destruct (ch =? special_char VEOF term); rewrite ?orb_true_r, ?orb_false_r; simpl.
  - destruct (Nat.ltb_spec 0 (length (line_buf l))) as [Hlen|Hlen]; simpl.
    + split; [|done]. split; simpl; unfold unsent; simpl; rewrite ?drop_0; try done. by rewrite app_assoc, Ho, Hl.
    + destruct (line_buf l) as [|? ?] eqn:Hb; [|simpl in Hlen; lia]. split; [|done]. split; simpl; unfold unsent; simpl; rewrite ?Hn, ?Hb; try done.
      by rewrite Hl, !app_nil_r.
  - destruct (is_eol ch term); simpl.
    + rewrite length_app. simpl. destruct (Nat.ltb_spec 0 (length (line_buf l) + 1)) as [Hlen|Hlen]; [|lia]. split; [|done].
      split; simpl; unfold unsent; simpl; rewrite ?drop_0; try done.
      * by rewrite app_assoc, Ho, Hl.
      * rewrite length_app. simpl. split; [lia|done].
    + destruct (is_ascii_graphic ch); (split; [|done]); split; simpl; unfold unsent; simpl; rewrite ?Hn, ?app_nil_r; try done. by rewrite Hl.
Qed.

Section turns.
Context {D : Type} `{TtyDevice D}.

Lemma check_send_signal_ld fg term ch (i : input D) :
  i_ld (check_send_signal fg term ch i) = i_ld i /\ i_dev (check_send_signal fg term ch i) = i_dev i.
Proof. unfold check_send_signal. repeat case_match; done. Qed.

Lemma output_char_ld term ch (i : input D) : i_ld (output_char term ch i) = i_ld i.
Proof. unfold output_char. by case_match. Qed.

(** A character is processed as the editor does it. *)
Definition edit_mapped (term : Termios2) (ch : Z) (e : editor) : editor :=
  if canonical term then edit_key (key_of term ch) ch e else mk_editor (e_line e) (e_out e ++ [ch]).

Lemma process_char_agrees fg term ch sent (i i' : input D) t outs e :
  agrees outs e (i_ld i) -> line_read (i_ld i) = None -> (length (rx (i_ld i)) < BUF_SIZE)%nat ->
  process_char fg term ch sent i = (t, i') ->
  t <> Crash /\ agrees outs (edit_mapped term ch e) (i_ld i') /\ read_pending (i_ld i') = read_pending (i_ld i).
Proof.
  intros Hag Hlr Hroom. unfold process_char. set (i1 := if echo term then _ else _).
  assert (Hi1 : i_ld i1 = i_ld i) by (unfold i1; destruct (echo term); rewrite ?output_char_ld; apply check_send_signal_ld).
  rewrite Hi1. unfold edit_mapped. destruct (canonical term); cbn [negb].
  - intros [= <- <-]. split; [done|]. simpl. rewrite Hi1. by apply canonical_char_agrees.
  - destruct (Nat.leb_spec BUF_SIZE (length (rx (i_ld i)))) as [|_]; [lia|]. intros [= <- <-]. simpl. rewrite Hi1. split_and!; [done| |done].
    destruct Hag as [Hr Hc Ho Hl]. unfold unsent in *. rewrite Hlr in *. rewrite app_nil_r in Ho.
    split; simpl; unfold unsent; simpl; rewrite ?Hlr; try done; [rewrite length_app; simpl; lia|]. by rewrite app_nil_r, app_assoc, Ho.
Qed.

(** A line that is finished is sent from the front. *)
Lemma push_line_agrees outs e l o n :
  agrees outs e l -> line_read l = Some o -> (0 < n)%nat ->
  (n <= length (line_buf l) - o)%nat -> (n <= BUF_SIZE - length (rx l))%nat ->
  let l := set_rx (rx l ++ take n (drop o (line_buf l))) l in
  agrees outs e (if (o + n =? length (line_buf l))%nat then set_line [] (set_line_read None l) else set_line_read (Some (o + n)%nat) l).
Proof.
  intros [Hr Hc Ho Hl] Hlr Hn Hle Hle'. unfold unsent in Ho. rewrite Hlr in Ho, Hl. destruct Hl as [Hlt Hel].
  assert (Hroom : (length (rx l ++ take n (drop o (line_buf l))) <= BUF_SIZE)%nat) by (rewrite length_app, length_take; lia).
  simpl. destruct (Nat.eqb_spec (o + n) (length (line_buf l))) as [Hall|Hpart].
  - split; simpl; unfold unsent; simpl; try done. by rewrite app_nil_r, take_ge by (rewrite length_drop; lia).
  - split; simpl; unfold unsent; simpl; try done; [|split; [lia|done]].
    rewrite <-Ho, <-drop_drop, <-app_assoc. do 2 f_equal. apply take_drop.
Qed.

(** A round sends from the line that is finished, or processes a character, and never fails. *)
Lemma loop_turn_agrees fg term sent (i i' : input D) t outs e :
  agrees outs e (i_ld i) -> loop_turn fg term sent i = (t, i') ->
  t <> Crash /\ agrees outs (foldl edit_char e (turn_input term (i_ld i))) (i_ld i') /\
  read_pending (i_ld i) = (turn_input term (i_ld i)).*2 ++ read_pending (i_ld i').
Proof.
  intros Hag. unfold loop_turn, turn_input. destruct (line_read (i_ld i)) as [o|] eqn:Hlr.
  - pose proof (ag_line _ _ _ Hag) as Hl. rewrite Hlr in Hl. destruct (Nat.ltb_spec (length (line_buf (i_ld i))) o) as [|_]; [lia|].
    unfold push_slice. set (n := Nat.min _ _). destruct (Nat.eqb_spec n 0) as [|Hn]; intros [= <- <-]; [done|].
    split_and!; [done| |simpl; by case_match]. apply push_line_agrees; [done|done|lia| |]; unfold n; rewrite ?length_drop; lia.
  - destruct (read_pending (i_ld i)) as [|ch rest] eqn:Hp; [intros [= <- <-]; by rewrite Hp|].
    destruct (Nat.leb_spec BUF_SIZE (length (rx (i_ld i)))) as [|Hfree]; [intros [= <- <-]; by rewrite Hp|].
    assert (Hag0 : agrees outs e (i_ld (on_ld (set_pending rest) i))) by (destruct Hag; split; simpl; unfold unsent in *; simpl; by rewrite ?Hlr in *).
    simpl. unfold edit_char, map_input. simpl. intros Ht.
    assert (Hgo : forall c, process_char fg term c sent (on_ld (set_pending rest) i) = (t, i') ->
      t <> Crash /\ agrees outs (edit_mapped term c e) (i_ld i') /\ ch :: rest = ch :: read_pending (i_ld i')).
    { intros c Hc. destruct (process_char_agrees _ _ _ _ _ _ _ _ _ Hag0 Hlr Hfree Hc) as (? & ? & ->). done. }
    destruct (Z.eqb_spec ch CR) as [Hcr|Hcr]; simpl in Ht; [|exact (Hgo _ Ht)].
    destruct (has_iflag IGNCR term); [by injection Ht as <- <-|].
    specialize (Hgo _ Ht). by rewrite Hcr in *.
Qed.
End turns.

(** ** Histories *)

(** The bytes that enter the terminal, the characters that are processed with the attributes in
    force, and the bytes that readers take, in a step. *)
Definition flow_in (e : event) (p : pty) : list Z :=
  match e with
  | EMasterWrite bs => take (PTY_BUF_SIZE - length (master_to_slave (i_dev (p_in p)))) bs
  | _ => []
  end.
Definition flow_done (e : event) (p : pty) : list (Termios2 * Z) :=
  match e, p_task p with ETask, Run _ (Loop term _) => turn_input term (p_ld p) | _, _ => [] end.
Definition flow_out (e : event) (p : pty) : list Z :=
  match e, p_reader p with
  | EPoll, Some r => match r_phase r with Polling => read_take r p | _ => [] end
  | ERetry, Some r => match r_phase r with Retrying => read_take r p | _ => [] end
  | _, _ => []
  end.

Fixpoint flows {A} (f : event -> pty -> list A) (es : list event) (p : pty) : list A :=
  match es with
  | [] => []
  | e :: es => match pty_step e p with Some p' => f e p ++ flows f es p' | None => [] end
  end.

Record input_ok (ins : list Z) (dones : list (Termios2 * Z)) (outs : list Z) (p : pty) : Prop := {
  io_in : ins = dones.*2 ++ read_pending (p_ld p) ++ master_to_slave (i_dev (p_in p));
  io_agrees : agrees outs (edit dones) (p_ld p);
  io_task : p_task p <> Dead;
}.

(** Wakers do not touch the input. *)
Lemma p_in_wakes p :
  p_in (wake_tx p) = p_in p /\ p_in (wake_source p) = p_in p /\ p_in (wake_rx p) = p_in p /\ p_in (wake_foreground p) = p_in p.
Proof. unfold wake_tx, wake_source, wake_rx, wake_foreground, wake_task. split_and!; repeat case_match; done. Qed.
Lemma p_task_wakes p :
  p_task p <> Dead ->
  p_task (wake_tx p) <> Dead /\ p_task (wake_source p) <> Dead /\ p_task (wake_rx p) <> Dead /\ p_task (wake_foreground p) <> Dead.
Proof.
  unfold wake_tx, wake_source, wake_rx, wake_foreground, wake_task. intros Hp.
  split_and!; repeat case_match; simpl in *; try done; congruence.
Qed.

Lemma loop_turn_link fg term sent (i i' : input Link) t :
  loop_turn fg term sent i = (t, i') -> master_to_slave (i_dev i') = master_to_slave (i_dev i).
Proof.
  unfold loop_turn, process_char, push_slice, check_send_signal, output_char.
  intros Ht. repeat case_match; simplify_eq/=; done.
Qed.

Lemma input_ok_same ins dones outs p p' :
  input_ok ins dones outs p -> p_in p' = p_in p -> p_task p' <> Dead -> input_ok ins dones outs p'.
Proof. intros [Hin Hag Htask] Hp Ht. split; [..|done]; by rewrite Hp. Qed.

Lemma input_ok_task ins dones outs p p' :
  input_ok ins dones outs p -> task_step p = Some p' -> input_ok ins (dones ++ flow_done ETask p) outs p'.
Proof.
  intros [Hin Hag Htask] Hs. unfold task_step in Hs. unfold flow_done. destruct (p_task p) as [b [| | |term sent|]| | | |] eqn:Ht; try done.
  - injection Hs as <-. rewrite app_nil_r. unfold on_ld, poll_swap. rewrite (ag_clear _ _ _ Hag). by split.
  - injection Hs as <-. rewrite app_nil_r. unfold poll_fetch. simpl.
    destruct (read_pending (i_ld (p_in p))) as [|c rest] eqn:Hp; [|by split; simpl; rewrite ?Hp].
    split; simpl; [|destruct Hag; by split|done]. rewrite Hin. simpl. by rewrite take_drop.
  - injection Hs as <-. rewrite app_nil_r. by split.
  - destruct (loop_turn (p_fg p) term sent (p_in p)) as [t i'] eqn:Hturn.
    destruct (loop_turn_agrees _ _ _ _ _ _ _ _ Hag Hturn) as (Hcrash & Hag' & Hpend).
    pose proof (loop_turn_link _ _ _ _ _ _ Hturn) as Hlink.
    assert (Hok : forall q, p_in q = i' -> p_task q <> Dead -> input_ok ins (dones ++ turn_input term (p_ld p)) outs q).
    { intros q Hq Hd. split; [|unfold edit; rewrite foldl_app, Hq; exact Hag'|done].
      rewrite Hin, fmap_app, <-app_assoc. by rewrite Hpend, Hq, Hlink, <-app_assoc. }
    destruct t as [|sent'|]; [|injection Hs as <-; by apply Hok|done].
    assert (i' = p_in p) as ->.
    { clear -Hturn. unfold loop_turn, process_char, push_slice in Hturn. repeat case_match; simplify_eq/=; done. }
    injection Hs as <-. repeat case_match; by apply Hok.
  - injection Hs as <-. rewrite app_nil_r. destruct (p_in_wakes (set_task (Run b Swap) (p_woken p) p)) as (_ & _ & Hw & _).
    split; [by rewrite Hw|by rewrite Hw|]. by apply p_task_wakes.
  - injection Hs as <-. rewrite app_nil_r. by split.
  - injection Hs as <-. rewrite app_nil_r. by split.
Qed.

(** Taking bytes from the ring buffer. *)
Lemma read_attempt_ok ins dones outs p r r' fin p' :
  input_ok ins dones outs p -> read_attempt r p = (r', fin, p') ->
  input_ok ins dones (outs ++ read_take r p) p' /\ p_reader p' = p_reader p /\ r_got r' = r_got r ++ read_take r p.
Proof.
  intros [Hin Hag Htask] Ha. unfold read_attempt, pop_slice in Ha. injection Ha as <- <- <-.
  destruct (p_in_wakes (set_in (on_ld (set_rx (drop (r_len r - length (r_got r)) (rx (p_ld p)))) (p_in p)) p)) as [Hw _].
  split_and!; [|unfold wake_tx, wake_task; repeat case_match; done|done].
  split; [by rewrite Hw|rewrite Hw|by apply p_task_wakes].
  destruct Hag as [Hr Hc Ho Hl]. split; simpl; try done.
  - rewrite length_drop. lia.
  - rewrite <-app_assoc. unfold read_take. rewrite (app_assoc (take _ _)), take_drop. exact Ho.
Qed.

Definition no_drain (e : event) : Prop := match e with EDrainRx | EDrainFlag => False | _ => True end.

Lemma input_ok_step ins dones outs p e p' :
  input_ok ins dones outs p -> no_drain e -> pty_step e p = Some p' ->
  input_ok (ins ++ flow_in e p) (dones ++ flow_done e p) (outs ++ flow_out e p) p'.
Proof.
  intros Hok Hnd Hs. pose proof (io_task _ _ _ _ Hok) as Htask.
  destruct e; cbn [pty_step] in Hs; cbn [flow_in flow_done flow_out]; rewrite ?app_nil_r; try done.
  - by apply input_ok_task.
  - apply (input_ok_same _ _ _ p); [done|..]; unfold reader_step in Hs; by repeat case_match; simplify_eq/=.
  - unfold reader_step in Hs. destruct (p_reader p) as [r|]; [|done]. destruct (r_phase r); try done.
    destruct (read_attempt r p) as [[r' fin] p1] eqn:Ha. injection Hs as <-.
    destruct (read_attempt_ok _ _ _ _ _ _ _ _ Hok Ha) as [Hok' _]. by eapply input_ok_same; [done|done|apply Hok'].
  - apply (input_ok_same _ _ _ p); [done|..]; unfold reader_step in Hs; by repeat case_match; simplify_eq/=.
  - unfold reader_step in Hs. destruct (p_reader p) as [r|]; [|done]. destruct (r_phase r); try done.
    destruct (read_attempt r p) as [[r' fin] p1] eqn:Ha. injection Hs as <-.
    destruct (read_attempt_ok _ _ _ _ _ _ _ _ Hok Ha) as [Hok' _]. by eapply input_ok_same; [done|done|apply Hok'].
  - apply (input_ok_same _ _ _ p); [done|..]; unfold reader_step in Hs; by repeat case_match; simplify_eq/=.
  - injection Hs as <-. set (p1 := set_in _ p). destruct (p_in_wakes p1) as (_ & Hw & _).
    destruct Hok as [Hin Hag _]. split; [rewrite Hw|by rewrite Hw|by apply p_task_wakes].
    simpl. rewrite Hin, <-!app_assoc. do 3 f_equal. by rewrite <-firstn_firstn, firstn_all.
  - injection Hs as <-. by destruct Hok; split.
  - injection Hs as <-. by destruct Hok; split.
  - apply (input_ok_same _ _ _ p); [done|..]; unfold master_step in Hs; by repeat case_match; simplify_eq/=.
  - apply (input_ok_same _ _ _ p); [done|..]; unfold master_step, master_try in Hs; by repeat case_match; simplify_eq/=.
  - injection Hs as <-. case_bool_decide; [done|]. apply (input_ok_same _ _ _ p); [done|exact (proj2 (proj2 (proj2 (p_in_wakes (set_fg (Some pg) p)))))|by apply p_task_wakes].
  - injection Hs as <-. by destruct Hok; split.
  - injection Hs as <-. by destruct Hok; split.
Qed.

Lemma input_ok_run es p p' ins dones outs :
  input_ok ins dones outs p -> Forall no_drain es -> pty_run es p = Some p' ->
  input_ok (ins ++ flows flow_in es p) (dones ++ flows flow_done es p) (outs ++ flows flow_out es p) p'.
Proof.
  revert p ins dones outs. induction es as [|e es IH]; intros p ins dones outs Hok Hnd Hrun; simpl in *.
  - injection Hrun as <-. by rewrite !app_nil_r.
  - apply Forall_cons in Hnd as [He Hnd]. destruct (pty_step e p) as [p1|] eqn:Hs; [|done]. simpl in Hrun.
    rewrite !app_assoc. apply IH; [|done|done]. by apply input_ok_step.
Qed.

Lemma input_ok_new : input_ok [] [] [] create_pty_pair.
Proof. split; [done| |done]. split; simpl; [lia|done..]. Qed.

(** C12: In every interleaving of a pseudo terminal's reader task, its readers, its master side
    and changes of its attributes, without flushing: the bytes that the terminal has accepted from
    the master are those processed, in order, followed by those that wait; what readers have taken,
    followed by what waits for them, is what an editor without buffers puts out for the processed
    characters under the attributes in force for each; an unfinished line is the editor's; and the
    reader task does not fail. *)
Theorem terminal_refines_editor es p :
  pty_run es create_pty_pair = Some p -> Forall no_drain es ->
  let dones := flows flow_done es create_pty_pair in
  flows flow_in es create_pty_pair = dones.*2 ++ read_pending (p_ld p) ++ master_to_slave (i_dev (p_in p)) /\
  flows flow_out es create_pty_pair ++ rx (p_ld p) ++ unsent (p_ld p) = e_out (edit dones) /\
  (line_read (p_ld p) = None -> line_buf (p_ld p) = e_line (edit dones)) /\
  p_task p <> Dead.
Proof.
  intros Hrun Hnd. destruct (input_ok_run _ _ _ _ _ _ input_ok_new Hnd Hrun) as [Hin Hag Ht]. simpl in *.
  split_and!; [done|by apply Hag| |done]. intros Hn. pose proof (ag_line _ _ _ Hag) as Hl. by rewrite Hn in Hl.
Qed.
