(* ===== verification/TtyLive.v ===== *)
(** * Terminals: progress

    Left alone, the reader task falls asleep after a bounded number of steps.  If the attributes
    never ask for lines, nor for carriage returns to be dropped, a reader then waits only if there
    is no input left; and a run of lines shows that this fails otherwise. *)

From S2P Require Import Prelude Io PageCache Tty TtySpec.

(** ** The reader task falls asleep *)











(** ** Raw mode *)




















(** ** Where input stays *)

(** The steps of [poll_io] until a reader waits, and a round of the task from its first instruction
    to sleep when nothing is to be done. *)
Definition reader_waits : list event := [EPoll; ERegister; ERetry].
Definition idle_round : list event := replicate 10 ETask.

Definition typed (n : nat) : list Z := replicate n 97 ++ [LF].

(** A reader waits; then a line of 200 characters arrives at once. *)
Definition long_line : list event :=
  idle_round ++ [EStart 1 100] ++ reader_waits ++ idle_round ++ [EMasterWrite (typed 199)] ++ replicate 170 ETask.

Definition waiting_for_line : reader := mk_reader 100 1 [] Waiting.

Definition no_input (e : event) : Prop := match e with EMasterWrite _ => False | _ => True end.

Lemma asleep_step e p p' r :
  p_task p = Asleep -> p_reader p = Some r -> r_phase r = Waiting -> no_input e -> pty_step e p = Some p' ->
  p_task p' = Asleep /\ p_reader p' = Some r.
Proof.
  intros Ht Hr Hw He Hs. destruct e; cbn [pty_step] in Hs; try done; unfold task_step, reader_step, master_step, master_try, wake_foreground in Hs;
    rewrite ?Ht, ?Hr, ?Hw in Hs; try done; repeat case_match; simplify_eq/=; done.
Qed.

(** In canonical mode a line can stay in the terminal.  The reader task stops when two passes
    over its input have sent nothing, even if more is waiting: after a line of 200 characters has
    arrived at once, its last 40 are not looked at, the reader that waits for the line goes on
    waiting, and no step of any task but further input changes that, though an editor without
    buffers would have put out the line. *)
Theorem long_line_is_left_lying :
  exists p, pty_run long_line create_pty_pair = Some p /\
    p_reader p = Some waiting_for_line /\ master_to_slave (i_dev (p_in p)) = typed 39 /\
    e_out (edit (pair (p_termios p) <$> typed 199)) = typed 199 /\
    forall es p', Forall no_input es -> pty_run es p = Some p' -> p_reader p' = Some waiting_for_line.
Proof.
  destruct (pty_run long_line create_pty_pair) as [p|] eqn:Hrun; [|by vm_compute in Hrun]. exists p.
  vm_compute in Hrun. injection Hrun as Hrun.
  assert (Ht : p_task p = Asleep) by (by subst p). assert (Hr : p_reader p = Some waiting_for_line) by (by subst p).
  split_and!; [done|done|by subst p|subst p; by vm_compute|]. clear Hrun.
  intros es. revert p Ht Hr. induction es as [|e es IH]; intros p Ht Hr p' Hes Hp'; simpl in *; [by injection Hp' as <-|].
  apply Forall_cons in Hes as [He Hes]. destruct (pty_step e p) as [p1|] eqn:Hs; [|done]. simpl in Hp'.
  destruct (asleep_step _ _ _ _ Ht Hr eq_refl He Hs) as [Ht1 Hr1]. by apply (IH p1).
Qed.

(** A flush (the terminal control [TCSETSF]) while part of a finished line waits for room clears the
    line but not the position in it: the reader task then takes a slice that starts beyond the end
    of the line, and dies.  Here a line of 100 characters arrives with nobody reading, the input is
    flushed, and a reader comes. *)
Definition flush_of_long_line : list event :=
  idle_round ++ [EMasterWrite (typed 99)] ++ replicate 116 ETask ++ [EDrainRx; EDrainFlag; EStart 1 100; EPoll] ++
  replicate 4 ETask.

Theorem flush_kills_reader_task : p_task <$> pty_run flush_of_long_line create_pty_pair = Some Dead.
Proof. by vm_compute. Qed.

(** A [read] of the master waits for a change of the foreground group, not for output: the slave
    writes, a third task polls the master, and the bytes are there for the reader, which is not
    woken. *)
Definition master_waits : list event :=
  [EMasterStart 10; EMasterTry; EMasterTry; EMasterTry; ESlaveWrite [104; 105]; EMasterPoll].

Definition same_foreground (e : event) : Prop := match e with ESetForeground _ => False | _ => True end.

Theorem master_read_is_not_woken :
  exists p, pty_run master_waits create_pty_pair = Some p /\ p_mrx p = [104; 105] /\
    forall es p', Forall same_foreground es -> pty_run es p = Some p' -> p_mreader p' = Some (mk_mread 10 Waiting false).
Proof.
  destruct (pty_run master_waits create_pty_pair) as [p|] eqn:Hrun; [|by vm_compute in Hrun]. exists p.
  vm_compute in Hrun. injection Hrun as Hrun.
  assert (Hm : p_mreader p = Some (mk_mread 10 Waiting false)) by (by subst p).
  split_and!; [done|by subst p|]. clear Hrun. intros es. revert p Hm.
  induction es as [|e es IH]; intros p Hm p' Hes Hp'; simpl in *; [by injection Hp' as <-|].
  apply Forall_cons in Hes as [He Hes]. destruct (pty_step e p) as [p1|] eqn:Hs; [|done]. simpl in Hp'. apply (IH p1); [|done|done].
  destruct e; cbn [pty_step] in Hs; try done; unfold task_step, reader_step, master_step, read_attempt, wake_rx, wake_tx, wake_source, wake_task in Hs;
    rewrite ?Hm in Hs; try done; repeat case_match; simplify_eq/=; done.
Qed.

(** ** A poll that nobody interrupts *)

Section manual.
Context {D : Type} `{TtyDevice D}.

Definition turn_measure (l : Ldisc) : nat :=
  2 * length (read_pending l) +
  match line_read l with Some _ => if (length (rx l) <? BUF_SIZE)%nat then 2 else 1 | None => 1 end.

Lemma loop_turn_measure fg term sent (i i' : input D) sent' outs e :
  agrees outs e (i_ld i) -> loop_turn fg term sent i = (Continue sent', i') ->
  (turn_measure (i_ld i') < turn_measure (i_ld i))%nat.
Proof.
  intros Hag Ht. destruct (loop_turn_agrees _ _ _ _ _ _ _ _ Hag Ht) as (_ & _ & Hp). apply (f_equal length) in Hp.
  rewrite length_app, length_fmap in Hp. unfold turn_measure. unfold turn_input in Hp.
  unfold loop_turn in Ht. destruct (line_read (i_ld i)) as [o|] eqn:Hlr.
  - simpl in Hp. rewrite <-Hp. case_match; [done|]. unfold push_slice in Ht. set (n := Nat.min _ _) in Ht.
    assert (Hn : n = Nat.min (BUF_SIZE - length (rx (i_ld i))) (length (line_buf (i_ld i)) - o)) by (unfold n; by rewrite length_drop).
    destruct (Nat.eqb_spec n 0) as [|Hn0]; [done|]. injection Ht as <- <-. simpl.
    destruct (Nat.ltb_spec (length (rx (i_ld i))) BUF_SIZE) as [|]; [|lia].
    case_match eqn:Hall; simpl; [lia|]. apply Nat.eqb_neq in Hall. rewrite length_app, length_take, length_drop. simpl in Hall.
    case_match eqn:Hf; [apply Nat.ltb_lt in Hf; lia|lia].
  - destruct (read_pending (i_ld i)) as [|ch rest] eqn:Hpend; [done|].
    destruct (Nat.leb_spec BUF_SIZE (length (rx (i_ld i)))); [done|]. simpl in Hp.
    assert (2 * length (read_pending (i_ld i')) + 2 = 2 * length (ch :: rest))%nat by (simpl; lia).
    destruct (line_read (i_ld i')); [destruct (_ <? BUF_SIZE)%nat|]; lia.
Qed.

Lemma poll_loop_ends fuel fg term sent (i : input D) outs e :
  agrees outs e (i_ld i) -> (turn_measure (i_ld i) <= fuel)%nat ->
  exists sent' i' cs, poll_loop fuel fg term sent i = Some (sent', i') /\
    agrees outs (foldl edit_char e (pair term <$> cs)) (i_ld i') /\ read_pending (i_ld i) = cs ++ read_pending (i_ld i').
Proof.
  revert sent i e. induction fuel as [|fuel IH]; intros sent i e Hag Hf.
  { unfold turn_measure in Hf. destruct (line_read (i_ld i)); [case_match|]; lia. }
  simpl. destruct (loop_turn fg term sent i) as [t i1] eqn:Ht.
  destruct (loop_turn_agrees _ _ _ _ _ _ _ _ Hag Ht) as (Hcrash & Hag1 & Hp1).
  assert (Hcs : exists cs, turn_input term (i_ld i) = pair term <$> cs).
  { unfold turn_input. destruct (line_read (i_ld i)); [by exists []|]. destruct (read_pending (i_ld i)) as [|c rest]; [by exists []|].
    case_match; [by exists []|by exists [c]]. }
  destruct Hcs as [cs Hcs]. rewrite Hcs in Hag1, Hp1. rewrite <-list_fmap_compose in Hp1. simpl in Hp1. rewrite list_fmap_id in Hp1.
  destruct t as [|sent1|]; [|..|done].
  - exists sent, i1, cs. done.
  - pose proof (loop_turn_measure _ _ _ _ _ _ _ _ Hag Ht) as Hm.
    destruct (IH sent1 i1 _ Hag1 ltac:(lia)) as (sent' & i' & cs' & Hl & Hag' & Hp'). exists sent', i', (cs ++ cs').
    rewrite fmap_app, foldl_app. split_and!; [done|done|]. by rewrite Hp1, Hp', app_assoc.
Qed.

(** [InputReader::poll] returns, without failing, and edits the characters it takes from the front
    of its input. *)
Theorem input_poll_edits fg term (i : input D) outs e :
  agrees outs e (i_ld i) ->
  exists b i' cs, input_poll fg term i = Some (b, i') /\
    agrees outs (foldl edit_char e (pair term <$> cs)) (i_ld i') /\
    read_pending (i_ld (poll_fetch i)) = cs ++ read_pending (i_ld i').
Proof.
  intros Hag. unfold input_poll.
  assert (Hswap : on_ld poll_swap i = i) by (unfold on_ld, poll_swap; rewrite (ag_clear _ _ _ Hag); by destruct i).
  rewrite Hswap. set (i0 := poll_fetch i).
  assert (Hag0 : agrees outs e (i_ld i0)).
  { unfold i0, poll_fetch. case_match; [|done]. destruct (tty_read BUF_SIZE (i_dev i)). destruct Hag; by split. }
  destruct (poll_loop_ends (poll_fuel (i_ld i0)) fg term 0 i0 outs e Hag0) as (sent & i' & cs & -> & Hag' & Hp).
  { unfold turn_measure, poll_fuel. repeat case_match; lia. }
  by exists (0 <? sent)%nat, i', cs.
Qed.
End manual.

(** ** Witnesses *)

(** The master types [ab], erases a character, types [c] and the end of the line; a reader then
    takes the line. *)
Definition edited_line : list event :=
  [EMasterWrite [97; 98; 127; 99; LF]] ++ replicate 20 ETask ++ [EStart 1 100; EPoll].

Lemma terminal_refines_editor_witness :
  exists p, pty_run edited_line create_pty_pair = Some p /\
    flows flow_out edited_line create_pty_pair = [97; 99; LF] /\
    e_out (edit (flows flow_done edited_line create_pty_pair)) = [97; 99; LF].
Proof.
  destruct (pty_run edited_line create_pty_pair) as [p|] eqn:Hrun; [|by vm_compute in Hrun]. exists p.
  assert (Hnd : Forall no_drain edited_line) by (by repeat constructor).
  destruct (terminal_refines_editor edited_line p Hrun Hnd) as (_ & Hout & _).
  split_and!; [done|by vm_compute|]. rewrite <-Hout. vm_compute in Hrun. injection Hrun as <-. by vm_compute.
Defined.


