(* ===== verification/Mutex.v ===== *)
(** * Blocking mutexes

    [modules/axsync/src/mutex.rs], one atomic access of [owner_id] or of the event at a time, by any
    number of tasks.

    The event of the crate [event_listener] is the class [EventOps], its documentation the class
    [EventLaws]: a listener waits until it is notified; [notify(n)] makes sure that at least [n]
    listeners are notified, counting those that were before; a listener that is dropped may pass its
    notification on. *)

From S2P Require Import Prelude.

(** ** Events *)

(** A listener is known by the task that has it. *)
Class EventOps (E : Type) := {
  event_new : E;
  event_listen : Z -> E -> E;
  event_notify : nat -> E -> E;
  event_is_notified : Z -> E -> bool;
  event_drop : Z -> E -> E;
  event_consume : Z -> E -> E;
}.

Class EventLaws (E : Type) `{EventOps E} := {
  waiting : E -> gset Z;
  notified : E -> gset Z;
  new_waiting : waiting event_new = ∅;
  new_notified : notified event_new = ∅;
  is_notified_spec t e : event_is_notified t e = bool_decide (t ∈ notified e);
  waiting_notified e : waiting e ## notified e;
  listen_waiting t e : t ∉ notified e -> waiting (event_listen t e) = {[t]} ∪ waiting e;
  listen_notified t e : t ∉ notified e -> notified (event_listen t e) = notified e;
  notify_moves n e : exists m, m ⊆ waiting e /\
    waiting (event_notify n e) = waiting e ∖ m /\ notified (event_notify n e) = notified e ∪ m;
  notify_enough n e : (n <= size (notified (event_notify n e)))%nat \/ waiting (event_notify n e) = ∅;
  consume_waiting t e : t ∈ notified e -> waiting (event_consume t e) = waiting e;
  consume_notified t e : t ∈ notified e -> notified (event_consume t e) = notified e ∖ {[t]};
  drop_moves t e : exists m, m ⊆ waiting e ∖ {[t]} /\
    waiting (event_drop t e) = waiting e ∖ {[t]} ∖ m /\ notified (event_drop t e) = (notified e ∖ {[t]}) ∪ m;
}.

(** ** The mutex *)

(** [RawMutex]. *)
Record RawMutex (E : Type) : Type := mk_mutex { event : E; owner_id : Z }.
Arguments mk_mutex {E} event owner_id.
Arguments event {E} r.
Arguments owner_id {E} r.

(** [Spin::spin]: whether to try again at once. *)
Definition spin (n : Z) : bool * Z := if 10 <=? n then (false, n) else (true, n + 1).

(** Where a task is: outside; in [lock] with the value it last read and its spin counter, about to
    load again, about to listen, listening, committed to block, blocked, past the block; the owner;
    in [unlock], after the swap; or stopped by an assertion. *)
Inductive place : Type :=
| Outside
| Loaded (owner spins : Z)
| Reload (spins : Z)
| Listen (spins : Z)
| Listening (spins : Z)
| Blocking (spins : Z)
| Woken (spins : Z)
| Owner
| Notifying
| Failed.

Record world (E : Type) : Type := mk_world { lock_ : RawMutex E; places : gmap Z place }.
Arguments mk_world {E} lock_ places.
Arguments lock_ {E} w.
Arguments places {E} w.

Inductive op : Type :=
| ELock (t : Z)
| EStep (t : Z) (spurious : bool)
| ETryLock (t : Z)
| EUnlock (t : Z).

Section mutex.
Context {E : Type} `{EventOps E}.

Definition mutex_new : world E := mk_world (mk_mutex event_new 0) ∅.

Definition place_of (t : Z) (w : world E) : place := default Outside (places w !! t).
Definition set_place (t : Z) (p : place) (w : world E) : world E := mk_world (lock_ w) (<[t := p]> (places w)).
Definition set_owner (o : Z) (w : world E) : world E := mk_world (mk_mutex (event (lock_ w)) o) (places w).
Definition set_event (e : E) (w : world E) : world E := mk_world (mk_mutex e (owner_id (lock_ w))) (places w).

(** One access of a task inside [lock] or [unlock].  [spurious] is a failure of
    [compare_exchange_weak] although the values agree. *)
Definition mutex_step (t : Z) (spurious : bool) (w : world E) : option (world E) :=
  let e := event (lock_ w) in
  let owner := owner_id (lock_ w) in
  match place_of t w with
  | Loaded o n =>
      if o =? t then Some (set_place t Failed w)
      else if o =? 0 then
        if (owner =? 0) && negb spurious then Some (set_place t Owner (set_owner t w))
        else Some (set_place t (Loaded owner n) w)
      else let '(again, n) := spin n in Some (set_place t (if again then Reload n else Listen n) w)
  | Reload n => Some (set_place t (Loaded owner n) w)
  | Listen n => Some (set_place t (Listening n) (set_event (event_listen t e) w))
  | Listening n =>
      if owner =? 0 then Some (set_place t (Loaded 0 n) (set_event (event_drop t e) w))
      else Some (set_place t (Blocking n) w)
  | Blocking n =>
      if event_is_notified t e then Some (set_place t (Woken n) (set_event (event_consume t e) w)) else None
  | Woken n => Some (set_place t (Loaded owner n) w)
  | Notifying => Some (set_place t Outside (set_event (event_notify 1 e) w))
  | Outside | Owner | Failed => None
  end.

Definition op_step (o : op) (w : world E) : option (world E) :=
  match o with
  | ELock t =>
      match place_of t w with
      | Outside | Owner => if 0 <? t then Some (set_place t (Loaded (owner_id (lock_ w)) 0) w) else None
      | _ => None
      end
  | EStep t spurious => mutex_step t spurious w
  | ETryLock t =>
      match place_of t w with
      | Outside =>
          if 0 <? t then Some (if owner_id (lock_ w) =? 0 then set_place t Owner (set_owner t w) else w) else None
      | _ => None
      end
  | EUnlock t =>
      match place_of t w with
      | Owner =>
          let w' := set_owner 0 w in
          Some (set_place t (if owner_id (lock_ w) =? t then Notifying else Failed) w')
      | _ => None
      end
  end.

Fixpoint mutex_run (os : list op) (w : world E) : option (world E) :=
  match os with
  | [] => Some w
  | o :: os => w' ← op_step o w; mutex_run os w'
  end.
End mutex.

(** ** Invariant *)

Section proof.
Context {E : Type} `{EventOps E} `{!EventLaws E}.
Implicit Types w : world E.

Definition listens (p : place) : bool := match p with Listening _ | Blocking _ => true | _ => false end.

(** A task that has a free mutex taken, or another one notified, by its own steps. *)
Definition helper (t : Z) w : Prop :=
  t ∈ notified (event (lock_ w)) \/
  match place_of t w with Notifying | Woken _ | Loaded 0 _ => True | _ => False end.

(** A task that locks the mutex it owns is on its way to the assertion. *)
Definition relocks (t : Z) (p : place) : Prop := match p with Loaded o _ => o = t | Failed => True | _ => False end.

Record sound w : Prop := {
  sd_positive t : place_of t w <> Outside -> 0 < t;
  sd_owner t : place_of t w = Owner \/ relocks t (place_of t w) -> owner_id (lock_ w) = t;
  sd_owned : owner_id (lock_ w) <> 0 -> place_of (owner_id (lock_ w)) w = Owner \/ relocks (owner_id (lock_ w)) (place_of (owner_id (lock_ w)) w);
  sd_listens t : t ∈ waiting (event (lock_ w)) ∪ notified (event (lock_ w)) <-> listens (place_of t w) = true;
  sd_helped t n : owner_id (lock_ w) = 0 -> place_of t w = Blocking n -> exists u, helper u w;
}.

Lemma place_set t p w u : place_of u (set_place t p w) = if decide (t = u) then p else place_of u w.
Proof. unfold place_of, set_place. simpl. rewrite lookup_insert. by case_decide. Qed.
Lemma place_owner o w u : place_of u (set_owner o w) = place_of u w.
Proof. done. Qed.
Lemma place_event e w u : place_of u (set_event e w) = place_of u w.
Proof. done. Qed.

Lemma sound_new : sound mutex_new.
Proof.
  split; unfold place_of; simpl; try done.
  - by intros t [?|?].
  - intros t. rewrite new_waiting, new_notified. set_solver.
Qed.

(** A task moves without touching what is shared. *)
Lemma sound_move w t p :
  sound w -> 0 < t -> place_of t w <> Owner -> ~ relocks t (place_of t w) -> p <> Owner ->
  (relocks t p -> owner_id (lock_ w) = t) -> listens p = listens (place_of t w) ->
  (owner_id (lock_ w) = 0 -> (forall n, p <> Blocking n \/ place_of t w = Blocking n)) ->
  (owner_id (lock_ w) = 0 -> helper t w -> helper t (set_place t p w)) ->
  sound (set_place t p w).
Proof.
  intros [Hp Ho Hod Hl Hh] Ht Hno Hnr Hpo Hpr Hls Hb Hhelp. split; simpl.
  - intros u. rewrite place_set. case_decide; [by subst|apply Hp].
  - intros u. rewrite place_set. case_decide; [subst u; intros [?|?]; [done|by apply Hpr]|apply Ho].
  - intros Hne. rewrite place_set. case_decide as Hu; [|by apply Hod].
    rewrite Hu in Hno, Hnr. destruct (Hod Hne); contradiction.
  - intros u. rewrite place_set, Hl. case_decide; [subst u; by rewrite Hls|done].
  - intros u n Hz. rewrite place_set. intros Hu.
    assert (exists v, place_of v w = Blocking n) as [v Hv].
    { case_decide; [subst; destruct (Hb Hz n); [contradiction|by eexists]|by eexists]. }
    destruct (Hh v n Hz Hv) as [x Hx]. exists x. destruct (decide (t = x)) as [<-|Hne]; [by apply Hhelp|].
    unfold helper in *. rewrite place_set, decide_False by done. exact Hx.
Qed.
(** A task moves and the event changes. *)
Lemma sound_signal w t p e :
  sound w -> 0 < t -> place_of t w <> Owner -> ~ relocks t (place_of t w) -> p <> Owner -> ~ relocks t p ->
  (forall u, u <> t -> u ∈ waiting e ∪ notified e <-> u ∈ waiting (event (lock_ w)) ∪ notified (event (lock_ w))) ->
  (t ∈ waiting e ∪ notified e <-> listens p = true) -> (forall n, p <> Blocking n) ->
  (forall u n, owner_id (lock_ w) = 0 -> u <> t -> place_of u w = Blocking n -> exists v, helper v (set_place t p (set_event e w))) ->
  sound (set_place t p (set_event e w)).
Proof.
  intros [Hp Ho Hod Hl Hh] Ht Hno Hnr Hpo Hpr He Het Hb Hhelp. split; simpl.
  - intros u. rewrite place_set. case_decide; [by subst|apply Hp].
  - intros u. rewrite place_set. case_decide; [subst u; by intros [?|?]|apply Ho].
  - intros Hne. rewrite place_set. case_decide as Hu; [|by apply Hod].
    rewrite Hu in Hno, Hnr. destruct (Hod Hne); contradiction.
  - intros u. rewrite place_set. case_decide; [by subst u|]. rewrite He by done. apply Hl.
  - intros u n Hz. rewrite place_set. case_decide; [intros Hu; by destruct (Hb n)|]. intros Hu. by eapply Hhelp.
Qed.

(** The mutex is taken. *)
Lemma sound_acquire w t :
  sound w -> 0 < t -> owner_id (lock_ w) = 0 -> listens (place_of t w) = false -> sound (set_place t Owner (set_owner t w)).
Proof.
  intros [Hp Ho Hod Hl Hh] Ht Hz Hls. split; simpl.
  - intros u. rewrite place_set. case_decide; [by subst|apply Hp].
  - intros u. rewrite place_set. case_decide; [done|]. intros Hu. pose proof (Ho u Hu) as Hu'.
    assert (place_of u w <> Outside) as Hu1%Hp by (rewrite place_owner in Hu; intros Heq; rewrite Heq in Hu; by destruct Hu). lia.
  - intros _. rewrite place_set, decide_True by done. by left.
  - intros u. rewrite place_set, Hl. case_decide; [subst u; by rewrite Hls|done].
  - intros u n ->. lia.
Qed.

Lemma helper_other t p w e u :
  u <> t -> helper u w -> (u ∈ notified (event (lock_ w)) -> u ∈ notified e) -> helper u (set_place t p (set_event e w)).
Proof. unfold helper. intros Hne Hu Hin. rewrite place_set, decide_False by done. simpl. destruct Hu; auto. Qed.

(** Notifying one leaves a notified listener, if there is any listener. *)
Lemma notify_wakes u (e : E) : u ∈ waiting e ∪ notified e -> exists v, v ∈ notified (event_notify 1 e).
Proof.
  intros Hin. destruct (notify_moves 1 e) as (m & Hm & Hw & Hn). destruct (notify_enough 1 e) as [Hsz|Hem].
  - apply set_choose_L. intros He. rewrite He, size_empty in Hsz. lia.
  - exists u. rewrite Hw in Hem. rewrite Hn. set_unfold. destruct (decide (u ∈ m)); [tauto|]. specialize (Hem u). tauto.
Qed.

(** What a task knows of itself by its place. *)
Lemma sound_at w t p :
  sound w -> place_of t w = p -> p <> Outside -> p <> Owner ->
  0 < t /\ (listens p = false -> t ∉ waiting (event (lock_ w)) /\ t ∉ notified (event (lock_ w))).
Proof.
  intros Hs Hp Hout _. split; [apply (sd_positive _ Hs); by rewrite Hp|]. intros Hls.
  pose proof (sd_listens _ Hs t) as Hl. rewrite Hp, Hls in Hl. set_solver.
Qed.

Lemma sound_loaded w t o n b w' :
  sound w -> place_of t w = Loaded o n -> mutex_step t b w = Some w' -> sound w'.
Proof.
  intros Hs Hp Hstep. destruct (sound_at _ _ _ Hs Hp) as [Ht Hnot]; [done..|]. destruct (Hnot eq_refl) as [Hnw Hnn].
  unfold mutex_step in Hstep. rewrite Hp in Hstep.
  destruct (Z.eqb_spec o t) as [->|Hot].
  { injection Hstep as <-. pose proof (sd_owner _ Hs t ltac:(right; by rewrite Hp)) as Hown. destruct Hs as [Hps Ho Hod Hl Hh]. split; simpl.
    - intros u. rewrite place_set. case_decide; [by subst|apply Hps].
    - intros u. rewrite place_set. case_decide; [by subst|apply Ho].
    - intros Hne. rewrite place_set. case_decide; [by right|by apply Hod].
    - intros u. rewrite place_set, Hl. case_decide; [subst u; by rewrite Hp|done].
    - intros u m Hz. lia. }
  assert (Hno : place_of t w <> Owner) by (by rewrite Hp). assert (Hnr : ~ relocks t (place_of t w)) by (by rewrite Hp).
  destruct (Z.eqb_spec o 0) as [->|Ho0].
  - destruct (Z.eqb_spec (owner_id (lock_ w)) 0) as [Hz|Hz]; [destruct b|]; simpl in Hstep; injection Hstep as <-.
    + apply sound_move; rewrite ?Hp; try done; try (by intros; left); try (by simpl; tauto). intros _ _. right. by rewrite place_set, decide_True, Hz.
    + apply sound_acquire; try done. by rewrite Hp.
    + apply sound_move; rewrite ?Hp; try done; try (by intros; left); try (by simpl; tauto).
  - destruct (spin n) as [again n']. injection Hstep as <-.
    apply sound_move; rewrite ?Hp; try done; try (by intros; left); try (by simpl; tauto); try (by destruct again).
    + intros _ m. left. by destruct again.
    + intros _ [?|Hx]; [done|]. rewrite Hp in Hx. destruct o; done.
Qed.

Lemma sound_step w t b w' : sound w -> mutex_step t b w = Some w' -> sound w'.
Proof.
  intros Hs Hstep. destruct (place_of t w) as [|o n|n|n|n|n|n| | |] eqn:Hp.
  1,8,10: unfold mutex_step in Hstep; by rewrite Hp in Hstep.
  1: by eapply sound_loaded.
  all: destruct (sound_at _ _ _ Hs Hp) as [Ht Hnot]; [done..|]; pose proof (sd_listens _ Hs t) as Hls; rewrite Hp in Hls.
  all: unfold mutex_step in Hstep; rewrite Hp in Hstep.
  all: assert (Hno : place_of t w <> Owner) by (by rewrite Hp); assert (Hnr : ~ relocks t (place_of t w)) by (rewrite Hp; simpl; tauto).
  - destruct (Hnot eq_refl) as [Hnw Hnn]. injection Hstep as <-. apply sound_move; rewrite ?Hp; try done; try (by intros; left); try (by simpl; tauto).
    intros _ [?|Hx]; [done|]. by rewrite Hp in Hx.
  - destruct (Hnot eq_refl) as [Hnw Hnn]. injection Hstep as <-. apply sound_signal; try done; try (simpl; tauto).
    + intros u Hu. rewrite listen_waiting, listen_notified by done. set_solver.
    + rewrite listen_waiting by done. set_solver.
    + intros u m Hz Hu Hbl. destruct (sd_helped _ Hs u m Hz Hbl) as [v Hv]. exists v.
      assert (v <> t) by (intros ->; destruct Hv as [?|Hx]; [done|by rewrite Hp in Hx]). apply helper_other; [done|done|]. by rewrite listen_notified.
  - destruct (Z.eqb_spec (owner_id (lock_ w)) 0) as [Hz|Hz]; injection Hstep as <-.
    + destruct (drop_moves t (event (lock_ w))) as (m & Hm & Hdw & Hdn). apply sound_signal; try done; try (simpl; lia).
      * intros u Hu. rewrite Hdw, Hdn. set_unfold. destruct (decide (u ∈ m)); [|tauto]. specialize (Hm u). tauto.
      * rewrite Hdw, Hdn. simpl. set_solver.
      * intros u k _ _ _. exists t. right. by rewrite place_set, decide_True.
    + apply sound_move; rewrite ?Hp; try done; try (by intros; left); try (by simpl; tauto).
  - rewrite is_notified_spec in Hstep. case_bool_decide as Hin; [|done]. injection Hstep as <-. apply sound_signal; try done; try (simpl; tauto).
    + intros u Hu. rewrite consume_waiting, consume_notified by done. set_solver.
    + rewrite consume_waiting, consume_notified by done. pose proof (waiting_notified (event (lock_ w))). simpl. set_solver.
    + intros u k _ _ _. exists t. right. by rewrite place_set, decide_True.
  - destruct (Hnot eq_refl) as [Hnw Hnn]. injection Hstep as <-. apply sound_move; rewrite ?Hp; try done; try (by intros; left); try (by simpl; tauto).
    intros Hz _. right. by rewrite place_set, decide_True, Hz.
  - destruct (Hnot eq_refl) as [Hnw Hnn]. injection Hstep as <-.
    destruct (notify_moves 1 (event (lock_ w))) as (m & Hm & Hw' & Hn'). apply sound_signal; try done; try (simpl; tauto).
    + intros u Hu. rewrite Hw', Hn'. set_unfold. destruct (decide (u ∈ m)); [|tauto]. specialize (Hm u). tauto.
    + rewrite Hw', Hn'. simpl. set_solver.
    + intros u k Hz Hu Hbl. pose proof (proj2 (sd_listens _ Hs u) ltac:(by rewrite Hbl)) as Hin.
      destruct (notify_wakes _ _ Hin) as [v Hv]. exists v. by left.
Qed.

Lemma sound_op w o w' : sound w -> op_step o w = Some w' -> sound w'.
Proof.
  intros Hs Hstep. destruct o as [t|t b|t|t]; simpl in Hstep; [|by eapply sound_step| |].
  - destruct (place_of t w) eqn:Hp; try done; (destruct (Z.ltb_spec 0 t) as [Ht|]; [|done]); injection Hstep as <-.
    + pose proof (sd_listens _ Hs t) as Hls. rewrite Hp in Hls.
      apply sound_move; rewrite ?Hp; try done; try (by intros; left); try (by simpl; tauto); try (simpl; tauto). intros Hz _. right. by rewrite place_set, decide_True, Hz.
    + pose proof (sd_owner _ Hs t ltac:(by left)) as Hown. destruct Hs as [Hps Ho Hod Hl Hh]. split; simpl.
      * intros u. rewrite place_set. case_decide; [by subst|apply Hps].
      * intros u. rewrite place_set. case_decide; [by subst|apply Ho].
      * intros Hne. rewrite place_set, decide_True by done. right. simpl. by rewrite Hown.
      * intros u. rewrite place_set, Hl. case_decide; [subst u; by rewrite Hp|done].
      * intros u m Hz. lia.
  - destruct (place_of t w) eqn:Hp; try done. destruct (Z.ltb_spec 0 t) as [Ht|]; [|done].
    destruct (Z.eqb_spec (owner_id (lock_ w)) 0); injection Hstep as <-; [|done]. apply sound_acquire; try done. by rewrite Hp.
  - destruct (place_of t w) eqn:Hp; try done. injection Hstep as <-.
    pose proof (sd_owner _ Hs t ltac:(by left)) as Hown. rewrite Hown, Z.eqb_refl. destruct Hs as [Hps Ho Hod Hl Hh]. split; simpl.
    + intros u. rewrite place_set. case_decide; [subst u; intros _; apply Hps; by rewrite Hp|apply Hps].
    + intros u. rewrite place_set, place_owner. case_decide; [by intros [?|?]|]. intros Hu. apply Ho in Hu. congruence.
    + done.
    + intros u. rewrite place_set, Hl. case_decide; [subst u; by rewrite Hp|done].
    + intros u n _ _. exists t. right. by rewrite place_set, decide_True.
Qed.

Lemma sound_run os w w' : sound w -> mutex_run os w = Some w' -> sound w'.
Proof.
  revert w. induction os as [|o os IH]; intros w Hs Hrun; simpl in Hrun; [by injection Hrun as <-|].
  destruct (op_step o w) as [w1|] eqn:Hstep; [|done]. simpl in Hrun. apply (IH w1); [|done]. by eapply sound_op.
Qed.
(** ** Theorems *)

(** C16: In every interleaving of the accesses of any tasks, at most one task has the mutex, and
    [owner_id] names it; and no assertion of [lock] or [unlock] fails, except in a task that locks
    the mutex it has. *)
Theorem mutex_excludes os w :
  mutex_run os mutex_new = Some w ->
  (forall t u, place_of t w = Owner -> place_of u w = Owner -> t = u /\ owner_id (lock_ w) = t) /\
  (forall t, place_of t w = Failed -> owner_id (lock_ w) = t).
Proof.
  intros Hs%(sound_run _ _ _ sound_new). split.
  - intros t u Ht Hu. rewrite <-(sd_owner _ Hs t), <-(sd_owner _ Hs u) by auto. done.
  - intros t Ht. apply (sd_owner _ Hs). rewrite Ht. by right.
Qed.

Definition in_lock (p : place) : bool :=
  match p with Loaded _ _ | Reload _ | Listen _ | Listening _ | Blocking _ | Woken _ => true | _ => false end.

(** The steps of tasks in [lock] and [unlock], without spurious failures. *)
Definition steps_of (ts : list Z) : list op := (fun t => EStep t false) <$> ts.

Definition takes (k : nat) w : Prop :=
  exists ts w', (length ts <= k)%nat /\ mutex_run (steps_of ts) w = Some w' /\ owner_id (lock_ w') <> 0.

Lemma takes_step k t w w' : mutex_step t false w = Some w' -> takes k w' -> takes (S k) w.
Proof.
  intros Hstep (ts & w2 & Hlen & Hrun & Hne). exists (t :: ts), w2. simpl. rewrite Hstep. split_and!; [lia|done|done].
Qed.

Lemma takes_le k k' w : takes k w -> (k <= k')%nat -> takes k' w.
Proof. intros (ts & w' & ? & ?) Hle. exists ts, w'. split; [lia|done]. Qed.

Lemma takes_loaded0 w t n : 0 < t -> owner_id (lock_ w) = 0 -> place_of t w = Loaded 0 n -> takes 1 w.
Proof.
  intros Ht Hz Hp. exists [t], (set_place t Owner (set_owner t w)). split; [simpl; lia|]. simpl. unfold mutex_step. rewrite Hp, Hz.
  destruct (Z.eqb_spec 0 t); [lia|]. simpl. split; [done|lia].
Qed.

Lemma takes_loading w t n :
  0 < t -> owner_id (lock_ w) = 0 -> place_of t w = Reload n \/ place_of t w = Woken n -> takes 2 w.
Proof.
  intros Ht Hz Hp. eapply (takes_step 1 t w (set_place t (Loaded 0 n) w)).
  - unfold mutex_step. destruct Hp as [Hp|Hp]; rewrite Hp, Hz; done.
  - eapply (takes_loaded0 _ t n); try done. by rewrite place_set, decide_True.
Qed.

Lemma takes_listening w t n : 0 < t -> owner_id (lock_ w) = 0 -> place_of t w = Listening n -> takes 2 w.
Proof.
  intros Ht Hz Hp. eapply (takes_step 1 t w (set_place t (Loaded 0 n) (set_event (event_drop t (event (lock_ w))) w))).
  - unfold mutex_step. by rewrite Hp, Hz.
  - eapply (takes_loaded0 _ t n); try done. by rewrite place_set, decide_True.
Qed.

Lemma takes_listen w t n : 0 < t -> owner_id (lock_ w) = 0 -> place_of t w = Listen n -> takes 3 w.
Proof.
  intros Ht Hz Hp. eapply (takes_step 2 t w (set_place t (Listening n) (set_event (event_listen t (event (lock_ w))) w))).
  - unfold mutex_step. by rewrite Hp.
  - eapply (takes_listening _ t n); try done. by rewrite place_set, decide_True.
Qed.

(** A notified listener takes the mutex. *)
Lemma takes_notified w t :
  sound w -> owner_id (lock_ w) = 0 -> t ∈ notified (event (lock_ w)) -> takes 3 w.
Proof.
  intros Hs Hz Hin. pose proof (proj1 (sd_listens _ Hs t) ltac:(set_solver)) as Hls.
  destruct (place_of t w) as [| | | |n|n| | | |] eqn:Hp; try done.
  - assert (0 < t) by (apply (sd_positive _ Hs); by rewrite Hp). eapply takes_le; [by eapply takes_listening|lia].
  - assert (0 < t) by (apply (sd_positive _ Hs); by rewrite Hp).
    eapply (takes_step 2 t w (set_place t (Woken n) (set_event (event_consume t (event (lock_ w))) w))).
    + unfold mutex_step. rewrite Hp, is_notified_spec. by rewrite bool_decide_eq_true_2.
    + eapply (takes_loading _ t n); try done. right. by rewrite place_set, decide_True.
Qed.

(** So does a task that waits while another one is about to notify. *)
Lemma takes_notifying w t u n :
  sound w -> owner_id (lock_ w) = 0 -> place_of t w = Blocking n -> place_of u w = Notifying -> takes 4 w.
Proof.
  intros Hs Hz Ht Hu. set (w1 := set_place u Outside (set_event (event_notify 1 (event (lock_ w))) w)).
  assert (Hstep : mutex_step u false w = Some w1) by (unfold mutex_step; by rewrite Hu).
  pose proof (sound_step _ _ _ _ Hs Hstep) as Hs1. eapply (takes_step 3 u w w1); [done|].
  destruct (notify_wakes t (event (lock_ w))) as [v Hv]; [apply (sd_listens _ Hs); by rewrite Ht|]. by eapply takes_notified.
Qed.

Lemma takes_loaded w t o n : 0 < t -> o <> t -> owner_id (lock_ w) = 0 -> place_of t w = Loaded o n -> takes 4 w.
Proof.
  intros Ht Hot Hz Hp. destruct (decide (o = 0)) as [->|Ho]; [eapply takes_le; [by eapply takes_loaded0|lia]|].
  destruct (spin n) as [again n'] eqn:Hsp.
  eapply (takes_step 3 t w (set_place t (if again then Reload n' else Listen n') w)).
  - unfold mutex_step. rewrite Hp, Hsp. destruct (Z.eqb_spec o t); [done|]. by destruct (Z.eqb_spec o 0).
  - destruct again.
    + eapply takes_le; [eapply (takes_loading _ t n'); try done; left; by rewrite place_set, decide_True|lia].
    + eapply (takes_listen _ t n'); try done. by rewrite place_set, decide_True.
Qed.

(** No wake-up of a mutex is lost.  In every interleaving: if the mutex is free and a task is in
    [lock], wherever it is there, then four steps of tasks inside [lock] and [unlock] are enough for
    one of them to take the mutex. *)
Theorem free_mutex_is_taken os w t :
  mutex_run os mutex_new = Some w -> owner_id (lock_ w) = 0 -> in_lock (place_of t w) = true ->
  exists ts w', (length ts <= 4)%nat /\ mutex_run (steps_of ts) w = Some w' /\ owner_id (lock_ w') <> 0.
Proof.
  intros Hs%(sound_run _ _ _ sound_new) Hz Hin. change (takes 4 w).
  assert (Ht : 0 < t) by (apply (sd_positive _ Hs); by destruct (place_of t w)).
  destruct (place_of t w) as [|o n|n|n|n|n|n| | |] eqn:Hp; try done.
  - apply (takes_loaded w t o n); try done. intros ->. pose proof (sd_owner _ Hs t ltac:(right; by rewrite Hp)). lia.
  - eapply takes_le; [eapply (takes_loading _ t n); auto|lia].
  - eapply takes_le; [by eapply (takes_listen _ t n)|lia].
  - eapply takes_le; [by eapply (takes_listening _ t n)|lia].
  - destruct (sd_helped _ Hs t n Hz Hp) as [u [Hu|Hu]]; [eapply takes_le; [by eapply takes_notified|lia]|].
    assert (Hu0 : 0 < u) by (apply (sd_positive _ Hs); intros He; by rewrite He in Hu).
    destruct (place_of u w) as [|[] k| | | | |k| | |] eqn:Hup; try done.
    + eapply takes_le; [by apply (takes_loaded0 w u k)|lia].
    + eapply takes_le; [by apply (takes_loading w u k); auto|lia].
    + by eapply takes_notifying.
  - eapply takes_le; [eapply (takes_loading _ t n); auto|lia].
Qed.
End proof.

(** ** An event *)

(** Listeners and whether they are notified. *)
Notation map_event := (gmap Z bool).

Definition listeners (b : bool) (e : map_event) : gset Z := dom (filter (fun kv => kv.2 = b) e).

Definition map_notify (n : nat) (e : map_event) : map_event :=
  foldr (fun t m => <[t := true]> m) e (take (n - size (listeners true e)) (elements (listeners false e))).

#[export] Instance map_event_ops : EventOps map_event := {|
  event_new := ∅;
  event_listen t e := <[t := false]> e;
  event_notify := map_notify;
  event_is_notified t e := bool_decide (e !! t = Some true);
  event_drop t e :=
    let e' := delete t e in
    if bool_decide (e !! t = Some true) then map_notify (S (size (listeners true e'))) e' else e';
  event_consume t e := delete t e;
|}.

Lemma elem_listeners b e t : t ∈ listeners b e <-> e !! t = Some b.
Proof.
  unfold listeners. rewrite elem_of_dom. split.
  - intros [x Hx]. apply map_lookup_filter_Some in Hx as [Hx <-]. done.
  - intros Hx. exists b. by apply map_lookup_filter_Some.
Qed.

Lemma foldr_notify l (e : map_event) t :
  foldr (fun t m => <[t := true]> m) e l !! t = if bool_decide (t ∈ l) then Some true else e !! t.
Proof.
  induction l as [|x l IH]; simpl; [done|]. rewrite lookup_insert, IH. repeat case_decide || case_bool_decide; try done; set_solver.
Qed.

Lemma map_notify_moves n e :
  exists m, m ⊆ listeners false e /\ listeners false (map_notify n e) = listeners false e ∖ m /\
    listeners true (map_notify n e) = listeners true e ∪ m /\
    (m = listeners false e \/ (n <= size (listeners true e) + size m)%nat).
Proof.
  set (l := take (n - size (listeners true e)) (elements (listeners false e))).
  assert (Hl : forall t, t ∈ l -> e !! t = Some false).
  { intros t Ht. apply elem_listeners, elem_of_elements. unfold l in Ht. eapply elem_of_subseteq; [|exact Ht]. apply subseteq_take. }
  exists (list_to_set l). split_and!.
  - intros t Ht. apply elem_listeners, Hl. set_solver.
  - apply set_eq. intros t. rewrite elem_of_difference, !elem_listeners. unfold map_notify. fold l. rewrite foldr_notify, elem_of_list_to_set.
    case_bool_decide; naive_solver.
  - apply set_eq. intros t. rewrite elem_of_union, !elem_listeners. unfold map_notify. fold l. rewrite foldr_notify, elem_of_list_to_set.
    case_bool_decide; naive_solver.
  - destruct (decide (length (elements (listeners false e)) <= n - size (listeners true e))%nat) as [Hge|Hlt].
    + left. unfold l. rewrite take_ge by done. apply list_to_set_elements_L.
    + right. rewrite size_list_to_set by (eapply sublist_NoDup, sublist_take; apply (NoDup_elements (listeners false e))). unfold l. rewrite length_take. lia.
Qed.

#[export] Instance map_event_laws : EventLaws map_event.
Proof.
  refine {| waiting := listeners false; notified := listeners true |}.
  - done.
  - done.
  - intros t e. simpl. apply bool_decide_ext. by rewrite elem_listeners.
  - intros e t. rewrite !elem_listeners. congruence.
  - intros t e Ht. rewrite elem_listeners in Ht. apply set_eq. intros u. rewrite elem_of_union, elem_of_singleton, !elem_listeners. simpl. rewrite lookup_insert.
    case_decide; naive_solver.
  - intros t e Ht. rewrite elem_listeners in Ht. apply set_eq. intros u. rewrite !elem_listeners. simpl. rewrite lookup_insert. case_decide; naive_solver.
  - intros n e. destruct (map_notify_moves n e) as (m & Hm & Hw & Hn & _). by exists m.
  - intros n e. destruct (map_notify_moves n e) as (m & Hm & Hw & Hn & [->|Hsz]); simpl; rewrite Hw, Hn; [right; set_solver|left].
    rewrite size_union; [lia|]. intros t Ht Ht'. apply Hm in Ht'. rewrite elem_listeners in Ht, Ht'. congruence.
  - intros t e Ht. rewrite elem_listeners in Ht. apply set_eq. intros u. rewrite !elem_listeners. simpl. rewrite lookup_delete. case_decide; naive_solver.
  - intros t e Ht. apply set_eq. intros u. rewrite elem_of_difference, elem_of_singleton, !elem_listeners. simpl. rewrite lookup_delete. case_decide; naive_solver.
  - intros t e.
    assert (Hd : forall b, listeners b (delete t e) = listeners b e ∖ {[t]}).
    { intros b. apply set_eq. intros u. rewrite elem_of_difference, elem_of_singleton, !elem_listeners, lookup_delete. case_decide; naive_solver. }
    simpl. case_bool_decide.
    + destruct (map_notify_moves (S (size (listeners true (delete t e)))) (delete t e)) as (m & Hm & Hw & Hn & _).
      exists m. rewrite Hw, Hn, !Hd. rewrite Hd in Hm. done.
    + exists ∅. rewrite !Hd. set_solver.
Defined.

(** ** Witnesses *)

(** Task 1 has the mutex and task 2 blocks; then task 1 unlocks. *)
Definition contended : list op :=
  [ELock 1; EStep 1 false; ELock 2] ++ concat (replicate 10 [EStep 2 false; EStep 2 false]) ++
  [EStep 2 false; EStep 2 false; EStep 2 false].

Definition mutex0 : world map_event := mutex_new.

Lemma mutex_excludes_witness :
  exists w, mutex_run contended mutex0 = Some w /\ place_of 1 w = Owner /\ place_of 2 w = Blocking 10 /\ owner_id (lock_ w) = 1.
Proof.
  destruct (mutex_run contended mutex0) as [w|] eqn:Hrun; [|by vm_compute in Hrun]. exists w.
  assert (H1 : place_of 1 w = Owner) by (vm_compute in Hrun; injection Hrun as <-; by vm_compute).
  assert (H2 : place_of 2 w = Blocking 10) by (vm_compute in Hrun; injection Hrun as <-; by vm_compute).
  split_and!; [done|done|done|]. exact (proj2 (proj1 (mutex_excludes contended w Hrun) 1 1 H1 H1)).
Defined.

Lemma free_mutex_is_taken_witness :
  exists w ts w', mutex_run (contended ++ [EUnlock 1]) mutex0 = Some w /\ (length ts <= 4)%nat /\
    mutex_run (steps_of ts) w = Some w' /\ owner_id (lock_ w') <> 0.
Proof.
  destruct (mutex_run (contended ++ [EUnlock 1]) mutex0) as [w|] eqn:Hrun; [|by vm_compute in Hrun].
  assert (Hz : owner_id (lock_ w) = 0) by (vm_compute in Hrun; injection Hrun as <-; by vm_compute).
  assert (Hin : in_lock (place_of 2 w) = true) by (vm_compute in Hrun; injection Hrun as <-; by vm_compute).
  destruct (free_mutex_is_taken (contended ++ [EUnlock 1]) w 2 Hrun Hz Hin) as (ts & w' & Hts). by exists w, ts, w'.
Defined.

(** A task that locks the mutex it has fails. *)
Lemma relock_fails :
  (fun w => place_of 1 w) <$> mutex_run [ELock 1; EStep 1 false; ELock 1; EStep 1 false] mutex0 = Some Failed.
Proof. by vm_compute. Qed.
