(* ===== verification/WaitQueue.v ===== *)
(** * Wait queues

    [modules/axtask/src/wait_queue.rs]: tasks that wait until a condition holds, with or without a
    deadline, and tasks that notify them.  The event is that of [Mutex]; the condition is a flag that
    other code sets and clears at any time; the timer of [timeout_at] is a step that becomes possible
    at the deadline.  The waits without a condition are those whose condition never holds. *)

From S2P Require Import Prelude Mutex.

(** [usize::MAX], which [notify_all] passes; there are fewer listeners than that. *)
Section wait_queue.
Context {E : Type} `{EventOps E} `{!EventLaws E}.
Variable MAX : nat.

(** Where a waiter is: about to look at the condition, about to listen, listening and about to look
    again, committed to sleep, or back, with [true] for a timeout. *)
Inductive wplace : Type := Check_ | Listen_ | Recheck | Sleep | Back (timed_out : bool).

(** [wait_until] has no deadline, [wait_timeout_until] and its asynchronous form have one. *)
Record waiter : Type := mk_waiter { deadline : option Z; at_ : wplace }.

(** The queue, its waiters, the condition, the clock, and how many tasks have made the condition
    true and not yet notified. *)
Record queue : Type := mk_queue {
  q_event : E;
  q_waiters : gmap Z waiter;
  q_cond : bool;
  q_now : Z;
  q_pending : nat;
}.

Definition queue_new : queue := mk_queue event_new ∅ false 0 0.

Inductive qop : Type :=
| QWait (t : Z) (d : option Z)
| QStep (t : Z)
| QExpire (t : Z)
| QSet
| QClear
| QNotifyAll
| QNotifyMany (n : nat)
| QTick (dt : Z).

Definition put (t : Z) (p : wplace) (w : waiter) (e : E) (q : queue) : queue :=
  mk_queue e (<[t := mk_waiter (deadline w) p]> (q_waiters q)) (q_cond q) (q_now q) (q_pending q).

Definition expired (w : waiter) (q : queue) : bool := match deadline w with Some d => d <=? q_now q | None => false end.

(** One step of a waiter. *)
Definition wait_step (t : Z) (q : queue) : option queue :=
  match q_waiters q !! t with
  | Some w =>
      match at_ w with
      | Check_ =>
          Some (put t (if q_cond q then Back false else if expired w q then Back true else Listen_) w (q_event q) q)
      | Listen_ => Some (put t Recheck w (event_listen t (q_event q)) q)
      | Recheck =>
          if q_cond q then Some (put t (Back false) w (event_drop t (q_event q)) q) else Some (put t Sleep w (q_event q) q)
      | Sleep => if event_is_notified t (q_event q) then Some (put t Check_ w (event_consume t (q_event q)) q) else None
      | Back _ => None
      end
  | None => None
  end.

(** The timer of [timeout_at], which drops the listener. *)
Definition expire (t : Z) (q : queue) : option queue :=
  match q_waiters q !! t with
  | Some w =>
      match at_ w with
      | Sleep => if expired w q then Some (put t Check_ w (event_drop t (q_event q)) q) else None
      | _ => None
      end
  | None => None
  end.

Definition notify (n pending : nat) (q : queue) : queue :=
  mk_queue (event_notify n (q_event q)) (q_waiters q) (q_cond q) (q_now q) pending.

Definition queue_step (o : qop) (q : queue) : option queue :=
  match o with
  | QWait t d =>
      match q_waiters q !! t with
      | None | Some (mk_waiter _ (Back _)) =>
          Some (mk_queue (q_event q) (<[t := mk_waiter d Check_]> (q_waiters q)) (q_cond q) (q_now q) (q_pending q))
      | Some _ => None
      end
  | QStep t => wait_step t q
  | QExpire t => expire t q
  | QSet => Some (mk_queue (q_event q) (q_waiters q) true (q_now q) (S (q_pending q)))
  | QClear => Some (mk_queue (q_event q) (q_waiters q) false (q_now q) (q_pending q))
  | QNotifyAll => match q_pending q with O => None | S n => Some (notify MAX n q) end
  | QNotifyMany n => Some (notify n (q_pending q) q)
  | QTick dt => if 0 <=? dt then Some (mk_queue (q_event q) (q_waiters q) (q_cond q) (q_now q + dt) (q_pending q)) else None
  end.

Fixpoint queue_run (os : list qop) (q : queue) : option queue :=
  match os with
  | [] => Some q
  | o :: os => q' ← queue_step o q; queue_run os q'
  end.

(** ** No notification is missed *)

Definition registered (q : queue) (t : Z) : Prop :=
  match q_waiters q !! t with Some w => at_ w = Recheck \/ at_ w = Sleep | None => False end.

Record attentive (q : queue) : Prop := {
  at_listeners t : t ∈ waiting (q_event q) ∪ notified (q_event q) <-> registered q t;
  at_awake t d : q_pending q = 0%nat -> q_cond q = true -> q_waiters q !! t = Some (mk_waiter d Sleep) -> t ∈ notified (q_event q);
}.
Lemma attentive_new : attentive queue_new.
Proof. split; simpl; [|done]. intros t. rewrite new_waiting, new_notified. unfold registered. simpl. set_solver. Qed.

Lemma waiter_eta w p : at_ w = p -> w = mk_waiter (deadline w) p.
Proof. by destruct w; simpl; intros ->. Qed.

(** A waiter moves, with a change of the event that concerns others only by notifying them. *)
Lemma attentive_put q t w p e :
  attentive q -> q_waiters q !! t = Some w ->
  (forall u, u <> t -> u ∈ waiting e ∪ notified e <-> u ∈ waiting (q_event q) ∪ notified (q_event q)) ->
  (forall u, u <> t -> u ∈ notified (q_event q) -> u ∈ notified e) ->
  (t ∈ waiting e ∪ notified e <-> p = Recheck \/ p = Sleep) ->
  (q_cond q = true -> p <> Sleep) ->
  attentive (put t p w e q).
Proof.
  intros [Hl Ha] Hw Hothers Hkept Ht Hp. split; simpl.
  - intros u. unfold registered. simpl. rewrite lookup_insert. case_decide as Hu; [by subst u|]. rewrite Hothers by done. apply Hl.
  - intros u d Hz Hc. rewrite lookup_insert. case_decide as Hu; [intros [= _ ->]; by destruct (Hp Hc)|].
    intros Hs. apply Hkept; [done|]. by eapply Ha.
Qed.

(** A notification. *)
Lemma attentive_notify q n k :
  attentive q -> (k = 0%nat -> q_pending q = 0%nat \/ (size (q_waiters q) < n)%nat) -> attentive (notify n k q).
Proof.
  intros [Hl Ha] Hk. destruct (notify_moves n (q_event q)) as (m & Hm & Hw & Hn). split; simpl; rewrite ?Hw, ?Hn.
  - intros t. change (registered (notify n k q) t) with (registered q t). rewrite <-Hl. set_unfold. destruct (decide (t ∈ m)); [|tauto]. specialize (Hm t). tauto.
  - intros t d Hz Hc Hs. destruct (Hk Hz) as [Hp|Hsz]; [apply elem_of_union_l; by eapply Ha|].
    assert (Hreg : t ∈ waiting (q_event q) ∪ notified (q_event q)) by (apply Hl; unfold registered; rewrite Hs; by right).
    destruct (notify_enough n (q_event q)) as [Hge|Hem].
    + exfalso. assert (notified (event_notify n (q_event q)) ⊆ dom (q_waiters q)) as Hsub.
      { intros u Hu. rewrite Hn in Hu. assert (u ∈ waiting (q_event q) ∪ notified (q_event q)) as Hu' by set_solver.
        apply Hl in Hu'. unfold registered in Hu'. destruct (q_waiters q !! u) eqn:Hq; [|done]. by apply elem_of_dom_2 in Hq. }
      apply subseteq_size in Hsub. rewrite size_dom in Hsub. lia.
    + rewrite Hw in Hem. set_unfold. destruct (decide (t ∈ m)); [tauto|]. specialize (Hem t). tauto.
Qed.

Lemma attentive_wait t q q' : attentive q -> wait_step t q = Some q' -> attentive q'.
Proof.
  intros Hq Hs. pose proof (at_listeners _ Hq t) as Hl. unfold registered in Hl. unfold wait_step in Hs.
  destruct (q_waiters q !! t) as [w|] eqn:Hw; [|done]. destruct (at_ w) eqn:Hat.
  - injection Hs as <-. apply attentive_put; try done.
    + rewrite Hl. repeat case_match; intuition congruence.
    + intros ->. done.
  - assert (Hn : t ∉ waiting (q_event q) /\ t ∉ notified (q_event q)) by (split; intros Hin; destruct (proj1 Hl ltac:(set_solver)); congruence).
    injection Hs as <-. apply attentive_put; try done; rewrite ?listen_waiting, ?listen_notified by tauto; try (intros u Hu); try set_solver.
  - destruct (q_cond q) eqn:Hc; injection Hs as <-.
    + destruct (drop_moves t (q_event q)) as (m & Hm & Hdw & Hdn). apply attentive_put; try done; rewrite ?Hdw, ?Hdn.
      * intros u Hu. set_unfold. destruct (decide (u ∈ m)); [|tauto]. specialize (Hm u). tauto.
      * set_solver.
      * split; [set_solver|]. by intros [?|?].
    + apply attentive_put; try done; [|by rewrite Hc]. rewrite Hl. split; auto.
  - rewrite is_notified_spec in Hs. case_bool_decide as Hin; [|done]. injection Hs as <-.
    apply attentive_put; try done; rewrite ?consume_waiting, ?consume_notified by done; try (intros u Hu); try set_solver.
    pose proof (waiting_notified (q_event q)). split; [set_solver|]. by intros [?|?].
  - done.
Qed.

Lemma attentive_step o q q' :
  attentive q -> (size (q_waiters q) < MAX)%nat -> queue_step o q = Some q' ->
  attentive q' /\ (size (q_waiters q') <= S (size (q_waiters q)))%nat.
Proof.
  intros Hq Hsz Hs. destruct o as [t d|t|t| | | |n|dt]; simpl in Hs.
  - assert (Hq' : forall x, q_waiters q !! t = x -> (x = None \/ exists d' b, x = Some (mk_waiter d' (Back b))) ->
      attentive (mk_queue (q_event q) (<[t := mk_waiter d Check_]> (q_waiters q)) (q_cond q) (q_now q) (q_pending q)) /\
      (size (<[t := mk_waiter d Check_]> (q_waiters q)) <= S (size (q_waiters q)))%nat).
    { intros x Hx Hcase. split; [|rewrite map_size_insert; destruct (q_waiters q !! t); simpl; lia]. destruct Hq as [Hl Ha]. split; simpl.
      - intros u. unfold registered. simpl. rewrite lookup_insert, Hl. unfold registered. case_decide; [subst u|done]. rewrite Hx.
        destruct Hcase as [->|(d' & b & ->)]; simpl; intuition congruence.
      - intros u d' Hz Hc. rewrite lookup_insert. case_decide; [done|]. by apply Ha. }
    destruct (q_waiters q !! t) as [[d' [| | | |b]]|] eqn:Hw; try done; injection Hs as <-; eapply Hq'; eauto.
  - split; [by eapply attentive_wait|]. unfold wait_step in Hs. destruct (q_waiters q !! t) eqn:Hw; [|done].
    repeat case_match; simplify_eq/=; rewrite map_size_insert, Hw; simpl; lia.
  - unfold expire in Hs. destruct (q_waiters q !! t) as [w|] eqn:Hw; [|done]. destruct (at_ w); try done. case_match; [|done]. injection Hs as <-.
    split; [|simpl; rewrite map_size_insert, Hw; simpl; lia].
    destruct (drop_moves t (q_event q)) as (m & Hm & Hdw & Hdn). apply attentive_put; try done; rewrite ?Hdw, ?Hdn.
    + intros u Hu. set_unfold. destruct (decide (u ∈ m)); [|tauto]. specialize (Hm u). tauto.
    + set_solver.
    + split; [set_solver|]. by intros [?|?].
  - injection Hs as <-. split; [|simpl; lia]. destruct Hq as [Hl Ha]. by split.
  - injection Hs as <-. split; [|simpl; lia]. destruct Hq as [Hl Ha]. by split.
  - destruct (q_pending q) as [|k] eqn:Hk; [done|]. injection Hs as <-. split; [|simpl; lia]. apply attentive_notify; auto.
  - injection Hs as <-. split; [|simpl; lia]. apply attentive_notify; auto.
  - case_match; [|done]. injection Hs as <-. split; [|simpl; lia]. destruct Hq as [Hl Ha]. by split.
Qed.

Lemma attentive_run os q q' :
  attentive q -> (size (q_waiters q) + length os < MAX)%nat -> queue_run os q = Some q' -> attentive q'.
Proof.
  revert q. induction os as [|o os IH]; intros q Hq Hsz Hrun; simpl in *; [by injection Hrun as <-|].
  destruct (queue_step o q) as [q1|] eqn:Hs; [|done]. simpl in Hrun. destruct (attentive_step _ _ _ Hq ltac:(lia) Hs) as [Hq1 Hsz1].
  apply (IH q1); [done|lia|done].
Qed.

(** C28: No notification of a wait queue is missed.  In every interleaving of waits, changes of the
    condition and notifications, if every task that makes the condition true then calls
    [notify_all]: once those calls are done, a waiter that sleeps although the condition holds has
    been notified, and two steps of its own bring it back from [wait_until]. *)
Theorem notify_all_reaches_every_waiter os q t d :
  queue_run os queue_new = Some q -> (length os < MAX)%nat ->
  q_pending q = 0%nat -> q_cond q = true -> q_waiters q !! t = Some (mk_waiter d Sleep) ->
  exists q', queue_run [QStep t; QStep t] q = Some q' /\ q_waiters q' !! t = Some (mk_waiter d (Back false)).
Proof.
  intros Hrun Hlen Hz Hc Ht. pose proof (attentive_run _ _ _ attentive_new Hlen Hrun) as Hq.
  pose proof (at_awake _ Hq t d Hz Hc Ht) as Hin.
  set (q1 := put t Check_ (mk_waiter d Sleep) (event_consume t (q_event q)) q).
  assert (H1 : wait_step t q = Some q1).
  { unfold wait_step. rewrite Ht. simpl. by rewrite is_notified_spec, bool_decide_eq_true_2. }
  assert (H2 : wait_step t q1 = Some (put t (Back false) (mk_waiter d Check_) (q_event q1) q1)).
  { unfold wait_step. simpl. rewrite lookup_insert_eq. simpl. by rewrite Hc. }
  eexists. simpl. rewrite H1. simpl. rewrite H2. split; [done|]. simpl. by rewrite lookup_insert_eq.
Qed.

(** A wait with a deadline ends after it: four steps of the waiter, or its timer, are enough. *)
Lemma timed_wait_ends q t d p :
  q_waiters q !! t = Some (mk_waiter (Some d) p) -> d <= q_now q ->
  exists os q' b, (length os <= 5)%nat /\ Forall (fun o => o = QStep t \/ o = QExpire t) os /\
    queue_run os q = Some q' /\ q_waiters q' !! t = Some (mk_waiter (Some d) (Back b)).
Proof.
  intros Ht Hd. assert (Hcheck : forall q0, q_waiters q0 !! t = Some (mk_waiter (Some d) Check_) -> d <= q_now q0 ->
    exists q' b, queue_step (QStep t) q0 = Some q' /\ q_waiters q' !! t = Some (mk_waiter (Some d) (Back b))).
  { intros q0 H0 Hd0. simpl. unfold wait_step. rewrite H0. simpl. unfold expired. simpl. rewrite (proj2 (Z.leb_le _ _) Hd0).
    exists (put t (if q_cond q0 then Back false else Back true) (mk_waiter (Some d) Check_) (q_event q0) q0), (negb (q_cond q0)).
    split; [done|]. simpl. rewrite lookup_insert_eq. by destruct (q_cond q0). }
  assert (Hsleep : forall q0, q_waiters q0 !! t = Some (mk_waiter (Some d) Sleep) -> d <= q_now q0 ->
    exists q' b, queue_run [QExpire t; QStep t] q0 = Some q' /\ q_waiters q' !! t = Some (mk_waiter (Some d) (Back b))).
  { intros q0 H0 Hd0. simpl. unfold expire. rewrite H0. simpl. unfold expired. simpl. rewrite (proj2 (Z.leb_le _ _) Hd0). simpl.
    destruct (Hcheck (put t Check_ (mk_waiter (Some d) Sleep) (event_drop t (q_event q0)) q0)) as (q' & b & Hs & Hb).
    - simpl. by rewrite lookup_insert_eq.
    - done.
    - simpl in Hs. rewrite Hs. by exists q', b. }
  assert (Hre : forall q0, q_waiters q0 !! t = Some (mk_waiter (Some d) Recheck) -> d <= q_now q0 ->
    exists os q' b, (length os <= 3)%nat /\ Forall (fun o => o = QStep t \/ o = QExpire t) os /\
      queue_run os q0 = Some q' /\ q_waiters q' !! t = Some (mk_waiter (Some d) (Back b))).
  { intros q0 H0 Hd0. destruct (q_cond q0) eqn:Hc.
    - exists [QStep t]. simpl. unfold wait_step. rewrite H0. simpl. rewrite Hc. simpl. eexists _, _. split_and!; [lia|by repeat constructor; left|done|].
      simpl. by rewrite lookup_insert_eq.
    - destruct (Hsleep (put t Sleep (mk_waiter (Some d) Recheck) (q_event q0) q0)) as (q' & b & Hs & Hb).
      + simpl. by rewrite lookup_insert_eq.
      + done.
      + assert (H1 : wait_step t q0 = Some (put t Sleep (mk_waiter (Some d) Recheck) (q_event q0) q0)) by (unfold wait_step; rewrite H0; simpl; by rewrite Hc).
        exists [QStep t; QExpire t; QStep t], q', b. simpl in Hs |- *. rewrite H1. simpl.
        split_and!; [lia|by repeat (constructor; auto)|exact Hs|done]. }
  destruct p as [| | | |b].
  - destruct (Hcheck q Ht Hd) as (q' & b & Hs & Hb). exists [QStep t], q', b. simpl in *. rewrite Hs. split_and!; [lia|by repeat (constructor; auto)|done|done].
  - destruct (Hre (put t Recheck (mk_waiter (Some d) Listen_) (event_listen t (q_event q)) q)) as (os & q' & b & Hlen & Hall & Hs & Hb).
    + simpl. by rewrite lookup_insert_eq.
    + done.
    + assert (H1 : wait_step t q = Some (put t Recheck (mk_waiter (Some d) Listen_) (event_listen t (q_event q)) q)) by (unfold wait_step; by rewrite Ht).
      exists (QStep t :: os), q', b. simpl. rewrite H1. simpl. split_and!; [lia|constructor; auto|done|done].
  - destruct (Hre q Ht Hd) as (os & q' & b & Hlen & Hall & Hs & Hb). exists os, q', b. split_and!; [lia|done..].
  - destruct (Hsleep q Ht Hd) as (q' & b & Hs & Hb). exists [QExpire t; QStep t], q', b. split_and!; [simpl; lia|by repeat (constructor; auto)|done|done].
  - exists [], q, b. split_and!; [simpl; lia|constructor|done|done].
Qed.
End wait_queue.

(** ** Witness *)

(** A task waits; another one makes the condition true and notifies all. *)
Definition notified_wait : list qop := [QWait 1 None; QStep 1; QStep 1; QStep 1; QSet; QNotifyAll].

Lemma notify_all_reaches_every_waiter_witness :
  exists (q q' : queue (E := gmap Z bool)), queue_run 100 notified_wait queue_new = Some q /\
    queue_run 100 [QStep 1; QStep 1] q = Some q' /\ q_waiters q' !! 1 = Some (mk_waiter None (Back false)).
Proof.
  destruct (queue_run (E := gmap Z bool) 100 notified_wait queue_new) as [q|] eqn:Hrun; [|by vm_compute in Hrun].
  assert (Hlen : (length notified_wait < 100)%nat) by (simpl; lia).
  assert (Hz : q_pending q = 0%nat) by (vm_compute in Hrun; injection Hrun as <-; by vm_compute).
  assert (Hc : q_cond q = true) by (vm_compute in Hrun; injection Hrun as <-; by vm_compute).
  assert (Ht : q_waiters q !! 1 = Some (mk_waiter None Sleep)) by (vm_compute in Hrun; injection Hrun as <-; by vm_compute).
  destruct (notify_all_reaches_every_waiter 100 notified_wait q 1 None Hrun Hlen Hz Hc Ht) as (q' & Hq'). by exists q, q'.
Defined.
