(* ===== verification/Unix.v ===== *)
(** * Unix domain sockets

    [modules/axnet-ng/src/unix/]: stream sockets ([stream.rs]), datagram sockets ([dgram.rs]), and the
    addresses they are bound to ([mod.rs]).

    Calls are taken one attempt at a time: [send] and [recv] of a stream, and [recv] of a datagram
    socket, are closures that [poll_io] retries ([general.rs]), with the state they keep between
    attempts as an argument.  Ring buffers ([ringbuf]) are sequences with a capacity, whose halves
    know whether the other half is held; the channels of [async_channel] are queues that know
    whether a receiver and how many senders are left.  The file system, which maps paths to nodes,
    is the class [SocketFs]. *)

From S2P Require Import Prelude Io PageCache.

Definition UNIX_BUF_SIZE : Z := 65536.

(** [UnixSocketAddr]. *)
Inductive UnixSocketAddr : Type := Unnamed | Abstract (name : Z) | Path (p : Z).

(** A channel of a stream: the ring buffers written by its side [false] and by its side [true], and
    whether a [Channel] for each side is alive. *)
Record duplex : Type := mk_duplex { buf : bool -> list Z; held : bool -> bool }.

(** [Channel]: one end of a duplex channel. *)
Record Channel : Type := mk_channel { chan : Z; side : bool; peer_pid : Z }.

(** [ConnRequest]. *)
Record ConnRequest : Type := mk_conn_request { cr_channel : Channel; cr_addr : UnixSocketAddr; cr_pid : Z }.

(** [StreamTransport]: the end it has; the queue of connections it accepts from; who made it; what
    is shut down. *)
Record StreamTransport : Type := mk_stream {
  st_channel : option Channel;
  st_conn_rx : option Z;
  st_pid : Z;
  st_rx_closed : bool;
  st_tx_closed : bool;
}.

(** [Packet] and [DgramTransport]: the queue it receives from, and the one it is connected to. *)
Record Packet : Type := mk_packet { pk_data : list Z; pk_cmsg : list Z; pk_sender : UnixSocketAddr }.
Record DgramTransport : Type := mk_dgram {
  dg_data_rx : option Z;
  dg_connected : option Z;
  dg_local : UnixSocketAddr;
  dg_pid : Z;
}.

Inductive Transport : Type := Stream (s : StreamTransport) | Dgram (d : DgramTransport).

(** [UnixSocket], with the non-blocking flag of its options. *)
Record UnixSocket : Type := mk_unix {
  transport : Transport;
  local_addr : UnixSocketAddr;
  remote_addr : UnixSocketAddr;
  nonblock : bool;
}.

(** A channel of [async_channel]. *)
Record mailbox (A : Type) : Type := mk_mailbox { mail : list A; senders : nat; receiver : bool }.
Arguments mk_mailbox {A} mail senders receiver.
Arguments mail {A} m.
Arguments senders {A} m.
Arguments receiver {A} m.

(** [stream::Bind], [dgram::Bind] and [BindSlot]. *)
Record Bind : Type := mk_bind { conn_tx : Z; bind_pid : Z }.
Record BindSlot : Type := mk_slot { slot_stream : option Bind; slot_dgram : option Z }.

(** The file system: the node of a path, and whether it is a socket; opening may create a socket. *)
Class SocketFs (F : Type) := {
  fs_resolve : Z -> F -> result VfsError Z;
  fs_open_create : Z -> F -> result VfsError Z * F;
  fs_is_socket : Z -> F -> bool;
}.

(** Slots belong to abstract names and to nodes. *)
Inductive slot_key : Type := KName (name : Z) | KNode (node : Z).
#[export] Instance slot_key_eq_dec : EqDecision slot_key.
Proof. solve_decision. Defined.
#[export] Instance slot_key_countable : Countable slot_key.
Proof.
  apply (inj_countable' (fun k => match k with KName n => inl n | KNode n => inr n end)
           (fun s => match s with inl n => KName n | inr n => KNode n end)). by intros [].
Qed.

Record net (F : Type) : Type := mk_net {
  sockets : gmap Z UnixSocket;
  duplexes : gmap Z duplex;
  conns : gmap Z (mailbox ConnRequest);
  boxes : gmap Z (mailbox Packet);
  slots : gmap slot_key BindSlot;
  fs : F;
  fresh : Z;
}.
Arguments mk_net {F} sockets duplexes conns boxes slots fs fresh.
Arguments sockets {F} n.
Arguments duplexes {F} n.
Arguments conns {F} n.
Arguments boxes {F} n.
Arguments slots {F} n.
Arguments fs {F} n.
Arguments fresh {F} n.

Section unix.
Context {F : Type} `{SocketFs F}.

Definition net_new (f : F) : net F := mk_net ∅ ∅ ∅ ∅ ∅ f 0.

Definition set_sockets (m : gmap Z UnixSocket) (n : net F) : net F :=
  mk_net m (duplexes n) (conns n) (boxes n) (slots n) (fs n) (fresh n).
Definition set_duplexes (m : gmap Z duplex) (n : net F) : net F :=
  mk_net (sockets n) m (conns n) (boxes n) (slots n) (fs n) (fresh n).
Definition set_conns (m : gmap Z (mailbox ConnRequest)) (n : net F) : net F :=
  mk_net (sockets n) (duplexes n) m (boxes n) (slots n) (fs n) (fresh n).
Definition set_boxes (m : gmap Z (mailbox Packet)) (n : net F) : net F :=
  mk_net (sockets n) (duplexes n) (conns n) m (slots n) (fs n) (fresh n).
Definition set_slots (m : gmap slot_key BindSlot) (n : net F) : net F :=
  mk_net (sockets n) (duplexes n) (conns n) (boxes n) m (fs n) (fresh n).
Definition set_fs (f : F) (n : net F) : net F :=
  mk_net (sockets n) (duplexes n) (conns n) (boxes n) (slots n) f (fresh n).
(** A new object gets the next number. *)
Definition take_fresh (n : net F) : Z * net F :=
  (fresh n, mk_net (sockets n) (duplexes n) (conns n) (boxes n) (slots n) (fs n) (fresh n + 1)).

Definition put_socket (id : Z) (s : UnixSocket) (n : net F) : net F := set_sockets (<[id := s]> (sockets n)) n.

(** [new_channels]: the client has the side [false]. *)
Definition new_channels (n : net F) : Z * net F :=
  let '(c, n) := take_fresh n in
  (c, set_duplexes (<[c := mk_duplex (fun _ => []) (fun _ => true)]> (duplexes n)) n).

(** ** Sockets come and go *)

(** [UnixSocket::new] with [StreamTransport::new] or [DgramTransport::new]. *)
Definition stream_new (pid : Z) : StreamTransport := mk_stream None None pid false false.
Definition dgram_new (pid : Z) : DgramTransport := mk_dgram None None Unnamed pid.
Definition unix_new (t : Transport) : UnixSocket := mk_unix t Unnamed Unnamed false.

Definition socket_new (dgram : bool) (pid : Z) (n : net F) : Z * net F :=
  let '(id, n) := take_fresh n in
  (id, put_socket id (unix_new (if dgram then Dgram (dgram_new pid) else Stream (stream_new pid))) n).

(** [StreamTransport::new_pair]. *)
Definition stream_pair (pid : Z) (n : net F) : Z * Z * net F :=
  let '(c, n) := new_channels n in
  let '(a, n) := take_fresh n in
  let '(b, n) := take_fresh n in
  let end_ sd := Stream (mk_stream (Some (mk_channel c sd pid)) None pid false false) in
  (a, b, put_socket b (unix_new (end_ true)) (put_socket a (unix_new (end_ false)) n)).

(** [DgramTransport::new_pair]. *)
Definition dgram_pair (pid : Z) (n : net F) : Z * Z * net F :=
  let '(q1, n) := take_fresh n in
  let '(q2, n) := take_fresh n in
  let '(a, n) := take_fresh n in
  let '(b, n) := take_fresh n in
  let box := mk_mailbox [] 1 true in
  let n := set_boxes (<[q1 := box]> (<[q2 := box]> (boxes n))) n in
  let end_ rx tx := Dgram (mk_dgram (Some rx) (Some tx) Unnamed pid) in
  (a, b, put_socket b (unix_new (end_ q2 q1)) (put_socket a (unix_new (end_ q1 q2)) n)).

(** A [Channel] is dropped: the halves of its ring buffers go. *)
Definition drop_channel (c : Channel) (n : net F) : net F :=
  match duplexes n !! chan c with
  | Some d =>
      set_duplexes (<[chan c := mk_duplex (buf d) (fun s => if Bool.eqb s (side c) then false else held d s)]> (duplexes n)) n
  | None => n
  end.

Definition drop_receiver {A} (m : mailbox A) : mailbox A := mk_mailbox (mail m) (senders m) false.
Definition drop_sender {A} (m : mailbox A) : mailbox A := mk_mailbox (mail m) (senders m - 1) (receiver m).
Definition add_sender {A} (m : mailbox A) : mailbox A := mk_mailbox (mail m) (senders m + 1) (receiver m).

(** The socket is closed: what its transport holds is dropped. *)
Definition socket_drop (id : Z) (n : net F) : net F :=
  match sockets n !! id with
  | None => n
  | Some s =>
      let n := set_sockets (delete id (sockets n)) n in
      match transport s with
      | Stream t =>
          let n := match st_channel t with Some c => drop_channel c n | None => n end in
          match st_conn_rx t with Some q => set_conns (alter drop_receiver q (conns n)) n | None => n end
      | Dgram t =>
          let n := match dg_connected t with Some q => set_boxes (alter drop_sender q (boxes n)) n | None => n end in
          match dg_data_rx t with Some q => set_boxes (alter drop_receiver q (boxes n)) n | None => n end
      end
  end.
(** ** Addresses *)

(** [with_slot]: the slot of an address. *)
Definition with_slot (a : UnixSocketAddr) (n : net F) : result VfsError (slot_key * BindSlot) :=
  match a with
  | Unnamed => Err InvalidInput
  | Abstract name => match slots n !! KName name with Some s => Ok (KName name, s) | None => Err NotFound end
  | Path p =>
      match fs_resolve p (fs n) with
      | Err e => Err e
      | Ok node =>
          if fs_is_socket node (fs n) then
            match slots n !! KNode node with Some s => Ok (KNode node, s) | None => Err ConnectionRefused end
          else Err NotASocket
      end
  end.

(** [with_slot_or_insert]: the slot, made if there is none. *)
Definition empty_slot : BindSlot := mk_slot None None.
Definition get_slot (k : slot_key) (n : net F) : BindSlot * net F :=
  match slots n !! k with
  | Some s => (s, n)
  | None => (empty_slot, set_slots (<[k := empty_slot]> (slots n)) n)
  end.
Definition with_slot_or_insert (a : UnixSocketAddr) (n : net F) : result VfsError (slot_key * BindSlot) * net F :=
  match a with
  | Unnamed => (Err InvalidInput, n)
  | Abstract name => let '(s, n) := get_slot (KName name) n in (Ok (KName name, s), n)
  | Path p =>
      match fs_open_create p (fs n) with
      | (Err e, f) => (Err e, set_fs f n)
      | (Ok node, f) =>
          let n := set_fs f n in
          if fs_is_socket node (fs n) then let '(s, n) := get_slot (KNode node) n in (Ok (KNode node, s), n)
          else (Err NotASocket, n)
      end
  end.

(** The [bind] of the two transports, on the slot [k]. *)
Definition transport_bind (k : slot_key) (s : BindSlot) (a : UnixSocketAddr) (t : Transport) (n : net F) :
    result VfsError Transport * net F :=
  match t with
  | Stream t =>
      if slot_stream s then (Err AddrInUse, n)
      else if st_conn_rx t then (Err InvalidInput, n)
      else
        let '(q, n) := take_fresh n in
        let n := set_conns (<[q := mk_mailbox [] 1 true]> (conns n)) n in
        let n := set_slots (<[k := mk_slot (Some (mk_bind q (st_pid t))) (slot_dgram s)]> (slots n)) n in
        (Ok (Stream (mk_stream (st_channel t) (Some q) (st_pid t) (st_rx_closed t) (st_tx_closed t))), n)
  | Dgram t =>
      if slot_dgram s then (Err AddrInUse, n)
      else if dg_data_rx t then (Err InvalidInput, n)
      else
        let '(q, n) := take_fresh n in
        let n := set_boxes (<[q := mk_mailbox [] 1 true]> (boxes n)) n in
        let n := set_slots (<[k := mk_slot (slot_stream s) (Some q)]> (slots n)) n in
        (Ok (Dgram (mk_dgram (Some q) (dg_connected t) a (dg_pid t))), n)
  end.

(** [UnixSocket::bind]. *)
Definition socket_bind (id : Z) (a : UnixSocketAddr) (n : net F) : result VfsError () * net F :=
  match sockets n !! id with
  | None => (Err BadFileDescriptor, n)
  | Some s =>
      match local_addr s with
      | Unnamed =>
          match with_slot_or_insert a n with
          | (Err e, n) => (Err e, n)
          | (Ok (k, sl), n) =>
              match transport_bind k sl a (transport s) n with
              | (Err e, n) => (Err e, n)
              | (Ok t, n) => (Ok (), put_socket id (mk_unix t a (remote_addr s) (nonblock s)) n)
              end
          end
      | _ => (Err InvalidInput, n)
      end
  end.

(** [stream::Bind::connect]: the request joins the queue unless nobody receives. *)
Definition bind_connect (b : Bind) (local : UnixSocketAddr) (pid : Z) (n : net F) : result VfsError Channel * net F :=
  match conns n !! conn_tx b with
  | Some m =>
      if receiver m then
        let '(c, n) := new_channels n in
        let rq := mk_conn_request (mk_channel c true pid) local pid in
        (Ok (mk_channel c false (bind_pid b)), set_conns (<[conn_tx b := mk_mailbox (mail m ++ [rq]) (senders m) true]> (conns n)) n)
      else (Err ConnectionRefused, n)
  | None => (Err ConnectionRefused, n)
  end.

Definition transport_connect (sl : BindSlot) (local : UnixSocketAddr) (t : Transport) (n : net F) :
    result VfsError Transport * net F :=
  match t with
  | Stream t =>
      if st_channel t then (Err AlreadyConnected, n)
      else match slot_stream sl with
           | None => (Err NotConnected, n)
           | Some b =>
               match bind_connect b local (st_pid t) n with
               | (Err e, n) => (Err e, n)
               | (Ok c, n) => (Ok (Stream (mk_stream (Some c) (st_conn_rx t) (st_pid t) (st_rx_closed t) (st_tx_closed t))), n)
               end
           end
  | Dgram t =>
      if dg_connected t then (Err AlreadyConnected, n)
      else match slot_dgram sl with
           | None => (Err NotConnected, n)
           | Some q => (Ok (Dgram (mk_dgram (dg_data_rx t) (Some q) (dg_local t) (dg_pid t))), set_boxes (alter add_sender q (boxes n)) n)
           end
  end.

(** [UnixSocket::connect]. *)
Definition socket_connect (id : Z) (a : UnixSocketAddr) (n : net F) : result VfsError () * net F :=
  match sockets n !! id with
  | None => (Err BadFileDescriptor, n)
  | Some s =>
      match remote_addr s with
      | Unnamed =>
          match with_slot a n with
          | Err e => (Err e, n)
          | Ok (_, sl) =>
              match transport_connect sl (local_addr s) (transport s) n with
              | (Err e, n) => (Err e, n)
              | (Ok t, n) => (Ok (), put_socket id (mk_unix t (local_addr s) a (nonblock s)) n)
              end
          end
      | _ => (Err InvalidInput, n)
      end
  end.

(** [UnixSocket::accept], when its wait is over: [WouldBlock] while the queue is empty. *)
Definition socket_accept (id : Z) (n : net F) : result VfsError Z * net F :=
  match sockets n !! id with
  | None => (Err BadFileDescriptor, n)
  | Some s =>
      match transport s with
      | Dgram _ => (Err InvalidInput, n)
      | Stream t =>
          match st_conn_rx t with
          | None => (Err NotConnected, n)
          | Some q =>
              match conns n !! q with
              | Some (mk_mailbox (rq :: rest) k r) =>
                  let n := set_conns (<[q := mk_mailbox rest k r]> (conns n)) n in
                  let '(new, n) := take_fresh n in
                  let t := Stream (mk_stream (Some (cr_channel rq)) None (cr_pid rq) false false) in
                  (Ok new, put_socket new (mk_unix t (local_addr s) (cr_addr rq) false) n)
              | Some (mk_mailbox [] k _) => (Err (if (k =? 0)%nat then ConnectionReset else WouldBlock), n)
              | None => (Err ConnectionReset, n)
              end
          end
      end
  end.
(** ** Streams *)

Definition upd (b : bool) (v : list Z) (f : bool -> list Z) (s : bool) : list Z := if Bool.eqb s b then v else f s.

(** What a [send] keeps between attempts: the bytes not yet taken, how many were, and how many there
    were at first. *)
Record sending : Type := mk_sending { src : list Z; total : Z; size_ : Z }.
Definition send_begin (bs : list Z) : sending := mk_sending bs 0 (Z.of_nat (length bs)).

(** One attempt of [StreamTransport::send] without a destination. *)
Definition stream_send (id : Z) (x : sending) (n : net F) : result VfsError Z * sending * net F :=
  match sockets n !! id with
  | Some (mk_unix (Stream t) _ _ nb) =>
      match st_channel t with
      | None => (Err NotConnected, x, n)
      | Some c =>
          match duplexes n !! chan c with
          | None => (Err NotConnected, x, n)
          | Some d =>
              if negb (held d (negb (side c))) then (Err BrokenPipe, x, n)
              else
                let vacant := UNIX_BUF_SIZE - Z.of_nat (length (buf d (side c))) in
                let count := Z.to_nat (Z.min vacant (Z.of_nat (length (src x)))) in
                let d := mk_duplex (upd (side c) (buf d (side c) ++ take count (src x)) (buf d)) (held d) in
                let n := set_duplexes (<[chan c := d]> (duplexes n)) n in
                let x := mk_sending (drop count (src x)) (total x + Z.of_nat count) (size_ x) in
                ((if (Z.of_nat count =? size_ x) || nb then Ok (total x) else Err WouldBlock), x, n)
          end
      end
  | _ => (Err BadFileDescriptor, x, n)
  end.

(** One attempt of [StreamTransport::recv] with [room] for bytes: those received. *)
Definition stream_recv (id : Z) (room : Z) (n : net F) : result VfsError (list Z) * net F :=
  match sockets n !! id with
  | Some (mk_unix (Stream t) _ _ _) =>
      match st_channel t with
      | None => (Err NotConnected, n)
      | Some c =>
          match duplexes n !! chan c with
          | None => (Err NotConnected, n)
          | Some d =>
              let q := buf d (negb (side c)) in
              let count := Z.to_nat (Z.min room (Z.of_nat (length q))) in
              if (0 <? count)%nat then
                (Ok (take count q),
                 set_duplexes (<[chan c := mk_duplex (upd (negb (side c)) (drop count q) (buf d)) (held d)]> (duplexes n)) n)
              else (Err WouldBlock, n)
          end
      end
  | _ => (Err BadFileDescriptor, n)
  end.

(** [StreamTransport::shutdown]; a datagram socket has none. *)
Definition socket_shutdown (id : Z) (rd wr : bool) (n : net F) : result VfsError () * net F :=
  match sockets n !! id with
  | Some (mk_unix (Stream t) l r nb) =>
      let rxc := st_rx_closed t || rd in
      let txc := st_tx_closed t || wr in
      if rxc && txc then
        let n := match st_channel t with Some c => drop_channel c n | None => n end in
        (Ok (), put_socket id (mk_unix (Stream (mk_stream None (st_conn_rx t) (st_pid t) rxc txc)) l r nb) n)
      else (Ok (), put_socket id (mk_unix (Stream (mk_stream (st_channel t) (st_conn_rx t) (st_pid t) rxc txc)) l r nb) n)
  | Some (mk_unix (Dgram _) _ _ _) => (Ok (), n)
  | None => (Err BadFileDescriptor, n)
  end.

(** ** Datagrams *)

(** [try_send] on a mailbox. *)
Definition post (q : Z) (p : Packet) (n : net F) : result VfsError () * net F :=
  match boxes n !! q with
  | Some m => if receiver m then (Ok (), set_boxes (<[q := mk_mailbox (mail m ++ [p]) (senders m) true]> (boxes n)) n)
              else (Err BrokenPipe, n)
  | None => (Err BrokenPipe, n)
  end.

(** [DgramTransport::send]. *)
Definition dgram_send (id : Z) (bs cmsg : list Z) (to : option UnixSocketAddr) (n : net F) : result VfsError Z * net F :=
  match sockets n !! id with
  | Some (mk_unix (Dgram t) _ _ _) =>
      let p := mk_packet bs cmsg (dg_local t) in
      let answer '(r, n) := match r with Ok _ => (Ok (Z.of_nat (length bs)), n) | Err e => (Err e, n) end in
      match to with
      | Some a =>
          match with_slot a n with
          | Err e => (Err e, n)
          | Ok (_, sl) => match slot_dgram sl with Some q => answer (post q p n) | None => (Err NotConnected, n) end
          end
      | None => match dg_connected t with Some q => answer (post q p n) | None => (Err NotConnected, n) end
      end
  | _ => (Err BadFileDescriptor, n)
  end.

(** One attempt of [DgramTransport::recv]: the packet taken, [None] when no sender is left, and the
    bytes that fit into [room] with the number returned.  The packet is gone when the bytes are written
    to the caller, which fails with [fault] if that is an error. *)
Definition dgram_recv (id : Z) (room : Z) (trunc : bool) (fault : option VfsError) (n : net F) : result VfsError (option Packet * list Z * Z) * net F :=
  match sockets n !! id with
  | Some (mk_unix (Dgram t) _ _ _) =>
      match dg_data_rx t with
      | None => (Err NotConnected, n)
      | Some q =>
          match boxes n !! q with
          | Some (mk_mailbox (p :: rest) k r) =>
              let bs := take (Z.to_nat room) (pk_data p) in
              let ret := if trunc then Z.of_nat (length (pk_data p)) else Z.of_nat (length bs) in
              (match fault with Some e => Err e | None => Ok (Some p, bs, ret) end, set_boxes (<[q := mk_mailbox rest k r]> (boxes n)) n)
          | Some (mk_mailbox [] k _) => if (k =? 0)%nat then (Ok (None, [], 0), n) else (Err WouldBlock, n)
          | None => (Err WouldBlock, n)
          end
      end
  | _ => (Err BadFileDescriptor, n)
  end.

(** ** Histories *)

Inductive unix_op : Type :=
| UNew (dgram : bool) (pid : Z)
| UPair (dgram : bool) (pid : Z)
| UDrop (id : Z)
| UBind (id : Z) (a : UnixSocketAddr)
| UConnect (id : Z) (a : UnixSocketAddr)
| UAccept (id : Z)
| USend (id : Z) (x : sending)
| URecv (id : Z) (room : Z)
| UShutdown (id : Z) (rd wr : bool)
| USendTo (id : Z) (bs cmsg : list Z) (to : option UnixSocketAddr)
| URecvFrom (id : Z) (room : Z) (trunc : bool) (fault : option VfsError)
| USetNonblock (id : Z) (b : bool).

Definition unix_step (o : unix_op) (n : net F) : net F :=
  match o with
  | UNew d pid => (socket_new d pid n).2
  | UPair d pid => if d then (dgram_pair pid n).2 else (stream_pair pid n).2
  | UDrop id => socket_drop id n
  | UBind id a => (socket_bind id a n).2
  | UConnect id a => (socket_connect id a n).2
  | UAccept id => (socket_accept id n).2
  | USend id x => (stream_send id x n).2
  | URecv id room => (stream_recv id room n).2
  | UShutdown id rd wr => (socket_shutdown id rd wr n).2
  | USendTo id bs cmsg to => (dgram_send id bs cmsg to n).2
  | URecvFrom id room trunc fault => (dgram_recv id room trunc fault n).2
  | USetNonblock id b => match sockets n !! id with
                         | Some s => put_socket id (mk_unix (transport s) (local_addr s) (remote_addr s) b) n
                         | None => n
                         end
  end.
End unix.
