(* ===== verification/UnixSpec.v ===== *)
(** * Unix domain sockets: what is sent arrives

    Over all histories of any number of sockets: every end of a stream belongs to one socket, or to
    one connection that waits to be accepted; the bytes of a stream arrive in order, none lost or
    duplicated; and so do datagrams, whole.  Two theorems show calls that do not return. *)

From S2P Require Import Prelude Io PageCache Unix.

(** ** Ends of streams *)

Definition end_of (e : Z * bool) (c : Channel) : nat := if decide ((chan c, side c) = e) then 1 else 0.
Definition stream_ends (e : Z * bool) (o : option Channel) : nat := match o with Some c => end_of e c | None => 0 end.
Definition socket_ends (e : Z * bool) (s : UnixSocket) : nat :=
  match transport s with Stream t => stream_ends e (st_channel t) | Dgram _ => 0 end.
Definition request_ends (e : Z * bool) (m : mailbox ConnRequest) : nat :=
  sum_list_with (fun rq => end_of e (cr_channel rq)) (mail m).

Section spec.
Context {F : Type} `{SocketFs F}.
Implicit Types n : net F.

(** In how many places an end is. *)
Definition ends (e : Z * bool) n : nat :=
  msum (fun _ s => socket_ends e s) (sockets n) + msum (fun _ m => request_ends e m) (conns n).

Record numbered n : Prop := {
  nb_sockets i : fresh n <= i -> sockets n !! i = None;
  nb_duplexes i : fresh n <= i -> duplexes n !! i = None;
  nb_conns i : fresh n <= i -> conns n !! i = None;
  nb_boxes i : fresh n <= i -> boxes n !! i = None;
}.

Definition ends_of (od : option duplex) (s : bool) : nat := match od with Some d => if held d s then 1 else 0 | None => 0 end.

Record owned n : Prop := {
  ow_numbered : numbered n;
  ow_ends c s : ends (c, s) n = ends_of (duplexes n !! c) s;
}.

(** ** Streams are sequences *)

Definition chan_of (id : Z) n : option Channel :=
  match sockets n !! id with Some (mk_unix (Stream t) _ _ _) => st_channel t | _ => None end.

(** The bytes that a step puts into the buffer written by the end [e], and takes out of it. *)
Definition sent (e : Z * bool) (o : unix_op) n : list Z :=
  match o with
  | USend id x =>
      match chan_of id n with
      | Some c => if decide ((chan c, side c) = e)
                  then take (length (src x) - length (src (stream_send id x n).1.2)) (src x) else []
      | None => []
      end
  | _ => []
  end.
Definition received (e : Z * bool) (o : unix_op) n : list Z :=
  match o with
  | URecv id room =>
      match chan_of id n, stream_recv id room n with
      | Some c, (Ok bs, _) => if decide ((chan c, negb (side c)) = e) then bs else []
      | _, _ => []
      end
  | _ => []
  end.

(** The mailbox that a datagram is sent to. *)
Definition target (t : DgramTransport) (to : option UnixSocketAddr) n : option Z :=
  match to with
  | Some a => match with_slot a n with Ok (_, sl) => slot_dgram sl | Err _ => None end
  | None => dg_connected t
  end.

(** The packets in a mailbox. *)
Definition box_mail (q : Z) n : list Packet := default [] (mail <$> boxes n !! q).

(** The packets that a step puts into a mailbox, and takes out of it: a [send] that succeeds puts
    its bytes there, with the sender's address; a receive takes the first packet, whatever becomes of
    it, and is recorded with its arguments and what it returns. *)
Definition posted (q : Z) (o : unix_op) n : list Packet :=
  match o with
  | USendTo id bs cmsg to =>
      match sockets n !! id, (dgram_send id bs cmsg to n).1 with
      | Some (mk_unix (Dgram t) _ _ _), Ok _ => if decide (target t to n = Some q) then [mk_packet bs cmsg (dg_local t)] else []
      | _, _ => []
      end
  | _ => []
  end.
Record receipt : Type := mk_receipt {
  r_packet : Packet;
  r_room : Z;
  r_trunc : bool;
  r_fault : option VfsError;
  r_result : result VfsError (option Packet * list Z * Z);
}.
Definition taken (q : Z) (o : unix_op) n : list receipt :=
  match o with
  | URecvFrom id room trunc fault =>
      match sockets n !! id, box_mail q n with
      | Some (mk_unix (Dgram t) _ _ _), p :: _ =>
          if decide (dg_data_rx t = Some q) then [mk_receipt p room trunc fault (dgram_recv id room trunc fault n).1] else []
      | _, _ => []
      end
  | _ => []
  end.

(** A receive returns the bytes of the packet that fit, and their number, or that of the whole packet
    if it is asked to; if they cannot be written to the caller it returns that error. *)
Definition handed (r : receipt) : Prop :=
  let bs := take (Z.to_nat (r_room r)) (pk_data (r_packet r)) in
  r_result r = match r_fault r with
               | Some e => Err e
               | None => Ok (Some (r_packet r), bs, Z.of_nat (length (if r_trunc r then pk_data (r_packet r) else bs)))
               end.

Fixpoint flows {A} (f : unix_op -> net F -> list A) (os : list unix_op) n : list A :=
  match os with [] => [] | o :: os => f o n ++ flows f os (unix_step o n) end.

Definition unix_run (os : list unix_op) n : net F := foldl (fun n o => unix_step o n) n os.

Definition stream_buf (e : Z * bool) n : list Z := match duplexes n !! e.1 with Some d => buf d e.2 | None => [] end.

Definition roomy n : Prop := forall e, Z.of_nat (length (stream_buf e n)) <= UNIX_BUF_SIZE.
Lemma stream_buf_same n n' e : duplexes n' !! e.1 = duplexes n !! e.1 -> stream_buf e n' = stream_buf e n.
Proof. unfold stream_buf. by intros ->. Qed.

Lemma stream_buf_new n e : numbered n -> stream_buf e (new_channels n).2 = stream_buf e n.
Proof.
  intros Hn. unfold stream_buf. simpl. rewrite lookup_insert. case_decide as He; [|done].
  by rewrite <-He, (nb_duplexes _ Hn) by done.
Qed.

Lemma stream_buf_drop c n e : stream_buf e (drop_channel c n) = stream_buf e n.
Proof.
  unfold drop_channel, stream_buf. destruct (duplexes n !! chan c) as [d|] eqn:Hd; [|done]. simpl.
  rewrite lookup_insert. case_decide as He; [|done]. by rewrite <-He, Hd.
Qed.

(** Binding does not touch streams, and connecting makes at most a new one. *)
Lemma bind_duplexes id a n : duplexes (socket_bind id a n).2 = duplexes n.
Proof.
  unfold socket_bind, with_slot_or_insert, get_slot, transport_bind, take_fresh. repeat case_match; simplify_eq/=; done.
Qed.

Lemma connect_buf id a n e : numbered n -> stream_buf e (socket_connect id a n).2 = stream_buf e n.
Proof.
  intros Hn. unfold socket_connect, transport_connect, bind_connect.
  destruct (sockets n !! id) as [s|]; [|done]. destruct (remote_addr s); try done. destruct (with_slot a n) as [[k sl]|]; [|done].
  destruct (transport s) as [t|t].
  - destruct (st_channel t); [done|]. destruct (slot_stream sl) as [b|]; [|done]. destruct (conns n !! conn_tx b) as [m|]; [|done].
    destruct (receiver m); [|done]. exact (stream_buf_new n e Hn).
  - destruct (dg_connected t); [done|]. by destruct (slot_dgram sl).
Qed.

Lemma stream_send_buf id x n e :
  stream_buf e (stream_send id x n).2 = stream_buf e n ++ sent e (USend id x) n /\ (roomy n -> roomy (stream_send id x n).2).
Proof.
  simpl. unfold chan_of, stream_send. destruct (sockets n !! id) as [[[t|t] l r nb]|]; simpl; try by rewrite app_nil_r.
  destruct (st_channel t) as [c|]; simpl; [|by rewrite app_nil_r].
  destruct (duplexes n !! chan c) as [d|] eqn:Hd; simpl.
  2: { split; [|done]. rewrite Nat.sub_diag. simpl. case_decide; by rewrite app_nil_r. }
  destruct (held d (negb (side c))); simpl.
  2: { split; [|done]. rewrite Nat.sub_diag. simpl. case_decide; by rewrite app_nil_r. }
  set (k := Z.to_nat _). assert (Hk : (k <= length (src x))%nat) by lia.
  split.
  - unfold stream_buf. simpl. rewrite lookup_insert. destruct e as [c' s]. simpl.
    rewrite length_drop. replace (length (src x) - (length (src x) - k))%nat with k by lia.
    case_decide as Hc; [|rewrite decide_False by congruence; by rewrite app_nil_r]. rewrite <-Hc, Hd. simpl. unfold upd.
    destruct (Bool.eqb_spec s (side c)) as [->|Hs]; [by rewrite decide_True by congruence|]. rewrite decide_False by congruence. by rewrite app_nil_r.
  - intros Hroom [c' s]. unfold roomy, stream_buf in *. simpl. rewrite lookup_insert. case_decide as Hc.
    + simpl. unfold upd. pose proof (Hroom (chan c, s)) as Hr. simpl in Hr. rewrite Hd in Hr. destruct (Bool.eqb_spec s (side c)) as [->|]; [|done].
      rewrite length_app, length_take. lia.
    + exact (Hroom (c', s)).
Qed.

Lemma stream_recv_buf id room n e :
  received e (URecv id room) n ++ stream_buf e (stream_recv id room n).2 = stream_buf e n /\
  (roomy n -> roomy (stream_recv id room n).2).
Proof.
  simpl. unfold chan_of, stream_recv. destruct (sockets n !! id) as [[[t|t] l r nb]|]; simpl; try done.
  destruct (st_channel t) as [c|]; simpl; [|done]. destruct (duplexes n !! chan c) as [d|] eqn:Hd; simpl; [|done].
  set (k := Z.to_nat _). destruct (Nat.ltb_spec 0 k) as [Hk|Hk]; simpl; [|done]. split.
  - unfold stream_buf. simpl. rewrite lookup_insert. destruct e as [c' s]. simpl.
    case_decide as He; case_decide as Hc; try congruence; simplify_eq.
    + simpl. rewrite Hd. unfold upd. rewrite Bool.eqb_reflx. by rewrite take_drop.
    + simpl. rewrite Hd. unfold upd. destruct (Bool.eqb_spec s (negb (side c))) as [->|]; [done|done].
    + done.
  - intros Hroom [c' s]. unfold roomy, stream_buf in *. simpl. rewrite lookup_insert. case_decide as Hc.
    + simpl. unfold upd. pose proof (Hroom (chan c, s)) as Hr. simpl in Hr. rewrite Hd in Hr.
      destruct (Bool.eqb_spec s (negb (side c))) as [->|]; [|done]. rewrite length_drop. lia.
    + exact (Hroom (c', s)).
Qed.

Definition moves_bytes (o : unix_op) : bool := match o with USend _ _ | URecv _ _ => true | _ => false end.

Lemma step_buf_other o n e : numbered n -> moves_bytes o = false -> stream_buf e (unix_step o n) = stream_buf e n.
Proof.
  intros Hn Ho. destruct o as [d pid|d pid|id|id a|id a|id|id x|id room|id rd wr|id bs cmsg to|id room trunc fault|id b]; try done; simpl.
  - destruct d; [done|]. simpl. apply (stream_buf_new n e Hn).
  - unfold socket_drop. destruct (sockets n !! id) as [u|]; [|done]. destruct (transport u) as [t|t].
    + destruct (st_conn_rx t), (st_channel t); try done; simpl; apply (stream_buf_drop _ (set_sockets _ n)).
    + by destruct (dg_connected t), (dg_data_rx t).
  - apply stream_buf_same. by rewrite bind_duplexes.
  - by apply connect_buf.
  - apply stream_buf_same. unfold socket_accept, take_fresh. repeat case_match; simplify_eq/=; done.
  - unfold socket_shutdown. destruct (sockets n !! id) as [[[t|t] l r nb]|]; try done.
    destruct ((st_rx_closed t || rd) && (st_tx_closed t || wr)); [|done]. simpl. destruct (st_channel t) as [c0|]; [|done]. apply (stream_buf_drop c0 n).
  - unfold dgram_send, post. repeat case_match; simplify_eq/=; done.
  - unfold dgram_recv. repeat case_match; done.
  - by destruct (sockets n !! id).
Qed.

(** What a step does to a stream. *)
Lemma step_stream o n e :
  numbered n ->
  received e o n ++ stream_buf e (unix_step o n) = stream_buf e n ++ sent e o n /\ (roomy n -> roomy (unix_step o n)).
Proof.
  intros Hn. destruct (moves_bytes o) eqn:Ho.
  - destruct o as [| | | | | |id x|id room| | | |]; try done.
    + exact (stream_send_buf id x n e).
    + rewrite app_nil_r. exact (stream_recv_buf id room n e).
  - assert (Hs : forall e, stream_buf e (unix_step o n) = stream_buf e n) by (intros; by apply step_buf_other).
    split; [rewrite Hs; destruct o; try done; by rewrite app_nil_r|]. intros Hr e'. rewrite Hs. apply Hr.
Qed.
(** ** Every end is in one place *)

Lemma ends_put id s s0 n e :
  sockets n !! id = Some s0 -> (ends e (put_socket id s n) + socket_ends e s0 = ends e n + socket_ends e s)%nat.
Proof. intros Hs. unfold ends. simpl. pose proof (msum_insert (fun _ s => socket_ends e s) id s0 s (sockets n) Hs). lia. Qed.
Lemma ends_new id s n e : sockets n !! id = None -> ends e (put_socket id s n) = (ends e n + socket_ends e s)%nat.
Proof. intros Hs. unfold ends. simpl. rewrite msum_insert_new by done. lia. Qed.
Lemma ends_delete id s0 n e :
  sockets n !! id = Some s0 -> (ends e (set_sockets (delete id (sockets n)) n) + socket_ends e s0 = ends e n)%nat.
Proof. intros Hs. unfold ends. simpl. rewrite (msum_delete _ id s0 (sockets n) Hs). lia. Qed.
Lemma ends_mail q m m0 n e :
  conns n !! q = Some m0 -> (ends e (set_conns (<[q := m]> (conns n)) n) + request_ends e m0 = ends e n + request_ends e m)%nat.
Proof. intros Hs. unfold ends. simpl. pose proof (msum_insert (fun _ m => request_ends e m) q m0 m (conns n) Hs). lia. Qed.
Lemma ends_mail_new q m n e : conns n !! q = None -> ends e (set_conns (<[q := m]> (conns n)) n) = (ends e n + request_ends e m)%nat.
Proof. intros Hs. unfold ends. simpl. rewrite msum_insert_new by done. lia. Qed.

(** Numbers only grow. *)
Lemma numbered_grow n n' :
  numbered n -> fresh n <= fresh n' ->
  (forall i, fresh n' <= i -> sockets n' !! i = sockets n !! i) -> (forall i, fresh n' <= i -> duplexes n' !! i = duplexes n !! i) ->
  (forall i, fresh n' <= i -> conns n' !! i = conns n !! i) -> (forall i, fresh n' <= i -> boxes n' !! i = boxes n !! i) -> numbered n'.
Proof. intros [H1 H2 H3 H4] Hf Hs Hd Hc Hb. split; intros i Hi; [rewrite Hs|rewrite Hd|rewrite Hc|rewrite Hb]; auto with lia. Qed.

(** A number in use is below the next one. *)
Lemma used_number {A} (m : gmap Z A) k i x : (forall j, k <= j -> m !! j = None) -> m !! i = Some x -> i < k.
Proof. intros Hm Hi. destruct (Z_lt_le_dec i k); [done|]. rewrite Hm in Hi; [done|lia]. Qed.

(** Steps that leave the ends as they are. *)
Lemma owned_same n n' :
  owned n -> numbered n' -> duplexes n' = duplexes n -> (forall e, ends e n' = ends e n) -> owned n'.
Proof. intros [_ He] Hn Hd Hs. split; [done|]. intros c s. by rewrite Hs, Hd. Qed.

Lemma numbered_put id s n : numbered n -> (id < fresh n) -> numbered (put_socket id s n).
Proof. intros Hn Hi. apply (numbered_grow n); simpl; try done. intros i Hle. rewrite lookup_insert_ne; [done|lia]. Qed.

Lemma owned_put id s s0 n :
  owned n -> sockets n !! id = Some s0 -> (forall e, socket_ends e s = socket_ends e s0) -> owned (put_socket id s n).
Proof.
  intros Ho Hs He. apply (owned_same n); [done| |done|].
  - apply numbered_put; [apply Ho|]. eapply used_number; [apply (nb_sockets _ (ow_numbered _ Ho))|done].
  - intros e. pose proof (ends_put id s s0 n e Hs). rewrite He in H0. lia.
Qed.

(** An end is given up. *)
Lemma drop_channel_ends c n e : ends e (drop_channel c n) = ends e n.
Proof. unfold drop_channel. by case_match. Qed.
Lemma drop_channel_numbered c n : numbered n -> numbered (drop_channel c n).
Proof.
  intros Hn. unfold drop_channel. destruct (duplexes n !! chan c) as [d|] eqn:Hd; [|done].
  pose proof (used_number _ _ _ _ (nb_duplexes _ Hn) Hd). apply (numbered_grow n); simpl; try done.
  intros i Hi. rewrite lookup_insert_ne; [done|lia].
Qed.
Lemma drop_channel_held c n k s :
  ends_of (duplexes (drop_channel c n) !! k) s =
  if decide ((chan c, side c) = (k, s)) then 0%nat else ends_of (duplexes n !! k) s.
Proof.
  unfold drop_channel. destruct (duplexes n !! chan c) as [d|] eqn:Hd.
  - simpl. rewrite lookup_insert. case_decide as Hk; [subst k; simpl|].
    + rewrite Hd. simpl. destruct (Bool.eqb_spec s (side c)) as [->|]; [by rewrite decide_True|by rewrite decide_False by congruence].
    + by rewrite decide_False by congruence.
  - case_decide; [|done]. simplify_eq. by rewrite Hd.
Qed.

(** A socket gives up its end. *)
Lemma owned_give_up id s s0 c n :
  owned n -> sockets n !! id = Some s0 -> (forall e, socket_ends e s0 = end_of e c) -> (forall e, socket_ends e s = 0%nat) ->
  owned (put_socket id s (drop_channel c n)).
Proof.
  intros Ho Hs Hs0 Hs1. assert (Hs' : sockets (drop_channel c n) !! id = Some s0) by (unfold drop_channel; by case_match).
  assert (Hid : id < fresh n) by (eapply used_number; [apply (nb_sockets _ (ow_numbered _ Ho))|done]).
  split.
  - apply numbered_put; [apply drop_channel_numbered, Ho|]. unfold drop_channel. by case_match.
  - intros k sd. simpl. rewrite drop_channel_held. pose proof (ends_put id s s0 (drop_channel c n) (k, sd) Hs') as He.
    rewrite drop_channel_ends, Hs0, Hs1, (ow_ends _ Ho) in He. unfold end_of in He.
    assert (ends_of (duplexes n !! k) sd <= 1)%nat by (unfold ends_of; repeat case_match; lia). case_decide; lia.
Qed.
(** A new stream: both ends are to be placed. *)
Lemma new_channels_ends n e : ends e (new_channels n).2 = ends e n.
Proof. done. Qed.
Lemma new_channels_numbered n : numbered n -> numbered (new_channels n).2.
Proof.
  intros Hn. apply (numbered_grow n); simpl; try done; [lia|]. intros i Hi. rewrite lookup_insert_ne; [done|lia].
Qed.

Lemma owned_new_socket d pid n : owned n -> owned (socket_new d pid n).2.
Proof.
  intros Ho. apply (owned_same n); [done| |done|].
  - apply (numbered_grow n); simpl; try done; [apply Ho|lia|]. intros i Hi. rewrite lookup_insert_ne; [done|lia].
  - intros e. simpl. set (n1 := (take_fresh n).2). change (ends e n) with (ends e n1).
    rewrite (ends_new (fresh n) _ n1) by (simpl; by apply (nb_sockets _ (ow_numbered _ Ho))). destruct d; apply Nat.add_0_r.
Qed.

Lemma owned_pair d pid n : owned n -> owned (unix_step (UPair d pid) n).
Proof.
  intros Ho. pose proof (ow_numbered _ Ho) as Hn. simpl. destruct d; simpl.
  - apply (owned_same n); [done| |done|].
    + apply (numbered_grow n); simpl; try done; [lia|..]; intros i Hi; rewrite !lookup_insert_ne; try lia; done.
    + intros e. unfold ends. simpl. rewrite !msum_insert_new; [done|by apply (nb_sockets _ Hn); lia|].
      rewrite lookup_insert_ne by lia. apply (nb_sockets _ Hn); lia.
  - split.
    + apply (numbered_grow n); simpl; try done; [lia|..]; intros i Hi; rewrite !lookup_insert_ne; try lia; done.
    + intros c s. unfold ends. simpl. rewrite !msum_insert_new; [|by apply (nb_sockets _ Hn); lia|rewrite lookup_insert_ne by lia; apply (nb_sockets _ Hn); lia].
      pose proof (ow_ends _ Ho c s) as He. unfold ends in He. rewrite lookup_insert. unfold socket_ends at 1 2. simpl. unfold end_of. simpl.
      destruct (decide (fresh n = c)) as [<-|Hc].
      * rewrite (nb_duplexes _ Hn) in He by done. simpl in *. destruct s; repeat case_decide; simplify_eq; lia.
      * rewrite !decide_False by congruence. lia.
Qed.

Lemma owned_drop id n : owned n -> owned (socket_drop id n).
Proof.
  intros Ho. unfold socket_drop. destruct (sockets n !! id) as [s|] eqn:Hs; [|done].
  set (n1 := set_sockets (delete id (sockets n)) n).
  assert (Hn1 : numbered n1).
  { apply (numbered_grow n); simpl; try done; [apply Ho|]. intros i Hi. rewrite lookup_delete_ne; [done|].
    pose proof (used_number _ _ _ _ (nb_sockets _ (ow_numbered _ Ho)) Hs). lia. }
  assert (Hlow : forall n2, numbered n2 -> forall q, numbered (set_conns (alter drop_receiver q (conns n2)) n2) /\
    numbered (set_boxes (alter drop_receiver q (boxes n2)) n2) /\ numbered (set_boxes (alter drop_sender q (boxes n2)) n2)).
  { intros n2 [H1 H2 H3 H4] q. split_and!; split; simpl; auto; intros i Hi; rewrite lookup_alter_None; auto. }
  assert (Halter : forall n2 q e, ends e (set_conns (alter drop_receiver q (conns n2)) n2) = ends e n2).
  { intros n2 q e. unfold ends. simpl. f_equal. destruct (conns n2 !! q) as [m|] eqn:Hm.
    - pose proof (msum_alter (fun _ m => request_ends e m) q drop_receiver m _ Hm). unfold request_ends in *. simpl in *. lia.
    - rewrite alter_id; [done|]. intros x Hx. congruence. }
  pose proof (fun e => ends_delete id s n e Hs) as Hdel. fold n1 in Hdel.
  destruct (transport s) as [t|t] eqn:Ht.
  - assert (Hch : owned (match st_channel t with Some c => drop_channel c n1 | None => n1 end)).
    { destruct (st_channel t) as [c|] eqn:Hc.
      - split; [by apply drop_channel_numbered|]. intros k sd. rewrite drop_channel_held, drop_channel_ends.
        specialize (Hdel (k, sd)). rewrite (ow_ends _ Ho) in Hdel. unfold socket_ends in Hdel. rewrite Ht, Hc in Hdel. simpl in Hdel. unfold end_of in Hdel.
        change (duplexes n1) with (duplexes n). assert (ends_of (duplexes n !! k) sd <= 1)%nat by (unfold ends_of; repeat case_match; lia).
        case_decide; lia.
      - apply (owned_same n); [done|done|done|]. intros e. specialize (Hdel e). unfold socket_ends in Hdel. rewrite Ht, Hc in Hdel. simpl in Hdel. lia. }
    destruct (st_conn_rx t) as [q|]; [|done]. eapply owned_same; [exact Hch|by apply Hlow, Hch|done|apply Halter].
  - assert (Hsame : owned n1).
    { apply (owned_same n); [done|done|done|]. intros e. specialize (Hdel e). unfold socket_ends in Hdel. rewrite Ht in Hdel. lia. }
    destruct (dg_connected t), (dg_data_rx t); try done; (eapply owned_same; [exact Hsame| |done|done]);
      repeat (apply Hlow); done.
Qed.
(** Slots and the file system do not matter. *)
Lemma with_slot_or_insert_owned a n r n' :
  with_slot_or_insert a n = (r, n') -> owned n -> owned n' /\ sockets n' = sockets n.
Proof.
  intros Hw Ho. assert (Hsl : forall k n1 s n2, owned n1 -> get_slot k n1 = (s, n2) -> owned n2 /\ sockets n2 = sockets n1).
  { intros k n1 s n2 Ho1 Hg. unfold get_slot in Hg. destruct (slots n1 !! k); injection Hg as <- <-; [done|]. split; [|done].
    apply (owned_same n1); [done| |done|done]. destruct (ow_numbered _ Ho1). by split. }
  assert (Hfs : forall f, owned (set_fs f n)) by (intros f; apply (owned_same n); [done|destruct (ow_numbered _ Ho); by split|done|done]).
  unfold with_slot_or_insert in Hw. destruct a as [|name|p].
  - by injection Hw as <- <-.
  - destruct (get_slot (KName name) n) as [s n1] eqn:Hg. injection Hw as <- <-. by eapply Hsl.
  - destruct (fs_open_create p (fs n)) as [[node|e] f]; [|injection Hw as <- <-; by split].
    destruct (fs_is_socket node (fs (set_fs f n))); [|injection Hw as <- <-; by split].
    destruct (get_slot (KNode node) (set_fs f n)) as [s n1] eqn:Hg. injection Hw as <- <-. destruct (Hsl _ _ _ _ (Hfs f) Hg) as [? ->]. done.
Qed.

Lemma transport_bind_owned k sl a t n r n' :
  transport_bind k sl a t n = (r, n') -> owned n ->
  owned n' /\ sockets n' = sockets n /\ fresh n <= fresh n' /\
  (forall t', r = Ok t' -> forall e l1 r1 b1 l2 r2 b2, socket_ends e (mk_unix t' l1 r1 b1) = socket_ends e (mk_unix t l2 r2 b2)).
Proof.
  intros Hb Ho. pose proof (ow_numbered _ Ho) as Hn. unfold transport_bind in Hb. destruct t as [t|t].
  - destruct (slot_stream sl); [injection Hb as <- <-; by split_and!|]. destruct (st_conn_rx t); [injection Hb as <- <-; by split_and!|].
    simpl in Hb. injection Hb as <- <-. split_and!; [|done|simpl; lia|by intros t' [= <-]].
    apply (owned_same n); [done| |done|].
    + apply (numbered_grow n); simpl; try done; [lia|]. intros i Hi. rewrite lookup_insert_ne; [done|lia].
    + intros e. unfold ends. simpl. rewrite (msum_insert_new _ (fresh n)) by (by apply (nb_conns _ Hn)). unfold request_ends. simpl. lia.
  - destruct (slot_dgram sl); [injection Hb as <- <-; by split_and!|]. destruct (dg_data_rx t); [injection Hb as <- <-; by split_and!|].
    simpl in Hb. injection Hb as <- <-. split_and!; [|done|simpl; lia|by intros t' [= <-]].
    apply (owned_same n); [done| |done|done].
    apply (numbered_grow n); simpl; try done; [lia|]. intros i Hi. rewrite lookup_insert_ne; [done|lia].
Qed.

Lemma owned_bind id a n : owned n -> owned (socket_bind id a n).2.
Proof.
  intros Ho. unfold socket_bind. destruct (sockets n !! id) as [s|] eqn:Hs; [|done]. destruct (local_addr s) eqn:Hl; try done.
  destruct (with_slot_or_insert a n) as [[[k sl]|e] n1] eqn:Hw; destruct (with_slot_or_insert_owned _ _ _ _ Hw Ho) as [Ho1 Hs1]; [|done].
  destruct (transport_bind k sl a (transport s) n1) as [[t|e] n2] eqn:Hb; destruct (transport_bind_owned _ _ _ _ _ _ _ Hb Ho1) as (Ho2 & Hs2 & _ & He); [|done].
  simpl. apply (owned_put id _ s); [done|congruence|]. intros e. destruct s as [ts ls rs bs]. by apply He.
Qed.

Lemma owned_connect id a n : owned n -> owned (socket_connect id a n).2.
Proof.
  intros Ho. pose proof (ow_numbered _ Ho) as Hn. unfold socket_connect. destruct (sockets n !! id) as [s|] eqn:Hs; [|done]. destruct (remote_addr s) eqn:Hr; try done.
  destruct (with_slot a n) as [[k sl]|]; [|done]. unfold transport_connect. destruct (transport s) as [t|t] eqn:Ht.
  - destruct (st_channel t) eqn:Hc; [done|]. destruct (slot_stream sl) as [b|]; [|done]. unfold bind_connect.
    destruct (conns n !! conn_tx b) as [m|] eqn:Hm; [|done]. destruct (receiver m); [|done]. simpl.
    pose proof (used_number _ _ _ _ (nb_sockets _ Hn) Hs). pose proof (used_number _ _ _ _ (nb_conns _ Hn) Hm). split.
    + apply (numbered_grow n); simpl; try done; [lia|..]; intros i Hi; rewrite lookup_insert_ne; try done; lia.
    + intros c sd. unfold ends. simpl.
      set (s' := mk_unix _ (local_addr s) a (nonblock s)). set (m' := mk_mailbox _ (senders m) true).
      pose proof (msum_insert (fun _ s => socket_ends (c, sd) s) id s s' _ Hs) as Hi.
      pose proof (msum_insert (fun _ m => request_ends (c, sd) m) (conn_tx b) m m' _ Hm) as Hj.
      pose proof (ow_ends _ Ho c sd) as He. unfold ends in He.
      assert (Hs0 : socket_ends (c, sd) s = 0%nat) by (unfold socket_ends; by rewrite Ht, Hc).
      assert (Hs1 : socket_ends (c, sd) s' = if decide ((fresh n, false) = (c, sd)) then 1%nat else 0%nat) by done.
      assert (Hm1 : request_ends (c, sd) m' = (request_ends (c, sd) m + if decide ((fresh n, true) = (c, sd)) then 1 else 0)%nat).
      { unfold request_ends, m'. simpl. rewrite sum_list_with_app. simpl. unfold end_of. simpl. lia. }
      cbn beta in Hi, Hj. rewrite Hs0, Hs1 in Hi. rewrite Hm1 in Hj. rewrite lookup_insert. destruct (decide (fresh n = c)) as [<-|Hne].
      * rewrite (nb_duplexes _ Hn) in He by done. simpl in *. destruct sd; repeat case_decide; simplify_eq; lia.
      * rewrite decide_False in Hi by congruence. rewrite decide_False in Hj by congruence. lia.
  - destruct (dg_connected t) eqn:Hc; [done|]. destruct (slot_dgram sl) as [q|]; [|done]. simpl.
    apply (owned_put id _ s); [|done|intros e; unfold socket_ends; simpl; by rewrite Ht].
    apply (owned_same n); [done| |done|done]. destruct Hn. split; simpl; auto. intros i Hi. rewrite lookup_alter_None. auto.
Qed.

Lemma owned_accept id n : owned n -> owned (socket_accept id n).2.
Proof.
  intros Ho. pose proof (ow_numbered _ Ho) as Hn. unfold socket_accept. destruct (sockets n !! id) as [s|] eqn:Hs; [|done].
  destruct (transport s) as [t|t]; [|done]. destruct (st_conn_rx t) as [q|]; [|done]. destruct (conns n !! q) as [[[|rq rest] k r]|] eqn:Hm; try done.
  pose proof (used_number _ _ _ _ (nb_conns _ Hn) Hm). simpl. apply (owned_same n); [done| |done|].
  - apply (numbered_grow n); simpl; try done; [lia|..]; intros i Hi; rewrite lookup_insert_ne; try done; lia.
  - intros e. unfold ends. simpl. rewrite (msum_insert_new _ (fresh n)) by (by apply (nb_sockets _ Hn)).
    pose proof (msum_insert (fun _ m => request_ends e m) q _ (mk_mailbox rest k r) _ Hm) as Hj. unfold request_ends at 2 4 in Hj. simpl in Hj.
    unfold socket_ends at 1. simpl. unfold request_ends in *. simpl in *. lia.
Qed.

(** Changes of buffers and of mailboxes. *)
Lemma owned_bufs n c d f : owned n -> duplexes n !! c = Some d -> owned (set_duplexes (<[c := mk_duplex f (held d)]> (duplexes n)) n).
Proof.
  intros Ho Hd. pose proof (ow_numbered _ Ho) as Hn. pose proof (used_number _ _ _ _ (nb_duplexes _ Hn) Hd). split.
  - apply (numbered_grow n); simpl; try done. intros i Hi. rewrite lookup_insert_ne; [done|lia].
  - intros k s. change (ends (k, s) _) with (ends (k, s) n). rewrite (ow_ends _ Ho). simpl. rewrite lookup_insert.
    case_decide as Hk; [|done]. subst k. by rewrite Hd.
Qed.
Lemma owned_box n q m m' : owned n -> boxes n !! q = Some m -> owned (set_boxes (<[q := m']> (boxes n)) n).
Proof.
  intros Ho Hm. pose proof (ow_numbered _ Ho) as Hn. pose proof (used_number _ _ _ _ (nb_boxes _ Hn) Hm).
  apply (owned_same n); [done| |done|done]. apply (numbered_grow n); simpl; try done. intros i Hi. rewrite lookup_insert_ne; [done|lia].
Qed.

Lemma owned_step o n : owned n -> owned (unix_step o n).
Proof.
  intros Ho. destruct o as [d pid|d pid|id|id a|id a|id|id x|id room|id rd wr|id bs cmsg to|id room trunc fault|id b].
  - by apply owned_new_socket.
  - by apply owned_pair.
  - by apply owned_drop.
  - by apply owned_bind.
  - by apply owned_connect.
  - by apply owned_accept.
  - simpl. unfold stream_send. repeat case_match; simplify_eq/=; try done; by eapply owned_bufs.
  - simpl. unfold stream_recv. repeat case_match; simplify_eq/=; try done; by eapply owned_bufs.
  - simpl. unfold socket_shutdown. destruct (sockets n !! id) as [[[t|t] l r nb]|] eqn:Hs; try done.
    case_match; simpl; [|by apply (owned_put id _ _ n Ho Hs)].
    destruct (st_channel t) as [c|] eqn:Hc; [|apply (owned_put id _ _ n Ho Hs); intros e; unfold socket_ends; simpl; by rewrite Hc].
    apply (owned_give_up id _ _ c n Ho Hs); [|done]. intros e. unfold socket_ends. simpl. by rewrite Hc.
  - assert (Hpost : forall q p, owned (post q p n).2).
    { intros q p. unfold post. destruct (boxes n !! q) as [m|] eqn:Hm; [|done]. destruct (receiver m); [|done]. by eapply owned_box. }
    simpl. unfold dgram_send. destruct (sockets n !! id) as [[[t|t] l r nb]|]; try done.
    destruct to as [a|]; [destruct (with_slot a n) as [[k sl]|]; [|done]; destruct (slot_dgram sl) as [q|]|destruct (dg_connected t) as [q|]]; try done;
      specialize (Hpost q (mk_packet bs cmsg (dg_local t))); destruct (post q _ n) as [[|] n']; done.
  - simpl. unfold dgram_recv. repeat case_match; simplify_eq/=; try done; by eapply owned_box.
  - simpl. destruct (sockets n !! id) as [s|] eqn:Hs; [|done]. by apply (owned_put id _ s n Ho Hs).
Qed.

Lemma owned_empty f : owned (net_new f).
Proof. split; [by split|]. done. Qed.

Lemma owned_run os n : owned n -> owned (unix_run os n).
Proof. revert n. induction os as [|o os IH]; intros n Ho; simpl; [done|]. by apply IH, owned_step. Qed.

(** C13: Streams.  In every history of any number of Unix sockets: the bytes received from a stream
    in one direction, followed by those in its buffer, are the bytes that were sent into it, in
    order; the buffer never holds more than 64 KiB; and each of its two ends is in exactly one place
    as long as it is alive, a socket or the queue of connections to accept, and in none after
    that. *)
Theorem unix_streams_are_fifo f os c d s :
  duplexes (unix_run os (net_new f)) !! c = Some d ->
  flows (received (c, s)) os (net_new f) ++ buf d s = flows (sent (c, s)) os (net_new f) /\
  Z.of_nat (length (buf d s)) <= UNIX_BUF_SIZE /\
  ends (c, s) (unix_run os (net_new f)) = (if held d s then 1 else 0)%nat.
Proof.
  intros Hd. assert (Hgen : forall n, owned n -> roomy n ->
    flows (received (c, s)) os n ++ stream_buf (c, s) (unix_run os n) = stream_buf (c, s) n ++ flows (sent (c, s)) os n /\ roomy (unix_run os n)).
  { clear Hd. induction os as [|o os IH]; intros n Ho Hr; simpl; [by rewrite app_nil_r|].
    destruct (step_stream o n (c, s) (ow_numbered _ Ho)) as [Hs Hr1].
    destruct (IH (unix_step o n) (owned_step _ _ Ho) (Hr1 Hr)) as [Hfs Hr2]. split; [|done].
    rewrite <-app_assoc, Hfs, app_assoc, Hs. by rewrite app_assoc. }
  destruct (Hgen (net_new f) (owned_empty f)) as [Hf Hr]; [intros e; unfold stream_buf; cbn [duplexes net_new]; rewrite lookup_empty; unfold UNIX_BUF_SIZE; simpl; lia|].
  pose proof (ow_ends _ (owned_run os _ (owned_empty f)) c s) as He. pose proof (Hr (c, s)) as Hrs.
  unfold stream_buf in Hf, Hrs. simpl in Hf, Hrs. rewrite Hd in *. done.
Qed.
(** ** Datagrams are packets in order *)

Lemma post_mail q p n q' :
  box_mail q' (post q p n).2 = box_mail q' n ++ match (post q p n).1 with Ok _ => if decide (q = q') then [p] else [] | Err _ => [] end.
Proof.
  unfold post, box_mail. destruct (boxes n !! q) as [m|] eqn:Hm; [|by rewrite app_nil_r]. destruct (receiver m); simpl; [|by rewrite app_nil_r].
  rewrite lookup_insert. case_decide as Hq; [subst q'; by rewrite Hm|by rewrite app_nil_r].
Qed.

(** What a step does to a mailbox. *)
Lemma step_mail o n q :
  numbered n -> (r_packet <$> taken q o n) ++ box_mail q (unix_step o n) = box_mail q n ++ posted q o n.
Proof.
  intros Hn. assert (Hother : forall o, match o with USendTo _ _ _ _ | URecvFrom _ _ _ _ => false | _ => true end = true ->
    box_mail q (unix_step o n) = box_mail q n).
  { clear o. intros o Ho. unfold box_mail. destruct o as [d pid|d pid|id|id a|id a|id|id x|id room|id rd wr|id bs cmsg to|id room trunc fault|id b]; try done; simpl.
    - destruct d; [|done]. simpl. rewrite !lookup_insert. pose proof (nb_boxes _ Hn) as Hb. repeat case_decide; subst; try done; rewrite Hb by lia; done.
    - unfold socket_drop. destruct (sockets n !! id) as [s|]; [|done]. destruct (transport s) as [t|t].
      + destruct (st_channel t) as [c|], (st_conn_rx t); try done; simpl; unfold drop_channel; repeat case_match; done.
      + assert (Hr : forall m : gmap Z (mailbox Packet), forall k, default [] (mail <$> alter drop_receiver k m !! q) = default [] (mail <$> m !! q)).
        { intros m k. rewrite lookup_alter. case_decide; [subst k|done]. by destruct (m !! q). }
        assert (Hd : forall m : gmap Z (mailbox Packet), forall k, default [] (mail <$> alter drop_sender k m !! q) = default [] (mail <$> m !! q)).
        { intros m k. rewrite lookup_alter. case_decide; [subst k|done]. by destruct (m !! q). }
        destruct (dg_connected t), (dg_data_rx t); simpl; rewrite ?Hr, ?Hd; done.
    - unfold socket_bind, with_slot_or_insert, get_slot, transport_bind, take_fresh.
      pose proof (nb_boxes _ Hn) as Hb. repeat case_match; simplify_eq/=; try done; rewrite lookup_insert; case_decide; try done; subst q; by rewrite Hb by lia.
    - unfold socket_connect, transport_connect, bind_connect, new_channels, take_fresh. repeat case_match; simplify_eq/=; try done;
        rewrite lookup_alter; case_decide; try done; subst; match goal with |- context [boxes n !! ?k] => by destruct (boxes n !! k) end.
    - unfold socket_accept, take_fresh. repeat case_match; simplify_eq/=; done.
    - unfold stream_send. repeat case_match; simplify_eq/=; done.
    - unfold stream_recv. repeat case_match; simplify_eq/=; done.
    - unfold socket_shutdown, drop_channel. repeat case_match; simplify_eq/=; done.
    - by destruct (sockets n !! id). }
  destruct o as [d pid|d pid|id|id a|id a|id|id x|id room|id rd wr|id bs cmsg to|id room trunc fault|id b]; try (rewrite Hother by done; simpl; by rewrite app_nil_r).
  - cbn [taken posted unix_step app]. unfold dgram_send. destruct (sockets n !! id) as [[[t|t] l r nb]|]; try by rewrite app_nil_r.
    unfold target. set (p := mk_packet bs cmsg (dg_local t)).
    assert (Hp : forall k, box_mail q (let '(r, n1) := post k p n in match r with Ok _ => (Ok (Z.of_nat (length bs)), n1) | Err e => (Err e, n1) end).2 =
      box_mail q n ++ match (let '(r, n1) := post k p n in match r with Ok _ => (Ok (E := VfsError) (Z.of_nat (length bs)), n1) | Err e => (Err e, n1) end).1 with
                      | Ok _ => if decide (Some k = Some q) then [p] else [] | Err _ => [] end).
    { intros k. pose proof (post_mail k p n q) as Hk. destruct (post k p n) as [[|] n1]; simpl in *; [|done].
      rewrite Hk. f_equal. repeat case_decide; try done; congruence. }
    destruct to as [a|].
    + destruct (with_slot a n) as [[k sl]|]; [|by rewrite app_nil_r]. destruct (slot_dgram sl) as [b|]; [apply Hp|by rewrite app_nil_r].
    + destruct (dg_connected t) as [b|]; [apply Hp|by rewrite app_nil_r].
  - cbn [taken posted unix_step]. rewrite app_nil_r. unfold dgram_recv, box_mail. destruct (sockets n !! id) as [[[t|t] l r nb]|]; try done.
    destruct (decide (dg_data_rx t = Some q)) as [Hq|Hq]; [rewrite Hq|]; cycle 1.
    { assert (Hs : forall b m, b <> q -> default [] (mail <$> <[b := m]> (boxes n) !! q) = default [] (mail <$> boxes n !! q)) by (intros b m ?; by rewrite lookup_insert_ne).
      destruct (dg_data_rx t) as [b|]; [|by destruct (default [] _)].
      assert (b <> q) by congruence. destruct (boxes n !! b) as [[[|p rest] k rc]|]; [destruct (k =? 0)%nat| |]; simpl; rewrite ?Hs by done; by destruct (default [] _). }
    destruct (boxes n !! q) as [[[|p rest] k rc]|] eqn:Hb; simpl; [|by rewrite lookup_insert_eq|by rewrite Hb].
    destruct (k =? 0)%nat; simpl; by rewrite Hb.
Qed.

Lemma step_handed o n q : Forall handed (taken q o n).
Proof.
  destruct o as [d pid|d pid|id|id a|id a|id|id x|id room|id rd wr|id bs cmsg to|id room trunc fault|id b]; try constructor. simpl.
  destruct (sockets n !! id) as [[[t|t] l r nb]|] eqn:Hs; try constructor. destruct (box_mail q n) as [|p ps] eqn:Hb; [constructor|].
  case_decide as Hq; [|constructor]. repeat constructor. unfold handed, dgram_recv. simpl. rewrite Hs, Hq. unfold box_mail in Hb.
  destruct (boxes n !! q) as [[[|p' rest] k rc]|]; try done. simpl in Hb. injection Hb as -> _. simpl. by destruct fault, trunc.
Qed.

(** C35: Datagrams.  In every history of any number of Unix sockets, the packets that have been taken
    from a mailbox, followed by those in it, are the packets that were sent to it, in order, and none
    is taken twice.  A receive hands the caller the bytes of the packet it takes that fit into the
    caller's buffer, and the rest of them is dropped; if the buffer cannot be written, it returns the
    error, and the whole packet is dropped. *)
Theorem unix_datagrams_are_fifo f os q :
  (r_packet <$> flows (taken q) os (net_new f)) ++ box_mail q (unix_run os (net_new f)) = flows (posted q) os (net_new f) /\
  Forall handed (flows (taken q) os (net_new f)).
Proof.
  assert (Hgen : forall n, owned n ->
    (r_packet <$> flows (taken q) os n) ++ box_mail q (unix_run os n) = box_mail q n ++ flows (posted q) os n /\ Forall handed (flows (taken q) os n)).
  { induction os as [|o os IH]; intros n Ho; simpl; [by rewrite app_nil_r|]. destruct (IH (unix_step o n) (owned_step _ _ Ho)) as [IH1 IH2].
    split; [|apply Forall_app; split; [apply step_handed|done]].
    rewrite fmap_app, <-app_assoc, IH1, app_assoc, (step_mail o n q (ow_numbered _ Ho)). by rewrite app_assoc. }
  destruct (Hgen _ (owned_empty f)) as [Hg Hh]. by rewrite Hg.
Qed.
(** ** Calls that do not return *)

(** A [send] as it is retried: its states before the attempts in the given situations. *)
Fixpoint attempts (id : Z) (x : sending) (ns : list (net F)) : list (result VfsError Z) :=
  match ns with
  | [] => []
  | n :: ns => let '(r, x, _) := stream_send id x n in r :: attempts id x ns
  end.

Definition blocking (id : Z) n : Prop := forall s, sockets n !! id = Some s -> nonblock s = false.

Lemma large_send_blocks id x n :
  roomy n -> blocking id n -> UNIX_BUF_SIZE < size_ x \/ Z.of_nat (length (src x)) < size_ x ->
  is_ok (stream_send id x n).1.1 = false /\ size_ (stream_send id x n).1.2 = size_ x /\
  (length (src (stream_send id x n).1.2) <= length (src x))%nat.
Proof.
  intros Hr Hb Hx. unfold stream_send. destruct (sockets n !! id) as [[[t|t] l r nb]|] eqn:Hs; try done.
  pose proof (Hb _ Hs) as Hnb. simpl in Hnb. subst nb. destruct (st_channel t) as [c|]; [|done].
  destruct (duplexes n !! chan c) as [d|] eqn:Hd; [|done]. destruct (held d (negb (side c))); simpl; [|done].
  set (k := Z.to_nat _). split_and!; [|done|rewrite length_drop; lia]. rewrite orb_false_r.
  assert (Hk : Z.of_nat k <= UNIX_BUF_SIZE) by (unfold UNIX_BUF_SIZE in *; lia). assert (Hk' : Z.of_nat k <= Z.of_nat (length (src x))) by lia.
  destruct (Z.eqb_spec (Z.of_nat k) (size_ x)); [lia|done].
Qed.

(** A blocking [send] of more than 64 KiB on a stream never returns successfully: however often
    it is retried and whatever the receiver does, the attempt compares the bytes it has just taken,
    not those taken so far, with the length of the message.  The same holds of a shorter message once
    an attempt has taken a part of it, also when all of it has been taken. *)
Theorem large_send_never_returns id x ns :
  Forall (fun n => roomy n /\ blocking id n) ns -> UNIX_BUF_SIZE < size_ x \/ Z.of_nat (length (src x)) < size_ x ->
  Forall (fun r => is_ok r = false) (attempts id x ns).
Proof.
  revert x. induction ns as [|n ns IH]; intros x Hns Hx; simpl; [done|]. apply Forall_cons in Hns as [[Hr Hb] Hns].
  destruct (large_send_blocks id x n Hr Hb Hx) as (Hok & Hsz & Hlen). destruct (stream_send id x n) as [[r x'] n']. simpl in *.
  constructor; [done|]. apply IH; [done|]. lia.
Qed.

(** The end of a stream: the writer is gone and its buffer is empty. *)
Definition at_eof (e : Z * bool) n : Prop :=
  exists d, duplexes n !! e.1 = Some d /\ held d e.2 = false /\ buf d e.2 = [].

Lemma eof_unsent e o n : owned n -> at_eof e n -> sent e o n = [].
Proof.
  intros Ho (d & Hd & Hh & _). unfold sent. destruct o; try done. destruct (chan_of id n) as [c|] eqn:Hc; [|done].
  case_decide as He; [|done]. exfalso. pose proof (ow_ends _ Ho e.1 e.2) as Hends. rewrite Hd in Hends. simpl in Hends. rewrite Hh in Hends.
  unfold chan_of in Hc. destruct (sockets n !! id) as [[[t|t] l r nb]|] eqn:Hs; try done.
  pose proof (msum_le (fun _ s => socket_ends e s) id _ _ Hs) as Hle. unfold socket_ends at 1 in Hle. simpl in Hle. rewrite Hc in Hle.
  simpl in Hle. unfold end_of in Hle. rewrite decide_True in Hle by done. unfold ends in Hends. destruct e. simpl in *. lia.
Qed.

(** What is dropped stays dropped. *)
Lemma held_step o n c d : numbered n -> duplexes n !! c = Some d ->
  exists d', duplexes (unix_step o n) !! c = Some d' /\ forall s, held d s = false -> held d' s = false.
Proof.
  intros Hn Hd. assert (Hc : c < fresh n) by (eapply used_number; [apply (nb_duplexes _ Hn)|done]).
  assert (Hdrop : forall x n1, duplexes n1 = duplexes n -> exists d', duplexes (drop_channel x n1) !! c = Some d' /\ forall s, held d s = false -> held d' s = false).
  { intros x n1 H1. unfold drop_channel. rewrite H1. destruct (duplexes n !! chan x) as [d1|] eqn:Hx; [|rewrite H1; by exists d]. simpl. rewrite lookup_insert.
    case_decide as Hxc; [|by exists d]. eexists. split; [done|]. intros s Hs. simpl. rewrite Hxc in Hx. case_match; [done|]. congruence. }
  assert (Hput : forall k d1 f, duplexes n !! k = Some d1 -> exists d', <[k := mk_duplex f (held d1)]> (duplexes n) !! c = Some d' /\ forall s, held d s = false -> held d' s = false).
  { intros k d1 f Hk. rewrite lookup_insert. case_decide; [|by exists d]. eexists. split; [done|]. simpl. intros s. congruence. }
  destruct o as [b pid|b pid|id|id a|id a|id|id x|id room|id rd wr|id bs cmsg to|id room trunc fault|id b]; simpl.
  - by exists d.
  - destruct b; simpl; [by exists d|]. rewrite lookup_insert_ne by lia. by exists d.
  - unfold socket_drop. destruct (sockets n !! id) as [u|]; [|by exists d]. destruct (transport u) as [t|t].
    + destruct (st_conn_rx t), (st_channel t); simpl; try (by exists d); by apply Hdrop.
    + destruct (dg_connected t), (dg_data_rx t); by exists d.
  - rewrite bind_duplexes. by exists d.
  - unfold socket_connect, transport_connect, bind_connect, new_channels, take_fresh.
    repeat case_match; simplify_eq/=; try (by exists d); rewrite lookup_insert_ne by lia; by exists d.
  - unfold socket_accept, take_fresh. repeat case_match; simplify_eq/=; by exists d.
  - unfold stream_send. repeat case_match; simplify_eq/=; try (by exists d); by apply Hput.
  - unfold stream_recv. repeat case_match; simplify_eq/=; try (by exists d); by apply Hput.
  - unfold socket_shutdown. repeat case_match; simplify_eq/=; try (by exists d); by apply Hdrop.
  - unfold dgram_send, post. repeat case_match; simplify_eq/=; by exists d.
  - unfold dgram_recv. repeat case_match; simplify_eq/=; by exists d.
  - destruct (sockets n !! id); by exists d.
Qed.

Lemma eof_step e o n : owned n -> at_eof e n -> at_eof e (unix_step o n).
Proof.
  intros Ho He. pose proof (eof_unsent e o n Ho He) as Hs. destruct He as (d & Hd & Hh & Hb).
  destruct (held_step o n _ d (ow_numbered _ Ho) Hd) as (d' & Hd' & Hheld). exists d'. split_and!; [done|by apply Hheld|].
  destruct (step_stream o n e (ow_numbered _ Ho)) as [Hbuf _]. rewrite Hs, app_nil_r in Hbuf. unfold stream_buf in Hbuf. rewrite Hd, Hd', Hb in Hbuf.
  by apply app_eq_nil in Hbuf as [_ ?].
Qed.

(** The end of a stream is not reported.  Once the other end of a stream is gone and everything
    has been received, [recv] blocks, or reports that it would, for as long as the socket keeps its
    end; it never returns zero bytes. *)
Theorem end_of_stream_is_not_reported f os os' id c room :
  let n := unix_run os (net_new f) in
  at_eof (chan c, negb (side c)) n -> chan_of id (unix_run os' n) = Some c ->
  (stream_recv id room (unix_run os' n)).1 = Err WouldBlock.
Proof.
  simpl. intros He Hc. assert (Ho : owned (unix_run os (net_new f))) by (by apply owned_run, owned_empty).
  revert He Hc. generalize (unix_run os (net_new f)), Ho. clear. intros n Ho He Hc.
  assert (He' : at_eof (chan c, negb (side c)) (unix_run os' n)).
  { clear Hc. revert n Ho He. induction os' as [|o os' IH]; intros n Ho He; simpl; [done|]. apply IH; [by apply owned_step|by apply eof_step]. }
  destruct He' as (d & Hd & _ & Hb). unfold chan_of in Hc. unfold stream_recv. destruct (sockets (unix_run os' n) !! id) as [[[t|t] l r nb]|]; try done.
  rewrite Hc. simpl in Hd, Hb. rewrite Hd, Hb. simpl. replace (Z.to_nat (Z.min room (Z.of_nat 0))) with 0%nat by lia. done.
Qed.
End spec.

(** ** Witnesses *)

(** A file system without files. *)
#[export] Instance no_files : SocketFs () := {|
  fs_resolve _ _ := Err NotFound;
  fs_open_create _ f := (Err PermissionDenied, f);
  fs_is_socket _ _ := false;
|}.

(** A connected pair: the first socket is number 1, the second number 2, their stream number 0. *)
Definition talk : list unix_op := [UPair false 7; USend 1 (send_begin [1; 2; 3]); URecv 2 2].

Lemma unix_streams_are_fifo_witness :
  exists d, duplexes (unix_run talk (net_new ())) !! 0 = Some d /\
    flows (received (0, false)) talk (net_new ()) = [1; 2] /\
    [1; 2] ++ buf d false = [1; 2; 3] /\ ends (0, false) (unix_run talk (net_new ())) = 1%nat.
Proof.
  destruct (duplexes (unix_run talk (net_new ())) !! 0) as [d|] eqn:Hd; [|by vm_compute in Hd]. exists d.
  destruct (unix_streams_are_fifo () talk 0 d false Hd) as (Hf & _ & He).
  assert (Hr : flows (received (0, false)) talk (net_new ()) = [1; 2]) by (by vm_compute).
  assert (Hs : flows (sent (0, false)) talk (net_new ()) = [1; 2; 3]) by (by vm_compute).
  assert (Hh : held d false = true) by (vm_compute in Hd; injection Hd as <-; done).
  rewrite Hr, Hs in Hf. rewrite Hh in He. done.
Defined.

(** Three bytes of a message of four have been taken: the attempt that takes the last one, and every
    later one, would block. *)
Lemma large_send_never_returns_witness :
  let n := unix_run [UPair false 7] (net_new ()) in
  attempts 1 (mk_sending [4] 3 4) [n; n] = [Err WouldBlock; Err WouldBlock] /\
  Forall (fun r => is_ok r = false) (attempts 1 (mk_sending [4] 3 4) [n; n]).
Proof.
  intros n. split; [by vm_compute|]. apply large_send_never_returns; [|right; simpl; lia].
  assert (Hn : roomy n /\ blocking 1 n).
  { split.
    - intros [c s]. unfold stream_buf. simpl. destruct (decide (c = 0)) as [->|Hc]; [done|]. rewrite lookup_insert_ne by done. done.
    - intros s Hs. vm_compute in Hs. by injection Hs as <-. }
  exact (Forall_cons_2 _ _ _ Hn (Forall_cons_2 _ _ _ Hn (Forall_nil_2 _))).
Defined.

Lemma end_of_stream_is_not_reported_witness :
  let n := unix_run [UPair false 7; UDrop 1] (net_new ()) in
  chan_of 2 n = Some (mk_channel 0 true 7) /\ (stream_recv 2 10 n).1 = Err WouldBlock.
Proof.
  intros n. split; [by vm_compute|]. unfold n.
  apply (end_of_stream_is_not_reported () [UPair false 7; UDrop 1] [] 2 (mk_channel 0 true 7) 10); [|by vm_compute].
  eexists. by vm_compute.
Defined.
