(* ===== verification/PollIo.v ===== *)
(** * Calls that poll and wait

    [poll_io] of [modules/axtask/src/future/poll.rs] over an arbitrary object: a call is a closure
    that is tried; if it would block, the task registers with a poll set of the object, tries again,
    and then waits until the set is woken.  The class [Pollee] has the attempts of an object's calls
    and the other operations on it, each with the poll sets it wakes; [PolleeLaws] says that whoever
    ends the reason for which a call blocks wakes the set that the call waits on, as far as the calls
    are [good].  From that alone follows, for all interleavings, that no wake-up is lost. *)

From S2P Require Import Prelude.

(** Objects [R] with calls [C], other operations [A], outcomes [O] and poll sets [S]. *)
Class Pollee (R C A O S : Type) := {
  attempt : C -> R -> option O * C * R * list S;
  operate : A -> R -> R * list S;
  waits_on : C -> S;
}.

Definition blocked {R C A O S} `{Pollee R C A O S} (c : C) (r : R) : Prop := (attempt (A := A) c r).1.1.1 = None.

Class PolleeLaws (R C A O S : Type) `{Pollee R C A O S} (good : C -> Prop) : Prop := {
  attempt_wakes c r o c' r' ws c0 :
    good c -> attempt c r = (o, c', r', ws) -> blocked (A := A) c0 r -> blocked (A := A) c0 r' \/ waits_on (A := A) c0 ∈ ws;
  operate_wakes a r r' ws c0 :
    operate a r = (r', ws) -> blocked (A := A) c0 r -> blocked (A := A) c0 r' \/ waits_on (A := A) c0 ∈ ws;
  attempt_blocks c r c' r' ws :
    good c -> attempt c r = (None, c', r', ws) -> good c' /\ blocked (A := A) c' r' /\ waits_on (A := A) c' = waits_on (A := A) c;
}.

(** Where [poll_io] is: before the first attempt, before registration, before the second attempt
    (woken in the meantime or not), or waiting. *)
Inductive poll_phase : Type := Polling | Registering | Retrying (woken : bool) | Waiting.

Section poll_io.
Context {R C A O S : Type} `{EqDecision S} `{Pollee R C A O S}.

Record poller : Type := mk_poller { p_call : C; p_nonblock : bool; p_phase : poll_phase }.

(** How a call of [poll_io] ends. *)
Inductive verdict : Type := Done (o : O) | Blocks | Interrupted.

(** The object, the tasks in calls, who is registered with which poll set, the wake-ups that those
    who changed the object have yet to make, and how calls ended.  A wake-up follows the change it
    is for, at any time: the wakers hold no lock over both. *)
Record scene : Type := mk_scene {
  object : R;
  pollers : gmap Z poller;
  registered : list (S * Z);
  pending : list S;
  ended : gmap Z verdict;
}.

Definition scene_new (r : R) : scene := mk_scene r ∅ [] [] ∅.

Definition wake_phase (p : poll_phase) : poll_phase :=
  match p with Waiting => Polling | Retrying _ => Retrying true | p => p end.

(** [PollSet::wake]. *)
Definition wake_set (s : S) (w : scene) : scene :=
  mk_scene (object w)
    (map_imap (fun t p => Some (if bool_decide ((s, t) ∈ registered w)
                                then mk_poller (p_call p) (p_nonblock p) (wake_phase (p_phase p)) else p)) (pollers w))
    (filter (fun x => x.1 <> s) (registered w)) (pending w) (ended w).

Definition change (r : R) (ws : list S) (w : scene) : scene :=
  mk_scene r (pollers w) (registered w) (pending w ++ ws) (ended w).
Definition put_poller (t : Z) (p : poller) (w : scene) : scene :=
  mk_scene (object w) (<[t := p]> (pollers w)) (registered w) (pending w) (ended w).
Definition register (s : S) (t : Z) (w : scene) : scene :=
  mk_scene (object w) (pollers w) ((s, t) :: registered w) (pending w) (ended w).
Definition finish (t : Z) (v : verdict) (w : scene) : scene :=
  mk_scene (object w) (delete t (pollers w)) (registered w) (pending w) (<[t := v]> (ended w)).

(** An attempt of the call [c] of task [t]: if it would block, [next] says how the task goes on. *)
Definition try_call (t : Z) (c : C) (next : C -> scene -> scene) (w : scene) : scene :=
  let '(o, c', r, ws) := attempt c (object w) in
  let w := change r ws w in
  match o with Some o => finish t (Done o) w | None => next c' w end.

Inductive poll_event : Type :=
| PStart (t : Z) (c : C) (nonblock : bool)
| PPoll (t : Z)
| PRegister (t : Z)
| PRetry (t : Z)
| PInterrupt (t : Z)
| POperate (a : A)
| PWake (i : nat).

Definition poll_step (e : poll_event) (w : scene) : option scene :=
  match e with
  | PStart t c nb => match pollers w !! t with None => Some (put_poller t (mk_poller c nb Polling) w) | Some _ => None end
  | PPoll t =>
      match pollers w !! t with
      | Some (mk_poller c nb Polling) =>
          Some (try_call t c (fun c w => if nb then finish t Blocks w else put_poller t (mk_poller c nb Registering) w) w)
      | _ => None
      end
  | PRegister t =>
      match pollers w !! t with
      | Some (mk_poller c nb Registering) =>
          Some (put_poller t (mk_poller c nb (Retrying false)) (register (waits_on c) t w))
      | _ => None
      end
  | PRetry t =>
      match pollers w !! t with
      | Some (mk_poller c nb (Retrying woken)) =>
          Some (try_call t c (fun c w => put_poller t (mk_poller c nb (if woken then Polling else Waiting)) w) w)
      | _ => None
      end
  | PInterrupt t =>
      match pollers w !! t with
      | Some (mk_poller _ _ (Polling | Waiting)) => Some (finish t Interrupted w)
      | _ => None
      end
  | POperate a => let '(r, ws) := operate a (object w) in Some (change r ws w)
  | PWake i =>
      s ← pending w !! i;
      Some (wake_set s (mk_scene (object w) (pollers w) (registered w) (delete i (pending w)) (ended w)))
  end.

Fixpoint poll_run (es : list poll_event) (w : scene) : option scene :=
  match es with
  | [] => Some w
  | e :: es => w' ← poll_step e w; poll_run es w'
  end.

(** ** No wake-up is lost *)

Context (good : C -> Prop) `{!PolleeLaws R C A O S good}.

Definition good_event (e : poll_event) : Prop := match e with PStart _ c _ => good c | _ => True end.

(** A task between its attempts that has not been woken is registered; one that waits also has a
    reason to, or is about to be woken. *)
Definition poller_ok (w : scene) (t : Z) (p : poller) : Prop :=
  good (p_call p) /\
  match p_phase p with
  | Retrying false => (waits_on (p_call p), t) ∈ registered w
  | Waiting => (waits_on (p_call p), t) ∈ registered w /\ (blocked (p_call p) (object w) \/ waits_on (p_call p) ∈ pending w)
  | _ => True
  end.

Definition attentive (w : scene) : Prop := forall t p, pollers w !! t = Some p -> poller_ok w t p.

Lemma attentive_change r ws w :
  attentive w -> (forall c, blocked c (object w) -> blocked c r \/ waits_on c ∈ ws) -> attentive (change r ws w).
Proof.
  intros Hw Hr t p Hp. specialize (Hw t p Hp). unfold poller_ok in *. simpl.
  destruct Hw as [Hg Hw]. split; [done|].
  destruct (p_phase p) as [| |[]|]; try done. destruct Hw as [Hin Hb]. split; [done|]. rewrite elem_of_app.
  destruct Hb as [Hb|Hb]; [|by auto]. destruct (Hr _ Hb); auto.
Qed.

Lemma attentive_wake i s w :
  pending w !! i = Some s -> attentive w ->
  attentive (wake_set s (mk_scene (object w) (pollers w) (registered w) (delete i (pending w)) (ended w))).
Proof.
  intros Hi Hw t p. simpl. rewrite map_lookup_imap. destruct (pollers w !! t) as [p0|] eqn:Hp0; [|done]. intros [= <-].
  destruct (Hw t p0 Hp0) as [Hg Hw0]. clear Hw. rename Hw0 into Hw. unfold poller_ok in *. destruct (bool_decide _) eqn:Hb.
  { simpl. split; [done|]. destruct (p_phase p0) as [| |[]|]; done. }
  apply bool_decide_eq_false in Hb.
  assert (Hreg : forall x, (x, t) ∈ registered w -> (x, t) ∈ filter (fun y => y.1 <> s) (registered w)).
  { intros x Hx. apply list_elem_of_filter. split; [|done]. simpl. by intros ->. }
  split; [done|]. destruct (p_phase p0) as [| |[]|]; simpl; try done; [by auto|]. destruct Hw as [Hin Hw]. split; [by auto|].
  destruct Hw as [|Hw]; [by left|right]. rewrite (delete_Permutation _ _ _ Hi) in Hw. apply elem_of_cons in Hw as [Hw|]; [|done].
  rewrite Hw in Hin. done.
Qed.

Lemma poller_attentive_put t p w : attentive w -> poller_ok w t p -> attentive (put_poller t p w).
Proof.
  intros Hw Hp u q. simpl. rewrite lookup_insert. case_decide as Hu; [intros [= <-]; subst u; exact Hp|apply Hw].
Qed.

Lemma attentive_register s t w : attentive w -> attentive (register s t w).
Proof.
  intros Hw u p Hp. specialize (Hw u p Hp). unfold poller_ok in *. simpl.
  destruct Hw as [Hg Hw]. split; [done|].
  destruct (p_phase p) as [| |[]|]; [done|done|done|by right|]. destruct Hw. split; [by right|done].
Qed.

Lemma attentive_finish t v w : attentive w -> attentive (finish t v w).
Proof. intros Hw u q. simpl. intros [_ Hu]%lookup_delete_Some. exact (Hw u q Hu). Qed.

(** An attempt keeps the invariant if what the task does next does. *)
Lemma attentive_try t c next w :
  attentive w -> good c ->
  (forall c' r ws, attempt c (object w) = (None, c', r, ws) -> attentive (change r ws w) -> attentive (next c' (change r ws w))) ->
  attentive (try_call t c next w).
Proof.
  intros Hw Hg Hn. unfold try_call. destruct (attempt c (object w)) as [[[o c'] r] ws] eqn:Ha.
  assert (Hc : attentive (change r ws w)) by (apply attentive_change; [done|]; intros c0; by eapply attempt_wakes).
  destruct o; [by apply attentive_finish|by apply Hn].
Qed.

Lemma poll_step_attentive e w w' : attentive w -> good_event e -> poll_step e w = Some w' -> attentive w'.
Proof.
  intros Hw He. destruct e as [t c nb|t|t|t|t|a|i]; simpl.
  - case_match; [done|]. intros [= <-]. by apply poller_attentive_put.
  - destruct (pollers w !! t) as [[c nb []]|] eqn:Hp; try done. intros [= <-]. destruct (Hw t _ Hp) as [Hg _]. apply attentive_try; [done..|].
    intros c' r ws Ha Hc. destruct nb; [by apply attentive_finish|]. apply poller_attentive_put; [done|]. split; [|done].
    exact (proj1 (attempt_blocks _ _ _ _ _ Hg Ha)).
  - destruct (pollers w !! t) as [[c nb []]|] eqn:Hp; try done. intros [= <-]. destruct (Hw t _ Hp) as [Hg _].
    apply poller_attentive_put; [by apply attentive_register|]. split; [done|]. simpl. by left.
  - destruct (pollers w !! t) as [[c nb [| |woken|]]|] eqn:Hp; try done. intros [= <-]. destruct (Hw t _ Hp) as [Hg Hin].
    apply attentive_try; [done..|]. intros c' r ws Ha Hc. destruct (attempt_blocks _ _ _ _ _ Hg Ha) as (Hg' & Hb & Hs).
    apply poller_attentive_put; [done|]. split; [done|]. destruct woken; simpl; [done|]. rewrite Hs. split; [exact Hin|by left].
  - destruct (pollers w !! t) as [[c nb []]|] eqn:Hp; try done; intros [= <-]; by apply attentive_finish.
  - destruct (operate a (object w)) as [r ws] eqn:Ho. intros [= <-]. apply attentive_change; [done|]. intros c0. by eapply operate_wakes.
  - destruct (pending w !! i) as [s|] eqn:Hi; [|done]. simpl. intros [= <-]. by apply attentive_wake.
Qed.

Lemma poll_run_attentive es : forall w w', attentive w -> Forall good_event es -> poll_run es w = Some w' -> attentive w'.
Proof.
  induction es as [|e es IH]; intros w w' Hw Hg; simpl; [by intros [= <-]|]. apply Forall_cons in Hg as [Hge Hg].
  destruct (poll_step e w) as [w1|] eqn:He; [|done]. simpl. apply IH; [|done]. by eapply poll_step_attentive.
Qed.

(** When every wake-up has been made, a task that waits has to. *)
Lemma waiters_have_to_wait es r w t p :
  Forall good_event es -> poll_run es (scene_new r) = Some w -> pending w = [] -> pollers w !! t = Some p -> p_phase p = Waiting -> blocked (p_call p) (object w).
Proof.
  intros Hg Hr Hpe Hp Hph. assert (Hw : attentive w) by (eapply poll_run_attentive; [|exact Hg|exact Hr]; intros ? ?; simpl; by rewrite lookup_empty).
  specialize (Hw t p Hp). unfold poller_ok in Hw. rewrite Hph, Hpe in Hw. destruct Hw as [_ [_ [|Hin]]]; [done|]. by apply not_elem_of_nil in Hin.
Qed.
End poll_io.
