(* ===== verification/EventFd.v ===== *)
(** * Event counters

    [kernel/src/file/event.rs] and [sys_eventfd2] of [kernel/src/syscall/fs/event.rs]: a counter that
    [write] adds to and [read] takes, as an object of [poll_io].  A call that reads has a destination
    that takes the counter or faults. *)

From S2P Require Import Prelude PageCache PollIo.

Definition EFD_SEMAPHORE : Z := 1.
Definition EFD_NONBLOCK : Z := 2048.
Definition EFD_CLOEXEC : Z := 524288.

Record EventFd : Type := mk_eventfd { count : Z; semaphore : bool; non_blocking : bool }.

(** [EventFd::new], and [sys_eventfd2] up to the descriptor: the counter, and whether it is to be
    closed on [execve]. *)
Definition eventfd_new (initval : Z) (sem : bool) : EventFd := mk_eventfd initval sem false.
Definition set_nonblocking (b : bool) (e : EventFd) : EventFd := mk_eventfd (count e) (semaphore e) b.
Definition sys_eventfd2 (initval flags : Z) : result VfsError (EventFd * bool) :=
  if negb (Z.land flags (Z.lnot (Z.lor EFD_SEMAPHORE (Z.lor EFD_NONBLOCK EFD_CLOEXEC))) =? 0) then Err InvalidInput
  else
    let has f := negb (Z.land flags f =? 0) in
    Ok (set_nonblocking (has EFD_NONBLOCK) (eventfd_new initval (has EFD_SEMAPHORE)), has EFD_CLOEXEC).

(** The poll sets, and the calls: [dst] says whether the destination of a read can be written. *)
Inductive poll_set : Type := poll_rx | poll_tx.
#[export] Instance poll_set_eq_dec : EqDecision poll_set.
Proof. solve_decision. Defined.

Inductive ev_call : Type := EvRead (dst : bool) | EvWrite (value : Z).
Inductive ev_outcome : Type := ReadCount (n : Z) | Wrote | Fault.

(** The guards of [read] and [write], before they poll: what they try, given the room or the bytes
    that are left and the number that those encode. *)
Definition read_call (remaining_mut : Z) (dst : bool) : result VfsError ev_call :=
  if remaining_mut <? 8 then Err InvalidInput else Ok (EvRead dst).
Definition write_call (remaining value : Z) : result VfsError ev_call :=
  if remaining <? 8 then Err InvalidInput else if value =? u64_max then Err InvalidInput else Ok (EvWrite value).

(** The closure of [read]: the outcome, the counter afterwards and the sets that are woken. *)
Definition try_ev_read (dst : bool) (e : EventFd) : option ev_outcome * EventFd * list poll_set :=
  if 0 <? count e then
    let dec := if semaphore e then 1 else count e in
    let e' := mk_eventfd (count e - dec) (semaphore e) (non_blocking e) in
    if dst then (Some (ReadCount (count e)), e', [poll_tx]) else (Some Fault, e', [])
  else (None, e, []).

(** The closure of [write]. *)
Definition try_ev_write (value : Z) (e : EventFd) : option ev_outcome * EventFd * list poll_set :=
  if value <? u64_max - count e then
    (Some Wrote, mk_eventfd (count e + value) (semaphore e) (non_blocking e), [poll_rx])
  else (None, e, []).

Definition ev_attempt (c : ev_call) (e : EventFd) : option ev_outcome * ev_call * EventFd * list poll_set :=
  let '(o, e', ws) := match c with EvRead dst => try_ev_read dst e | EvWrite v => try_ev_write v e end in (o, c, e', ws).

(** [register]: a read waits for input, a write for output. *)
Definition ev_register (c : ev_call) : poll_set := match c with EvRead _ => poll_rx | EvWrite _ => poll_tx end.

(** [poll]: whether the counter can be read, and written. *)
Definition ev_poll (e : EventFd) : bool * bool := (0 <? count e, count e <? u64_max - 1).

#[export] Instance eventfd_pollee : Pollee EventFd ev_call bool ev_outcome poll_set := {
  attempt := ev_attempt;
  operate := fun b e => (set_nonblocking b e, []);
  waits_on := ev_register;
}.

(** ** Waiting *)

(** Calls that do not fault, with a value that fits. *)
Definition ev_good (c : ev_call) : Prop := match c with EvRead dst => dst = true | EvWrite v => 0 <= v end.

Lemma ev_blocked c e :
  blocked (A := bool) c e <-> match c with EvRead _ => count e <= 0 | EvWrite v => u64_max - count e <= v end.
Proof.
  unfold blocked. simpl. unfold ev_attempt. destruct c as [dst|v]; simpl.
  - unfold try_ev_read. destruct (Z.ltb_spec 0 (count e)); [destruct dst|]; simpl; split; first [done|lia|idtac]; intros; lia || done.
  - unfold try_ev_write. destruct (Z.ltb_spec v (u64_max - count e)); simpl; split; first [done|lia].
Qed.

(** An attempt blocks and changes nothing, or it takes from the counter, or it adds to it. *)
Lemma ev_attempt_cases c e o c' e' ws :
  ev_good c -> ev_attempt c e = (o, c', e', ws) ->
  c' = c /\
  ((o = None /\ blocked (A := bool) c e /\ e' = e /\ ws = []) \/
   (o = Some (ReadCount (count e)) /\ 0 < count e /\ count e' = (if semaphore e then count e - 1 else 0) /\ ws = [poll_tx]) \/
   (exists v, c = EvWrite v /\ o = Some Wrote /\ 0 <= v < u64_max - count e /\ count e' = count e + v /\ ws = [poll_rx])).
Proof.
  rewrite ev_blocked. unfold ev_attempt. intros Hg. destruct c as [dst|v]; simpl in Hg.
  - subst dst. unfold try_ev_read. destruct (Z.ltb_spec 0 (count e)); intros [= <- <- <- <-]; (split; [done|]).
    + right. left. simpl. repeat split; [done|]. case_match; lia.
    + by left.
  - unfold try_ev_write. destruct (Z.ltb_spec v (u64_max - count e)); intros [= <- <- <- <-]; (split; [done|]).
    + right. right. exists v. done.
    + left. repeat split; lia.
Qed.

#[export] Instance eventfd_laws : PolleeLaws EventFd ev_call bool ev_outcome poll_set ev_good.
Proof.
  split.
  - intros c e o c' e' ws c0 Hg Ha.
    destruct (ev_attempt_cases _ _ _ _ _ _ Hg Ha) as [_ [(_ & _ & -> & _)|[(_ & Hc & Hc' & ->)|(v & _ & _ & Hv & Hc' & ->)]]];
      [by left|..]; rewrite !ev_blocked; destruct c0; intros Hb; try (right; by left); left; [lia|]. rewrite Hc'. lia.
  - intros b e e' ws c0 [= <- <-]. rewrite !ev_blocked. by left.
  - intros c e c' e' ws Hg Ha. destruct (ev_attempt_cases _ _ _ _ _ _ Hg Ha) as [-> [(_ & Hb & -> & _)|[(? & _)|(v & _ & ? & _)]]]; done.
Qed.

Notation ev_scene := (scene (R := EventFd) (C := ev_call) (O := ev_outcome) (S := poll_set)).
Notation ev_event := (poll_event (C := ev_call) (A := bool)).

(** For every interleaving of reads, writes, interrupts and wake-ups in which no destination
    faults, once all wake-ups have been made a reader waits only while the counter is zero, and a
    writer only while its value does not fit below [u64::MAX]. *)
Theorem eventfd_waits_only_with_reason (es : list ev_event) (e : EventFd) (w : ev_scene) (t : Z) (p : poller) :
  Forall (good_event ev_good) es -> poll_run es (scene_new e) = Some w -> pending w = [] ->
  pollers w !! t = Some p -> p_phase p = Waiting ->
  match p_call p with EvRead _ => count (object w) <= 0 | EvWrite v => u64_max - count (object w) <= v end.
Proof. intros Hg Hr Hpe Hp Hph. apply ev_blocked. exact (waiters_have_to_wait ev_good es e w t p Hg Hr Hpe Hp Hph). Qed.

(** ** What is counted *)

(** The calls that end in a run, with their outcomes. *)
Definition settled (ev : ev_event) (w : ev_scene) : list (ev_call * ev_outcome) :=
  match ev with
  | PPoll t | PRetry t =>
      match pollers w !! t with
      | Some p => match (ev_attempt (p_call p) (object w)).1.1.1 with Some o => [(p_call p, o)] | None => [] end
      | None => []
      end
  | _ => []
  end.
Fixpoint settled_calls (es : list ev_event) (w : ev_scene) : list (ev_call * ev_outcome) :=
  match es with
  | [] => []
  | ev :: es => settled ev w ++ match poll_step ev w with Some w' => settled_calls es w' | None => [] end
  end.

Definition written (x : ev_call * ev_outcome) : Z := match x with (EvWrite v, Wrote) => v | _ => 0 end.
Definition taken (sem : bool) (x : ev_call * ev_outcome) : Z :=
  match x with (_, ReadCount n) => if sem then 1 else n | _ => 0 end.
Definition total (f : ev_call * ev_outcome -> Z) (xs : list (ev_call * ev_outcome)) : Z := foldr Z.add 0 (f <$> xs).

Lemma ev_total_app f xs ys : total f (xs ++ ys) = total f xs + total f ys.
Proof. unfold total. rewrite fmap_app, foldr_app. induction (f <$> xs) as [|x l IH]; simpl; lia. Qed.

Definition ev_ok (e : EventFd) : Prop := 0 <= count e < u64_max.

(** One attempt: the counter stays in range and loses and gains what is settled. *)
Lemma ev_attempt_counts c e o c' e' ws :
  ev_good c -> ev_ok e -> ev_attempt c e = (o, c', e', ws) ->
  ev_ok e' /\ semaphore e' = semaphore e /\
  let x := match o with Some o => [(c, o)] | None => [] end in
  count e + total written x = count e' + total (taken (semaphore e)) x.
Proof.
  unfold ev_ok, total, ev_attempt. intros Hg He. destruct c as [dst|v]; simpl in Hg.
  - subst dst. unfold try_ev_read. destruct (Z.ltb_spec 0 (count e)); intros [= <- <- <- <-]; simpl; [|done || (repeat split; lia)].
    destruct (semaphore e); simpl; repeat split; lia.
  - unfold try_ev_write. destruct (Z.ltb_spec v (u64_max - count e)); intros [= <- <- <- <-]; simpl; repeat split; lia.
Qed.

Lemma object_try_call t c next (w : ev_scene) :
  (forall c w, object (next c w) = object w) -> object (try_call t c next w) = (ev_attempt c (object w)).1.2.
Proof. intros Hn. unfold try_call. simpl. destruct (ev_attempt c (object w)) as [[[[o|] c'] e'] ws]; simpl; [done|apply Hn]. Qed.

Lemma ev_step_counts ev (w w' : ev_scene) :
  good_event ev_good ev -> attentive ev_good w -> ev_ok (object w) -> poll_step ev w = Some w' ->
  ev_ok (object w') /\ semaphore (object w') = semaphore (object w) /\
  count (object w) + total written (settled ev w) = count (object w') + total (taken (semaphore (object w))) (settled ev w).
Proof.
  intros Hge Hw He.
  assert (Hcall : forall t p, pollers w !! t = Some p ->
    ev_ok (ev_attempt (p_call p) (object w)).1.2 /\ semaphore (ev_attempt (p_call p) (object w)).1.2 = semaphore (object w) /\
    count (object w) + total written (match (ev_attempt (p_call p) (object w)).1.1.1 with Some o => [(p_call p, o)] | None => [] end) =
    count (ev_attempt (p_call p) (object w)).1.2 +
      total (taken (semaphore (object w))) (match (ev_attempt (p_call p) (object w)).1.1.1 with Some o => [(p_call p, o)] | None => [] end)).
  { intros t p Hp. destruct (ev_attempt (p_call p) (object w)) as [[[o c'] e'] ws] eqn:Ha. simpl.
    exact (ev_attempt_counts _ _ _ _ _ _ (proj1 (Hw t p Hp)) He Ha). }
  destruct ev as [t c nb|t|t|t|t|b|i]; unfold settled.
  - simpl. case_match; [done|]. intros [= <-]. unfold total. simpl. done.
  - simpl. destruct (pollers w !! t) as [[c nb []]|] eqn:Hp; try done. intros [= <-].
    rewrite object_try_call by (intros; by destruct nb). exact (Hcall t _ Hp).
  - simpl. destruct (pollers w !! t) as [[c nb []]|] eqn:Hp; try done. intros [= <-]. unfold total. simpl. done.
  - simpl. destruct (pollers w !! t) as [[c nb [| |wo|]]|] eqn:Hp; try done. intros [= <-].
    rewrite object_try_call by done. exact (Hcall t _ Hp).
  - simpl. destruct (pollers w !! t) as [[c nb []]|] eqn:Hp; try done; intros [= <-]; unfold total; simpl; done.
  - simpl. intros [= <-]. unfold total. simpl. done.
  - simpl. destruct (pending w !! i); [|done]. intros [= <-]. unfold total. simpl. done.
Qed.

Lemma ev_run_counts es : forall w w',
  Forall (good_event ev_good) es -> attentive ev_good w -> ev_ok (object w) -> poll_run es w = Some w' ->
  ev_ok (object w') /\ semaphore (object w') = semaphore (object w) /\
  count (object w) + total written (settled_calls es w) = count (object w') + total (taken (semaphore (object w))) (settled_calls es w).
Proof.
  induction es as [|ev es IH]; intros w w' Hg Hw He; simpl; [intros [= <-]; unfold total; simpl; done|].
  apply Forall_cons in Hg as [Hge Hg]. destruct (poll_step ev w) as [w1|] eqn:H1; [|done]. simpl. intros Hr.
  destruct (ev_step_counts _ _ _ Hge Hw He H1) as (He1 & Hs1 & Hc1).
  destruct (IH w1 w' Hg (poll_step_attentive _ _ _ _ Hw Hge H1) He1 Hr) as (He2 & Hs2 & Hc2).
  rewrite Hs1 in Hc2. rewrite Hs2, !ev_total_app. split; [done|]. split; [done|lia].
Qed.

Lemma ev_attentive_new e : attentive ev_good (scene_new e).
Proof. intros t p. simpl. by rewrite lookup_empty. Qed.

(** C36: For every interleaving in which no destination faults, the counter never wraps, and it is
    what was written to it less what was taken: a read takes the number that it returns, or 1 from a
    semaphore. *)
Theorem eventfd_counts (es : list ev_event) (initval flags : Z) (e : EventFd) (cloexec : bool) (w : ev_scene) :
  0 <= initval <= u32_max -> sys_eventfd2 initval flags = Ok (e, cloexec) ->
  Forall (good_event ev_good) es -> poll_run es (scene_new e) = Some w ->
  0 <= count (object w) < u64_max /\
  count (object w) = initval + total written (settled_calls es (scene_new e))
                     - total (taken (semaphore e)) (settled_calls es (scene_new e)).
Proof.
  intros Hi Hs Hg Hr. unfold sys_eventfd2 in Hs. case_match; [done|]. injection Hs as He _. subst e.
  assert (Hok : ev_ok (object (scene_new (C := ev_call) (O := ev_outcome) (S := poll_set)
    (set_nonblocking (negb (Z.land flags EFD_NONBLOCK =? 0)) (eventfd_new initval (negb (Z.land flags EFD_SEMAPHORE =? 0))))))).
  { unfold ev_ok, u64_max, u32_max in *. simpl. lia. }
  destruct (ev_run_counts es _ w Hg (ev_attentive_new _) Hok Hr) as (He & _ & Hc). split; [exact He|]. simpl in Hc |- *. lia.
Qed.

(** Witnesses: a writer of 2 wakes a reader that waits, and another reader waits on. *)
Definition ev_trace : list ev_event :=
  [PStart 1 (EvRead true) false; PPoll 1; PRegister 1; PRetry 1; PStart 2 (EvWrite 2) false; PPoll 2; PWake 0; PPoll 1; PWake 0;
   PStart 3 (EvRead true) false; PPoll 3; PRegister 3; PRetry 3].

Lemma ev_trace_good : Forall (good_event ev_good) ev_trace.
Proof. repeat (apply Forall_cons; split); simpl; try done. Qed.

Lemma eventfd_waits_only_with_reason_witness : exists w : ev_scene,
  poll_run ev_trace (scene_new (eventfd_new 0 false)) = Some w /\ count (object w) <= 0.
Proof.
  eexists. split; [vm_compute; reflexivity|].
  refine (eventfd_waits_only_with_reason ev_trace (eventfd_new 0 false) _ 3 (mk_poller (EvRead true) false Waiting) ev_trace_good _ _ _ _);
    vm_compute; reflexivity.
Defined.

Lemma eventfd_counts_witness : exists w : ev_scene,
  poll_run ev_trace (scene_new (eventfd_new 0 false)) = Some w /\ 0 <= count (object w) < u64_max.
Proof.
  eexists. split; [vm_compute; reflexivity|].
  refine (proj1 (eventfd_counts ev_trace 0 0 (eventfd_new 0 false) false _ _ _ ev_trace_good _));
    [unfold u32_max; lia|reflexivity|vm_compute; reflexivity].
Defined.

(** ** Limits *)

(** A read whose destination faults empties the counter and wakes nobody: a writer that waits for room
    is left waiting although its value fits. *)
Theorem faulting_read_loses_wake_up :
  exists w : ev_scene,
    poll_run [PStart 1 (EvWrite (u64_max - 1)) false; PPoll 1; PRegister 1; PRetry 1; PStart 2 (EvRead false) false; PPoll 2]
      (scene_new (eventfd_new 1 false)) = Some w /\
    pending w = [] /\ p_phase <$> pollers w !! 1 = Some Waiting /\ count (object w) = 0.
Proof. eexists. split; [vm_compute; reflexivity|]. vm_compute. done. Qed.

(** A read from a semaphore takes 1 and returns the whole counter. *)
Lemma semaphore_read_returns_counter e :
  semaphore e = true -> 0 < count e ->
  try_ev_read true e = (Some (ReadCount (count e)), mk_eventfd (count e - 1) true (non_blocking e), [poll_tx]).
Proof. intros Hs Hc. unfold try_ev_read. rewrite (proj2 (Z.ltb_lt _ _) Hc), Hs. done. Qed.

(** [poll] reports input exactly if a read would not block, and room exactly if a write of 1 would
    not. *)
Lemma ev_poll_exact e :
  ((ev_poll e).1 = false <-> blocked (A := bool) (EvRead true) e) /\ ((ev_poll e).2 = false <-> blocked (A := bool) (EvWrite 1) e).
Proof. rewrite !ev_blocked. unfold ev_poll. simpl. rewrite !Z.ltb_ge. lia. Qed.
