(* ===== verification/FdTable.v ===== *)
(** * File descriptors

    [kernel/src/file/mod.rs] (the table and its accessors), [kernel/src/syscall/fs/fd_ops.rs] ([close],
    [close_range], [dup], [dup2], [dup3], [fcntl]), [sys_pipe2], [sys_pidfd_getfd], the part of
    [sys_execve] that closes descriptors and the part of [sys_clone] that shares or copies the table.

    A table ([FlattenObjects] of the crate [flatten_objects]) is a parameter with its documented laws;
    processes refer to tables, which they may share.  Each access to a table holds its lock; a call
    that takes a lock it holds spins. *)

From S2P Require Import Prelude PageCache Pipe.

(** [FlattenObjects<V, CAP>]: objects with small numbers. *)
Class FlattenObjects (T V : Type) := {
  fo_new : T;
  fo_get : Z -> T -> option V;
  fo_count : T -> Z;
  fo_ids : T -> list Z;
  fo_add : V -> T -> option (Z * T);
  fo_add_at : Z -> V -> T -> option T;
  fo_remove : Z -> T -> option (V * T);
  fo_set : Z -> V -> T -> T;
}.

(** What it promises: a finite map on the numbers below [CAP] that adds at the lowest free one. *)
Class FlattenLaws (T V : Type) `{FlattenObjects T V} (CAP : Z) := {
  fo_view : T -> gmap Z V;
  fo_view_new : fo_view fo_new = ∅;
  fo_view_range t i v : fo_view t !! i = Some v -> 0 <= i < CAP;
  fo_get_view t i : fo_get i t = fo_view t !! i;
  fo_count_view t : fo_count t = Z.of_nat (size (fo_view t));
  fo_ids_view t i : i ∈ fo_ids t <-> is_Some (fo_view t !! i);
  fo_ids_sorted t (i j : nat) x y : fo_ids t !! i = Some x -> fo_ids t !! j = Some y -> (i < j)%nat -> x < y;
  fo_add_some t v i t' : fo_add v t = Some (i, t') ->
    0 <= i < CAP /\ fo_view t !! i = None /\ (forall j, 0 <= j < i -> is_Some (fo_view t !! j)) /\ fo_view t' = <[i := v]> (fo_view t);
  fo_add_none t v : fo_add v t = None -> forall j, 0 <= j < CAP -> is_Some (fo_view t !! j);
  fo_add_at_some t i v : 0 <= i < CAP -> fo_view t !! i = None -> exists t', fo_add_at i v t = Some t' /\ fo_view t' = <[i := v]> (fo_view t);
  fo_add_at_none t i v : ~ (0 <= i < CAP) -> fo_add_at i v t = None;
  fo_remove_some t i v : fo_view t !! i = Some v -> exists t', fo_remove i t = Some (v, t') /\ fo_view t' = delete i (fo_view t);
  fo_remove_none t i : fo_view t !! i = None -> fo_remove i t = None;
  fo_set_view t i v : is_Some (fo_view t !! i) -> fo_view (fo_set i v t) = <[i := v]> (fo_view t);
}.

Definition AX_FILE_LIMIT : Z := 1024.
Definition O_NONBLOCK : Z := 2048.
Definition O_CLOEXEC : Z := 524288.
Definition O_WRONLY : Z := 1.
Definition O_RDWR : Z := 2.
Definition S_IFIFO : Z := 4096.
Definition OWNER_READ : Z := 256.
Definition OWNER_WRITE : Z := 128.
Definition FD_CLOEXEC : Z := 1.
Definition F_DUPFD : Z := 0.
Definition F_GETFD : Z := 1.
Definition F_SETFD : Z := 2.
Definition F_GETFL : Z := 3.
Definition F_SETFL : Z := 4.
Definition F_GETLK : Z := 5.
Definition F_OFD_GETLK : Z := 36.
Definition F_DUPFD_CLOEXEC : Z := 1030.
Definition F_SETPIPE_SZ : Z := 1031.
Definition F_GETPIPE_SZ : Z := 1032.
Definition CLOSE_RANGE_UNSHARE : Z := 2.
Definition CLOSE_RANGE_CLOEXEC : Z := 4.

Definition has (flags f : Z) : bool := negb (Z.land flags f =? 0).

(** [FileDescriptor], its file by number. *)
Record FileDescriptor : Type := mk_fd { inner : Z; cloexec : bool }.

(** What the calls below use of a [FileLike]: [O_NONBLOCK] ([None] if the type ignores it), the mode
    that [stat] returns, the pipe it is an end of, and the process that a pidfd is for ([None] once
    that is gone). *)
Record FileLike : Type := mk_file {
  f_nonblocking : option bool;
  f_stat : result VfsError Z;
  f_pipe : option Z;
  f_pidfd : option (option Z);
}.

Section tables.
Context {T : Type} `{FlattenObjects T FileDescriptor}.

(** ** One table *)

Definition get_file_like (fd : Z) (t : T) : result VfsError Z := ok_or (inner <$> fo_get (as_u64 fd) t) BadFileDescriptor.

Definition add_file_like (max_nofile f : Z) (ce : bool) (t : T) : result VfsError Z * T :=
  if max_nofile <=? fo_count t then (Err TooManyOpenFiles, t)
  else match fo_add (mk_fd f ce) t with
       | Some (fd, t') => (Ok fd, t')
       | None => (Err TooManyOpenFiles, t)
       end.

Definition close_file_like (fd : Z) (t : T) : result VfsError () * T :=
  match fo_remove (as_u64 fd) t with Some (_, t') => (Ok (), t') | None => (Err BadFileDescriptor, t) end.

Definition sys_close (fd : Z) (t : T) : result VfsError Z * T :=
  match close_file_like fd t with (Ok _, t') => (Ok 0, t') | (Err e, t') => (Err e, t') end.

Definition dup_fd (max_nofile old_fd : Z) (ce : bool) (t : T) : result VfsError Z * T :=
  match get_file_like old_fd t with
  | Ok f => add_file_like max_nofile f ce t
  | Err e => (Err e, t)
  end.

Definition sys_dup (max_nofile old_fd : Z) (t : T) : result VfsError Z * T := dup_fd max_nofile old_fd false t.

Definition sys_dup3 (old_fd new_fd flags : Z) (t : T) : result VfsError Z * T :=
  if negb (Z.land flags (Z.lnot O_CLOEXEC) =? 0) then (Err InvalidInput, t)
  else if old_fd =? new_fd then (Err InvalidInput, t)
  else match fo_get (as_u64 old_fd) t with
       | None => (Err BadFileDescriptor, t)
       | Some f =>
           let f := mk_fd (inner f) (has flags O_CLOEXEC) in
           let t := match fo_remove (as_u64 new_fd) t with Some (_, t') => t' | None => t end in
           match fo_add_at (as_u64 new_fd) f t with
           | Some t' => (Ok new_fd, t')
           | None => (Err BadFileDescriptor, t)
           end
       end.

Definition sys_dup2 (old_fd new_fd : Z) (t : T) : result VfsError Z * T :=
  if old_fd =? new_fd then
    match get_file_like new_fd t with Ok _ => (Ok new_fd, t) | Err e => (Err e, t) end
  else sys_dup3 old_fd new_fd 0 t.

(** One turn of the loop of [sys_close_range], and the loop. *)
Definition close_range_turn (ce : bool) (t : T) (fd : Z) : T :=
  if ce then
    match fo_get (as_u64 fd) t with Some f => fo_set (as_u64 fd) (mk_fd (inner f) true) t | None => t end
  else match fo_remove (as_u64 fd) t with Some (_, t') => t' | None => t end.

Definition close_range_loop (first last_ : Z) (ce : bool) (t : T) : T :=
  match last (fo_ids t) with
  | None => t
  | Some max_index =>
      let stop := Z.min last_ max_index in
      foldl (close_range_turn ce) t (seqZ first (stop - first + 1))
  end.

(** The descriptors that [sys_execve] closes. *)
Definition execve_close (t : T) : T :=
  let cloexec_fds := filter (fun fd => match fo_get fd t with Some f => cloexec f | None => false end = true) (fo_ids t) in
  foldl (fun t fd => match fo_remove fd t with Some (_, t') => t' | None => t end) t cloexec_fds.

(** ** Processes *)

(** The table of each process, the limits on open files, the open files and the pipes. *)
Record kernel : Type := mk_kernel {
  scopes : gmap Z Z;
  tables : gmap Z T;
  next_table : Z;
  nofile : gmap Z Z;
  files : gmap Z FileLike;
  pipes : gmap Z Shared;
}.

Definition set_tables (m : gmap Z T) (k : kernel) : kernel :=
  mk_kernel (scopes k) m (next_table k) (nofile k) (files k) (pipes k).
Definition set_files (m : gmap Z FileLike) (k : kernel) : kernel :=
  mk_kernel (scopes k) (tables k) (next_table k) (nofile k) m (pipes k).
Definition set_pipes (m : gmap Z Shared) (k : kernel) : kernel :=
  mk_kernel (scopes k) (tables k) (next_table k) (nofile k) (files k) m.

(** [FileLike::set_nonblocking] and [nonblocking]. *)
Definition set_nonblocking (b : bool) (f : FileLike) : FileLike :=
  mk_file (match f_nonblocking f with Some _ => Some b | None => None end) (f_stat f) (f_pipe f) (f_pidfd f).
Definition nonblocking (f : FileLike) : bool := default false (f_nonblocking f).

Definition limit (p : Z) (k : kernel) : Z := default AX_FILE_LIMIT (nofile k !! p).

(** What a call comes to. *)
Inductive fd_outcome : Type := Returns (r : result VfsError Z) (k : kernel) | Spins.

(** A call on the caller's table [i]. *)
Definition on_table (i : Z) (op : T -> result VfsError Z * T) (k : kernel) : fd_outcome :=
  match tables k !! i with
  | Some t => let '(r, t') := op t in Returns r (set_tables (<[i := t']> (tables k)) k)
  | None => Returns (Err BadFileDescriptor) k
  end.

(** [sys_close_range]: with [CLOSE_RANGE_UNSHARE] it asks for the write lock and then for the read
    lock of the old table. *)
Definition sys_close_range (i first last_ flags : Z) (k : kernel) : fd_outcome :=
  if (first <? 0) || (last_ <? first) then Returns (Err InvalidInput) k
  else if negb (Z.land flags (Z.lnot (Z.lor CLOSE_RANGE_UNSHARE CLOSE_RANGE_CLOEXEC)) =? 0) then Returns (Err InvalidInput) k
  else if has flags CLOSE_RANGE_UNSHARE then Spins
  else on_table i (fun t => (Ok 0, close_range_loop first last_ (has flags CLOSE_RANGE_CLOEXEC) t)) k.

(** The file of a descriptor of table [i]. *)
Definition file_of (i fd : Z) (k : kernel) : result VfsError (Z * FileLike) :=
  match tables k !! i with
  | Some t =>
      match get_file_like fd t with
      | Ok n => ok_or (pair n <$> files k !! n) BadFileDescriptor
      | Err e => Err e
      end
  | None => Err BadFileDescriptor
  end.

(** [sys_fcntl]; [ptr] says whether the argument points to a [flock64] that can be written. *)
Definition sys_fcntl (p i fd cmd arg : Z) (ptr : bool) (k : kernel) : fd_outcome :=
  if cmd =? F_DUPFD then on_table i (dup_fd (limit p k) fd false) k
  else if cmd =? F_DUPFD_CLOEXEC then on_table i (dup_fd (limit p k) fd true) k
  else if (cmd =? F_GETLK) || (cmd =? F_OFD_GETLK) then Returns (if ptr then Ok 0 else Err BadAddress) k
  else if cmd =? F_SETFL then
    match file_of i fd k with
    | Ok (n, f) => Returns (Ok 0) (set_files (<[n := set_nonblocking (has arg O_NONBLOCK) f]> (files k)) k)
    | Err e => Returns (Err e) k
    end
  else if cmd =? F_GETFL then
    match file_of i fd k with
    | Ok (_, f) =>
        match f_stat f with
        | Ok mode =>
            Returns (Ok (Z.lor (if nonblocking f then O_NONBLOCK else 0)
                           (if has mode OWNER_WRITE then if has mode OWNER_READ then O_RDWR else O_WRONLY else 0))) k
        | Err e => Returns (Err e) k
        end
    | Err e => Returns (Err e) k
    end
  else if cmd =? F_GETFD then
    on_table i (fun t => (match fo_get (as_u64 fd) t with
                          | Some f => Ok (if cloexec f then FD_CLOEXEC else 0)
                          | None => Err BadFileDescriptor end, t)) k
  else if cmd =? F_SETFD then
    on_table i (fun t => match fo_get (as_u64 fd) t with
                         | Some f => (Ok 0, fo_set (as_u64 fd) (mk_fd (inner f) (has arg FD_CLOEXEC)) t)
                         | None => (Err BadFileDescriptor, t) end) k
  else if (cmd =? F_GETPIPE_SZ) || (cmd =? F_SETPIPE_SZ) then
    match file_of i fd k with
    | Ok (_, f) =>
        match x ← f_pipe f; sh ← pipes k !! x; Some (x, sh) with
        | Some (x, sh) =>
            if cmd =? F_GETPIPE_SZ then Returns (Ok (capacity sh)) k
            else match resize arg sh with
                 | (Ok _, sh') => Returns (Ok 0) (set_pipes (<[x := sh']> (pipes k)) k)
                 | (Err e, sh') => Returns (Err e) (set_pipes (<[x := sh']> (pipes k)) k)
                 end
        | None => Returns (Err InvalidInput) k
        end
    | Err e => Returns (Err e) k
    end
  else Returns (Ok 0) k.

(** [sys_pipe2]: the files and the pipe it makes are [n], [n + 1] and [x]; [dst] says whether the two
    numbers can be written. *)
Definition sys_pipe2 (p i flags n x : Z) (dst : bool) (k : kernel) : fd_outcome :=
  match tables k !! i with
  | None => Returns (Err BadFileDescriptor) k
  | Some t =>
      let nb := has flags O_NONBLOCK in
      let ce := has flags O_CLOEXEC in
      let '(sh, _, _) := pipe_new in
      let pipe_end read := mk_file (Some nb) (Ok (Z.lor S_IFIFO (if read : bool then 292 else 146))) (Some x) None in
      let made := set_pipes (<[x := sh]> (pipes k)) (set_files (<[n := pipe_end true]> (<[n + 1 := pipe_end false]> (files k))) k) in
      match add_file_like (limit p k) n ce t with
      | (Err e, t) => Returns (Err e) (set_tables (<[i := t]> (tables k)) k)
      | (Ok read_fd, t) =>
          match add_file_like (limit p k) (n + 1) ce t with
          | (Err e, t) =>
              let '(_, t) := close_file_like read_fd t in
              Returns (Err e) (set_tables (<[i := t]> (tables k)) k)
          | (Ok _, t) => Returns (if dst then Ok 0 else Err BadAddress) (set_tables (<[i := t]> (tables made)) made)
          end
      end
  end.

(** [sys_pidfd_getfd]: it holds the read lock of the other process's table while it adds to its own. *)
Definition sys_pidfd_getfd (p i pidfd target_fd : Z) (k : kernel) : fd_outcome :=
  match file_of i pidfd k with
  | Err e => Returns (Err e) k
  | Ok (_, f) =>
      match f_pidfd f with
      | None => Returns (Err InvalidInput) k
      | Some None => Returns (Err NoSuchProcess) k
      | Some (Some q) =>
          match j ← scopes k !! q; t ← tables k !! j; Some (j, t) with
          | None => Returns (Err NoSuchProcess) k
          | Some (j, t) =>
              match fo_get (as_u64 target_fd) t with
              | None => Returns (Err BadFileDescriptor) k
              | Some f => if j =? i then Spins else on_table i (add_file_like (limit p k) (inner f) true) k
              end
          end
      end
  end.

(** The part of [sys_clone] for a new process [c]: it gets the caller's table or a copy. *)
Definition clone_files (i c : Z) (share : bool) (k : kernel) : fd_outcome :=
  if share then Returns (Ok c) (mk_kernel (<[c := i]> (scopes k)) (tables k) (next_table k) (nofile k) (files k) (pipes k))
  else match tables k !! i with
       | None => Returns (Err BadFileDescriptor) k
       | Some t =>
           let j := next_table k in
           Returns (Ok c) (mk_kernel (<[c := j]> (scopes k)) (<[j := t]> (tables k)) (j + 1) (nofile k) (files k) (pipes k))
       end.

(** ** Calls *)

(** The calls of a process: [FdOpen] is the end of every call that makes a file, [FdLimit] what
    [prlimit] does. *)
Inductive fd_op : Type :=
| FdOpen (n : Z) (f : FileLike) (ce : bool)
| FdClose (fd : Z)
| FdCloseRange (first last_ flags : Z)
| FdDup (fd : Z)
| FdDup2 (old_fd new_fd : Z)
| FdDup3 (old_fd new_fd flags : Z)
| FdFcntl (fd cmd arg : Z) (ptr : bool)
| FdPipe2 (flags n x : Z) (dst : bool)
| FdPidfdGetfd (pidfd target_fd : Z)
| FdExecve
| FdClone (c : Z) (share : bool)
| FdLimit (n : Z).

(** [None]: there is no such process, or the files and processes to be made are not new. *)
Definition fd_step (p : Z) (op : fd_op) (k : kernel) : option fd_outcome :=
  i ← scopes k !! p;
  match op with
  | FdOpen n f ce =>
      match files k !! n with
      | Some _ => None
      | None => Some (on_table i (add_file_like (limit p k) n ce) (set_files (<[n := f]> (files k)) k))
      end
  | FdClose fd => Some (on_table i (sys_close fd) k)
  | FdCloseRange a b flags => Some (sys_close_range i a b flags k)
  | FdDup fd => Some (on_table i (sys_dup (limit p k) fd) k)
  | FdDup2 a b => Some (on_table i (sys_dup2 a b) k)
  | FdDup3 a b flags => Some (on_table i (sys_dup3 a b flags) k)
  | FdFcntl fd cmd arg ptr => Some (sys_fcntl p i fd cmd arg ptr k)
  | FdPipe2 flags n x dst =>
      match files k !! n, files k !! (n + 1), pipes k !! x with
      | None, None, None => Some (sys_pipe2 p i flags n x dst k)
      | _, _, _ => None
      end
  | FdPidfdGetfd a b => Some (sys_pidfd_getfd p i a b k)
  | FdExecve => Some (on_table i (fun t => (Ok 0, execve_close t)) k)
  | FdClone c share => match scopes k !! c with Some _ => None | None => Some (clone_files i c share k) end
  | FdLimit n => Some (Returns (Ok 0) (mk_kernel (scopes k) (tables k) (next_table k) (<[p := n]> (nofile k)) (files k) (pipes k)))
  end.

(** A history of calls: the results, up to a call that spins. *)
Fixpoint fd_run (ops : list (Z * fd_op)) (k : kernel) : option (list (result VfsError Z) * kernel) :=
  match ops with
  | [] => Some ([], k)
  | (p, op) :: ops =>
      match fd_step p op k with
      | Some (Returns r k') => '(rs, k'') ← fd_run ops k'; Some (r :: rs, k'')
      | _ => None
      end
  end.

(** The first process, with three descriptors of [/dev/console]: [add_stdio]. *)
Definition add_stdio (tty_in tty_out : Z) (t : T) : result VfsError T :=
  match fo_add (mk_fd tty_in false) t with
  | Some (_, t) =>
      match fo_add (mk_fd tty_out false) t with
      | Some (_, t) => match fo_add (mk_fd tty_out false) t with Some (_, t) => Ok t | None => Err TooManyOpenFiles end
      | None => Err TooManyOpenFiles
      end
  | None => Err TooManyOpenFiles
  end.
End tables.
