(* ===== verification/FdSpec.v ===== *)
(** * File descriptors as POSIX describes them

    What the calls of [FdTable] do to the descriptors of a process, as operations on finite maps
    ([effective]), and what POSIX and, for the calls it does not have, Linux say they do ([posix]):
    a new descriptor is the lowest free number below the limit and not below the minimum, ranges
    are removed as a whole, [execve] keeps what is not marked.  The theorems say that the table
    with its loops and its lock does the first, which is the second but for the calls that
    [deviates] lists, that processes that share a table see the same and no others see anything,
    and which calls do not return. *)

From S2P Require Import Prelude PageCache Pipe FdTable.

Notation fds := (gmap Z FileDescriptor).

(** ** Operations on maps *)

Definition lowest (m : fds) : option Z := head (filter (fun i => m !! i = None) (seqZ 0 AX_FILE_LIMIT)).

Definition spec_add (max f : Z) (ce : bool) (m : fds) : result VfsError Z * fds :=
  match lowest m with
  | Some i => if Z.of_nat (size m) <? max then (Ok i, <[i := mk_fd f ce]> m) else (Err TooManyOpenFiles, m)
  | None => (Err TooManyOpenFiles, m)
  end.
Definition spec_close (fd : Z) (m : fds) : result VfsError Z * fds :=
  match m !! fd with Some _ => (Ok 0, delete fd m) | None => (Err BadFileDescriptor, m) end.
Definition spec_dup (max fd : Z) (ce : bool) (m : fds) : result VfsError Z * fds :=
  match m !! fd with Some f => spec_add max (inner f) ce m | None => (Err BadFileDescriptor, m) end.
Definition spec_dup3 (a b : Z) (ce : bool) (m : fds) : result VfsError Z * fds :=
  match m !! a with
  | Some f => if (0 <=? b) && (b <? AX_FILE_LIMIT) then (Ok b, <[b := mk_fd (inner f) ce]> m) else (Err BadFileDescriptor, m)
  | None => (Err BadFileDescriptor, m)
  end.
Definition spec_close_range (a b : Z) (ce : bool) (m : fds) : fds :=
  if ce then map_imap (fun i f => Some (if (a <=? i) && (i <=? b) then mk_fd (inner f) true else f)) m
  else filter (fun x => ~ (a <= x.1 <= b)) m.
Definition spec_execve (m : fds) : fds := filter (fun x => cloexec x.2 = false) m.
Definition spec_setfd (fd : Z) (ce : bool) (m : fds) : result VfsError Z * fds :=
  match m !! fd with Some f => (Ok 0, <[fd := mk_fd (inner f) ce]> m) | None => (Err BadFileDescriptor, m) end.
Definition spec_getfd (fd : Z) (m : fds) : result VfsError Z :=
  match m !! fd with Some f => Ok (if cloexec f then FD_CLOEXEC else 0) | None => Err BadFileDescriptor end.

(** [sys_pipe2] adds both ends or none. *)
Definition spec_pipe2 (max n : Z) (ce dst : bool) (m : fds) : result VfsError Z * fds :=
  match spec_add max n ce m with
  | (Err e, _) => (Err e, m)
  | (Ok _, m1) =>
      match spec_add max (n + 1) ce m1 with
      | (Err e, _) => (Err e, m)
      | (Ok _, m2) => (if dst then Ok 0 else Err BadAddress, m2)
      end
  end.

(** ** What POSIX says of them *)

(** The lowest free number from [lo] on and below the limit. *)
Definition lowest_from (lo max : Z) (m : fds) : option Z :=
  head (filter (fun i => m !! i = None) (seqZ lo (Z.min max AX_FILE_LIMIT - lo))).
Definition posix_add (lo max f : Z) (ce : bool) (m : fds) : result VfsError Z * fds :=
  match lowest_from lo max m with Some i => (Ok i, <[i := mk_fd f ce]> m) | None => (Err TooManyOpenFiles, m) end.
Definition posix_dup (lo max fd : Z) (ce : bool) (m : fds) : result VfsError Z * fds :=
  match m !! fd with Some f => posix_add lo max (inner f) ce m | None => (Err BadFileDescriptor, m) end.
Definition posix_dupfd (lo max fd : Z) (ce : bool) (m : fds) : result VfsError Z * fds :=
  if max <=? lo then (match m !! fd with Some _ => Err InvalidInput | None => Err BadFileDescriptor end, m)
  else posix_dup lo max fd ce m.
Definition posix_dup3 (max a b : Z) (ce : bool) (m : fds) : result VfsError Z * fds :=
  match m !! a with
  | Some f =>
      if (0 <=? b) && (b <? Z.min max AX_FILE_LIMIT) then (Ok b, <[b := mk_fd (inner f) ce]> m) else (Err BadFileDescriptor, m)
  | None => (Err BadFileDescriptor, m)
  end.
Definition posix_pipe2 (max n : Z) (ce dst : bool) (m : fds) : result VfsError Z * fds :=
  match posix_add 0 max n ce m with
  | (Err e, _) => (Err e, m)
  | (Ok _, m1) =>
      match posix_add 0 max (n + 1) ce m1 with
      | (Err e, _) => (Err e, m)
      | (Ok _, m2) => if dst then (Ok 0, m2) else (Err BadAddress, m)
      end
  end.


(** Descriptors are C [int]s. *)
Definition is_int (z : Z) : Prop := - 2 ^ 31 <= z < 2 ^ 31.

Section tables.
Context {T : Type} `{FL : FlattenLaws T FileDescriptor AX_FILE_LIMIT}.

Notation view := (fo_view (T := T) (V := FileDescriptor) (CAP := AX_FILE_LIMIT)).

(** ** One table *)

Lemma view_neg t i : i < 0 -> view t !! i = None.
Proof. intros Hi. destruct (view t !! i) eqn:E; [|done]. apply fo_view_range in E. lia. Qed.
Lemma view_big t i : AX_FILE_LIMIT <= i -> view t !! i = None.
Proof. intros Hi. destruct (view t !! i) eqn:E; [|done]. apply fo_view_range in E. lia. Qed.

(** A C [int] cast to [usize] names the same object, or none. *)
Lemma get_cast t fd : is_int fd -> fo_get (as_u64 fd) t = view t !! fd.
Proof.
  unfold is_int. intros Hfd. rewrite fo_get_view. destruct (decide (0 <= fd)) as [Hp|Hn].
  - unfold as_u64. by rewrite Z.mod_small by lia.
  - rewrite (view_neg t fd) by lia. apply view_big. unfold AX_FILE_LIMIT, as_u64.
    assert (fd mod 2 ^ 64 = fd + 2 ^ 64) as -> by (symmetry; apply (Z.mod_unique _ _ (-1)); lia). lia.
Qed.
Lemma cast_range fd : is_int fd -> (0 <= as_u64 fd < AX_FILE_LIMIT <-> 0 <= fd < AX_FILE_LIMIT) /\ (0 <= fd -> as_u64 fd = fd).
Proof.
  unfold is_int, AX_FILE_LIMIT, as_u64. intros Hfd. destruct (decide (0 <= fd)) as [Hp|Hn].
  - rewrite Z.mod_small by lia. lia.
  - assert (fd mod 2 ^ 64 = fd + 2 ^ 64) as -> by (symmetry; apply (Z.mod_unique _ _ (-1)); lia). lia.
Qed.

(** The table without the object, if there is one. *)
Definition without (i : Z) (t : T) : T := match fo_remove i t with Some (_, t') => t' | None => t end.
Lemma view_without i t : view (without i t) = delete i (view t).
Proof.
  unfold without. destruct (view t !! i) as [v|] eqn:Hv.
  - destruct (fo_remove_some _ _ _ Hv) as (t' & -> & Ht). done.
  - rewrite (fo_remove_none _ _ Hv). by rewrite delete_id.
Qed.
Lemma view_without_cast fd t : is_int fd -> view (without (as_u64 fd) t) = delete fd (view t).
Proof.
  intros Hfd. rewrite view_without. destruct (cast_range fd Hfd) as [_ Hc]. destruct (decide (0 <= fd)) as [Hp|Hn]; [by rewrite Hc|].
  rewrite !delete_id; [done|apply view_neg; lia|]. rewrite <-fo_get_view, get_cast by done. apply view_neg. lia.
Qed.

(** The lowest free number. *)
Lemma first_of_seqZ (P : Z -> Prop) `{forall i, Decision (P i)} (n : nat) : forall a i,
  a <= i < a + Z.of_nat n -> P i -> (forall j, a <= j < i -> ~ P j) -> head (filter P (seqZ a (Z.of_nat n))) = Some i.
Proof.
  induction n as [|n IH]; intros a i Hi HP Hj; [lia|]. rewrite seqZ_cons by lia. replace (Z.pred (Z.of_nat (Datatypes.S n))) with (Z.of_nat n) by lia.
  rewrite filter_cons. destruct (decide (P a)) as [Ha|Ha].
  - simpl. f_equal. destruct (decide (a = i)); [done|]. destruct (Hj a); [lia|done].
  - apply IH; [|done|intros j ?; apply Hj; lia]. destruct (decide (a = i)); [by subst|lia].
Qed.

Lemma lowest_some m i :
  0 <= i < AX_FILE_LIMIT -> m !! i = None -> (forall j, 0 <= j < i -> is_Some (m !! j)) -> lowest m = Some i.
Proof.
  intros Hi Hm Hj. unfold lowest. change AX_FILE_LIMIT with (Z.of_nat 1024). apply first_of_seqZ; [exact Hi|done|].
  intros j Hlt Hn. destruct (Hj j Hlt). congruence.
Qed.
Lemma lowest_none m : (forall j, 0 <= j < AX_FILE_LIMIT -> is_Some (m !! j)) -> lowest m = None.
Proof.
  intros Hj. unfold lowest. destruct (filter _ _) as [|x l] eqn:E; [done|].
  assert (Hx : x ∈ filter (fun i => m !! i = None) (seqZ 0 AX_FILE_LIMIT)) by (rewrite E; by left).
  apply list_elem_of_filter in Hx as [Hn Hx%elem_of_seqZ]. destruct (Hj x ltac:(lia)). congruence.
Qed.

(** An operation on tables does what one on maps does. *)
Definition refines (op : T -> result VfsError Z * T) (spec : fds -> result VfsError Z * fds) : Prop :=
  forall t, (op t).1 = (spec (view t)).1 /\ view (op t).2 = (spec (view t)).2.

Lemma add_refines max f ce : refines (add_file_like max f ce) (spec_add max f ce).
Proof.
  intros t. unfold add_file_like, spec_add. rewrite fo_count_view.
  destruct (fo_add (mk_fd f ce) t) as [[i t']|] eqn:Ha.
  - destruct (fo_add_some _ _ _ _ Ha) as (Hi & Hn & Hj & Hv). rewrite (lowest_some _ _ Hi Hn Hj).
    destruct (Z.leb_spec max (Z.of_nat (size (view t)))), (Z.ltb_spec (Z.of_nat (size (view t))) max); try lia; done.
  - rewrite lowest_none by exact (fo_add_none _ _ Ha). by destruct (_ <=? _).
Qed.

Lemma close_refines fd : is_int fd -> refines (sys_close fd) (spec_close fd).
Proof.
  intros Hfd t. pose proof (view_without_cast fd t Hfd) as Hw. unfold without in Hw. unfold sys_close, close_file_like, spec_close.
  destruct (view t !! fd) as [v|] eqn:Hv.
  - rewrite <-get_cast, fo_get_view in Hv by done. destruct (fo_remove_some _ _ _ Hv) as (t' & Hr & _). by rewrite Hr in Hw |- *.
  - rewrite <-get_cast, fo_get_view in Hv by done. by rewrite (fo_remove_none _ _ Hv).
Qed.

Lemma get_file_like_view fd t : is_int fd -> get_file_like fd t = ok_or (inner <$> view t !! fd) BadFileDescriptor.
Proof. intros Hfd. unfold get_file_like. by rewrite get_cast. Qed.

Lemma dup_refines max fd ce : is_int fd -> refines (dup_fd max fd ce) (spec_dup max fd ce).
Proof.
  intros Hfd t. unfold dup_fd, spec_dup. rewrite get_file_like_view by done. destruct (view t !! fd) as [f|]; simpl; [apply add_refines|done].
Qed.

Lemma dup3_refines a b flags :
  is_int a -> is_int b -> a <> b -> Z.land flags (Z.lnot O_CLOEXEC) = 0 ->
  refines (sys_dup3 a b flags) (spec_dup3 a b (has flags O_CLOEXEC)).
Proof.
  intros Ha Hb Hab Hfl t. unfold sys_dup3, spec_dup3. rewrite get_cast, Hfl, (proj2 (Z.eqb_neq a b) Hab) by done. simpl.
  destruct (view t !! a) as [f|]; [|done]. fold (without (as_u64 b) t). destruct (cast_range b Hb) as [Hr Hc].
  destruct (decide (0 <= b < AX_FILE_LIMIT)) as [Hin|Hout].
  - rewrite Hc by lia. destruct (fo_add_at_some (without b t) b (mk_fd (inner f) (has flags O_CLOEXEC))) as (t' & -> & Hv);
      [done|by rewrite view_without, lookup_delete_eq|].
    rewrite (proj2 (Z.leb_le 0 b)), (proj2 (Z.ltb_lt b AX_FILE_LIMIT)) by lia. simpl. split; [done|].
    by rewrite Hv, view_without, insert_delete_eq.
  - rewrite fo_add_at_none by (rewrite Hr; done). replace ((0 <=? b) && (b <? AX_FILE_LIMIT)) with false.
    + simpl. split; [done|]. rewrite view_without_cast by done. apply delete_id. destruct (view t !! b) eqn:E; [|done].
      apply fo_view_range in E. done.
    + symmetry. apply andb_false_iff. rewrite Z.leb_gt, Z.ltb_ge. lia.
Qed.

Lemma setfd_view fd ce t f :
  is_int fd -> view t !! fd = Some f -> view (fo_set (as_u64 fd) (mk_fd (inner f) ce) t) = <[fd := mk_fd (inner f) ce]> (view t).
Proof.
  intros Hfd Hf. pose proof (fo_view_range _ _ _ Hf). rewrite (proj2 (cast_range fd Hfd)) by lia. by apply fo_set_view.
Qed.

(** ** The loops *)

(** One turn of the loop of [close_range], on a lookup. *)
Lemma close_range_turn_view ce t fd i :
  0 <= fd < 2 ^ 31 ->
  view (close_range_turn ce t fd) !! i =
    if decide (i = fd) then if ce then (fun f => mk_fd (inner f) true) <$> view t !! i else None else view t !! i.
Proof.
  intros Hfd. assert (Hint : is_int fd) by (unfold is_int; lia). unfold close_range_turn. destruct ce.
  - rewrite get_cast by done. destruct (view t !! fd) as [f|] eqn:Hf.
    + rewrite setfd_view by done. case_decide as Hi; [subst; by rewrite lookup_insert_eq, Hf|by rewrite lookup_insert_ne].
    + case_decide as Hi; [subst; by rewrite Hf|done].
  - fold (without (as_u64 fd) t). rewrite view_without_cast by done.
    case_decide as Hi; [subst; by rewrite lookup_delete_eq|by rewrite lookup_delete_ne].
Qed.

Lemma close_range_turns_view ce l : forall t i,
  Forall (fun fd => 0 <= fd < 2 ^ 31) l ->
  view (foldl (close_range_turn ce) t l) !! i =
    if decide (i ∈ l) then if ce then (fun f => mk_fd (inner f) true) <$> view t !! i else None else view t !! i.
Proof.
  induction l as [|fd l IH]; intros t i Hl; simpl.
  - done.
  - apply Forall_cons in Hl as [Hfd Hl]. rewrite IH, close_range_turn_view by done.
    destruct (decide (i = fd)) as [->|Hne].
    + rewrite (decide_True (P := fd ∈ fd :: l)) by (by left). destruct ce; case_decide; try done. destruct (view t !! fd); done.
    + destruct (decide (i ∈ l)) as [Hin|Hin]; [rewrite decide_True by (by right); done|].
      rewrite decide_False; [done|]. intros [|]%elem_of_cons; done.
Qed.

(** The last number in use bounds the loop without changing what it does. *)
Lemma last_id t m i v : last (fo_ids t) = Some m -> view t !! i = Some v -> i <= m.
Proof.
  intros Hl Hv. assert (Hi : i ∈ fo_ids t) by (apply fo_ids_view; by exists v). apply list_elem_of_lookup in Hi as [n Hn].
  rewrite last_lookup in Hl. destruct (decide (n = Nat.pred (length (fo_ids t)))) as [->|Hne]; [rewrite Hn in Hl; injection Hl; lia|].
  apply lookup_lt_Some in Hn as Hlen. pose proof (fo_ids_sorted t n _ i m Hn Hl). lia.
Qed.

Lemma close_range_view a b ce t :
  0 <= a -> b < 2 ^ 31 -> view (close_range_loop a b ce t) = spec_close_range a b ce (view t).
Proof.
  intros Ha Hb. apply map_eq. intros i.
  assert (Hspec : spec_close_range a b ce (view t) !! i =
    if decide (a <= i <= b) then if ce then (fun f => mk_fd (inner f) true) <$> view t !! i else None else view t !! i).
  { unfold spec_close_range. destruct ce.
    - rewrite map_lookup_imap. destruct (view t !! i) as [f|]; simpl; [|by case_decide].
      destruct (decide _); destruct (Z.leb_spec a i), (Z.leb_spec i b); simpl; try lia; done.
    - rewrite map_lookup_filter. destruct (view t !! i) as [f|]; simpl; [|by case_decide].
      case_decide; simpl; [rewrite option_guard_False by (simpl; tauto)|rewrite option_guard_True by (simpl; tauto)]; done. }
  rewrite Hspec. unfold close_range_loop. destruct (last (fo_ids t)) as [m|] eqn:Hl.
  - rewrite close_range_turns_view by (apply Forall_forall; intros x Hx%elem_of_seqZ; lia).
    destruct (view t !! i) as [f|] eqn:Hi; [|repeat case_decide; by destruct ce].
    pose proof (last_id _ _ _ _ Hl Hi). destruct (decide (i ∈ _)) as [Hin|Hin]; rewrite elem_of_seqZ in Hin;
      [rewrite decide_True by lia|rewrite decide_False by lia]; done.
  - apply last_None in Hl. destruct (view t !! i) as [f|] eqn:Hi; [|repeat case_decide; by destruct ce].
    assert (Hin : i ∈ fo_ids t) by (apply fo_ids_view; eauto). rewrite Hl in Hin. by apply not_elem_of_nil in Hin.
Qed.

Lemma removes_view l : forall t i,
  view (foldl (fun t fd => without fd t) t l) !! i = if decide (i ∈ l) then None else view t !! i.
Proof.
  induction l as [|fd l IH]; intros t i; simpl; [done|].
  rewrite IH, view_without. destruct (decide (i ∈ l)) as [Hin|Hin]; [by rewrite decide_True by (by right)|].
  destruct (decide (i = fd)) as [->|Hne]; [rewrite lookup_delete_eq, decide_True by (by left); done|].
  rewrite lookup_delete_ne, decide_False by (done || (intros [|]%elem_of_cons; done)). done.
Qed.

Lemma execve_view t : view (execve_close t) = spec_execve (view t).
Proof.
  apply map_eq. intros i. unfold execve_close, spec_execve. rewrite (removes_view _ t i), map_lookup_filter.
  destruct (view t !! i) as [f|] eqn:Hi; simpl; [|by case_decide].
  destruct (decide (i ∈ _)) as [Hin|Hin]; rewrite list_elem_of_filter, fo_get_view, Hi in Hin.
  - by rewrite option_guard_False by (simpl; destruct Hin as [-> _]; done).
  - rewrite option_guard_True; [done|]. simpl. destruct (cloexec f); [|done]. destruct Hin. split; [done|]. apply fo_ids_view. eauto.
Qed.
(** ** Processes *)

Notation kern := (kernel (T := T)).

(** What a process sees, and who sees the same table. *)
Definition descriptors (k : kern) (p : Z) : option fds := i ← scopes k !! p; t ← tables k !! i; Some (view t).
Definition shares (k : kern) (p q : Z) : Prop := is_Some (scopes k !! p) /\ scopes k !! p = scopes k !! q.
#[local] Instance shares_dec k p q : Decision (shares k p q) := _.

(** What a call of process [p] returns and leaves of the descriptors [m] of [p]; the result of a call
    that asks for the state of a file is not said here. *)
Definition effective (k : kern) (p : Z) (op : fd_op) (m : fds) : option (result VfsError Z) * fds :=
  let says (x : result VfsError Z * fds) := (Some x.1, x.2) in
  match op with
  | FdOpen n f ce => says (spec_add (limit p k) n ce m)
  | FdClose fd => says (spec_close fd m)
  | FdCloseRange a b flags =>
      if (a <? 0) || (b <? a) || negb (Z.land flags (Z.lnot (Z.lor CLOSE_RANGE_UNSHARE CLOSE_RANGE_CLOEXEC)) =? 0)
      then says (Err InvalidInput, m)
      else says (Ok 0, spec_close_range a b (has flags CLOSE_RANGE_CLOEXEC) m)
  | FdDup fd => says (spec_dup (limit p k) fd false m)
  | FdDup2 a b => if a =? b then says (match m !! b with Some _ => Ok b | None => Err BadFileDescriptor end, m) else says (spec_dup3 a b false m)
  | FdDup3 a b flags =>
      if negb (Z.land flags (Z.lnot O_CLOEXEC) =? 0) || (a =? b) then says (Err InvalidInput, m)
      else says (spec_dup3 a b (has flags O_CLOEXEC) m)
  | FdFcntl fd cmd arg _ =>
      if cmd =? F_DUPFD then says (spec_dup (limit p k) fd false m)
      else if cmd =? F_DUPFD_CLOEXEC then says (spec_dup (limit p k) fd true m)
      else if cmd =? F_GETFD then says (spec_getfd fd m, m)
      else if cmd =? F_SETFD then says (spec_setfd fd (has arg FD_CLOEXEC) m)
      else (None, m)
  | FdPipe2 flags n x dst => says (spec_pipe2 (limit p k) n (has flags O_CLOEXEC) dst m)
  | FdPidfdGetfd pidfd fd =>
      match m !! pidfd with
      | None => says (Err BadFileDescriptor, m)
      | Some d =>
          match f ← files k !! inner d; f_pidfd f with
          | None => says (Err InvalidInput, m)
          | Some target =>
              match q ← target; descriptors k q with
              | None => says (Err NoSuchProcess, m)
              | Some m' => match m' !! fd with
                           | None => says (Err BadFileDescriptor, m)
                           | Some f => says (spec_add (limit p k) (inner f) true m)
                           end
              end
          end
      end
  | FdExecve => says (Ok 0, spec_execve m)
  | FdClone c _ => says (Ok c, m)
  | FdLimit _ => says (Ok 0, m)
  end.

(** What it is to return and to leave. *)
Definition posix (k : kern) (p : Z) (op : fd_op) (m : fds) : option (result VfsError Z) * fds :=
  let says (x : result VfsError Z * fds) := (Some x.1, x.2) in
  let max := limit p k in
  match op with
  | FdOpen n f ce => says (posix_add 0 max n ce m)
  | FdClose fd => says (spec_close fd m)
  | FdCloseRange a b flags =>
      if (as_u32 b <? as_u32 a) || negb (Z.land flags (Z.lnot (Z.lor CLOSE_RANGE_UNSHARE CLOSE_RANGE_CLOEXEC)) =? 0)
      then says (Err InvalidInput, m)
      else says (Ok 0, spec_close_range (as_u32 a) (as_u32 b) (has flags CLOSE_RANGE_CLOEXEC) m)
  | FdDup fd => says (posix_dup 0 max fd false m)
  | FdDup2 a b => if a =? b then says (match m !! b with Some _ => Ok b | None => Err BadFileDescriptor end, m) else says (posix_dup3 max a b false m)
  | FdDup3 a b flags =>
      if negb (Z.land flags (Z.lnot O_CLOEXEC) =? 0) || (a =? b) then says (Err InvalidInput, m)
      else says (posix_dup3 max a b (has flags O_CLOEXEC) m)
  | FdFcntl fd cmd arg _ =>
      if cmd =? F_DUPFD then says (posix_dupfd arg max fd false m)
      else if cmd =? F_DUPFD_CLOEXEC then says (posix_dupfd arg max fd true m)
      else if cmd =? F_GETFD then says (spec_getfd fd m, m)
      else if cmd =? F_SETFD then says (spec_setfd fd (has arg FD_CLOEXEC) m)
      else (None, m)
  | FdPipe2 flags n x dst => says (posix_pipe2 max n (has flags O_CLOEXEC) dst m)
  | FdPidfdGetfd pidfd fd =>
      match m !! pidfd with
      | None => says (Err BadFileDescriptor, m)
      | Some d =>
          match f ← files k !! inner d; f_pidfd f with
          | None => says (Err InvalidInput, m)
          | Some target =>
              match q ← target; descriptors k q with
              | None => says (Err NoSuchProcess, m)
              | Some m' => match m' !! fd with
                           | None => says (Err BadFileDescriptor, m)
                           | Some f => says (posix_add 0 max (inner f) true m)
                           end
              end
          end
      end
  | FdExecve => says (Ok 0, spec_execve m)
  | FdClone c _ => says (Ok c, m)
  | FdLimit _ => says (Ok 0, m)
  end.


(** Arguments of the C types. *)
Definition op_ok (op : fd_op) : Prop :=
  match op with
  | FdClose fd | FdDup fd | FdFcntl fd _ _ _ => is_int fd
  | FdCloseRange a b _ | FdDup2 a b | FdDup3 a b _ | FdPidfdGetfd a b => is_int a /\ is_int b
  | _ => True
  end.

(** Every process has a table, tables are numbered below the next one, descriptors refer to files. *)
Definition files_ok (F : gmap Z FileLike) (m : fds) : Prop := forall fd d, m !! fd = Some d -> is_Some (F !! inner d).
Record fds_wf (k : kern) : Prop := {
  wf_scopes p i : scopes k !! p = Some i -> is_Some (tables k !! i);
  wf_next i t : tables k !! i = Some t -> i < next_table k;
  wf_files i t : tables k !! i = Some t -> files_ok (files k) (view t);
}.

(** A call that leaves [m'] in the caller's table [i] and nothing else in the tables. *)
Record effect (i : Z) (k k' : kern) (m' : fds) : Prop := {
  e_scopes : scopes k' = scopes k;
  e_next : next_table k' = next_table k;
  e_tables : exists t', tables k' = <[i := t']> (tables k) /\ view t' = m';
  e_files n : is_Some (files k !! n) -> is_Some (files k' !! n);
}.

Lemma effect_on_table i t k op spec r k' :
  tables k !! i = Some t -> refines op spec -> on_table i op k = Returns r k' ->
  r = (spec (view t)).1 /\ effect i k k' (spec (view t)).2.
Proof.
  intros Ht Hop. unfold on_table. rewrite Ht. destruct (Hop t) as [<- <-]. destruct (op t) as [r0 t'].
  intros [= <- <-]. split; [done|]. split; [done|done| |done]. by exists t'.
Qed.

Lemma effect_same i t k k' :
  tables k !! i = Some t -> scopes k' = scopes k -> next_table k' = next_table k -> tables k' = tables k ->
  (forall n, is_Some (files k !! n) -> is_Some (files k' !! n)) -> effect i k k' (view t).
Proof. intros Ht Hs Hn Htb Hf. split; [done|done| |done]. exists t. by rewrite Htb, insert_id. Qed.
Lemma effect_files i F k k' m :
  effect i (set_files F k) k' m -> (forall n, is_Some (files k !! n) -> is_Some (F !! n)) -> effect i k k' m.
Proof. intros [Hs Hn Ht Hf] HF. split; [done|done|done|]. intros n Hin. apply Hf. simpl. by apply HF. Qed.

Lemma insert_is_Some {A} (F : gmap Z A) n f j : is_Some (F !! j) -> is_Some (<[n := f]> F !! j).
Proof. intros Hj. rewrite lookup_insert. case_decide; [by eexists|done]. Qed.

Lemma dup2_refines a b :
  is_int a -> is_int b ->
  refines (sys_dup2 a b)
    (fun m => if a =? b then (match m !! b with Some _ => Ok b | None => Err BadFileDescriptor end, m) else spec_dup3 a b false m).
Proof.
  intros Ha Hb t. unfold sys_dup2. destruct (Z.eqb_spec a b) as [->|Hne].
  - rewrite get_file_like_view by done. by destruct (view t !! b).
  - exact (dup3_refines a b 0 Ha Hb Hne eq_refl t).
Qed.

Lemma dup3_flags_refines a b flags :
  is_int a -> is_int b ->
  refines (sys_dup3 a b flags)
    (fun m => if negb (Z.land flags (Z.lnot O_CLOEXEC) =? 0) || (a =? b) then (Err InvalidInput, m) else spec_dup3 a b (has flags O_CLOEXEC) m).
Proof.
  intros Ha Hb t. destruct (Z.eqb_spec (Z.land flags (Z.lnot O_CLOEXEC)) 0) as [Hfl|Hfl].
  - destruct (Z.eqb_spec a b) as [->|Hne]; simpl; [|exact (dup3_refines a b flags Ha Hb Hne Hfl t)].
    unfold sys_dup3. rewrite Hfl, (Z.eqb_refl b). done.
  - unfold sys_dup3. by rewrite (proj2 (Z.eqb_neq _ _) Hfl).
Qed.

Lemma getfd_refines fd :
  is_int fd ->
  refines (fun t => (match fo_get (as_u64 fd) t with Some f => Ok (if cloexec f then FD_CLOEXEC else 0) | None => Err BadFileDescriptor end, t))
    (fun m => (spec_getfd fd m, m)).
Proof. intros Hfd t. simpl. by rewrite get_cast. Qed.

Lemma setfd_refines fd ce :
  is_int fd ->
  refines (fun t => match fo_get (as_u64 fd) t with
                    | Some f => (Ok 0, fo_set (as_u64 fd) (mk_fd (inner f) ce) t)
                    | None => (Err BadFileDescriptor, t) end) (spec_setfd fd ce).
Proof.
  intros Hfd t. unfold spec_setfd. simpl. rewrite get_cast by done. destruct (view t !! fd) as [f|] eqn:Hf; [|done]. simpl. split; [done|].
  by apply setfd_view.
Qed.

(** The file of a descriptor. *)
Lemma file_of_view k i t fd :
  fds_wf k -> is_int fd -> tables k !! i = Some t ->
  match file_of i fd k with
  | Ok (n, f) => exists d, view t !! fd = Some d /\ inner d = n /\ files k !! n = Some f
  | Err e => e = BadFileDescriptor /\ view t !! fd = None
  end.
Proof.
  intros Hwf Hfd Ht. unfold file_of. rewrite Ht, get_file_like_view by done. destruct (view t !! fd) as [d|] eqn:Hd; simpl; [|done].
  destruct (wf_files k Hwf i t Ht fd d Hd) as [f Hf]. rewrite Hf. simpl. by exists d.
Qed.

(** [sys_pipe2] *)
Lemma close_fresh t fd d m :
  view t = <[fd := d]> m -> m !! fd = None -> 0 <= fd < AX_FILE_LIMIT -> view (close_file_like fd t).2 = m.
Proof.
  intros Ht Hm Hfd. assert (Hint : is_int fd) by (unfold is_int, AX_FILE_LIMIT in *; lia).
  pose proof (view_without_cast fd t Hint) as Hw. unfold without in Hw. unfold close_file_like.
  destruct (fo_remove (as_u64 fd) t) as [[v t']|]; simpl; rewrite Hw, Ht, delete_insert_eq; by rewrite delete_id.
Qed.

Lemma spec_add_cases max f ce m :
  (exists i, lowest m = Some i /\ spec_add max f ce m = (Ok i, <[i := mk_fd f ce]> m)) \/ spec_add max f ce m = (Err TooManyOpenFiles, m).
Proof. unfold spec_add. destruct (lowest m) as [i|]; [|by right]. case_match; [left; by exists i|by right]. Qed.

Lemma lowest_free m i : lowest m = Some i -> 0 <= i < AX_FILE_LIMIT /\ m !! i = None.
Proof.
  unfold lowest. intros Hi. apply head_Some_elem_of in Hi. apply list_elem_of_filter in Hi as [Hn Hi%elem_of_seqZ]. lia || (split; [lia|done]).
Qed.

Lemma pipe2_effect p i t k flags n x dst r k' :
  tables k !! i = Some t -> sys_pipe2 p i flags n x dst k = Returns r k' ->
  let s := spec_pipe2 (limit p k) n (has flags O_CLOEXEC) dst (view t) in
  r = s.1 /\ effect i k k' s.2 /\ (s.2 = view t \/ is_Some (files k' !! n) /\ is_Some (files k' !! (n + 1))).
Proof.
  intros Ht. unfold sys_pipe2, spec_pipe2. rewrite Ht. simpl. set (ce := has flags O_CLOEXEC).
  destruct (add_refines (limit p k) n ce t) as [Hr1 Hv1]. destruct (add_file_like (limit p k) n ce t) as [r1 t1]. simpl in Hr1, Hv1.
  destruct (spec_add_cases (limit p k) n ce (view t)) as [(fd & Hlo & Hs1)|Hs1]; rewrite Hs1 in Hr1, Hv1 |- *; simpl in Hr1, Hv1; subst r1.
  - destruct (lowest_free _ _ Hlo) as [Hfd Hfree].
    destruct (add_refines (limit p k) (n + 1) ce t1) as [Hr2 Hv2]. destruct (add_file_like (limit p k) (n + 1) ce t1) as [r2 t2].
    rewrite Hv1 in Hr2, Hv2. simpl in Hr2, Hv2.
    destruct (spec_add_cases (limit p k) (n + 1) ce (<[fd := mk_fd n ce]> (view t))) as [(fd2 & _ & Hs2)|Hs2];
      rewrite Hs2 in Hr2, Hv2 |- *; simpl in Hr2, Hv2; subst r2.
    + intros [= <- <-]. simpl. split; [done|]. split.
      * split; [done|done|by exists t2|]. intros j Hj. simpl. by apply insert_is_Some, insert_is_Some.
      * right. split; [by rewrite lookup_insert_eq|apply insert_is_Some; by rewrite lookup_insert_eq].
    + pose proof (close_fresh t2 fd _ _ Hv2 Hfree Hfd) as Hc. destruct (close_file_like fd t2) as [r3 t3].
      intros [= <- <-]. simpl in Hc |- *. split; [done|]. split; [|by left]. split; [done|done|by exists t3|done].
  - intros [= <- <-]. simpl. split; [done|]. split; [|by left]. split; [done|done|by exists t1|done].
Qed.
(** What a call is to do to the caller's table. *)
Definition does (i : Z) (k k' : kern) (r : result VfsError Z) (s : option (result VfsError Z) * fds) : Prop :=
  (forall r0, s.1 = Some r0 -> r = r0) /\ effect i k k' s.2.

Lemma does_on_table i t k op spec r k' :
  tables k !! i = Some t -> refines op spec -> on_table i op k = Returns r k' ->
  does i k k' r (Some (spec (view t)).1, (spec (view t)).2).
Proof. intros Ht Hop Hr. destruct (effect_on_table _ _ _ _ _ _ _ Ht Hop Hr) as [-> He]. split; [|done]. by intros r0 [= <-]. Qed.

(** A call that leaves the tables as they are. *)
Lemma does_nothing i t k k' r s :
  tables k !! i = Some t -> s = None \/ s = Some r ->
  scopes k' = scopes k -> next_table k' = next_table k -> tables k' = tables k ->
  (forall n, is_Some (files k !! n) -> is_Some (files k' !! n)) -> does i k k' r (s, view t).
Proof. intros Ht Hs ? ? ? ?. split; [|by apply effect_same]. intros r0. destruct Hs as [-> | ->]; [done|]. by intros [= <-]. Qed.

Lemma fcntl_does p i t k fd cmd arg ptr r k' :
  fds_wf k -> is_int fd -> tables k !! i = Some t -> sys_fcntl p i fd cmd arg ptr k = Returns r k' ->
  does i k k' r (effective k p (FdFcntl fd cmd arg ptr) (view t)).
Proof.
  intros Hwf Hfd Ht. unfold sys_fcntl. cbn [effective].
  destruct (Z.eqb_spec cmd F_DUPFD) as [_|_]; [by apply does_on_table, dup_refines|].
  destruct (Z.eqb_spec cmd F_DUPFD_CLOEXEC) as [_|_]; [by apply does_on_table, dup_refines|].
  destruct (Z.eqb_spec cmd F_GETFD) as [->|_].
  { simpl. intros Hr. exact (does_on_table i t k _ _ r k' Ht (getfd_refines fd Hfd) Hr). }
  destruct (Z.eqb_spec cmd F_SETFD) as [->|_].
  { simpl. intros Hr. exact (does_on_table i t k _ _ r k' Ht (setfd_refines fd _ Hfd) Hr). }
  repeat case_match; intros [= <- <-]; apply does_nothing; try done; try (by left); intros j Hj; simpl; by apply insert_is_Some.
Qed.

Lemma pidfd_getfd_does p i t k a b r k' :
  fds_wf k -> is_int a -> is_int b -> tables k !! i = Some t -> sys_pidfd_getfd p i a b k = Returns r k' ->
  does i k k' r (effective k p (FdPidfdGetfd a b) (view t)).
Proof.
  intros Hwf Ha Hb Ht. pose proof (file_of_view k i t a Hwf Ha Ht) as Hf. unfold sys_pidfd_getfd. cbn [effective].
  assert (Hno : forall e s, s = Some (Err e) -> Returns (Err e) k = Returns r k' -> does i k k' r (s, view t)).
  { intros e s -> [= <- <-]. apply does_nothing; auto. }
  destruct (file_of i a k) as [[n f]|e].
  - destruct Hf as (d & -> & <- & ->). simpl. destruct (f_pidfd f) as [[q|]|]; simpl; [|by apply Hno|by apply Hno].
    unfold descriptors. destruct (scopes k !! q) as [j|]; simpl; [|by apply Hno].
    destruct (tables k !! j) as [t'|]; simpl; [|by apply Hno]. rewrite get_cast by done.
    destruct (view t' !! b) as [g|]; [|by apply Hno]. case_match; [done|]. by apply does_on_table, add_refines.
  - destruct Hf as [-> ->]. by apply Hno.
Qed.

Lemma close_range_does p i t k a b flags r k' :
  is_int a -> is_int b -> tables k !! i = Some t -> sys_close_range i a b flags k = Returns r k' ->
  does i k k' r (effective k p (FdCloseRange a b flags) (view t)).
Proof.
  intros Ha Hb Ht. unfold sys_close_range. cbn [effective].
  destruct ((a <? 0) || (b <? a)) eqn:Hg; [intros [= <- <-]; apply does_nothing; auto|].
  apply orb_false_iff in Hg as [Hg1 Hg2]. rewrite Z.ltb_ge in Hg1, Hg2. cbn [orb].
  destruct (negb _); [intros [= <- <-]; apply does_nothing; auto|]. destruct (has flags CLOSE_RANGE_UNSHARE); [done|].
  apply (does_on_table i t k _ (fun m => (Ok 0, spec_close_range a b (has flags CLOSE_RANGE_CLOEXEC) m))); [done|].
  intros t'. simpl. split; [done|]. apply close_range_view; [done|unfold is_int in Hb; lia].
Qed.

Definition is_clone (op : fd_op) : bool := match op with FdClone _ _ => true | _ => false end.

Lemma step_does p op k i t r k' :
  fds_wf k -> op_ok op -> scopes k !! p = Some i -> tables k !! i = Some t -> is_clone op = false ->
  fd_step p op k = Some (Returns r k') -> does i k k' r (effective k p op (view t)).
Proof.
  intros Hwf Hok Hp Ht Hc. unfold fd_step. rewrite Hp. destruct op; simpl in Hok, Hc |- *; try done.
  - case_match; [done|]. intros [= Hr]. destruct (does_on_table i t (set_files (<[n := f]> (files k)) k) _ _ r k' Ht (add_refines _ n ce) Hr) as [Hr' He].
    split; [exact Hr'|]. apply effect_files in He; [exact He|]. intros j. by apply insert_is_Some.
  - intros [= Hr]. exact (does_on_table i t k _ _ r k' Ht (close_refines fd Hok) Hr).
  - intros [= Hr]. destruct Hok. by apply (close_range_does p i t k first last_ flags).
  - intros [= Hr]. exact (does_on_table i t k _ _ r k' Ht (dup_refines _ fd false Hok) Hr).
  - intros [= Hr]. pose proof (does_on_table i t k _ _ r k' Ht (dup2_refines old_fd new_fd (proj1 Hok) (proj2 Hok)) Hr) as Hd. by case_match.
  - intros [= Hr]. pose proof (does_on_table i t k _ _ r k' Ht (dup3_flags_refines old_fd new_fd flags (proj1 Hok) (proj2 Hok)) Hr) as Hd.
    by case_match.
  - intros [= Hr]. by apply (fcntl_does p i t k fd cmd arg ptr).
  - repeat (case_match; [done|]). intros [= Hr]. destruct (pipe2_effect p i t k flags n x dst r k' Ht Hr) as (-> & He & _).
    split; [by intros r0 [= <-]|done].
  - intros [= Hr]. destruct Hok. by apply (pidfd_getfd_does p i t k pidfd target_fd).
  - intros [= Hr]. apply (does_on_table i t k (fun t => (Ok 0, execve_close t)) (fun m => (Ok 0, spec_execve m)) r k' Ht); [|done]. intros t'. split; [done|]. apply execve_view.
  - intros [= <- <-]. apply does_nothing; auto.
Qed.
(** ** Descriptors refer to files *)

Lemma files_ok_insert F m fd d : files_ok F m -> is_Some (F !! inner d) -> files_ok F (<[fd := d]> m).
Proof. intros Hm Hd fd' d'. rewrite lookup_insert. case_decide; [by intros [= <-]|apply Hm]. Qed.
Lemma files_ok_add F max f ce m : files_ok F m -> is_Some (F !! f) -> files_ok F (spec_add max f ce m).2.
Proof. intros Hm Hf. destruct (spec_add_cases max f ce m) as [(i & _ & ->)| ->]; [by apply files_ok_insert|done]. Qed.
Lemma files_ok_close F fd m : files_ok F m -> files_ok F (spec_close fd m).2.
Proof. intros Hm. unfold spec_close. case_match; [|done]. simpl. intros i d [_ Hi]%lookup_delete_Some. by apply (Hm i). Qed.
Lemma files_ok_dup F max fd ce m : files_ok F m -> files_ok F (spec_dup max fd ce m).2.
Proof. intros Hm. unfold spec_dup. destruct (m !! fd) as [f|] eqn:Hf; [|done]. apply files_ok_add; [done|]. by apply (Hm fd). Qed.
Lemma files_ok_dup3 F a b ce m : files_ok F m -> files_ok F (spec_dup3 a b ce m).2.
Proof.
  intros Hm. unfold spec_dup3. destruct (m !! a) as [f|] eqn:Hf; [|done]. case_match; [|done]. simpl. apply files_ok_insert; [done|]. exact (Hm a f Hf).
Qed.
Lemma files_ok_setfd F fd ce m : files_ok F m -> files_ok F (spec_setfd fd ce m).2.
Proof. intros Hm. unfold spec_setfd. destruct (m !! fd) as [f|] eqn:Hf; [|done]. apply files_ok_insert; [done|]. exact (Hm fd f Hf). Qed.
Lemma files_ok_close_range F a b ce m : files_ok F m -> files_ok F (spec_close_range a b ce m).
Proof.
  intros Hm fd d. unfold spec_close_range. destruct ce.
  - rewrite map_lookup_imap. destruct (m !! fd) as [f|] eqn:Hf; [|done]. simpl. intros [= <-]. specialize (Hm fd f Hf). by case_match.
  - intros [Hf _]%map_lookup_filter_Some. by apply (Hm fd).
Qed.
Lemma files_ok_execve F m : files_ok F m -> files_ok F (spec_execve m).
Proof. intros Hm fd d. unfold spec_execve. intros [Hf _]%map_lookup_filter_Some. by apply (Hm fd). Qed.
Lemma files_ok_pipe2 F max n ce dst m :
  files_ok F m -> is_Some (F !! n) -> is_Some (F !! (n + 1)) -> files_ok F (spec_pipe2 max n ce dst m).2.
Proof.
  intros Hm Hn Hn1. unfold spec_pipe2. pose proof (files_ok_add F max n ce m Hm Hn) as H1.
  destruct (spec_add max n ce m) as [[] m1]; [|done]. pose proof (files_ok_add F max (n + 1) ce m1 H1 Hn1) as H2.
  by destruct (spec_add max (n + 1) ce m1) as [[] m2].
Qed.
Lemma files_ok_mono (F F' : gmap Z FileLike) m : (forall n, is_Some (F !! n) -> is_Some (F' !! n)) -> files_ok F m -> files_ok F' m.
Proof. intros HF Hm fd d Hd. apply HF. by apply (Hm fd). Qed.

Lemma step_files p op k i t r k' :
  fds_wf k -> op_ok op -> scopes k !! p = Some i -> tables k !! i = Some t -> is_clone op = false ->
  fd_step p op k = Some (Returns r k') -> files_ok (files k') (effective k p op (view t)).2.
Proof.
  intros Hwf Hok Hp Ht Hc Hs. destruct (step_does p op k i t r k' Hwf Hok Hp Ht Hc Hs) as [_ He].
  assert (Hm : files_ok (files k') (view t)) by (eapply files_ok_mono; [apply He|by eapply wf_files]).
  unfold fd_step in Hs. rewrite Hp in Hs. destruct op; simpl in Hs, Hc, Hok |- *; try done.
  - apply files_ok_add; [done|]. case_match; [done|]. injection Hs as Hs. unfold on_table in Hs. simpl in Hs. rewrite Ht in Hs.
    destruct (add_file_like _ _ _ t). injection Hs as _ <-. simpl. by rewrite lookup_insert_eq.
  - by apply files_ok_close.
  - case_match; [done|]. by apply files_ok_close_range.
  - by apply files_ok_dup.
  - case_match; [done|]. by apply files_ok_dup3.
  - case_match; [done|]. by apply files_ok_dup3.
  - repeat case_match; simpl; try done; try (by apply files_ok_dup); by apply files_ok_setfd.
  - repeat (case_match; [done|]). injection Hs as Hs.
    destruct (pipe2_effect p i t k flags n x dst r k' Ht Hs) as (_ & _ & [->|[Hn Hn1]]); [done|]. by apply files_ok_pipe2.
  - destruct (view t !! pidfd) as [d|]; [|done]. destruct (files k !! inner d) as [f|]; simpl; [|done].
    destruct (f_pidfd f) as [target|]; [|done]. destruct target as [q|]; simpl; [|done].
    destruct (descriptors k q) as [m'|] eqn:Hq; [|done]. destruct (m' !! target_fd) as [g|] eqn:Hg; [|done]. apply files_ok_add; [done|].
    apply He. unfold descriptors in Hq. destruct (scopes k !! q) as [j|]; [|done]. simpl in Hq. destruct (tables k !! j) as [t'|] eqn:Hj; [|done].
    injection Hq as <-. exact (wf_files k Hwf j t' Hj _ _ Hg).
  - by apply files_ok_execve.
Qed.

(** ** Histories *)

Lemma step_clone p c share k i t r k' :
  fds_wf k -> scopes k !! p = Some i -> tables k !! i = Some t -> fd_step p (FdClone c share) k = Some (Returns r k') ->
  r = Ok c /\ scopes k !! c = None /\ files k' = files k /\
  exists j, scopes k' = <[c := j]> (scopes k) /\ tables k' = <[j := t]> (tables k) /\
            (if share then j = i /\ next_table k' = next_table k else j = next_table k /\ next_table k' = j + 1).
Proof.
  intros Hwf Hp Ht. unfold fd_step. rewrite Hp. simpl. case_match eqn:Hc; [done|]. unfold clone_files. rewrite Ht. destruct share; intros [= <- <-].
  - do 3 (split; [done|]). exists i. simpl. by rewrite (insert_id (tables k) i t Ht).
  - do 3 (split; [done|]). exists (next_table k). done.
Qed.

Lemma step_wf p op k r k' : fds_wf k -> op_ok op -> fd_step p op k = Some (Returns r k') -> fds_wf k'.
Proof.
  intros Hwf Hok Hs. destruct (scopes k !! p) as [i|] eqn:Hp; [|unfold fd_step in Hs; by rewrite Hp in Hs].
  destruct (wf_scopes k Hwf p i Hp) as [t Ht]. destruct (is_clone op) eqn:Hc.
  - destruct op; try done. destruct (step_clone p c share k i t r k' Hwf Hp Ht Hs) as (-> & Hn & Hf & j & Hsc & Htb & Hj).
    split; rewrite ?Hsc, ?Htb, ?Hf.
    + intros q x. rewrite lookup_insert. case_decide; [intros [= <-]; by rewrite lookup_insert_eq|]. intros Hq.
      destruct (wf_scopes k Hwf q x Hq) as [tx Hx]. rewrite lookup_insert. case_decide; [by eexists|by exists tx].
    + intros x tx. rewrite lookup_insert. pose proof (wf_next k Hwf i t Ht).
      case_decide; [intros _|intros Hx%(wf_next k Hwf)]; destruct share; destruct Hj as [? ->]; lia.
    + intros x tx. rewrite lookup_insert. case_decide; [intros [= <-]; exact (wf_files k Hwf i t Ht)|exact (wf_files k Hwf x tx)].
  - pose proof (step_files p op k i t r k' Hwf Hok Hp Ht Hc Hs) as Hf.
    destruct (step_does p op k i t r k' Hwf Hok Hp Ht Hc Hs) as [_ [Hsc Hn (t' & Htb & Hv) Hfi]]. split; rewrite ?Hsc, ?Htb, ?Hn.
    + intros q x Hq. destruct (wf_scopes k Hwf q x Hq) as [tx Hx]. rewrite lookup_insert. case_decide; [by eexists|by exists tx].
    + intros x tx. rewrite lookup_insert. case_decide; [subst; intros _; exact (wf_next k Hwf x t Ht)|apply (wf_next k Hwf)].
    + intros x tx. rewrite lookup_insert. case_decide; [intros [= <-]; by rewrite Hv|]. intros Hx. eapply files_ok_mono; [exact Hfi|by eapply wf_files].
Qed.

Lemma run_wf ops : forall k rs k', fds_wf k -> Forall (fun x => op_ok x.2) ops -> fd_run ops k = Some (rs, k') -> fds_wf k'.
Proof.
  induction ops as [|[p op] ops IH]; intros k rs k' Hwf Hok; simpl; [by intros [= _ <-]|]. apply Forall_cons in Hok as [Ho Hok].
  destruct (fd_step p op k) as [[r k1|]|] eqn:Hs; [|done..]. destruct (fd_run ops k1) as [[rs1 k2]|] eqn:Hr; [|done]. intros [= _ <-].
  eapply IH; [|done|exact Hr]. by eapply step_wf.
Qed.
(** The kernel with its first process. *)
Definition fd_boot (tty_in tty_out : Z) (fin fout : FileLike) (t : T) : kern :=
  mk_kernel {[1 := 0]} {[0 := t]} 1 ∅ (<[tty_in := fin]> {[tty_out := fout]}) ∅.

Lemma boot_wf a b fa fb t : add_stdio a b fo_new = Ok t -> fds_wf (fd_boot a b fa fb t).
Proof.
  unfold add_stdio. destruct (fo_add (mk_fd a false) fo_new) as [[i1 t1]|] eqn:H1; [|done].
  destruct (fo_add (mk_fd b false) t1) as [[i2 t2]|] eqn:H2; [|done]. destruct (fo_add (mk_fd b false) t2) as [[i3 t3]|] eqn:H3; [|done].
  intros [= <-]. apply fo_add_some in H1 as (_ & _ & _ & H1). apply fo_add_some in H2 as (_ & _ & _ & H2). apply fo_add_some in H3 as (_ & _ & _ & H3).
  split; simpl.
  - intros p i [_ <-]%lookup_singleton_Some. by rewrite lookup_singleton_eq.
  - intros i t [<- _]%lookup_singleton_Some. lia.
  - intros i t [_ <-]%lookup_singleton_Some. rewrite H3, H2, H1, fo_view_new.
    assert (Hb : is_Some ((<[a := fa]> {[b := fb]} : gmap Z FileLike) !! b)) by (apply insert_is_Some; by rewrite lookup_singleton_eq).
    repeat apply files_ok_insert; simpl; [intros fd d; by rewrite lookup_empty|by rewrite lookup_insert_eq|done|done].
Qed.


Lemma descriptors_table k p m : descriptors k p = Some m -> exists i t, scopes k !! p = Some i /\ tables k !! i = Some t /\ view t = m.
Proof.
  unfold descriptors. destruct (scopes k !! p) as [i|]; [|done]. simpl. destruct (tables k !! i) as [t|] eqn:Ht; [|done]. simpl.
  intros [= <-]. by exists i, t.
Qed.




(** ** Where the code follows POSIX *)

Lemma lowest_from_lowest max m : lowest_from 0 max m = (i ← lowest m; if i <? max then Some i else None).
Proof.
  unfold lowest_from, lowest. set (P := fun i => m !! i = None). set (a := Z.max 0 (Z.min max AX_FILE_LIMIT)).
  replace (seqZ 0 (Z.min max AX_FILE_LIMIT - 0)) with (seqZ 0 a).
  2:{ unfold a. destruct (decide (0 <= Z.min max AX_FILE_LIMIT)); [f_equal; lia|].
      rewrite Z.max_l, !seqZ_nil by lia. done. }
  replace AX_FILE_LIMIT with (a + (AX_FILE_LIMIT - a)) by lia. rewrite seqZ_app, filter_app by (unfold a, AX_FILE_LIMIT; lia).
  destruct (filter P (seqZ 0 a)) as [|i l] eqn:Hl; simpl.
  - destruct (filter P (seqZ (0 + a) (AX_FILE_LIMIT - a))) as [|i l'] eqn:Hl'; [done|]. simpl. destruct (Z.ltb_spec i max); [|done].
    assert (Hi : i ∈ filter P (seqZ (0 + a) (AX_FILE_LIMIT - a))) by (rewrite Hl'; by left).
    apply list_elem_of_filter in Hi as [_ Hi%elem_of_seqZ]. unfold a in Hi. lia.
  - assert (Hi : i ∈ filter P (seqZ 0 a)) by (rewrite Hl; by left). apply list_elem_of_filter in Hi as [_ Hi%elem_of_seqZ].
    destruct (Z.ltb_spec i max); [done|]. unfold a in Hi. lia.
Qed.

Lemma lowest_below m i : lowest m = Some i -> forall j, 0 <= j < i -> is_Some (m !! j).
Proof.
  intros Hi j Hj. destruct (m !! j) eqn:Hm; [done|]. exfalso.
  pose proof (lowest_from_lowest (j + 1) m) as Hlo. rewrite Hi in Hlo. simpl in Hlo.
  rewrite (proj2 (Z.ltb_ge _ _)) in Hlo by lia. unfold lowest_from in Hlo. apply head_None in Hlo.
  assert (Hin : j ∈ filter (fun i => m !! i = None) (seqZ 0 (Z.min (j + 1) AX_FILE_LIMIT - 0))).
  { apply list_elem_of_filter. split; [done|]. apply elem_of_seqZ. apply lowest_free in Hi as [? _]. lia. }
  rewrite Hlo in Hin. by apply not_elem_of_nil in Hin.
Qed.





(** Calls that return. *)
Lemma fcntl_returns p i t k fd cmd arg ptr : tables k !! i = Some t -> sys_fcntl p i fd cmd arg ptr k <> Spins.
Proof.
  intros Ht. assert (Hon : forall o, on_table i o k <> Spins) by (intros o; unfold on_table; rewrite Ht; by destruct (o t)).
  unfold sys_fcntl. repeat (case_match; try apply Hon; try done).
Qed.
Lemma pipe2_returns p i flags n x dst k : sys_pipe2 p i flags n x dst k <> Spins.
Proof. unfold sys_pipe2. repeat (case_match; try done). Qed.

Lemma close_range_spins i t k a b flags :
  tables k !! i = Some t ->
  sys_close_range i a b flags k = Spins <->
  0 <= a <= b /\ Z.land flags (Z.lnot (Z.lor CLOSE_RANGE_UNSHARE CLOSE_RANGE_CLOEXEC)) = 0 /\ has flags CLOSE_RANGE_UNSHARE = true.
Proof.
  intros Ht. unfold sys_close_range. set (mask := Z.land flags (Z.lnot _)).
  destruct (Z.ltb_spec a 0), (Z.ltb_spec b a); simpl; try (split; [done|lia]).
  destruct (Z.eqb_spec mask 0); simpl; [|split; [done|tauto]]. destruct (has flags CLOSE_RANGE_UNSHARE); [split; [|done]; lia|].
  unfold on_table. rewrite Ht. split; [done|]. by intros (_ & _ & ?).
Qed.

Lemma pidfd_getfd_spins p i t k a b :
  fds_wf k -> is_int a -> is_int b -> scopes k !! p = Some i -> tables k !! i = Some t ->
  sys_pidfd_getfd p i a b k = Spins <->
  exists d f q, view t !! a = Some d /\ files k !! inner d = Some f /\ f_pidfd f = Some (Some q) /\ shares k p q /\ is_Some (view t !! b).
Proof.
  intros Hwf Ha Hb Hp Ht. pose proof (file_of_view k i t a Hwf Ha Ht) as Hf. unfold sys_pidfd_getfd, shares. rewrite Hp.
  destruct (file_of i a k) as [[n f]|e]; [|destruct Hf as [-> ->]; split; [done|by intros (? & ? & ? & ? & _)]].
  destruct Hf as (d & Hd & <- & Hf). split.
  - destruct (f_pidfd f) as [[q|]|] eqn:Hq; [|done..]. destruct (scopes k !! q) as [j|] eqn:Hj; simpl; [|done].
    destruct (tables k !! j) as [t'|] eqn:Ht'; [|done]. simpl. rewrite get_cast by done. destruct (view t' !! b) as [g|] eqn:Hg; [|done].
    destruct (Z.eqb_spec j i) as [->|]; [|unfold on_table; rewrite Ht; by destruct (add_file_like _ _ _ t)]. intros _.
    rewrite Ht in Ht'. injection Ht' as <-. exists d, f, q. rewrite Hj, Hg. done.
  - intros (d' & f' & q & Hd' & Hf' & Hq & [_ Hs] & [g Hg]). simplify_eq. rewrite Hq, <-Hs. simpl. rewrite Ht. simpl.
    rewrite get_cast, Hg, Z.eqb_refl by done. done.
Qed.

(** The calls that do not return, after any history: [close_range] that is asked to unshare the
    table, and [pidfd_getfd] from a process that shares it. *)
Theorem descriptor_calls_that_hang tty_in tty_out fin fout t0 ops rs k p op m :
  add_stdio tty_in tty_out fo_new = Ok t0 ->
  Forall (fun x => op_ok x.2) ops -> fd_run ops (fd_boot tty_in tty_out fin fout t0) = Some (rs, k) ->
  op_ok op -> descriptors k p = Some m ->
  fd_step p op k = Some Spins <->
  match op with
  | FdCloseRange a b flags =>
      0 <= a <= b /\ Z.land flags (Z.lnot (Z.lor CLOSE_RANGE_UNSHARE CLOSE_RANGE_CLOEXEC)) = 0 /\ has flags CLOSE_RANGE_UNSHARE = true
  | FdPidfdGetfd pidfd fd =>
      exists d f q, m !! pidfd = Some d /\ files k !! inner d = Some f /\ f_pidfd f = Some (Some q) /\ shares k p q /\ is_Some (m !! fd)
  | _ => False
  end.
Proof.
  intros Hb Hops Hr Hok Hm. assert (Hwf : fds_wf k) by (eapply run_wf; [|exact Hops|exact Hr]; by apply boot_wf).
  destruct (descriptors_table _ _ _ Hm) as (i & t & Hp & Ht & <-). unfold fd_step. rewrite Hp.
  assert (Hon : forall o k1, tables k1 !! i = Some t -> on_table i o k1 <> Spins).
  { intros o k1 Ht1. unfold on_table. rewrite Ht1. by destruct (o t). }
  destruct op; simpl in Hok |- *; try (split; [|done]); try (intros [= Hx]; by apply Hon in Hx).
  - case_match; [done|]. intros [= Hx]. by apply Hon in Hx.
  - rewrite <-(close_range_spins i t k) by done. split; [by intros [= Hx]|by intros ->].
  - intros [= Hx]. by apply fcntl_returns with (t := t) in Hx.
  - repeat (case_match; try done). intros [= Hx]. by apply pipe2_returns in Hx.
  - destruct Hok as [Ha Hb']. rewrite <-(pidfd_getfd_spins p i t k) by done. split; [by intros [= Hx]|by intros ->].
  - case_match; [done|]. unfold clone_files. rewrite Ht. by destruct share.
Qed.
End tables.

(** ** A table *)

(** Maps of which only the numbers below the limit count: a model of the laws. *)
Definition clip (m : fds) : fds := filter (fun x => 0 <= x.1 < AX_FILE_LIMIT) m.

#[local] Instance map_objects : FlattenObjects fds FileDescriptor := {
  fo_new := ∅;
  fo_get := fun i m => clip m !! i;
  fo_count := fun m => Z.of_nat (size (clip m));
  fo_ids := fun m => filter (fun i => is_Some (clip m !! i)) (seqZ 0 AX_FILE_LIMIT);
  fo_add := fun v m => match lowest (clip m) with Some i => Some (i, <[i := v]> m) | None => None end;
  fo_add_at := fun i v m => if decide (0 <= i < AX_FILE_LIMIT /\ clip m !! i = None) then Some (<[i := v]> m) else None;
  fo_remove := fun i m => match clip m !! i with Some v => Some (v, delete i m) | None => None end;
  fo_set := fun i v m => if decide (is_Some (clip m !! i)) then <[i := v]> m else m;
}.

Lemma clip_insert i v m : 0 <= i < AX_FILE_LIMIT -> clip (<[i := v]> m) = <[i := v]> (clip m).
Proof. intros Hi. unfold clip. by rewrite map_filter_insert_True. Qed.

Lemma seqZ_filter_sorted (P : Z -> Prop) `{forall i, Decision (P i)} (n : nat) : forall a (i j : nat) x y,
  filter P (seqZ a (Z.of_nat n)) !! i = Some x -> filter P (seqZ a (Z.of_nat n)) !! j = Some y -> (i < j)%nat -> x < y.
Proof.
  induction n as [|n IH]; intros a i j x y; [done|]. rewrite seqZ_cons by lia. replace (Z.pred (Z.of_nat (Datatypes.S n))) with (Z.of_nat n) by lia.
  rewrite filter_cons. case_decide; [|apply IH]. destruct i as [|i], j as [|j]; simpl; try lia.
  - intros [= <-] Hj _. apply list_elem_of_lookup_2, list_elem_of_filter in Hj as [_ Hj%elem_of_seqZ]. lia.
  - intros Hi Hj Hij. apply (IH _ i j x y Hi Hj). lia.
Qed.

#[local] Instance map_laws : FlattenLaws fds FileDescriptor AX_FILE_LIMIT.
Proof.
  refine (Build_FlattenLaws _ _ _ _ clip _ _ _ _ _ _ _ _ _ _ _ _ _); simpl.
  - done.
  - intros m i v. unfold clip. by intros [_ Hi]%map_lookup_filter_Some.
  - done.
  - done.
  - intros m i. rewrite list_elem_of_filter, elem_of_seqZ. split; [tauto|]. intros [v Hv]. split; [by exists v|].
    unfold clip in Hv. apply map_lookup_filter_Some in Hv as [_ Hi]. simpl in Hi. lia.
  - intros m i j x y. change AX_FILE_LIMIT with (Z.of_nat 1024). apply seqZ_filter_sorted.
  - intros m v i m'. destruct (lowest (clip m)) as [i0|] eqn:Hl; [|done]. intros [= <- <-]. destruct (lowest_free _ _ Hl) as [Hi Hn].
    split; [done|]. split; [done|]. split; [by apply lowest_below|by apply clip_insert].
  - intros m v. destruct (lowest (clip m)) eqn:Hl; [done|]. intros _ j Hj. destruct (clip m !! j) eqn:Hm; [done|]. unfold lowest in Hl.
    apply head_None in Hl. assert (Hin : j ∈ filter (fun i => clip m !! i = None) (seqZ 0 AX_FILE_LIMIT)).
    { apply list_elem_of_filter. split; [done|]. apply elem_of_seqZ. lia. }
    rewrite Hl in Hin. by apply not_elem_of_nil in Hin.
  - intros m i v Hi Hn. rewrite decide_True by done. eexists. split; [done|]. by apply clip_insert.
  - intros m i v Hi. by rewrite decide_False by tauto.
  - intros m i v Hv. rewrite Hv. eexists. split; [done|]. unfold clip. by rewrite map_filter_delete.
  - intros m i Hv. by rewrite Hv.
  - intros m i v Hv. rewrite decide_True by done. apply clip_insert. destruct Hv as [w Hw]. unfold clip in Hw.
    by apply map_lookup_filter_Some in Hw as [_ Hi].
Defined.

(** Witnesses: a process opens a file, starts a thread-like process that shares its table and one that
    does not, and the first two change the table. *)
Definition plain_file : FileLike := mk_file (Some false) (Ok 420) None None.
Definition fd_trace : list (Z * fd_op) :=
  [(1, FdOpen 7 plain_file true); (1, FdClone 2 true); (1, FdClone 3 false); (2, FdDup 3); (1, FdPipe2 O_CLOEXEC 20 0 true); (2, FdClose 0);
   (1, FdFcntl 3 F_DUPFD 10 true)].
Definition trace_table : fds := <[2 := mk_fd 101 false]> (<[1 := mk_fd 101 false]> (<[0 := mk_fd 100 false]> ∅)).

Lemma fd_trace_ok : Forall (fun x => op_ok x.2) fd_trace.
Proof. repeat (apply Forall_cons; split); simpl; unfold is_int; try done; lia. Qed.

Definition trace_boot : kernel (T := fds) := fd_boot 100 101 plain_file plain_file trace_table.
Definition trace_results : list (result VfsError Z) := match fd_run fd_trace trace_boot with Some (rs, _) => rs | None => [] end.
Definition trace_end : kernel (T := fds) := match fd_run fd_trace trace_boot with Some (_, k) => k | None => trace_boot end.
Definition trace_fds : fds := default ∅ (descriptors trace_end 2).


Lemma descriptor_calls_that_hang_witness : fd_step 2 (FdCloseRange 3 5 CLOSE_RANGE_UNSHARE) trace_end = Some Spins.
Proof.
  apply (descriptor_calls_that_hang (FL := map_laws) 100 101 plain_file plain_file trace_table fd_trace trace_results trace_end
    2 (FdCloseRange 3 5 CLOSE_RANGE_UNSHARE) trace_fds ltac:(vm_compute; reflexivity) fd_trace_ok ltac:(vm_compute; reflexivity));
    [simpl; unfold is_int; lia|vm_compute; reflexivity|]. split; [lia|]. vm_compute. done.
Defined.

(** The calls that [deviates] lists do something else.  With descriptors 0, 1, 2 and 9 open and a limit
    of 4, [dup] fails, although 3 is free; [F_DUPFD] with minimum 10 returns 3; with a limit of 6,
    [dup2] to 9 succeeds; [pipe2] with a bad pointer leaves both ends open; [close_range] from 3 to
    [UINT_MAX] closes nothing. *)
Definition sparse_fds : fds := <[9 := mk_fd 101 false]> trace_table.
Definition sparse (max : Z) : kernel (T := fds) :=
  mk_kernel {[1 := 0]} {[0 := sparse_fds]} 1 {[1 := max]} (<[100 := plain_file]> {[101 := plain_file]}) ∅.
Definition does_and_should (max : Z) (op : fd_op) : option (result VfsError Z * fds) * (option (result VfsError Z) * fds) :=
  (match fd_step 1 op (sparse max) with
   | Some (Returns r k) => Some (r, default ∅ (descriptors k 1))
   | _ => None end, posix (sparse max) 1 op sparse_fds).

Theorem descriptors_deviate_from_posix :
  does_and_should 4 (FdDup 0)
    = (Some (Err TooManyOpenFiles, sparse_fds), (Some (Ok 3), <[3 := mk_fd 100 false]> sparse_fds)) /\
  does_and_should 64 (FdFcntl 0 F_DUPFD 10 true)
    = (Some (Ok 3, <[3 := mk_fd 100 false]> sparse_fds), (Some (Ok 10), <[10 := mk_fd 100 false]> sparse_fds)) /\
  does_and_should 6 (FdDup2 0 9)
    = (Some (Ok 9, <[9 := mk_fd 100 false]> sparse_fds), (Some (Err BadFileDescriptor), sparse_fds)) /\
  does_and_should 64 (FdPipe2 0 20 0 false)
    = (Some (Err BadAddress, <[4 := mk_fd 21 false]> (<[3 := mk_fd 20 false]> sparse_fds)), (Some (Err BadAddress), sparse_fds)) /\
  does_and_should 64 (FdCloseRange 3 (-1) 0)
    = (Some (Err InvalidInput, sparse_fds), (Some (Ok 0), trace_table)).
Proof. split_and!; vm_compute; reflexivity. Qed.
