(* ===== verification/Paths.v ===== *)
(** * Paths

    [FsContext] of [modules/axfs-ng/src/highlevel/fs.rs]: resolution of paths with symbolic links, the
    operations built on it, and the iterator over a directory; [with_fs] and [resolve_at] of
    [kernel/src/file/fs.rs] and [sys_chroot].

    [Location] and [Path] of the crate [axfs_ng_vfs] are parameters, over a state [W] of the file
    systems.  A path is resolved in one state.  The recursion between [resolve_components], [fs_lookup]
    and [try_resolve_symlink] has fuel, which is shown to be enough. *)

From S2P Require Import Prelude PageCache.

(** [axfs_ng_vfs::path::Component], names as [N]. *)
Inductive Component (N : Type) : Type := CurDir | ParentDir | RootDir | Normal (name : N).
Arguments CurDir {N}.
Arguments ParentDir {N}.
Arguments RootDir {N}.
Arguments Normal {N} name.

(** What the code uses of [Location] ([L]), of [Path] ([P]) and of names ([N]). *)
Class Vfs (W L P N : Type) := {
  parent : L -> option L;
  loc_name : L -> N;
  is_dir : L -> bool;
  is_symlink : L -> bool;
  lookup_no_follow : W -> L -> N -> result VfsError L;
  read_link : W -> L -> result VfsError P;
  path_is_empty : P -> bool;
  components : P -> list (Component N);
  file_name : P -> option N;
  unlink : L -> N -> bool -> W -> result VfsError () * W;
  rename_at : L -> N -> L -> N -> W -> result VfsError () * W;
  create_dir_at : L -> N -> Z -> W -> result VfsError L * W;
  create_symlink_at : L -> N -> W -> result VfsError L * W;
  set_symlink : L -> P -> W -> result VfsError () * W;
  link_at : L -> N -> L -> W -> result VfsError L * W;
}.

(** What they promise: the file name of a path is its last component, if that is a name; only
    directories have entries, and a directory is no link. *)
Class VfsLaws (W L P N : Type) `{Vfs W L P N} : Prop := {
  file_name_last p : file_name p = match last (components p) with Some (Normal n) => Some n | _ => None end;
  lookup_in_file w l n : is_dir l = false -> lookup_no_follow w l n = Err NotADirectory;
  dir_no_symlink l : is_dir l = true -> is_symlink l = false;
}.

(** Results, chained as with [?]. *)
Definition try_ {A B} (r : result VfsError A) (f : A -> result VfsError B) : result VfsError B :=
  match r with Ok a => f a | Err e => Err e end.

Definition SYMLINKS_MAX : nat := 40.

Section paths.
Context {W L P N : Type} `{Vfs W L P N}.

Record FsContext : Type := mk_ctx { root_dir : L; current_dir : L }.

Definition ctx_new (root : L) : FsContext := mk_ctx root root.

Definition check_is_dir (l : L) : result VfsError () := if is_dir l then Ok () else Err NotADirectory.

Definition set_current_dir (l : L) (c : FsContext) : result VfsError FsContext :=
  try_ (check_is_dir l) (fun _ => Ok (mk_ctx (root_dir c) l)).
Definition with_current_dir (l : L) (c : FsContext) : result VfsError FsContext :=
  try_ (check_is_dir l) (fun _ => Ok (mk_ctx (root_dir c) l)).

(** [try_resolve_symlink], given how components are resolved in a context from a count of links
    followed. *)
Definition try_resolve_symlink (resolve : FsContext -> list (Component N) -> nat -> option (result VfsError L * nat))
    (w : W) (c : FsContext) (loc : L) (n : nat) : option (result VfsError L * nat) :=
  if negb (is_symlink loc) then Some (Ok loc, n)
  else if (SYMLINKS_MAX <=? n)%nat then Some (Err FilesystemLoop, n)
  else match read_link w loc with
       | Err e => Some (Err e, S n)
       | Ok target => if path_is_empty target then Some (Err NotFound, S n) else resolve c (components target) (S n)
       end.

Definition fs_lookup (resolve : FsContext -> list (Component N) -> nat -> option (result VfsError L * nat))
    (w : W) (c : FsContext) (dir : L) (name : N) (n : nat) : option (result VfsError L * nat) :=
  match lookup_no_follow w dir name with
  | Err e => Some (Err e, n)
  | Ok loc =>
      match with_current_dir dir c with
      | Err e => Some (Err e, n)
      | Ok c' => try_resolve_symlink resolve w c' loc n
      end
  end.

(** The loop of [resolve_components]. *)
Fixpoint component_loop (look : L -> N -> nat -> option (result VfsError L * nat)) (c : FsContext) (dir : L)
    (cs : list (Component N)) (n : nat) : option (result VfsError L * nat) :=
  match cs with
  | [] => Some (Ok dir, n)
  | CurDir :: cs => component_loop look c dir cs n
  | ParentDir :: cs => component_loop look c (default (root_dir c) (parent dir)) cs n
  | RootDir :: cs => component_loop look c (root_dir c) cs n
  | Normal name :: cs =>
      match look dir name n with
      | Some (Ok dir', n') => component_loop look c dir' cs n'
      | x => x
      end
  end.

(** [None]: out of fuel. *)
Fixpoint resolve_components (fuel : nat) (w : W) (c : FsContext) (cs : list (Component N)) (n : nat) : option (result VfsError L * nat) :=
  match fuel with
  | O => None
  | S fuel => component_loop (fs_lookup (resolve_components fuel w) w c) c (current_dir c) cs n
  end.

(** One level of recursion for every link that may be followed, and the first. *)
Definition path_fuel : nat := S SYMLINKS_MAX.

Definition resolve_inner (w : W) (c : FsContext) (p : P) (n : nat) : option (result VfsError (L * option N) * nat) :=
  let cs := match file_name p with Some _ => removelast (components p) | None => components p end in
  match resolve_components path_fuel w c cs n with
  | None => None
  | Some (Err e, n) => Some (Err e, n)
  | Some (Ok dir, n) => Some (try_ (check_is_dir dir) (fun _ => Ok (dir, file_name p)), n)
  end.

Definition resolve (w : W) (c : FsContext) (p : P) : option (result VfsError L) :=
  match resolve_inner w c p 0 with
  | None => None
  | Some (Err e, _) => Some (Err e)
  | Some (Ok (dir, Some name), n) => fst <$> fs_lookup (resolve_components path_fuel w) w c dir name n
  | Some (Ok (dir, None), _) => Some (Ok dir)
  end.

Definition resolve_no_follow (w : W) (c : FsContext) (p : P) : option (result VfsError L) :=
  match resolve_inner w c p 0 with
  | None => None
  | Some (Err e, _) => Some (Err e)
  | Some (Ok (dir, Some name), _) => Some (lookup_no_follow w dir name)
  | Some (Ok (dir, None), _) => Some (Ok dir)
  end.

Definition resolve_parent (w : W) (c : FsContext) (p : P) : option (result VfsError (L * N)) :=
  match resolve_inner w c p 0 with
  | None => None
  | Some (Err e, _) => Some (Err e)
  | Some (Ok (dir, Some name), _) => Some (Ok (dir, name))
  | Some (Ok (dir, None), _) => Some (match parent dir with Some d => Ok (d, loc_name dir) | None => Err InvalidInput end)
  end.

Definition resolve_nonexistent (w : W) (c : FsContext) (p : P) : option (result VfsError (L * N)) :=
  match resolve_inner w c p 0 with
  | None => None
  | Some (Err e, _) => Some (Err e)
  | Some (Ok (dir, Some name), _) => Some (Ok (dir, name))
  | Some (Ok (_, None), _) => Some (Err InvalidInput)
  end.

(** ** Operations on files *)

(** An operation on what a path resolves to. *)
Definition at_ {A B} (r : option (result VfsError A)) (f : A -> W -> result VfsError B * W) (w : W) : option (result VfsError B * W) :=
  match r with
  | None => None
  | Some (Err e) => Some (Err e, w)
  | Some (Ok a) => Some (f a w)
  end.

Definition remove_file (c : FsContext) (p : P) (w : W) : option (result VfsError () * W) :=
  at_ (resolve_no_follow w c p) (fun entry w =>
    match parent entry with Some d => unlink d (loc_name entry) false w | None => (Err IsADirectory, w) end) w.

Definition remove_dir (c : FsContext) (p : P) (w : W) : option (result VfsError () * W) :=
  at_ (resolve_no_follow w c p) (fun entry w =>
    match parent entry with Some d => unlink d (loc_name entry) true w | None => (Err ResourceBusy, w) end) w.

Definition rename (c : FsContext) (from to : P) (w : W) : option (result VfsError () * W) :=
  match resolve_parent w c from with
  | Some (Ok (src_dir, src_name)) =>
      at_ (resolve_parent w c to) (fun '(dst_dir, dst_name) => rename_at src_dir src_name dst_dir dst_name) w
  | Some (Err e) => Some (Err e, w)
  | None => None
  end.

Definition create_dir (c : FsContext) (p : P) (mode : Z) (w : W) : option (result VfsError L * W) :=
  at_ (resolve_nonexistent w c p) (fun '(dir, name) => create_dir_at dir name mode) w.

Definition link (c : FsContext) (old_path new_path : P) (w : W) : option (result VfsError L * W) :=
  match resolve w c old_path with
  | Some (Ok old) => at_ (resolve_nonexistent w c new_path) (fun '(new_dir, new_name) => link_at new_dir new_name old) w
  | Some (Err e) => Some (Err e, w)
  | None => None
  end.

Definition symlink (c : FsContext) (target link_path : P) (w : W) : option (result VfsError L * W) :=
  at_ (resolve_nonexistent w c link_path) (fun '(dir, name) w =>
    if is_ok (lookup_no_follow w dir name) then (Err AlreadyExists, w)
    else match create_symlink_at dir name w with
         | (Err e, w) => (Err e, w)
         | (Ok l, w) => match set_symlink l target w with (Ok _, w) => (Ok l, w) | (Err e, w) => (Err e, w) end
         end) w.

(** [sys_chroot], with the path it is given. *)
Definition sys_chroot (w : W) (c : FsContext) (p : P) : option (result VfsError Z * FsContext) :=
  match resolve w c p with
  | None => None
  | Some (Err e) => Some (Err e, c)
  | Some (Ok loc) => Some (if is_dir loc then (Ok 0, ctx_new loc) else (Err NotADirectory, c))
  end.

(** [with_fs], given the directory of the descriptor ([None] for [AT_FDCWD]), and the part of
    [resolve_at] for a path. *)
Definition with_fs {A} (dirfd : option (result VfsError L)) (c : FsContext) (f : FsContext -> option (result VfsError A)) :
    option (result VfsError A) :=
  match dirfd with
  | None => f c
  | Some (Err e) => Some (Err e)
  | Some (Ok dir) => match with_current_dir dir c with Ok c' => f c' | Err e => Some (Err e) end
  end.
Definition resolve_at (w : W) (c : FsContext) (dirfd : option (result VfsError L)) (p : P) (nofollow : bool) : option (result VfsError L) :=
  with_fs dirfd c (fun c => if nofollow then resolve_no_follow w c p else resolve w c p).

(** ** Resolution as rewriting *)

(** Take the first component; if it names a symbolic link, replace it by the components of the link,
    up to [budget] times.  The dots are those of the code. *)
Fixpoint walk (budget : nat) (w : W) (root dir : L) (todo : list (Component N)) {struct budget} : result VfsError L :=
  (fix go dir todo {struct todo} :=
     match todo with
     | [] => Ok dir
     | CurDir :: rest => go dir rest
     | ParentDir :: rest => go (default root (parent dir)) rest
     | RootDir :: rest => go root rest
     | Normal name :: rest =>
         match lookup_no_follow w dir name with
         | Err e => Err e
         | Ok loc =>
             if is_symlink loc then
               match budget with
               | O => Err FilesystemLoop
               | S budget =>
                   match read_link w loc with
                   | Err e => Err e
                   | Ok target => if path_is_empty target then Err NotFound else walk budget w root dir (components target ++ rest)
                   end
               end
             else go loc rest
         end
     end) dir todo.

Lemma walk_nil b w root dir : walk b w root dir [] = Ok dir.
Proof. by destruct b. Qed.
Lemma walk_cur b w root dir rest : walk b w root dir (CurDir :: rest) = walk b w root dir rest.
Proof. by destruct b. Qed.
Lemma walk_parent b w root dir rest : walk b w root dir (ParentDir :: rest) = walk b w root (default root (parent dir)) rest.
Proof. by destruct b. Qed.
Lemma walk_root b w root dir rest : walk b w root dir (RootDir :: rest) = walk b w root root rest.
Proof. by destruct b. Qed.
Lemma walk_name b w root dir name rest :
  walk b w root dir (Normal name :: rest) =
  match lookup_no_follow w dir name with
  | Err e => Err e
  | Ok loc =>
      if is_symlink loc then
        match b with
        | O => Err FilesystemLoop
        | S b => match read_link w loc with
                 | Err e => Err e
                 | Ok target => if path_is_empty target then Err NotFound else walk b w root dir (components target ++ rest)
                 end
        end
      else walk b w root loc rest
  end.
Proof. by destruct b. Qed.

Context `{!VfsLaws W L P N}.

(** What a resolution that has followed [n] links has to do with the walk of [cs]. *)
Definition walks (w : W) (root dir : L) (cs : list (Component N)) (n : nat) (r : option (result VfsError L * nat)) : Prop :=
  match r with
  | None => False
  | Some (Ok loc, n') => (n <= n' <= SYMLINKS_MAX)%nat /\ forall rest, walk (SYMLINKS_MAX - n) w root dir (cs ++ rest) = walk (SYMLINKS_MAX - n') w root loc rest
  | Some (Err e, _) => forall rest, walk (SYMLINKS_MAX - n) w root dir (cs ++ rest) = Err e
  end.

(** One name, if links are resolved as walks. *)
Lemma lookup_walks res w c dir name n :
  (n <= SYMLINKS_MAX)%nat ->
  (forall c' cs n', (n < n' <= SYMLINKS_MAX)%nat -> walks w (root_dir c') (current_dir c') cs n' (res c' cs n')) ->
  walks w (root_dir c) dir [Normal name] n (fs_lookup res w c dir name n).
Proof.
  intros Hn Hres. unfold fs_lookup. destruct (lookup_no_follow w dir name) as [loc|e] eqn:Hl; cycle 1.
  { simpl. intros rest. by rewrite walk_name, Hl. }
  destruct (is_dir dir) eqn:Hd; [|by rewrite lookup_in_file in Hl]. unfold with_current_dir, check_is_dir. rewrite Hd. simpl.
  unfold try_resolve_symlink. destruct (is_symlink loc) eqn:Hs; cbn [negb]; cycle 1.
  { simpl. split; [lia|]. intros rest. by rewrite walk_name, Hl, Hs. }
  destruct (Nat.leb_spec SYMLINKS_MAX n) as [Hm|Hm].
  { simpl. intros rest. rewrite walk_name, Hl, Hs. by replace (SYMLINKS_MAX - n)%nat with 0%nat by lia. }
  assert (Hb : (SYMLINKS_MAX - n = S (SYMLINKS_MAX - S n))%nat) by lia.
  destruct (read_link w loc) as [target|e] eqn:Hr; cycle 1.
  { simpl. intros rest. by rewrite walk_name, Hl, Hs, Hb, Hr. }
  destruct (path_is_empty target) eqn:He.
  { simpl. intros rest. by rewrite walk_name, Hl, Hs, Hb, Hr, He. }
  specialize (Hres (mk_ctx (root_dir c) dir) (components target) (S n) ltac:(lia)). unfold walks in *.
  destruct (res _ _ _) as [[[loc'|e] n']|]; simpl in Hres |- *; [|intros rest|done].
  - destruct Hres as [Hn' Hres]. split; [lia|]. intros rest. by rewrite walk_name, Hl, Hs, Hb, Hr, He, Hres.
  - by rewrite walk_name, Hl, Hs, Hb, Hr, He, Hres.
Qed.

Lemma loop_walks look w c cs : forall dir n,
  (n <= SYMLINKS_MAX)%nat ->
  (forall dir name n', (n <= n' <= SYMLINKS_MAX)%nat -> walks w (root_dir c) dir [Normal name] n' (look dir name n')) ->
  walks w (root_dir c) dir cs n (component_loop look c dir cs n).
Proof.
  induction cs as [|x cs IH]; intros dir n Hn Hlook; simpl; [split; [lia|done]|].
  destruct x as [| | |name]; simpl.
  - specialize (IH dir n Hn Hlook). unfold walks in *. simpl. destruct (component_loop _ _ _ _ _) as [[[] ?]|]; [|setoid_rewrite walk_cur..|]; try done.
    destruct IH as [? IH]. split; [done|]. intros rest. by rewrite walk_cur.
  - specialize (IH (default (root_dir c) (parent dir)) n Hn Hlook). unfold walks in *. simpl.
    destruct (component_loop _ _ _ _ _) as [[[] ?]|]; [destruct IH as [? IH]; split; [done|]|..]; try done; intros rest; by rewrite walk_parent.
  - specialize (IH (root_dir c) n Hn Hlook). unfold walks in *. simpl.
    destruct (component_loop _ _ _ _ _) as [[[] ?]|]; [destruct IH as [? IH]; split; [done|]|..]; try done; intros rest; by rewrite walk_root.
  - pose proof (Hlook dir name n ltac:(lia)) as Hn1. unfold walks in Hn1. destruct (look dir name n) as [[[loc|e] n1]|]; simpl in Hn1 |- *; [|intros rest; apply Hn1|done].
    destruct Hn1 as [Hle H1]. specialize (IH loc n1 ltac:(lia)). unfold walks in IH |- *.
    assert (Hl : forall dir name n', (n1 <= n' <= SYMLINKS_MAX)%nat -> walks w (root_dir c) dir [Normal name] n' (look dir name n'))
      by (intros; apply Hlook; lia).
    specialize (IH Hl). destruct (component_loop look c loc cs n1) as [[[loc2|e2] n2]|]; [|intros rest|done].
    + destruct IH as [Hle2 H2]. split; [lia|]. intros rest. simpl. by rewrite H1, H2.
    + simpl. by rewrite H1, IH.
Qed.

Lemma resolve_components_walks w fuel : forall c cs n,
  (n <= SYMLINKS_MAX)%nat -> (SYMLINKS_MAX - n < fuel)%nat -> walks w (root_dir c) (current_dir c) cs n (resolve_components fuel w c cs n).
Proof.
  induction fuel as [|fuel IH]; intros c cs n Hn Hf; [lia|]. simpl. apply loop_walks; [done|]. intros dir name n' Hn'.
  apply lookup_walks; [lia|]. intros c' cs' n'' Hn''. apply IH; lia.
Qed.

(** The directory a path starts with, and the rest. *)
Lemma resolve_inner_walks w c p :
  match resolve_inner w c p 0 with
  | None => False
  | Some (Ok (dir, name), n) =>
      name = file_name p /\ is_dir dir = true /\ (n <= SYMLINKS_MAX)%nat /\
      walk SYMLINKS_MAX w (root_dir c) (current_dir c) (components p) =
        walk (SYMLINKS_MAX - n) w (root_dir c) dir (match name with Some x => [Normal x] | None => [] end)
  | Some (Err e, _) =>
      match file_name p with
      | Some _ => walk SYMLINKS_MAX w (root_dir c) (current_dir c) (components p) = Err e
      | None => try_ (walk SYMLINKS_MAX w (root_dir c) (current_dir c) (components p)) (fun l => try_ (check_is_dir l) (fun _ => Ok l)) = Err e
      end
  end.
Proof.
  unfold resolve_inner. set (name := file_name p). set (cs := match name with Some _ => _ | None => _ end).
  assert (Hcs : components p = cs ++ match name with Some x => [Normal x] | None => [] end).
  { subst cs name. rewrite file_name_last. destruct (last (components p)) as [[| | |x]|] eqn:Hl; rewrite ?app_nil_r; try done.
    apply last_Some in Hl as [l Hl]. by rewrite Hl, removelast_last. }
  clearbody cs. rewrite Hcs. pose proof (resolve_components_walks w path_fuel c cs 0 ltac:(lia) ltac:(unfold path_fuel; lia)) as Hw. unfold walks in Hw.
  destruct (resolve_components path_fuel w c cs 0) as [[[dir|e] n]|]; [| |done].
  - destruct Hw as [Hn Hw]. rewrite Nat.sub_0_r in Hw. unfold check_is_dir at 1. destruct (is_dir dir) eqn:Hd; simpl.
    + rewrite Hw. do 2 (split; [done|]). split; [lia|done].
    + rewrite Hw. destruct name as [x|]; [by rewrite walk_name, lookup_in_file|]. rewrite walk_nil. simpl. unfold check_is_dir. by rewrite Hd.
  - rewrite Nat.sub_0_r in Hw. destruct name; by rewrite Hw.
Qed.

Lemma resolve_walk (w : W) (c : FsContext) (p : P) :
  let r := walk SYMLINKS_MAX w (root_dir c) (current_dir c) (components p) in
  resolve w c p = Some (match file_name p with
                        | Some _ => r
                        | None => try_ r (fun l => try_ (check_is_dir l) (fun _ => Ok l))
                        end).
Proof.
  intros r. pose proof (resolve_inner_walks w c p) as Hi. unfold resolve. fold r in Hi.
  destruct (resolve_inner w c p 0) as [[[[dir [name|]]|e] n]|]; [| | |done].
  - destruct Hi as (Hf & Hd & Hn & Hw). rewrite <-Hf, Hw.
    pose proof (lookup_walks (resolve_components path_fuel w) w c dir name n Hn) as Hl.
    assert (Hres : forall c' cs n', (n < n' <= SYMLINKS_MAX)%nat ->
      walks w (root_dir c') (current_dir c') cs n' (resolve_components path_fuel w c' cs n'))
      by (intros; apply resolve_components_walks; unfold path_fuel; lia).
    specialize (Hl Hres). unfold walks in Hl. destruct (fs_lookup _ _ _ _ _ _) as [[[loc|e] n']|]; simpl; [| |done].
    + destruct Hl as [_ Hl]. specialize (Hl []). rewrite walk_nil in Hl. simpl in Hl. by rewrite Hl.
    + specialize (Hl []). simpl in Hl. by rewrite Hl.
  - destruct Hi as (Hf & Hd & Hn & Hw). rewrite <-Hf, Hw, walk_nil. simpl. unfold check_is_dir. by rewrite Hd.
  - destruct (file_name p); by rewrite Hi.
Qed.

(** ** What POSIX says *)

Section posix.
Context `{EqDecision L}.

(** Dots are directories of their own: [.] and [..] after anything but a directory are an error, and
    [..] in the root is the root.  [None]: the error is that of dots after something that is not a
    directory, [ENOTDIR]. *)
Fixpoint posix_walk (budget : nat) (w : W) (root dir : L) (todo : list (Component N)) {struct budget} : option (result VfsError L) :=
  (fix go dir todo {struct todo} :=
     match todo with
     | [] => Some (Ok dir)
     | CurDir :: rest => if is_dir dir then go dir rest else None
     | ParentDir :: rest =>
         if is_dir dir then go (if decide (dir = root) then root else default root (parent dir)) rest else None
     | RootDir :: rest => go root rest
     | Normal name :: rest =>
         match lookup_no_follow w dir name with
         | Err e => Some (Err e)
         | Ok loc =>
             if is_symlink loc then
               match budget with
               | O => Some (Err FilesystemLoop)
               | S budget =>
                   match read_link w loc with
                   | Err e => Some (Err e)
                   | Ok target =>
                       if path_is_empty target then Some (Err NotFound) else posix_walk budget w root dir (components target ++ rest)
                   end
               end
             else go loc rest
         end
     end) dir todo.

(** A path has to have a component, and to lead to a directory if it does not end in a name. *)
Definition posix_resolve (w : W) (root dir : L) (p : P) : option (result VfsError L) :=
  match components p with
  | [] => Some (Err NotFound)
  | cs =>
      r ← posix_walk SYMLINKS_MAX w root dir cs;
      Some (match file_name p with
            | Some _ => r
            | None => match r with Ok l => if is_dir l then Ok l else Err NotADirectory | Err e => Err e end
            end)
  end.

(** In a root that has no parent the code's dots are those, where they follow directories. *)
Lemma posix_walk_walk w root b : parent root = None ->
  forall todo dir r, posix_walk b w root dir todo = Some r -> walk b w root dir todo = r.
Proof.
  intros Hroot. induction b as [|b IHb]; induction todo as [|x todo IH]; intros dir r; try (simpl; congruence).
  all: destruct x as [| | |name]; simpl.
  1, 5: destruct (is_dir dir); [exact (IH dir r)|done].
  1, 4: destruct (is_dir dir); [|done]; destruct (decide (dir = root)) as [->|]; [rewrite Hroot|]; exact (IH _ r).
  1, 3: exact (IH root r).
  all: destruct (lookup_no_follow w dir name) as [loc|e]; [|congruence]; destruct (is_symlink loc); [|exact (IH loc r)].
  - congruence.
  - destruct (read_link w loc) as [target|e]; [|congruence]. destruct (path_is_empty target); [congruence|]. apply IHb.
Qed.

(** C14: The resolution of a path ends, and in a file system whose root the process has not changed
    it has the result that POSIX prescribes, success or error: components are taken from left to
    right, a symbolic link is replaced by its target where it stands, at most 40 times, [..] in the
    root is the root, and a path that does not end in a name has to lead to a directory.  Not said
    is what happens to the empty path, to one that goes through [.] or [..] after something that is
    not a directory, where POSIX prescribes an error, and after [chroot], where [..] may leave the
    root.  The file systems do not change during the resolution, permissions are not part of it, and
    a path is its components. *)
Theorem paths_resolve_by_rewriting (w : W) (c : FsContext) (p : P) :
  exists r, resolve w c p = Some r /\
    (parent (root_dir c) = None -> components p <> [] ->
     forall r0, posix_resolve w (root_dir c) (current_dir c) p = Some r0 -> r = r0).
Proof.
  rewrite resolve_walk. cbv zeta. eexists. split; [done|]. intros Hroot Hne r0. unfold posix_resolve.
  destruct (components p) as [|x cs] eqn:Hc; [done|]. rewrite <-Hc.
  destruct (posix_walk _ _ _ _ _) as [r|] eqn:Hw; [|done].
  apply posix_walk_walk in Hw; [|done]. rewrite Hw. intros [= <-]. destruct (file_name p); [done|].
  destruct r as [l|e]; simpl; [|done]. unfold check_is_dir. by destruct (is_dir l).
Qed.
End posix.

(** The last component of a path is not followed if it is not to be. *)
Lemma resolve_no_follow_walks w c p name cs :
  components p = cs ++ [Normal name] ->
  resolve_no_follow w c p =
    Some (try_ (walk SYMLINKS_MAX w (root_dir c) (current_dir c) cs) (fun dir => lookup_no_follow w dir name)).
Proof.
  intros Hp. unfold resolve_no_follow, resolve_inner. rewrite file_name_last, Hp, last_snoc, removelast_last.
  pose proof (resolve_components_walks w path_fuel c cs 0 ltac:(lia) ltac:(unfold path_fuel; lia)) as Hw. unfold walks in Hw.
  destruct (resolve_components path_fuel w c cs 0) as [[[dir|e] n]|]; [| |done].
  - destruct Hw as [_ Hw]. specialize (Hw []). rewrite app_nil_r, walk_nil, Nat.sub_0_r in Hw. rewrite Hw. simpl. unfold check_is_dir.
    destruct (is_dir dir) eqn:Hd; simpl; [done|]. by rewrite lookup_in_file.
  - specialize (Hw []). rewrite app_nil_r, Nat.sub_0_r in Hw. by rewrite Hw.
Qed.

(** The root of a context does not confine it: above the directory given to [chroot], [..] leads on. *)
Theorem chroot_does_not_confine (w : W) (c : FsContext) (p up : P) (loc outside : L) :
  resolve w c p = Some (Ok loc) -> is_dir loc = true -> parent loc = Some outside -> is_dir outside = true -> components up = [ParentDir] ->
  exists c', sys_chroot w c p = Some (Ok 0, c') /\ root_dir c' = loc /\ resolve w c' up = Some (Ok outside).
Proof.
  intros Hr Hd Hp Ho Hu. exists (ctx_new loc). unfold sys_chroot. rewrite Hr, Hd. split; [done|]. split; [done|].
  unfold resolve, resolve_inner. rewrite file_name_last, Hu. simpl. rewrite Hp. simpl. unfold check_is_dir. by rewrite Ho.
Qed.
End paths.

(** ** Listing a directory *)

Record ReadDirEntry (N : Type) : Type := mk_entry { e_name : N; e_ino : Z; e_type : Z; e_offset : Z }.
Arguments mk_entry {N}.
Arguments e_offset {N}.

Record ReadDir (N : Type) : Type := mk_readdir { rd_buf : list (ReadDirEntry N); rd_offset : Z; rd_ended : bool }.
Arguments mk_readdir {N}.
Arguments rd_buf {N}.
Arguments rd_offset {N}.
Arguments rd_ended {N}.

Definition READ_DIR_BUF_SIZE : nat := 128.

Section listing.
(** [Location::read_dir]: the entries from an offset, which it hands to the callback one by one as long
    as that asks for more, and the error it ends with. *)
Context {N : Type} (read_dir : Z -> list (ReadDirEntry N) * option VfsError).

(** [FsContext::read_dir], of a directory. *)
Definition readdir_new : ReadDir N := mk_readdir [] 0 false.

(** [ReadDir::next]; the callback takes entries until the buffer is full. *)
Definition readdir_next (r : ReadDir N) : option (result VfsError (ReadDirEntry N)) * ReadDir N :=
  if rd_ended r then (None, r)
  else match rd_buf r with
       | x :: buf => (Some (Ok x), mk_readdir buf (rd_offset r) false)
       | [] =>
           let '(es, err) := read_dir (rd_offset r) in
           let buf := take READ_DIR_BUF_SIZE es in
           let err := if (READ_DIR_BUF_SIZE <=? length es)%nat then None else err in
           let offset := match last buf with Some x => e_offset x | None => rd_offset r end in
           match buf with
           | [] => match err with Some e => (Some (Err e), mk_readdir [] offset false) | None => (None, mk_readdir [] offset true) end
           | x :: buf => (Some (Ok x), mk_readdir buf offset false)
           end
       end.

(** The first [n] results. *)
Fixpoint readdir_list (n : nat) (r : ReadDir N) : list (result VfsError (ReadDirEntry N)) :=
  match n with
  | O => []
  | S n => match readdir_next r with (Some x, r') => x :: readdir_list n r' | (None, _) => [] end
  end.

(** The directory does not change and its offsets point behind the entries. *)
Context (entries : list (ReadDirEntry N)).
Definition offsets_ok : Prop :=
  read_dir 0 = (entries, None) /\ forall i x, entries !! i = Some x -> read_dir (e_offset x) = (drop (S i) entries, None).

(** [i] entries have been returned: what is buffered and what is behind the offset is the rest. *)
Definition readdir_at (i : nat) (r : ReadDir N) : Prop :=
  rd_ended r = false /\ exists j, (i <= j)%nat /\ rd_buf r = take (j - i) (drop i entries) /\ read_dir (rd_offset r) = (drop j entries, None).

Lemma refill_at j off :
  offsets_ok -> read_dir off = (drop j entries, None) ->
  let buf := take READ_DIR_BUF_SIZE (drop j entries) in
  readdir_at j (mk_readdir buf (match last buf with Some x => e_offset x | None => off end) false).
Proof.
  intros [_ Ho] Hj buf. split; [done|]. simpl. exists (j + length buf)%nat. split; [lia|].
  assert (Hbuf : buf = take (length buf) (drop j entries)).
  { subst buf. rewrite length_take. destruct (decide (READ_DIR_BUF_SIZE <= length (drop j entries)))%nat; [by rewrite Nat.min_l|].
    rewrite Nat.min_r by lia. by rewrite !take_ge by lia. }
  split; [by replace (j + length buf - j)%nat with (length buf) by lia|].
  destruct (last buf) as [x|] eqn:Hl; cycle 1.
  { apply last_None in Hl. rewrite Hl. simpl. by rewrite Nat.add_0_r. }
  assert (Hb : (0 < length buf)%nat) by (destruct buf; [done|simpl; lia]).
  rewrite last_lookup, Hbuf in Hl. apply lookup_take_Some in Hl as [Hl _]. rewrite lookup_drop in Hl.
  rewrite (Ho _ x Hl). do 2 f_equal. rewrite <-Hbuf. lia.
Qed.

Lemma readdir_next_at i r :
  offsets_ok -> readdir_at i r ->
  match entries !! i with
  | Some x => (readdir_next r).1 = Some (Ok x) /\ readdir_at (S i) (readdir_next r).2
  | None => (readdir_next r).1 = None
  end.
Proof.
  intros Ho (He & j & Hij & Hb & Hr). unfold readdir_next. rewrite He.
  assert (Hcons : forall k buf off, (i < k)%nat -> take (k - i) (drop i entries) = buf -> read_dir off = (drop k entries, None) ->
    forall x buf', buf = x :: buf' -> entries !! i = Some x /\ readdir_at (S i) (mk_readdir buf' off false)).
  { intros k buf off Hk Hbuf Hoff x buf' ->. destruct (drop i entries) as [|y l] eqn:Hd; [by rewrite take_nil in Hbuf|].
    replace (k - i)%nat with (S (k - S i)) in Hbuf by lia. simpl in Hbuf. injection Hbuf as -> <-.
    assert (Hi : entries !! i = Some x) by (rewrite <-(Nat.add_0_r i), <-lookup_drop, Hd; done). split; [done|].
    split; [done|]. exists k. simpl. split; [lia|]. split; [|done]. f_equal. rewrite (drop_S entries x i Hi) in Hd. by injection Hd. }
  destruct (rd_buf r) as [|x buf] eqn:Hbuf; cycle 1.
  { destruct (decide (i = j)) as [->|Hne]; [by rewrite Nat.sub_diag in Hb|].
    destruct (Hcons j (x :: buf) (rd_offset r) ltac:(lia) (eq_sym Hb) Hr x buf eq_refl) as [-> ?]. done. }
  assert (Hj : drop i entries = drop j entries).
  { destruct (decide (i = j)) as [->|Hne]; [done|]. symmetry in Hb. apply (f_equal length) in Hb. rewrite length_take, length_drop in Hb. simpl in Hb.
    rewrite !drop_ge by lia. done. }
  rewrite Hr, <-Hj. rewrite <-Hj in Hr. pose proof (refill_at i (rd_offset r) Ho Hr) as (_ & k & Hk & Hbk & Hrk). simpl in Hbk, Hrk.
  destruct (take READ_DIR_BUF_SIZE (drop i entries)) as [|x buf] eqn:Ht.
  - destruct (drop i entries) as [|y l] eqn:Hd; [|done]. rewrite lookup_ge_None_2; [|apply (f_equal length) in Hd; rewrite length_drop in Hd; simpl in Hd; lia].
    by case_match.
  - assert (Hik : (i < k)%nat) by (destruct (decide (i = k)) as [->|]; [by rewrite Nat.sub_diag in Hbk|lia]).
    destruct (Hcons k (x :: buf) _ Hik (eq_sym Hbk) Hrk x buf eq_refl) as [-> ?]. done.
Qed.

(** A directory that does not change is listed once, in order, and then ends. *)
Lemma directory_is_listed n : offsets_ok -> (length entries <= n)%nat -> readdir_list n readdir_new = Ok <$> entries.
Proof.
  intros Ho Hn. assert (Hi : forall m i r, readdir_at i r -> (length entries - i <= m)%nat -> readdir_list m r = Ok <$> drop i entries).
  { induction m as [|m IH]; intros i r Hr Hm; simpl; [by rewrite drop_ge by lia|].
    pose proof (readdir_next_at i r Ho Hr) as Hx. destruct (readdir_next r) as [o r']. simpl in Hx. destruct (entries !! i) as [x|] eqn:Hi.
    - destruct Hx as [-> Hr']. rewrite (drop_S _ _ _ Hi). simpl. f_equal. apply IH; [done|lia].
    - rewrite Hx. apply lookup_ge_None in Hi. by rewrite drop_ge. }
  apply (Hi n 0%nat readdir_new); [|lia]. split; [done|]. exists 0%nat. split; [lia|]. split; [done|]. simpl. by rewrite (proj1 Ho), drop_0.
Qed.
End listing.

(** ** A file tree *)

(** A directory 1, called 10, in the root 0; a file 2, called 11, in that; links 12 to the file and 13
    to itself. *)
#[local] Instance tree_vfs : Vfs () Z (list (Component Z)) Z := {
  parent l := if l =? 0 then None else if l =? 2 then Some 1 else Some 0;
  loc_name l := l;
  is_dir l := (l =? 0) || (l =? 1);
  is_symlink l := (l =? 3) || (l =? 4);
  lookup_no_follow _ l n :=
    if l =? 0 then if n =? 10 then Ok 1 else if n =? 12 then Ok 3 else if n =? 13 then Ok 4 else Err NotFound
    else if l =? 1 then if n =? 11 then Ok 2 else Err NotFound
    else Err NotADirectory;
  read_link _ l := if l =? 3 then Ok [CurDir; Normal 10; Normal 11] else Ok [Normal 13];
  path_is_empty p := match p with [] => true | _ => false end;
  components p := p;
  file_name p := match last p with Some (Normal n) => Some n | _ => None end;
  unlink _ _ _ w := (Err Unsupported, w);
  rename_at _ _ _ _ w := (Err Unsupported, w);
  create_dir_at _ _ _ w := (Err Unsupported, w);
  create_symlink_at _ _ w := (Err Unsupported, w);
  set_symlink _ _ w := (Err Unsupported, w);
  link_at _ _ _ w := (Err Unsupported, w);
}.

#[local] Instance tree_laws : VfsLaws () Z (list (Component Z)) Z.
Proof.
  split; simpl; [done| |].
  - intros _ l n. destruct (Z.eqb_spec l 0), (Z.eqb_spec l 1); done.
  - intros l Hl. apply orb_true_iff in Hl. rewrite !Z.eqb_eq in Hl. destruct (Z.eqb_spec l 3), (Z.eqb_spec l 4); try done; lia.
Qed.

Lemma paths_resolve_by_rewriting_witness :
  resolve () (ctx_new 0) [RootDir; Normal 10; ParentDir; ParentDir; Normal 12] = Some (Ok 2) /\
  resolve () (ctx_new 0) [Normal 13] = Some (Err FilesystemLoop).
Proof.
  split.
  - destruct (paths_resolve_by_rewriting () (ctx_new 0) [RootDir; Normal 10; ParentDir; ParentDir; Normal 12]) as (r & -> & Hr).
    f_equal. apply Hr; [done|done|]. vm_compute. reflexivity.
  - destruct (paths_resolve_by_rewriting () (ctx_new 0) [Normal 13]) as (r & -> & Hr).
    f_equal. apply Hr; [done|done|]. vm_compute. reflexivity.
Defined.

(** Dots after a file: the directory of the file, where POSIX prescribes an error. *)
Theorem dots_pass_through_files :
  resolve () (ctx_new 0) [Normal 10; Normal 11; ParentDir] = Some (Ok 1) /\ is_dir 2 = false /\
  posix_resolve () 0 0 [Normal 10; Normal 11; ParentDir] = None.
Proof. split_and!; vm_compute; reflexivity. Qed.
