(* ===== verification/Ethernet.v ===== *)
(** * The Ethernet device

    [EthernetDevice] of [modules/axnet-ng/src/device/ethernet.rs]: the cache of neighbours, the
    requests and replies of the address resolution protocol, and the packets that wait for an address.

    The formats and queues of the crate [smoltcp] and the network driver are parameters. *)

From S2P Require Import Prelude.

Definition ETHERNET_MAX_PENDING_PACKETS : Z := 32.
(** [NEIGHBOR_TTL], in microseconds. *)
Definition NEIGHBOR_TTL : Z := 60000000.

(** [IpAddress] and [EthernetAddress]. *)
Inductive IpAddress : Type := Ipv4 (a : Z) | Ipv6 (a : Z).
#[export] Instance IpAddress_eq_dec : EqDecision IpAddress.
Proof. solve_decision. Defined.
#[export] Instance IpAddress_countable : Countable IpAddress.
Proof.
  refine (inj_countable' (fun i => match i with Ipv4 a => inl a | Ipv6 a => inr a end)
    (fun x => match x with inl a => Ipv4 a | inr a => Ipv6 a end) _). by intros [].
Defined.
Notation mac := Z (only parsing).
Definition EMPTY_MAC : mac := 0.
Definition BROADCAST : mac := 2 ^ 48 - 1.

Inductive EthernetProtocol : Type := PIpv4 | PArp | POther.
#[export] Instance EthernetProtocol_eq_dec : EqDecision EthernetProtocol.
Proof. solve_decision. Defined.

Inductive ArpOperation : Type := Request | Reply | Unknown.

(** [ArpRepr::EthernetIpv4]. *)
Record ArpRepr : Type := mk_arp {
  operation : ArpOperation;
  source_hardware_addr : mac;
  source_protocol_addr : Z;
  target_hardware_addr : mac;
  target_protocol_addr : Z;
}.

(** Formats: a frame is its destination, its type and its payload. *)
Class Wire := {
  eth_parse : list Z -> option (mac * EthernetProtocol * list Z);
  arp_parse : list Z -> option ArpRepr;
  arp_emit : ArpRepr -> list Z;
  mac_is_unicast : mac -> bool;
  ipv4_is_broadcast : Z -> bool;
  ipv4_is_multicast : Z -> bool;
  ipv4_is_unspecified : Z -> bool;
  ip_is_broadcast : IpAddress -> bool;
}.

(** The driver: what it answers to [recycle_tx_buffers], [alloc_tx_buffer], [transmit] and [receive]. *)
Class NetDriver (D : Type) := {
  mac_address : D -> mac;
  recycle_tx_buffers : D -> bool * D;
  alloc_tx_buffer : Z -> D -> bool * D;
  transmit : mac * EthernetProtocol * list Z -> D -> bool * D;
  receive : D -> option (list Z) * D;
}.

(** [PacketBuffer<H>]: a queue of packets with headers. *)
Class PacketBuffer (Q H : Type) := {
  pb_empty : Q;
  pb_view : Q -> list (H * list Z);
  pb_is_full : Q -> bool;
  pb_enqueue : H -> list Z -> Q -> option Q;
  pb_dequeue : Q -> option (H * list Z * Q);
}.
Class PacketBufferLaws (Q H : Type) `{PacketBuffer Q H} : Prop := {
  pb_view_empty : pb_view (Q := Q) pb_empty = [];
  pb_view_enqueue h p q q' : pb_enqueue h p q = Some q' -> pb_view q' = pb_view q ++ [(h, p)];
  pb_view_dequeue q : match pb_dequeue q with
                      | Some (h, p, q') => pb_view q = (h, p) :: pb_view q'
                      | None => pb_view q = []
                      end;
}.

Record Neighbor : Type := mk_neighbor { hardware_address : mac; expires_at : Z }.

Section ethernet.
Context {D Q QI : Type} `{WI : Wire} `{ND : NetDriver D} `{PB : PacketBuffer Q IpAddress} `{PBI : PacketBuffer QI ()}.

(** [EthernetDevice], its address with the broadcast address of its network, and the frames that it
    handed to the driver. *)
Record EthernetDevice : Type := mk_eth {
  inner : D;
  neighbors : gmap IpAddress (option Neighbor);
  ip_address : Z;
  ip_broadcast : option Z;
  pending_packets : Q;
  sent : list (mac * EthernetProtocol * list Z);
}.

Definition eth_new (d : D) (ip : Z) (bc : option Z) : EthernetDevice := mk_eth d ∅ ip bc pb_empty [].

Definition my_mac (e : EthernetDevice) : mac := mac_address (inner e).

Definition set_inner (d : D) (e : EthernetDevice) : EthernetDevice :=
  mk_eth d (neighbors e) (ip_address e) (ip_broadcast e) (pending_packets e) (sent e).
Definition set_neighbors (m : gmap IpAddress (option Neighbor)) (e : EthernetDevice) : EthernetDevice :=
  mk_eth (inner e) m (ip_address e) (ip_broadcast e) (pending_packets e) (sent e).
Definition set_pending (q : Q) (e : EthernetDevice) : EthernetDevice :=
  mk_eth (inner e) (neighbors e) (ip_address e) (ip_broadcast e) q (sent e).
Definition log_frame (f : mac * EthernetProtocol * list Z) (e : EthernetDevice) : EthernetDevice :=
  mk_eth (inner e) (neighbors e) (ip_address e) (ip_broadcast e) (pending_packets e) (sent e ++ [f]).

(** [send_to]: failures of the driver are logged only. *)
Definition send_to (dst : mac) (payload : list Z) (proto : EthernetProtocol) (e : EthernetDevice) : EthernetDevice :=
  let '(ok, d) := recycle_tx_buffers (inner e) in
  let e := set_inner d e in
  if negb ok then e
  else
    let '(ok, d) := alloc_tx_buffer (14 + Z.of_nat (length payload)) (inner e) in
    let e := set_inner d e in
    if negb ok then e
    else
      let f := (dst, proto, payload) in
      let '(_, d) := transmit f (inner e) in
      log_frame f (set_inner d e).

Definition request_arp (target : IpAddress) (e : EthernetDevice) : EthernetDevice :=
  match target with
  | Ipv6 _ => e
  | Ipv4 t =>
      let repr := mk_arp Request (my_mac e) (ip_address e) BROADCAST t in
      let e := send_to BROADCAST (arp_emit repr) PArp e in
      set_neighbors (<[target := None]> (neighbors e)) e
  end.

(** The loop of [process_arp] over the packets that wait. *)
Fixpoint flush_pending (fuel : nat) (now : Z) (e : EthernetDevice) : EthernetDevice :=
  match fuel with
  | O => e
  | S fuel =>
      match pb_dequeue (pending_packets e) with
      | None => e
      | Some (next_hop, buf, q) =>
          match neighbors e !! next_hop with
          | Some (Some n) =>
              if expires_at n <=? now then request_arp next_hop e
              else flush_pending fuel now (set_pending q (send_to (hardware_address n) buf PIpv4 e))
          | _ => e
          end
      end
  end.

Definition process_arp (payload : list Z) (now : Z) (e : EthernetDevice) : EthernetDevice :=
  match arp_parse payload with
  | None => e
  | Some r =>
      let target := target_hardware_addr r in
      if negb (target =? EMPTY_MAC) && negb (target =? BROADCAST) && negb (my_mac e =? target) then e
      else match operation r with
           | Unknown => e
           | op =>
               let src := source_protocol_addr r in
               if negb (mac_is_unicast (source_hardware_addr r)) || ipv4_is_broadcast src || ipv4_is_multicast src || ipv4_is_unspecified src then e
               else if negb (ip_address e =? target_protocol_addr r) then e
               else
                 let e := set_neighbors (<[Ipv4 src := Some (mk_neighbor (source_hardware_addr r) (now + NEIGHBOR_TTL))]> (neighbors e)) e in
                 let e := match op with
                          | Request =>
                              send_to (source_hardware_addr r)
                                (arp_emit (mk_arp Reply (my_mac e) (ip_address e) (source_hardware_addr r) src)) PArp e
                          | _ => e
                          end in
                 match pb_dequeue (pending_packets e) with
                 | Some (h, _, _) => if bool_decide (h = Ipv4 src) then flush_pending (S (length (pb_view (pending_packets e)))) now e else e
                 | None => e
                 end
           end
  end.

(** [handle_frame]: [None] if the buffer has no room. *)
Definition handle_frame (frame : list Z) (buffer : QI) (now : Z) (e : EthernetDevice) : option (bool * QI * EthernetDevice) :=
  match eth_parse frame with
  | None => Some (false, buffer, e)
  | Some (dst, proto, payload) =>
      if negb (dst =? BROADCAST) && negb (dst =? EMPTY_MAC) && negb (dst =? my_mac e) then Some (false, buffer, e)
      else match proto with
           | PIpv4 => match pb_enqueue () payload buffer with Some b => Some (true, b, e) | None => None end
           | PArp => Some (false, buffer, process_arp payload now e)
           | POther => Some (false, buffer, e)
           end
  end.

(** One turn of the loop of [recv]: [Some true] to return [true], [Some false] to return [false]. *)
Definition recv_turn (buffer : QI) (now : Z) (e : EthernetDevice) : option (option bool * QI * EthernetDevice) :=
  let '(f, d) := receive (inner e) in
  let e := set_inner d e in
  match f with
  | None => Some (Some false, buffer, e)
  | Some frame =>
      match handle_frame frame buffer now e with
      | None => None
      | Some (true, b, e) => Some (Some true, b, e)
      | Some (false, b, e) => Some (None, b, e)
      end
  end.

(** [send]. *)
Definition eth_send (next_hop : IpAddress) (packet : list Z) (now : Z) (e : EthernetDevice) : EthernetDevice :=
  if ip_is_broadcast next_hop || bool_decide (Ipv4 <$> ip_broadcast e = Some next_hop) then send_to BROADCAST packet PIpv4 e
  else
    let queue (need_request : bool) :=
      let e := if need_request then request_arp next_hop e else e in
      if pb_is_full (pending_packets e) then e
      else match pb_enqueue next_hop packet (pending_packets e) with
           | Some q => set_pending q e
           | None => e
           end in
    match neighbors e !! next_hop with
    | Some (Some n) => if now <? expires_at n then send_to (hardware_address n) packet PIpv4 e else queue true
    | Some None => queue false
    | None => queue true
    end.

(** ** Histories *)

(** A packet to be sent, or a turn of [recv] with a buffer, each at a time. *)
Inductive eth_event : Type := ESend (next_hop : IpAddress) (packet : list Z) (now : Z) | ERecv (buffer : QI) (now : Z).
Definition at_time (ev : eth_event) : Z := match ev with ESend _ _ now | ERecv _ now => now end.

(** [None]: the buffer of [recv] has no room, which panics. *)
Definition eth_step (ev : eth_event) (e : EthernetDevice) : option EthernetDevice :=
  match ev with
  | ESend hop p now => Some (eth_send hop p now e)
  | ERecv b now => match recv_turn b now e with Some (_, _, e') => Some e' | None => None end
  end.
Fixpoint eth_run (evs : list eth_event) (e : EthernetDevice) : option EthernetDevice :=
  match evs with
  | [] => Some e
  | ev :: evs => e' ← eth_step ev e; eth_run evs e'
  end.

(** The packets offered, with their next hops. *)
Definition offered (evs : list eth_event) : list (IpAddress * list Z) :=
  omap (fun ev => match ev with ESend hop p _ => Some (hop, p) | ERecv _ _ => None end) evs.

(** An ARP packet that is for the device and comes from a host. *)
Definition arp_for (e : EthernetDevice) (r : ArpRepr) : bool :=
  let target := target_hardware_addr r in
  let src := source_protocol_addr r in
  ((target =? EMPTY_MAC) || (target =? BROADCAST) || (my_mac e =? target)) &&
  match operation r with Unknown => false | _ => true end &&
  mac_is_unicast (source_hardware_addr r) && negb (ipv4_is_broadcast src || ipv4_is_multicast src || ipv4_is_unspecified src) &&
  (ip_address e =? target_protocol_addr r).

(** What an event says of the hardware address of a host. *)
Definition says (ev : eth_event) (e : EthernetDevice) : list (IpAddress * mac * Z) :=
  match ev with
  | ESend _ _ _ => []
  | ERecv _ now =>
      let '(f, d) := receive (inner e) in
      let e := set_inner d e in
      match frame ← f; eth_parse frame with
      | Some (dst, PArp, payload) =>
          if negb (dst =? BROADCAST) && negb (dst =? EMPTY_MAC) && negb (dst =? my_mac e) then []
          else match arp_parse payload with
               | Some r => if arp_for e r then [(Ipv4 (source_protocol_addr r), source_hardware_addr r, now)] else []
               | None => []
               end
      | _ => []
      end
  end.
Fixpoint said (evs : list eth_event) (e : EthernetDevice) : list (IpAddress * mac * Z) :=
  match evs with
  | [] => []
  | ev :: evs => says ev e ++ match eth_step ev e with Some e' => said evs e' | None => [] end
  end.

(** The packets among frames. *)
Definition packets (fs : list (mac * EthernetProtocol * list Z)) : list (list Z) :=
  omap (fun f => match f with (_, PIpv4, p) => Some p | _ => None end) fs.

Lemma packets_app fs gs : packets (fs ++ gs) = packets fs ++ packets gs.
Proof. apply omap_app. Qed.

Context `{!PacketBufferLaws Q IpAddress}.

Notation waiting e := (pb_view (pending_packets e)).

(** ** What an operation sends *)

(** From [e] to [e'] the frames [fs] are sent, of which the packets were waiting, each to the address
    that is known for its next hop; what is not sent waits on or is dropped. *)
Record goes (now : Z) (e e' : EthernetDevice) (fs : list (mac * EthernetProtocol * list Z)) : Prop := {
  g_sent : sent e' = sent e ++ fs;
  g_ip : ip_address e' = ip_address e /\ ip_broadcast e' = ip_broadcast e;
  g_known ip n : neighbors e' !! ip = Some (Some n) -> neighbors e !! ip = Some (Some n);
  g_kept x : x ∈ waiting e' -> x ∈ waiting e;
  g_once : packets fs ++ (waiting e').*2 ⊆+ (waiting e).*2;
  g_right m p : (m, PIpv4, p) ∈ fs ->
    exists hop n, (hop, p) ∈ waiting e /\ neighbors e !! hop = Some (Some n) /\ hardware_address n = m /\ now < expires_at n;
}.

Lemma goes_refl now e : goes now e e [].
Proof. split; [by rewrite app_nil_r|done|done|done|done|]. intros m p Hp. by apply not_elem_of_nil in Hp. Qed.

Lemma goes_trans now e1 e2 e3 fs gs : goes now e1 e2 fs -> goes now e2 e3 gs -> goes now e1 e3 (fs ++ gs).
Proof.
  intros Ha Hb. split.
  - by rewrite (g_sent _ _ _ _ Hb), (g_sent _ _ _ _ Ha), app_assoc.
  - destruct (g_ip _ _ _ _ Hb) as [-> ->]. apply (g_ip _ _ _ _ Ha).
  - intros ip n Hn. by apply (g_known _ _ _ _ Ha), (g_known _ _ _ _ Hb).
  - intros x Hx. by apply (g_kept _ _ _ _ Ha), (g_kept _ _ _ _ Hb).
  - rewrite packets_app, <-app_assoc. etrans; [|apply (g_once _ _ _ _ Ha)]. apply submseteq_app; [done|apply (g_once _ _ _ _ Hb)].
  - intros m p [Hp|Hp]%elem_of_app; [by apply (g_right _ _ _ _ Ha)|].
    destruct (g_right _ _ _ _ Hb m p Hp) as (hop & n & Hin & Hn & Hm & Ht). exists hop, n.
    split; [by apply (g_kept _ _ _ _ Ha)|]. split; [by apply (g_known _ _ _ _ Ha)|done].
Qed.

(** [send_to] hands over the frame or nothing. *)
Lemma send_to_cases dst p proto e :
  exists d fs, (fs = [] \/ fs = [(dst, proto, p)]) /\
    send_to dst p proto e = mk_eth d (neighbors e) (ip_address e) (ip_broadcast e) (pending_packets e) (sent e ++ fs).
Proof.
  unfold send_to. destruct (recycle_tx_buffers (inner e)) as [ok d]. destruct ok; simpl; [|exists d, []; rewrite app_nil_r; auto].
  destruct (alloc_tx_buffer _ d) as [ok d']. destruct ok; simpl; [|exists d', []; rewrite app_nil_r; auto].
  destruct (transmit _ d') as [ok d'']. exists d'', [(dst, proto, p)]. auto.
Qed.

Lemma request_arp_goes now target e : exists fs, packets fs = [] /\ goes now e (request_arp target e) fs.
Proof.
  destruct target as [t|t]; [|exists []; split; [done|apply goes_refl]]. unfold request_arp.
  destruct (send_to_cases BROADCAST (arp_emit (mk_arp Request (my_mac e) (ip_address e) BROADCAST t)) PArp e) as (d & fs & Hfs & ->).
  exists fs. assert (Hp : packets fs = []) by (by destruct Hfs as [-> | ->]). split; [done|].
  split; simpl; [done|done| |done|by rewrite Hp|].
  - intros ip n. rewrite lookup_insert. case_decide; [done|]. done.
  - intros m p Hin. destruct Hfs as [-> | ->]; [by apply not_elem_of_nil in Hin|]. by apply list_elem_of_singleton in Hin.
Qed.

Lemma flush_goes now fuel : forall e, exists fs, goes now e (flush_pending fuel now e) fs.
Proof.
  induction fuel as [|fuel IH]; intros e; simpl; [exists []; apply goes_refl|].
  pose proof (pb_view_dequeue (pending_packets e)) as Hq. destruct (pb_dequeue (pending_packets e)) as [[[hop buf] q]|]; [|exists []; apply goes_refl].
  destruct (neighbors e !! hop) as [[n|]|] eqn:Hn; [|exists []; apply goes_refl..].
  destruct (Z.leb_spec (expires_at n) now) as [Hx|Hx]; [destruct (request_arp_goes now hop e) as (fs & _ & Hg); by exists fs|].
  destruct (send_to_cases (hardware_address n) buf PIpv4 e) as (d & fs & Hfs & ->).
  set (e1 := set_pending q _). destruct (IH e1) as [gs Hg]. exists (fs ++ gs). eapply goes_trans; [|exact Hg]. subst e1.
  split; simpl; [done|done|done| | |].
  - intros x Hx'. rewrite Hq. by right.
  - rewrite Hq. simpl. destruct Hfs as [-> | ->]; simpl; [by apply submseteq_cons|done].
  - intros m p Hin. destruct Hfs as [-> | ->]; [by apply not_elem_of_nil in Hin|]. apply list_elem_of_singleton in Hin as [= -> ->].
    exists hop, n. split; [rewrite Hq; by left|done].
Qed.

(** ** What a history leaves *)

(** The addresses that are known were said; the packets that wait, and those that were sent, are
    different ones of those offered. *)
Record sane (bc : option Z) (off : list (IpAddress * list Z)) (heard : list (IpAddress * mac * Z)) (e : EthernetDevice) : Prop := {
  s_bc : ip_broadcast e = bc;
  s_known ip n : neighbors e !! ip = Some (Some n) -> (ip, hardware_address n, expires_at n - NEIGHBOR_TTL) ∈ heard;
  s_waiting x : x ∈ waiting e -> x ∈ off;
  s_once : packets (sent e) ++ (waiting e).*2 ⊆+ off.*2;
}.

(** A packet may be sent to [m] at [now]: to all, if its next hop is the broadcast address, and
    otherwise if [m] was said to be the address of the next hop, less than a minute ago. *)
Definition may_go (bc : option Z) (off : list (IpAddress * list Z)) (heard : list (IpAddress * mac * Z)) (now : Z) (m : mac) (p : list Z) : Prop :=
  exists hop, (hop, p) ∈ off /\
    ((m = BROADCAST /\ (ip_is_broadcast hop = true \/ Ipv4 <$> bc = Some hop)) \/
     (exists t, (hop, m, t) ∈ heard /\ now < t + NEIGHBOR_TTL)).

Definition frames_ok bc off heard now (fs : list (mac * EthernetProtocol * list Z)) : Prop :=
  forall m p, (m, PIpv4, p) ∈ fs -> may_go bc off heard now m p.

Lemma sane_goes bc off heard now e e' fs : sane bc off heard e -> goes now e e' fs -> sane bc off heard e' /\ frames_ok bc off heard now fs.
Proof.
  intros Hs Hg. split; [split|].
  - destruct (g_ip _ _ _ _ Hg) as [_ ->]. apply Hs.
  - intros ip n Hn. apply (s_known _ _ _ _ Hs). by apply (g_known _ _ _ _ Hg).
  - intros x Hx. apply (s_waiting _ _ _ _ Hs). by apply (g_kept _ _ _ _ Hg).
  - rewrite (g_sent _ _ _ _ Hg), packets_app, <-app_assoc. etrans; [|apply (s_once _ _ _ _ Hs)].
    apply submseteq_app; [done|apply (g_once _ _ _ _ Hg)].
  - intros m p Hin. destruct (g_right _ _ _ _ Hg m p Hin) as (hop & n & Hw & Hn & <- & Ht). exists hop.
    split; [by apply (s_waiting _ _ _ _ Hs)|]. right. exists (expires_at n - NEIGHBOR_TTL). split; [by apply (s_known _ _ _ _ Hs)|lia].
Qed.

(** What was heard stays true of more. *)
Lemma sane_mono bc off off' heard heard' e :
  sane bc off heard e -> off ⊆+ off' -> heard ⊆ heard' -> sane bc off' heard' e.
Proof.
  intros Hs Ho Hh. split; [apply Hs| | |].
  - intros ip n Hn. apply Hh. by apply (s_known _ _ _ _ Hs).
  - intros x Hx. eapply elem_of_submseteq; [|exact Ho]. by apply (s_waiting _ _ _ _ Hs).
  - etrans; [apply (s_once _ _ _ _ Hs)|]. by apply fmap_submseteq.
Qed.

Lemma goes_arp_frame now dst p e : exists fs, goes now e (send_to dst p PArp e) fs.
Proof.
  destruct (send_to_cases dst p PArp e) as (d & fs & Hfs & ->). exists fs. assert (Hp : packets fs = []) by (by destruct Hfs as [-> | ->]).
  split; simpl; [done|done|done|done|by rewrite Hp|]. intros m q Hin.
  destruct Hfs as [-> | ->]; [by apply not_elem_of_nil in Hin|]. by apply list_elem_of_singleton in Hin.
Qed.

(** The neighbour that an ARP packet makes known. *)
Definition heed (r : ArpRepr) (now : Z) (e : EthernetDevice) : EthernetDevice :=
  set_neighbors (<[Ipv4 (source_protocol_addr r) := Some (mk_neighbor (source_hardware_addr r) (now + NEIGHBOR_TTL))]> (neighbors e)) e.

Lemma process_arp_goes payload now e :
  match arp_parse payload with
  | Some r => if arp_for e r then exists fs, goes now (heed r now e) (process_arp payload now e) fs else process_arp payload now e = e
  | None => process_arp payload now e = e
  end.
Proof.
  unfold process_arp. destruct (arp_parse payload) as [r|]; [|done]. unfold arp_for.
  destruct (target_hardware_addr r =? EMPTY_MAC), (target_hardware_addr r =? BROADCAST), (my_mac e =? target_hardware_addr r); cbn [negb andb orb]; try done;
    (destruct (operation r) eqn:Hop; [| |done]);
    (destruct (mac_is_unicast _); cbn [negb andb orb]; [|done]);
    (destruct (_ || _ || _); cbn [negb andb orb]; [done|]);
    (destruct (ip_address e =? _); cbn [negb andb orb]; [|done]); fold (heed r now e).
  all: set (e1 := heed r now e); cbv zeta.
  all: try (set (e2 := send_to _ _ PArp e1); assert (Hg2 : exists fs, goes now e1 e2 fs) by apply goes_arp_frame; destruct Hg2 as [fs2 Hg2]).
  all: try (destruct (pb_dequeue (pending_packets e2)) as [[[h b] q]|]; [case_bool_decide|]; try (by exists fs2);
            destruct (flush_goes now (S (length (waiting e2))) e2) as [gs Hg]; exists (fs2 ++ gs); by eapply goes_trans).
  all: destruct (pb_dequeue (pending_packets e1)) as [[[h b] q]|]; [case_bool_decide|]; try (exists []; apply goes_refl);
       apply flush_goes.
Qed.

Lemma sane_inner bc off heard d e : sane bc off heard e -> sane bc off heard (set_inner d e).
Proof. intros Hs. split; [apply Hs|apply (s_known _ _ _ _ Hs)|apply (s_waiting _ _ _ _ Hs)|apply Hs]. Qed.

Lemma sane_heed bc off heard r now e :
  sane bc off heard e -> sane bc off (heard ++ [(Ipv4 (source_protocol_addr r), source_hardware_addr r, now)]) (heed r now e).
Proof.
  intros Hs. split; simpl; [apply Hs| |apply (s_waiting _ _ _ _ Hs)|apply Hs].
  intros ip n. rewrite lookup_insert. case_decide as Hi.
  - intros [= <-]. subst ip. simpl. replace (now + NEIGHBOR_TTL - NEIGHBOR_TTL) with now by lia. apply elem_of_app. right. by apply list_elem_of_singleton.
  - intros Hn. apply elem_of_app. left. by apply (s_known _ _ _ _ Hs).
Qed.

(** A frame that carries a packet which was just offered. *)
Lemma sane_packet bc off heard dst hop p e :
  sane bc off heard e -> sane bc (off ++ [(hop, p)]) heard (send_to dst p PIpv4 e).
Proof.
  intros Hs. destruct (send_to_cases dst p PIpv4 e) as (d & fs & Hfs & ->).
  split; simpl; [apply Hs|apply (s_known _ _ _ _ Hs)|intros x Hx; apply elem_of_app; left; by apply (s_waiting _ _ _ _ Hs)|].
  rewrite packets_app, fmap_app. simpl. destruct Hfs as [-> | ->]; simpl.
  - rewrite app_nil_r. etrans; [apply (s_once _ _ _ _ Hs)|]. apply submseteq_inserts_r. done.
  - rewrite <-app_assoc, (Permutation_app_comm [p]), app_assoc. apply submseteq_app; [apply (s_once _ _ _ _ Hs)|done].
Qed.

Lemma sane_enqueue bc off heard hop p q e :
  sane bc off heard e -> pb_enqueue hop p (pending_packets e) = Some q -> sane bc (off ++ [(hop, p)]) heard (set_pending q e).
Proof.
  intros Hs Hq. apply pb_view_enqueue in Hq. split; simpl; [apply Hs|apply (s_known _ _ _ _ Hs)| |]; rewrite Hq.
  - intros x [Hx|Hx]%elem_of_app; apply elem_of_app; [left; by apply (s_waiting _ _ _ _ Hs)|by right].
  - rewrite !fmap_app, app_assoc. simpl. apply submseteq_app; [apply (s_once _ _ _ _ Hs)|done].
Qed.

Lemma recv_step bc off heard b now e e' :
  sane bc off heard e -> eth_step (ERecv b now) e = Some e' ->
  exists fs, sent e' = sent e ++ fs /\ sane bc off (heard ++ says (ERecv b now) e) e' /\ frames_ok bc off (heard ++ says (ERecv b now) e) now fs.
Proof.
  intros Hs. assert (Hno : forall d hs, exists fs, sent (set_inner d e) = sent e ++ fs /\ sane bc off (heard ++ hs) (set_inner d e) /\ frames_ok bc off (heard ++ hs) now fs).
  { intros d hs. exists []. split; [by rewrite app_nil_r|]. split; [|intros ? ? Hx; by apply not_elem_of_nil in Hx].
    apply sane_inner. eapply sane_mono; [exact Hs|done|]. intros x. rewrite elem_of_app. tauto. }
  simpl. unfold recv_turn. destruct (receive (inner e)) as [[f|] d]; [|intros [= <-]; apply Hno]. simpl. unfold handle_frame.
  destruct (eth_parse f) as [[[dst proto] payload]|]; [|intros [= <-]; apply Hno].
  destruct (negb (dst =? BROADCAST) && negb (dst =? EMPTY_MAC) && negb (dst =? my_mac (set_inner d e))).
  { intros [= <-]. destruct proto; apply Hno. }
  destruct proto; [destruct (pb_enqueue () payload b); [|done]; intros [= <-]; apply Hno| |intros [= <-]; apply Hno].
  intros [= <-]. pose proof (process_arp_goes payload now (set_inner d e)) as Hp.
  destruct (arp_parse payload) as [r|]; [|rewrite Hp; apply Hno]. destruct (arp_for (set_inner d e) r); [|rewrite Hp; apply Hno].
  destruct Hp as [fs Hg]. exists fs. split; [by rewrite (g_sent _ _ _ _ Hg)|]. eapply sane_goes; [|exact Hg]. apply sane_heed. by apply sane_inner.
Qed.

Lemma send_step bc off heard hop p now e :
  sane bc off heard e ->
  exists fs, sent (eth_send hop p now e) = sent e ++ fs /\ sane bc (off ++ [(hop, p)]) heard (eth_send hop p now e) /\
    frames_ok bc (off ++ [(hop, p)]) heard now fs.
Proof.
  intros Hs. unfold eth_send.
  assert (Hlast : (hop, p) ∈ off ++ [(hop, p)]) by (apply elem_of_app; right; by apply list_elem_of_singleton).
  assert (Hto : forall dst, may_go bc (off ++ [(hop, p)]) heard now dst p ->
    exists fs, sent (send_to dst p PIpv4 e) = sent e ++ fs /\ sane bc (off ++ [(hop, p)]) heard (send_to dst p PIpv4 e) /\
      frames_ok bc (off ++ [(hop, p)]) heard now fs).
  { intros dst Hdst. pose proof (sane_packet bc off heard dst hop p e Hs) as Hs'. destruct (send_to_cases dst p PIpv4 e) as (d & fs & Hfs & Heq).
    rewrite Heq in *. exists fs. split; [done|]. split; [done|]. intros m q Hin. destruct Hfs as [-> | ->]; [by apply not_elem_of_nil in Hin|].
    by apply list_elem_of_singleton in Hin as [= -> ->]. }
  destruct (ip_is_broadcast hop || bool_decide (Ipv4 <$> ip_broadcast e = Some hop)) eqn:Hb.
  { apply Hto. exists hop. split; [done|]. left. split; [done|]. rewrite <-(s_bc _ _ _ _ Hs). apply orb_true_iff in Hb.
    by rewrite bool_decide_eq_true in Hb. }
  assert (Hqueue : forall b : bool, exists fs, let e1 := if b then request_arp hop e else e in
    let e2 := if pb_is_full (pending_packets e1) then e1 else match pb_enqueue hop p (pending_packets e1) with Some q => set_pending q e1 | None => e1 end in
    sent e2 = sent e ++ fs /\ sane bc (off ++ [(hop, p)]) heard e2 /\ frames_ok bc (off ++ [(hop, p)]) heard now fs).
  { intros b. set (e1 := if b then request_arp hop e else e). cbv zeta. assert (Hg : exists fs, packets fs = [] /\ goes now e e1 fs).
    { subst e1. destruct b; [apply request_arp_goes|]. exists []. split; [done|apply goes_refl]. }
    destruct Hg as (fs & Hfs & Hg). destruct (sane_goes _ _ _ _ _ _ _ Hs Hg) as [Hs1 _]. exists fs.
    assert (Hok : frames_ok bc (off ++ [(hop, p)]) heard now fs).
    { intros m q Hin. assert (Hq : q ∈ packets fs) by (unfold packets; apply list_elem_of_omap; eexists; split; [exact Hin|done]).
      rewrite Hfs in Hq. by apply not_elem_of_nil in Hq. }
    assert (Hs1' : sane bc (off ++ [(hop, p)]) heard e1) by (eapply sane_mono; [exact Hs1|apply submseteq_inserts_r; done|done]).
    destruct (pb_is_full _); [split; [apply Hg|done]|]. destruct (pb_enqueue _ _ _) as [q|] eqn:Hq; [|split; [apply Hg|done]].
    split; [apply Hg|]. split; [by eapply sane_enqueue|done]. }
  destruct (neighbors e !! hop) as [[n|]|] eqn:Hn; [|apply (Hqueue false)|apply (Hqueue true)].
  destruct (Z.ltb_spec now (expires_at n)); [|apply (Hqueue true)]. apply Hto. exists hop. split; [done|]. right.
  exists (expires_at n - NEIGHBOR_TTL). split; [by apply (s_known _ _ _ _ Hs)|lia].
Qed.

Lemma offered_app evs evs' : offered (evs ++ evs') = offered evs ++ offered evs'.
Proof. apply omap_app. Qed.

Lemma step_sane bc off heard ev e e' :
  sane bc off heard e -> eth_step ev e = Some e' ->
  exists fs, sent e' = sent e ++ fs /\ sane bc (off ++ offered [ev]) (heard ++ says ev e) e' /\
    frames_ok bc (off ++ offered [ev]) (heard ++ says ev e) (at_time ev) fs.
Proof.
  intros Hs. destruct ev as [hop p now|b now].
  - intros [= <-]. simpl. rewrite app_nil_r. by apply send_step.
  - intros He. change (offered [ERecv b now]) with (@nil (IpAddress * list Z)). rewrite app_nil_r. by apply recv_step.
Qed.

Lemma run_sane bc evs : forall off heard e e',
  sane bc off heard e -> eth_run evs e = Some e' -> sane bc (off ++ offered evs) (heard ++ said evs e) e'.
Proof.
  induction evs as [|ev evs IH]; intros off heard e e' Hs; simpl; [intros [= <-]; by rewrite !app_nil_r|].
  destruct (eth_step ev e) as [e1|] eqn:He; [|done]. simpl. intros Hr. destruct (step_sane _ _ _ _ _ _ Hs He) as (fs & _ & Hs1 & _).
  specialize (IH _ _ _ _ Hs1 Hr). rewrite <-!app_assoc in IH. by rewrite <-(offered_app [ev] evs) in IH.
Qed.

Lemma new_sane d ip bc : sane bc [] [] (eth_new d ip bc).
Proof. split; simpl; [done|done|..]; rewrite pb_view_empty; done. Qed.

(** C26: After any history of packets to send and of frames received, no packet has been sent or kept
    that was not offered, nor any more often than it was; and whatever event comes next, the packets it
    sends go to all hosts if their next hop is the broadcast address, and otherwise to a hardware
    address that the next hop gave as its own in an ARP packet for this device, less than a minute
    before. *)
Theorem packets_go_where_they_should (d : D) (ip : Z) (bc : option Z) (evs : list eth_event) (ev : eth_event) (e e' : EthernetDevice) :
  eth_run evs (eth_new d ip bc) = Some e -> eth_step ev e = Some e' ->
  packets (sent e') ++ (waiting e').*2 ⊆+ (offered (evs ++ [ev])).*2 /\
  exists fs, sent e' = sent e ++ fs /\
    forall m p, (m, PIpv4, p) ∈ fs ->
      may_go bc (offered (evs ++ [ev])) (said evs (eth_new d ip bc) ++ says ev e) (at_time ev) m p.
Proof.
  intros Hr He. pose proof (run_sane bc evs [] [] _ _ (new_sane d ip bc) Hr) as Hs.
  destruct (step_sane _ _ _ _ _ _ Hs He) as (fs & Hfs & Hs' & Hok). rewrite !app_nil_l in Hs', Hok. rewrite offered_app.
  split; [apply Hs'|]. exists fs. split; [done|exact Hok].
Qed.

(** ** Limits *)

Lemma request_keeps hop target e : neighbors e !! hop = Some None -> neighbors (request_arp target e) !! hop = Some None.
Proof.
  intros Hn. unfold request_arp. destruct target as [t|t]; [|done].
  destruct (send_to_cases BROADCAST (arp_emit (mk_arp Request (my_mac e) (ip_address e) BROADCAST t)) PArp e) as (d & fs & _ & ->).
  simpl. rewrite lookup_insert. by case_decide.
Qed.

Lemma send_to_neighbors dst p proto e : neighbors (send_to dst p proto e) = neighbors e.
Proof. destruct (send_to_cases dst p proto e) as (d & fs & _ & ->). done. Qed.

Lemma flush_keeps hop now fuel : forall e, neighbors e !! hop = Some None -> neighbors (flush_pending fuel now e) !! hop = Some None.
Proof.
  induction fuel as [|fuel IH]; intros e Hn; simpl; [done|]. destruct (pb_dequeue _) as [[[h b] q]|]; [|done].
  destruct (neighbors e !! h) as [[n|]|]; [|done..]. case_match; [by apply request_keeps|]. apply IH. simpl. by rewrite send_to_neighbors.
Qed.

Lemma step_keeps hop ev e e' :
  neighbors e !! hop = Some None -> (forall m t, (hop, m, t) ∉ says ev e) -> eth_step ev e = Some e' -> neighbors e' !! hop = Some None.
Proof.
  intros Hn Hno. destruct ev as [h p now|b now]; simpl.
  - intros [= <-]. unfold eth_send. case_match; [by rewrite send_to_neighbors|].
    assert (Hq : forall e, neighbors e !! hop = Some None ->
      neighbors (if pb_is_full (pending_packets e) then e else match pb_enqueue h p (pending_packets e) with Some q => set_pending q e | None => e end) !! hop = Some None).
    { intros e1 H1. by repeat case_match. }
    destruct (neighbors e !! h) as [[n|]|]; [case_match; [by rewrite send_to_neighbors|]|..]; apply Hq; try done; by apply request_keeps.
  - simpl in Hno. unfold recv_turn. destruct (receive (inner e)) as [[f|] d]; [|by intros [= <-]]. simpl in Hno. unfold handle_frame.
    destruct (eth_parse f) as [[[dst proto] payload]|]; [|by intros [= <-]].
    destruct (negb (dst =? BROADCAST) && negb (dst =? EMPTY_MAC) && negb (dst =? my_mac (set_inner d e))); [by intros [= <-]|].
    destruct proto; [by destruct (pb_enqueue () payload b); [intros [= <-]|]| |by intros [= <-]]. intros [= <-].
    pose proof (process_arp_goes payload now (set_inner d e)) as Hp. destruct (arp_parse payload) as [r|] eqn:Hpar; [|by rewrite Hp].
    destruct (arp_for (set_inner d e) r) eqn:Hfor; [|by rewrite Hp]. clear Hp.
    assert (Hne : Ipv4 (source_protocol_addr r) <> hop).
    { intros <-. apply (Hno (source_hardware_addr r) now). by apply list_elem_of_singleton. }
    unfold process_arp. rewrite Hpar. case_match; [done|]. destruct (operation r); try done; repeat (case_match; [done|]);
      (case_match; [|simpl; rewrite ?send_to_neighbors; simpl; by rewrite lookup_insert_ne]);
      repeat case_match; try apply flush_keeps; simpl; rewrite ?send_to_neighbors; simpl; by rewrite lookup_insert_ne.
Qed.

(** A host is asked for its address once: if the request or the reply is lost, and the host says
    nothing by itself, then however many packets for it follow, none is sent and no other request. *)
Theorem lost_arp_request_is_final (hop : IpAddress) (evs : list eth_event) (e e' : EthernetDevice) (p : list Z) (now : Z) :
  neighbors e !! hop = Some None -> ip_is_broadcast hop = false -> Ipv4 <$> ip_broadcast e' <> Some hop ->
  eth_run evs e = Some e' -> (forall m t, (hop, m, t) ∉ said evs e) ->
  sent (eth_send hop p now e') = sent e' /\ neighbors (eth_send hop p now e') !! hop = Some None.
Proof.
  intros Hn Hb Hbc Hr Hno. assert (Hn' : neighbors e' !! hop = Some None).
  { clear Hbc. revert e Hn Hr Hno. induction evs as [|ev evs IH]; intros e Hn; simpl; [by intros [= <-]|].
    destruct (eth_step ev e) as [e1|] eqn:He; [|done]. simpl. intros Hr Hno. apply (IH e1); [|done|].
    - eapply step_keeps; [exact Hn| |exact He]. intros m t Hin. apply (Hno m t). apply elem_of_app. by left.
    - intros m t Hin. apply (Hno m t). apply elem_of_app. by right. }
  unfold eth_send. rewrite Hb, bool_decide_eq_false_2, Hn' by done. simpl. split; repeat case_match; done.
Qed.
End ethernet.

(** ** A network *)

(** Frames as lists of numbers, a driver with the frames it will receive, and queues as lists. *)
#[local] Instance list_wire : Wire := {
  eth_parse f := match f with
                 | dst :: proto :: p => Some (dst, if proto =? 4 then PIpv4 else if proto =? 6 then PArp else POther, p)
                 | _ => None
                 end;
  arp_parse p := match p with
                 | [op; sh; sp; th; tp] => Some (mk_arp (if op =? 1 then Request else if op =? 2 then Reply else Unknown) sh sp th tp)
                 | _ => None
                 end;
  arp_emit r := [match operation r with Request => 1 | Reply => 2 | Unknown => 0 end; source_hardware_addr r; source_protocol_addr r;
                 target_hardware_addr r; target_protocol_addr r];
  mac_is_unicast m := negb (m =? BROADCAST);
  ipv4_is_broadcast a := a =? 2 ^ 32 - 1;
  ipv4_is_multicast a := (224 * 2 ^ 24 <=? a) && (a <? 240 * 2 ^ 24);
  ipv4_is_unspecified a := a =? 0;
  ip_is_broadcast i := match i with Ipv4 a => a =? 2 ^ 32 - 1 | Ipv6 _ => false end;
}.
#[local] Instance list_driver : NetDriver (list (list Z)) := {
  mac_address _ := 7;
  recycle_tx_buffers d := (true, d);
  alloc_tx_buffer _ d := (true, d);
  transmit _ d := (true, d);
  receive d := match d with f :: d => (Some f, d) | [] => (None, []) end;
}.
#[local] Instance list_buffer H : PacketBuffer (list (H * list Z)) H := {
  pb_empty := [];
  pb_view q := q;
  pb_is_full q := (32 <=? length q)%nat;
  pb_enqueue h p q := if (length q <? 32)%nat then Some (q ++ [(h, p)]) else None;
  pb_dequeue q := match q with x :: q => Some (x.1, x.2, q) | [] => None end;
}.
#[local] Instance list_buffer_laws H : PacketBufferLaws (list (H * list Z)) H.
Proof.
  split; simpl; [done| |].
  - intros h p q q'. case_match; [|done]. by intros [= <-].
  - intros [|[h p] q]; done.
Qed.

(** Host 9 is asked, answers with its address 42, and the packet that waited is sent. *)
Definition eth_start : EthernetDevice (Q := list (IpAddress * list Z)) := eth_new [[7; 6; 2; 42; 9; 7; 5]] 5 (Some 255).
Definition eth_trace : list (eth_event (QI := list (() * list Z))) := [ESend (Ipv4 9) [1; 2] 0; ERecv [] 10].
Definition eth_end : EthernetDevice := default eth_start (eth_run eth_trace eth_start).

Lemma packets_go_where_they_should_witness :
  sent eth_end = [(BROADCAST, PArp, [1; 7; 5; BROADCAST; 9]); (42, PIpv4, [1; 2])] /\
  packets (sent (eth_send (Ipv4 9) [3] 100 eth_end)) ++ [] ⊆+ [[1; 2]; [3]].
Proof.
  split; [vm_compute; reflexivity|].
  assert (Hr : eth_run eth_trace eth_start = Some eth_end) by (vm_compute; reflexivity).
  assert (He : eth_step (QI := list (() * list Z)) (ESend (Ipv4 9) [3] 100) eth_end = Some (eth_send (Ipv4 9) [3] 100 eth_end)) by reflexivity.
  pose proof (proj1 (packets_go_where_they_should _ _ _ _ _ _ _ Hr He)) as Hp. vm_compute in Hp |- *. exact Hp.
Defined.

(** Host 8 is asked and does not answer. *)
Definition asked : EthernetDevice (Q := list (IpAddress * list Z)) := eth_send (Ipv4 8) [1] 0 (eth_new [] 5 (Some 255)).
Lemma lost_arp_request_is_final_witness :
  sent asked = [(BROADCAST, PArp, [1; 7; 5; BROADCAST; 8])] /\
  sent (eth_send (Ipv4 8) [3] 90000000 (eth_send (Ipv4 8) [2] 60000000 asked)) = sent (eth_send (Ipv4 8) [2] 60000000 asked).
Proof.
  split; [vm_compute; reflexivity|].
  refine (proj1 (lost_arp_request_is_final (QI := list (() * list Z)) (Ipv4 8) [ESend (Ipv4 8) [2] 60000000] asked _ [3] 90000000 _ _ _ _ _));
    [vm_compute; reflexivity|reflexivity|vm_compute; discriminate|reflexivity|].
  intros m t Hin. simpl in Hin. by apply not_elem_of_nil in Hin.
Defined.

(** A packet overtakes one to the same host that was offered before it, if that waits behind a packet to
    a host that does not answer. *)
Definition overtaking : list (eth_event (QI := list (() * list Z))) :=
  [ESend (Ipv4 8) [1] 0; ESend (Ipv4 9) [2] 0; ERecv [] 10; ESend (Ipv4 9) [3] 20].
Theorem packets_overtake :
  exists e, eth_run overtaking eth_start = Some e /\ packets (sent e) = [[3]] /\ pb_view (pending_packets e) = [(Ipv4 8, [1]); (Ipv4 9, [2])].
Proof. eexists. split; [vm_compute; reflexivity|]. by vm_compute. Qed.
