(* ===== verification/Router.v ===== *)
(** * Routing

    [modules/axnet-ng/src/router.rs]: the table of routes, which is kept sorted by the length of the
    prefixes, and the router that moves packets between the stack and the devices; the loopback device
    of [device/loopback.rs].  Address ranges ([IpCidr]) and the format of packets are parameters. *)

From S2P Require Import Prelude Ethernet.

Class Cidr (C : Type) := { prefix_len : C -> Z; contains_addr : C -> IpAddress -> bool }.

(** A packet: source, destination, and whether that is a broadcast (IPv4) or multicast (IPv6) address;
    [None] if it is invalid. *)
Class IpWire := { ip_parse : list Z -> option (IpAddress * IpAddress * bool) }.

Section table.
Context {C : Type} `{Cidr C}.

Record Rule : Type := mk_rule { filter_ : C; via : option IpAddress; dev : Z; src : IpAddress }.

(** [binary_search_by] of the standard library, with the first loop turned into a recursion: the
    index of an element that compares equal, or where to insert one. *)
Fixpoint search_loop (fuel : nat) (cmp : nat -> comparison) (base size : nat) : nat :=
  match fuel with
  | O => base
  | S fuel =>
      if (size <=? 1)%nat then base
      else
        let half := (size / 2)%nat in
        let mid := (base + half)%nat in
        let base' := match cmp mid with Gt => base | _ => mid end in
        search_loop fuel cmp base' (size - half)
  end.
Definition binary_search_by (cmp : Rule -> comparison) (l : list Rule) : nat :=
  match l with
  | [] => 0%nat
  | d :: _ =>
      let at_ i := cmp (nth i l d) in
      let base := search_loop (length l) at_ 0 (length l) in
      match at_ base with Eq => base | Lt => S base | Gt => base end
  end.

(** [RouteTable::add_rule] and [lookup]. *)
Definition add_rule (rule : Rule) (rules : list Rule) : list Rule :=
  let idx := binary_search_by (fun it => prefix_len (filter_ rule) ?= prefix_len (filter_ it)) rules in
  take idx rules ++ rule :: drop idx rules.
Definition route_lookup (dst : IpAddress) (rules : list Rule) : option Rule :=
  head (filter (fun r => contains_addr (filter_ r) dst = true) rules).

(** ** The longest prefix *)

Definition by_prefix (l : list Rule) : Prop :=
  forall i j r r', l !! i = Some r -> l !! j = Some r' -> (i <= j)%nat -> prefix_len (filter_ r') <= prefix_len (filter_ r).

(** What the loop keeps: the element at [base] is not smaller than the key unless [base] is the first,
    and those from [base + size] on are smaller. *)
Lemma search_loop_spec (p : nat -> Z) (key : Z) (n : nat) (fuel : nat) : forall base size,
  (forall i j, (i <= j < n)%nat -> p j <= p i) -> (0 < size)%nat -> (base + size <= n)%nat -> (size <= fuel)%nat ->
  (base = 0%nat \/ key <= p base) -> (forall i, (base + size <= i < n)%nat -> p i < key) ->
  let b := search_loop fuel (fun i => key ?= p i) base size in
  (b < n)%nat /\ (b = 0%nat \/ key <= p b) /\ (forall i, (b < i < n)%nat -> p i < key).
Proof.
  induction fuel as [|fuel IH]; intros base size Hp Hs Hn Hf Hb Hgt; [lia|]. cbn [search_loop].
  destruct (Nat.leb_spec size 1) as [H1|H1].
  { split; [lia|]. split; [done|]. intros i Hi. apply Hgt. lia. }
  pose proof (Nat.div_lt size 2 ltac:(lia) ltac:(lia)). pose proof (Nat.Div0.mul_div_le size 2). assert (0 < size / 2)%nat by (apply Nat.div_str_pos; lia).
  pose proof (Z.compare_spec key (p (base + size / 2)%nat)) as Hc.
  assert (Hup : forall i, (base + size / 2 + (size - size / 2) <= i < n)%nat -> p i < key) by (intros i Hi; apply Hgt; lia).
  destruct (key ?= p (base + size / 2)%nat); inversion Hc as [He|Hl|Hg].
  - apply IH; [done|lia..|right; lia|done].
  - apply IH; [done|lia..|right; lia|done].
  - apply IH; [done|lia..|done|]. intros i Hi. pose proof (Hp (base + size / 2)%nat i ltac:(lia)). lia.
Qed.

(** The index splits the table into rules with at least and at most the prefix of the new one. *)
Lemma insertion_point (key : Z) (l : list Rule) :
  by_prefix l ->
  let idx := binary_search_by (fun it => key ?= prefix_len (filter_ it)) l in
  forall i r, l !! i = Some r -> if (i <? idx)%nat then key <= prefix_len (filter_ r) else prefix_len (filter_ r) <= key.
Proof.
  intros Hl. destruct l as [|d l']; [done|]. set (l := d :: l') in *.
  set (p := fun i => prefix_len (filter_ (nth i l d))).
  assert (Hp : forall i r, l !! i = Some r -> p i = prefix_len (filter_ r)) by (intros i r Hi; unfold p; by rewrite (nth_lookup_Some _ _ d _ Hi)).
  assert (Hsort : forall i j, (i <= j < length l)%nat -> p j <= p i).
  { intros i j Hij. destruct (lookup_lt_is_Some_2 l i ltac:(lia)) as [ri Hi], (lookup_lt_is_Some_2 l j ltac:(lia)) as [rj Hj].
    rewrite (Hp i ri Hi), (Hp j rj Hj). apply (Hl i j); [done..|lia]. }
  cbv zeta.
  destruct (search_loop_spec p key (length l) (length l) 0 (length l) Hsort ltac:(simpl; lia) ltac:(lia) ltac:(lia) ltac:(by left) ltac:(intros; lia))
    as (Hlt & Hb & Hgt).
  set (b := search_loop _ _ _ _) in *.
  assert (binary_search_by (fun it => key ?= prefix_len (filter_ it)) l = match key ?= p b with Eq => b | Lt => S b | Gt => b end) as -> by reflexivity.
  intros i r Hi. pose proof (lookup_lt_Some _ _ _ Hi) as Hil. rewrite <-(Hp i r Hi).
  pose proof (Z.compare_spec key (p b)) as Hc. destruct (key ?= p b); inversion Hc as [Heq|Hlt'|Hgt']; clear Hc.
  - destruct (Nat.ltb_spec i b); [pose proof (Hsort i b ltac:(lia)); lia|pose proof (Hsort b i ltac:(lia)); lia].
  - destruct (Nat.ltb_spec i (S b)); [pose proof (Hsort i b ltac:(lia)); lia|pose proof (Hgt i ltac:(lia)); lia].
  - assert (b = 0%nat) as -> by lia. destruct (Nat.ltb_spec i 0); [lia|]. pose proof (Hsort 0%nat i ltac:(lia)). lia.
Qed.
Lemma by_prefix_app l1 l2 :
  by_prefix (l1 ++ l2) <-> by_prefix l1 /\ by_prefix l2 /\ forall r r', r ∈ l1 -> r' ∈ l2 -> prefix_len (filter_ r') <= prefix_len (filter_ r).
Proof.
  split.
  - intros Hl. split; [|split].
    + intros i j r r' Hi Hj. apply Hl; by apply lookup_app_l_Some.
    + intros i j r r' Hi Hj Hij. apply (Hl (length l1 + i)%nat (length l1 + j)%nat); [..|lia];
        rewrite lookup_app_r by lia; by rewrite Nat.add_sub_swap, Nat.sub_diag.
    + intros r r' Hr Hr'. apply list_elem_of_lookup in Hr as [i Hi], Hr' as [j Hj]. pose proof (lookup_lt_Some _ _ _ Hi).
      apply (Hl i (length l1 + j)%nat); [by apply lookup_app_l_Some| |lia]. rewrite lookup_app_r by lia. by rewrite Nat.add_sub_swap, Nat.sub_diag.
  - intros (H1 & H2 & H12) i j r r' Hi Hj Hij. apply lookup_app_Some in Hi as [Hi|[Hli Hi]], Hj as [Hj|[Hlj Hj]].
    + by apply (H1 i j).
    + apply H12; by eapply list_elem_of_lookup_2.
    + apply lookup_lt_Some in Hj. lia.
    + apply (H2 _ _ _ _ Hi Hj). lia.
Qed.

Lemma add_rule_sorted rule l : by_prefix l -> by_prefix (add_rule rule l).
Proof.
  intros Hl. pose proof (insertion_point (prefix_len (filter_ rule)) l Hl) as Hi. unfold add_rule. set (idx := binary_search_by _ l) in *. cbv zeta in Hi.
  pose proof Hl as Hl'. rewrite <-(take_drop idx l) in Hl'. apply by_prefix_app in Hl' as (H1 & H2 & H12).
  change (rule :: drop idx l) with ([rule] ++ drop idx l). apply by_prefix_app. split; [done|].
  assert (Hlo : forall r, r ∈ drop idx l -> prefix_len (filter_ r) <= prefix_len (filter_ rule)).
  { intros r Hr. apply list_elem_of_lookup in Hr as [k Hk]. rewrite lookup_drop in Hk. specialize (Hi _ _ Hk).
    by destruct (Nat.ltb_spec (idx + k) idx); [lia|]. }
  assert (Hhi : forall r, r ∈ take idx l -> prefix_len (filter_ rule) <= prefix_len (filter_ r)).
  { intros r Hr. apply list_elem_of_lookup in Hr as [k Hk]. apply lookup_take_Some in Hk as [Hk Hlt]. specialize (Hi _ _ Hk).
    by rewrite (proj2 (Nat.ltb_lt _ _) Hlt) in Hi. }
  split.
  - apply by_prefix_app. split; [|split; [done|]].
    + intros i j r r' Hr Hr' _. apply list_lookup_singleton_Some in Hr as [_ <-], Hr' as [_ <-]. lia.
    + intros r r' Hr%list_elem_of_singleton Hr'. subst r. by apply Hlo.
  - intros r r' Hr Hr'. apply elem_of_app in Hr' as [Hr'%list_elem_of_singleton|Hr']; [subst r'; by apply Hhi|by apply H12].
Qed.

Lemma add_rule_perm rule l : add_rule rule l ≡ₚ rule :: l.
Proof. unfold add_rule. rewrite <-Permutation_middle. by rewrite take_drop. Qed.

(** The first rule that covers a destination has the longest prefix. *)
Lemma first_covers dst l r r' :
  by_prefix l -> route_lookup dst l = Some r -> r' ∈ l -> contains_addr (filter_ r') dst = true -> prefix_len (filter_ r') <= prefix_len (filter_ r).
Proof.
  unfold route_lookup. intros Hl. induction l as [|x l IH]; [done|]. change (x :: l) with ([x] ++ l) in Hl.
  apply by_prefix_app in Hl as (_ & Hl & Hx). rewrite filter_cons. case_decide as Hc.
  - intros [= <-] [->|Hr']%elem_of_cons _; [lia|]. apply Hx; [by apply list_elem_of_singleton|done].
  - intros Hr [->|Hr']%elem_of_cons Hc'; [done|]. by apply IH.
Qed.
Lemma lookup_covers dst l :
  match route_lookup dst l with
  | Some r => r ∈ l /\ contains_addr (filter_ r) dst = true
  | None => forall r, r ∈ l -> contains_addr (filter_ r) dst = false
  end.
Proof.
  unfold route_lookup. induction l as [|x l IH]; simpl; [intros r Hr; by apply not_elem_of_nil in Hr|]. rewrite filter_cons. case_decide as Hc; simpl.
  - split; [by left|done].
  - destruct (head _) as [r|]; [destruct IH; split; [by right|done]|]. intros r [->|Hr]%elem_of_cons; [by destruct (contains_addr _ _)|by apply IH].
Qed.

(** C29: Whatever rules are added, and in whatever order, the rule found for a destination is one of
    those that cover it, with the longest prefix of them; if none covers it none is found. *)
Theorem routes_have_the_longest_prefix (added : list Rule) (dst : IpAddress) :
  let table := foldl (fun t r => add_rule r t) [] added in
  match route_lookup dst table with
  | Some r => r ∈ added /\ contains_addr (filter_ r) dst = true /\
              forall r', r' ∈ added -> contains_addr (filter_ r') dst = true -> prefix_len (filter_ r') <= prefix_len (filter_ r)
  | None => forall r, r ∈ added -> contains_addr (filter_ r) dst = false
  end.
Proof.
  intros table. assert (Ht : by_prefix table /\ table ≡ₚ added).
  { subst table. induction added as [|x l IH] using rev_ind; [done|]. rewrite foldl_app. simpl. destruct IH as [Hs Hp].
    split; [by apply add_rule_sorted|]. rewrite add_rule_perm, Hp. apply Permutation_cons_append. }
  destruct Ht as [Hs Hp]. pose proof (lookup_covers dst table) as Hc. destruct (route_lookup dst table) as [r|] eqn:Hr.
  - destruct Hc as [Hin Hc]. split; [by rewrite <-Hp|]. split; [done|]. intros r' Hr'. apply (first_covers dst table r r' Hs Hr). by rewrite Hp.
  - intros r. rewrite <-Hp. apply Hc.
Qed.

(** ** The router *)

(** [Device::send] and [Device::recv] of a device. *)
Context {D QI : Type} `{IpWire} `{PacketBuffer QI ()}.
Context (dev_send : D -> IpAddress -> list Z -> Z -> bool * D) (dev_recv : D -> QI -> Z -> option (bool * QI * D)).

Record Router : Type := mk_router { rx_buffer : QI; tx_buffer : QI; devices : list D; table : list Rule }.
Definition router_new : Router := mk_router pb_empty pb_empty [] [].
Definition router_add_rule (r : Rule) (w : Router) : Router := mk_router (rx_buffer w) (tx_buffer w) (devices w) (add_rule r (table w)).
Definition add_device (d : D) (w : Router) : Router * Z :=
  (mk_router (rx_buffer w) (tx_buffer w) (devices w ++ [d]) (table w), Z.of_nat (length (devices w))).

(** A packet to every device. *)
Definition flood (dst : IpAddress) (p : list Z) (now : Z) (ds : list D) : bool * list D :=
  let sent := (fun d => dev_send d dst p now) <$> ds in (existsb fst sent, snd <$> sent).

(** One packet of [dispatch]: [None] if it panics. *)
Definition dispatch_one (p : list Z) (now : Z) (w : Router) : option (bool * Router) :=
  match ip_parse p with
  | None => None
  | Some (from, dst, all) =>
      if all : bool then let '(b, ds) := flood dst p now (devices w) in Some (b, mk_router (rx_buffer w) (tx_buffer w) ds (table w))
      else match route_lookup dst (table w) with
           | None => Some (false, w)
           | Some rule =>
               if bool_decide (src rule = from) then
                 let next_hop := default dst (via rule) in
                 match devices w !! Z.to_nat (dev rule) with
                 | None => None
                 | Some d =>
                     let '(b, d') := dev_send d next_hop p now in
                     Some (b, mk_router (rx_buffer w) (tx_buffer w) (<[Z.to_nat (dev rule) := d']> (devices w)) (table w))
                 end
               else None
           end
  end.

(** [dispatch], with fuel for the packets in the buffer. *)
Fixpoint dispatch_loop (fuel : nat) (now : Z) (poll_next : bool) (w : Router) : option (bool * Router) :=
  match fuel with
  | O => Some (poll_next, w)
  | S fuel =>
      match pb_dequeue (tx_buffer w) with
      | None => Some (poll_next, w)
      | Some (_, p, q) =>
          match dispatch_one p now (mk_router (rx_buffer w) q (devices w) (table w)) with
          | None => None
          | Some (b, w') => dispatch_loop fuel now (poll_next || b) w'
          end
      end
  end.
Definition dispatch (now : Z) (w : Router) : option (bool * Router) := dispatch_loop (S (length (pb_view (tx_buffer w)))) now false w.

(** [receive] and [transmit] of the device that the stack sees: a packet and whether there is room for
    an answer; whether there is room. *)
Definition router_receive (w : Router) : option (list Z * Router) :=
  match pb_dequeue (rx_buffer w) with
  | None => None
  | Some (_, p, q) => if pb_is_full (tx_buffer w) then None else Some (p, mk_router q (tx_buffer w) (devices w) (table w))
  end.
Definition router_transmit (w : Router) : bool := negb (pb_is_full (tx_buffer w)).
(** [TxToken::consume], once the stack has filled in the packet: [None] if it panics. *)
Definition tx_consume (p : list Z) (w : Router) : option Router :=
  match pb_enqueue () p (tx_buffer w) with Some q => Some (mk_router (rx_buffer w) q (devices w) (table w)) | None => None end.

(** [dispatch] sends everything, and panics exactly on a packet that is invalid, or whose source is not
    the one of its route, or whose route names no device. *)
Definition routable (w : Router) (p : list Z) : Prop :=
  match ip_parse p with
  | None => False
  | Some (from, dst, all) =>
      all = true \/ match route_lookup dst (table w) with
                    | None => True
                    | Some r => src r = from /\ (Z.to_nat (dev r) < length (devices w))%nat
                    end
  end.

Context `{!PacketBufferLaws QI ()}.

Lemma dispatch_one_cases p now w :
  match dispatch_one p now w with
  | None => ~ routable w p
  | Some (_, w') => routable w p /\ tx_buffer w' = tx_buffer w /\ table w' = table w /\ length (devices w') = length (devices w)
  end.
Proof.
  unfold dispatch_one, routable. destruct (ip_parse p) as [[[from dst] all]|]; [|tauto]. destruct all.
  { simpl. split; [by left|]. by rewrite !length_fmap. }
  destruct (route_lookup dst (table w)) as [r|]; [|split; [by right|done]]. case_bool_decide as Hs; [|intros [?|[? _]]; done].
  destruct (devices w !! Z.to_nat (dev r)) as [d|] eqn:Hd; cycle 1.
  { apply lookup_ge_None in Hd. intros [?|[_ ?]]; [done|lia]. }
  destruct (dev_send d (default dst (via r)) p now) as [b d']. simpl. apply lookup_lt_Some in Hd.
  split; [by right|]. by rewrite length_insert.
Qed.

(** The queue is emptied, unless a packet in it cannot be routed. *)
Theorem dispatch_empties_the_queue (now : Z) (w : Router) :
  match dispatch now w with
  | Some (_, w') => pb_view (tx_buffer w') = [] /\ Forall (fun x => routable w x.2) (pb_view (tx_buffer w))
  | None => Exists (fun x => ~ routable w x.2) (pb_view (tx_buffer w))
  end.
Proof.
  unfold dispatch. assert (Hl : forall fuel b w1, (length (pb_view (tx_buffer w1)) < fuel)%nat -> (forall p, routable w1 p <-> routable w p) ->
    match dispatch_loop fuel now b w1 with
    | Some (_, w') => pb_view (tx_buffer w') = [] /\ Forall (fun x => routable w x.2) (pb_view (tx_buffer w1))
    | None => Exists (fun x => ~ routable w x.2) (pb_view (tx_buffer w1))
    end); [|by apply Hl; [lia|]].
  induction fuel as [|fuel IH]; intros b w1 Hf Hr; [lia|]. simpl. pose proof (pb_view_dequeue (tx_buffer w1)) as Hq.
  destruct (pb_dequeue (tx_buffer w1)) as [[[u p] q]|]; [|by rewrite Hq]. rewrite Hq in Hf |- *. simpl in Hf.
  set (w2 := mk_router _ q _ _). pose proof (dispatch_one_cases p now w2) as Hc.
  destruct (dispatch_one p now w2) as [[b' w3]|]; cycle 1.
  { left. simpl. rewrite <-Hr. exact Hc. }
  destruct Hc as (Hp & Htx & Htb & Hds). specialize (IH (b || b') w3). rewrite Htx in IH. simpl in IH.
  assert (Hr3 : forall p, routable w3 p <-> routable w p) by (intros p'; rewrite <-Hr; unfold routable; by rewrite Htb, Hds).
  specialize (IH ltac:(lia) Hr3). destruct (dispatch_loop fuel now (b || b') w3) as [[b3 w4]|]; [|by right].
  destruct IH as [IH1 IH2]. split; [done|]. apply Forall_cons. split; [|done]. simpl. rewrite <-Hr. exact Hp.
Qed.
End table.

(** ** The loopback device *)

Section loopback.
Context {QI : Type} `{PacketBuffer QI ()}.

(** [LoopbackDevice::send] and [recv]: what is sent is received, in order, as far as there is room. *)
Definition lo_send (lo : QI) (p : list Z) : bool * QI :=
  match pb_enqueue () p lo with Some q => (true, q) | None => (false, lo) end.
Definition lo_recv (lo : QI) (buffer : QI) : option (bool * QI * QI) :=
  match pb_dequeue lo with
  | None => Some (false, buffer, lo)
  | Some (_, p, lo') => match pb_enqueue () p buffer with Some b => Some (true, b, lo') | None => None end
  end.
End loopback.
