(* ===== verification/Listen.v ===== *)
(** * Listening sockets

    [ListenTable] of [modules/axnet-ng/src/listen_table.rs]: for every TCP port the sockets that were
    made for incoming connections and not yet accepted.  The states of sockets belong to the crate
    [smoltcp], which moves them on as it likes.  [None] is a panic: the socket set panics if it is
    asked for a handle that it has not given out. *)

From S2P Require Import Prelude Locks PageCache.

#[local] Open Scope Z_scope.

Definition LISTEN_QUEUE_SIZE : nat := 512.

(** [tcp::State], as far as it is looked at. *)
Inductive tcp_state : Type := SListen | SSynReceived | SClosed | SOther.
#[export] Instance tcp_state_eq_dec : EqDecision tcp_state.
Proof. solve_decision. Defined.

(** [ListenTableEntryInner]. *)
Record Entry : Type := mk_entry { listen_endpoint : option Z * Z; syn_queue : list Z }.

(** The table and the socket set. *)
Record Listening : Type := mk_listening { tcp : gmap Z Entry; sockets : gmap Z tcp_state }.
Definition listening_new : Listening := mk_listening ∅ ∅.

Definition set_tcp (m : gmap Z Entry) (s : Listening) : Listening := mk_listening m (sockets s).

Definition can_listen (port : Z) (s : Listening) : bool := match tcp s !! port with None => true | Some _ => false end.

(** [listen], which asserts that there is a port. *)
Definition listen (endpoint : option Z * Z) (s : Listening) : option (result VfsError () * Listening) :=
  if endpoint.2 =? 0 then None
  else match tcp s !! endpoint.2 with
       | None => Some (Ok (), set_tcp (<[endpoint.2 := mk_entry endpoint []]> (tcp s)) s)
       | Some _ => Some (Err AddrInUse, s)
       end.

(** [Drop] of an entry: the sockets in its queue are removed from the set. *)
Fixpoint remove_sockets (q : list Z) (m : gmap Z tcp_state) : option (gmap Z tcp_state) :=
  match q with
  | [] => Some m
  | h :: q => match m !! h with None => None | Some _ => remove_sockets q (delete h m) end
  end.

Definition unlisten (port : Z) (s : Listening) : option Listening :=
  match tcp s !! port with
  | None => Some s
  | Some e => m ← remove_sockets (syn_queue e) (sockets s); Some (mk_listening (delete port (tcp s)) m)
  end.

(** [is_connected] and [is_closed]. *)
Definition is_connected (s : Listening) (h : Z) : option bool :=
  st ← sockets s !! h; Some (negb (bool_decide (st = SListen \/ st = SSynReceived))).
Definition is_closed (s : Listening) (h : Z) : option bool :=
  st ← sockets s !! h; Some (bool_decide (st = SClosed)).

(** The first socket of a queue that is connected, with its place. *)
Fixpoint find_connected (s : Listening) (i : nat) (q : list Z) : option (option (nat * Z)) :=
  match q with
  | [] => Some None
  | h :: q =>
      match is_connected s h with
      | None => None
      | Some true => Some (Some (i, h))
      | Some false => find_connected s (S i) q
      end
  end.

Definition can_accept (port : Z) (s : Listening) : option (result VfsError bool) :=
  match tcp s !! port with
  | Some e => o ← find_connected s 0 (syn_queue e); Some (Ok (bool_decide (is_Some o)))
  | None => Some (Err InvalidInput)
  end.

(** [VecDeque::swap_remove_front]: the first element takes the place of the one removed. *)
Definition swap_remove_front (i : nat) (l : list Z) : list Z :=
  match l with [] => [] | x :: _ => drop 1 (<[i := x]> l) end.

Definition accept (port : Z) (s : Listening) : option (result VfsError Z * Listening) :=
  match tcp s !! port with
  | None => Some (Err InvalidInput, s)
  | Some e =>
      match find_connected s 0 (syn_queue e) with
      | None => None
      | Some None => Some (Err WouldBlock, s)
      | Some (Some (idx, h)) =>
          let s' := set_tcp (<[port := mk_entry (listen_endpoint e) (swap_remove_front idx (syn_queue e))]> (tcp s)) s in
          closed ← is_closed s' h;
          Some (if closed : bool then (Err ConnectionReset, s') else (Ok h, s'))
      end
  end.

(** [incoming_tcp_packet], for the first packet of a connection; [ok] says whether the new socket can
    listen, and [h] is the handle that the socket set gives it. *)
Definition incoming_tcp_packet (port : Z) (ok : bool) (h : Z) (s : Listening) : Listening :=
  match tcp s !! port with
  | None => s
  | Some e =>
      if (LISTEN_QUEUE_SIZE <=? length (syn_queue e))%nat then s
      else if negb ok then s
      else mk_listening (<[port := mk_entry (listen_endpoint e) (syn_queue e ++ [h])]> (tcp s)) (<[h := SListen]> (sockets s))
  end.

(** ** Histories *)

(** [LState] is the stack moving a socket on, and [LDrop] the end of a connection that was accepted. *)
Inductive listen_op : Type :=
| LListen (endpoint : option Z * Z)
| LUnlisten (port : Z)
| LAccept (port : Z)
| LIncoming (port : Z) (ok : bool) (h : Z)
| LState (h : Z) (st : tcp_state)
| LDrop (h : Z).

(** A socket that listens has been bound to a port: to listen with one that has not panics.  The
    socket set gives out only handles that are not in use; the stack moves on sockets of the set, and
    only those who own a connection drop it. *)
Definition listen_legal (op : listen_op) (x : list Z * Listening) : bool :=
  match op with
  | LListen ep => negb (ep.2 =? 0)
  | LUnlisten _ | LAccept _ => true
  | LIncoming _ _ h => bool_decide (sockets x.2 !! h = None)
  | LState h _ => bool_decide (is_Some (sockets x.2 !! h))
  | LDrop h => bool_decide (h ∈ x.1)
  end.

(** The connections that were handed out and are in use, and the table. *)
Definition listen_exec (op : listen_op) (x : list Z * Listening) : option (list Z * Listening) :=
  let '(out, s) := x in
  match op with
  | LListen ep => '(_, s') ← listen ep s; Some (out, s')
  | LUnlisten port => s' ← unlisten port s; Some (out, s')
  | LAccept port => r ← accept port s; Some (match r with (Ok h, s') => (h :: out, s') | (Err _, s') => (out, s') end)
  | LIncoming port ok h => Some (out, incoming_tcp_packet port ok h s)
  | LState h st => Some (out, mk_listening (tcp s) (<[h := st]> (sockets s)))
  | LDrop h => Some (filter (fun h' => h' <> h) out, mk_listening (tcp s) (delete h (sockets s)))
  end.

Definition listen_step (op : listen_op) (x : list Z * Listening) : option (list Z * Listening) :=
  if listen_legal op x then listen_exec op x else None.
Fixpoint listen_run (ops : list listen_op) (x : list Z * Listening) : option (list Z * Listening) :=
  match ops with
  | [] => Some x
  | op :: ops => x' ← listen_step op x; listen_run ops x'
  end.

(** The sockets in all queues. *)
Definition queued (s : Listening) : list Z := concat (syn_queue <$> (map_to_list (tcp s)).*2).

(** Queues are short; a socket waits in one queue, once, and is in nobody's use; all of them exist. *)
Record listen_ok (out : list Z) (s : Listening) : Prop := {
  lo_short port e : tcp s !! port = Some e -> (length (syn_queue e) <= LISTEN_QUEUE_SIZE)%nat;
  lo_once : NoDup (out ++ queued s);
  lo_live h : h ∈ out ++ queued s -> is_Some (sockets s !! h);
}.

Lemma swap_remove_perm i l x : l !! i = Some x -> l ≡ₚ x :: swap_remove_front i l.
Proof.
  intros Hi. destruct l as [|y l]; [done|]. unfold swap_remove_front. destruct i as [|i]; simpl.
  - injection Hi as <-. by rewrite drop_0.
  - simpl in Hi. rewrite drop_0. rewrite (delete_Permutation l i x Hi) at 1.
    assert (Hp : <[i := y]> l ≡ₚ y :: delete i l).
    { rewrite (delete_Permutation (<[i:=y]> l) i y) by (apply list_lookup_insert_eq; by eapply lookup_lt_Some). f_equiv.
      rewrite !delete_take_drop. rewrite take_insert_ge, drop_insert_lt by lia. done. }
    rewrite Hp. apply Permutation_swap.
Qed.

(** The queues when one of them changes. *)
Lemma queued_insert port e s :
  queued (set_tcp (<[port := e]> (tcp s)) s) ≡ₚ syn_queue e ++ queued (set_tcp (delete port (tcp s)) s).
Proof.
  unfold queued. simpl. rewrite <-insert_delete_eq. rewrite map_to_list_insert by apply lookup_delete_eq. done.
Qed.
Lemma queued_split port e s :
  tcp s !! port = Some e -> queued s ≡ₚ syn_queue e ++ queued (set_tcp (delete port (tcp s)) s).
Proof. intros He. rewrite <-queued_insert. unfold queued. simpl. by rewrite insert_id. Qed.

Lemma find_connected_live s i q :
  (forall h, h ∈ q -> is_Some (sockets s !! h)) ->
  find_connected s i q = Some ((fun p => (i + p.1, p.2)%nat) <$> list_find (fun h => is_connected s h = Some true) q).
Proof.
  revert i. induction q as [|h q IH]; intros i Hl; simpl; [done|].
  destruct (Hl h (list_elem_of_here _ _)) as [st Hst].
  assert (Hc : is_connected s h = Some (negb (bool_decide (st = SListen \/ st = SSynReceived)))) by (unfold is_connected; by rewrite Hst).
  destruct (decide (is_connected s h = Some true)) as [Hh|Hh]; [rewrite Hh; simpl; by rewrite Nat.add_0_r|].
  destruct (is_connected s h) as [[]|]; [done| |done]. rewrite IH by (intros x Hx; apply Hl; by right).
  destruct (list_find _ q) as [[n x]|]; simpl; [|done]. do 3 f_equal. lia.
Qed.

(** What [accept] does when all sockets of the queue exist. *)
Lemma accept_spec port s :
  (forall e h, tcp s !! port = Some e -> h ∈ syn_queue e -> is_Some (sockets s !! h)) ->
  match accept port s with
  | None => False
  | Some (r, s') =>
      (s' = s /\ exists x, r = Err x) \/
      exists e e' idx h, tcp s !! port = Some e /\ s' = set_tcp (<[port := e']> (tcp s)) s /\
        syn_queue e !! idx = Some h /\ syn_queue e' = swap_remove_front idx (syn_queue e) /\ is_connected s h = Some true /\
        (r = Ok h /\ is_closed s h = Some false \/ r = Err ConnectionReset /\ is_closed s h = Some true)
  end.
Proof.
  intros Hl. unfold accept. destruct (tcp s !! port) as [e|] eqn:He; [|left; eauto].
  rewrite find_connected_live by (intros h; by apply Hl). destruct (list_find _ (syn_queue e)) as [[idx h]|] eqn:Hf; simpl; [|left; eauto].
  apply list_find_Some in Hf as (Hi & Hc & _). destruct (Hl e h eq_refl) as [st Hst]; [by eapply list_elem_of_lookup_2|].
  assert (Hcl : is_closed s h = Some (bool_decide (st = SClosed))) by (unfold is_closed; by rewrite Hst).
  change (is_closed (set_tcp _ s) h) with (is_closed s h). rewrite Hcl. simpl.
  case_bool_decide; right; exists e; eexists; exists idx, h; split_and!; auto.
Qed.

Lemma queue_live out port e h s : listen_ok out s -> tcp s !! port = Some e -> h ∈ syn_queue e -> is_Some (sockets s !! h).
Proof.
  intros Hs He Hh. apply (lo_live _ _ Hs). rewrite (queued_split port e s He), !elem_of_app. auto.
Qed.

Lemma accept_ok out port s :
  listen_ok out s ->
  match accept port s with
  | Some (Ok h, s') => listen_ok (h :: out) s'
  | Some (Err _, s') => listen_ok out s'
  | None => False
  end.
Proof.
  intros Hs. pose proof (accept_spec port s ltac:(intros e h; by eapply queue_live)) as Ha.
  destruct (accept port s) as [[r s']|]; [|done]. destruct Ha as [[-> [x ->]]|(e & e' & idx & h & He & -> & Hi & He' & _ & Hr)]; [done|].
  pose proof (swap_remove_perm _ _ _ Hi) as Hp. rewrite <-He' in Hp. set (s' := set_tcp _ s).
  assert (Hq : queued s ≡ₚ h :: queued s').
  { rewrite (queued_split port e s He). subst s'. rewrite queued_insert. exact (Permutation_app_tail _ Hp). }
  assert (Hshort : forall p x, tcp s' !! p = Some x -> (length (syn_queue x) <= LISTEN_QUEUE_SIZE)%nat).
  { intros p x. subst s'. simpl. rewrite lookup_insert. case_decide; [|apply (lo_short _ _ Hs)]. intros [= <-].
    pose proof (lo_short _ _ Hs port e He) as Hl. apply Permutation_length in Hp. simpl in Hp. lia. }
  assert (Hn : NoDup (h :: out ++ queued s')) by (rewrite Permutation_middle, <-Hq; apply Hs).
  assert (Hl : forall x, x ∈ h :: out ++ queued s' -> is_Some (sockets s' !! x)).
  { intros x. rewrite Permutation_middle, <-Hq. apply (lo_live _ _ Hs). }
  destruct Hr as [[-> _]|[-> _]]; (split; [done| |]); [done|done|by inversion Hn|intros x Hx; apply Hl; by right].
Qed.

Lemma remove_sockets_spec q m :
  NoDup q -> (forall h, h ∈ q -> is_Some (m !! h)) ->
  exists m', remove_sockets q m = Some m' /\ forall h, h ∉ q -> m' !! h = m !! h.
Proof.
  intros Hn. revert m. induction Hn as [|h q Hh Hn IH]; intros m Hl; simpl; [by exists m|].
  destruct (Hl h (list_elem_of_here _ _)) as [st ->]. destruct (IH (delete h m)) as (m' & -> & Hm').
  - intros x Hx. rewrite lookup_delete_ne by (by intros ->). apply Hl. by right.
  - exists m'. split; [done|]. intros x [Hxh Hx]%not_elem_of_cons. by rewrite Hm', lookup_delete_ne.
Qed.

Lemma unlisten_ok out port s : listen_ok out s -> exists s', unlisten port s = Some s' /\ listen_ok out s'.
Proof.
  intros Hs. unfold unlisten. destruct (tcp s !! port) as [e|] eqn:He; [|by exists s].
  pose proof (queued_split port e s He) as Hq. pose proof (lo_once _ _ Hs) as Hn. rewrite Hq in Hn.
  set (q := queued (set_tcp (delete port (tcp s)) s)) in *.
  assert (Hn' : NoDup (syn_queue e ++ (out ++ q))) by (by rewrite Permutation_app_swap_app).
  apply NoDup_app in Hn' as (Hn1 & Hd & Hn2).
  destruct (remove_sockets_spec (syn_queue e) (sockets s) Hn1 ltac:(intros h; by eapply queue_live)) as (m & -> & Hm).
  eexists. split; [done|]. split; simpl.
  - intros p x [_ Hx]%lookup_delete_Some. by apply (lo_short _ _ Hs p).
  - done.
  - intros h Hh. change (queued _) with q in Hh. rewrite Hm by (intros Hin; by apply (Hd h Hin)).
    apply (lo_live _ _ Hs). rewrite Hq. rewrite !elem_of_app in *. tauto.
Qed.

Lemma incoming_ok out port ok h s : listen_ok out s -> sockets s !! h = None -> listen_ok out (incoming_tcp_packet port ok h s).
Proof.
  intros Hs Hh. unfold incoming_tcp_packet. destruct (tcp s !! port) as [e|] eqn:He; [|done].
  destruct (Nat.leb_spec LISTEN_QUEUE_SIZE (length (syn_queue e))); [done|]. destruct ok; [|done]. cbn [negb].
  set (e' := mk_entry (listen_endpoint e) (syn_queue e ++ [h])).
  assert (Hq : queued (mk_listening (<[port := e']> (tcp s)) (<[h := SListen]> (sockets s))) ≡ₚ h :: queued s).
  { change (queued (mk_listening (<[port := e']> (tcp s)) (<[h := SListen]> (sockets s)))) with (queued (set_tcp (<[port := e']> (tcp s)) s)).
    rewrite queued_insert, (queued_split port e s He). subst e'. simpl.
    rewrite <-app_assoc. simpl. by rewrite <-Permutation_middle. }
  assert (Hnew : h ∉ out ++ queued s) by (intros Hin; destruct (lo_live _ _ Hs h Hin); congruence).
  split; simpl.
  - intros p x. rewrite lookup_insert. case_decide; [|apply (lo_short _ _ Hs)]. intros [= <-]. subst e'. simpl. rewrite length_app. simpl. lia.
  - rewrite Hq, <-Permutation_middle. constructor; [done|apply Hs].
  - intros x. rewrite Hq, <-Permutation_middle. intros [->|Hx]%elem_of_cons; [by rewrite lookup_insert_eq|].
    rewrite lookup_insert. case_decide; [by eexists|]. by apply (lo_live _ _ Hs).
Qed.

Lemma listen_ok_listen out ep s :
  listen_ok out s -> ep.2 <> 0 -> exists r s', listen ep s = Some (r, s') /\ listen_ok out s'.
Proof.
  intros Hs Hep. unfold listen. rewrite (proj2 (Z.eqb_neq _ _) Hep). destruct (tcp s !! ep.2) eqn:He; [eauto|].
  eexists _, _. split; [done|].
  assert (Hq : queued (set_tcp (<[ep.2 := mk_entry ep []]> (tcp s)) s) ≡ₚ queued s).
  { rewrite queued_insert. simpl. unfold queued. simpl. by rewrite delete_id. }
  split; simpl.
  - intros p x. rewrite lookup_insert. case_decide; [intros [= <-]; simpl; unfold LISTEN_QUEUE_SIZE; lia|apply (lo_short _ _ Hs)].
  - rewrite Hq. apply Hs.
  - intros h. rewrite Hq. apply (lo_live _ _ Hs).
Qed.

(** No legal operation panics. *)
Lemma listen_exec_ok op out s :
  listen_ok out s -> listen_legal op (out, s) = true ->
  exists out' s', listen_exec op (out, s) = Some (out', s') /\ listen_ok out' s'.
Proof.
  intros Hs. destruct op as [ep|port|port|port ok h|h st|h]; simpl; intros Hlegal.
  - destruct (listen_ok_listen out ep s Hs) as (r & s' & -> & Hs'); [by destruct (Z.eqb_spec ep.2 0)|]. simpl. eauto.
  - destruct (unlisten_ok out port s Hs) as (s' & -> & Hs'). simpl. eauto.
  - pose proof (accept_ok out port s Hs) as Ha. destruct (accept port s) as [[[] s1]|]; simpl; [eauto..|done].
  - apply bool_decide_eq_true in Hlegal. eexists _, _. split; [done|]. by apply incoming_ok.
  - apply bool_decide_eq_true in Hlegal. eexists _, _. split; [done|]. split; simpl; [apply (lo_short _ _ Hs)|apply Hs|].
    intros x Hx. rewrite lookup_insert. case_decide; [by eexists|]. by apply (lo_live _ _ Hs).
  - apply bool_decide_eq_true in Hlegal as Hin. eexists _, _. split; [done|]. pose proof (lo_once _ _ Hs) as Hn.
    split; simpl; [apply (lo_short _ _ Hs)| |].
    + apply (sublist_NoDup _ _ Hn). apply sublist_app; [apply sublist_filter|done].
    + intros x Hx. assert (Hx' : x ∈ out ++ queued s).
      { rewrite elem_of_app in *. rewrite list_elem_of_filter in Hx. destruct Hx as [[_ Hx]|Hx]; [by left|by right]. }
      rewrite lookup_delete_ne; [by apply (lo_live _ _ Hs)|]. intros <-. apply elem_of_app in Hx as [[? _]%list_elem_of_filter|Hx]; [done|].
      apply NoDup_app in Hn as (_ & Hd & _). by apply (Hd h Hin).
Qed.

Lemma listen_run_ok ops : forall out s out' s',
  listen_ok out s -> listen_run ops (out, s) = Some (out', s') -> listen_ok out' s'.
Proof.
  induction ops as [|op ops IH]; intros out s out' s' Hs; simpl; [by intros [= <- <-]|]. unfold listen_step.
  destruct (listen_legal op (out, s)) eqn:Hl; [|done]. destruct (listen_exec_ok op out s Hs Hl) as (o1 & s1 & -> & H1).
  simpl. by apply IH.
Qed.

Lemma listen_ok_new : listen_ok [] listening_new.
Proof. split; simpl; [done|constructor|]. intros x Hx. by apply not_elem_of_nil in Hx. Qed.

(** C30: After any history of listening, connection requests, accepts and connections that move on
    and end: no operation panics, except for listening on port 0, that is, with a socket that is not
    bound; every queue holds at most 512 sockets; no socket is in two places,
    queues and the connections in use; and an [accept] that succeeds hands out a socket that waited
    in the queue of its port and is past its handshake, and the others stay in the queue. *)
Theorem accept_hands_out_once (ops : list listen_op) (out : list Z) (s : Listening) :
  listen_run ops ([], listening_new) = Some (out, s) ->
  (forall op, listen_legal op (out, s) = true -> is_Some (listen_exec op (out, s))) /\
  (forall port e, tcp s !! port = Some e -> (length (syn_queue e) <= LISTEN_QUEUE_SIZE)%nat) /\
  NoDup (out ++ queued s) /\
  forall port h s', accept port s = Some (Ok h, s') ->
    is_connected s h = Some true /\ is_closed s h = Some false /\
    exists e e', tcp s !! port = Some e /\ s' = set_tcp (<[port := e']> (tcp s)) s /\ syn_queue e ≡ₚ h :: syn_queue e'.
Proof.
  intros Hr. pose proof (listen_run_ok _ _ _ _ _ listen_ok_new Hr) as Hs. split; [|split; [|split]].
  - intros op Hl. destruct (listen_exec_ok op out s Hs Hl) as (? & ? & -> & _). by eexists.
  - apply (lo_short _ _ Hs).
  - apply (lo_once _ _ Hs).
  - intros port h s' Ha. pose proof (accept_spec port s ltac:(intros e x; by eapply queue_live)) as Hsp. rewrite Ha in Hsp.
    destruct Hsp as [[_ [x ?]]|(e & e' & idx & h' & He & -> & Hi & He' & Hc & [[[= <-] Hcl]|[? _]])]; [done| |done].
    split; [done|]. split; [done|]. exists e, e'. split; [done|]. split; [done|]. rewrite He'. by apply swap_remove_perm.
Qed.

(** ** Limits *)

(** Listening with a socket that is not bound panics. *)
Lemma unbound_listen_panics addr s : listen (addr, 0) s = None.
Proof. done. Qed.

(** A queue that is full of sockets which do not connect stays so: connections that are asked for
    are ignored and [accept] would block, until a socket in it moves on or the port is closed. *)
Theorem full_queue_stays_full (port : Z) (e : Entry) (s : Listening) :
  tcp s !! port = Some e -> (LISTEN_QUEUE_SIZE <= length (syn_queue e))%nat ->
  Forall (fun h => is_connected s h = Some false) (syn_queue e) ->
  (forall ok h, incoming_tcp_packet port ok h s = s) /\ accept port s = Some (Err WouldBlock, s) /\ can_accept port s = Some (Ok false).
Proof.
  intros He Hl Hc. assert (Hf : forall i, find_connected s i (syn_queue e) = Some None).
  { clear -Hc. induction Hc as [|h q Hh _ IH]; intros i; simpl; [done|]. by rewrite Hh. }
  split; [|split].
  - intros ok h. unfold incoming_tcp_packet. by rewrite He, (proj2 (Nat.leb_le _ _) Hl).
  - unfold accept. by rewrite He, Hf.
  - unfold can_accept. by rewrite He, Hf.
Qed.

(** Repeats of one request for a connection fill the queue of a port. *)
Definition repeats (n : nat) : list listen_op := LListen (None, 80) :: ((fun i => LIncoming 80 true (Z.of_nat i)) <$> seq 0 n).

Definition filled : Listening := match listen_run (repeats 512) ([], listening_new) with Some (_, s) => s | None => listening_new end.
Definition filled_entry : Entry := default (mk_entry (None, 80) []) (tcp filled !! 80).

Lemma full_queue_stays_full_witness :
  listen_run (repeats 512) ([], listening_new) = Some ([], filled) /\ accept 80 filled = Some (Err WouldBlock, filled).
Proof.
  split; [vm_compute; reflexivity|].
  refine (proj1 (proj2 (full_queue_stays_full 80 filled_entry filled _ _ _))); [vm_compute; reflexivity|apply Nat.leb_le; vm_compute; reflexivity|].
  apply (bool_decide_unpack _). vm_compute. exact I.
Defined.

Definition some_accepts : list listen_op := [LListen (None, 80); LIncoming 80 true 3; LIncoming 80 true 4; LState 4 SOther].
Lemma accept_hands_out_once_witness : exists s s',
  listen_run some_accepts ([], listening_new) = Some ([], s) /\ accept 80 s = Some (Ok 4, s') /\ is_connected s 4 = Some true.
Proof.
  eexists. eexists. split; [vm_compute; reflexivity|]. split; [vm_compute; reflexivity|].
  refine (proj1 (proj2 (proj2 (proj2 (accept_hands_out_once some_accepts [] _ _))) 80 4 _ _)); vm_compute; reflexivity.
Defined.

(** ** Locks *)

(** [accept] looks at sockets with the entry of the port locked; the stack is polled with the service
    and the socket set locked, and a request for a connection locks the entry. *)
Inductive listen_call : Type := Accept (port : nat) | Poll (port : nat).
Definition listen_locks (c : listen_call) : list act :=
  match c with
  | Accept port => [Acq (LObject port); Acq LDevice; Rel LDevice; Rel (LObject port)]
  | Poll port => [Acq LManager; Acq LDevice; Acq (LObject port); Rel (LObject port); Rel LDevice; Rel LManager]
  end.

Definition stuck_accept : list lthread :=
  [mk_lthread [LObject 80] [Acq LDevice; Rel LDevice; Rel (LObject 80)];
   mk_lthread [LDevice; LManager] [Acq (LObject 80); Rel (LObject 80); Rel LDevice; Rel LManager]].

(** [accept] and a request for a connection can wait for each other. *)
Theorem accept_can_deadlock : rtc lstep (start [listen_locks (Accept 80); listen_locks (Poll 80)]) stuck_accept /\ deadlocked stuck_accept.
Proof.
  split; [|apply two_stuck; by left]. unfold start, listen_locks. simpl. acquires 0%nat. acquires 1%nat. acquires 1%nat. apply rtc_refl.
Qed.
