(* ===== verification/ITimer.v ===== *)
(** * Process times and interval timers

    [kernel/src/task/timer.rs]: the times a thread spends in user and kernel mode, its three interval
    timers, and the task that wakes up for the next deadline; [poll_timer] and [set_timer_state] of
    [kernel/src/task/ops.rs], and [setitimer] and [getitimer].

    Times are nanoseconds; the wall clock is the monotonic clock plus an offset.  The heap of alarms is
    a list of which an entry with the earliest deadline is taken.  A thread keeps its times in a
    [RefCell]: while it has borrowed them, others that want to change them give up. *)

From S2P Require Import Prelude PageCache.

Inductive ITimerType : Type := Real | Virtual | Prof.
#[export] Instance ITimerType_eq_dec : EqDecision ITimerType.
Proof. solve_decision. Defined.
Inductive Signo : Type := SIGALRM | SIGVTALRM | SIGPROF.
Definition signo (ty : ITimerType) : Signo := match ty with Real => SIGALRM | Virtual => SIGVTALRM | Prof => SIGPROF end.

(** [ITimerType::from_repr]. *)
Definition from_repr (n : Z) : option ITimerType :=
  if n =? 0 then Some Real else if n =? 1 then Some Virtual else if n =? 2 then Some Prof else None.

Record ITimer : Type := mk_itimer { interval_ns : Z; remained_ns : Z }.
Inductive TimerState : Type := NoState | User | Kernel.

(** [TimeManager], with its array of timers. *)
Record TimeManager : Type := mk_time {
  utime_ns : Z;
  stime_ns : Z;
  last_wall_ns : Z;
  state : TimerState;
  itimers : ITimerType -> ITimer;
}.
Definition time_new : TimeManager := mk_time 0 0 0 NoState (fun _ => mk_itimer 0 0).

Definition NANOS_PER_SEC : Z := 1000000000.
Definition time_value_from_nanos (nanos : Z) : Z * Z :=
  let secs := nanos / NANOS_PER_SEC in (secs, nanos - secs * NANOS_PER_SEC).

(** [Entry] of the alarm list: a deadline and a task, [None] if that is not a thread of a process. *)
Record Entry : Type := mk_alarm { deadline : Z; task : option Z }.

(** The monotonic clock and what is added for the wall clock, the threads, the alarms, the signals
    sent to threads, and the threads that have borrowed their times. *)
Record kernel : Type := mk_kernel {
  now : Z;
  epoch : Z;
  threads : gmap Z TimeManager;
  alarms : list Entry;
  signals : list (Z * Signo);
  borrowed : gset Z;
}.
Definition wall_time (k : kernel) : Z := now k + epoch k.

Definition set_threads (m : gmap Z TimeManager) (k : kernel) : kernel := mk_kernel (now k) (epoch k) m (alarms k) (signals k) (borrowed k).
Definition push_alarm (e : Entry) (k : kernel) : kernel := mk_kernel (now k) (epoch k) (threads k) (e :: alarms k) (signals k) (borrowed k).
Definition send_signal (t : Z) (s : Signo) (k : kernel) : kernel := mk_kernel (now k) (epoch k) (threads k) (alarms k) (signals k ++ [(t, s)]) (borrowed k).
Definition set_borrowed (b : gset Z) (k : kernel) : kernel := mk_kernel (now k) (epoch k) (threads k) (alarms k) (signals k) b.

(** [ITimer::renew_timer], while [current] runs. *)
Definition renew_timer (current : option Z) (t : ITimer) (k : kernel) : kernel :=
  if 0 <? remained_ns t then push_alarm (mk_alarm (wall_time k + remained_ns t) current) k else k.

(** [ITimer::update]. *)
Definition update (current : option Z) (delta : Z) (t : ITimer) (k : kernel) : bool * ITimer * kernel :=
  if remained_ns t =? 0 then (false, t, k)
  else if delta <? remained_ns t then (false, mk_itimer (interval_ns t) (remained_ns t - delta), k)
  else
    let t' := mk_itimer (interval_ns t) (interval_ns t) in
    (true, t', renew_timer current t' k).

Definition set_timer (ty : ITimerType) (t : ITimer) (m : TimeManager) : TimeManager :=
  mk_time (utime_ns m) (stime_ns m) (last_wall_ns m) (state m) (fun ty' => if decide (ty' = ty) then t else itimers m ty').

(** [update_itimer], with the signal going to thread [owner]. *)
Definition update_itimer (current : option Z) (owner : Z) (ty : ITimerType) (delta : Z) (mk : TimeManager * kernel) : TimeManager * kernel :=
  let '(m, k) := mk in
  let '(fired, t, k) := update current delta (itimers m ty) k in
  (set_timer ty t m, if fired : bool then send_signal owner (signo ty) k else k).

(** [TimeManager::poll]. *)
Definition poll (current : option Z) (owner : Z) (m : TimeManager) (k : kernel) : TimeManager * kernel :=
  let now_ns := now k in
  let delta := now_ns - last_wall_ns m in
  let up ty := update_itimer current owner ty delta in
  let '(m, k) :=
    match state m with
    | User => up Prof (up Virtual (mk_time (utime_ns m + delta) (stime_ns m) (last_wall_ns m) (state m) (itimers m), k))
    | Kernel => up Prof (mk_time (utime_ns m) (stime_ns m + delta) (last_wall_ns m) (state m) (itimers m), k)
    | NoState => (m, k)
    end in
  let '(m, k) := up Real (m, k) in
  (mk_time (utime_ns m) (stime_ns m) now_ns (state m) (itimers m), k).

(** [poll_timer] of thread [t] by the task [current]: nothing, if the times are borrowed. *)
Definition poll_timer (current : option Z) (t : Z) (k : kernel) : kernel :=
  match threads k !! t with
  | None => k
  | Some m =>
      if decide (t ∈ borrowed k) then k
      else let '(m', k') := poll current t m k in set_threads (<[t := m']> (threads k')) k'
  end.

Definition set_state (st : TimerState) (m : TimeManager) : TimeManager :=
  mk_time (utime_ns m) (stime_ns m) (last_wall_ns m) st (itimers m).

(** [set_timer_state], by the thread itself. *)
Definition set_timer_state (t : Z) (st : TimerState) (k : kernel) : kernel :=
  if decide (t ∈ borrowed k) then k
  else let k := poll_timer (Some t) t k in set_threads (alter (set_state st) t (threads k)) k.

(** [set_itimer] and [sys_setitimer], by the thread itself: the old values. *)
Definition set_itimer (t : Z) (ty : ITimerType) (interval remained : Z) (k : kernel) : (Z * Z) * (Z * Z) * kernel :=
  match threads k !! t with
  | None => ((0, 0), (0, 0), k)
  | Some m =>
      let new := mk_itimer interval remained in
      let k := renew_timer (Some t) new k in
      let old := itimers m ty in
      (time_value_from_nanos (interval_ns old), time_value_from_nanos (remained_ns old), set_threads (<[t := set_timer ty new m]> (threads k)) k)
  end.
Definition sys_setitimer (t which interval remained : Z) (k : kernel) : result VfsError ((Z * Z) * (Z * Z)) * kernel :=
  match from_repr which with
  | None => (Err InvalidInput, k)
  | Some ty => let '(i, r, k') := set_itimer t ty interval remained k in (Ok (i, r), k')
  end.
Definition sys_getitimer (t which : Z) (k : kernel) : result VfsError ((Z * Z) * (Z * Z)) :=
  match from_repr which with
  | None => Err InvalidInput
  | Some ty =>
      let m := default time_new (threads k !! t) in
      Ok (time_value_from_nanos (interval_ns (itimers m ty)), time_value_from_nanos (remained_ns (itimers m ty)))
  end.

(** A turn of [alarm_task] for the entry at the top of the heap, [i]: it is due, its thread is polled
    while the alarm task runs, and it is taken off; what was pushed in the meantime is later. *)
Definition alarm_turn (i : nat) (k : kernel) : option kernel :=
  match alarms k !! i with
  | None => None
  | Some e =>
      if forallb (fun e' => deadline e <=? deadline e') (alarms k) && (deadline e <=? wall_time k) then
        let k' := match task e with Some t => poll_timer None t k | None => k end in
        Some (mk_kernel (now k') (epoch k') (threads k') (delete (length (alarms k') - length (alarms k) + i)%nat (alarms k')) (signals k') (borrowed k'))
      else None
  end.

(** ** Histories *)

(** A thread borrows its times to look at them ([getitimer], [times], [clock_gettime]) and gives them
    back; to set a timer it has to be the only one. *)
Inductive time_event : Type :=
| TTick (d : Z)
| TSpawn (t : Z)
| TSwitch (t : Z) (st : TimerState)
| TSet (t which interval remained : Z)
| TAlarm (i : nat)
| TBorrow (t : Z)
| TReturn (t : Z).

Definition time_step (ev : time_event) (k : kernel) : option kernel :=
  match ev with
  | TTick d => if d <? 0 then None else Some (mk_kernel (now k + d) (epoch k) (threads k) (alarms k) (signals k) (borrowed k))
  | TSpawn t => match threads k !! t with None => Some (set_threads (<[t := time_new]> (threads k)) k) | Some _ => None end
  | TSwitch t st => Some (set_timer_state t st k)
  | TSet t which i r => if (i <? 0) || (r <? 0) || bool_decide (t ∈ borrowed k) then None else Some (sys_setitimer t which i r k).2
  | TAlarm i => alarm_turn i k
  | TBorrow t => Some (set_borrowed ({[t]} ∪ borrowed k) k)
  | TReturn t => Some (set_borrowed (borrowed k ∖ {[t]}) k)
  end.
Fixpoint time_run (evs : list time_event) (k : kernel) : option kernel :=
  match evs with
  | [] => Some k
  | ev :: evs => k' ← time_step ev k; time_run evs k'
  end.
Definition time_boot (epoch : Z) : kernel := mk_kernel 0 epoch ∅ [] [] ∅.

(** ** What polling does *)

(** Polling pushes alarms that are not due and sends signals; clock and threads stay. *)
Record polls (k k' : kernel) : Prop := {
  p_now : now k' = now k;
  p_epoch : epoch k' = epoch k;
  p_threads : threads k' = threads k;
  p_borrowed : borrowed k' = borrowed k;
  p_alarms : exists es, alarms k' = es ++ alarms k /\ Forall (fun e => wall_time k < deadline e) es;
}.

Lemma polls_refl k : polls k k.
Proof. split; [done..|]. by exists []. Qed.
Lemma polls_trans k1 k2 k3 : polls k1 k2 -> polls k2 k3 -> polls k1 k3.
Proof.
  intros [N1 E1 T1 B1 (a & A1 & F1)] [N2 E2 T2 B2 (b & A2 & F2)]. split; [congruence..|]. exists (b ++ a). rewrite A2, A1, app_assoc. split; [done|].
  apply Forall_app. split; [|done]. unfold wall_time in *. by rewrite N1, E1 in F2.
Qed.
Lemma polls_signal k t s : polls k (send_signal t s k).
Proof. split; [done..|]. by exists []. Qed.
Lemma polls_renew current t k : polls k (renew_timer current t k).
Proof.
  unfold renew_timer. destruct (Z.ltb_spec 0 (remained_ns t)); [|apply polls_refl]. split; [done..|].
  eexists [_]. split; [done|]. constructor; [simpl; lia|done].
Qed.

(** What is left of a timer after [delta]. *)
Definition after (delta : Z) (t : ITimer) : ITimer :=
  if remained_ns t =? 0 then t
  else mk_itimer (interval_ns t) (if delta <? remained_ns t then remained_ns t - delta else interval_ns t).

Lemma timer_update_spec current delta t k :
  let '(_, t', k') := update current delta t k in t' = after delta t /\ polls k k'.
Proof.
  unfold update, after. destruct (remained_ns t =? 0); [split; [done|apply polls_refl]|].
  destruct (delta <? remained_ns t); [split; [done|apply polls_refl]|]. split; [done|apply polls_renew].
Qed.

Lemma update_itimer_spec current owner ty delta m k :
  let '(m', k') := update_itimer current owner ty delta (m, k) in m' = set_timer ty (after delta (itimers m ty)) m /\ polls k k'.
Proof.
  unfold update_itimer. pose proof (timer_update_spec current delta (itimers m ty) k) as Hu. destruct (update current delta (itimers m ty) k) as [[fired t'] k'].
  destruct Hu as [-> Hp]. split; [done|]. destruct fired; [|done]. eapply polls_trans; [exact Hp|apply polls_signal].
Qed.

(** [poll]: the time that passed is accounted to the state, and the real-time timer is brought up to
    date. *)
Lemma timer_poll_spec current owner m k :
  let '(m', k') := poll current owner m k in
  let delta := now k - last_wall_ns m in
  polls k k' /\ last_wall_ns m' = now k /\ state m' = state m /\
  utime_ns m' = utime_ns m + match state m with User => delta | _ => 0 end /\
  stime_ns m' = stime_ns m + match state m with Kernel => delta | _ => 0 end /\
  itimers m' Real = after delta (itimers m Real).
Proof.
  unfold poll. set (delta := now k - last_wall_ns m).
  set (first := match state m with NoState => _ | User => _ | Kernel => _ end).
  assert (Hf : polls k first.2 /\ state first.1 = state m /\ last_wall_ns first.1 = last_wall_ns m /\
    utime_ns first.1 = utime_ns m + match state m with User => delta | _ => 0 end /\
    stime_ns first.1 = stime_ns m + match state m with Kernel => delta | _ => 0 end /\ itimers first.1 Real = itimers m Real).
  { subst first. destruct (state m) eqn:Hst.
    - simpl. split; [apply polls_refl|]. repeat split; lia || done.
    - set (m0 := mk_time (utime_ns m + delta) _ _ _ _).
      pose proof (update_itimer_spec current owner Virtual delta m0 k) as H1. destruct (update_itimer current owner Virtual delta (m0, k)) as [m1 k1].
      destruct H1 as [-> H1]. set (m1' := set_timer Virtual _ m0).
      pose proof (update_itimer_spec current owner Prof delta m1' k1) as H2. destruct (update_itimer current owner Prof delta (m1', k1)) as [m2 k2].
      destruct H2 as [-> H2]. simpl. split; [by eapply polls_trans|]. repeat split; lia || done.
    - set (m0 := mk_time _ (stime_ns m + delta) _ _ _).
      pose proof (update_itimer_spec current owner Prof delta m0 k) as H2. destruct (update_itimer current owner Prof delta (m0, k)) as [m2 k2].
      destruct H2 as [-> H2]. simpl. split; [done|]. repeat split; lia || done. }
  clearbody first. destruct first as [m1 k1]. simpl in Hf. destruct Hf as (Hp & Hs & Hl & Hu & Hk & Hr).
  pose proof (update_itimer_spec current owner Real delta m1 k1) as H2. destruct (update_itimer current owner Real delta (m1, k1)) as [m2 k2].
  destruct H2 as [-> H2]. simpl. rewrite Hr. split; [by eapply polls_trans|]. done.
Qed.

(** ** Timers fire *)

(** The time at which the real-time timer of each thread is due, if it is set. *)
Definition due_step (ev : time_event) (k : kernel) (due : gmap Z Z) : gmap Z Z :=
  match ev with
  | TSet t which _ r => if which =? 0 then if 0 <? r then <[t := now k + r]> due else delete t due else due
  | _ => due
  end.
Fixpoint due_run (evs : list time_event) (k : kernel) (due : gmap Z Z) : gmap Z Z :=
  match evs with
  | [] => due
  | ev :: evs => match time_step ev k with Some k' => due_run evs k' (due_step ev k due) | None => due end
  end.

(** The threads whose alarm was taken while they had borrowed their times, since they last set their
    timer. *)
Definition missed_step (ev : time_event) (k : kernel) (missed : gset Z) : gset Z :=
  match ev with
  | TSet t which _ _ => if which =? 0 then missed ∖ {[t]} else missed
  | TAlarm i =>
      match alarms k !! i with
      | Some (mk_alarm _ (Some t)) => if decide (t ∈ borrowed k) then {[t]} ∪ missed else missed
      | _ => missed
      end
  | _ => missed
  end.
Fixpoint missed_run (evs : list time_event) (k : kernel) (missed : gset Z) : gset Z :=
  match evs with
  | [] => missed
  | ev :: evs => match time_step ev k with Some k' => missed_run evs k' (missed_step ev k missed) | None => missed end
  end.

(** The real-time timer is set without an interval. *)
Definition one_shot (ev : time_event) : Prop := match ev with TSet _ which i _ => which = 0 -> i = 0 | _ => True end.

(** A timer that runs has an alarm for its thread at the time it is due, unless that was missed. *)
Definition covered (due : gmap Z Z) (missed : gset Z) (k : kernel) (t : Z) (m : TimeManager) : Prop :=
  let r := itimers m Real in
  0 < remained_ns r -> t ∉ missed ->
  exists d, due !! t = Some d /\ mk_alarm (d + epoch k) (Some t) ∈ alarms k /\ last_wall_ns m + remained_ns r <= d.
Definition time_ok (due : gmap Z Z) (missed : gset Z) (k : kernel) : Prop :=
  forall t m, threads k !! t = Some m ->
    last_wall_ns m <= now k /\ 0 <= remained_ns (itimers m Real) /\ interval_ns (itimers m Real) = 0 /\ covered due missed k t m.

Lemma after_one_shot delta t :
  interval_ns t = 0 -> 0 <= remained_ns t -> 0 <= delta ->
  interval_ns (after delta t) = 0 /\ 0 <= remained_ns (after delta t) /\
  (0 < remained_ns (after delta t) -> delta < remained_ns t /\ remained_ns (after delta t) = remained_ns t - delta).
Proof.
  intros Hi Hr Hd. unfold after. destruct (Z.eqb_spec (remained_ns t) 0); [repeat split; lia|]. simpl. rewrite Hi.
  destruct (Z.ltb_spec delta (remained_ns t)); repeat split; lia.
Qed.

(** Polling by whatever task keeps this. *)
Lemma poll_timer_ok due missed current t k :
  time_ok due missed k ->
  let k' := poll_timer current t k in
  time_ok due missed k' /\ now k' = now k /\ epoch k' = epoch k /\
  (exists es, alarms k' = es ++ alarms k /\ Forall (fun e => wall_time k < deadline e) es) /\
  (forall m, t ∉ borrowed k -> threads k' !! t = Some m -> last_wall_ns m = now k).
Proof.
  intros Hk. cbv zeta. unfold poll_timer. destruct (threads k !! t) as [m|] eqn:Ht.
  2:{ do 3 (split; [done|]). split; [by exists []|]. intros m _ Hm. congruence. }
  case_decide as Hb; [do 3 (split; [done|]); split; [by exists []|done]|].
  pose proof (timer_poll_spec current t m k) as Hp. destruct (poll current t m k) as [m' k']. destruct Hp as (Hp & Hl & _ & _ & _ & Hr).
  destruct Hp as [Hn He Hth _ (es & Ha & Hes)]. split; [|split; [done|split; [done|split; [by exists es|]]]].
  2:{ simpl. intros m1 _. rewrite lookup_insert_eq. by intros [= <-]. }
  intros u mu. simpl. rewrite Hth, lookup_insert. unfold covered. simpl. rewrite Hn, He, Ha. case_decide as Hu.
  - intros [= <-]. subst u. destruct (Hk t m Ht) as (H1 & H2 & H3 & H4). rewrite Hl, Hr.
    destruct (after_one_shot (now k - last_wall_ns m) (itimers m Real) H3 H2 ltac:(lia)) as (A1 & A2 & A3).
    split; [lia|]. split; [done|]. split; [done|]. intros Hpos Hmis. destruct (A3 Hpos) as [A4 ->]. unfold covered in H4.
    destruct (H4 ltac:(lia) Hmis) as (d & Hd & Hin & Hle). exists d. split; [done|]. split; [apply elem_of_app; by right|lia].
  - intros Hmu. destruct (Hk u mu Hmu) as (H1 & H2 & H3 & H4). do 3 (split; [done|]). intros Hpos Hmis. unfold covered in H4.
    destruct (H4 Hpos Hmis) as (d & Hd & Hin & Hle). exists d. split; [done|]. split; [apply elem_of_app; by right|done].
Qed.

Lemma alarm_turn_ok due missed i k k' :
  time_ok due missed k -> alarm_turn i k = Some k' -> time_ok due (missed_step (TAlarm i) k missed) k'.
Proof.
  intros Hk. unfold alarm_turn, missed_step. destruct (alarms k !! i) as [e|] eqn:Hi; [|done].
  destruct (forallb _ _ && _) eqn:Hg; [|done]. apply andb_true_iff in Hg as [_ Hdue%Z.leb_le]. intros [= <-].
  set (k1 := match task e with Some t => _ | None => k end).
  assert (H1 : time_ok due missed k1 /\ now k1 = now k /\ epoch k1 = epoch k /\ (exists es, alarms k1 = es ++ alarms k) /\
    (forall t m, task e = Some t -> t ∉ borrowed k -> threads k1 !! t = Some m -> last_wall_ns m = now k)).
  { subst k1. destruct (task e) as [t|] eqn:Ht; [|split; [done|split; [done|split; [done|split; [by exists []|done]]]]].
    destruct (poll_timer_ok due missed None t k Hk) as (A1 & A2 & A3 & (es & A4 & _) & A5).
    split; [done|]. split; [done|]. split; [done|]. split; [by exists es|]. intros t' m [= <-]. apply A5. }
  clearbody k1. destruct H1 as (H1 & Hn & He & (es & Ha) & Hl). intros t m Hm. destruct (H1 t m Hm) as (B1 & B2 & B3 & B4).
  do 3 (split; [done|]). intros Hpos Hmis.
  assert (Hm1 : t ∉ missed) by (intros Hx; apply Hmis; destruct e as [? [u|]]; [case_decide; set_solver|done]).
  destruct (B4 Hpos Hm1) as (d & Hd & Hin & Hle). exists d. split; [done|]. split; [|done]. simpl.
  rewrite Ha, length_app. replace (length es + length (alarms k) - length (alarms k) + i)%nat with (length es + i)%nat by lia.
  rewrite Ha in Hin. assert (Hperm : es ++ alarms k ≡ₚ e :: delete (length es + i)%nat (es ++ alarms k)).
  { apply delete_Permutation. rewrite lookup_app_r by lia. by replace (length es + i - length es)%nat with i by lia. }
  rewrite Hperm in Hin. apply elem_of_cons in Hin as [Heq|]; [|done]. exfalso. subst e. simpl in Hdue, Hl.
  assert (Hb : t ∉ borrowed k) by (intros Hb; apply Hmis; rewrite decide_True by done; set_solver).
  specialize (Hl t m eq_refl Hb Hm). unfold wall_time in Hdue. rewrite He in *. lia.
Qed.

Lemma set_state_ok due missed t st k : time_ok due missed k -> time_ok due missed (set_threads (alter (set_state st) t (threads k)) k).
Proof.
  intros Hk u m. simpl. rewrite lookup_alter. case_decide as Hu; [subst t|apply Hk].
  destruct (threads k !! u) as [m0|] eqn:Hm; [|done]. intros [= <-]. exact (Hk u m0 Hm).
Qed.

Lemma set_itimer_ok due missed t which i r k :
  time_ok due missed k -> (which = 0 -> i = 0) -> 0 <= i -> 0 <= r ->
  time_ok (due_step (TSet t which i r) k due) (missed_step (TSet t which i r) k missed) (sys_setitimer t which i r k).2.
Proof.
  intros Hk Hone Hi Hr.
  assert (Hother : forall u m k1 due1 missed1, threads k !! u = Some m -> now k1 = now k -> epoch k1 = epoch k -> (forall e, e ∈ alarms k -> e ∈ alarms k1) ->
    due1 !! u = due !! u -> (u ∉ missed1 -> u ∉ missed) -> last_wall_ns m <= now k1 /\ 0 <= remained_ns (itimers m Real) /\ interval_ns (itimers m Real) = 0 /\ covered due1 missed1 k1 u m).
  { intros u m k1 due1 missed1 Hm Hn He Ha Hd Hms. destruct (Hk u m Hm) as (H1 & H2 & H3 & H4). rewrite Hn. do 3 (split; [done|]). intros Hpos Hmis.
    destruct (H4 Hpos (Hms Hmis)) as (d & Hd' & Hin & Hle). exists d. rewrite Hd, He. split; [done|]. split; [by apply Ha|done]. }
  unfold sys_setitimer, from_repr, due_step, missed_step. destruct (Z.eqb_spec which 0) as [->|Hw].
  - specialize (Hone eq_refl). subst i. unfold set_itimer. destruct (threads k !! t) as [m|] eqn:Ht; simpl; cycle 1.
    { intros u mu Hu. assert (t <> u) by congruence. apply Hother; try done; [case_match; [by rewrite lookup_insert_ne|by rewrite lookup_delete_ne]|set_solver]. }
    destruct (polls_renew (Some t) (mk_itimer 0 r) k) as [Hn He Hth _ (es & Ha & _)]. intros u mu Hmu. simpl in Hmu. rewrite Hth, lookup_insert in Hmu.
    case_decide as Htu.
    + injection Hmu as <-. subst u. destruct (Hk t m Ht) as (H1 & _). simpl. rewrite Hn. split; [done|]. split; [done|]. split; [done|].
      intros Hpos _. simpl in Hpos |- *. rewrite (proj2 (Z.ltb_lt 0 r) Hpos). exists (now k + r). rewrite lookup_insert_eq. split; [done|].
      split; [|lia]. unfold renew_timer. simpl. rewrite (proj2 (Z.ltb_lt 0 r) Hpos). simpl. unfold wall_time.
      apply elem_of_cons. left. f_equal. lia.
    + apply Hother; simpl; try done; [intros e Hin; rewrite Ha; apply elem_of_app; by right| |set_solver].
      case_match; [by rewrite lookup_insert_ne|by rewrite lookup_delete_ne].
  - assert (Hty : forall ty, ty <> Real -> time_ok due missed (set_itimer t ty i r k).2).
    { intros ty Hty. unfold set_itimer. destruct (threads k !! t) as [m|] eqn:Ht; simpl; [|done].
      destruct (polls_renew (Some t) (mk_itimer i r) k) as [Hn He Hth _ (es & Ha & _)]. intros u mu Hmu. simpl in Hmu. rewrite Hth, lookup_insert in Hmu.
      assert (Hin : forall e, e ∈ alarms k -> e ∈ alarms (renew_timer (Some t) (mk_itimer i r) k)) by (intros e He'; rewrite Ha; apply elem_of_app; by right).
      case_decide as Htu; [|by apply Hother]. injection Hmu as <-. subst u.
      destruct (Hother t m (renew_timer (Some t) (mk_itimer i r) k) due missed Ht Hn He Hin eq_refl ltac:(done)) as (B1 & B2 & B3 & B4).
      unfold covered in *. simpl. rewrite !decide_False by done. done. }
    destruct (which =? 1); [|destruct (which =? 2); [|done]].
    + specialize (Hty Virtual ltac:(done)). by destruct (set_itimer t Virtual i r k) as [[? ?] ?].
    + specialize (Hty Prof ltac:(done)). by destruct (set_itimer t Prof i r k) as [[? ?] ?].
Qed.

Lemma time_step_ok due missed ev k k' :
  0 <= now k -> time_ok due missed k -> one_shot ev -> time_step ev k = Some k' ->
  0 <= now k' /\ time_ok (due_step ev k due) (missed_step ev k missed) k'.
Proof.
  intros H0 Hk Hev. destruct ev as [d|t|t st|t which i r|i|t|t]; [cbn [time_step due_step missed_step]..| | |].
  - destruct (Z.ltb_spec d 0); [done|]. intros [= <-]. split; [simpl; lia|]. intros t m Hm. destruct (Hk t m Hm) as (H1 & H2 & H3 & H4). simpl. split; [lia|]. done.
  - destruct (threads k !! t) eqn:Ht; [done|]. intros [= <-]. split; [done|]. intros u m. simpl. rewrite lookup_insert. case_decide; [|apply Hk].
    intros [= <-]. simpl. split; [lia|]. split; [done|]. split; [done|]. unfold covered. simpl. lia.
  - intros [= <-]. unfold set_timer_state. case_decide; [done|].
    destruct (poll_timer_ok due missed (Some t) t k Hk) as (A1 & A2 & _). split; [simpl; by rewrite A2|]. by apply set_state_ok.
  - destruct (Z.ltb_spec i 0), (Z.ltb_spec r 0); try done. simpl. case_bool_decide; [done|]. intros [= <-]. split; [|by apply set_itimer_ok].
    unfold sys_setitimer. destruct (from_repr which); [|done]. unfold set_itimer. destruct (threads k !! t); simpl; [|done].
    by rewrite (p_now _ _ (polls_renew _ _ _)).
  - cbn [time_step due_step]. intros Ha. split; [|by apply alarm_turn_ok]. unfold alarm_turn in Ha. destruct (alarms k !! i) as [e|]; [|done].
    case_match; [|done]. injection Ha as <-. simpl. destruct (task e) as [t|]; [|done].
    by rewrite (proj1 (proj2 (poll_timer_ok due missed None t k Hk))).
  - by intros [= <-].
  - by intros [= <-].
Qed.

Lemma time_run_ok evs : forall due missed k k',
  0 <= now k -> time_ok due missed k -> Forall one_shot evs -> time_run evs k = Some k' ->
  time_ok (due_run evs k due) (missed_run evs k missed) k'.
Proof.
  induction evs as [|ev evs IH]; intros due missed k k' H0 Hk Hone; simpl; [by intros [= <-]|]. apply Forall_cons in Hone as [Hev Hone].
  destruct (time_step ev k) as [k1|] eqn:He; [|done]. simpl. destruct (time_step_ok due missed ev k k1 H0 Hk Hev He) as [H1 Hk1]. by apply IH.
Qed.

(** C27: After any history in which real-time timers are set without an interval, once the alarm task
    has worked off the alarms that are due, a timer that still runs was set to a time that is yet to
    come; except that of a thread whose alarm came while it had borrowed its times. *)
Theorem expired_timers_have_fired (evs : list time_event) (ep : Z) (k : kernel) (t : Z) (m : TimeManager) :
  time_run evs (time_boot ep) = Some k -> Forall one_shot evs -> Forall (fun e => wall_time k < deadline e) (alarms k) ->
  threads k !! t = Some m -> 0 < remained_ns (itimers m Real) ->
  t ∈ missed_run evs (time_boot ep) ∅ \/ exists d, due_run evs (time_boot ep) ∅ !! t = Some d /\ now k < d.
Proof.
  intros Hr Hone Hno Ht Hpos. destruct (decide (t ∈ missed_run evs (time_boot ep) ∅)) as [|Hmis]; [by left|right].
  assert (Hk : time_ok (due_run evs (time_boot ep) ∅) (missed_run evs (time_boot ep) ∅) k).
  { apply (time_run_ok evs ∅ ∅ (time_boot ep)); [simpl; lia| |done|done]. intros u mu. simpl. by rewrite lookup_empty. }
  destruct (Hk t m Ht) as (_ & _ & _ & Hc). destruct (Hc Hpos Hmis) as (d & Hd & Hin & _). exists d. split; [done|].
  rewrite Forall_forall in Hno. specialize (Hno _ Hin). simpl in Hno. unfold wall_time in Hno. lia.
Qed.

(** The alarm task gets there: while an alarm is due it can take one, and there is one less each time. *)
Definition due_alarms (k : kernel) : nat := length (filter (fun e => deadline e <= wall_time k) (alarms k)).

Lemma earliest (l : list Entry) : l <> [] -> exists i e, l !! i = Some e /\ Forall (fun e' => deadline e <= deadline e') l.
Proof.
  induction l as [|x l IH]; [done|]. intros _. destruct l as [|y l'].
  - exists 0%nat, x. split; [done|]. repeat constructor. lia.
  - destruct IH as (i & e & Hi & He); [done|]. destruct (decide (deadline x <= deadline e)).
    + exists 0%nat, x. split; [done|]. constructor; [lia|]. eapply Forall_impl; [exact He|]. intros e' ?. simpl in *. lia.
    + exists (S i), e. split; [done|]. constructor; [lia|done].
Qed.

Lemma alarm_turn_enabled k : (0 < due_alarms k)%nat -> exists i k', alarm_turn i k = Some k'.
Proof.
  intros Hd. destruct (earliest (alarms k)) as (i & e & Hi & He); [intros Ha; unfold due_alarms in Hd; rewrite Ha in Hd; simpl in Hd; lia|].
  unfold alarm_turn. exists i. rewrite Hi. assert (Hall : forallb (fun e' => deadline e <=? deadline e') (alarms k) = true).
  { apply forallb_forall. intros x Hx%list_elem_of_In. rewrite Forall_forall in He. apply Z.leb_le. by apply He. }
  rewrite Hall. assert (Hdue : (deadline e <=? wall_time k) = true); [|rewrite Hdue; by eexists]. apply Z.leb_le. unfold due_alarms in Hd.
  destruct (filter _ (alarms k)) as [|x l] eqn:Hf; [simpl in Hd; lia|].
  assert (Hx : x ∈ filter (fun e => deadline e <= wall_time k) (alarms k)) by (rewrite Hf; by left).
  apply list_elem_of_filter in Hx as [Hx Hin]. rewrite Forall_forall in He. specialize (He x Hin). lia.
Qed.

Lemma alarm_turn_progress due missed i k k' : time_ok due missed k -> alarm_turn i k = Some k' -> due_alarms k = S (due_alarms k').
Proof.
  intros Hk. unfold alarm_turn. destruct (alarms k !! i) as [e|] eqn:Hi; [|done].
  destruct (forallb _ _ && _) eqn:Hg; [|done]. apply andb_true_iff in Hg as [_ Hdue%Z.leb_le]. intros [= <-].
  set (k1 := match task e with Some t => _ | None => k end).
  assert (H1 : now k1 = now k /\ epoch k1 = epoch k /\ exists es, alarms k1 = es ++ alarms k /\ Forall (fun e => wall_time k < deadline e) es).
  { subst k1. destruct (task e) as [t|]; [|split; [done|split; [done|by exists []]]]. destruct (poll_timer_ok due missed None t k Hk) as (_ & A2 & A3 & A4 & _). done. }
  clearbody k1. destruct H1 as (Hn & He & es & Ha & Hes). unfold due_alarms, wall_time. simpl. rewrite Hn, He, Ha, length_app.
  replace (length es + length (alarms k) - length (alarms k) + i)%nat with (length es + i)%nat by lia.
  assert (Hperm : es ++ alarms k ≡ₚ e :: delete (length es + i)%nat (es ++ alarms k)).
  { apply delete_Permutation. rewrite lookup_app_r by lia. by replace (length es + i - length es)%nat with i by lia. }
  assert (Hnone : filter (fun e => deadline e <= now k + epoch k) es = []).
  { clear -Hes. induction Hes as [|x l Hx Hl IH]; [done|]. rewrite filter_cons_False; [done|]. unfold wall_time in Hx. lia. }
  assert (Hfil : filter (fun e => deadline e <= now k + epoch k) (alarms k) ≡ₚ
    e :: filter (fun e => deadline e <= now k + epoch k) (delete (length es + i)%nat (es ++ alarms k))).
  { transitivity (filter (fun e => deadline e <= now k + epoch k) (e :: delete (length es + i)%nat (es ++ alarms k))).
    - by rewrite <-Hperm, filter_app, Hnone.
    - by rewrite filter_cons_True. }
  by rewrite Hfil.
Qed.

(** A one-shot timer fires while its thread sleeps. *)
Definition alarm_trace : list time_event := [TTick 5; TSpawn 1; TSwitch 1 Kernel; TSet 1 0 0 10; TTick 10; TAlarm 0; TSet 1 0 0 20].
Lemma expired_timers_have_fired_witness : exists k m,
  time_run alarm_trace (time_boot 1000) = Some k /\ signals k = [(1, SIGALRM)] /\ threads k !! 1 = Some m /\
  exists d, due_run alarm_trace (time_boot 1000) ∅ !! 1 = Some d /\ now k < d.
Proof.
  eexists. eexists. split; [vm_compute; reflexivity|]. split; [vm_compute; reflexivity|]. split; [vm_compute; reflexivity|].
  refine (or_ind _ (fun H => H) (expired_timers_have_fired alarm_trace 1000 _ 1 _ _ _ _ _ _));
    [|vm_compute; reflexivity| | |vm_compute; reflexivity|vm_compute; reflexivity].
  - vm_compute. intros H. discriminate H.
  - repeat (apply Forall_cons; split); simpl; done.
  - repeat constructor.
Defined.

(** ** Limits *)

(** An alarm that comes while its thread looks at its times is lost: the thread is not polled, the
    alarm is taken off, and nothing polls a thread that sleeps. *)
Theorem borrowed_times_lose_an_alarm :
  exists k, time_run [TSpawn 1; TSwitch 1 Kernel; TSet 1 0 0 10; TTick 10; TBorrow 1; TAlarm 0; TReturn 1] (time_boot 0) = Some k /\
    signals k = [] /\ (fun m => remained_ns (itimers m Real)) <$> threads k !! 1 = Some 10 /\
    forall d i, time_run [TTick d; TAlarm i] k = None.
Proof.
  eexists. split; [vm_compute; reflexivity|]. split; [done|]. split; [done|]. intros d i. simpl. by destruct (d <? 0).
Qed.

(** A timer with an interval that the alarm task renews stops: the new alarm names the alarm task,
    so that when it is due no thread is polled, and then there is none left, however long the thread
    sleeps. *)
Theorem interval_timer_stops :
  exists k, time_run [TSpawn 1; TSwitch 1 Kernel; TSet 1 0 10 10; TTick 10; TAlarm 0; TTick 10; TAlarm 0] (time_boot 0) = Some k /\
    signals k = [(1, SIGALRM)] /\ (fun m => remained_ns (itimers m Real)) <$> threads k !! 1 = Some 10 /\
    forall d i, time_run [TTick d; TAlarm i] k = None.
Proof.
  eexists. split; [vm_compute; reflexivity|]. split; [done|]. split; [done|]. intros d i. simpl. by destruct (d <? 0).
Qed.

(** The times of a thread add up to the time since it was first in user or kernel mode, whether it ran
    or not. *)
Definition accounted (start : Z) (m : TimeManager) : Prop := state m <> NoState /\ utime_ns m + stime_ns m = last_wall_ns m - start.

Lemma poll_accounts start current owner m k : accounted start m -> accounted start (poll current owner m k).1.
Proof.
  intros [Hs Ha]. pose proof (timer_poll_spec current owner m k) as Hp. destruct (poll current owner m k) as [m' k'].
  destruct Hp as (_ & Hl & Hst & Hu & Hk & _). simpl. unfold accounted. rewrite Hl, Hst, Hu, Hk. split; [done|]. destruct (state m); [done|lia|lia].
Qed.
