(* ===== verification/AddrSpace.v ===== *)
(** * Address spaces

    [AddrSpace] of [kernel/src/mm/aspace/mod.rs] and the calls of [kernel/src/syscall/mm/mmap.rs]:
    mapping, unmapping, protecting and moving memory, the check of user ranges, and the copying of data
    page by page.

    The set of areas ([memory_set]), the page table and the backends of areas are parameters; what a
    set of areas says of each address is their common view.  Addresses and sizes are [usize]. *)

From S2P Require Import Prelude PageCache.

Definition PAGE_SIZE_4K : Z := 4096.
Definition SIZE_2M : Z := 2097152.
Definition SIZE_1G : Z := 1073741824.

Definition align_down (a n : Z) : Z := a / n * n.
Definition align_up (a n : Z) : Z := (a + n - 1) / n * n.
Definition is_aligned (a n : Z) : bool := a mod n =? 0.

(** [MappingFlags]. *)
Definition READ : Z := 1.
Definition WRITE : Z := 2.
Definition EXECUTE : Z := 4.
Definition USER : Z := 8.
Definition contains (flags f : Z) : bool := Z.land flags f =? f.

(** [MemoryArea]. *)
Record MemoryArea (B : Type) : Type := mk_area { a_start : Z; a_size : Z; a_flags : Z; a_backend : B }.
Arguments mk_area {B}.
Arguments a_start {B}.
Arguments a_size {B}.
Arguments a_flags {B}.
Arguments a_backend {B}.
Definition a_end {B} (a : MemoryArea B) : Z := a_start a + a_size a.
Definition holds {B} (a : MemoryArea B) (v : Z) : bool := (a_start a <=? v) && (v <? a_end a).

(** [MemorySet<B>], with the page table it keeps up to date. *)
Class MemorySet (S B : Type) := {
  ms_new : S;
  ms_iter : S -> list (MemoryArea B);
  ms_find_free_area : Z -> Z -> Z * Z -> Z -> S -> option Z;
  ms_map : MemoryArea B -> S -> result VfsError S;
  ms_unmap : Z -> Z -> S -> result VfsError S;
  ms_protect : Z -> Z -> Z -> S -> result VfsError S;
}.

(** [MemorySet::find]: the area that holds an address. *)
Definition ms_find {S B} `{MemorySet S B} (v : Z) (s : S) : option (MemoryArea B) :=
  head (filter (fun a => holds a v = true) (ms_iter s)).

(** What a set says of an address. *)
Definition at_ {S B} `{MemorySet S B} (s : S) (v : Z) : option (Z * B) := (fun a => (a_flags a, a_backend a)) <$> ms_find v s.
Definition within (start size v : Z) : bool := (start <=? v) && (v <? start + size).

Class MemorySetLaws (S B : Type) `{MemorySet S B} : Prop := {
  ms_new_empty : ms_iter (S := S) (B := B) ms_new = [];
  ms_sorted s (i j : nat) a b : ms_iter s !! i = Some a -> ms_iter s !! j = Some b -> (i < j)%nat -> a_end a <= a_start b;
  ms_nonempty s a : a ∈ ms_iter s -> 0 < a_size a;
  ms_free hint size lo hi align s x : ms_find_free_area hint size (lo, hi) align s = Some x ->
    lo <= x /\ x + size <= hi /\ x mod align = 0 /\ forall v, within x size v = true -> at_ s v = None;
  ms_map_ok a s s' : ms_map a s = Ok s' ->
    (forall v, holds a v = true -> at_ s v = None) /\
    forall v, at_ s' v = if holds a v then Some (a_flags a, a_backend a) else at_ s v;
  ms_unmap_ok start size s s' : ms_unmap start size s = Ok s' -> forall v, at_ s' v = if within start size v then None else at_ s v;
  ms_protect_ok start size flags s s' : ms_protect start size flags s = Ok s' ->
    forall v, at_ s' v = if within start size v then (fun x => (flags, x.2)) <$> at_ s v else at_ s v;
}.

Section aspace.
Context {S B : Type} `{MS : MemorySet S B}.

(** [AddrSpace]. *)
Record AddrSpace : Type := mk_aspace { base : Z; end_ : Z; areas : S }.
Definition new_empty (b size : Z) : AddrSpace := mk_aspace b (b + size) ms_new.
Definition set_areas (s : S) (a : AddrSpace) : AddrSpace := mk_aspace (base a) (end_ a) s.

Definition contains_range (start size : Z) (a : AddrSpace) : bool :=
  (base a <=? start) && (start <? end_ a) && (size <=? end_ a - start).

Definition validate_region (start size : Z) (a : AddrSpace) : result VfsError () :=
  if negb (contains_range start size a) then Err NoMemory
  else if negb (is_aligned start PAGE_SIZE_4K) || negb (is_aligned size PAGE_SIZE_4K) then Err InvalidInput
  else Ok ().

(** [Backend::populate], for a part of an area: the number of pages, or an error; what it does to the
    page table does not change the areas. *)
Context (populate : MemoryArea B -> Z -> Z -> Z -> result VfsError Z).

(** The loop of [populate_area] and what follows it. *)
Fixpoint populate_loop (fuel : nat) (start stop access : Z) (s : S) : result VfsError () :=
  match fuel with
  | O => Err NoMemory
  | Datatypes.S fuel =>
      match ms_find start s with
      | None => if start <? stop then Err NoMemory else Ok ()
      | Some a =>
          match populate a start (Z.min (a_end a) stop) access with
          | Err e => Err e
          | Ok _ => if stop <=? a_end a then Ok () else populate_loop fuel (a_end a) stop access s
          end
      end
  end.
Definition populate_area (start size access : Z) (a : AddrSpace) : result VfsError () :=
  match validate_region start size a with
  | Err e => Err e
  | Ok _ => populate_loop (Datatypes.S (length (ms_iter (areas a)))) start (start + size) access (areas a)
  end.

(** [map]: the areas stay mapped if they cannot be populated. *)
Definition map_ (start size flags : Z) (pop : bool) (b : B) (a : AddrSpace) : result VfsError () * AddrSpace :=
  match validate_region start size a with
  | Err e => (Err e, a)
  | Ok _ =>
      match ms_map (mk_area start size flags b) (areas a) with
      | Err e => (Err e, a)
      | Ok s => let a' := set_areas s a in (if pop then populate_area start size flags a' else Ok (), a')
      end
  end.

Definition unmap (start size : Z) (a : AddrSpace) : result VfsError () * AddrSpace :=
  match validate_region start size a with
  | Err e => (Err e, a)
  | Ok _ => match ms_unmap start size (areas a) with Err e => (Err e, a) | Ok s => (Ok (), set_areas s a) end
  end.

Definition protect (start size flags : Z) (a : AddrSpace) : result VfsError () * AddrSpace :=
  match validate_region start size a with
  | Err e => (Err e, a)
  | Ok _ => match ms_protect start size flags (areas a) with Err e => (Err e, a) | Ok s => (Ok (), set_areas s a) end
  end.

Definition find_free_area (hint size align : Z) (a : AddrSpace) : option Z := ms_find_free_area hint size (base a, end_ a) align (areas a).

(** [can_access_range]: the loop over the areas, in order. *)
Fixpoint access_loop (as_ : list (MemoryArea B)) (start stop access : Z) : bool :=
  match as_ with
  | [] => false
  | a :: as_ =>
      if a_end a <=? start then access_loop as_ start stop access
      else if start <? a_start a then false
      else if negb (contains (a_flags a) access) then false
      else if stop <=? a_end a then true
      else access_loop as_ (a_end a) stop access
  end.
Definition can_access_range (start size access : Z) (a : AddrSpace) : bool :=
  if u64_max <? start + size then false else access_loop (ms_iter (areas a)) start (start + size) access.

(** [handle_page_fault]; [page_size] is that of a backend. *)
Definition handle_page_fault (page_size : B -> Z) (vaddr access : Z) (a : AddrSpace) : bool :=
  if negb ((base a <=? vaddr) && (vaddr <? end_ a)) then false
  else match ms_find vaddr (areas a) with
       | None => false
       | Some ar =>
           if contains (a_flags ar) access then
             let ps := page_size (a_backend ar) in
             match populate ar (align_down vaddr ps) (align_down vaddr ps + ps) access with
             | Ok n => negb (n =? 0)
             | Err _ => false
             end
           else false
       end.
(** ** Copying *)

(** [process_area_data]: the physical pieces of a range, each with its offset and length, given what the
    page table says of a page. *)
Context (query : Z -> option Z).

Fixpoint area_loop (pages : list Z) (start size cnt : Z) : result VfsError (list (Z * Z * Z)) :=
  match pages with
  | [] => Ok []
  | vaddr :: pages =>
      match query vaddr with
      | None => Err BadAddress
      | Some paddr =>
          let copy_size := Z.min (size - cnt) PAGE_SIZE_4K in
          if copy_size =? 0 then Ok []
          else
            let off := start mod PAGE_SIZE_4K in
            let '(paddr, copy_size) :=
              if (vaddr =? align_down start PAGE_SIZE_4K) && negb (off =? 0)
              then (paddr + off, Z.min copy_size (PAGE_SIZE_4K - off)) else (paddr, copy_size) in
            match area_loop pages start size (cnt + copy_size) with
            | Err e => Err e
            | Ok l => Ok ((paddr, cnt, copy_size) :: l)
            end
      end
  end.
Definition process_area_data (start size : Z) (a : AddrSpace) : result VfsError (list (Z * Z * Z)) :=
  if negb (contains_range start size a) then Err InvalidInput
  else
    let first := align_down start PAGE_SIZE_4K in
    let n := (align_up (start + size) PAGE_SIZE_4K - first) / PAGE_SIZE_4K in
    area_loop ((fun i => first + i * PAGE_SIZE_4K) <$> seqZ 0 n) start size 0.

(** [read] and [write], on memory as a function. *)
Definition aspace_read (mem : Z -> Z) (start size : Z) (a : AddrSpace) : result VfsError (list Z) :=
  match process_area_data start size a with
  | Err e => Err e
  | Ok l => Ok (concat ((fun '(p, _, n) => mem <$> seqZ p n) <$> l))
  end.
Definition copy_to (p : Z) (bs : list Z) (mem : Z -> Z) : Z -> Z :=
  fun x => if (p <=? x) && (x <? p + Z.of_nat (length bs)) then nth (Z.to_nat (x - p)) bs 0 else mem x.
Definition aspace_write (mem : Z -> Z) (start : Z) (buf : list Z) (a : AddrSpace) : result VfsError () * (Z -> Z) :=
  match process_area_data start (Z.of_nat (length buf)) a with
  | Err e => (Err e, mem)
  | Ok l => (Ok (), foldl (fun m '(p, off, n) => copy_to p (take (Z.to_nat n) (drop (Z.to_nat off) buf)) m) mem l)
  end.

(** ** Calls *)

(** [PROT_] and [MAP_] flags. *)
Definition PROT_READ : Z := 1.
Definition PROT_WRITE : Z := 2.
Definition PROT_EXEC : Z := 4.
Definition PROT_GROWSDOWN : Z := 16777216.
Definition PROT_GROWSUP : Z := 33554432.
Definition PROT_ALL : Z := 50331655.
Definition MAP_SHARED : Z := 1.
Definition MAP_PRIVATE : Z := 2.
Definition MAP_SHARED_VALIDATE : Z := 3.
Definition MAP_TYPE : Z := 15.
Definition MAP_FIXED : Z := 16.
Definition MAP_ANONYMOUS : Z := 32.
Definition MAP_POPULATE : Z := 32768.
Definition MAP_HUGETLB : Z := 262144.
Definition MAP_FIXED_NOREPLACE : Z := 1048576.
Definition MAP_HUGE_1GB : Z := 2013265920.
(** All flags of [MmapFlags]: also [DENYWRITE], [NORESERVE] and [STACK]. *)
Definition MAP_ALL : Z := 2013265920 + 1048576 + 262144 + 131072 + 32768 + 16384 + 2048 + 32 + 16 + 15.

(** [MmapProt] as [MappingFlags]. *)
Definition mapping_flags (prot : Z) : Z :=
  Z.lor USER (Z.lor (if contains prot PROT_READ then READ else 0)
    (Z.lor (if contains prot PROT_WRITE then WRITE else 0) (if contains prot PROT_EXEC then EXECUTE else 0))).

(** What a file is, for [mmap]: cached pages, or a device that can be mapped or not. *)
Inductive mmap_file : Type :=
| FCached
| FNoDevice
| FNoMmap
| FReadOnly
| FPhysical (start stop : Z)
| FDeviceCache.

(** The backend that is made: for shared file pages, copies on write, new memory, shared memory, or
    physical memory. *)
Inductive backend_kind : Type :=
| KFile (start offset : Z)
| KCow (start page_size offset : Z)
| KAlloc (start page_size : Z)
| KShared (start length : Z)
| KLinear (offset : Z).
Context (mk_backend : backend_kind -> B).

(** The backend and the length to map; [shared_pages] says whether shared pages can be allocated. *)
Definition choose_backend (shared : bool) (file : option mmap_file) (start length page_size offset : Z) (shared_pages : bool) :
    result VfsError (backend_kind * Z) :=
  if shared then
    match file with
    | Some FCached | Some FDeviceCache => Ok (KFile start offset, length)
    | Some FNoDevice | Some FNoMmap => Err NoSuchDevice
    | Some FReadOnly => Ok (KCow start page_size offset, length)
    | Some (FPhysical p q) =>
        let p := p + offset in
        if q <=? p then Err InvalidInput else Ok (KLinear (start - p), Z.min length (align_down (q - p) page_size))
    | None => if shared_pages then Ok (KShared start length, length) else Err NoMemory
    end
  else
    match file with
    | Some _ => Ok (KCow start page_size offset, length)
    | None => Ok (KAlloc start page_size, length)
    end.

(** Where to map: [sys_mmap] up to the choice of the address. *)
Definition mmap_place (start length page_size flags : Z) (a : AddrSpace) : result VfsError Z * AddrSpace :=
  if contains flags MAP_FIXED || contains flags MAP_FIXED_NOREPLACE then
    if contains flags MAP_FIXED_NOREPLACE then (Ok start, a)
    else match unmap start length a with (Ok _, a') => (Ok start, a') | (Err e, a') => (Err e, a') end
  else
    match find_free_area start length page_size a with
    | Some x => (Ok x, a)
    | None => match find_free_area (base a) length page_size a with Some x => (Ok x, a) | None => (Err NoMemory, a) end
    end.

(** The page size that the flags ask for. *)
Definition page_size_of (flags : Z) : Z :=
  if contains flags (Z.lor MAP_HUGETLB MAP_HUGE_1GB) then SIZE_1G else if contains flags MAP_HUGETLB then SIZE_2M else PAGE_SIZE_4K.

(** [sys_mmap]; [file] is what [File::from_fd] and [backend] say of the descriptor. *)
Definition sys_mmap (addr length prot flags fd offset : Z) (file : result VfsError mmap_file) (shared_pages : bool) (a : AddrSpace) :
    result VfsError Z * AddrSpace :=
  if length =? 0 then (Err InvalidInput, a)
  else if negb (Z.land flags (Z.lnot MAP_ALL) =? 0) && (Z.land flags MAP_TYPE =? MAP_SHARED_VALIDATE) then (Err OperationNotSupported, a)
  else
    let flags := Z.land flags MAP_ALL in
    let map_type := Z.land flags MAP_TYPE in
    if negb ((map_type =? MAP_PRIVATE) || (map_type =? MAP_SHARED) || (map_type =? MAP_SHARED_VALIDATE)) then (Err InvalidInput, a)
    else if negb (Bool.eqb (contains flags MAP_ANONYMOUS) (fd <=? 0)) then (Err InvalidInput, a)
    else if (fd <=? 0) && negb (offset =? 0) then (Err InvalidInput, a)
    else if (offset <? 0) || negb (is_aligned offset PAGE_SIZE_4K) then (Err InvalidInput, a)
    else
      let page_size := page_size_of flags in
      let start := align_down addr page_size in
      let stop := align_up (as_u64 (addr + length)) page_size in
      let length := as_u64 (stop - start) in
      match mmap_place start length page_size flags a with
      | (Err e, a) => (Err e, a)
      | (Ok start, a) =>
          match (if 0 <? fd then match file with Ok f => Ok (Some f) | Err e => Err e end else Ok None) with
          | Err e => (Err e, a)
          | Ok file =>
              match choose_backend (negb (map_type =? MAP_PRIVATE)) file start length page_size offset shared_pages with
              | Err e => (Err e, a)
              | Ok (k, length) =>
                  match map_ start length (mapping_flags prot) (contains flags MAP_POPULATE) (mk_backend k) a with
                  | (Err e, a) => (Err e, a)
                  | (Ok _, a) => (Ok start, a)
                  end
              end
          end
      end.

Definition sys_munmap (addr length : Z) (a : AddrSpace) : result VfsError Z * AddrSpace :=
  match unmap addr (align_up length PAGE_SIZE_4K) a with (Ok _, a) => (Ok 0, a) | (Err e, a) => (Err e, a) end.

Definition sys_mprotect (addr length prot : Z) (a : AddrSpace) : result VfsError Z * AddrSpace :=
  if negb (Z.land prot (Z.lnot PROT_ALL) =? 0) then (Err InvalidInput, a)
  else if contains prot (Z.lor PROT_GROWSDOWN PROT_GROWSUP) then (Err InvalidInput, a)
  else match protect addr (align_up length PAGE_SIZE_4K) (mapping_flags prot) a with (Ok _, a) => (Ok 0, a) | (Err e, a) => (Err e, a) end.

(** [sys_mremap]; [copy] says whether the data can be read and written. *)
Definition sys_mremap (addr old_size new_size : Z) (copy shared_pages : bool) (a : AddrSpace) : result VfsError Z * AddrSpace :=
  if negb (is_aligned addr PAGE_SIZE_4K) then (Err InvalidInput, a)
  else
    let old_size := align_up old_size PAGE_SIZE_4K in
    let new_size := align_up new_size PAGE_SIZE_4K in
    match ms_find addr (areas a) with
    | None => (Err NoMemory, a)
    | Some ar =>
        match sys_mmap addr new_size (a_flags ar) MAP_PRIVATE (-1) 0 (Err BadFileDescriptor) shared_pages a with
        | (Err e, a) => (Err e, a)
        | (Ok new_addr, a) =>
            if negb copy then (Err BadAddress, a)
            else match sys_munmap addr old_size a with (Ok _, a) => (Ok new_addr, a) | (Err e, a) => (Err e, a) end
        end
    end.
(** ** Areas and addresses *)

Context `{!MemorySetLaws S B}.

Definition area_list_ok (l : list (MemoryArea B)) : Prop :=
  (forall i j a b, l !! i = Some a -> l !! j = Some b -> (i < j)%nat -> a_end a <= a_start b) /\ (forall a, a ∈ l -> 0 < a_size a).

Lemma area_list_cons a l : area_list_ok (a :: l) -> 0 < a_size a /\ (forall b, b ∈ l -> a_end a <= a_start b) /\ area_list_ok l.
Proof.
  intros [Hs Hn]. split; [apply Hn; by left|]. split; [|split].
  - intros b [j Hj]%list_elem_of_lookup. apply (Hs 0%nat (Datatypes.S j)); [done|done|lia].
  - intros i j b c Hi Hj Hij. apply (Hs (Datatypes.S i) (Datatypes.S j)); [done|done|lia].
  - intros b Hb. apply Hn. by right.
Qed.

(** In an ordered list an address is held once. *)
Lemma first_holds l v a : area_list_ok l -> a ∈ l -> holds a v = true -> head (filter (fun a => holds a v = true) l) = Some a.
Proof.
  induction l as [|b l IH]; intros Hl Hin Hv; [by apply not_elem_of_nil in Hin|]. apply area_list_cons in Hl as (Hb & Hlt & Hl).
  rewrite filter_cons. case_decide as Hbv.
  - apply elem_of_cons in Hin as [->|Hin]; [done|]. exfalso. specialize (Hlt a Hin). unfold holds in *. bool_hyps. lia.
  - apply elem_of_cons in Hin as [->|Hin]; [done|]. by apply IH.
Qed.

Lemma iter_ok s : area_list_ok (ms_iter s).
Proof. split; [apply ms_sorted|apply ms_nonempty]. Qed.

Lemma at_some s v x : at_ s v = Some x <-> exists a, a ∈ ms_iter s /\ holds a v = true /\ x = (a_flags a, a_backend a).
Proof.
  unfold at_, ms_find. split.
  - intros Hx. destruct (head _) as [a|] eqn:Ha; [|done]. simpl in Hx. injection Hx as <-. apply head_Some_elem_of in Ha.
    apply list_elem_of_filter in Ha as [Hv Hin]. by exists a.
  - intros (a & Hin & Hv & ->). by rewrite (first_holds _ _ a (iter_ok s) Hin Hv).
Qed.

Lemma access_loop_spec l access stop : forall start,
  area_list_ok l -> start < stop ->
  access_loop l start stop access = true <->
  forall v, start <= v < stop -> exists a, a ∈ l /\ holds a v = true /\ contains (a_flags a) access = true.
Proof.
  induction l as [|a l IH]; intros start Hl Hst; simpl.
  { split; [done|]. intros Hv. destruct (Hv start ltac:(lia)) as (a & Hin & _). by apply not_elem_of_nil in Hin. }
  apply area_list_cons in Hl as (Ha & Hlt & Hl).
  assert (Htail : forall v, a_end a <= v -> (exists b, b ∈ a :: l /\ holds b v = true /\ contains (a_flags b) access = true) <->
    exists b, b ∈ l /\ holds b v = true /\ contains (a_flags b) access = true).
  { intros v Hv. split; intros (b & Hin & Hh & Hc).
    - apply elem_of_cons in Hin as [->|Hin]; [|by exists b]. unfold holds in Hh. bool_hyps. lia.
    - exists b. split; [by right|done]. }
  assert (Hhead : forall v b, v < a_end a -> b ∈ a :: l -> holds b v = true -> b = a).
  { intros v b Hv [->|Hin]%elem_of_cons Hb; [done|]. specialize (Hlt b Hin). unfold holds in Hb. bool_hyps. lia. }
  destruct (Z.leb_spec (a_end a) start) as [He|He].
  { rewrite IH by done. split; intros Hx v Hv; [apply Htail; [lia|by apply Hx]|apply Htail; [lia|by apply Hx]]. }
  destruct (Z.ltb_spec start (a_start a)) as [Hs|Hs].
  { split; [done|]. intros Hx. destruct (Hx start ltac:(lia)) as (b & Hin & Hh & _). rewrite (Hhead start b He Hin Hh) in Hh.
    unfold holds in Hh. bool_hyps. lia. }
  assert (Hself : forall v, start <= v < a_end a -> holds a v = true) by (intros v Hv; unfold holds; apply andb_true_iff; rewrite Z.leb_le, Z.ltb_lt; lia).
  destruct (contains (a_flags a) access) eqn:Hc; cbn [negb]; cycle 1.
  { split; [done|]. intros Hx. destruct (Hx start ltac:(lia)) as (b & Hin & Hh & Hcb). rewrite (Hhead start b He Hin Hh) in Hcb. congruence. }
  destruct (Z.leb_spec stop (a_end a)) as [Hp|Hp].
  { split; [|done]. intros _ v Hv. exists a. split; [by left|]. split; [apply Hself; lia|done]. }
  rewrite IH by (done || lia). split; intros Hx v Hv.
  - destruct (decide (v < a_end a)); [exists a; split; [by left|]; split; [apply Hself; lia|done]|]. apply Htail; [lia|]. apply Hx. lia.
  - apply Htail; [lia|]. apply Hx. lia.
Qed.

(** An empty range is treated like its first address. *)
Lemma access_loop_empty l start access : access_loop l start start access = access_loop l start (start + 1) access.
Proof.
  induction l as [|a l IH]; simpl; [done|]. destruct (Z.leb_spec (a_end a) start); [done|].
  by rewrite !(proj2 (Z.leb_le _ (a_end a))) by lia.
Qed.

(** C34: The check of a user range says yes exactly if the range does not wrap around and every
    address of it is mapped with the access that is asked for; for an empty range its first address
    counts. *)
Theorem access_check_is_exact (start size access : Z) (a : AddrSpace) :
  0 <= size ->
  can_access_range start size access a = true <->
  start + size <= u64_max /\
  forall v, start <= v < start + Z.max 1 size -> exists flags b, at_ (areas a) v = Some (flags, b) /\ contains flags access = true.
Proof.
  intros Hsz. unfold can_access_range. destruct (Z.ltb_spec u64_max (start + size)) as [Hb|Hb]; [split; [done|lia]|].
  assert (He : access_loop (ms_iter (areas a)) start (start + size) access = access_loop (ms_iter (areas a)) start (start + Z.max 1 size) access).
  { destruct (decide (size = 0)) as [->|]; [rewrite Z.add_0_r; apply access_loop_empty|do 2 f_equal; lia]. }
  rewrite He, access_loop_spec by (apply iter_ok || lia). split.
  - intros Hx. split; [done|]. intros v Hv. destruct (Hx v Hv) as (ar & Hin & Hh & Hc). exists (a_flags ar), (a_backend ar).
    split; [apply at_some; by exists ar|done].
  - intros [_ Hx] v Hv. destruct (Hx v Hv) as (f & b & Hat & Hc). apply at_some in Hat as (ar & Hin & Hh & [= -> ->]). by exists ar.
Qed.
(** ** Mapping *)



Lemma unmap_spec start size a :
  let '(r, a') := unmap start size a in
  base a' = base a /\ end_ a' = end_ a /\
  match r with
  | Ok _ => forall v, at_ (areas a') v = if within start size v then None else at_ (areas a) v
  | Err _ => a' = a
  end.
Proof.
  unfold unmap. destruct (validate_region start size a); [|done]. destruct (ms_unmap start size (areas a)) as [s|e] eqn:Hu; [|done].
  split; [done|]. split; [done|]. exact (ms_unmap_ok _ _ _ _ Hu).
Qed.





(** [munmap] unmaps the pages of the range and no others. *)
Lemma munmap_spec addr length a a' r :
  sys_munmap addr length a = (r, a') ->
  base a' = base a /\ end_ a' = end_ a /\
  match r with
  | Ok _ => forall v, at_ (areas a') v = if within addr (align_up length PAGE_SIZE_4K) v then None else at_ (areas a) v
  | Err _ => a' = a
  end.
Proof.
  unfold sys_munmap. pose proof (unmap_spec addr (align_up length PAGE_SIZE_4K) a) as Hu.
  destruct (unmap addr (align_up length PAGE_SIZE_4K) a) as [[[]|e] a1]; intros [= <- <-]; done.
Qed.

(** [mprotect] changes the protection of what is mapped in the range. *)
Lemma mprotect_spec addr length prot a a' r :
  sys_mprotect addr length prot a = (r, a') ->
  base a' = base a /\ end_ a' = end_ a /\
  match r with
  | Ok _ => forall v, at_ (areas a') v =
      if within addr (align_up length PAGE_SIZE_4K) v then (fun x => (mapping_flags prot, x.2)) <$> at_ (areas a) v else at_ (areas a) v
  | Err _ => a' = a
  end.
Proof.
  unfold sys_mprotect, protect. destruct (negb _); [by intros [= <- <-]|]. destruct (contains prot _); [by intros [= <- <-]|].
  destruct (validate_region _ _ a); [|by intros [= <- <-]]. destruct (ms_protect _ _ _ _) as [s|e] eqn:Hp; intros [= <- <-]; [|done].
  split; [done|]. split; [done|]. exact (ms_protect_ok _ _ _ _ _ Hp).
Qed.

(** [mremap] never succeeds: the new mapping that it asks [mmap] for is private but not anonymous,
    without a file, which [mmap] rejects.  The address space is not changed. *)
Theorem mremap_never_succeeds (addr old_size new_size : Z) (copy shared_pages : bool) (a : AddrSpace) :
  exists e, sys_mremap addr old_size new_size copy shared_pages a = (Err e, a).
Proof.
  unfold sys_mremap. case_match; [by eexists|]. destruct (ms_find addr (areas a)) as [ar|]; [|by eexists].
  unfold sys_mmap. destruct (align_up new_size PAGE_SIZE_4K =? 0); [by eexists|]. by eexists.
Qed.
(** ** Copying is translation *)

(** What the page table says of an address. *)
Definition translate (v : Z) : option Z := (fun p => p + v mod PAGE_SIZE_4K) <$> query (align_down v PAGE_SIZE_4K).

Lemma translate_in_page vaddr v : vaddr mod PAGE_SIZE_4K = 0 -> vaddr <= v < vaddr + PAGE_SIZE_4K -> translate v = (fun p => p + (v - vaddr)) <$> query vaddr.
Proof.
  unfold translate, align_down, PAGE_SIZE_4K. intros Ha Hv. assert (Hd : v / 4096 = vaddr / 4096).
  { symmetry. apply Z.div_unique with (r := v - vaddr); [lia|]. pose proof (Z.div_mod vaddr 4096 ltac:(lia)). lia. }
  pose proof (Z.div_mod vaddr 4096 ltac:(lia)). replace (v / 4096 * 4096) with vaddr by lia.
  pose proof (Z.div_mod v 4096 ltac:(lia)). destruct (query vaddr); simpl; f_equal. lia.
Qed.

(** The pieces of a range: every address is translated, in order; or one is not mapped. *)
Definition pieces_ok (from len : Z) (r : result VfsError (list (Z * Z * Z))) : Prop :=
  match r with
  | Ok l => Forall (fun v => is_Some (translate v)) (seqZ from len) /\
            concat ((fun '(p, _, n) => seqZ p n) <$> l) = (fun v => default 0 (translate v)) <$> seqZ from len
  | Err e => e = BadAddress /\ exists v, from <= v < from + len /\ translate v = None
  end.

(** One page. *)
Lemma piece vaddr p from c :
  vaddr mod PAGE_SIZE_4K = 0 -> query vaddr = Some p -> vaddr <= from -> from + c <= vaddr + PAGE_SIZE_4K ->
  Forall (fun v => is_Some (translate v)) (seqZ from c) /\ seqZ (p + (from - vaddr)) c = (fun v => default 0 (translate v)) <$> seqZ from c.
Proof.
  intros Ha Hq Hlo Hhi. assert (Ht : forall v, v ∈ seqZ from c -> translate v = Some (p + (v - vaddr))).
  { intros v Hv%elem_of_seqZ. rewrite (translate_in_page vaddr v Ha) by lia. by rewrite Hq. }
  split; [apply Forall_forall; intros v Hv; by rewrite Ht|].
  rewrite (list_fmap_ext (fun v => default 0 (translate v)) (Z.add (p - vaddr)) (seqZ from c)).
  - replace (p + (from - vaddr)) with ((p - vaddr) + from) by lia. symmetry. apply fmap_add_seqZ.
  - intros i v Hv. rewrite Ht by (by eapply list_elem_of_lookup_2). simpl. lia.
Qed.

Lemma area_loop_spec (k : nat) start size : forall vaddr cnt,
  0 < size -> 0 <= cnt <= size -> vaddr mod PAGE_SIZE_4K = 0 ->
  (cnt = 0 /\ vaddr = align_down start PAGE_SIZE_4K \/ 0 < cnt /\ vaddr = start + cnt) ->
  start + size <= vaddr + Z.of_nat k * PAGE_SIZE_4K -> (k = 0%nat \/ vaddr + (Z.of_nat k - 1) * PAGE_SIZE_4K < start + size) ->
  pieces_ok (start + cnt) (size - cnt) (area_loop ((fun i => vaddr + i * PAGE_SIZE_4K) <$> seqZ 0 (Z.of_nat k)) start size cnt).
Proof.
  unfold PAGE_SIZE_4K. induction k as [|k IH]; intros vaddr cnt Hsz Hcnt Ha Hpos Hend Hlast.
  { pose proof (Z.mod_pos_bound start 4096 ltac:(lia)). pose proof (Z.div_mod start 4096 ltac:(lia)). unfold align_down in Hpos.
    assert (size - cnt <= 0) by lia. simpl. unfold pieces_ok. rewrite seqZ_nil by lia. done. }
  rewrite seqZ_cons by lia. rewrite fmap_cons. replace (Z.pred (Z.of_nat (Datatypes.S k))) with (Z.of_nat k) by lia. cbn [area_loop].
  replace (vaddr + 0 * 4096) with vaddr by lia. fold PAGE_SIZE_4K.
  assert (Hdown : cnt = 0 -> vaddr <= start < vaddr + 4096 /\ start mod 4096 = start - vaddr).
  { intros ->. destruct Hpos as [[_ ->]|]; [|lia]. unfold align_down, PAGE_SIZE_4K.
    pose proof (Z.mod_pos_bound start 4096 ltac:(lia)). pose proof (Z.div_mod start 4096 ltac:(lia)). lia. }
  assert (Hin : vaddr <= start + cnt < vaddr + 4096) by (destruct Hpos as [[-> _]|[_ ->]]; [destruct (Hdown eq_refl); lia|lia]).
  assert (Hlt : cnt < size) by lia.
  destruct (query vaddr) as [p|] eqn:Hq; cycle 1.
  { split; [done|]. exists (start + cnt). split; [lia|]. rewrite (translate_in_page vaddr) by (unfold PAGE_SIZE_4K; done || lia). by rewrite Hq. }
  set (c := Z.min (size - cnt) (vaddr + 4096 - (start + cnt))).
  assert (Hc : 0 < c) by (subst c; lia).
  assert (Hpc : (if (vaddr =? align_down start PAGE_SIZE_4K) && negb (start mod PAGE_SIZE_4K =? 0)
     then (p + start mod PAGE_SIZE_4K, Z.min (Z.min (size - cnt) PAGE_SIZE_4K) (PAGE_SIZE_4K - start mod PAGE_SIZE_4K))
     else (p, Z.min (size - cnt) PAGE_SIZE_4K)) = (p + (start + cnt - vaddr), c)).
  { subst c. unfold PAGE_SIZE_4K in *. destruct Hpos as [[-> Hv]|[Hcp Hv]].
    - destruct (Hdown eq_refl) as [Hr Hm]. unfold align_down in *. rewrite <-Hv, Z.eqb_refl. cbn [andb]. rewrite Hm.
      destruct (Z.eqb_spec (start - vaddr) 0); cbn [negb]; f_equal; lia.
    - assert ((vaddr =? align_down start 4096) = false) as ->.
      { apply Z.eqb_neq. unfold align_down. pose proof (Z.mod_pos_bound start 4096 ltac:(lia)). pose proof (Z.div_mod start 4096 ltac:(lia)). lia. }
      cbn [andb]. f_equal; lia. }
  rewrite (proj2 (Z.eqb_neq (Z.min (size - cnt) PAGE_SIZE_4K) 0)) by (unfold PAGE_SIZE_4K; lia). rewrite Hpc.
  assert (Hrest : pieces_ok (start + (cnt + c)) (size - (cnt + c))
    (area_loop ((fun i => vaddr + i * PAGE_SIZE_4K) <$> seqZ 1 (Z.of_nat k)) start size (cnt + c))).
  { destruct (decide (cnt + c = size)) as [Hall|Hmore].
    - assert (k = 0%nat) as -> by (subst c; lia). simpl. unfold pieces_ok. rewrite seqZ_nil by lia. done.
    - replace ((fun i => vaddr + i * PAGE_SIZE_4K) <$> seqZ 1 (Z.of_nat k)) with ((fun i => (vaddr + 4096) + i * 4096) <$> seqZ 0 (Z.of_nat k)).
      + apply IH; subst c; try lia. rewrite <-(Z.mod_add vaddr 1 4096) in Ha by lia. unfold PAGE_SIZE_4K in Ha. by rewrite Z.mul_1_l in Ha.
      + change 1 with (1 + 0) at 1. rewrite <-fmap_add_seqZ, <-list_fmap_compose. apply list_fmap_ext. intros i x _. simpl. unfold PAGE_SIZE_4K. lia. }
  destruct (piece vaddr p (start + cnt) c Ha Hq ltac:(lia) ltac:(unfold PAGE_SIZE_4K; subst c; lia)) as [Hsome Heq].
  assert (Hsplit : seqZ (start + cnt) (size - cnt) = seqZ (start + cnt) c ++ seqZ (start + (cnt + c)) (size - (cnt + c))).
  { replace (size - cnt) with (c + (size - (cnt + c))) by lia. rewrite seqZ_app by (subst c; lia). do 2 f_equal; lia. }
  change (Z.succ 0) with 1. unfold pieces_ok in *. destruct (area_loop _ start size (cnt + c)) as [l|e].
  - destruct Hrest as [R1 R2]. rewrite Hsplit, fmap_app. split; [by apply Forall_app|].
    rewrite fmap_cons. cbn [concat]. by rewrite R2, Heq.
  - destruct Hrest as [-> (v & Hv & Hn)]. split; [done|]. exists v. split; [lia|done].
Qed.

(** Reading from an address space, whatever pages the range touches and wherever in them it starts
    and ends, gives the bytes at the physical addresses that the page table has for its addresses, or
    fails because one of them is not mapped. *)
Theorem aspace_reads_what_is_mapped (mem : Z -> Z) (start size : Z) (a : AddrSpace) :
  0 < size -> contains_range start size a = true ->
  match aspace_read mem start size a with
  | Ok bytes => Forall (fun v => is_Some (translate v)) (seqZ start size) /\ bytes = (fun v => mem (default 0 (translate v))) <$> seqZ start size
  | Err e => e = BadAddress /\ exists v, start <= v < start + size /\ translate v = None
  end.
Proof.
  intros Hsz Hr. unfold aspace_read, process_area_data. rewrite Hr. cbn [negb]. set (first := align_down start PAGE_SIZE_4K).
  set (n := (align_up (start + size) PAGE_SIZE_4K - first) / PAGE_SIZE_4K).
  assert (Hn : 0 <= n /\ start + size <= first + n * PAGE_SIZE_4K /\ first + (n - 1) * PAGE_SIZE_4K < start + size /\ first mod PAGE_SIZE_4K = 0).
  { subst n first. unfold align_up, align_down, PAGE_SIZE_4K. set (q := (start + size + 4096 - 1) / 4096).
    pose proof (Z.div_mod (start + size + 4096 - 1) 4096 ltac:(lia)) as Hq. pose proof (Z.mod_pos_bound (start + size + 4096 - 1) 4096 ltac:(lia)).
    fold q in Hq. replace (q * 4096 - start / 4096 * 4096) with ((q - start / 4096) * 4096) by lia. rewrite Z.div_mul by lia.
    pose proof (Z.div_mod start 4096 ltac:(lia)). pose proof (Z.mod_pos_bound start 4096 ltac:(lia)).
    assert (0 < q - start / 4096) by nia. split; [lia|]. split; [lia|]. split; [lia|]. by rewrite Z.mod_mul. }
  destruct Hn as (Hn & Hend & Hlast & Hal).
  pose proof (area_loop_spec (Z.to_nat n) start size first 0 Hsz ltac:(lia) Hal ltac:(by left)) as Hp. rewrite Z2Nat.id in Hp by done.
  specialize (Hp Hend ltac:(right; done)). rewrite Z.add_0_r, Z.sub_0_r in Hp. unfold pieces_ok in Hp.
  destruct (area_loop _ start size 0) as [l|e]; [|done]. destruct Hp as [H1 H2]. split; [done|].
  transitivity (mem <$> concat ((fun '(p, _, m) => seqZ p m) <$> l)); [|by rewrite H2, <-list_fmap_compose].
  clear. induction l as [|[[p o] m] l IH]; [done|]. rewrite !fmap_cons. cbn [concat]. by rewrite fmap_app, IH.
Qed.
End aspace.

(** ** An address space with one area *)

(** The least set of areas: one, which is unmapped and protected as a whole. *)
Definition one_area : Type := option (MemoryArea backend_kind).
Definition overlap (a : MemoryArea backend_kind) (start size : Z) : bool := (start <? a_end a) && (a_start a <? start + size).
Definition inside (a : MemoryArea backend_kind) (start size : Z) : bool := (start <=? a_start a) && (a_end a <=? start + size).

#[local] Instance one_area_set : MemorySet one_area backend_kind := {
  ms_new := None;
  ms_iter s := match s with Some a => if 0 <? a_size a then [a] else [] | None => [] end;
  ms_find_free_area hint size r align s :=
    let x := align_up hint align in
    match s with
    | Some a => if (0 <? a_size a) && overlap a x size then None
                else if (0 <? align) && (r.1 <=? x) && (x + size <=? r.2) then Some x else None
    | None => if (0 <? align) && (r.1 <=? x) && (x + size <=? r.2) then Some x else None
    end;
  ms_map a s := match s with None => if 0 <? a_size a then Ok (Some a) else Err InvalidInput | Some _ => Err AlreadyExists end;
  ms_unmap start size s :=
    match s with
    | None => Ok None
    | Some a => if inside a start size then Ok None else if overlap a start size then Err NoMemory else Ok s
    end;
  ms_protect start size flags s :=
    match s with
    | None => Ok None
    | Some a => if inside a start size then Ok (Some (mk_area (a_start a) (a_size a) flags (a_backend a)))
                else if overlap a start size then Err NoMemory else Ok s
    end;
}.

Lemma one_area_at (s : one_area) v :
  at_ s v = match s with Some a => if (0 <? a_size a) && holds a v then Some (a_flags a, a_backend a) else None | None => None end.
Proof.
  unfold at_, ms_find. simpl. destruct s as [a|]; [|done]. destruct (0 <? a_size a); [|done]. rewrite filter_cons. simpl.
  by destruct (holds a v).
Qed.

#[local] Instance one_area_laws : MemorySetLaws one_area backend_kind.
Proof.
  assert (Hcover : forall a start size v, inside a start size = true -> holds a v = true -> within start size v = true).
  { intros a start size v. unfold inside, holds, within. rewrite !andb_true_iff, !Z.leb_le, !Z.ltb_lt. lia. }
  assert (Hapart : forall a start size v, overlap a start size = false -> within start size v = true -> 0 < a_size a -> holds a v = false).
  { intros a start size v. unfold overlap, holds, within, a_end. rewrite !andb_true_iff, !andb_false_iff, !Z.leb_le, !Z.leb_gt, !Z.ltb_lt, !Z.ltb_ge. lia. }
  split.
  - done.
  - intros s i j a b. simpl. destruct s as [x|]; [|done]. destruct (0 <? a_size x); [|done].
    intros [-> _]%list_lookup_singleton_Some [-> _]%list_lookup_singleton_Some. lia.
  - intros s a. simpl. destruct s as [x|]; [|intros H; by apply not_elem_of_nil in H]. destruct (Z.ltb_spec 0 (a_size x)); [|intros H0; by apply not_elem_of_nil in H0].
    by intros ->%list_elem_of_singleton.
  - intros hint size lo hi align s x. simpl. set (y := align_up hint align).
    assert (Hend : (if (0 <? align) && (lo <=? y) && (y + size <=? hi) then Some y else None) = Some x -> lo <= x /\ x + size <= hi /\ x mod align = 0).
    { destruct (Z.ltb_spec 0 align), (Z.leb_spec lo y), (Z.leb_spec (y + size) hi); try done. intros [= <-]. split; [done|]. split; [done|].
      subst y. unfold align_up. by rewrite Z.mod_mul by lia. }
    destruct s as [a|].
    + destruct (Z.ltb_spec 0 (a_size a)) as [Ha|Ha]; cbn [andb].
      * destruct (overlap a y size) eqn:Ho; [done|]. intros Hx. destruct (Hend Hx) as (A1 & A2 & A3). do 3 (split; [done|]). intros v Hv.
        rewrite one_area_at. rewrite (Hapart a y size v Ho); [by rewrite andb_false_r| |done].
        revert Hx. case_match; [|done]. intros [= <-]. done.
      * intros Hx. destruct (Hend Hx) as (A1 & A2 & A3). do 3 (split; [done|]). intros v _. rewrite one_area_at.
        by rewrite (proj2 (Z.ltb_ge 0 (a_size a)) Ha).
    + intros Hx. destruct (Hend Hx) as (A1 & A2 & A3). do 3 (split; [done|]). intros v _. by rewrite one_area_at.
  - intros a s s'. simpl. destruct s; [done|]. destruct (0 <? a_size a) eqn:Ha; [|done]. intros [= <-]. split; intros v; [by rewrite one_area_at|].
    rewrite !one_area_at, Ha. done.
  - intros start size s s'. simpl. destruct s as [a|]; [|intros [= <-] v; rewrite one_area_at; by case_match]. destruct (inside a start size) eqn:Hi.
    + intros [= <-] v. rewrite !one_area_at. destruct (within start size v) eqn:Hw; [done|]. destruct (holds a v) eqn:Hh; [|by rewrite andb_false_r].
      by rewrite (Hcover a start size v Hi Hh) in Hw.
    + destruct (overlap a start size) eqn:Ho; [done|]. intros [= <-] v. destruct (within start size v) eqn:Hw; [|done]. rewrite one_area_at.
      destruct (Z.ltb_spec 0 (a_size a)); [|done]. by rewrite (Hapart a start size v Ho Hw).
  - intros start size flags s s'. simpl. destruct s as [a|]; [|intros [= <-] v; rewrite one_area_at; by case_match]. destruct (inside a start size) eqn:Hi.
    + intros [= <-] v. rewrite !one_area_at. simpl. change (holds (mk_area (a_start a) (a_size a) flags (a_backend a)) v) with (holds a v).
      destruct (within start size v) eqn:Hw; [by destruct (_ && _)|]. destruct (holds a v) eqn:Hh; [|by rewrite andb_false_r].
      by rewrite (Hcover a start size v Hi Hh) in Hw.
    + destruct (overlap a start size) eqn:Ho; [done|]. intros [= <-] v. destruct (within start size v) eqn:Hw; [|done]. rewrite one_area_at.
      destruct (Z.ltb_spec 0 (a_size a)); [|done]. by rewrite (Hapart a start size v Ho Hw).
Qed.

(** Two pages at [0x10000], readable and writable, in a space of a megabyte. *)
Definition no_populate : MemoryArea backend_kind -> Z -> Z -> Z -> result VfsError Z := fun _ _ _ _ => Ok 1.
Definition space : AddrSpace (S := one_area) := new_empty 4096 1048576.
Definition mapped_space : AddrSpace (S := one_area) :=
  (sys_mmap no_populate id 65536 5000 3 (MAP_PRIVATE + MAP_ANONYMOUS) (-1) 0 (Err BadFileDescriptor) true space).2.


Lemma access_check_is_exact_witness :
  can_access_range 65600 8000 READ mapped_space = true /\
  (exists flags b, at_ (areas mapped_space) 73599 = Some (flags, b) /\ contains flags READ = true).
Proof.
  assert (Hc : can_access_range 65600 8000 READ mapped_space = true) by (vm_compute; reflexivity).
  split; [exact Hc|]. refine (proj2 (proj1 (access_check_is_exact 65600 8000 READ mapped_space _) Hc) 73599 _); lia.
Defined.

(** Page [n] is in frame [n + 100], of which byte [x] is [x mod 251]. *)
Definition frames_from_100 (v : Z) : option Z := Some (v + 409600).
Lemma aspace_reads_what_is_mapped_witness :
  aspace_read frames_from_100 (fun x => x mod 251) 8190 4 space = Ok ((fun x => x mod 251) <$> [417790; 417791; 417792; 417793]).
Proof.
  pose proof (aspace_reads_what_is_mapped frames_from_100 (fun x => x mod 251) 8190 4 space ltac:(lia) ltac:(vm_compute; reflexivity)) as Hr.
  destruct (aspace_read frames_from_100 (fun x => x mod 251) 8190 4 space) as [bytes|e].
  - destruct Hr as [_ ->]. vm_compute. reflexivity.
  - destruct Hr as [_ (v & _ & Hn)]. discriminate Hn.
Defined.
